(* ===== verification/_CoqProject ===== *)
-Q . S2P
Prelude.v
Types.v
Crypto.v
Tag.v
VmDecode.v
Vm.v
Rlp.v
RlpImpls.v
RlpTyped.v
TxRlp.v
TxHash.v
Params.v
TxVerify.v
StateCache.v
StateItems.v
ShardState.v
ShardTransfer.v
ShardAuth.v
TopState.v
TopPay.v
Nibble.v
TrieNode.v
HashDb.v
Trie.v
TrieTree.v
TrieRefine.v
TrieSpec.v
BTree.v
TrieHash.v
StateCommit.v
StakeData.v
StakeAction.v
Stake.v
StakeLedger.v
StakeSpec.v
StakeTerm.v
StakeClose.v
StakeRun.v
StakeTop.v
StakeProps.v
Header.v
BitSet.v
TmMessage.v
VoteCollector.v
Validators.v
Quorum.v
TmWorker.v
TmRun.v
TmTrace.v
TmSafety.v
TmAgreement.v
TmScenario.v
TmWitness.v
TmFindings.v
MemPoolTypes.v
MemPool.v
MemPoolInv.v
MemPoolSteps.v
MemPoolRecover.v
MemPoolProps.v
Reward.v
RewardFacts.v
CloseBlock.v
CloseProps.v
CloseScenario.v
RlpCompress.v
HeaderChain.v
HeaderChainFacts.v
HeaderChainStep.v
HeaderChainProps.v
HeaderChainScenario.v
BlockChain.v
BlockChainFacts.v
BlockIndex.v
BlockChainStep.v
BlockChainProps.v
BlockChainRuns.v
BlockChainScenario.v
