(* ===== verification/Prelude.v ===== *)
(** * A verification library for the CodeChain node

    CodeChain is a blockchain node for assets and a native coin, written in Rust.  A
    transaction arrives as RLP bytes, is decoded, checked without the state, and applied
    to the state: a top level (accounts, regular keys, shards, texts, parameters) and
    one shard level per shard (assets and asset schemes).  Both levels write to a
    write-back cache with checkpoints over a Merkle trie.  Spending an asset runs its
    lock and unlock scripts on a stack machine, whose signature instructions check a
    digest of the part of the transaction that a tag selects.

    ** The program and its models

    - Prelude.v: what the models share.  [result] is the outcome of a fallible call
      (a value, an error, or an unwinding thread), [stM] threads state through such
      calls; integers at their width with the wrap-around of release builds; byte
      strings; the predicates [keeps], [stays] and [safe] on stateful code.
    - Types.v: the transaction types (types/src/transaction/ input.rs, output.rs,
      order.rs, shard.rs, action.rs).
    - Crypto.v: the interface to digests and signatures.  [Crypto] has Blake2b, the
      other digests, verification and recovery; [CryptoLaws] is what is assumed of
      them.  The functions of crypto/src/blake.rs and key/src/ built on them are
      definitions, and [Sample.crypto] is an instance for examples.
    - Tag.v: the signing tag of types/src/util/tag.rs.
    - VmDecode.v, Vm.v: the virtual machine: vm/src/opcode.rs, instruction.rs and
      decoder.rs in the first, executor.rs in the second.
    - Rlp.v, RlpImpls.v: util/rlp/src/stream.rs, untrusted_rlp.rs and impls.rs.  A
      [Codec] is an instance of both traits of the library and [CodecOk] its contract.
    - TxRlp.v: the encoders and decoders of actions and shard transactions.
    - TxHash.v: hashes, trackers, partial hashing (types/src/transaction/shard.rs) and
      signed transactions (core/src/transaction.rs, key/src/ecdsa.rs).
    - Params.v: types/src/common_params.rs.
    - TxVerify.v: the checks without the state (types/src/transaction/action.rs and
      order.rs).
    - StateCache.v: state/src/cache/write_back.rs.
    - StateItems.v: the records of the state, their codecs and addresses
      (state/src/item/).
    - ShardState.v, ShardTransfer.v, ShardAuth.v: state/src/impls/shard_level.rs with
      its cache; the first file has the operations, the other two the theorems on
      transfers.
    - TopState.v, TopPay.v: state/src/impls/top_level.rs with its cache and the default
      methods of state/src/traits.rs; the second file has the theorem on payments.
    - Nibble.v, TrieNode.v, Trie.v: the Merkle trie of util/merkle/src/ (nibbleslice.rs,
      node.rs, triedb.rs and triedbmut.rs).  TrieTree.v has the trees it stands for,
      TrieRefine.v relates a database to a tree, TrieSpec.v has the theorems.
      TrieHash.v has the root computed in one pass (triehash.rs, skewed.rs) and StateCommit.v
      the commit of a shard cache over the trie (state/src/cache/shard_cache.rs).
    - BTree.v: ordered maps as sorted lists, for the [BTreeMap] of the standard library.
    - StakeData.v, StakeAction.v, Stake.v: the staking contract of
      core/src/consensus/stake/ (action_data.rs, actions.rs and mod.rs).  It reads and
      writes the top level through the class [StakeState]; the votes of the engine are the
      class [Message].  StakeLedger.v has the ledger the data stands for and evaluates the
      contract on it ([does]); StakeSpec.v, StakeTerm.v, StakeClose.v and StakeRun.v show
      what transfers and delegations, nominations and bans, the end of a term, and whole
      runs do to a ledger; StakeTop.v shows that TopState.v keeps the laws of the class;
      StakeProps.v has the theorems.
    - Header.v: block headers with their memoised hashes and their encodings
      (types/src/header.rs), blocks as they are stored and sent (core/src/block.rs) and the
      views that trust their bytes (core/src/views/, core/src/encoded.rs).
    - BitSet.v, TmMessage.v, VoteCollector.v, Validators.v: what Tendermint is built from
      (core/src/consensus/ bit_set.rs, tendermint/message.rs and types.rs, vote_collector.rs and
      validator_set/).  What the engine asks of the chain is the record [Client].
    - TmWorker.v: the worker thread of Tendermint (tendermint/worker.rs, backup.rs, signer.rs).
      [Worker] is its state, [handle] one event of its loop and [exec] a run; votes that are signed
      and what is sent to the network extension and to the client are a trace in the state.  TmRun.v
      has the program logic for it and shows that it terminates, TmTrace.v that the trace only grows.
      Quorum.v weighs validators, TmSafety.v has the invariant of a node at a height, TmAgreement.v
      composes nodes to a network.  TmScenario.v, TmWitness.v and TmFindings.v run it on examples.
    - Reward.v, CloseBlock.v: what the Tendermint engine does when a block is closed
      (core/src/consensus/stake/distribute.rs, [on_close_block] and the functions it calls in
      tendermint/engine.rs, [min_cost] of core/src/codechain_machine.rs).  RewardFacts.v has the lemmas on rewards,
      CloseProps.v the theorems, which evaluate the engine on the ledger of StakeLedger.v, and CloseScenario.v examples.
    - MemPoolTypes.v, MemPool.v: the memory pool of core/src/miner/ (mem_pool_types.rs, mem_pool.rs
      and backup.rs).  MemPoolInv.v has its invariant, MemPoolSteps.v that its calls keep it,
      MemPoolRecover.v the restart from the database, MemPoolProps.v the theorems.
    - RlpCompress.v: the compression of stored headers and bodies (util/rlp_compress/src/).
    - HeaderChain.v: the header chain of core/src/blockchain/ (headerchain.rs, route.rs, block_info.rs) with its database,
      caches and pending updates.  HeaderChainFacts.v has what it shows to its readers and the ancestors of a header,
      HeaderChainStep.v what a batch leaves, HeaderChainProps.v the tree of headers and the theorems, HeaderChainScenario.v examples.
    - BlockChain.v: the chain of blocks (blockchain.rs, body_db.rs, invoice_db.rs and extras.rs of the same directory) and the calls
      that core/src/client/importer.rs and client.rs make on it.  BlockChainFacts.v has blocks as bytes and the database of bodies,
      BlockIndex.v the index of the transactions, BlockChainStep.v what a batch leaves, BlockChainProps.v the tree of blocks and
      one lemma per call, BlockChainRuns.v the theorems, BlockChainScenario.v examples.
    - HashDb.v: the interface of hash databases (util/hashdb/src/lib.rs) as a class with
      its laws, and the memory database (util/memorydb/src/lib.rs) as its instance.

    A Rust function is a definition of the same name, prefixed with its type where two
    types share it.  Loops are structural recursion on what they walk.

    ** What is proved

    - Transfers: assets are conserved (ShardTransfer.v), every spent asset was
      authorized (ShardAuth.v), and a verified order is executed at its price or better
      (TxVerify.v).
    - Atomicity: a failed transaction leaves its shard (ShardState.v) and the top level
      (TopState.v) as they were, on top of the refinement of the write-back cache to a
      map with a stack of snapshots (StateCache.v).  The exception, a shard whose cache
      is opened by the failing transaction itself, is proved too.
    - Payments: exactly the quantity and the fee are moved (TopPay.v).
    - Scripts: execution ends, within the memory budget, without unwinding; a pay to
      public key opens exactly for a verifying signature; multi-signature checking is
      exact (Vm.v).  The decoder accepts exactly the script format (VmDecode.v).
    - Codecs: every encoder is inverted by its decoder, and no byte string makes a
      decoder unwind (RlpImpls.v, TxRlp.v, TxHash.v, Params.v, StateItems.v); the offset
      cache of a view is invisible (Rlp.v).
    - Signatures: a digest determines the part of the transaction its tag selects
      (TxHash.v).
    - Merkle trie: any sequence of calls behaves as on a map, and two tries have the same
      root exactly when they hold the same map (TrieSpec.v); the memory database counts
      references (HashDb.v).
      The root computed in one pass is the root of the trie (TrieHash.v), and a committed
      cache is what the trie shows under the new root (StateCommit.v).
    - Staking: in every run stakes and coins are conserved and the books stay consistent, no
      call unwinds, closing a term does what it says, jail is temporary, and parameters
      change exactly by a majority of signed stakes.  Three flaws are proved as well:
      transfers to oneself create stakes, repeated signatures count, and closing a term can
      unwind (StakeProps.v).
    - Consensus: a node that follows the protocol does not vote twice, and while two thirds of the
      validators follow it no two blocks of a height are both built upon (TmAgreement.v); handling an
      event ends (TmRun.v); votes are counted once (VoteCollector.v); messages survive encoding and
      what is decoded is well-typed (TmMessage.v).  The conditions of the first two that the code does
      not guarantee are shown to be needed: a clock that runs out breaks locks, a batch of blocks or a
      stale timer makes a node vote twice, the indices of a seal are not checked (TmFindings.v).
    - Rewards: closing a block lets coins and outstanding rewards grow by the block reward and the fees, and
      at the end of a term loses what cannot be divided; no author gets more than it collected for want
      of signatures.  An author of the previous term none of whose signatures is in a seal makes every
      node unwind (CloseProps.v).
    - Memory pool: in every run of calls the queues, counters, the index by account and the database
      agree, the limits hold after each batch, a restart restores the pool, and the transactions offered
      for a block are those at the front of each account's queue.  The conditions are shown to be needed
      (MemPoolProps.v).
    - Chain: under the default rule of the best block and under that of Tendermint, the header chain answers as a tree of headers
      with a best one does, and the walk between two headers ends at their highest common ancestor (HeaderChainProps.v).  The chain of
      blocks answers as a tree of blocks, and its index has the transactions of the chain of the best block and no others; the
      routes of the calls tell which blocks entered and left that chain (BlockChainRuns.v).  Of two invoices of one block with the
      same tracker one is lost.  What is compressed is read back (RlpCompress.v).
    - Stateless checks: the exact condition under which a transfer passes (TxVerify.v),
      and that the checks never unwind.

    ** Bounds

    The other loops take fuel.  The run loop of the machine takes as fuel the number
    of instructions left, since jumps only go forward; [execute_total] shows that it is
    enough.  The RLP iterator takes the number of bytes, since an item takes at least
    one; [rlp_iter_terminates] shows that it is enough.  The recursion of the trie takes one
    more than the nibbles of the path, since a branch consumes at least one;
    [trie_refines_map] shows that it is enough.  [hash256rlp] takes one more than the
    longest key, since it goes one nibble deeper each time; [trie_root_inserts] shows that
    it is enough.  [move_to_step] of the worker calls itself through the vote that it casts; it takes
    three steps for each round that was voted in and four more, since it goes on to a later view only
    where votes of it are known; [event_handled] shows that it is enough.  [check_loop] of the pool takes one more than the transactions of the account, since
    each turn goes one number up; [check_transactions_exact] shows that it is enough.  [tally] and [active_authors] of
    Reward.v go back one header a turn and take the number of the header they start from, [distribute] of CloseBlock.v takes the number of
    stakeholders; [tally_exact], [active_authors_exact] and [does_distribute] show that it is enough.  [swap] of RlpCompress.v goes one
    level down in the bytes each time and takes one more than their number; [compress_roundtrip] shows that it is enough.  [route_level] and [route_meet]
    of HeaderChain.v take the sum of the numbers of both headers, since each turn goes one number down; [tree_route_exact] shows that it
    is enough.  Encodings are limited to
    2^32 bytes, because the stream keeps the sizes of lists in 32 bits; a ledger is about a list of accounts short enough for that
    ([InPlay] of StakeLedger.v).

    ** What is assumed and what is left out

    The state reads the trie through a function from keys to items that may fail, and written
    through the interface [TrieMut] of StateCache.v.  The theorems on the trie assume that
    the nodes that are written do not collide under Blake.  The handlers of custom actions
    are a parameter of the top level that has to respect checkpoints.  The theorems on
    staking assume that the keys of the accounts in play do not collide and that the state
    trie has no missing entries; the engine's calls are made when it makes them ([op_ok] of
    StakeRun.v).  The order in which a hash map is walked is a parameter where
    it shows.  The worker sees one answer of the client and one time for each event, assertions of
    debug builds are left out, the reports of misbehaviour that the validator sets ignore too.  Votes of
    nodes that follow the protocol are not forged ([message_ok] of TmSafety.v, [honest_seal] of
    TmAgreement.v).  Collision freedom of addresses is a hypothesis where it is needed.
    The chain is called as the importer does: a block after its parent, with the header that came before it if one did, and no
    transaction twice on its chain; in Tendermint the scores are those of heights and views ([admissible] of HeaderChainProps.v,
    [block_admissible] of BlockChainProps.v).  Its databases are maps, one for each kind of key, and a batch is written as a whole.

    Not modelled: the databases on disk below the maps of the models, the global cache of committed
    items, the network extension of Tendermint and the other consensus engines, the miner above its
    memory pool, the verification queue and the client around the importer, synchronisation and the network, the RPC, the key
    store and the command line.  They are input and output, threads, or glue between the parts above. *)

From stdpp Require Import base gmap list numbers strings.
From Stdlib Require Import NArith Lia.

Local Open Scope N_scope.

(** * Outcomes of fallible Rust code *)

(** A Rust call that returns [Result<A, E>] returns [Ok] or [Err]; a failed
    [assert!], [expect], [unreachable!] or an index out of range unwinds the
    thread, which is the third outcome. *)
Inductive result (E A : Type) : Type :=
| Ok (a : A)
| Err (e : E)
| Panic.
Arguments Ok {E A} a.
Arguments Err {E A} e.
Arguments Panic {E A}.

#[global] Instance result_ret {E : Type} : MRet (result E) := λ A x, Ok x.
#[global] Instance result_bind {E : Type} : MBind (result E) := λ A B f m,
  match m with Ok a => f a | Err e => Err e | Panic => Panic end.
#[global] Instance result_eq_dec {E A : Type} `{EqDecision E, EqDecision A} :
  EqDecision (result E A).
Proof. solve_decision. Defined.

(** [r.map_err(f)] and the conversion a [?] inserts. *)
Definition map_err {E F A : Type} (f : E → F) (m : result E A) : result F A :=
  match m with Ok a => Ok a | Err e => Err (f e) | Panic => Panic end.

(** [o.ok_or(e)]. *)
Definition ok_or {E A : Type} (o : option A) (e : E) : result E A :=
  match o with Some a => Ok a | None => Err e end.

(** [o.expect(..)], and a slice index. *)
Definition expect {E A : Type} (o : option A) : result E A :=
  match o with Some a => Ok a | None => Panic end.

(** [if !b { return Err(e) }]. *)
Definition ensure {E : Type} (b : bool) (e : E) : result E () :=
  if b then Ok tt else Err e.

(** [assert!(b)]. *)
Definition assert {E : Type} (b : bool) : result E () :=
  if b then Ok tt else Panic.

Definition no_panic {E A : Type} (m : result E A) : Prop := m ≠ Panic.

(** * Stateful Rust code *)

(** A method taking [&mut self] returns an outcome and leaves a new [self]
    behind; on [Err] the mutations done so far stay, as they do in Rust. *)
Definition stM (S E A : Type) : Type := S → result E A * S.

#[global] Instance stM_ret {S E : Type} : MRet (stM S E) := λ A x s, (Ok x, s).
#[global] Instance stM_bind {S E : Type} : MBind (stM S E) := λ A B f m s,
  match m s with
  | (Ok a, s') => f a s'
  | (Err e, s') => (Err e, s')
  | (Panic, s') => (Panic, s')
  end.

Definition get_st {S E : Type} : stM S E S := λ s, (Ok s, s).
Definition put_st {S E : Type} (s' : S) : stM S E () := λ _, (Ok tt, s').
Definition modify_st {S E : Type} (f : S → S) : stM S E () := λ s, (Ok tt, f s).
Definition lift_st {S E A : Type} (r : result E A) : stM S E A := λ s, (r, s).
Definition throw_st {S E A : Type} (e : E) : stM S E A := λ s, (Err e, s).

(** [for x in l { f(x)?; }] *)
Fixpoint for_each {S E A : Type} (f : A → stM S E ()) (l : list A) : stM S E () :=
  match l with
  | [] => mret tt
  | x :: l => _ ← f x; for_each f l
  end.

(** The same loop over a pure fallible body that threads an accumulator. *)
Fixpoint fold_res {E A B : Type} (f : B → A → result E B) (b : B) (l : list A) : result E B :=
  match l with
  | [] => Ok b
  | x :: l => b' ← f b x; fold_res f b' l
  end.

(** [iter.map(f).collect::<Result<Vec<_>, _>>()] *)
Fixpoint map_res {E A B : Type} (f : A → result E B) (l : list A) : result E (list B) :=
  match l with
  | [] => Ok []
  | x :: l => y ← f x; ys ← map_res f l; Ok (y :: ys)
  end.

(** * Machine integers *)

(** Unsigned integers are [N]; the width is written where it matters.  The node
    is built with [cargo build --release], so an overflowing [+] wraps. *)
Definition u16_size : N := 2 ^ 16.
Definition u32_size : N := 2 ^ 32.
Definition u64_size : N := 2 ^ 64.
Definition u128_size : N := 2 ^ 128.

Definition u64_add (a b : N) : N := (a + b) mod u64_size.
Definition u64_sub (a b : N) : N := (a + u64_size - b mod u64_size) mod u64_size.

(** Lengths of Rust vectors and slices are [usize]. *)
Definition len {A : Type} (l : list A) : N := N.of_nat (length l).

Abbreviation bytes := (list N).
Definition bytes_ok (bs : bytes) : Prop := Forall (λ b, b < 256) bs.

(** [Vec::pop]: the last element and the rest. *)
Definition vec_pop {A : Type} (v : list A) : option (A * list A) :=
  match reverse v with
  | [] => None
  | x :: r => Some (x, reverse r)
  end.

(** [uN::from_be_bytes] and [uN::to_be_bytes] on [k] bytes. *)
Definition from_be_bytes (bs : bytes) : N := foldl (λ acc b, 256 * acc + b) 0 bs.

Fixpoint to_be_bytes (k : nat) (n : N) : bytes :=
  match k with
  | O => []
  | S k => to_be_bytes k (n / 256) ++ [n mod 256]
  end.

(** [n.leading_zeros()] for an integer of [bits] bits. *)
Definition leading_zeros (bits n : N) : N := bits - N.size n.

(** Sum of a quantity over a list, without a width. *)
Definition sum_with {A : Type} (f : A → N) (l : list A) : N :=
  foldr (λ x acc, f x + acc) 0 l.

(** * Lemmas on outcomes *)

Lemma Ok_bind {E A B : Type} (a : A) (f : A → result E B) : Ok a ≫= f = f a.
Proof. done. Qed.

Lemma bind_Ok {E A B : Type} (m : result E A) (f : A → result E B) (b : B) :
  m ≫= f = Ok b ↔ ∃ a, m = Ok a ∧ f a = Ok b.
Proof.
  split; [|by intros (a & -> & ?)].
  destruct m; simpl; intros; naive_solver.
Qed.

Lemma bind_Err {E A B : Type} (m : result E A) (f : A → result E B) (e : E) :
  m ≫= f = Err e ↔ m = Err e ∨ ∃ a, m = Ok a ∧ f a = Err e.
Proof.
  split; [|by intros [-> | (a & -> & ?)]].
  destruct m; simpl; intros; naive_solver.
Qed.

Lemma bind_Panic {E A B : Type} (m : result E A) (f : A → result E B) :
  m ≫= f = Panic ↔ m = Panic ∨ ∃ a, m = Ok a ∧ f a = Panic.
Proof.
  split; [|by intros [-> | (a & -> & ?)]].
  destruct m; simpl; intros; naive_solver.
Qed.

Lemma bind_no_panic {E A B : Type} (m : result E A) (f : A → result E B) :
  m ≠ Panic → (∀ a, m = Ok a → f a ≠ Panic) → m ≫= f ≠ Panic.
Proof. intros Hm Hf. destruct m; simpl; auto. Qed.

Lemma map_res_no_panic {E A B : Type} (f : A → result E B) l :
  (∀ a, f a ≠ Panic) → map_res f l ≠ Panic.
Proof.
  intros Hf. induction l as [|x l IH]; simpl; [done|].
  apply bind_no_panic; [done|]. intros y _. by apply bind_no_panic.
Qed.

Lemma st_bind_Ok {S E A B : Type} (m : stM S E A) (f : A → stM S E B) s b s2 :
  (m ≫= f) s = (Ok b, s2) ↔ ∃ a s1, m s = (Ok a, s1) ∧ f a s1 = (Ok b, s2).
Proof.
  unfold mbind, stM_bind. split.
  - destruct (m s) as [[a | e |] s1] eqn:?; naive_solver.
  - intros (a & s1 & -> & ?). done.
Qed.

Lemma ensure_Ok {E : Type} (b : bool) (e : E) u : ensure b e = Ok u ↔ b = true.
Proof. destruct b, u; naive_solver. Qed.

Lemma assert_Ok {E : Type} (b : bool) u : assert (E:=E) b = Ok u ↔ b = true.
Proof. destruct b, u; naive_solver. Qed.

Lemma ok_or_Ok {E A : Type} (o : option A) (e : E) a : ok_or o e = Ok a ↔ o = Some a.
Proof. destruct o; naive_solver. Qed.

Lemma expect_Ok {E A : Type} (o : option A) a : expect (E:=E) o = Ok a ↔ o = Some a.
Proof. destruct o; naive_solver. Qed.

Lemma map_err_Ok {E F A : Type} (f : E → F) (m : result E A) a :
  map_err f m = Ok a ↔ m = Ok a.
Proof. destruct m; naive_solver. Qed.

(** [inv_ok] opens every hypothesis that says a composed computation succeeded. *)
Ltac inv_ok :=
  repeat match goal with
  | H : _ ≫= _ = Ok _ |- _ => apply bind_Ok in H as (? & ? & ?)
  | H : (_ ≫= _) _ = (Ok _, _) |- _ => apply st_bind_Ok in H as (? & ? & ? & ?)
  | H : ensure _ _ = Ok _ |- _ => apply ensure_Ok in H
  | H : assert _ = Ok _ |- _ => apply assert_Ok in H
  | H : ok_or _ _ = Ok _ |- _ => apply ok_or_Ok in H
  | H : expect _ = Ok _ |- _ => apply expect_Ok in H
  | H : map_err _ _ = Ok _ |- _ => apply map_err_Ok in H
  | H : (match ?x with pair _ _ => _ end) = Ok _ |- _ =>
      is_var x; destruct x as [? ?]; simpl in H
  | H : mret _ = Ok _ |- _ => injection H as ?
  | H : Ok _ = Ok _ |- _ => injection H as ?
  | H : Err _ = Ok _ |- _ => discriminate H
  | H : Panic = Ok _ |- _ => discriminate H
  end; simplify_eq.

Lemma map_res_Ok {E A B : Type} (f : A → result E B) l ys :
  map_res f l = Ok ys ↔ Forall2 (λ x y, f x = Ok y) l ys.
Proof.
  revert ys. induction l as [|x l IH]; intros ys; simpl.
  - split; [intros; inv_ok; constructor|]. by inversion 1.
  - split.
    + intros H. inv_ok. constructor; [done|]. by apply IH.
    + inversion 1 as [|? y ? ys' Hx Hl]; subst. rewrite Hx. simpl.
      apply IH in Hl as ->. done.
Qed.

(** Linear arithmetic with divisions and remainders by constants. *)
Ltac lia_div := zify; Z.to_euclidean_division_equations; lia.

(** * Lemmas on lengths, bytes and big-endian integers *)

Lemma len_nil {A : Type} : len (@nil A) = 0.
Proof. done. Qed.

Lemma len_cons {A : Type} (x : A) l : len (x :: l) = 1 + len l.
Proof. unfold len. simpl length. lia. Qed.

Lemma len_app {A : Type} (l k : list A) : len (l ++ k) = len l + len k.
Proof. unfold len. rewrite length_app. lia. Qed.

Lemma len_zero {A : Type} (l : list A) : len l = 0 ↔ l = [].
Proof. unfold len. destruct l; naive_solver lia. Qed.

Lemma vec_pop_snoc {A : Type} (v : list A) x : vec_pop (v ++ [x]) = Some (x, v).
Proof. unfold vec_pop. rewrite reverse_snoc, reverse_involutive. done. Qed.

Lemma vec_pop_Some {A : Type} (v : list A) x v' : vec_pop v = Some (x, v') ↔ v = v' ++ [x].
Proof.
  split; [|intros ->; apply vec_pop_snoc].
  destruct v as [|y v _] using rev_ind; [done|]. rewrite vec_pop_snoc. naive_solver.
Qed.

Lemma vec_pop_None {A : Type} (v : list A) : vec_pop v = None ↔ v = [].
Proof.
  split; [|by intros ->].
  destruct v as [|y v _] using rev_ind; [done|]. by rewrite vec_pop_snoc.
Qed.

Lemma u64_sub_le a b : b ≤ a → a < u64_size → u64_sub a b = a - b.
Proof.
  intros Hb Ha. unfold u64_sub. rewrite (N.mod_small b) by lia.
  replace (a + u64_size - b) with ((a - b) + 1 * u64_size) by lia.
  rewrite N.Div0.mod_add, N.mod_small; lia.
Qed.

Lemma bytes_ok_app bs cs : bytes_ok (bs ++ cs) ↔ bytes_ok bs ∧ bytes_ok cs.
Proof. apply Forall_app. Qed.

Lemma bytes_ok_cons b bs : bytes_ok (b :: bs) ↔ b < 256 ∧ bytes_ok bs.
Proof. unfold bytes_ok. by rewrite Forall_cons. Qed.

Lemma bytes_ok_snoc bs b : bytes_ok (bs ++ [b]) ↔ bytes_ok bs ∧ b < 256.
Proof. rewrite bytes_ok_app, bytes_ok_cons. unfold bytes_ok. rewrite Forall_nil. tauto. Qed.

Lemma from_be_bytes_snoc bs b : from_be_bytes (bs ++ [b]) = 256 * from_be_bytes bs + b.
Proof. unfold from_be_bytes. rewrite foldl_app. done. Qed.

Lemma from_be_bytes_bound bs : bytes_ok bs → from_be_bytes bs < 256 ^ len bs.
Proof.
  induction bs as [|b bs IH] using rev_ind; intros Hok; [done|].
  apply bytes_ok_snoc in Hok as [Hbs Hb]. specialize (IH Hbs).
  rewrite from_be_bytes_snoc, len_app, N.pow_add_r.
  change (256 ^ len [b]) with 256. lia.
Qed.

Lemma from_be_bytes_cons b bs :
  from_be_bytes (b :: bs) = b * 256 ^ len bs + from_be_bytes bs.
Proof.
  induction bs as [|c bs IH] using rev_ind.
  - change (from_be_bytes [b]) with (256 * 0 + b). change (from_be_bytes []) with 0.
    rewrite (len_nil (A:=N)), N.pow_0_r. lia.
  - rewrite app_comm_cons, !from_be_bytes_snoc, IH, len_app, N.pow_add_r.
    change (256 ^ len [c]) with 256. lia.
Qed.

Lemma to_be_bytes_length k n : length (to_be_bytes k n) = k.
Proof. revert n. induction k as [|k IH]; intros n; simpl; [done|].
  rewrite length_app, IH. simpl. lia. Qed.

Lemma to_be_bytes_ok k n : bytes_ok (to_be_bytes k n).
Proof.
  revert n. induction k as [|k IH]; intros n; simpl; [constructor|].
  apply bytes_ok_app. split; [done|]. constructor; [|constructor].
  apply N.mod_lt. done.
Qed.

Lemma from_to_be_bytes k n : n < 256 ^ N.of_nat k → from_be_bytes (to_be_bytes k n) = n.
Proof.
  revert n. induction k as [|k IH]; intros n Hn; simpl.
  - change (256 ^ N.of_nat 0) with 1 in Hn. change (from_be_bytes []) with 0. lia.
  - rewrite from_be_bytes_snoc, IH.
    + pose proof (N.div_mod n 256). lia.
    + rewrite Nat2N.inj_succ, N.pow_succ_r in Hn by lia.
      apply N.Div0.div_lt_upper_bound. lia.
Qed.

Lemma to_from_be_bytes bs : bytes_ok bs → to_be_bytes (length bs) (from_be_bytes bs) = bs.
Proof.
  induction bs as [|b bs IH] using rev_ind; intros Hok; [done|].
  apply bytes_ok_snoc in Hok as [Hbs Hb].
  rewrite length_app, Nat.add_comm. simpl. rewrite from_be_bytes_snoc.
  replace ((256 * from_be_bytes bs + b) / 256) with (from_be_bytes bs).
  2: { rewrite N.mul_comm, N.div_add_l, (N.div_small b), N.add_0_r by lia. done. }
  replace ((256 * from_be_bytes bs + b) mod 256) with b.
  2: { rewrite N.add_comm, N.mul_comm, N.Div0.mod_add, N.mod_small; lia. }
  rewrite (IH Hbs). done.
Qed.

(** * Lemmas on sums *)

Lemma filter_iff_in {A : Type} (P Q : A → Prop) `{∀ x, Decision (P x), ∀ x, Decision (Q x)} (l : list A) :
  (∀ x, x ∈ l → P x ↔ Q x) → filter P l = filter Q l.
Proof.
  induction l as [|x l IH]; intros Hpq; [done|]. rewrite !filter_cons, IH; [|intros; apply Hpq; by right].
  pose proof (Hpq x (list_elem_of_here _ _)). destruct (decide (P x)), (decide (Q x)); tauto || done.
Qed.

Lemma sum_with_nil {A : Type} (f : A → N) : sum_with f [] = 0.
Proof. done. Qed.

Lemma sum_with_cons {A : Type} (f : A → N) x l : sum_with f (x :: l) = f x + sum_with f l.
Proof. done. Qed.

Lemma sum_with_app {A : Type} (f : A → N) l k :
  sum_with f (l ++ k) = sum_with f l + sum_with f k.
Proof. induction l as [|x l IH]; simpl; [done|]. rewrite IH. lia. Qed.

Lemma sum_with_perm {A : Type} (f : A → N) l k : l ≡ₚ k → sum_with f l = sum_with f k.
Proof. induction 1; simpl in *; lia. Qed.

Lemma sum_with_elem {A : Type} (f : A → N) x l : x ∈ l → f x ≤ sum_with f l.
Proof. induction 1; simpl; lia. Qed.

Lemma sum_with_ext {A : Type} (f g : A → N) l :
  (∀ x, x ∈ l → f x = g x) → sum_with f l = sum_with g l.
Proof.
  induction l as [|x l IH]; intros H; simpl; [done|].
  rewrite (H x), IH; [done| |by left]. intros y ?. apply H. by right.
Qed.

Lemma sum_with_le {A : Type} (f g : A → N) l : (∀ x, x ∈ l → f x ≤ g x) → sum_with f l ≤ sum_with g l.
Proof.
  induction l as [|x l IH]; intros Hl; [done|]. rewrite !sum_with_cons.
  pose proof (Hl x ltac:(by left)). assert (sum_with f l ≤ sum_with g l) by (apply IH; intros; apply Hl; by right). lia.
Qed.

Lemma sum_with_add {A : Type} (f g : A → N) l : sum_with (λ x, f x + g x) l = sum_with f l + sum_with g l.
Proof. induction l as [|x l IH]; [done|]. rewrite !sum_with_cons, IH. lia. Qed.

(** * Invariants of stateful code *)

(** [keeps I m]: whatever [m] returns, it leaves a state satisfying [I] behind. *)
Definition keeps {S E A : Type} (I : S → Prop) (m : stM S E A) : Prop :=
  ∀ s, I s → I (m s).2.

(** [safe I m]: started in [I], [m] does not unwind. *)
Definition safe {S E A : Type} (I : S → Prop) (m : stM S E A) : Prop :=
  ∀ s, I s → (m s).1 ≠ Panic.

Section Keeps.
Context {S E : Type} (I : S → Prop).
Implicit Types s : S.

Lemma keeps_ret {A} (a : A) : keeps (E:=E) I (mret a).
Proof. by intros s. Qed.

Lemma keeps_lift {A} (r : result E A) : keeps I (lift_st r).
Proof. by intros s. Qed.

Lemma keeps_throw {A} (e : E) : keeps (A:=A) I (throw_st e).
Proof. by intros s. Qed.

Lemma keeps_bind {A B} (m : stM S E A) (f : A → stM S E B) :
  keeps I m → (∀ a, keeps I (f a)) → keeps I (m ≫= f).
Proof.
  intros Hm Hf s Hs. specialize (Hm s Hs). unfold mbind, stM_bind.
  destruct (m s) as [[a| |] s']; simpl in *; [by apply Hf|done|done].
Qed.

Lemma keeps_if {A} (b : bool) (m1 m2 : stM S E A) :
  keeps I m1 → keeps I m2 → keeps I (if b then m1 else m2).
Proof. by destruct b. Qed.

Lemma safe_ret {A} (a : A) : safe (E:=E) I (mret a).
Proof. by intros s. Qed.

Lemma safe_lift {A} (r : result E A) : r ≠ Panic → safe I (lift_st r).
Proof. by intros ? s. Qed.

Lemma safe_throw {A} (e : E) : safe (A:=A) I (throw_st e).
Proof. by intros s. Qed.

(** The continuation may use what the first computation returned. *)
Lemma safe_bind_ok {A B} (m : stM S E A) (f : A → stM S E B) :
  safe I m → keeps I m → (∀ a s s', I s → m s = (Ok a, s') → safe I (f a)) →
  safe I (m ≫= f).
Proof.
  intros Hm Hk Hf s Hs. specialize (Hm s Hs). specialize (Hk s Hs).
  unfold mbind, stM_bind. destruct (m s) as [[a| |] s'] eqn:E'; simpl in *; [|done|done].
  by eapply Hf.
Qed.

Lemma safe_bind {A B} (m : stM S E A) (f : A → stM S E B) :
  safe I m → keeps I m → (∀ a, safe I (f a)) → safe I (m ≫= f).
Proof. intros. apply safe_bind_ok; auto. Qed.

Lemma safe_if {A} (b : bool) (m1 m2 : stM S E A) :
  safe I m1 → safe I m2 → safe I (if b then m1 else m2).
Proof. by destruct b. Qed.

Lemma keeps_for_each {A} (f : A → stM S E ()) l :
  (∀ x, keeps I (f x)) → keeps I (for_each f l).
Proof.
  intros Hf. induction l as [|x l IH]; simpl; [apply keeps_ret|].
  by apply keeps_bind.
Qed.
End Keeps.

(** [stays I m]: [m], unless it unwinds, leaves a state satisfying [I] behind. *)
Definition stays {S E A : Type} (I : S → Prop) (m : stM S E A) : Prop :=
  ∀ s, I s → (m s).1 ≠ Panic → I (m s).2.

Section Stays.
Context {S E : Type} (I : S → Prop).

Lemma keeps_stays {A} (m : stM S E A) : keeps I m → stays I m.
Proof. intros Hm s Hs _. by apply Hm. Qed.

Lemma stays_bind {A B} (m : stM S E A) (f : A → stM S E B) :
  stays I m → (∀ a, stays I (f a)) → stays I (m ≫= f).
Proof.
  intros Hm Hf s Hs. specialize (Hm s Hs). unfold mbind, stM_bind.
  destruct (m s) as [[a| |] s']; simpl in *; [|by intros _; apply Hm|done].
  apply Hf. by apply Hm.
Qed.

(** The continuation may use what the first computation returned. *)
Lemma stays_bind_ok {A B} (m : stM S E A) (f : A → stM S E B) :
  stays I m → (∀ a s s', I s → m s = (Ok a, s') → stays I (f a)) → stays I (m ≫= f).
Proof.
  intros Hm Hf s Hs. specialize (Hm s Hs). unfold mbind, stM_bind.
  destruct (m s) as [[a| |] s'] eqn:Em; simpl in *; [|by intros _; apply Hm|done].
  eapply Hf; [exact Hs|exact Em|]. by apply Hm.
Qed.

Lemma stays_for_each {A} (f : A → stM S E ()) l :
  (∀ x, stays I (f x)) → stays I (for_each f l).
Proof.
  intros Hf. induction l as [|x l IH]; simpl; [apply keeps_stays, keeps_ret|].
  by apply stays_bind.
Qed.
End Stays.

Create HintDb st_db.

(** [np_db]: pure code that does not unwind. *)
Create HintDb np_db.
#[export] Hint Resolve map_res_no_panic : np_db.
#[export] Hint Extern 1 (Ok _ ≠ Panic) => discriminate : np_db.
#[export] Hint Extern 1 (Err _ ≠ Panic) => discriminate : np_db.

(** Goes through a pure computation branch by branch. *)
Ltac np_tac :=
  repeat first
    [ done
    | solve [auto with np_db]
    | apply bind_no_panic; [|intros]
    | match goal with
      | |- (if ?b then _ else _) ≠ Panic => destruct b eqn:?
      | |- (match ?x with _ => _ end) ≠ Panic => destruct x eqn:?
      end ].
#[export] Hint Resolve keeps_ret keeps_lift keeps_throw keeps_if safe_ret safe_throw safe_if
  keeps_for_each : st_db.
