(* ===== verification/Types.v ===== *)
(** Data of [types/src/transaction]: previous outputs, inputs, outputs,
    timelocks, orders, the shard-level transaction, the action of a parcel and
    the parcel itself, each with the constructors and fields of the source. *)

From stdpp Require Import base gmap list numbers strings.
From S2P Require Import Prelude.

Local Open Scope N_scope.

(** Hashes, keys and signatures are byte arrays of fixed size ([H160] is 20
    bytes, [H256] 32, [Public] 64, [Signature] 65); a Rust [String] is the byte
    string of its UTF-8 form. *)
Abbreviation H160 := bytes.
Abbreviation H256 := bytes.
Abbreviation Address := bytes.
Abbreviation Public := bytes.
Abbreviation Signature := bytes.
Abbreviation NetworkId := bytes.
Abbreviation String := bytes.
Abbreviation ShardId := N.
Abbreviation BlockNumber := N.

(** [H160::zero()], the asset type of wrapped CCC. *)
Definition H160_zero : H160 := replicate 20 0.
Definition is_zero (h : bytes) : bool := forallb (λ b, b =? 0) h.

Inductive Timelock :=
| Block (n : N)
| BlockAge (n : N)
| Time (n : N)
| TimeAge (n : N).
#[global] Instance Timelock_eq_dec : EqDecision Timelock.
Proof. solve_decision. Defined.

Record AssetOutPoint := {
  aop_tracker : H256;
  aop_index : N;
  aop_asset_type : H160;
  aop_shard_id : ShardId;
  aop_quantity : N;
}.
#[global] Instance AssetOutPoint_eq_dec : EqDecision AssetOutPoint.
Proof. solve_decision. Defined.

Record AssetTransferInput := {
  ati_prev_out : AssetOutPoint;
  ati_timelock : option Timelock;
  ati_lock_script : bytes;
  ati_unlock_script : bytes;
}.
#[global] Instance AssetTransferInput_eq_dec : EqDecision AssetTransferInput.
Proof. solve_decision. Defined.

Record AssetTransferOutput := {
  ato_lock_script_hash : H160;
  ato_parameters : list bytes;
  ato_asset_type : H160;
  ato_shard_id : ShardId;
  ato_quantity : N;
}.
#[global] Instance AssetTransferOutput_eq_dec : EqDecision AssetTransferOutput.
Proof. solve_decision. Defined.

Record AssetMintOutput := {
  amo_lock_script_hash : H160;
  amo_parameters : list bytes;
  amo_supply : N;
}.
#[global] Instance AssetMintOutput_eq_dec : EqDecision AssetMintOutput.
Proof. solve_decision. Defined.

(** [AssetMintOutput::default()]. *)
Definition AssetMintOutput_default : AssetMintOutput :=
  {| amo_lock_script_hash := H160_zero; amo_parameters := []; amo_supply := 0 |}.

Record AssetWrapCCCOutput := {
  awo_lock_script_hash : H160;
  awo_parameters : list bytes;
  awo_quantity : N;
}.
#[global] Instance AssetWrapCCCOutput_eq_dec : EqDecision AssetWrapCCCOutput.
Proof. solve_decision. Defined.

Record Order := {
  ord_asset_type_from : H160;
  ord_asset_type_to : H160;
  ord_asset_type_fee : H160;
  ord_shard_id_from : ShardId;
  ord_shard_id_to : ShardId;
  ord_shard_id_fee : ShardId;
  ord_asset_quantity_from : N;
  ord_asset_quantity_to : N;
  ord_asset_quantity_fee : N;
  ord_origin_outputs : list AssetOutPoint;
  ord_expiration : N;
  ord_lock_script_hash_from : H160;
  ord_parameters_from : list bytes;
  ord_lock_script_hash_fee : H160;
  ord_parameters_fee : list bytes;
}.
#[global] Instance Order_eq_dec : EqDecision Order.
Proof. solve_decision. Defined.

Record OrderOnTransfer := {
  oot_order : Order;
  oot_spent_quantity : N;
  oot_input_from_indices : list N;
  oot_input_fee_indices : list N;
  oot_output_from_indices : list N;
  oot_output_to_indices : list N;
  oot_output_owned_fee_indices : list N;
  oot_output_transferred_fee_indices : list N;
}.
#[global] Instance OrderOnTransfer_eq_dec : EqDecision OrderOnTransfer.
Proof. solve_decision. Defined.

(** [enum ShardTransaction]. *)
Module ShardTransaction.
Inductive t :=
| MintAsset (network_id : NetworkId) (shard_id : ShardId) (metadata : String)
    (approver registrar : option Address) (allowed_script_hashes : list H160)
    (output : AssetMintOutput)
| TransferAsset (network_id : NetworkId) (burns inputs : list AssetTransferInput)
    (outputs : list AssetTransferOutput) (orders : list OrderOnTransfer)
| ChangeAssetScheme (network_id : NetworkId) (shard_id : ShardId) (asset_type : H160)
    (seq : N) (metadata : String) (approver registrar : option Address)
    (allowed_script_hashes : list H160)
| IncreaseAssetSupply (network_id : NetworkId) (shard_id : ShardId) (asset_type : H160)
    (seq : N) (output : AssetMintOutput)
| ComposeAsset (network_id : NetworkId) (shard_id : ShardId) (metadata : String)
    (approver registrar : option Address) (allowed_script_hashes : list H160)
    (inputs : list AssetTransferInput) (output : AssetMintOutput)
| DecomposeAsset (network_id : NetworkId) (input : AssetTransferInput)
    (outputs : list AssetTransferOutput)
| UnwrapCCC (network_id : NetworkId) (burn : AssetTransferInput) (receiver : Address)
| WrapCCC (network_id : NetworkId) (shard_id : ShardId) (tx_hash : H256)
    (output : AssetWrapCCCOutput).

#[global] Instance t_eq_dec : EqDecision t.
Proof. solve_decision. Defined.
End ShardTransaction.

(** [enum Action]. *)
Module Action.
Inductive t :=
| MintAsset (network_id : NetworkId) (shard_id : ShardId) (metadata : String)
    (approver registrar : option Address) (allowed_script_hashes : list H160)
    (output : AssetMintOutput) (approvals : list Signature)
| TransferAsset (network_id : NetworkId) (burns inputs : list AssetTransferInput)
    (outputs : list AssetTransferOutput) (orders : list OrderOnTransfer)
    (metadata : String) (approvals : list Signature) (expiration : option N)
| ChangeAssetScheme (network_id : NetworkId) (shard_id : ShardId) (asset_type : H160)
    (seq : N) (metadata : String) (approver registrar : option Address)
    (allowed_script_hashes : list H160) (approvals : list Signature)
| IncreaseAssetSupply (network_id : NetworkId) (shard_id : ShardId) (asset_type : H160)
    (seq : N) (output : AssetMintOutput) (approvals : list Signature)
| ComposeAsset (network_id : NetworkId) (shard_id : ShardId) (metadata : String)
    (approver registrar : option Address) (allowed_script_hashes : list H160)
    (inputs : list AssetTransferInput) (output : AssetMintOutput)
    (approvals : list Signature)
| DecomposeAsset (network_id : NetworkId) (input : AssetTransferInput)
    (outputs : list AssetTransferOutput) (approvals : list Signature)
| UnwrapCCC (network_id : NetworkId) (burn : AssetTransferInput) (receiver : Address)
| Pay (receiver : Address) (quantity : N)
| SetRegularKey (key : Public)
| CreateShard (users : list Address)
| SetShardOwners (shard_id : ShardId) (owners : list Address)
| SetShardUsers (shard_id : ShardId) (users : list Address)
| WrapCCC (shard_id : ShardId) (lock_script_hash : H160) (parameters : list bytes)
    (quantity : N) (payer : Address)
| Custom (handler_id : N) (bytes : bytes)
| Store (content : String) (certifier : Address) (signature : Signature)
| Remove (hash : H256) (signature : Signature).

#[global] Instance t_eq_dec : EqDecision t.
Proof. solve_decision. Defined.

(** [impl From<Action> for Option<ShardTransaction>]. *)
Definition to_shard_transaction (action : t) : option ShardTransaction.t :=
  match action with
  | MintAsset network_id shard_id metadata approver registrar allowed output _ =>
      Some (ShardTransaction.MintAsset network_id shard_id metadata approver registrar
              allowed output)
  | TransferAsset network_id burns inputs outputs orders _ _ _ =>
      Some (ShardTransaction.TransferAsset network_id burns inputs outputs orders)
  | ChangeAssetScheme network_id shard_id asset_type seq metadata approver registrar
      allowed _ =>
      Some (ShardTransaction.ChangeAssetScheme network_id shard_id asset_type seq metadata
              approver registrar allowed)
  | IncreaseAssetSupply network_id shard_id asset_type seq output _ =>
      Some (ShardTransaction.IncreaseAssetSupply network_id shard_id asset_type seq output)
  | ComposeAsset network_id shard_id metadata approver registrar allowed inputs output _ =>
      Some (ShardTransaction.ComposeAsset network_id shard_id metadata approver registrar
              allowed inputs output)
  | DecomposeAsset network_id input outputs _ =>
      Some (ShardTransaction.DecomposeAsset network_id input outputs)
  | UnwrapCCC network_id burn receiver =>
      Some (ShardTransaction.UnwrapCCC network_id burn receiver)
  | _ => None
  end.

(** [Action::asset_transaction]. *)
Definition asset_transaction (self : t) : option ShardTransaction.t :=
  match self with
  | MintAsset _ _ _ _ _ _ _ _ | TransferAsset _ _ _ _ _ _ _ _
  | ChangeAssetScheme _ _ _ _ _ _ _ _ _ | IncreaseAssetSupply _ _ _ _ _ _
  | ComposeAsset _ _ _ _ _ _ _ _ _ | DecomposeAsset _ _ _ _
  | UnwrapCCC _ _ _ => to_shard_transaction self
  | _ => None
  end.

(** [Action::approvals]. *)
Definition approvals (self : t) : option (list Signature) :=
  match self with
  | MintAsset _ _ _ _ _ _ _ approvals | TransferAsset _ _ _ _ _ _ approvals _
  | ChangeAssetScheme _ _ _ _ _ _ _ _ approvals | IncreaseAssetSupply _ _ _ _ _ approvals
  | ComposeAsset _ _ _ _ _ _ _ _ approvals | DecomposeAsset _ _ _ approvals =>
      Some approvals
  | _ => None
  end.

(** [Action::network_id]. *)
Definition network_id (self : t) : option NetworkId :=
  match self with
  | MintAsset network_id _ _ _ _ _ _ _ | TransferAsset network_id _ _ _ _ _ _ _
  | ChangeAssetScheme network_id _ _ _ _ _ _ _ _ | IncreaseAssetSupply network_id _ _ _ _ _
  | ComposeAsset network_id _ _ _ _ _ _ _ _ | DecomposeAsset network_id _ _ _
  | UnwrapCCC network_id _ _ => Some network_id
  | _ => None
  end.
End Action.

(** [struct Transaction]. *)
Record Transaction := {
  tx_seq : N;
  tx_fee : N;
  tx_network_id : NetworkId;
  tx_action : Action.t;
}.
