(* ===== verification/Crypto.v ===== *)
(** The cryptographic primitives the node calls, which come from third-party
    crates (rust-crypto and libsecp256k1) and are parameters of the model, and the
    functions of [crypto/src] and [key/src] written over them. *)

From stdpp Require Import base list numbers.
From S2P Require Import Prelude Types.

Local Open Scope N_scope.

(** What the third-party crates provide: BLAKE2b by output length and key,
    RIPEMD-160, SHA-256, Keccak-256, and ECDSA verification and public-key
    recovery over secp256k1 (an error carries the text it prints). *)
Class Crypto := {
  blake2b : N → bytes → bytes → bytes;
  ripemd160 : bytes → H160;
  sha256 : bytes → H256;
  keccak256 : bytes → H256;
  verify_ecdsa : Public → Signature → H256 → result String bool;
  recover_ecdsa : Signature → H256 → result String Public;
}.

(** The documented shape of their results: a digest is a byte array of the
    requested length, a recovered public key is 64 bytes, and neither call
    unwinds. *)
Class CryptoLaws `{Crypto} := {
  blake2b_len n key input : len (blake2b n key input) = n;
  blake2b_bytes n key input : bytes_ok (blake2b n key input);
  recover_len sig msg p : recover_ecdsa sig msg = Ok p → len p = 64;
  recover_no_panic sig msg : recover_ecdsa sig msg ≠ Panic;
}.

(** Schnorr signatures over secp256k1: verification, and signing with the key of an account,
    named by its public half. *)
Abbreviation SchnorrSignature := bytes.
Class Schnorr := {
  verify_schnorr : Public → SchnorrSignature → H256 → result String bool;
  sign_schnorr : Public → H256 → result String SchnorrSignature;
}.
Class SchnorrLaws `{Schnorr} := {
  verify_schnorr_no_panic p sig msg : verify_schnorr p sig msg ≠ Panic;
  sign_schnorr_len p msg sig : sign_schnorr p msg = Ok sig → len sig = 64;
}.

(** Signing with ECDSA, with the key of an account. *)
Class EcdsaSigner := { sign_ecdsa : Public → H256 → result String Signature }.

(** The hash of the RLP of no value, of [crypto/src/blake.rs]. *)
Definition BLAKE_NULL_RLP : H256 :=
  [0x45; 0xb0; 0xcf; 0xc2; 0x20; 0xce; 0xec; 0x5b; 0x7c; 0x1c; 0x62; 0xc4; 0xd4; 0x19; 0x3d; 0x38;
   0xe4; 0xeb; 0xa4; 0x8e; 0x88; 0x15; 0x72; 0x9c; 0xe7; 0x5f; 0x9c; 0x0a; 0xb0; 0xe4; 0xc1; 0xc0].

Section Digests.
Context `{Crypto}.

(** [crypto/src/blake.rs] *)
Definition blake128 (s : bytes) : bytes := blake2b 16 [] s.
Definition blake160 (s : bytes) : H160 := blake2b 20 [] s.
Definition blake256 (s : bytes) : H256 := blake2b 32 [] s.
Definition blake256_with_key (s key : bytes) : H256 := blake2b 32 key s.

(** [key/src/keypair.rs] *)
Definition public_to_address (public : Public) : Address := blake160 public.

(** [verify_ecdsa_address] of [key/src/ecdsa.rs]. *)
Definition verify_address (address : Address) (signature : Signature) (message : H256)
  : result String bool :=
  public ← recover_ecdsa signature message;
  let recovered_address := public_to_address public in
  Ok (bool_decide (address = recovered_address)).

(** [verify(&public, &sig, &msg) == Ok(true)] *)
Definition verifies (public : Public) (signature : Signature) (message : H256) : bool :=
  match verify_ecdsa public signature message with
  | Ok true => true
  | _ => false
  end.
End Digests.

(** A concrete instance, to evaluate definitions on examples: digests pad or cut
    their input, and the signature of a message is the key's first half followed by
    the message. *)
Module Sample.
Definition fit (n : N) (bs : bytes) : bytes :=
  (λ b, b mod 256) <$> take (N.to_nat n) (bs ++ replicate (N.to_nat n) 0).

Definition sign (public : Public) (message : H256) : Signature :=
  fit 32 public ++ fit 32 message ++ [0].

Definition crypto : Crypto := {|
  blake2b n key input := fit n (key ++ input);
  ripemd160 := fit 20;
  sha256 := fit 32;
  keccak256 := fit 32;
  verify_ecdsa public signature message := Ok (bool_decide (signature = sign public message));
  recover_ecdsa signature message := Ok (fit 64 (take 32 signature));
|}.

Definition schnorr : Schnorr := {|
  verify_schnorr public signature message :=
    Ok (bool_decide (signature = fit 32 public ++ fit 32 message));
  sign_schnorr public message := Ok (fit 32 public ++ fit 32 message);
|}.

Lemma fit_len n bs : len (fit n bs) = n.
Proof.
  unfold fit, len. rewrite length_fmap, length_take, length_app, length_replicate. lia.
Qed.

Lemma fit_bytes n bs : bytes_ok (fit n bs).
Proof. unfold fit. apply Forall_fmap, Forall_true. intros b. simpl. lia_div. Qed.

Lemma laws : CryptoLaws (H:=crypto).
Proof.
  split.
  - intros. apply fit_len.
  - intros. apply fit_bytes.
  - intros sig msg p [=<-]. apply fit_len.
  - done.
Qed.

Lemma schnorr_laws : SchnorrLaws (H:=schnorr).
Proof. split; [done|]. intros p msg sig [=<-]. by rewrite len_app, !fit_len. Qed.
End Sample.
