(* ===== verification/Tag.v ===== *)
(** The signing tag of [types/src/util/tag.rs] and the errors of partial hashing
    ([types/src/transaction/partial_hashing.rs]). *)

From stdpp Require Import base list numbers.
From S2P Require Import Prelude.

Local Open Scope N_scope.

Inductive HashingError := InvalidFilter.
#[global] Instance HashingError_eq_dec : EqDecision HashingError.
Proof. solve_decision. Defined.

Record Tag := {
  tag_sign_all_inputs : bool;
  tag_sign_all_outputs : bool;
  tag_filter_len : N;
  tag_filter : bytes;
  tag_bitvec : bytes;
}.
#[global] Instance Tag_eq_dec : EqDecision Tag.
Proof. solve_decision. Defined.

(** [Tag::try_new]. *)
Definition Tag_try_new (bitvec : bytes) : result HashingError Tag :=
  let vec := bitvec in
  '(tag, bitvec) ← ok_or (vec_pop bitvec) InvalidFilter;
  let sign_all_inputs := N.land tag 1 =? 1 in
  let sign_all_outputs := N.land (N.shiftr tag 1) 1 =? 1 in
  let filter_len := N.shiftr tag 2 in
  let length := len bitvec in
  if negb (length =? filter_len) then Err InvalidFilter
  else
    trailing_zero ←
      (if negb (length =? 0) then b ← expect (bitvec !! 0%nat); Ok (b =? 0) else Ok false);
    if trailing_zero : bool then Err InvalidFilter
    else Ok {| tag_sign_all_inputs := sign_all_inputs;
               tag_sign_all_outputs := sign_all_outputs;
               tag_filter_len := filter_len;
               tag_filter := bitvec;
               tag_bitvec := vec |}.

(** [Tag::get_tag]. *)
Definition get_tag (self : Tag) : bytes := tag_bitvec self.

(** The tag byte: two scheme bits below a six-bit filter length. *)
Definition tag_byte (sign_all_inputs sign_all_outputs : bool) (filter_len : N) : N :=
  4 * filter_len + 2 * N.b2n sign_all_outputs + N.b2n sign_all_inputs.

Lemma land_1 n : N.land n 1 = n mod 2.
Proof. change 1 with (N.ones 1) at 1. by rewrite N.land_ones. Qed.

Lemma shiftr_div n k : N.shiftr n k = n / 2 ^ k.
Proof. apply N.shiftr_div_pow2. Qed.

Lemma tag_byte_fields i o n :
  N.land (tag_byte i o n) 1 = N.b2n i ∧
  N.land (N.shiftr (tag_byte i o n) 1) 1 = N.b2n o ∧
  N.shiftr (tag_byte i o n) 2 = n.
Proof.
  rewrite !land_1, !shiftr_div. change (2 ^ 1) with 2. change (2 ^ 2) with 4.
  unfold tag_byte. destruct i, o; cbn [N.b2n]; repeat split; lia_div.
Qed.

Lemma tag_byte_of b :
  b = tag_byte (N.land b 1 =? 1) (N.land (N.shiftr b 1) 1 =? 1) (N.shiftr b 2).
Proof.
  rewrite !land_1, !shiftr_div. change (2 ^ 1) with 2. change (2 ^ 2) with 4.
  unfold tag_byte.
  destruct (N.eqb_spec (b mod 2) 1), (N.eqb_spec ((b / 2) mod 2) 1); cbn [N.b2n]; lia_div.
Qed.

(** A tag is parsed exactly when it is a filter without a leading zero byte
    followed by a tag byte whose upper six bits are the filter's length; the
    parsed fields are then the bits of the tag byte and the filter. *)
Theorem Tag_try_new_exact (bitvec : bytes) (t : Tag) :
  Tag_try_new bitvec = Ok t ↔
    tag_bitvec t = bitvec ∧
    bitvec = tag_filter t ++ [tag_byte (tag_sign_all_inputs t) (tag_sign_all_outputs t)
                                (tag_filter_len t)] ∧
    tag_filter_len t = len (tag_filter t) ∧
    tag_filter t !! 0%nat ≠ Some 0.
Proof.
  unfold Tag_try_new. split.
  - intros H. apply bind_Ok in H as ([b f] & Hp & H). apply ok_or_Ok, vec_pop_Some in Hp as ->.
    destruct (N.eqb_spec (len f) (N.shiftr b 2)) as [Hl|]; [|done]. simpl in H.
    apply bind_Ok in H as ([] & Hz & H); [done|]. simplify_eq/=.
    split_and!; [done| |done|].
    + f_equal. f_equal. apply tag_byte_of.
    + destruct f as [|c f]; [done|]. simpl in Hz. naive_solver.
  - destruct t as [i o n f v]. simpl. intros (-> & -> & -> & Hz).
    destruct (tag_byte_fields i o (len f)) as (Hi & Ho & Hn).
    rewrite vec_pop_snoc. simpl. rewrite Hi, Ho, Hn, N.eqb_refl. simpl.
    replace (if negb (len f =? 0) then _ else _) with (Ok (E:=HashingError) false).
    + by destruct i, o.
    + destruct f as [|c f]; [done|]. simpl.
      rewrite (proj2 (N.eqb_neq c 0)) by naive_solver. done.
Qed.

Lemma Tag_try_new_no_panic bitvec : Tag_try_new bitvec ≠ Panic.
Proof.
  unfold Tag_try_new. destruct (vec_pop bitvec) as [[tag f]|]; simpl; [|done].
  destruct (negb _); [done|]. destruct f as [|b f]; simpl; [done|].
  by destruct (b =? 0).
Qed.
