(* ===== verification/VmDecode.v ===== *)
(** The script format of the CodeChain virtual machine: opcodes
    ([vm/src/opcode.rs]), instructions and the checks on an unlock script
    ([vm/src/instruction.rs]) and the decoder ([vm/src/decoder.rs]).  The decoder
    is shown to accept exactly the byte strings of the format, each with one
    reading. *)

From stdpp Require Import base list numbers.
From S2P Require Import Prelude.

Local Open Scope N_scope.

(** * [vm/src/opcode.rs] *)
Module opcode.
Definition NOP : N := 0x00.
Definition BURN : N := 0x01.
Definition SUCCESS : N := 0x02.
Definition FAIL : N := 0x03.
Definition NOT : N := 0x10.
Definition EQ : N := 0x11.
Definition JMP : N := 0x20.
Definition JNZ : N := 0x21.
Definition JZ : N := 0x22.
Definition PUSH : N := 0x30.
Definition POP : N := 0x31.
Definition PUSHB : N := 0x32.
Definition DUP : N := 0x33.
Definition SWAP : N := 0x34.
Definition COPY : N := 0x35.
Definition DROP : N := 0x36.
Definition CHKSIG : N := 0x80.
Definition CHKMULTISIG : N := 0x81.
Definition BLAKE256 : N := 0x90.
Definition SHA256 : N := 0x91.
Definition RIPEMD160 : N := 0x92.
Definition KECCAK256 : N := 0x93.
Definition BLAKE160 : N := 0x94.
Definition CHKTIMELOCK : N := 0xb0.
End opcode.

(** * [vm/src/instruction.rs] *)
Module Instruction.
Inductive t :=
| Nop | Burn | Success | Fail | Not | Eq
| Jmp (val : N) | Jnz (val : N) | Jz (val : N)
| Push (val : N) | Pop | PushB (blob : bytes)
| Dup | Swap | Copy (index : N) | Drop (index : N)
| ChkSig | ChkMultiSig
| Blake256 | Sha256 | Ripemd160 | Keccak256 | Blake160
| ChkTimelock (timelock_type : N).

#[global] Instance t_eq_dec : EqDecision t.
Proof. solve_decision. Defined.
End Instruction.

Definition is_valid_unlock_script (instrs : list Instruction.t) : bool :=
  forallb (λ instr, match instr with
    | Instruction.Push _ => true
    | Instruction.PushB _ => true
    | _ => false
    end) instrs.

Definition has_expensive_opcodes (instrs : list Instruction.t) : bool :=
  let count := len (filter (λ instr, instr = Instruction.ChkSig ∨ instr = Instruction.ChkMultiSig)
                      instrs) in
  6 <=? count.

(** * [vm/src/decoder.rs] *)
Inductive DecoderError :=
| ScriptTooShort
| InvalidOpCode (op : N)
| InvalidImmediateValue (val : N).
#[global] Instance DecoderError_eq_dec : EqDecision DecoderError.
Proof. solve_decision. Defined.

(** [*iter.next().ok_or(DecoderError::ScriptTooShort)?] *)
Definition next (iter : bytes) : result DecoderError (N * bytes) :=
  match iter with
  | [] => Err ScriptTooShort
  | b :: iter => Ok (b, iter)
  end.

(** The loop of the [PUSHB] arm: [for _ in 0..len { blob.push(..) }]. *)
Fixpoint next_n (n : nat) (iter : bytes) : result DecoderError (bytes * bytes) :=
  match n with
  | O => Ok ([], iter)
  | S n =>
      '(b, iter) ← next iter;
      '(blob, iter) ← next_n n iter;
      Ok (b :: blob, iter)
  end.

(** One turn of the loop of [decode]: the arm chosen by the byte [b]. *)
Definition decode_arm (b : N) (iter : bytes) : result DecoderError (Instruction.t * bytes) :=
  if b =? opcode.NOP then Ok (Instruction.Nop, iter)
  else if b =? opcode.BURN then Ok (Instruction.Burn, iter)
  else if b =? opcode.SUCCESS then Ok (Instruction.Success, iter)
  else if b =? opcode.FAIL then Ok (Instruction.Fail, iter)
  else if b =? opcode.NOT then Ok (Instruction.Not, iter)
  else if b =? opcode.EQ then Ok (Instruction.Eq, iter)
  else if b =? opcode.JMP then '(val, iter) ← next iter; Ok (Instruction.Jmp val, iter)
  else if b =? opcode.JNZ then '(val, iter) ← next iter; Ok (Instruction.Jnz val, iter)
  else if b =? opcode.JZ then '(val, iter) ← next iter; Ok (Instruction.Jz val, iter)
  else if b =? opcode.PUSH then '(val, iter) ← next iter; Ok (Instruction.Push val, iter)
  else if b =? opcode.POP then Ok (Instruction.Pop, iter)
  else if b =? opcode.PUSHB then
    '(l, iter) ← next iter;
    '(blob, iter) ← next_n (N.to_nat l) iter;
    Ok (Instruction.PushB blob, iter)
  else if b =? opcode.DUP then Ok (Instruction.Dup, iter)
  else if b =? opcode.SWAP then Ok (Instruction.Swap, iter)
  else if b =? opcode.COPY then '(val, iter) ← next iter; Ok (Instruction.Copy val, iter)
  else if b =? opcode.DROP then '(val, iter) ← next iter; Ok (Instruction.Drop val, iter)
  else if b =? opcode.CHKSIG then Ok (Instruction.ChkSig, iter)
  else if b =? opcode.CHKMULTISIG then Ok (Instruction.ChkMultiSig, iter)
  else if b =? opcode.BLAKE256 then Ok (Instruction.Blake256, iter)
  else if b =? opcode.SHA256 then Ok (Instruction.Sha256, iter)
  else if b =? opcode.RIPEMD160 then Ok (Instruction.Ripemd160, iter)
  else if b =? opcode.KECCAK256 then Ok (Instruction.Keccak256, iter)
  else if b =? opcode.BLAKE160 then Ok (Instruction.Blake160, iter)
  else if b =? opcode.CHKTIMELOCK then
    '(val, iter) ← next iter;
    if (val <? 1) || (4 <? val) then Err (InvalidImmediateValue val)
    else Ok (Instruction.ChkTimelock val, iter)
  else Err (InvalidOpCode b).

(** [while let Some(b) = iter.next()]; every turn consumes at least one byte, so
    the length of the script bounds the turns ([Panic] marks a run that would
    need more, which [decode_total] excludes). *)
Fixpoint decode_loop (fuel : nat) (iter : bytes) (acc : list Instruction.t)
  : result DecoderError (list Instruction.t) :=
  match iter with
  | [] => Ok acc
  | b :: iter =>
      match fuel with
      | O => Panic
      | S fuel =>
          '(instr, iter) ← decode_arm b iter;
          decode_loop fuel iter (acc ++ [instr])
      end
  end.

Definition decode (script : bytes) : result DecoderError (list Instruction.t) :=
  decode_loop (length script) script [].

(** * The script format *)

(** The byte string of an instruction, and which operands it can carry. *)
Definition encode_instr (i : Instruction.t) : bytes :=
  match i with
  | Instruction.Nop => [opcode.NOP]
  | Instruction.Burn => [opcode.BURN]
  | Instruction.Success => [opcode.SUCCESS]
  | Instruction.Fail => [opcode.FAIL]
  | Instruction.Not => [opcode.NOT]
  | Instruction.Eq => [opcode.EQ]
  | Instruction.Jmp v => [opcode.JMP; v]
  | Instruction.Jnz v => [opcode.JNZ; v]
  | Instruction.Jz v => [opcode.JZ; v]
  | Instruction.Push v => [opcode.PUSH; v]
  | Instruction.Pop => [opcode.POP]
  | Instruction.PushB blob => opcode.PUSHB :: len blob :: blob
  | Instruction.Dup => [opcode.DUP]
  | Instruction.Swap => [opcode.SWAP]
  | Instruction.Copy v => [opcode.COPY; v]
  | Instruction.Drop v => [opcode.DROP; v]
  | Instruction.ChkSig => [opcode.CHKSIG]
  | Instruction.ChkMultiSig => [opcode.CHKMULTISIG]
  | Instruction.Blake256 => [opcode.BLAKE256]
  | Instruction.Sha256 => [opcode.SHA256]
  | Instruction.Ripemd160 => [opcode.RIPEMD160]
  | Instruction.Keccak256 => [opcode.KECCAK256]
  | Instruction.Blake160 => [opcode.BLAKE160]
  | Instruction.ChkTimelock v => [opcode.CHKTIMELOCK; v]
  end.

Definition encode_script (instrs : list Instruction.t) : bytes :=
  concat (encode_instr <$> instrs).

Definition instr_ok (i : Instruction.t) : Prop :=
  match i with
  | Instruction.ChkTimelock v => 1 ≤ v ≤ 4
  | _ => True
  end.

Lemma next_n_app blob rest : next_n (length blob) (blob ++ rest) = Ok (blob, rest).
Proof. induction blob as [|b blob IH]; simpl; [done|]. rewrite IH. done. Qed.

Lemma next_n_Ok n iter blob rest :
  next_n n iter = Ok (blob, rest) → length blob = n ∧ iter = blob ++ rest.
Proof.
  revert iter blob. induction n as [|n IH]; intros iter blob H; simpl in H; [by inv_ok|].
  destruct iter as [|b iter]; [done|]. simpl in H.
  apply bind_Ok in H as ([blob' rest'] & H & ?). inv_ok.
  apply IH in H as [<- ->]. done.
Qed.

(** The arm chosen by a byte reads exactly the instruction's byte string. *)
Lemma decode_arm_Ok b iter i rest :
  decode_arm b iter = Ok (i, rest) → instr_ok i ∧ b :: iter = encode_instr i ++ rest.
Proof.
  unfold decode_arm, next. intros H.
  repeat match type of H with
  | (if (?x =? ?c) then _ else _) = _ =>
      destruct (N.eqb_spec x c) as [->|_];
        [destruct iter as [|v iter]; simpl in H; inv_ok; try done|]
  end; try done.
  - match goal with Hn : next_n _ _ = _ |- _ => apply next_n_Ok in Hn as [Hl ->] end.
    split; [done|]. simpl.
    unfold len. rewrite Hl, N2Nat.id. done.
  - destruct ((v <? 1) || (4 <? v)) eqn:E; [done|]. inv_ok. split; [|done].
    apply orb_false_iff in E as [?%N.ltb_ge ?%N.ltb_ge]. simpl. lia.
Qed.

Lemma decode_arm_encode i rest :
  instr_ok i →
  ∃ b iter, encode_instr i ++ rest = b :: iter ∧ decode_arm b iter = Ok (i, rest).
Proof.
  intros Hok. destruct i; simpl; eexists _, _; split; try reflexivity.
  - unfold decode_arm. simpl. unfold len. rewrite Nat2N.id, next_n_app. done.
  - unfold decode_arm. simpl.
    rewrite (proj2 (N.ltb_ge _ 1)), (proj2 (N.ltb_ge 4 _)) by (simpl in Hok; lia). done.
Qed.

Lemma decode_arm_no_panic b iter : decode_arm b iter ≠ Panic.
Proof.
  assert (Hn : ∀ n it, next_n n it ≠ Panic).
  { induction n as [|n IH]; intros [|c it]; simpl; try done.
    intros [?|([blob r] & ? & ?)]%bind_Panic; [by eapply IH|done]. }
  unfold decode_arm, next. intros H.
  repeat match type of H with
  | (if (?x =? ?c) then _ else _) = _ => destruct (x =? c)
  | context [match iter with _ => _ end] => destruct iter as [|v iter]
  end; simpl in H; try done.
  - apply bind_Panic in H as [H|([blob r] & ? & ?)]; [by eapply Hn|done].
  - by destruct (_ || _).
Qed.

Lemma encode_instr_nonempty i : (1 ≤ length (encode_instr i))%nat.
Proof. destruct i; simpl; lia. Qed.

Lemma decode_loop_Ok fuel iter acc instrs :
  decode_loop fuel iter acc = Ok instrs →
  ∃ new, instrs = acc ++ new ∧ Forall instr_ok new ∧ iter = encode_script new.
Proof.
  revert iter acc. induction fuel as [|fuel IH]; intros [|b iter] acc H; simpl in H; try done.
  - inv_ok. exists []. by rewrite app_nil_r.
  - inv_ok. exists []. by rewrite app_nil_r.
  - apply bind_Ok in H as ([i rest] & Harm & H).
    apply decode_arm_Ok in Harm as [Hi ->]. apply IH in H as (new & -> & Hnew & ->).
    exists (i :: new). rewrite <-app_assoc. auto.
Qed.

Lemma decode_loop_encode fuel acc instrs :
  Forall instr_ok instrs → (length (encode_script instrs) ≤ fuel)%nat →
  decode_loop fuel (encode_script instrs) acc = Ok (acc ++ instrs).
Proof.
  intros Hok. revert fuel acc. induction Hok as [|i instrs Hi Hok IH]; intros fuel acc Hf.
  - rewrite app_nil_r. by destruct fuel.
  - change (encode_script (i :: instrs)) with (encode_instr i ++ encode_script instrs) in *.
    pose proof (encode_instr_nonempty i). rewrite length_app in Hf.
    destruct (decode_arm_encode i (encode_script instrs) Hi) as (b & iter & Heq & Harm).
    destruct fuel as [|fuel]; [lia|]. rewrite Heq. simpl. rewrite Harm. simpl.
    rewrite IH by lia. by rewrite <-app_assoc.
Qed.

Lemma decode_arm_shrinks b iter i rest :
  decode_arm b iter = Ok (i, rest) → (length rest ≤ length iter)%nat.
Proof.
  intros [_ Heq]%decode_arm_Ok. pose proof (encode_instr_nonempty i).
  apply (f_equal length) in Heq. rewrite length_app in Heq. simpl in Heq. lia.
Qed.

Lemma decode_loop_no_panic fuel iter acc :
  (length iter ≤ fuel)%nat → decode_loop fuel iter acc ≠ Panic.
Proof.
  revert iter acc. induction fuel as [|fuel IH]; intros [|b iter] acc Hf; simpl in *; try done.
  - lia.
  - intros [Hp|([i rest] & Harm & Hp)]%bind_Panic; [by eapply decode_arm_no_panic|].
    apply decode_arm_shrinks in Harm. eapply IH; [|done]. lia.
Qed.

Lemma valid_unlock_cheap unlock :
  is_valid_unlock_script unlock = true → has_expensive_opcodes unlock = false.
Proof.
  intros Hvalid. unfold has_expensive_opcodes.
  enough (filter (λ i, i = Instruction.ChkSig ∨ i = Instruction.ChkMultiSig) unlock = [])
    as -> by done.
  induction unlock as [|i unlock IH]; [done|]. simpl in Hvalid.
  apply andb_true_iff in Hvalid as [Hi Hvalid].
  rewrite filter_cons_False; [by apply IH|]. by destruct i; intros [|].
Qed.

(** * Properties *)

(** The decoder accepts exactly the byte strings of the script format: it returns
    [instrs] on [script] if and only if [script] is the concatenation of the byte
    strings of [instrs] and every timelock operand is in 1..4.  In particular two
    scripts that decode to the same instructions are the same bytes. *)
Theorem decode_exact (script : bytes) (instrs : list Instruction.t) :
  decode script = Ok instrs ↔ Forall instr_ok instrs ∧ script = encode_script instrs.
Proof.
  unfold decode. split.
  - intros (new & -> & ? & ?)%decode_loop_Ok. done.
  - intros [Hok ->]. by rewrite decode_loop_encode.
Qed.

(** The decoder terminates on every byte string, with instructions or with one of
    the three decoder errors: the bound on the number of turns is never reached. *)
Theorem decode_total (script : bytes) :
  (∃ instrs, decode script = Ok instrs) ∨ (∃ e, decode script = Err e).
Proof.
  unfold decode. pose proof (decode_loop_no_panic (length script) script [] (le_n _)).
  destruct (decode_loop _ _ _); eauto. done.
Qed.
