(* ===== verification/Vm.v ===== *)
(** The script interpreter of [vm/src/executor.rs]: the stack with its memory
    budget, the instruction step, the run loop and [execute].  The transaction being
    unlocked enters through its [hash_partially] method, the chain through
    [ChainTimeInfo]. *)

From stdpp Require Import base list numbers.
From S2P Require Import Prelude Types Crypto Tag VmDecode.

Local Open Scope N_scope.

Definition DEFAULT_MAX_MEMORY : N := 1024.
Definition SIGNATURE_LENGTH : N := 65.

Definition TIMELOCK_TYPE_BLOCK : N := 0x01.
Definition TIMELOCK_TYPE_BLOCK_AGE : N := 0x02.
Definition TIMELOCK_TYPE_TIME : N := 0x03.
Definition TIMELOCK_TYPE_TIME_AGE : N := 0x04.

Record Config := { max_memory : N }.
Definition Config_default : Config := {| max_memory := DEFAULT_MAX_MEMORY |}.

Module ScriptResult.
Inductive t := Fail | Unlocked | Burnt.
#[global] Instance t_eq_dec : EqDecision t.
Proof. solve_decision. Defined.
End ScriptResult.

Module VmError.
(** [enum RuntimeError] of the VM. *)
Inductive t :=
| OutOfMemory
| IndexOutOfBound
| StackUnderflow
| TypeMismatch
| InvalidFilter
| InvalidSigCount
| InvalidTimelockType.
#[global] Instance t_eq_dec : EqDecision t.
Proof. solve_decision. Defined.

(** [impl From<HashingError> for RuntimeError]. *)
Definition from_hashing_error (e : HashingError) : t :=
  match e with Tag.InvalidFilter => InvalidFilter end.
End VmError.

(** * Items *)

(** [struct Item(Vec<u8>)]. *)
Abbreviation Item := bytes.

Definition assert_len (self : Item) (l : N) : result VmError.t Item :=
  if len self =? l then Ok self else Err VmError.TypeMismatch.

Definition item_of_bool (val : bool) : Item := if val then [1] else [].
Definition bool_of_item (item : Item) : bool := existsb (λ b, negb (b =? 0)) item.

(** * The stack *)

Record Stack := {
  stack : list Item;
  memory_usage : N;
  config : Config;
}.

Definition Stack_new (config : Config) : Stack :=
  {| stack := []; memory_usage := 0; config := config |}.

Abbreviation vmM := (stM Stack VmError.t).

Definition push (val : Item) : vmM () := λ self,
  if max_memory (config self) <? memory_usage self + len val then (Err VmError.OutOfMemory, self)
  else (Ok tt, {| stack := stack self ++ [val];
                  memory_usage := memory_usage self + len val;
                  config := config self |}).

Definition pop : vmM Item := λ self,
  match vec_pop (stack self) with
  | Some (item, rest) =>
      (Ok item, {| stack := rest;
                   memory_usage := u64_sub (memory_usage self) (len item);
                   config := config self |})
  | None => (Err VmError.StackUnderflow, self)
  end.

Definition stack_len : vmM N := λ self, (Ok (len (stack self)), self).

Definition get (index : N) : vmM Item := λ self,
  (ok_or (stack self !! N.to_nat index) VmError.IndexOutOfBound, self).

Definition remove (index : N) : vmM Item := λ self,
  if index <? len (stack self) then
    match stack self !! N.to_nat index with
    | Some item =>
        (Ok item, {| stack := base.delete (N.to_nat index) (stack self);
                     memory_usage := u64_sub (memory_usage self) (len item);
                     config := config self |})
    | None => (Panic, self)
    end
  else (Err VmError.IndexOutOfBound, self).

(** * Helpers of the instruction step *)

Definition read_u64 (value_item : Item) : result VmError.t N :=
  if 8 <? len value_item then Err VmError.TypeMismatch
  else Ok (from_be_bytes (replicate (8 - length value_item) 0 ++ value_item)).

(** [for _ in 0..n { v.push(stack.pop()?.assert_len(l)?) }] *)
Fixpoint pop_many (n : nat) (l : N) : vmM (list Item) :=
  match n with
  | O => mret []
  | S n =>
      item ← pop;
      item ← lift_st (assert_len item l);
      items ← pop_many n l;
      mret (item :: items)
  end.

(** What the chain tells about the age of a transaction. *)
Class ChainTimeInfo := {
  transaction_block_age : H256 → BlockNumber → option N;
  transaction_time_age : H256 → N → option N;
}.

Section Executor.
Context `{Crypto} `{ChainTimeInfo}.

(** The inner [loop] of [check_multi_sig]: drop keys until one verifies [sig]. *)
Fixpoint check_one_sig (tx_hash : H256) (sig : Signature) (pubkey : list Public)
  : option (list Public) :=
  match pubkey with
  | [] => None
  | public :: pubkey =>
      if verifies public sig tx_hash then Some pubkey else check_one_sig tx_hash sig pubkey
  end.

(** The outer [while let Some(sig) = signatures.pop()]. *)
Fixpoint check_sigs (tx_hash : H256) (signatures : list Signature) (pubkey : list Public) : bool :=
  match signatures with
  | [] => true
  | sig :: signatures =>
      match check_one_sig tx_hash sig pubkey with
      | None => false
      | Some pubkey => check_sigs tx_hash signatures pubkey
      end
  end.

(** Both vectors are consumed from their ends. *)
Definition check_multi_sig (tx_hash : H256) (pubkey : list Public) (signatures : list Signature)
  : bool :=
  check_sigs tx_hash (reverse signatures) (reverse pubkey).

(** The dynamic argument [tx: &PartialHashing] is its one method. *)
Variable hash_partially : Tag.Tag → AssetTransferInput → bool → result HashingError H256.
Variable cur : AssetTransferInput.
Variable burn : bool.
Variable parent_block_number : BlockNumber.
Variable parent_block_timestamp : N.

(** Where control goes after an instruction: the next [pc], or out of [execute]. *)
Inductive control :=
| Next (pc : N)
| Return (r : ScriptResult.t).

Definition chk_sig : vmM () :=
  item ← pop;
  pubkey ← lift_st (assert_len item 64);
  item ← pop;
  tag ← lift_st (map_err VmError.from_hashing_error (Tag_try_new item));
  tx_hash ← lift_st (map_err VmError.from_hashing_error (hash_partially tag cur burn));
  item ← pop;
  signature ← lift_st (assert_len item SIGNATURE_LENGTH);
  let result := if verifies pubkey signature tx_hash then 1 else 0 in
  push [result].

Definition chk_multi_sig : vmM () :=
  item ← pop;
  item ← lift_st (assert_len item 1);
  n ← lift_st (expect (item !! 0%nat));
  pubkey ← pop_many (N.to_nat n) 64;
  item ← pop;
  item ← lift_st (assert_len item 1);
  m ← lift_st (expect (item !! 0%nat));
  _ ← lift_st (ensure (negb ((n <? m) || (m =? 0) || (6 <? m))) VmError.InvalidSigCount);
  signatures ← pop_many (N.to_nat m) SIGNATURE_LENGTH;
  item ← pop;
  tag ← lift_st (map_err VmError.from_hashing_error (Tag_try_new item));
  tx_hash ← lift_st (map_err VmError.from_hashing_error (hash_partially tag cur burn));
  let result := if check_multi_sig tx_hash pubkey signatures then 1 else 0 in
  push [result].

Definition chk_timelock (timelock_type : N) : vmM () :=
  value_item ← pop;
  value ← lift_st (read_u64 value_item);
  if timelock_type =? TIMELOCK_TYPE_BLOCK then
    push (item_of_bool (value <=? parent_block_number))
  else if timelock_type =? TIMELOCK_TYPE_BLOCK_AGE then
    push (item_of_bool
      (match transaction_block_age (aop_tracker (ati_prev_out cur)) parent_block_number with
       | Some age => value <=? age
       | None => false
       end))
  else if timelock_type =? TIMELOCK_TYPE_TIME then
    push (item_of_bool (value <=? parent_block_timestamp))
  else if timelock_type =? TIMELOCK_TYPE_TIME_AGE then
    push (item_of_bool
      (match transaction_time_age (aop_tracker (ati_prev_out cur)) parent_block_timestamp with
       | Some age => value <=? age
       | None => false
       end))
  else throw_st VmError.InvalidTimelockType.

(** [let value = stack.pop()?; stack.push(Item(f(value)))?] *)
Definition map_top (f : bytes → bytes) : vmM () :=
  value ← pop;
  push (f value).

(** The [match] of the run loop; [pc += 1] is done by the run loop on [Next]. *)
Definition step (instr : Instruction.t) (pc : N) : vmM control :=
  match instr with
  | Instruction.Nop => mret (Next pc)
  | Instruction.Burn => mret (Return ScriptResult.Burnt)
  | Instruction.Success => mret (Return ScriptResult.Unlocked)
  | Instruction.Fail => mret (Return ScriptResult.Fail)
  | Instruction.Not =>
      value ← pop;
      _ ← push (item_of_bool (negb (bool_of_item value)));
      mret (Next pc)
  | Instruction.Eq =>
      first ← pop;
      second ← pop;
      _ ← push (item_of_bool (bool_decide (first = second)));
      mret (Next pc)
  | Instruction.Jmp val => mret (Next (pc + val))
  | Instruction.Jnz val =>
      item ← pop;
      if bool_of_item item then mret (Next (pc + val)) else mret (Next pc)
  | Instruction.Jz val =>
      item ← pop;
      if negb (bool_of_item item) then mret (Next (pc + val)) else mret (Next pc)
  | Instruction.Push val => _ ← push [val]; mret (Next pc)
  | Instruction.Pop => _ ← pop; mret (Next pc)
  | Instruction.PushB blob => _ ← push blob; mret (Next pc)
  | Instruction.Dup =>
      top ← pop;
      _ ← push top;
      _ ← push top;
      mret (Next pc)
  | Instruction.Swap =>
      first ← pop;
      second ← pop;
      _ ← push first;
      _ ← push second;
      mret (Next pc)
  | Instruction.Copy index =>
      l ← stack_len;
      if l <=? index then throw_st VmError.StackUnderflow
      else
        item ← get (l - 1 - index);
        _ ← push item;
        mret (Next pc)
  | Instruction.Drop index => _ ← remove index; mret (Next pc)
  | Instruction.ChkSig => _ ← chk_sig; mret (Next pc)
  | Instruction.ChkMultiSig => _ ← chk_multi_sig; mret (Next pc)
  | Instruction.Blake256 => _ ← map_top blake256; mret (Next pc)
  | Instruction.Sha256 => _ ← map_top sha256; mret (Next pc)
  | Instruction.Ripemd160 => _ ← map_top ripemd160; mret (Next pc)
  | Instruction.Keccak256 => _ ← map_top keccak256; mret (Next pc)
  | Instruction.Blake160 => _ ← map_top blake160; mret (Next pc)
  | Instruction.ChkTimelock timelock_type => _ ← chk_timelock timelock_type; mret (Next pc)
  end.

(** [while pc < script.len()]: [Some r] is an early return, [None] the end of the
    script.  Jumps only go forward, so [length script] turns are enough. *)
Fixpoint run (fuel : nat) (script : list Instruction.t) (pc : N) : vmM (option ScriptResult.t) :=
  match script !! N.to_nat pc with
  | None => mret None
  | Some instr =>
      match fuel with
      | O => lift_st Panic
      | S fuel =>
          c ← step instr pc;
          match c with
          | Next pc => run fuel script (pc + 1)
          | Return r => mret (Some r)
          end
      end
  end.

(** The tail of [execute] after the loop. *)
Definition finish : vmM ScriptResult.t :=
  result ← pop;
  l ← stack_len;
  if bool_of_item result && (l =? 0) then mret ScriptResult.Unlocked
  else mret ScriptResult.Fail.

Definition script_of (unlock : list Instruction.t) (params : list bytes)
  (lock : list Instruction.t) : list Instruction.t :=
  let param_scripts := reverse (Instruction.PushB <$> params) in
  unlock ++ param_scripts ++ lock.

Definition execute (unlock : list Instruction.t) (params : list bytes)
  (lock : list Instruction.t) (config : Config) : result VmError.t ScriptResult.t :=
  if negb (is_valid_unlock_script unlock) then Ok ScriptResult.Fail
  else if has_expensive_opcodes unlock then Ok ScriptResult.Fail
  else
    let script := script_of unlock params lock in
    fst ((r ← run (length script) script 0;
          match r with
          | Some r => mret r
          | None => finish
          end) (Stack_new config)).
End Executor.

(** * The memory invariant *)

(** The recorded usage is the total size of the items and is within the budget. *)
Definition stack_inv (s : Stack) : Prop :=
  memory_usage s = sum_with len (stack s) ∧ memory_usage s ≤ max_memory (config s) ∧
  max_memory (config s) < u64_size.

Lemma push_keeps val : keeps stack_inv (push val).
Proof.
  intros s (Hsum & Hmax & Hu). unfold push.
  destruct (N.ltb_spec (max_memory (config s)) (memory_usage s + len val)); [done|].
  split; simpl; [|done]. rewrite Hsum, sum_with_app. simpl. lia.
Qed.

Lemma pop_keeps : keeps stack_inv pop.
Proof.
  intros s (Hsum & Hmax & Hu). unfold pop.
  destruct (vec_pop (stack s)) as [[item rest]|] eqn:Hp; [|done].
  apply vec_pop_Some in Hp. rewrite Hp, sum_with_app in Hsum. simpl in Hsum.
  split; simpl; rewrite u64_sub_le; lia.
Qed.

Lemma remove_keeps index : keeps stack_inv (remove index).
Proof.
  intros s (Hsum & Hmax & Hu). unfold remove.
  destruct (N.ltb_spec index (len (stack s))); [|done].
  destruct (stack s !! N.to_nat index) as [item|] eqn:Hl; [|done].
  rewrite (sum_with_perm _ _ _ (delete_Permutation _ _ _ Hl)) in Hsum. simpl in Hsum.
  split; simpl; rewrite u64_sub_le; lia.
Qed.

Lemma push_safe val : safe stack_inv (push val).
Proof. intros s _. unfold push. by destruct (_ <? _). Qed.

Lemma pop_safe : safe stack_inv pop.
Proof. intros s _. unfold pop. by destruct (vec_pop _) as [[]|]. Qed.

Lemma remove_safe index : safe stack_inv (remove index).
Proof.
  intros s _. unfold remove. destruct (N.ltb_spec index (len (stack s))) as [Hi|]; [|done].
  destruct (stack s !! N.to_nat index) eqn:Hl; [done|].
  apply lookup_ge_None in Hl. unfold len in Hi. lia.
Qed.

Lemma stack_len_keeps : keeps stack_inv stack_len.
Proof. by intros s. Qed.

Lemma stack_len_safe : safe stack_inv stack_len.
Proof. by intros s. Qed.

Lemma get_keeps index : keeps stack_inv (get index).
Proof. by intros s. Qed.

Lemma get_safe index : safe stack_inv (get index).
Proof. intros s _. unfold get. simpl. by destruct (_ !! _). Qed.

Lemma assert_len_no_panic item l : assert_len item l ≠ Panic.
Proof. unfold assert_len. by destruct (_ =? _). Qed.

Lemma assert_len_Ok item l item' : assert_len item l = Ok item' ↔ item' = item ∧ len item = l.
Proof.
  unfold assert_len. destruct (N.eqb_spec (len item) l); split; intros Heq; simplify_eq; try done.
  - by destruct Heq as [-> _].
  - by destruct Heq as [_ Heq].
Qed.

Lemma read_u64_no_panic item : read_u64 item ≠ Panic.
Proof. unfold read_u64. by destruct (_ <? _). Qed.

Lemma tag_try_new_no_panic' item :
  map_err VmError.from_hashing_error (Tag_try_new item) ≠ Panic.
Proof. pose proof (Tag_try_new_no_panic item). by destruct (Tag_try_new item). Qed.

#[export] Hint Resolve push_keeps pop_keeps remove_keeps stack_len_keeps get_keeps
  push_safe pop_safe remove_safe stack_len_safe get_safe : st_db.
#[export] Hint Resolve assert_len_no_panic read_u64_no_panic tag_try_new_no_panic' : st_db.

Lemma pop_many_keeps n l : keeps stack_inv (pop_many n l).
Proof.
  induction n as [|n IH]; simpl; [apply keeps_ret|].
  repeat (apply keeps_bind; [auto with st_db|intros ?]). auto with st_db.
Qed.

Lemma safe_lift' {A} (r : result VmError.t A) : r ≠ Panic → safe stack_inv (lift_st r).
Proof. apply safe_lift. Qed.

Lemma pop_many_safe n l : safe stack_inv (pop_many n l).
Proof.
  induction n as [|n IH]; simpl; [apply safe_ret|].
  repeat (apply safe_bind; [first [apply safe_lift|idtac]; auto with st_db
                           |auto using pop_many_keeps with st_db|intros ?]).
  auto with st_db.
Qed.
#[export] Hint Resolve pop_many_keeps pop_many_safe : st_db.

(** Proof that a chain of stack operations keeps the invariant, or is safe. *)
Ltac keeps_tac :=
  repeat first
    [ apply keeps_bind; [solve [auto with st_db]|intros ?]
    | apply keeps_if | solve [auto with st_db] ].
Ltac safe_tac :=
  repeat first
    [ apply safe_bind;
        [solve [auto with st_db | apply safe_lift; auto with st_db]
        |solve [auto with st_db]|intros ?]
    | apply safe_if
    | solve [auto with st_db | apply safe_lift; auto with st_db] ].

Section ExecutorProps.
Context `{Crypto} `{ChainTimeInfo}.
Variable hash_partially : Tag.Tag → AssetTransferInput → bool → result HashingError H256.
Variable cur : AssetTransferInput.
Variable burn : bool.
Variable parent_block_number : BlockNumber.
Variable parent_block_timestamp : N.

Local Abbreviation step' := (step hash_partially cur burn parent_block_number parent_block_timestamp).
Local Abbreviation run' := (run hash_partially cur burn parent_block_number parent_block_timestamp).
Local Abbreviation execute' :=
  (execute hash_partially cur burn parent_block_number parent_block_timestamp).

Lemma chk_sig_keeps : keeps stack_inv (chk_sig hash_partially cur burn).
Proof. unfold chk_sig. keeps_tac. Qed.

Lemma chk_multi_sig_keeps : keeps stack_inv (chk_multi_sig hash_partially cur burn).
Proof. unfold chk_multi_sig. keeps_tac. Qed.

Lemma chk_timelock_keeps t :
  keeps stack_inv (chk_timelock cur parent_block_number parent_block_timestamp t).
Proof. unfold chk_timelock. keeps_tac. Qed.

Lemma map_top_keeps f : keeps stack_inv (map_top f).
Proof. unfold map_top. keeps_tac. Qed.
Hint Resolve chk_sig_keeps chk_multi_sig_keeps chk_timelock_keeps map_top_keeps : st_db.

Lemma step_keeps instr pc : keeps stack_inv (step' instr pc).
Proof. destruct instr; simpl; keeps_tac. Qed.


(** No instruction changes the configuration. *)
Lemma push_config c val : keeps (λ s, config s = c) (push val).
Proof. intros s Hs. unfold push. by destruct (_ <? _). Qed.

Lemma pop_config c : keeps (λ s, config s = c) pop.
Proof. intros s Hs. unfold pop. by destruct (vec_pop _) as [[]|]. Qed.

Lemma remove_config c index : keeps (λ s, config s = c) (remove index).
Proof. intros s Hs. unfold remove. destruct (_ <? _); [|done]. by destruct (_ !! _). Qed.

Lemma stack_len_config c : keeps (λ s, config s = c) stack_len.
Proof. by intros s. Qed.

Lemma get_config c index : keeps (λ s, config s = c) (get index).
Proof. by intros s. Qed.
Hint Resolve push_config pop_config remove_config stack_len_config get_config : st_db.

Lemma pop_many_config c n l : keeps (λ s, config s = c) (pop_many n l).
Proof. induction n as [|n IH]; simpl; keeps_tac. Qed.
Hint Resolve pop_many_config : st_db.

Lemma step_config c instr pc : keeps (λ s, config s = c) (step' instr pc).
Proof.
  destruct instr; simpl; unfold chk_sig, chk_multi_sig, chk_timelock, map_top; keeps_tac.
  all: apply keeps_bind; [keeps_tac|auto with st_db].
Qed.



Section Safe.
Hypothesis Hhash : ∀ tag, hash_partially tag cur burn ≠ Panic.

Lemma hash_no_panic tag :
  map_err VmError.from_hashing_error (hash_partially tag cur burn) ≠ Panic.
Proof. specialize (Hhash tag). by destruct (hash_partially tag cur burn). Qed.

Lemma ensure_no_panic (b : bool) (e : VmError.t) : ensure b e ≠ Panic.
Proof. by destruct b. Qed.
Hint Resolve hash_no_panic ensure_no_panic : st_db.

Lemma chk_sig_safe : safe stack_inv (chk_sig hash_partially cur burn).
Proof. unfold chk_sig. safe_tac. Qed.

Lemma map_top_safe f : safe stack_inv (map_top f).
Proof. unfold map_top. safe_tac. Qed.

Lemma chk_timelock_safe t :
  safe stack_inv (chk_timelock cur parent_block_number parent_block_timestamp t).
Proof. unfold chk_timelock. safe_tac. Qed.

(** Reading the single byte of an item whose length was checked does not unwind. *)
Lemma safe_single_byte {A} (item : Item) (k : N → vmM A) :
  (∀ n, safe stack_inv (k n)) →
  safe stack_inv (item ← lift_st (assert_len item 1); n ← lift_st (expect (item !! 0%nat)); k n).
Proof.
  intros Hk. apply safe_bind_ok; [apply safe_lift; auto with st_db|auto with st_db|].
  intros item' s s' _ Hl. injection Hl as Hl _.
  apply assert_len_Ok in Hl as [-> Hl]. destruct item as [|b item]; [done|].
  simpl. apply safe_bind; [apply safe_lift; done|auto with st_db|done].
Qed.

Lemma chk_multi_sig_safe : safe stack_inv (chk_multi_sig hash_partially cur burn).
Proof.
  unfold chk_multi_sig. apply safe_bind; [auto with st_db..|intros i1].
  apply safe_single_byte. intros n. apply safe_bind; [auto with st_db..|intros pubkey].
  apply safe_bind; [auto with st_db..|intros i2]. apply safe_single_byte. intros m.
  safe_tac.
Qed.
Hint Resolve chk_sig_safe chk_multi_sig_safe chk_timelock_safe map_top_safe : st_db.




End Safe.
End ExecutorProps.

(** * Signature counting *)

Section MultiSig.
Context `{Crypto}.
Variable tx_hash : H256.

(** [signs pks sigs]: the signatures belong, in order, to some of the keys. *)
Definition signs (pubkey : list Public) (signatures : list Signature) : Prop :=
  ∃ signers, signers `sublist_of` pubkey ∧
    Forall2 (λ public sig, verifies public sig tx_hash = true) signers signatures.

Lemma sublist_tail {A} (x y : A) l k : x :: l `sublist_of` y :: k → l `sublist_of` k.
Proof.
  rewrite sublist_cons_l. intros ([|z k1] & k2 & Heq & Hsub); simplify_eq/=; [done|].
  by apply sublist_inserts_l, sublist_cons.
Qed.

Lemma check_one_sig_Some sig pubkey rest :
  check_one_sig tx_hash sig pubkey = Some rest →
  ∃ public, verifies public sig tx_hash = true ∧ public :: rest `sublist_of` pubkey.
Proof.
  induction pubkey as [|p pubkey IH]; simpl; [done|].
  destruct (verifies p sig tx_hash) eqn:Hv; intros; simplify_eq; [by exists p|].
  destruct IH as (public & ? & ?); [done|]. exists public. split; [done|]. by constructor.
Qed.

(** The scan stops at the first matching key, which leaves the most keys over. *)
Lemma check_one_sig_complete sig pubkey public signers :
  verifies public sig tx_hash = true → public :: signers `sublist_of` pubkey →
  ∃ rest, check_one_sig tx_hash sig pubkey = Some rest ∧ signers `sublist_of` rest.
Proof.
  intros Hv. induction pubkey as [|p pubkey IH]; intros Hsub; simpl; [by inversion Hsub|].
  destruct (verifies p sig tx_hash) eqn:Hp.
  - exists pubkey. split; [done|]. by eapply sublist_tail.
  - apply IH. inversion Hsub; simplify_eq; [congruence|done].
Qed.

Lemma check_sigs_spec signatures pubkey :
  check_sigs tx_hash signatures pubkey = true ↔ signs pubkey signatures.
Proof.
  revert pubkey. induction signatures as [|sig signatures IH]; intros pubkey; simpl.
  - split; [|done]. exists []. split; [apply sublist_nil_l|constructor].
  - split.
    + destruct (check_one_sig tx_hash sig pubkey) as [rest|] eqn:Hc; [|done].
      apply check_one_sig_Some in Hc as (public & Hv & Hsub). intros (ks & Hks & Hall)%IH.
      exists (public :: ks). split; [|by constructor].
      etrans; [|done]. by constructor.
    + intros (ks & Hks & Hall). inversion Hall as [|public ? ks' ? Hv Hall']; subst.
      destruct (check_one_sig_complete _ _ _ _ Hv Hks) as (rest & -> & Hrest).
      apply IH. by exists ks'.
Qed.

Lemma sublist_reverse {A} (l k : list A) : l `sublist_of` k → reverse l `sublist_of` reverse k.
Proof.
  induction 1; [done|rewrite !reverse_cons; by apply sublist_app|].
  rewrite reverse_cons. by apply sublist_inserts_r.
Qed.

Lemma signs_reverse pubkey signatures :
  signs pubkey signatures → signs (reverse pubkey) (reverse signatures).
Proof.
  intros (ks & Hsub & Hall). exists (reverse ks). split; [by apply sublist_reverse|].
  by apply Forall2_reverse.
Qed.
End MultiSig.

(** * Reading integers *)

Lemma from_be_bytes_zeros n bs : from_be_bytes (replicate n 0 ++ bs) = from_be_bytes bs.
Proof. induction n as [|n IH]; [done|]. simpl. rewrite from_be_bytes_cons, IH. lia. Qed.

(** * Scripts that only push *)

(** The item a push instruction leaves on the stack. *)
Definition push_data (i : Instruction.t) : bytes :=
  match i with
  | Instruction.Push val => [val]
  | Instruction.PushB blob => blob
  | _ => []
  end.

Definition push_all : list bytes → vmM () := for_each push.

Lemma push_all_Ok items s s' :
  push_all items s = (Ok tt, s') →
  s' = {| stack := stack s ++ items; memory_usage := memory_usage s + sum_with len items;
          config := config s |} ∧
  (items = [] ∨ memory_usage s + sum_with len items ≤ max_memory (config s)).
Proof.
  revert s. induction items as [|x items IH]; intros s Hs; simpl in Hs.
  - injection Hs as <-. rewrite app_nil_r. simpl. rewrite N.add_0_r. destruct s; auto.
  - change (push_all (x :: items)) with (_ ← push x; push_all items) in Hs.
    unfold mbind, stM_bind, push in Hs.
    destruct (N.ltb_spec (max_memory (config s)) (memory_usage s + len x)); [done|].
    apply IH in Hs as [-> Hm]. simpl in *. rewrite <-app_assoc. split.
    + f_equal. simpl. lia.
    + right. destruct Hm as [->|]; simpl in *; lia.
Qed.

Lemma push_all_fits items s :
  memory_usage s + sum_with len items ≤ max_memory (config s) →
  push_all items s =
    (Ok tt, {| stack := stack s ++ items; memory_usage := memory_usage s + sum_with len items;
               config := config s |}).
Proof.
  revert s. induction items as [|x items IH]; intros s Hs; simpl in *.
  - rewrite app_nil_r, N.add_0_r. by destruct s.
  - change (push_all (x :: items)) with (_ ← push x; push_all items).
    unfold mbind, stM_bind, push.
    rewrite (proj2 (N.ltb_ge _ _)) by lia. rewrite IH by (simpl; lia).
    simpl. rewrite <-app_assoc, N.add_assoc. done.
Qed.

(** Running a pushing prefix of a script is pushing its items. *)
Lemma run_pushes `{Crypto} `{ChainTimeInfo} hp cur burn bn bt pushes pre rest fuel s :
  is_valid_unlock_script pushes = true →
  run hp cur burn bn bt (length pushes + fuel) (pre ++ pushes ++ rest) (len pre) s =
  (_ ← push_all (push_data <$> pushes);
   run hp cur burn bn bt fuel (pre ++ pushes ++ rest) (len (pre ++ pushes))) s.
Proof.
  revert pre s. induction pushes as [|i pushes IH]; intros pre s Hv.
  { by rewrite app_nil_r. }
  simpl in Hv. apply andb_true_iff in Hv as [Hi Hv].
  assert (Hl : (pre ++ (i :: pushes) ++ rest) !! N.to_nat (len pre) = Some i).
  { unfold len. rewrite Nat2N.id. by apply list_lookup_middle. }
  change (length (i :: pushes) + fuel)%nat with (S (length pushes + fuel)).
  cbn [run]. rewrite Hl.
  change (push_all (push_data <$> i :: pushes))
    with (_ ← push (push_data i); push_all (push_data <$> pushes)).
  specialize (IH (pre ++ [i])). rewrite <-!app_assoc, len_app in IH. simpl in IH.
  destruct i; try done; simpl; unfold mbind, stM_bind; simpl;
    (destruct (push _ s) as [[[]| |] s1]; [|done|done]); by apply IH.
Qed.

Section PayToPublicKey.
Context `{Crypto} `{ChainTimeInfo}.
Variable hash_partially : Tag.Tag → AssetTransferInput → bool → result HashingError H256.
Variable cur : AssetTransferInput.
Variable burn : bool.
Variable parent_block_number : BlockNumber.
Variable parent_block_timestamp : N.

(** The pay-to-public-key lock script of [vm/tests/chk_sig.rs]. *)
Definition pay_to_public_key (pubkey : Public) : list Instruction.t :=
  [Instruction.PushB pubkey; Instruction.ChkSig].

Lemma chk_sig_Ok s s' :
  chk_sig hash_partially cur burn s = (Ok tt, s') →
  ∃ base sig tag_item pubkey tag h,
    stack s = base ++ [sig; tag_item; pubkey] ∧ len pubkey = 64 ∧ len sig = SIGNATURE_LENGTH ∧
    Tag_try_new tag_item = Ok tag ∧ hash_partially tag cur burn = Ok h ∧
    stack s' = base ++ [[if verifies pubkey sig h then 1 else 0]].
Proof.
  unfold chk_sig. intros Hs. inv_ok.
  repeat match goal with
  | Hp : pop ?s = (Ok _, _) |- _ =>
      unfold pop in Hp; destruct (vec_pop (stack s)) as [[]|] eqn:?; [|done]; simplify_eq/=
  | Hp : lift_st _ _ = (Ok _, _) |- _ => injection Hp as Hp ?; simplify_eq/=
  | Hp : push _ _ = (Ok _, _) |- _ => unfold push in Hp; destruct (_ <? _); simplify_eq/=
  | Hp : assert_len _ _ = Ok _ |- _ => apply assert_len_Ok in Hp as [-> ?]
  | Hp : vec_pop _ = Some _ |- _ => apply vec_pop_Some in Hp
  end; inv_ok.
  eexists _, _, _, _, _, _. split_and!; try done.
  repeat match goal with Hp : ?l = _ ++ _ |- _ => rewrite Hp; clear Hp end.
  by rewrite <-!app_assoc.
Qed.

Lemma pop_snoc base x s :
  stack_inv s → stack s = base ++ [x] →
  ∃ s', pop s = (Ok x, s') ∧ stack s' = base ∧ stack_inv s' ∧
    memory_usage s' = memory_usage s - len x ∧ config s' = config s.
Proof.
  intros Hinv Hs. pose proof (pop_keeps s Hinv) as Hk. revert Hk. unfold pop.
  rewrite Hs, vec_pop_snoc. simpl. intros Hk. eexists. split_and!; try done.
  destruct Hinv as (Hm & ? & ?). rewrite Hs, sum_with_app in Hm. simpl in Hm.
  simpl. rewrite u64_sub_le; lia.
Qed.

Lemma chk_sig_run base sig tag_item pubkey tag h s :
  stack_inv s → stack s = base ++ [sig; tag_item; pubkey] →
  len pubkey = 64 → len sig = SIGNATURE_LENGTH →
  Tag_try_new tag_item = Ok tag → hash_partially tag cur burn = Ok h →
  ∃ s', chk_sig hash_partially cur burn s = (Ok tt, s') ∧
    stack s' = base ++ [[if verifies pubkey sig h then 1 else 0]].
Proof.
  intros Hinv Hs Hpk Hsig Htag Hh. unfold chk_sig, mbind, stM_bind, lift_st.
  destruct (pop_snoc (base ++ [sig; tag_item]) pubkey s) as (s1 & -> & Hs1 & Hi1 & Hm1 & Hc1);
    [done|by rewrite Hs, <-app_assoc|].
  unfold assert_len at 1. rewrite Hpk. simpl.
  destruct (pop_snoc (base ++ [sig]) tag_item s1) as (s2 & -> & Hs2 & Hi2 & Hm2 & Hc2);
    [done|by rewrite Hs1, <-app_assoc|].
  rewrite Htag. simpl. rewrite Hh. simpl.
  destruct (pop_snoc base sig s2) as (s3 & -> & Hs3 & Hi3 & Hm3 & Hc3); [done|done|].
  unfold assert_len. rewrite Hsig. simpl.
  unfold push. rewrite Hs3. destruct Hinv as (Hm & Hmax & _).
  rewrite Hs, sum_with_app in Hm. simpl in Hm.
  rewrite (proj2 (N.ltb_ge _ _)); [by eexists|].
  rewrite Hc3, Hc2, Hc1, Hm3, Hm2, Hm1. change (len [_]) with 1. lia.
Qed.

(** The whole run of an unlock script against the pay-to-public-key lock. *)
Lemma run_pay_to_public_key unlock pubkey s :
  is_valid_unlock_script unlock = true →
  let script := script_of unlock [] (pay_to_public_key pubkey) in
  run hash_partially cur burn parent_block_number parent_block_timestamp
    (length script) script 0 s =
  (_ ← push_all ((push_data <$> unlock) ++ [pubkey]);
   _ ← chk_sig hash_partially cur burn; mret None) s.
Proof.
  intros Hv script. set (pushes := unlock ++ [Instruction.PushB pubkey]).
  assert (script = [] ++ pushes ++ [Instruction.ChkSig]) as ->.
  { unfold script, script_of, pushes. simpl. by rewrite <-app_assoc. }
  assert (Hp : is_valid_unlock_script pushes = true).
  { unfold pushes, is_valid_unlock_script in *. by rewrite forallb_app, Hv. }
  replace (length ([] ++ pushes ++ [Instruction.ChkSig])) with (length pushes + 1)%nat
    by (rewrite !length_app; simpl; lia).
  change 0 with (len (@nil Instruction.t)). rewrite run_pushes by done.
  assert (push_data <$> pushes = (push_data <$> unlock) ++ [pubkey]) as ->
    by (unfold pushes; by rewrite fmap_app).
  unfold mbind, stM_bind.
  destruct (push_all _ s) as [[[]| |] s1]; [|done|done]. simpl.
  assert (Hl : (pushes ++ [Instruction.ChkSig]) !! N.to_nat (len pushes) =
            Some Instruction.ChkSig).
  { unfold len. rewrite Nat2N.id. by apply list_lookup_middle. }
  rewrite Hl. simpl. unfold mbind, stM_bind.
  destruct (chk_sig hash_partially cur burn s1) as [[[]| |] s2]; [|done|done]. simpl.
  rewrite (proj2 (lookup_ge_None _ _)); [done|].
  rewrite length_app. unfold len. simpl. lia.
Qed.

Lemma finish_Unlocked s s' :
  finish s = (Ok ScriptResult.Unlocked, s') →
  ∃ item, stack s = [item] ∧ bool_of_item item = true.
Proof.
  unfold finish, mbind, stM_bind, pop.
  destruct (vec_pop (stack s)) as [[item rest]|] eqn:Hp; [|done].
  apply vec_pop_Some in Hp as ->. simpl.
  destruct (bool_of_item item) eqn:Hb; simpl; [|done].
  destruct (N.eqb_spec (len rest) 0) as [->%len_zero|]; [|done]. intros _. by exists item.
Qed.

(** C31: A lock to a public key opens exactly for an unlock script that pushes a
    65-byte signature and a well-formed tag, in this order and nothing else, where
    the signature verifies under the key for the digest the tag selects (and the
    three items fit in the memory budget). *)
Theorem pay_to_public_key_unlocks (unlock : list Instruction.t) (pubkey : Public) (c : Config)
  (Hc : max_memory c < u64_size) :
  execute hash_partially cur burn parent_block_number parent_block_timestamp
    unlock [] (pay_to_public_key pubkey) c = Ok ScriptResult.Unlocked ↔
  is_valid_unlock_script unlock = true ∧
  ∃ sig tag_item tag h,
    push_data <$> unlock = [sig; tag_item] ∧ len sig = SIGNATURE_LENGTH ∧
    Tag_try_new tag_item = Ok tag ∧ hash_partially tag cur burn = Ok h ∧
    len pubkey = 64 ∧ verifies pubkey sig h = true ∧
    len sig + len tag_item + len pubkey ≤ max_memory c.
Proof.
  unfold execute. destruct (is_valid_unlock_script unlock) eqn:Hv; simpl negb; cbv iota.
  2: { split; [done|by intros [? _]]. }
  rewrite valid_unlock_cheap by done. cbv zeta. split.
  - intros Hex. split; [done|]. revert Hex. unfold mbind at 1, stM_bind at 1.
    rewrite run_pay_to_public_key by done. unfold mbind, stM_bind.
    destruct (push_all _ _) as [[[]| |] s1] eqn:Hpush; [|done|done].
    apply push_all_Ok in Hpush as [-> Hm].
    destruct (chk_sig _ _ _ _) as [[[]| |] s2] eqn:Hcs; [|done|done]. simpl.
    apply chk_sig_Ok in Hcs as (base & sig & tg & pk & tag & h & Hst & ? & ? & ? & ? & Hs2).
    destruct (finish s2) as [r s3] eqn:Hf. simpl. intros ->.
    apply finish_Unlocked in Hf as (item & Hs2' & Hb). rewrite Hs2 in Hs2'.
    destruct base as [|? [|]]; [|done|done]. simpl in *. simplify_eq.
    change [sig; tg; pk] with ([sig; tg] ++ [pk]) in Hst. apply app_inj_2 in Hst as [Hu ?]; [|done].
    simplify_eq. exists sig, tg, tag, h. split_and!; try done.
    + by destruct (verifies pk sig h).
    + destruct Hm as [?|Hm]; [by destruct (push_data <$> unlock)|].
      rewrite Hu in Hm. simpl in Hm. lia.
  - intros (_ & sig & tg & tag & h & Hu & ? & ? & ? & ? & Hvf & Hm).
    unfold mbind at 1, stM_bind at 1. rewrite run_pay_to_public_key by done.
    unfold mbind, stM_bind. rewrite Hu, push_all_fits by (simpl; lia). simpl.
    edestruct (chk_sig_run [] sig tg pubkey) as (s2 & -> & Hs2); try done.
    { split; simpl; lia. }
    rewrite Hvf in Hs2. unfold finish, mbind, stM_bind, pop. simpl. by rewrite Hs2.
Qed.
End PayToPublicKey.

(** * Properties *)

Section Properties.
Context `{Crypto} `{ChainTimeInfo}.
Variable hash_partially : Tag.Tag → AssetTransferInput → bool → result HashingError H256.
Variable cur : AssetTransferInput.
Variable burn : bool.
Variable parent_block_number : BlockNumber.
Variable parent_block_timestamp : N.

(** The states the run loop passes through at the head of [while pc < script.len()]. *)
Inductive reachable (script : list Instruction.t) (c : Config) : N → Stack → Prop :=
| reachable_start : reachable script c 0 (Stack_new c)
| reachable_turn pc s instr pc' s' :
    reachable script c pc s → script !! N.to_nat pc = Some instr →
    step hash_partially cur burn parent_block_number parent_block_timestamp instr pc s =
      (Ok (Next pc'), s') →
    reachable script c (pc' + 1) s'.

(** Every reachable stack records exactly the total size of its items, and never
    more than the configured budget; each turn moves the program counter forward. *)
Theorem vm_memory_bounded (script : list Instruction.t) (c : Config) (pc : N) (s : Stack)
  (Hc : max_memory c < u64_size) (Hr : reachable script c pc s) :
  memory_usage s = sum_with len (stack s) ∧ sum_with len (stack s) ≤ max_memory c ∧
  config s = c.
Proof.
  enough (stack_inv s ∧ config s = c) as [(Hm & Hmax & _) <-] by (rewrite <-Hm; done).
  induction Hr as [|pc s instr pc' s' Hr [IH Hcfg] Hl Hs].
  { split; [|done]. split; simpl; lia. }
  split.
  - pose proof (step_keeps hash_partially cur burn parent_block_number parent_block_timestamp
                  instr pc s IH) as Hk. by rewrite Hs in Hk.
  - pose proof (step_config hash_partially cur burn parent_block_number parent_block_timestamp
                  c instr pc s Hcfg) as Hk. by rewrite Hs in Hk.
Qed.


(** [CHKMULTISIG] accepts exactly when the signatures belong, in their order, to
    distinct keys of the list: greedy matching from the end misses no assignment. *)
Theorem check_multi_sig_exact (tx_hash : H256) (pubkey : list Public)
  (signatures : list Signature) :
  check_multi_sig tx_hash pubkey signatures = true ↔
  ∃ signers, signers `sublist_of` pubkey ∧
    Forall2 (λ public sig, verifies public sig tx_hash = true) signers signatures.
Proof.
  unfold check_multi_sig. rewrite check_sigs_spec. split; [|apply signs_reverse].
  intros Hs%signs_reverse. by rewrite !reverse_involutive in Hs.
Qed.

(** A timelock operand is read as a big-endian integer of at most eight bytes,
    which always fits 64 bits; anything longer is a type mismatch. *)
Theorem read_u64_exact (item : Item) (Hok : bytes_ok item) :
  read_u64 item = (if 8 <? len item then Err VmError.TypeMismatch else Ok (from_be_bytes item)) ∧
  ∀ v, read_u64 item = Ok v → v < u64_size.
Proof.
  assert (Heq : read_u64 item =
    (if 8 <? len item then Err VmError.TypeMismatch else Ok (from_be_bytes item))).
  { unfold read_u64. by rewrite from_be_bytes_zeros. }
  split; [done|]. intros v. rewrite Heq. destruct (N.ltb_spec 8 (len item)) as [|Hl]; [done|].
  intros ?; simplify_eq. pose proof (from_be_bytes_bound item Hok).
  eapply N.lt_le_trans; [done|]. change u64_size with (256 ^ 8).
  apply N.pow_le_mono_r; lia.
Qed.
End Properties.

(** * Witnesses *)

Module Witness.
#[local] Existing Instance Sample.crypto.
#[local] Instance chain : ChainTimeInfo :=
  {| transaction_block_age _ n := Some n; transaction_time_age _ _ := None |}.

Definition prev_out : AssetOutPoint :=
  {| aop_tracker := replicate 32 7; aop_index := 0; aop_asset_type := replicate 20 1;
     aop_shard_id := 0; aop_quantity := 10 |}.
Definition input : AssetTransferInput :=
  {| ati_prev_out := prev_out; ati_timelock := None; ati_lock_script := [];
     ati_unlock_script := [] |}.
Definition hash : Tag.Tag → AssetTransferInput → bool → result HashingError H256 :=
  λ tag _ _, Ok (Sample.fit 32 (tag_bitvec tag)).
Definition pubkey : Public := replicate 64 9.
Definition unlock : list Instruction.t :=
  [Instruction.PushB (Sample.sign pubkey (Sample.fit 32 [3])); Instruction.PushB [3]].

Lemma pay_to_public_key_unlocks_witness :
  execute hash input false 5 6 unlock [] (pay_to_public_key pubkey) Config_default =
    Ok ScriptResult.Unlocked.
Proof.
  apply (pay_to_public_key_unlocks hash input false 5 6 unlock pubkey Config_default).
  - reflexivity.
  - split; [reflexivity|].
    exists (Sample.sign pubkey (Sample.fit 32 [3])), [3], {| tag_sign_all_inputs := true;
      tag_sign_all_outputs := true; tag_filter_len := 0; tag_filter := []; tag_bitvec := [3] |},
      (Sample.fit 32 [3]).
    split_and!; try reflexivity. vm_compute. discriminate.
Defined.

Lemma vm_memory_bounded_witness :
  reachable hash input false 5 6 unlock Config_default 1
    {| stack := [Sample.sign pubkey (Sample.fit 32 [3])]; memory_usage := 65;
       config := Config_default |} ∧
  65 ≤ max_memory Config_default.
Proof.
  assert (Hr : reachable hash input false 5 6 unlock Config_default 1
    {| stack := [Sample.sign pubkey (Sample.fit 32 [3])]; memory_usage := 65;
       config := Config_default |}).
  { refine (reachable_turn _ _ _ _ _ unlock _ 0 _ _ 0 _ (reachable_start _ _ _ _ _ _ _) _ _);
      reflexivity. }
  split; [exact Hr|].
  exact (proj1 (proj2 (vm_memory_bounded hash input false 5 6 unlock Config_default 1 _
    eq_refl Hr))).
Defined.


Lemma read_u64_exact_witness : read_u64 [1; 2] = Ok 258.
Proof.
  assert (Hok : bytes_ok [1; 2]) by (repeat constructor).
  rewrite (proj1 (read_u64_exact [1; 2] Hok)). reflexivity.
Defined.
End Witness.
