(* ===== verification/Rlp.v ===== *)
(** The RLP codec of [util/rlp/src]: the appendable encoder [RlpStream]
    ([stream.rs]) and the view over untrusted bytes ([untrusted_rlp.rs]).  The
    encoder is shown to write the byte string of a tree of items, and the view to
    read such a tree back, with or without its offset cache. *)

From stdpp Require Import base list numbers strings.
From S2P Require Import Prelude.

Local Open Scope N_scope.

(** * [util/rlp/src/error.rs] *)
Module RlpError.
Inductive t :=
| RlpIsTooBig (expected got : N)
| RlpIsTooShort (expected got : N)
| RlpExpectedToBeList
| RlpExpectedToBeData
| RlpIncorrectListLen (expected got : N)
| RlpDataLenWithZeroPrefix
| RlpListLenWithZeroPrefix
| RlpInvalidIndirection
| RlpInconsistentLengthAndData (max index : N)
| RlpInvalidLength (expected got : N)
| RlpNullTerminatedString
| Custom (text : string).
#[global] Instance t_eq_dec : EqDecision t.
Proof. solve_decision. Defined.
End RlpError.

(** * The stream, [util/rlp/src/stream.rs] *)

Record ListInfo := {
  li_position : N;
  li_current : N;
  li_max : option N;
}.

(** [unfinished_lists] is a stack: its top, the end of the array, is the head. *)
Record RlpStream := {
  unfinished_lists : list ListInfo;
  buffer : bytes;
  finished_list : bool;
}.

(** The stream never returns an error; it unwinds when a list gets more items
    than announced. *)
Abbreviation strm := (stM RlpStream Empty_set).

Definition RlpStream_new : RlpStream :=
  {| unfinished_lists := []; buffer := []; finished_list := false |}.

Definition set_finished (b : bool) (s : RlpStream) : RlpStream :=
  {| unfinished_lists := unfinished_lists s; buffer := buffer s; finished_list := b |}.

(** [buffer.append_slice(bs)] *)
Definition push_raw (bs : bytes) (s : RlpStream) : RlpStream :=
  {| unfinished_lists := unfinished_lists s; buffer := buffer s ++ bs;
     finished_list := finished_list s |}.

(** [BasicEncoder::insert_size]: the bytes it inserts (their number is returned). *)
Definition insert_size (size : N) : bytes :=
  let size := size mod u32_size in
  let leading_empty_bytes := leading_zeros 32 size / 8 in
  drop (N.to_nat leading_empty_bytes) (to_be_bytes 4 size).

(** [BasicEncoder::insert_list_payload]: [buffer[pos - 1]] is overwritten and the
    size goes in at [pos]. *)
Definition insert_list_payload (l pos : N) (buffer : bytes) : bytes :=
  if l <=? 55 then <[N.to_nat (pos - 1) := (0xc0 + l) mod 256]> buffer
  else
    let inserted := insert_size l in
    <[N.to_nat (pos - 1) := (0xf7 + len inserted) mod 256]>
      (take (N.to_nat pos) buffer ++ inserted ++ drop (N.to_nat pos) buffer).

(** [RlpStream::note_appended], recursive on the stack it pops. *)
Fixpoint note_lists (lists : list ListInfo) (inserted_items : N) (buffer : bytes) (finished : bool)
  : result Empty_set RlpStream :=
  match lists with
  | [] => Ok {| unfinished_lists := []; buffer := buffer; finished_list := finished |}
  | x :: rest =>
      let x := {| li_position := li_position x; li_current := li_current x + inserted_items;
                  li_max := li_max x |} in
      should_finish ←
        match li_max x with
        | Some max => if max <? li_current x then Panic else Ok (li_current x =? max)
        | None => Ok false
        end;
      if should_finish : bool then
        s ← note_lists rest 1
              (insert_list_payload (len buffer - li_position x) (li_position x) buffer) finished;
        Ok (set_finished true s)
      else Ok {| unfinished_lists := x :: rest; buffer := buffer; finished_list := false |}
  end.

Definition note_appended (inserted_items : N) : strm () := λ s,
  match note_lists (unfinished_lists s) inserted_items (buffer s) (finished_list s) with
  | Ok s' => (Ok tt, s')
  | _ => (Panic, s)
  end.

(** [BasicEncoder::encode_value]. *)
Definition value_bytes (value : bytes) : bytes :=
  match value with
  | [] => [0x80]
  | [b] => if b <? 0x80 then [b] else [0x81; b]
  | _ =>
      let l := len value in
      if l <=? 55 then ((0x80 + l) mod 256) :: value
      else
        let inserted := insert_size l in
        ((0xb7 + len inserted) mod 256) :: inserted ++ value
  end.

Definition encode_value (value : bytes) : strm () := modify_st (push_raw (value_bytes value)).

Definition begin_list (l : N) : strm () :=
  _ ← modify_st (set_finished false);
  if l =? 0 then
    _ ← modify_st (push_raw [0xc0]);
    _ ← note_appended 1;
    modify_st (set_finished true)
  else
    _ ← modify_st (push_raw [0]);
    modify_st (λ s,
      {| unfinished_lists := {| li_position := len (buffer s); li_current := 0;
                                li_max := Some l |} :: unfinished_lists s;
         buffer := buffer s; finished_list := finished_list s |}).

(** [RlpStream::append], given the [rlp_append] of the value. *)
Definition append (rlp_append : strm ()) : strm () :=
  _ ← modify_st (set_finished false);
  _ ← rlp_append;
  s ← get_st;
  if finished_list s then mret tt else note_appended 1.

(** [RlpStream::append_list], given the [rlp_append] of each value. *)
Definition append_list (values : list (strm ())) : strm () :=
  _ ← begin_list (len values);
  for_each append values.

(** [s.append(&a).append(&b)...] *)
Definition chain (calls : list (strm ())) : strm () := for_each id calls.

Definition is_finished (s : RlpStream) : bool := bool_decide (unfinished_lists s = []).

(** [Encodable::rlp_bytes] and [encode]: run on a new stream, then [drain]. *)
Definition drain (rlp_append : strm ()) : result Empty_set bytes :=
  match rlp_append RlpStream_new with
  | (Ok _, s) => if is_finished s then Ok (buffer s) else Panic
  | _ => Panic
  end.

(** The byte string, where the stream does not unwind. *)
Definition rlp_bytes (rlp_append : strm ()) : bytes :=
  match drain rlp_append with Ok bs => bs | _ => [] end.

Definition begin_unbounded_list : strm () :=
  _ ← modify_st (set_finished false);
  _ ← modify_st (push_raw [0]);
  modify_st (λ s,
    {| unfinished_lists := {| li_position := len (buffer s); li_current := 0; li_max := None |}
                             :: unfinished_lists s;
       buffer := buffer s; finished_list := finished_list s |}).

Definition append_empty_data : strm () :=
  _ ← modify_st (push_raw [0x80]);
  note_appended 1.

Definition append_raw (bs : bytes) (item_count : N) : strm () :=
  _ ← modify_st (push_raw bs);
  note_appended item_count.

(** [RlpStream::estimate_size]. *)
Definition estimate_size (s : RlpStream) (add : N) : N :=
  let total_size := len (buffer s) + add in
  foldl (λ base_size list,
    let l := total_size - li_position list in
    if 55 <? l then base_size + (8 - leading_zeros 64 l / 8) else base_size)
    total_size (reverse (unfinished_lists s)).

Definition append_raw_checked (bs : bytes) (item_count max_size : N) : stM RlpStream Empty_set bool :=
  s ← get_st;
  if max_size <? estimate_size s (len bs) then mret false
  else
    _ ← append_raw bs item_count;
    mret true.

Definition clear : strm () :=
  modify_st (λ s, {| unfinished_lists := []; buffer := []; finished_list := finished_list s |}).

Definition complete_unbounded_list : strm () := λ s,
  match unfinished_lists s with
  | [] => (Panic, s)
  | l :: rest =>
      match li_max l with
      | Some _ => (Panic, s)
      | None =>
          note_appended 1
            {| unfinished_lists := rest;
               buffer := insert_list_payload (len (buffer s) - li_position l) (li_position l)
                           (buffer s);
               finished_list := finished_list s |}
      end
  end.

(** * The view over bytes, [util/rlp/src/untrusted_rlp.rs] *)

Abbreviation rlpR := (result RlpError.t).

(** [&bytes[a..b]], which unwinds out of range. *)
Definition slice {E : Type} (bs : bytes) (a b : N) : result E bytes :=
  if (a <=? b) && (b <=? len bs) then Ok (take (N.to_nat (b - a)) (drop (N.to_nat a) bs))
  else Panic.

(** [decode_usize] of [impls.rs]. *)
Definition decode_usize (bs : bytes) : rlpR N :=
  let l := len bs in
  if l <=? 8 then
    b ← expect (bs !! 0%nat);
    if b =? 0 then Err RlpError.RlpInvalidIndirection
    else Ok (from_be_bytes bs mod u64_size)
  else Err (RlpError.RlpIsTooBig 8 l).

Record PayloadInfo := {
  header_len : N;
  value_len : N;
}.

Definition calculate_payload_info (header_bytes : bytes) (len_of_len : N) : rlpR PayloadInfo :=
  let header_len := 1 + len_of_len in
  match header_bytes !! 1%nat with
  | Some 0 => Err RlpError.RlpDataLenWithZeroPrefix
  | None => Err (RlpError.RlpIsTooShort 1 0)
  | _ =>
      if len header_bytes <? header_len then
        Err (RlpError.RlpIsTooShort header_len (len header_bytes))
      else
        bs ← slice header_bytes 1 header_len;
        value_len ← decode_usize bs;
        Ok {| header_len := header_len; value_len := value_len |}
  end.

(** [PayloadInfo::from]. *)
Definition PayloadInfo_from (header_bytes : bytes) : rlpR PayloadInfo :=
  match header_bytes with
  | [] => Err (RlpError.RlpIsTooShort 1 0)
  | l :: _ =>
      if l <=? 0x7f then Ok {| header_len := 0; value_len := 1 |}
      else if l <=? 0xb7 then Ok {| header_len := 1; value_len := l - 0x80 |}
      else if l <=? 0xbf then calculate_payload_info header_bytes (l - 0xb7)
      else if l <=? 0xf7 then Ok {| header_len := 1; value_len := l - 0xc0 |}
      else calculate_payload_info header_bytes (l - 0xf7)
  end.

(** [BasicDecoder::payload_info]; [checked_add] rejects a sum past [usize]. *)
Definition payload_info (bs : bytes) : rlpR PayloadInfo :=
  item ← PayloadInfo_from bs;
  let x := header_len item + value_len item in
  if (x <? u64_size) && (x <=? len bs) then Ok item
  else Err (RlpError.RlpIsTooShort 1 0).

(** [UntrustedRlp::data]. *)
Definition rlp_data (bs : bytes) : rlpR bytes :=
  pi ← payload_info bs;
  slice bs (header_len pi) (header_len pi + value_len pi).

Definition is_null (bs : bytes) : bool := match bs with [] => true | _ => false end.
Definition is_list (bs : bytes) : bool :=
  match bs with [] => false | b :: _ => 0xc0 <=? b end.
Definition is_data (bs : bytes) : bool :=
  match bs with [] => false | b :: _ => b <? 0xc0 end.

(** [UntrustedRlp::consume]. *)
Definition consume (bs : bytes) (l : N) : rlpR bytes :=
  if l <=? len bs then slice bs l (len bs)
  else Err (RlpError.RlpIsTooShort l (len bs)).

Definition consume_list_payload (bs : bytes) : rlpR bytes :=
  item ← payload_info bs;
  consume bs (header_len item).

Fixpoint consume_items (bs : bytes) (items : nat) : rlpR bytes :=
  match items with
  | O => Ok bs
  | S items =>
      i ← payload_info bs;
      result ← consume bs (header_len i + value_len i);
      consume_items result items
  end.

Record OffsetCache := {
  oc_index : N;
  oc_offset : N;
}.

Definition OffsetCache_new : OffsetCache := {| oc_index := u64_size - 1; oc_offset := 0 |}.

(** Where [at] finds the item: from the cached position if that is not past it. *)
Definition seek (bs : bytes) (c : OffsetCache) (index : N) : rlpR bytes :=
  if oc_index c <=? index then
    rest ← consume bs (oc_offset c);
    consume_items rest (N.to_nat (index - oc_index c))
  else
    rest ← consume_list_payload bs;
    consume_items rest (N.to_nat index).

(** [UntrustedRlp::at] with the [Cell] of its offset cache. *)
Definition at_cached (bs : bytes) (index : N) : stM OffsetCache RlpError.t bytes :=
  if negb (is_list bs) then throw_st RlpError.RlpExpectedToBeList
  else
    payload_info' ← lift_st (payload_info bs);
    let offset_max := header_len payload_info' + value_len payload_info' - 1 in
    c ← get_st;
    rest ← lift_st (seek bs c index);
    let new_offset := len bs - len rest in
    if offset_max <? new_offset then
      throw_st (RlpError.RlpIsTooShort new_offset offset_max)
    else
      _ ← put_st {| oc_index := index; oc_offset := new_offset |};
      lift_st (
        found ← payload_info rest;
        slice rest 0 (header_len found + value_len found)).

(** [at] on a view just made. *)
Definition at_ (bs : bytes) (index : N) : rlpR bytes := (at_cached bs index OffsetCache_new).1.

(** The items the iterator yields before its first error; an item takes at least
    one byte, so [length bs] turns are enough. *)
Fixpoint iter_from (fuel : nat) (bs : bytes) (index : N) : list bytes :=
  match fuel with
  | O => []
  | S fuel =>
      match at_ bs index with
      | Ok item => item :: iter_from fuel bs (index + 1)
      | _ => []
      end
  end.
Definition rlp_iter (bs : bytes) : list bytes := iter_from (length bs) bs 0.

Definition item_count (bs : bytes) : rlpR N :=
  if negb (is_list bs) then Err RlpError.RlpExpectedToBeList
  else Ok (len (rlp_iter bs)).

(** [as_list], [val_at] and [list_at], given the element's [decode]. *)
Definition as_list {T : Type} (decode : bytes → rlpR T) (bs : bytes) : rlpR (list T) :=
  map_res decode (rlp_iter bs).
Definition val_at {T : Type} (decode : bytes → rlpR T) (bs : bytes) (index : N) : rlpR T :=
  item ← at_ bs index; decode item.
Definition list_at {T : Type} (decode : bytes → rlpR T) (bs : bytes) (index : N) : rlpR (list T) :=
  item ← at_ bs index; as_list decode item.

(** [BasicDecoder::decode_value]. *)
Definition decode_value {T : Type} (f : bytes → rlpR T) (bs : bytes) : rlpR T :=
  match bs with
  | [] => Err (RlpError.RlpIsTooShort 1 0)
  | l :: _ =>
      if l <=? 0x7f then f [l]
      else if l <=? 0xb7 then
        let last_index_of := 1 + l - 0x80 in
        if len bs <? last_index_of then
          Err (RlpError.RlpInconsistentLengthAndData (len bs) last_index_of)
        else
          d ← slice bs 1 last_index_of;
          bad ← (if l =? 0x81 then b ← expect (d !! 0%nat); Ok (b <? 0x80) else Ok false);
          if bad : bool then Err RlpError.RlpInvalidIndirection else f d
      else if l <=? 0xbf then
        let len_of_len := l - 0xb7 in
        let begin_of_value := 1 + len_of_len in
        if len bs <? begin_of_value then
          Err (RlpError.RlpInconsistentLengthAndData (len bs) begin_of_value)
        else
          lb ← slice bs 1 begin_of_value;
          l ← decode_usize lb;
          let last_index_of_value := begin_of_value + l in
          if u64_size <=? last_index_of_value then
            Err (RlpError.RlpInvalidLength (u64_size - 1) (u64_size - 1))
          else if len bs <? last_index_of_value then
            Err (RlpError.RlpInconsistentLengthAndData (len bs) last_index_of_value)
          else
            d ← slice bs begin_of_value last_index_of_value;
            f d
      else Err RlpError.RlpExpectedToBeData
  end.

(** * Items *)

(** What a byte string of the format stands for: a tree of byte strings. *)
#[warnings="-register-all"]
Inductive rlp_item :=
| Data (d : bytes)
| List (l : list rlp_item).

(** The shortest big-endian form of an integer. *)
Definition min_be (n : N) : bytes := to_be_bytes (N.to_nat ((N.size n + 7) / 8)) n.

Definition header (offset n : N) : bytes :=
  if n <=? 55 then [offset + n] else (offset + 55 + len (min_be n)) :: min_be n.

Fixpoint enc (i : rlp_item) : bytes :=
  match i with
  | Data d =>
      match d with
      | [b] => if b <? 0x80 then [b] else [0x81; b]
      | _ => header 0x80 (len d) ++ d
      end
  | List l => let p := concat (enc <$> l) in header 0xc0 (len p) ++ p
  end.

(** Lengths are written in 32 bits, so an item has to be shorter. *)
Definition fits (i : rlp_item) : Prop := len (enc i) < u32_size.

Definition encs (l : list rlp_item) : bytes := concat (enc <$> l).

Lemma encs_cons i l : encs (i :: l) = enc i ++ encs l.
Proof. done. Qed.

Lemma encs_app l k : encs (l ++ k) = encs l ++ encs k.
Proof. unfold encs. by rewrite fmap_app, concat_app. Qed.

(** ** Sizes *)

Lemma drop_to_be_bytes j k n : drop j (to_be_bytes (j + k) n) = to_be_bytes k n.
Proof.
  revert n. induction k as [|k IH]; intros n.
  - rewrite Nat.add_0_r, drop_ge; [done|]. by rewrite to_be_bytes_length.
  - rewrite Nat.add_succ_r. simpl.
    rewrite drop_app_le by (rewrite to_be_bytes_length; lia). by rewrite IH.
Qed.

Lemma size_le n k : n < 2 ^ k → N.size n ≤ k.
Proof. intros Hn. destruct (N.eq_dec n 0) as [->|Hz]; [simpl; lia|].
  rewrite N.size_log2 by done. pose proof (proj1 (N.log2_lt_pow2 n k ltac:(lia)) Hn). lia. Qed.

(** Cutting the leading zero bytes off a wide big-endian form. *)
Lemma trim_be w n :
  n < 256 ^ N.of_nat w →
  drop (N.to_nat (leading_zeros (8 * N.of_nat w) n / 8)) (to_be_bytes w n) = min_be n.
Proof.
  intros Hn. unfold leading_zeros, min_be.
  assert (Hs : N.size n ≤ 8 * N.of_nat w).
  { apply size_le. rewrite N.pow_mul_r. by change (2 ^ 8) with 256. }
  set (k := N.to_nat ((N.size n + 7) / 8)).
  replace w with (N.to_nat ((8 * N.of_nat w - N.size n) / 8) + k)%nat at 2
    by (subst k; lia_div).
  apply drop_to_be_bytes.
Qed.

Lemma insert_size_min n : n < u32_size → insert_size n = min_be n.
Proof.
  intros Hn. unfold insert_size. rewrite N.mod_small by done.
  apply (trim_be 4). done.
Qed.

Lemma min_be_len n : len (min_be n) = (N.size n + 7) / 8.
Proof. unfold min_be, len. rewrite to_be_bytes_length. lia. Qed.

Lemma min_be_value n : from_be_bytes (min_be n) = n.
Proof.
  unfold min_be. apply from_to_be_bytes. rewrite N2Nat.id.
  pose proof (N.size_gt n). eapply N.lt_le_trans; [done|].
  change 256 with (2 ^ 8). rewrite <-N.pow_mul_r. apply N.pow_le_mono_r; [done|]. lia_div.
Qed.

Lemma min_be_head n : n ≠ 0 → ∃ b bs, min_be n = b :: bs ∧ b ≠ 0.
Proof.
  intros Hn. pose proof (min_be_len n) as Hl. pose proof (min_be_value n) as Hv.
  rewrite N.size_log2 in Hl by done.
  destruct (min_be n) as [|b bs] eqn:Hm.
  { rewrite (len_nil (A:=N)) in Hl. lia_div. }
  exists b, bs. split; [done|]. intros ->.
  assert (Hok : bytes_ok bs).
  { pose proof (to_be_bytes_ok (N.to_nat ((N.size n + 7) / 8)) n) as Hok.
    fold (min_be n) in Hok. rewrite Hm in Hok. by apply bytes_ok_cons in Hok as [_ Hok]. }
  rewrite from_be_bytes_cons in Hv. pose proof (from_be_bytes_bound bs Hok) as Hb.
  rewrite len_cons in Hl.
  assert (2 ^ N.log2 n ≤ n) by (apply N.log2_spec; lia).
  assert (256 ^ len bs ≤ 2 ^ N.log2 n).
  { change 256 with (2 ^ 8). rewrite <-N.pow_mul_r. apply N.pow_le_mono_r; [done|]. lia_div. }
  lia.
Qed.

Lemma min_be_len_bound n k : n < 256 ^ k → len (min_be n) ≤ k.
Proof.
  intros Hn. rewrite min_be_len. assert (N.size n ≤ 8 * k); [|lia_div].
  apply size_le. rewrite N.pow_mul_r. by change (2 ^ 8) with 256.
Qed.

(** ** The stream writes items *)

Lemma header_len_pos offset n : 1 ≤ len (header offset n).
Proof. unfold header. destruct (n <=? 55); rewrite len_cons; lia. Qed.

Lemma value_bytes_enc d : len d < u32_size → value_bytes d = enc (Data d).
Proof.
  intros Hd. destruct d as [|b [|c d]]; [done|done|]. set (d' := b :: c :: d) in *.
  change (value_bytes d') with
    (let l := len d' in
     if l <=? 55 then ((0x80 + l) mod 256) :: d'
     else let inserted := insert_size l in ((0xb7 + len inserted) mod 256) :: inserted ++ d').
  change (enc (Data d')) with (header 0x80 (len d') ++ d'). cbv zeta. unfold header.
  destruct (N.leb_spec (len d') 55).
  - rewrite N.mod_small by lia. done.
  - rewrite insert_size_min by done. pose proof (min_be_len_bound (len d') 4 Hd).
    rewrite N.mod_small by lia. done.
Qed.

(** Closing a list writes its header in the byte reserved by [begin_list]. *)
Lemma insert_list_payload_spec pre p :
  len p < u32_size →
  insert_list_payload (len p) (len (pre ++ [0])) ((pre ++ [0]) ++ p) =
  pre ++ header 0xc0 (len p) ++ p.
Proof.
  intros Hp. unfold insert_list_payload, header.
  assert (Hpos : N.to_nat (len (pre ++ [0]) - 1) = length pre).
  { rewrite len_app. change (len [0]) with 1. unfold len. lia. }
  assert (Hpos' : N.to_nat (len (pre ++ [0])) = length (pre ++ [0])) by (unfold len; lia).
  rewrite Hpos, Hpos'.
  destruct (N.leb_spec (len p) 55).
  - rewrite N.mod_small by lia. rewrite <-app_assoc. simpl.
    replace (length pre) with (length pre + 0)%nat by lia. by rewrite insert_app_r.
  - rewrite insert_size_min by done. pose proof (min_be_len_bound (len p) 4 Hp).
    rewrite N.mod_small by lia. rewrite take_app_length, drop_app_length, <-app_assoc.
    replace (length pre) with (length pre + 0)%nat by lia. by rewrite insert_app_r.
Qed.

(** The flag a stream starts with only shows when no list is open. *)
Lemma note_lists_flag lists n buf f s' :
  note_lists lists n buf false = Ok s' →
  ∃ b, note_lists lists n buf f = Ok (set_finished b s') ∧ (finished_list s' = true → b = true).
Proof.
  revert n buf s'. induction lists as [|x rest IH]; intros n buf s' Hn.
  - simpl in *. inv_ok. by exists f.
  - cbn [note_lists] in *. apply bind_Ok in Hn as (b & Hb & Hn). rewrite Hb, Ok_bind.
    destruct b.
    + apply bind_Ok in Hn as (s & Hs & [= <-]). destruct (IH _ _ _ Hs) as (b & -> & _).
      exists true. by destruct s.
    + simplify_eq. by exists false.
Qed.

(** [appends m i]: on a stream that can take one more item, [m] writes [i] and
    notes it; the flag is set at least when that closed a list. *)
Definition appends (m : strm ()) (i : rlp_item) : Prop :=
  ∀ s s', fits i →
    note_appended 1 (push_raw (enc i) (set_finished false s)) = (Ok tt, s') →
    ∃ b, m s = (Ok tt, set_finished b s') ∧ (finished_list s' = true → b = true).

(** [encodes f i]: [f] is the [rlp_append] of a value whose item is [i]; data is
    only written, a list is also noted by its last item. *)
Definition encodes (f : strm ()) (i : rlp_item) : Prop :=
  match i with
  | Data _ => ∀ s, fits i → f s = (Ok tt, push_raw (enc i) s)
  | List _ => ∀ s s', fits i →
      note_appended 1 (push_raw (enc i) (set_finished false s)) = (Ok tt, s') →
      f s = (Ok tt, set_finished true s')
  end.

Lemma set_finished_same s : set_finished (finished_list s) s = s.
Proof. by destruct s. Qed.

Lemma append_appends f i : encodes f i → appends (append f) i.
Proof.
  intros Hf s s' Hfit Hn. destruct i as [d|l]; simpl in Hf.
  - exists (finished_list s'). rewrite set_finished_same. split; [|done].
    unfold append, mbind, stM_bind, modify_st, get_st. by rewrite Hf.
  - exists true. split; [|done]. unfold append, mbind, stM_bind, modify_st, get_st.
    rewrite (Hf (set_finished false s) s') by done. done.
Qed.

Lemma encode_value_encodes d : encodes (encode_value d) (Data d).
Proof.
  intros s Hf. unfold encode_value, modify_st.
  destruct d as [|b [|c d]]; [done|done|]. set (d' := b :: c :: d) in *.
  rewrite value_bytes_enc; [done|]. unfold fits in Hf.
  change (enc (Data d')) with (header 0x80 (len d') ++ d') in Hf. rewrite len_app in Hf. lia.
Qed.

(** An open list below which the rest of the stream is [u]. *)
Definition open_list (pre p : bytes) (k n : N) (u : list ListInfo) (b : bool) : RlpStream :=
  {| unfinished_lists := {| li_position := len (pre ++ [0]); li_current := k; li_max := Some n |}
                           :: u;
     buffer := (pre ++ [0]) ++ p; finished_list := b |}.

Lemma open_list_step m i pre p k n u b :
  appends m i → fits i → k + 1 < n →
  ∃ b', m (open_list pre p k n u b) = (Ok tt, open_list pre (p ++ enc i) (k + 1) n u b').
Proof.
  intros Hm Hf Hk.
  destruct (Hm (open_list pre p k n u b) (open_list pre (p ++ enc i) (k + 1) n u false) Hf)
    as (b' & -> & _); [|by exists b'].
  unfold note_appended. simpl.
  rewrite (proj2 (N.ltb_ge _ _)) by lia. rewrite (proj2 (N.eqb_neq _ _)) by lia. simpl.
  unfold open_list. by rewrite <-!app_assoc.
Qed.

(** What an item needs that is appended in the last place of a list. *)
Definition appends_last (m : strm ()) (i : rlp_item) : Prop :=
  ∀ s s', fits i →
    note_appended 1 (push_raw (enc i) (set_finished false s)) = (Ok tt, s') →
    finished_list s' = true → m s = (Ok tt, s').

Lemma appends_appends_last m i : appends m i → appends_last m i.
Proof.
  intros Hm s s' Hf Hn Hs. destruct (Hm s s' Hf Hn) as (b & -> & Hb).
  rewrite Hb by done. rewrite <-Hs. by rewrite set_finished_same.
Qed.

(** Appending a value within its own [rlp_append] is harmless in the last place. *)
Lemma append_twice_last f d : encodes f (Data d) → appends_last (append (append f)) (Data d).
Proof.
  intros Hf s s' Hfit Hn Hs.
  assert (append f (set_finished false s) = (Ok tt, s')) as Ha.
  { unfold append, mbind, stM_bind, modify_st, get_st. rewrite Hf by done. exact Hn. }
  unfold append at 1, mbind, stM_bind, modify_st, get_st. rewrite Ha. by rewrite Hs.
Qed.

(** The calls of a chain: only the last one may rely on its place. *)
Inductive appends_all : list (strm ()) → list rlp_item → Prop :=
| appends_one m i : appends_last m i → appends_all [m] [i]
| appends_more m i ms l : appends m i → appends_all ms l → appends_all (m :: ms) (i :: l).

Lemma appends_all_Forall2 ms l : Forall2 appends ms l → l ≠ [] → appends_all ms l.
Proof.
  induction 1 as [|m i ms l Hm Hall IH]; [done|]. intros _.
  destruct Hall; [by apply appends_one, appends_appends_last|]. apply appends_more; auto.
Qed.

Lemma open_list_last m i pre p k n u b s' :
  appends_last m i → fits i → k + 1 = n → len (p ++ enc i) < u32_size →
  note_appended 1 {| unfinished_lists := u; finished_list := false;
    buffer := pre ++ header 0xc0 (len (p ++ enc i)) ++ p ++ enc i |} = (Ok tt, s') →
  m (open_list pre p k n u b) = (Ok tt, set_finished true s').
Proof.
  intros Hm Hf <- Hp Hn.
  apply (Hm (open_list pre p k (k + 1) u b) (set_finished true s') Hf).
  - unfold note_appended. simpl.
    rewrite (proj2 (N.ltb_ge _ _)) by lia. rewrite N.eqb_refl. simpl.
    replace (len (((pre ++ [0]) ++ p) ++ enc i) - len (pre ++ [0])) with (len (p ++ enc i))
      by (rewrite !len_app; lia).
    rewrite <-(app_assoc (pre ++ [0])), insert_list_payload_spec by done.
    unfold note_appended in Hn. simpl in Hn.
    destruct (note_lists _ _ _ _); simpl; by simplify_eq.
  - done.
Qed.

Lemma chain_open ms l pre p k n u b s' :
  appends_all ms l → k + len l = n → len (p ++ encs l) < u32_size →
  note_appended 1 {| unfinished_lists := u; finished_list := false;
    buffer := pre ++ header 0xc0 (len (p ++ encs l)) ++ p ++ encs l |} = (Ok tt, s') →
  chain ms (open_list pre p k n u b) = (Ok tt, set_finished true s').
Proof.
  intros Hall. revert p k b. induction Hall as [m i Hm|m i ms l Hm Hall IH]; intros p k b Hk Hp Hn;
    rewrite encs_cons in Hp, Hn; rewrite len_cons in Hk;
    assert (Hfi : fits i) by (unfold fits; rewrite !len_app in Hp; lia);
    unfold chain; simpl; unfold mbind, stM_bind.
  - change (encs []) with (@nil N) in *. rewrite !app_nil_r in *. change (len []) with 0 in *.
    rewrite (open_list_last m i pre p k n u b s' Hm Hfi) by (done || lia). done.
  - destruct (open_list_step m i pre p k n u b Hm Hfi) as (b' & ->).
    { destruct Hall; rewrite len_cons in Hk; lia. }
    apply (IH (p ++ enc i)); [lia| |]; by rewrite <-?app_assoc.
Qed.

(** A list announced with the number of its items is the item of the list. *)
Lemma begin_list_encodes_last n ms l :
  appends_all ms l → n = len l → encodes (_ ← begin_list n; chain ms) (List l).
Proof.
  intros Hall -> s s' Hf Hn. destruct l as [|i l].
  - inversion Hall.
  - unfold begin_list. rewrite (proj2 (N.eqb_neq _ _)) by (rewrite len_cons; lia).
    unfold mbind, stM_bind, modify_st. simpl.
    change (enc (List (i :: l))) with
      (header 0xc0 (len (encs (i :: l))) ++ encs (i :: l)) in *.
    assert (Hp : len (encs (i :: l)) < u32_size).
    { unfold fits in Hf. change (enc (List (i :: l))) with
      (header 0xc0 (len (encs (i :: l))) ++ encs (i :: l)) in Hf. rewrite len_app in Hf. lia. }
    pose proof (chain_open ms (i :: l) (buffer s) [] 0 (len (i :: l)) (unfinished_lists s) false s'
      Hall ltac:(lia) Hp Hn) as Hc.
    unfold open_list in Hc. by rewrite app_nil_r in Hc.
Qed.

Lemma begin_list_encodes n ms l :
  Forall2 appends ms l → n = len l → encodes (_ ← begin_list n; chain ms) (List l).
Proof.
  intros Hall Hn. destruct l as [|i l]; [|by apply begin_list_encodes_last, Hn; apply appends_all_Forall2].
  subst n. intros s s' Hf Hn. inversion Hall; subst. change (push_raw (enc (List []))) with (push_raw [0xc0]) in Hn.
  unfold begin_list. simpl. unfold mbind, stM_bind, modify_st. rewrite Hn. done.
Qed.

Lemma append_list_encodes fs l : Forall2 encodes fs l → encodes (append_list fs) (List l).
Proof.
  intros Hall. unfold append_list.
  assert (for_each append fs = chain (append <$> fs)) as ->.
  { clear Hall. unfold chain. induction fs as [|f fs IH]; simpl; [done|]. by rewrite IH. }
  apply begin_list_encodes.
  - apply Forall2_fmap_l. eapply Forall2_impl; [exact Hall|]. intros. by apply append_appends.
  - apply Forall2_length in Hall. unfold len. by rewrite Hall.
Qed.

(** [append_list] can stand for an [append] in a chain. *)
Lemma list_appends f l : encodes f (List l) → appends f (List l).
Proof. intros Hf s s' Hfit Hn. exists true. split; [by apply Hf|done]. Qed.

Lemma drain_encodes f i : encodes f i → fits i → drain f = Ok (enc i).
Proof.
  intros Hf Hfit. unfold drain. destruct i as [d|l].
  - by rewrite Hf.
  - by erewrite Hf by done.
Qed.

(** ** The view reads items *)

Lemma slice_Ok {E} bs a b : a ≤ b → b ≤ len bs →
  slice (E:=E) bs a b = Ok (take (N.to_nat (b - a)) (drop (N.to_nat a) bs)).
Proof.
  intros Ha Hb. unfold slice.
  by rewrite (proj2 (N.leb_le _ _) Ha), (proj2 (N.leb_le _ _) Hb).
Qed.

Lemma slice_app {E} pre d rest :
  slice (E:=E) (pre ++ d ++ rest) (len pre) (len pre + len d) = Ok d.
Proof.
  rewrite slice_Ok by (rewrite ?len_app; lia).
  replace (N.to_nat (len pre + len d - len pre)) with (length d) by (unfold len; lia).
  unfold len. rewrite Nat2N.id. by rewrite drop_app_length, take_app_length.
Qed.

Lemma slice_prefix {E} d rest : slice (E:=E) (d ++ rest) 0 (len d) = Ok d.
Proof. apply (slice_app [] d rest). Qed.

Lemma consume_app pre rest : consume (pre ++ rest) (len pre) = Ok rest.
Proof.
  unfold consume. rewrite (proj2 (N.leb_le _ _)) by (rewrite len_app; lia).
  rewrite slice_Ok by (rewrite len_app; lia). f_equal.
  replace (N.to_nat (len pre)) with (length pre) by (unfold len; lia).
  rewrite drop_app_length, take_ge; [done|]. rewrite len_app. unfold len. lia.
Qed.

Lemma decode_usize_min n : n ≠ 0 → n < u64_size → decode_usize (min_be n) = Ok n.
Proof.
  intros Hz Hn. unfold decode_usize. pose proof (min_be_len_bound n 8 Hn).
  destruct (min_be_head n Hz) as (b & bs & Hm & Hb).
  rewrite (proj2 (N.leb_le _ _)) by done. rewrite Hm. simpl.
  rewrite (proj2 (N.eqb_neq b 0)) by done. rewrite <-Hm, min_be_value, N.mod_small; done.
Qed.

(** Reading the header written for a payload of length [n]. *)
Lemma calculate_header first n rest :
  55 < n → n < u32_size →
  calculate_payload_info (first :: min_be n ++ rest) (len (min_be n)) =
    Ok {| header_len := 1 + len (min_be n); value_len := n |}.
Proof.
  intros Hlo Hn. unfold calculate_payload_info.
  destruct (min_be_head n ltac:(lia)) as (b & bs & Hm & Hb). rewrite Hm at 1. simpl.
  destruct b as [|b]; [done|].
  rewrite (proj2 (N.ltb_ge _ _)) by (rewrite len_cons, len_app; lia).
  pose proof (slice_app (E:=RlpError.t) [first] (min_be n) rest) as Hsl.
  change (len [first]) with 1 in Hsl. simpl in Hsl. rewrite Hsl. simpl.
  rewrite decode_usize_min; [done|lia|]. etrans; [done|]. done.
Qed.

Lemma PayloadInfo_from_header offset n rest :
  offset = 0x80 ∨ offset = 0xc0 → n < u32_size →
  PayloadInfo_from (header offset n ++ rest) =
    Ok {| header_len := len (header offset n); value_len := n |}.
Proof.
  intros Ho Hn. unfold header. destruct (N.leb_spec n 55).
  - unfold PayloadInfo_from. simpl.
    destruct Ho as [-> | ->];
      repeat (first [rewrite (proj2 (N.leb_gt _ _)) by lia | rewrite (proj2 (N.leb_le _ _)) by lia]);
      do 2 f_equal; lia.
  - pose proof (min_be_len_bound n 4 Hn). rewrite len_cons. simpl.
    destruct (min_be_head n ltac:(lia)) as (b & bs & Hm & _).
    assert (1 ≤ len (min_be n)) by (rewrite Hm, len_cons; lia).
    destruct Ho as [-> | ->];
      repeat (first [rewrite (proj2 (N.leb_gt _ _)) by lia | rewrite (proj2 (N.leb_le _ _)) by lia]).
    + replace (128 + 55 + len (min_be n) - 183) with (len (min_be n)) by lia.
      by apply calculate_header.
    + replace (192 + 55 + len (min_be n) - 247) with (len (min_be n)) by lia.
      by apply calculate_header.
Qed.

(** The header and the payload of an item. *)
Definition item_header (i : rlp_item) : bytes :=
  match i with
  | Data [b] => if b <? 0x80 then [] else [0x81]
  | Data d => header 0x80 (len d)
  | List l => header 0xc0 (len (encs l))
  end.
Definition item_payload (i : rlp_item) : bytes :=
  match i with Data d => d | List l => encs l end.

Lemma enc_split i : enc i = item_header i ++ item_payload i.
Proof.
  destruct i as [[|b [|c d]]|l]; try done. simpl. by destruct (b <? 0x80).
Qed.

Lemma payload_info_enc i rest :
  fits i →
  payload_info (enc i ++ rest) =
    Ok {| header_len := len (item_header i); value_len := len (item_payload i) |}.
Proof.
  intros Hf. unfold fits in Hf. rewrite enc_split, len_app in Hf. unfold payload_info.
  assert (PayloadInfo_from (enc i ++ rest) =
    Ok {| header_len := len (item_header i); value_len := len (item_payload i) |}) as ->.
  { rewrite enc_split, <-app_assoc. destruct i as [[|b [|c d]]|l]; simpl in *.
    - done.
    - destruct (N.ltb_spec b 0x80); simpl; [|done].
      rewrite (proj2 (N.leb_le _ _)) by lia. done.
    - apply PayloadInfo_from_header; [by left|]. lia.
    - apply PayloadInfo_from_header; [by right|]. lia. }
  simpl. rewrite (proj2 (N.ltb_lt _ _)); [|etrans; [done|]; done].
  rewrite (proj2 (N.leb_le _ _)); [done|]. rewrite enc_split, !len_app. lia.
Qed.

Lemma enc_len i : len (enc i) = len (item_header i) + len (item_payload i).
Proof. by rewrite enc_split, len_app. Qed.

Lemma consume_items_enc l rest :
  len (encs l) < u32_size → consume_items (encs l ++ rest) (length l) = Ok rest.
Proof.
  induction l as [|i l IH]; intros Hl; [done|]. rewrite encs_cons, len_app in Hl.
  simpl. rewrite encs_cons, <-app_assoc, payload_info_enc by (unfold fits; lia). simpl.
  rewrite <-enc_len, consume_app. simpl. apply IH. lia.
Qed.

Lemma enc_nonempty i : 1 ≤ len (enc i).
Proof.
  destruct i as [[|b [|c d]]|l]; [done| | |].
  - simpl. destruct (b <? 0x80); rewrite !len_cons; lia.
  - change (enc (Data (b :: c :: d))) with
      (header 0x80 (len (b :: c :: d)) ++ b :: c :: d).
    rewrite len_app. pose proof (header_len_pos 0x80 (len (b :: c :: d))). lia.
  - simpl. rewrite len_app. pose proof (header_len_pos 0xc0 (len (encs l))). unfold encs in *. lia.
Qed.

Lemma is_list_enc l rest : is_list (enc (List l) ++ rest) = true.
Proof.
  simpl. unfold header. destruct (_ <=? 55); simpl; apply N.leb_le; lia.
Qed.

Lemma fits_list l : fits (List l) → len (encs l) < u32_size.
Proof. unfold fits. rewrite enc_split, len_app. simpl. lia. Qed.

Lemma fits_elem l i : fits (List l) → i ∈ l → fits i.
Proof.
  intros Hf%fits_list (l1 & l2 & ->)%list_elem_of_split. unfold fits.
  rewrite encs_app, encs_cons, !len_app in Hf. lia.
Qed.

(** [at] without its cache: walk the payload from the start. *)
Definition walk (bs : bytes) (index : N) : rlpR bytes :=
  rest ← consume_list_payload bs;
  consume_items rest (N.to_nat index).

Definition at_pure (bs : bytes) (index : N) : rlpR bytes :=
  if negb (is_list bs) then Err RlpError.RlpExpectedToBeList
  else
    pi ← payload_info bs;
    let offset_max := header_len pi + value_len pi - 1 in
    rest ← walk bs index;
    let new_offset := len bs - len rest in
    if offset_max <? new_offset then Err (RlpError.RlpIsTooShort new_offset offset_max)
    else
      found ← payload_info rest;
      slice rest 0 (header_len found + value_len found).

(** A cache is good when it is new or points at the item it names. *)
Definition cache_ok (bs : bytes) (c : OffsetCache) : Prop :=
  c = OffsetCache_new ∨ ∃ rest, walk bs (oc_index c) = Ok rest ∧ consume bs (oc_offset c) = Ok rest.

Lemma consume_items_add bs a b :
  consume_items bs (a + b) = (rest ← consume_items bs a; consume_items rest b).
Proof.
  revert bs. induction a as [|a IH]; intros bs; simpl; [done|].
  destruct (payload_info bs); simpl; [|done|done].
  destruct (consume _ _); simpl; [apply IH|done|done].
Qed.

Lemma consume_suffix bs l rest : consume bs l = Ok rest → ∃ pre, bs = pre ++ rest ∧ len pre = l.
Proof.
  unfold consume. destruct (N.leb_spec l (len bs)) as [Hl|]; [|done].
  rewrite slice_Ok by lia. intros [=<-]. exists (take (N.to_nat l) bs). split.
  - rewrite (take_ge (drop _ _)); [by rewrite take_drop|]. rewrite length_drop. unfold len in *. lia.
  - unfold len in *. rewrite length_take. lia.
Qed.

Lemma consume_items_suffix bs n rest : consume_items bs n = Ok rest → ∃ pre, bs = pre ++ rest.
Proof.
  revert bs. induction n as [|n IH]; intros bs Hc; simpl in Hc; [inv_ok; by exists []|].
  inv_ok. match goal with Hc : consume _ _ = _ |- _ => apply consume_suffix in Hc as (p1 & -> & _) end.
  match goal with Hc : consume_items _ _ = _ |- _ => apply IH in Hc as (p2 & ->) end.
  exists (p1 ++ p2). by rewrite app_assoc.
Qed.

Lemma walk_suffix bs n rest : walk bs n = Ok rest → ∃ pre, bs = pre ++ rest.
Proof.
  unfold walk, consume_list_payload. intros Hw. inv_ok.
  match goal with Hc : consume _ _ = _ |- _ => apply consume_suffix in Hc as (p1 & -> & _) end.
  match goal with Hc : consume_items _ _ = _ |- _ => apply consume_items_suffix in Hc as (p2 & ->) end.
  exists (p1 ++ p2). by rewrite app_assoc.
Qed.

(** What the cached start contributes is the walk from the beginning. *)
Lemma cached_walk bs index c :
  cache_ok bs c → index < u64_size - 1 → seek bs c index = walk bs index.
Proof.
  intros Hc Hi. unfold seek. destruct (N.leb_spec (oc_index c) index) as [Hle|]; [|done].
  destruct Hc as [-> | (rest & Hw & Hoff)].
  { change (oc_index OffsetCache_new) with (u64_size - 1) in Hle. lia. }
  rewrite Hoff. simpl.
  unfold walk in *. inv_ok. rename H into Hp, H0 into Hci. rewrite Hp. simpl.
  replace (N.to_nat index) with (N.to_nat (oc_index c) + N.to_nat (index - oc_index c))%nat by lia.
  by rewrite consume_items_add, Hci.
Qed.

Lemma at_cached_pure bs index c :
  cache_ok bs c → index < u64_size - 1 → (at_cached bs index c).1 = at_pure bs index.
Proof.
  intros Hc Hi. unfold at_cached, at_pure. destruct (negb (is_list bs)); [done|].
  unfold mbind, stM_bind, lift_st, get_st, put_st. simpl.
  destruct (payload_info bs) as [pi| |]; [|done|done]. rewrite cached_walk by done. simpl.
  destruct (walk bs index) as [rest| |]; [|done|done]. simpl. by destruct (_ <? _).
Qed.

Lemma at_cached_keeps bs index c :
  cache_ok bs c → index < u64_size - 1 → cache_ok bs (at_cached bs index c).2.
Proof.
  intros Hc Hi. unfold at_cached. destruct (negb (is_list bs)); [done|].
  unfold mbind, stM_bind, lift_st, get_st, put_st. simpl.
  destruct (payload_info bs) as [pi| |]; [|done|done]. rewrite cached_walk by done. simpl.
  destruct (walk bs index) as [rest| |] eqn:Hw; [|done|done]. simpl.
  destruct (_ <? _); [done|]. simpl. right. exists rest. simpl. split; [done|].
  apply walk_suffix in Hw as (pre & ->). rewrite len_app.
  replace (len pre + len rest - len rest) with (len pre) by lia. apply consume_app.
Qed.

Lemma at_eq bs index : index < u64_size - 1 → at_ bs index = at_pure bs index.
Proof. intros Hi. apply at_cached_pure; [by left|done]. Qed.

Lemma walk_enc l k rest :
  fits (List l) → k ≤ len l →
  walk (enc (List l) ++ rest) k = Ok (encs (drop (N.to_nat k) l) ++ rest).
Proof.
  intros Hf Hk. unfold walk, consume_list_payload. rewrite payload_info_enc by done. simpl.
  rewrite <-app_assoc, consume_app. simpl. fold (encs l).
  rewrite <-(take_drop (N.to_nat k) l) at 1. rewrite encs_app, <-app_assoc.
  replace (N.to_nat k) with (length (take (N.to_nat k) l)) at 3
    by (rewrite length_take; unfold len in Hk; lia).
  apply consume_items_enc. apply fits_list in Hf.
  rewrite <-(take_drop (N.to_nat k) l), encs_app, len_app in Hf. lia.
Qed.

Lemma at_enc l k i :
  fits (List l) → len l < u64_size - 1 → l !! N.to_nat k = Some i → at_ (enc (List l)) k = Ok (enc i).
Proof.
  intros Hf Hl Hk. assert (k < len l) by (apply lookup_lt_Some in Hk; unfold len; lia).
  assert (Hd : drop (N.to_nat k) l = i :: drop (S (N.to_nat k)) l) by (by apply drop_S).
  rewrite at_eq by lia. unfold at_pure. rewrite <-(app_nil_r (enc (List l))), is_list_enc. simpl negb.
  cbv iota. rewrite payload_info_enc, walk_enc by (done || lia). simpl mbind. cbv beta.
  rewrite Hd, encs_cons, !app_nil_r. cbv zeta. cbn [header_len value_len].
  assert (fits i) by (eapply fits_elem; [done|]; by eapply list_elem_of_lookup_2).
  pose proof (enc_nonempty i).
  rewrite (proj2 (N.ltb_ge _ _)); [|fold (encs l); rewrite !len_app; lia].
  rewrite payload_info_enc by done. simpl. rewrite <-enc_len. apply slice_prefix.
Qed.

Lemma at_enc_end l :
  fits (List l) → len l < u64_size - 1 → ∃ e, at_ (enc (List l)) (len l) = Err e.
Proof.
  intros Hf Hl. rewrite at_eq by lia. unfold at_pure.
  rewrite <-(app_nil_r (enc (List l))), is_list_enc. simpl negb. cbv iota.
  rewrite payload_info_enc, walk_enc by (done || lia). simpl mbind. cbv beta zeta.
  cbn [header_len value_len].
  replace (drop (N.to_nat (len l)) l) with (@nil rlp_item).
  2: { symmetry. apply drop_ge. unfold len. lia. }
  pose proof (header_len_pos 0xc0 (len (encs l))).
  change (encs [] ++ []) with (@nil N). rewrite (proj2 (N.ltb_lt _ _)); [by eexists|].
  simpl. rewrite app_nil_r. fold (encs l). rewrite len_app. change (len []) with 0. lia.
Qed.

Lemma list_len_bound l : len l ≤ len (encs l).
Proof.
  induction l as [|i l IH]; [done|]. rewrite encs_cons, len_app, len_cons.
  pose proof (enc_nonempty i). lia.
Qed.

Lemma fits_short l : fits (List l) → len l < u64_size - 1.
Proof.
  intros Hf%fits_list. pose proof (list_len_bound l).
  assert (u32_size < u64_size - 1) by done. lia.
Qed.

Lemma iter_from_enc fuel l k :
  fits (List l) → k ≤ len l → (length l - N.to_nat k ≤ fuel)%nat →
  iter_from fuel (enc (List l)) k = enc <$> drop (N.to_nat k) l.
Proof.
  intros Hf. pose proof (fits_short l Hf) as Hs. revert k.
  induction fuel as [|fuel IH]; intros k Hk Hfuel; cbn [iter_from].
  - rewrite drop_ge by lia. done.
  - destruct (l !! N.to_nat k) as [i|] eqn:Hi.
    + rewrite (at_enc l k i) by done. rewrite (drop_S _ _ _ Hi). rewrite fmap_cons.
      apply lookup_lt_Some in Hi.
      rewrite IH by (unfold len in *; lia).
      by replace (N.to_nat (k + 1)) with (S (N.to_nat k)) by lia.
    + apply lookup_ge_None in Hi. replace k with (len l) by (unfold len in *; lia).
      destruct (at_enc_end l Hf Hs) as [e ->]. rewrite drop_ge by (unfold len; lia). done.
Qed.

Lemma rlp_iter_enc l : fits (List l) → rlp_iter (enc (List l)) = enc <$> l.
Proof.
  intros Hf. unfold rlp_iter. rewrite iter_from_enc; [done|done|lia|].
  pose proof (list_len_bound l). rewrite enc_split, length_app. simpl. unfold len in *. lia.
Qed.

Lemma item_count_enc l : fits (List l) → item_count (enc (List l)) = Ok (len l).
Proof.
  intros Hf. unfold item_count. rewrite rlp_iter_enc by done.
  rewrite <-(app_nil_r (enc (List l))), is_list_enc. simpl. unfold len. by rewrite length_fmap.
Qed.

Lemma val_at_enc {T} (decode : bytes → rlpR T) l k i :
  fits (List l) → l !! N.to_nat k = Some i → val_at decode (enc (List l)) k = decode (enc i).
Proof.
  intros Hf Hk. unfold val_at. rewrite (at_enc l k i); [done|done| |done]. by apply fits_short.
Qed.

Lemma list_at_enc {T} (decode : bytes → rlpR T) l k i :
  fits (List l) → l !! N.to_nat k = Some i →
  list_at decode (enc (List l)) k = as_list decode (enc i).
Proof.
  intros Hf Hk. unfold list_at. rewrite (at_enc l k i); [done|done| |done]. by apply fits_short.
Qed.

Lemma as_list_enc {T} (decode : bytes → rlpR T) l xs :
  fits (List l) → Forall2 (λ i x, decode (enc i) = Ok x) l xs →
  as_list decode (enc (List l)) = Ok xs.
Proof.
  intros Hf Hall. unfold as_list. rewrite rlp_iter_enc by done. apply map_res_Ok.
  by apply Forall2_fmap_l.
Qed.

Lemma decode_value_enc {T} (f : bytes → rlpR T) d :
  fits (Data d) → decode_value f (enc (Data d)) = f d.
Proof.
  intros Hf. destruct d as [|b [|c d]]; [done| |].
  { simpl. destruct (N.ltb_spec b 0x80); simpl.
    - rewrite (proj2 (N.leb_le _ _)) by lia. done.
    - rewrite (proj2 (N.ltb_ge _ _)) by lia. done. }
  set (d' := b :: c :: d) in *. change (enc (Data d')) with (header 0x80 (len d') ++ d').
  assert (Hd : len d' < u32_size).
  { unfold fits in Hf. change (enc (Data d')) with (header 0x80 (len d') ++ d') in Hf.
    rewrite len_app in Hf. lia. }
  assert (H2 : 2 ≤ len d') by (unfold d'; rewrite !len_cons; lia).
  unfold header. destruct (N.leb_spec (len d') 55).
  - unfold decode_value. simpl app. cbv iota.
    rewrite (proj2 (N.leb_gt _ _)) by lia. rewrite (proj2 (N.leb_le _ _)) by lia. cbv zeta.
    replace (1 + (128 + len d') - 128) with (1 + len d') by lia.
    rewrite (proj2 (N.ltb_ge _ _)) by (rewrite len_cons; lia).
    pose proof (slice_app (E:=RlpError.t) [128 + len d'] d' []) as Hsl.
    change (len [_]) with 1 in Hsl. rewrite app_nil_r in Hsl. simpl app in Hsl. rewrite Hsl.
    rewrite Ok_bind, (proj2 (N.eqb_neq _ _)) by lia. done.
  - pose proof (min_be_len_bound (len d') 4 Hd).
    destruct (min_be_head (len d') ltac:(lia)) as (z & zs & Hm & _).
    assert (1 ≤ len (min_be (len d'))) by (rewrite Hm, len_cons; lia).
    unfold decode_value. simpl app. cbv iota.
    do 2 rewrite (proj2 (N.leb_gt _ _)) by lia. rewrite (proj2 (N.leb_le _ _)) by lia. cbv zeta.
    replace (128 + 55 + len (min_be (len d')) - 183) with (len (min_be (len d'))) by lia.
    rewrite (proj2 (N.ltb_ge _ _)) by (rewrite len_cons, len_app; lia).
    set (hd := 128 + 55 + len (min_be (len d'))).
    pose proof (slice_app (E:=RlpError.t) [hd] (min_be (len d')) d') as Hsl.
    change (len [hd]) with 1 in Hsl. simpl app in Hsl. rewrite Hsl. simpl mbind. cbv beta.
    rewrite decode_usize_min by (try lia; etrans; done). simpl mbind. cbv beta.
    rewrite (proj2 (N.leb_gt _ _)).
    2: { assert (u32_size + 5 < u64_size) by done. lia. }
    rewrite (proj2 (N.ltb_ge _ _)) by (rewrite len_cons, len_app; lia).
    pose proof (slice_app (E:=RlpError.t) (hd :: min_be (len d')) d' []) as Hs2.
    rewrite len_cons, app_nil_r in Hs2. simpl app in Hs2. rewrite Hs2. done.
Qed.

(** ** Untrusted bytes do not unwind the view *)

Lemma slice_no_panic {E} bs a b : a ≤ b → b ≤ len bs → slice (E:=E) bs a b ≠ Panic.
Proof. intros. by rewrite slice_Ok. Qed.

Lemma slice_len {E} bs a b d : slice (E:=E) bs a b = Ok d → len d = b - a.
Proof.
  unfold slice. destruct (N.leb_spec a b), (N.leb_spec b (len bs)); simpl; try done.
  intros [=<-]. unfold len in *. rewrite length_take, length_drop. lia.
Qed.

Lemma decode_usize_no_panic bs : 1 ≤ len bs → decode_usize bs ≠ Panic.
Proof.
  intros Hl. unfold decode_usize. destruct (_ <=? 8); [|done].
  destruct bs as [|b bs]; [done|]. simpl. by destruct (b =? 0).
Qed.

Lemma calculate_payload_info_no_panic bs n : 1 ≤ n → calculate_payload_info bs n ≠ Panic.
Proof.
  intros Hn. unfold calculate_payload_info.
  destruct (bs !! 1%nat) as [[|b]|]; [done| |done].
  destruct (N.ltb_spec (len bs) (1 + n)); [done|].
  apply bind_no_panic; [apply slice_no_panic; lia|]. intros d Hd%slice_len.
  apply bind_no_panic; [apply decode_usize_no_panic; lia|done].
Qed.

Lemma payload_info_no_panic bs : payload_info bs ≠ Panic.
Proof.
  unfold payload_info. apply bind_no_panic; [|intros item _; by destruct (_ && _)].
  unfold PayloadInfo_from. destruct bs as [|l bs]; [done|].
  destruct (N.leb_spec l 0x7f); [done|]. destruct (N.leb_spec l 0xb7); [done|].
  destruct (N.leb_spec l 0xbf); [apply calculate_payload_info_no_panic; lia|].
  destruct (N.leb_spec l 0xf7); [done|]. apply calculate_payload_info_no_panic; lia.
Qed.

Lemma payload_info_bound bs pi : payload_info bs = Ok pi → header_len pi + value_len pi ≤ len bs.
Proof.
  unfold payload_info. intros Hp. inv_ok.
  destruct (_ && _) eqn:Hb in *; [|done]. inv_ok.
  by apply andb_true_iff in Hb as [_ Hb%N.leb_le].
Qed.

Lemma consume_no_panic bs l : consume bs l ≠ Panic.
Proof.
  unfold consume. destruct (N.leb_spec l (len bs)); [|done]. by apply slice_no_panic.
Qed.
#[export] Hint Resolve payload_info_no_panic consume_no_panic : np_db.

Lemma consume_items_no_panic bs n : consume_items bs n ≠ Panic.
Proof. revert bs. induction n as [|n IH]; intros bs; simpl; np_tac. Qed.
#[export] Hint Resolve consume_items_no_panic : np_db.

Lemma seek_no_panic bs c index : seek bs c index ≠ Panic.
Proof. unfold seek, consume_list_payload. np_tac. Qed.

Lemma at_no_panic bs index : at_ bs index ≠ Panic.
Proof.
  unfold at_, at_cached. destruct (negb (is_list bs)); [done|].
  unfold mbind at 1, stM_bind at 1, lift_st at 1. pose proof (payload_info_no_panic bs).
  destruct (payload_info bs) as [pi| |]; [|done|done].
  unfold mbind at 1, stM_bind at 1, get_st at 1. unfold mbind at 1, stM_bind at 1, lift_st at 1.
  pose proof (seek_no_panic bs OffsetCache_new index).
  destruct (seek bs OffsetCache_new index) as [rest| |]; [|done|done].
  destruct (_ <? _); [done|]. unfold mbind at 1, stM_bind at 1, put_st, lift_st. simpl.
  apply bind_no_panic; [apply payload_info_no_panic|]. intros found Hf%payload_info_bound.
  apply slice_no_panic; lia.
Qed.
#[export] Hint Resolve at_no_panic : np_db.

Section NoPanic.
Context {T : Type} (decode : bytes → rlpR T).
Hypothesis Hdecode : ∀ bs, decode bs ≠ Panic.

Lemma val_at_no_panic bs index : val_at decode bs index ≠ Panic.
Proof. unfold val_at. np_tac. Qed.

Lemma as_list_no_panic bs : as_list decode bs ≠ Panic.
Proof. unfold as_list. np_tac. Qed.

Lemma list_at_no_panic bs index : list_at decode bs index ≠ Panic.
Proof. unfold list_at. apply bind_no_panic; [np_tac|]. intros. apply as_list_no_panic. Qed.

Lemma decode_value_no_panic bs : decode_value decode bs ≠ Panic.
Proof.
  unfold decode_value. destruct bs as [|l bs]; [done|].
  destruct (N.leb_spec l 0x7f); [done|]. destruct (N.leb_spec l 0xb7).
  { cbv zeta. destruct (N.ltb_spec (len (l :: bs)) (1 + l - 0x80)); [done|].
    apply bind_no_panic; [apply slice_no_panic; lia|]. intros d Hd%slice_len.
    apply bind_no_panic; [|intros [|] _; done].
    destruct (N.eqb_spec l 0x81) as [->|]; [|done].
    destruct d as [|b d]; [by rewrite (len_nil (A:=N)) in Hd|done]. }
  destruct (N.leb_spec l 0xbf); [|done].
  cbv zeta. destruct (N.ltb_spec (len (l :: bs)) (1 + (l - 0xb7))); [done|].
  apply bind_no_panic; [apply slice_no_panic; lia|]. intros lb Hlb%slice_len.
  apply bind_no_panic; [apply decode_usize_no_panic; lia|]. intros n _.
  destruct (u64_size <=? _); [done|].
  destruct (N.ltb_spec (len (l :: bs)) (1 + (l - 0xb7) + n)); [done|].
  apply bind_no_panic; [apply slice_no_panic; lia|done].
Qed.
End NoPanic.

Lemma item_count_no_panic bs : item_count bs ≠ Panic.
Proof. unfold item_count. np_tac. Qed.
#[export] Hint Resolve val_at_no_panic list_at_no_panic decode_value_no_panic as_list_no_panic
  item_count_no_panic : np_db.

(** ** The iterator ends *)

Lemma payload_info_pos bs pi : payload_info bs = Ok pi → 1 ≤ header_len pi + value_len pi.
Proof.
  unfold payload_info, PayloadInfo_from. intros Hp. inv_ok.
  destruct (_ && _) in *; [|done]. inv_ok.
  destruct bs as [|l bs]; [done|]. unfold calculate_payload_info in *.
  repeat match goal with
  | Hp : (if ?b then _ else _) = Ok _ |- _ => destruct b; inv_ok
  | Hp : (match ?x with _ => _ end) = Ok _ |- _ => destruct x; inv_ok
  end; simpl in *; lia.
Qed.

Lemma consume_items_shrinks bs n rest : consume_items bs n = Ok rest → len rest + N.of_nat n ≤ len bs.
Proof.
  revert bs. induction n as [|n IH]; intros bs Hc; simpl in Hc; [inv_ok; lia|]. inv_ok.
  match goal with Hp : payload_info _ = Ok _ |- _ => apply payload_info_pos in Hp end.
  match goal with Hp : consume _ _ = Ok _ |- _ => apply consume_suffix in Hp as (pre & -> & ?) end.
  match goal with Hp : consume_items _ _ = Ok _ |- _ => apply IH in Hp end.
  rewrite len_app. lia.
Qed.

Lemma at_bound bs index item : index < u64_size - 1 → at_ bs index = Ok item → index < len bs.
Proof.
  intros Hi. rewrite at_eq by done. unfold at_pure, walk, consume_list_payload.
  destruct (negb _); [done|]. intros Ha. inv_ok.
  match goal with Hp : (if ?b then _ else _) = Ok _ |- _ => destruct b; [done|] end. inv_ok.
  match goal with Hp : consume_items _ _ = Ok _ |- _ => apply consume_items_shrinks in Hp end.
  match goal with Hp : consume _ _ = Ok _ |- _ => apply consume_suffix in Hp as (pre & -> & ?) end.
  match goal with Hp : payload_info ?r = Ok ?p, _ : slice ?r _ _ = _ |- _ =>
    pose proof (payload_info_pos _ _ Hp); pose proof (payload_info_bound _ _ Hp) end.
  rewrite len_app. lia.
Qed.

Lemma iter_from_enough f1 f2 bs k :
  len bs < u64_size - 1 → k ≤ len bs →
  (length bs - N.to_nat k ≤ f1)%nat → (length bs - N.to_nat k ≤ f2)%nat →
  iter_from f1 bs k = iter_from f2 bs k.
Proof.
  intros Hs. revert f2 k. induction f1 as [|f1 IH]; intros f2 k Hk H1 H2.
  - destruct f2 as [|f2]; [done|]. simpl. destruct (at_ bs k) eqn:Ha; try done.
    apply at_bound in Ha; unfold len in *; lia.
  - simpl. destruct (at_ bs k) as [item| |] eqn:Ha.
    + pose proof (at_bound bs k item ltac:(lia) Ha).
      destruct f2 as [|f2]; [unfold len in *; lia|]. simpl. rewrite Ha. f_equal.
      apply IH; unfold len in *; lia.
    + destruct f2; simpl; by rewrite ?Ha.
    + destruct f2; simpl; by rewrite ?Ha.
Qed.

(** * Properties *)

(** A sequence of [at] calls on one view, threading the cache. *)
Fixpoint at_many (bs : bytes) (c : OffsetCache) (indices : list N) : list (rlpR bytes) :=
  match indices with
  | [] => []
  | index :: indices =>
      let '(r, c) := at_cached bs index c in r :: at_many bs c indices
  end.

Lemma at_many_pure bs c indices :
  cache_ok bs c → Forall (λ index, index < u64_size - 1) indices →
  at_many bs c indices = at_pure bs <$> indices.
Proof.
  intros Hc Hall. revert c Hc. induction Hall as [|index indices Hi Hall IH]; intros c Hc; [done|].
  simpl. pose proof (at_cached_pure bs index c Hc Hi). pose proof (at_cached_keeps bs index c Hc Hi).
  destruct (at_cached bs index c) as [r c']. simpl in *. subst r. by rewrite IH.
Qed.

(** The offset cache is invisible: on any bytes, any sequence of [at] calls on one
    view returns for each index what walking the list from its start returns. *)
Theorem at_cache_transparent (bs : bytes) (indices : list N)
  (Hidx : Forall (λ index, index < u64_size - 1) indices) :
  at_many bs OffsetCache_new indices = at_pure bs <$> indices.
Proof. apply at_many_pure; [by left|done]. Qed.

Lemma at_cache_transparent_witness :
  at_many [0xc4; 1; 0x82; 5; 6] OffsetCache_new [1; 0; 1; 2] =
  at_pure [0xc4; 1; 0x82; 5; 6] <$> [1; 0; 1; 2].
Proof. apply at_cache_transparent. repeat constructor. Defined.

(** The iterator over a list of untrusted bytes ends, without unwinding, within as
    many turns as there are bytes: more turns yield the same items. *)
Theorem rlp_iter_terminates (bs : bytes) (fuel : nat)
  (Hlen : len bs < u64_size - 1) (Hfuel : (length bs ≤ fuel)%nat) :
  rlp_iter bs = iter_from fuel bs 0 ∧ (∀ index, at_ bs index ≠ Panic).
Proof.
  split; [|apply at_no_panic]. unfold rlp_iter. apply iter_from_enough; lia.
Qed.

Lemma rlp_iter_terminates_witness :
  rlp_iter [0xc4; 1; 0x82; 5; 6] = iter_from 7 [0xc4; 1; 0x82; 5; 6] 0.
Proof.
  apply (proj1 (rlp_iter_terminates [0xc4; 1; 0x82; 5; 6] 7 eq_refl ltac:(simpl; lia))).
Defined.
