(* ===== verification/RlpImpls.v ===== *)
(** The RLP forms of the basic types, [util/rlp/src/impls.rs]: booleans, unsigned
    integers, byte strings, hashes, strings, options and vectors, and the network
    identifier of [key/src/network.rs].  A codec is a type's [Encodable] and
    [Decodable]; [CodecOk] is what the structures built from it rely on. *)

From stdpp Require Import base list numbers strings.
From S2P Require Import Prelude Rlp Types.

Local Open Scope N_scope.

(** [impl Encodable for T] and [impl Decodable for T]. *)
Record Codec (T : Type) := {
  rlp_append : T → strm ();
  decode : bytes → rlpR T;
}.
Arguments rlp_append {T} _ _.
Arguments decode {T} _ _.

(** What a codec promises: it writes one item, reads that item back for a value
    the type can hold, and does not unwind on untrusted bytes. *)
Class CodecOk {T : Type} (c : Codec T) := {
  item : T → rlp_item;
  wf : T → Prop;
  codec_encodes x : encodes (rlp_append c x) (item x);
  codec_decodes x : wf x → fits (item x) → decode c (enc (item x)) = Ok x;
  codec_no_panic bs : decode c bs ≠ Panic;
}.
Arguments item {T} c {_} _.
Arguments wf {T} c {_} _.
#[export] Hint Resolve codec_no_panic : np_db.

(** [s.append(&x)] and [s.append_list(&xs)] *)
Definition app {T : Type} (c : Codec T) (x : T) : strm () := append (rlp_append c x).
Definition app_list {T : Type} (c : Codec T) (xs : list T) : strm () :=
  append_list (rlp_append c <$> xs).

(** [s.begin_list(n).append(..)...] *)
Definition rlp_list (n : N) (calls : list (strm ())) : strm () :=
  _ ← begin_list n; chain calls.

(** * Booleans and integers *)

Definition bool_codec : Codec bool := {|
  rlp_append (self : bool) := if self then encode_value [1] else encode_value [0];
  decode := decode_value (λ bs,
    match bs with
    | [] => Ok false
    | [b] => Ok (negb (b =? 0))
    | _ => Err (RlpError.RlpIsTooBig 1 (len bs))
    end) |}.

Definition u8_decode : bytes → rlpR N := decode_value (λ bs,
  match bs with
  | [] => Ok 0
  | [b] => if negb (b =? 0) then Ok b else Err RlpError.RlpInvalidIndirection
  | _ => Err (RlpError.RlpIsTooBig 1 (len bs))
  end).

Definition u8_codec : Codec N := {|
  rlp_append self := if negb (self =? 0) then encode_value [self] else encode_value [];
  decode := u8_decode |}.

(** [impl_encodable_for_u!] and [impl_decodable_for_u!] at [size] bytes. *)
Definition uint_codec (size : nat) : Codec N := {|
  rlp_append (self : _) :=
    let leading_empty_bytes := leading_zeros (8 * N.of_nat size) self / 8 in
    encode_value (drop (N.to_nat leading_empty_bytes) (to_be_bytes size self));
  decode rlp := decode_value (λ bs,
    let l := len bs in
    if l <=? 1 then u8_decode rlp
    else if l <=? N.of_nat size then
      b ← expect (bs !! 0%nat);
      if b =? 0 then Err RlpError.RlpInvalidIndirection
      else Ok (from_be_bytes bs mod 256 ^ N.of_nat size)
    else Err (RlpError.RlpIsTooBig (N.of_nat size) l)) rlp |}.

Definition u16_codec : Codec N := uint_codec 2.
Definition u32_codec : Codec N := uint_codec 4.
Definition u64_codec : Codec N := uint_codec 8.
Definition u128_codec : Codec N := uint_codec 16.
(** [usize] goes through [u64]. *)
Definition usize_codec : Codec N := u64_codec.

(** * Byte strings *)

Definition bytes_codec : Codec bytes := {|
  rlp_append self := encode_value self;
  decode := decode_value Ok |}.

(** [impl_encodable_for_hash!] and [impl_decodable_for_hash!]. *)
Definition hash_codec (size : N) : Codec bytes := {|
  rlp_append self := encode_value self;
  decode := decode_value (λ bs,
    if len bs <? size then Err (RlpError.RlpIsTooShort size (len bs))
    else if size <? len bs then Err (RlpError.RlpIsTooBig size (len bs))
    else Ok bs) |}.
Definition H160_codec : Codec bytes := hash_codec 20.
Definition H256_codec : Codec bytes := hash_codec 32.
Definition H512_codec : Codec bytes := hash_codec 64.
Definition H520_codec : Codec bytes := hash_codec 65.

(** [str::from_utf8]: sequences of one to four bytes, none overlong, no surrogate,
    nothing above U+10FFFF. *)
Definition cont (b : N) : bool := (0x80 <=? b) && (b <=? 0xbf).
Fixpoint utf8 (bs : bytes) : bool :=
  match bs with
  | [] => true
  | b :: bs =>
      if b <=? 0x7f then utf8 bs
      else if (0xc2 <=? b) && (b <=? 0xdf) then
        match bs with
        | b1 :: bs => cont b1 && utf8 bs
        | _ => false
        end
      else if (0xe0 <=? b) && (b <=? 0xef) then
        match bs with
        | b1 :: b2 :: bs =>
            (if b =? 0xe0 then (0xa0 <=? b1) && (b1 <=? 0xbf)
             else if b =? 0xed then (0x80 <=? b1) && (b1 <=? 0x9f) else cont b1) &&
            cont b2 && utf8 bs
        | _ => false
        end
      else if (0xf0 <=? b) && (b <=? 0xf4) then
        match bs with
        | b1 :: b2 :: b3 :: bs =>
            (if b =? 0xf0 then (0x90 <=? b1) && (b1 <=? 0xbf)
             else if b =? 0xf4 then (0x80 <=? b1) && (b1 <=? 0x8f) else cont b1) &&
            cont b2 && cont b3 && utf8 bs
        | _ => false
        end
      else false
  end.

Definition string_codec : Codec String := {|
  rlp_append self := encode_value self;
  decode := decode_value (λ bs,
    if existsb (λ b, b =? 0) bs then Err RlpError.RlpNullTerminatedString
    else if utf8 bs then Ok bs else Err RlpError.RlpExpectedToBeData) |}.

(** [NetworkId] is two bytes printed as a string, which is UTF-8 by construction. *)
Definition network_id_codec : Codec NetworkId := {|
  rlp_append self := encode_value self;
  decode rlp :=
    network_id ← decode string_codec rlp;
    if negb (len network_id =? 2) then Err (RlpError.RlpInvalidLength 2 (len network_id))
    else Ok network_id |}.

(** * Options, vectors and triples *)

Definition option_codec {T : Type} (c : Codec T) : Codec (option T) := {|
  rlp_append (self : _) :=
    match self with
    | None => begin_list 0
    | Some value => rlp_list 1 [app c value]
    end;
  decode rlp :=
    items ← item_count rlp;
    if items =? 1 then value ← val_at (decode c) rlp 0; Ok (Some value)
    else if items =? 0 then Ok None
    else Err (RlpError.RlpIncorrectListLen 1 items) |}.

(** A vector, with [append_list] and [as_list]. *)
Definition vec_codec {T : Type} (c : Codec T) : Codec (list T) := {|
  rlp_append self := app_list c self;
  decode := as_list (decode c) |}.

Definition triple_codec {A B C : Type} (a : Codec A) (b : Codec B) (c : Codec C)
  : Codec (A * B * C) := {|
  rlp_append self := let '(x, y, z) := self in rlp_list 3 [app a x; app b y; app c z];
  decode rlp :=
    n ← item_count rlp;
    if negb (n =? 3) then Err (RlpError.RlpIncorrectListLen 3 n)
    else
      x ← val_at (decode a) rlp 0;
      y ← val_at (decode b) rlp 1;
      z ← val_at (decode c) rlp 2;
      Ok (x, y, z) |}.

(** * The codecs keep their promises *)

Lemma app_appends {T} (c : Codec T) `{CodecOk T c} x : appends (app c x) (item c x).
Proof. apply append_appends, codec_encodes. Qed.

Lemma app_list_encodes {T} (c : Codec T) `{CodecOk T c} xs :
  encodes (app_list c xs) (List (item c <$> xs)).
Proof.
  apply append_list_encodes. apply Forall2_fmap. induction xs; constructor; auto.
  apply codec_encodes.
Qed.

Lemma app_list_appends {T} (c : Codec T) `{CodecOk T c} xs :
  appends (app_list c xs) (List (item c <$> xs)).
Proof. apply list_appends, app_list_encodes. Qed.

Lemma rlp_list_encodes n calls l :
  Forall2 appends calls l → n = len l → encodes (rlp_list n calls) (List l).
Proof. apply begin_list_encodes. Qed.

(** Reading a field of a list that was written by its codec. *)
Lemma val_at_field {T} (c : Codec T) `{CodecOk T c} l k x :
  fits (List l) → l !! N.to_nat k = Some (item c x) → wf c x →
  val_at (decode c) (enc (List l)) k = Ok x.
Proof.
  intros Hf Hk Hx. rewrite (val_at_enc _ l k _ Hf Hk). apply codec_decodes; [done|].
  eapply fits_elem; [done|]. by eapply list_elem_of_lookup_2.
Qed.

Lemma list_codec_decodes {T} (c : Codec T) `{CodecOk T c} xs :
  Forall (wf c) xs → fits (List (item c <$> xs)) →
  as_list (decode c) (enc (List (item c <$> xs))) = Ok xs.
Proof.
  intros Hall Hf. apply as_list_enc; [done|]. apply Forall2_fmap_l.
  assert (Hfe : ∀ x, x ∈ xs → fits (item c x)).
  { intros x Hx. eapply fits_elem; [done|]. by apply list_elem_of_fmap_2. }
  clear Hf. induction Hall as [|x xs Hx Hall IH]; constructor.
  - apply codec_decodes; [done|]. apply Hfe. by left.
  - apply IH. intros y Hy. apply Hfe. by right.
Qed.

Lemma list_at_field {T} (c : Codec T) `{CodecOk T c} l k xs :
  fits (List l) → l !! N.to_nat k = Some (List (item c <$> xs)) → Forall (wf c) xs →
  list_at (decode c) (enc (List l)) k = Ok xs.
Proof.
  intros Hf Hk Hx. rewrite (list_at_enc _ l k _ Hf Hk). apply list_codec_decodes; [done|].
  eapply fits_elem; [done|]. by eapply list_elem_of_lookup_2.
Qed.

(** Evaluates the number of items of a list written field by field. *)
Ltac count_tac :=
  cbn [len length N.of_nat Pos.of_succ_nat Pos.succ N.eqb Pos.eqb negb fmap list_fmap].

(** A codec whose values are written as the byte string [f x]. *)
Lemma data_decodes {T} (f : bytes → rlpR T) d x :
  fits (Data d) → f d = Ok x → decode_value f (enc (Data d)) = Ok x.
Proof. intros. by rewrite decode_value_enc. Qed.

#[global, refine] Instance bool_codec_ok : CodecOk bool_codec := {|
  item b := Data [N.b2n b];
  wf b := True |}.
Proof.
  - intros [|]; apply encode_value_encodes.
  - intros [|] _ Hf; by apply data_decodes.
  - intros bs. apply decode_value_no_panic. by intros [|? [|]].
Defined.

Lemma u8_decode_no_panic bs : u8_decode bs ≠ Panic.
Proof. apply decode_value_no_panic. intros [|b [|]]; try done. by destruct (negb _). Qed.
#[export] Hint Resolve u8_decode_no_panic : np_db.

#[global, refine] Instance u8_codec_ok : CodecOk u8_codec := {|
  item n := Data (if negb (n =? 0) then [n] else []);
  wf n := n < 256 |}.
Proof.
  - intros n. simpl. destruct (negb (n =? 0)); apply encode_value_encodes.
  - intros n _ Hf. apply data_decodes; [done|]. destruct (n =? 0) eqn:Hn; simpl.
    + by apply N.eqb_eq in Hn as ->.
    + by rewrite Hn.
  - apply u8_decode_no_panic.
Defined.

(** Below 256 the two encodings of an integer agree. *)
Lemma min_be_small n : n < 256 → min_be n = if negb (n =? 0) then [n] else [].
Proof.
  intros Hn. destruct (N.eqb_spec n 0) as [->|Hz]; [done|]. simpl.
  pose proof (min_be_value n) as Hv. pose proof (min_be_len_bound n 1 Hn) as Hl.
  destruct (min_be_head n Hz) as (b & bs & Hm & _). rewrite Hm in *.
  rewrite len_cons in Hl. destruct bs as [|? bs]; [|rewrite len_cons in Hl; lia].
  f_equal. change (from_be_bytes [b]) with (256 * 0 + b) in Hv. lia.
Qed.

Lemma uint_decodes size n :
  n < 256 ^ N.of_nat size → fits (Data (min_be n)) →
  decode (uint_codec size) (enc (Data (min_be n))) = Ok n.
Proof.
  intros Hn Hf. unfold uint_codec, decode. rewrite decode_value_enc by done. cbv zeta.
  destruct (N.leb_spec (len (min_be n)) 1) as [Hl|Hl].
  - assert (Hs : n < 256).
    { rewrite <-(min_be_value n). eapply N.lt_le_trans; [apply from_be_bytes_bound|].
      - apply to_be_bytes_ok.
      - change 256 with (256 ^ 1) at 2. apply N.pow_le_mono_r; lia. }
    rewrite min_be_small in * by done. exact (codec_decodes (c:=u8_codec) n Hs Hf).
  - assert (n ≠ 0) by (intros ->; by compute in Hl).
    rewrite (proj2 (N.leb_le _ _)) by (by apply min_be_len_bound).
    destruct (min_be_head n) as (b & bs & Hm & Hb); [done|].
    rewrite Hm. simpl. rewrite (proj2 (N.eqb_neq b 0)) by done.
    rewrite <-Hm, min_be_value. by rewrite N.mod_small.
Qed.

#[global, refine] Instance uint_codec_ok size : CodecOk (uint_codec size) := {|
  item n := Data (drop (N.to_nat (leading_zeros (8 * N.of_nat size) n / 8))
                    (to_be_bytes size n));
  wf n := n < 256 ^ N.of_nat size |}.
Proof.
  - intros n. apply encode_value_encodes.
  - intros n Hn. rewrite trim_be by done. by apply uint_decodes.
  - intros bs. apply decode_value_no_panic. intros d. cbv zeta.
    destruct (N.leb_spec (len d) 1); [apply u8_decode_no_panic|].
    destruct (_ <=? _); [|done]. destruct d as [|b d]; [rewrite (len_nil (A:=N)) in *; lia|].
    simpl. by destruct (b =? 0).
Defined.

#[global, refine] Instance bytes_codec_ok : CodecOk bytes_codec := {|
  item d := Data d;
  wf d := True |}.
Proof.
  - intros d. apply encode_value_encodes.
  - intros d _ Hf. by apply data_decodes.
  - intros bs. by apply decode_value_no_panic.
Defined.

#[global, refine] Instance hash_codec_ok size : CodecOk (hash_codec size) := {|
  item d := Data d;
  wf d := len d = size |}.
Proof.
  - intros d. apply encode_value_encodes.
  - intros d Hd Hf. apply data_decodes; [done|]. by rewrite Hd, N.ltb_irrefl.
  - intros bs. apply decode_value_no_panic. intros d. np_tac.
Defined.

(** A string that holds no NUL, which the decoder refuses. *)
Definition string_wf (s : String) : Prop := Forall (λ b, b ≠ 0) s ∧ utf8 s = true.

Lemma no_nul s : Forall (λ b, b ≠ 0) s → existsb (λ b, b =? 0) s = false.
Proof.
  induction 1 as [|b s Hb Hs IH]; simpl; [done|]. by rewrite (proj2 (N.eqb_neq b 0)).
Qed.

#[global, refine] Instance string_codec_ok : CodecOk string_codec := {|
  item s := Data s;
  wf := string_wf |}.
Proof.
  - intros s. apply encode_value_encodes.
  - intros s [Hn Hu] Hf. apply data_decodes; [done|]. by rewrite no_nul, Hu.
  - intros bs. apply decode_value_no_panic. intros d. np_tac.
Defined.

#[global, refine] Instance network_id_codec_ok : CodecOk network_id_codec := {|
  item s := Data s;
  wf s := string_wf s ∧ len s = 2 |}.
Proof.
  - intros s. apply encode_value_encodes.
  - intros s [Hs Hl] Hf. unfold network_id_codec. cbn [decode].
    assert (decode string_codec (enc (Data s)) = Ok s) as ->
      by exact (codec_decodes (c:=string_codec) s Hs Hf). simpl. by rewrite Hl.
  - intros bs. apply bind_no_panic; [apply codec_no_panic|]. intros. np_tac.
Defined.

#[global, refine] Instance vec_codec_ok {T} (c : Codec T) `{CodecOk T c} : CodecOk (vec_codec c) := {|
  item xs := List (item c <$> xs);
  wf := Forall (wf c) |}.
Proof.
  - intros xs. apply app_list_encodes.
  - intros xs Hxs Hf. by apply list_codec_decodes.
  - intros bs. apply as_list_no_panic, codec_no_panic.
Defined.

#[global, refine] Instance option_codec_ok {T} (c : Codec T) `{CodecOk T c} :
  CodecOk (option_codec c) := {|
  item o := List (match o with Some x => [item c x] | None => [] end);
  wf o := match o with Some x => wf c x | None => True end |}.
Proof.
  - intros [x|]; simpl.
    + apply rlp_list_encodes; [|done]. repeat constructor. apply app_appends.
    + pose proof (rlp_list_encodes 0 [] [] ltac:(constructor) eq_refl) as He.
      intros s s' Hf Hn. specialize (He s s' Hf Hn). revert He.
      unfold rlp_list, mbind, stM_bind. simpl. by destruct (begin_list 0 s) as [[[]| |] ?].
  - intros [x|] Hx Hf; unfold option_codec; cbn [decode];
      rewrite item_count_enc, Ok_bind by done; count_tac.
    + by rewrite (val_at_field c [item c x] 0 x).
    + done.
  - intros bs. unfold option_codec. cbn [decode]. pose proof (codec_no_panic (c:=c)). np_tac.
Defined.

#[global, refine] Instance triple_codec_ok {A B C} (a : Codec A) (b : Codec B) (c : Codec C)
  `{CodecOk A a} `{CodecOk B b} `{CodecOk C c} : CodecOk (triple_codec a b c) := {|
  item t := let '(x, y, z) := t in List [item a x; item b y; item c z];
  wf t := let '(x, y, z) := t in wf a x ∧ wf b y ∧ wf c z |}.
Proof.
  - intros [[x y] z]. apply rlp_list_encodes; [|done]. repeat constructor; apply app_appends.
  - intros [[x y] z] (Hx & Hy & Hz) Hf. unfold triple_codec. cbn [decode].
    rewrite item_count_enc, Ok_bind by done. count_tac.
    rewrite (val_at_field a _ 0 x), (val_at_field b _ 1 y), (val_at_field c _ 2 z) by done. done.
  - intros bs. unfold triple_codec. cbn [decode].
    pose proof (codec_no_panic (c:=a)). pose proof (codec_no_panic (c:=b)).
    pose proof (codec_no_panic (c:=c)). np_tac.
Defined.

#[global] Instance u16_codec_ok : CodecOk u16_codec := uint_codec_ok 2.
#[global] Instance u32_codec_ok : CodecOk u32_codec := uint_codec_ok 4.
#[global] Instance u64_codec_ok : CodecOk u64_codec := uint_codec_ok 8.
#[global] Instance u128_codec_ok : CodecOk u128_codec := uint_codec_ok 16.
#[global] Instance usize_codec_ok : CodecOk usize_codec := uint_codec_ok 8.
#[global] Instance H160_codec_ok : CodecOk H160_codec := hash_codec_ok 20.
#[global] Instance H256_codec_ok : CodecOk H256_codec := hash_codec_ok 32.
#[global] Instance H512_codec_ok : CodecOk H512_codec := hash_codec_ok 64.
#[global] Instance H520_codec_ok : CodecOk H520_codec := hash_codec_ok 65.
#[global] Typeclasses Opaque bool_codec u8_codec uint_codec u16_codec u32_codec u64_codec
  u128_codec usize_codec bytes_codec hash_codec H160_codec H256_codec H512_codec H520_codec
  string_codec network_id_codec option_codec vec_codec triple_codec.

(** * Structures *)

(** One field of a decoder that reads a list written by [rlp_list]. *)
Lemma val_at_step {T B} (c : Codec T) `{CodecOk T c} l k x (f : T → rlpR B) r :
  fits (List l) → l !! N.to_nat k = Some (item c x) → wf c x → f x = r →
  val_at (decode c) (enc (List l)) k ≫= f = r.
Proof. intros Hf Hk Hx <-. by rewrite (val_at_field c l k x). Qed.

Lemma list_at_step {T B} (c : Codec T) `{CodecOk T c} l k xs (f : list T → rlpR B) r :
  fits (List l) → l !! N.to_nat k = Some (List (item c <$> xs)) → Forall (wf c) xs → f xs = r →
  list_at (decode c) (enc (List l)) k ≫= f = r.
Proof. intros Hf Hk Hx <-. by rewrite (list_at_field c l k xs). Qed.

(** The check of the number of items. *)
Lemma item_count_step {B} l n (f : N → rlpR B) r :
  fits (List l) → len l = n → f n = r → item_count (enc (List l)) ≫= f = r.
Proof. intros Hf <- <-. by rewrite item_count_enc. Qed.

(** [encodes_tac]: a list of announced length is written field by field;
    [decodes_tac]: its decoder reads the fields back. *)
Ltac encodes_tac :=
  apply rlp_list_encodes; [|reflexivity];
  repeat (apply Forall2_cons; split; [first [apply app_appends | apply app_list_appends]|]);
  by apply Forall2_nil.
Ltac decodes_tac :=
  repeat first
    [ eapply item_count_step; [eassumption|reflexivity|]; count_tac
    | eapply val_at_step; [eassumption|reflexivity|first [eassumption|exact I|reflexivity]|]
    | eapply list_at_step; [eassumption|reflexivity|eassumption|] ];
  try reflexivity.

(** * Sizes of encodings *)

Lemma header_len_bound offset n : n < u64_size → len (header offset n) ≤ 9.
Proof.
  intros Hn. unfold header. destruct (n <=? 55); rewrite len_cons; [rewrite len_nil; lia|].
  pose proof (min_be_len_bound n 8 Hn). lia.
Qed.

Lemma enc_data_bound d : len d < u64_size → len (enc (Data d)) ≤ 9 + len d.
Proof.
  intros Hd. rewrite enc_split, len_app. cbn [item_payload].
  assert (len (item_header (Data d)) ≤ 9); [|lia].
  destruct d as [|b [|c d]]; cbn [item_header]; [apply header_len_bound; lia| |by apply header_len_bound].
  destruct (b <? 0x80); rewrite ?len_cons, ?len_nil; lia.
Qed.

Lemma encs_bound B l : Forall (λ i, len (enc i) ≤ B) l → len (encs l) ≤ len l * B.
Proof.
  induction 1 as [|i l Hi _ IH]; [done|]. rewrite encs_cons, len_app, len_cons. lia.
Qed.

Lemma enc_list_bound B l :
  Forall (λ i, len (enc i) ≤ B) l → len l * B < u64_size → len (enc (List l)) ≤ 9 + len l * B.
Proof.
  intros Hl Hs. pose proof (encs_bound B l Hl). rewrite enc_split, len_app. cbn [item_payload item_header].
  pose proof (header_len_bound 0xc0 (len (encs l)) ltac:(lia)). lia.
Qed.

Lemma enc_list_sum l :
  sum_with (λ i, len (enc i)) l < u64_size → len (enc (List l)) ≤ 9 + sum_with (λ i, len (enc i)) l.
Proof.
  intros Hs. assert (len (encs l) = sum_with (λ i, len (enc i)) l) as He.
  { clear Hs. induction l as [|i l IH]; [done|]. by rewrite encs_cons, len_app, sum_with_cons, IH. }
  rewrite enc_split, len_app. cbn [item_payload item_header].
  pose proof (header_len_bound 0xc0 (len (encs l)) ltac:(lia)). lia.
Qed.

Lemma u64_item_bound n : len (enc (item u64_codec n)) ≤ 17.
Proof.
  change (len (enc (Data (drop (N.to_nat (leading_zeros 64 n / 8)) (to_be_bytes 8 n)))) ≤ 17).
  set (d := drop _ _). assert (len d ≤ 8) as Hd.
  { unfold d, len. rewrite length_drop, to_be_bytes_length. generalize (N.to_nat (leading_zeros 64 n / 8)).
    clear. lia. }
  clearbody d. assert (8 < u64_size) by done. pose proof (enc_data_bound d ltac:(lia)). lia.
Qed.

Lemma data_item_bound (d : bytes) n : len d ≤ n → n < u64_size → len (enc (Data d)) ≤ 9 + n.
Proof. intros Hd Hn. pose proof (enc_data_bound d ltac:(lia)). lia. Qed.
