(* ===== verification/RlpTyped.v ===== *)
(** Decoders return values of their types: whatever bytes a decoder is given, the integers of
    the result are in range and its arrays have their lengths. *)
From stdpp Require Import base list numbers strings.
From Stdlib Require Import NArith Lia.
From S2P Require Import Prelude Types Rlp RlpImpls.

Local Open Scope N_scope.

(** What the client of a decoder relies on. *)
Class CodecTyped {T : Type} (c : Codec T) `{!CodecOk c} : Prop :=
  codec_typed bs x : bytes_ok bs → decode c bs = Ok x → wf c x.

(** * Views stay within the bytes *)

Lemma slice_bytes_ok {E} bs a b d : bytes_ok bs → slice (E:=E) bs a b = Ok d → bytes_ok d.
Proof.
  unfold slice. destruct (_ && _); [|done]. intros Hb [= <-]. by apply Forall_take, Forall_drop.
Qed.

Lemma consume_bytes_ok bs l rest : bytes_ok bs → consume bs l = Ok rest → bytes_ok rest.
Proof. unfold consume. destruct (_ <=? _); [|done]. apply slice_bytes_ok. Qed.

Lemma consume_items_bytes_ok bs n rest : bytes_ok bs → consume_items bs n = Ok rest → bytes_ok rest.
Proof.
  revert bs. induction n as [|n IH]; intros bs Hb; simpl; [by intros [= <-]|].
  intros Hc. inv_ok. eauto using consume_bytes_ok.
Qed.

Lemma at_bytes_ok bs k item : bytes_ok bs → at_ bs k = Ok item → bytes_ok item.
Proof.
  intros Hb. unfold at_, at_cached. destruct (negb _); [done|].
  unfold mbind, stM_bind, lift_st, get_st, put_st, throw_st.
  destruct (payload_info bs); [|done..].
  destruct (seek bs _ k) as [rest| |] eqn:Hs; [|done..]. destruct (_ <? _); [done|]. simpl. intros Hi.
  apply (bind_Ok (payload_info rest)) in Hi as (found & _ & Hi). eapply slice_bytes_ok; [|exact Hi]. revert Hs. unfold seek. intros Hs.
  destruct (_ <=? k); inv_ok; (eapply consume_items_bytes_ok; [|eassumption]).
  - by eapply consume_bytes_ok.
  - unfold consume_list_payload in *. inv_ok. by eapply consume_bytes_ok.
Qed.

Lemma decode_value_typed {T} (f : bytes → rlpR T) (P : T → Prop) bs x :
  (∀ d y, bytes_ok d → f d = Ok y → P y) → bytes_ok bs → decode_value f bs = Ok x → P x.
Proof.
  intros Hf Hb. unfold decode_value. destruct bs as [|l bs]; [done|].
  destruct (l <=? 127). { apply Hf. apply bytes_ok_cons in Hb as [? _]. by repeat constructor. }
  destruct (l <=? 183).
  { cbv zeta. destruct (_ <? _); [done|]. intros Hd. inv_ok.
    match goal with Hd : (if ?b then Err _ else _) = Ok _ |- _ => destruct b; [done|] end.
    eapply Hf; [|done]. by eapply slice_bytes_ok. }
  destruct (l <=? 191); [|done]. cbv zeta. destruct (_ <? _); [done|]. intros Hd. inv_ok.
  destruct (_ <=? _); [done|]. destruct (_ <? _); [done|]. inv_ok.
  eapply Hf; [|done]. by eapply slice_bytes_ok.
Qed.

Section Views.
Context {T : Type} (c : Codec T) `{!CodecOk c, !CodecTyped c}.

Lemma val_at_typed bs k x : bytes_ok bs → val_at (decode c) bs k = Ok x → wf c x.
Proof. unfold val_at. intros Hb Hd. inv_ok. eapply codec_typed; [|done]. by eapply at_bytes_ok. Qed.

Lemma rlp_iter_bytes_ok bs : bytes_ok bs → Forall bytes_ok (rlp_iter bs).
Proof.
  intros Hb. unfold rlp_iter. generalize (length bs) 0. intros fuel.
  induction fuel as [|fuel IH]; intros k; simpl; [constructor|].
  destruct (at_ bs k) as [i| |] eqn:Hi; [|constructor..]. constructor; [by eapply at_bytes_ok|apply IH].
Qed.

Lemma as_list_typed bs xs : bytes_ok bs → as_list (decode c) bs = Ok xs → Forall (wf c) xs.
Proof.
  intros Hb. unfold as_list. pose proof (rlp_iter_bytes_ok bs Hb) as Hall.
  revert xs. induction Hall as [|i l Hi Hall IH]; intros xs; simpl; [intros [= <-]; constructor|].
  intros Hd. inv_ok. constructor; [by eapply codec_typed|eauto].
Qed.

Lemma list_at_typed bs k xs : bytes_ok bs → list_at (decode c) bs k = Ok xs → Forall (wf c) xs.
Proof. unfold list_at. intros Hb Hd. inv_ok. eapply as_list_typed; [|done]. by eapply at_bytes_ok. Qed.
End Views.

(** * The basic types *)

Lemma u8_decode_typed bs x : bytes_ok bs → u8_decode bs = Ok x → x < 256.
Proof.
  apply (decode_value_typed _ (λ x, x < 256)). intros [|b [|b' d]] y Hd; simpl; [by intros [= <-]| |done].
  apply bytes_ok_cons in Hd as [Hb _]. destruct (negb _); [by intros [= <-]|done].
Qed.

#[global] Instance bool_codec_typed : CodecTyped bool_codec.
Proof. done. Qed.

#[global] Instance u8_codec_typed : CodecTyped u8_codec.
Proof. intros bs x. apply u8_decode_typed. Qed.

#[global] Instance uint_codec_typed size : (0 < size)%nat → CodecTyped (uint_codec size).
Proof.
  intros Hs bs x Hb. cbn [decode uint_codec wf uint_codec_ok].
  assert (256 ≤ 256 ^ N.of_nat size) as Hp
    by (rewrite <-(N.pow_1_r 256) at 1; apply N.pow_le_mono_r; lia).
  apply (decode_value_typed _ (λ x, x < 256 ^ N.of_nat size)); [|done]. cbv zeta. intros d y Hd.
  destruct (_ <=? 1).
  { intros Hu. apply u8_decode_typed in Hu; [|done]. lia. }
  destruct (_ <=? _); [|done]. intros Hu. inv_ok. destruct (_ =? 0); simplify_eq.
  apply N.mod_lt. lia.
Qed.

#[global] Instance u64_codec_typed : CodecTyped u64_codec.
Proof. apply uint_codec_typed. lia. Qed.
#[global] Instance usize_codec_typed : CodecTyped usize_codec.
Proof. apply uint_codec_typed. lia. Qed.

#[global] Instance bytes_codec_typed : CodecTyped bytes_codec.
Proof. done. Qed.

#[global] Instance hash_codec_typed size : CodecTyped (hash_codec size).
Proof.
  intros bs x. apply (decode_value_typed _ (λ d, len d = size)). intros d y _.
  destruct (N.ltb_spec (len d) size); [done|]. destruct (N.ltb_spec size (len d)); [done|].
  intros [= <-]. lia.
Qed.
#[global] Instance H160_codec_typed : CodecTyped H160_codec := hash_codec_typed 20.
#[global] Instance H256_codec_typed : CodecTyped H256_codec := hash_codec_typed 32.
#[global] Instance H512_codec_typed : CodecTyped H512_codec := hash_codec_typed 64.
#[global] Instance H520_codec_typed : CodecTyped H520_codec := hash_codec_typed 65.

#[global] Instance option_codec_typed {T} (c : Codec T) `{!CodecOk c, !CodecTyped c} :
  CodecTyped (option_codec c).
Proof.
  intros bs x Hb. cbn [decode option_codec]. intros Hd. inv_ok.
  match goal with Hd : (if ?n =? 1 then _ else _) = Ok _ |- _ => destruct (n =? 1); [inv_ok|destruct (n =? 0)] end.
  - simpl. by eapply val_at_typed.
  - by simplify_eq.
  - done.
Qed.

#[global] Instance vec_codec_typed {T} (c : Codec T) `{!CodecOk c, !CodecTyped c} :
  CodecTyped (vec_codec c).
Proof. intros bs x Hb. by apply as_list_typed. Qed.

(** [typed_tac]: the fields of a structure that was read with [val_at] and [list_at]. *)
Ltac typed_tac :=
  repeat match goal with
    | Hb : bytes_ok ?bs, H : val_at (decode ?c) ?bs _ = Ok _ |- _ => apply (val_at_typed c) in H; [|exact Hb]
    | Hb : bytes_ok ?bs, H : list_at (decode ?c) ?bs _ = Ok _ |- _ => apply (list_at_typed c) in H; [|exact Hb]
    end.
