(* ===== verification/TxRlp.v ===== *)
(** The RLP forms of the transaction data ([types/src/transaction]): the derived
    codecs of the structures, and the hand-written ones of [Timelock],
    [ShardTransaction] and [Action]. *)

From stdpp Require Import base list numbers strings.
From S2P Require Import Prelude Types Rlp RlpImpls.

Local Open Scope N_scope.

(** * Structures *)

Definition Timelock_codec : Codec Timelock := {|
  rlp_append (self : Timelock) :=
    match self with
    | Block val => rlp_list 2 [app u8_codec 0x01; app u64_codec val]
    | BlockAge val => rlp_list 2 [app u8_codec 0x02; app u64_codec val]
    | Time val => rlp_list 2 [app u8_codec 0x03; app u64_codec val]
    | TimeAge val => rlp_list 2 [app u8_codec 0x04; app u64_codec val]
    end;
  decode d :=
    n ← item_count d;
    if negb (n =? 2) then Err (RlpError.RlpIncorrectListLen 2 n)
    else
      t ← val_at (decode u8_codec) d 0;
      if t =? 0x01 then val ← val_at (decode u64_codec) d 1; Ok (Block val)
      else if t =? 0x02 then val ← val_at (decode u64_codec) d 1; Ok (BlockAge val)
      else if t =? 0x03 then val ← val_at (decode u64_codec) d 1; Ok (Time val)
      else if t =? 0x04 then val ← val_at (decode u64_codec) d 1; Ok (TimeAge val)
      else Err (RlpError.Custom "Unexpected timelock type") |}.

Definition AssetOutPoint_codec : Codec AssetOutPoint := {|
  rlp_append self :=
    rlp_list 5
      [app H256_codec (aop_tracker self); app usize_codec (aop_index self);
       app H160_codec (aop_asset_type self); app u16_codec (aop_shard_id self);
       app u64_codec (aop_quantity self)];
  decode rlp :=
    tracker ← val_at (decode H256_codec) rlp 0;
    index ← val_at (decode usize_codec) rlp 1;
    asset_type ← val_at (decode H160_codec) rlp 2;
    shard_id ← val_at (decode u16_codec) rlp 3;
    quantity ← val_at (decode u64_codec) rlp 4;
    Ok {| aop_tracker := tracker; aop_index := index; aop_asset_type := asset_type;
          aop_shard_id := shard_id; aop_quantity := quantity |} |}.

Definition AssetTransferInput_codec : Codec AssetTransferInput := {|
  rlp_append self :=
    rlp_list 4
      [app AssetOutPoint_codec (ati_prev_out self);
       app (option_codec Timelock_codec) (ati_timelock self);
       app bytes_codec (ati_lock_script self); app bytes_codec (ati_unlock_script self)];
  decode rlp :=
    prev_out ← val_at (decode AssetOutPoint_codec) rlp 0;
    timelock ← val_at (decode (option_codec Timelock_codec)) rlp 1;
    lock_script ← val_at (decode bytes_codec) rlp 2;
    unlock_script ← val_at (decode bytes_codec) rlp 3;
    Ok {| ati_prev_out := prev_out; ati_timelock := timelock; ati_lock_script := lock_script;
          ati_unlock_script := unlock_script |} |}.

Definition AssetTransferOutput_codec : Codec AssetTransferOutput := {|
  rlp_append self :=
    rlp_list 5
      [app H160_codec (ato_lock_script_hash self); app_list bytes_codec (ato_parameters self);
       app H160_codec (ato_asset_type self); app u16_codec (ato_shard_id self);
       app u64_codec (ato_quantity self)];
  decode rlp :=
    lock_script_hash ← val_at (decode H160_codec) rlp 0;
    parameters ← list_at (decode bytes_codec) rlp 1;
    asset_type ← val_at (decode H160_codec) rlp 2;
    shard_id ← val_at (decode u16_codec) rlp 3;
    quantity ← val_at (decode u64_codec) rlp 4;
    Ok {| ato_lock_script_hash := lock_script_hash; ato_parameters := parameters;
          ato_asset_type := asset_type; ato_shard_id := shard_id; ato_quantity := quantity |} |}.

Definition Order_codec : Codec Order := {|
  rlp_append self :=
    rlp_list 15
      [app H160_codec (ord_asset_type_from self); app H160_codec (ord_asset_type_to self);
       app H160_codec (ord_asset_type_fee self); app u16_codec (ord_shard_id_from self);
       app u16_codec (ord_shard_id_to self); app u16_codec (ord_shard_id_fee self);
       app u64_codec (ord_asset_quantity_from self); app u64_codec (ord_asset_quantity_to self);
       app u64_codec (ord_asset_quantity_fee self);
       app_list AssetOutPoint_codec (ord_origin_outputs self);
       app u64_codec (ord_expiration self); app H160_codec (ord_lock_script_hash_from self);
       app_list bytes_codec (ord_parameters_from self);
       app H160_codec (ord_lock_script_hash_fee self);
       app_list bytes_codec (ord_parameters_fee self)];
  decode rlp :=
    asset_type_from ← val_at (decode H160_codec) rlp 0;
    asset_type_to ← val_at (decode H160_codec) rlp 1;
    asset_type_fee ← val_at (decode H160_codec) rlp 2;
    shard_id_from ← val_at (decode u16_codec) rlp 3;
    shard_id_to ← val_at (decode u16_codec) rlp 4;
    shard_id_fee ← val_at (decode u16_codec) rlp 5;
    asset_quantity_from ← val_at (decode u64_codec) rlp 6;
    asset_quantity_to ← val_at (decode u64_codec) rlp 7;
    asset_quantity_fee ← val_at (decode u64_codec) rlp 8;
    origin_outputs ← list_at (decode AssetOutPoint_codec) rlp 9;
    expiration ← val_at (decode u64_codec) rlp 10;
    lock_script_hash_from ← val_at (decode H160_codec) rlp 11;
    parameters_from ← list_at (decode bytes_codec) rlp 12;
    lock_script_hash_fee ← val_at (decode H160_codec) rlp 13;
    parameters_fee ← list_at (decode bytes_codec) rlp 14;
    Ok {| ord_asset_type_from := asset_type_from; ord_asset_type_to := asset_type_to;
          ord_asset_type_fee := asset_type_fee; ord_shard_id_from := shard_id_from;
          ord_shard_id_to := shard_id_to; ord_shard_id_fee := shard_id_fee;
          ord_asset_quantity_from := asset_quantity_from;
          ord_asset_quantity_to := asset_quantity_to;
          ord_asset_quantity_fee := asset_quantity_fee;
          ord_origin_outputs := origin_outputs; ord_expiration := expiration;
          ord_lock_script_hash_from := lock_script_hash_from;
          ord_parameters_from := parameters_from;
          ord_lock_script_hash_fee := lock_script_hash_fee;
          ord_parameters_fee := parameters_fee |} |}.

Definition OrderOnTransfer_codec : Codec OrderOnTransfer := {|
  rlp_append self :=
    rlp_list 8
      [app Order_codec (oot_order self); app u64_codec (oot_spent_quantity self);
       app_list usize_codec (oot_input_from_indices self);
       app_list usize_codec (oot_input_fee_indices self);
       app_list usize_codec (oot_output_from_indices self);
       app_list usize_codec (oot_output_to_indices self);
       app_list usize_codec (oot_output_owned_fee_indices self);
       app_list usize_codec (oot_output_transferred_fee_indices self)];
  decode rlp :=
    order ← val_at (decode Order_codec) rlp 0;
    spent_quantity ← val_at (decode u64_codec) rlp 1;
    input_from_indices ← list_at (decode usize_codec) rlp 2;
    input_fee_indices ← list_at (decode usize_codec) rlp 3;
    output_from_indices ← list_at (decode usize_codec) rlp 4;
    output_to_indices ← list_at (decode usize_codec) rlp 5;
    output_owned_fee_indices ← list_at (decode usize_codec) rlp 6;
    output_transferred_fee_indices ← list_at (decode usize_codec) rlp 7;
    Ok {| oot_order := order; oot_spent_quantity := spent_quantity;
          oot_input_from_indices := input_from_indices;
          oot_input_fee_indices := input_fee_indices;
          oot_output_from_indices := output_from_indices;
          oot_output_to_indices := output_to_indices;
          oot_output_owned_fee_indices := output_owned_fee_indices;
          oot_output_transferred_fee_indices := output_transferred_fee_indices |} |}.

(** * [ShardTransaction] *)

Definition ASSET_UNWRAP_CCC_ID : N := 0x11.
Definition ASSET_MINT_ID : N := 0x13.
Definition ASSET_TRANSFER_ID : N := 0x14.
Definition ASSET_SCHEME_CHANGE_ID : N := 0x15.
Definition ASSET_COMPOSE_ID : N := 0x16.
Definition ASSET_DECOMPOSE_ID : N := 0x17.
Definition ASSET_INCREASE_SUPPLY_ID : N := 0x18.

Abbreviation Addresses_codec := (option_codec H160_codec).
Abbreviation Params_codec := (vec_codec bytes_codec).

(** [if item_count != n { return Err(..) }] *)
Definition check_items (rlp : bytes) (n : N) : rlpR () :=
  item_count ← item_count rlp;
  if negb (item_count =? n) then Err (RlpError.RlpIncorrectListLen n item_count) else Ok tt.

(** The three consecutive fields of an [AssetMintOutput]. *)
Definition mint_output_at (rlp : bytes) (i : N) : rlpR AssetMintOutput :=
  lock_script_hash ← val_at (decode H160_codec) rlp i;
  parameters ← val_at (decode Params_codec) rlp (i + 1);
  supply ← val_at (decode u64_codec) rlp (i + 2);
  Ok {| amo_lock_script_hash := lock_script_hash; amo_parameters := parameters;
        amo_supply := supply |}.

Definition ShardTransaction_append (self : ShardTransaction.t) : strm () :=
  match self with
  | ShardTransaction.MintAsset network_id shard_id metadata approver registrar allowed output =>
      rlp_list 10
        [app u8_codec ASSET_MINT_ID; app network_id_codec network_id; app u16_codec shard_id;
         app string_codec metadata; app H160_codec (amo_lock_script_hash output);
         app Params_codec (amo_parameters output); app u64_codec (amo_supply output);
         app Addresses_codec approver; app Addresses_codec registrar; app_list H160_codec allowed]
  | ShardTransaction.TransferAsset network_id burns inputs outputs orders =>
      rlp_list 6
        [app u8_codec ASSET_TRANSFER_ID; app network_id_codec network_id;
         app_list AssetTransferInput_codec burns; app_list AssetTransferInput_codec inputs;
         app_list AssetTransferOutput_codec outputs; app_list OrderOnTransfer_codec orders]
  | ShardTransaction.ChangeAssetScheme network_id shard_id asset_type seq metadata approver
      registrar allowed =>
      rlp_list 9
        [app u8_codec ASSET_SCHEME_CHANGE_ID; app network_id_codec network_id;
         app u16_codec shard_id; app H160_codec asset_type; app usize_codec seq;
         app string_codec metadata; app Addresses_codec approver; app Addresses_codec registrar;
         app_list H160_codec allowed]
  | ShardTransaction.IncreaseAssetSupply network_id shard_id asset_type seq output =>
      rlp_list 8
        [app u8_codec ASSET_INCREASE_SUPPLY_ID; app network_id_codec network_id;
         app u16_codec shard_id; app H160_codec asset_type; app usize_codec seq;
         app H160_codec (amo_lock_script_hash output); app Params_codec (amo_parameters output);
         app u64_codec (amo_supply output)]
  | ShardTransaction.ComposeAsset network_id shard_id metadata approver registrar allowed inputs
      output =>
      rlp_list 11
        [app u8_codec ASSET_COMPOSE_ID; app network_id_codec network_id; app u16_codec shard_id;
         app string_codec metadata; app Addresses_codec approver; app Addresses_codec registrar;
         app_list H160_codec allowed; app_list AssetTransferInput_codec inputs;
         app H160_codec (amo_lock_script_hash output); app Params_codec (amo_parameters output);
         app u64_codec (amo_supply output)]
  | ShardTransaction.DecomposeAsset network_id input outputs =>
      rlp_list 4
        [app u8_codec ASSET_DECOMPOSE_ID; app network_id_codec network_id;
         app AssetTransferInput_codec input; app_list AssetTransferOutput_codec outputs]
  | ShardTransaction.UnwrapCCC network_id burn receiver =>
      rlp_list 4
        [app u8_codec ASSET_UNWRAP_CCC_ID; app network_id_codec network_id;
         app AssetTransferInput_codec burn; app H160_codec receiver]
  | ShardTransaction.WrapCCC _ _ _ _ => lift_st Panic
  end.

Definition ShardTransaction_decode (d : bytes) : rlpR ShardTransaction.t :=
  id ← val_at (decode u8_codec) d 0;
  if id =? ASSET_MINT_ID then
    _ ← check_items d 10;
    network_id ← val_at (decode network_id_codec) d 1;
    shard_id ← val_at (decode u16_codec) d 2;
    metadata ← val_at (decode string_codec) d 3;
    output ← mint_output_at d 4;
    approver ← val_at (decode Addresses_codec) d 7;
    registrar ← val_at (decode Addresses_codec) d 8;
    allowed ← list_at (decode H160_codec) d 9;
    Ok (ShardTransaction.MintAsset network_id shard_id metadata approver registrar allowed output)
  else if id =? ASSET_TRANSFER_ID then
    _ ← check_items d 6;
    network_id ← val_at (decode network_id_codec) d 1;
    burns ← list_at (decode AssetTransferInput_codec) d 2;
    inputs ← list_at (decode AssetTransferInput_codec) d 3;
    outputs ← list_at (decode AssetTransferOutput_codec) d 4;
    orders ← list_at (decode OrderOnTransfer_codec) d 5;
    Ok (ShardTransaction.TransferAsset network_id burns inputs outputs orders)
  else if id =? ASSET_SCHEME_CHANGE_ID then
    _ ← check_items d 9;
    network_id ← val_at (decode network_id_codec) d 1;
    shard_id ← val_at (decode u16_codec) d 2;
    asset_type ← val_at (decode H160_codec) d 3;
    seq ← val_at (decode usize_codec) d 4;
    metadata ← val_at (decode string_codec) d 5;
    approver ← val_at (decode Addresses_codec) d 6;
    registrar ← val_at (decode Addresses_codec) d 7;
    allowed ← list_at (decode H160_codec) d 8;
    Ok (ShardTransaction.ChangeAssetScheme network_id shard_id asset_type seq metadata approver
          registrar allowed)
  else if id =? ASSET_INCREASE_SUPPLY_ID then
    _ ← check_items d 8;
    network_id ← val_at (decode network_id_codec) d 1;
    shard_id ← val_at (decode u16_codec) d 2;
    asset_type ← val_at (decode H160_codec) d 3;
    seq ← val_at (decode usize_codec) d 4;
    output ← mint_output_at d 5;
    Ok (ShardTransaction.IncreaseAssetSupply network_id shard_id asset_type seq output)
  else if id =? ASSET_COMPOSE_ID then
    _ ← check_items d 11;
    network_id ← val_at (decode network_id_codec) d 1;
    shard_id ← val_at (decode u16_codec) d 2;
    metadata ← val_at (decode string_codec) d 3;
    approver ← val_at (decode Addresses_codec) d 4;
    registrar ← val_at (decode Addresses_codec) d 5;
    allowed ← list_at (decode H160_codec) d 6;
    inputs ← list_at (decode AssetTransferInput_codec) d 7;
    output ← mint_output_at d 8;
    Ok (ShardTransaction.ComposeAsset network_id shard_id metadata approver registrar allowed
          inputs output)
  else if id =? ASSET_DECOMPOSE_ID then
    _ ← check_items d 4;
    network_id ← val_at (decode network_id_codec) d 1;
    input ← val_at (decode AssetTransferInput_codec) d 2;
    outputs ← list_at (decode AssetTransferOutput_codec) d 3;
    Ok (ShardTransaction.DecomposeAsset network_id input outputs)
  else if id =? ASSET_UNWRAP_CCC_ID then
    _ ← check_items d 4;
    network_id ← val_at (decode network_id_codec) d 1;
    burn ← val_at (decode AssetTransferInput_codec) d 2;
    receiver ← val_at (decode H160_codec) d 3;
    Ok (ShardTransaction.UnwrapCCC network_id burn receiver)
  else Err (RlpError.Custom "Unexpected transaction").

(** * [Action] *)

Definition PAY : N := 0x02.
Definition SET_REGULAR_KEY : N := 0x03.
Definition CREATE_SHARD : N := 0x04.
Definition SET_SHARD_OWNERS : N := 0x05.
Definition SET_SHARD_USERS : N := 0x06.
Definition WRAP_CCC : N := 0x07.
Definition STORE : N := 0x08.
Definition REMOVE : N := 0x09.
Definition UNWRAP_CCC : N := 0x11.
Definition MINT_ASSET : N := 0x13.
Definition TRANSFER_ASSET : N := 0x14.
Definition CHANGE_ASSET_SCHEME : N := 0x15.
Definition COMPOSE_ASSET : N := 0x16.
Definition DECOMPOSE_ASSET : N := 0x17.
Definition INCREASE_ASSET_SUPPLY : N := 0x18.
Definition CUSTOM : N := 0xff.

Definition Action_append (self : Action.t) : strm () :=
  match self with
  | Action.MintAsset network_id shard_id metadata approver registrar allowed output approvals =>
      rlp_list 11
        [app u8_codec MINT_ASSET; app network_id_codec network_id; app u16_codec shard_id;
         app string_codec metadata; app H160_codec (amo_lock_script_hash output);
         app Params_codec (amo_parameters output); app u64_codec (amo_supply output);
         app Addresses_codec approver; app Addresses_codec registrar;
         app_list H160_codec allowed; app_list H520_codec approvals]
  | Action.TransferAsset network_id burns inputs outputs orders metadata approvals expiration =>
      rlp_list 9
        [app u8_codec TRANSFER_ASSET; app network_id_codec network_id;
         app_list AssetTransferInput_codec burns; app_list AssetTransferInput_codec inputs;
         app_list AssetTransferOutput_codec outputs; app_list OrderOnTransfer_codec orders;
         app string_codec metadata; app_list H520_codec approvals;
         app (option_codec u64_codec) expiration]
  | Action.ChangeAssetScheme network_id shard_id asset_type seq metadata approver registrar
      allowed approvals =>
      rlp_list 10
        [app u8_codec CHANGE_ASSET_SCHEME; app network_id_codec network_id;
         app u16_codec shard_id; app H160_codec asset_type; app usize_codec seq;
         app string_codec metadata; app Addresses_codec approver; app Addresses_codec registrar;
         app_list H160_codec allowed; app_list H520_codec approvals]
  | Action.IncreaseAssetSupply network_id shard_id asset_type seq output approvals =>
      rlp_list 9
        [app u8_codec INCREASE_ASSET_SUPPLY; app network_id_codec network_id;
         app u16_codec shard_id; app H160_codec asset_type; app usize_codec seq;
         app H160_codec (amo_lock_script_hash output); app Params_codec (amo_parameters output);
         app u64_codec (amo_supply output); app_list H520_codec approvals]
  | Action.ComposeAsset network_id shard_id metadata approver registrar allowed inputs output
      approvals =>
      rlp_list 12
        [app u8_codec COMPOSE_ASSET; app network_id_codec network_id; app u16_codec shard_id;
         app string_codec metadata; app Addresses_codec approver; app Addresses_codec registrar;
         app_list H160_codec allowed; app_list AssetTransferInput_codec inputs;
         app H160_codec (amo_lock_script_hash output); app Params_codec (amo_parameters output);
         app u64_codec (amo_supply output); app_list H520_codec approvals]
  | Action.DecomposeAsset network_id input outputs approvals =>
      rlp_list 5
        [app u8_codec DECOMPOSE_ASSET; app network_id_codec network_id;
         app AssetTransferInput_codec input; app_list AssetTransferOutput_codec outputs;
         app_list H520_codec approvals]
  | Action.UnwrapCCC network_id burn receiver =>
      rlp_list 4
        [app u8_codec UNWRAP_CCC; app network_id_codec network_id;
         app AssetTransferInput_codec burn; app H160_codec receiver]
  | Action.Pay receiver quantity =>
      rlp_list 3 [app u8_codec PAY; app H160_codec receiver; app u64_codec quantity]
  | Action.SetRegularKey key => rlp_list 2 [app u8_codec SET_REGULAR_KEY; app H512_codec key]
  | Action.CreateShard users => rlp_list 2 [app u8_codec CREATE_SHARD; app_list H160_codec users]
  | Action.SetShardOwners shard_id owners =>
      rlp_list 3 [app u8_codec SET_SHARD_OWNERS; app u16_codec shard_id; app_list H160_codec owners]
  | Action.SetShardUsers shard_id users =>
      rlp_list 3 [app u8_codec SET_SHARD_USERS; app u16_codec shard_id; app_list H160_codec users]
  | Action.WrapCCC shard_id lock_script_hash parameters quantity payer =>
      rlp_list 6
        [app u8_codec WRAP_CCC; app u16_codec shard_id; app H160_codec lock_script_hash;
         app Params_codec parameters; app u64_codec quantity; app H160_codec payer]
  | Action.Store content certifier signature =>
      rlp_list 4
        [app u8_codec STORE; app string_codec content; app H160_codec certifier;
         app H520_codec signature]
  | Action.Remove hash signature =>
      rlp_list 3 [app u8_codec REMOVE; app H256_codec hash; app H520_codec signature]
  | Action.Custom handler_id bytes =>
      rlp_list 3 [app u8_codec CUSTOM; app u64_codec handler_id; app bytes_codec bytes]
  end.

(** The asset actions of [Action::decode]. *)
Definition Action_decode_asset (prefix : N) (rlp : bytes) : rlpR (option Action.t) :=
  if prefix =? MINT_ASSET then
    _ ← check_items rlp 11;
    network_id ← val_at (decode network_id_codec) rlp 1;
    shard_id ← val_at (decode u16_codec) rlp 2;
    metadata ← val_at (decode string_codec) rlp 3;
    output ← mint_output_at rlp 4;
    approver ← val_at (decode Addresses_codec) rlp 7;
    registrar ← val_at (decode Addresses_codec) rlp 8;
    allowed ← list_at (decode H160_codec) rlp 9;
    approvals ← list_at (decode H520_codec) rlp 10;
    Ok (Some (Action.MintAsset network_id shard_id metadata approver registrar allowed output
                approvals))
  else if prefix =? TRANSFER_ASSET then
    _ ← check_items rlp 9;
    network_id ← val_at (decode network_id_codec) rlp 1;
    burns ← list_at (decode AssetTransferInput_codec) rlp 2;
    inputs ← list_at (decode AssetTransferInput_codec) rlp 3;
    outputs ← list_at (decode AssetTransferOutput_codec) rlp 4;
    orders ← list_at (decode OrderOnTransfer_codec) rlp 5;
    metadata ← val_at (decode string_codec) rlp 6;
    approvals ← list_at (decode H520_codec) rlp 7;
    expiration ← val_at (decode (option_codec u64_codec)) rlp 8;
    Ok (Some (Action.TransferAsset network_id burns inputs outputs orders metadata approvals
                expiration))
  else if prefix =? CHANGE_ASSET_SCHEME then
    _ ← check_items rlp 10;
    network_id ← val_at (decode network_id_codec) rlp 1;
    shard_id ← val_at (decode u16_codec) rlp 2;
    asset_type ← val_at (decode H160_codec) rlp 3;
    seq ← val_at (decode usize_codec) rlp 4;
    metadata ← val_at (decode string_codec) rlp 5;
    approver ← val_at (decode Addresses_codec) rlp 6;
    registrar ← val_at (decode Addresses_codec) rlp 7;
    allowed ← list_at (decode H160_codec) rlp 8;
    approvals ← list_at (decode H520_codec) rlp 9;
    Ok (Some (Action.ChangeAssetScheme network_id shard_id asset_type seq metadata approver
                registrar allowed approvals))
  else if prefix =? INCREASE_ASSET_SUPPLY then
    _ ← check_items rlp 9;
    network_id ← val_at (decode network_id_codec) rlp 1;
    shard_id ← val_at (decode u16_codec) rlp 2;
    asset_type ← val_at (decode H160_codec) rlp 3;
    seq ← val_at (decode usize_codec) rlp 4;
    output ← mint_output_at rlp 5;
    approvals ← list_at (decode H520_codec) rlp 8;
    Ok (Some (Action.IncreaseAssetSupply network_id shard_id asset_type seq output approvals))
  else if prefix =? COMPOSE_ASSET then
    _ ← check_items rlp 12;
    network_id ← val_at (decode network_id_codec) rlp 1;
    shard_id ← val_at (decode u16_codec) rlp 2;
    metadata ← val_at (decode string_codec) rlp 3;
    approver ← val_at (decode Addresses_codec) rlp 4;
    registrar ← val_at (decode Addresses_codec) rlp 5;
    allowed ← list_at (decode H160_codec) rlp 6;
    inputs ← list_at (decode AssetTransferInput_codec) rlp 7;
    output ← mint_output_at rlp 8;
    approvals ← list_at (decode H520_codec) rlp 11;
    Ok (Some (Action.ComposeAsset network_id shard_id metadata approver registrar allowed inputs
                output approvals))
  else if prefix =? DECOMPOSE_ASSET then
    _ ← check_items rlp 5;
    network_id ← val_at (decode network_id_codec) rlp 1;
    input ← val_at (decode AssetTransferInput_codec) rlp 2;
    outputs ← list_at (decode AssetTransferOutput_codec) rlp 3;
    approvals ← list_at (decode H520_codec) rlp 4;
    Ok (Some (Action.DecomposeAsset network_id input outputs approvals))
  else if prefix =? UNWRAP_CCC then
    _ ← check_items rlp 4;
    network_id ← val_at (decode network_id_codec) rlp 1;
    burn ← val_at (decode AssetTransferInput_codec) rlp 2;
    receiver ← val_at (decode H160_codec) rlp 3;
    Ok (Some (Action.UnwrapCCC network_id burn receiver))
  else Ok None.

(** The remaining actions. *)
Definition Action_decode_other (prefix : N) (rlp : bytes) : rlpR Action.t :=
  if prefix =? PAY then
    _ ← check_items rlp 3;
    receiver ← val_at (decode H160_codec) rlp 1;
    quantity ← val_at (decode u64_codec) rlp 2;
    Ok (Action.Pay receiver quantity)
  else if prefix =? SET_REGULAR_KEY then
    _ ← check_items rlp 2;
    key ← val_at (decode H512_codec) rlp 1;
    Ok (Action.SetRegularKey key)
  else if prefix =? CREATE_SHARD then
    _ ← check_items rlp 2;
    users ← list_at (decode H160_codec) rlp 1;
    Ok (Action.CreateShard users)
  else if prefix =? SET_SHARD_OWNERS then
    _ ← check_items rlp 3;
    shard_id ← val_at (decode u16_codec) rlp 1;
    owners ← list_at (decode H160_codec) rlp 2;
    Ok (Action.SetShardOwners shard_id owners)
  else if prefix =? SET_SHARD_USERS then
    _ ← check_items rlp 3;
    shard_id ← val_at (decode u16_codec) rlp 1;
    users ← list_at (decode H160_codec) rlp 2;
    Ok (Action.SetShardUsers shard_id users)
  else if prefix =? WRAP_CCC then
    _ ← check_items rlp 6;
    shard_id ← val_at (decode u16_codec) rlp 1;
    lock_script_hash ← val_at (decode H160_codec) rlp 2;
    parameters ← val_at (decode Params_codec) rlp 3;
    quantity ← val_at (decode u64_codec) rlp 4;
    payer ← val_at (decode H160_codec) rlp 5;
    Ok (Action.WrapCCC shard_id lock_script_hash parameters quantity payer)
  else if prefix =? STORE then
    _ ← check_items rlp 4;
    content ← val_at (decode string_codec) rlp 1;
    certifier ← val_at (decode H160_codec) rlp 2;
    signature ← val_at (decode H520_codec) rlp 3;
    Ok (Action.Store content certifier signature)
  else if prefix =? REMOVE then
    _ ← check_items rlp 3;
    hash ← val_at (decode H256_codec) rlp 1;
    signature ← val_at (decode H520_codec) rlp 2;
    Ok (Action.Remove hash signature)
  else if prefix =? CUSTOM then
    _ ← check_items rlp 3;
    handler_id ← val_at (decode u64_codec) rlp 1;
    bytes ← val_at (decode bytes_codec) rlp 2;
    Ok (Action.Custom handler_id bytes)
  else Err (RlpError.Custom "Unexpected action prefix").

(** [impl Decodable for Action]; the two halves of its [match]. *)
Definition Action_decode (rlp : bytes) : rlpR Action.t :=
  prefix ← val_at (decode u8_codec) rlp 0;
  asset ← Action_decode_asset prefix rlp;
  match asset with
  | Some action => Ok action
  | None => Action_decode_other prefix rlp
  end.

Definition ShardTransaction_codec : Codec ShardTransaction.t :=
  {| rlp_append := ShardTransaction_append; decode := ShardTransaction_decode |}.
Definition Action_codec : Codec Action.t :=
  {| rlp_append := Action_append; decode := Action_decode |}.

(** * The structures' codecs keep their promises *)

(** Settles that a decoder of fields does not unwind. *)
Ltac struct_safe :=
  intros; cbn [decode];
  repeat first
    [ done
    | apply bind_no_panic;
        [solve [apply val_at_no_panic, codec_no_panic
               |apply list_at_no_panic, codec_no_panic|apply item_count_no_panic]|intros]
    | match goal with |- (if ?b then _ else _) ≠ Panic => destruct b end ].

#[global, refine] Instance Timelock_codec_ok : CodecOk Timelock_codec := {|
  item t :=
    match t with
    | Block v => List [item u8_codec 0x01; item u64_codec v]
    | BlockAge v => List [item u8_codec 0x02; item u64_codec v]
    | Time v => List [item u8_codec 0x03; item u64_codec v]
    | TimeAge v => List [item u8_codec 0x04; item u64_codec v]
    end;
  wf t := match t with Block v | BlockAge v | Time v | TimeAge v => wf u64_codec v end |}.
Proof.
  - intros []; cbn [rlp_append Timelock_codec]; encodes_tac.
  - intros [] Hw Hf; cbn [decode Timelock_codec]; decodes_tac; cbn; decodes_tac.
  - struct_safe.
Defined.

#[global, refine] Instance AssetOutPoint_codec_ok : CodecOk AssetOutPoint_codec := {|
  item o := List [item H256_codec (aop_tracker o); item usize_codec (aop_index o);
                  item H160_codec (aop_asset_type o); item u16_codec (aop_shard_id o);
                  item u64_codec (aop_quantity o)];
  wf o := wf H256_codec (aop_tracker o) ∧ wf usize_codec (aop_index o) ∧
          wf H160_codec (aop_asset_type o) ∧ wf u16_codec (aop_shard_id o) ∧
          wf u64_codec (aop_quantity o) |}.
Proof.
  - intros o. cbn [rlp_append AssetOutPoint_codec]. encodes_tac.
  - intros [] (? & ? & ? & ? & ?) Hf. cbn [decode AssetOutPoint_codec]. decodes_tac.
  - struct_safe.
Defined.

#[global, refine] Instance AssetTransferInput_codec_ok : CodecOk AssetTransferInput_codec := {|
  item i := List [item AssetOutPoint_codec (ati_prev_out i);
                  item (option_codec Timelock_codec) (ati_timelock i);
                  item bytes_codec (ati_lock_script i); item bytes_codec (ati_unlock_script i)];
  wf i := wf AssetOutPoint_codec (ati_prev_out i) ∧
          wf (option_codec Timelock_codec) (ati_timelock i) |}.
Proof.
  - intros i. cbn [rlp_append AssetTransferInput_codec]. encodes_tac.
  - intros [] (? & ?) Hf. cbn [decode AssetTransferInput_codec]. decodes_tac.
  - struct_safe.
Defined.

#[global, refine] Instance AssetTransferOutput_codec_ok : CodecOk AssetTransferOutput_codec := {|
  item o := List [item H160_codec (ato_lock_script_hash o);
                  List (item bytes_codec <$> ato_parameters o);
                  item H160_codec (ato_asset_type o); item u16_codec (ato_shard_id o);
                  item u64_codec (ato_quantity o)];
  wf o := wf H160_codec (ato_lock_script_hash o) ∧ Forall (wf bytes_codec) (ato_parameters o) ∧
          wf H160_codec (ato_asset_type o) ∧ wf u16_codec (ato_shard_id o) ∧
          wf u64_codec (ato_quantity o) |}.
Proof.
  - intros o. cbn [rlp_append AssetTransferOutput_codec]. encodes_tac.
  - intros [] (? & ? & ? & ? & ?) Hf. cbn [decode AssetTransferOutput_codec]. decodes_tac.
  - struct_safe.
Defined.

#[global, refine] Instance Order_codec_ok : CodecOk Order_codec := {|
  item o := List
    [item H160_codec (ord_asset_type_from o); item H160_codec (ord_asset_type_to o);
     item H160_codec (ord_asset_type_fee o); item u16_codec (ord_shard_id_from o);
     item u16_codec (ord_shard_id_to o); item u16_codec (ord_shard_id_fee o);
     item u64_codec (ord_asset_quantity_from o); item u64_codec (ord_asset_quantity_to o);
     item u64_codec (ord_asset_quantity_fee o);
     List (item AssetOutPoint_codec <$> ord_origin_outputs o);
     item u64_codec (ord_expiration o); item H160_codec (ord_lock_script_hash_from o);
     List (item bytes_codec <$> ord_parameters_from o);
     item H160_codec (ord_lock_script_hash_fee o);
     List (item bytes_codec <$> ord_parameters_fee o)];
  wf o :=
    wf H160_codec (ord_asset_type_from o) ∧ wf H160_codec (ord_asset_type_to o) ∧
    wf H160_codec (ord_asset_type_fee o) ∧ wf u16_codec (ord_shard_id_from o) ∧
    wf u16_codec (ord_shard_id_to o) ∧ wf u16_codec (ord_shard_id_fee o) ∧
    wf u64_codec (ord_asset_quantity_from o) ∧ wf u64_codec (ord_asset_quantity_to o) ∧
    wf u64_codec (ord_asset_quantity_fee o) ∧
    Forall (wf AssetOutPoint_codec) (ord_origin_outputs o) ∧
    wf u64_codec (ord_expiration o) ∧ wf H160_codec (ord_lock_script_hash_from o) ∧
    Forall (wf bytes_codec) (ord_parameters_from o) ∧
    wf H160_codec (ord_lock_script_hash_fee o) ∧
    Forall (wf bytes_codec) (ord_parameters_fee o) |}.
Proof.
  - intros o. cbn [rlp_append Order_codec]. encodes_tac.
  - intros [] (? & ? & ? & ? & ? & ? & ? & ? & ? & ? & ? & ? & ? & ? & ?) Hf.
    cbn [decode Order_codec]. decodes_tac.
  - struct_safe.
Defined.

#[global, refine] Instance OrderOnTransfer_codec_ok : CodecOk OrderOnTransfer_codec := {|
  item o := List
    [item Order_codec (oot_order o); item u64_codec (oot_spent_quantity o);
     List (item usize_codec <$> oot_input_from_indices o);
     List (item usize_codec <$> oot_input_fee_indices o);
     List (item usize_codec <$> oot_output_from_indices o);
     List (item usize_codec <$> oot_output_to_indices o);
     List (item usize_codec <$> oot_output_owned_fee_indices o);
     List (item usize_codec <$> oot_output_transferred_fee_indices o)];
  wf o :=
    wf Order_codec (oot_order o) ∧ wf u64_codec (oot_spent_quantity o) ∧
    Forall (wf usize_codec) (oot_input_from_indices o) ∧
    Forall (wf usize_codec) (oot_input_fee_indices o) ∧
    Forall (wf usize_codec) (oot_output_from_indices o) ∧
    Forall (wf usize_codec) (oot_output_to_indices o) ∧
    Forall (wf usize_codec) (oot_output_owned_fee_indices o) ∧
    Forall (wf usize_codec) (oot_output_transferred_fee_indices o) |}.
Proof.
  - intros o. cbn [rlp_append OrderOnTransfer_codec]. encodes_tac.
  - intros [] (? & ? & ? & ? & ? & ? & ? & ?) Hf. cbn [decode OrderOnTransfer_codec]. decodes_tac.
  - struct_safe.
Defined.

#[global] Typeclasses Opaque Timelock_codec AssetOutPoint_codec AssetTransferInput_codec
  AssetTransferOutput_codec Order_codec OrderOnTransfer_codec.

Abbreviation inputs_item := (λ l, List (item AssetTransferInput_codec <$> l)).
Abbreviation outputs_item := (λ l, List (item AssetTransferOutput_codec <$> l)).
Abbreviation orders_item := (λ l, List (item OrderOnTransfer_codec <$> l)).
Abbreviation hashes_item := (λ l, List (item H160_codec <$> l)).
Abbreviation approvals_item := (λ l, List (item H520_codec <$> l)).

Definition mint_output_items (o : AssetMintOutput) : list rlp_item :=
  [item H160_codec (amo_lock_script_hash o); item Params_codec (amo_parameters o);
   item u64_codec (amo_supply o)].
Definition mint_output_wf (o : AssetMintOutput) : Prop :=
  wf H160_codec (amo_lock_script_hash o) ∧ wf Params_codec (amo_parameters o) ∧
  wf u64_codec (amo_supply o).

(** What the fields of an action can hold. *)
Definition Action_wf (a : Action.t) : Prop :=
  match a with
  | Action.MintAsset nid sid md ap rg al out sigs =>
      wf network_id_codec nid ∧ wf u16_codec sid ∧ wf string_codec md ∧
      mint_output_wf out ∧ wf Addresses_codec ap ∧ wf Addresses_codec rg ∧
      Forall (wf H160_codec) al ∧ Forall (wf H520_codec) sigs
  | Action.TransferAsset nid bs is_ os ords md sigs ex =>
      wf network_id_codec nid ∧ Forall (wf AssetTransferInput_codec) bs ∧
      Forall (wf AssetTransferInput_codec) is_ ∧ Forall (wf AssetTransferOutput_codec) os ∧
      Forall (wf OrderOnTransfer_codec) ords ∧ wf string_codec md ∧
      Forall (wf H520_codec) sigs ∧ wf (option_codec u64_codec) ex
  | Action.ChangeAssetScheme nid sid ty seq md ap rg al sigs =>
      wf network_id_codec nid ∧ wf u16_codec sid ∧ wf H160_codec ty ∧ wf usize_codec seq ∧
      wf string_codec md ∧ wf Addresses_codec ap ∧ wf Addresses_codec rg ∧
      Forall (wf H160_codec) al ∧ Forall (wf H520_codec) sigs
  | Action.IncreaseAssetSupply nid sid ty seq out sigs =>
      wf network_id_codec nid ∧ wf u16_codec sid ∧ wf H160_codec ty ∧ wf usize_codec seq ∧
      mint_output_wf out ∧ Forall (wf H520_codec) sigs
  | Action.ComposeAsset nid sid md ap rg al is_ out sigs =>
      wf network_id_codec nid ∧ wf u16_codec sid ∧ wf string_codec md ∧
      wf Addresses_codec ap ∧ wf Addresses_codec rg ∧ Forall (wf H160_codec) al ∧
      Forall (wf AssetTransferInput_codec) is_ ∧ mint_output_wf out ∧ Forall (wf H520_codec) sigs
  | Action.DecomposeAsset nid i os sigs =>
      wf network_id_codec nid ∧ wf AssetTransferInput_codec i ∧
      Forall (wf AssetTransferOutput_codec) os ∧ Forall (wf H520_codec) sigs
  | Action.UnwrapCCC nid b r =>
      wf network_id_codec nid ∧ wf AssetTransferInput_codec b ∧ wf H160_codec r
  | Action.Pay r q => wf H160_codec r ∧ wf u64_codec q
  | Action.SetRegularKey k => wf H512_codec k
  | Action.CreateShard us => Forall (wf H160_codec) us
  | Action.SetShardOwners sid os => wf u16_codec sid ∧ Forall (wf H160_codec) os
  | Action.SetShardUsers sid us => wf u16_codec sid ∧ Forall (wf H160_codec) us
  | Action.WrapCCC sid h ps q p =>
      wf u16_codec sid ∧ wf H160_codec h ∧ wf Params_codec ps ∧ wf u64_codec q ∧ wf H160_codec p
  | Action.Custom h b => wf u64_codec h
  | Action.Store c ce s => wf string_codec c ∧ wf H160_codec ce ∧ wf H520_codec s
  | Action.Remove h s => wf H256_codec h ∧ wf H520_codec s
  end.

Definition Action_items (a : Action.t) : list rlp_item :=
  match a with
  | Action.MintAsset nid sid md ap rg al out sigs =>
      [item u8_codec MINT_ASSET; item network_id_codec nid; item u16_codec sid;
       item string_codec md] ++ mint_output_items out ++
      [item Addresses_codec ap; item Addresses_codec rg; hashes_item al; approvals_item sigs]
  | Action.TransferAsset nid bs is_ os ords md sigs ex =>
      [item u8_codec TRANSFER_ASSET; item network_id_codec nid; inputs_item bs; inputs_item is_;
       outputs_item os; orders_item ords; item string_codec md; approvals_item sigs;
       item (option_codec u64_codec) ex]
  | Action.ChangeAssetScheme nid sid ty seq md ap rg al sigs =>
      [item u8_codec CHANGE_ASSET_SCHEME; item network_id_codec nid; item u16_codec sid;
       item H160_codec ty; item usize_codec seq; item string_codec md; item Addresses_codec ap;
       item Addresses_codec rg; hashes_item al; approvals_item sigs]
  | Action.IncreaseAssetSupply nid sid ty seq out sigs =>
      [item u8_codec INCREASE_ASSET_SUPPLY; item network_id_codec nid; item u16_codec sid;
       item H160_codec ty; item usize_codec seq] ++ mint_output_items out ++ [approvals_item sigs]
  | Action.ComposeAsset nid sid md ap rg al is_ out sigs =>
      [item u8_codec COMPOSE_ASSET; item network_id_codec nid; item u16_codec sid;
       item string_codec md; item Addresses_codec ap; item Addresses_codec rg; hashes_item al;
       inputs_item is_] ++ mint_output_items out ++ [approvals_item sigs]
  | Action.DecomposeAsset nid i os sigs =>
      [item u8_codec DECOMPOSE_ASSET; item network_id_codec nid;
       item AssetTransferInput_codec i; outputs_item os; approvals_item sigs]
  | Action.UnwrapCCC nid b r =>
      [item u8_codec UNWRAP_CCC; item network_id_codec nid; item AssetTransferInput_codec b;
       item H160_codec r]
  | Action.Pay r q => [item u8_codec PAY; item H160_codec r; item u64_codec q]
  | Action.SetRegularKey k => [item u8_codec SET_REGULAR_KEY; item H512_codec k]
  | Action.CreateShard us => [item u8_codec CREATE_SHARD; hashes_item us]
  | Action.SetShardOwners sid os =>
      [item u8_codec SET_SHARD_OWNERS; item u16_codec sid; hashes_item os]
  | Action.SetShardUsers sid us =>
      [item u8_codec SET_SHARD_USERS; item u16_codec sid; hashes_item us]
  | Action.WrapCCC sid h ps q p =>
      [item u8_codec WRAP_CCC; item u16_codec sid; item H160_codec h; item Params_codec ps;
       item u64_codec q; item H160_codec p]
  | Action.Custom h b => [item u8_codec CUSTOM; item u64_codec h; item bytes_codec b]
  | Action.Store c ce s =>
      [item u8_codec STORE; item string_codec c; item H160_codec ce; item H520_codec s]
  | Action.Remove h s => [item u8_codec REMOVE; item H256_codec h; item H520_codec s]
  end.

Lemma Action_encodes a : encodes (Action_append a) (List (Action_items a)).
Proof. destruct a; unfold Action_append, Action_items; cbn [Datatypes.app mint_output_items]; encodes_tac. Qed.

Lemma check_items_step {B} l n (f : () → rlpR B) r :
  fits (List l) → len l = n → f tt = r → check_items (enc (List l)) n ≫= f = r.
Proof.
  intros Hf <- <-. unfold check_items. rewrite item_count_enc by done. simpl.
  by rewrite N.eqb_refl.
Qed.

Lemma mint_output_step {B} l i out (f : AssetMintOutput → rlpR B) r :
  fits (List l) → mint_output_wf out →
  l !! N.to_nat i = Some (item H160_codec (amo_lock_script_hash out)) →
  l !! N.to_nat (i + 1) = Some (item Params_codec (amo_parameters out)) →
  l !! N.to_nat (i + 2) = Some (item u64_codec (amo_supply out)) →
  f out = r → mint_output_at (enc (List l)) i ≫= f = r.
Proof.
  intros Hf (Hl & Hp & Hs) H1 H2 H3 <-. unfold mint_output_at.
  rewrite (val_at_field _ _ _ _ Hf H1), (val_at_field _ _ _ _ Hf H2), (val_at_field _ _ _ _ Hf H3)
    by done. by destruct out.
Qed.

(** Decides the tests of the leading byte. *)
Ltac prefix_tac :=
  cbv beta iota delta
    [Action_decode_asset Action_decode_other ShardTransaction_decode N.eqb Pos.eqb
     PAY SET_REGULAR_KEY CREATE_SHARD SET_SHARD_OWNERS SET_SHARD_USERS WRAP_CCC STORE REMOVE
     UNWRAP_CCC MINT_ASSET TRANSFER_ASSET CHANGE_ASSET_SCHEME COMPOSE_ASSET DECOMPOSE_ASSET
     INCREASE_ASSET_SUPPLY CUSTOM ASSET_UNWRAP_CCC_ID ASSET_MINT_ID ASSET_TRANSFER_ID
     ASSET_SCHEME_CHANGE_ID ASSET_COMPOSE_ID ASSET_DECOMPOSE_ID ASSET_INCREASE_SUPPLY_ID].
Ltac fields_tac :=
  repeat first
    [ eapply check_items_step; [eassumption|reflexivity|]
    | eapply mint_output_step; [eassumption|eassumption|reflexivity|reflexivity|reflexivity|]
    | progress decodes_tac ].

Lemma Action_decodes a :
  Action_wf a → fits (List (Action_items a)) → Action_decode (enc (List (Action_items a))) = Ok a.
Proof.
  intros Hw Hf. unfold Action_decode.
  destruct a; cbn [Action_wf] in Hw; destruct_and?; unfold Action_items in *;
    cbn [Datatypes.app mint_output_items] in *;
    (eapply val_at_step; [eassumption|reflexivity|reflexivity|]);
    first
      [ solve [apply bind_Ok; eexists (Some _); split; [|reflexivity];
               prefix_tac; fields_tac]
      | prefix_tac; rewrite Ok_bind; fields_tac ].
Qed.

Lemma mint_output_at_no_panic bs i : mint_output_at bs i ≠ Panic.
Proof. unfold mint_output_at. struct_safe. Qed.

Lemma check_items_no_panic bs n : check_items bs n ≠ Panic.
Proof. unfold check_items. struct_safe. Qed.

Ltac fields_safe :=
  repeat match goal with
    | |- (if ?b then _ else _) ≠ Panic => destruct b
    | |- _ ≫= _ ≠ Panic => apply bind_no_panic; [|intros ? _]
    | |- val_at (decode _) _ _ ≠ Panic => apply val_at_no_panic, codec_no_panic
    | |- list_at (decode _) _ _ ≠ Panic => apply list_at_no_panic, codec_no_panic
    | |- check_items _ _ ≠ Panic => apply check_items_no_panic
    | |- mint_output_at _ _ ≠ Panic => apply mint_output_at_no_panic
    | |- Ok _ ≠ Panic => discriminate
    | |- Err _ ≠ Panic => discriminate
    end.

Lemma Action_decode_no_panic bs : Action_decode bs ≠ Panic.
Proof.
  unfold Action_decode. apply bind_no_panic; [apply val_at_no_panic, codec_no_panic|].
  intros prefix _. apply bind_no_panic.
  - unfold Action_decode_asset. fields_safe.
  - intros [a|] _; [done|]. unfold Action_decode_other. fields_safe.
Qed.

#[global, refine] Instance Action_codec_ok : CodecOk Action_codec := {|
  item a := List (Action_items a);
  wf := Action_wf |}.
Proof.
  - apply Action_encodes.
  - apply Action_decodes.
  - apply Action_decode_no_panic.
Defined.
#[global] Typeclasses Opaque Action_codec.

Definition ShardTransaction_wf (t : ShardTransaction.t) : Prop :=
  match t with
  | ShardTransaction.MintAsset nid sid md ap rg al out =>
      wf network_id_codec nid ∧ wf u16_codec sid ∧ wf string_codec md ∧
      mint_output_wf out ∧ wf Addresses_codec ap ∧ wf Addresses_codec rg ∧
      Forall (wf H160_codec) al
  | ShardTransaction.TransferAsset nid bs is_ os ords =>
      wf network_id_codec nid ∧ Forall (wf AssetTransferInput_codec) bs ∧
      Forall (wf AssetTransferInput_codec) is_ ∧ Forall (wf AssetTransferOutput_codec) os ∧
      Forall (wf OrderOnTransfer_codec) ords
  | ShardTransaction.ChangeAssetScheme nid sid ty seq md ap rg al =>
      wf network_id_codec nid ∧ wf u16_codec sid ∧ wf H160_codec ty ∧ wf usize_codec seq ∧
      wf string_codec md ∧ wf Addresses_codec ap ∧ wf Addresses_codec rg ∧
      Forall (wf H160_codec) al
  | ShardTransaction.IncreaseAssetSupply nid sid ty seq out =>
      wf network_id_codec nid ∧ wf u16_codec sid ∧ wf H160_codec ty ∧ wf usize_codec seq ∧
      mint_output_wf out
  | ShardTransaction.ComposeAsset nid sid md ap rg al is_ out =>
      wf network_id_codec nid ∧ wf u16_codec sid ∧ wf string_codec md ∧
      wf Addresses_codec ap ∧ wf Addresses_codec rg ∧ Forall (wf H160_codec) al ∧
      Forall (wf AssetTransferInput_codec) is_ ∧ mint_output_wf out
  | ShardTransaction.DecomposeAsset nid i os =>
      wf network_id_codec nid ∧ wf AssetTransferInput_codec i ∧
      Forall (wf AssetTransferOutput_codec) os
  | ShardTransaction.UnwrapCCC nid b r =>
      wf network_id_codec nid ∧ wf AssetTransferInput_codec b ∧ wf H160_codec r
  | ShardTransaction.WrapCCC _ _ _ _ => False
  end.

Definition ShardTransaction_items (t : ShardTransaction.t) : list rlp_item :=
  match t with
  | ShardTransaction.MintAsset nid sid md ap rg al out =>
      [item u8_codec ASSET_MINT_ID; item network_id_codec nid; item u16_codec sid;
       item string_codec md] ++ mint_output_items out ++
      [item Addresses_codec ap; item Addresses_codec rg; hashes_item al]
  | ShardTransaction.TransferAsset nid bs is_ os ords =>
      [item u8_codec ASSET_TRANSFER_ID; item network_id_codec nid; inputs_item bs;
       inputs_item is_; outputs_item os; orders_item ords]
  | ShardTransaction.ChangeAssetScheme nid sid ty seq md ap rg al =>
      [item u8_codec ASSET_SCHEME_CHANGE_ID; item network_id_codec nid; item u16_codec sid;
       item H160_codec ty; item usize_codec seq; item string_codec md; item Addresses_codec ap;
       item Addresses_codec rg; hashes_item al]
  | ShardTransaction.IncreaseAssetSupply nid sid ty seq out =>
      [item u8_codec ASSET_INCREASE_SUPPLY_ID; item network_id_codec nid; item u16_codec sid;
       item H160_codec ty; item usize_codec seq] ++ mint_output_items out
  | ShardTransaction.ComposeAsset nid sid md ap rg al is_ out =>
      [item u8_codec ASSET_COMPOSE_ID; item network_id_codec nid; item u16_codec sid;
       item string_codec md; item Addresses_codec ap; item Addresses_codec rg; hashes_item al;
       inputs_item is_] ++ mint_output_items out
  | ShardTransaction.DecomposeAsset nid i os =>
      [item u8_codec ASSET_DECOMPOSE_ID; item network_id_codec nid;
       item AssetTransferInput_codec i; outputs_item os]
  | ShardTransaction.UnwrapCCC nid b r =>
      [item u8_codec ASSET_UNWRAP_CCC_ID; item network_id_codec nid;
       item AssetTransferInput_codec b; item H160_codec r]
  | ShardTransaction.WrapCCC _ _ _ _ => []
  end.

Lemma ShardTransaction_encodes t :
  ShardTransaction_wf t → encodes (ShardTransaction_append t) (List (ShardTransaction_items t)).
Proof.
  destruct t; try done; intros _; unfold ShardTransaction_append, ShardTransaction_items;
    cbn [Datatypes.app mint_output_items]; encodes_tac.
Qed.

Lemma ShardTransaction_decodes t :
  ShardTransaction_wf t → fits (List (ShardTransaction_items t)) →
  ShardTransaction_decode (enc (List (ShardTransaction_items t))) = Ok t.
Proof.
  intros Hw Hf. destruct t; cbn [ShardTransaction_wf] in Hw; try done; destruct_and?;
    unfold ShardTransaction_items, ShardTransaction_decode in *;
    cbn [Datatypes.app mint_output_items] in *;
    (eapply val_at_step; [eassumption|reflexivity|reflexivity|]); prefix_tac; fields_tac.
Qed.

Lemma ShardTransaction_decode_no_panic bs : ShardTransaction_decode bs ≠ Panic.
Proof. unfold ShardTransaction_decode. fields_safe. Qed.

Lemma codec_bytes {T} (c : Codec T) `{CodecOk T c} x :
  fits (item c x) → rlp_bytes (rlp_append c x) = enc (item c x).
Proof. intros Hf. unfold rlp_bytes. by rewrite (drain_encodes _ _ (codec_encodes x) Hf). Qed.

(** * Properties *)

(** Every action whose fields are in range and whose encoding is shorter than
    2^32 bytes is written by the stream without unwinding, as the items of its
    fields, and the decoder reads exactly that action back. *)
Theorem Action_roundtrip (a : Action.t)
  (Hwf : Action_wf a) (Hfits : fits (List (Action_items a))) :
  drain (Action_append a) = Ok (enc (List (Action_items a))) ∧
  Action_decode (enc (List (Action_items a))) = Ok a.
Proof.
  split; [|by apply Action_decodes]. apply drain_encodes; [apply Action_encodes|done].
Qed.

(** The same for the shard-level transactions that have an encoding. *)
Theorem ShardTransaction_roundtrip (t : ShardTransaction.t)
  (Hwf : ShardTransaction_wf t) (Hfits : fits (List (ShardTransaction_items t))) :
  drain (ShardTransaction_append t) = Ok (enc (List (ShardTransaction_items t))) ∧
  ShardTransaction_decode (enc (List (ShardTransaction_items t))) = Ok t.
Proof.
  split; [|by apply ShardTransaction_decodes].
  apply drain_encodes; [by apply ShardTransaction_encodes|done].
Qed.

(** Decoding an action or a shard transaction from arbitrary bytes returns a value
    or a decoder error; no byte string makes it unwind. *)
Theorem decode_untrusted_safe (bs : bytes) :
  Action_decode bs ≠ Panic ∧ ShardTransaction_decode bs ≠ Panic.
Proof. split; [apply Action_decode_no_panic|apply ShardTransaction_decode_no_panic]. Qed.

(** The bytes of a payment of 5, once with the quantity as the byte itself and once
    in the long form with an explicit length. *)
Definition pay_short : bytes := 0xd7 :: PAY :: 0x94 :: replicate 20 7 ++ [5].
Definition pay_long : bytes := 0xd9 :: PAY :: 0x94 :: replicate 20 7 ++ [0xb8; 1; 5].

(** The decoder also accepts forms that are longer than necessary: two different
    byte strings are read as the same action. *)
Theorem Action_decode_not_injective :
  pay_short ≠ pay_long ∧
  Action_decode pay_short = Ok (Action.Pay (replicate 20 7) 5) ∧
  Action_decode pay_long = Ok (Action.Pay (replicate 20 7) 5).
Proof. split_and!; [done|vm_compute; reflexivity|vm_compute; reflexivity]. Qed.

Definition sample_mint : Action.t :=
  Action.MintAsset [116; 99] 3 [109; 105; 110; 116] (Some (replicate 20 1)) None
    [replicate 20 2] {| amo_lock_script_hash := replicate 20 3;
                        amo_parameters := [[1; 2]; []]; amo_supply := 10000 |}
    [replicate 65 9].

Lemma Action_roundtrip_witness :
  Action_decode (enc (List (Action_items sample_mint))) = Ok sample_mint.
Proof.
  apply (proj2 (Action_roundtrip sample_mint
    ltac:(repeat split; repeat constructor; discriminate) ltac:(vm_compute; reflexivity))).
Defined.

Definition sample_unwrap : ShardTransaction.t :=
  ShardTransaction.UnwrapCCC [116; 99]
    {| ati_prev_out := {| aop_tracker := replicate 32 7; aop_index := 1;
         aop_asset_type := H160_zero; aop_shard_id := 2; aop_quantity := 300 |};
       ati_timelock := Some (TimeAge 70000); ati_lock_script := [1]; ati_unlock_script := [] |}
    (replicate 20 4).

Lemma ShardTransaction_roundtrip_witness :
  ShardTransaction_decode (enc (List (ShardTransaction_items sample_unwrap))) = Ok sample_unwrap.
Proof.
  apply (proj2 (ShardTransaction_roundtrip sample_unwrap
    ltac:(repeat split; repeat constructor; discriminate) ltac:(vm_compute; reflexivity))).
Defined.
