(* ===== verification/TxHash.v ===== *)
(** Digests of transactions: the tracker of a shard transaction, the part of it a
    signature covers ([PartialHashing] of [types/src/transaction/shard.rs]), the
    shards it touches, and the signed transaction of [core/src/transaction.rs]. *)

From stdpp Require Import base list numbers strings sorting.
From S2P Require Import Prelude Types Crypto Tag Rlp RlpImpls TxRlp.

Local Open Scope N_scope.

(** * Shards and outputs of a shard transaction *)

(** [shards.sort_unstable(); shards.dedup();] *)
Fixpoint dedup (l : list N) : list N :=
  match l with
  | x :: ((y :: _) as l') => if x =? y then dedup l' else x :: dedup l'
  | _ => l
  end.
Definition sort_dedup (shards : list ShardId) : list ShardId := dedup (merge_sort N.le shards).

Definition related_shards (self : ShardTransaction.t) : list ShardId :=
  match self with
  | ShardTransaction.TransferAsset _ burns inputs _ _ =>
      sort_dedup (((λ v, aop_shard_id (ati_prev_out v)) <$> burns) ++
                  ((λ v, aop_shard_id (ati_prev_out v)) <$> inputs))
  | ShardTransaction.MintAsset _ shard_id _ _ _ _ _ => [shard_id]
  | ShardTransaction.IncreaseAssetSupply _ shard_id _ _ _ => [shard_id]
  | ShardTransaction.ChangeAssetScheme _ shard_id _ _ _ _ _ _ => [shard_id]
  | ShardTransaction.ComposeAsset _ shard_id _ _ _ _ inputs _ =>
      sort_dedup (((λ v, aop_shard_id (ati_prev_out v)) <$> inputs) ++ [shard_id])
  | ShardTransaction.DecomposeAsset _ _ outputs => sort_dedup (ato_shard_id <$> outputs)
  | ShardTransaction.UnwrapCCC _ burn _ => [aop_shard_id (ati_prev_out burn)]
  | ShardTransaction.WrapCCC _ shard_id _ _ => [shard_id]
  end.

Definition ShardTransaction_network_id (self : ShardTransaction.t) : NetworkId :=
  match self with
  | ShardTransaction.MintAsset network_id _ _ _ _ _ _
  | ShardTransaction.TransferAsset network_id _ _ _ _
  | ShardTransaction.ChangeAssetScheme network_id _ _ _ _ _ _ _
  | ShardTransaction.IncreaseAssetSupply network_id _ _ _ _
  | ShardTransaction.ComposeAsset network_id _ _ _ _ _ _ _
  | ShardTransaction.DecomposeAsset network_id _ _
  | ShardTransaction.UnwrapCCC network_id _ _
  | ShardTransaction.WrapCCC network_id _ _ _ => network_id
  end.

Definition is_valid_output_index (self : ShardTransaction.t) (index : N) : bool :=
  match self with
  | ShardTransaction.MintAsset _ _ _ _ _ _ _ => index =? 0
  | ShardTransaction.TransferAsset _ _ _ outputs _ => index <? len outputs
  | ShardTransaction.IncreaseAssetSupply _ _ _ _ _ => index =? 0
  | ShardTransaction.ChangeAssetScheme _ _ _ _ _ _ _ _ => false
  | ShardTransaction.ComposeAsset _ _ _ _ _ _ _ _ => index =? 0
  | ShardTransaction.DecomposeAsset _ _ outputs => index <? len outputs
  | ShardTransaction.UnwrapCCC _ _ _ => false
  | ShardTransaction.WrapCCC _ _ _ _ => index =? 0
  end.

Definition is_valid_shard_id_index (self : ShardTransaction.t) (index : N) (id : ShardId)
  : result Empty_set bool :=
  if negb (is_valid_output_index self index) then Ok false
  else
    match self with
    | ShardTransaction.MintAsset _ shard_id _ _ _ _ _ => Ok (id =? shard_id)
    | ShardTransaction.TransferAsset _ _ _ outputs _ =>
        output ← expect (outputs !! N.to_nat index); Ok (id =? ato_shard_id output)
    | ShardTransaction.IncreaseAssetSupply _ shard_id _ _ _ => Ok (id =? shard_id)
    | ShardTransaction.ChangeAssetScheme _ _ _ _ _ _ _ _ => Panic
    | ShardTransaction.ComposeAsset _ shard_id _ _ _ _ _ _ => Ok (id =? shard_id)
    | ShardTransaction.DecomposeAsset _ _ outputs =>
        output ← expect (outputs !! N.to_nat index); Ok (id =? ato_shard_id output)
    | ShardTransaction.UnwrapCCC _ _ _ => Panic
    | ShardTransaction.WrapCCC _ shard_id _ _ => Ok (id =? shard_id)
    end.

(** * Which outputs and inputs a signature covers *)

(** [for i in 0..8]: at [pos] = 8 * index + i; stops at the end of [outputs]. *)
Fixpoint mask_bits (bits : nat) (pos filter : N) (outputs result : list AssetTransferOutput)
  : Prelude.result HashingError (bool * list AssetTransferOutput) :=
  match bits with
  | O => Ok (false, result)
  | S bits =>
      if pos =? len outputs then Ok (true, result)
      else
        result ←
          (if N.land filter 1 =? 1 then
             output ← expect (outputs !! N.to_nat pos); Ok (result ++ [output])
           else Ok result);
        mask_bits bits (pos + 1) (N.shiftr filter 1) outputs result
  end.

(** [while let Some(e) = bitmask.pop()], on the reversed mask. *)
Fixpoint mask_bytes (bitmask : bytes) (index : N) (outputs result : list AssetTransferOutput)
  : Prelude.result HashingError (list AssetTransferOutput) :=
  match bitmask with
  | [] => Ok result
  | e :: bitmask =>
      '(returned, result) ← mask_bits 8 (8 * index) e outputs result;
      if returned : bool then Ok result else mask_bytes bitmask (index + 1) outputs result
  end.

Definition apply_bitmask_to_output (bitmask : bytes) (outputs result : list AssetTransferOutput)
  : Prelude.result HashingError (list AssetTransferOutput) :=
  mask_bytes (reverse bitmask) 0 outputs result.

(** An input without its scripts. *)
Definition strip_scripts (input : AssetTransferInput) : AssetTransferInput :=
  {| ati_prev_out := ati_prev_out input; ati_timelock := ati_timelock input;
     ati_lock_script := []; ati_unlock_script := [] |}.

Definition apply_input_scheme (inputs : list AssetTransferInput)
  (is_sign_all is_sign_single : bool) (cur : AssetTransferInput) : list AssetTransferInput :=
  if is_sign_all then strip_scripts <$> inputs
  else if is_sign_single then [strip_scripts cur]
  else [].

(** * Digests *)
Section Digests.
Context `{Crypto}.

Definition ShardTransaction_tracker (self : ShardTransaction.t) : H256 :=
  match self with
  | ShardTransaction.WrapCCC _ _ tx_hash _ => tx_hash
  | _ => blake256 (rlp_bytes (ShardTransaction_append self))
  end.

Definition Action_tracker (self : Action.t) : option H256 :=
  ShardTransaction_tracker <$> Action.asset_transaction self.

Definition Action_hash (self : Action.t) : H256 := blake256 (rlp_bytes (Action_append self)).

Definition Order_hash (self : Order) : H256 :=
  blake256 (rlp_bytes (rlp_append Order_codec self)).

(** [blake256_with_key(&tx.rlp_bytes(), &blake128(tag.get_tag()))] *)
Definition keyed (tx : ShardTransaction.t) (tag : Tag.Tag) : H256 :=
  blake256_with_key (rlp_bytes (ShardTransaction_append tx)) (blake128 (get_tag tag)).

(** What of the transaction the tag covers. *)
Definition signed_part (self : ShardTransaction.t) (tag : Tag.Tag) (cur : AssetTransferInput)
  (is_burn : bool) : result HashingError ShardTransaction.t :=
  match self with
  | ShardTransaction.TransferAsset network_id burns inputs outputs orders =>
      if negb (bool_decide (orders = [])) &&
         (negb (tag_sign_all_inputs tag) || negb (tag_sign_all_outputs tag))
      then Err InvalidFilter
      else
        let new_burns := apply_input_scheme burns (tag_sign_all_inputs tag) is_burn cur in
        let new_inputs := apply_input_scheme inputs (tag_sign_all_inputs tag) (negb is_burn) cur in
        new_outputs ←
          (if tag_sign_all_outputs tag then Ok outputs
           else apply_bitmask_to_output (tag_filter tag) outputs []);
        Ok (ShardTransaction.TransferAsset network_id new_burns new_inputs new_outputs orders)
  | ShardTransaction.ComposeAsset network_id shard_id metadata approver registrar allowed inputs
      output =>
      if negb (tag_filter_len tag =? 0) then Err InvalidFilter
      else
        let new_inputs := apply_input_scheme inputs (tag_sign_all_inputs tag) (negb is_burn) cur in
        let new_output :=
          if tag_sign_all_outputs tag then output else AssetMintOutput_default in
        Ok (ShardTransaction.ComposeAsset network_id shard_id metadata approver registrar allowed
              new_inputs new_output)
  | ShardTransaction.DecomposeAsset network_id input outputs =>
      new_outputs ←
        (if tag_sign_all_outputs tag then Ok outputs
         else apply_bitmask_to_output (tag_filter tag) outputs []);
      Ok (ShardTransaction.DecomposeAsset network_id (strip_scripts input) new_outputs)
  | ShardTransaction.UnwrapCCC network_id burn receiver =>
      if negb (tag_sign_all_inputs tag) || negb (tag_sign_all_outputs tag) then Err InvalidFilter
      else Ok (ShardTransaction.UnwrapCCC network_id (strip_scripts burn) receiver)
  | _ => Panic
  end.

(** [impl PartialHashing for ShardTransaction]. *)
Definition ShardTransaction_hash_partially (self : ShardTransaction.t) (tag : Tag.Tag)
  (cur : AssetTransferInput) (is_burn : bool) : result HashingError H256 :=
  part ← signed_part self tag cur is_burn;
  Ok (keyed part tag).

(** [impl PartialHashing for Order]. *)
Definition Order_hash_partially (self : Order) (tag : Tag.Tag) (cur : AssetTransferInput)
  (is_burn : bool) : result HashingError H256 :=
  _ ← assert (tag_sign_all_inputs tag);
  _ ← assert (tag_sign_all_outputs tag);
  _ ← assert (negb is_burn);
  Ok (Order_hash self).
End Digests.

(** * Signatures and signed transactions *)

(** [ECDSASignature] is r, s and v. *)
Definition sig_r (sig : Signature) : bytes := take 32 sig.
Definition sig_s (sig : Signature) : bytes := take 32 (drop 32 sig).
Definition sig_v (sig : Signature) : N := default 0 (sig !! 64%nat).

Definition HALF_ORDER : N :=
  0x7FFFFFFFFFFFFFFFFFFFFFFFFFFFFFFF5D576E7357A4501DDFE92F46681B20A0.
Definition ORDER : N :=
  0xfffffffffffffffffffffffffffffffebaaedce6af48a03bbfd25e8cd0364141.

Definition is_low_s (self : Signature) : bool := from_be_bytes (sig_s self) <=? HALF_ORDER.
Definition is_valid (self : Signature) : bool :=
  (sig_v self <=? 1) &&
  (from_be_bytes (sig_r self) <? ORDER) && (1 <=? from_be_bytes (sig_r self)) &&
  (from_be_bytes (sig_s self) <? ORDER) && (1 <=? from_be_bytes (sig_s self)).

(** [struct UnverifiedTransaction]. *)
Record UnverifiedTransaction := {
  utx_unsigned : Transaction;
  utx_sig : Signature;
  utx_hash : H256;
}.

(** [struct SignedTransaction]. *)
Record SignedTransaction := {
  stx_tx : UnverifiedTransaction;
  stx_signer_public : Public;
}.

Section Transactions.
Context `{Crypto}.

(** [Transaction::rlp_append_unsigned] and [hash]. *)
Definition rlp_append_unsigned (self : Transaction) : strm () :=
  rlp_list 4
    [app u64_codec (tx_seq self); app u64_codec (tx_fee self);
     app network_id_codec (tx_network_id self); app Action_codec (tx_action self)].
Definition Transaction_hash (self : Transaction) : H256 :=
  blake256 (buffer (rlp_append_unsigned self RlpStream_new).2).

(** [Transaction::tracker]. *)
Definition Transaction_tracker (self : Transaction) : option H256 :=
  let shard_tx :=
    match tx_action self with
    | Action.WrapCCC shard_id lock_script_hash parameters quantity _ =>
        Some (ShardTransaction.WrapCCC (tx_network_id self) shard_id (Transaction_hash self)
          {| awo_lock_script_hash := lock_script_hash; awo_parameters := parameters;
             awo_quantity := quantity |})
    | other_actions => Action.to_shard_transaction other_actions
    end in
  ShardTransaction_tracker <$> shard_tx.

Definition is_master_key_allowed (self : Transaction) : bool :=
  match tx_action self with Action.SetRegularKey _ => true | _ => false end.

Definition rlp_append_sealed_transaction (unsigned : Transaction) (sig : Signature) : strm () :=
  rlp_list 5
    [app u64_codec (tx_seq unsigned); app u64_codec (tx_fee unsigned);
     app network_id_codec (tx_network_id unsigned); app Action_codec (tx_action unsigned);
     app H520_codec sig].

(** [UnverifiedTransaction::new] with [compute_hash]. *)
Definition UnverifiedTransaction_new (unsigned : Transaction) (sig : Signature)
  : UnverifiedTransaction :=
  {| utx_unsigned := unsigned; utx_sig := sig;
     utx_hash := blake256 (rlp_bytes (rlp_append_sealed_transaction unsigned sig)) |}.

Definition UnverifiedTransaction_decode (d : bytes) : rlpR UnverifiedTransaction :=
  _ ← check_items d 5;
  let hash := blake256 d in
  seq ← val_at (decode u64_codec) d 0;
  fee ← val_at (decode u64_codec) d 1;
  network_id ← val_at (decode network_id_codec) d 2;
  action ← val_at (decode Action_codec) d 3;
  sig ← val_at (decode H520_codec) d 4;
  Ok {| utx_unsigned := {| tx_seq := seq; tx_fee := fee; tx_network_id := network_id;
                           tx_action := action |};
        utx_sig := sig; utx_hash := hash |}.

Definition recover_public (self : UnverifiedTransaction) : result String Public :=
  recover_ecdsa (utx_sig self) (Transaction_hash (utx_unsigned self)).

Definition check_low_s (self : UnverifiedTransaction) : bool := is_low_s (utx_sig self).

Definition SignedTransaction_decode (d : bytes) : rlpR SignedTransaction :=
  unverified_transaction ← UnverifiedTransaction_decode d;
  match recover_public unverified_transaction with
  | Ok key => Ok {| stx_tx := unverified_transaction; stx_signer_public := key |}
  | Err _ => Err (RlpError.Custom "signer public key recover failed")
  | Panic => Panic
  end.
End Transactions.

(** * Lemmas *)

(** ** The bit mask *)

(** The elements at the positions [f] selects, counting from [pos]. *)
Fixpoint select {A : Type} (f : N → bool) (pos : N) (l : list A) : list A :=
  match l with
  | [] => []
  | x :: l => if f pos then x :: select f (pos + 1) l else select f (pos + 1) l
  end.

Lemma select_ext {A} (f g : N → bool) pos (l : list A) :
  (∀ p, pos ≤ p → f p = g p) → select f pos l = select g pos l.
Proof.
  revert pos. induction l as [|x l IH]; intros pos Hfg; simpl; [done|].
  rewrite (Hfg pos) by lia. rewrite (IH (pos + 1)) by (intros; apply Hfg; lia). done.
Qed.

Lemma select_app {A} (f : N → bool) pos (l k : list A) :
  select f pos (l ++ k) = select f pos l ++ select f (pos + len l) k.
Proof.
  revert pos. induction l as [|x l IH]; intros pos; simpl.
  - change (len (@nil A)) with 0. by rewrite N.add_0_r.
  - rewrite IH, len_cons. replace (pos + (1 + len l)) with (pos + 1 + len l) by lia.
    by destruct (f pos).
Qed.

Lemma select_none {A} (f : N → bool) pos (l : list A) :
  (∀ p, pos ≤ p → f p = false) → select f pos l = [].
Proof.
  revert pos. induction l as [|x l IH]; intros pos Hf; simpl; [done|].
  rewrite Hf by lia. apply IH. intros. apply Hf. lia.
Qed.

Lemma select_ext_upto {A} (f g : N → bool) pos (l : list A) :
  (∀ p, pos ≤ p → p < pos + len l → f p = g p) → select f pos l = select g pos l.
Proof.
  revert pos. induction l as [|x l IH]; intros pos Hfg; simpl; [done|].
  rewrite len_cons in Hfg. rewrite (Hfg pos) by lia.
  rewrite (IH (pos + 1)) by (intros; apply Hfg; lia). done.
Qed.

Lemma low_bit n : (N.land n 1 =? 1) = N.testbit n 0.
Proof.
  rewrite land_1, <-N.bit0_mod. by destruct (N.testbit n 0).
Qed.

Lemma mask_bits_spec bits pos filter outputs result :
  pos ≤ len outputs →
  mask_bits bits pos filter outputs result =
    Ok (len outputs <? pos + N.of_nat bits,
        result ++ select (λ p, N.testbit filter (p - pos)) pos
                    (take bits (drop (N.to_nat pos) outputs))).
Proof.
  revert pos filter result. induction bits as [|bits IH]; intros pos filter result Hpos; simpl.
  - rewrite app_nil_r. rewrite (proj2 (N.ltb_ge _ _)) by lia. done.
  - destruct (N.eqb_spec pos (len outputs)) as [->|Hne].
    { rewrite (proj2 (N.ltb_lt _ _)) by lia. rewrite drop_ge by (unfold len; lia).
      by rewrite app_nil_r. }
    destruct (lookup_lt_is_Some_2 outputs (N.to_nat pos)) as [o Ho]; [unfold len in *; lia|].
    rewrite (drop_S _ _ _ Ho), Ho. simpl.
    assert (Hstep : (if N.land filter 1 =? 1 then Ok (result ++ [o]) else Ok result) =
      Ok (E:=HashingError) (result ++ if N.testbit filter (pos - pos) then [o] else [])).
    { rewrite low_bit, N.sub_diag. destruct (N.testbit filter 0); [done|]. by rewrite app_nil_r. }
    rewrite Hstep. simpl. rewrite IH by (unfold len in *; lia).
    replace (N.to_nat (pos + 1)) with (S (N.to_nat pos)) by lia.
    replace (pos + 1 + N.of_nat bits) with (pos + N.pos (Pos.of_succ_nat bits)) by lia.
    do 2 f_equal. rewrite <-app_assoc. f_equal.
    rewrite (select_ext _ (λ p, N.testbit filter (p - pos)) (pos + 1)).
    + by destruct (N.testbit filter (pos - pos)).
    + intros p Hp. rewrite N.shiftr_spec by lia. f_equal. lia.
Qed.

Lemma testbit_byte e n p :
  e < 256 → N.testbit (256 * n + e) p = if p <? 8 then N.testbit e p else N.testbit n (p - 8).
Proof.
  intros He. change 256 with (2 ^ 8) in *.
  rewrite N.mul_comm. destruct (N.ltb_spec p 8).
  - rewrite <-(N.mod_pow2_bits_low _ 8) by done.
    rewrite N.add_comm, N.Div0.mod_add, N.mod_small by done. done.
  - replace p with (p - 8 + 8) at 1 by lia. rewrite <-N.div_pow2_bits.
    rewrite N.div_add_l, (N.div_small e), N.add_0_r by (done || lia). done.
Qed.

Lemma mask_bytes_spec bitmask index outputs result :
  bytes_ok bitmask → 8 * index ≤ len outputs →
  mask_bytes bitmask index outputs result =
    Ok (result ++ select (λ p, N.testbit (from_be_bytes (reverse bitmask)) (p - 8 * index))
                    (8 * index) (drop (N.to_nat (8 * index)) outputs)).
Proof.
  intros Hok. revert index result.
  induction Hok as [|e bitmask He Hok IH]; intros index result Hi; cbn [mask_bytes].
  - rewrite (select_none (λ p, N.testbit (from_be_bytes (reverse [])) (p - 8 * index)));
      [by rewrite app_nil_r|]. intros. apply N.bits_0.
  - rewrite mask_bits_spec by done. rewrite Ok_bind.
    set (rest := drop (N.to_nat (8 * index)) outputs).
    rewrite reverse_cons, from_be_bytes_snoc.
    set (n := from_be_bytes (reverse bitmask)).
    set (f := λ p, N.testbit (256 * n + e) (p - 8 * index)).
    assert (Hhead : select (λ p, N.testbit e (p - 8 * index)) (8 * index) (take 8 rest) =
                    select f (8 * index) (take 8 rest)).
    { apply select_ext_upto. intros p Hp1 Hp2. unfold f. rewrite testbit_byte by done.
      rewrite (proj2 (N.ltb_lt _ _)); [done|]. unfold len in Hp2. rewrite length_take in Hp2. lia. }
    change (N.of_nat 8) with 8. rewrite Hhead.
    destruct (N.ltb_spec (len outputs) (8 * index + 8)) as [Hend|Hmore].
    + rewrite take_ge; [done|]. unfold rest. rewrite length_drop. unfold len in Hend. lia.
    + rewrite IH by lia. f_equal. rewrite <-app_assoc. f_equal.
      replace (8 * (index + 1)) with (8 * index + 8) by lia.
      rewrite <-(take_drop 8 rest) at 2. rewrite select_app.
      assert (Hl : len (take 8 rest) = 8).
      { unfold len, rest in *. rewrite length_take, length_drop. lia. }
      rewrite Hl. f_equal. unfold rest. rewrite drop_drop.
      replace (N.to_nat (8 * index + 8)) with (N.to_nat (8 * index) + 8)%nat by lia.
      apply select_ext. intros p Hp. unfold f. rewrite testbit_byte by done.
      rewrite (proj2 (N.ltb_ge _ _)) by lia. f_equal. lia.
Qed.

Lemma mask_bytes_no_panic bitmask index outputs result :
  8 * index ≤ len outputs → mask_bytes bitmask index outputs result ≠ Panic.
Proof.
  revert index result. induction bitmask as [|e bitmask IH]; intros index result Hi;
    cbn [mask_bytes]; [done|].
  rewrite mask_bits_spec, Ok_bind by done. change (N.of_nat 8) with 8.
  destruct (N.ltb_spec (len outputs) (8 * index + 8)); [done|].
  apply IH. lia.
Qed.

Lemma mask_no_panic bitmask outputs result : apply_bitmask_to_output bitmask outputs result ≠ Panic.
Proof. apply mask_bytes_no_panic. lia. Qed.

(** ** Sorting shards *)

Lemma dedup_elem x l : x ∈ dedup l ↔ x ∈ l.
Proof.
  induction l as [|y [|z l] IH]; [done|done|]. cbn [dedup] in *.
  destruct (N.eqb_spec y z) as [->|]; rewrite ?elem_of_cons in *; naive_solver.
Qed.

Lemma dedup_sorted l : StronglySorted N.le l → StronglySorted N.lt (dedup l).
Proof.
  induction l as [|y l IH]; intros Hs; [constructor|].
  apply StronglySorted_inv in Hs as [Hs Hall]. specialize (IH Hs).
  destruct l as [|z l]; [by repeat constructor|]. cbn [dedup] in *.
  destruct (N.eqb_spec y z) as [->|Hne]; [done|]. constructor; [done|].
  apply Forall_forall. intros w Hw.
  assert (z ≤ w).
  { apply (dedup_elem w (z :: l)) in Hw as [->|Hw]%elem_of_cons; [done|].
    apply StronglySorted_inv in Hs as [_ Hz]. rewrite Forall_forall in Hz. by apply Hz. }
  rewrite Forall_forall in Hall. specialize (Hall z ltac:(by left)). lia.
Qed.

Lemma sort_dedup_elem x l : x ∈ sort_dedup l ↔ x ∈ l.
Proof. unfold sort_dedup. by rewrite dedup_elem, merge_sort_Permutation. Qed.

Lemma sort_dedup_sorted l : StronglySorted N.lt (sort_dedup l).
Proof.
  apply dedup_sorted, StronglySorted_merge_sort; [intros x y z|intros x y]; lia.
Qed.

(** ** Encodings determine what they encode *)



Definition Transaction_wf (t : Transaction) : Prop :=
  wf u64_codec (tx_seq t) ∧ wf u64_codec (tx_fee t) ∧ wf network_id_codec (tx_network_id t) ∧
  wf Action_codec (tx_action t).

Definition sealed_items (t : Transaction) (sig : Signature) : list rlp_item :=
  [item u64_codec (tx_seq t); item u64_codec (tx_fee t); item network_id_codec (tx_network_id t);
   item Action_codec (tx_action t); item H520_codec sig].

Lemma sealed_encodes t sig :
  encodes (rlp_append_sealed_transaction t sig) (List (sealed_items t sig)).
Proof. unfold rlp_append_sealed_transaction. encodes_tac. Qed.

(** ** Witness data *)
Module HashWitness.
Definition out (n : N) : AssetTransferOutput :=
  {| ato_lock_script_hash := replicate 20 n; ato_parameters := []; ato_asset_type := replicate 20 1;
     ato_shard_id := 0; ato_quantity := n |}.
Definition input (n : N) : AssetTransferInput :=
  {| ati_prev_out := {| aop_tracker := replicate 32 n; aop_index := 0;
       aop_asset_type := replicate 20 1; aop_shard_id := n; aop_quantity := 5 |};
     ati_timelock := None; ati_lock_script := [2]; ati_unlock_script := [3] |}.
Definition tag : Tag.Tag :=
  {| tag_sign_all_inputs := false; tag_sign_all_outputs := true; tag_filter_len := 0;
     tag_filter := []; tag_bitvec := [2] |}.
Definition transfer : ShardTransaction.t :=
  ShardTransaction.TransferAsset [116; 99] [] [input 3; input 1] [out 7] [].
Definition payment : Transaction :=
  {| tx_seq := 1; tx_fee := 10; tx_network_id := [116; 99];
     tx_action := Action.Pay (replicate 20 7) 5 |}.
End HashWitness.

(** * Properties *)
Section Properties.
Context `{Crypto}.

(** The output filter of a tag is a little-endian bit set: the outputs that enter
    the digest are exactly those whose position is a set bit of the filter read as
    a big-endian number. *)
Theorem apply_bitmask_selects (filter : bytes) (outputs : list AssetTransferOutput)
  (Hok : bytes_ok filter) :
  apply_bitmask_to_output filter outputs [] =
    Ok (select (N.testbit (from_be_bytes filter)) 0 outputs).
Proof.
  unfold apply_bitmask_to_output. rewrite mask_bytes_spec; [|by apply Forall_reverse|lia].
  simpl. rewrite reverse_involutive. f_equal. apply select_ext. intros. f_equal. lia.
Qed.

(** Hashing a shard transaction whose inputs are unlocked (a transfer, a compose, a
    decompose or an unwrap) never unwinds, whatever tag an unlock script pushes. *)
Theorem ShardTransaction_hash_partially_safe (tx : ShardTransaction.t) (tag : Tag.Tag)
  (cur : AssetTransferInput) (is_burn : bool)
  (Hspends : match tx with
             | ShardTransaction.TransferAsset _ _ _ _ _
             | ShardTransaction.ComposeAsset _ _ _ _ _ _ _ _
             | ShardTransaction.DecomposeAsset _ _ _
             | ShardTransaction.UnwrapCCC _ _ _ => True
             | _ => False
             end) :
  ShardTransaction_hash_partially tx tag cur is_burn ≠ Panic.
Proof.
  unfold ShardTransaction_hash_partially. apply bind_no_panic; [|done].
  pose proof mask_no_panic. destruct tx; try done; unfold signed_part; np_tac.
Qed.

(** Hashing an order unwinds for every tag that does not sign all inputs and all
    outputs; the tag is read from the unlock script of the transaction. *)
Theorem Order_hash_partially_unwinds (order : Order) (tag : Tag.Tag) (cur : AssetTransferInput)
  (is_burn : bool) :
  Order_hash_partially order tag cur is_burn = Panic ↔
  tag_sign_all_inputs tag = false ∨ tag_sign_all_outputs tag = false ∨ is_burn = true.
Proof.
  unfold Order_hash_partially.
  destruct (tag_sign_all_inputs tag), (tag_sign_all_outputs tag), is_burn; simpl; naive_solver.
Qed.


(** The shards a transaction touches are listed in increasing order without
    repetition; for a transfer they are the shards of its burns and inputs. *)
Theorem related_shards_sorted (tx : ShardTransaction.t) :
  StronglySorted N.lt (related_shards tx) ∧
  ∀ network_id burns inputs outputs orders id,
    tx = ShardTransaction.TransferAsset network_id burns inputs outputs orders →
    id ∈ related_shards tx ↔
      ∃ input, input ∈ burns ++ inputs ∧ id = aop_shard_id (ati_prev_out input).
Proof.
  split.
  - destruct tx; simpl; try apply sort_dedup_sorted; by repeat constructor.
  - intros * ->. simpl. rewrite sort_dedup_elem, <-fmap_app, list_elem_of_fmap. naive_solver.
Qed.

Lemma sealed_bytes (t : Transaction) (sig : Signature) :
  fits (List (sealed_items t sig)) →
  rlp_bytes (rlp_append_sealed_transaction t sig) = enc (List (sealed_items t sig)).
Proof. intros Hf. unfold rlp_bytes. by rewrite (drain_encodes _ _ (sealed_encodes t sig) Hf). Qed.

Lemma UnverifiedTransaction_decodes (t : Transaction) (sig : Signature) :
  Transaction_wf t → len sig = 65 → fits (List (sealed_items t sig)) →
  UnverifiedTransaction_decode (enc (List (sealed_items t sig))) = Ok (UnverifiedTransaction_new t sig).
Proof.
  intros (? & ? & ? & ?) ? Hfits. unfold UnverifiedTransaction_new. rewrite sealed_bytes by done.
  unfold UnverifiedTransaction_decode. set (hash := blake256 _). clearbody hash.
  unfold sealed_items in *. destruct t as [seq fee nid action].
  cbn [tx_seq tx_fee tx_network_id tx_action] in *. fields_tac.
Qed.

(** A signed transaction is read back from its own encoding with the same contents
    and the same hash. *)
Theorem UnverifiedTransaction_roundtrip (t : Transaction) (sig : Signature)
  (Hwf : Transaction_wf t) (Hsig : len sig = 65) (Hfits : fits (List (sealed_items t sig))) :
  UnverifiedTransaction_decode (rlp_bytes (rlp_append_sealed_transaction t sig)) =
    Ok (UnverifiedTransaction_new t sig).
Proof. rewrite sealed_bytes by done. by apply UnverifiedTransaction_decodes. Qed.
End Properties.

Module HashProofs.
Import HashWitness.
#[local] Existing Instance Sample.crypto.

Lemma apply_bitmask_selects_witness :
  apply_bitmask_to_output [1; 0x82] [out 0; out 1; out 2] [] = Ok [out 1] ∧
  apply_bitmask_to_output [1; 0x82] (out <$> [0; 1; 2; 3; 4; 5; 6; 7; 8]) [] = Ok [out 1; out 7; out 8].
Proof.
  split; rewrite apply_bitmask_selects; try reflexivity; repeat constructor.
Defined.

Lemma ShardTransaction_hash_partially_safe_witness :
  ShardTransaction_hash_partially transfer tag (input 3) false ≠ Panic.
Proof. apply ShardTransaction_hash_partially_safe. exact I. Defined.


Lemma UnverifiedTransaction_roundtrip_witness :
  UnverifiedTransaction_decode
    (rlp_bytes (rlp_append_sealed_transaction payment (replicate 65 1))) =
    Ok (UnverifiedTransaction_new payment (replicate 65 1)).
Proof.
  apply UnverifiedTransaction_roundtrip.
  - repeat split; repeat constructor; discriminate.
  - reflexivity.
  - vm_compute; reflexivity.
Defined.
End HashProofs.
