(* ===== verification/Params.v ===== *)
(** The consensus parameters of [types/src/common_params.rs]: the record, its
    well-formedness check and its RLP form, which carries the staking parameters only
    when the record was made with them. *)

From stdpp Require Import base list numbers strings.
From S2P Require Import Prelude Types Rlp RlpImpls.

Local Open Scope N_scope.

Record CommonParams := {
  cp_size : N;
  cp_max_extra_data_size : N;
  cp_max_asset_scheme_metadata_size : N;
  cp_max_transfer_metadata_size : N;
  cp_max_text_content_size : N;
  cp_network_id : NetworkId;
  cp_min_pay_transaction_cost : N;
  cp_min_set_regular_key_transaction_cost : N;
  cp_min_create_shard_transaction_cost : N;
  cp_min_set_shard_owners_transaction_cost : N;
  cp_min_set_shard_users_transaction_cost : N;
  cp_min_wrap_ccc_transaction_cost : N;
  cp_min_custom_transaction_cost : N;
  cp_min_store_transaction_cost : N;
  cp_min_remove_transaction_cost : N;
  cp_min_asset_mint_cost : N;
  cp_min_asset_transfer_cost : N;
  cp_min_asset_scheme_change_cost : N;
  cp_min_asset_supply_increase_cost : N;
  cp_min_asset_compose_cost : N;
  cp_min_asset_decompose_cost : N;
  cp_min_asset_unwrap_ccc_cost : N;
  cp_max_body_size : N;
  cp_snapshot_period : N;
  cp_term_seconds : N;
  cp_nomination_expiration : N;
  cp_custody_period : N;
  cp_release_period : N;
  cp_max_num_of_validators : N;
  cp_min_num_of_validators : N;
  cp_delegation_threshold : N;
  cp_min_deposit : N;
  cp_max_candidate_metadata_size : N;
}.

Definition DEFAULT_PARAMS_SIZE : N := 23.
Definition NUMBER_OF_STAKE_PARAMS : N := 9.

(** The messages of [CommonParams::verify]. *)
Inductive ParamsError :=
| NominationExpirationUnset
| CustodyPeriodUnset
| ReleasePeriodUnset
| MaxValidatorsUnset
| MinValidatorsUnset
| DelegationThresholdUnset
| MinDepositUnset
| MinValidatorsAboveMax (min max : N)
| ReleaseNotAfterCustody (release custody : N)
| CandidateMetadataTooLong (metadata text : N).

(** [CommonParams::verify]. *)
Definition CommonParams_verify (self : CommonParams) : result ParamsError () :=
  if negb (cp_term_seconds self =? 0) then
    _ ← ensure (negb (cp_nomination_expiration self =? 0)) NominationExpirationUnset;
    _ ← ensure (negb (cp_custody_period self =? 0)) CustodyPeriodUnset;
    _ ← ensure (negb (cp_release_period self =? 0)) ReleasePeriodUnset;
    _ ← ensure (negb (cp_max_num_of_validators self =? 0)) MaxValidatorsUnset;
    _ ← ensure (negb (cp_min_num_of_validators self =? 0)) MinValidatorsUnset;
    _ ← ensure (negb (cp_delegation_threshold self =? 0)) DelegationThresholdUnset;
    _ ← ensure (negb (cp_min_deposit self =? 0)) MinDepositUnset;
    _ ← ensure (negb (cp_max_num_of_validators self <? cp_min_num_of_validators self))
          (MinValidatorsAboveMax (cp_min_num_of_validators self) (cp_max_num_of_validators self));
    _ ← ensure (negb (cp_release_period self <=? cp_custody_period self))
          (ReleaseNotAfterCustody (cp_release_period self) (cp_custody_period self));
    ensure (negb (cp_max_text_content_size self <=? cp_max_candidate_metadata_size self))
          (CandidateMetadataTooLong (cp_max_candidate_metadata_size self)
             (cp_max_text_content_size self))
  else Ok tt.

Definition base_calls (self : CommonParams) : list (strm ()) :=
  [app usize_codec (cp_max_extra_data_size self);
   app usize_codec (cp_max_asset_scheme_metadata_size self);
   app usize_codec (cp_max_transfer_metadata_size self);
   app usize_codec (cp_max_text_content_size self);
   app network_id_codec (cp_network_id self);
   app u64_codec (cp_min_pay_transaction_cost self);
   app u64_codec (cp_min_set_regular_key_transaction_cost self);
   app u64_codec (cp_min_create_shard_transaction_cost self);
   app u64_codec (cp_min_set_shard_owners_transaction_cost self);
   app u64_codec (cp_min_set_shard_users_transaction_cost self);
   app u64_codec (cp_min_wrap_ccc_transaction_cost self);
   app u64_codec (cp_min_custom_transaction_cost self);
   app u64_codec (cp_min_store_transaction_cost self);
   app u64_codec (cp_min_remove_transaction_cost self);
   app u64_codec (cp_min_asset_mint_cost self);
   app u64_codec (cp_min_asset_transfer_cost self);
   app u64_codec (cp_min_asset_scheme_change_cost self);
   app u64_codec (cp_min_asset_supply_increase_cost self);
   app u64_codec (cp_min_asset_compose_cost self);
   app u64_codec (cp_min_asset_decompose_cost self);
   app u64_codec (cp_min_asset_unwrap_ccc_cost self);
   app usize_codec (cp_max_body_size self);
   app u64_codec (cp_snapshot_period self)].
Definition stake_calls (self : CommonParams) : list (strm ()) :=
  [app u64_codec (cp_term_seconds self);
   app u64_codec (cp_nomination_expiration self);
   app u64_codec (cp_custody_period self);
   app u64_codec (cp_release_period self);
   app usize_codec (cp_max_num_of_validators self);
   app usize_codec (cp_min_num_of_validators self);
   app u64_codec (cp_delegation_threshold self);
   app u64_codec (cp_min_deposit self);
   app usize_codec (cp_max_candidate_metadata_size self)].

(** [impl Encodable for CommonParams]. *)
Definition CommonParams_append (self : CommonParams) : strm () :=
  _ ← lift_st (assert ((cp_size self =? DEFAULT_PARAMS_SIZE) ||
                       (cp_size self =? DEFAULT_PARAMS_SIZE + NUMBER_OF_STAKE_PARAMS)));
  rlp_list (cp_size self)
    (base_calls self ++
     (if cp_size self =? DEFAULT_PARAMS_SIZE + NUMBER_OF_STAKE_PARAMS then stake_calls self
      else [])).

(** [impl Decodable for CommonParams]. *)
Definition CommonParams_decode (rlp : bytes) : rlpR CommonParams :=
  size ← item_count rlp;
  if negb ((size =? DEFAULT_PARAMS_SIZE) || (size =? DEFAULT_PARAMS_SIZE + NUMBER_OF_STAKE_PARAMS))
  then Err (RlpError.RlpIncorrectListLen DEFAULT_PARAMS_SIZE size)
  else
    max_extra_data_size ← val_at (decode usize_codec) rlp 0;
    max_asset_scheme_metadata_size ← val_at (decode usize_codec) rlp 1;
    max_transfer_metadata_size ← val_at (decode usize_codec) rlp 2;
    max_text_content_size ← val_at (decode usize_codec) rlp 3;
    network_id ← val_at (decode network_id_codec) rlp 4;
    min_pay_transaction_cost ← val_at (decode u64_codec) rlp 5;
    min_set_regular_key_transaction_cost ← val_at (decode u64_codec) rlp 6;
    min_create_shard_transaction_cost ← val_at (decode u64_codec) rlp 7;
    min_set_shard_owners_transaction_cost ← val_at (decode u64_codec) rlp 8;
    min_set_shard_users_transaction_cost ← val_at (decode u64_codec) rlp 9;
    min_wrap_ccc_transaction_cost ← val_at (decode u64_codec) rlp 10;
    min_custom_transaction_cost ← val_at (decode u64_codec) rlp 11;
    min_store_transaction_cost ← val_at (decode u64_codec) rlp 12;
    min_remove_transaction_cost ← val_at (decode u64_codec) rlp 13;
    min_asset_mint_cost ← val_at (decode u64_codec) rlp 14;
    min_asset_transfer_cost ← val_at (decode u64_codec) rlp 15;
    min_asset_scheme_change_cost ← val_at (decode u64_codec) rlp 16;
    min_asset_supply_increase_cost ← val_at (decode u64_codec) rlp 17;
    min_asset_compose_cost ← val_at (decode u64_codec) rlp 18;
    min_asset_decompose_cost ← val_at (decode u64_codec) rlp 19;
    min_asset_unwrap_ccc_cost ← val_at (decode u64_codec) rlp 20;
    max_body_size ← val_at (decode usize_codec) rlp 21;
    snapshot_period ← val_at (decode u64_codec) rlp 22;
    let finish term_seconds nomination_expiration custody_period release_period max_num_of_validators
      min_num_of_validators delegation_threshold min_deposit max_candidate_metadata_size : rlpR CommonParams :=
      Ok {| cp_size := size;
            cp_max_extra_data_size := max_extra_data_size;
            cp_max_asset_scheme_metadata_size := max_asset_scheme_metadata_size;
            cp_max_transfer_metadata_size := max_transfer_metadata_size;
            cp_max_text_content_size := max_text_content_size;
            cp_network_id := network_id;
            cp_min_pay_transaction_cost := min_pay_transaction_cost;
            cp_min_set_regular_key_transaction_cost := min_set_regular_key_transaction_cost;
            cp_min_create_shard_transaction_cost := min_create_shard_transaction_cost;
            cp_min_set_shard_owners_transaction_cost := min_set_shard_owners_transaction_cost;
            cp_min_set_shard_users_transaction_cost := min_set_shard_users_transaction_cost;
            cp_min_wrap_ccc_transaction_cost := min_wrap_ccc_transaction_cost;
            cp_min_custom_transaction_cost := min_custom_transaction_cost;
            cp_min_store_transaction_cost := min_store_transaction_cost;
            cp_min_remove_transaction_cost := min_remove_transaction_cost;
            cp_min_asset_mint_cost := min_asset_mint_cost;
            cp_min_asset_transfer_cost := min_asset_transfer_cost;
            cp_min_asset_scheme_change_cost := min_asset_scheme_change_cost;
            cp_min_asset_supply_increase_cost := min_asset_supply_increase_cost;
            cp_min_asset_compose_cost := min_asset_compose_cost;
            cp_min_asset_decompose_cost := min_asset_decompose_cost;
            cp_min_asset_unwrap_ccc_cost := min_asset_unwrap_ccc_cost;
            cp_max_body_size := max_body_size;
            cp_snapshot_period := snapshot_period;
            cp_term_seconds := term_seconds;
            cp_nomination_expiration := nomination_expiration;
            cp_custody_period := custody_period;
            cp_release_period := release_period;
            cp_max_num_of_validators := max_num_of_validators;
            cp_min_num_of_validators := min_num_of_validators;
            cp_delegation_threshold := delegation_threshold;
            cp_min_deposit := min_deposit;
            cp_max_candidate_metadata_size := max_candidate_metadata_size |} in
    if DEFAULT_PARAMS_SIZE + NUMBER_OF_STAKE_PARAMS <=? size then
      term_seconds ← val_at (decode u64_codec) rlp 23;
      nomination_expiration ← val_at (decode u64_codec) rlp 24;
      custody_period ← val_at (decode u64_codec) rlp 25;
      release_period ← val_at (decode u64_codec) rlp 26;
      max_num_of_validators ← val_at (decode usize_codec) rlp 27;
      min_num_of_validators ← val_at (decode usize_codec) rlp 28;
      delegation_threshold ← val_at (decode u64_codec) rlp 29;
      min_deposit ← val_at (decode u64_codec) rlp 30;
      max_candidate_metadata_size ← val_at (decode usize_codec) rlp 31;
      finish term_seconds nomination_expiration custody_period release_period max_num_of_validators
        min_num_of_validators delegation_threshold min_deposit max_candidate_metadata_size
    else finish 0 0 0 0 0 0 0 0 0.

(** * Lemmas *)

Definition base_items (p : CommonParams) : list rlp_item :=
  [item usize_codec (cp_max_extra_data_size p);
   item usize_codec (cp_max_asset_scheme_metadata_size p);
   item usize_codec (cp_max_transfer_metadata_size p);
   item usize_codec (cp_max_text_content_size p);
   item network_id_codec (cp_network_id p);
   item u64_codec (cp_min_pay_transaction_cost p);
   item u64_codec (cp_min_set_regular_key_transaction_cost p);
   item u64_codec (cp_min_create_shard_transaction_cost p);
   item u64_codec (cp_min_set_shard_owners_transaction_cost p);
   item u64_codec (cp_min_set_shard_users_transaction_cost p);
   item u64_codec (cp_min_wrap_ccc_transaction_cost p);
   item u64_codec (cp_min_custom_transaction_cost p);
   item u64_codec (cp_min_store_transaction_cost p);
   item u64_codec (cp_min_remove_transaction_cost p);
   item u64_codec (cp_min_asset_mint_cost p);
   item u64_codec (cp_min_asset_transfer_cost p);
   item u64_codec (cp_min_asset_scheme_change_cost p);
   item u64_codec (cp_min_asset_supply_increase_cost p);
   item u64_codec (cp_min_asset_compose_cost p);
   item u64_codec (cp_min_asset_decompose_cost p);
   item u64_codec (cp_min_asset_unwrap_ccc_cost p);
   item usize_codec (cp_max_body_size p);
   item u64_codec (cp_snapshot_period p)].
Definition stake_items (p : CommonParams) : list rlp_item :=
  [item u64_codec (cp_term_seconds p);
   item u64_codec (cp_nomination_expiration p);
   item u64_codec (cp_custody_period p);
   item u64_codec (cp_release_period p);
   item usize_codec (cp_max_num_of_validators p);
   item usize_codec (cp_min_num_of_validators p);
   item u64_codec (cp_delegation_threshold p);
   item u64_codec (cp_min_deposit p);
   item usize_codec (cp_max_candidate_metadata_size p)].

Definition CommonParams_items (p : CommonParams) : list rlp_item :=
  base_items p ++
  (if cp_size p =? DEFAULT_PARAMS_SIZE + NUMBER_OF_STAKE_PARAMS then stake_items p else []).

(** Field widths, and a size that says whether the staking parameters are there
    (they are zero when it says no). *)
Definition base_wf (p : CommonParams) : Prop :=
  wf usize_codec (cp_max_extra_data_size p) ∧
  wf usize_codec (cp_max_asset_scheme_metadata_size p) ∧
  wf usize_codec (cp_max_transfer_metadata_size p) ∧
  wf usize_codec (cp_max_text_content_size p) ∧
  wf network_id_codec (cp_network_id p) ∧
  wf u64_codec (cp_min_pay_transaction_cost p) ∧
  wf u64_codec (cp_min_set_regular_key_transaction_cost p) ∧
  wf u64_codec (cp_min_create_shard_transaction_cost p) ∧
  wf u64_codec (cp_min_set_shard_owners_transaction_cost p) ∧
  wf u64_codec (cp_min_set_shard_users_transaction_cost p) ∧
  wf u64_codec (cp_min_wrap_ccc_transaction_cost p) ∧
  wf u64_codec (cp_min_custom_transaction_cost p) ∧
  wf u64_codec (cp_min_store_transaction_cost p) ∧
  wf u64_codec (cp_min_remove_transaction_cost p) ∧
  wf u64_codec (cp_min_asset_mint_cost p) ∧
  wf u64_codec (cp_min_asset_transfer_cost p) ∧
  wf u64_codec (cp_min_asset_scheme_change_cost p) ∧
  wf u64_codec (cp_min_asset_supply_increase_cost p) ∧
  wf u64_codec (cp_min_asset_compose_cost p) ∧
  wf u64_codec (cp_min_asset_decompose_cost p) ∧
  wf u64_codec (cp_min_asset_unwrap_ccc_cost p) ∧
  wf usize_codec (cp_max_body_size p) ∧
  wf u64_codec (cp_snapshot_period p).
Definition stake_wf (p : CommonParams) : Prop :=
  wf u64_codec (cp_term_seconds p) ∧
  wf u64_codec (cp_nomination_expiration p) ∧
  wf u64_codec (cp_custody_period p) ∧
  wf u64_codec (cp_release_period p) ∧
  wf usize_codec (cp_max_num_of_validators p) ∧
  wf usize_codec (cp_min_num_of_validators p) ∧
  wf u64_codec (cp_delegation_threshold p) ∧
  wf u64_codec (cp_min_deposit p) ∧
  wf usize_codec (cp_max_candidate_metadata_size p).
Definition stake_zero (p : CommonParams) : Prop :=
  cp_term_seconds p = 0 ∧
  cp_nomination_expiration p = 0 ∧
  cp_custody_period p = 0 ∧
  cp_release_period p = 0 ∧
  cp_max_num_of_validators p = 0 ∧
  cp_min_num_of_validators p = 0 ∧
  cp_delegation_threshold p = 0 ∧
  cp_min_deposit p = 0 ∧
  cp_max_candidate_metadata_size p = 0.
Definition CommonParams_wf (p : CommonParams) : Prop :=
  base_wf p ∧
  ((cp_size p = DEFAULT_PARAMS_SIZE + NUMBER_OF_STAKE_PARAMS ∧ stake_wf p) ∨
   (cp_size p = DEFAULT_PARAMS_SIZE ∧ stake_zero p)).

Lemma base_appends p : Forall2 appends (base_calls p) (base_items p).
Proof. unfold base_calls, base_items. repeat constructor; apply app_appends. Qed.

Lemma stake_appends p : Forall2 appends (stake_calls p) (stake_items p).
Proof. unfold stake_calls, stake_items. repeat constructor; apply app_appends. Qed.

Lemma CommonParams_encodes p :
  CommonParams_wf p → encodes (CommonParams_append p) (List (CommonParams_items p)).
Proof.
  intros [_ Hs]. unfold CommonParams_append, CommonParams_items.
  assert (Hr : encodes (rlp_list (cp_size p) (base_calls p ++
     (if cp_size p =? DEFAULT_PARAMS_SIZE + NUMBER_OF_STAKE_PARAMS then stake_calls p else [])))
     (List (base_items p ++
     (if cp_size p =? DEFAULT_PARAMS_SIZE + NUMBER_OF_STAKE_PARAMS then stake_items p else [])))).
  { destruct Hs as [[-> _]|[-> _]]; simpl N.eqb; cbv iota; apply rlp_list_encodes.
    - apply Forall2_app; [apply base_appends|apply stake_appends].
    - done.
    - rewrite !app_nil_r. apply base_appends.
    - done. }
  intros s s' Hf Hn. rewrite <-(Hr s s' Hf Hn). by destruct Hs as [[-> _]|[-> _]].
Qed.

Lemma CommonParams_decodes p :
  CommonParams_wf p → fits (List (CommonParams_items p)) →
  CommonParams_decode (enc (List (CommonParams_items p))) = Ok p.
Proof.
  intros [Hb Hs] Hf. unfold base_wf in Hb. destruct_and? Hb.
  unfold CommonParams_items, base_items, stake_items, CommonParams_decode in *.
  destruct Hs as [[Hsz Hst]|[Hsz Hst]]; rewrite Hsz in *.
  - unfold stake_wf in Hst. destruct_and? Hst.
    change (DEFAULT_PARAMS_SIZE + NUMBER_OF_STAKE_PARAMS =?
            DEFAULT_PARAMS_SIZE + NUMBER_OF_STAKE_PARAMS) with true in *.
    cbn [Datatypes.app] in *. cbv zeta.
    eapply item_count_step; [eassumption|reflexivity|]. cbn [negb orb N.eqb Pos.eqb
      DEFAULT_PARAMS_SIZE NUMBER_OF_STAKE_PARAMS N.add Pos.add].
    repeat (eapply val_at_step; [eassumption|reflexivity|eassumption|]).
    change (_ <=? _) with true. cbv iota.
    repeat (eapply val_at_step; [eassumption|reflexivity|eassumption|]).
    destruct p. cbn in Hsz. by subst.
  - unfold stake_zero in Hst. destruct_and? Hst.
    change (DEFAULT_PARAMS_SIZE =? DEFAULT_PARAMS_SIZE + NUMBER_OF_STAKE_PARAMS) with false in *.
    cbn [Datatypes.app] in *. cbv zeta.
    eapply item_count_step; [eassumption|reflexivity|]. cbn [negb orb N.eqb Pos.eqb
      DEFAULT_PARAMS_SIZE NUMBER_OF_STAKE_PARAMS N.add Pos.add].
    repeat (eapply val_at_step; [eassumption|reflexivity|eassumption|]).
    change (_ <=? _) with false. cbv iota.
    destruct p. cbn in *. by subst.
Qed.

(** * Properties *)

(** Consensus parameters survive encoding and decoding, both with and without the
    staking parameters, and decoding arbitrary bytes never unwinds. *)
Theorem CommonParams_roundtrip (p : CommonParams)
  (Hwf : CommonParams_wf p) (Hfits : fits (List (CommonParams_items p))) :
  drain (CommonParams_append p) = Ok (enc (List (CommonParams_items p))) ∧
  CommonParams_decode (enc (List (CommonParams_items p))) = Ok p ∧
  ∀ bs, CommonParams_decode bs ≠ Panic.
Proof.
  split_and!.
  - apply drain_encodes; [by apply CommonParams_encodes|done].
  - by apply CommonParams_decodes.
  - intros bs. unfold CommonParams_decode. cbv zeta.
    apply bind_no_panic; [apply item_count_no_panic|]. intros size _. destruct (negb _); [done|].
    repeat (apply bind_no_panic; [apply val_at_no_panic, codec_no_panic|intros ? _]).
    destruct (_ <=? size); [|done].
    repeat (apply bind_no_panic; [apply val_at_no_panic, codec_no_panic|intros ? _]). done.
Qed.

(** The check accepts exactly the parameter sets without staking, or with all
    staking parameters set, no more required than allowed validators, a release
    after the custody, and candidate metadata shorter than a text. *)
Theorem CommonParams_verify_exact (p : CommonParams) :
  CommonParams_verify p = Ok tt ↔
  cp_term_seconds p = 0 ∨
  (cp_nomination_expiration p ≠ 0 ∧ cp_custody_period p ≠ 0 ∧ cp_release_period p ≠ 0 ∧
   cp_max_num_of_validators p ≠ 0 ∧ cp_min_num_of_validators p ≠ 0 ∧
   cp_delegation_threshold p ≠ 0 ∧ cp_min_deposit p ≠ 0 ∧
   cp_min_num_of_validators p ≤ cp_max_num_of_validators p ∧
   cp_custody_period p < cp_release_period p ∧
   cp_max_candidate_metadata_size p < cp_max_text_content_size p).
Proof.
  unfold CommonParams_verify. destruct (N.eqb_spec (cp_term_seconds p) 0) as [Hz|Hz]; simpl.
  { split; [by left|done]. }
  split.
  - intros Hv. right. inv_ok.
    repeat match goal with
    | Hb : negb (_ =? _) = true |- _ => apply negb_true_iff, N.eqb_neq in Hb
    | Hb : negb (_ <? _) = true |- _ => apply negb_true_iff, N.ltb_ge in Hb
    | Hb : negb (_ <=? _) = true |- _ => apply negb_true_iff, N.leb_gt in Hb
    end. lia.
  - intros [?|Hc]; [done|]. destruct_and? Hc.
    repeat rewrite (proj2 (N.eqb_neq _ 0)) by done.
    rewrite (proj2 (N.ltb_ge _ _)) by done. repeat rewrite (proj2 (N.leb_gt _ _)) by done. done.
Qed.

Definition sample_params : CommonParams := {|
  cp_size := DEFAULT_PARAMS_SIZE;
  cp_max_extra_data_size := 10;
  cp_max_asset_scheme_metadata_size := 10;
  cp_max_transfer_metadata_size := 10;
  cp_max_text_content_size := 512;
  cp_network_id := [116; 99];
  cp_min_pay_transaction_cost := 10;
  cp_min_set_regular_key_transaction_cost := 10;
  cp_min_create_shard_transaction_cost := 10;
  cp_min_set_shard_owners_transaction_cost := 10;
  cp_min_set_shard_users_transaction_cost := 10;
  cp_min_wrap_ccc_transaction_cost := 10;
  cp_min_custom_transaction_cost := 10;
  cp_min_store_transaction_cost := 10;
  cp_min_remove_transaction_cost := 10;
  cp_min_asset_mint_cost := 10;
  cp_min_asset_transfer_cost := 10;
  cp_min_asset_scheme_change_cost := 10;
  cp_min_asset_supply_increase_cost := 10;
  cp_min_asset_compose_cost := 10;
  cp_min_asset_decompose_cost := 10;
  cp_min_asset_unwrap_ccc_cost := 10;
  cp_max_body_size := 10;
  cp_snapshot_period := 10;
  cp_term_seconds := 0;
  cp_nomination_expiration := 0;
  cp_custody_period := 0;
  cp_release_period := 0;
  cp_max_num_of_validators := 0;
  cp_min_num_of_validators := 0;
  cp_delegation_threshold := 0;
  cp_min_deposit := 0;
  cp_max_candidate_metadata_size := 0 |}.

Lemma CommonParams_roundtrip_witness :
  CommonParams_decode (enc (List (CommonParams_items sample_params))) = Ok sample_params.
Proof.
  refine (proj1 (proj2 (CommonParams_roundtrip sample_params _ _))).
  - split; [|right; repeat split]. repeat split; repeat constructor; discriminate.
  - vm_compute. reflexivity.
Defined.
