(* ===== verification/TxVerify.v ===== *)
(** The stateless checks of a transaction: [Order::verify] and its companions
    ([types/src/transaction/order.rs]), [Action::verify] and its helpers
    ([types/src/transaction/action.rs]), and the checks of a signed transaction
    ([core/src/transaction.rs]). *)

From stdpp Require Import base gmap list numbers strings.
From S2P Require Import Prelude Types Crypto Rlp RlpImpls TxRlp TxHash Params.

Local Open Scope N_scope.

(** * [types/src/errors/syntax_error.rs] *)
Module SyntaxError.
Inductive t :=
| DuplicatedPreviousOutput (tracker : H256) (index : N)
| EmptyInput
| EmptyOutput
| EmptyShardOwners (shard_id : ShardId)
| InconsistentTransactionInOut
| InconsistentTransactionInOutWithOrders
| InsufficientFee (minimal got : N)
| InvalidAssetType (asset_type : H160)
| InvalidComposedOutputAmount (got : N)
| InvalidCustomAction (text : string)
| InvalidDecomposedInputAmount (asset_type : H160) (shard_id : ShardId) (got : N)
| InvalidNetworkId (id : NetworkId)
| InvalidOrderAssetQuantities (from to fee : N)
| InvalidOrderAssetTypes
| InvalidAssetTypesWithOrder (asset_type : string) (idx : N)
| InvalidAssetOwnerWithOrder (asset_type : string) (idx : N)
| InvalidOrderInOutIndices
| InvalidOrderLockScriptHash (hash : H160)
| InvalidOrderParameters (parameters : list bytes)
| InvalidOriginOutputs (order_hash : H256)
| InvalidApproval (text : Types.String)
| MetadataTooBig
| OrderRecipientsAreSame
| TextContentTooBig
| TooManyOutputs (n : N)
| TransactionIsTooBig
| ZeroQuantity
| CannotChangeWcccAssetScheme
| DisabledTransaction
| InvalidSignerOfWrapCCC
| InvalidSpentQuantity (asset_quantity_from spent_quantity : N).
End SyntaxError.
Abbreviation verifyR := (result SyntaxError.t).

(** * Orders *)
Section Orders.
Context `{Crypto}.

(** [Order::verify]. *)
Definition Order_verify (self : Order) : verifyR () :=
  _ ← ensure (negb (bool_decide (ord_asset_type_from self = ord_asset_type_to self) &&
                    (ord_shard_id_from self =? ord_shard_id_to self)))
        SyntaxError.InvalidOrderAssetTypes;
  let bad_quantities := SyntaxError.InvalidOrderAssetQuantities (ord_asset_quantity_from self)
        (ord_asset_quantity_to self) (ord_asset_quantity_fee self) in
  _ ← ensure (negb (xorb (ord_asset_quantity_from self =? 0) (ord_asset_quantity_to self =? 0)))
        bad_quantities;
  _ ← ensure (negb
        ((ord_asset_quantity_from self =? 0) && negb (ord_asset_quantity_fee self =? 0) ||
         negb (ord_asset_quantity_from self =? 0) &&
         negb (ord_asset_quantity_fee self mod ord_asset_quantity_from self =? 0)))
        bad_quantities;
  _ ← ensure (negb
        (negb (ord_asset_quantity_fee self =? 0) &&
         bool_decide (ord_lock_script_hash_fee self = ord_lock_script_hash_from self) &&
         bool_decide (ord_parameters_fee self = ord_parameters_from self)))
        SyntaxError.OrderRecipientsAreSame;
  _ ← ensure (negb (bool_decide (ord_origin_outputs self = [])))
        (SyntaxError.InvalidOriginOutputs (Order_hash self));
  ensure (forallb (λ origin_output, negb
        ((negb (bool_decide (aop_asset_type origin_output = ord_asset_type_from self)) ||
          negb (aop_shard_id origin_output =? ord_shard_id_from self)) &&
         (negb (bool_decide (aop_asset_type origin_output = ord_asset_type_fee self)) ||
          negb (aop_shard_id origin_output =? ord_shard_id_fee self))))
          (ord_origin_outputs self))
        (SyntaxError.InvalidOriginOutputs (Order_hash self)).

(** [Order::check_transfer_output]. *)
Definition check_transfer_output (self : Order) (output : AssetTransferOutput) : verifyR bool :=
  if negb (ord_asset_quantity_fee self =? 0) &&
     bool_decide (ord_asset_type_fee self = ato_asset_type output) &&
     (ord_shard_id_fee self =? ato_shard_id output) &&
     bool_decide (ord_lock_script_hash_fee self = ato_lock_script_hash output) &&
     bool_decide (ord_parameters_fee self = ato_parameters output)
  then Ok false
  else if negb (bool_decide (ord_lock_script_hash_from self = ato_lock_script_hash output)) then
    Err (SyntaxError.InvalidOrderLockScriptHash (ord_lock_script_hash_from self))
  else if negb (bool_decide (ord_parameters_from self = ato_parameters output)) then
    Err (SyntaxError.InvalidOrderParameters (ord_parameters_from self))
  else Ok true.

(** [u128::from(a) * u128::from(b) / u128::from(c)) as u64]; dividing by zero unwinds. *)
Definition mul_div {E : Type} (a b c : N) : result E N :=
  if c =? 0 then Panic else Ok ((a * b / c) mod u64_size).

(** [Order::consume]. *)
Definition Order_consume {E : Type} (self : Order) (quantity : N) : result E Order :=
  to ← mul_div quantity (ord_asset_quantity_to self) (ord_asset_quantity_from self);
  fee ← mul_div quantity (ord_asset_quantity_fee self) (ord_asset_quantity_from self);
  Ok {| ord_asset_type_from := ord_asset_type_from self;
        ord_asset_type_to := ord_asset_type_to self;
        ord_asset_type_fee := ord_asset_type_fee self;
        ord_shard_id_from := ord_shard_id_from self;
        ord_shard_id_to := ord_shard_id_to self;
        ord_shard_id_fee := ord_shard_id_fee self;
        ord_asset_quantity_from := u64_sub (ord_asset_quantity_from self) quantity;
        ord_asset_quantity_to := u64_sub (ord_asset_quantity_to self) to;
        ord_asset_quantity_fee := u64_sub (ord_asset_quantity_fee self) fee;
        ord_origin_outputs := ord_origin_outputs self;
        ord_expiration := ord_expiration self;
        ord_lock_script_hash_from := ord_lock_script_hash_from self;
        ord_parameters_from := ord_parameters_from self;
        ord_lock_script_hash_fee := ord_lock_script_hash_fee self;
        ord_parameters_fee := ord_parameters_fee self |}.
End Orders.

(** * Helpers of [Action::verify] *)

Definition AssetKey : Type := H160 * ShardId.
Definition input_key (input : AssetTransferInput) : AssetKey :=
  (aop_asset_type (ati_prev_out input), aop_shard_id (ati_prev_out input)).
Definition output_key (output : AssetTransferOutput) : AssetKey :=
  (ato_asset_type output, ato_shard_id output).
Definition input_quantity (input : AssetTransferInput) : N := aop_quantity (ati_prev_out input).

(** [*sum.entry(key).or_insert_with(Default::default) += quantity] *)
Definition add_input (sum : gmap AssetKey N) (input : AssetTransferInput) : gmap AssetKey N :=
  <[input_key input := (default 0 (sum !! input_key input) + input_quantity input) mod u128_size]>
    sum.

(** The loop over the outputs; [None] is its [return false]. *)
Fixpoint sub_outputs (sum : gmap AssetKey N) (outputs : list AssetTransferOutput)
  : option (gmap AssetKey N) :=
  match outputs with
  | [] => Some sum
  | output :: outputs =>
      match sum !! output_key output with
      | Some current_quantity =>
          if current_quantity <? ato_quantity output then None
          else sub_outputs (<[output_key output := current_quantity - ato_quantity output]> sum)
                 outputs
      | None => None
      end
  end.

Definition is_input_and_output_consistent (inputs : list AssetTransferInput)
  (outputs : list AssetTransferOutput) : bool :=
  match sub_outputs (foldl add_input ∅ inputs) outputs with
  | Some sum => forallb (λ '(_, sum), sum =? 0) (map_to_list sum)
  | None => false
  end.

Fixpoint check_duplication (prev_out_set : gset (H256 * N)) (inputs : list AssetTransferInput)
  : verifyR () :=
  match inputs with
  | [] => Ok tt
  | input :: inputs =>
      let prev_out := (aop_tracker (ati_prev_out input), aop_index (ati_prev_out input)) in
      if bool_decide (prev_out ∈ prev_out_set) then
        Err (SyntaxError.DuplicatedPreviousOutput (aop_tracker (ati_prev_out input))
               (aop_index (ati_prev_out input)))
      else check_duplication ({[prev_out]} ∪ prev_out_set) inputs
  end.
Definition check_duplication_in_prev_out (burns inputs : list AssetTransferInput) : verifyR () :=
  check_duplication ∅ (inputs ++ burns).

(** One loop of [verify_order_indices] over a vector of flags. *)
Fixpoint mark_indices (n : N) (check : list bool) (indices : list N) : verifyR (list bool) :=
  match indices with
  | [] => Ok check
  | idx :: indices =>
      if n <=? idx then Err SyntaxError.InvalidOrderInOutIndices
      else
        marked ← expect (check !! N.to_nat idx);
        if marked : bool then Err SyntaxError.InvalidOrderInOutIndices
        else mark_indices n (<[N.to_nat idx := true]> check) indices
  end.

Definition order_input_indices (order_info : OrderOnTransfer) : list N :=
  oot_input_from_indices order_info ++ oot_input_fee_indices order_info.
Definition order_output_indices (order_info : OrderOnTransfer) : list N :=
  oot_output_from_indices order_info ++ oot_output_to_indices order_info ++
  oot_output_owned_fee_indices order_info ++ oot_output_transferred_fee_indices order_info.

Definition verify_order_indices (orders : list OrderOnTransfer) (input_len output_len : N)
  : verifyR () :=
  _ ← fold_res (λ '(input_check, output_check) order_info,
        input_check ← mark_indices input_len input_check (order_input_indices order_info);
        output_check ← mark_indices output_len output_check (order_output_indices order_info);
        Ok (input_check, output_check))
      (replicate (N.to_nat input_len) false, replicate (N.to_nat output_len) false) orders;
  Ok tt.

Section Verify.
Context `{Crypto}.

(** [for idx in indices { let prev_out = &inputs[*idx].prev_out; ... }] *)
Fixpoint sum_inputs (inputs : list AssetTransferInput) (key : AssetKey) (text : string)
  (acc : N) (indices : list N) : verifyR N :=
  match indices with
  | [] => Ok acc
  | idx :: indices =>
      input ← expect (inputs !! N.to_nat idx);
      if bool_decide (input_key input = key) then
        sum_inputs inputs key text (u64_add acc (input_quantity input)) indices
      else Err (SyntaxError.InvalidAssetTypesWithOrder text idx)
  end.

(** [for idx in indices { let output = &outputs[*idx]; ... }]: [by_maker] says who
    has to own the outputs. *)
Fixpoint sum_outputs (order : Order) (outputs : list AssetTransferOutput) (by_maker : bool)
  (key : AssetKey) (text : string) (acc : N) (indices : list N) : verifyR N :=
  match indices with
  | [] => Ok acc
  | idx :: indices =>
      output ← expect (outputs !! N.to_nat idx);
      owned_by_maker ← check_transfer_output order output;
      if negb (eqb owned_by_maker by_maker) then
        Err (SyntaxError.InvalidAssetOwnerWithOrder text idx)
      else if bool_decide (output_key output = key) then
        sum_outputs order outputs by_maker key text (u64_add acc (ato_quantity output)) indices
      else Err (SyntaxError.InvalidAssetTypesWithOrder text idx)
  end.

Definition is_ratio_equal (from fee spent fee_given : N) : bool := from * fee_given =? fee * spent.
Definition is_ratio_greater_or_equal (from to spent output : N) : bool :=
  to * spent <=? from * output.

(** The body of the loop of [verify_input_and_output_consistent_with_order]. *)
Definition verify_order (inputs : list AssetTransferInput) (outputs : list AssetTransferOutput)
  (order_tx : OrderOnTransfer) : verifyR () :=
  let order := oot_order order_tx in
  let from := (ord_asset_type_from order, ord_shard_id_from order) in
  let to := (ord_asset_type_to order, ord_shard_id_to order) in
  let fee := (ord_asset_type_fee order, ord_shard_id_fee order) in
  _ ← ensure (negb (ord_asset_quantity_from order <? oot_spent_quantity order_tx))
        (SyntaxError.InvalidSpentQuantity (ord_asset_quantity_from order)
           (oot_spent_quantity order_tx));
  input_quantity_from ← sum_inputs inputs from "INPUT FROM" 0 (oot_input_from_indices order_tx);
  input_quantity_fee ← sum_inputs inputs fee "INPUT FEE" 0 (oot_input_fee_indices order_tx);
  output_quantity_from ←
    sum_outputs order outputs true from "OUTPUT FROM" 0 (oot_output_from_indices order_tx);
  output_quantity_to ←
    sum_outputs order outputs true to "OUTPUT TO" 0 (oot_output_to_indices order_tx);
  output_quantity_fee_remaining ←
    sum_outputs order outputs true fee "OUTPUT OWNED FEE" 0
      (oot_output_owned_fee_indices order_tx);
  output_quantity_fee_given ←
    sum_outputs order outputs false fee "OUTPUT TRANSFERRED FEE" 0
      (oot_output_transferred_fee_indices order_tx);
  _ ← ensure (negb ((input_quantity_from <=? output_quantity_from) ||
                    negb (u64_sub input_quantity_from output_quantity_from =?
                          oot_spent_quantity order_tx)))
        SyntaxError.InconsistentTransactionInOutWithOrders;
  _ ← ensure (is_ratio_greater_or_equal (ord_asset_quantity_from order)
                (ord_asset_quantity_to order) (oot_spent_quantity order_tx) output_quantity_to)
        SyntaxError.InconsistentTransactionInOutWithOrders;
  ensure (negb ((input_quantity_fee <? output_quantity_fee_remaining) ||
                negb (u64_sub input_quantity_fee output_quantity_fee_remaining =?
                      output_quantity_fee_given) ||
                negb (is_ratio_equal (ord_asset_quantity_from order)
                        (ord_asset_quantity_fee order) (oot_spent_quantity order_tx)
                        output_quantity_fee_given)))
    SyntaxError.InconsistentTransactionInOutWithOrders.

(** [for x in l { f(x)?; }] without state. *)
Definition verify_all {A : Type} (f : A → verifyR ()) (l : list A) : verifyR () :=
  fold_res (λ _ x, f x) tt l.

Definition verify_input_and_output_consistent_with_order (orders : list OrderOnTransfer)
  (inputs : list AssetTransferInput) (outputs : list AssetTransferOutput) : verifyR () :=
  verify_all (verify_order inputs outputs) orders.

Definition zero_quantity (input : AssetTransferInput) : bool := input_quantity input =? 0.

(** [Action::verify]. *)
Definition Action_verify (self : Action.t) : verifyR () :=
  match self with
  | Action.MintAsset _ _ _ _ _ _ output _ =>
      ensure (negb (amo_supply output =? 0)) SyntaxError.ZeroQuantity
  | Action.TransferAsset _ burns inputs outputs orders _ _ _ =>
      _ ← ensure (negb (512 <? len outputs)) (SyntaxError.TooManyOutputs (len outputs));
      _ ← ensure (is_input_and_output_consistent inputs outputs)
            SyntaxError.InconsistentTransactionInOut;
      _ ← ensure (negb (existsb zero_quantity burns)) SyntaxError.ZeroQuantity;
      _ ← ensure (negb (existsb zero_quantity inputs)) SyntaxError.ZeroQuantity;
      _ ← check_duplication_in_prev_out burns inputs;
      _ ← ensure (negb (existsb (λ output, ato_quantity output =? 0) outputs))
            SyntaxError.ZeroQuantity;
      _ ← verify_all (λ order, Order_verify (oot_order order)) orders;
      _ ← verify_order_indices orders (len inputs) (len outputs);
      verify_input_and_output_consistent_with_order orders inputs outputs
  | Action.ChangeAssetScheme _ _ asset_type _ _ _ _ _ _ =>
      ensure (negb (is_zero asset_type)) SyntaxError.CannotChangeWcccAssetScheme
  | Action.IncreaseAssetSupply _ _ asset_type _ output _ =>
      _ ← ensure (negb (amo_supply output =? 0)) SyntaxError.ZeroQuantity;
      ensure (negb (is_zero asset_type)) SyntaxError.CannotChangeWcccAssetScheme
  | Action.ComposeAsset _ _ _ _ _ _ inputs output _ =>
      let disable_compose_asset := true in
      _ ← ensure (negb disable_compose_asset) SyntaxError.DisabledTransaction;
      _ ← ensure (negb (bool_decide (inputs = []))) SyntaxError.EmptyInput;
      _ ← ensure (negb (existsb zero_quantity inputs)) SyntaxError.ZeroQuantity;
      _ ← check_duplication_in_prev_out [] inputs;
      ensure (amo_supply output =? 1)
        (SyntaxError.InvalidComposedOutputAmount (amo_supply output))
  | Action.DecomposeAsset _ input outputs _ =>
      let disable_decompose_asset := true in
      _ ← ensure (negb disable_decompose_asset) SyntaxError.DisabledTransaction;
      _ ← ensure (input_quantity input =? 1)
            (SyntaxError.InvalidDecomposedInputAmount (aop_asset_type (ati_prev_out input))
               (aop_shard_id (ati_prev_out input)) (input_quantity input));
      _ ← ensure (negb (bool_decide (outputs = []))) SyntaxError.EmptyOutput;
      ensure (negb (existsb (λ output, ato_quantity output =? 0) outputs))
        SyntaxError.ZeroQuantity
  | Action.UnwrapCCC _ burn _ =>
      _ ← ensure (negb (zero_quantity burn)) SyntaxError.ZeroQuantity;
      ensure (is_zero (aop_asset_type (ati_prev_out burn)))
        (SyntaxError.InvalidAssetType (aop_asset_type (ati_prev_out burn)))
  | Action.WrapCCC _ _ _ quantity _ => ensure (negb (quantity =? 0)) SyntaxError.ZeroQuantity
  | _ => Ok tt
  end.

(** [Action::verify_with_params]. *)
Definition Action_verify_with_params (self : Action.t) (common_params : CommonParams)
  (is_order_disabled : bool) : verifyR () :=
  _ ← match Action.network_id self with
      | Some network_id =>
          ensure (bool_decide (network_id = cp_network_id common_params))
            (SyntaxError.InvalidNetworkId network_id)
      | None => Ok tt
      end;
  match self with
  | Action.MintAsset _ _ metadata _ _ _ _ _
  | Action.ChangeAssetScheme _ _ _ _ metadata _ _ _ _
  | Action.ComposeAsset _ _ metadata _ _ _ _ _ _ =>
      ensure (len metadata <=? cp_max_asset_scheme_metadata_size common_params)
        SyntaxError.MetadataTooBig
  | Action.TransferAsset _ _ _ _ orders metadata _ _ =>
      _ ← ensure (len metadata <=? cp_max_transfer_metadata_size common_params)
            SyntaxError.MetadataTooBig;
      ensure (negb (is_order_disabled && negb (bool_decide (orders = []))))
        SyntaxError.DisabledTransaction
  | Action.Store content _ _ =>
      ensure (len content <=? cp_max_text_content_size common_params)
        SyntaxError.TextContentTooBig
  | _ => Ok tt
  end.

(** [Action::verify_with_signer_address]. *)
Definition verify_with_signer_address (self : Action.t) (signer : Address) : verifyR () :=
  _ ← match self with
      | Action.WrapCCC _ _ _ _ payer =>
          ensure (bool_decide (payer = signer)) SyntaxError.InvalidSignerOfWrapCCC
      | _ => Ok tt
      end;
  match Action.approvals self with
  | Some approvals =>
      tracker ← expect (Action_tracker self);
      verify_all (λ approval,
        _ ← map_err SyntaxError.InvalidApproval (recover_ecdsa approval tracker);
        Ok tt) approvals
  | None => Ok tt
  end.

(** [UnverifiedTransaction::verify_with_params] and [SignedTransaction::try_new]. *)
Definition UnverifiedTransaction_verify_with_params (self : UnverifiedTransaction)
  (params : CommonParams) (is_order_disabled : bool) : verifyR () :=
  let tx := utx_unsigned self in
  _ ← ensure (bool_decide (tx_network_id tx = cp_network_id params))
        (SyntaxError.InvalidNetworkId (tx_network_id tx));
  let byte_size := len (rlp_bytes (rlp_append_sealed_transaction tx (utx_sig self))) in
  _ ← ensure (byte_size <? cp_max_body_size params) SyntaxError.TransactionIsTooBig;
  Action_verify_with_params (tx_action tx) params is_order_disabled.

Definition SignedTransaction_try_new (tx : UnverifiedTransaction)
  : result (Types.String + SyntaxError.t) SignedTransaction :=
  signer_public ← map_err inl (recover_public tx);
  let signer := public_to_address signer_public in
  _ ← map_err inr (verify_with_signer_address (tx_action (utx_unsigned tx)) signer);
  Ok {| stx_tx := tx; stx_signer_public := signer_public |}.
End Verify.

(** * Lemmas *)

(** ** Sums per asset *)

Definition input_sum (inputs : list AssetTransferInput) (key : AssetKey) : N :=
  sum_with (λ i, if bool_decide (input_key i = key) then input_quantity i else 0) inputs.
Definition output_sum (outputs : list AssetTransferOutput) (key : AssetKey) : N :=
  sum_with (λ o, if bool_decide (output_key o = key) then ato_quantity o else 0) outputs.

Lemma input_sum_le inputs key : input_sum inputs key ≤ sum_with input_quantity inputs.
Proof. induction inputs as [|i l IH]; simpl; [done|]. case_bool_decide; unfold input_sum in *; lia. Qed.

Lemma input_sum_app l k key : input_sum (l ++ k) key = input_sum l key + input_sum k key.
Proof. apply sum_with_app. Qed.

(** The map after adding the inputs. *)
Definition sums_of (inputs : list AssetTransferInput) (sum : gmap AssetKey N) : Prop :=
  ∀ key, (sum !! key = Some (input_sum inputs key) ∧ ∃ i, i ∈ inputs ∧ input_key i = key) ∨
         (sum !! key = None ∧ ∀ i, i ∈ inputs → input_key i ≠ key).

Lemma input_sum_zero l key : (∀ i, i ∈ l → input_key i ≠ key) → input_sum l key = 0.
Proof.
  intros Hk. unfold input_sum. rewrite (sum_with_ext _ (λ _, 0)).
  - clear. induction l; simpl; lia.
  - intros i Hi. rewrite bool_decide_false; [done|by apply Hk].
Qed.

Lemma add_input_sums inputs i sum :
  sum_with input_quantity (inputs ++ [i]) < u128_size →
  sums_of inputs sum → sums_of (inputs ++ [i]) (add_input sum i).
Proof.
  intros Hlt Hs key. unfold add_input. destruct (decide (input_key i = key)) as [<-|Hne].
  - left. rewrite lookup_insert_eq. split.
    + f_equal. rewrite input_sum_app. unfold input_sum at 2. simpl.
      rewrite bool_decide_true by done. rewrite N.add_0_r.
      assert (default 0 (sum !! input_key i) = input_sum inputs (input_key i)) as ->.
      { destruct (Hs (input_key i)) as [[-> _]|[-> Hno]]; simpl; [done|].
        by rewrite input_sum_zero. }
      apply N.mod_small. rewrite sum_with_app in Hlt. simpl in Hlt.
      pose proof (input_sum_le inputs (input_key i)). lia.
    + exists i. split; [|done]. apply elem_of_app. right. by left.
  - rewrite lookup_insert_ne by done. rewrite input_sum_app. unfold input_sum at 2. simpl.
    rewrite bool_decide_false by done. rewrite !N.add_0_r.
    destruct (Hs key) as [[-> (j & Hj & Hk)]|[-> Hno]].
    + left. split; [done|]. exists j. rewrite elem_of_app. auto.
    + right. split; [done|]. intros j [Hj| ->%list_elem_of_singleton]%elem_of_app; auto.
Qed.

Lemma add_inputs_sums inputs :
  sum_with input_quantity inputs < u128_size → sums_of inputs (foldl add_input ∅ inputs).
Proof.
  induction inputs as [|i inputs IH] using rev_ind; intros Hlt.
  - intros key. right. split; [done|]. intros i Hi. by apply elem_of_nil in Hi.
  - rewrite foldl_app. apply add_input_sums; [done|]. apply IH.
    rewrite sum_with_app in Hlt. lia.
Qed.

Lemma output_sum_cons o outputs key :
  output_sum (o :: outputs) key =
  (if bool_decide (output_key o = key) then ato_quantity o else 0) + output_sum outputs key.
Proof. done. Qed.

(** [sum] has an entry of at least the needed size for every output. *)
Definition covers (sum : gmap AssetKey N) (outputs : list AssetTransferOutput) : Prop :=
  (∀ o, o ∈ outputs → is_Some (sum !! output_key o)) ∧
  (∀ key q, sum !! key = Some q → output_sum outputs key ≤ q).

(** What is left of [sum] after the outputs. *)
Definition left_of (sum : gmap AssetKey N) (outputs : list AssetTransferOutput) : gmap AssetKey N :=
  map_imap (λ key q, Some (q - output_sum outputs key)) sum.

Lemma left_of_nil sum : left_of sum [] = sum.
Proof.
  apply map_eq. intros key. unfold left_of. rewrite map_lookup_imap.
  destruct (sum !! key); simpl; [|done]. f_equal. unfold output_sum. simpl. lia.
Qed.

Lemma left_of_cons sum o outputs cur :
  sum !! output_key o = Some cur →
  left_of (<[output_key o := cur - ato_quantity o]> sum) outputs = left_of sum (o :: outputs).
Proof.
  intros Hcur. apply map_eq. intros key. unfold left_of.
  rewrite !map_lookup_imap, output_sum_cons. destruct (decide (output_key o = key)) as [<-|].
  - rewrite lookup_insert_eq, Hcur, bool_decide_true by done. simpl. f_equal. lia.
  - rewrite lookup_insert_ne, bool_decide_false by done. done.
Qed.

Lemma covers_cons sum o outputs cur :
  sum !! output_key o = Some cur →
  covers sum (o :: outputs) ↔
  ato_quantity o ≤ cur ∧ covers (<[output_key o := cur - ato_quantity o]> sum) outputs.
Proof.
  intros Hcur. unfold covers. split.
  - intros [Hall Hle]. pose proof (Hle _ _ Hcur) as Ho.
    rewrite output_sum_cons, bool_decide_true in Ho by done. split_and!; [lia| |].
    + intros o' Ho'. destruct (decide (output_key o = output_key o')) as [<-|].
      * rewrite lookup_insert_eq. by eexists.
      * rewrite lookup_insert_ne by done. apply Hall. by right.
    + intros key q Hq. destruct (decide (output_key o = key)) as [<-|].
      * rewrite lookup_insert_eq in Hq. simplify_eq. lia.
      * rewrite lookup_insert_ne in Hq by done. specialize (Hle key q Hq).
        rewrite output_sum_cons, bool_decide_false in Hle by done. lia.
  - intros (Hq & Hall & Hle). split.
    + intros o' [->|Ho']%elem_of_cons; [by eexists|]. specialize (Hall o' Ho').
      destruct (decide (output_key o = output_key o')) as [<-|]; [by eexists|].
      by rewrite lookup_insert_ne in Hall.
    + intros key q Hk. rewrite output_sum_cons. destruct (decide (output_key o = key)) as [<-|].
      * rewrite bool_decide_true by done. specialize (Hle _ _ (lookup_insert_eq _ _ _)).
        simplify_eq. lia.
      * rewrite bool_decide_false by done. specialize (Hle key q).
        rewrite lookup_insert_ne in Hle by done. specialize (Hle Hk). lia.
Qed.

Lemma sub_outputs_Some sum outputs sum' :
  sub_outputs sum outputs = Some sum' ↔ covers sum outputs ∧ sum' = left_of sum outputs.
Proof.
  revert sum. induction outputs as [|o outputs IH]; intros sum; cbn [sub_outputs].
  - rewrite left_of_nil. split; [|by intros [_ ->]]. intros [=<-]. split; [|done]. split.
    + by intros ? ?%elem_of_nil.
    + intros. unfold output_sum. simpl. lia.
  - destruct (sum !! output_key o) as [cur|] eqn:Hcur.
    + rewrite <-(left_of_cons _ _ _ _ Hcur), (covers_cons _ _ _ _ Hcur).
      destruct (N.ltb_spec cur (ato_quantity o)); [|rewrite IH; naive_solver].
      split; [done|]. intros [[? _] _]. lia.
    + split; [done|]. intros [[Hall _] _]. destruct (Hall o) as [? ?]; [by left|]. congruence.
Qed.

Lemma all_zero (m : gmap AssetKey N) :
  forallb (λ '(_, sum), sum =? 0) (map_to_list m) = true ↔ ∀ key q, m !! key = Some q → q = 0.
Proof.
  rewrite forallb_forall. split.
  - intros Hall key q Hq. apply N.eqb_eq. apply (Hall (key, q)).
    apply list_elem_of_In. by apply elem_of_map_to_list.
  - intros Hall [key q] Hin. apply N.eqb_eq. apply (Hall key).
    apply elem_of_map_to_list. by apply list_elem_of_In.
Qed.

(** ** Loops *)

Lemma verify_all_Ok {A} (f : A → verifyR ()) l :
  verify_all f l = Ok tt ↔ Forall (λ x, f x = Ok tt) l.
Proof.
  unfold verify_all. induction l as [|x l IH]; simpl; [done|]. rewrite Forall_cons. split.
  - intros Hf. inv_ok. destruct x0. naive_solver.
  - intros [-> Hl]. by apply IH.
Qed.

Lemma verify_all_no_panic {A} (f : A → verifyR ()) l :
  (∀ x, x ∈ l → f x ≠ Panic) → verify_all f l ≠ Panic.
Proof.
  unfold verify_all. induction l as [|x l IH]; intros Hf; simpl; [done|].
  apply bind_no_panic; [apply Hf; by left|]. intros [] _. apply IH. intros. apply Hf. by right.
Qed.

Definition prev_out_id (input : AssetTransferInput) : H256 * N :=
  (aop_tracker (ati_prev_out input), aop_index (ati_prev_out input)).

Lemma check_duplication_Ok set inputs :
  check_duplication set inputs = Ok tt ↔
  NoDup (prev_out_id <$> inputs) ∧ ∀ i, i ∈ inputs → prev_out_id i ∉ set.
Proof.
  revert set. induction inputs as [|i inputs IH]; intros set; cbn [check_duplication].
  - split; [|done]. intros _. split; [constructor|]. by intros ? ?%elem_of_nil.
  - rewrite fmap_cons, NoDup_cons. fold (prev_out_id i). case_bool_decide as Hin.
    + split; [done|]. intros [_ Hno]. by destruct (Hno i ltac:(by left)).
    + rewrite IH. split.
      * intros [Hnd Hno]. split_and!; [|done|].
        -- intros (j & Hij & Hj)%list_elem_of_fmap. apply (Hno j Hj).
           apply elem_of_union_l, elem_of_singleton. by rewrite <-Hij.
        -- intros j [->|Hj]%elem_of_cons; [done|]. specialize (Hno j Hj).
           by apply not_elem_of_union in Hno as [_ ?].
      * intros [[Hni Hnd] Hno]. split; [done|]. intros j Hj.
        apply not_elem_of_union. split; [|apply Hno; by right].
        intros Heq%elem_of_singleton. apply Hni. rewrite <-Heq.
        by apply list_elem_of_fmap_2.
Qed.

Lemma mark_indices_app n check a b :
  mark_indices n check (a ++ b) = (check' ← mark_indices n check a; mark_indices n check' b).
Proof.
  revert check. induction a as [|i a IH]; intros check; simpl; [done|].
  destruct (n <=? i); [done|]. destruct (check !! N.to_nat i) as [[|]|]; simpl; [done|apply IH|done].
Qed.

Lemma mark_indices_Ok n check indices :
  len check = n →
  (∃ check', mark_indices n check indices = Ok check') ↔
  NoDup indices ∧ Forall (λ i, i < n ∧ check !! N.to_nat i = Some false) indices.
Proof.
  revert check. induction indices as [|i indices IH]; intros check Hl; cbn [mark_indices].
  - split; [|by eexists]. intros _. split; constructor.
  - rewrite NoDup_cons, Forall_cons. destruct (N.leb_spec n i) as [Hle|Hlt].
    { split; [by intros [? ?]|]. lia. }
    destruct (lookup_lt_is_Some_2 check (N.to_nat i)) as [b Hb]; [unfold len in Hl; lia|].
    rewrite Hb. cbn [expect]. rewrite Ok_bind. destruct b; [split; [by intros [? ?]|naive_solver]|].
    rewrite IH by (unfold len in *; by rewrite length_insert).
    rewrite !Forall_forall. split.
    + intros [Hnd Hall]. split_and!; try done.
      * intros Hi. destruct (Hall i Hi) as [_ Hi']. rewrite list_lookup_insert_eq in Hi'; [done|].
        by eapply lookup_lt_Some.
      * intros j Hj. destruct (Hall j Hj) as [Hjn Hj'].
        destruct (decide (N.to_nat i = N.to_nat j)) as [Heq|]; [|by rewrite list_lookup_insert_ne in Hj'].
        rewrite Heq, list_lookup_insert_eq in Hj'; [done|]. rewrite <-Heq. by eapply lookup_lt_Some.
    + intros [[Hni Hnd] [_ Hall]]. split; [done|]. intros j Hj.
      destruct (Hall j Hj) as [Hjn Hj']. split; [done|].
      rewrite list_lookup_insert_ne; [done|]. intros Heq. apply Hni.
      by replace i with j by lia.
Qed.

Lemma mark_indices_no_panic n check indices : len check = n → mark_indices n check indices ≠ Panic.
Proof.
  revert check. induction indices as [|i indices IH]; intros check Hl; cbn [mark_indices]; [done|].
  destruct (N.leb_spec n i); [done|].
  destruct (lookup_lt_is_Some_2 check (N.to_nat i)) as [b ->]; [unfold len in Hl; lia|].
  cbn [expect]. rewrite Ok_bind. destruct b; [done|]. apply IH. unfold len in *. by rewrite length_insert.
Qed.

Lemma mark_indices_len n check indices check' :
  mark_indices n check indices = Ok check' → len check' = len check.
Proof.
  revert check. induction indices as [|i indices IH]; intros check Hm; cbn [mark_indices] in Hm.
  - by inv_ok.
  - destruct (n <=? i); [done|]. inv_ok. destruct x; [done|]. apply IH in H0 as ->.
    unfold len. by rewrite length_insert.
Qed.

Definition all_input_indices (orders : list OrderOnTransfer) : list N :=
  concat (order_input_indices <$> orders).
Definition all_output_indices (orders : list OrderOnTransfer) : list N :=
  concat (order_output_indices <$> orders).

(** The loop over the orders marks all their inputs and all their outputs. *)
Lemma verify_order_indices_fold il ol orders ic oc :
  (∃ r, fold_res (λ '(input_check, output_check) order_info,
        input_check ← mark_indices il input_check (order_input_indices order_info);
        output_check ← mark_indices ol output_check (order_output_indices order_info);
        Ok (input_check, output_check)) (ic, oc) orders = Ok r) ↔
  (∃ ic', mark_indices il ic (all_input_indices orders) = Ok ic') ∧
  (∃ oc', mark_indices ol oc (all_output_indices orders) = Ok oc').
Proof.
  revert ic oc. induction orders as [|o orders IH]; intros ic oc; cbn [fold_res].
  - split; [|by eexists]. intros _. split; by eexists.
  - unfold all_input_indices, all_output_indices in *. rewrite !fmap_cons. cbn [concat].
    rewrite !mark_indices_app.
    destruct (mark_indices il ic (order_input_indices o)) as [ic1| |] eqn:Hi;
      [|split; [by intros [? ?]|by intros [[? ?] _]]..].
    destruct (mark_indices ol oc (order_output_indices o)) as [oc1| |] eqn:Ho;
      [|split; [by intros [? ?]|by intros [_ [? ?]]]..].
    rewrite !Ok_bind. apply IH.
Qed.

(** ** Orders *)

Definition input_at (inputs : list AssetTransferInput) (idx : N) : N :=
  from_option input_quantity 0 (inputs !! N.to_nat idx).
Definition output_at (outputs : list AssetTransferOutput) (idx : N) : N :=
  from_option ato_quantity 0 (outputs !! N.to_nat idx).

Lemma u64_add_mod a b c : (u64_add a b + c) mod u64_size = (a + b + c) mod u64_size.
Proof. unfold u64_add. by rewrite N.Div0.add_mod_idemp_l. Qed.

Lemma sum_inputs_Ok inputs key text acc indices v :
  sum_inputs inputs key text acc indices = Ok v → acc < u64_size →
  v = (acc + sum_with (input_at inputs) indices) mod u64_size ∧
  Forall (λ idx, ∃ i, inputs !! N.to_nat idx = Some i ∧ input_key i = key) indices.
Proof.
  revert acc. induction indices as [|idx indices IH]; intros acc Hs Hacc; cbn [sum_inputs] in Hs.
  - inv_ok. rewrite N.add_0_r, N.mod_small by done. auto.
  - apply bind_Ok in Hs as (i & Hi%expect_Ok & Hs). case_bool_decide; [|done].
    apply IH in Hs as [-> Hall]; [|unfold u64_add; by apply N.mod_lt].
    split; [|constructor; eauto]. rewrite u64_add_mod, sum_with_cons.
    unfold input_at at 2. rewrite Hi. simpl. f_equal. lia.
Qed.

Lemma sum_outputs_Ok order outputs by_maker key text acc indices v :
  sum_outputs order outputs by_maker key text acc indices = Ok v → acc < u64_size →
  v = (acc + sum_with (output_at outputs) indices) mod u64_size ∧
  Forall (λ idx, ∃ o, outputs !! N.to_nat idx = Some o ∧ output_key o = key ∧
                   check_transfer_output order o = Ok by_maker) indices.
Proof.
  revert acc. induction indices as [|idx indices IH]; intros acc Hs Hacc; cbn [sum_outputs] in Hs.
  - inv_ok. rewrite N.add_0_r, N.mod_small by done. auto.
  - apply bind_Ok in Hs as (o & Hi%expect_Ok & Hs). apply bind_Ok in Hs as (m & Hc & Hs).
    destruct (eqb m by_maker) eqn:Hb; [|done].
    apply eqb_prop in Hb as ->. cbn [negb] in Hs. case_bool_decide; [|done].
    apply IH in Hs as [-> Hall]; [|unfold u64_add; by apply N.mod_lt].
    split; [|constructor; eauto 6]. rewrite u64_add_mod, sum_with_cons.
    unfold output_at at 2. rewrite Hi. simpl. f_equal. lia.
Qed.

Lemma sum_inputs_no_panic inputs key text acc indices :
  Forall (λ idx, idx < len inputs) indices → sum_inputs inputs key text acc indices ≠ Panic.
Proof.
  intros Hall. revert acc. induction Hall as [|idx indices Hidx Hall IH]; intros acc;
    cbn [sum_inputs]; [done|].
  destruct (lookup_lt_is_Some_2 inputs (N.to_nat idx)) as [i ->]; [unfold len in Hidx; lia|].
  cbn [expect]. rewrite Ok_bind. by case_bool_decide.
Qed.

Lemma check_transfer_output_no_panic order output : check_transfer_output order output ≠ Panic.
Proof. unfold check_transfer_output. np_tac. Qed.

Lemma sum_outputs_no_panic order outputs by_maker key text acc indices :
  Forall (λ idx, idx < len outputs) indices →
  sum_outputs order outputs by_maker key text acc indices ≠ Panic.
Proof.
  intros Hall. revert acc. induction Hall as [|idx indices Hidx Hall IH]; intros acc;
    cbn [sum_outputs]; [done|].
  destruct (lookup_lt_is_Some_2 outputs (N.to_nat idx)) as [o ->]; [unfold len in Hidx; lia|].
  cbn [expect]. rewrite Ok_bind.
  apply bind_no_panic; [apply check_transfer_output_no_panic|]. intros b _.
  destruct (negb _); [done|]. by case_bool_decide.
Qed.

Lemma ensure_no_panic' {E} (b : bool) (e : E) : ensure b e ≠ Panic.
Proof. by destruct b. Qed.
#[export] Hint Resolve ensure_no_panic' : np_db.

Lemma verify_order_no_panic inputs outputs order_tx :
  Forall (λ idx, idx < len inputs) (order_input_indices order_tx) →
  Forall (λ idx, idx < len outputs) (order_output_indices order_tx) →
  verify_order inputs outputs order_tx ≠ Panic.
Proof.
  unfold order_input_indices, order_output_indices. rewrite !Forall_app.
  intros (? & ?) (? & ? & ? & ?). unfold verify_order. cbv zeta.
  repeat (apply bind_no_panic;
    [first [apply ensure_no_panic'|by apply sum_inputs_no_panic|by apply sum_outputs_no_panic]
    |intros ? _]). apply ensure_no_panic'.
Qed.

Section OrderLemmas.
Context `{Crypto}.

Lemma Order_verify_no_panic order : Order_verify order ≠ Panic.
Proof. unfold Order_verify. cbv zeta. np_tac. Qed.

Lemma Order_verify_quantities order :
  Order_verify order = Ok tt →
  (ord_asset_quantity_from order = 0 ↔ ord_asset_quantity_to order = 0) ∧
  (ord_asset_quantity_from order = 0 → ord_asset_quantity_fee order = 0) ∧
  (ord_asset_quantity_from order ≠ 0 →
     ord_asset_quantity_fee order mod ord_asset_quantity_from order = 0).
Proof.
  unfold Order_verify. cbv zeta. intros Hv. inv_ok.
  destruct (N.eqb_spec (ord_asset_quantity_from order) 0),
    (N.eqb_spec (ord_asset_quantity_to order) 0), (N.eqb_spec (ord_asset_quantity_fee order) 0),
    (N.eqb_spec (ord_asset_quantity_fee order mod ord_asset_quantity_from order) 0);
    simpl in *; try done; split_and!; done || lia.
Qed.

Lemma order_indices_in_range orders il ol :
  verify_order_indices orders il ol = Ok tt →
  NoDup (all_input_indices orders) ∧ Forall (λ i, i < il) (all_input_indices orders) ∧
  NoDup (all_output_indices orders) ∧ Forall (λ i, i < ol) (all_output_indices orders).
Proof.
  unfold verify_order_indices. intros Hv. apply bind_Ok in Hv as (r & Hv & _).
  assert (Hex : ∃ r, fold_res _ _ orders = Ok r) by (exists r; exact Hv).
  apply verify_order_indices_fold in Hex as [Hi Ho].
  apply mark_indices_Ok in Hi as [? Hi]; [|unfold len; rewrite length_replicate; lia].
  apply mark_indices_Ok in Ho as [? Ho]; [|unfold len; rewrite length_replicate; lia].
  split_and!; try done; (eapply Forall_impl; [done|]); naive_solver.
Qed.

Lemma order_indices_Ok orders il ol :
  NoDup (all_input_indices orders) → Forall (λ i, i < il) (all_input_indices orders) →
  NoDup (all_output_indices orders) → Forall (λ i, i < ol) (all_output_indices orders) →
  verify_order_indices orders il ol = Ok tt.
Proof.
  assert (Hrep : ∀ n l, Forall (λ i, i < n) l →
            Forall (λ i, i < n ∧ replicate (N.to_nat n) false !! N.to_nat i = Some false) l).
  { intros n l Hl. eapply Forall_impl; [done|]. intros i Hi. split; [done|].
    apply lookup_replicate_2. cbv beta in Hi. lia. }
  intros Hi1 Hi2 Ho1 Ho2. unfold verify_order_indices.
  destruct (proj2 (verify_order_indices_fold il ol orders
    (replicate (N.to_nat il) false) (replicate (N.to_nat ol) false))) as [r ->]; [|done].
  split; apply mark_indices_Ok; auto; unfold len; rewrite length_replicate; lia.
Qed.

Lemma verify_order_indices_no_panic orders il ol : verify_order_indices orders il ol ≠ Panic.
Proof.
  unfold verify_order_indices. apply bind_no_panic; [|done].
  enough (∀ ic oc, len ic = il → len oc = ol → fold_res (λ '(input_check, output_check) order_info,
        input_check ← mark_indices il input_check (order_input_indices order_info);
        output_check ← mark_indices ol output_check (order_output_indices order_info);
        Ok (input_check, output_check)) (ic, oc) orders ≠ Panic) as Hgen.
  { apply Hgen; unfold len; rewrite length_replicate; lia. }
  induction orders as [|o orders IH]; intros ic oc Hi Ho; cbn [fold_res]; [done|].
  destruct (mark_indices il ic _) as [ic1| |] eqn:E1; [|done|by apply mark_indices_no_panic in E1].
  rewrite Ok_bind.
  destruct (mark_indices ol oc _) as [oc1| |] eqn:E2; [|done|by apply mark_indices_no_panic in E2].
  rewrite !Ok_bind. apply mark_indices_len in E1, E2. apply IH; congruence.
Qed.

Lemma check_duplication_no_panic set inputs : check_duplication set inputs ≠ Panic.
Proof.
  revert set. induction inputs as [|i inputs IH]; intros set; cbn [check_duplication]; [done|].
  by case_bool_decide.
Qed.
End OrderLemmas.

(** * Properties *)
Section Properties.
Context `{Crypto}.

Lemma consistent_iff inputs outputs :
  sum_with input_quantity inputs < u128_size →
  is_input_and_output_consistent inputs outputs = true ↔
  (∀ o, o ∈ outputs → ∃ i, i ∈ inputs ∧ input_key i = output_key o) ∧
  (∀ key, input_sum inputs key = output_sum outputs key).
Proof.
  intros Hlt. pose proof (add_inputs_sums inputs Hlt) as Hs.
  unfold is_input_and_output_consistent. set (sum := foldl add_input ∅ inputs) in *.
  destruct (sub_outputs sum outputs) as [sum'|] eqn:Hsub.
  - apply sub_outputs_Some in Hsub as [[Hall Hle] ->]. rewrite all_zero. split.
    + intros Hz. assert (Hkeys : ∀ o, o ∈ outputs → ∃ i, i ∈ inputs ∧ input_key i = output_key o).
      { intros o Ho. destruct (Hall o Ho) as [q Hq].
        destruct (Hs (output_key o)) as [[_ ?]|[? _]]; [done|congruence]. }
      split; [done|]. intros key. destruct (Hs key) as [[Hk _]|[_ Hno]].
      * specialize (Hle key _ Hk). specialize (Hz key (input_sum inputs key - output_sum outputs key)).
        unfold left_of in Hz. rewrite map_lookup_imap, Hk in Hz. specialize (Hz eq_refl). lia.
      * rewrite (input_sum_zero _ _ Hno). unfold output_sum.
        rewrite (sum_with_ext _ (λ _, 0)); [clear; induction outputs; simpl; lia|].
        intros o Ho. rewrite bool_decide_false; [done|]. intros <-.
        destruct (Hkeys o Ho) as (i & Hi & Heq). by apply (Hno i).
    + intros [_ Heq] key q. unfold left_of. rewrite map_lookup_imap.
      destruct (Hs key) as [[-> _]|[-> _]]; simpl; [|done]. intros [=<-]. rewrite Heq. lia.
  - split; [done|]. intros [Hkeys Heq]. exfalso.
    assert (Hc : covers sum outputs); [|by rewrite (proj2 (sub_outputs_Some _ _ _) (conj Hc eq_refl)) in Hsub].
    split.
    + intros o Ho. destruct (Hs (output_key o)) as [[-> _]|[_ Hno]]; [by eexists|].
      destruct (Hkeys o Ho) as (i & Hi & Hk). by destruct (Hno i Hi).
    + intros key q Hq. destruct (Hs key) as [[Hk _]|[Hk _]]; rewrite Hk in Hq; [|done].
      simplify_eq. rewrite Heq. lia.
Qed.

Lemma existsb_zero {A} (f : A → N) l :
  negb (existsb (λ x, f x =? 0) l) = true ↔ Forall (λ x, f x ≠ 0) l.
Proof.
  induction l as [|x l IH]; simpl; [done|]. rewrite Forall_cons, <-IH.
  destruct (N.eqb_spec (f x) 0); simpl; naive_solver.
Qed.

(** A verified transfer takes out of each asset what it puts in. *)
Lemma Action_verify_consistent network_id burns inputs outputs orders metadata approvals expiration :
  sum_with input_quantity inputs < u128_size →
  Action_verify (Action.TransferAsset network_id burns inputs outputs orders metadata approvals
                   expiration) = Ok tt →
  ∀ key, input_sum inputs key = output_sum outputs key.
Proof.
  intros Hlt Hv. cbn [Action_verify] in Hv. inv_ok.
  match goal with Hx : is_input_and_output_consistent _ _ = true |- _ =>
    by apply consistent_iff in Hx as [_ ?] end.
Qed.

(** C30: A transfer passes the stateless checks exactly when it has at most 512 outputs,
    every output's asset type and shard occurs among the inputs and each type and
    shard goes out in the quantity it came in, nothing is of quantity zero, no
    previous output is spent twice (burns included), and the orders verify, use
    distinct existing inputs and outputs and match them. *)
Theorem Action_verify_transfer (network_id : NetworkId) (burns inputs : list AssetTransferInput)
  (outputs : list AssetTransferOutput) (orders : list OrderOnTransfer) (metadata : Types.String)
  (approvals : list Signature) (expiration : option N)
  (Hlt : sum_with input_quantity inputs < u128_size) :
  Action_verify (Action.TransferAsset network_id burns inputs outputs orders metadata approvals
                   expiration) = Ok tt ↔
  len outputs ≤ 512 ∧
  (∀ o, o ∈ outputs → ∃ i, i ∈ inputs ∧ input_key i = output_key o) ∧
  (∀ key, input_sum inputs key = output_sum outputs key) ∧
  Forall (λ i, input_quantity i ≠ 0) (burns ++ inputs) ∧
  Forall (λ o, ato_quantity o ≠ 0) outputs ∧
  NoDup (prev_out_id <$> inputs ++ burns) ∧
  Forall (λ o, Order_verify (oot_order o) = Ok tt) orders ∧
  NoDup (all_input_indices orders) ∧ Forall (λ i, i < len inputs) (all_input_indices orders) ∧
  NoDup (all_output_indices orders) ∧ Forall (λ i, i < len outputs) (all_output_indices orders) ∧
  Forall (λ o, verify_order inputs outputs o = Ok tt) orders.
Proof.
  cbn [Action_verify]. rewrite Forall_app. split.
  - intros Hv. inv_ok. repeat match goal with u : () |- _ => destruct u end.
    repeat match goal with
    | Hx : negb (_ <? _) = true |- _ => apply negb_true_iff, N.ltb_ge in Hx
    | Hx : is_input_and_output_consistent _ _ = true |- _ => apply consistent_iff in Hx as [? ?]; [|done]
    | Hx : negb (existsb _ _) = true |- _ => apply existsb_zero in Hx
    | Hx : check_duplication_in_prev_out _ _ = Ok _ |- _ => apply check_duplication_Ok in Hx as [? _]
    | Hx : verify_all _ _ = Ok _ |- _ => apply verify_all_Ok in Hx
    | Hx : verify_order_indices _ _ _ = Ok _ |- _ => apply order_indices_in_range in Hx as (? & ? & ? & ?)
    | Hx : verify_input_and_output_consistent_with_order _ _ _ = Ok _ |- _ => apply verify_all_Ok in Hx
    end. by split_and!.
  - intros (Hlen & Hk & Hs & (Hb & Hi) & Ho & Hnd & Hov & ? & ? & ? & ? & Hor).
    rewrite (proj2 (N.ltb_ge _ _) Hlen), (proj2 (consistent_iff _ _ Hlt) (conj Hk Hs)).
    unfold zero_quantity.
    rewrite (proj2 (existsb_zero _ _) Hb), (proj2 (existsb_zero _ _) Hi),
      (proj2 (existsb_zero _ _) Ho).
    unfold check_duplication_in_prev_out, verify_input_and_output_consistent_with_order.
    rewrite (proj2 (check_duplication_Ok _ _)) by (split; [done|]; intros; apply not_elem_of_empty).
    rewrite (proj2 (verify_all_Ok _ _) Hov), (proj2 (verify_all_Ok _ _) Hor), order_indices_Ok by done.
    done.
Qed.

(** The stateless checks never unwind, for any action: indices of orders are
    checked before they are used. *)
Theorem Action_verify_safe (a : Action.t) : Action_verify a ≠ Panic.
Proof.
  destruct a; cbn [Action_verify]; cbv zeta;
    repeat match goal with |- _ ≫= _ ≠ Panic => apply bind_no_panic; [|intros [] ?] end;
    try apply ensure_no_panic'; try apply check_duplication_no_panic; try done.
  - apply verify_all_no_panic. intros. apply Order_verify_no_panic.
  - apply verify_order_indices_no_panic.
  - match goal with Hidx : verify_order_indices _ _ _ = _ |- _ =>
      apply order_indices_in_range in Hidx as (_ & Hi & _ & Ho) end.
    apply verify_all_no_panic. intros o Hin.
    apply verify_order_no_panic; apply Forall_forall; intros idx Hidx.
    + rewrite Forall_forall in Hi. apply Hi. apply list_elem_of_In, in_concat.
      exists (order_input_indices o). split; apply list_elem_of_In; [by apply list_elem_of_fmap_2|done].
    + rewrite Forall_forall in Ho. apply Ho. apply list_elem_of_In, in_concat.
      exists (order_output_indices o). split; apply list_elem_of_In; [by apply list_elem_of_fmap_2|done].
Qed.

(** What [Order::verify] asks of the quantities and of the fee's recipient. *)
Definition quantities_ok (from to fee : N) : Prop :=
  (from = 0 ↔ to = 0) ∧ (from = 0 → fee = 0) ∧ (from ≠ 0 → fee mod from = 0).

(** What [Order::verify] asks of the fields [consume] does not change. *)
Definition order_static (o : Order) : bool :=
  negb (bool_decide (ord_asset_type_from o = ord_asset_type_to o) &&
        (ord_shard_id_from o =? ord_shard_id_to o)) &&
  negb (bool_decide (ord_origin_outputs o = [])) &&
  forallb (λ origin_output, negb
    ((negb (bool_decide (aop_asset_type origin_output = ord_asset_type_from o)) ||
      negb (aop_shard_id origin_output =? ord_shard_id_from o)) &&
     (negb (bool_decide (aop_asset_type origin_output = ord_asset_type_fee o)) ||
      negb (aop_shard_id origin_output =? ord_shard_id_fee o)))) (ord_origin_outputs o).

Definition same_recipient (o : Order) : bool :=
  bool_decide (ord_lock_script_hash_fee o = ord_lock_script_hash_from o) &&
  bool_decide (ord_parameters_fee o = ord_parameters_from o).

Lemma Order_verify_iff o :
  Order_verify o = Ok tt ↔
  order_static o = true ∧
  quantities_ok (ord_asset_quantity_from o) (ord_asset_quantity_to o) (ord_asset_quantity_fee o) ∧
  (ord_asset_quantity_fee o = 0 ∨ same_recipient o = false).
Proof.
  unfold Order_verify, order_static, same_recipient, quantities_ok. cbv zeta.
  rewrite <-andb_assoc.
  destruct (negb (bool_decide (ord_asset_type_from o = _) && _)); [|naive_solver].
  destruct (negb (bool_decide (ord_origin_outputs o = []))),
    (forallb _ (ord_origin_outputs o)),
    (bool_decide (ord_lock_script_hash_fee o = _)), (bool_decide (ord_parameters_fee o = _)),
    (N.eqb_spec (ord_asset_quantity_from o) 0), (N.eqb_spec (ord_asset_quantity_to o) 0),
    (N.eqb_spec (ord_asset_quantity_fee o) 0),
    (N.eqb_spec (ord_asset_quantity_fee o mod ord_asset_quantity_from o) 0);
    simpl; split; intros; destruct_and?; try done; split_and?; try done; try lia; auto.
  all: naive_solver.
Qed.

Lemma mul_div_le q t f : f ≠ 0 → q ≤ f → q * t / f ≤ t.
Proof. intros Hf Hq. apply N.Div0.div_le_upper_bound. nia. Qed.

Lemma consume_quantities f t fee q :
  f ≠ 0 → q ≤ f → quantities_ok f t fee →
  quantities_ok (f - q) (t - q * t / f) (fee - q * fee / f) ∧
  t * (f - q) ≤ (t - q * t / f) * f ∧ fee * (f - q) = (fee - q * fee / f) * f.
Proof.
  intros Hf Hq (Hft & _ & Hfee). specialize (Hfee Hf).
  apply N.Div0.mod_divides in Hfee as [c ->].
  assert (Hdiv : q * (f * c) / f = q * c).
  { replace (q * (f * c)) with (q * c * f) by lia. by apply N.div_mul. }
  rewrite Hdiv. pose proof (mul_div_le q t f Hf Hq).
  pose proof (N.Div0.mul_div_le (q * t) f) as Hle.
  assert (Hsub : f * c - q * c = (f - q) * c) by nia. rewrite Hsub.
  assert (Ht : t ≠ 0) by (intros ->; naive_solver).
  split; [|split; [nia|lia]]. split; [|split].
  - split; intros Hz.
    + assert (q = f) as -> by lia. rewrite N.mul_comm, N.div_mul by done. lia.
    + assert (q * t / f = t) as Heq by lia. rewrite Heq in Hle. nia.
  - intros ->. lia.
  - intros Hne. rewrite N.mul_comm. by apply N.Div0.mod_mul.
Qed.

(** Consuming part of a verified order never divides by zero nor underflows, and
    the rest is again a verified order: it asks at least the same price for what
    is left of the offer and exactly the same rate of fee. *)
Theorem Order_consume_sound (o : Order) (q : N)
  (Hv : Order_verify o = Ok tt) (Hq : q ≤ ord_asset_quantity_from o)
  (Hf : ord_asset_quantity_from o ≠ 0)
  (Hrange : ord_asset_quantity_from o < u64_size ∧ ord_asset_quantity_to o < u64_size ∧
            ord_asset_quantity_fee o < u64_size) :
  ∃ o', Order_consume (E:=SyntaxError.t) o q = Ok o' ∧ Order_verify o' = Ok tt ∧
    ord_asset_quantity_from o' = ord_asset_quantity_from o - q ∧
    ord_asset_quantity_to o * ord_asset_quantity_from o' ≤
      ord_asset_quantity_to o' * ord_asset_quantity_from o ∧
    ord_asset_quantity_fee o * ord_asset_quantity_from o' =
      ord_asset_quantity_fee o' * ord_asset_quantity_from o.
Proof.
  apply Order_verify_iff in Hv as (Hstatic & Hok & Hrec). destruct Hrange as (Hrf & Hrt & Hre).
  pose proof (mul_div_le q (ord_asset_quantity_to o) _ Hf Hq) as Hto.
  pose proof (mul_div_le q (ord_asset_quantity_fee o) _ Hf Hq) as Hfee.
  destruct (consume_quantities _ _ _ q Hf Hq Hok) as (Hok' & Hprice & Hrate).
  unfold Order_consume, mul_div. rewrite (proj2 (N.eqb_neq _ 0) Hf), !Ok_bind.
  rewrite !N.mod_small by (eapply N.le_lt_trans; done). eexists. split; [done|].
  rewrite Order_verify_iff. cbn. rewrite !u64_sub_le by done. split_and!; try done.
  destruct Hrec as [->|?]; [left; apply N.sub_0_l|by right].
Qed.

Lemma check_transfer_output_maker order output :
  check_transfer_output order output = Ok true →
  ato_lock_script_hash output = ord_lock_script_hash_from order ∧
  ato_parameters output = ord_parameters_from order.
Proof.
  unfold check_transfer_output. destruct (_ && _); [done|].
  destruct (bool_decide (ord_lock_script_hash_from order = _)) eqn:E1; [|done].
  destruct (bool_decide (ord_parameters_from order = _)) eqn:E2; [|done].
  apply bool_decide_eq_true in E1, E2. auto.
Qed.

Definition owned_by_maker (order : Order) (outputs : list AssetTransferOutput) (idx : N) : Prop :=
  ∃ o, outputs !! N.to_nat idx = Some o ∧
    ato_lock_script_hash o = ord_lock_script_hash_from order ∧
    ato_parameters o = ord_parameters_from order.

Lemma owned_by_maker_Forall order outputs key indices :
  Forall (λ idx, ∃ o, outputs !! N.to_nat idx = Some o ∧ output_key o = key ∧
                   check_transfer_output order o = Ok true) indices →
  Forall (owned_by_maker order outputs) indices.
Proof.
  intros Hall. eapply Forall_impl; [done|].
  intros idx (o & Ho & _ & [? ?]%check_transfer_output_maker). by exists o.
Qed.

(** An order that passes the check against a transfer is executed fairly, as long
    as no sum exceeds 64 bits: its maker gives exactly the spent quantity, which is
    positive and within the offer, receives at least the price the order asks for
    it, pays exactly the fee due for it, and owns the change, the bought assets and
    the remaining fee. *)
Theorem verify_order_fair (inputs : list AssetTransferInput) (outputs : list AssetTransferOutput)
  (order_tx : OrderOnTransfer)
  (Hv : verify_order inputs outputs order_tx = Ok tt)
  (Hi1 : sum_with (input_at inputs) (oot_input_from_indices order_tx) < u64_size)
  (Hi2 : sum_with (input_at inputs) (oot_input_fee_indices order_tx) < u64_size)
  (Ho1 : sum_with (output_at outputs) (oot_output_from_indices order_tx) < u64_size)
  (Ho2 : sum_with (output_at outputs) (oot_output_to_indices order_tx) < u64_size)
  (Ho3 : sum_with (output_at outputs) (oot_output_owned_fee_indices order_tx) < u64_size)
  (Ho4 : sum_with (output_at outputs) (oot_output_transferred_fee_indices order_tx) < u64_size) :
  let order := oot_order order_tx in
  let spent := oot_spent_quantity order_tx in
  let fee_given := sum_with (output_at outputs) (oot_output_transferred_fee_indices order_tx) in
  1 ≤ spent ≤ ord_asset_quantity_from order ∧
  sum_with (input_at inputs) (oot_input_from_indices order_tx) =
    sum_with (output_at outputs) (oot_output_from_indices order_tx) + spent ∧
  ord_asset_quantity_to order * spent ≤
    ord_asset_quantity_from order * sum_with (output_at outputs) (oot_output_to_indices order_tx) ∧
  sum_with (input_at inputs) (oot_input_fee_indices order_tx) =
    sum_with (output_at outputs) (oot_output_owned_fee_indices order_tx) + fee_given ∧
  ord_asset_quantity_from order * fee_given = ord_asset_quantity_fee order * spent ∧
  Forall (owned_by_maker order outputs)
    (oot_output_from_indices order_tx ++ oot_output_to_indices order_tx ++
     oot_output_owned_fee_indices order_tx).
Proof.
  unfold verify_order, is_ratio_greater_or_equal, is_ratio_equal in Hv. cbv zeta in *. inv_ok.
  repeat match goal with
  | Hs : sum_inputs _ _ _ _ _ = Ok _ |- _ => apply sum_inputs_Ok in Hs as [-> _]; [|done]
  | Hs : sum_outputs _ _ _ _ _ _ _ = Ok _ |- _ => apply sum_outputs_Ok in Hs as [-> ?]; [|done]
  | Hs : negb _ = true |- _ => apply negb_true_iff in Hs
  | Hs : _ || _ = false |- _ => apply orb_false_iff in Hs as [? ?]
  | Hs : negb _ = false |- _ => apply negb_false_iff in Hs
  | Hs : (_ =? _) = true |- _ => apply N.eqb_eq in Hs
  | Hs : (_ <=? _) = true |- _ => apply N.leb_le in Hs
  | Hs : (_ <=? _) = false |- _ => apply N.leb_gt in Hs
  | Hs : (_ <? _) = false |- _ => apply N.ltb_ge in Hs
  end.
  rewrite !N.add_0_l, !N.mod_small in * by done.
  rewrite !u64_sub_le in * by lia. rewrite !Forall_app.
  split_and!; try lia; eapply owned_by_maker_Forall; eassumption.
Qed.
End Properties.

(** * Witnesses *)
Module VerifyWitness.
#[local] Existing Instance Sample.crypto.

Definition type_a : H160 := replicate 20 1.
Definition type_b : H160 := replicate 20 2.
Definition maker : H160 := replicate 20 7.

Definition inp (n : N) (ty : H160) (q : N) : AssetTransferInput :=
  {| ati_prev_out := {| aop_tracker := replicate 32 n; aop_index := 0; aop_asset_type := ty;
                        aop_shard_id := 0; aop_quantity := q |};
     ati_timelock := None; ati_lock_script := []; ati_unlock_script := [] |}.
Definition outp (owner ty : H160) (q : N) : AssetTransferOutput :=
  {| ato_lock_script_hash := owner; ato_parameters := []; ato_asset_type := ty;
     ato_shard_id := 0; ato_quantity := q |}.

(** Sell 10 of [type_a] for 20 of [type_b]; 4 are sold for 8 here. *)
Definition order : Order :=
  {| ord_asset_type_from := type_a; ord_asset_type_to := type_b; ord_asset_type_fee := H160_zero;
     ord_shard_id_from := 0; ord_shard_id_to := 0; ord_shard_id_fee := 0;
     ord_asset_quantity_from := 10; ord_asset_quantity_to := 20; ord_asset_quantity_fee := 0;
     ord_origin_outputs := [ati_prev_out (inp 1 type_a 10)]; ord_expiration := 100;
     ord_lock_script_hash_from := maker; ord_parameters_from := [];
     ord_lock_script_hash_fee := maker; ord_parameters_fee := [] |}.
Definition order_tx : OrderOnTransfer :=
  {| oot_order := order; oot_spent_quantity := 4; oot_input_from_indices := [0];
     oot_input_fee_indices := []; oot_output_from_indices := [0]; oot_output_to_indices := [1];
     oot_output_owned_fee_indices := []; oot_output_transferred_fee_indices := [] |}.
Definition inputs : list AssetTransferInput := [inp 1 type_a 10; inp 2 type_b 8].
Definition outputs : list AssetTransferOutput :=
  [outp maker type_a 6; outp maker type_b 8; outp type_b type_a 4].

Lemma Action_verify_transfer_witness :
  Action_verify (Action.TransferAsset [116; 99] [] inputs outputs [order_tx] [] [] None) = Ok tt ∧
  ∀ key, input_sum inputs key = output_sum outputs key.
Proof.
  assert (Hv : Action_verify (Action.TransferAsset [116; 99] [] inputs outputs [order_tx] [] []
                                None) = Ok tt) by (vm_compute; reflexivity).
  split; [exact Hv|].
  refine (proj1 (proj2 (proj2 (proj1 (Action_verify_transfer [116; 99] [] inputs outputs
    [order_tx] [] [] None _) Hv)))).
  vm_compute. reflexivity.
Defined.

Lemma Order_consume_sound_witness :
  ∃ o', Order_consume (E:=SyntaxError.t) order 3 = Ok o' ∧ Order_verify o' = Ok tt.
Proof.
  destruct (Order_consume_sound order 3) as (o' & Hc & Hv & _).
  - vm_compute. reflexivity.
  - vm_compute. discriminate.
  - discriminate.
  - repeat split; vm_compute; reflexivity.
  - exists o'. split; assumption.
Defined.

Lemma verify_order_fair_witness :
  ord_asset_quantity_to order * 4 ≤ ord_asset_quantity_from order *
    sum_with (output_at outputs) (oot_output_to_indices order_tx).
Proof.
  refine (proj1 (proj2 (proj2 (verify_order_fair inputs outputs order_tx _ _ _ _ _ _ _))));
    vm_compute; reflexivity.
Defined.
End VerifyWitness.
