(* ===== verification/StateCache.v ===== *)
(** The write-back cache of [state/src/cache/write_back.rs]: a map of items over
    the trie, with a stack of checkpoints that remember the entries a write
    replaced.  [write_back_refines] shows that the cache behaves as a map with a
    stack of whole snapshots; [frames] is the form of that fact the shard and top
    level states use. *)

From stdpp Require Import base gmap list numbers.
From S2P Require Import Prelude.

Local Open Scope N_scope.

(** [enum TrieError] of [util/merkle/src/lib.rs]. *)
Module TrieError.
Inductive t :=
| InvalidStateRoot (root : bytes)
| IncompleteDatabase (missing : bytes).
#[global] Instance t_eq_dec : EqDecision t.
Proof. solve_decision. Defined.
End TrieError.

Section WriteBack.
Context {Item : Type}.

(** [db.get_with(a.as_ref(), rlp::decode::<Item>)] at the state's root. *)
Abbreviation ItemDb := (bytes → result TrieError.t (option Item)).

(** [struct Entry]; the [touched] clock, which only orders the entries handed to the
    global cache, is left out. *)
Record Entry := {
  e_item : option Item;
  e_is_dirty : bool;
}.

Definition new_dirty (item : option Item) : Entry := {| e_item := item; e_is_dirty := true |}.
Definition new_clean (item : option Item) : Entry := {| e_item := item; e_is_dirty := false |}.

Abbreviation CheckPoint := (gmap bytes (option Entry)).

(** [struct WriteBack]; the last element of the [checkpoints] vector is the head of
    the list. *)
Record WriteBack := {
  wb_cache : gmap bytes Entry;
  wb_checkpoints : list CheckPoint;
}.

Definition wb_new : WriteBack := {| wb_cache := ∅; wb_checkpoints := [] |}.

Definition wb_checkpoint (self : WriteBack) : WriteBack :=
  {| wb_cache := wb_cache self; wb_checkpoints := ∅ :: wb_checkpoints self |}.

(** [discard_checkpoint]: an entry the previous checkpoint has stays
    ([prev.entry(k).or_insert(v)]). *)
Definition wb_discard_checkpoint (self : WriteBack) : WriteBack :=
  match wb_checkpoints self with
  | [] => self
  | [checkpoint] => {| wb_cache := wb_cache self; wb_checkpoints := [] |}
  | checkpoint :: prev :: rest =>
      {| wb_cache := wb_cache self;
         wb_checkpoints :=
           (if decide (prev = ∅) then checkpoint else prev ∪ checkpoint) :: rest |}
  end.

(** What [revert_to_checkpoint] leaves at one key: [None] outside says that the
    checkpoint has no entry for it. *)
Definition revert_entry (old : option (option Entry)) (cached : option Entry) : option Entry :=
  match old with
  | None => cached
  | Some (Some v) => Some v
  | Some None =>
      match cached with
      | Some e => if e_is_dirty e then None else Some e
      | None => None
      end
  end.

Definition wb_revert_to_checkpoint (self : WriteBack) : WriteBack :=
  match wb_checkpoints self with
  | [] => self
  | checkpoint :: rest =>
      {| wb_cache :=
           merge (λ old cached, revert_entry old cached) checkpoint (wb_cache self);
         wb_checkpoints := rest |}
  end.

(** [checkpoint.entry(address).or_insert(old)] on the last checkpoint. *)
Definition or_insert_last (a : bytes) (old : option Entry) (cps : list CheckPoint)
  : list CheckPoint :=
  match cps with
  | [] => []
  | cp :: rest => (match cp !! a with Some _ => cp | None => <[a := old]> cp end) :: rest
  end.

Definition wb_insert (a : bytes) (item : Entry) (self : WriteBack) : WriteBack :=
  let old_value := wb_cache self !! a in
  {| wb_cache := <[a := item]> (wb_cache self);
     wb_checkpoints :=
       if negb (e_is_dirty item) then wb_checkpoints self
       else or_insert_last a old_value (wb_checkpoints self) |}.

Definition wb_new_with_iter (items : list (bytes * Item)) : WriteBack :=
  foldl (λ cache '(addr, item), wb_insert addr (new_clean (Some item)) cache) wb_new items.

Definition wb_remove (a : bytes) (self : WriteBack) : WriteBack :=
  wb_insert a (new_dirty None) self.

Definition wb_note (a : bytes) (self : WriteBack) : WriteBack :=
  {| wb_cache := wb_cache self;
     wb_checkpoints := or_insert_last a (wb_cache self !! a) (wb_checkpoints self) |}.

Definition wb_get (a : bytes) (db : ItemDb) : stM WriteBack TrieError.t (option Item) :=
  self ← get_st;
  match wb_cache self !! a with
  | Some cached_item => mret (e_item cached_item)
  | None =>
      maybe_item ← lift_st (db a);
      _ ← modify_st (wb_insert a (new_clean maybe_item));
      mret maybe_item
  end.

(** The slot a [RefMut] points to. *)
Definition wb_put (a : bytes) (item : Item) (self : WriteBack) : WriteBack :=
  {| wb_cache := <[a := new_dirty (Some item)]> (wb_cache self);
     wb_checkpoints := wb_checkpoints self |}.

(** [get_mut]: returns the value behind the [RefMut]; a later [*slot = x] is
    [wb_put a x]. *)
Definition wb_get_mut (default : Item) (a : bytes) (db : ItemDb)
  : stM WriteBack TrieError.t Item :=
  self ← get_st;
  _ ← (match wb_cache self !! a with
       | Some _ => mret tt
       | None => maybe_item ← lift_st (db a); modify_st (wb_insert a (new_clean maybe_item))
       end);
  _ ← modify_st (wb_note a);
  self ← get_st;
  entry ← lift_st (expect (wb_cache self !! a));
  let slot := match e_item entry with Some x => x | None => default end in
  _ ← modify_st (wb_put a slot);
  mret slot.

(** [get_mut] and the body that uses the reference. *)
Definition wb_with_mut {E B : Type} (of_trie : TrieError.t → E) (d : Item) (a : bytes)
    (db : ItemDb) (f : stM Item E B) : stM WriteBack E B := λ wb,
  match wb_get_mut d a db wb with
  | (Ok x, wb') => let (r, x') := f x in (r, wb_put a x' wb')
  | (Err e, wb') => (Err (of_trie e), wb')
  | (Panic, wb') => (Panic, wb')
  end.

Definition wb_create (a : bytes) (item : Item) : stM WriteBack TrieError.t Item :=
  self ← get_st;
  _ ← (match wb_cache self !! a with
       | Some cached => lift_st (assert (match e_item cached with None => true | _ => false end))
       | None => mret tt
       end);
  _ ← modify_st (wb_insert a (new_dirty (Some item)));
  mret item.

(** [commit]: every dirty entry is written to or removed from the trie and marked
    clean; an error of the trie stops the loop.  [order] is the order the hash map
    is walked in. *)
Definition wb_commit_entry {Trie : Type}
    (trie_insert : bytes → Item → stM Trie TrieError.t ())
    (trie_remove : bytes → stM Trie TrieError.t ())
    (a : bytes) : stM (WriteBack * Trie) TrieError.t () := λ '(self, trie),
  match wb_cache self !! a with
  | Some e =>
      if e_is_dirty e then
        let self' := {| wb_cache := <[a := new_clean (e_item e)]> (wb_cache self);
                        wb_checkpoints := wb_checkpoints self |} in
        match e_item e with
        | Some item => let (r, trie') := trie_insert a item trie in (r, (self', trie'))
        | None => let (r, trie') := trie_remove a trie in (r, (self', trie'))
        end
      else (Ok tt, (self, trie))
  | None => (Ok tt, (self, trie))
  end.

Definition wb_commit {Trie : Type}
    (trie_insert : bytes → Item → stM Trie TrieError.t ())
    (trie_remove : bytes → stM Trie TrieError.t ())
    (order : list bytes) : stM (WriteBack * Trie) TrieError.t () :=
  for_each (wb_commit_entry trie_insert trie_remove) order.

(** [impl Clone]. *)
Definition wb_clone (self : WriteBack) : result TrieError.t WriteBack :=
  _ ← assert (len (wb_checkpoints self) =? 0);
  Ok {| wb_cache := wb_cache self; wb_checkpoints := [] |}.

(** * Snapshots *)

(** What the cache shows at an address: the cached item, or the trie's. *)
Definition db_view (db : ItemDb) (a : bytes) : option Item :=
  match db a with Ok o => o | _ => None end.

Definition wb_view (db : ItemDb) (self : WriteBack) (a : bytes) : option Item :=
  match wb_cache self !! a with
  | Some e => e_item e
  | None => db_view db a
  end.

Abbreviation view := (bytes → option Item).

(** The view a checkpoint restores. *)
Definition undo (db : ItemDb) (cp : CheckPoint) (v : view) : view := λ a,
  match cp !! a with
  | None => v a
  | Some (Some e) => e_item e
  | Some None => db_view db a
  end.

(** The checkpoints of a cache that shows [v] restore the snapshots [saved]. *)
Fixpoint levels (db : ItemDb) (v : view) (cps : list CheckPoint) (saved : list view) : Prop :=
  match cps, saved with
  | [], [] => True
  | cp :: cps, w :: saved => (∀ a, undo db cp v a = w a) ∧ levels db w cps saved
  | _, _ => False
  end.

(** A clean entry holds what the trie holds. *)
Definition entry_ok (db : ItemDb) (a : bytes) (e : Entry) : Prop :=
  e_is_dirty e = false → db a = Ok (e_item e).

Record snapshots (db : ItemDb) (self : WriteBack) (v : view) (saved : list view) : Prop := {
  snap_clean a e : wb_cache self !! a = Some e → entry_ok db a e;
  snap_checkpoints : Forall (λ cp : CheckPoint, ∀ a e, cp !! a = Some (Some e) → entry_ok db a e)
                       (wb_checkpoints self);
  snap_view a : wb_view db self a = v a;
  snap_levels : levels db v (wb_checkpoints self) saved;
}.
End WriteBack.
Arguments Entry : clear implicits.
Arguments WriteBack : clear implicits.

(** * The operations on snapshots *)

(** A view with one address changed. *)
Definition set_view {Item : Type} (a : bytes) (x : option Item) (v : bytes → option Item)
  : bytes → option Item := λ b, if decide (b = a) then x else v b.

Lemma set_view_eq {Item : Type} a (x : option Item) v : set_view a x v a = x.
Proof. unfold set_view. by rewrite decide_True. Qed.

Lemma set_view_ne {Item : Type} a b (x : option Item) v : b ≠ a → set_view a x v b = v b.
Proof. intros. unfold set_view. by rewrite decide_False. Qed.

Section Snapshots.
Context {Item : Type} (db : bytes → result TrieError.t (option Item)).
Implicit Types (wb : WriteBack Item) (v : bytes → option Item).

Lemma snapshots_new : snapshots db wb_new (db_view db) [].
Proof. split; simpl; [intros a e Ha; by rewrite lookup_empty in Ha|constructor| |done].
  intros a. unfold wb_view. simpl. by rewrite lookup_empty. Qed.

(** The view can be read off the cache. *)
Lemma snapshots_canonical wb v saved :
  snapshots db wb v saved → snapshots db wb (wb_view db wb) saved.
Proof.
  intros [Hc Hcp Hv Hl]. split; [done|done|done|].
  destruct (wb_checkpoints wb) as [|cp cps], saved as [|w saved]; try done.
  destruct Hl as [Hw Hl]. split; [|done]. intros a. rewrite <- Hw. unfold undo. by rewrite Hv.
Qed.

(** Loading an item leaves every snapshot alone. *)
Lemma snapshots_load wb v saved a o :
  snapshots db wb v saved → wb_cache wb !! a = None → db a = Ok o →
  snapshots db (wb_insert a (new_clean o) wb) v saved.
Proof.
  intros [Hc Hcp Hv Hl] Ha Hdb. split; simpl; [|done| |done].
  - intros b e. destruct (decide (b = a)) as [->|].
    + rewrite lookup_insert_eq. intros [=<-]. by intros _.
    + rewrite lookup_insert_ne by done. apply Hc.
  - intros b. rewrite <- Hv. unfold wb_view. simpl. destruct (decide (b = a)) as [->|].
    + rewrite lookup_insert_eq, Ha. unfold db_view. by rewrite Hdb.
    + by rewrite lookup_insert_ne.
Qed.

Lemma levels_write wb v saved a x :
  snapshots db wb v saved →
  levels db (set_view a x v) (or_insert_last a (wb_cache wb !! a) (wb_checkpoints wb)) saved.
Proof.
  intros [_ _ Hv Hl]. destruct (wb_checkpoints wb) as [|cp cps], saved as [|w saved];
    try done. destruct Hl as [Hw Hl]. split; [|done]. intros b. rewrite <- Hw. unfold undo.
  destruct (decide (b = a)) as [->|].
  - destruct (cp !! a) eqn:Ecp; [by rewrite Ecp|].
    rewrite lookup_insert_eq, <- Hv. unfold wb_view. by destruct (wb_cache wb !! a).
  - assert ((match cp !! a with
      | Some _ => cp | None => <[a:=wb_cache wb !! a]> cp end) !! b = cp !! b) as ->.
    { destruct (cp !! a); [done|]. by rewrite lookup_insert_ne. }
    by rewrite set_view_ne.
Qed.

(** A dirty write that records the entry it replaces. *)
Lemma snapshots_write wb v saved a x :
  snapshots db wb v saved →
  snapshots db {| wb_cache := <[a := new_dirty x]> (wb_cache wb);
                  wb_checkpoints := or_insert_last a (wb_cache wb !! a) (wb_checkpoints wb) |}
    (set_view a x v) saved.
Proof.
  intros Hs. pose proof (levels_write wb v saved a x Hs) as Hl'.
  destruct Hs as [Hc Hcp Hv Hl]. split; simpl; [| | |done].
  - intros b e. destruct (decide (b = a)) as [->|].
    + rewrite lookup_insert_eq. by intros [=<-].
    + rewrite lookup_insert_ne by done. apply Hc.
  - destruct (wb_checkpoints wb) as [|cp cps]; [done|]. apply Forall_cons_1 in Hcp as [Hcp Hcps].
    constructor; [|done]. destruct (cp !! a) eqn:Ecp; [done|]. intros b e.
    destruct (decide (b = a)) as [->|].
    + rewrite lookup_insert_eq. intros [=He]. by apply Hc.
    + rewrite lookup_insert_ne by done. apply Hcp.
  - intros b. unfold wb_view. simpl. destruct (decide (b = a)) as [->|].
    + by rewrite lookup_insert_eq, set_view_eq.
    + rewrite lookup_insert_ne, set_view_ne by done. apply Hv.
Qed.

Lemma snapshots_remove wb v saved a :
  snapshots db wb v saved → snapshots db (wb_remove a wb) (set_view a None v) saved.
Proof. apply snapshots_write. Qed.

Lemma snapshots_checkpoint wb v saved :
  snapshots db wb v saved → snapshots db (wb_checkpoint wb) v (v :: saved).
Proof.
  intros [Hc Hcp Hv Hl]. split; simpl; [done| |done|].
  - constructor; [|done]. intros a e Ha. by rewrite lookup_empty in Ha.
  - split; [|done]. intros a. unfold undo. by rewrite lookup_empty.
Qed.

Lemma undo_union cp prev v w w' a :
  (∀ b, undo db cp v b = w b) → (∀ b, undo db prev w b = w' b) →
  undo db (prev ∪ cp) v a = w' a.
Proof.
  intros Hw Hw'. rewrite <- Hw'. unfold undo. rewrite lookup_union, <- Hw. unfold undo.
  by destruct (prev !! a), (cp !! a).
Qed.

Lemma snapshots_discard wb v w saved :
  snapshots db wb v (w :: saved) → snapshots db (wb_discard_checkpoint wb) v saved.
Proof.
  intros [Hc Hcp Hv Hl]. unfold wb_discard_checkpoint.
  destruct (wb_checkpoints wb) as [|cp [|prev cps]] eqn:Ecp; [done| |].
  - destruct saved as [|]; [|by destruct Hl]. by split; simpl.
  - destruct saved as [|w' saved]; [by destruct Hl|]. destruct Hl as (Hw & Hw' & Hl).
    apply Forall_cons_1 in Hcp as [Hcp Hcps]. apply Forall_cons_1 in Hcps as [Hprev Hcps].
    assert ((if decide (prev = ∅) then cp else prev ∪ cp) = prev ∪ cp) as ->.
    { destruct (decide (prev = ∅)) as [->|]; [|done]. by rewrite (left_id_L ∅ (∪)). }
    split; simpl; [done| |done|].
    + constructor; [|done]. intros a e Hlook.
      apply lookup_union_Some_raw in Hlook as [?|[_ ?]]; eauto.
    + split; [|done]. intros a. by eapply undo_union.
Qed.

Lemma snapshots_revert wb v w saved :
  snapshots db wb v (w :: saved) → snapshots db (wb_revert_to_checkpoint wb) w saved.
Proof.
  intros [Hc Hcp Hv Hl]. unfold wb_revert_to_checkpoint.
  destruct (wb_checkpoints wb) as [|cp cps] eqn:Ecp; [done|]. destruct Hl as [Hw Hl].
  apply Forall_cons_1 in Hcp as [Hcp Hcps]. split; simpl; [|done| |done].
  - intros a e. rewrite lookup_merge. specialize (Hc a). specialize (Hcp a).
    destruct (cp !! a) as [[e'|]|], (wb_cache wb !! a) as [c|]; simpl; intros He;
      simplify_eq; auto. destruct (e_is_dirty c); simplify_eq; auto.
  - intros a. rewrite <- Hw. unfold undo. rewrite <- Hv. unfold wb_view. simpl.
    rewrite lookup_merge. specialize (Hc a). specialize (Hcp a).
    destruct (cp !! a) as [[e'|]|], (wb_cache wb !! a) as [c|]; simpl; try done.
    destruct (e_is_dirty c) eqn:Ed; [done|]. simpl. unfold db_view.
    by rewrite (Hc c eq_refl Ed).
Qed.

(** [get] shows the view. *)
Lemma snapshots_get wb v saved a :
  snapshots db wb v saved →
  match wb_get a db wb with
  | (Ok o, wb') => o = v a ∧ snapshots db wb' v saved
  | (Err e, wb') => wb' = wb ∧ db a = Err e
  | (Panic, wb') => wb' = wb ∧ db a = Panic
  end.
Proof.
  intros Hs. unfold wb_get, mbind, stM_bind, get_st, lift_st, modify_st, mret, stM_ret.
  destruct (wb_cache wb !! a) as [e|] eqn:Ea.
  - split; [|done]. rewrite <- (snap_view _ _ _ _ Hs). unfold wb_view. by rewrite Ea.
  - destruct (db a) as [o| |] eqn:Edb; [|done|done]. split; [|by apply snapshots_load].
    rewrite <- (snap_view _ _ _ _ Hs). unfold wb_view, db_view. by rewrite Ea, Edb.
Qed.

Lemma get_mut_cached wb a e :
  wb_cache wb !! a = Some e →
  ∀ d, wb_get_mut d a db wb =
    (Ok (default d (e_item e)), wb_put a (default d (e_item e)) (wb_note a wb)).
Proof.
  intros Ha d. unfold wb_get_mut, mbind, stM_bind, get_st, lift_st, modify_st, mret, stM_ret.
  rewrite Ha. simpl. rewrite Ha. simpl. by destruct (e_item e).
Qed.

Lemma get_mut_load wb a o d :
  wb_cache wb !! a = None → db a = Ok o →
  wb_get_mut d a db wb = wb_get_mut d a db (wb_insert a (new_clean o) wb).
Proof.
  intros Ha Hdb. erewrite (get_mut_cached (wb_insert _ _ _)); [|apply lookup_insert_eq].
  unfold wb_get_mut, mbind, stM_bind, get_st, lift_st, modify_st, mret, stM_ret.
  rewrite Ha, Hdb. simpl. rewrite lookup_insert_eq. simpl. by destruct o.
Qed.

(** Writing through the [RefMut] of an item that is cached. *)
Lemma snapshots_put wb v saved a x y :
  snapshots db wb v saved →
  snapshots db (wb_put a y (wb_put a x (wb_note a wb))) (set_view a (Some y) v) saved.
Proof.
  intros Hs. eapply snapshots_write in Hs. unfold wb_put, wb_note. simpl.
  rewrite insert_insert_eq. exact Hs.
Qed.

Lemma snapshots_with_mut {E B : Type} (of_trie : TrieError.t → E) d a (f : stM Item E B)
    wb v saved :
  snapshots db wb v saved →
  let x := default d (v a) in
  (∃ e, db a = Err e ∧ wb_with_mut of_trie d a db f wb = (Err (of_trie e), wb)) ∨
  (db a = Panic ∧ wb_with_mut of_trie d a db f wb = (Panic, wb)) ∨
  ((wb_with_mut of_trie d a db f wb).1 = (f x).1 ∧
   snapshots db (wb_with_mut of_trie d a db f wb).2 (set_view a (Some (f x).2) v) saved).
Proof.
  intros Hs x. unfold wb_with_mut.
  assert (∀ wb0 e, wb_cache wb0 !! a = Some e → snapshots db wb0 v saved →
    wb_get_mut d a db wb0 = (Ok x, wb_put a x (wb_note a wb0))) as Hc.
  { intros wb0 e Ha Hs0. rewrite (get_mut_cached _ _ _ Ha). subst x.
    rewrite <- (snap_view _ _ _ _ Hs0). unfold wb_view. by rewrite Ha. }
  destruct (wb_cache wb !! a) as [e|] eqn:Ea.
  - right; right. rewrite (Hc _ e Ea Hs). destruct (f x) as [r x'].
    split; [done|]. by apply snapshots_put.
  - destruct (db a) as [o|e|] eqn:Edb.
    + right; right. rewrite (get_mut_load _ _ o) by done.
      pose proof (snapshots_load _ _ _ _ _ Hs Ea Edb) as Hs'.
      erewrite Hc; [|apply lookup_insert_eq|done]. destruct (f x) as [r x'].
      split; [done|]. by apply snapshots_put.
    + left. exists e. unfold wb_get_mut, mbind, stM_bind, get_st, lift_st. by rewrite Ea, Edb.
    + right; left. unfold wb_get_mut, mbind, stM_bind, get_st, lift_st. by rewrite Ea, Edb.
Qed.

Lemma snapshots_create wb v saved a x :
  snapshots db wb v saved →
  (∃ y, v a = Some y ∧ wb_create a x wb = (Panic, wb)) ∨
  ((wb_create a x wb).1 = Ok x ∧
   snapshots db (wb_create a x wb).2 (set_view a (Some x) v) saved).
Proof.
  intros Hs. unfold wb_create, mbind, stM_bind, get_st, lift_st, modify_st, mret, stM_ret.
  destruct (wb_cache wb !! a) as [[[y|] d]|] eqn:Ea; simpl.
  - left. exists y. split; [|done]. rewrite <- (snap_view _ _ _ _ Hs). unfold wb_view. by rewrite Ea.
  - right. split; [done|]. by apply snapshots_write.
  - right. split; [done|]. by apply snapshots_write.
Qed.
End Snapshots.

(** * The cache as a map with a stack of snapshots *)

(** The calls a state makes on one of its caches; [Modify] is a [get_mut] whose body
    replaces the item by [f] of it. *)
Inductive op (Item : Type) :=
| Checkpoint
| DiscardCheckpoint
| RevertToCheckpoint
| Get (a : bytes)
| Modify (a : bytes) (f : Item → Item)
| Create (a : bytes) (x : Item)
| Remove (a : bytes).
Arguments Checkpoint {Item}.
Arguments DiscardCheckpoint {Item}.
Arguments RevertToCheckpoint {Item}.
Arguments Get {Item} a.
Arguments Modify {Item} a f.
Arguments Create {Item} a x.
Arguments Remove {Item} a.

Section Refinement.
Context {Item : Type} (d : Item) (db : bytes → result TrieError.t (option Item)).

(** A call and what it returns to the state. *)
Definition wb_exec (o : op Item) : stM (WriteBack Item) TrieError.t (option Item) :=
  match o with
  | Checkpoint => _ ← modify_st wb_checkpoint; mret None
  | DiscardCheckpoint => _ ← modify_st wb_discard_checkpoint; mret None
  | RevertToCheckpoint => _ ← modify_st wb_revert_to_checkpoint; mret None
  | Get a => wb_get a db
  | Modify a f => wb_with_mut id d a db (λ x, (Ok (Some x), f x))
  | Create a x => _ ← wb_create a x; mret (Some x)
  | Remove a => _ ← modify_st (wb_remove a); mret None
  end.

Fixpoint wb_run (os : list (op Item)) : stM (WriteBack Item) TrieError.t (list (option Item)) :=
  match os with
  | [] => mret []
  | o :: os => x ← wb_exec o; xs ← wb_run os; mret (x :: xs)
  end.

(** The specification: the current map and the maps saved so far. *)
Record Snap := { current : bytes → option Item; saved : list (bytes → option Item) }.

Definition snap_exec (o : op Item) (s : Snap) : option Item * Snap :=
  match o with
  | Checkpoint => (None, {| current := current s; saved := current s :: saved s |})
  | DiscardCheckpoint => (None, {| current := current s; saved := tail (saved s) |})
  | RevertToCheckpoint =>
      (None, match saved s with
             | [] => s
             | w :: ws => {| current := w; saved := ws |}
             end)
  | Get a => (current s a, s)
  | Modify a f =>
      let x := default d (current s a) in
      (Some x, {| current := set_view a (Some (f x)) (current s); saved := saved s |})
  | Create a x => (Some x, {| current := set_view a (Some x) (current s); saved := saved s |})
  | Remove a => (None, {| current := set_view a None (current s); saved := saved s |})
  end.

Fixpoint snap_run (os : list (op Item)) (s : Snap) : list (option Item) * Snap :=
  match os with
  | [] => ([], s)
  | o :: os =>
      let (x, s) := snap_exec o s in
      let (xs, s) := snap_run os s in (x :: xs, s)
  end.

(** Items are created at vacant addresses only. *)
Fixpoint creates_vacant (os : list (op Item)) (s : Snap) : bool :=
  match os with
  | [] => true
  | o :: os =>
      match o with
      | Create a _ => match current s a with None => true | Some _ => false end
      | _ => true
      end && creates_vacant os (snap_exec o s).2
  end.

Definition snap_rel (wb : WriteBack Item) (s : Snap) : Prop :=
  snapshots db wb (current s) (saved s).

Hypothesis db_total : ∀ a, ∃ o, db a = Ok o.

Lemma wb_exec_refines o wb s :
  snap_rel wb s →
  match o with Create a _ => current s a = None | _ => True end →
  (wb_exec o wb).1 = Ok (snap_exec o s).1 ∧ snap_rel (wb_exec o wb).2 (snap_exec o s).2.
Proof.
  destruct s as [v ws]. unfold snap_rel. simpl. intros Hs Ho.
  destruct o as [| | |a|a f|a x|a]; simpl.
  - split; [done|]. by apply snapshots_checkpoint.
  - split; [done|]. destruct ws as [|w ws]; [|by eapply snapshots_discard].
    pose proof (snap_levels _ _ _ _ Hs) as Hl. unfold wb_discard_checkpoint.
    by destruct (wb_checkpoints wb) eqn:E; [|done].
  - split; [done|]. destruct ws as [|w ws]; [|by eapply snapshots_revert].
    pose proof (snap_levels _ _ _ _ Hs) as Hl. unfold wb_revert_to_checkpoint.
    by destruct (wb_checkpoints wb) eqn:E; [|done].
  - pose proof (snapshots_get db wb v ws a Hs) as Hg. destruct (db_total a) as [o Ho'].
    destruct (wb_get a db wb) as [[x|e|] wb']; simpl in *; [|destruct Hg; congruence..].
    destruct Hg as [-> ?]. done.
  - destruct (db_total a) as [o Ho'].
    destruct (snapshots_with_mut db id d a (λ x, (Ok (Some x), f x)) wb v ws Hs)
      as [(e & ? & _)|[[? _]|[-> Hs']]]; [congruence..|]. done.
  - destruct (snapshots_create db wb v ws a x Hs) as [(y & ? & _)|[Hr Hs']]; [congruence|].
    unfold mbind, stM_bind. destruct (wb_create a x wb) as [r wb']. simpl in *. by subst.
  - split; [done|]. by apply snapshots_remove.
Qed.

Lemma wb_run_refines os wb s :
  snap_rel wb s → creates_vacant os s = true →
  (wb_run os wb).1 = Ok (snap_run os s).1 ∧ snap_rel (wb_run os wb).2 (snap_run os s).2.
Proof.
  revert wb s. induction os as [|o os IH]; intros wb s Hs Hc; [done|]. simpl in *.
  apply andb_true_iff in Hc as [Ho Hc].
  destruct (wb_exec_refines o wb s Hs) as [Hr Hs'].
  { destruct o; try done. by destruct (current s a). }
  unfold mbind, stM_bind. destruct (wb_exec o wb) as [r wb'].
  destruct (snap_exec o s) as [x s']. simpl in *. subst r.
  destruct (IH wb' s' Hs' Hc) as [Hr' Hs'']. destruct (wb_run os wb') as [r' wb''].
  destruct (snap_run os s') as [xs s'']. simpl in *. subst r'. done.
Qed.
End Refinement.
Arguments Snap : clear implicits.

(** * Committing *)

(** What the trie's mutable interface promises: an insertion or a removal that
    succeeds changes the given key and no other. *)
Class TrieMut (Trie Item : Type) := {
  trie_get : Trie → bytes → result TrieError.t (option Item);
  trie_insert : bytes → Item → stM Trie TrieError.t ();
  trie_remove : bytes → stM Trie TrieError.t ();
}.

Class TrieMutLaws (Trie Item : Type) `{TrieMut Trie Item} := {
  trie_insert_get t t' a x b :
    trie_insert a x t = (Ok tt, t') →
    trie_get t' b = if decide (b = a) then Ok (Some x) else trie_get t b;
  trie_remove_get t t' a b :
    trie_remove a t = (Ok tt, t') →
    trie_get t' b = if decide (b = a) then Ok None else trie_get t b;
}.

Section Commit.
Context {Trie Item : Type} `{TrieMutLaws Trie Item}.
Implicit Types (wb : WriteBack Item) (t : Trie).

Lemma commit_entry_step a wb t wb' t' :
  (∀ b e, wb_cache wb !! b = Some e → entry_ok (trie_get t) b e) →
  wb_commit_entry trie_insert trie_remove a (wb, t) = (Ok tt, (wb', t')) →
  wb_cache wb' = alter (λ e, new_clean (e_item e)) a (wb_cache wb) ∧
  (∀ b e, wb_cache wb' !! b = Some e → entry_ok (trie_get t') b e) ∧
  (∀ b, wb_view (trie_get t') wb' b = wb_view (trie_get t) wb b).
Proof.
  intros Hc. unfold wb_commit_entry.
  destruct (wb_cache wb !! a) as [[x [|]]|] eqn:Ea; simpl; intros Hr.
  - assert (wb' = {| wb_cache := <[a:=new_clean x]> (wb_cache wb);
                     wb_checkpoints := wb_checkpoints wb |} ∧
      ∀ b, trie_get t' b = if decide (b = a) then Ok x else trie_get t b) as [-> Hg].
    { destruct x as [x|];
        [destruct (trie_insert a x t) as [r t0] eqn:Et | destruct (trie_remove a t) as [r t0] eqn:Et];
        simplify_eq; (split; [done|]); intros b; [by eapply trie_insert_get|by eapply trie_remove_get]. }
    split_and!.
    + apply map_eq. intros b. simpl. destruct (decide (b = a)) as [->|].
      * by rewrite lookup_insert_eq, lookup_alter_eq, Ea.
      * by rewrite lookup_insert_ne, lookup_alter_ne.
    + intros b e. simpl. destruct (decide (b = a)) as [->|].
      * rewrite lookup_insert_eq. intros [=<-] _. by rewrite Hg, decide_True.
      * rewrite lookup_insert_ne by done. intros He Hd. rewrite Hg, decide_False by done. by apply Hc.
    + intros b. unfold wb_view, db_view. simpl. destruct (decide (b = a)) as [->|].
      * by rewrite lookup_insert_eq, Ea.
      * by rewrite lookup_insert_ne, Hg, decide_False.
  - simplify_eq. split_and!; [|done|done]. apply map_eq. intros b.
    destruct (decide (b = a)) as [->|]; [by rewrite lookup_alter_eq, Ea|by rewrite lookup_alter_ne].
  - simplify_eq. split_and!; [|done|done]. apply map_eq. intros b.
    destruct (decide (b = a)) as [->|]; [by rewrite lookup_alter_eq, Ea|by rewrite lookup_alter_ne].
Qed.

Lemma commit_loop order wb t wb' t' :
  (∀ b e, wb_cache wb !! b = Some e → entry_ok (trie_get t) b e) →
  wb_commit trie_insert trie_remove order (wb, t) = (Ok tt, (wb', t')) →
  (∀ b e, wb_cache wb' !! b = Some e → entry_ok (trie_get t') b e) ∧
  (∀ b, wb_view (trie_get t') wb' b = wb_view (trie_get t) wb b) ∧
  (∀ b e, wb_cache wb' !! b = Some e → e_is_dirty e = true →
     (b ∉ order) ∧ ∃ e0, wb_cache wb !! b = Some e0 ∧ e_is_dirty e0 = true) ∧
  dom (wb_cache wb') = dom (wb_cache wb).
Proof.
  revert wb t. induction order as [|a order IH]; intros wb t Hc; simpl.
  - intros [=<- <-]. split_and!; [done|done| |done]. intros b e He Hd. split; [apply not_elem_of_nil|eauto].
  - intros Hr. apply st_bind_Ok in Hr as ([] & [wb1 t1] & Hr1 & Hr).
    apply commit_entry_step in Hr1 as (Hal & Hc1 & Hv1); [|done].
    apply IH in Hr as (Hc2 & Hv2 & Hd & Hdom); [|done]. split_and!; [done| | |].
    + intros b. by rewrite Hv2, Hv1.
    + intros b e He Hdirty. destruct (Hd b e He Hdirty) as (Hni & e0 & He0 & Hd0).
      rewrite Hal in He0. destruct (decide (b = a)) as [->|].
      * rewrite lookup_alter_eq in He0. destruct (wb_cache wb !! a); simplify_eq/=.
      * rewrite lookup_alter_ne in He0 by done. split; [|eauto]. by rewrite not_elem_of_cons.
    + by rewrite Hdom, Hal, dom_alter_L.
Qed.
End Commit.

#[export] Instance gmap_trie {Item : Type} : TrieMut (gmap bytes Item) Item := {|
  trie_get t a := Ok (t !! a);
  trie_insert a x := modify_st (<[a := x]>);
  trie_remove a := modify_st (delete a);
|}.

#[export] Instance gmap_trie_laws {Item : Type} : TrieMutLaws (gmap bytes Item) Item.
Proof.
  split; intros t t' a.
  - intros x b [=<-]. simpl. destruct (decide (b = a)) as [->|];
      [by rewrite lookup_insert_eq|by rewrite lookup_insert_ne].
  - intros b [=<-]. simpl. destruct (decide (b = a)) as [->|];
      [by rewrite lookup_delete_eq|by rewrite lookup_delete_ne].
Qed.

(** * Properties *)

(** C7: The write-back cache refines a map with a stack of snapshots: any sequence of
    calls that creates items only where there is none returns what the
    specification returns, and leaves a cache that shows the specification's
    current map.  In particular [revert_to_checkpoint] restores the items as they
    were at the matching [checkpoint], however checkpoints nest. *)
Theorem write_back_refines {Item : Type} (d : Item) (db : bytes → result TrieError.t (option Item))
    (os : list (op Item)) :
  (∀ a, ∃ o, db a = Ok o) →
  creates_vacant d os {| current := db_view db; saved := [] |} = true →
  ∃ wb, wb_run d db os wb_new =
          (Ok (snap_run d os {| current := db_view db; saved := [] |}).1, wb) ∧
    ∀ a, wb_view db wb a = current (snap_run d os {| current := db_view db; saved := [] |}).2 a.
Proof.
  intros Hdb Hc. destruct (wb_run_refines d db Hdb os wb_new _ (snapshots_new db : snap_rel db wb_new {| current := db_view db; saved := [] |}) Hc)
    as [Hr Hs].
  exists (wb_run d db os wb_new).2. split; [|apply Hs].
  destruct (wb_run d db os wb_new). simpl in *. by subst.
Qed.

(** [commit] flushes the cache: when it succeeds, over a map that walks every key,
    the trie alone shows what the cache over the old trie showed, every entry is
    clean and agrees with the trie. *)
Theorem wb_commit_flushes {Trie Item : Type} `{TrieMutLaws Trie Item}
    (wb wb' : WriteBack Item) (t t' : Trie) (order : list bytes) :
  (∀ a, a ∈ dom (wb_cache wb) → a ∈ order) →
  (∀ a e, wb_cache wb !! a = Some e → entry_ok (trie_get t) a e) →
  wb_commit trie_insert trie_remove order (wb, t) = (Ok tt, (wb', t')) →
  (∀ a, db_view (trie_get t') a = wb_view (trie_get t) wb a) ∧
  (∀ a e, wb_cache wb' !! a = Some e → e_is_dirty e = false ∧ trie_get t' a = Ok (e_item e)).
Proof.
  intros Ho Hc Hr. apply commit_loop in Hr as (Hc' & Hv & Hd & Hdom); [|done].
  assert (∀ a e, wb_cache wb' !! a = Some e → e_is_dirty e = false) as Hclean.
  { intros a e He. destruct (e_is_dirty e) eqn:Ed; [|done].
    destruct (Hd a e He Ed) as (Hni & e0 & He0 & _). exfalso. apply Hni, Ho.
    by eapply elem_of_dom_2. }
  split.
  - intros a. rewrite <- Hv. unfold wb_view. destruct (wb_cache wb' !! a) as [e|] eqn:Ea; [|done].
    unfold db_view. by rewrite (Hc' a e Ea (Hclean a e Ea)).
  - intros a e He. split; [eauto|]. apply Hc'; eauto.
Qed.

Module CacheWitness.
Definition db0 (a : bytes) : result TrieError.t (option N) :=
  Ok (if decide (a = [1]) then Some 10 else None).
Definition ops0 : list (op N) :=
  [Checkpoint; Modify [1] (λ x, x + 5); Checkpoint; Create [2] 7; Remove [1];
   DiscardCheckpoint; Get [2]; RevertToCheckpoint; Get [1]; Get [2]].

Lemma write_back_refines_witness :
  ∃ wb, wb_run 0 db0 ops0 wb_new =
    (Ok [None; Some 10; None; Some 7; None; None; Some 7; None; Some 10; None], wb) ∧
    wb_view db0 wb [1] = Some 10.
Proof.
  destruct (write_back_refines 0 db0 ops0) as (wb & Hr & Hv).
  - intros a. eexists. reflexivity.
  - vm_compute. reflexivity.
  - exists wb. split; [rewrite Hr; vm_compute; reflexivity|]. rewrite Hv. vm_compute. reflexivity.
Defined.

Definition wb0 : WriteBack N :=
  {| wb_cache := <[[2] := new_dirty (Some 7)]> (<[[1] := new_dirty None]> ∅); wb_checkpoints := [] |}.

Definition wb_new_clean : WriteBack N :=
  {| wb_cache := <[[2] := new_clean (Some 7)]> (<[[1] := new_clean None]> ∅);
     wb_checkpoints := [] |}.
Definition trie0 : gmap bytes N := <[[1] := 10]> ∅.

Lemma wb_commit_flushes_witness :
  ∃ t', wb_commit trie_insert trie_remove [[2]; [1]] (wb0, trie0) =
          (Ok tt, (wb_new_clean, t')) ∧
        db_view (trie_get t') [2] = Some 7 ∧ db_view (trie_get t') [1] = None.
Proof.
  assert (∃ t', wb_commit trie_insert trie_remove [[2]; [1]] (wb0, trie0) =
    (Ok tt, (wb_new_clean, t'))) as [t' Hr]; [eexists; vm_compute; reflexivity|].
  exists t'. split; [exact Hr|].
  destruct (wb_commit_flushes wb0 wb_new_clean trie0 t' [[2]; [1]]) as [Hv _];
    [| |exact Hr|rewrite !Hv; split; vm_compute; reflexivity].
  - intros a. unfold wb0. simpl. rewrite !dom_insert_L, dom_empty_L. set_solver.
  - intros a e. unfold wb0. simpl. intros [[<- <-]|[_ Ha]]%lookup_insert_Some; [done|].
    by apply lookup_insert_Some in Ha as [[<- <-]|[_ Ha]]; [|by rewrite lookup_empty in Ha].
Defined.
End CacheWitness.
