(* ===== verification/StateItems.v ===== *)
(** The items of the state ([state/src/item]): assets, asset schemes, accounts,
    regular accounts, shards, metadata, texts and action data, with their RLP forms
    as stored in the trie, and the addresses they are stored at. *)

From stdpp Require Import base gmap list numbers strings.
From S2P Require Import Prelude Types Crypto Rlp RlpImpls TxRlp Params.

Local Open Scope N_scope.

(** * Addresses, [state/src/item/address.rs] *)

(** What the [primitives] crate provides: [H128::from(u64)] and [H256::from_slice]. *)
Class Primitives := {
  H128_from : N → bytes;
  H256_from_slice : bytes → H256;
}.

Definition OWNED_ASSET_PREFIX : N := 65.
Definition ADDRESS_PREFIX : N := 67.
Definition SHARD_PREFIX : N := 72.
Definition METADATA_PREFIX : N := 77.
Definition REGULAR_ACCOUNT_PREFIX : N := 82.
Definition ASSET_SCHEME_PREFIX : N := 83.
Definition TEXT_PREFIX : N := 84.

Section Addresses.
Context `{Crypto} `{Primitives}.

(** [define_address_constructor!(TOP, ..)] *)
Definition from_transaction_hash (prefix : N) (transaction_hash : H256) (index : N) : H256 :=
  let hash := blake256_with_key transaction_hash (H128_from index) in
  [prefix] ++ drop 1 hash.

(** [define_address_constructor!(SHARD, ..)] *)
Definition from_hash_with_shard_id (prefix : N) (input_hash : bytes) (index : N)
    (shard_id : ShardId) : H256 :=
  let hash := blake256_with_key input_hash (H128_from index) in
  [prefix; 0] ++ to_be_bytes 2 shard_id ++ drop 4 hash.

(** [define_id_getter!(SHARD)] *)
Definition address_shard_id (a : H256) : option ShardId :=
  match a !! 2%nat, a !! 3%nat with
  | Some b, Some c => Some (from_be_bytes [b; c])
  | _, _ => None
  end.

Definition is_valid_format (prefix : N) (hash : H256) : bool :=
  match hash with b :: _ => b =? prefix | [] => false end.

Definition OwnedAssetAddress_new (transaction_tracker : H256) (index : N) (shard_id : ShardId)
  : H256 :=
  from_hash_with_shard_id OWNED_ASSET_PREFIX transaction_tracker index shard_id.

Definition AssetSchemeAddress_new (asset_type : H160) (shard_id : ShardId) : H256 :=
  from_hash_with_shard_id ASSET_SCHEME_PREFIX asset_type (u64_size - 1) shard_id.

(** [H256::from_slice(b"shard")] and [H256::from_slice(b"metadata address")] *)
Definition ShardAddress_new (shard_id : ShardId) : H256 :=
  from_transaction_hash SHARD_PREFIX (H256_from_slice [115; 104; 97; 114; 100]) shard_id.

Definition MetadataAddress_new : H256 :=
  from_transaction_hash METADATA_PREFIX
    (H256_from_slice [109; 101; 116; 97; 100; 97; 116; 97; 32; 97; 100; 100; 114; 101; 115; 115]) 0.

Definition RegularAccountAddress_from_address (address : Address) : H256 :=
  from_transaction_hash REGULAR_ACCOUNT_PREFIX (blake256 address) 0.

Definition RegularAccountAddress_new (public : Public) : H256 :=
  RegularAccountAddress_from_address (public_to_address public).
End Addresses.

(** * Items *)

Record Asset := { as_asset_type : H160; as_quantity : N }.
#[global] Instance Asset_eq_dec : EqDecision Asset.
Proof. solve_decision. Defined.

Record OwnedAsset := {
  oa_asset : Asset;
  oa_lock_script_hash : H160;
  oa_parameters : list bytes;
  oa_order_hash : option H256;
}.
#[global] Instance OwnedAsset_eq_dec : EqDecision OwnedAsset.
Proof. solve_decision. Defined.

Definition OwnedAsset_new (asset_type lock_script_hash : H160) (parameters : list bytes)
    (quantity : N) (order_hash : option H256) : OwnedAsset :=
  {| oa_asset := {| as_asset_type := asset_type; as_quantity := quantity |};
     oa_lock_script_hash := lock_script_hash; oa_parameters := parameters;
     oa_order_hash := order_hash |}.

Definition oa_asset_type (a : OwnedAsset) : H160 := as_asset_type (oa_asset a).
Definition oa_quantity (a : OwnedAsset) : N := as_quantity (oa_asset a).

Definition OwnedAsset_default : OwnedAsset := OwnedAsset_new H160_zero H160_zero [] 0 None.

Record AssetScheme := {
  sch_metadata : String;
  sch_supply : N;
  sch_approver : option Address;
  sch_registrar : option Address;
  sch_allowed_script_hashes : list H160;
  sch_pool : list Asset;
  sch_seq : N;
}.
#[global] Instance AssetScheme_eq_dec : EqDecision AssetScheme.
Proof. solve_decision. Defined.

Definition AssetScheme_new_with_pool (metadata : String) (supply : N)
    (approver registrar : option Address) (allowed_script_hashes : list H160)
    (pool : list Asset) : AssetScheme :=
  {| sch_metadata := metadata; sch_supply := supply; sch_approver := approver;
     sch_registrar := registrar; sch_allowed_script_hashes := allowed_script_hashes;
     sch_pool := pool; sch_seq := 0 |}.

Definition AssetScheme_default : AssetScheme := AssetScheme_new_with_pool [] 0 None None [] [].

Definition is_regulated (self : AssetScheme) : bool :=
  match sch_registrar self with Some _ => true | None => false end.

Definition is_allowed_script_hash (self : AssetScheme) (lock_script_hash : H160) : bool :=
  (len (sch_allowed_script_hashes self) =? 0) ||
  bool_decide (lock_script_hash ∈ sch_allowed_script_hashes self).

Definition change_data (metadata : String) (approver registrar : option Address)
    (allowed_script_hashes : list H160) (self : AssetScheme) : AssetScheme :=
  {| sch_metadata := metadata; sch_supply := sch_supply self; sch_approver := approver;
     sch_registrar := registrar; sch_allowed_script_hashes := allowed_script_hashes;
     sch_pool := sch_pool self; sch_seq := sch_seq self |}.

Definition set_supply (supply : N) (self : AssetScheme) : AssetScheme :=
  {| sch_metadata := sch_metadata self; sch_supply := supply; sch_approver := sch_approver self;
     sch_registrar := sch_registrar self;
     sch_allowed_script_hashes := sch_allowed_script_hashes self;
     sch_pool := sch_pool self; sch_seq := sch_seq self |}.

(** [increase_supply]: [None] is [RuntimeError::AssetSupplyOverflow]. *)
Definition increase_supply (quantity : N) (self : AssetScheme) : option AssetScheme :=
  let headroom := u64_sub (u64_size - 1) (sch_supply self) in
  if headroom <? quantity then None
  else Some (set_supply (u64_add (sch_supply self) quantity) self).

(** [increase_seq], on a [usize]. *)
Definition AssetScheme_increase_seq (self : AssetScheme) : AssetScheme :=
  {| sch_metadata := sch_metadata self; sch_supply := sch_supply self;
     sch_approver := sch_approver self; sch_registrar := sch_registrar self;
     sch_allowed_script_hashes := sch_allowed_script_hashes self;
     sch_pool := sch_pool self; sch_seq := u64_add (sch_seq self) 1 |}.

(** [reduce_supply]: [None] is the failed assertion. *)
Definition reduce_supply (quantity : N) (self : AssetScheme) : option AssetScheme :=
  if negb (quantity <=? sch_supply self) then None
  else Some (set_supply (u64_sub (sch_supply self) quantity) self).

Record Account := {
  acc_balance : N;
  acc_seq : N;
  acc_regular_key : option Public;
}.
#[global] Instance Account_eq_dec : EqDecision Account.
Proof. solve_decision. Defined.

Definition Account_default : Account :=
  {| acc_balance := 0; acc_seq := 0; acc_regular_key := None |}.

Definition Account_is_null (self : Account) : bool :=
  (acc_balance self =? 0) && (acc_seq self =? 0).

Definition inc_seq_account (self : Account) : Account :=
  {| acc_balance := acc_balance self; acc_seq := u64_add (acc_seq self) 1;
     acc_regular_key := acc_regular_key self |}.

Definition add_balance_account (x : N) (self : Account) : Account :=
  {| acc_balance := u64_add (acc_balance self) x; acc_seq := acc_seq self;
     acc_regular_key := acc_regular_key self |}.

(** [sub_balance]: [None] is the failed assertion. *)
Definition sub_balance_account (x : N) (self : Account) : option Account :=
  if negb (x <=? acc_balance self) then None
  else Some {| acc_balance := u64_sub (acc_balance self) x; acc_seq := acc_seq self;
               acc_regular_key := acc_regular_key self |}.

Definition set_regular_key_account (key : option Public) (self : Account) : Account :=
  {| acc_balance := acc_balance self; acc_seq := acc_seq self; acc_regular_key := key |}.

Record RegularAccount := { ra_owner_public : Public }.
#[global] Instance RegularAccount_eq_dec : EqDecision RegularAccount.
Proof. solve_decision. Defined.
Definition RegularAccount_default : RegularAccount := {| ra_owner_public := replicate 64 0 |}.
Definition RegularAccount_is_null (self : RegularAccount) : bool := is_zero (ra_owner_public self).

Record Shard := { sh_root : H256; sh_owners : list Address; sh_users : list Address }.
#[global] Instance Shard_eq_dec : EqDecision Shard.
Proof. solve_decision. Defined.
Definition Shard_default : Shard :=
  {| sh_root := BLAKE_NULL_RLP; sh_owners := []; sh_users := [] |}.

Record Text := { txt_content : String; txt_certifier : Address }.
#[global] Instance Text_eq_dec : EqDecision Text.
Proof. solve_decision. Defined.
Definition Text_default : Text := {| txt_content := []; txt_certifier := H160_zero |}.

(** [ActionData::default()] is the RLP of empty data. *)
Abbreviation ActionData := bytes.
Definition ActionData_default : ActionData := [0x80].

Record Metadata := {
  md_number_of_shards : ShardId;
  md_number_of_initial_shards : ShardId;
  md_hashes : list H256;
  md_last_term_finished_block_num : N;
  md_current_term_id : N;
  md_seq : N;
  md_params : option CommonParams;
}.

Definition Metadata_new (number_of_shards : ShardId) : Metadata :=
  {| md_number_of_shards := number_of_shards; md_number_of_initial_shards := number_of_shards;
     md_hashes := []; md_last_term_finished_block_num := 0; md_current_term_id := 0;
     md_seq := 0; md_params := None |}.
Definition Metadata_default : Metadata := Metadata_new 0.

(** [add_shard]: the identifier given to the new shard and the new metadata. *)
Definition add_shard (tx_hash : H256) (self : Metadata) : ShardId * Metadata :=
  let r := md_number_of_shards self in
  (r, {| md_number_of_shards := (r + 1) mod u16_size;
         md_number_of_initial_shards := md_number_of_initial_shards self;
         md_hashes := md_hashes self ++ [tx_hash];
         md_last_term_finished_block_num := md_last_term_finished_block_num self;
         md_current_term_id := md_current_term_id self; md_seq := md_seq self;
         md_params := md_params self |}).

(** [shard_id_by_hash]: the outcome [Panic] is a failed assertion. *)
Definition shard_id_by_hash {E : Type} (tx_hash : H256) (self : Metadata)
  : result E (option ShardId) :=
  _ ← assert (len (md_hashes self) <? u16_size - 1);
  match list_find (λ hash, tx_hash = hash) (md_hashes self) with
  | Some (index, _) =>
      let index := (N.of_nat index + md_number_of_initial_shards self) mod u16_size in
      _ ← assert (index <? md_number_of_shards self); Ok (Some index)
  | None => Ok None
  end.

Definition set_params_metadata (params : CommonParams) (self : Metadata) : Metadata :=
  {| md_number_of_shards := md_number_of_shards self;
     md_number_of_initial_shards := md_number_of_initial_shards self;
     md_hashes := md_hashes self;
     md_last_term_finished_block_num := md_last_term_finished_block_num self;
     md_current_term_id := md_current_term_id self; md_seq := md_seq self;
     md_params := Some params |}.

Definition Metadata_increase_seq (self : Metadata) : Metadata :=
  {| md_number_of_shards := md_number_of_shards self;
     md_number_of_initial_shards := md_number_of_initial_shards self;
     md_hashes := md_hashes self;
     md_last_term_finished_block_num := md_last_term_finished_block_num self;
     md_current_term_id := md_current_term_id self; md_seq := u64_add (md_seq self) 1;
     md_params := md_params self |}.

(** [increase_term_id]: [None] is the failed assertion. *)
Definition increase_term_id_metadata (last : N) (self : Metadata) : option Metadata :=
  if negb (md_last_term_finished_block_num self <? last) then None
  else Some {| md_number_of_shards := md_number_of_shards self;
               md_number_of_initial_shards := md_number_of_initial_shards self;
               md_hashes := md_hashes self;
               md_last_term_finished_block_num := last;
               md_current_term_id := u64_add (md_current_term_id self) 1;
               md_seq := md_seq self; md_params := md_params self |}.

(** * RLP forms *)

(** [if item_count != n { return Err(RlpInvalidLength) }] and the prefix check. *)
Definition check_length (rlp : bytes) (n : N) : rlpR () :=
  item_count ← item_count rlp;
  if negb (item_count =? n) then Err (RlpError.RlpInvalidLength n item_count) else Ok tt.

Definition check_prefix (rlp : bytes) (p : N) : rlpR () :=
  prefix ← val_at (decode u8_codec) rlp 0;
  if negb (p =? prefix) then Err (RlpError.Custom "Unexpected prefix") else Ok tt.

Definition Asset_codec : Codec Asset := {|
  rlp_append self := rlp_list 2 [app H160_codec (as_asset_type self); app u64_codec (as_quantity self)];
  decode rlp :=
    asset_type ← val_at (decode H160_codec) rlp 0;
    quantity ← val_at (decode u64_codec) rlp 1;
    Ok {| as_asset_type := asset_type; as_quantity := quantity |} |}.

Definition OwnedAsset_codec : Codec OwnedAsset := {|
  rlp_append self :=
    rlp_list 6
      [app u8_codec OWNED_ASSET_PREFIX; app H160_codec (oa_asset_type self);
       app u64_codec (oa_quantity self); app H160_codec (oa_lock_script_hash self);
       app (vec_codec bytes_codec) (oa_parameters self);
       app (option_codec H256_codec) (oa_order_hash self)];
  decode rlp :=
    _ ← check_length rlp 6;
    _ ← check_prefix rlp OWNED_ASSET_PREFIX;
    asset_type ← val_at (decode H160_codec) rlp 1;
    quantity ← val_at (decode u64_codec) rlp 2;
    lock_script_hash ← val_at (decode H160_codec) rlp 3;
    parameters ← val_at (decode (vec_codec bytes_codec)) rlp 4;
    order_hash ← val_at (decode (option_codec H256_codec)) rlp 5;
    Ok (OwnedAsset_new asset_type lock_script_hash parameters quantity order_hash) |}.

Definition AssetScheme_calls (self : AssetScheme) : list (strm ()) :=
  [app u8_codec ASSET_SCHEME_PREFIX; app string_codec (sch_metadata self);
   app u64_codec (sch_supply self); app (option_codec H160_codec) (sch_approver self);
   app (option_codec H160_codec) (sch_registrar self);
   app_list H160_codec (sch_allowed_script_hashes self); app_list Asset_codec (sch_pool self)].

Definition AssetScheme_codec : Codec AssetScheme := {|
  rlp_append (self : AssetScheme) :=
    if sch_seq self =? 0 then rlp_list 7 (AssetScheme_calls self)
    else rlp_list 8 (AssetScheme_calls self ++ [app usize_codec (sch_seq self)]);
  decode rlp :=
    item_count ← item_count rlp;
    seq ← (if item_count =? 7 then Ok 0
           else if item_count =? 8 then val_at (decode usize_codec) rlp 7
           else Err (RlpError.RlpInvalidLength 7 item_count));
    _ ← check_prefix rlp ASSET_SCHEME_PREFIX;
    metadata ← val_at (decode string_codec) rlp 1;
    supply ← val_at (decode u64_codec) rlp 2;
    approver ← val_at (decode (option_codec H160_codec)) rlp 3;
    registrar ← val_at (decode (option_codec H160_codec)) rlp 4;
    allowed_script_hashes ← list_at (decode H160_codec) rlp 5;
    pool ← list_at (decode Asset_codec) rlp 6;
    Ok {| sch_metadata := metadata; sch_supply := supply; sch_approver := approver;
          sch_registrar := registrar; sch_allowed_script_hashes := allowed_script_hashes;
          sch_pool := pool; sch_seq := seq |} |}.

Definition Account_codec : Codec Account := {|
  rlp_append self :=
    rlp_list 4
      [app u8_codec ADDRESS_PREFIX; app u64_codec (acc_balance self); app u64_codec (acc_seq self);
       app (option_codec H512_codec) (acc_regular_key self)];
  decode rlp :=
    _ ← check_length rlp 4;
    _ ← check_prefix rlp ADDRESS_PREFIX;
    balance ← val_at (decode u64_codec) rlp 1;
    seq ← val_at (decode u64_codec) rlp 2;
    regular_key ← val_at (decode (option_codec H512_codec)) rlp 3;
    Ok {| acc_balance := balance; acc_seq := seq; acc_regular_key := regular_key |} |}.

Definition RegularAccount_codec : Codec RegularAccount := {|
  rlp_append self :=
    rlp_list 2 [app u8_codec REGULAR_ACCOUNT_PREFIX; app H512_codec (ra_owner_public self)];
  decode rlp :=
    _ ← check_length rlp 2;
    _ ← check_prefix rlp REGULAR_ACCOUNT_PREFIX;
    owner_public ← val_at (decode H512_codec) rlp 1;
    Ok {| ra_owner_public := owner_public |} |}.

Definition Shard_codec : Codec Shard := {|
  rlp_append self :=
    rlp_list 4
      [app u8_codec SHARD_PREFIX; app H256_codec (sh_root self); app_list H160_codec (sh_owners self);
       app_list H160_codec (sh_users self)];
  decode rlp :=
    _ ← check_length rlp 4;
    _ ← check_prefix rlp SHARD_PREFIX;
    root ← val_at (decode H256_codec) rlp 1;
    owners ← list_at (decode H160_codec) rlp 2;
    users ← list_at (decode H160_codec) rlp 3;
    Ok {| sh_root := root; sh_owners := owners; sh_users := users |} |}.

Definition Text_codec : Codec Text := {|
  rlp_append self :=
    rlp_list 3
      [app u8_codec TEXT_PREFIX; app string_codec (txt_content self);
       app H160_codec (txt_certifier self)];
  decode rlp :=
    _ ← check_length rlp 3;
    _ ← check_prefix rlp TEXT_PREFIX;
    content ← val_at (decode string_codec) rlp 1;
    certifier ← val_at (decode H160_codec) rlp 2;
    Ok {| txt_content := content; txt_certifier := certifier |} |}.

Definition ActionData_codec : Codec ActionData := bytes_codec.

(** [impl Encodable for Metadata]: the [unwrap] of the parameters unwinds when they
    are missing. *)
Definition Metadata_append (self : Metadata) : strm () :=
  let term_changed := negb ((md_last_term_finished_block_num self =? 0) &&
                            (md_current_term_id self =? 0)) in
  let params_changed := negb (md_seq self =? 0) in
  let n := 4 + (if term_changed then 2 else 0) +
           (if params_changed then (if negb term_changed then 2 else 0) + 2 else 0) in
  rlp_list n
    ([app u8_codec METADATA_PREFIX; app u16_codec (md_number_of_shards self);
      app u16_codec (md_number_of_initial_shards self); app_list H256_codec (md_hashes self)] ++
     (if term_changed then
        [app u64_codec (md_last_term_finished_block_num self); app u64_codec (md_current_term_id self)]
      else []) ++
     (if params_changed then
        (if negb term_changed then [app u64_codec 0; app u64_codec 0] else []) ++
        [app u64_codec (md_seq self);
         match md_params self with
         | Some params => append (CommonParams_append params)
         | None => lift_st Panic
         end]
      else [])).

Definition Metadata_decode (rlp : bytes) : rlpR Metadata :=
  item_count ← item_count rlp;
  '(last, id, seq, params) ←
    (if item_count =? 4 then Ok (0, 0, 0, None)
     else if item_count =? 6 then
       last ← val_at (decode u64_codec) rlp 4;
       id ← val_at (decode u64_codec) rlp 5;
       Ok (last, id, 0, None)
     else if item_count =? 8 then
       last ← val_at (decode u64_codec) rlp 4;
       id ← val_at (decode u64_codec) rlp 5;
       seq ← val_at (decode u64_codec) rlp 6;
       params ← val_at CommonParams_decode rlp 7;
       Ok (last, id, seq, Some params)
     else Err (RlpError.RlpInvalidLength 4 item_count));
  _ ← check_prefix rlp METADATA_PREFIX;
  number_of_shards ← val_at (decode u16_codec) rlp 1;
  number_of_initial_shards ← val_at (decode u16_codec) rlp 2;
  hashes ← list_at (decode H256_codec) rlp 3;
  Ok {| md_number_of_shards := number_of_shards;
        md_number_of_initial_shards := number_of_initial_shards; md_hashes := hashes;
        md_last_term_finished_block_num := last; md_current_term_id := id; md_seq := seq;
        md_params := params |}.

(** * The codecs keep their promises *)

Lemma check_length_step {B} l n (f : () → rlpR B) r :
  fits (List l) → len l = n → f tt = r → check_length (enc (List l)) n ≫= f = r.
Proof.
  intros Hf <- <-. unfold check_length. rewrite item_count_enc by done. simpl.
  by rewrite N.eqb_refl.
Qed.

Lemma check_prefix_step {B} l p (f : () → rlpR B) r :
  fits (List l) → l !! 0%nat = Some (item u8_codec p) → p < 256 → f tt = r →
  check_prefix (enc (List l)) p ≫= f = r.
Proof.
  intros Hf Hl Hp <-. unfold check_prefix.
  rewrite (val_at_field u8_codec l 0 p Hf Hl Hp), Ok_bind, N.eqb_refl. done.
Qed.

Lemma check_length_no_panic bs n : check_length bs n ≠ Panic.
Proof. unfold check_length. struct_safe. Qed.

Lemma check_prefix_no_panic bs p : check_prefix bs p ≠ Panic.
Proof. unfold check_prefix. struct_safe. Qed.

(** [item_decodes]: a decoder with its length and prefix checks reads an item back;
    [item_safe]: it does not unwind. *)
Ltac item_decodes :=
  repeat first
    [ eapply check_length_step; [eassumption|reflexivity|]
    | eapply check_prefix_step; [eassumption|reflexivity|reflexivity|]
    | progress decodes_tac ].
Ltac item_safe :=
  intros; cbn [decode];
  repeat match goal with
    | |- (if ?b then _ else _) ≠ Panic => destruct b
    | |- _ ≫= _ ≠ Panic => apply bind_no_panic; [|intros ? _]
    | |- val_at (decode _) _ _ ≠ Panic => apply val_at_no_panic, codec_no_panic
    | |- list_at (decode _) _ _ ≠ Panic => apply list_at_no_panic, codec_no_panic
    | |- item_count _ ≠ Panic => apply item_count_no_panic
    | |- check_length _ _ ≠ Panic => apply check_length_no_panic
    | |- check_prefix _ _ ≠ Panic => apply check_prefix_no_panic
    | |- Ok _ ≠ Panic => discriminate
    | |- Err _ ≠ Panic => discriminate
    end.

#[global, refine] Instance Asset_codec_ok : CodecOk Asset_codec := {|
  item a := List [item H160_codec (as_asset_type a); item u64_codec (as_quantity a)];
  wf a := wf H160_codec (as_asset_type a) ∧ wf u64_codec (as_quantity a) |}.
Proof.
  - intros a. cbn [rlp_append Asset_codec]. encodes_tac.
  - intros [] (? & ?) Hf. cbn [decode Asset_codec]. decodes_tac.
  - unfold Asset_codec. item_safe.
Defined.
#[global] Typeclasses Opaque Asset_codec.

#[global, refine] Instance OwnedAsset_codec_ok : CodecOk OwnedAsset_codec := {|
  item a := List
    [item u8_codec OWNED_ASSET_PREFIX; item H160_codec (oa_asset_type a);
     item u64_codec (oa_quantity a); item H160_codec (oa_lock_script_hash a);
     item (vec_codec bytes_codec) (oa_parameters a); item (option_codec H256_codec) (oa_order_hash a)];
  wf a := wf H160_codec (oa_asset_type a) ∧ wf u64_codec (oa_quantity a) ∧
          wf H160_codec (oa_lock_script_hash a) ∧
          wf (vec_codec bytes_codec) (oa_parameters a) ∧
          wf (option_codec H256_codec) (oa_order_hash a) |}.
Proof.
  - intros a. cbn [rlp_append OwnedAsset_codec]. encodes_tac.
  - intros [[] ] (? & ? & ? & ? & ?) Hf. cbn [decode OwnedAsset_codec]. item_decodes.
  - unfold OwnedAsset_codec. item_safe.
Defined.

Definition AssetScheme_items (a : AssetScheme) : list rlp_item :=
  [item u8_codec ASSET_SCHEME_PREFIX; item string_codec (sch_metadata a);
   item u64_codec (sch_supply a); item (option_codec H160_codec) (sch_approver a);
   item (option_codec H160_codec) (sch_registrar a);
   List (item H160_codec <$> sch_allowed_script_hashes a);
   List (item Asset_codec <$> sch_pool a)].

#[global, refine] Instance AssetScheme_codec_ok : CodecOk AssetScheme_codec := {|
  item a := List (AssetScheme_items a ++
                  if sch_seq a =? 0 then [] else [item usize_codec (sch_seq a)]);
  wf a := wf string_codec (sch_metadata a) ∧ wf u64_codec (sch_supply a) ∧
          wf (option_codec H160_codec) (sch_approver a) ∧
          wf (option_codec H160_codec) (sch_registrar a) ∧
          Forall (wf H160_codec) (sch_allowed_script_hashes a) ∧
          Forall (wf Asset_codec) (sch_pool a) ∧ wf usize_codec (sch_seq a) |}.
Proof.
  - intros a. cbn [rlp_append AssetScheme_codec].
    unfold AssetScheme_calls, AssetScheme_items. destruct (sch_seq a =? 0); encodes_tac.
  - intros [????? ? seq] (? & ? & ? & ? & ? & ? & Hseq) Hf. cbn [decode AssetScheme_codec].
    unfold AssetScheme_items in *. cbn [sch_seq Datatypes.app] in *.
    destruct (N.eqb_spec seq 0) as [->|]; cbn [Datatypes.app] in *.
    + eapply (item_count_step _ 7); [eassumption|reflexivity|]. cbn [N.eqb Pos.eqb].
      rewrite Ok_bind. item_decodes.
    + eapply (item_count_step _ 8); [eassumption|reflexivity|]. cbn [N.eqb Pos.eqb]. item_decodes.
  - unfold AssetScheme_codec. item_safe.
Defined.

#[global, refine] Instance Account_codec_ok : CodecOk Account_codec := {|
  item a := List
    [item u8_codec ADDRESS_PREFIX; item u64_codec (acc_balance a); item u64_codec (acc_seq a);
     item (option_codec H512_codec) (acc_regular_key a)];
  wf a := wf u64_codec (acc_balance a) ∧ wf u64_codec (acc_seq a) ∧
          wf (option_codec H512_codec) (acc_regular_key a) |}.
Proof.
  - intros a. cbn [rlp_append Account_codec]. encodes_tac.
  - intros [] (? & ? & ?) Hf. cbn [decode Account_codec]. item_decodes.
  - unfold Account_codec. item_safe.
Defined.

#[global, refine] Instance RegularAccount_codec_ok : CodecOk RegularAccount_codec := {|
  item a := List [item u8_codec REGULAR_ACCOUNT_PREFIX; item H512_codec (ra_owner_public a)];
  wf a := wf H512_codec (ra_owner_public a) |}.
Proof.
  - intros a. cbn [rlp_append RegularAccount_codec]. encodes_tac.
  - intros [] ? Hf. cbn [decode RegularAccount_codec]. item_decodes.
  - unfold RegularAccount_codec. item_safe.
Defined.

#[global, refine] Instance Shard_codec_ok : CodecOk Shard_codec := {|
  item s := List
    [item u8_codec SHARD_PREFIX; item H256_codec (sh_root s);
     List (item H160_codec <$> sh_owners s); List (item H160_codec <$> sh_users s)];
  wf s := wf H256_codec (sh_root s) ∧ Forall (wf H160_codec) (sh_owners s) ∧
          Forall (wf H160_codec) (sh_users s) |}.
Proof.
  - intros a. cbn [rlp_append Shard_codec]. encodes_tac.
  - intros [] (? & ? & ?) Hf. cbn [decode Shard_codec]. item_decodes.
  - unfold Shard_codec. item_safe.
Defined.

#[global, refine] Instance Text_codec_ok : CodecOk Text_codec := {|
  item t := List
    [item u8_codec TEXT_PREFIX; item string_codec (txt_content t); item H160_codec (txt_certifier t)];
  wf t := wf string_codec (txt_content t) ∧ wf H160_codec (txt_certifier t) |}.
Proof.
  - intros a. cbn [rlp_append Text_codec]. encodes_tac.
  - intros [] (? & ?) Hf. cbn [decode Text_codec]. item_decodes.
  - unfold Text_codec. item_safe.
Defined.

(** The parameters of the metadata are there exactly when its sequence number has
    moved. *)
Definition Metadata_wf (m : Metadata) : Prop :=
  wf u16_codec (md_number_of_shards m) ∧ wf u16_codec (md_number_of_initial_shards m) ∧
  Forall (wf H256_codec) (md_hashes m) ∧ wf u64_codec (md_last_term_finished_block_num m) ∧
  wf u64_codec (md_current_term_id m) ∧ wf u64_codec (md_seq m) ∧
  match md_params m with
  | Some params => md_seq m ≠ 0 ∧ CommonParams_wf params
  | None => md_seq m = 0
  end.

Definition Metadata_items (m : Metadata) : list rlp_item :=
  let base := [item u8_codec METADATA_PREFIX; item u16_codec (md_number_of_shards m);
               item u16_codec (md_number_of_initial_shards m);
               List (item H256_codec <$> md_hashes m)] in
  let term := [item u64_codec (md_last_term_finished_block_num m);
               item u64_codec (md_current_term_id m)] in
  match md_params m with
  | Some params => base ++ term ++ [item u64_codec (md_seq m); List (CommonParams_items params)]
  | None =>
      if (md_last_term_finished_block_num m =? 0) && (md_current_term_id m =? 0) then base
      else base ++ term
  end.

Lemma Metadata_encodes m : Metadata_wf m → encodes (Metadata_append m) (List (Metadata_items m)).
Proof.
  destruct m as [n i hs last id seq params]. intros (_ & _ & _ & _ & _ & _ & Hp).
  unfold Metadata_append, Metadata_items. cbn [md_number_of_shards md_number_of_initial_shards
    md_hashes md_last_term_finished_block_num md_current_term_id md_seq md_params] in *.
  destruct params as [p|].
  - destruct Hp as [Hseq Hp]. rewrite (proj2 (N.eqb_neq seq 0)) by done. cbn [negb].
    apply CommonParams_encodes, append_appends in Hp.
    destruct (N.eqb_spec last 0) as [->|], (N.eqb_spec id 0) as [->|]; cbn [andb negb Datatypes.app];
      (apply rlp_list_encodes; [|reflexivity]);
      repeat (apply Forall2_cons; split;
        [first [exact Hp | apply app_appends | apply app_list_appends]|]); by apply Forall2_nil.
  - subst seq. destruct ((last =? 0) && (id =? 0)); cbn [negb N.eqb Datatypes.app]; encodes_tac.
Qed.

Lemma Metadata_decodes m :
  Metadata_wf m → fits (List (Metadata_items m)) →
  Metadata_decode (enc (List (Metadata_items m))) = Ok m.
Proof.
  destruct m as [n i hs last id seq params]. intros (? & ? & ? & ? & ? & ? & Hp) Hf.
  unfold Metadata_decode, Metadata_items in *. cbn [md_number_of_shards
    md_number_of_initial_shards md_hashes md_last_term_finished_block_num md_current_term_id
    md_seq md_params] in *.
  destruct params as [p|]; [|subst seq; destruct ((last =? 0) && (id =? 0)) eqn:E];
    cbn [Datatypes.app] in *.
  - destruct Hp as [Hseq Hp]. eapply (item_count_step _ 8); [eassumption|reflexivity|].
    cbn [N.eqb Pos.eqb].
    rewrite (val_at_field u64_codec _ 4 last), (val_at_field u64_codec _ 5 id),
      (val_at_field u64_codec _ 6 seq), (val_at_enc _ _ 7 (List (CommonParams_items p)))
      by done.
    rewrite CommonParams_decodes; [|done|].
    2: { eapply fits_elem; [eassumption|]. by eapply (list_elem_of_lookup_2 _ 7). }
    rewrite !Ok_bind. item_decodes.
  - apply andb_true_iff in E as [->%N.eqb_eq ->%N.eqb_eq].
    eapply (item_count_step _ 4); [eassumption|reflexivity|]. cbn [N.eqb Pos.eqb].
    rewrite Ok_bind. item_decodes.
  - eapply (item_count_step _ 6); [eassumption|reflexivity|]. cbn [N.eqb Pos.eqb].
    rewrite (val_at_field u64_codec _ 4 last), (val_at_field u64_codec _ 5 id), !Ok_bind by done.
    item_decodes.
Qed.

Lemma codec_roundtrip {T} (c : Codec T) `{CodecOk T c} x :
  wf c x → fits (item c x) →
  ∃ bs, drain (rlp_append c x) = Ok bs ∧ decode c bs = Ok x.
Proof.
  intros Hw Hf. exists (enc (item c x)).
  split; [apply drain_encodes; [apply codec_encodes|done]|by apply codec_decodes].
Qed.

(** * Properties *)

(** Every item of the state is read back from the trie as it was written: encoding a
    value of any of the eight item types and decoding the bytes gives that value. *)
Theorem state_items_roundtrip :
  (∀ a, wf OwnedAsset_codec a → fits (item OwnedAsset_codec a) →
     ∃ bs, drain (rlp_append OwnedAsset_codec a) = Ok bs ∧ decode OwnedAsset_codec bs = Ok a) ∧
  (∀ a, wf AssetScheme_codec a → fits (item AssetScheme_codec a) →
     ∃ bs, drain (rlp_append AssetScheme_codec a) = Ok bs ∧ decode AssetScheme_codec bs = Ok a) ∧
  (∀ a, wf Account_codec a → fits (item Account_codec a) →
     ∃ bs, drain (rlp_append Account_codec a) = Ok bs ∧ decode Account_codec bs = Ok a) ∧
  (∀ a, wf RegularAccount_codec a → fits (item RegularAccount_codec a) →
     ∃ bs, drain (rlp_append RegularAccount_codec a) = Ok bs ∧
           decode RegularAccount_codec bs = Ok a) ∧
  (∀ a, wf Shard_codec a → fits (item Shard_codec a) →
     ∃ bs, drain (rlp_append Shard_codec a) = Ok bs ∧ decode Shard_codec bs = Ok a) ∧
  (∀ a, wf Text_codec a → fits (item Text_codec a) →
     ∃ bs, drain (rlp_append Text_codec a) = Ok bs ∧ decode Text_codec bs = Ok a) ∧
  (∀ a, fits (Data a) →
     ∃ bs, drain (rlp_append ActionData_codec a) = Ok bs ∧ decode ActionData_codec bs = Ok a) ∧
  (∀ m, Metadata_wf m → fits (List (Metadata_items m)) →
     ∃ bs, drain (Metadata_append m) = Ok bs ∧ Metadata_decode bs = Ok m).
Proof.
  split_and!; try (intros a Hw Hf; exact (codec_roundtrip _ a Hw Hf)).
  - intros a Hf. exact (codec_roundtrip bytes_codec a I Hf).
  - intros m Hw Hf. exists (enc (List (Metadata_items m))).
    split; [apply drain_encodes; [by apply Metadata_encodes|done]|by apply Metadata_decodes].
Qed.

Section AddressProofs.
Context `{CryptoLaws} `{Primitives}.

Lemma from_hash_with_shard_id_shape prefix input index shard_id :
  shard_id < u16_size →
  len (from_hash_with_shard_id prefix input index shard_id) = 32 ∧
  is_valid_format prefix (from_hash_with_shard_id prefix input index shard_id) = true ∧
  address_shard_id (from_hash_with_shard_id prefix input index shard_id) = Some shard_id.
Proof.
  intros Hs. pose proof (to_be_bytes_length 2 shard_id) as Hl.
  pose proof (from_to_be_bytes 2 shard_id Hs) as Hb.
  pose proof (blake2b_len 32 (H128_from index) input) as H32.
  unfold from_hash_with_shard_id, blake256_with_key, address_shard_id, is_valid_format.
  destruct (to_be_bytes 2 shard_id) as [|b [|c [|]]]; try done. split_and!.
  - unfold len in *. simpl. rewrite length_drop. lia.
  - simpl. apply N.eqb_refl.
  - simpl. by rewrite <- Hb.
Qed.

(** The address of an asset or of an asset scheme carries its shard: the identifier
    can be read back, so items of two shards never share an address, and an asset and
    a scheme never do, whatever the hash function is. *)
Theorem shard_addresses_disjoint (tracker1 tracker2 : H256) (index1 index2 : N)
    (asset_type1 asset_type2 : H160) (shard1 shard2 : ShardId) :
  shard1 < u16_size → shard2 < u16_size →
  address_shard_id (OwnedAssetAddress_new tracker1 index1 shard1) = Some shard1 ∧
  address_shard_id (AssetSchemeAddress_new asset_type1 shard1) = Some shard1 ∧
  OwnedAssetAddress_new tracker1 index1 shard1 ≠ AssetSchemeAddress_new asset_type2 shard2 ∧
  (OwnedAssetAddress_new tracker1 index1 shard1 = OwnedAssetAddress_new tracker2 index2 shard2 →
     shard1 = shard2) ∧
  (AssetSchemeAddress_new asset_type1 shard1 = AssetSchemeAddress_new asset_type2 shard2 →
     shard1 = shard2).
Proof.
  intros Hs1 Hs2.
  assert (∀ p i x s, s < u16_size → address_shard_id (from_hash_with_shard_id p i x s) = Some s)
    as Hid by (intros; by apply from_hash_with_shard_id_shape).
  unfold OwnedAssetAddress_new, AssetSchemeAddress_new. split_and!; [auto|auto|done| |].
  - intros Heq%(f_equal address_shard_id). rewrite !Hid in Heq by done. congruence.
  - intros Heq%(f_equal address_shard_id). rewrite !Hid in Heq by done. congruence.
Qed.
End AddressProofs.

(** A concrete instance, to evaluate definitions on examples. *)
Definition sample_primitives : Primitives :=
  {| H128_from n := to_be_bytes 16 n; H256_from_slice s := Sample.fit 32 s |}.

Lemma shard_addresses_disjoint_witness :
  address_shard_id (@OwnedAssetAddress_new Sample.crypto sample_primitives (replicate 32 7) 3 500)
    = Some 500.
Proof.
  apply (@shard_addresses_disjoint Sample.crypto Sample.laws sample_primitives
    (replicate 32 7) [] 3 0 [] [] 500 1); done.
Defined.
