(* ===== verification/ShardState.v ===== *)
(** The state of a shard, [state/src/impls/shard_level.rs]: minting, transferring,
    composing, decomposing, wrapping and unwrapping assets over the write-back caches
    of a shard, and the checkpoint that makes a shard transaction atomic. *)

From stdpp Require Import base gmap list numbers.
From S2P Require Import Prelude Types Crypto Tag VmDecode Vm TxHash TxVerify StateCache StateItems.

Local Open Scope N_scope.

(** * Errors *)

Module UnlockFailureReason.
Inductive t := ScriptShouldBeBurnt | ScriptShouldNotBeBurnt | ScriptError.
#[global] Instance t_eq_dec : EqDecision t.
Proof. solve_decision. Defined.
End UnlockFailureReason.

(** [enum Error] of [types/src/errors/runtime_error.rs]. *)
Module RuntimeError.
Inductive t :=
| AssetNotFound (shard_id : ShardId) (tracker : H256) (index : N)
| AssetSchemeDuplicated (tracker : H256) (shard_id : ShardId)
| AssetSchemeNotFound (asset_type : H160) (shard_id : ShardId)
| InvalidSeqOfAssetScheme (asset_type : H160) (shard_id : ShardId) (expected actual : N)
| AssetSupplyOverflow
| CannotBurnRegulatedAsset
| CannotComposeRegulatedAsset
| FailedToHandleCustomAction (text : String)
| FailedToUnlock (shard_id : ShardId) (tracker : H256) (index : N) (reason : UnlockFailureReason.t)
| InsufficientBalance (address : Address) (balance cost : N)
| InsufficientPermission
| InvalidAssetQuantity (shard_id : ShardId) (tracker : H256) (index expected got : N)
| UnexpectedAssetType (index : N) (expected found : H160)
| InvalidDecomposedInput (asset_type : H160) (shard_id : ShardId) (got : N)
| InvalidDecomposedOutput (asset_type : H160) (shard_id : ShardId) (expected got : N)
| InvalidOriginOutputs (hash : H256)
| InvalidScript
| InvalidSeq (expected found : N)
| InvalidShardId (shard_id : ShardId)
| InvalidTransferDestination
| NewOwnersMustContainSender
| NotApproved (address : Address)
| RegularKeyAlreadyInUse
| RegularKeyAlreadyInUseAsPlatformAccount
| ScriptHashMismatch (expected found : H160)
| ScriptNotAllowed (hash : H160)
| TextNotExist
| TextVerificationFail (text : String)
| CannotUseMasterKey
| NonActiveAccount (address : Address) (name : String)
| SignatureOfInvalidAccount (address : Address)
| InsufficientStakes (expected found : N)
| InvalidValidatorIndex (idx parent_height : N).
#[global] Instance t_eq_dec : EqDecision t.
Proof. solve_decision. Defined.
End RuntimeError.

(** [state/src/error.rs]. *)
Module StateError.
Inductive t :=
| Trie (e : TrieError.t)
| Runtime (e : RuntimeError.t).
#[global] Instance t_eq_dec : EqDecision t.
Proof. solve_decision. Defined.
End StateError.

(** * The caches of a shard, [state/src/cache/shard_cache.rs] *)

Record ShardCache := {
  sc_asset_scheme : WriteBack AssetScheme;
  sc_asset : WriteBack OwnedAsset;
}.

Definition ShardCache_default : ShardCache := {| sc_asset_scheme := wb_new; sc_asset := wb_new |}.

Definition sc_checkpoint (self : ShardCache) : ShardCache :=
  {| sc_asset_scheme := wb_checkpoint (sc_asset_scheme self);
     sc_asset := wb_checkpoint (sc_asset self) |}.
Definition sc_discard_checkpoint (self : ShardCache) : ShardCache :=
  {| sc_asset_scheme := wb_discard_checkpoint (sc_asset_scheme self);
     sc_asset := wb_discard_checkpoint (sc_asset self) |}.
Definition sc_revert_to_checkpoint (self : ShardCache) : ShardCache :=
  {| sc_asset_scheme := wb_revert_to_checkpoint (sc_asset_scheme self);
     sc_asset := wb_revert_to_checkpoint (sc_asset self) |}.

(** The changing part of [struct ShardLevelState]; the last checkpoint identifier is the
    head of the list. *)
Record ShardLevel := {
  sl_cache : ShardCache;
  sl_id_of_checkpoints : list N;
}.

(** The part that stays: the trie at the shard's root, read through the two caches, and
    the shard's identifier. *)
Record ShardEnv := {
  se_db_asset_scheme : bytes → result TrieError.t (option AssetScheme);
  se_db_asset : bytes → result TrieError.t (option OwnedAsset);
  se_shard_id : ShardId;
}.

Abbreviation shardM := (stM ShardLevel StateError.t).

(** [impl From<TrieError>] at a [?]. *)
Definition with_trie_error {S A : Type} (m : stM S TrieError.t A) : stM S StateError.t A := λ s,
  let (r, s') := m s in (map_err StateError.Trie r, s').

Definition on_asset_schemes {A : Type} (m : stM (WriteBack AssetScheme) StateError.t A)
  : shardM A := λ s,
  let (r, c) := m (sc_asset_scheme (sl_cache s)) in
  (r, {| sl_cache := {| sc_asset_scheme := c; sc_asset := sc_asset (sl_cache s) |};
         sl_id_of_checkpoints := sl_id_of_checkpoints s |}).

Definition on_assets {A : Type} (m : stM (WriteBack OwnedAsset) StateError.t A) : shardM A := λ s,
  let (r, c) := m (sc_asset (sl_cache s)) in
  (r, {| sl_cache := {| sc_asset_scheme := sc_asset_scheme (sl_cache s); sc_asset := c |};
         sl_id_of_checkpoints := sl_id_of_checkpoints s |}).

Definition throw {A : Type} (e : RuntimeError.t) : shardM A := throw_st (StateError.Runtime e).

(** [o.ok_or_else(|| e)?] *)
Definition or_throw {A : Type} (o : option A) (e : RuntimeError.t) : shardM A :=
  match o with Some a => mret a | None => throw e end.

(** [v[index] = x], which unwinds when the index is out of range. *)
Definition set_index {E A : Type} (v : list A) (index : N) (x : A) : result E (list A) :=
  _ ← assert (index <? len v); Ok (<[N.to_nat index := x]> v).

(** The loops that fill [values_to_hash] and [output_order_hashes]. *)
Definition fill_indices {E A B : Type} (f : A → result E B) (indices : A → list N) (n : nat)
    (l : list A) : result E (list (option B)) :=
  fold_res (λ acc x, fold_res (λ acc i, y ← f x; set_index acc i (Some y)) acc (indices x))
    (replicate n None) l.

Section ShardLevelState.
Context `{Crypto} `{Primitives} `{ChainTimeInfo}.
Context (env : ShardEnv) (parent_block_number parent_block_timestamp : N).

(** The order in which a hash map of quantities is walked, which differs from one run of
    the node to the next. *)
Variable walk : gmap H160 N → list (H160 * N).

Local Abbreviation shard_id := (se_shard_id env).

Definition asset_scheme (asset_type : H160) : shardM (option AssetScheme) :=
  on_asset_schemes (with_trie_error
    (wb_get (AssetSchemeAddress_new asset_type shard_id) (se_db_asset_scheme env))).

Definition asset (tracker : H256) (index : N) : shardM (option OwnedAsset) :=
  on_assets (with_trie_error
    (wb_get (OwnedAssetAddress_new tracker index shard_id) (se_db_asset env))).

Definition kill_asset (tracker : H256) (index : N) : shardM () :=
  on_assets (modify_st (wb_remove (OwnedAssetAddress_new tracker index shard_id))).

Definition create_asset_scheme (asset_type : H160) (metadata : String) (supply : N)
    (approver registrar : option Address) (allowed_script_hashes : list H160)
    (pool : list Asset) : shardM AssetScheme :=
  on_asset_schemes (with_trie_error
    (wb_create (AssetSchemeAddress_new asset_type shard_id)
       (AssetScheme_new_with_pool metadata supply approver registrar allowed_script_hashes pool))).

(** [get_asset_scheme_mut] and the body that uses the reference. *)
Definition with_asset_scheme_mut {B : Type} (asset_type : H160)
    (f : stM AssetScheme StateError.t B) : shardM B :=
  on_asset_schemes
    (wb_with_mut StateError.Trie AssetScheme_default (AssetSchemeAddress_new asset_type shard_id)
       (se_db_asset_scheme env) f).

Definition create_asset (tracker : H256) (index : N) (asset_type lock_script_hash : H160)
    (parameters : list bytes) (quantity : N) (order_hash : option H256) : shardM OwnedAsset :=
  on_assets (with_trie_error
    (wb_create (OwnedAssetAddress_new tracker index shard_id)
       (OwnedAsset_new asset_type lock_script_hash parameters quantity order_hash))).

(** The supply of a scheme changed through its reference. *)
Definition reduce_supply_mut (quantity : N) : stM AssetScheme StateError.t () := λ s,
  match reduce_supply quantity s with
  | Some s' => (Ok tt, s')
  | None => (Panic, s)
  end.

Definition increase_supply_mut (quantity : N) : stM AssetScheme StateError.t () := λ s,
  match increase_supply quantity s with
  | Some s' => (Ok tt, s')
  | None => (Err (StateError.Runtime RuntimeError.AssetSupplyOverflow), s)
  end.

Definition mint_asset (transaction_tracker : H256) (metadata : String) (output : AssetMintOutput)
    (approver : option Address) (approvers : list Address) (registrar : option Address)
    (allowed_script_hashes : list H160) (sender : Address) (shard_users : list Address)
    (pool : list Asset) : shardM () :=
  _ ← (if negb (len shard_users =? 0) &&
          negb (existsb (λ user, bool_decide (user ∈ sender :: approvers)) shard_users)
       then throw RuntimeError.InsufficientPermission else mret tt);
  let asset_type := blake160 transaction_tracker in
  scheme ← asset_scheme asset_type;
  _ ← (match scheme with
       | Some _ => throw (RuntimeError.AssetSchemeDuplicated transaction_tracker shard_id)
       | None => mret tt
       end);
  _ ← create_asset_scheme asset_type metadata (amo_supply output) approver registrar
        allowed_script_hashes pool;
  _ ← create_asset transaction_tracker 0 asset_type (amo_lock_script_hash output)
        (amo_parameters output) (amo_supply output) None;
  mret tt.

Definition approved_by_registrar (asset_type : H160) (sender : Address) (approvers : list Address)
  : shardM bool :=
  scheme ← asset_scheme asset_type;
  scheme ← or_throw scheme (RuntimeError.AssetSchemeNotFound asset_type shard_id);
  match sch_registrar scheme with
  | Some registrar => mret (bool_decide (registrar = sender) || bool_decide (registrar ∈ approvers))
  | None => mret false
  end.

Definition change_asset_scheme (sender : Address) (approvers : list Address) (asset_type : H160)
    (seq : N) (metadata : String) (approver registrar : option Address)
    (allowed_script_hashes : list H160) : shardM () :=
  approved ← approved_by_registrar asset_type sender approvers;
  if negb approved then throw RuntimeError.InsufficientPermission
  else
    with_asset_scheme_mut asset_type
      (scheme ← get_st;
       if negb (sch_seq scheme =? seq) then
         throw_st (StateError.Runtime
           (RuntimeError.InvalidSeqOfAssetScheme asset_type shard_id (sch_seq scheme) seq))
       else
         _ ← modify_st (change_data metadata approver registrar allowed_script_hashes);
         modify_st AssetScheme_increase_seq).

Definition increase_asset_supply (transaction_tracker : H256) (seq : N) (sender : Address)
    (approvers : list Address) (asset_type : H160) (output : AssetMintOutput) : shardM () :=
  approved ← approved_by_registrar asset_type sender approvers;
  if negb approved then throw RuntimeError.InsufficientPermission
  else
    _ ← lift_st (assert (0 <? amo_supply output));
    _ ← with_asset_scheme_mut asset_type
          (scheme ← get_st;
           if negb (seq =? sch_seq scheme) then
             throw_st (StateError.Runtime
               (RuntimeError.InvalidSeqOfAssetScheme asset_type shard_id (sch_seq scheme) seq))
           else
             _ ← increase_supply_mut (amo_supply output);
             modify_st AssetScheme_increase_seq);
    _ ← create_asset transaction_tracker 0 asset_type (amo_lock_script_hash output)
          (amo_parameters output) (amo_supply output) None;
    mret tt.

Definition check_input_asset (input : AssetTransferInput) (sender : Address)
    (approvers : list Address) : shardM (OwnedAsset * bool) :=
  let prev_out := ati_prev_out input in
  let index := aop_index prev_out in
  let tracker := aop_tracker prev_out in
  let asset_type := aop_asset_type prev_out in
  let quantity := aop_quantity prev_out in
  _ ← lift_st (assert (shard_id =? aop_shard_id prev_out));
  approved_by_regulator ← approved_by_registrar asset_type sender approvers;
  _ ← (if negb approved_by_regulator then
         scheme ← asset_scheme asset_type;
         scheme ← or_throw scheme
           (RuntimeError.AssetSchemeNotFound asset_type (aop_shard_id prev_out));
         match sch_approver scheme with
         | Some approver =>
             if negb (bool_decide (sender = approver)) && negb (bool_decide (approver ∈ approvers))
             then throw (RuntimeError.NotApproved approver)
             else mret tt
         | None => mret tt
         end
       else mret tt);
  a ← asset tracker index;
  a ← or_throw a (RuntimeError.AssetNotFound (aop_shard_id prev_out) tracker index);
  if negb (oa_quantity a =? quantity) then
    throw (RuntimeError.InvalidAssetQuantity (aop_shard_id prev_out) tracker index
             (oa_quantity a) quantity)
  else if negb (bool_decide (oa_asset_type a = asset_type)) then
    throw (RuntimeError.UnexpectedAssetType index (oa_asset_type a) asset_type)
  else mret (a, approved_by_regulator).

Definition check_output_script_hash (output : AssetTransferOutput) (sender : Address)
    (approvers : list Address) : shardM () :=
  _ ← lift_st (assert (shard_id =? ato_shard_id output));
  scheme ← asset_scheme (ato_asset_type output);
  scheme ← or_throw scheme (RuntimeError.AssetSchemeNotFound (ato_asset_type output) shard_id);
  if match sch_registrar scheme with
     | Some registrar => bool_decide (sender = registrar) || bool_decide (registrar ∈ approvers)
     | None => false
     end
  then mret tt
  else if is_allowed_script_hash scheme (ato_lock_script_hash output) then mret tt
  else throw (RuntimeError.ScriptNotAllowed (ato_lock_script_hash output)).

(** The script part of [check_and_run_input_script]: decoding, running and judging. *)
Definition run_scripts (input : AssetTransferInput) (parameters : list bytes)
    (to_hash : Tag.Tag → AssetTransferInput → bool → result HashingError H256) (burn : bool)
  : result StateError.t () :=
  match VmDecode.decode (ati_lock_script input), VmDecode.decode (ati_unlock_script input) with
  | Panic, _ | _, Panic => Panic
  | Ok lock_script, Ok unlock_script =>
      let unlock_failure reason := Err (StateError.Runtime
        (RuntimeError.FailedToUnlock shard_id (aop_tracker (ati_prev_out input))
           (aop_index (ati_prev_out input)) reason)) in
      match execute to_hash input burn parent_block_number parent_block_timestamp
              unlock_script parameters lock_script Config_default, burn with
      | Ok ScriptResult.Burnt, true => Ok tt
      | Ok ScriptResult.Burnt, false => unlock_failure UnlockFailureReason.ScriptShouldBeBurnt
      | Ok ScriptResult.Unlocked, false => Ok tt
      | Ok ScriptResult.Unlocked, true => unlock_failure UnlockFailureReason.ScriptShouldNotBeBurnt
      | Ok ScriptResult.Fail, _ | Err _, _ => unlock_failure UnlockFailureReason.ScriptError
      | Panic, _ => Panic
      end
  | _, _ => Err (StateError.Runtime RuntimeError.InvalidScript)
  end.

(** [order] is the order the input belongs to. *)
Definition check_and_run_input_script (input : AssetTransferInput)
    (transaction : ShardTransaction.t) (order : option Order) (burn : bool) (sender : Address)
    (approvers : list Address) : shardM () :=
  '(a, from_regulator) ← check_input_asset input sender approvers;
  if (from_regulator : bool) then mret tt
  else
    if match order, oa_order_hash a with
       | Some order, Some order_hash => bool_decide (order_hash = Order_hash order)
       | _, _ => false
       end
    then mret tt
    else
      let to_hash := match order with
                     | Some order => Order_hash_partially order
                     | None => ShardTransaction_hash_partially transaction
                     end in
      if negb (bool_decide (oa_lock_script_hash a = blake160 (ati_lock_script input))) then
        throw (RuntimeError.ScriptHashMismatch (oa_lock_script_hash a)
                 (blake160 (ati_lock_script input)))
      else lift_st (run_scripts input (oa_parameters a) to_hash burn).

(** The loop of [check_orders] over the inputs of one order counts the inputs that are
    origin outputs. *)
Fixpoint check_order_inputs (order : Order) (inputs : list AssetTransferInput)
    (indices : list N) (counter : N) : shardM N :=
  match indices with
  | [] => mret counter
  | input_idx :: indices =>
      input ← lift_st (expect (inputs !! N.to_nat input_idx));
      let prev_out := ati_prev_out input in
      if negb (aop_shard_id prev_out =? shard_id) then
        check_order_inputs order inputs indices counter
      else
        a ← asset (aop_tracker prev_out) (aop_index prev_out);
        a ← or_throw a
          (RuntimeError.AssetNotFound shard_id (aop_tracker prev_out) (aop_index prev_out));
        if match oa_order_hash a with
           | Some order_hash => bool_decide (order_hash = Order_hash order)
           | None => false
           end
        then check_order_inputs order inputs indices counter
        else if bool_decide (prev_out ∈ ord_origin_outputs order)
        then check_order_inputs order inputs indices (counter + 1)
        else throw (RuntimeError.InvalidOriginOutputs (Order_hash order))
  end.

Definition check_orders (orders : list OrderOnTransfer) (inputs : list AssetTransferInput)
  : shardM () :=
  for_each (λ order_tx,
    let order := oot_order order_tx in
    counter ← check_order_inputs order inputs
      (oot_input_from_indices order_tx ++ oot_input_fee_indices order_tx) 0;
    if (0 <? counter) && negb (counter =? len (ord_origin_outputs order)) then
      throw (RuntimeError.InvalidOriginOutputs (Order_hash order))
    else mret tt) orders.

(** [values_to_hash] *)
Definition input_orders (inputs : list AssetTransferInput) (orders : list OrderOnTransfer)
  : result StateError.t (list (option Order)) :=
  fill_indices (λ order_tx, Ok (oot_order order_tx))
    (λ order_tx, oot_input_from_indices order_tx ++ oot_input_fee_indices order_tx)
    (length inputs) orders.

Definition output_order_hashes (outputs : list AssetTransferOutput) (orders : list OrderOnTransfer)
  : result StateError.t (list (option H256)) :=
  fill_indices
    (λ order_tx,
       consumed ← Order_consume (oot_order order_tx) (oot_spent_quantity order_tx);
       Ok (Order_hash consumed))
    (λ order_tx,
       oot_output_from_indices order_tx ++ oot_output_to_indices order_tx ++
       oot_output_owned_fee_indices order_tx ++ oot_output_transferred_fee_indices order_tx)
    (length outputs) orders.

(** The inputs with the order of each, then the burns, skipping other shards. *)
Definition on_this_shard (input : AssetTransferInput) : bool :=
  aop_shard_id (ati_prev_out input) =? shard_id.

Definition run_input_scripts (transaction : ShardTransaction.t) (sender : Address)
    (approvers : list Address) (burns inputs : list AssetTransferInput)
    (values_to_hash : list (option Order)) : shardM () :=
  for_each (λ '(input, order, burn),
    if negb (on_this_shard input) then mret tt
    else check_and_run_input_script input transaction order burn sender approvers)
    (zip_with (λ input order, (input, order, false)) inputs values_to_hash ++
     ((λ input, (input, None, true)) <$> burns)).

Definition kill_inputs (inputs : list AssetTransferInput) : shardM () :=
  for_each (λ input,
    if negb (on_this_shard input) then mret tt
    else kill_asset (aop_tracker (ati_prev_out input)) (aop_index (ati_prev_out input))) inputs.

(** The loop that stores the outputs, from [index] on. *)
Fixpoint create_outputs (transaction_tracker : H256) (sender : Address) (approvers : list Address)
    (order_hashes : list (option H256)) (index : N) (outputs : list AssetTransferOutput)
  : shardM () :=
  match outputs with
  | [] => mret tt
  | output :: outputs =>
      _ ← (if negb (ato_shard_id output =? shard_id) then mret tt
           else
             _ ← check_output_script_hash output sender approvers;
             order_hash ← lift_st (expect (order_hashes !! N.to_nat index));
             _ ← create_asset transaction_tracker index (ato_asset_type output)
                   (ato_lock_script_hash output) (ato_parameters output) (ato_quantity output)
                   order_hash;
             mret tt);
      create_outputs transaction_tracker sender approvers order_hashes (index + 1) outputs
  end.

Definition reduce_burns (burns : list AssetTransferInput) : shardM () :=
  for_each (λ burn,
    if negb (on_this_shard burn) then mret tt
    else with_asset_scheme_mut (aop_asset_type (ati_prev_out burn))
           (reduce_supply_mut (aop_quantity (ati_prev_out burn)))) burns.

Definition transfer_asset (transaction : ShardTransaction.t) (sender : Address)
    (approvers : list Address) (burns inputs : list AssetTransferInput)
    (outputs : list AssetTransferOutput) (orders : list OrderOnTransfer) : shardM () :=
  values_to_hash ← lift_st (input_orders inputs orders);
  _ ← run_input_scripts transaction sender approvers burns inputs values_to_hash;
  _ ← check_orders orders inputs;
  order_hashes ← lift_st (output_order_hashes outputs orders);
  _ ← kill_inputs (inputs ++ burns);
  _ ← create_outputs (ShardTransaction_tracker transaction) sender approvers order_hashes 0 outputs;
  reduce_burns burns.

(** [*sum.entry(key).or_insert_with(Default::default) += quantity] *)
Definition add_sum (key : H160) (quantity : N) (sum : gmap H160 N) : gmap H160 N :=
  <[key := u64_add (default 0 (sum !! key)) quantity]> sum.

(** The loop of [compose_asset]: each input is unlocked, checked and removed.  All keys
    of the code's map are on this shard, so the asset type alone is the key. *)
Fixpoint compose_inputs (transaction : ShardTransaction.t) (sender : Address)
    (approvers : list Address) (inputs : list AssetTransferInput) (sum : gmap H160 N)
  : shardM (gmap H160 N) :=
  match inputs with
  | [] => mret sum
  | input :: inputs =>
      let prev_out := ati_prev_out input in
      if negb (on_this_shard input) then compose_inputs transaction sender approvers inputs sum
      else
        _ ← check_and_run_input_script input transaction None false sender approvers;
        scheme ← asset_scheme (aop_asset_type prev_out);
        scheme ← or_throw scheme
          (RuntimeError.AssetSchemeNotFound (aop_asset_type prev_out) (aop_shard_id prev_out));
        if is_regulated scheme then throw RuntimeError.CannotComposeRegulatedAsset
        else
          _ ← kill_asset (aop_tracker prev_out) (aop_index prev_out);
          compose_inputs transaction sender approvers inputs
            (add_sum (aop_asset_type prev_out) (aop_quantity prev_out) sum)
  end.

Definition pool_of (sum : gmap H160 N) : list Asset :=
  (λ '(asset_type, quantity), {| as_asset_type := asset_type; as_quantity := quantity |}) <$>
  walk sum.

Definition compose_asset (transaction : ShardTransaction.t) (metadata : String)
    (approver registrar : option Address) (allowed_script_hashes : list H160)
    (inputs : list AssetTransferInput) (output : AssetMintOutput) (sender : Address)
    (approvers shard_users : list Address) (output_shard_id : ShardId) : shardM () :=
  sum ← compose_inputs transaction sender approvers inputs ∅;
  if output_shard_id =? shard_id then
    mint_asset (ShardTransaction_tracker transaction) metadata output approver approvers registrar
      allowed_script_hashes sender shard_users (pool_of sum)
  else mret tt.

Definition sum_decomposed (outputs : list AssetTransferOutput) : gmap H160 N :=
  foldl (λ sum output, add_sum (ato_asset_type output) (ato_quantity output) sum) ∅ outputs.

(** The outputs of a decomposition are exactly the pool. *)
Fixpoint check_pool (pool : list Asset) (sum : gmap H160 N) : result StateError.t () :=
  match pool with
  | [] =>
      match vec_pop (walk sum) with
      | None => Ok tt
      | Some ((asset_type, quantity), _) =>
          Err (StateError.Runtime (RuntimeError.InvalidDecomposedOutput asset_type shard_id 0 quantity))
      end
  | a :: pool =>
      match sum !! as_asset_type a with
      | None =>
          Err (StateError.Runtime
            (RuntimeError.InvalidDecomposedOutput (as_asset_type a) shard_id (as_quantity a) 0))
      | Some value =>
          if negb (value =? as_quantity a) then
            Err (StateError.Runtime
              (RuntimeError.InvalidDecomposedOutput (as_asset_type a) shard_id (as_quantity a) value))
          else check_pool pool (delete (as_asset_type a) sum)
      end
  end.

Definition decompose_asset (transaction : ShardTransaction.t) (input : AssetTransferInput)
    (outputs : list AssetTransferOutput) (sender : Address) (approvers : list Address)
  : shardM () :=
  let prev_out := ati_prev_out input in
  let asset_type := aop_asset_type prev_out in
  _ ← (if shard_id =? aop_shard_id prev_out then
         scheme ← asset_scheme asset_type;
         scheme ← or_throw scheme
           (RuntimeError.AssetSchemeNotFound asset_type (aop_shard_id prev_out));
         if len (sch_pool scheme) =? 0 then
           throw (RuntimeError.InvalidDecomposedInput asset_type (aop_shard_id prev_out) 0)
         else
           _ ← lift_st (check_pool (sch_pool scheme) (sum_decomposed outputs));
           _ ← check_and_run_input_script input transaction None false sender approvers;
           _ ← kill_asset (aop_tracker prev_out) (aop_index prev_out);
           with_asset_scheme_mut asset_type (reduce_supply_mut (aop_quantity prev_out))
       else mret tt);
  create_outputs (ShardTransaction_tracker transaction) sender approvers
    (replicate (length outputs) None) 0 outputs.

Definition wrap_ccc (tx_hash : H256) (lock_script_hash : H160) (parameters : list bytes)
    (quantity : N) : shardM () :=
  let asset_type := H160_zero in
  scheme ← asset_scheme asset_type;
  _ ← (match scheme with
       | None => _ ← create_asset_scheme asset_type [] 0 None None [] []; mret tt
       | Some _ => mret tt
       end);
  _ ← with_asset_scheme_mut asset_type (increase_supply_mut quantity);
  _ ← create_asset tx_hash 0 asset_type lock_script_hash parameters quantity None;
  mret tt.

Definition unwrap_ccc (transaction : ShardTransaction.t) (sender : Address)
    (burn : AssetTransferInput) : shardM () :=
  _ ← check_and_run_input_script burn transaction None true sender [];
  _ ← kill_asset (aop_tracker (ati_prev_out burn)) (aop_index (ati_prev_out burn));
  with_asset_scheme_mut H160_zero (reduce_supply_mut (aop_quantity (ati_prev_out burn))).

Definition shard_apply_internal (transaction : ShardTransaction.t) (sender : Address)
    (shard_users approvers : list Address) : shardM () :=
  match transaction with
  | ShardTransaction.MintAsset _ id metadata approver registrar allowed output =>
      _ ← lift_st (assert (id =? shard_id));
      mint_asset (ShardTransaction_tracker transaction) metadata output approver approvers
        registrar allowed sender shard_users []
  | ShardTransaction.TransferAsset _ burns inputs outputs orders =>
      transfer_asset transaction sender approvers burns inputs outputs orders
  | ShardTransaction.ChangeAssetScheme _ id asset_type seq metadata approver registrar allowed =>
      _ ← lift_st (assert (id =? shard_id));
      change_asset_scheme sender approvers asset_type seq metadata approver registrar allowed
  | ShardTransaction.IncreaseAssetSupply _ id asset_type seq output =>
      _ ← lift_st (assert (id =? shard_id));
      increase_asset_supply (ShardTransaction_tracker transaction) seq sender approvers asset_type
        output
  | ShardTransaction.ComposeAsset _ id metadata approver registrar allowed inputs output =>
      compose_asset transaction metadata approver registrar allowed inputs output sender approvers
        shard_users id
  | ShardTransaction.DecomposeAsset _ input outputs =>
      decompose_asset transaction input outputs sender approvers
  | ShardTransaction.UnwrapCCC _ burn _ =>
      _ ← lift_st (assert (aop_shard_id (ati_prev_out burn) =? shard_id));
      unwrap_ccc transaction sender burn
  | ShardTransaction.WrapCCC _ id tx_hash output =>
      _ ← lift_st (assert (id =? shard_id));
      wrap_ccc tx_hash (awo_lock_script_hash output) (awo_parameters output) (awo_quantity output)
  end.
End ShardLevelState.

(** * Checkpoints *)

Definition TRANSACTION_CHECKPOINT : N := 456.

Definition sl_create_checkpoint (id : N) : shardM () :=
  modify_st (λ s, {| sl_cache := sc_checkpoint (sl_cache s);
                     sl_id_of_checkpoints := id :: sl_id_of_checkpoints s |}).

(** [let expected = self.id_of_checkpoints.pop().expect(..); assert_eq!(expected, id);] and
    the same call on the caches. *)
Definition sl_close_checkpoint (close : ShardCache → ShardCache) (id : N) : shardM () := λ s,
  match sl_id_of_checkpoints s with
  | [] => (Panic, s)
  | expected :: rest =>
      if expected =? id then
        (Ok tt, {| sl_cache := close (sl_cache s); sl_id_of_checkpoints := rest |})
      else (Panic, {| sl_cache := sl_cache s; sl_id_of_checkpoints := rest |})
  end.

Definition sl_discard_checkpoint : N → shardM () := sl_close_checkpoint sc_discard_checkpoint.
Definition sl_revert_to_checkpoint : N → shardM () := sl_close_checkpoint sc_revert_to_checkpoint.

Section Apply.
Context `{Crypto} `{Primitives} `{ChainTimeInfo}.
Context (env : ShardEnv) (parent_block_number parent_block_timestamp : N).
Variable walk : gmap H160 N → list (H160 * N).

(** [impl ShardState for ShardLevelState] *)
Definition shard_apply (transaction : ShardTransaction.t) (sender : Address)
    (shard_users approvers : list Address) : shardM () := λ s0,
  let (_, s1) := sl_create_checkpoint TRANSACTION_CHECKPOINT s0 in
  let (result, s2) := shard_apply_internal env parent_block_number parent_block_timestamp walk
                        transaction sender shard_users approvers s1 in
  match result with
  | Ok _ => sl_discard_checkpoint TRANSACTION_CHECKPOINT s2
  | Err err =>
      let (r, s3) := sl_revert_to_checkpoint TRANSACTION_CHECKPOINT s2 in
      (_ ← r; Err err, s3)
  | Panic => (Panic, s2)
  end.
End Apply.

(** * Snapshots of a shard *)

(** What a shard shows: the asset scheme and the asset at every address. *)
Abbreviation shard_view := ((bytes → option AssetScheme) * (bytes → option OwnedAsset))%type.

(** The shard shows [v], and its checkpoints restore [saved]. *)
Definition shard_snap (env : ShardEnv) (c : ShardCache) (v : shard_view) (saved : list shard_view)
  : Prop :=
  snapshots (se_db_asset_scheme env) (sc_asset_scheme c) v.1 (fst <$> saved) ∧
  snapshots (se_db_asset env) (sc_asset c) v.2 (snd <$> saved).

(** The checkpoints in force, with the snapshots they restore. *)
Definition framed (env : ShardEnv) (saved : list shard_view) (ids : list N) (s : ShardLevel)
  : Prop :=
  (∃ v, shard_snap env (sl_cache s) v saved) ∧ sl_id_of_checkpoints s = ids.

(** Opens a [keeps] goal along the structure of the computation. *)
Create HintDb frame_db.
#[export] Hint Resolve keeps_ret keeps_lift keeps_throw : frame_db.
Ltac frame_tac :=
  repeat first
    [ solve [auto with frame_db]
    | match goal with
      | |- keeps _ (_ ≫= _) => apply keeps_bind; [|intros ?]
      | |- keeps _ (for_each _ _) => apply keeps_for_each; intros ?
      | |- keeps _ (if ?b then _ else _) => destruct b
      | |- keeps _ (match ?x with _ => _ end) => destruct x
      end ].

Section Frames.
Context `{Crypto} `{Primitives} `{ChainTimeInfo}.
Context (env : ShardEnv) (parent_block_number parent_block_timestamp : N).
Variable walk : gmap H160 N → list (H160 * N).
Context (saved : list shard_view) (ids : list N).

Local Abbreviation F := (framed env saved ids).

Lemma on_asset_schemes_keeps {A} (m : stM (WriteBack AssetScheme) StateError.t A) :
  (∀ wb v ws, snapshots (se_db_asset_scheme env) wb v ws →
     ∃ v', snapshots (se_db_asset_scheme env) (m wb).2 v' ws) →
  keeps F (on_asset_schemes m).
Proof.
  intros Hm s [([v1 v2] & Hs & Ha) Hid]. unfold on_asset_schemes.
  destruct (Hm _ _ _ Hs) as [v' Hv']. destruct (m _) as [r c].
  split; [|done]. by exists (v', v2).
Qed.

Lemma on_assets_keeps {A} (m : stM (WriteBack OwnedAsset) StateError.t A) :
  (∀ wb v ws, snapshots (se_db_asset env) wb v ws →
     ∃ v', snapshots (se_db_asset env) (m wb).2 v' ws) →
  keeps F (on_assets m).
Proof.
  intros Hm s [([v1 v2] & Hs & Ha) Hid]. unfold on_assets.
  destruct (Hm _ _ _ Ha) as [v' Hv']. destruct (m _) as [r c].
  split; [|done]. by exists (v1, v').
Qed.

Lemma get_frames {Item} (db : bytes → result TrieError.t (option Item)) a wb v ws :
  snapshots db wb v ws → ∃ v', snapshots db (with_trie_error (wb_get a db) wb).2 v' ws.
Proof.
  intros Hs. pose proof (snapshots_get db wb v ws a Hs) as Hg. unfold with_trie_error.
  exists v. destruct (wb_get a db wb) as [[o|e|] wb']; simpl; [by destruct Hg|by destruct Hg as [-> _]..].
Qed.

Lemma create_frames {Item} (db : bytes → result TrieError.t (option Item)) a x wb v ws :
  snapshots db wb v ws → ∃ v', snapshots db (with_trie_error (wb_create a x) wb).2 v' ws.
Proof.
  intros Hs. unfold with_trie_error.
  destruct (snapshots_create db wb v ws a x Hs) as [(y & _ & ->)|[_ Hs']]; [by exists v|].
  destruct (wb_create a x wb). by eexists.
Qed.

Lemma with_mut_frames {Item E B} (db : bytes → result TrieError.t (option Item))
    (of_trie : TrieError.t → E) d a (f : stM Item E B) wb v ws :
  snapshots db wb v ws → ∃ v', snapshots db (wb_with_mut of_trie d a db f wb).2 v' ws.
Proof.
  intros Hs. destruct (snapshots_with_mut db of_trie d a f wb v ws Hs)
    as [(e & _ & ->)|[[_ ->]|[_ Hs']]]; [by exists v..|by eexists].
Qed.

Lemma asset_scheme_keeps t : keeps F (asset_scheme env t).
Proof. apply on_asset_schemes_keeps. intros. by eapply get_frames. Qed.

Lemma asset_keeps t i : keeps F (asset env t i).
Proof. apply on_assets_keeps. intros. by eapply get_frames. Qed.

Lemma kill_asset_keeps t i : keeps F (kill_asset env t i).
Proof. apply on_assets_keeps. intros. eexists. by apply snapshots_remove. Qed.

Lemma create_asset_scheme_keeps t m n a r h p : keeps F (create_asset_scheme env t m n a r h p).
Proof. apply on_asset_schemes_keeps. intros. by eapply create_frames. Qed.

Lemma create_asset_keeps t i y l p q o : keeps F (create_asset env t i y l p q o).
Proof. apply on_assets_keeps. intros. by eapply create_frames. Qed.

Lemma with_asset_scheme_mut_keeps {B} t (f : stM AssetScheme StateError.t B) :
  keeps F (with_asset_scheme_mut env t f).
Proof. apply on_asset_schemes_keeps. intros. by eapply with_mut_frames. Qed.

Lemma or_throw_keeps {A} (o : option A) e : keeps F (or_throw o e).
Proof. unfold or_throw, throw. frame_tac. Qed.

Lemma throw_keeps {A} e : keeps F (throw (A:=A) e).
Proof. apply keeps_throw. Qed.

#[local] Hint Resolve asset_scheme_keeps asset_keeps kill_asset_keeps create_asset_scheme_keeps
  create_asset_keeps with_asset_scheme_mut_keeps or_throw_keeps throw_keeps : frame_db.

Lemma mint_asset_keeps t m o a aa r h s u p : keeps F (mint_asset env t m o a aa r h s u p).
Proof. unfold mint_asset. frame_tac. Qed.

Lemma approved_by_registrar_keeps t s a : keeps F (approved_by_registrar env t s a).
Proof. unfold approved_by_registrar. frame_tac. Qed.
#[local] Hint Resolve mint_asset_keeps approved_by_registrar_keeps : frame_db.

Lemma check_and_run_input_script_keeps i t o b s a :
  keeps F (check_and_run_input_script env parent_block_number parent_block_timestamp i t o b s a).
Proof. unfold check_and_run_input_script, check_input_asset. frame_tac. Qed.
#[local] Hint Resolve check_and_run_input_script_keeps : frame_db.

Lemma check_order_inputs_keeps order inputs indices n :
  keeps F (check_order_inputs env order inputs indices n).
Proof. revert n. induction indices as [|i indices IH]; intros n; simpl; frame_tac. Qed.

Lemma create_outputs_keeps t s a hs i outputs : keeps F (create_outputs env t s a hs i outputs).
Proof.
  revert i. induction outputs as [|o outputs IH]; intros i; simpl; [frame_tac|].
  unfold check_output_script_hash. frame_tac.
Qed.
#[local] Hint Resolve check_order_inputs_keeps create_outputs_keeps : frame_db.

Lemma transfer_asset_keeps t s a burns inputs outputs orders :
  keeps F (transfer_asset env parent_block_number parent_block_timestamp t s a burns inputs
             outputs orders).
Proof.
  unfold transfer_asset, run_input_scripts, check_orders, kill_inputs, reduce_burns. frame_tac.
Qed.

Lemma compose_inputs_keeps t s a inputs sum :
  keeps F (compose_inputs env parent_block_number parent_block_timestamp t s a inputs sum).
Proof. revert sum. induction inputs as [|i inputs IH]; intros sum; simpl; frame_tac. Qed.
#[local] Hint Resolve transfer_asset_keeps compose_inputs_keeps : frame_db.

(** No shard transaction touches a checkpoint that was there before it. *)
Lemma shard_apply_internal_keeps t s u a :
  keeps F (shard_apply_internal env parent_block_number parent_block_timestamp walk t s u a).
Proof.
  unfold shard_apply_internal, change_asset_scheme, increase_asset_supply, compose_asset,
    decompose_asset, unwrap_ccc, wrap_ccc. destruct t; frame_tac.
Qed.
End Frames.

Section SnapLemmas.
Context (env : ShardEnv).
Implicit Types (c : ShardCache) (v : shard_view).

Lemma shard_snap_checkpoint c v saved :
  shard_snap env c v saved → shard_snap env (sc_checkpoint c) v (v :: saved).
Proof. intros [H1 H2]. split; by apply snapshots_checkpoint. Qed.

Lemma shard_snap_discard c v w saved :
  shard_snap env c v (w :: saved) → shard_snap env (sc_discard_checkpoint c) v saved.
Proof. intros [H1 H2]. split; by eapply snapshots_discard. Qed.

Lemma shard_snap_revert c v w saved :
  shard_snap env c v (w :: saved) → shard_snap env (sc_revert_to_checkpoint c) w saved.
Proof. intros [H1 H2]. split; by eapply snapshots_revert. Qed.
End SnapLemmas.

(** What [shard_apply] does to the views and to the checkpoints already in force. *)
Lemma shard_apply_snap `{Crypto} `{Primitives} `{ChainTimeInfo} env bn bt walk t sender users
    approvers s v saved r s' :
  shard_snap env (sl_cache s) v saved →
  shard_apply env bn bt walk t sender users approvers s = (r, s') →
  r ≠ Panic →
  sl_id_of_checkpoints s' = sl_id_of_checkpoints s ∧
  ∃ v', shard_snap env (sl_cache s') v' saved ∧
    match r with
    | Ok _ =>
        ∃ s2, sl_cache s' = sc_discard_checkpoint (sl_cache s2) ∧
          shard_apply_internal env bn bt walk t sender users approvers
            {| sl_cache := sc_checkpoint (sl_cache s);
               sl_id_of_checkpoints := TRANSACTION_CHECKPOINT :: sl_id_of_checkpoints s |} =
          (Ok tt, s2)
    | _ => v' = v
    end.
Proof.
  intros Hs Hr Hp. unfold shard_apply in Hr. simpl in Hr.
  set (s1 := {| sl_cache := sc_checkpoint (sl_cache s);
                sl_id_of_checkpoints := TRANSACTION_CHECKPOINT :: sl_id_of_checkpoints s |}) in *.
  assert (framed env (v :: saved) (sl_id_of_checkpoints s1) s1) as Hf.
  { split; [|done]. exists v. by apply shard_snap_checkpoint. }
  apply (shard_apply_internal_keeps env bn bt walk (v :: saved) _ t sender users approvers) in Hf
    as [(v' & Hv') Hid].
  destruct (shard_apply_internal _ _ _ _ _ _ _ _ s1) as [[[]|e|] s2]; simpl in *;
    [| |by simplify_eq]; unfold sl_discard_checkpoint, sl_revert_to_checkpoint,
    sl_close_checkpoint in Hr; rewrite Hid in Hr; simplify_eq/=; (split; [done|]).
  - exists v'. split; [by eapply shard_snap_discard|]. by exists s2.
  - exists v. split; [by eapply shard_snap_revert|done].
Qed.

(** * Shard transactions are atomic *)

(** C6: A shard transaction that returns an error leaves the shard as it found it: every
    asset and every asset scheme reads as before, and so does every enclosing checkpoint,
    as if it had not run. *)
Theorem shard_apply_atomic `{Crypto} `{Primitives} `{ChainTimeInfo} (env : ShardEnv)
    (parent_block_number parent_block_timestamp : N) (walk : gmap H160 N → list (H160 * N))
    (transaction : ShardTransaction.t) (sender : Address) (shard_users approvers : list Address)
    (s s' : ShardLevel) (v : shard_view) (saved : list shard_view) (e : StateError.t) :
  shard_snap env (sl_cache s) v saved →
  shard_apply env parent_block_number parent_block_timestamp walk transaction sender shard_users
    approvers s = (Err e, s') →
  shard_snap env (sl_cache s') v saved ∧ sl_id_of_checkpoints s' = sl_id_of_checkpoints s.
Proof.
  intros Hs Hr. eapply shard_apply_snap in Hr as (Hid & v' & Hv' & Heq); [|done|done].
  by rewrite <- Heq.
Qed.
