(* ===== verification/ShardTransfer.v ===== *)
(** What an asset transfer does to a shard: the operations of [ShardState] as functions
    of the shard's view, and conservation of the assets held and of the supplies. *)

From stdpp Require Import base gmap list numbers.
From S2P Require Import Prelude Types Crypto Tag VmDecode Vm TxHash TxVerify StateCache StateItems.
From S2P Require Import ShardState.

Local Open Scope N_scope.

Section Views.
Context `{Crypto} `{Primitives}.
Variable shard_id : ShardId.

Definition input_address (input : AssetTransferInput) : H256 :=
  OwnedAssetAddress_new (aop_tracker (ati_prev_out input)) (aop_index (ati_prev_out input)) shard_id.

Definition here (input : AssetTransferInput) : bool :=
  aop_shard_id (ati_prev_out input) =? shard_id.

(** The input spends an asset of the declared type and quantity. *)
Definition input_live (v : shard_view) (input : AssetTransferInput) : Prop :=
  ∃ a, v.2 (input_address input) = Some a ∧ oa_quantity a = aop_quantity (ati_prev_out input) ∧
       oa_asset_type a = aop_asset_type (ati_prev_out input).

Fixpoint killed (inputs : list AssetTransferInput) (va : bytes → option OwnedAsset)
  : bytes → option OwnedAsset :=
  match inputs with
  | [] => va
  | i :: inputs => killed inputs (if here i then set_view (input_address i) None va else va)
  end.

Definition output_asset (order_hash : option H256) (o : AssetTransferOutput) : OwnedAsset :=
  OwnedAsset_new (ato_asset_type o) (ato_lock_script_hash o) (ato_parameters o) (ato_quantity o)
    order_hash.

Fixpoint created (tracker : H256) (order_hashes : list (option H256)) (index : N)
    (outputs : list AssetTransferOutput) (va : bytes → option OwnedAsset)
  : bytes → option OwnedAsset :=
  match outputs with
  | [] => va
  | o :: outputs =>
      created tracker order_hashes (index + 1) outputs
        (if ato_shard_id o =? shard_id then
           set_view (OwnedAssetAddress_new tracker index shard_id)
             (Some (output_asset (default None (order_hashes !! N.to_nat index)) o)) va
         else va)
  end.

(** The addresses the outputs of this shard go to. *)
Fixpoint output_addresses (tracker : H256) (index : N) (outputs : list AssetTransferOutput)
  : list H256 :=
  match outputs with
  | [] => []
  | o :: outputs =>
      (if ato_shard_id o =? shard_id then [OwnedAssetAddress_new tracker index shard_id] else []) ++
      output_addresses tracker (index + 1) outputs
  end.

(** The quantity of an asset type held at a list of addresses. *)
Definition held (asset_type : H160) (o : option OwnedAsset) : N :=
  match o with
  | Some a => if decide (oa_asset_type a = asset_type) then oa_quantity a else 0
  | None => 0
  end.

Definition holdings (asset_type : H160) (addresses : list H256) (v : shard_view) : N :=
  sum_with (λ a, held asset_type (v.2 a)) addresses.

(** The recorded supply of an asset type. *)
Definition supply (asset_type : H160) (v : shard_view) : N :=
  match v.1 (AssetSchemeAddress_new asset_type shard_id) with
  | Some scheme => sch_supply scheme
  | None => 0
  end.

(** The quantity of an asset type the inputs of this shard declare. *)
Definition declared (asset_type : H160) (inputs : list AssetTransferInput) : N :=
  input_sum inputs (asset_type, shard_id).

(** No two addresses of the transaction collide, and its outputs are new. *)
Definition fresh (tracker : H256) (inputs : list AssetTransferInput)
    (outputs : list AssetTransferOutput) (v : shard_view) : Prop :=
  NoDup (input_address <$> filter (λ i, here i = true) inputs) ∧
  NoDup (output_addresses tracker 0 outputs) ∧
  Forall (λ a, v.2 a = None) (output_addresses tracker 0 outputs).
End Views.

(** * Successful operations on the view *)

Section Operations.
Context `{Crypto} `{Primitives} `{ChainTimeInfo}.
Context (env : ShardEnv) (parent_block_number parent_block_timestamp : N).
Local Abbreviation shard_id := (se_shard_id env).
Implicit Types (s : ShardLevel) (v : shard_view).

Local Abbreviation snap s v ws := (shard_snap env (sl_cache s) v ws).

Lemma asset_scheme_ok t s v ws o s' :
  snap s v ws → asset_scheme env t s = (Ok o, s') →
  snap s' v ws ∧ o = v.1 (AssetSchemeAddress_new t shard_id).
Proof.
  intros [Hs Ha]. unfold asset_scheme, on_asset_schemes, with_trie_error.
  pose proof (snapshots_get _ _ _ _ (AssetSchemeAddress_new t shard_id) Hs) as Hg.
  destruct (wb_get _ _ _) as [[x|e|] c]; simpl; intros; simplify_eq.
  destruct Hg as [-> Hs']. by split.
Qed.

Lemma asset_ok t i s v ws o s' :
  snap s v ws → asset env t i s = (Ok o, s') →
  snap s' v ws ∧ o = v.2 (OwnedAssetAddress_new t i shard_id).
Proof.
  intros [Hs Ha]. unfold asset, on_assets, with_trie_error.
  pose proof (snapshots_get _ _ _ _ (OwnedAssetAddress_new t i shard_id) Ha) as Hg.
  destruct (wb_get _ _ _) as [[x|e|] c]; simpl; intros; simplify_eq.
  destruct Hg as [-> Hs']. by split.
Qed.

Lemma kill_asset_ok t i s v ws u s' :
  snap s v ws → kill_asset env t i s = (Ok u, s') →
  snap s' (v.1, set_view (OwnedAssetAddress_new t i shard_id) None v.2) ws.
Proof.
  intros [Hs Ha]. unfold kill_asset, on_assets, modify_st. intros; simplify_eq.
  split; [done|]. by apply snapshots_remove.
Qed.

Lemma create_asset_ok t i y l p q o s v ws u s' :
  snap s v ws → create_asset env t i y l p q o s = (Ok u, s') →
  snap s' (v.1, set_view (OwnedAssetAddress_new t i shard_id) (Some (OwnedAsset_new y l p q o)) v.2)
    ws.
Proof.
  intros [Hs Ha]. unfold create_asset, on_assets, with_trie_error.
  destruct (snapshots_create _ _ _ _ (OwnedAssetAddress_new t i shard_id)
    (OwnedAsset_new y l p q o) Ha) as [(z & _ & ->)|[_ Ha']]; [done|].
  destruct (wb_create _ _ _) as [r c]. intros; simplify_eq. by split.
Qed.

Lemma with_asset_scheme_mut_ok {B} t (f : stM AssetScheme StateError.t B) s v ws b s' :
  snap s v ws → with_asset_scheme_mut env t f s = (Ok b, s') →
  let a := AssetSchemeAddress_new t shard_id in
  let x := default AssetScheme_default (v.1 a) in
  (f x).1 = Ok b ∧ snap s' (set_view a (Some (f x).2) v.1, v.2) ws.
Proof.
  intros [Hs Ha]. unfold with_asset_scheme_mut, on_asset_schemes.
  destruct (snapshots_with_mut _ StateError.Trie AssetScheme_default
    (AssetSchemeAddress_new t shard_id) f _ _ _ Hs) as [(e & _ & ->)|[[_ ->]|[Hr Hs']]]; [done..|].
  destruct (wb_with_mut _ _ _ _ _ _) as [r c]. simpl in *. intros; simplify_eq. by split.
Qed.

Lemma or_throw_ok {A} (o : option A) e s a s' :
  or_throw o e s = (Ok a, s') → o = Some a ∧ s' = s.
Proof. destruct o; [|done]. simpl. unfold mret, stM_ret. intros; simplify_eq; done. Qed.

Lemma lift_ok {A} (r : result StateError.t A) s a s' :
  lift_st r s = (Ok a, s') → r = Ok a ∧ s' = s.
Proof. unfold lift_st. intros; by simplify_eq. Qed.

Lemma ret_ok {A} (x a : A) s s' :
  (mret x : shardM A) s = (Ok a, s') → a = x ∧ s' = s.
Proof. unfold mret, stM_ret. intros; by simplify_eq. Qed.

(** A computation that, when it succeeds, leaves the view as it was. *)
Definition reads {A} (m : shardM A) : Prop :=
  ∀ s v ws a s', snap s v ws → m s = (Ok a, s') → snap s' v ws.

Lemma reads_use {A} (m : shardM A) s v ws a s' :
  m s = (Ok a, s') → snap s v ws → reads m → snap s' v ws.
Proof. intros Hm Hs Hr. by eapply Hr. Qed.

Lemma reads_ret {A} (a : A) : reads (mret a).
Proof. intros s v ws b s' Hs Hm. by apply ret_ok in Hm as [_ ->]. Qed.

Lemma reads_lift {A} (r : result StateError.t A) : reads (lift_st r).
Proof. intros s v ws b s' Hs Hm. by apply lift_ok in Hm as [_ ->]. Qed.

Lemma reads_throw {A} e : reads (throw (A:=A) e).
Proof. by intros s v ws b s' Hs. Qed.

Lemma reads_or_throw {A} (o : option A) e : reads (or_throw o e).
Proof. intros s v ws b s' Hs Hm. by apply or_throw_ok in Hm as [_ ->]. Qed.

Lemma reads_bind {A B} (m : shardM A) (f : A → shardM B) :
  reads m → (∀ a, reads (f a)) → reads (m ≫= f).
Proof.
  intros Hm Hf s v ws b s' Hs Hr. apply st_bind_Ok in Hr as (a & s1 & Hr1 & Hr2).
  eapply Hf; [|done]. by eapply Hm.
Qed.

Lemma reads_for_each {A} (f : A → shardM ()) l : (∀ x, reads (f x)) → reads (for_each f l).
Proof.
  intros Hf. induction l as [|x l IH]; simpl; [apply reads_ret|]. by apply reads_bind.
Qed.

Lemma reads_asset_scheme t : reads (asset_scheme env t).
Proof. intros s v ws a s' Hs Hm. by apply (asset_scheme_ok _ _ _ _ _ _ Hs) in Hm as [? _]. Qed.

Lemma reads_asset t i : reads (asset env t i).
Proof. intros s v ws a s' Hs Hm. by apply (asset_ok _ _ _ _ _ _ _ Hs) in Hm as [? _]. Qed.

Create HintDb reads_db.
Hint Resolve reads_ret reads_lift reads_throw reads_or_throw reads_asset_scheme reads_asset : reads_db.
Ltac reads_tac :=
  repeat first
    [ solve [auto with reads_db]
    | match goal with
      | |- reads (_ ≫= _) => apply reads_bind; [|intros ?]
      | |- reads (for_each _ _) => apply reads_for_each; intros ?
      | |- reads (if ?b then _ else _) => destruct b
      | |- reads (match ?x with _ => _ end) => destruct x
      end ].

Lemma reads_approved t sender approvers : reads (approved_by_registrar env t sender approvers).
Proof. unfold approved_by_registrar. reads_tac. Qed.
Hint Resolve reads_approved : reads_db.

Lemma reads_check_order_inputs order inputs indices n :
  reads (check_order_inputs env order inputs indices n).
Proof. revert n. induction indices as [|i indices IH]; intros n; simpl; reads_tac. Qed.
Hint Resolve reads_check_order_inputs : reads_db.

Lemma reads_check_orders orders inputs : reads (check_orders env orders inputs).
Proof. unfold check_orders. reads_tac. Qed.

Lemma reads_check_output o sender approvers : reads (check_output_script_hash env o sender approvers).
Proof. unfold check_output_script_hash. reads_tac. Qed.

Lemma check_input_asset_ok input sender approvers s v ws a b s' :
  snap s v ws → check_input_asset env input sender approvers s = (Ok (a, b), s') →
  snap s' v ws ∧ here shard_id input = true ∧ input_live shard_id v input.
Proof.
  intros Hs Hm. unfold check_input_asset in Hm. cbv zeta in Hm.
  apply st_bind_Ok in Hm as (? & s1 & Hm2%lift_ok & Hm). destruct Hm2 as [Hm2%assert_Ok ->].
  apply st_bind_Ok in Hm as (reg & s2 & Hm3 & Hm).
  eapply reads_approved in Hm3; [|exact Hs]. clear Hs.
  apply st_bind_Ok in Hm as (? & s3 & Hm4 & Hm).
  eapply reads_use in Hm4; [|exact Hm3|reads_tac]. clear Hm3.
  apply st_bind_Ok in Hm as (o & s4 & Hm5 & Hm).
  apply (asset_ok _ _ _ _ _ _ _ Hm4) in Hm5 as [Hm5 ->].
  apply st_bind_Ok in Hm as (a' & s5 & Hm6%or_throw_ok & Hm). destruct Hm6 as [Hm6 ->].
  destruct (N.eqb_spec (oa_quantity a') (aop_quantity (ati_prev_out input))); [|done].
  cbn [negb] in Hm. case_bool_decide; [|done]. cbn [negb] in Hm. apply ret_ok in Hm as [? ->].
  simplify_eq. split_and!; [done|by unfold here; rewrite N.eqb_sym|by eexists].
Qed.

Lemma check_and_run_ok input tx order burn sender approvers s v ws u s' :
  snap s v ws →
  check_and_run_input_script env parent_block_number parent_block_timestamp input tx order burn
    sender approvers s = (Ok u, s') →
  snap s' v ws ∧ input_live shard_id v input.
Proof.
  intros Hs Hm. unfold check_and_run_input_script in Hm.
  apply st_bind_Ok in Hm as ([a b] & s1 & Hc & Hm).
  apply (check_input_asset_ok _ _ _ _ _ _ _ _ _ Hs) in Hc as (Hs1 & _ & Hl). split; [|done].
  cbv zeta in Hm. eapply reads_use in Hm; [done|exact Hs1|reads_tac].
Qed.

Lemma zip_orders_Forall (P : AssetTransferInput → Prop) inputs (orders : list (option Order)) :
  length orders = length inputs →
  Forall (λ x : AssetTransferInput * option Order * bool, P x.1.1)
    (zip_with (λ i o, (i, o, false)) inputs orders) → Forall P inputs.
Proof.
  revert orders. induction inputs as [|i inputs IH]; intros [|o orders] Hl; try done; simpl.
  intros [Hi Hr]%Forall_cons_1. constructor; [done|]. apply (IH orders); [by injection Hl|done].
Qed.

(** What each call establishes holds of every input of the shard. *)
Lemma run_input_scripts_Forall (P : AssetTransferInput → option Order → bool → Prop)
    tx sender approvers burns inputs orders s v ws u s' :
  (∀ i o b s u s', snap s v ws →
     check_and_run_input_script env parent_block_number parent_block_timestamp i tx o b sender
       approvers s = (Ok u, s') → snap s' v ws ∧ P i o b) →
  snap s v ws →
  run_input_scripts env parent_block_number parent_block_timestamp tx sender approvers burns inputs
    orders s = (Ok u, s') →
  snap s' v ws ∧
  Forall (λ x, here shard_id x.1.1 = true → P x.1.1 x.1.2 x.2)
    (zip_with (λ input order, (input, order, false)) inputs orders ++
     ((λ input, (input, None, true)) <$> burns)).
Proof.
  intros HP Hs Hm. unfold run_input_scripts in Hm. revert s Hs Hm.
  generalize (zip_with (λ input order, (input, order, false)) inputs orders ++
    ((λ input, (input, None, true)) <$> burns)).
  intros l. induction l as [|[[i o] b] l IH]; intros s Hs Hm.
  - apply ret_ok in Hm as [_ ->]. by split.
  - simpl in Hm. apply st_bind_Ok in Hm as (? & s1 & Hm1 & Hm).
    change (on_this_shard env i) with (here shard_id i) in Hm1.
    destruct (here shard_id i) eqn:Eh; cbn [negb] in Hm1.
    + apply (HP _ _ _ _ _ _ Hs) in Hm1 as [Hs1 Hl1].
      apply IH in Hm as [? ?]; [|done]. split; [done|]. by constructor.
    + apply ret_ok in Hm1 as [_ ->]. apply IH in Hm as [? ?]; [|done].
      split; [done|]. constructor; [simpl; by rewrite Eh|done].
Qed.

Lemma run_input_scripts_ok tx sender approvers burns inputs orders s v ws u s' :
  length orders = length inputs → snap s v ws →
  run_input_scripts env parent_block_number parent_block_timestamp tx sender approvers burns inputs
    orders s = (Ok u, s') →
  snap s' v ws ∧ Forall (λ i, here shard_id i = true → input_live shard_id v i) (inputs ++ burns).
Proof.
  intros Hl Hs Hm.
  apply (run_input_scripts_Forall (λ i _ _, input_live shard_id v i) _ _ _ _ _ _ _ v ws) in Hm
    as [Hs' Hf]; [|intros; by eapply check_and_run_ok|done].
  split; [done|]. apply Forall_app in Hf as [Hf1 Hf2]. apply Forall_app. split.
  - by eapply zip_orders_Forall.
  - by apply Forall_fmap in Hf2.
Qed.

Lemma kill_inputs_ok inputs s v ws u s' :
  snap s v ws → kill_inputs env inputs s = (Ok u, s') →
  snap s' (v.1, killed shard_id inputs v.2) ws.
Proof.
  unfold kill_inputs. revert s v. induction inputs as [|i inputs IH]; intros s v Hs Hm.
  - apply ret_ok in Hm as [_ ->]. by destruct v.
  - simpl in Hm. apply st_bind_Ok in Hm as (? & s1 & Hm1 & Hm).
    change (on_this_shard env i) with (here shard_id i) in Hm1. simpl.
    destruct (here shard_id i); cbn [negb] in Hm1.
    + apply (kill_asset_ok _ _ _ _ _ _ _ Hs) in Hm1. exact (IH _ _ Hm1 Hm).
    + apply ret_ok in Hm1 as [_ ->]. by apply (IH s v).
Qed.

Lemma create_outputs_ok tracker sender approvers hashes index outputs s v ws u s' :
  snap s v ws →
  create_outputs env tracker sender approvers hashes index outputs s = (Ok u, s') →
  snap s' (v.1, created shard_id tracker hashes index outputs v.2) ws.
Proof.
  revert index s v. induction outputs as [|o outputs IH]; intros index s v Hs Hm.
  - apply ret_ok in Hm as [_ ->]. by destruct v.
  - simpl in Hm. apply st_bind_Ok in Hm as (? & s1 & Hm1 & Hm). simpl.
    destruct (ato_shard_id o =? shard_id); cbn [negb] in Hm1.
    + apply st_bind_Ok in Hm1 as (? & s2 & Hm2 & Hm1). eapply reads_check_output in Hm2; [|exact Hs].
      apply st_bind_Ok in Hm1 as (h & s3 & Hm3%lift_ok & Hm1). destruct Hm3 as [Hh%expect_Ok ->].
      apply st_bind_Ok in Hm1 as (? & s4 & Hm4 & Hm1). apply ret_ok in Hm1 as [_ ->].
      apply (create_asset_ok _ _ _ _ _ _ _ _ _ _ _ _ Hm2) in Hm4.
      rewrite Hh. exact (IH _ _ _ Hm4 Hm).
    + apply ret_ok in Hm1 as [_ ->]. by apply (IH (index + 1) s v).
Qed.

Lemma supply_default t v :
  supply shard_id t v =
  sch_supply (default AssetScheme_default (v.1 (AssetSchemeAddress_new t shard_id))).
Proof. unfold supply. by destruct (v.1 _). Qed.

(** Reducing the supply of one burnt asset. *)
Lemma supply_reduced t v b :
  let a := AssetSchemeAddress_new (aop_asset_type (ati_prev_out b)) shard_id in
  let x := default AssetScheme_default (v.1 a) in
  let q := aop_quantity (ati_prev_out b) in
  here shard_id b = true → q ≤ sch_supply x → supply shard_id t v < u64_size →
  (a = AssetSchemeAddress_new t shard_id → aop_asset_type (ati_prev_out b) = t) →
  supply shard_id t (set_view a (Some (set_supply (u64_sub (sch_supply x) q) x)) v.1, v.2) +
  (if bool_decide (input_key b = (t, shard_id)) then input_quantity b else 0) =
  supply shard_id t v.
Proof.
  intros a x q Hh%N.eqb_eq Hq Hlt Hinj.
  destruct (decide (aop_asset_type (ati_prev_out b) = t)) as [<-|Ht].
  - assert (supply shard_id (aop_asset_type (ati_prev_out b)) v = sch_supply x) as Hx
      by apply supply_default.
    rewrite Hx in *. unfold supply. cbn [fst]. subst a. rewrite set_view_eq. cbn [sch_supply set_supply].
    rewrite bool_decide_true by (unfold input_key; by rewrite Hh).
    rewrite u64_sub_le by done. unfold input_quantity. fold q. lia.
  - unfold supply. cbn [fst]. rewrite set_view_ne by (intros Ha; by apply Ht, Hinj).
    rewrite bool_decide_false by (unfold input_key; congruence). lia.
Qed.

(** The burns of this shard, one after the other. *)
Lemma reduce_burns_ok burns s v ws u s' t :
  snap s v ws → reduce_burns env burns s = (Ok u, s') →
  supply shard_id t v < u64_size →
  (∀ b, b ∈ burns → AssetSchemeAddress_new (aop_asset_type (ati_prev_out b)) shard_id =
     AssetSchemeAddress_new t shard_id → aop_asset_type (ati_prev_out b) = t) →
  ∃ vs, snap s' (vs, v.2) ws ∧
    supply shard_id t (vs, v.2) + declared shard_id t burns = supply shard_id t v.
Proof.
  unfold reduce_burns. revert s v. induction burns as [|b burns IH]; intros s v Hs Hm Hlt Hinj.
  - apply ret_ok in Hm as [_ ->]. exists v.1. destruct v. split; [done|]. simpl. lia.
  - simpl in Hm. apply st_bind_Ok in Hm as ([] & s1 & Hm1 & Hm).
    change (on_this_shard env b) with (here shard_id b) in Hm1.
    assert (declared shard_id t (b :: burns) =
      (if bool_decide (input_key b = (t, shard_id)) then input_quantity b else 0) +
      declared shard_id t burns) as -> by done.
    destruct (here shard_id b) eqn:Eh; cbn [negb] in Hm1.
    + apply (with_asset_scheme_mut_ok _ _ _ _ _ _ _ Hs) in Hm1. cbv zeta in Hm1.
      set (a := AssetSchemeAddress_new (aop_asset_type (ati_prev_out b)) shard_id) in *.
      destruct Hm1 as [Hr Hs1]. unfold reduce_supply_mut, reduce_supply in Hr, Hs1.
      set (x := default AssetScheme_default (v.1 a)) in *.
      destruct (N.leb_spec (aop_quantity (ati_prev_out b)) (sch_supply x)) as [Hq|]; [|done].
      cbn [negb snd] in Hs1.
      set (v1 := (set_view a _ v.1, v.2)) in *.
      assert (supply shard_id t v1 +
        (if bool_decide (input_key b = (t, shard_id)) then input_quantity b else 0) =
        supply shard_id t v) as Hv1.
      { apply supply_reduced; [done..|]. intros Ha. apply Hinj; [by left|done]. }
      destruct (IH s1 v1 Hs1 Hm) as (vs & Hs' & Hsup); [lia|intros; apply Hinj; [by right|done]|].
      exists vs. split; [done|]. cbn [snd v1] in Hsup. lia.
    + apply ret_ok in Hm1 as [_ ->]. rewrite bool_decide_false.
      2: { unfold input_key. intros [= _ Hid]. unfold here in Eh. by rewrite Hid, N.eqb_refl in Eh. }
      apply (IH s v) in Hm; [|done|done|intros; apply Hinj; [by right|done]].
      destruct Hm as (vs & Hs' & Hsup). exists vs. split; [done|]. lia.
Qed.

Lemma fill_indices_length {E A B} (f : A → result E B) (idx : A → list N) n l r :
  fill_indices f idx n l = Ok r → length r = n.
Proof.
  unfold fill_indices. rewrite <-(length_replicate n (@None B)) at 2.
  generalize (replicate n (@None B)) as acc.
  induction l as [|x l IH]; intros acc; simpl; [by intros [= ->]|].
  intros (acc1 & H1' & H2')%bind_Ok. apply IH in H2'. rewrite H2'. clear H2' IH.
  revert acc H1'. induction (idx x) as [|i indices IH]; intros acc; simpl; [by intros [= ->]|].
  intros (acc2 & Hset & Hr)%bind_Ok. apply bind_Ok in Hset as (y & _ & Hset).
  apply bind_Ok in Hset as (? & _ & Hset). injection Hset as <-.
  apply IH in Hr. by rewrite Hr, length_insert.
Qed.

Lemma fill_one {E A B} (Q : nat → B → Prop) (f : A → result E B) x indices acc r :
  fold_res (λ acc i, y ← f x; set_index acc i (Some y)) acc indices = Ok r →
  (∀ k y, acc !! k = Some (Some y) → Q k y) →
  (∀ i y, i ∈ indices → f x = Ok y → Q (N.to_nat i) y) →
  ∀ k y, r !! k = Some (Some y) → Q k y.
Proof.
  revert acc. induction indices as [|i indices IH]; intros acc; simpl; [by intros [= ->]|].
  intros Hr Hacc Hi. apply bind_Ok in Hr as (acc2 & Hset & Hr).
  apply bind_Ok in Hset as (z & Hz & Hset). apply bind_Ok in Hset as (? & _ & Hset).
  injection Hset as <-. apply (IH _ Hr); [|intros j y Hj; apply Hi; by right].
  intros k y [(<- & [= <-] & _)|[_ Hk]]%list_lookup_insert_Some; [|by apply Hacc].
  apply Hi; [by left|done].
Qed.

(** A filled slot was filled for one of the elements that name it. *)
Lemma fill_indices_lookup {E A B} (f : A → result E B) (idx : A → list N) n l r k y :
  fill_indices f idx n l = Ok r → r !! k = Some (Some y) →
  ∃ x, x ∈ l ∧ f x = Ok y ∧ N.of_nat k ∈ idx x.
Proof.
  unfold fill_indices. intros Hr. revert k y.
  set (Q k y := ∃ x, x ∈ l ∧ f x = Ok y ∧ N.of_nat k ∈ idx x).
  assert (∀ k y, replicate n (@None B) !! k = Some (Some y) → Q k y) as Hinv.
  { intros k y Hk. apply lookup_replicate in Hk as [? _]. done. }
  assert (∀ x, x ∈ l → x ∈ l) as Hsub by done.
  revert Hr Hinv Hsub. generalize (replicate n (@None B)) as acc. unfold Q. clear Q.
  generalize l at 1 3. intros l'. induction l' as [|x l' IH]; intros acc; simpl; [by intros [= ->]|].
  intros Hr Hinv Hsub. apply bind_Ok in Hr as (acc1 & Hr1 & Hr). apply (IH acc1); [done| |].
  - eapply fill_one; [exact Hr1|exact Hinv|]. intros i y Hi Hf. exists x.
    rewrite N2Nat.id. split_and!; [apply Hsub; by left|done|done].
  - intros z Hz. apply Hsub. by right.
Qed.

(** A successful transfer as a function of the view. *)
Lemma transfer_asset_ok tx sender approvers burns inputs outputs orders s v ws u s' t :
  snap s v ws →
  transfer_asset env parent_block_number parent_block_timestamp tx sender approvers burns inputs
    outputs orders s = (Ok u, s') →
  supply shard_id t v < u64_size →
  (∀ b, b ∈ burns → AssetSchemeAddress_new (aop_asset_type (ati_prev_out b)) shard_id =
     AssetSchemeAddress_new t shard_id → aop_asset_type (ati_prev_out b) = t) →
  Forall (λ i, here shard_id i = true → input_live shard_id v i) (inputs ++ burns) ∧
  ∃ vs hashes,
    snap s' (vs, created shard_id (ShardTransaction_tracker tx) hashes 0 outputs
                   (killed shard_id (inputs ++ burns) v.2)) ws ∧
    ∀ va, supply shard_id t (vs, va) + declared shard_id t burns = supply shard_id t v.
Proof.
  intros Hs Hm Hlt Hinj. unfold transfer_asset in Hm.
  apply st_bind_Ok in Hm as (os & s1 & Hm1%lift_ok & Hm). destruct Hm1 as [Hos ->].
  apply fill_indices_length in Hos.
  apply st_bind_Ok in Hm as (? & s1 & Hm1 & Hm).
  apply (run_input_scripts_ok _ _ _ _ _ _ _ _ _ _ _ Hos Hs) in Hm1 as [Hs1 Hlive]. clear Hs.
  split; [done|].
  apply st_bind_Ok in Hm as (? & s2 & Hm2 & Hm). eapply reads_check_orders in Hm2; [|exact Hs1].
  apply st_bind_Ok in Hm as (hs & s3 & Hm3%lift_ok & Hm). destruct Hm3 as [_ ->].
  apply st_bind_Ok in Hm as (? & s4 & Hm4 & Hm). apply (kill_inputs_ok _ _ _ _ _ _ Hm2) in Hm4.
  apply st_bind_Ok in Hm as (? & s5 & Hm5 & Hm).
  apply (create_outputs_ok _ _ _ _ _ _ _ _ _ _ _ Hm4) in Hm5.
  apply (reduce_burns_ok _ _ _ _ _ _ t Hm5) in Hm as (vs & Hs' & Hsup); [|done|done].
  exists vs, hs. split; [done|]. intros va. exact Hsup.
Qed.
End Operations.

(** * Sums over the view *)

Section Sums.
Context `{Crypto} `{Primitives}.
Variable shard_id : ShardId.
Context (t : H160) (addresses : list H256) (Hnd : NoDup addresses).
Implicit Types va : bytes → option OwnedAsset.

Local Abbreviation total va := (sum_with (λ a, held t (va a)) addresses).

Lemma total_set a x va :
  a ∈ addresses → total (set_view a x va) + held t (va a) = total va + held t x.
Proof.
  induction Hnd as [|b l Hb Hnd' IH]; [by intros ?%elem_of_nil|]. simpl.
  intros [->|Ha]%elem_of_cons.
  - rewrite set_view_eq, (sum_with_ext _ (λ a, held t (va a)) l); [lia|].
    intros y Hy. by rewrite set_view_ne by (intros ->; done).
  - rewrite set_view_ne by (intros ->; done). specialize (IH Hnd' Ha). lia.
Qed.

Lemma live_held vs va i :
  here shard_id i = true → input_live shard_id (vs, va) i →
  held t (va (input_address shard_id i)) =
  if bool_decide (input_key i = (t, shard_id)) then input_quantity i else 0.
Proof.
  intros Hh%N.eqb_eq (a & Ha & Hq & Hty). cbn [snd] in Ha. rewrite Ha. simpl.
  unfold input_key, input_quantity. rewrite Hh, Hty, Hq.
  destruct (decide _) as [->|Hn]; [by rewrite bool_decide_true|].
  rewrite bool_decide_false; [done|congruence].
Qed.

Lemma total_killed inputs va :
  NoDup (input_address shard_id <$> filter (λ i, here shard_id i = true) inputs) →
  Forall (λ i, here shard_id i = true → input_live shard_id ((λ _, None), va) i) inputs →
  Forall (λ i, here shard_id i = true → input_address shard_id i ∈ addresses) inputs →
  total (killed shard_id inputs va) + declared shard_id t inputs = total va.
Proof.
  revert va. induction inputs as [|i inputs IH]; intros va Hin Hl Ha.
  { unfold declared, input_sum. simpl. lia. }
  cbn [killed].
  apply Forall_cons_1 in Hl as [Hl Hls]. apply Forall_cons_1 in Ha as [Ha Has].
  assert (declared shard_id t (i :: inputs) =
    (if bool_decide (input_key i = (t, shard_id)) then input_quantity i else 0) +
    declared shard_id t inputs) as -> by done.
  rewrite filter_cons in Hin. destruct (here shard_id i) eqn:Eh.
  - rewrite decide_True in Hin by done. rewrite fmap_cons in Hin; apply list.NoDup_cons in Hin as [Hni Hin].
    rewrite <- (live_held (λ _, None) va i) by auto.
    rewrite N.add_comm, <- N.add_assoc, (N.add_comm _ (total _)), IH; [|done| |done].
    + rewrite N.add_comm, total_set by auto. simpl. lia.
    + apply list.Forall_forall. intros j Hj Hh. rewrite list.Forall_forall in Hls.
      destruct (Hls j Hj Hh) as (a & Haj & Hr). exists a. split; [|done]. cbn [snd] in *.
      rewrite set_view_ne; [done|]. intros Heq. apply Hni. rewrite <- Heq.
      apply list_elem_of_fmap_2, list_elem_of_filter. by split.
  - rewrite decide_False in Hin by done. rewrite bool_decide_false; [|].
    + rewrite N.add_0_l. by apply IH.
    + unfold input_key, here in *. intros [= _ Hid]. by rewrite Hid, N.eqb_refl in Eh.
Qed.

Lemma killed_none inputs va a : va a = None → killed shard_id inputs va a = None.
Proof.
  revert va. induction inputs as [|i inputs IH]; intros va Ha; simpl; [done|]. apply IH.
  destruct (here shard_id i); [|done]. unfold set_view. by destruct (decide _).
Qed.

Lemma total_created tracker hashes index outputs va :
  NoDup (output_addresses shard_id tracker index outputs) →
  Forall (λ a, va a = None ∧ a ∈ addresses) (output_addresses shard_id tracker index outputs) →
  total (created shard_id tracker hashes index outputs va) =
  total va + output_sum outputs (t, shard_id).
Proof.
  revert index va. induction outputs as [|o outputs IH]; intros index va Ho Hv.
  { unfold output_sum. simpl. lia. }
  cbn [created output_addresses] in *.
  assert (output_sum (o :: outputs) (t, shard_id) =
    (if bool_decide (output_key o = (t, shard_id)) then ato_quantity o else 0) +
    output_sum outputs (t, shard_id)) as -> by done.
  destruct (N.eqb_spec (ato_shard_id o) shard_id) as [Hid|Hid]; simpl in *.
  - apply list.NoDup_cons in Ho as [Hni Ho]. apply Forall_cons_1 in Hv as [[Hv Ha] Hvs].
    rewrite IH; [|done|].
    + pose proof (total_set _ (Some (output_asset (default None (hashes !! N.to_nat index)) o))
        va Ha) as Ht. rewrite Hv in Ht. simpl in Ht. rewrite N.add_0_r in Ht. rewrite Ht.
      unfold output_key. rewrite Hid. change (oa_asset_type _) with (ato_asset_type o).
      change (oa_quantity _) with (ato_quantity o).
      destruct (decide (ato_asset_type o = t)) as [Hty|Hty].
      * rewrite bool_decide_true by (by rewrite Hty). lia.
      * rewrite bool_decide_false by congruence. lia.
    + apply list.Forall_forall. intros a Hin. rewrite list.Forall_forall in Hvs.
      destruct (Hvs a Hin) as [Hva ?]. split; [|done]. rewrite set_view_ne; [done|]. by intros ->.
  - rewrite bool_decide_false by (unfold output_key; congruence). rewrite IH by done. lia.
Qed.
End Sums.

(** * Transfers conserve assets *)

(** C3: A verified transfer that a shard applies neither creates nor destroys assets: over
    any set of addresses that covers the transaction, the quantity held of an asset type
    drops by exactly what is burnt, and so does its recorded supply.  The addresses of
    the transaction must not collide, which is a property of the hash function. *)
Theorem transfer_conserves_assets `{Crypto} `{Primitives} `{ChainTimeInfo} (env : ShardEnv)
    (parent_block_number parent_block_timestamp : N) (walk : gmap H160 N → list (H160 * N))
    (network_id : NetworkId) (burns inputs : list AssetTransferInput)
    (outputs : list AssetTransferOutput) (orders : list OrderOnTransfer) (metadata : Types.String)
    (approvals : list Signature) (expiration : option N) (sender : Address)
    (shard_users approvers : list Address) (s s' : ShardLevel) (v : shard_view)
    (saved : list shard_view) (t : H160) (addresses : list H256) :
  let shard_id := se_shard_id env in
  let tx := ShardTransaction.TransferAsset network_id burns inputs outputs orders in
  let tracker := ShardTransaction_tracker tx in
  sum_with input_quantity inputs < u128_size →
  Action_verify (Action.TransferAsset network_id burns inputs outputs orders metadata approvals
                   expiration) = Ok tt →
  shard_snap env (sl_cache s) v saved →
  fresh shard_id tracker (inputs ++ burns) outputs v →
  NoDup addresses →
  Forall (λ i, here shard_id i = true → input_address shard_id i ∈ addresses) (inputs ++ burns) →
  Forall (λ a, a ∈ addresses) (output_addresses shard_id tracker 0 outputs) →
  supply shard_id t v < u64_size →
  (∀ b, b ∈ burns → AssetSchemeAddress_new (aop_asset_type (ati_prev_out b)) shard_id =
     AssetSchemeAddress_new t shard_id → aop_asset_type (ati_prev_out b) = t) →
  shard_apply env parent_block_number parent_block_timestamp walk tx sender shard_users approvers s
    = (Ok tt, s') →
  ∃ v', shard_snap env (sl_cache s') v' saved ∧
    holdings t addresses v' + declared shard_id t burns = holdings t addresses v ∧
    supply shard_id t v' + declared shard_id t burns = supply shard_id t v.
Proof.
  intros shard_id tx tracker Hsum Hver Hs (Hin & Hout & Hnew) Hnd Hia Hoa Hlt Hinj Hr.
  subst shard_id tracker tx.
  eapply shard_apply_snap in Hr as (_ & v1 & _ & s2 & Hc & Hr); [|exact Hs|done].
  apply (transfer_asset_ok env _ _ _ _ _ _ _ _ _ _ v (v :: saved) _ _ t) in Hr
    as (Hlive & vs & hs & Hs2 & Hsup); [|by apply shard_snap_checkpoint|done|done].
  eexists. split; [rewrite Hc; by eapply shard_snap_discard|]. split; [|by apply Hsup].
  unfold holdings. cbn [snd]. destruct v as [vsch va]. cbn [snd] in *.
  rewrite (total_created _ t addresses Hnd); [|done|].
  - pose proof (Action_verify_consistent _ _ _ _ _ _ _ _ Hsum Hver (t, se_shard_id env)) as Hk.
    rewrite <- (total_killed (se_shard_id env) t addresses Hnd (inputs ++ burns) va); [|done| |done].
    + unfold declared. rewrite input_sum_app, Hk. lia.
    + exact Hlive.
  - apply list.Forall_forall. intros a Ha. rewrite list.Forall_forall in Hnew, Hoa.
    split; [|by apply Hoa]. apply killed_none. by apply (Hnew a).
Qed.

Module TransferWitness.
#[local] Existing Instance Sample.crypto.
#[local] Existing Instance sample_primitives.
#[local] Instance chain : ChainTimeInfo :=
  {| transaction_block_age _ n := Some n; transaction_time_age _ _ := None |}.

Definition gold : H160 := replicate 20 1.
Definition prev_tracker : H256 := replicate 32 7.
Definition owned (quantity : N) (script : bytes) : OwnedAsset :=
  OwnedAsset_new gold (blake160 script) [] quantity None.

(** A shard with a supply of 14, held as 10 under a script that unlocks and 4 under a
    script that burns. *)
Definition env : ShardEnv := {|
  se_db_asset_scheme a :=
    Ok (if bool_decide (a = AssetSchemeAddress_new gold 3)
        then Some (AssetScheme_new_with_pool [] 14 None None [] []) else None);
  se_db_asset a :=
    Ok (if bool_decide (a = OwnedAssetAddress_new prev_tracker 0 3) then Some (owned 10 [2])
        else if bool_decide (a = OwnedAssetAddress_new prev_tracker 1 3) then Some (owned 4 [1])
        else None);
  se_shard_id := 3;
|}.

Definition spend (index quantity : N) (script : bytes) : AssetTransferInput :=
  {| ati_prev_out := {| aop_tracker := prev_tracker; aop_index := index; aop_asset_type := gold;
                        aop_shard_id := 3; aop_quantity := quantity |};
     ati_timelock := None; ati_lock_script := script; ati_unlock_script := [] |}.
Definition pay (quantity : N) : AssetTransferOutput :=
  {| ato_lock_script_hash := replicate 20 9; ato_parameters := []; ato_asset_type := gold;
     ato_shard_id := 3; ato_quantity := quantity |}.

Definition tx : ShardTransaction.t :=
  ShardTransaction.TransferAsset [116; 99] [spend 1 4 [1]] [spend 0 10 [2]] [pay 7; pay 3] [].
Definition s0 : ShardLevel := {| sl_cache := ShardCache_default; sl_id_of_checkpoints := [] |}.
Definition v0 : shard_view := (db_view (se_db_asset_scheme env), db_view (se_db_asset env)).
Definition walk (m : gmap H160 N) : list (H160 * N) := map_to_list m.
Definition addresses : list H256 :=
  [OwnedAssetAddress_new prev_tracker 0 3; OwnedAssetAddress_new prev_tracker 1 3;
   OwnedAssetAddress_new (ShardTransaction_tracker tx) 0 3;
   OwnedAssetAddress_new (ShardTransaction_tracker tx) 1 3].

Lemma snap0 : shard_snap env (sl_cache s0) v0 [].
Proof. split; apply snapshots_new. Qed.

Lemma transfer_conserves_assets_witness :
  ∃ s' v', shard_apply env 5 6 walk tx [] [] [] s0 = (Ok tt, s') ∧
    shard_snap env (sl_cache s') v' [] ∧ holdings gold addresses v' = 10 ∧ supply 3 gold v' = 10.
Proof.
  assert (∃ s', shard_apply env 5 6 walk tx [] [] [] s0 = (Ok tt, s')) as [s' Hr].
  { eexists. vm_compute. reflexivity. }
  exists s'.
  destruct (transfer_conserves_assets env 5 6 walk [116; 99] [spend 1 4 [1]] [spend 0 10 [2]]
    [pay 7; pay 3] [] [] [] None [] [] [] s0 s' v0 [] gold addresses) as (v' & Hs & Hh & Hsup).
  - reflexivity.
  - reflexivity.
  - exact snap0.
  - split_and!.
    + apply (bool_decide_unpack _). vm_compute. exact I.
    + apply (bool_decide_unpack _). vm_compute. exact I.
    + repeat constructor.
  - apply (bool_decide_unpack _). vm_compute. exact I.
  - repeat constructor; intros _; apply (bool_decide_unpack _); vm_compute; exact I.
  - repeat constructor; apply (bool_decide_unpack _); vm_compute; exact I.
  - reflexivity.
  - intros b Hb _. apply list_elem_of_singleton in Hb as ->. reflexivity.
  - exact Hr.
  - exists v'. split_and!; [exact Hr|exact Hs| |].
    + apply (N.add_cancel_r _ _ 4). exact Hh.
    + apply (N.add_cancel_r _ _ 4). exact Hsup.
Defined.

(** The inputs are already killed and the first output created when the second output
    turns out to have no asset scheme. *)
Definition bad_tx : ShardTransaction.t :=
  ShardTransaction.TransferAsset [116; 99] [spend 1 4 [1]] [spend 0 10 [2]]
    [pay 7; {| ato_lock_script_hash := []; ato_parameters := []; ato_asset_type := replicate 20 2;
               ato_shard_id := 3; ato_quantity := 3 |}] [].
Definition bad_error : StateError.t :=
  StateError.Runtime (RuntimeError.AssetSchemeNotFound (replicate 20 2) 3).

Lemma shard_apply_atomic_witness :
  ∃ s', shard_apply env 5 6 walk bad_tx [] [] [] s0 = (Err bad_error, s') ∧
    shard_snap env (sl_cache s') v0 [].
Proof.
  assert (∃ s', shard_apply env 5 6 walk bad_tx [] [] [] s0 = (Err bad_error, s')) as [s' Hr].
  { eexists. vm_compute. reflexivity. }
  exists s'. split; [exact Hr|].
  exact (proj1 (shard_apply_atomic env 5 6 walk bad_tx [] [] [] s0 s' v0 [] _ snap0 Hr)).
Defined.
End TransferWitness.
