(* ===== verification/ShardAuth.v ===== *)
(** Who may spend an asset: what a shard has checked about every input of a transfer it
    applies, for [check_and_run_input_script] of [state/src/impls/shard_level.rs]. *)

From stdpp Require Import base gmap list numbers.
From S2P Require Import Prelude Types Crypto Tag VmDecode Vm TxHash TxVerify StateCache StateItems.
From S2P Require Import ShardState ShardTransfer.

Local Open Scope N_scope.

Section Authorization.
Context `{Crypto} `{Primitives} `{ChainTimeInfo}.
Context (env : ShardEnv) (parent_block_number parent_block_timestamp : N).
Local Abbreviation shard_id := (se_shard_id env).

(** The registrar of the asset sent or approved the transaction. *)
Definition registrar_approves (scheme : AssetScheme) (sender : Address) (approvers : list Address)
  : Prop :=
  ∃ registrar, sch_registrar scheme = Some registrar ∧ registrar ∈ sender :: approvers.

(** The approver of the asset, if it has one, sent or approved the transaction. *)
Definition approver_approves (scheme : AssetScheme) (sender : Address) (approvers : list Address)
  : Prop :=
  ∀ approver, sch_approver scheme = Some approver → approver ∈ sender :: approvers.

(** The scripts of the input, for the asset it spends, unlock it or burn it as asked. *)
Definition scripts_release (tx : ShardTransaction.t) (input : AssetTransferInput) (a : OwnedAsset)
    (order : option Order) (burn : bool) : Prop :=
  oa_lock_script_hash a = blake160 (ati_lock_script input) ∧
  ∃ lock_script unlock_script,
    VmDecode.decode (ati_lock_script input) = Ok lock_script ∧
    VmDecode.decode (ati_unlock_script input) = Ok unlock_script ∧
    execute (match order with
             | Some order => Order_hash_partially order
             | None => ShardTransaction_hash_partially tx
             end) input burn parent_block_number parent_block_timestamp unlock_script
      (oa_parameters a) lock_script Config_default =
    Ok (if burn then ScriptResult.Burnt else ScriptResult.Unlocked).

(** The spending of an input is authorized: by the registrar, or by the approver and
    either the order the asset is already under or the asset's scripts. *)
Definition authorized (v : shard_view) (tx : ShardTransaction.t) (sender : Address)
    (approvers : list Address) (order : option Order) (burn : bool) (input : AssetTransferInput)
  : Prop :=
  ∃ scheme a,
    v.1 (AssetSchemeAddress_new (aop_asset_type (ati_prev_out input)) shard_id) = Some scheme ∧
    v.2 (input_address shard_id input) = Some a ∧
    oa_quantity a = aop_quantity (ati_prev_out input) ∧
    oa_asset_type a = aop_asset_type (ati_prev_out input) ∧
    (registrar_approves scheme sender approvers ∨
     (approver_approves scheme sender approvers ∧
      ((∃ o, order = Some o ∧ oa_order_hash a = Some (Order_hash o)) ∨
       scripts_release tx input a order burn))).

Implicit Types (s : ShardLevel) (v : shard_view).
Local Abbreviation snap s v ws := (shard_snap env (sl_cache s) v ws).

Lemma run_scripts_ok input params to_hash burn u :
  run_scripts env parent_block_number parent_block_timestamp input params to_hash burn = Ok u →
  ∃ lock_script unlock_script,
    VmDecode.decode (ati_lock_script input) = Ok lock_script ∧
    VmDecode.decode (ati_unlock_script input) = Ok unlock_script ∧
    execute to_hash input burn parent_block_number parent_block_timestamp unlock_script params
      lock_script Config_default = Ok (if burn then ScriptResult.Burnt else ScriptResult.Unlocked).
Proof.
  unfold run_scripts. destruct (VmDecode.decode (ati_lock_script input)) as [l| |];
    destruct (VmDecode.decode (ati_unlock_script input)) as [k| |]; try done. cbv zeta.
  destruct (execute _ _ _ _ _ _ _ _ _) as [[]| |] eqn:E; destruct burn; try done; eauto.
Qed.

Lemma approved_by_registrar_exact t sender approvers s v ws b s' :
  snap s v ws → approved_by_registrar env t sender approvers s = (Ok b, s') →
  snap s' v ws ∧ ∃ scheme, v.1 (AssetSchemeAddress_new t shard_id) = Some scheme ∧
    (b = true ↔ registrar_approves scheme sender approvers).
Proof.
  intros Hs Hm. unfold approved_by_registrar in Hm.
  apply st_bind_Ok in Hm as (o & s1 & Hm1 & Hm).
  apply (asset_scheme_ok _ _ _ _ _ _ _ Hs) in Hm1 as [Hs1 ->].
  apply st_bind_Ok in Hm as (scheme & s2 & Hm2%or_throw_ok & Hm). destruct Hm2 as [Hsch ->].
  unfold registrar_approves.
  destruct (sch_registrar scheme) as [r|] eqn:Er; apply ret_ok in Hm as [-> ->];
    (split; [done|]); exists scheme; (split; [done|]).
  - rewrite orb_true_iff, !bool_decide_eq_true. split.
    + intros Hr. exists r. split; [done|]. apply elem_of_cons. naive_solver.
    + intros (r' & Heq & Hr). simplify_eq. by apply elem_of_cons in Hr.
  - split; [done|]. intros (r & Heq & _). congruence.
Qed.

(** The approver's check inside [check_input_asset]. *)
Lemma approver_check_ok (reg : bool) t id sender approvers s v ws scheme u s' :
  snap s v ws → v.1 (AssetSchemeAddress_new t shard_id) = Some scheme →
  (if negb reg then
     o ← asset_scheme env t;
     o ← or_throw o (RuntimeError.AssetSchemeNotFound t id);
     match sch_approver o with
     | Some approver =>
         if negb (bool_decide (sender = approver)) && negb (bool_decide (approver ∈ approvers))
         then throw (RuntimeError.NotApproved approver)
         else mret tt
     | None => mret tt
     end
   else mret tt) s = (Ok u, s') →
  snap s' v ws ∧ (reg = true ∨ approver_approves scheme sender approvers).
Proof.
  intros Hs Hsch Hm. destruct reg; cbn [negb] in Hm.
  { apply ret_ok in Hm as [_ ->]. by split; [|left]. }
  apply st_bind_Ok in Hm as (o & s1 & Hm1 & Hm).
  apply (asset_scheme_ok _ _ _ _ _ _ _ Hs) in Hm1 as [Hs1 ->]. rewrite Hsch in Hm.
  apply st_bind_Ok in Hm as (x & s2 & Hm2%or_throw_ok & Hm). destruct Hm2 as [Heq ->].
  injection Heq as <-. unfold approver_approves. destruct (sch_approver scheme) as [p|].
  - destruct (negb _ && negb _) eqn:E; [done|]. apply ret_ok in Hm as [_ ->].
    split; [done|]. right. intros ? Heq. simplify_eq. apply elem_of_cons.
    apply andb_false_iff in E as [E|E]; apply negb_false_iff, bool_decide_eq_true in E; auto.
  - apply ret_ok in Hm as [_ ->]. split; [done|]. by right.
Qed.

Lemma check_and_run_authorized input tx order burn sender approvers s v ws u s' :
  snap s v ws →
  check_and_run_input_script env parent_block_number parent_block_timestamp input tx order burn
    sender approvers s = (Ok u, s') →
  snap s' v ws ∧ authorized v tx sender approvers order burn input.
Proof.
  intros Hs Hm. split; [by eapply check_and_run_ok|].
  unfold check_and_run_input_script in Hm. apply st_bind_Ok in Hm as ([a reg] & s1 & Hc & Hm).
  pose proof Hc as Hc'. eapply check_input_asset_ok in Hc' as (_ & _ & Hl); [|exact Hs].
  unfold check_input_asset in Hc. cbv zeta in Hc.
  apply st_bind_Ok in Hc as (? & s2 & Hm2%lift_ok & Hc). destruct Hm2 as [_ ->].
  apply st_bind_Ok in Hc as (reg' & s3 & Hm3 & Hc).
  apply (approved_by_registrar_exact _ _ _ _ _ _ _ _ Hs) in Hm3 as (Hs3 & scheme & Hsch & Hreg).
  apply st_bind_Ok in Hc as (? & s4 & Hm4 & Hc).
  apply (approver_check_ok _ _ _ _ _ _ _ _ _ _ _ Hs3 Hsch) in Hm4 as (Hs4 & Happ).
  apply st_bind_Ok in Hc as (o & s5 & Hm5 & Hc).
  apply (asset_ok _ _ _ _ _ _ _ _ Hs4) in Hm5 as [Hs5 ->].
  apply st_bind_Ok in Hc as (a' & s6 & Hm6%or_throw_ok & Hc). destruct Hm6 as [Ha ->].
  destruct (negb _); [done|]. destruct (negb _); [done|]. apply ret_ok in Hc as [Heq ->]. simplify_eq.
  destruct Hl as (a2 & Ha2 & Hq & Hty). unfold input_address in Ha2. rewrite Ha in Ha2.
  injection Ha2 as <-. exists scheme, a'. split_and!; try done.
  destruct reg'; [left; by apply Hreg|]. right. destruct Happ as [|Happ]; [done|].
  split; [done|]. cbv zeta in Hm. destruct (match order with Some _ => _ | None => _ end) eqn:Eo.
  - left. destruct order as [o|]; [|done]. destruct (oa_order_hash a'); [|done].
    apply bool_decide_eq_true in Eo as ->. by exists o.
  - right. destruct (bool_decide (oa_lock_script_hash a' = _)) eqn:Eh; [|done]. cbn [negb] in Hm.
    apply bool_decide_eq_true in Eh. split; [done|].
    apply lift_ok in Hm as [Hm _]. by apply run_scripts_ok in Hm.
Qed.
End Authorization.

(** * Transfers are authorized *)

(** C4: Every input of a shard that a transfer spends there is authorized against the state
    before the transfer, directly or under an order of the transaction that names that
    input; and every burn is authorized as a burn. *)
Theorem transfer_authorized `{Crypto} `{Primitives} `{ChainTimeInfo} (env : ShardEnv)
    (parent_block_number parent_block_timestamp : N) (walk : gmap H160 N → list (H160 * N))
    (network_id : NetworkId) (burns inputs : list AssetTransferInput)
    (outputs : list AssetTransferOutput) (orders : list OrderOnTransfer) (sender : Address)
    (shard_users approvers : list Address) (s s' : ShardLevel) (v : shard_view)
    (saved : list shard_view) :
  let tx := ShardTransaction.TransferAsset network_id burns inputs outputs orders in
  shard_snap env (sl_cache s) v saved →
  shard_apply env parent_block_number parent_block_timestamp walk tx sender shard_users approvers s
    = (Ok tt, s') →
  (∀ k input, inputs !! k = Some input → here (se_shard_id env) input = true →
     ∃ order,
       (∀ o, order = Some o → ∃ ot, ot ∈ orders ∧ o = oot_order ot ∧
          N.of_nat k ∈ oot_input_from_indices ot ++ oot_input_fee_indices ot) ∧
       authorized env parent_block_number parent_block_timestamp v tx sender approvers order false
         input) ∧
  (∀ burn, burn ∈ burns → here (se_shard_id env) burn = true →
     authorized env parent_block_number parent_block_timestamp v tx sender approvers None true burn).
Proof.
  intros tx Hs Hr. eapply shard_apply_snap in Hr as (_ & _ & _ & s2 & _ & Hr); [|exact Hs|done].
  change (shard_apply_internal _ _ _ _ tx _ _ _) with
    (transfer_asset env parent_block_number parent_block_timestamp tx sender approvers burns inputs
       outputs orders) in Hr.
  unfold transfer_asset in Hr.
  apply st_bind_Ok in Hr as (os & s3 & Hos%lift_ok & Hr). destruct Hos as [Hos ->].
  apply st_bind_Ok in Hr as (? & s4 & Hrun & _).
  apply (run_input_scripts_Forall env _ _
    (λ i o b, authorized env parent_block_number parent_block_timestamp v tx sender approvers o b i)
    _ _ _ _ _ _ _ v (v :: saved)) in Hrun as [_ Hf];
    [|intros; by eapply check_and_run_authorized|by apply shard_snap_checkpoint].
  apply Forall_app in Hf as [Hf1 Hf2]. split.
  - intros k input Hk Hh. pose proof (fill_indices_length _ _ _ _ _ Hos) as Hlen.
    assert (is_Some (os !! k)) as [order Ho].
    { apply lookup_lt_is_Some. rewrite Hlen. by eapply lookup_lt_Some. }
    exists order. split.
    + intros o ->. destruct (fill_indices_lookup _ _ _ _ _ _ _ Hos Ho) as (ot & Hin & [= <-] & Hidx).
      by exists ot.
    + rewrite list.Forall_forall in Hf1. apply (Hf1 (input, order, false)); [|done].
      apply list_elem_of_lookup. exists k. rewrite lookup_zip_with, Hk. simpl. by rewrite Ho.
  - intros b Hb Hh. apply Forall_fmap in Hf2. rewrite list.Forall_forall in Hf2. by apply (Hf2 b).
Qed.

Lemma transfer_authorized_witness :
  authorized TransferWitness.env 5 6 TransferWitness.v0 TransferWitness.tx [] [] None true
    (TransferWitness.spend 1 4 [1]) (H:=Sample.crypto) (H0:=sample_primitives)
    (H1:=TransferWitness.chain).
Proof.
  assert (∃ s', shard_apply (H:=Sample.crypto) (H0:=sample_primitives) (H1:=TransferWitness.chain)
    TransferWitness.env 5 6 TransferWitness.walk TransferWitness.tx [] [] [] TransferWitness.s0 =
    (Ok tt, s')) as [s' Hr].
  { eexists. vm_compute. reflexivity. }
  apply (transfer_authorized (H:=Sample.crypto) (H0:=sample_primitives) (H1:=TransferWitness.chain)
    _ _ _ _ _ _ _ _ _ _ _ _ _ _ _ _ TransferWitness.snap0 Hr).
  - apply list_elem_of_singleton. reflexivity.
  - reflexivity.
Defined.
