(* ===== verification/TopState.v ===== *)
(** The top-level state, [state/src/impls/top_level.rs]: accounts, regular keys, shards,
    texts and parameters, the application of a transaction with its fee, and the
    checkpoints around both. *)

From stdpp Require Import base gmap list numbers.
From S2P Require Import Prelude Types Crypto Rlp RlpImpls Vm TxHash TxVerify Params StateCache StateItems.
From S2P Require Import ShardState.

Local Open Scope N_scope.

(** * The caches, [state/src/cache/top_cache.rs] *)

Record TopCache := {
  tc_account : WriteBack Account;
  tc_regular_account : WriteBack RegularAccount;
  tc_metadata : WriteBack Metadata;
  tc_shard : WriteBack Shard;
  tc_text : WriteBack Text;
  tc_action_data : WriteBack ActionData;
}.

Definition TopCache_default : TopCache :=
  {| tc_account := wb_new; tc_regular_account := wb_new; tc_metadata := wb_new;
     tc_shard := wb_new; tc_text := wb_new; tc_action_data := wb_new |}.

(** The same call on each of the six caches. *)
Definition tc_map (f : ∀ Item, WriteBack Item → WriteBack Item) (self : TopCache) : TopCache :=
  {| tc_account := f _ (tc_account self); tc_regular_account := f _ (tc_regular_account self);
     tc_metadata := f _ (tc_metadata self); tc_shard := f _ (tc_shard self);
     tc_text := f _ (tc_text self); tc_action_data := f _ (tc_action_data self) |}.

Definition tc_checkpoint : TopCache → TopCache := tc_map (@wb_checkpoint).
Definition tc_discard_checkpoint : TopCache → TopCache := tc_map (@wb_discard_checkpoint).
Definition tc_revert_to_checkpoint : TopCache → TopCache := tc_map (@wb_revert_to_checkpoint).

(** * The state *)

(** The changing part of [struct TopLevelState]; the last checkpoint identifier is the head
    of the list. *)
Record TopLevel := {
  tl_top_cache : TopCache;
  tl_shard_caches : gmap ShardId ShardCache;
  tl_id_of_checkpoints : list N;
}.

(** What the database answers at the state's root, and at the root of each shard. *)
Record TopEnv := {
  te_db_account : bytes → result TrieError.t (option Account);
  te_db_regular_account : bytes → result TrieError.t (option RegularAccount);
  te_db_metadata : bytes → result TrieError.t (option Metadata);
  te_db_shard : bytes → result TrieError.t (option Shard);
  te_db_text : bytes → result TrieError.t (option Text);
  te_db_action_data : bytes → result TrieError.t (option ActionData);
  te_contains : H256 → bool;
  te_shard_env : H256 → ShardId → ShardEnv;
}.

Abbreviation topM := (stM TopLevel StateError.t).

(** A cache of the top level, as a place: its contents and how to write them back. *)
Definition on_top {Item A : Type} (get : TopCache → WriteBack Item)
    (set : WriteBack Item → TopCache → TopCache)
    (m : stM (WriteBack Item) StateError.t A) : topM A := λ s,
  let (r, c) := m (get (tl_top_cache s)) in
  (r, {| tl_top_cache := set c (tl_top_cache s); tl_shard_caches := tl_shard_caches s;
         tl_id_of_checkpoints := tl_id_of_checkpoints s |}).

Definition set_account (c : WriteBack Account) (t : TopCache) : TopCache :=
  {| tc_account := c; tc_regular_account := tc_regular_account t; tc_metadata := tc_metadata t;
     tc_shard := tc_shard t; tc_text := tc_text t; tc_action_data := tc_action_data t |}.
Definition set_regular_account (c : WriteBack RegularAccount) (t : TopCache) : TopCache :=
  {| tc_account := tc_account t; tc_regular_account := c; tc_metadata := tc_metadata t;
     tc_shard := tc_shard t; tc_text := tc_text t; tc_action_data := tc_action_data t |}.
Definition set_metadata (c : WriteBack Metadata) (t : TopCache) : TopCache :=
  {| tc_account := tc_account t; tc_regular_account := tc_regular_account t; tc_metadata := c;
     tc_shard := tc_shard t; tc_text := tc_text t; tc_action_data := tc_action_data t |}.
Definition set_shard (c : WriteBack Shard) (t : TopCache) : TopCache :=
  {| tc_account := tc_account t; tc_regular_account := tc_regular_account t;
     tc_metadata := tc_metadata t; tc_shard := c; tc_text := tc_text t;
     tc_action_data := tc_action_data t |}.
Definition set_text (c : WriteBack Text) (t : TopCache) : TopCache :=
  {| tc_account := tc_account t; tc_regular_account := tc_regular_account t;
     tc_metadata := tc_metadata t; tc_shard := tc_shard t; tc_text := c;
     tc_action_data := tc_action_data t |}.
Definition set_action_data (c : WriteBack ActionData) (t : TopCache) : TopCache :=
  {| tc_account := tc_account t; tc_regular_account := tc_regular_account t;
     tc_metadata := tc_metadata t; tc_shard := tc_shard t; tc_text := tc_text t;
     tc_action_data := c |}.

Definition top_throw {A : Type} (e : RuntimeError.t) : topM A := throw_st (StateError.Runtime e).

Definition top_or_throw {A : Type} (o : option A) (e : RuntimeError.t) : topM A :=
  match o with Some a => mret a | None => top_throw e end.

(** * Checkpoints *)

Definition FEE_CHECKPOINT : N := 123.
Definition ACTION_CHECKPOINT : N := 130.

Definition tl_create_checkpoint (id : N) : topM () :=
  modify_st (λ s, {| tl_top_cache := tc_checkpoint (tl_top_cache s);
                     tl_shard_caches := sc_checkpoint <$> tl_shard_caches s;
                     tl_id_of_checkpoints := id :: tl_id_of_checkpoints s |}).

Definition tl_close_checkpoint (close_top : TopCache → TopCache)
    (close_shard : ShardCache → ShardCache) (id : N) : topM () := λ s,
  match tl_id_of_checkpoints s with
  | [] => (Panic, s)
  | expected :: rest =>
      if expected =? id then
        (Ok tt, {| tl_top_cache := close_top (tl_top_cache s);
                   tl_shard_caches := close_shard <$> tl_shard_caches s;
                   tl_id_of_checkpoints := rest |})
      else (Panic, {| tl_top_cache := tl_top_cache s; tl_shard_caches := tl_shard_caches s;
                      tl_id_of_checkpoints := rest |})
  end.

Definition tl_discard_checkpoint : N → topM () :=
  tl_close_checkpoint tc_discard_checkpoint sc_discard_checkpoint.
Definition tl_revert_to_checkpoint : N → topM () :=
  tl_close_checkpoint tc_revert_to_checkpoint sc_revert_to_checkpoint.

(** [create_checkpoint(id); let r = body; match r { Ok => discard, Err => revert }; r] *)
Definition under_checkpoint (id : N) (body : topM ()) : topM () := λ s0,
  let (_, s1) := tl_create_checkpoint id s0 in
  let (result, s2) := body s1 in
  match result with
  | Ok _ => tl_discard_checkpoint id s2
  | Err err => let (r, s3) := tl_revert_to_checkpoint id s2 in (_ ← r; Err err, s3)
  | Panic => (Panic, s2)
  end.

(** * Reading and writing items *)

Section TopLevelState.
Context `{Crypto} `{Primitives} `{ChainTimeInfo}.
Context (env : TopEnv).

Definition account (a : Address) : topM (option Account) :=
  on_top tc_account set_account (with_trie_error (wb_get a (te_db_account env))).

Definition regular_account_by_address (a : Address) : topM (option RegularAccount) :=
  on_top tc_regular_account set_regular_account
    (with_trie_error
       (wb_get (RegularAccountAddress_from_address a) (te_db_regular_account env))).

Definition metadata : topM (option Metadata) :=
  on_top tc_metadata set_metadata (with_trie_error (wb_get MetadataAddress_new (te_db_metadata env))).

Definition shard (shard_id : ShardId) : topM (option Shard) :=
  on_top tc_shard set_shard (with_trie_error (wb_get (ShardAddress_new shard_id) (te_db_shard env))).

Definition text (key : H256) : topM (option Text) :=
  on_top tc_text set_text (with_trie_error (wb_get key (te_db_text env))).

Definition action_data (key : H256) : topM (option ActionData) :=
  on_top tc_action_data set_action_data (with_trie_error (wb_get key (te_db_action_data env))).

(** [get_account_mut] and its companions, with the body that uses the reference. *)
Definition with_account_mut {B : Type} (a : Address) (f : stM Account StateError.t B) : topM B :=
  on_top tc_account set_account
    (wb_with_mut StateError.Trie Account_default a (te_db_account env) f).

Definition with_regular_account_mut {B : Type} (public : Public)
    (f : stM RegularAccount StateError.t B) : topM B :=
  on_top tc_regular_account set_regular_account
    (wb_with_mut StateError.Trie RegularAccount_default (RegularAccountAddress_new public)
       (te_db_regular_account env) f).

Definition with_metadata_mut {B : Type} (f : stM Metadata StateError.t B) : topM B :=
  on_top tc_metadata set_metadata
    (wb_with_mut StateError.Trie Metadata_default MetadataAddress_new (te_db_metadata env) f).

Definition with_shard_mut {B : Type} (shard_id : ShardId) (f : stM Shard StateError.t B) : topM B :=
  on_top tc_shard set_shard
    (wb_with_mut StateError.Trie Shard_default (ShardAddress_new shard_id) (te_db_shard env) f).

Definition with_text_mut {B : Type} (key : H256) (f : stM Text StateError.t B) : topM B :=
  on_top tc_text set_text (wb_with_mut StateError.Trie Text_default key (te_db_text env) f).

Definition with_action_data_mut {B : Type} (key : H256) (f : stM ActionData StateError.t B) : topM B :=
  on_top tc_action_data set_action_data
    (wb_with_mut StateError.Trie ActionData_default key (te_db_action_data env) f).

(** * [trait TopStateView], [state/src/traits.rs] *)

Definition seq (a : Address) : topM N :=
  o ← account a; mret (match o with Some x => acc_seq x | None => 0 end).

Definition balance (a : Address) : topM N :=
  o ← account a; mret (match o with Some x => acc_balance x | None => 0 end).

Definition account_exists_and_not_null (a : Address) : topM bool :=
  o ← account a; mret (match o with Some x => negb (Account_is_null x) | None => false end).

Definition regular_account_exists_and_not_null_by_address (a : Address) : topM bool :=
  o ← regular_account_by_address a;
  mret (match o with Some x => negb (RegularAccount_is_null x) | None => false end).

Definition regular_account_exists_and_not_null (p : Public) : topM bool :=
  regular_account_exists_and_not_null_by_address (public_to_address p).

Definition number_of_shards : topM ShardId :=
  o ← metadata; m ← lift_st (expect o); mret (md_number_of_shards m).

Definition shard_root (shard_id : ShardId) : topM (option H256) :=
  o ← shard shard_id; mret (sh_root <$> o).

Definition shard_owners (shard_id : ShardId) : topM (option (list Address)) :=
  o ← shard shard_id; mret (sh_owners <$> o).

Definition shard_users (shard_id : ShardId) : topM (option (list Address)) :=
  o ← shard shard_id; mret (sh_users <$> o).

Definition is_active_account (address : Address) : topM bool :=
  o ← account address; mret (match o with Some x => negb (Account_is_null x) | None => false end).

(** * [impl TopState for TopLevelState] *)

Definition kill_regular_account (public : Public) : topM () :=
  on_top tc_regular_account set_regular_account
    (modify_st (wb_remove (RegularAccountAddress_new public))).

(** The trace output of [add_balance] and [sub_balance] is off. *)
Definition add_balance (a : Address) (incr : N) : topM () :=
  if negb (incr =? 0) then with_account_mut a (modify_st (add_balance_account incr)) else mret tt.

Definition sub_balance (a : Address) (decr : N) : topM () :=
  if decr =? 0 then mret tt
  else
    balance ← balance a;
    if balance <? decr then top_throw (RuntimeError.InsufficientBalance a balance decr)
    else
      with_account_mut a (λ x,
        match sub_balance_account decr x with Some x' => (Ok tt, x') | None => (Panic, x) end).

Definition transfer_balance (from to : Address) (by_ : N) : topM () :=
  regular ← regular_account_exists_and_not_null_by_address to;
  if (regular : bool) then top_throw RuntimeError.InvalidTransferDestination
  else
    _ ← sub_balance from by_;
    add_balance to by_.

Definition inc_seq (a : Address) : topM () := with_account_mut a (modify_st inc_seq_account).

(** The owner of a regular key, or the key itself. *)
Definition owner_public_of (public : Public) : topM Public :=
  regular ← regular_account_exists_and_not_null public;
  if (regular : bool) then
    with_regular_account_mut public (x ← get_st; mret (ra_owner_public x))
  else mret public.

Definition set_regular_key (signer_public regular_key : Public) : topM () :=
  owner_public ← owner_public_of signer_public;
  let owner_address := public_to_address owner_public in
  in_use ← regular_account_exists_and_not_null regular_key;
  if (in_use : bool) then top_throw RuntimeError.RegularKeyAlreadyInUse
  else
    let regular_address := public_to_address regular_key in
    platform ← account_exists_and_not_null regular_address;
    if (platform : bool) then top_throw RuntimeError.RegularKeyAlreadyInUseAsPlatformAccount
    else
      prev_regular_key ← with_account_mut owner_address (x ← get_st; mret (acc_regular_key x));
      _ ← (match prev_regular_key with
           | Some prev_regular_key => kill_regular_account prev_regular_key
           | None => mret tt
           end);
      _ ← with_account_mut owner_address (modify_st (set_regular_key_account (Some regular_key)));
      with_regular_account_mut regular_key (put_st {| ra_owner_public := owner_public |}).

Definition set_shard_root (shard_id : ShardId) (new_root : H256) : topM () :=
  with_shard_mut shard_id
    (modify_st (λ x, {| sh_root := new_root; sh_owners := sh_owners x; sh_users := sh_users x |})).

(** The loop that checks the accounts of new owners and users. *)
Definition check_active (name : String) (accounts : list Address) : topM () :=
  for_each (λ a,
    active ← is_active_account a;
    if (active : bool) then mret tt else top_throw (RuntimeError.NonActiveAccount a name)) accounts.

Definition set_shard_owners (shard_id : ShardId) (new_owners : list Address) : topM () :=
  _ ← check_active [115; 104; 97; 114; 100; 32; 111; 119; 110; 101; 114] new_owners;
  with_shard_mut shard_id
    (modify_st (λ x, {| sh_root := sh_root x; sh_owners := new_owners; sh_users := sh_users x |})).

Definition set_shard_users (shard_id : ShardId) (new_users : list Address) : topM () :=
  _ ← check_active [115; 104; 97; 114; 100; 32; 117; 115; 101; 114] new_users;
  with_shard_mut shard_id
    (modify_st (λ x, {| sh_root := sh_root x; sh_owners := sh_owners x; sh_users := new_users |})).

(** [self.shard_caches.entry(shard_id).or_default()] *)
Definition shard_cache_or_default (shard_id : ShardId) : topM () :=
  modify_st (λ s,
    {| tl_top_cache := tl_top_cache s;
       tl_shard_caches :=
         match tl_shard_caches s !! shard_id with
         | Some _ => tl_shard_caches s
         | None => <[shard_id := ShardCache_default]> (tl_shard_caches s)
         end;
       tl_id_of_checkpoints := tl_id_of_checkpoints s |}).

(** The check of [ShardLevelState::from_existing]. *)
Definition from_existing_check (root : H256) : topM () :=
  if te_contains env root then mret tt
  else throw_st (StateError.Trie (TrieError.InvalidStateRoot root)).

Definition create_shard_level_state (shard_id : ShardId) (owners users : list Address) : topM () :=
  _ ← shard_cache_or_default shard_id;
  _ ← from_existing_check BLAKE_NULL_RLP;
  _ ← set_shard_root shard_id BLAKE_NULL_RLP;
  _ ← set_shard_owners shard_id owners;
  set_shard_users shard_id users.

Definition create_shard (fee_payer : Address) (tx_hash : H256) (users : list Address) : topM () :=
  shard_id ← with_metadata_mut (λ m, let (r, m') := add_shard tx_hash m in (Ok r, m'));
  create_shard_level_state shard_id [fee_payer] users.

Definition change_shard_owners (shard_id : ShardId) (owners : list Address) (sender : Address)
  : topM () :=
  old_owners ← shard_owners shard_id;
  old_owners ← top_or_throw old_owners (RuntimeError.InvalidShardId shard_id);
  if negb (bool_decide (sender ∈ old_owners)) then top_throw RuntimeError.InsufficientPermission
  else if negb (bool_decide (sender ∈ owners)) then top_throw RuntimeError.NewOwnersMustContainSender
  else set_shard_owners shard_id owners.

Definition change_shard_users (shard_id : ShardId) (users : list Address) (sender : Address)
  : topM () :=
  owners ← shard_owners shard_id;
  owners ← top_or_throw owners (RuntimeError.InvalidShardId shard_id);
  if negb (bool_decide (sender ∈ owners)) then top_throw RuntimeError.InsufficientPermission
  else set_shard_users shard_id users.

(** [Text::content_hash] *)
Definition content_hash (self : Text) : H256 :=
  blake256 (rlp_bytes (rlp_append string_codec (txt_content self))).

(** ["Certifier and signer are different"] *)
Definition different_signer : String :=
  [67; 101; 114; 116; 105; 102; 105; 101; 114; 32; 97; 110; 100; 32; 115; 105; 103; 110; 101; 114;
   32; 97; 114; 101; 32; 100; 105; 102; 102; 101; 114; 101; 110; 116].

Definition check_certifier (certifier : Address) (sig : Signature) (message : H256) : topM () :=
  match verify_address certifier sig message with
  | Ok false => top_throw (RuntimeError.TextVerificationFail different_signer)
  | Err err => top_throw (RuntimeError.TextVerificationFail err)
  | Ok true => mret tt
  | Panic => lift_st Panic
  end.

Definition store_text (key : H256) (t : Text) (sig : Signature) : topM () :=
  _ ← check_certifier (txt_certifier t) sig (content_hash t);
  with_text_mut key (put_st t).

Definition remove_text (key : H256) (sig : Signature) : topM () :=
  t ← text key;
  t ← top_or_throw t RuntimeError.TextNotExist;
  _ ← check_certifier (txt_certifier t) sig key;
  on_top tc_text set_text (modify_st (wb_remove key)).

Definition increase_term_id (last_term_finished_block_num : N) : topM () :=
  with_metadata_mut (λ m,
    match increase_term_id_metadata last_term_finished_block_num m with
    | Some m' => (Ok tt, m')
    | None => (Panic, m)
    end).

Definition update_action_data (key : H256) (data : bytes) : topM () :=
  with_action_data_mut key (put_st data).

Definition remove_action_data (key : H256) : topM () :=
  on_top tc_action_data set_action_data (modify_st (wb_remove key)).

Definition update_params (metadata_seq : N) (params : CommonParams) : topM () :=
  with_metadata_mut
    (m ← get_st;
     if negb (md_seq m =? metadata_seq) then
       throw_st (StateError.Runtime (RuntimeError.InvalidSeq (md_seq m) metadata_seq))
     else
       _ ← modify_st (set_params_metadata params);
       modify_st Metadata_increase_seq).

(** * Applying a transaction *)

Context (parent_block_number parent_block_timestamp : N).
Variable walk : gmap H160 N → list (H160 * N).

(** [client.find_action_handler_for(id)]: the handlers registered with the engine, each by
    its method [execute]. *)
Variable find_action_handler_for : N → option (bytes → Address → Public → topM ()).

(** [ShardLevelState::apply] on the cache of one shard. *)
Definition with_shard_level (shard_id : ShardId) (m : shardM ()) : topM () := λ s,
  match tl_shard_caches s !! shard_id with
  | None => (Panic, s)
  | Some c =>
      let (r, sl) := m {| sl_cache := c; sl_id_of_checkpoints := [] |} in
      (r, {| tl_top_cache := tl_top_cache s;
             tl_shard_caches := <[shard_id := sl_cache sl]> (tl_shard_caches s);
             tl_id_of_checkpoints := tl_id_of_checkpoints s |})
  end.

Definition apply_shard_transaction_to_shard (transaction : ShardTransaction.t) (sender : Address)
    (approvers : list Address) (shard_id : ShardId) : topM () :=
  root ← shard_root shard_id;
  root ← top_or_throw root (RuntimeError.InvalidShardId shard_id);
  users ← shard_users shard_id;
  users ← lift_st (expect users);
  _ ← shard_cache_or_default shard_id;
  _ ← from_existing_check root;
  with_shard_level shard_id
    (shard_apply (te_shard_env env root shard_id) parent_block_number parent_block_timestamp walk
       transaction sender users approvers).

Definition apply_shard_transaction (transaction : ShardTransaction.t) (sender : Address)
    (approvers : list Address) : topM () :=
  for_each (apply_shard_transaction_to_shard transaction sender approvers)
    (related_shards transaction).

Definition public_to_owner_address (public : Public) : topM Address :=
  owner ← owner_public_of public; mret (public_to_address owner).

Fixpoint approvals_to_approvers (approvals : list Signature) (tracker : H256)
  : topM (list Address) :=
  match approvals with
  | [] => mret []
  | signature :: approvals =>
      public ← lift_st (match recover_ecdsa signature tracker with Ok p => Ok p | _ => Panic end);
      a ← public_to_owner_address public;
      rest ← approvals_to_approvers approvals tracker;
      mret (a :: rest)
  end.

(** [if let Some(address) = address { if !is_active_account(..)? { return Err(..) } }] *)
Definition check_active_option (address : option Address) (name : String) : topM () :=
  match address with
  | Some a =>
      active ← is_active_account a;
      if (active : bool) then mret tt else top_throw (RuntimeError.NonActiveAccount a name)
  | None => mret tt
  end.

(** ["approver of asset"] and ["registrar of asset"] *)
Definition approver_of_asset : String :=
  [97; 112; 112; 114; 111; 118; 101; 114; 32; 111; 102; 32; 97; 115; 115; 101; 116].
Definition registrar_of_asset : String :=
  [114; 101; 103; 105; 115; 116; 114; 97; 114; 32; 111; 102; 32; 97; 115; 115; 101; 116].

(** The approvers of an asset action, then its shard transaction. *)
Definition apply_approved (action : Action.t) (approvals : list Signature) (single : bool)
    (fee_payer : Address) : topM () :=
  transaction ← lift_st (expect (Action.to_shard_transaction action));
  approvers ← approvals_to_approvers approvals (ShardTransaction_tracker transaction);
  _ ← lift_st (if single then assert (len (related_shards transaction) =? 1) else Ok tt);
  apply_shard_transaction transaction fee_payer approvers.

Definition apply_action (action : Action.t) (network_id : NetworkId) (tx_hash signed_hash : H256)
    (fee_payer : Address) (signer_public : Public) : topM () :=
  match action with
  | Action.MintAsset _ _ _ approver registrar _ _ approvals
  | Action.ChangeAssetScheme _ _ _ _ _ approver registrar _ approvals =>
      _ ← check_active_option approver approver_of_asset;
      _ ← check_active_option registrar registrar_of_asset;
      apply_approved action approvals true fee_payer
  | Action.IncreaseAssetSupply _ _ _ _ _ approvals =>
      apply_approved action approvals true fee_payer
  | Action.TransferAsset _ _ _ _ _ _ approvals _
  | Action.ComposeAsset _ _ _ _ _ _ _ _ approvals
  | Action.DecomposeAsset _ _ _ approvals =>
      apply_approved action approvals false fee_payer
  | Action.UnwrapCCC _ burn receiver =>
      regular ← regular_account_exists_and_not_null_by_address receiver;
      if (regular : bool) then top_throw RuntimeError.InvalidTransferDestination
      else
        transaction ← lift_st (expect (Action.to_shard_transaction action));
        _ ← apply_shard_transaction transaction fee_payer [];
        add_balance receiver (aop_quantity (ati_prev_out burn))
  | Action.Pay receiver quantity => transfer_balance fee_payer receiver quantity
  | Action.SetRegularKey key => set_regular_key signer_public key
  | Action.CreateShard users => create_shard fee_payer signed_hash users
  | Action.SetShardOwners shard_id owners => change_shard_owners shard_id owners fee_payer
  | Action.SetShardUsers shard_id users => change_shard_users shard_id users fee_payer
  | Action.WrapCCC shard_id lock_script_hash parameters quantity _ =>
      _ ← sub_balance fee_payer quantity;
      apply_shard_transaction
        (ShardTransaction.WrapCCC network_id shard_id tx_hash
           {| awo_lock_script_hash := lock_script_hash; awo_parameters := parameters;
              awo_quantity := quantity |}) fee_payer []
  | Action.Store content certifier signature =>
      store_text signed_hash {| txt_content := content; txt_certifier := certifier |} signature
  | Action.Remove hash signature => remove_text hash signature
  | Action.Custom handler_id bytes =>
      handler ← lift_st (expect (find_action_handler_for handler_id));
      handler bytes fee_payer signer_public
  end.

(** The account that pays: the owner of a regular key, or the signer itself, unless its
    master key is disabled. *)
Definition find_fee_payer (tx : Transaction) (signer_public : Public) : topM Address :=
  regular ← regular_account_exists_and_not_null signer_public;
  if (regular : bool) then
    owner ← with_regular_account_mut signer_public (x ← get_st; mret (ra_owner_public x));
    mret (public_to_address owner)
  else
    let address := public_to_address signer_public in
    _ ← (if negb (is_master_key_allowed tx) then
           key ← with_account_mut address (x ← get_st; mret (acc_regular_key x));
           match key with
           | Some _ => top_throw RuntimeError.CannotUseMasterKey
           | None => mret tt
           end
         else mret tt);
    mret address.

Definition top_apply_internal (tx : Transaction) (signed_hash : H256) (signer_public : Public)
  : topM () :=
  fee_payer ← find_fee_payer tx signer_public;
  seq ← seq fee_payer;
  if negb (tx_seq tx =? seq) then top_throw (RuntimeError.InvalidSeq seq (tx_seq tx))
  else
    _ ← inc_seq fee_payer;
    _ ← sub_balance fee_payer (tx_fee tx);
    under_checkpoint ACTION_CHECKPOINT
      (apply_action (tx_action tx) (tx_network_id tx) (Transaction_hash tx) signed_hash fee_payer
         signer_public).

Definition top_apply (tx : Transaction) (signed_hash : H256) (signer_public : Public) : topM () :=
  under_checkpoint FEE_CHECKPOINT (top_apply_internal tx signed_hash signer_public).
End TopLevelState.

(** * Snapshots of the top level *)

(** What the top level shows. *)
Record TopView := {
  tv_account : bytes → option Account;
  tv_regular_account : bytes → option RegularAccount;
  tv_metadata : bytes → option Metadata;
  tv_shard : bytes → option Shard;
  tv_text : bytes → option Text;
  tv_action_data : bytes → option ActionData;
}.

Definition top_snap (env : TopEnv) (c : TopCache) (v : TopView) (saved : list TopView) : Prop :=
  snapshots (te_db_account env) (tc_account c) (tv_account v) (tv_account <$> saved) ∧
  snapshots (te_db_regular_account env) (tc_regular_account c) (tv_regular_account v)
    (tv_regular_account <$> saved) ∧
  snapshots (te_db_metadata env) (tc_metadata c) (tv_metadata v) (tv_metadata <$> saved) ∧
  snapshots (te_db_shard env) (tc_shard c) (tv_shard v) (tv_shard <$> saved) ∧
  snapshots (te_db_text env) (tc_text c) (tv_text v) (tv_text <$> saved) ∧
  snapshots (te_db_action_data env) (tc_action_data c) (tv_action_data v)
    (tv_action_data <$> saved).

Lemma top_snap_checkpoint env c v saved :
  top_snap env c v saved → top_snap env (tc_checkpoint c) v (v :: saved).
Proof. intros (? & ? & ? & ? & ? & ?). split_and!; by apply snapshots_checkpoint. Qed.

Lemma top_snap_discard env c v w saved :
  top_snap env c v (w :: saved) → top_snap env (tc_discard_checkpoint c) v saved.
Proof. intros (? & ? & ? & ? & ? & ?). split_and!; by eapply snapshots_discard. Qed.

Lemma top_snap_revert env c v w saved :
  top_snap env c v (w :: saved) → top_snap env (tc_revert_to_checkpoint c) w saved.
Proof. intros (? & ? & ? & ? & ? & ?). split_and!; by eapply snapshots_revert. Qed.

(** The shard caches named by [shards] have the checkpoints that restore the given views;
    [roots] is the root each shard is read at. *)
Definition shards_snap (env : TopEnv) (roots : ShardId → H256) (caches : gmap ShardId ShardCache)
    (shards : gmap ShardId (list shard_view)) : Prop :=
  ∀ id ws, shards !! id = Some ws →
    ∃ c v, caches !! id = Some c ∧ shard_snap (te_shard_env env (roots id) id) c v ws.

(** The invariant under which a transaction runs: its checkpoints are in force on the top
    level and on the caches of [shards], and the shard items satisfy [P]. *)
Definition top_framed (env : TopEnv) (roots : ShardId → H256)
    (P : (bytes → option Shard) → Prop) (saved : list TopView)
    (shards : gmap ShardId (list shard_view)) (ids : list N) (s : TopLevel) : Prop :=
  (∃ v, top_snap env (tl_top_cache s) v saved ∧ P (tv_shard v)) ∧
  shards_snap env roots (tl_shard_caches s) shards ∧ tl_id_of_checkpoints s = ids.

Create HintDb top_db.
#[export] Hint Resolve keeps_ret keeps_lift keeps_throw : top_db.
Ltac top_tac :=
  repeat first
    [ solve [auto with top_db]
    | match goal with
      | |- keeps _ (_ ≫= _) => apply keeps_bind; [|intros ?]
      | |- stays _ (_ ≫= _) => apply stays_bind; [|intros ?]
      | |- keeps _ (for_each _ _) => apply keeps_for_each; intros ?
      | |- stays _ (for_each _ _) => apply stays_for_each; intros ?
      | |- _ _ (if ?b then _ else _) => destruct b
      | |- _ _ (match ?x with _ => _ end) => destruct x
      end
    | solve [apply keeps_stays; auto with top_db] ].

Section TopFrames.
Context `{Crypto} `{Primitives} `{ChainTimeInfo}.
Context (env : TopEnv) (roots : ShardId → H256) (P : (bytes → option Shard) → Prop).
Context (saved : list TopView) (shards : gmap ShardId (list shard_view)) (ids : list N).

Local Abbreviation F := (top_framed env roots P saved shards ids).

(** [m] leaves the checkpoints of a cache over [db] alone. *)
Definition wb_framed {Item A} (db : bytes → result TrieError.t (option Item))
    (m : stM (WriteBack Item) StateError.t A) : Prop :=
  ∀ wb v ws, snapshots db wb v ws → ∃ v', snapshots db (m wb).2 v' ws.

Lemma wb_framed_get {Item} (db : bytes → result TrieError.t (option Item)) a :
  wb_framed db (with_trie_error (wb_get a db)).
Proof. intros wb v ws Hs. by eapply get_frames. Qed.

Lemma wb_framed_mut {Item B} (db : bytes → result TrieError.t (option Item)) d a
    (f : stM Item StateError.t B) :
  wb_framed db (wb_with_mut StateError.Trie d a db f).
Proof. intros wb v ws Hs. by eapply with_mut_frames. Qed.

Lemma wb_framed_remove {Item} (db : bytes → result TrieError.t (option Item)) a :
  wb_framed db (modify_st (wb_remove a)).
Proof. intros wb v ws Hs. eexists. by apply snapshots_remove. Qed.

(** The cache [get] changes from [v] to [v'] and the other five stay. *)
Ltac on_top_tac f :=
  intros Hm s [(v & (Hs1 & Hs2 & Hs3 & Hs4 & Hs5 & Hs6) & HP) [Hsh Hid]]; unfold on_top;
  match goal with
  | Hs : snapshots _ (?get (tl_top_cache s)) _ _ |- context [?m (?get (tl_top_cache s))] =>
      destruct (Hm _ _ _ Hs) as [v' Hv']; destruct (m (get (tl_top_cache s))) as [r w];
      (split; [|by split]); exists (f v v'); (split; [|exact HP]); by split_and!
  end.

Lemma on_account_keeps {A} (m : stM (WriteBack Account) StateError.t A) :
  wb_framed (te_db_account env) m → keeps F (on_top tc_account set_account m).
Proof. on_top_tac (λ v v', {| tv_account := v'; tv_regular_account := tv_regular_account v;
  tv_metadata := tv_metadata v; tv_shard := tv_shard v; tv_text := tv_text v;
  tv_action_data := tv_action_data v |}). Qed.

Lemma on_regular_account_keeps {A} (m : stM (WriteBack RegularAccount) StateError.t A) :
  wb_framed (te_db_regular_account env) m →
  keeps F (on_top tc_regular_account set_regular_account m).
Proof. on_top_tac (λ v v', {| tv_account := tv_account v; tv_regular_account := v';
  tv_metadata := tv_metadata v; tv_shard := tv_shard v; tv_text := tv_text v;
  tv_action_data := tv_action_data v |}). Qed.

Lemma on_metadata_keeps {A} (m : stM (WriteBack Metadata) StateError.t A) :
  wb_framed (te_db_metadata env) m → keeps F (on_top tc_metadata set_metadata m).
Proof. on_top_tac (λ v v', {| tv_account := tv_account v;
  tv_regular_account := tv_regular_account v; tv_metadata := v'; tv_shard := tv_shard v;
  tv_text := tv_text v; tv_action_data := tv_action_data v |}). Qed.

Lemma on_text_keeps {A} (m : stM (WriteBack Text) StateError.t A) :
  wb_framed (te_db_text env) m → keeps F (on_top tc_text set_text m).
Proof. on_top_tac (λ v v', {| tv_account := tv_account v;
  tv_regular_account := tv_regular_account v; tv_metadata := tv_metadata v;
  tv_shard := tv_shard v; tv_text := v'; tv_action_data := tv_action_data v |}). Qed.

Lemma on_action_data_keeps {A} (m : stM (WriteBack ActionData) StateError.t A) :
  wb_framed (te_db_action_data env) m → keeps F (on_top tc_action_data set_action_data m).
Proof. on_top_tac (λ v v', {| tv_account := tv_account v;
  tv_regular_account := tv_regular_account v; tv_metadata := tv_metadata v;
  tv_shard := tv_shard v; tv_text := tv_text v; tv_action_data := v' |}). Qed.

(** Reading a shard item leaves what the shards show. *)
Lemma shard_get_keeps id : keeps F (shard env id).
Proof.
  intros s [(v & (Hs1 & Hs2 & Hs3 & Hs4 & Hs5 & Hs6) & HP) [Hsh Hid]].
  unfold shard, on_top, with_trie_error.
  pose proof (snapshots_get _ _ _ _ (ShardAddress_new id) Hs4) as Hg.
  assert (snapshots (te_db_shard env)
    (wb_get (ShardAddress_new id) (te_db_shard env) (tc_shard (tl_top_cache s))).2
    (tv_shard v) (tv_shard <$> saved)) as Hv'.
  { destruct (wb_get _ _ _) as [[o|e|] w]; [by destruct Hg|by destruct Hg as [-> _]..]. }
  destruct (wb_get _ _ _) as [r w]. split; [|by split]. exists v. split; [|exact HP]. by split_and!.
Qed.

Lemma shard_mut_keeps {B} id (f : stM Shard StateError.t B) :
  (∀ sv, P sv) → keeps F (with_shard_mut env id f).
Proof.
  intros HP' s [(v & (Hs1 & Hs2 & Hs3 & Hs4 & Hs5 & Hs6) & HP) [Hsh Hid]].
  unfold with_shard_mut, on_top.
  destruct (wb_framed_mut (te_db_shard env) Shard_default (ShardAddress_new id) f _ _ _ Hs4)
    as [v' Hv'].
  destruct (wb_with_mut _ _ _ _ _ _) as [r w]. split; [|by split].
  exists {| tv_account := tv_account v; tv_regular_account := tv_regular_account v;
    tv_metadata := tv_metadata v; tv_shard := v'; tv_text := tv_text v;
    tv_action_data := tv_action_data v |}. split; [by split_and!|apply HP'].
Qed.

Lemma top_throw_keeps {A} e : keeps F (top_throw (A:=A) e).
Proof. apply keeps_throw. Qed.

Lemma top_or_throw_keeps {A} (o : option A) e : keeps F (top_or_throw o e).
Proof. destruct o; [apply keeps_ret|apply keeps_throw]. Qed.

Lemma shard_cache_or_default_keeps id : keeps F (shard_cache_or_default id).
Proof.
  intros s [Hv [Hsh Hid]]. split; [done|]. split; [|done]. intros id' ws Hws.
  destruct (Hsh id' ws Hws) as (c & v & Hc & Hs). exists c, v. split; [|done]. simpl.
  destruct (tl_shard_caches s !! id) eqn:E; [done|].
  by rewrite lookup_insert_ne by (intros ->; congruence).
Qed.

#[local] Hint Resolve on_account_keeps on_regular_account_keeps on_metadata_keeps on_text_keeps
  on_action_data_keeps wb_framed_get wb_framed_mut wb_framed_remove shard_get_keeps
  top_throw_keeps top_or_throw_keeps shard_cache_or_default_keeps : top_db.

Lemma owner_public_of_keeps p : keeps F (owner_public_of env p).
Proof.
  unfold owner_public_of, regular_account_exists_and_not_null,
    regular_account_exists_and_not_null_by_address, regular_account_by_address,
    with_regular_account_mut. top_tac.
Qed.

Lemma sub_balance_keeps a n : keeps F (sub_balance env a n).
Proof. unfold sub_balance, balance, account, with_account_mut. top_tac. Qed.

Lemma add_balance_keeps a n : keeps F (add_balance env a n).
Proof. unfold add_balance, with_account_mut. top_tac. Qed.

Lemma is_active_account_keeps a : keeps F (is_active_account env a).
Proof. unfold is_active_account, account. top_tac. Qed.

Lemma regular_by_address_keeps a :
  keeps F (regular_account_exists_and_not_null_by_address env a).
Proof. unfold regular_account_exists_and_not_null_by_address, regular_account_by_address. top_tac. Qed.

Lemma from_existing_check_keeps root : keeps F (from_existing_check env root).
Proof. unfold from_existing_check. top_tac. Qed.
#[local] Hint Resolve owner_public_of_keeps sub_balance_keeps add_balance_keeps
  is_active_account_keeps regular_by_address_keeps from_existing_check_keeps : top_db.

Lemma set_regular_key_keeps p k : keeps F (set_regular_key env p k).
Proof.
  unfold set_regular_key, regular_account_exists_and_not_null, account_exists_and_not_null, account,
    with_account_mut, with_regular_account_mut, kill_regular_account. top_tac.
Qed.

Lemma transfer_balance_keeps a b n : keeps F (transfer_balance env a b n).
Proof. unfold transfer_balance. top_tac. Qed.

Lemma check_certifier_keeps a sig m : keeps F (check_certifier a sig m).
Proof. unfold check_certifier. top_tac. Qed.
#[local] Hint Resolve set_regular_key_keeps transfer_balance_keeps check_certifier_keeps : top_db.

Lemma store_text_keeps k t sig : keeps F (store_text env k t sig).
Proof. unfold store_text, with_text_mut. top_tac. Qed.

Lemma remove_text_keeps k sig : keeps F (remove_text env k sig).
Proof. unfold remove_text, text. top_tac. Qed.

Lemma approvals_keeps l tracker : keeps F (approvals_to_approvers env l tracker).
Proof.
  induction l as [|sig l IH]; simpl; unfold public_to_owner_address; top_tac.
Qed.

Lemma check_active_option_keeps o name : keeps F (check_active_option env o name).
Proof. unfold check_active_option. top_tac. Qed.

Lemma check_active_keeps name l : keeps F (check_active env name l).
Proof. unfold check_active. top_tac. Qed.
End TopFrames.

#[export] Hint Resolve on_account_keeps on_regular_account_keeps on_metadata_keeps on_text_keeps
  on_action_data_keeps wb_framed_get wb_framed_mut wb_framed_remove shard_get_keeps
  top_throw_keeps top_or_throw_keeps shard_cache_or_default_keeps owner_public_of_keeps
  sub_balance_keeps add_balance_keeps is_active_account_keeps regular_by_address_keeps
  from_existing_check_keeps set_regular_key_keeps transfer_balance_keeps check_certifier_keeps
  store_text_keeps remove_text_keeps approvals_keeps check_active_option_keeps check_active_keeps
  shard_mut_keeps : top_db.

(** * Transactions on the top level *)

(** Every shard of [D] is read at its root. *)
Definition roots_ok `{Crypto} `{Primitives} (roots : ShardId → H256) (D : gset ShardId)
    (sv : bytes → option Shard) : Prop :=
  ∀ id sh, id ∈ D → sv (ShardAddress_new id) = Some sh → sh_root sh = roots id.

(** Custom actions leave the checkpoints of the state alone, whatever they are. *)
Definition handlers_framed (env : TopEnv)
    (find_action_handler_for : N → option (bytes → Address → Public → topM ())) : Prop :=
  ∀ id handler b a p roots saved shards ids,
    find_action_handler_for id = Some handler →
    stays (top_framed env roots (λ _, True) saved shards ids) (handler b a p).

Section ApplyFrames.
Context `{Crypto} `{Primitives} `{ChainTimeInfo}.
Context (env : TopEnv) (roots : ShardId → H256) (parent_block_number parent_block_timestamp : N).
Variable walk : gmap H160 N → list (H160 * N).
Variable find_action_handler_for : N → option (bytes → Address → Public → topM ()).
Hypothesis Hhandlers : handlers_framed env find_action_handler_for.
Context (saved : list TopView) (shards : gmap ShardId (list shard_view)) (ids : list N).

Local Abbreviation F P := (top_framed env roots P saved shards ids).
Local Abbreviation R := (roots_ok roots (dom shards)).

Lemma top_framed_weaken (P : (bytes → option Shard) → Prop) s : F P s → F (λ _, True) s.
Proof. intros [(v & Hv & _) Hr]. split; [by exists v|done]. Qed.

Lemma stays_weaken {A} (P : (bytes → option Shard) → Prop) (m : topM A) s :
  stays (F P) m → F P s → (m s).1 ≠ Panic → F (λ _, True) (m s).2.
Proof. intros Hm Hs Hp. eapply top_framed_weaken. by apply Hm. Qed.

Lemma shard_root_known id s o s' :
  F R s → shard_root env id s = (Ok o, s') → ∀ root, o = Some root → id ∈ dom shards → root = roots id.
Proof.
  intros [(v & (_ & _ & _ & Hs4 & _) & HR) _] Hm root -> Hid. unfold shard_root in Hm.
  apply st_bind_Ok in Hm as (o & s1 & Hm & Hr). unfold shard, on_top, with_trie_error in Hm.
  pose proof (snapshots_get _ _ _ _ (ShardAddress_new id) Hs4) as Hg.
  destruct (wb_get _ _ _) as [[x|e|] w]; simpl in Hm; simplify_eq. destruct Hg as [-> _].
  unfold mret, stM_ret in Hr. simplify_eq. destruct (tv_shard v (ShardAddress_new id)) eqn:E; [|done].
  simpl in *. simplify_eq. by eapply HR.
Qed.

Lemma with_shard_level_stays P id root t sender users approvers :
  (id ∈ dom shards → root = roots id) →
  stays (F P) (with_shard_level id (shard_apply (te_shard_env env root id) parent_block_number
    parent_block_timestamp walk t sender users approvers)).
Proof.
  intros Hroot s [Hv [Hsh Hid]] Hnp. unfold with_shard_level in *.
  destruct (tl_shard_caches s !! id) as [c|] eqn:Ec; [|done].
  destruct (shard_apply _ _ _ _ _ _ _ _ _) as [r sl] eqn:Er. cbn [fst snd] in *.
  split; [done|]. split; [|done]. intros id' ws Hws. simpl.
  destruct (Hsh id' ws Hws) as (c' & v' & Hc' & Hs'). destruct (decide (id' = id)) as [->|Hne].
  - rewrite lookup_insert_eq. exists (sl_cache sl). simplify_eq.
    rewrite <- Hroot in Hs' by (by eapply elem_of_dom_2).
    apply (shard_apply_snap _ _ _ _ _ _ _ _ _ v' ws) in Er as (_ & v2 & Hv2 & _); [|done|done].
    exists v2. split; [done|]. rewrite Hroot in Hv2 by (by eapply elem_of_dom_2). done.
  - rewrite lookup_insert_ne by done. by exists c', v'.
Qed.

Lemma apply_to_shard_stays t sender approvers id :
  stays (F R) (apply_shard_transaction_to_shard env parent_block_number parent_block_timestamp walk
    t sender approvers id).
Proof.
  unfold apply_shard_transaction_to_shard. apply stays_bind_ok.
  { unfold shard_root. top_tac. }
  intros o s s' Hs Ho. pose proof (shard_root_known _ _ _ _ Hs Ho) as Hroot.
  destruct o as [root|]; [|by intros s2 Hs2 _]. cbn [top_or_throw].
  apply stays_bind_ok; [top_tac|]. intros root' s1 s1' _ [= <- _]. unfold shard_users.
  repeat (apply stays_bind; [top_tac|intros ?]). apply with_shard_level_stays. by apply Hroot.
Qed.

Lemma apply_shard_transaction_stays t sender approvers :
  stays (F R) (apply_shard_transaction env parent_block_number parent_block_timestamp walk t sender
    approvers).
Proof. apply stays_for_each. intros id. apply apply_to_shard_stays. Qed.
#[local] Hint Resolve apply_shard_transaction_stays : top_db.

Lemma apply_approved_stays a l single p :
  stays (F R) (apply_approved env parent_block_number parent_block_timestamp walk a l single p).
Proof. unfold apply_approved. top_tac. Qed.
#[local] Hint Resolve apply_approved_stays : top_db.

(** An action leaves the checkpoints alone; only the creation of a shard and the changes of
    its owners and users touch the shard items. *)
Lemma apply_action_frames action nid h1 h2 payer signer s :
  let m := apply_action env parent_block_number parent_block_timestamp walk find_action_handler_for
             action nid h1 h2 payer signer in
  F R s → (m s).1 ≠ Panic → F (λ _, True) (m s).2.
Proof.
  cbv zeta. intros Hs. assert (F (λ _, True) s) as Hs' by (by eapply top_framed_weaken).
  destruct action; cbn [apply_action];
    try (intros Hp; eapply stays_weaken; [|exact Hs|exact Hp]; top_tac; fail);
    revert s Hs' Hs; (enough (stays (F (λ _, True)) _) as Hst by (intros; by apply Hst)).
  - unfold create_shard, with_metadata_mut, create_shard_level_state, set_shard_root,
      set_shard_owners, set_shard_users. top_tac.
  - unfold change_shard_owners, shard_owners, set_shard_owners. top_tac.
  - unfold change_shard_users, shard_owners, set_shard_users. top_tac.
  - apply stays_bind_ok; [top_tac|]. intros handler s s' _ Hf. unfold lift_st in Hf.
    destruct (find_action_handler_for handler_id) eqn:E; [|done]. simplify_eq/=.
    by eapply Hhandlers.
Qed.
End ApplyFrames.

(** The state shows [v] at the top and [vs] in the shards of [shards], with checkpoints
    that restore [saved] and [shards]. *)
Definition top_at (env : TopEnv) (roots : ShardId → H256) (s : TopLevel) (v : TopView)
    (vs : ShardId → shard_view) (saved : list TopView) (shards : gmap ShardId (list shard_view))
  : Prop :=
  top_snap env (tl_top_cache s) v saved ∧
  ∀ id ws, shards !! id = Some ws →
    ∃ c, tl_shard_caches s !! id = Some c ∧ shard_snap (te_shard_env env (roots id) id) c (vs id) ws.

(** The snapshots with the current views pushed. *)
Definition push_views (vs : ShardId → shard_view) (shards : gmap ShardId (list shard_view))
  : gmap ShardId (list shard_view) := map_imap (λ id ws, Some (vs id :: ws)) shards.

Section Checkpoints.
Context (env : TopEnv) (roots : ShardId → H256).
Implicit Types (v : TopView) (vs : ShardId → shard_view).

Lemma push_views_lookup vs shards id : push_views vs shards !! id = (λ ws, vs id :: ws) <$> shards !! id.
Proof. unfold push_views. rewrite map_lookup_imap. by destruct (shards !! id). Qed.

Lemma push_views_dom vs shards : dom (push_views vs shards) = dom shards.
Proof. apply set_eq. intros id. by rewrite !elem_of_dom, push_views_lookup, fmap_is_Some. Qed.

(** The view of a shard, read off its cache. *)
Definition cache_view (id : ShardId) (s : TopLevel) : shard_view :=
  match tl_shard_caches s !! id with
  | Some c => (wb_view (se_db_asset_scheme (te_shard_env env (roots id) id)) (sc_asset_scheme c),
               wb_view (se_db_asset (te_shard_env env (roots id) id)) (sc_asset c))
  | None => (λ _, None, λ _, None)
  end.

Lemma top_framed_at P saved shards ids s :
  top_framed env roots P saved shards ids s →
  ∃ v vs, top_at env roots s v vs saved shards ∧ P (tv_shard v).
Proof.
  intros [(v & Hv & HP) [Hsh _]]. exists v, (λ id, cache_view id s). split; [|done].
  split; [done|]. intros id ws Hws. destruct (Hsh id ws Hws) as (c & w & Hc & Hs1 & Hs2).
  exists c. unfold cache_view. rewrite Hc. split; [done|].
  split; by eapply snapshots_canonical.
Qed.

Lemma top_at_framed (P : (bytes → option Shard) → Prop) v vs saved shards s :
  top_at env roots s v vs saved shards → P (tv_shard v) →
  top_framed env roots P saved shards (tl_id_of_checkpoints s) s.
Proof.
  intros [Hv Hsh] HP. split; [by exists v|]. split; [|done]. intros id ws Hws.
  destruct (Hsh id ws Hws) as (c & ? & ?). by exists c, (vs id).
Qed.

Lemma top_at_checkpoint id v vs saved shards s :
  top_at env roots s v vs saved shards →
  top_at env roots (tl_create_checkpoint id s).2 v vs (v :: saved) (push_views vs shards).
Proof.
  intros [Hv Hsh]. split; [by apply top_snap_checkpoint|]. intros i ws. simpl.
  rewrite push_views_lookup, lookup_fmap. destruct (shards !! i) as [ws'|] eqn:E; [|done].
  intros [= <-]. destruct (Hsh i ws' E) as (c & -> & Hs). exists (sc_checkpoint c).
  split; [done|]. by apply shard_snap_checkpoint.
Qed.

(** Discarding keeps what is shown, reverting shows what was pushed. *)
Lemma top_framed_discard id v vs saved shards ids s s' u :
  top_framed env roots (λ _, True) (v :: saved) (push_views vs shards) (id :: ids) s →
  tl_discard_checkpoint id s = (Ok u, s') →
  top_framed env roots (λ _, True) saved shards ids s'.
Proof.
  intros [(w & Hw & _) [Hsh Hid]]. unfold tl_discard_checkpoint, tl_close_checkpoint.
  rewrite Hid, N.eqb_refl. intros [= _ <-]. split; [exists w; split; [by eapply top_snap_discard|done]|].
  split; [|done]. intros i ws Hws. simpl. rewrite lookup_fmap.
  destruct (Hsh i (vs i :: ws)) as (c & w' & -> & Hs); [by rewrite push_views_lookup, Hws|].
  exists (sc_discard_checkpoint c), w'. split; [done|]. by eapply shard_snap_discard.
Qed.

Lemma top_framed_revert id v vs saved shards ids s s' u :
  top_framed env roots (λ _, True) (v :: saved) (push_views vs shards) (id :: ids) s →
  tl_revert_to_checkpoint id s = (Ok u, s') →
  top_at env roots s' v vs saved shards ∧ tl_id_of_checkpoints s' = ids.
Proof.
  intros [(w & Hw & _) [Hsh Hid]]. unfold tl_revert_to_checkpoint, tl_close_checkpoint.
  rewrite Hid, N.eqb_refl. intros [= _ <-]. split; [|done].
  split; [by eapply top_snap_revert|]. intros i ws Hws. simpl. rewrite lookup_fmap.
  destruct (Hsh i (vs i :: ws)) as (c & w' & -> & Hs); [by rewrite push_views_lookup, Hws|].
  exists (sc_revert_to_checkpoint c). split; [done|]. by eapply shard_snap_revert.
Qed.

(** A body that leaves the checkpoints alone is undone when it fails. *)
Lemma under_checkpoint_frames id (P : (bytes → option Shard) → Prop) body v vs saved shards s r s' :
  top_at env roots s v vs saved shards → P (tv_shard v) →
  (∀ ids s1, top_framed env roots P (v :: saved) (push_views vs shards) ids s1 →
     (body s1).1 ≠ Panic →
     top_framed env roots (λ _, True) (v :: saved) (push_views vs shards) ids (body s1).2) →
  under_checkpoint id body s = (r, s') → r ≠ Panic →
  top_framed env roots (λ _, True) saved shards (tl_id_of_checkpoints s) s' ∧
  match r with
  | Err _ => top_at env roots s' v vs saved shards
  | _ => True
  end.
Proof.
  intros Hat HP Hbody Hr Hp. pose proof (top_at_checkpoint id _ _ _ _ _ Hat) as Hat1.
  apply (top_at_framed P) in Hat1; [|done]. specialize (Hbody _ _ Hat1).
  unfold under_checkpoint in Hr. destruct (tl_create_checkpoint id s) as [x s1] eqn:E1.
  injection E1 as <- <-. cbn [snd tl_id_of_checkpoints] in *.
  destruct (body _) as [[u|e|] s2]; cbn [fst snd] in *; [| |by simplify_eq].
  - specialize (Hbody ltac:(done)).
    destruct r as [[]|e|]; [split; [by eapply top_framed_discard|done]| |done].
    destruct Hbody as [_ [_ Hid]]. unfold tl_discard_checkpoint, tl_close_checkpoint in Hr.
    by rewrite Hid, N.eqb_refl in Hr.
  - specialize (Hbody ltac:(done)). destruct (tl_revert_to_checkpoint id s2) as [r3 s3] eqn:E3.
    assert (r3 = Ok tt) as ->.
    { destruct Hbody as [_ [_ Hid]]. unfold tl_revert_to_checkpoint, tl_close_checkpoint in E3.
      rewrite Hid, N.eqb_refl in E3. by simplify_eq. }
    injection Hr as <- <-. apply (top_framed_revert _ _ _ _ _ _ _ _ _ Hbody) in E3 as [Hat3 Hid3].
    split; [|done]. rewrite <- Hid3. by eapply top_at_framed.
Qed.
End Checkpoints.

Section ApplyAtomic.
Context `{Crypto} `{Primitives} `{ChainTimeInfo}.
Context (env : TopEnv) (roots : ShardId → H256) (parent_block_number parent_block_timestamp : N).
Variable walk : gmap H160 N → list (H160 * N).
Variable find_action_handler_for : N → option (bytes → Address → Public → topM ()).
Hypothesis Hhandlers : handlers_framed env find_action_handler_for.

Local Abbreviation F P := (top_framed env roots P).

Lemma bind_frames {A B} (I J : TopLevel → Prop) (m : topM A) (f : A → topM B) s :
  keeps I m → (∀ s, I s → J s) → (∀ a s, I s → (f a s).1 ≠ Panic → J (f a s).2) →
  I s → ((m ≫= f) s).1 ≠ Panic → J ((m ≫= f) s).2.
Proof.
  intros Hm HIJ Hf Hs. specialize (Hm s Hs). unfold mbind, stM_bind.
  destruct (m s) as [[a|e|] s']; cbn [fst snd] in *; [by apply Hf|intros _; by apply HIJ|done].
Qed.

(** The action under its own checkpoint. *)
Lemma action_checkpoint_frames action nid h1 h2 payer signer saved shards ids s :
  let m := under_checkpoint ACTION_CHECKPOINT
    (apply_action env parent_block_number parent_block_timestamp walk find_action_handler_for action
       nid h1 h2 payer signer) in
  F (roots_ok roots (dom shards)) saved shards ids s → (m s).1 ≠ Panic →
  F (λ _, True) saved shards ids (m s).2.
Proof.
  cbv zeta. intros Hs Hp. pose proof Hs as [_ [_ Hid]].
  destruct (top_framed_at _ _ _ _ _ _ _ Hs) as (v & vs & Hat & HR).
  destruct (under_checkpoint _ _ s) as [r s'] eqn:Er. cbn [fst snd] in *.
  apply (under_checkpoint_frames env roots _ (roots_ok roots (dom shards)) _ v vs saved shards) in Er
    as [Hs' _]; [by rewrite Hid in Hs'|done|done| |done].
  intros ids1 s1 Hs1 Hp1. apply apply_action_frames; [done| |done].
  by rewrite push_views_dom.
Qed.

Lemma top_apply_internal_frames tx h signer saved shards ids s :
  let m := top_apply_internal env parent_block_number parent_block_timestamp walk
             find_action_handler_for tx h signer in
  F (roots_ok roots (dom shards)) saved shards ids s → (m s).1 ≠ Panic →
  F (λ _, True) saved shards ids (m s).2.
Proof.
  cbv zeta. unfold top_apply_internal.
  assert (∀ s, F (roots_ok roots (dom shards)) saved shards ids s → F (λ _, True) saved shards ids s)
    as Hw by (intros; by eapply top_framed_weaken).
  apply bind_frames; [|done|].
  { unfold find_fee_payer, regular_account_exists_and_not_null, with_regular_account_mut,
      with_account_mut.
    top_tac. }
  intros payer s1. apply bind_frames; [|done|].
  { unfold seq. apply keeps_bind; [apply on_account_keeps, wb_framed_get|intros; apply keeps_ret]. }
  intros n s2. destruct (negb _); [by intros Hs _; apply Hw|]. apply bind_frames; [|done|].
  { apply on_account_keeps, wb_framed_mut. }
  intros u s3. apply bind_frames; [apply sub_balance_keeps|done|].
  intros u' s4. apply action_checkpoint_frames.
Qed.
End ApplyAtomic.

(** * A failed transaction changes nothing *)

(** C5: A transaction that returns an error leaves the state as it found it: every account,
    regular key, shard, text, parameter and action datum reads as before, and so does every
    asset and asset scheme of each shard whose cache was open before the transaction; the
    enclosing checkpoints restore what they did.  In particular neither the fee is paid
    nor the sequence number consumed. *)
Theorem top_apply_atomic `{Crypto} `{Primitives} `{ChainTimeInfo} (env : TopEnv)
    (roots : ShardId → H256) (parent_block_number parent_block_timestamp : N)
    (walk : gmap H160 N → list (H160 * N))
    (find_action_handler_for : N → option (bytes → Address → Public → topM ()))
    (tx : Transaction) (signed_hash : H256) (signer_public : Public) (s s' : TopLevel)
    (v : TopView) (vs : ShardId → shard_view) (saved : list TopView)
    (shards : gmap ShardId (list shard_view)) (e : StateError.t) :
  handlers_framed env find_action_handler_for →
  top_at env roots s v vs saved shards →
  roots_ok roots (dom shards) (tv_shard v) →
  top_apply env parent_block_number parent_block_timestamp walk find_action_handler_for tx
    signed_hash signer_public s = (Err e, s') →
  top_at env roots s' v vs saved shards ∧ tl_id_of_checkpoints s' = tl_id_of_checkpoints s.
Proof.
  intros Hh Hat HR Hr. unfold top_apply in Hr.
  apply (under_checkpoint_frames env roots _ (roots_ok roots (dom shards)) _ v vs saved shards) in Hr
    as [[_ [_ Hid]] Hat']; [done|done|done| |done].
  intros ids s1 Hs1 Hp. apply top_apply_internal_frames; [done| |done]. by rewrite push_views_dom.
Qed.

(** * Examples *)

Module TopWitness.
#[local] Existing Instance Sample.crypto.
#[local] Existing Instance sample_primitives.
#[local] Instance chain : ChainTimeInfo :=
  {| transaction_block_age _ n := Some n; transaction_time_age _ _ := None |}.

Definition signer : Public := replicate 64 9.
Definition payer : Address := public_to_address signer.
Definition gold : H160 := replicate 20 1.
Definition prev_tracker : H256 := replicate 32 7.
Definition walk (m : gmap H160 N) : list (H160 * N) := map_to_list m.
Definition root : H256 := replicate 32 5.

(** Two shards; the first holds 10 gold under a script that unlocks, the second nothing. *)
Definition shard_env (_ : H256) (id : ShardId) : ShardEnv := {|
  se_db_asset_scheme a :=
    Ok (if bool_decide (a = AssetSchemeAddress_new gold 0)
        then Some (AssetScheme_new_with_pool [] 10 None None [] []) else None);
  se_db_asset a :=
    Ok (if bool_decide (a = OwnedAssetAddress_new prev_tracker 0 0)
        then Some (OwnedAsset_new gold (blake160 [2]) [] 10 None) else None);
  se_shard_id := id;
|}.

Definition env : TopEnv := {|
  te_db_account a :=
    Ok (if bool_decide (a = payer)
        then Some {| acc_balance := 100; acc_seq := 3; acc_regular_key := None |} else None);
  te_db_regular_account _ := Ok None;
  te_db_metadata _ := Ok (Some (Metadata_new 2));
  te_db_shard a :=
    Ok (if bool_decide (a ∈ [ShardAddress_new 0; ShardAddress_new 1])
        then Some {| sh_root := root; sh_owners := [payer]; sh_users := [] |} else None);
  te_db_text _ := Ok None;
  te_db_action_data _ := Ok None;
  te_contains _ := true;
  te_shard_env := shard_env;
|}.

Definition spend (id quantity : N) : AssetTransferInput :=
  {| ati_prev_out := {| aop_tracker := prev_tracker; aop_index := id; aop_asset_type := gold;
                        aop_shard_id := id; aop_quantity := quantity |};
     ati_timelock := None; ati_lock_script := [2]; ati_unlock_script := [] |}.
Definition pay (id quantity : N) : AssetTransferOutput :=
  {| ato_lock_script_hash := replicate 20 9; ato_parameters := []; ato_asset_type := gold;
     ato_shard_id := id; ato_quantity := quantity |}.

(** A transfer on both shards; the input on the second does not exist. *)
Definition action : Action.t :=
  Action.TransferAsset [116; 99] [] [spend 0 10; spend 1 5] [pay 0 10; pay 1 5] [] [] [] None.
Definition tx : Transaction :=
  {| tx_seq := 3; tx_fee := 10; tx_network_id := [116; 99]; tx_action := action |}.
Definition not_found : StateError.t :=
  StateError.Runtime (RuntimeError.AssetSchemeNotFound gold 1).

Definition start (caches : gmap ShardId ShardCache) : TopLevel :=
  {| tl_top_cache := TopCache_default; tl_shard_caches := caches; tl_id_of_checkpoints := [] |}.
Definition open_caches : gmap ShardId ShardCache :=
  <[0 := ShardCache_default]> (<[1 := ShardCache_default]> ∅).

Definition apply_tx (s : TopLevel) : result StateError.t () * TopLevel :=
  top_apply env 5 6 walk (λ _, None) tx (replicate 32 4) signer s.


Definition v0 : TopView := {|
  tv_account := db_view (te_db_account env);
  tv_regular_account := db_view (te_db_regular_account env);
  tv_metadata := db_view (te_db_metadata env);
  tv_shard := db_view (te_db_shard env);
  tv_text := db_view (te_db_text env);
  tv_action_data := db_view (te_db_action_data env);
|}.
Definition vs0 (id : ShardId) : shard_view :=
  (db_view (se_db_asset_scheme (shard_env root id)), db_view (se_db_asset (shard_env root id))).

Lemma start_at : top_at env (λ _, root) (start open_caches) v0 vs0 [] (<[0 := []]> (<[1 := []]> ∅)).
Proof.
  split; [split_and!; apply snapshots_new|]. intros id ws Hws. exists ShardCache_default.
  apply lookup_insert_Some in Hws as [[<- <-]|[Hne Hws]].
  - split; [reflexivity|]. split; apply snapshots_new.
  - apply lookup_insert_Some in Hws as [[<- <-]|[_ Hws]]; [|by rewrite lookup_empty in Hws].
    split; [reflexivity|]. split; apply snapshots_new.
Qed.

(** With the caches of both shards open, the failed transfer leaves the asset where it
    was. *)
Lemma top_apply_atomic_witness :
  ∃ s', apply_tx (start open_caches) = (Err not_found, s') ∧
    top_at env (λ _, root) s' v0 vs0 [] (<[0 := []]> (<[1 := []]> ∅)).
Proof.
  assert (∃ s', apply_tx (start open_caches) = (Err not_found, s')) as [s' Hr].
  { eexists. vm_compute. reflexivity. }
  exists s'. split; [exact Hr|].
  refine (proj1 (top_apply_atomic env (λ _, root) 5 6 walk (λ _, None) tx (replicate 32 4) signer
    (start open_caches) s' v0 vs0 [] (<[0 := []]> (<[1 := []]> ∅)) not_found _ start_at _ Hr)).
  - intros id h b a p r sv sh ids Hf. discriminate Hf.
  - intros id sh _ Hsh. cbn [tv_shard v0] in Hsh. unfold db_view in Hsh.
    cbn [te_db_shard env] in Hsh.
    destruct (bool_decide _); [|discriminate Hsh]. injection Hsh as <-. reflexivity.
Defined.

End TopWitness.
