(* ===== verification/TopPay.v ===== *)
(** What a payment does to the accounts: fee, sequence number and balances, for
    [Action::Pay] through [TopLevelState::apply]. *)

From stdpp Require Import base gmap list numbers.
From S2P Require Import Prelude Types Crypto Vm TxHash StateCache StateItems ShardState TopState.

Local Open Scope N_scope.

(** The balance and the sequence number an account shows. *)
Definition bal (v : TopView) (a : Address) : N :=
  match tv_account v a with Some x => acc_balance x | None => 0 end.
Definition sq (v : TopView) (a : Address) : N :=
  match tv_account v a with Some x => acc_seq x | None => 0 end.

(** [f] with the value at one address changed. *)
Definition upd (a : Address) (n : N) (f : Address → N) : Address → N :=
  λ b, if decide (b = a) then n else f b.

(** The view shows the balances [fb] and the sequence numbers [fs]. *)
Definition shows (v : TopView) (fb fs : Address → N) : Prop :=
  ∀ a, bal v a = fb a ∧ sq v a = fs a.

Section Payments.
Context `{Crypto} `{Primitives} `{ChainTimeInfo}.
Context (env : TopEnv).
Implicit Types (s : TopLevel) (v : TopView).

Local Abbreviation tsnap s v ws := (top_snap env (tl_top_cache s) v ws).

(** Whom a signer's transactions are charged to. *)
Definition payer_of (v : TopView) (signer : Public) : Address :=
  match tv_regular_account v (RegularAccountAddress_new signer) with
  | Some x =>
      if RegularAccount_is_null x then public_to_address signer
      else public_to_address (ra_owner_public x)
  | None => public_to_address signer
  end.

Lemma account_ok a s v ws o s' :
  tsnap s v ws → account env a s = (Ok o, s') → tsnap s' v ws ∧ o = tv_account v a.
Proof.
  intros (Hs1 & Hs) Hm. unfold account, on_top, with_trie_error in Hm.
  pose proof (snapshots_get _ _ _ _ a Hs1) as Hg.
  destruct (wb_get _ _ _) as [[x|e|] c]; simplify_eq/=. destruct Hg as [-> Hs1']. by split; [split|].
Qed.

Lemma regular_account_ok a s v ws o s' :
  tsnap s v ws → regular_account_by_address env a s = (Ok o, s') →
  tsnap s' v ws ∧ o = tv_regular_account v (RegularAccountAddress_from_address a).
Proof.
  intros (Hs1 & Hs2 & ? & ? & ? & ?) Hm. unfold regular_account_by_address, on_top, with_trie_error in Hm.
  pose proof (snapshots_get _ _ _ _ (RegularAccountAddress_from_address a) Hs2) as Hg.
  destruct (wb_get _ _ _) as [[x|e|] c]; simplify_eq/=. destruct Hg as [-> Hs2'].
  split; [|done]. by split_and!.
Qed.

Lemma regular_exists_ok a s v ws b s' :
  tsnap s v ws → regular_account_exists_and_not_null_by_address env a s = (Ok b, s') →
  tsnap s' v ws ∧
  b = match tv_regular_account v (RegularAccountAddress_from_address a) with
      | Some x => negb (RegularAccount_is_null x)
      | None => false
      end.
Proof.
  intros Hs Hm. apply st_bind_Ok in Hm as (o & s1 & Hm & Hr).
  apply (regular_account_ok _ _ _ _ _ _ Hs) in Hm as [Hs1 ->].
  unfold mret, stM_ret in Hr. by simplify_eq.
Qed.

(** A change of one account through its reference. *)
Lemma with_account_mut_ok {B} a (f : stM Account StateError.t B) s v ws b s' :
  tsnap s v ws → with_account_mut env a f s = (Ok b, s') →
  let x := default Account_default (tv_account v a) in
  (f x).1 = Ok b ∧
  ∃ v', tsnap s' v' ws ∧ tv_account v' = set_view a (Some (f x).2) (tv_account v) ∧
        tv_regular_account v' = tv_regular_account v.
Proof.
  intros (Hs1 & Hs) Hm. unfold with_account_mut, on_top in Hm.
  destruct (snapshots_with_mut _ StateError.Trie Account_default a f _ _ _ Hs1)
    as [(e & _ & Hf)|[[_ Hf]|[Hr Hs1']]]; [by rewrite Hf in Hm..|].
  destruct (wb_with_mut _ _ _ _ _ _) as [r c]. simplify_eq/=. split; [done|].
  exists {| tv_account := set_view a (Some (f (default Account_default (tv_account v a))).2)
                            (tv_account v);
            tv_regular_account := tv_regular_account v; tv_metadata := tv_metadata v;
            tv_shard := tv_shard v; tv_text := tv_text v; tv_action_data := tv_action_data v |}.
  by split.
Qed.

Lemma default_bal v a : acc_balance (default Account_default (tv_account v a)) = bal v a.
Proof. unfold bal. by destruct (tv_account v a). Qed.

Lemma default_sq v a : acc_seq (default Account_default (tv_account v a)) = sq v a.
Proof. unfold sq. by destruct (tv_account v a). Qed.

Lemma shows_set v v' a x fb fs :
  shows v fb fs → tv_account v' = set_view a (Some x) (tv_account v) →
  shows v' (upd a (acc_balance x) fb) (upd a (acc_seq x) fs).
Proof.
  intros Hv Hv' b. unfold bal, sq, upd. rewrite Hv'. destruct (decide (b = a)) as [->|].
  - by rewrite set_view_eq.
  - rewrite set_view_ne by done. apply Hv.
Qed.

Lemma shows_ext v fb fs fb' fs' :
  shows v fb fs → (∀ a, fb a = fb' a) → (∀ a, fs a = fs' a) → shows v fb' fs'.
Proof. intros Hv Hb Hs a. rewrite <- Hb, <- Hs. apply Hv. Qed.

Lemma upd_same a f : ∀ b, upd a (f a) f b = f b.
Proof. intros b. unfold upd. by destruct (decide (b = a)) as [->|]. Qed.

Lemma balance_ok a s v ws n s' :
  tsnap s v ws → balance env a s = (Ok n, s') → tsnap s' v ws ∧ n = bal v a.
Proof.
  intros Hs Hm. apply st_bind_Ok in Hm as (o & s1 & Hm & Hr).
  apply (account_ok _ _ _ _ _ _ Hs) in Hm as [Hs1 ->]. unfold mret, stM_ret in Hr. by simplify_eq.
Qed.

Lemma seq_ok a s v ws n s' :
  tsnap s v ws → seq env a s = (Ok n, s') → tsnap s' v ws ∧ n = sq v a.
Proof.
  intros Hs Hm. apply st_bind_Ok in Hm as (o & s1 & Hm & Hr).
  apply (account_ok _ _ _ _ _ _ Hs) in Hm as [Hs1 ->]. unfold mret, stM_ret in Hr. by simplify_eq.
Qed.

(** The four steps of a payment. *)
Lemma inc_seq_ok a s v ws fb fs u s' :
  tsnap s v ws → shows v fb fs → inc_seq env a s = (Ok u, s') →
  ∃ v', tsnap s' v' ws ∧ shows v' fb (upd a (u64_add (fs a) 1) fs) ∧
        tv_regular_account v' = tv_regular_account v.
Proof.
  intros Hs Hv Hm. apply (with_account_mut_ok _ _ _ _ _ _ _ Hs) in Hm as (_ & v' & Hs' & Ha & Hr).
  exists v'. split_and!; [done| |done]. eapply shows_set in Ha; [|exact Hv].
  eapply shows_ext; [exact Ha| |].
  - intros b. simpl. rewrite default_bal. destruct (Hv a) as [-> _]. apply upd_same.
  - intros b. simpl. rewrite default_sq. by destruct (Hv a) as [_ ->].
Qed.

Lemma sub_balance_ok a n s v ws fb fs u s' :
  tsnap s v ws → shows v fb fs → (∀ a, fb a < u64_size) → sub_balance env a n s = (Ok u, s') →
  n ≤ fb a ∧
  ∃ v', tsnap s' v' ws ∧ shows v' (upd a (fb a - n) fb) fs ∧
        tv_regular_account v' = tv_regular_account v.
Proof.
  intros Hs Hv Hlt Hm. unfold sub_balance in Hm. destruct (N.eqb_spec n 0) as [->|Hn].
  { unfold mret, stM_ret in Hm. simplify_eq. split; [lia|]. exists v. split_and!; [done| |done].
    eapply shows_ext; [exact Hv| |done]. intros b. by rewrite N.sub_0_r, upd_same. }
  apply st_bind_Ok in Hm as (m & s1 & Hm1 & Hm). apply (balance_ok _ _ _ _ _ _ Hs) in Hm1 as [Hs1 ->].
  destruct (Hv a) as [Hba Hsa]. rewrite Hba in Hm. destruct (N.ltb_spec (fb a) n); [done|].
  split; [done|]. apply (with_account_mut_ok _ _ _ _ _ _ _ Hs1) in Hm as (_ & v' & Hs' & Ha & Hr).
  unfold sub_balance_account in Ha. rewrite default_bal, Hba in Ha.
  rewrite (proj2 (N.leb_le _ _)) in Ha by done. cbn [negb snd] in Ha.
  exists v'. split_and!; [done| |done]. eapply shows_set in Ha; [|exact Hv].
  eapply shows_ext; [exact Ha| |]; cbn [acc_balance acc_seq].
  - intros b. by rewrite u64_sub_le by auto.
  - intros b. rewrite default_sq, Hsa. apply upd_same.
Qed.

Lemma add_balance_ok a n s v ws fb fs u s' :
  tsnap s v ws → shows v fb fs → fb a + n < u64_size → add_balance env a n s = (Ok u, s') →
  ∃ v', tsnap s' v' ws ∧ shows v' (upd a (fb a + n) fb) fs.
Proof.
  intros Hs Hv Hlt Hm. unfold add_balance in Hm. destruct (N.eqb_spec n 0) as [->|Hn]; cbn [negb] in Hm.
  { unfold mret, stM_ret in Hm. simplify_eq. exists v. split; [done|].
    eapply shows_ext; [exact Hv| |done]. intros b. by rewrite N.add_0_r, upd_same. }
  apply (with_account_mut_ok _ _ _ _ _ _ _ Hs) in Hm as (_ & v' & Hs' & Ha & _).
  exists v'. split; [done|]. eapply shows_set in Ha; [|exact Hv]. destruct (Hv a) as [Hba Hsa].
  eapply shows_ext; [exact Ha| |]; cbn [modify_st snd add_balance_account acc_balance acc_seq].
  - intros b. rewrite default_bal, Hba. unfold u64_add. by rewrite N.mod_small.
  - intros b. rewrite default_sq, Hsa. apply upd_same.
Qed.

(** Reading the owner through the reference of a regular account leaves the view. *)
Lemma owner_read_ok p x s v ws o s' :
  tsnap s v ws → tv_regular_account v (RegularAccountAddress_new p) = Some x →
  with_regular_account_mut env p (x ← get_st; mret (ra_owner_public x)) s = (Ok o, s') →
  o = ra_owner_public x ∧
  ∃ v', tsnap s' v' ws ∧ tv_account v' = tv_account v ∧
        ∀ a, tv_regular_account v' a = tv_regular_account v a.
Proof.
  intros (Hs1 & Hs2 & Hs3 & Hs4 & Hs5 & Hs6) Hx Hm. unfold with_regular_account_mut, on_top in Hm.
  destruct (snapshots_with_mut _ StateError.Trie RegularAccount_default
    (RegularAccountAddress_new p) (x ← get_st; mret (ra_owner_public x)) _ _ _ Hs2)
    as [(e & _ & Hf)|[[_ Hf]|[Hr Hs2']]]; [by rewrite Hf in Hm..|].
  destruct (wb_with_mut _ _ _ _ _ _) as [r c]. rewrite Hx in Hr, Hs2'. simplify_eq/=.
  split; [done|].
  exists {| tv_account := tv_account v;
            tv_regular_account := set_view (RegularAccountAddress_new p) (Some x)
                                    (tv_regular_account v);
            tv_metadata := tv_metadata v; tv_shard := tv_shard v; tv_text := tv_text v;
            tv_action_data := tv_action_data v |}.
  split_and!; try done. intros a. simpl. unfold set_view.
  by destruct (decide _) as [->|].
Qed.

Lemma find_fee_payer_ok tx signer s v ws fb fs p s' :
  tsnap s v ws → shows v fb fs → find_fee_payer env tx signer s = (Ok p, s') →
  p = payer_of v signer ∧
  ∃ v', tsnap s' v' ws ∧ shows v' fb fs ∧
        ∀ a, tv_regular_account v' a = tv_regular_account v a.
Proof.
  intros Hs Hv Hm. unfold find_fee_payer in Hm. apply st_bind_Ok in Hm as (b & s1 & Hm1 & Hm).
  apply (regular_exists_ok _ _ _ _ _ _ Hs) in Hm1 as [Hs1 Hb].
  change (RegularAccountAddress_from_address (public_to_address signer)) with
    (RegularAccountAddress_new signer) in Hb. unfold payer_of.
  destruct b.
  - destruct (tv_regular_account v _) as [x|] eqn:Ex; [|done].
    apply st_bind_Ok in Hm as (o & s2 & Hm2 & Hm).
    apply (owner_read_ok _ x _ _ _ _ _ Hs1 Ex) in Hm2 as (-> & v' & Hs2 & Ha & Hreg).
    unfold mret, stM_ret in Hm. simplify_eq. symmetry in Hb. apply negb_true_iff in Hb as ->.
    split; [done|]. exists v'. split_and!; [done| |done]. unfold shows, bal, sq. rewrite Ha. exact Hv.
  - assert (p = public_to_address signer ∧ ∃ v', tsnap s' v' ws ∧ shows v' fb fs ∧
      ∀ a, tv_regular_account v' a = tv_regular_account v a) as [-> Hv'].
    { cbv zeta in Hm. apply st_bind_Ok in Hm as (? & s2 & Hm2 & Hm).
      unfold mret at 1, stM_ret in Hm. simplify_eq. split; [done|].
      destruct (is_master_key_allowed tx); cbn [negb] in Hm2.
      { unfold mret, stM_ret in Hm2. simplify_eq. by exists v. }
      apply st_bind_Ok in Hm2 as (k & s3 & Hm3 & Hm2).
      apply (with_account_mut_ok _ _ _ _ _ _ _ Hs1) in Hm3 as (_ & v' & Hs3 & Ha & Hr).
      destruct k; [done|]. unfold mret, stM_ret in Hm2. simplify_eq. exists v'.
      split_and!; [done| |by intros; rewrite Hr]. eapply shows_set in Ha; [|exact Hv]. simpl in Ha.
      eapply shows_ext; [exact Ha| |]; intros a;
        [rewrite default_bal, (proj1 (Hv _))|rewrite default_sq, (proj2 (Hv _))]; apply upd_same. }
    split; [|done]. destruct (tv_regular_account v _) as [x|]; [|done].
    symmetry in Hb. by apply negb_false_iff in Hb as ->.
Qed.

(** A successful body under a checkpoint leaves its own view. *)
Lemma under_checkpoint_ok id body (Q : TopView → Prop) s v ws u s' :
  tsnap s v ws →
  (∀ s1 s2 u, tsnap s1 v (v :: ws) → body s1 = (Ok u, s2) → ∃ v', tsnap s2 v' (v :: ws) ∧ Q v') →
  under_checkpoint id body s = (Ok u, s') → ∃ v', tsnap s' v' ws ∧ Q v'.
Proof.
  intros Hs Hbody Hr. unfold under_checkpoint in Hr. simpl in Hr.
  destruct (body _) as [[x|e|] s2] eqn:Eb; [|by destruct (tl_revert_to_checkpoint id s2) as [[]]|done].
  eapply Hbody in Eb as (v' & Hs2 & HQ); [|by apply top_snap_checkpoint].
  exists v'. split; [|done]. unfold tl_discard_checkpoint, tl_close_checkpoint in Hr.
  destruct (tl_id_of_checkpoints s2) as [|i rest]; [done|]. destruct (i =? id); [|done].
  simplify_eq/=. by eapply top_snap_discard.
Qed.

Lemma transfer_balance_ok from to n s v ws fb fs u s' :
  tsnap s v ws → shows v fb fs → (∀ a, fb a < u64_size) → fb to + n < u64_size →
  transfer_balance env from to n s = (Ok u, s') →
  n ≤ fb from ∧
  ∃ v', tsnap s' v' ws ∧
    shows v' (upd to (upd from (fb from - n) fb to + n) (upd from (fb from - n) fb)) fs.
Proof.
  intros Hs Hv Hlt Hto Hm. unfold transfer_balance in Hm. apply st_bind_Ok in Hm as (b & s1 & Hm1 & Hm).
  apply (regular_exists_ok _ _ _ _ _ _ Hs) in Hm1 as [Hs1 _]. destruct b; [done|].
  apply st_bind_Ok in Hm as (? & s2 & Hm2 & Hm).
  apply (sub_balance_ok _ _ _ _ _ _ _ _ _ Hs1 Hv Hlt) in Hm2 as (Hle & v1 & Hs2 & Hv1 & _).
  split; [done|]. eapply add_balance_ok in Hm; [exact Hm|exact Hs2|exact Hv1|].
  unfold upd. destruct (decide (to = from)) as [->|]; [|done]. specialize (Hlt from). lia.
Qed.

(** The action under its checkpoint. *)
Lemma pay_action_ok bn bt walk find receiver n nid h1 h2 payer signer s v ws fb fs u s' :
  tsnap s v ws → shows v fb fs → (∀ a, fb a < u64_size) → fb receiver + n < u64_size →
  under_checkpoint ACTION_CHECKPOINT
    (apply_action env bn bt walk find (Action.Pay receiver n) nid h1 h2 payer signer) s = (Ok u, s') →
  ∃ v', tsnap s' v' ws ∧ n ≤ fb payer ∧
    shows v' (upd receiver (upd payer (fb payer - n) fb receiver + n) (upd payer (fb payer - n) fb))
      fs.
Proof.
  intros Hs Hv Hlt Hrec. apply (under_checkpoint_ok _ _ _ _ v); [done|]. intros s1 s2 u' Hs1 Ha.
  cbn [apply_action] in Ha.
  eapply transfer_balance_ok in Ha as (Hq & v' & Hs' & Hv'); [by exists v'|done..].
Qed.
End Payments.

(** * Payments are exact *)

(** C15: A successful payment had the next sequence number of the account it is charged to and
    a balance that covers fee and quantity; afterwards that account's sequence number is one
    higher, it has paid exactly the fee and the quantity, the receiver has got exactly the
    quantity, and no other account has changed.  The fee leaves the accounts: it is paid out
    when the block is closed. *)
Theorem pay_exact `{Crypto} `{Primitives} `{ChainTimeInfo} (env : TopEnv)
    (parent_block_number parent_block_timestamp : N) (walk : gmap H160 N → list (H160 * N))
    (find_action_handler_for : N → option (bytes → Address → Public → topM ()))
    (tx : Transaction) (receiver : Address) (quantity : N) (signed_hash : H256)
    (signer_public : Public) (s s' : TopLevel) (v : TopView) (saved : list TopView) :
  let payer := payer_of v signer_public in
  tx_action tx = Action.Pay receiver quantity →
  top_snap env (tl_top_cache s) v saved →
  (∀ a, bal v a < u64_size) → bal v receiver + quantity < u64_size →
  top_apply env parent_block_number parent_block_timestamp walk find_action_handler_for tx
    signed_hash signer_public s = (Ok tt, s') →
  tx_seq tx = sq v payer ∧ tx_fee tx + quantity ≤ bal v payer ∧
  ∃ v', top_snap env (tl_top_cache s') v' saved ∧
    (∀ a, sq v' a = if decide (a = payer) then u64_add (sq v payer) 1 else sq v a) ∧
    (∀ a, bal v' a + (if decide (a = payer) then tx_fee tx + quantity else 0) =
          bal v a + (if decide (a = receiver) then quantity else 0)).
Proof.
  intros payer Hact Hs Hlt Hrec Hr. unfold top_apply in Hr.
  apply (under_checkpoint_ok env _ _ (λ v', tx_seq tx = sq v payer ∧
    tx_fee tx + quantity ≤ bal v payer ∧
    (∀ a, sq v' a = if decide (a = payer) then u64_add (sq v payer) 1 else sq v a) ∧
    (∀ a, bal v' a + (if decide (a = payer) then tx_fee tx + quantity else 0) =
          bal v a + (if decide (a = receiver) then quantity else 0))) _ _ _ _ _ Hs) in Hr
    as (v' & Hs' & ? & ? & ? & ?); [by split_and!; [..|exists v']|].
  clear Hr Hs s s'. intros s s' u Hs Hm. unfold top_apply_internal in Hm.
  apply st_bind_Ok in Hm as (p & s1 & Hm1 & Hm).
  apply (find_fee_payer_ok _ _ _ _ _ _ (bal v) (sq v) _ _ Hs) in Hm1 as (-> & v1 & Hs1 & Hv1 & _);
    [|by intros a]. fold payer in Hm.
  apply st_bind_Ok in Hm as (n & s2 & Hm2 & Hm). apply (seq_ok _ _ _ _ _ _ _ Hs1) in Hm2 as [Hs2 ->].
  destruct (Hv1 payer) as [_ Hsq]. rewrite Hsq in Hm.
  destruct (N.eqb_spec (tx_seq tx) (sq v payer)) as [Hseq|]; [|done]. cbn [negb] in Hm.
  apply st_bind_Ok in Hm as (? & s3 & Hm3 & Hm).
  apply (inc_seq_ok _ _ _ _ _ _ _ _ _ Hs2 Hv1) in Hm3 as (v3 & Hs3 & Hv3 & _).
  apply st_bind_Ok in Hm as (? & s4 & Hm4 & Hm).
  apply (sub_balance_ok _ _ _ _ _ _ _ _ _ _ Hs3 Hv3 Hlt) in Hm4 as (Hfee & v4 & Hs4 & Hv4 & _).
  set (fb := upd payer (bal v payer - tx_fee tx) (bal v)) in *. rewrite Hact in Hm.
  eapply pay_action_ok in Hm as (v' & Hs' & Hq & Hv'); [|exact Hs4|exact Hv4|..].
  2: { intros a. unfold fb, upd. destruct (decide (a = payer)); [|done]. specialize (Hlt payer). lia. }
  2: { unfold fb, upd. destruct (decide (receiver = payer)) as [->|]; [lia|done]. }
  assert (fb payer = bal v payer - tx_fee tx) as Hfb by (unfold fb, upd; by rewrite decide_True).
  rewrite Hfb in *. exists v'. split_and!; [done|done|lia| |].
  - intros a. by destruct (Hv' a) as [_ ->].
  - intros a. destruct (Hv' a) as [-> _]. unfold upd, fb, upd.
    repeat (case_decide; subst); try congruence; lia.
Qed.

Module PayWitness.
#[local] Existing Instance Sample.crypto.
#[local] Existing Instance sample_primitives.
#[local] Existing Instance TopWitness.chain.

Definition receiver : Address := replicate 20 8.
Definition tx : Transaction :=
  {| tx_seq := 3; tx_fee := 10; tx_network_id := [116; 99]; tx_action := Action.Pay receiver 30 |}.

Lemma pay_exact_witness :
  ∃ s' v', top_apply TopWitness.env 5 6 TopWitness.walk (λ _, None) tx (replicate 32 4)
             TopWitness.signer (TopWitness.start ∅) = (Ok tt, s') ∧
    top_snap TopWitness.env (tl_top_cache s') v' [] ∧ bal v' receiver = 30.
Proof.
  assert (∃ s', top_apply TopWitness.env 5 6 TopWitness.walk (λ _, None) tx (replicate 32 4)
    TopWitness.signer (TopWitness.start ∅) = (Ok tt, s')) as [s' Hr].
  { eexists. vm_compute. reflexivity. }
  exists s'.
  destruct (pay_exact TopWitness.env 5 6 TopWitness.walk (λ _, None) tx receiver 30 (replicate 32 4)
    TopWitness.signer (TopWitness.start ∅) s' TopWitness.v0 []) as (_ & _ & v' & Hs' & _ & Hb).
  - reflexivity.
  - split_and!; apply snapshots_new.
  - intros a. unfold bal. cbn [tv_account TopWitness.v0]. unfold db_view.
    cbn [te_db_account TopWitness.env]. destruct (bool_decide _); reflexivity.
  - reflexivity.
  - exact Hr.
  - exists v'. split_and!; [exact Hr|exact Hs'|]. specialize (Hb receiver).
    rewrite decide_False in Hb by (vm_compute; discriminate). rewrite N.add_0_r in Hb.
    rewrite Hb. reflexivity.
Defined.
End PayWitness.
