(* ===== verification/Nibble.v ===== *)
(** Paths of the Merkle trie: the nibble slices of util/merkle/src/nibbleslice.rs and
    their hex-prefix encoding.  A slice is a byte string and an offset in half bytes; the
    relation [slice] reads it as the list of its nibbles, and every operation is shown
    to be the corresponding operation on lists. *)
From stdpp Require Import base list numbers.
From Stdlib Require Import NArith Lia.
From S2P Require Import Prelude.

Local Open Scope N_scope.

(** * The code *)

Record NibbleSlice := {
  ns_data : bytes;
  ns_offset : N;
}.

Definition ns_new_offset (data : bytes) (offset : N) : NibbleSlice :=
  {| ns_data := data; ns_offset := offset |}.
Definition ns_new (data : bytes) : NibbleSlice := ns_new_offset data 0.

Definition ns_from_encoded {E : Type} (data : bytes) : result E NibbleSlice :=
  first ← expect (data !! 0%nat);
  Ok (ns_new_offset data (if N.land first 0x10 =? 0x10 then 1 else 2)).

Definition ns_len (self : NibbleSlice) : N := u64_sub (2 * len (ns_data self)) (ns_offset self).

Definition ns_at {E : Type} (self : NibbleSlice) (i : N) : result E N :=
  let pos := ns_offset self + i in
  word ← expect (ns_data self !! N.to_nat (N.shiftr pos 1));
  Ok (if N.land pos 1 =? 1 then N.land word 0xf else N.shiftr word 4).

Definition ns_mid (self : NibbleSlice) (i : N) : NibbleSlice :=
  ns_new_offset (ns_data self) (ns_offset self + i).

(** The loop of [common_prefix], with [rest] turns left. *)
Fixpoint common_from {E : Type} (self them : NibbleSlice) (rest : nat) (i : N) : result E N :=
  match rest with
  | O => Ok i
  | S rest =>
      a ← ns_at self i;
      b ← ns_at them i;
      if negb (a =? b) then Ok i else common_from self them rest (i + 1)
  end.

Definition ns_common_prefix {E : Type} (self them : NibbleSlice) : result E N :=
  common_from self them (N.to_nat (N.min (ns_len self) (ns_len them))) 0.

Definition ns_starts_with {E : Type} (self them : NibbleSlice) : result E bool :=
  c ← ns_common_prefix self them;
  Ok (c =? ns_len them).

(** [PartialEq]. *)
Definition ns_eq {E : Type} (self them : NibbleSlice) : result E bool :=
  if ns_len self =? ns_len them then ns_starts_with self them else Ok false.

(** The loop of the encoders, pushing [n] bytes from position [i] on. *)
Fixpoint push_pairs {E : Type} (at_i : N → result E N) (n : nat) (i : N) : result E bytes :=
  match n with
  | O => Ok []
  | S n =>
      hi ← at_i i;
      lo ← at_i (i + 1);
      rest ← push_pairs at_i n (i + 2);
      Ok ((N.shiftl hi 4 mod 256 + lo) mod 256 :: rest)
  end.

(** The body that [encoded], [encoded_leftmost] and [from_vec] share, for [l] nibbles. *)
Definition hex_prefix {E : Type} (at_i : N → result E N) (l : N) : result E bytes :=
  first ← (if l mod 2 =? 1 then n ← at_i 0; Ok ((0x10 + n) mod 256) else Ok 0);
  rest ← push_pairs at_i (N.to_nat (l / 2)) (l mod 2);
  Ok (first :: rest).

Definition ns_encoded {E : Type} (self : NibbleSlice) : result E bytes :=
  hex_prefix (ns_at self) (ns_len self).
Definition ns_encoded_leftmost {E : Type} (self : NibbleSlice) (n : N) : result E bytes :=
  hex_prefix (ns_at self) (N.min (ns_len self) n).

Definition ns_to_vec {E : Type} (self : NibbleSlice) : result E bytes :=
  map_res (λ i, ns_at self (N.of_nat i)) (seq 0 (N.to_nat (ns_len self))).

Definition ns_from_vec {E : Type} (v : bytes) : result E (bytes * N) :=
  r ← hex_prefix (λ i, n ← expect (v !! N.to_nat i); Ok (N.land n 0xf)) (len v);
  Ok (r, 2 - len v mod 2).

(** * Slices as lists of nibbles *)

Definition is_nibble (n : N) : Prop := n < 16.
Abbreviation nibbles_ok := (Forall is_nibble).

Fixpoint nibs (data : bytes) : bytes :=
  match data with
  | [] => []
  | b :: data => N.shiftr b 4 :: N.land b 0xf :: nibs data
  end.

(** The slice [s] stands for the nibbles [l]. *)
Record slice (s : NibbleSlice) (l : bytes) : Prop := {
  slice_nibs : drop (N.to_nat (ns_offset s)) (nibs (ns_data s)) = l;
  slice_offset : ns_offset s ≤ 2 * len (ns_data s);
  slice_fits : 2 * len (ns_data s) < u64_size;
  slice_bytes : bytes_ok (ns_data s);
}.

(** Length of the longest common prefix. *)
Fixpoint cpl (l k : bytes) : nat :=
  match l, k with
  | x :: l, y :: k => if x =? y then S (cpl l k) else O
  | _, _ => O
  end.

Fixpoint pack (l : bytes) : bytes :=
  match l with
  | a :: b :: l => 16 * a + b :: pack l
  | _ => []
  end.

(** The hex-prefix form of a path. *)
Definition hp (l : bytes) : bytes :=
  if Nat.odd (length l) then 0x10 + default 0 (head l) :: pack (tail l) else 0 :: pack l.

(** ** Bytes and their halves *)

Lemma nibs_length data : length (nibs data) = (2 * length data)%nat.
Proof. induction data as [|b data IH]; simpl; lia. Qed.

Lemma shiftr_4 b : N.shiftr b 4 = b / 16.
Proof. by rewrite N.shiftr_div_pow2. Qed.

Lemma land_15 b : N.land b 0xf = b mod 16.
Proof. change 0xf with (N.ones 4). by rewrite N.land_ones. Qed.

Lemma nibs_ok data : bytes_ok data → nibbles_ok (nibs data).
Proof.
  induction 1 as [|b data Hb _ IH]; simpl; [constructor|].
  rewrite shiftr_4, land_15. repeat constructor; [| |done]; unfold is_nibble; lia_div.
Qed.

Lemma nibs_lookup data p :
  nibs data !! p =
  (λ word, if Nat.odd p then N.land word 0xf else N.shiftr word 4) <$> data !! Nat.div2 p.
Proof.
  revert p. induction data as [|b data IH]; intros p; [done|].
  destruct p as [|[|p]]; [done|done|]. simpl. by rewrite IH.
Qed.

Lemma cpl_comm l k : cpl l k = cpl k l.
Proof.
  revert k. induction l as [|x l IH]; intros [|y k]; simpl; [done..|].
  rewrite N.eqb_sym. destruct (y =? x); [|done]. by rewrite IH.
Qed.

Lemma cpl_le l k : (cpl l k ≤ length l)%nat ∧ (cpl l k ≤ length k)%nat.
Proof.
  revert k. induction l as [|x l IH]; intros [|y k]; simpl; try lia.
  destruct (x =? y); [|lia]. specialize (IH k). lia.
Qed.

Lemma cpl_take l k : take (cpl l k) l = take (cpl l k) k.
Proof.
  revert k. induction l as [|x l IH]; intros [|y k]; simpl; [done..|].
  destruct (N.eqb_spec x y) as [->|]; [|done]. simpl. by rewrite IH.
Qed.

Lemma cpl_prefix l k : cpl l k = length k ↔ k `prefix_of` l.
Proof.
  split.
  - intros Hc. pose proof (cpl_take l k) as Ht. rewrite Hc, (firstn_all k) in Ht.
    exists (drop (length k) l). rewrite <-Ht at 1. by rewrite take_drop.
  - intros [r ->]. induction k as [|y k IH]; simpl; [by destruct r|].
    by rewrite N.eqb_refl, IH.
Qed.

(** Past the common prefix the lists differ, if both go on. *)
Lemma cpl_split l k :
  (cpl l k < length l)%nat → (cpl l k < length k)%nat →
  ∃ c x y l' k', l = c ++ x :: l' ∧ k = c ++ y :: k' ∧ x ≠ y ∧ length c = cpl l k.
Proof.
  revert k. induction l as [|x l IH]; intros [|y k]; simpl; try lia.
  destruct (N.eqb_spec x y) as [->|Hxy]; intros Hl Hk.
  - destruct (IH k) as (c & x' & y' & l' & k' & -> & -> & ? & ?); [lia..|].
    exists (y :: c), x', y', l', k'. simpl. auto with lia.
  - by exists [], x, y, l, k.
Qed.

(** ** Operations on slices *)

Lemma odd_land p : Nat.odd (N.to_nat p) = (N.land p 1 =? 1).
Proof.
  assert (N.land p 1 = p mod 2) as -> by (change 1 with (N.ones 1) at 1; apply N.land_ones).
  destruct (Nat.odd (N.to_nat p)) eqn:Ho; symmetry.
  - apply Nat.odd_spec in Ho as [m Hm]. apply N.eqb_eq. lia_div.
  - apply (f_equal negb) in Ho. rewrite Nat.negb_odd in Ho. apply Nat.even_spec in Ho as [m Hm].
    apply N.eqb_neq. lia_div.
Qed.

Section Slices.
Context {E : Type}.

Lemma slice_ok s l : slice s l → nibbles_ok l.
Proof. intros [<- _ _ Hb]. apply Forall_drop. by apply nibs_ok. Qed.

Lemma slice_length s l :
  slice s l → (N.to_nat (ns_offset s) + length l = 2 * length (ns_data s))%nat.
Proof. intros [<- Ho _ _]. rewrite length_drop, nibs_length. unfold len in Ho. lia. Qed.

Lemma slice_ns_len s l : slice s l → ns_len s = len l.
Proof.
  intros Hs. pose proof (slice_length s l Hs). destruct Hs as [_ Ho Hf _].
  unfold ns_len. rewrite u64_sub_le by (unfold len in *; lia). unfold len in *. lia.
Qed.

Lemma slice_at s l i : slice s l → ns_at s i = expect (E:=E) (l !! N.to_nat i).
Proof.
  intros [<- _ _ _]. rewrite lookup_drop, nibs_lookup, <-N2Nat.inj_add. unfold ns_at.
  set (p := ns_offset s + i). rewrite <-odd_land.
  replace (N.to_nat (N.shiftr p 1)) with (Nat.div2 (N.to_nat p))
    by (by rewrite <-N.div2_spec, N2Nat.inj_div2).
  by destruct (ns_data s !! Nat.div2 (N.to_nat p)).
Qed.

Lemma slice_mid s l i : slice s l → i ≤ len l → slice (ns_mid s i) (drop (N.to_nat i) l).
Proof.
  intros Hs Hi. pose proof (slice_length s l Hs) as Hl. destruct Hs as [<- Ho Hf Hb].
  split; simpl; [|unfold len in *; lia|done|done].
  by rewrite drop_drop, <-N2Nat.inj_add.
Qed.

Lemma slice_new data : bytes_ok data → 2 * len data < u64_size → slice (ns_new data) (nibs data).
Proof. intros. split; simpl; [by rewrite drop_0|lia|done|done]. Qed.

Lemma common_from_cpl s t l k rest i :
  slice s l → slice t k → (rest + N.to_nat i = length l `min` length k)%nat →
  common_from s t rest i =
    Ok (E:=E) (i + N.of_nat (cpl (drop (N.to_nat i) l) (drop (N.to_nat i) k))).
Proof.
  intros Hs Ht. revert i. induction rest as [|rest IH]; intros i Hi; simpl.
  - assert (cpl (drop (N.to_nat i) l) (drop (N.to_nat i) k) = 0%nat) as ->; [|f_equal; lia].
    pose proof (cpl_le (drop (N.to_nat i) l) (drop (N.to_nat i) k)) as Hc.
    rewrite !length_drop in Hc. lia.
  - rewrite (slice_at s l), (slice_at t k) by done.
    destruct (lookup_lt_is_Some_2 l (N.to_nat i)) as [x Hx]; [lia|].
    destruct (lookup_lt_is_Some_2 k (N.to_nat i)) as [y Hy]; [lia|].
    rewrite Hx, Hy. cbn [expect]. rewrite !Ok_bind, (drop_S l x _ Hx), (drop_S k y _ Hy).
    simpl cpl. destruct (N.eqb_spec x y) as [->|]; simpl negb; cbv iota; [|f_equal; lia].
    rewrite IH by lia. rewrite N2Nat.inj_add, Nat.add_1_r. f_equal. lia.
Qed.

Lemma slice_common s t l k :
  slice s l → slice t k → ns_common_prefix s t = Ok (E:=E) (N.of_nat (cpl l k)).
Proof.
  intros Hs Ht. unfold ns_common_prefix.
  rewrite (slice_ns_len s l), (slice_ns_len t k), (common_from_cpl s t l k) by (done || unfold len; lia).
  by rewrite !drop_0.
Qed.

Lemma slice_starts_with s t l k :
  slice s l → slice t k → ns_starts_with s t = Ok (E:=E) (bool_decide (k `prefix_of` l)).
Proof.
  intros Hs Ht. unfold ns_starts_with. rewrite (slice_common s t l k), (slice_ns_len t k) by done.
  rewrite Ok_bind. f_equal. unfold len. destruct (N.eqb_spec (N.of_nat (cpl l k)) (N.of_nat (length k))).
  - rewrite bool_decide_true; [done|]. apply cpl_prefix. lia.
  - rewrite bool_decide_false; [done|]. rewrite <-cpl_prefix. lia.
Qed.

Lemma slice_eq s t l k : slice s l → slice t k → ns_eq s t = Ok (E:=E) (bool_decide (l = k)).
Proof.
  intros Hs Ht. unfold ns_eq. rewrite (slice_ns_len s l), (slice_ns_len t k) by done.
  destruct (N.eqb_spec (len l) (len k)) as [Hl|Hl].
  - rewrite (slice_starts_with s t l k) by done. f_equal. apply bool_decide_ext. split.
    + intros [r ->]. rewrite len_app in Hl. assert (r = []) as -> by (apply len_zero; lia).
      by rewrite app_nil_r.
    + by intros ->.
  - rewrite bool_decide_false; [done|]. by intros ->.
Qed.

Lemma slice_to_vec s l : slice s l → ns_to_vec s = Ok (E:=E) l.
Proof.
  intros Hs. unfold ns_to_vec. rewrite (slice_ns_len s l) by done. apply map_res_Ok.
  apply Forall2_same_length_lookup_2; [rewrite length_seq; unfold len; lia|].
  intros i x y Hx Hy. apply lookup_seq in Hx as [-> _]. rewrite (slice_at s l) by done.
  simpl. by rewrite Nat2N.id, Hy.
Qed.

(** ** The hex-prefix form *)

Lemma push_pairs_pack (at_i : N → result E N) l n i :
  nibbles_ok l → (∀ j x, l !! N.to_nat j = Some x → at_i j = Ok x) →
  (N.to_nat i + 2 * n = length l)%nat →
  push_pairs at_i n i = Ok (pack (drop (N.to_nat i) l)).
Proof.
  intros Hl Hat. revert i. induction n as [|n IH]; intros i Hi.
  - by rewrite drop_ge by lia.
  - destruct (lookup_lt_is_Some_2 l (N.to_nat i)) as [x Hx]; [lia|].
    destruct (lookup_lt_is_Some_2 l (S (N.to_nat i))) as [y Hy]; [lia|].
    rewrite (drop_S l x _ Hx), (drop_S l y _ Hy). cbn [push_pairs pack].
    rewrite (Hat i x Hx), (Hat (i + 1) y), IH by (rewrite ?N2Nat.inj_add, ?Nat.add_1_r; done || lia).
    rewrite !Ok_bind. rewrite N2Nat.inj_add. replace (N.to_nat i + N.to_nat 2)%nat with
      (S (S (N.to_nat i))) by lia. f_equal. f_equal. rewrite N.shiftl_mul_pow2.
    assert (is_nibble x) by (by eapply Forall_lookup_1). unfold is_nibble in *.
    assert (is_nibble y) by (by eapply Forall_lookup_1). unfold is_nibble in *.
    change (2 ^ 4) with 16. lia_div.
Qed.

Lemma odd_mod_2 {A} (l : list A) : Nat.odd (length l) = (len l mod 2 =? 1).
Proof.
  unfold len. rewrite <-(Nat2N.id (length l)) at 1. rewrite odd_land. f_equal.
  change 1 with (N.ones 1) at 1. by rewrite N.land_ones.
Qed.

Lemma hex_prefix_hp (at_i : N → result E N) l :
  nibbles_ok l → (∀ j x, l !! N.to_nat j = Some x → at_i j = Ok x) →
  hex_prefix at_i (len l) = Ok (hp l).
Proof.
  intros Hl Hat. unfold hex_prefix, hp. rewrite odd_mod_2.
  destruct (N.eqb_spec (len l mod 2) 1) as [Ho|Ho].
  - destruct l as [|x l]; [done|]. rewrite (Hat 0 x) by done. rewrite Ho, !Ok_bind.
    rewrite (push_pairs_pack at_i (x :: l)) by (done || unfold len in *; lia_div).
    rewrite Ok_bind. simpl. apply Forall_cons_1 in Hl as [Hx _]. unfold is_nibble in Hx.
    by rewrite N.mod_small by lia.
  - assert (len l mod 2 = 0) as Hz by lia_div. rewrite Hz, Ok_bind.
    rewrite (push_pairs_pack at_i l) by (done || unfold len in *; lia_div).
    rewrite Ok_bind. simpl. by rewrite drop_0.
Qed.

Lemma slice_encoded s l : slice s l → ns_encoded s = Ok (E:=E) (hp l).
Proof.
  intros Hs. unfold ns_encoded. rewrite (slice_ns_len s l) by done.
  apply hex_prefix_hp; [by eapply slice_ok|].
  intros j x Hx. by rewrite (slice_at s l), Hx.
Qed.

Lemma slice_encoded_leftmost s l n :
  slice s l → ns_encoded_leftmost s n = Ok (E:=E) (hp (take (N.to_nat n) l)).
Proof.
  intros Hs. unfold ns_encoded_leftmost. rewrite (slice_ns_len s l) by done.
  replace (N.min (len l) n) with (len (take (N.to_nat n) l))
    by (unfold len; rewrite length_take; lia).
  apply hex_prefix_hp; [apply Forall_take; by eapply slice_ok|].
  intros j x [Hx _]%lookup_take_Some. by rewrite (slice_at s l), Hx.
Qed.
End Slices.

Lemma nibs_pack l : nibbles_ok l → Nat.odd (length l) = false → nibs (pack l) = l.
Proof.
  revert l. fix IH 1. intros [|a [|b l]] Hl Ho; [done|done|].
  apply Forall_cons_1 in Hl as [Ha Hl]. apply Forall_cons_1 in Hl as [Hb Hl].
  unfold is_nibble in *. cbn [pack nibs]. rewrite IH by done.
  rewrite shiftr_4, land_15. f_equal; [lia_div|]. f_equal. lia_div.
Qed.

Lemma pack_length l : length (pack l) = Nat.div2 (length l).
Proof. revert l. fix IH 1. intros [|a [|b l]]; [done|done|]. simpl. by rewrite IH. Qed.

Lemma hp_len l : len (hp l) = 1 + len l / 2.
Proof.
  unfold hp, len. destruct l as [|a l]; [done|].
  destruct (Nat.odd (length (a :: l))) eqn:Ho; cbn [tail];
    rewrite length_cons, pack_length, Nat.div2_div, Nat2N.inj_succ, Nat2N.inj_div;
    change (N.of_nat 2) with 2; [|lia].
  apply Nat.odd_spec in Ho as [m Hm]. rewrite length_cons in *. lia_div.
Qed.

Lemma pack_ok l : nibbles_ok l → bytes_ok (pack l).
Proof.
  revert l. fix IH 1. intros [|a [|b l]] Hl; [constructor..|].
  apply Forall_cons_1 in Hl as [Ha Hl]. apply Forall_cons_1 in Hl as [Hb Hl].
  unfold is_nibble in *. simpl. constructor; [lia|]. by apply IH.
Qed.

Lemma hp_ok l : nibbles_ok l → bytes_ok (hp l).
Proof.
  intros Hl. unfold hp. destruct (Nat.odd _).
  - destruct l as [|a l]; simpl; [repeat constructor; lia|].
    apply Forall_cons_1 in Hl as [Ha Hl]. unfold is_nibble in Ha.
    constructor; [lia|]. by apply pack_ok.
  - constructor; [lia|]. by apply pack_ok.
Qed.

(** Reading an encoded path gives a slice of its nibbles. *)
Lemma from_encoded_hp {E} l :
  nibbles_ok l → 2 * len (hp l) < u64_size →
  ∃ s, ns_from_encoded (hp l) = Ok (E:=E) s ∧ slice s l.
Proof.
  intros Hl Hf. pose proof (hp_ok l Hl) as Hb. pose proof (hp_len l) as Hlen.
  unfold ns_from_encoded, hp in *. destruct (Nat.odd (length l)) eqn:Ho.
  - destruct l as [|a l]; [done|]. cbn [lookup list_lookup default head tail from_option id] in *.
    apply Forall_cons_1 in Hl as [Ha Hl]. unfold is_nibble in Ha. eexists. split; [reflexivity|].
    assert (N.land (0x10 + a) 0x10 = 0x10) as ->.
    { apply N.bits_inj. intros n. rewrite N.land_spec. change 0x10 with (2 ^ 4).
      destruct (N.eq_dec n 4) as [->|Hn]; [|by rewrite N.pow2_bits_false, andb_false_r by done].
      rewrite N.pow2_bits_true, andb_true_r, N.testbit_odd, N.shiftr_div_pow2.
      by replace ((2 ^ 4 + a) / 2 ^ 4) with 1 by (change (2 ^ 4) with 16; lia_div). }
    cbn [expect mbind result_bind N.eqb Pos.eqb].
    split; [|cbn [ns_new_offset ns_offset ns_data]; rewrite len_cons; lia|done|done].
    cbn [ns_new_offset ns_offset ns_data nibs]. change (N.to_nat 1) with 1%nat. simpl drop.
    rewrite nibs_pack; [|done|].
    + f_equal. rewrite land_15. lia_div.
    + simpl length in Ho. by rewrite Nat.odd_succ, <-Nat.negb_odd, negb_true_iff in Ho.
  - eexists. split; [reflexivity|]. split; [|cbn [ns_new_offset ns_offset ns_data]; rewrite len_cons; simpl; lia|done|done].
    simpl. by apply nibs_pack.
Qed.

Lemma hp_inj l k : nibbles_ok l → nibbles_ok k → 2 * len (hp l) < u64_size → hp l = hp k → l = k.
Proof.
  intros Hl Hk Hf Heq.
  destruct (from_encoded_hp (E:=()) l) as (s & Hs & [<- _ _ _]); [done..|].
  destruct (from_encoded_hp (E:=()) k) as (s' & Hs' & [<- _ _ _]); [done|by rewrite <-Heq|].
  rewrite Heq in Hs. congruence.
Qed.

Lemma from_vec_hp {E} v :
  nibbles_ok v → 2 * len (hp v) < u64_size →
  ∃ offset, ns_from_vec v = Ok (E:=E) (hp v, offset) ∧ slice (ns_new_offset (hp v) offset) v.
Proof.
  intros Hv Hf. exists (2 - len v mod 2). unfold ns_from_vec.
  rewrite (hex_prefix_hp _ v); [|done|].
  - split; [done|]. destruct (from_encoded_hp (E:=E) v) as (s & Hs & Hsl); [done..|].
    replace (ns_new_offset (hp v) (2 - len v mod 2)) with s; [done|].
    pose proof (slice_length s v Hsl) as Hl. unfold ns_from_encoded in Hs. inv_ok.
    unfold ns_new_offset. f_equal. simpl in Hl. pose proof (hp_len v). unfold len in *. lia_div.
  - intros j x Hx. rewrite Hx. simpl. rewrite land_15. f_equal.
    assert (is_nibble x) by (by eapply Forall_lookup_1). by apply N.mod_small.
Qed.
