(* ===== verification/TrieNode.v ===== *)
(** Nodes of the Merkle trie and their RLP form: util/merkle/src/node.rs, with the calls
    of the trusting RLP view (util/rlp/src/rlpin.rs) it makes.  The main facts are that
    [encoded] writes a leaf or a branch as the item of its fields and that [decoded]
    reads it back. *)
From stdpp Require Import base list numbers.
From Stdlib Require Import NArith Lia.
From S2P Require Import Prelude Types Crypto Rlp RlpImpls StateCache Nibble.

Local Open Scope N_scope.

(** * The trusting view *)

(** [Rlp] unwraps what the untrusted view returns. *)
Definition unwrap {E F A : Type} (r : result E A) : result F A :=
  match r with Ok a => Ok a | _ => Panic end.

Inductive Prototype := PNull | PData (size : N) | PList (items : N).

Definition rlp_is_empty (bs : bytes) : bool :=
  match bs with b :: _ => (b =? 0xc0) || (b =? 0x80) | [] => false end.

Definition rlp_size (bs : bytes) : N :=
  if negb (is_data bs) then 0
  else match payload_info bs with Ok pi => value_len pi | _ => 0 end.

Definition rlp_prototype (bs : bytes) : rlpR Prototype :=
  if is_data bs then Ok (PData (rlp_size bs))
  else if is_list bs then n ← item_count bs; Ok (PList n)
  else Ok PNull.

(** * Nodes *)

Inductive Node :=
| Leaf (partial : NibbleSlice) (value : bytes)
| Branch (partial : NibbleSlice) (children : list (option H256)).

Abbreviation trieR := (result TrieError.t).

(** [r.at(i).data()] *)
Definition data_at (r : bytes) (i : N) : trieR bytes :=
  item ← unwrap (at_ r i);
  unwrap (rlp_data item).

(** A slot of a branch: empty, or the hash of a child. *)
Definition child_at (r : bytes) (i : N) : trieR (option H256) :=
  item ← unwrap (at_ r i);
  if rlp_is_empty item then Ok None
  else h ← unwrap (val_at (decode H256_codec) r i); Ok (Some h).

Definition decoded (node_rlp : bytes) : trieR (option Node) :=
  prototype ← unwrap (rlp_prototype node_rlp);
  match prototype with
  | PData 0 => Ok None
  | PList 2 =>
      d ← data_at node_rlp 0;
      slice ← ns_from_encoded d;
      value ← data_at node_rlp 1;
      Ok (Some (Leaf slice value))
  | PList 17 =>
      nodes ← map_res (λ i, child_at node_rlp (N.of_nat i)) (seq 1 16);
      d ← data_at node_rlp 0;
      slice ← ns_from_encoded d;
      Ok (Some (Branch slice nodes))
  | _ => Panic
  end.

Definition append_child (child : option H256) : strm () :=
  match child with
  | Some hash => app H256_codec hash
  | None => append_empty_data
  end.

Definition leaf_rlp (path value : bytes) : trieR bytes :=
  unwrap (drain (rlp_list 2 [app bytes_codec path; app bytes_codec value])).
Definition branch_rlp (path : bytes) (nodes : list (option H256)) : trieR bytes :=
  unwrap (drain (rlp_list 17 (app bytes_codec path :: (append_child <$> nodes)))).

Definition encoded (node : Node) : trieR bytes :=
  match node with
  | Leaf slice value => path ← ns_encoded slice; leaf_rlp path value
  | Branch slice nodes => path ← ns_encoded slice; branch_rlp path nodes
  end.

Definition encoded_until (node : Node) (size : N) : trieR bytes :=
  match node with
  | Leaf slice value => path ← ns_encoded_leftmost slice size; leaf_rlp path value
  | Branch slice nodes => path ← ns_encoded_leftmost slice size; branch_rlp path nodes
  end.

(** * The RLP of a node *)

Definition leaf_item (path value : bytes) : rlp_item := List [Data (hp path); Data value].
Definition child_item (child : option H256) : rlp_item := Data (default [] child).
Definition branch_item (path : bytes) (children : list (option H256)) : rlp_item :=
  List (Data (hp path) :: (child_item <$> children)).

(** ** Writing *)

Lemma append_empty_appends : appends append_empty_data (Data []).
Proof.
  intros s s' _ Hn. unfold append_empty_data, mbind, stM_bind, modify_st.
  unfold note_appended in *. destruct s as [u buf f]. cbn [push_raw set_finished unfinished_lists
    buffer finished_list] in *. change (enc (Data [])) with [0x80] in Hn.
  destruct (note_lists u 1 (buf ++ [0x80]) false) as [s1| |] eqn:Hs; simplify_eq.
  destruct (note_lists_flag _ _ _ f _ Hs) as (b & -> & Hb). by exists b.
Qed.

Lemma append_child_appends child : appends (append_child child) (child_item child).
Proof.
  destruct child as [h|]; [|apply append_empty_appends].
  apply append_appends, encode_value_encodes.
Qed.

Lemma leaf_rlp_item path value :
  fits (leaf_item path value) → leaf_rlp (hp path) value = Ok (enc (leaf_item path value)).
Proof.
  intros Hf. unfold leaf_rlp. erewrite drain_encodes; [done| |done].
  apply rlp_list_encodes; [|done]. repeat constructor; apply append_appends, encode_value_encodes.
Qed.

Lemma branch_rlp_item path children :
  length children = 16%nat → fits (branch_item path children) →
  branch_rlp (hp path) children = Ok (enc (branch_item path children)).
Proof.
  intros Hl Hf. unfold branch_rlp. erewrite drain_encodes; [done| |done].
  apply rlp_list_encodes; [|rewrite len_cons; unfold len; by rewrite length_fmap, Hl].
  constructor; [apply append_appends, encode_value_encodes|].
  apply Forall2_fmap_l, Forall2_fmap_r, Forall_Forall2_diag, Forall_forall.
  intros c _. apply append_child_appends.
Qed.

(** ** Reading *)

Lemma rlp_data_enc d : fits (Data d) → rlp_data (enc (Data d)) = Ok d.
Proof.
  intros Hf. pose proof (payload_info_enc (Data d) [] Hf) as Hp. rewrite app_nil_r in Hp.
  unfold rlp_data. rewrite Hp, Ok_bind, enc_split. cbn [header_len value_len].
  pose proof (slice_app (E:=RlpError.t) (item_header (Data d)) (item_payload (Data d)) []) as Hsl.
  rewrite app_nil_r in Hsl. exact Hsl.
Qed.

Lemma data_at_item l k d :
  fits (List l) → l !! N.to_nat k = Some (Data d) → data_at (enc (List l)) k = Ok d.
Proof.
  intros Hf Hk. unfold data_at. assert (fits (Data d)) as Hd.
  { eapply fits_elem; [done|]. by eapply list_elem_of_lookup_2. }
  rewrite (at_enc l k (Data d)) by (done || by apply fits_short).
  cbn [unwrap]. rewrite Ok_bind, rlp_data_enc by done. done.
Qed.

Lemma child_at_item l k child :
  fits (List l) → l !! N.to_nat k = Some (child_item child) →
  match child with Some h => len h = 32 | None => True end →
  child_at (enc (List l)) k = Ok child.
Proof.
  intros Hf Hk Hc. unfold child_at, child_item in *. assert (fits (Data (default [] child))) as Hd.
  { eapply fits_elem; [done|]. by eapply list_elem_of_lookup_2. }
  rewrite (at_enc l k _ Hf (fits_short _ Hf) Hk). cbn [unwrap]. rewrite Ok_bind.
  destruct child as [h|]; [|done]. cbn [default from_option id] in *.
  assert (rlp_is_empty (enc (Data h)) = false) as ->.
  { destruct h as [|x [|y h]]; [done|done|]. unfold enc, header.
    rewrite Hc. done. }
  pose proof (codec_decodes (c:=H256_codec) h Hc Hd) as Hx.
  change (item H256_codec h) with (Data h) in Hx.
  by rewrite (val_at_enc _ l k _ Hf Hk), Hx.
Qed.

(** A child slot holds nothing or a digest. *)
Definition hash_ok (child : option H256) : Prop :=
  match child with Some h => len h = 32 | None => True end.

Lemma prototype_list l : fits (List l) → rlp_prototype (enc (List l)) = Ok (PList (len l)).
Proof.
  intros Hf. pose proof (is_list_enc l []) as Hl. rewrite app_nil_r in Hl.
  unfold rlp_prototype. rewrite Hl.
  assert (is_data (enc (List l)) = false) as ->.
  { unfold is_data, is_list in *. destruct (enc (List l)) as [|b bs]; [done|].
    apply N.ltb_ge. by apply N.leb_le. }
  by rewrite item_count_enc.
Qed.

Lemma decoded_null : decoded [0x80] = Ok None.
Proof. done. Qed.

Lemma fits_data d : fits (Data d) → 2 * len d < u64_size.
Proof.
  unfold fits. rewrite enc_split, len_app. cbn [item_payload].
  assert (2 * u32_size < u64_size) by done. lia.
Qed.

Lemma fits_path path l : fits (List (Data (hp path) :: l)) → 2 * len (hp path) < u64_size.
Proof. intros Hf. apply fits_data. eapply fits_elem; [done|]. by left. Qed.

(** Reading back a leaf. *)
Lemma decoded_leaf path value :
  nibbles_ok path → fits (leaf_item path value) →
  ∃ s, decoded (enc (leaf_item path value)) = Ok (Some (Leaf s value)) ∧ slice s path.
Proof.
  intros Hp Hf.
  destruct (from_encoded_hp (E:=TrieError.t) path Hp (fits_path _ _ Hf)) as (s & Hs & Hsl).
  exists s. split; [|done]. unfold decoded, leaf_item in *. rewrite prototype_list by done.
  cbn [unwrap]. rewrite Ok_bind. change (len [_; _]) with 2. cbv iota.
  rewrite (data_at_item _ 0 (hp path) Hf (eq_refl _)), (data_at_item _ 1 value Hf (eq_refl _)).
  by rewrite Ok_bind, Hs.
Qed.

(** Reading back a branch. *)
Lemma decoded_branch path children :
  nibbles_ok path → fits (branch_item path children) → length children = 16%nat →
  Forall hash_ok children →
  ∃ s, decoded (enc (branch_item path children)) = Ok (Some (Branch s children)) ∧ slice s path.
Proof.
  intros Hp Hf Hl Hc.
  destruct (from_encoded_hp (E:=TrieError.t) path Hp (fits_path _ _ Hf)) as (s & Hs & Hsl).
  exists s. split; [|done]. unfold decoded, branch_item in *. rewrite prototype_list by done.
  cbn [unwrap]. rewrite Ok_bind, len_cons.
  replace (1 + len (child_item <$> children)) with 17 by (unfold len; by rewrite length_fmap, Hl).
  rewrite (data_at_item _ 0 (hp path) Hf (eq_refl _)).
  assert (map_res (λ i, child_at (enc (List (Data (hp path) :: (child_item <$> children))))
    (N.of_nat i)) (seq 1 16) = Ok children) as ->; [|by rewrite !Ok_bind, Hs].
  apply map_res_Ok, Forall2_same_length_lookup_2; [by rewrite Hl|].
  intros i j c [-> _]%lookup_seq Hi. apply child_at_item; [done| |by eapply Forall_lookup_1 in Hc].
  rewrite Nat2N.id. simpl. by rewrite list_lookup_fmap, Hi.
Qed.
