(* ===== verification/HashDb.v ===== *)
(** Databases of byte strings keyed by their hash: the trait of util/hashdb/src/lib.rs as
    an interface with laws, and the reference-counting memory database of
    util/memorydb/src/lib.rs, which implements it.  A count is an integer without a
    width: it stays far below 2^31, as every reference is one call. *)
From stdpp Require Import base gmap list numbers.
From Stdlib Require Import NArith ZArith Lia.
From S2P Require Import Prelude Types Crypto.

Local Open Scope N_scope.

(** * The interface *)

(** The calls the trie makes. *)
Class HashDB (D : Type) := {
  db_get : D → H256 → option bytes;
  db_contains : D → H256 → bool;
  db_insert : bytes → D → H256 * D;
}.

(** [util/rlp/src/lib.rs] *)
Definition NULL_RLP : bytes := [0x80].

(** What the trie relies on.  [db_ok] is an invariant of the database under insertion.  A
    string that is already there under its hash stays, a new one is found afterwards, and
    nothing else changes; the hash of the empty node is always known. *)
Class HashDBLaws (D : Type) `{Crypto} `{HashDB D} := {
  db_ok : D → Prop;
  db_insert_ok v d : db_ok d → db_ok (db_insert v d).2;
  db_insert_hash v d : v ≠ NULL_RLP → (db_insert v d).1 = blake256 v;
  db_insert_same v d : v ≠ NULL_RLP → db_ok d →
    blake256 v ≠ BLAKE_NULL_RLP → db_get d (blake256 v) = None ∨ db_get d (blake256 v) = Some v →
    db_get (db_insert v d).2 (blake256 v) = Some v;
  db_insert_other v d k : k ≠ blake256 v → db_get (db_insert v d).2 k = db_get d k;
  db_get_null d : db_get d BLAKE_NULL_RLP = Some NULL_RLP;
  db_contains_get d k : db_contains d k = bool_decide (is_Some (db_get d k));
}.

(** * The memory database *)

Record MemoryDB := { mdb_data : gmap H256 (bytes * Z) }.

Definition mdb_new : MemoryDB := {| mdb_data := ∅ |}.
Definition mdb_clear (self : MemoryDB) : MemoryDB := {| mdb_data := ∅ |}.
Definition mdb_purge (self : MemoryDB) : MemoryDB :=
  {| mdb_data := filter (λ '(_, (_, rc)), rc ≠ 0%Z) (mdb_data self) |}.

(** The map and what stays behind. *)
Definition mdb_drain (self : MemoryDB) : gmap H256 (bytes * Z) * MemoryDB :=
  (mdb_data self, mdb_new).

Definition mdb_raw (self : MemoryDB) (key : H256) : option (bytes * Z) :=
  if bool_decide (key = BLAKE_NULL_RLP) then Some (NULL_RLP, 1%Z) else mdb_data self !! key.

Definition mdb_get (self : MemoryDB) (key : H256) : option bytes :=
  if bool_decide (key = BLAKE_NULL_RLP) then Some NULL_RLP
  else match mdb_data self !! key with
       | Some (d, rc) => if (0 <? rc)%Z then Some d else None
       | None => None
       end.

Definition mdb_keys (self : MemoryDB) : gmap H256 Z :=
  omap (λ '(_, rc), if (rc =? 0)%Z then None else Some rc) (mdb_data self).

Definition mdb_contains (self : MemoryDB) (key : H256) : bool :=
  if bool_decide (key = BLAKE_NULL_RLP) then true
  else match mdb_data self !! key with
       | Some (_, x) => (0 <? x)%Z
       | None => false
       end.

(** One more reference to [value] under [key]. *)
Definition add_reference (value : bytes) (entry : option (bytes * Z)) : bytes * Z :=
  match entry with
  | Some (old_value, rc) => (if (rc <=? 0)%Z then value else old_value, (rc + 1)%Z)
  | None => (value, 1%Z)
  end.

Definition mdb_emplace (key : H256) (value : bytes) (self : MemoryDB) : MemoryDB :=
  if bool_decide (value = NULL_RLP) then self
  else {| mdb_data := partial_alter (Some ∘ add_reference value) key (mdb_data self) |}.

Definition mdb_remove (key : H256) (self : MemoryDB) : MemoryDB :=
  if bool_decide (key = BLAKE_NULL_RLP) then self
  else {| mdb_data := partial_alter (λ entry,
            Some match entry with Some (v, rc) => (v, (rc - 1)%Z) | None => ([], (-1)%Z) end)
            key (mdb_data self) |}.

Definition mdb_remove_and_purge (key : H256) (self : MemoryDB) : option bytes * MemoryDB :=
  if bool_decide (key = BLAKE_NULL_RLP) then (None, self)
  else match mdb_data self !! key with
       | Some (v, rc) =>
           if (rc =? 1)%Z then (Some v, {| mdb_data := delete key (mdb_data self) |})
           else (None, {| mdb_data := <[key := (v, (rc - 1)%Z)]> (mdb_data self) |})
       | None => (None, {| mdb_data := <[key := ([], (-1)%Z)]> (mdb_data self) |})
       end.

Definition mdb_consolidate (self other : MemoryDB) : MemoryDB :=
  {| mdb_data := union_with (λ '(v1, rc1) '(v2, rc2),
       Some (if (rc1 <? 0)%Z then v2 else v1, (rc1 + rc2)%Z)) (mdb_data self) (mdb_data other) |}.

Definition mdb_is_empty (self : MemoryDB) : bool := bool_decide (mdb_data self = ∅).

Section Insert.
Context `{Crypto}.

Definition mdb_insert (value : bytes) (self : MemoryDB) : H256 * MemoryDB :=
  if bool_decide (value = NULL_RLP) then (BLAKE_NULL_RLP, self)
  else
    let key := blake256 value in
    (key, {| mdb_data := partial_alter (Some ∘ add_reference value) key (mdb_data self) |}).

#[export] Instance mdb_hashdb : HashDB MemoryDB := {|
  db_get := mdb_get; db_contains := mdb_contains; db_insert := mdb_insert |}.

(** * The memory database satisfies the interface *)

(** No string is owed: every count is at least zero. *)
Definition mdb_ok (self : MemoryDB) : Prop :=
  ∀ k v rc, mdb_data self !! k = Some (v, rc) → (0 ≤ rc)%Z.

#[export, refine] Instance mdb_laws : HashDBLaws MemoryDB := {| db_ok := mdb_ok |}.
Proof.
  - intros v d Hd k w rc. simpl. unfold mdb_insert. case_bool_decide; [apply Hd|]. simpl.
    destruct (decide (k = blake256 v)) as [->|Hk].
    + rewrite lookup_partial_alter_eq. unfold compose.
      destruct (mdb_data d !! blake256 v) as [[w0 rc0]|] eqn:E; simpl; intros [= _ <-]; [|lia].
      specialize (Hd _ _ _ E). lia.
    + rewrite lookup_partial_alter_ne by done. apply Hd.
  - intros v d Hv. simpl. unfold mdb_insert. by rewrite bool_decide_false.
  - intros v d Hv Hd Hn Hp. simpl in *. unfold mdb_insert, mdb_get in *.
    rewrite bool_decide_false in Hp |- * by done. rewrite (bool_decide_false (v = _)) by done. simpl.
    rewrite lookup_partial_alter_eq. unfold compose.
    destruct (mdb_data d !! blake256 v) as [[w0 rc0]|] eqn:E; simpl in *; [|done].
    specialize (Hd _ _ _ E). destruct (Z.leb_spec rc0 0), (Z.ltb_spec 0 rc0); try lia;
      rewrite (proj2 (Z.ltb_lt _ _)) by lia; naive_solver.
  - intros v d k Hk. simpl. unfold mdb_insert. case_bool_decide as Hv; [done|].
    unfold mdb_get. simpl. by rewrite lookup_partial_alter_ne.
  - intros d. simpl. unfold mdb_get. by rewrite bool_decide_true.
  - intros d k. simpl. unfold mdb_contains, mdb_get. case_bool_decide; [done|].
    destruct (mdb_data d !! k) as [[w rc]|]; [|done]. by destruct (0 <? rc)%Z.
Defined.
End Insert.

(** * References are counted *)

Inductive mdb_op := MInsert (value : bytes) | MRemove (key : H256).

Section References.
Context `{Crypto}.

Definition mdb_exec (self : MemoryDB) (o : mdb_op) : MemoryDB :=
  match o with
  | MInsert value => (mdb_insert value self).2
  | MRemove key => mdb_remove key self
  end.

(** Insertions less removals of a key. *)
Definition reference (key : H256) (o : mdb_op) : Z :=
  match o with
  | MInsert value => if bool_decide (blake256 value = key) then 1 else 0
  | MRemove key' => if bool_decide (key' = key) then -1 else 0
  end%Z.
Definition references (key : H256) (ops : list mdb_op) : Z :=
  foldr (λ o acc, (reference key o + acc)%Z) 0%Z ops.

(** The strings inserted are not the null node and do not collide. *)
Definition inserts_ok (ops : list mdb_op) : Prop :=
  ∀ v, MInsert v ∈ ops → v ≠ NULL_RLP ∧ blake256 v ≠ BLAKE_NULL_RLP ∧
    ∀ w, MInsert w ∈ ops → blake256 v = blake256 w → v = w.

(** What an entry holds after [ops]. *)
Definition entry_counts (ops : list mdb_op) (k : H256) (entry : option (bytes * Z)) : Prop :=
  match entry with
  | Some (v, rc) => rc = references k ops ∧ ((0 < rc)%Z → MInsert v ∈ ops ∧ blake256 v = k)
  | None => references k ops = 0%Z
  end.

Lemma references_app k l1 l2 : references k (l1 ++ l2) = (references k l1 + references k l2)%Z.
Proof. induction l1 as [|o l1 IH]; simpl; [done|]. rewrite IH. lia. Qed.

Lemma mdb_exec_counts ops o d :
  inserts_ok (ops ++ [o]) → (∀ k, k ≠ BLAKE_NULL_RLP → entry_counts ops k (mdb_data d !! k)) →
  ∀ k, k ≠ BLAKE_NULL_RLP → entry_counts (ops ++ [o]) k (mdb_data (mdb_exec d o) !! k).
Proof.
  intros Hok Hd k Hk. specialize (Hd k Hk).
  assert (∀ e, entry_counts ops k e → reference k o = 0%Z → entry_counts (ops ++ [o]) k e) as Hsame.
  { intros [[v rc]|]; simpl; rewrite references_app; simpl; [|lia]. intros [-> Hv] Ho.
    split; [lia|]. intros Hrc. destruct (Hv Hrc). split; [|done]. apply elem_of_app. by left. }
  destruct o as [v|k']; simpl.
  - destruct (Hok v) as (Hv & Hn & Hinj); [apply elem_of_app; right; by left|].
    unfold mdb_insert. rewrite bool_decide_false by done. simpl.
    destruct (decide (blake256 v = k)) as [<-|Hne].
    + rewrite lookup_partial_alter_eq. unfold compose.
      destruct (mdb_data d !! blake256 v) as [[w rc]|]; simpl in *;
        rewrite references_app; simpl; rewrite bool_decide_true by done; [|split; [lia|]].
      * destruct Hd as [-> Hw]. split; [lia|]. intros Hrc.
        destruct (Z.leb_spec (references (blake256 v) ops) 0) as [|Hpos].
        -- split; [|done]. apply elem_of_app. right. by left.
        -- destruct (Hw Hpos) as [? ?]. split; [|done]. apply elem_of_app. by left.
      * intros _. split; [|done]. apply elem_of_app. right. by left.
    + rewrite lookup_partial_alter_ne by done. apply Hsame; [done|]. simpl.
      by rewrite bool_decide_false.
  - unfold mdb_remove. case_bool_decide as Hn.
    + apply Hsame; [done|]. simpl. rewrite bool_decide_false; [done|congruence].
    + simpl. destruct (decide (k' = k)) as [->|Hne].
      * rewrite lookup_partial_alter_eq.
        destruct (mdb_data d !! k) as [[w rc]|]; simpl in *; rewrite references_app; simpl;
          rewrite bool_decide_true by done; [|split; [lia|lia]].
        destruct Hd as [-> Hw]. split; [lia|]. intros Hrc. destruct Hw as [? ?]; [lia|].
        split; [|done]. apply elem_of_app. by left.
      * rewrite lookup_partial_alter_ne by done. apply Hsame; [done|]. simpl.
        by rewrite bool_decide_false.
Qed.

(** The memory database counts references: after any sequence of insertions and removals, in
    any order, a string is found under its hash exactly when it was inserted more often than
    its hash was removed. *)
Theorem mdb_counts_references (ops : list mdb_op) (v : bytes) :
  inserts_ok ops → MInsert v ∈ ops →
  mdb_get (foldl mdb_exec mdb_new ops) (blake256 v) =
    if (0 <? references (blake256 v) ops)%Z then Some v else None.
Proof.
  intros Hok Hv. destruct (Hok v Hv) as (_ & Hn & Hinj).
  assert (∀ k, k ≠ BLAKE_NULL_RLP →
    entry_counts ops k (mdb_data (foldl mdb_exec mdb_new ops) !! k)) as Hc.
  { clear Hv Hn Hinj. induction ops as [|o ops IH] using rev_ind; [done|].
    rewrite foldl_app. simpl. apply mdb_exec_counts; [done|]. apply IH.
    intros w Hw. destruct (Hok w) as (? & ? & Hi); [apply elem_of_app; by left|].
    repeat split; [done..|]. intros w' Hw'. apply Hi, elem_of_app. by left. }
  specialize (Hc _ Hn). unfold mdb_get. rewrite bool_decide_false by done.
  destruct (mdb_data _ !! _) as [[w rc]|]; simpl in Hc.
  - destruct Hc as [-> Hw]. destruct (Z.ltb_spec 0 (references (blake256 v) ops)); [|done].
    destruct (Hw ltac:(done)) as [Hin Heq]. by rewrite (Hinj w Hin).
  - by rewrite Hc.
Qed.
End References.

Lemma mdb_counts_references_witness :
  @mdb_get (foldl (@mdb_exec Sample.crypto) mdb_new
      [MRemove (@blake256 Sample.crypto [7]); MInsert [7]; MInsert [7]; MInsert [9]])
    (@blake256 Sample.crypto [7]) = Some [7].
Proof.
  rewrite (@mdb_counts_references Sample.crypto); [by vm_compute| |].
  - intros v Hv. repeat (apply elem_of_cons in Hv as [Hv|Hv]); simplify_eq; try by inversion Hv.
    all: split_and!; [done|by vm_compute|].
    all: intros w Hw; repeat (apply elem_of_cons in Hw as [Hw|Hw]); simplify_eq;
      [..|by inversion Hw]; intros Heq; try reflexivity; vm_compute in Heq; discriminate.
  - right. left.
Defined.
