(* ===== verification/Trie.v ===== *)
(** The Merkle trie over a hash database: util/merkle/src/triedb.rs and triedbmut.rs.  The
    recursive methods take as fuel the number of calls left, one more than the nibbles of
    the path: every call below a branch consumes at least one nibble. *)
From stdpp Require Import base list numbers.
From Stdlib Require Import NArith Lia.
From S2P Require Import Prelude Types Crypto Rlp StateCache Nibble TrieNode HashDb.

Local Open Scope N_scope.

(** * Reading: triedb.rs *)

Section Reading.
Context `{Crypto} {D : Type} `{HashDB D}.

Definition read_node (db : D) (hash : H256) : trieR (option Node) :=
  node_rlp ← ok_or (db_get db hash) (TrieError.IncompleteDatabase hash);
  decoded node_rlp.

(** [children[i as usize]] *)
Definition child_of (children : list (option H256)) (i : N) : trieR (option H256) :=
  expect (children !! N.to_nat i).

Fixpoint get_aux {Item : Type} (db : D) (query : bytes → Item) (fuel : nat) (path : NibbleSlice)
    (cur_node_hash : option H256) : trieR (option Item) :=
  match fuel with
  | O => Panic
  | S fuel =>
      match cur_node_hash with
      | None => Ok None
      | Some hash =>
          node ← read_node db hash;
          match node with
          | Some (Leaf partial value) =>
              same ← ns_eq partial path;
              Ok (if same : bool then Some (query value) else None)
          | Some (Branch partial children) =>
              below ← ns_starts_with path partial;
              if below : bool then
                i ← ns_at (ns_mid path (ns_len partial)) 0;
                child ← child_of children i;
                get_aux db query fuel (ns_mid path (ns_len partial + 1)) child
              else Ok None
          | None => Ok None
          end
      end
  end.

Definition path_fuel (path : NibbleSlice) : nat := S (N.to_nat (ns_len path)).

(** [TrieDB::try_new]: the root has to be in the database. *)
Definition try_new (db : D) (root : H256) : trieR () :=
  if db_contains db root then Ok tt else Err (TrieError.InvalidStateRoot root).

(** [Trie::get_with] of an opened trie. *)
Definition get_with {Item : Type} (db : D) (root : H256) (key : bytes) (query : bytes → Item)
  : trieR (option Item) :=
  let path := ns_new (blake256 key) in
  get_aux db query (path_fuel path) path (Some root).

(** * Writing: triedbmut.rs *)

Definition empty_children : list (option H256) := replicate 16 None.

(** The mutable state of a call: the database and [old_val]. *)
Abbreviation auxM := (stM (D * option bytes) TrieError.t).

Definition aux_read (hash : H256) : auxM (option Node) := λ s, (read_node s.1 hash, s).
Definition aux_insert (node_rlp : bytes) : auxM H256 := λ s,
  let '(hash, db) := db_insert node_rlp s.1 in (Ok hash, (db, s.2)).
Definition set_old_val (value : bytes) : auxM () := λ s, (Ok tt, (s.1, Some value)).

(** [self.db.insert(&RlpNode::encoded(node))] *)
Definition put_node (node : Node) : auxM H256 :=
  node_rlp ← lift_st (encoded node);
  aux_insert node_rlp.
Definition put_node_until (node : Node) (size : N) : auxM H256 :=
  node_rlp ← lift_st (encoded_until node size);
  aux_insert node_rlp.

(** The children of a branch with slot [i] replaced by what [f] makes of it. *)
Definition at_child (children : list (option H256)) (i : N)
    (f : option H256 → auxM (option H256)) : auxM (list (option H256)) :=
  child ← lift_st (child_of children i);
  child' ← f child;
  mret (<[N.to_nat i := child']> children).

Fixpoint insert_aux (fuel : nat) (path : NibbleSlice) (insert_value : bytes)
    (cur_node_hash : option H256) : auxM H256 :=
  match fuel with
  | O => lift_st Panic
  | S fuel =>
      let insert_below path value child :=
        h ← insert_aux fuel path value child; mret (Some h) in
      match cur_node_hash with
      | None => put_node (Leaf path insert_value)
      | Some hash =>
          node ← aux_read hash;
          match node with
          | Some (Leaf partial value) =>
              same ← lift_st (ns_eq partial path);
              if same : bool then
                hash ← put_node (Leaf path insert_value);
                _ ← set_old_val value;
                mret hash
              else
                common ← lift_st (ns_common_prefix partial path);
                let new_partial := ns_mid partial common in
                let new_path := ns_mid path common in
                i ← lift_st (ns_at new_partial 0);
                new_child ← at_child empty_children i (insert_below (ns_mid new_partial 1) value);
                j ← lift_st (ns_at new_path 0);
                new_child ← at_child new_child j (insert_below (ns_mid new_path 1) insert_value);
                put_node_until (Branch partial new_child) common
          | Some (Branch partial children) =>
              common ← lift_st (ns_common_prefix partial path);
              if common <? ns_len partial then
                let new_partial := ns_mid partial common in
                let new_path := ns_mid path common in
                b_hash ← put_node (Branch (ns_mid new_partial 1) children);
                i ← lift_st (ns_at new_partial 0);
                new_child ← at_child empty_children i (λ _, mret (Some b_hash));
                j ← lift_st (ns_at new_path 0);
                new_child ← at_child new_child j (insert_below (ns_mid new_path 1) insert_value);
                put_node_until (Branch partial new_child) common
              else
                let new_path := ns_mid path common in
                j ← lift_st (ns_at new_path 0);
                children ← at_child children j (insert_below (ns_mid new_path 1) insert_value);
                put_node (Branch partial children)
          | None => put_node (Leaf path insert_value)
          end
      end
  end.

(** Position of the first child. *)
Fixpoint first_child (children : list (option H256)) (i : N) : option (N * H256) :=
  match children with
  | [] => None
  | Some h :: _ => Some (i, h)
  | None :: children => first_child children (i + 1)
  end.

Definition count_none (children : list (option H256)) : nat :=
  length (filter (λ c, c = None) children).

(** The path of a branch, the index of its only child and the path of that child. *)
Definition join_path (partial child_partial : NibbleSlice) (index : N) : trieR NibbleSlice :=
  p ← ns_to_vec partial;
  q ← ns_to_vec child_partial;
  '(data, offset) ← ns_from_vec (p ++ index mod 256 :: q);
  Ok (ns_new_offset data offset).

(** Replaces a branch that is left with one child by that child. *)
Definition collapse (hash : H256) (partial : NibbleSlice) (children : list (option H256))
  : auxM (option H256) :=
  '(index, new_leaf_hash) ← lift_st (expect (first_child children 0));
  s ← get_st;
  node ← lift_st (node_rlp ← ok_or (db_get s.1 new_leaf_hash) (TrieError.IncompleteDatabase hash);
                  decoded node_rlp);
  match node with
  | None => lift_st (Err (TrieError.IncompleteDatabase hash))
  | Some (Leaf child_partial child_value) =>
      path ← lift_st (join_path partial child_partial index);
      new_hash ← put_node (Leaf path child_value);
      mret (Some new_hash)
  | Some (Branch child_partial children) =>
      path ← lift_st (join_path partial child_partial index);
      new_hash ← put_node (Branch path children);
      mret (Some new_hash)
  end.

Fixpoint remove_aux (fuel : nat) (path : NibbleSlice) (cur_node_hash : option H256)
  : auxM (option H256) :=
  match fuel with
  | O => lift_st Panic
  | S fuel =>
      match cur_node_hash with
      | None => mret cur_node_hash
      | Some hash =>
          node ← aux_read hash;
          match node with
          | Some (Leaf partial value) =>
              same ← lift_st (ns_eq path partial);
              if same : bool then _ ← set_old_val value; mret None
              else mret cur_node_hash
          | Some (Branch partial children) =>
              below ← lift_st (ns_starts_with path partial);
              if below : bool then
                let new_path := ns_mid path (ns_len partial) in
                i ← lift_st (ns_at new_path 0);
                children ← at_child children i (remove_aux fuel (ns_mid new_path 1));
                child ← lift_st (child_of children i);
                let rewrite_branch :=
                  new_hash ← put_node (Branch partial children);
                  mret (Some new_hash) in
                match child with
                | Some _ => rewrite_branch
                | None =>
                    match count_none children with
                    | 16%nat => mret None
                    | 15%nat => collapse hash partial children
                    | _ => rewrite_branch
                    end
                end
              else mret cur_node_hash
          | None => mret cur_node_hash
          end
      end
  end.

(** * [TrieDBMut] *)

Record TrieDBMut := { tm_db : D; tm_root : H256 }.
Abbreviation trieM := (stM TrieDBMut TrieError.t).

Definition TrieDBMut_new (db : D) : TrieDBMut := {| tm_db := db; tm_root := BLAKE_NULL_RLP |}.
Definition TrieDBMut_from_existing (db : D) (root : H256) : trieR TrieDBMut :=
  if db_contains db root then Ok {| tm_db := db; tm_root := root |}
  else Err (TrieError.InvalidStateRoot root).

Definition tm_is_empty (self : TrieDBMut) : bool := bool_decide (tm_root self = BLAKE_NULL_RLP).

Definition tm_get (key : bytes) (self : TrieDBMut) : trieR (option bytes) :=
  _ ← try_new (tm_db self) (tm_root self);
  get_with (tm_db self) (tm_root self) key id.

(** An error leaves the nodes written so far in the database and the root as it was. *)
Definition tm_insert (key value : bytes) : trieM (option bytes) := λ self,
  let path := ns_new (blake256 key) in
  match insert_aux (path_fuel path) path value (Some (tm_root self)) (tm_db self, None) with
  | (Ok root, (db, old_val)) => (Ok old_val, {| tm_db := db; tm_root := root |})
  | (Err e, (db, _)) => (Err e, {| tm_db := db; tm_root := tm_root self |})
  | (Panic, (db, _)) => (Panic, {| tm_db := db; tm_root := tm_root self |})
  end.

Definition tm_remove (key : bytes) : trieM (option bytes) := λ self,
  let path := ns_new (blake256 key) in
  match remove_aux (path_fuel path) path (Some (tm_root self)) (tm_db self, None) with
  | (Ok hash, (db, old_val)) =>
      (Ok old_val, {| tm_db := db; tm_root := default BLAKE_NULL_RLP hash |})
  | (Err e, (db, _)) => (Err e, {| tm_db := db; tm_root := tm_root self |})
  | (Panic, (db, _)) => (Panic, {| tm_db := db; tm_root := tm_root self |})
  end.
End Reading.
Arguments TrieDBMut : clear implicits.
