(* ===== verification/TrieTree.v ===== *)
(** The abstract trie: the tree that the nodes of a Merkle trie form, with its operations on
    lists of nibbles.  A tree of depth [n] stands for a map from paths of [n] nibbles to
    values; its shape is canonical, so trees with the same contents have the same nodes. *)
From stdpp Require Import base list numbers.
From Stdlib Require Import NArith Lia.
From S2P Require Import Prelude Types Crypto Rlp Nibble TrieNode.

Local Open Scope N_scope.

Inductive tree :=
| TEmpty
| TLeaf (p : bytes) (v : bytes)
| TBranch (p : bytes) (cs : N → tree).

(** * Contents *)

Fixpoint t_lookup (t : tree) (k : bytes) : option bytes :=
  match t with
  | TEmpty => None
  | TLeaf p v => if bool_decide (p = k) then Some v else None
  | TBranch p cs =>
      if bool_decide (p `prefix_of` k) then
        match drop (length p) k with
        | i :: k => t_lookup (cs i) k
        | [] => None
        end
      else None
  end.

Definition is_empty_tree (t : tree) : bool := match t with TEmpty => true | _ => false end.
Definition children_indices : list N := N.of_nat <$> seq 0 16.

(** Depth, nibbles, and at least two children below a branch. *)
Fixpoint t_wf (n : nat) (t : tree) : Prop :=
  match t with
  | TEmpty => True
  | TLeaf p v => length p = n ∧ nibbles_ok p
  | TBranch p cs =>
      (length p < n)%nat ∧ nibbles_ok p ∧
      (∀ i, t_wf (n - S (length p)) (cs i)) ∧
      (∃ i j, i ≠ j ∧ cs i ≠ TEmpty ∧ cs j ≠ TEmpty) ∧
      (∀ i, 16 ≤ i → cs i = TEmpty)
  end.

(** * Operations *)

Definition set_child (cs : N → tree) (i : N) (t : tree) : N → tree :=
  λ j, if j =? i then t else cs j.
Definition no_child : N → tree := λ _, TEmpty.

(** A branch at the point where [p] and [k] part; [mk] is what stands below [p]. *)
Definition fork (p k : bytes) (mk : bytes → tree) (v : bytes) : tree :=
  let c := cpl p k in
  match drop c p, drop c k with
  | i :: p', j :: k' =>
      TBranch (take c p) (set_child (set_child no_child i (mk p')) j (TLeaf k' v))
  | _, _ => TEmpty
  end.

Fixpoint t_insert (t : tree) (k v : bytes) : tree :=
  match t with
  | TEmpty => TLeaf k v
  | TLeaf p w => if bool_decide (p = k) then TLeaf k v else fork p k (λ q, TLeaf q w) v
  | TBranch p cs =>
      if (cpl p k <? length p)%nat then fork p k (λ q, TBranch q cs) v
      else match drop (length p) k with
           | j :: k' => TBranch p (set_child cs j (t_insert (cs j) k' v))
           | [] => t
           end
  end.

Definition prepend (q : bytes) (t : tree) : tree :=
  match t with
  | TEmpty => TEmpty
  | TLeaf p v => TLeaf (q ++ p) v
  | TBranch p cs => TBranch (q ++ p) cs
  end.

(** A branch that may have lost a child. *)
Definition shrink (p : bytes) (cs : N → tree) : tree :=
  match filter (λ i, is_empty_tree (cs i) = false) children_indices with
  | [] => TEmpty
  | [i] => prepend (p ++ [i]) (cs i)
  | _ => TBranch p cs
  end.

Fixpoint t_remove (t : tree) (k : bytes) : tree :=
  match t with
  | TEmpty => TEmpty
  | TLeaf p w => if bool_decide (k = p) then TEmpty else t
  | TBranch p cs =>
      if bool_decide (p `prefix_of` k) then
        match drop (length p) k with
        | i :: k' =>
            let cs' := set_child cs i (t_remove (cs i) k') in
            if is_empty_tree (cs' i) then shrink p cs' else TBranch p cs'
        | [] => t
        end
      else t
  end.

(** * Lemmas on contents *)

Lemma set_child_eq cs i t : set_child cs i t i = t.
Proof. unfold set_child. by rewrite N.eqb_refl. Qed.
Lemma set_child_ne cs i j t : j ≠ i → set_child cs i t j = cs j.
Proof. intros Hj. unfold set_child. by rewrite (proj2 (N.eqb_neq _ _)). Qed.

Lemma is_empty_tree_spec t : is_empty_tree t = true ↔ t = TEmpty.
Proof. by destruct t. Qed.

(** A path of the right length goes through a branch or leaves it. *)
Lemma branch_cases (p k : bytes) :
  (length p < length k)%nat →
  (∃ i k', k = p ++ i :: k' ∧ drop (length p) k = i :: k') ∨ ¬ p `prefix_of` k.
Proof.
  intros Hl. destruct (decide (p `prefix_of` k)) as [[r ->]|]; [|by right]. left.
  destruct r as [|i r]; [rewrite app_nil_r in Hl; lia|]. exists i, r.
  by rewrite drop_app_length.
Qed.

Lemma lookup_below p cs i k : t_lookup (TBranch p cs) (p ++ i :: k) = t_lookup (cs i) k.
Proof. simpl. rewrite bool_decide_true by (by eexists). by rewrite drop_app_length. Qed.

Lemma lookup_off p cs k : ¬ p `prefix_of` k → t_lookup (TBranch p cs) k = None.
Proof. intros Hk. simpl. by rewrite bool_decide_false. Qed.

Lemma lookup_leaf p v k : t_lookup (TLeaf p v) k = if bool_decide (p = k) then Some v else None.
Proof. done. Qed.

Lemma lookup_prepend q t k :
  t_lookup (prepend q t) k =
    if bool_decide (q `prefix_of` k) then t_lookup t (drop (length q) k) else None.
Proof.
  case_bool_decide as Hq.
  - destruct Hq as [r ->]. rewrite drop_app_length. destruct t as [|p v|p cs]; simpl; [done| |].
    + rewrite (bool_decide_ext (q ++ p = q ++ r) (p = r)); [done|].
      split; [by intros ?%app_inv_head|by intros ->].
    + rewrite length_app, <-drop_drop, drop_app_length.
      destruct (decide (p `prefix_of` r)) as [Hp|Hp].
      * rewrite !bool_decide_true; [done..|by apply prefix_app].
      * rewrite !bool_decide_false; [done..|by intros ?%prefix_app_inv].
  - destruct t as [|p v|p cs]; simpl; [done| |].
    + rewrite bool_decide_false; [done|]. intros <-. apply Hq. by eexists.
    + rewrite bool_decide_false; [done|]. intros Hk. apply Hq. etrans; [|done]. by eexists.
Qed.

Lemma fork_eq c x y p k mk v :
  x ≠ y →
  fork (c ++ x :: p) (c ++ y :: k) mk v =
    TBranch c (set_child (set_child no_child x (mk p)) y (TLeaf k v)).
Proof.
  intros Hxy. assert (cpl (c ++ x :: p) (c ++ y :: k) = length c) as Hc.
  { induction c as [|z c IH]; simpl; [by rewrite (proj2 (N.eqb_neq _ _))|].
    by rewrite N.eqb_refl, IH. }
  unfold fork. by rewrite Hc, !drop_app_length, take_app_length.
Qed.

(** Past a fork, both sides keep their contents. *)
Lemma lookup_fork p k mk v k' :
  (∀ q r, mk (q ++ r) = prepend q (mk r)) →
  length k' = length k → (cpl p k < length p)%nat → (cpl p k < length k)%nat →
  t_lookup (fork p k mk v) k' = if bool_decide (k' = k) then Some v else t_lookup (mk p) k'.
Proof.
  intros Hmk Hl Hp Hk. destruct (cpl_split p k Hp Hk) as (c & x & y & p1 & k1 & -> & -> & Hxy & _).
  rewrite fork_eq by done.
  replace (c ++ x :: p1) with ((c ++ [x]) ++ p1) by (by rewrite <-app_assoc).
  rewrite Hmk, lookup_prepend. rewrite length_app in Hl. simpl in Hl.
  destruct (branch_cases c k') as [(i & r & -> & _)|Hc]; [lia| |].
  - rewrite lookup_below, length_app. unfold set_child. destruct (N.eqb_spec i y) as [->|Hy].
    + rewrite lookup_leaf, (bool_decide_false (c ++ [x] `prefix_of` _)).
      * rewrite (bool_decide_ext (c ++ y :: r = _) (k1 = r)); [done|]. naive_solver.
      * rewrite <-(app_nil_r [x]). intros [r' Hr]%prefix_app_inv. naive_solver.
    + rewrite (bool_decide_false (c ++ i :: r = _)) by naive_solver.
      destruct (N.eqb_spec i x) as [->|Hx].
      * rewrite bool_decide_true by (exists r; by rewrite <-app_assoc).
        replace (c ++ x :: r) with ((c ++ [x]) ++ r) by (by rewrite <-app_assoc).
        by rewrite <-length_app, drop_app_length.
      * rewrite bool_decide_false; [done|]. intros [r' Hr]. rewrite <-app_assoc in Hr. naive_solver.
  - rewrite lookup_off by done. rewrite !bool_decide_false; [done| |].
    + intros Hx. apply Hc. etrans; [|done]. by eexists.
    + intros ->. apply Hc. by eexists.
Qed.

(** Two different paths of the same length part before their ends. *)
Lemma cpl_lt p k : length p = length k → p ≠ k → (cpl p k < length p)%nat.
Proof.
  intros Hl Hne. pose proof (cpl_le p k) as [Hp _].
  destruct (Nat.eq_dec (cpl p k) (length p)) as [Hc|]; [|lia].
  exfalso. apply Hne. rewrite Hl in Hc. apply cpl_prefix in Hc as [r ->].
  rewrite length_app in Hl. destruct r; [by rewrite app_nil_r|]. simpl in Hl. lia.
Qed.

(** A branch whose path is not left keeps its path. *)
Lemma cpl_full p k : (length p < length k)%nat → (cpl p k <? length p)%nat = false →
  ∃ i k', k = p ++ i :: k' ∧ drop (length p) k = i :: k'.
Proof.
  intros Hl Hc%Nat.ltb_ge. destruct (branch_cases p k Hl) as [|Hp]; [done|].
  exfalso. apply Hp, cpl_prefix. rewrite cpl_comm. pose proof (cpl_le p k). lia.
Qed.

Lemma t_lookup_insert n t k v k' :
  t_wf n t → length k = n → length k' = n →
  t_lookup (t_insert t k v) k' = if bool_decide (k' = k) then Some v else t_lookup t k'.
Proof.
  revert n k k'. induction t as [|p w|p cs IH]; intros n k k' Hwf Hk Hk'; simpl in Hwf.
  - simpl. by rewrite (bool_decide_ext (k = k') (k' = k)).
  - destruct Hwf as [Hp _]. simpl. case_bool_decide as Hpk; subst.
    + simpl. rewrite (bool_decide_ext (k = k') (k' = k)) by done.
      by case_bool_decide.
    + pose proof (cpl_lt p k ltac:(lia) Hpk). by apply (lookup_fork p k (λ q, TLeaf q w)); [|lia..].
  - destruct Hwf as (Hp & _ & Hcs & _). cbn [t_insert]. pose proof (cpl_le p k).
    destruct (Nat.ltb (cpl p k) (length p)) eqn:Hc.
    + apply Nat.ltb_lt in Hc. by apply (lookup_fork p k (λ q, TBranch q cs)); [|lia..].
    + destruct (cpl_full p k ltac:(lia) Hc) as (i & r & -> & ->). rewrite length_app in Hk.
      simpl in Hk. destruct (branch_cases p k' ltac:(lia)) as [(j & r' & -> & _)|Hoff].
      * rewrite !lookup_below. unfold set_child. rewrite length_app in Hk'. simpl in Hk'.
        destruct (N.eqb_spec j i) as [->|Hj].
        -- rewrite (IH i _ _ _ (Hcs i)) by lia.
           by rewrite (bool_decide_ext (p ++ i :: r' = p ++ i :: r) (r' = r)) by naive_solver.
        -- rewrite bool_decide_false by naive_solver. done.
      * rewrite !lookup_off by done. rewrite bool_decide_false; [done|].
        intros ->. apply Hoff. by eexists.
Qed.

Lemma nibble_app_inv (l k : bytes) : nibbles_ok (l ++ k) → nibbles_ok l ∧ nibbles_ok k.
Proof. apply Forall_app. Qed.

Lemma t_wf_leaf n p v : t_wf n (TLeaf p v) ↔ length p = n ∧ nibbles_ok p.
Proof. done. Qed.

Lemma t_wf_fork n p k mk v :
  length k = n → nibbles_ok p → nibbles_ok k →
  (cpl p k < length p)%nat → (cpl p k < length k)%nat →
  (∀ q r, p = q ++ r → r ≠ [] → t_wf (n - S (length q)) (mk (tail r)) ∧ mk (tail r) ≠ TEmpty) →
  t_wf n (fork p k mk v).
Proof.
  intros Hn Hpn Hkn Hp Hk Hmk.
  destruct (cpl_split p k Hp Hk) as (c & x & y & p1 & k1 & -> & -> & Hxy & _).
  rewrite fork_eq by done. specialize (Hmk c (x :: p1) eq_refl ltac:(done)) as [Hw Hne]. simpl in Hw, Hne.
  apply nibble_app_inv in Hpn as [Hc Hx]. apply nibble_app_inv in Hkn as [_ Hy].
  apply Forall_cons_1 in Hx as [Hx _]. apply Forall_cons_1 in Hy as [Hy Hk1].
  unfold is_nibble in Hx, Hy. rewrite length_app in Hn. simpl in Hn.
  cbn [t_wf]. split_and!; [lia|done| | |].
  - intros i. unfold set_child. destruct (i =? y); [split; [lia|done]|]. by destruct (i =? x).
  - exists x, y. rewrite set_child_eq, set_child_ne, set_child_eq; done.
  - intros i Hi. rewrite !set_child_ne by lia. done.
Qed.

Lemma t_insert_not_empty n t k v : t_wf n t → length k = n → t_insert t k v ≠ TEmpty.
Proof.
  destruct t as [|p w|p cs]; simpl; intros Hwf Hk; [done| |].
  - case_bool_decide; [done|]. destruct Hwf as [Hp _].
    pose proof (cpl_lt p k ltac:(lia) ltac:(done)) as Hc.
    destruct (cpl_split p k Hc ltac:(lia)) as (c & x & y & p1 & k1 & -> & -> & Hxy & _).
    by rewrite fork_eq.
  - destruct Hwf as (Hp & _). destruct (Nat.ltb (cpl p k) (length p)) eqn:Hc.
    + apply Nat.ltb_lt in Hc.
      destruct (cpl_split p k Hc ltac:(lia)) as (c & x & y & p1 & k1 & -> & -> & Hxy & _).
      by rewrite fork_eq.
    + destruct (cpl_full p k ltac:(lia) Hc) as (i & r & _ & ->). done.
Qed.

Lemma t_wf_insert n t k v :
  t_wf n t → length k = n → nibbles_ok k → t_wf n (t_insert t k v).
Proof.
  revert n k. induction t as [|p w|p cs IH]; intros n k Hwf Hk Hkn.
  - done.
  - destruct Hwf as [Hp Hpn]. simpl. case_bool_decide as Hpk; [done|].
    pose proof (cpl_lt p k ltac:(lia) Hpk).
    apply (t_wf_fork n p k (λ q, TLeaf q w)); [done..|lia|lia|].
    intros q [|x r] -> ?; [done|]. apply nibble_app_inv in Hpn as [_ Hr].
    apply Forall_cons_1 in Hr as [_ Hr]. rewrite length_app in Hp. simpl in *.
    split; [split; [lia|done]|done].
  - destruct Hwf as (Hp & Hpn & Hcs & Htwo & Hout). cbn [t_insert]. pose proof (cpl_le p k).
    destruct (Nat.ltb (cpl p k) (length p)) eqn:Hc.
    + apply Nat.ltb_lt in Hc. apply (t_wf_fork n p k (λ q, TBranch q cs)); [done..|lia|].
      intros q [|x r] -> ?; [done|]. apply nibble_app_inv in Hpn as [_ Hr].
      apply Forall_cons_1 in Hr as [_ Hr]. rewrite length_app in *. simpl in *.
      split; [|done]. split_and!; [lia|done| |done|done]. intros i.
      replace (n - S (length q) - S (length r))%nat with (n - S (length q + S (length r)))%nat by lia.
      done.
    + destruct (cpl_full p k ltac:(lia) Hc) as (i & r & -> & ->). rewrite length_app in Hk.
      simpl in Hk. apply nibble_app_inv in Hkn as [_ Hir]. apply Forall_cons_1 in Hir as [Hi Hr].
      cbn [t_wf]. split_and!; [done|done| | |].
      * intros j. unfold set_child. destruct (N.eqb_spec j i) as [->|]; [|done].
        apply IH; [done|lia|done].
      * destruct Htwo as (a & b & Hab & Ha & Hb). exists a, b.
        assert (t_insert (cs i) r v ≠ TEmpty) by (eapply t_insert_not_empty; [done|lia]).
        unfold set_child. split; [done|]. by destruct (a =? i), (b =? i).
      * intros j Hj. unfold is_nibble in Hi. rewrite set_child_ne by lia. auto.
Qed.

(** ** Removal *)

Lemma children_indices_elem i : i ∈ children_indices ↔ i < 16.
Proof.
  unfold children_indices. rewrite list_elem_of_fmap. split.
  - intros (j & -> & Hj%elem_of_seq). lia.
  - intros Hi. exists (N.to_nat i). rewrite elem_of_seq. lia.
Qed.

Lemma occupied_elem cs i :
  (∀ j, 16 ≤ j → cs j = TEmpty) →
  i ∈ filter (λ i, is_empty_tree (cs i) = false) children_indices ↔ cs i ≠ TEmpty.
Proof.
  intros Hout. rewrite list_elem_of_filter, children_indices_elem. split.
  - intros [Hi _] Hc. by rewrite Hc in Hi.
  - intros Hi. split; [by destruct (cs i)|]. destruct (N.lt_ge_cases i 16); [done|].
    exfalso. by apply Hi, Hout.
Qed.

Lemma occupied_nodup cs :
  NoDup (filter (λ i, is_empty_tree (cs i) = false) children_indices).
Proof.
  apply list.NoDup_filter. unfold children_indices. apply (list.NoDup_fmap_2 N.of_nat), list.NoDup_seq.
Qed.

Lemma t_lookup_shrink p cs k :
  (∀ j, 16 ≤ j → cs j = TEmpty) → (length p < length k)%nat →
  t_lookup (shrink p cs) k = t_lookup (TBranch p cs) k.
Proof.
  intros Hout Hl. pose proof (occupied_elem cs) as Hel. unfold shrink.
  destruct (filter _ children_indices) as [|i [|j l]]; [| |done].
  - destruct (branch_cases p k Hl) as [(i & r & -> & _)|Hoff]; [|by rewrite lookup_off].
    rewrite lookup_below. destruct (is_empty_tree (cs i)) eqn:He.
    { apply is_empty_tree_spec in He as ->. done. }
    assert (cs i ≠ TEmpty) as Hi by (by destruct (cs i)).
    apply (Hel i Hout) in Hi. by apply elem_of_nil in Hi.
  - rewrite lookup_prepend. destruct (branch_cases p k Hl) as [(j & r & -> & _)|Hoff].
    + rewrite lookup_below. destruct (decide (j = i)) as [->|Hne].
      * replace (p ++ i :: r) with ((p ++ [i]) ++ r) by (by rewrite <-app_assoc).
        rewrite bool_decide_true by (by eexists). by rewrite drop_app_length.
      * rewrite bool_decide_false.
        -- assert (¬ (cs j ≠ TEmpty)) as Hj.
           { rewrite <-(Hel j Hout), list_elem_of_singleton. done. }
           destruct (cs j); [done|..]; exfalso; by apply Hj.
        -- intros [r' Hr]. rewrite <-app_assoc in Hr. naive_solver.
    + rewrite lookup_off by done. rewrite bool_decide_false; [done|].
      intros Hx. apply Hoff. etrans; [|done]. by eexists.
Qed.

Lemma t_wf_prepend n q t : t_wf n t → nibbles_ok q → t_wf (length q + n) (prepend q t).
Proof.
  destruct t as [|p v|p cs]; simpl; [done| |].
  - intros [Hp Hn] Hq. rewrite length_app. split; [lia|]. by apply Forall_app.
  - intros (Hp & Hn & Hcs & Htwo & Hout) Hq. rewrite length_app.
    split_and!; [lia|by apply Forall_app| |done|done]. intros i.
    by replace (length q + n - S (length q + length p))%nat with (n - S (length p))%nat by lia.
Qed.

Lemma t_wf_shrink n p cs :
  (length p < n)%nat → nibbles_ok p → (∀ i, t_wf (n - S (length p)) (cs i)) →
  (∀ i, 16 ≤ i → cs i = TEmpty) → t_wf n (shrink p cs).
Proof.
  intros Hp Hn Hcs Hout. pose proof (occupied_elem cs) as Hel. pose proof (occupied_nodup cs) as Hnd.
  unfold shrink. destruct (filter _ children_indices) as [|i [|j l]] eqn:Ef; [done| |].
  - assert (i < 16).
    { apply children_indices_elem. apply (list_elem_of_filter (λ i, is_empty_tree (cs i) = false)).
      rewrite Ef. by left. }
    replace n with (length (p ++ [i]) + (n - S (length p)))%nat by (rewrite length_app; simpl; lia).
    apply t_wf_prepend; [done|]. apply Forall_app. split; [done|]. by constructor.
  - split_and!; [done..| |done]. exists i, j. rewrite <-!(Hel _ Hout).
    apply list.NoDup_cons in Hnd as [Hi _]. split; [|split; [by left|right; by left]].
    intros ->. apply Hi. by left.
Qed.

Lemma t_lookup_remove n t k k' :
  t_wf n t → length k = n → length k' = n → nibbles_ok k →
  t_lookup (t_remove t k) k' = if bool_decide (k' = k) then None else t_lookup t k'.
Proof.
  revert n k k'. induction t as [|p w|p cs IH]; intros n k k' Hwf Hk Hk' Hkn; simpl in Hwf.
  - simpl. by case_bool_decide.
  - simpl. case_bool_decide as Hpk; subst; simpl.
    + rewrite (bool_decide_ext (p = k') (k' = p)) by done. by case_bool_decide.
    + case_bool_decide; subst; [|by case_bool_decide]. by rewrite bool_decide_false.
  - destruct Hwf as (Hp & _ & Hcs & _ & Hout). cbn [t_remove].
    destruct (branch_cases p k ltac:(lia)) as [(i & r & -> & ->)|Hoff].
    + rewrite bool_decide_true by (by eexists). cbv zeta.
      rewrite length_app in Hk. simpl in Hk. apply nibble_app_inv in Hkn as [_ Hir].
      apply Forall_cons_1 in Hir as [Hi Hr]. unfold is_nibble in Hi.
      set (cs' := set_child cs i (t_remove (cs i) r)).
      assert (t_lookup (if is_empty_tree (cs' i) then shrink p cs' else TBranch p cs') k' =
              t_lookup (TBranch p cs') k') as ->.
      { destruct (is_empty_tree _); [|done]. apply t_lookup_shrink; [|lia].
        intros j Hj. unfold cs'. rewrite set_child_ne by lia. auto. }
      destruct (branch_cases p k' ltac:(lia)) as [(j & r' & -> & _)|Hoff'].
      * rewrite !lookup_below. rewrite length_app in Hk'. simpl in Hk'. unfold cs', set_child.
        destruct (N.eqb_spec j i) as [->|Hj].
        -- rewrite (IH i _ _ _ (Hcs i)) by (done || lia).
           by rewrite (bool_decide_ext (p ++ i :: r' = p ++ i :: r) (r' = r)) by naive_solver.
        -- by rewrite bool_decide_false by naive_solver.
      * rewrite !lookup_off by done. by case_bool_decide.
    + rewrite bool_decide_false by done. case_bool_decide; subst; [|done].
      by apply lookup_off.
Qed.

Lemma t_wf_remove n t k : t_wf n t → length k = n → nibbles_ok k → t_wf n (t_remove t k).
Proof.
  revert n k. induction t as [|p w|p cs IH]; intros n k Hwf Hk Hkn; [done| |].
  - simpl. by case_bool_decide.
  - pose proof Hwf as (Hp & Hn & Hcs & Htwo & Hout). cbn [t_remove].
    destruct (branch_cases p k ltac:(lia)) as [(i & r & -> & ->)|Hoff];
      [|by rewrite bool_decide_false].
    rewrite bool_decide_true by (by eexists). cbv zeta. set (cs' := set_child _ _ _).
    rewrite length_app in Hk. simpl in Hk. apply nibble_app_inv in Hkn as [_ Hir].
    apply Forall_cons_1 in Hir as [Hi Hr]. unfold is_nibble in Hi.
    assert (∀ j, t_wf (n - S (length p)) (cs' j)) as Hcs'.
    { intros j. unfold cs', set_child. destruct (j =? i); [|done]. apply IH; [done|lia|done]. }
    assert (∀ j, 16 ≤ j → cs' j = TEmpty) as Hout'.
    { intros j Hj. unfold cs'. rewrite set_child_ne by lia. auto. }
    destruct (is_empty_tree (cs' i)) eqn:He; [by apply t_wf_shrink|].
    split_and!; [done..| |done].
    destruct Htwo as (a & b & Hab & Ha & Hb). exists a, b. split; [done|].
    assert (cs' i ≠ TEmpty) as Hi' by (by destruct (cs' i)).
    assert (∀ j, cs j ≠ TEmpty → cs' j ≠ TEmpty) as Hkeep; [|by auto].
    intros j Hj. destruct (decide (j = i)) as [->|]; [done|]. unfold cs'.
    by rewrite set_child_ne.
Qed.

(** * The shape is canonical *)

(** Equality of trees, child by child. *)
Fixpoint teq (t1 t2 : tree) : Prop :=
  match t1, t2 with
  | TEmpty, TEmpty => True
  | TLeaf p v, TLeaf q w => p = q ∧ v = w
  | TBranch p cs, TBranch q ds => p = q ∧ ∀ i, teq (cs i) (ds i)
  | _, _ => False
  end.

#[export] Instance teq_equivalence : Equivalence teq.
Proof.
  split.
  - intros t. induction t; simpl; auto.
  - intros t. induction t as [| |p cs IH]; intros [] H; simpl in *; naive_solver.
  - intros t. induction t as [| |p cs IH]; intros [] [] H1 H2; simpl in *; naive_solver.
Qed.

Lemma t_inhabited n t :
  t_wf n t → t ≠ TEmpty → ∃ k v, length k = n ∧ nibbles_ok k ∧ t_lookup t k = Some v.
Proof.
  revert n. induction t as [|p v|p cs IH]; intros n Hwf Hne; [done| |].
  - destruct Hwf as [Hp Hn]. exists p, v. split_and!; [done..|]. simpl. by rewrite bool_decide_true.
  - destruct Hwf as (Hp & Hn & Hcs & (i & _ & _ & Hi & _) & Hout).
    destruct (IH i _ (Hcs i) Hi) as (k & v & Hk & Hkn & Hv).
    exists (p ++ i :: k), v. rewrite lookup_below, length_app. simpl. split_and!; [lia| |done].
    apply Forall_app. split; [done|]. constructor; [|done].
    destruct (N.lt_ge_cases i 16); [done|]. by rewrite Hout in Hi.
Qed.

(** Below a branch there are two paths that part right after its own. *)
Lemma branch_two n p cs :
  t_wf n (TBranch p cs) →
  ∃ i j k l v w, i ≠ j ∧ length (p ++ i :: k) = n ∧ length (p ++ j :: l) = n ∧
    nibbles_ok (p ++ i :: k) ∧ nibbles_ok (p ++ j :: l) ∧
    t_lookup (TBranch p cs) (p ++ i :: k) = Some v ∧ t_lookup (TBranch p cs) (p ++ j :: l) = Some w.
Proof.
  intros (Hp & Hn & Hcs & (i & j & Hij & Hi & Hj) & Hout).
  destruct (t_inhabited _ _ (Hcs i) Hi) as (k & v & Hk & Hkn & Hv).
  destruct (t_inhabited _ _ (Hcs j) Hj) as (l & w & Hl & Hln & Hw).
  assert (∀ a, cs a ≠ TEmpty → is_nibble a) as Hnib.
  { intros a Ha. destruct (N.lt_ge_cases a 16); [done|]. by rewrite Hout in Ha. }
  exists i, j, k, l, v, w. rewrite !lookup_below, !length_app. simpl.
  split_and!; try done; try lia; apply Forall_app; split; try done; constructor; auto.
Qed.

Lemma lookup_prefix p cs k v : t_lookup (TBranch p cs) k = Some v → p `prefix_of` k.
Proof. simpl. by case_bool_decide. Qed.

(** The path of a branch is the longest prefix of all its keys. *)
Lemma branch_path_le n p q cs ds :
  t_wf n (TBranch p cs) →
  (∀ k, length k = n → nibbles_ok k → t_lookup (TBranch p cs) k = t_lookup (TBranch q ds) k) →
  (length q ≤ length p)%nat.
Proof.
  intros Hwf Heq. destruct (branch_two n p cs Hwf) as
    (i & j & k & l & v & w & Hij & Hk & Hl & Hkn & Hln & Hv & Hw).
  rewrite Heq in Hv, Hw by done. apply lookup_prefix in Hv as [r Hr], Hw as [r' Hr'].
  destruct (Nat.le_gt_cases (length q) (length p)) as [|Hlt]; [done|].
  assert (q !! length p = Some i) as Hqi.
  { rewrite <-(lookup_app_l q r) by done. rewrite <-Hr.
    by rewrite lookup_app_r, Nat.sub_diag by done. }
  assert (q !! length p = Some j) as Hqj; [|congruence].
  rewrite <-(lookup_app_l q r') by done. rewrite <-Hr'.
  by rewrite lookup_app_r, Nat.sub_diag by done.
Qed.

Definition same_contents (n : nat) (t1 t2 : tree) : Prop :=
  ∀ k, length k = n → nibbles_ok k → t_lookup t1 k = t_lookup t2 k.

Lemma not_empty n t : t_wf n t → same_contents n TEmpty t → t = TEmpty.
Proof.
  intros Hwf Heq. destruct (is_empty_tree t) eqn:He; [by apply is_empty_tree_spec|].
  assert (t ≠ TEmpty) as Hne by (by destruct t).
  destruct (t_inhabited n t Hwf Hne) as (k & v & Hk & Hkn & Hv). by rewrite <-Heq in Hv.
Qed.

Lemma leaf_not_branch n p v q ds : t_wf n (TBranch q ds) → ¬ same_contents n (TLeaf p v) (TBranch q ds).
Proof.
  intros Hwf Heq. destruct (branch_two n q ds Hwf) as
    (i & j & k & l & v1 & w1 & Hij & Hk & Hl & Hkn & Hln & Hv & Hw).
  rewrite <-Heq in Hv, Hw by done. simpl in Hv, Hw.
  case_bool_decide; [|done]. case_bool_decide; [|done]. naive_solver.
Qed.

Lemma branch_same n p q cs ds :
  t_wf n (TBranch p cs) → t_wf n (TBranch q ds) → same_contents n (TBranch p cs) (TBranch q ds) →
  p = q ∧ ∀ i, i < 16 → same_contents (n - S (length p)) (cs i) (ds i).
Proof.
  intros H1 H2 Heq. assert (p = q) as ->.
  { assert (length p = length q) as Hl.
    { apply Nat.le_antisymm; [by eapply (branch_path_le n q p ds cs); [|intros; symmetry; apply Heq]|].
      by eapply (branch_path_le n p q cs ds). }
    destruct (branch_two n p cs H1) as (i & j & k & l & v & w & Hij & Hk & _ & Hkn & _ & Hv & _).
    rewrite Heq in Hv by done. apply lookup_prefix in Hv as [r Hr].
    by apply app_inj_1 in Hr as [? _]. }
  split; [done|]. intros i Hi k Hk Hkn. destruct H1 as (Hp & Hn & _).
  rewrite <-(lookup_below q cs), <-(lookup_below q ds). apply Heq.
  - rewrite length_app. simpl. lia.
  - apply Forall_app. split; [done|]. by constructor.
Qed.

Lemma t_canonical n t1 t2 : t_wf n t1 → t_wf n t2 → same_contents n t1 t2 → teq t1 t2.
Proof.
  revert n t2. induction t1 as [|p v|p cs IH]; intros n t2 H1 H2 Heq.
  - by rewrite (not_empty n t2 H2 Heq).
  - destruct t2 as [|q w|q ds].
    + by rewrite (not_empty n _ H1) by (intros ? ? ?; symmetry; by apply Heq).
    + destruct H1 as [Hp Hpn]. specialize (Heq p Hp Hpn). simpl in Heq.
      rewrite bool_decide_true in Heq by done. case_bool_decide; naive_solver.
    + by apply leaf_not_branch in Heq.
  - destruct t2 as [|q w|q ds].
    + pose proof (not_empty n _ H1) as Hne. discriminate Hne. intros ? ? ?. symmetry. by apply Heq.
    + exfalso. apply (leaf_not_branch n q w p cs H1). intros ? ? ?. symmetry. by apply Heq.
    + destruct (branch_same n p q cs ds H1 H2 Heq) as [-> Hcs]. split; [done|].
      destruct H1 as (_ & _ & Hw1 & _ & Ho1), H2 as (_ & _ & Hw2 & _ & Ho2).
      intros i. destruct (N.lt_ge_cases i 16) as [Hi|Hi]; [|by rewrite Ho1, Ho2].
      by eapply IH; [| |apply Hcs].
Qed.

(** * The nodes of a tree *)

Section Hashes.
Context `{Crypto}.

Fixpoint hash_of (t : tree) : option H256 :=
  match t with
  | TEmpty => None
  | TLeaf p v => Some (blake256 (enc (leaf_item p v)))
  | TBranch p cs =>
      Some (blake256 (enc (branch_item p ((λ i, hash_of (cs i)) <$> children_indices))))
  end.

Definition child_hashes (cs : N → tree) : list (option H256) :=
  (λ i, hash_of (cs i)) <$> children_indices.

Definition node_item (t : tree) : rlp_item :=
  match t with
  | TEmpty => Data []
  | TLeaf p v => leaf_item p v
  | TBranch p cs => branch_item p (child_hashes cs)
  end.

(** Every node of the tree. *)
Fixpoint items (t : tree) : list rlp_item :=
  match t with
  | TEmpty => []
  | TLeaf p v => [leaf_item p v]
  | TBranch p cs =>
      branch_item p (child_hashes cs) :: mjoin ((λ i, items (cs i)) <$> children_indices)
  end.

(** The root the node keeps for a tree. *)
Definition root_of (t : tree) : H256 := default BLAKE_NULL_RLP (hash_of t).

#[export] Instance hash_of_proper : Proper (teq ==> eq) hash_of.
Proof.
  intros t1. induction t1 as [| |p cs IH]; intros [] Heq; cbn [hash_of teq] in *; try done.
  - by destruct Heq as [-> ->].
  - destruct Heq as [-> Heq].
    rewrite (list_fmap_ext (λ i, hash_of (cs i)) (λ i, hash_of (cs0 i))); [done|].
    intros _ i _. by apply IH.
Qed.

#[export] Instance root_of_proper : Proper (teq ==> eq) root_of.
Proof. intros t1 t2 Heq. unfold root_of. by rewrite Heq. Qed.

Lemma hash_of_node t : t ≠ TEmpty → hash_of t = Some (blake256 (enc (node_item t))).
Proof. by destruct t. Qed.

Lemma items_node t : t ≠ TEmpty → node_item t ∈ items t.
Proof. destruct t; [done|by left|by left]. Qed.

Lemma items_child p cs i x : i < 16 → x ∈ items (cs i) → x ∈ items (TBranch p cs).
Proof.
  intros Hi Hx. cbn [items]. apply elem_of_cons. right. apply list_elem_of_join. exists (items (cs i)).
  split; [done|]. apply (list_elem_of_fmap_2 (λ i, items (cs i))). by apply children_indices_elem.
Qed.

Lemma child_hashes_lookup cs i : i < 16 → child_hashes cs !! N.to_nat i = Some (hash_of (cs i)).
Proof.
  intros Hi. unfold child_hashes, children_indices. rewrite !list_lookup_fmap, lookup_seq_lt by lia.
  simpl. by rewrite N2Nat.id.
Qed.

Lemma child_hashes_length cs : length (child_hashes cs) = 16%nat.
Proof. done. Qed.

Lemma child_hashes_set cs i t :
  i < 16 → <[N.to_nat i := hash_of t]> (child_hashes cs) = child_hashes (set_child cs i t).
Proof.
  intros Hi. apply list_eq. intros j. destruct (decide (j < 16)%nat) as [Hj|Hj].
  - rewrite <-(Nat2N.id j), (child_hashes_lookup (set_child cs i t)) by lia.
    unfold set_child. destruct (N.eqb_spec (N.of_nat j) i) as [<-|Hne].
    + rewrite list_lookup_insert_eq; [done|]. rewrite child_hashes_length. lia.
    + rewrite list_lookup_insert_ne by lia. by rewrite child_hashes_lookup by lia.
  - rewrite !lookup_ge_None_2; [done| |]; rewrite ?length_insert, child_hashes_length; lia.
Qed.

Lemma child_hashes_none : child_hashes no_child = replicate 16 None.
Proof. done. Qed.
End Hashes.
