(* ===== verification/TrieRefine.v ===== *)
(** The trie of Trie.v implements the abstract trie of TrieTree.v: as long as no two nodes
    collide, [insert], [remove] and [get] act on the stored tree as [t_insert], [t_remove]
    and [t_lookup] do, and nothing that was stored is lost. *)
From stdpp Require Import base list numbers.
From Stdlib Require Import NArith Lia.
From S2P Require Import Prelude Types Crypto Rlp StateCache Nibble TrieNode HashDb Trie TrieTree.

Local Open Scope N_scope.

Lemma bind_run {S E A B} (m : stM S E A) (f : A → stM S E B) s a s' :
  m s = (Ok a, s') → (m ≫= f) s = f a s'.
Proof. intros Hm. unfold mbind, stM_bind. by rewrite Hm. Qed.

Lemma bind_lift {S E A B} (r : result E A) (f : A → stM S E B) s a :
  r = Ok a → (lift_st r ≫= f) s = f a s.
Proof. by intros ->. Qed.

(** [run_tac H] runs the next call of a computation with the equation [H]. *)
Ltac run_tac H := first [rewrite (bind_run _ _ _ _ _ H) | rewrite (bind_lift _ _ _ _ H)].

Section Refine.
Context `{CryptoLaws} {D : Type} `{HD : HashDB D} `{!HashDBLaws D}.

(** Every node of the tree is in the database under its hash. *)
Definition stored (db : D) (t : tree) : Prop :=
  ∀ i, i ∈ items t → fits i ∧ blake256 (enc i) ≠ BLAKE_NULL_RLP ∧
    db_get db (blake256 (enc i)) = Some (enc i).

(** The nodes of [l] can be written: they fit, and none has the hash of another string. *)
Definition no_collision (db : D) (l : list rlp_item) : Prop :=
  ∀ i, i ∈ l → fits i ∧ blake256 (enc i) ≠ BLAKE_NULL_RLP ∧
    (∀ v, db_get db (blake256 (enc i)) = Some v → v = enc i) ∧
    ∀ j, j ∈ l → blake256 (enc i) = blake256 (enc j) → enc i = enc j.

Definition grows (l : list rlp_item) (db db' : D) : Prop :=
  db_ok db' ∧ no_collision db' l ∧ ∀ k v, db_get db k = Some v → db_get db' k = Some v.

Lemma grows_trans l db1 db2 db3 : grows l db1 db2 → grows l db2 db3 → grows l db1 db3.
Proof. intros (_ & _ & H12) (? & ? & H23). split_and!; auto. Qed.

Lemma grows_refl l db : db_ok db → no_collision db l → grows l db db.
Proof. done. Qed.

Lemma stored_grows l db db' t : grows l db db' → stored db t → stored db' t.
Proof. intros (_ & _ & Hg) Hs i Hi. destruct (Hs i Hi) as (? & ? & ?). auto. Qed.

Lemma stored_leaf db p v :
  stored db (TLeaf p v) ↔ let i := leaf_item p v in
  fits i ∧ blake256 (enc i) ≠ BLAKE_NULL_RLP ∧ db_get db (blake256 (enc i)) = Some (enc i).
Proof.
  split; [intros Hs; by apply Hs, list_elem_of_singleton|].
  intros Hi i Hin. apply list_elem_of_singleton in Hin as ->. done.
Qed.

Lemma stored_branch db p cs :
  stored db (TBranch p cs) ↔ (let i := branch_item p (child_hashes cs) in
  fits i ∧ blake256 (enc i) ≠ BLAKE_NULL_RLP ∧ db_get db (blake256 (enc i)) = Some (enc i)) ∧
  ∀ i, i < 16 → stored db (cs i).
Proof.
  split.
  - intros Hs. split; [apply Hs; by left|]. intros i Hi x Hx. apply Hs. by eapply items_child.
  - intros [Hb Hcs] x Hx. cbn [items] in Hx. apply elem_of_cons in Hx as [->|Hx]; [done|].
    apply list_elem_of_join in Hx as (l & Hx & (i & -> & Hi)%list_elem_of_fmap).
    eapply Hcs; [by apply children_indices_elem|done].
Qed.

(** ** Writing one node *)

Definition is_node (i : rlp_item) : Prop := match i with List _ => True | Data _ => False end.

Lemma enc_node_not_null i : is_node i → enc i ≠ NULL_RLP.
Proof.
  destruct i as [|l]; [done|]. intros _.
  intros Hn. pose proof (is_list_enc l []) as Hl. rewrite app_nil_r, Hn in Hl. done.
Qed.

Lemma aux_insert_run l db old i :
  db_ok db → no_collision db l → is_node i → i ∈ l →
  ∃ db', aux_insert (enc i) (db, old) = (Ok (blake256 (enc i)), (db', old)) ∧
    grows l db db' ∧ db_get db' (blake256 (enc i)) = Some (enc i).
Proof.
  intros Hok Hnc Hnode Hin. set (e := enc i) in *. pose proof (enc_node_not_null i Hnode) as Hne.
  fold e in Hne. destruct (Hnc _ Hin) as (_ & Hnull & Hsame & Hinj). fold e in Hnull, Hsame, Hinj.
  unfold aux_insert. cbn [fst snd]. pose proof (db_insert_hash e db Hne) as Hh.
  pose proof (db_insert_ok e db Hok) as Hok'. pose proof (db_insert_other e db) as Hoth.
  assert (db_get db (blake256 e) = None ∨ db_get db (blake256 e) = Some e) as Hpre.
  { destruct (db_get db (blake256 e)) as [v|] eqn:E; [right|by left]. by rewrite (Hsame v). }
  pose proof (db_insert_same e db Hne Hok Hnull Hpre) as Hnew.
  destruct (db_insert e db) as [h db']. cbn [fst snd] in *. subst h.
  exists db'. split; [done|]. split; [|done]. split_and!; [done| |].
  - intros j Hj. destruct (Hnc j Hj) as (? & ? & Hi2 & Hi3). split_and!; [done..| |done].
    intros v Hv. destruct (decide (blake256 (enc j) = blake256 e)) as [Heq|Hneq].
    + rewrite Heq, Hnew in Hv. simplify_eq. symmetry. by apply (Hi3 i).
    + rewrite Hoth in Hv by done. auto.
  - intros k v Hv. destruct (decide (k = blake256 e)) as [->|Hk]; [|by rewrite Hoth].
    rewrite Hnew. by rewrite (Hsame v).
Qed.

Lemma put_leaf_run l db old path p v :
  slice path p → db_ok db → no_collision db l → leaf_item p v ∈ l →
  ∃ db', put_node (Leaf path v) (db, old) = (Ok (blake256 (enc (leaf_item p v))), (db', old)) ∧
    grows l db db' ∧ stored db' (TLeaf p v).
Proof.
  intros Hp Hok Hnc Hin. destruct (Hnc _ Hin) as (Hf & Hnull & _). unfold put_node.
  assert (encoded (Leaf path v) = Ok (enc (leaf_item p v))) as He.
  { unfold encoded. rewrite (slice_encoded _ p) by done. rewrite Ok_bind. by apply leaf_rlp_item. }
  run_tac He. edestruct (aux_insert_run l db old) as (db' & Hr & Hg & Hget); [done|done| |exact Hin|]; [done|].
  exists db'. rewrite Hr. split_and!; [done..|]. by apply stored_leaf.
Qed.

Lemma branch_encoded path p q cs n :
  slice path q → p = take (N.to_nat n) q → fits (branch_item p (child_hashes cs)) →
  encoded_until (Branch path (child_hashes cs)) n = Ok (enc (branch_item p (child_hashes cs))).
Proof.
  intros Hs -> Hf. unfold encoded_until. rewrite (slice_encoded_leftmost _ q) by done.
  rewrite Ok_bind. by apply branch_rlp_item.
Qed.

Lemma put_branch_run l db old path p cs :
  slice path p → db_ok db → no_collision db l → branch_item p (child_hashes cs) ∈ l →
  (∀ i, i < 16 → stored db (cs i)) →
  ∃ db', put_node (Branch path (child_hashes cs)) (db, old) =
           (Ok (blake256 (enc (branch_item p (child_hashes cs)))), (db', old)) ∧
    grows l db db' ∧ stored db' (TBranch p cs).
Proof.
  intros Hp Hok Hnc Hin Hcs. destruct (Hnc _ Hin) as (Hf & Hnull & _). unfold put_node.
  assert (encoded (Branch path (child_hashes cs)) = Ok (enc (branch_item p (child_hashes cs)))) as He.
  { unfold encoded. rewrite (slice_encoded _ p) by done. rewrite Ok_bind. by apply branch_rlp_item. }
  run_tac He. edestruct (aux_insert_run l db old) as (db' & Hr & Hg & Hget); [done|done| |exact Hin|]; [done|].
  exists db'. rewrite Hr. split_and!; [done..|]. apply stored_branch. split; [done|].
  intros i Hi. by eapply stored_grows, Hcs.
Qed.

Lemma put_until_run l db old path q n cs :
  slice path q → db_ok db → no_collision db l →
  let p := take (N.to_nat n) q in branch_item p (child_hashes cs) ∈ l →
  (∀ i, i < 16 → stored db (cs i)) →
  ∃ db', put_node_until (Branch path (child_hashes cs)) n (db, old) =
           (Ok (blake256 (enc (branch_item p (child_hashes cs)))), (db', old)) ∧
    grows l db db' ∧ stored db' (TBranch p cs).
Proof.
  intros Hp Hok Hnc p Hin Hcs. destruct (Hnc _ Hin) as (Hf & Hnull & _). unfold put_node_until.
  run_tac (branch_encoded path p q cs n Hp eq_refl Hf).
  edestruct (aux_insert_run l db old) as (db' & Hr & Hg & Hget); [done|done| |exact Hin|]; [done|].
  exists db'. rewrite Hr. split_and!; [done..|]. apply stored_branch. split; [done|].
  intros i Hi. by eapply stored_grows, Hcs.
Qed.
(** ** Reading one node *)

Lemma child_hashes_ok cs : Forall hash_ok (child_hashes cs).
Proof.
  apply Forall_fmap, Forall_forall. intros i _. simpl.
  destruct (cs i); simpl; [done|apply blake2b_len|apply blake2b_len].
Qed.

Lemma read_leaf n db p v :
  stored db (TLeaf p v) → t_wf n (TLeaf p v) →
  ∃ s, read_node db (blake256 (enc (leaf_item p v))) = Ok (Some (Leaf s v)) ∧ slice s p.
Proof.
  intros (Hf & _ & Hget)%stored_leaf [_ Hn]. unfold read_node. rewrite Hget. cbn [ok_or].
  rewrite Ok_bind. by apply decoded_leaf.
Qed.

Lemma read_branch n db p cs :
  stored db (TBranch p cs) → t_wf n (TBranch p cs) →
  ∃ s, read_node db (blake256 (enc (branch_item p (child_hashes cs)))) =
         Ok (Some (Branch s (child_hashes cs))) ∧ slice s p.
Proof.
  intros [(Hf & _ & Hget) _]%stored_branch (_ & Hn & _). unfold read_node. rewrite Hget. cbn [ok_or].
  rewrite Ok_bind. apply decoded_branch; [done..|apply child_hashes_ok].
Qed.

Lemma child_of_hashes cs i : i < 16 → child_of (child_hashes cs) i = Ok (hash_of (cs i)).
Proof. intros Hi. unfold child_of. by rewrite child_hashes_lookup. Qed.

(** The nibble after a path, and what follows it. *)
Lemma slice_below path p i k m :
  slice path (p ++ i :: k) → m = len p →
  ns_at (ns_mid path m) 0 = Ok (E:=TrieError.t) i ∧ slice (ns_mid path (m + 1)) k ∧
  slice (ns_mid (ns_mid path m) 1) k ∧ i < 16.
Proof.
  intros Hs ->. assert (slice (ns_mid path (len p)) (i :: k)) as Hm.
  { pose proof (slice_mid _ _ (len p) Hs) as Hm.
    assert (N.to_nat (len p) = length p) as E by (unfold len; lia).
    rewrite E, drop_app_length in Hm. apply Hm. rewrite len_app. lia. }
  split_and!.
  - by rewrite (slice_at _ _ 0 Hm).
  - replace (ns_mid path (len p + 1)) with (ns_mid (ns_mid path (len p)) 1)
      by (unfold ns_mid, ns_new_offset; simpl; f_equal; lia).
    apply (slice_mid _ _ 1 Hm). rewrite len_cons. lia.
  - apply (slice_mid _ _ 1 Hm). rewrite len_cons. lia.
  - apply slice_ok in Hm. by apply Forall_cons_1 in Hm as [? _].
Qed.

Lemma get_aux_run {Item} (query : bytes → Item) n t fuel path k db :
  t_wf n t → length k = n → slice path k → (n < fuel)%nat → stored db t →
  get_aux db query fuel path (hash_of t) = Ok (query <$> t_lookup t k).
Proof.
  revert n fuel path k. induction t as [|p v|p cs IH]; intros n fuel path k Hwf Hk Hs Hfuel Hst;
    (destruct fuel as [|fuel]; [lia|]); cbn [get_aux hash_of]; [done| |].
  - destruct (read_leaf n db p v Hst Hwf) as (s & -> & Hp). rewrite Ok_bind.
    rewrite (slice_eq s path p k) by done. rewrite Ok_bind, lookup_leaf. by case_bool_decide.
  - fold (child_hashes cs). destruct (read_branch n db p cs Hst Hwf) as (s & -> & Hp).
    rewrite Ok_bind, (slice_starts_with path s k p) by done. rewrite Ok_bind.
    pose proof Hwf as (Hlp & _ & Hcs & _). apply stored_branch in Hst as [_ Hst].
    rewrite (slice_ns_len s p) by done.
    destruct (branch_cases p k ltac:(lia)) as [(i & r & -> & _)|Hoff].
    + rewrite bool_decide_true by (by eexists).
      destruct (slice_below path p i r _ Hs eq_refl) as (-> & Hr & _ & Hi).
      rewrite Ok_bind, child_of_hashes, Ok_bind, lookup_below by done.
      rewrite length_app in Hk. simpl in Hk. apply (IH i (n - S (length p))%nat); auto; lia.
    + rewrite bool_decide_false by done. by rewrite lookup_off.
Qed.
(** ** Insertion *)

Lemma at_child_run cs i t (f : option H256 → stM (D * option bytes) TrieError.t (option H256)) s s' :
  i < 16 → f (hash_of (cs i)) s = (Ok (hash_of t), s') →
  at_child (child_hashes cs) i f s = (Ok (child_hashes (set_child cs i t)), s').
Proof.
  intros Hi Hf. unfold at_child. run_tac (child_of_hashes cs i Hi).
  run_tac Hf. by rewrite child_hashes_set.
Qed.

Lemma insert_none_run l fuel path k v db old :
  (0 < fuel)%nat → slice path k → db_ok db → no_collision db l → leaf_item k v ∈ l →
  ∃ db', insert_aux fuel path v None (db, old) = (Ok (blake256 (enc (leaf_item k v))), (db', old)) ∧
    grows l db db' ∧ stored db' (TLeaf k v).
Proof. intros Hfuel. destruct fuel as [|fuel]; [lia|]. apply put_leaf_run. Qed.

(** A call that succeeds from [db] with the hash of [t], which it has stored. *)
Definition yields (l : list rlp_item) (db : D) (t : tree) (old' : option bytes)
    (r : trieR H256 * (D * option bytes)) : Prop :=
  ∃ h db', r = (Ok h, (db', old')) ∧ hash_of t = Some h ∧ grows l db db' ∧ stored db' t.

Lemma yields_grows l db1 db2 t old' r :
  grows l db1 db2 → yields l db2 t old' r → yields l db1 t old' r.
Proof.
  intros Hg (h & db' & ? & ? & ? & ?). exists h, db'. split_and!; [done..| |done].
  by eapply grows_trans.
Qed.

(** The last steps of both ways to split a node. *)
Lemma fork_tail l fuel partial path c x y p1 k1 v t1 db old :
  (0 < fuel)%nat → slice partial (c ++ x :: p1) → slice path (c ++ y :: k1) → x ≠ y →
  db_ok db → no_collision db l → stored db t1 →
  let t := TBranch c (set_child (set_child no_child x t1) y (TLeaf k1 v)) in
  items t ⊆ l →
  yields l db t old
    ((j ← lift_st (ns_at (ns_mid path (len c)) 0);
      new_child ← at_child (child_hashes (set_child no_child x t1)) j (λ child,
        h ← insert_aux fuel (ns_mid (ns_mid path (len c)) 1) v child; mret (Some h));
      put_node_until (Branch partial new_child) (len c)) (db, old)).
Proof.
  intros Hfuel Hpar Hpath Hxy Hok Hnc Hst t Hin.
  destruct (slice_below path c y k1 _ Hpath eq_refl) as (Hy & _ & Hk1 & Hy16). run_tac Hy.
  assert (leaf_item k1 v ∈ l) as Hleaf.
  { apply Hin. apply (items_child _ _ y); [done|]. rewrite set_child_eq. by left. }
  destruct (insert_none_run l fuel _ k1 v db old Hfuel Hk1 Hok Hnc Hleaf) as (db1 & Hr & Hg & Hs1).
  pose proof Hg as (Hok1 & Hnc1 & _).
  erewrite bind_run.
  2: { apply (at_child_run _ y (TLeaf k1 v)); [done|]. rewrite set_child_ne by done.
       cbn [no_child hash_of]. by run_tac Hr. }
  destruct (put_until_run l db1 old partial (c ++ x :: p1) (len c)
    (set_child (set_child no_child x t1) y (TLeaf k1 v))) as (db2 & Hp & Hg2 & Hs2); [done..| | |].
  - replace (N.to_nat (len c)) with (length c) by (unfold len; lia). rewrite take_app_length.
    apply Hin. by left.
  - intros i Hi. unfold set_child. destruct (i =? y); [done|].
    destruct (i =? x); [by eapply stored_grows|]. by intros ? ?%elem_of_nil.
  - replace (N.to_nat (len c)) with (length c) in * by (unfold len; lia).
    rewrite take_app_length in *. exists (blake256 (enc (branch_item c (child_hashes
      (set_child (set_child no_child x t1) y (TLeaf k1 v)))))), db2.
    split_and!; [done|done|by eapply grows_trans|done].
Qed.
(** What [old_val] is after a call that met [w]. *)
Definition met (old : option bytes) (w : option bytes) : option bytes :=
  match w with Some w => Some w | None => old end.

Lemma aux_read_run db old h node :
  read_node db h = Ok node → aux_read h (db, old) = (Ok node, (db, old)).
Proof. intros Hr. unfold aux_read. simpl. by rewrite Hr. Qed.

Lemma common_run partial path c x y p k :
  slice partial (c ++ x :: p) → slice path (c ++ y :: k) → x ≠ y →
  ns_common_prefix partial path = Ok (E:=TrieError.t) (len c).
Proof.
  intros Hp Hk Hxy. rewrite (slice_common _ _ _ _ Hp Hk). unfold len. f_equal. f_equal.
  induction c as [|z c IH]; simpl; [by rewrite (proj2 (N.eqb_neq _ _))|].
  rewrite N.eqb_refl. f_equal. clear - Hxy. induction c as [|z' c IH]; simpl;
    [by rewrite (proj2 (N.eqb_neq _ _))|]. by rewrite N.eqb_refl, IH.
Qed.

(** [insert_aux] on one node, given what it does on its children. *)
Definition inserts (l : list rlp_item) (v : bytes) (n : nat) (t : tree) : Prop :=
  ∀ fuel path k db old,
    t_wf n t → length k = n → slice path k → (n < fuel)%nat → stored db t → db_ok db →
    no_collision db l → items (t_insert t k v) ⊆ l →
    yields l db (t_insert t k v) (met old (t_lookup t k))
      (insert_aux fuel path v (hash_of t) (db, old)).

Lemma insert_leaf_run l v n p w : inserts l v n (TLeaf p w).
Proof.
  intros fuel path k db old Hwf Hk Hs Hfuel Hst Hok Hnc Hin.
  destruct fuel as [|fuel]; [lia|]; cbn [insert_aux hash_of].
  destruct (read_leaf n db p w Hst Hwf) as (s & Hr & Hp).
  run_tac (aux_read_run _ old _ _ Hr). run_tac (slice_eq (E:=TrieError.t) s path p k Hp Hs).
  destruct Hwf as [Hlp _]. cbn [t_insert t_lookup] in *. case_bool_decide as Hpk.
  - destruct (put_leaf_run l db old path k v) as (db' & Hput & Hg & Hs'); [done..|apply Hin; by left|].
    run_tac Hput. by eexists _, _.
  - destruct (cpl_split p k) as (c & x & y & p1 & k1 & -> & -> & Hxy & _);
      [pose proof (cpl_lt p k ltac:(lia) Hpk); lia..|].
    rewrite fork_eq in * by done. rewrite length_app in Hk. simpl in Hk.
    run_tac (common_run _ _ _ _ _ _ _ Hp Hs Hxy).
    destruct (slice_below s c x p1 _ Hp eq_refl) as (Hx & _ & Hp1 & Hx16). run_tac Hx.
    assert (leaf_item p1 w ∈ l) as Hl1.
    { apply Hin, (items_child _ _ x); [done|]. rewrite set_child_ne, set_child_eq by done.
      by left. }
    destruct (insert_none_run l fuel _ p1 w db old ltac:(lia) Hp1 Hok Hnc Hl1)
      as (db1 & Hi & Hg & Hs1).
    erewrite bind_run.
    2: { apply (at_child_run no_child x (TLeaf p1 w)); [done|]. cbn [no_child hash_of].
         by run_tac Hi. }
    destruct Hg as (Hok1 & Hnc1 & Hg). eapply yields_grows; [by split_and!|].
    by eapply (fork_tail l fuel s path c x y p1 k1 v (TLeaf p1 w)); [lia|..].
Qed.

(** A branch the path leaves. *)
Lemma insert_split_run l v n c x p1 cs fuel path y k1 db old :
  x ≠ y → let p := c ++ x :: p1 in let k := c ++ y :: k1 in
  t_wf n (TBranch p cs) → length k = n → slice path k → (n < S fuel)%nat →
  stored db (TBranch p cs) → db_ok db → no_collision db l →
  let t := TBranch c (set_child (set_child no_child x (TBranch p1 cs)) y (TLeaf k1 v)) in
  items t ⊆ l → yields l db t old (insert_aux (S fuel) path v (hash_of (TBranch p cs)) (db, old)).
Proof.
  intros Hxy p k Hwf Hk Hs Hfuel Hst Hok Hnc t Hin. cbn [insert_aux hash_of].
  fold (child_hashes cs). destruct (read_branch n db p cs Hst Hwf) as (s & Hr & Hp).
  run_tac (aux_read_run _ old _ _ Hr). apply stored_branch in Hst as [_ Hcst].
  rewrite (slice_ns_len s p Hp). unfold k in Hk. rewrite length_app in Hk. simpl in Hk.
  run_tac (common_run _ _ _ _ _ _ _ Hp Hs Hxy).
  rewrite (proj2 (N.ltb_lt _ _)) by (unfold p; rewrite len_app, len_cons; lia).
  destruct (slice_below s c x p1 _ Hp eq_refl) as (Hx & _ & Hp1 & Hx16).
  destruct (put_branch_run l db old _ p1 cs Hp1 Hok Hnc) as (db1 & Hi & Hg & Hs1); [|done|].
  { apply Hin, (items_child _ _ x); [done|]. rewrite set_child_ne, set_child_eq by done.
    by left. }
  run_tac Hi. run_tac Hx.
  erewrite bind_run by (by apply (at_child_run no_child x (TBranch p1 cs))).
  destruct Hg as (Hok1 & Hnc1 & Hg). eapply yields_grows; [by split_and!|].
  by eapply (fork_tail l fuel s path c x y p1 k1 v (TBranch p1 cs)); [lia|..].
Qed.

(** A branch the path goes through. *)
Lemma insert_below_run l v n p cs fuel path i r db old :
  inserts l v (n - S (length p)) (cs i) → let k := p ++ i :: r in
  t_wf n (TBranch p cs) → length k = n → slice path k → (n < S fuel)%nat →
  stored db (TBranch p cs) → db_ok db → no_collision db l →
  let t := TBranch p (set_child cs i (t_insert (cs i) r v)) in
  items t ⊆ l →
  yields l db t (met old (t_lookup (cs i) r))
    (insert_aux (S fuel) path v (hash_of (TBranch p cs)) (db, old)).
Proof.
  intros IH k Hwf Hk Hs Hfuel Hst Hok Hnc t Hin. cbn [insert_aux hash_of].
  fold (child_hashes cs). destruct (read_branch n db p cs Hst Hwf) as (s & Hr & Hp).
  run_tac (aux_read_run _ old _ _ Hr). apply stored_branch in Hst as [_ Hcst].
  rewrite (slice_ns_len s p Hp). unfold k in Hk. rewrite length_app in Hk. simpl in Hk.
  assert (ns_common_prefix s path = Ok (E:=TrieError.t) (len p)) as Hcom.
  { rewrite (slice_common _ _ _ _ Hp Hs). unfold len. f_equal. f_equal.
    rewrite cpl_comm. apply cpl_prefix. by eexists. }
  run_tac Hcom. rewrite N.ltb_irrefl.
  destruct (slice_below path p i r _ Hs eq_refl) as (Hi & _ & Hr1 & Hi16). run_tac Hi.
  destruct Hwf as (Hlp & _ & Hcs & _).
  destruct (IH fuel (ns_mid (ns_mid path (len p)) 1) r db old (Hcs i))
    as (h & db1 & Hrun & Hh & Hg & Hs1); [lia|done|lia|auto|done|done| |].
  { intros y Hy. apply Hin, (items_child _ _ i); [done|]. by rewrite set_child_eq. }
  erewrite bind_run.
  2: { apply (at_child_run cs i (t_insert (cs i) r v)); [done|]. run_tac Hrun. by rewrite Hh. }
  pose proof Hg as (Hok1 & Hnc1 & _).
  destruct (put_branch_run l db1 (met old (t_lookup (cs i) r)) s p
    (set_child cs i (t_insert (cs i) r v)) Hp Hok1 Hnc1) as (db2 & -> & Hg2 & Hs2).
  - apply Hin. by left.
  - intros j Hj. unfold set_child. destruct (N.eqb_spec j i) as [->|]; [done|].
    eapply stored_grows; eauto.
  - eexists _, db2. split_and!; [done|done|by eapply grows_trans|done].
Qed.

Lemma insert_aux_run l v t n : inserts l v n t.
Proof.
  revert n. induction t as [|p w|p cs IH]; intros n.
  - intros [|fuel] path k db old Hwf Hk Hs Hfuel Hst Hok Hnc Hin; [lia|].
    destruct (put_leaf_run l db old path k v) as (db' & Hr & Hg & Hs'); [done..|apply Hin; by left|].
    by eexists _, _.
  - apply insert_leaf_run.
  - intros [|fuel] path k db old Hwf Hk Hs Hfuel Hst Hok Hnc Hin; [lia|].
    pose proof Hwf as (Hlp & _). cbn [t_insert] in *. pose proof (cpl_le p k).
    destruct (Nat.ltb (cpl p k) (length p)) eqn:Hc.
    + apply Nat.ltb_lt in Hc.
      destruct (cpl_split p k) as (c & x & y & p1 & k1 & -> & -> & Hxy & _); [lia..|].
      rewrite fork_eq in * by done.
      rewrite lookup_off by (intros [r Hr']; rewrite <-app_assoc in Hr'; naive_solver).
      by eapply insert_split_run.
    + destruct (cpl_full p k ltac:(lia) Hc) as (i & r & -> & Hd). rewrite Hd in *.
      rewrite lookup_below. by apply (insert_below_run l v n).
Qed.
(** ** Removal *)

Abbreviation occupied cs := (filter (λ i, is_empty_tree (cs i) = false)).

Lemma count_none_occupied cs (idx : list N) :
  (count_none ((λ i, hash_of (cs i)) <$> idx) + length (occupied cs idx) = length idx)%nat.
Proof.
  induction idx as [|i idx IH]; [done|]. rewrite fmap_cons, filter_cons. unfold count_none in *.
  rewrite filter_cons. destruct (cs i) eqn:E; simpl; repeat case_decide; simpl in *; try done; lia.
Qed.

Lemma first_child_occupied cs n a :
  first_child ((λ i, hash_of (cs i)) <$> (N.of_nat <$> seq a n)) (N.of_nat a) =
    i ← head (occupied cs (N.of_nat <$> seq a n)); h ← hash_of (cs i); Some (i, h).
Proof.
  revert a. induction n as [|n IH]; intros a; [done|]. cbn [seq fmap list_fmap].
  rewrite filter_cons. destruct (cs (N.of_nat a)) eqn:E; cbn [hash_of first_child is_empty_tree];
    [rewrite decide_False by done|rewrite decide_True by done..].
  - replace (N.of_nat a + 1) with (N.of_nat (S a)) by lia. apply IH.
  - simpl. by rewrite E.
  - simpl. by rewrite E.
Qed.

Lemma join_path_run partial child p q i :
  slice partial p → slice child q → i < 16 → 2 * len (hp (p ++ i :: q)) < u64_size →
  ∃ s, join_path partial child i = Ok s ∧ slice s (p ++ i :: q).
Proof.
  intros Hp Hq Hi Hf. unfold join_path. rewrite (slice_to_vec _ _ Hp), (slice_to_vec _ _ Hq), !Ok_bind.
  rewrite N.mod_small by lia.
  destruct (from_vec_hp (E:=TrieError.t) (p ++ i :: q)) as (offset & -> & Hs); [|done|].
  - apply Forall_app. split; [by eapply slice_ok|]. constructor; [done|]. by eapply slice_ok.
  - rewrite Ok_bind. by eexists.
Qed.

(** A call that succeeds from [db] with the hash of a tree that may be empty. *)
Definition leaves (l : list rlp_item) (db : D) (t : tree) (old' : option bytes)
    (r : trieR (option H256) * (D * option bytes)) : Prop :=
  ∃ db', r = (Ok (hash_of t), (db', old')) ∧ grows l db db' ∧ stored db' t.

Lemma collapse_run l n hash s p cs i db old :
  slice s p → i < 16 → t_wf n (cs i) → occupied cs children_indices = [i] → cs i ≠ TEmpty →
  stored db (cs i) → db_ok db → no_collision db l →
  items (prepend (p ++ [i]) (cs i)) ⊆ l →
  leaves l db (prepend (p ++ [i]) (cs i)) old (collapse hash s (child_hashes cs) (db, old)).
Proof.
  intros Hp Hi Hwf Hocc Hne Hst Hok Hnc Hin. unfold collapse.
  assert (first_child (child_hashes cs) 0 = Some (i, blake256 (enc (node_item (cs i))))) as Hfirst.
  { pose proof (first_child_occupied cs 16 0) as Hf. fold children_indices in Hf.
    fold (child_hashes cs) in Hf. rewrite Hocc in Hf. change (N.of_nat 0) with 0 in Hf.
    rewrite Hf. simpl. by rewrite hash_of_node. }
  rewrite Hfirst. cbn [expect]. erewrite bind_lift by done.
  cbv beta iota. erewrite bind_run by done. cbn [fst].
  assert (∀ xs, ((p ++ [i]) ++ xs) = p ++ i :: xs) as Happ by (intros; by rewrite <-app_assoc).
  destruct (cs i) as [|q v|q ds] eqn:E; [done| |]; cbn [prepend node_item] in *; rewrite Happ in *.
  - destruct (read_leaf n db q v Hst Hwf) as (s' & Hr & Hq).
    pose proof Hst as (_ & _ & Hget)%stored_leaf. rewrite Hget. cbn [ok_or].
    unfold read_node in Hr. rewrite Hget in Hr. erewrite bind_lift by exact Hr.
    destruct (Hnc (leaf_item (p ++ i :: q) v)) as (Hf & _); [apply Hin; by left|].
    destruct (join_path_run s s' p q i Hp Hq Hi (fits_path _ _ Hf)) as (s2 & Hj & Hs2).
    run_tac Hj. destruct (put_leaf_run l db old s2 (p ++ i :: q) v Hs2 Hok Hnc) as (db' & Hput & Hg & Hs');
      [apply Hin; by left|]. run_tac Hput. by exists db'.
  - destruct (read_branch n db q ds Hst Hwf) as (s' & Hr & Hq).
    pose proof Hst as [(_ & _ & Hget) Hds]%stored_branch. rewrite Hget. cbn [ok_or].
    unfold read_node in Hr. rewrite Hget in Hr. erewrite bind_lift by exact Hr.
    destruct (Hnc (branch_item (p ++ i :: q) (child_hashes ds))) as (Hf & _); [apply Hin; by left|].
    destruct (join_path_run s s' p q i Hp Hq Hi (fits_path _ _ Hf)) as (s2 & Hj & Hs2).
    run_tac Hj.
    destruct (put_branch_run l db old s2 (p ++ i :: q) ds Hs2 Hok Hnc) as (db' & Hput & Hg & Hs');
      [apply Hin; by left|done|]. run_tac Hput. by exists db'.
Qed.
Lemma leaves_grows l db1 db2 t old' r :
  grows l db1 db2 → leaves l db2 t old' r → leaves l db1 t old' r.
Proof.
  intros Hg (db' & ? & ? & ?). exists db'. split_and!; [done| |done]. by eapply grows_trans.
Qed.

Lemma match_count {A} (n : nat) (a b c : A) :
  (n ≤ 14)%nat → match n with 16%nat => a | 15%nat => b | _ => c end = c.
Proof. intros Hn. do 15 (destruct n as [|n]; [done|]). lia. Qed.

(** What [remove_aux] does once a child is gone. *)
Lemma shrink_run l n hash s p cs db old :
  slice s p → (∀ i, 16 ≤ i → cs i = TEmpty) → (∀ i, t_wf n (cs i)) →
  (∀ i, i < 16 → stored db (cs i)) → db_ok db → no_collision db l → items (shrink p cs) ⊆ l →
  leaves l db (shrink p cs) old
    (match count_none (child_hashes cs) with
     | 16%nat => mret None
     | 15%nat => collapse hash s (child_hashes cs)
     | _ => new_hash ← put_node (Branch s (child_hashes cs)); mret (Some new_hash)
     end (db, old)).
Proof.
  intros Hp Hout Hwf Hst Hok Hnc Hin. pose proof (count_none_occupied cs children_indices) as Hcnt.
  fold (child_hashes cs) in Hcnt. change (length children_indices) with 16%nat in Hcnt.
  pose proof (occupied_elem cs) as Hel. unfold shrink in *.
  destruct (occupied cs children_indices) as [|i [|j o]] eqn:Hocc; simpl in Hcnt.
  - replace (count_none _) with 16%nat by lia. exists db. split_and!; [done..|].
    by intros x ?%elem_of_nil.
  - replace (count_none _) with 15%nat by lia.
    assert (cs i ≠ TEmpty) as Hne by (apply Hel; [done|by left]).
    assert (i < 16) as Hi. { destruct (N.lt_ge_cases i 16); [done|]. by rewrite Hout in Hne. }
    by eapply (collapse_run l n); auto.
  - rewrite match_count by lia.
    destruct (put_branch_run l db old s p cs Hp Hok Hnc) as (db' & Hput & Hg & Hs');
      [apply Hin; by left|done|]. run_tac Hput. by exists db'.
Qed.

Lemma hash_of_empty t : hash_of t = None ↔ is_empty_tree t = true.
Proof. by destruct t. Qed.

Lemma remove_aux_run l t n fuel path k db old :
  t_wf n t → length k = n → slice path k → (n < fuel)%nat → stored db t → db_ok db →
  no_collision db l → items (t_remove t k) ⊆ l →
  leaves l db (t_remove t k) (met old (t_lookup t k)) (remove_aux fuel path (hash_of t) (db, old)).
Proof.
  revert n fuel path k db old. induction t as [|p w|p cs IH];
    intros n [|fuel] path k db old Hwf Hk Hs Hfuel Hst Hok Hnc Hin; try lia; cbn [remove_aux hash_of].
  - by exists db.
  - destruct (read_leaf n db p w Hst Hwf) as (s & Hr & Hp).
    run_tac (aux_read_run _ old _ _ Hr). run_tac (slice_eq (E:=TrieError.t) path s k p Hs Hp).
    cbn [t_remove t_lookup]. rewrite (bool_decide_ext (p = k) (k = p)) by done.
    case_bool_decide; [|by exists db]. exists db. split_and!; [done..|]. by intros x ?%elem_of_nil.
  - fold (child_hashes cs). destruct (read_branch n db p cs Hst Hwf) as (s & Hr & Hp).
    run_tac (aux_read_run _ old _ _ Hr). pose proof Hwf as (Hlp & _ & Hcs & _ & Hout).
    run_tac (slice_starts_with (E:=TrieError.t) path s k p Hs Hp). cbn [t_remove] in *.
    destruct (branch_cases p k ltac:(lia)) as [(i & r & -> & Hd)|Hoff].
    2: { rewrite bool_decide_false by done. rewrite lookup_off by done. by exists db. }
    rewrite bool_decide_true, Hd in * by (by eexists). cbv zeta in Hin. rewrite lookup_below.
    apply stored_branch in Hst as [_ Hcst]. rewrite (slice_ns_len s p Hp).
    destruct (slice_below path p i r _ Hs eq_refl) as (Hi & _ & Hr1 & Hi16). run_tac Hi.
    rewrite length_app in Hk. simpl in Hk. cbv zeta. set (cs' := set_child cs i _) in *.
    destruct (IH i (n - S (length p))%nat fuel (ns_mid (ns_mid path (len p)) 1) r db old (Hcs i))
      as (db1 & Hrun & Hg & Hs1); [lia|done|lia|auto|done|done| |].
    { intros x Hx. apply Hin. destruct (is_empty_tree (cs' i)) eqn:He.
      - apply is_empty_tree_spec in He. unfold cs' in He. rewrite set_child_eq in He.
        rewrite He in Hx. by apply elem_of_nil in Hx.
      - apply (items_child _ _ i); [done|]. unfold cs'. by rewrite set_child_eq. }
    erewrite bind_run by (by apply (at_child_run cs i (t_remove (cs i) r))). fold cs'.
    run_tac (child_of_hashes cs' i Hi16). eapply leaves_grows; [done|].
    destruct Hg as (Hok1 & Hnc1 & Hg).
    assert (∀ j, j < 16 → stored db1 (cs' j)) as Hst'.
    { intros j Hj. unfold cs', set_child. destruct (N.eqb_spec j i) as [->|]; [done|].
      eapply (stored_grows l); [by split_and!|auto]. }
    destruct (is_empty_tree (cs' i)) eqn:He.
    + rewrite (proj2 (hash_of_empty _) He). eapply (shrink_run l (n - S (length p))); try done.
      * intros j Hj. unfold cs'. rewrite set_child_ne by lia. auto.
      * intros j. unfold cs', set_child. destruct (j =? i); [|done].
        apply t_wf_remove; [done|lia|by eapply slice_ok].
    + destruct (hash_of (cs' i)) eqn:Eh; [|by apply hash_of_empty in Eh; congruence].
      destruct (put_branch_run l db1 (met old (t_lookup (cs i) r)) s p cs' Hp Hok1 Hnc1)
        as (db' & Hput & Hg' & Hs'); [apply Hin; by left|done|]. run_tac Hput. by exists db'.
Qed.
(** * The mutable trie *)

(** The trie holds the tree [t] of depth 64, two nibbles for each byte of a hash. *)
Definition holds (self : TrieDBMut D) (t : tree) : Prop :=
  t_wf 64 t ∧ stored (tm_db self) t ∧ db_ok (tm_db self) ∧ tm_root self = root_of t.

Definition key_path (key : bytes) : bytes := nibs (blake256 key).

Lemma key_slice key :
  slice (ns_new (blake256 key)) (key_path key) ∧ length (key_path key) = 64%nat ∧
  ∃ fuel, path_fuel (ns_new (blake256 key)) = S fuel ∧ (64 < S fuel)%nat.
Proof.
  assert (len (blake256 key) = 32) as Hl by apply blake2b_len.
  assert (slice (ns_new (blake256 key)) (key_path key)) as Hs.
  { apply slice_new; [apply blake2b_bytes|]. by rewrite Hl. }
  assert (length (key_path key) = 64%nat) as Hn.
  { unfold key_path. rewrite nibs_length. unfold len in Hl. lia. }
  split_and!; [done..|]. exists (N.to_nat (len (key_path key))). unfold path_fuel.
  rewrite (slice_ns_len _ _ Hs). split; [done|]. unfold len. lia.
Qed.

(** At the root the empty tree is a hash too, that of the null node. *)
Lemma root_hash t : t ≠ TEmpty → Some (root_of t) = hash_of t.
Proof. by destruct t. Qed.

Lemma read_null (db : D) : read_node db BLAKE_NULL_RLP = Ok None.
Proof. unfold read_node. rewrite db_get_null. by cbn [ok_or]. Qed.

Lemma tm_get_run self t key : holds self t → tm_get key self = Ok (t_lookup t (key_path key)).
Proof.
  intros (Hwf & Hst & Hok & Hroot). destruct (key_slice key) as (Hs & Hl & fuel & Hfuel & Hlt). unfold tm_get, try_new.
  rewrite Hroot, db_contains_get. destruct (is_empty_tree t) eqn:He.
  - apply is_empty_tree_spec in He as ->. unfold root_of. cbn [hash_of default from_option].
    rewrite db_get_null, bool_decide_true, Ok_bind by done. unfold get_with. rewrite Hfuel.
    cbn [get_aux]. by rewrite read_null.
  - assert (t ≠ TEmpty) as Hne by (by destruct t).
    destruct (Hst (node_item t)) as (_ & _ & Hget); [by apply items_node|].
    assert (root_of t = blake256 (enc (node_item t))) as Hr
      by (unfold root_of; by rewrite hash_of_node).
    rewrite Hr, Hget, <-Hr, bool_decide_true, Ok_bind by done. unfold get_with. cbv zeta.
    rewrite Hfuel, root_hash, (get_aux_run id 64 t (S fuel) _ (key_path key)) by done.
    by destruct (t_lookup t _).
Qed.

Lemma tm_insert_run l self t key v :
  holds self t → no_collision (tm_db self) l → items (t_insert t (key_path key) v) ⊆ l →
  ∃ self', tm_insert key v self = (Ok (t_lookup t (key_path key)), self') ∧
    holds self' (t_insert t (key_path key) v) ∧ grows l (tm_db self) (tm_db self').
Proof.
  intros (Hwf & Hst & Hok & Hroot) Hnc Hin. destruct (key_slice key) as (Hs & Hl & fuel & Hfuel & Hlt).
  assert (yields l (tm_db self) (t_insert t (key_path key) v) (met None (t_lookup t (key_path key)))
    (insert_aux (S fuel) (ns_new (blake256 key)) v (Some (tm_root self)) (tm_db self, None)))
    as (h & db' & Hrun & Hh & Hg & Hst').
  { rewrite Hroot. destruct (is_empty_tree t) eqn:He.
    - apply is_empty_tree_spec in He as ->. cbn [insert_aux].
      run_tac (aux_read_run (tm_db self) None _ _ (read_null _)).
      destruct (put_leaf_run l (tm_db self) None (ns_new (blake256 key)) (key_path key) v)
        as (db' & -> & Hg & Hs'); [done..|apply Hin; by left|]. by eexists _, _.
    - rewrite root_hash by (by destruct t). by apply (insert_aux_run l v t 64). }
  unfold tm_insert. cbv zeta. rewrite Hfuel, Hrun. unfold met. eexists. split; [by destruct (t_lookup t _)|].
  split; [|done]. split_and!; [|done|apply Hg|].
  - apply t_wf_insert; [done..|]. by eapply slice_ok.
  - simpl. unfold root_of. by rewrite Hh.
Qed.

Lemma tm_remove_run l self t key :
  holds self t → no_collision (tm_db self) l → items (t_remove t (key_path key)) ⊆ l →
  ∃ self', tm_remove key self = (Ok (t_lookup t (key_path key)), self') ∧
    holds self' (t_remove t (key_path key)) ∧ grows l (tm_db self) (tm_db self').
Proof.
  intros (Hwf & Hst & Hok & Hroot) Hnc Hin. destruct (key_slice key) as (Hs & Hl & fuel & Hfuel & Hlt).
  unfold tm_remove. cbv zeta. rewrite Hfuel, Hroot. destruct (is_empty_tree t) eqn:He.
  - apply is_empty_tree_spec in He as ->. cbn [remove_aux].
    run_tac (aux_read_run (tm_db self) None _ _ (read_null _)).
    eexists. split; [done|]. split; [|done]. by split_and!.
  - rewrite root_hash by (by destruct t).
    destruct (remove_aux_run l t 64 (S fuel) (ns_new (blake256 key)) (key_path key) (tm_db self) None)
      as (db' & -> & Hg & Hst'); [done..|].
    unfold met. eexists. split; [by destruct (t_lookup t _)|]. split; [|done].
    split_and!; [|done|apply Hg|done]. apply t_wf_remove; [done..|]. by eapply slice_ok.
Qed.
End Refine.
