(* ===== verification/TrieSpec.v ===== *)
(** What the Merkle trie promises.  A sequence of calls on the trie behaves as on a map from
    hashed keys to values; and the root commits to the contents: two tries have the same root
    exactly when they hold the same map, whatever calls built them. *)
From stdpp Require Import base gmap list numbers.
From Stdlib Require Import NArith Lia.
From S2P Require Import Prelude Types Crypto Rlp StateCache Nibble TrieNode HashDb Trie.
From S2P Require Import TrieTree TrieRefine.

Local Open Scope N_scope.

(** * Sequences of calls *)

Inductive trie_op := TInsert (key value : bytes) | TRemove (key : bytes) | TGet (key : bytes).

Section Runs.
Context `{Crypto} {D : Type} `{HD : HashDB D}.

Definition trie_exec (o : trie_op) : stM (TrieDBMut D) TrieError.t (option bytes) :=
  match o with
  | TInsert key value => tm_insert key value
  | TRemove key => tm_remove key
  | TGet key => λ self, (tm_get key self, self)
  end.

Fixpoint trie_run (ops : list trie_op) : stM (TrieDBMut D) TrieError.t (list (option bytes)) :=
  match ops with
  | [] => mret []
  | o :: ops => r ← trie_exec o; rs ← trie_run ops; mret (r :: rs)
  end.

(** The specification: a map from hashes of keys to values.  Insertion and removal return
    the value that was there. *)
Definition map_exec (o : trie_op) (m : gmap H256 bytes) : option bytes * gmap H256 bytes :=
  match o with
  | TInsert key value => (m !! blake256 key, <[blake256 key := value]> m)
  | TRemove key => (m !! blake256 key, delete (blake256 key) m)
  | TGet key => (m !! blake256 key, m)
  end.

Fixpoint map_run (ops : list trie_op) (m : gmap H256 bytes)
  : list (option bytes) * gmap H256 bytes :=
  match ops with
  | [] => ([], m)
  | o :: ops =>
      let '(r, m) := map_exec o m in
      let '(rs, m) := map_run ops m in
      (r :: rs, m)
  end.

(** The trees a sequence of calls goes through. *)
Definition tree_exec (o : trie_op) (t : tree) : tree :=
  match o with
  | TInsert key value => t_insert t (key_path key) value
  | TRemove key => t_remove t (key_path key)
  | TGet key => t
  end.

Fixpoint tree_states (ops : list trie_op) (t : tree) : list tree :=
  match ops with
  | [] => []
  | o :: ops => let t := tree_exec o t in t :: tree_states ops t
  end.

(** Every node the calls write. *)
Definition written (ops : list trie_op) : list rlp_item :=
  mjoin (items <$> tree_states ops TEmpty).
End Runs.

(** * Paths and keys *)

Lemma nibs_inj a b : bytes_ok a → bytes_ok b → nibs a = nibs b → a = b.
Proof.
  intros Ha. revert b. induction Ha as [|x a Hx _ IH]; intros [|y b] Hb Heq; try done.
  apply Forall_cons_1 in Hb as [Hy Hb]. cbn [nibs] in Heq. rewrite !shiftr_4, !land_15 in Heq.
  injection Heq as H1 H2 H3. rewrite (IH b Hb H3). f_equal. lia_div.
Qed.

Section Spec.
Context `{CryptoLaws} {D : Type} `{HD : HashDB D} `{!HashDBLaws D}.

(** The tree and the map have the same contents. *)
Definition agrees (t : tree) (m : gmap H256 bytes) : Prop :=
  ∀ h, len h = 32 → bytes_ok h → t_lookup t (nibs h) = m !! h.

Lemma key_ok key : len (blake256 key) = 32 ∧ bytes_ok (blake256 key) ∧
  length (key_path key) = 64%nat ∧ nibbles_ok (key_path key).
Proof.
  destruct (key_slice key) as (Hs & Hl & _). split_and!; [apply blake2b_len|apply blake2b_bytes|done|].
  by eapply slice_ok.
Qed.

Lemma tree_exec_agrees o t m :
  t_wf 64 t → agrees t m → t_wf 64 (tree_exec o t) ∧ agrees (tree_exec o t) (map_exec o m).2.
Proof.
  intros Hwf Ha.
  assert (∀ key h, len h = 32 → bytes_ok h → length (nibs h) = 64%nat ∧
    (nibs h = key_path key ↔ h = blake256 key)) as Hkey.
  { intros key h Hl Hb. rewrite nibs_length. split; [unfold len in Hl; lia|].
    destruct (key_ok key) as (_ & Hkb & _). split; [|by intros ->]. by apply nibs_inj. }
  destruct o as [key v|key|key]; cbn [tree_exec map_exec snd].
  - destruct (key_ok key) as (_ & _ & Hl & Hn). split; [by apply t_wf_insert|].
    intros h Hh Hb. destruct (Hkey key h Hh Hb) as [Hnl Hiff].
    rewrite (t_lookup_insert 64) by done. rewrite (bool_decide_ext _ _ Hiff), Ha by done.
    case_bool_decide; subst; [by rewrite lookup_insert_eq|by rewrite lookup_insert_ne].
  - destruct (key_ok key) as (_ & _ & Hl & Hn). split; [by apply t_wf_remove|].
    intros h Hh Hb. destruct (Hkey key h Hh Hb) as [Hnl Hiff].
    rewrite (t_lookup_remove 64) by done. rewrite (bool_decide_ext _ _ Hiff), Ha by done.
    case_bool_decide; subst; [by rewrite lookup_delete_eq|by rewrite lookup_delete_ne].
  - done.
Qed.

Lemma trie_exec_run l o self t m :
  holds self t → agrees t m → no_collision (tm_db self) l → items (tree_exec o t) ⊆ l →
  ∃ self', trie_exec o self = (Ok (map_exec o m).1, self') ∧ holds self' (tree_exec o t) ∧
    no_collision (tm_db self') l.
Proof.
  intros Hh Ha Hnc Hin.
  assert (∀ key, t_lookup t (key_path key) = m !! blake256 key) as Hlook.
  { intros key. destruct (key_ok key) as (? & ? & _). by apply Ha. }
  destruct o as [key v|key|key]; cbn [trie_exec map_exec tree_exec fst] in *; rewrite <-Hlook.
  - destruct (tm_insert_run l self t key v Hh Hnc Hin) as (self' & ? & ? & (_ & ? & _)). by exists self'.
  - destruct (tm_remove_run l self t key Hh Hnc Hin) as (self' & ? & ? & (_ & ? & _)). by exists self'.
  - exists self. split_and!; [|done..]. by rewrite (tm_get_run self t).
Qed.

Lemma trie_run_holds l ops self t m :
  holds self t → agrees t m → no_collision (tm_db self) l →
  mjoin (items <$> tree_states ops t) ⊆ l →
  ∃ self' t', trie_run ops self = (Ok (map_run ops m).1, self') ∧ holds self' t' ∧
    agrees t' (map_run ops m).2 ∧ (t' = t ∨ items t' ⊆ l).
Proof.
  revert self t m. induction ops as [|o ops IH]; intros self t m Hh Ha Hnc Hin.
  - exists self, t. auto.
  - cbn [tree_states fmap list_fmap] in Hin. cbn [mjoin list_join] in Hin.
    apply list_subseteq_app_iff_l in Hin as [Hin1 Hin2].
    destruct (trie_exec_run l o self t m Hh Ha Hnc Hin1) as (self1 & Hr & Hh1 & Hnc1).
    destruct (tree_exec_agrees o t m (proj1 Hh) Ha) as [_ Ha1].
    destruct (map_exec o m) as [r m1] eqn:Em. cbn [fst snd] in *.
    destruct (IH self1 (tree_exec o t) m1 Hh1 Ha1 Hnc1 Hin2) as (self2 & t2 & Hr2 & Hh2 & Ha2 & Ht2).
    exists self2, t2. cbn [map_run]. rewrite Em. destruct (map_run ops m1) as [rs m2].
    cbn [fst snd] in *. split_and!; [|done|done|].
    + cbn [trie_run]. run_tac Hr. by run_tac Hr2.
    + destruct Ht2 as [->|]; auto.
Qed.
Lemma holds_new db : db_ok db → holds (TrieDBMut_new db) TEmpty.
Proof. intros Hok. split_and!; [done| |done|done]. by intros i ?%elem_of_nil. Qed.

Lemma agrees_empty : agrees TEmpty ∅.
Proof. intros h _ _. by rewrite lookup_empty. Qed.

(** * The root commits to the contents *)

Lemma slice_fun s p q : slice s p → slice s q → p = q.
Proof. intros [<- _ _ _] [<- _ _ _]. done. Qed.

(** Different nodes have different bytes. *)
Lemma leaf_enc_inj p q v w :
  nibbles_ok p → nibbles_ok q → fits (leaf_item p v) → fits (leaf_item q w) →
  enc (leaf_item p v) = enc (leaf_item q w) → p = q ∧ v = w.
Proof.
  intros Hp Hq Hf1 Hf2 Heq. destruct (decoded_leaf p v Hp Hf1) as (s & Hd & Hs).
  destruct (decoded_leaf q w Hq Hf2) as (s' & Hd' & Hs'). rewrite Heq, Hd' in Hd. simplify_eq.
  split; [by eapply slice_fun|done].
Qed.

Lemma branch_enc_inj p q cs ds :
  nibbles_ok p → nibbles_ok q → fits (branch_item p (child_hashes cs)) →
  fits (branch_item q (child_hashes ds)) →
  enc (branch_item p (child_hashes cs)) = enc (branch_item q (child_hashes ds)) →
  p = q ∧ child_hashes cs = child_hashes ds.
Proof.
  intros Hp Hq Hf1 Hf2 Heq.
  destruct (decoded_branch p _ Hp Hf1 eq_refl (child_hashes_ok cs)) as (s & Hd & Hs).
  destruct (decoded_branch q _ Hq Hf2 eq_refl (child_hashes_ok ds)) as (s' & Hd' & Hs').
  rewrite Heq, Hd' in Hd. split; [|congruence].
  assert (s' = s) as -> by congruence. by eapply slice_fun.
Qed.

Lemma leaf_branch_enc p q v ds :
  nibbles_ok p → nibbles_ok q → fits (leaf_item p v) → fits (branch_item q (child_hashes ds)) →
  enc (leaf_item p v) ≠ enc (branch_item q (child_hashes ds)).
Proof.
  intros Hp Hq Hf1 Hf2 Heq. destruct (decoded_leaf p v Hp Hf1) as (s & Hd & _).
  destruct (decoded_branch q _ Hq Hf2 eq_refl (child_hashes_ok ds)) as (s' & Hd' & _).
  rewrite Heq, Hd' in Hd. done.
Qed.

Lemma hash_binds (db : D) l n t1 t2 :
  no_collision db l → items t1 ⊆ l → items t2 ⊆ l → t_wf n t1 → t_wf n t2 →
  hash_of t1 = hash_of t2 → teq t1 t2.
Proof.
  intros Hnc. revert n t2. induction t1 as [|p v|p cs IH]; intros n [|q w|q ds] H1 H2 Hw1 Hw2 Hh;
    cbn [hash_of] in Hh; try discriminate Hh; [done|..].
  all: match goal with |- teq ?t1 ?t2 =>
         pose proof (H1 _ (items_node t1 ltac:(done))) as Hi1;
         pose proof (H2 _ (items_node t2 ltac:(done))) as Hi2;
         destruct (Hnc _ Hi1) as (Hf1 & _ & _ & Hinj), (Hnc _ Hi2) as (Hf2 & _);
         assert (enc (node_item t1) = enc (node_item t2)) as He
           by (apply (Hinj _ Hi2); injection Hh as Hh; exact Hh)
       end.
  - destruct Hw1 as [_ Hp], Hw2 as [_ Hq]. by apply leaf_enc_inj in He.
  - destruct Hw1 as [_ Hp], Hw2 as (_ & Hq & _). by apply leaf_branch_enc in He.
  - destruct Hw1 as (_ & Hp & _), Hw2 as [_ Hq]. symmetry in He. by apply leaf_branch_enc in He.
  - destruct Hw1 as (_ & Hp & Hc1 & _ & Ho1), Hw2 as (_ & Hq & Hc2 & _ & Ho2).
    apply branch_enc_inj in He as [-> Hch]; [|done..]. split; [done|]. intros i.
    destruct (N.lt_ge_cases i 16) as [Hi|Hi]; [|by rewrite Ho1, Ho2].
    eapply IH; [intros x Hx; eapply H1, items_child; done|intros x Hx; eapply H2, items_child; done|done..|].
    pose proof (child_hashes_lookup cs i Hi) as Hl. rewrite Hch, child_hashes_lookup in Hl by done.
    by simplify_eq.
Qed.

Lemma agrees_same t1 t2 m1 m2 : agrees t1 m1 → agrees t2 m2 → m1 = m2 → same_contents 64 t1 t2.
Proof.
  intros Ha1 Ha2 -> k Hk Hn. assert (nibs (pack k) = k) as <-.
  { apply nibs_pack; [done|]. by rewrite Hk. }
  assert (len (pack k) = 32) by (unfold len; by rewrite pack_length, Hk).
  rewrite Ha1, Ha2; [done|..]; try done; by apply pack_ok.
Qed.

(** A map that only binds digests. *)
Definition hashed (m : gmap H256 bytes) : Prop := ∀ h, is_Some (m !! h) → len h = 32 ∧ bytes_ok h.

Lemma map_run_hashed ops m : hashed m → hashed (map_run ops m).2.
Proof.
  revert m. induction ops as [|o ops IH]; intros m Hm; [done|]. cbn [map_run].
  destruct (map_exec o m) as [r m1] eqn:Em. specialize (IH m1).
  destruct (map_run ops m1) as [rs m2]. cbn [snd] in *. apply IH.
  assert (m1 = (map_exec o m).2) as -> by (by rewrite Em).
  destruct o as [key v|key|key]; cbn [map_exec snd]; [| |done]; intros h [x Hx].
  - apply lookup_insert_Some in Hx as [[<- _]|[_ Hx]]; [|by apply Hm].
    destruct (key_ok key) as (? & ? & _). done.
  - apply lookup_delete_Some in Hx as [_ Hx]. by apply Hm.
Qed.

Lemma agrees_eq t1 t2 m1 m2 :
  agrees t1 m1 → agrees t2 m2 → hashed m1 → hashed m2 → same_contents 64 t1 t2 → m1 = m2.
Proof.
  intros Ha1 Ha2 Hm1 Hm2 Hs. apply map_eq. intros h.
  assert (len h = 32 → bytes_ok h → m1 !! h = m2 !! h) as Hin.
  { intros Hl Hb. rewrite <-Ha1, <-Ha2 by done. apply Hs; [|by apply nibs_ok].
    rewrite nibs_length. unfold len in Hl. lia. }
  destruct (m1 !! h) eqn:E1.
  - by apply Hin; apply Hm1; rewrite E1.
  - destruct (m2 !! h) eqn:E2; [|done]. by apply Hin; apply Hm2; rewrite E2.
Qed.

Lemma teq_lookup t1 t2 k : teq t1 t2 → t_lookup t1 k = t_lookup t2 k.
Proof.
  revert t2 k. induction t1 as [|p v|p cs IH]; intros [] k Heq; cbn [teq] in Heq; try done.
  - by destruct Heq as [-> ->].
  - destruct Heq as [-> Heq]. cbn [t_lookup]. case_bool_decide; [|done].
    destruct (drop _ k); [done|]. by apply IH.
Qed.

(** No node has the root of the empty trie. *)
Lemma root_hash_eq (db : D) l t1 t2 :
  no_collision db l → items t1 ⊆ l → items t2 ⊆ l → root_of t1 = root_of t2 → hash_of t1 = hash_of t2.
Proof.
  intros Hnc H1 H2 Heq.
  assert (∀ t, t ≠ TEmpty → items t ⊆ l → root_of t ≠ BLAKE_NULL_RLP) as Hne.
  { intros t Ht Hi. unfold root_of. rewrite hash_of_node by done.
    by destruct (Hnc (node_item t)) as (_ & ? & _); [apply Hi, items_node|]. }
  destruct (is_empty_tree t1) eqn:E1, (is_empty_tree t2) eqn:E2;
    repeat match goal with H : is_empty_tree ?t = true |- _ => apply is_empty_tree_spec in H; subst t end.
  - done.
  - exfalso. apply (Hne t2); [by destruct t2|done|by rewrite <-Heq].
  - exfalso. apply (Hne t1); [by destruct t1|done|by rewrite Heq].
  - rewrite <-!root_hash; [by rewrite Heq|by destruct t2|by destruct t1].
Qed.

(** * Properties *)

(** C8: Any sequence of insertions, removals and look-ups on a new trie succeeds and returns what
    it returns on a map from hashed keys to values, and the trie then reads as that map: as
    long as the nodes it writes fit and do not collide with each other or with the database. *)
Theorem trie_refines_map (db : D) (ops : list trie_op) :
  db_ok db → no_collision db (written ops) →
  ∃ self, trie_run ops (TrieDBMut_new db) = (Ok (map_run ops ∅).1, self) ∧
    ∀ key, tm_get key self = Ok ((map_run ops ∅).2 !! blake256 key).
Proof.
  intros Hok Hnc.
  destruct (trie_run_holds (written ops) ops (TrieDBMut_new db) TEmpty ∅)
    as (self & t & Hr & Hh & Ha & _); [by apply holds_new|apply agrees_empty|done|done|].
  exists self. split; [done|]. intros key. rewrite (tm_get_run self t) by done.
  destruct (key_ok key) as (? & ? & _). f_equal. by apply Ha.
Qed.

(** C9: The root commits to the contents: two sequences of calls end with the same root exactly
    when they end with the same map, however they got there. *)
Theorem trie_root_commits (db : D) (ops1 ops2 : list trie_op) outs1 outs2 self1 self2 :
  db_ok db → no_collision db (written ops1 ++ written ops2) →
  trie_run ops1 (TrieDBMut_new db) = (Ok outs1, self1) →
  trie_run ops2 (TrieDBMut_new db) = (Ok outs2, self2) →
  tm_root self1 = tm_root self2 ↔ (map_run ops1 ∅).2 = (map_run ops2 ∅).2.
Proof.
  intros Hok Hnc Hr1 Hr2. set (l := written ops1 ++ written ops2) in *.
  destruct (trie_run_holds l ops1 (TrieDBMut_new db) TEmpty ∅)
    as (s1 & t1 & Hs1 & (Hw1 & _ & _ & Hroot1) & Ha1 & Ht1);
    [by apply holds_new|apply agrees_empty|done|unfold l; set_solver|].
  destruct (trie_run_holds l ops2 (TrieDBMut_new db) TEmpty ∅)
    as (s2 & t2 & Hs2 & (Hw2 & _ & _ & Hroot2) & Ha2 & Ht2);
    [by apply holds_new|apply agrees_empty|done|unfold l; set_solver|].
  rewrite Hs1 in Hr1. rewrite Hs2 in Hr2. simplify_eq. rewrite Hroot1, Hroot2.
  assert (items t1 ⊆ l) as Hi1 by (destruct Ht1 as [->|]; [apply list_subseteq_nil|done]).
  assert (items t2 ⊆ l) as Hi2 by (destruct Ht2 as [->|]; [apply list_subseteq_nil|done]).
  split; intros Heq.
  - assert (hash_of t1 = hash_of t2) as Hh by (by apply (root_hash_eq db l)).
    eapply agrees_eq; [done|done|apply map_run_hashed|apply map_run_hashed|];
      [by intros h [? ?%lookup_empty_Some]..|].
    intros k _ _. by apply teq_lookup, (hash_binds db l 64).
  - apply root_of_proper, (t_canonical 64); [done..|]. by eapply agrees_same.
Qed.
End Spec.

(** * Examples *)

Module TrieWitness.

(** A digest that spreads its input over 31 bytes. *)
Definition mix (input : bytes) : N := foldl (λ acc b, (acc * 257 + b + 1) mod (2 ^ 248 - 237)) 7 input.

#[local] Instance crypto : Crypto := {|
  blake2b n key input := to_be_bytes (N.to_nat n) (mix input);
  ripemd160 := @ripemd160 Sample.crypto; sha256 := @sha256 Sample.crypto;
  keccak256 := @keccak256 Sample.crypto; verify_ecdsa := @verify_ecdsa Sample.crypto;
  recover_ecdsa := @recover_ecdsa Sample.crypto |}.

#[local] Instance laws : CryptoLaws.
Proof.
  split.
  - intros. simpl. unfold len. rewrite to_be_bytes_length. lia.
  - intros. apply to_be_bytes_ok.
  - exact (@recover_len Sample.crypto Sample.laws).
  - exact (@recover_no_panic Sample.crypto Sample.laws).
Qed.

(** [no_collision] of the empty database, as a test on the encodings and their digests. *)
Definition digests (l : list rlp_item) : list (H256 * bytes) := (λ i, (blake256 (enc i), enc i)) <$> l.

Definition no_collision_test (ds : list (H256 * bytes)) : bool :=
  forallb (λ '(h, e), (len e <? u32_size) && negb (bool_decide (h = BLAKE_NULL_RLP)) &&
    forallb (λ '(h', e'), implb (bool_decide (h = h')) (bool_decide (e = e'))) ds) ds.

Lemma mdb_new_ok : db_ok mdb_new.
Proof. intros k v rc Hk. unfold mdb_new in Hk. simpl in Hk. by rewrite lookup_empty in Hk. Qed.

Lemma digests_forallb f l i : forallb f (digests l) = true → i ∈ l → f (blake256 (enc i), enc i) = true.
Proof.
  intros Hf Hi. apply (proj1 (forallb_forall _ _) Hf), list_elem_of_In.
  apply list_elem_of_fmap. by exists i.
Qed.

Lemma no_collision_tested l : no_collision_test (digests l) = true → no_collision mdb_new l.
Proof.
  intros Hl i Hi. unfold no_collision_test in Hl. apply (digests_forallb _ _ i) in Hl; [|done].
  apply andb_prop in Hl as [Hl Hall]. apply andb_prop in Hl as [Hf Hn].
  apply N.ltb_lt in Hf. apply negb_true_iff, bool_decide_eq_false in Hn.
  split_and!; [done|done| |].
  - intros v. simpl. unfold mdb_get. by rewrite bool_decide_false.
  - intros j Hj Heq. apply (digests_forallb _ _ j) in Hall; [|done]. cbv beta iota in Hall.
    rewrite bool_decide_true in Hall by done. by apply bool_decide_eq_true in Hall.
Qed.

Definition ops : list trie_op :=
  [TInsert [1] [10]; TInsert [2] [20]; TInsert [1] [11]; TRemove [2];
   TGet [1]; TGet [2]].
Definition ops' : list trie_op := [TInsert [1] [11]].

Lemma trie_refines_map_witness :
  ∃ self, trie_run ops (TrieDBMut_new mdb_new) =
      (Ok [None; None; Some [10]; Some [20]; Some [11]; None], self) ∧
    tm_get [2] self = Ok None.
Proof.
  destruct (trie_refines_map mdb_new ops) as (self & Hr & Hg).
  - apply mdb_new_ok.
  - apply no_collision_tested. vm_compute. reflexivity.
  - exists self. rewrite Hr, Hg. split; vm_compute; reflexivity.
Defined.

Lemma ran os : (∃ outs, (trie_run os (TrieDBMut_new mdb_new)).1 = Ok outs) →
  ∃ outs, trie_run os (TrieDBMut_new mdb_new) = (Ok outs, (trie_run os (TrieDBMut_new mdb_new)).2).
Proof. intros [outs Ho]. exists outs. rewrite <-Ho. apply surjective_pairing. Qed.

Lemma trie_root_commits_witness :
  tm_root (trie_run ops (TrieDBMut_new mdb_new)).2 = tm_root (trie_run ops' (TrieDBMut_new mdb_new)).2.
Proof.
  destruct (ran ops) as [outs Hr]; [eexists; vm_compute; reflexivity|].
  destruct (ran ops') as [outs' Hr']; [eexists; vm_compute; reflexivity|].
  eapply (trie_root_commits mdb_new ops ops' outs outs');
    [apply mdb_new_ok|apply no_collision_tested; vm_compute; reflexivity|exact Hr|exact Hr'|].
  vm_compute. reflexivity.
Defined.
End TrieWitness.
