(* ===== verification/BTree.v ===== *)
(** Ordered maps: Rust's [BTreeMap] as an association list in increasing order of keys.  An
    ordered map is determined by its bindings, so that a routine that walks one in order and
    a routine that builds one by insertion can be compared. *)
From stdpp Require Import base list numbers sorting.
From Stdlib Require Import NArith Lia.
From S2P Require Import Prelude.

Local Open Scope N_scope.

(** * Keys *)

(** [Ord::cmp], with its laws. *)
Class Compare (K : Type) := cmp : K → K → comparison.
Class CompareOk (K : Type) `{Compare K} := {
  cmp_eq a b : cmp a b = Eq ↔ a = b;
  cmp_opp a b : cmp b a = CompOpp (cmp a b);
  cmp_trans a b c : cmp a b = Lt → cmp b c = Lt → cmp a c = Lt;
}.

#[export] Instance N_compare : Compare N := N.compare.
#[export] Instance N_compare_ok : CompareOk N.
Proof.
  split; unfold cmp, N_compare.
  - apply N.compare_eq_iff.
  - apply N.compare_antisym.
  - intros a b c. rewrite !N.compare_lt_iff. lia.
Qed.

(** Byte strings and hashes are compared lexicographically. *)
Fixpoint bytes_cmp (a b : bytes) : comparison :=
  match a, b with
  | [], [] => Eq
  | [], _ => Lt
  | _, [] => Gt
  | x :: a, y :: b => match N.compare x y with Eq => bytes_cmp a b | c => c end
  end.

#[export] Instance bytes_compare : Compare bytes := bytes_cmp.
#[export] Instance bytes_compare_ok : CompareOk bytes.
Proof.
  split; unfold cmp, bytes_compare.
  - intros a. induction a as [|x a IH]; intros [|y b]; simpl; try done.
    destruct (N.compare_spec x y) as [->|?|?]; [rewrite IH|..]; split; intros; simplify_eq; try done; lia.
  - intros a. induction a as [|x a IH]; intros [|y b]; simpl; try done.
    rewrite (N.compare_antisym x y). by destruct (N.compare x y); simpl.
  - intros a. induction a as [|x a IH]; intros [|y b] [|z c]; simpl; try done.
    destruct (N.compare_spec x y), (N.compare_spec y z), (N.compare_spec x z); subst; try done;
      try lia. eauto.
Qed.

Lemma bytes_cmp_app p a b : bytes_cmp (p ++ a) (p ++ b) = bytes_cmp a b.
Proof. induction p as [|x p IH]; simpl; [done|]. by rewrite N.compare_refl. Qed.

Lemma cmp_refl {K} `{CompareOk K} a : cmp a a = Eq.
Proof. by apply cmp_eq. Qed.
Lemma cmp_gt {K} `{CompareOk K} a b : cmp a b = Gt ↔ cmp b a = Lt.
Proof. rewrite (cmp_opp a b). by destruct (cmp a b). Qed.
Lemma cmp_lt_ne {K} `{CompareOk K} a b : cmp a b = Lt → a ≠ b.
Proof. intros Hlt ->. by rewrite cmp_refl in Hlt. Qed.

(** * Maps *)

Section Maps.
Context {K V : Type} `{Compare K}.

Abbreviation btree := (list (K * V)).

Fixpoint bt_get (m : btree) (k : K) : option V :=
  match m with
  | [] => None
  | (k', v) :: m => match cmp k k' with Eq => Some v | _ => bt_get m k end
  end.

Fixpoint bt_insert (m : btree) (k : K) (v : V) : btree :=
  match m with
  | [] => [(k, v)]
  | (k', v') :: m' =>
      match cmp k k' with
      | Lt => (k, v) :: m
      | Eq => (k, v) :: m'
      | Gt => (k', v') :: bt_insert m' k v
      end
  end.

Fixpoint bt_remove (m : btree) (k : K) : btree :=
  match m with
  | [] => []
  | (k', v) :: m' => match cmp k k' with Eq => m' | _ => (k', v) :: bt_remove m' k end
  end.

(** [iter.collect::<BTreeMap<_, _>>()]: a later binding of a key replaces an earlier one. *)
Definition bt_collect (l : list (K * V)) : btree := foldl (λ m '(k, v), bt_insert m k v) [] l.

Definition before (x y : K * V) : Prop := cmp x.1 y.1 = Lt.
Definition bt_ok (m : btree) : Prop := StronglySorted before m.

Context `{!CompareOk K}.

#[export] Instance before_trans : Transitive before.
Proof. intros x y z. unfold before. apply cmp_trans. Qed.

#[export] Instance before_antisymm : AntiSymm (=) before.
Proof. intros x y. unfold before. rewrite (cmp_opp x.1 y.1). by destruct (cmp _ _). Qed.

Lemma bt_ok_cons k v m : bt_ok ((k, v) :: m) ↔ bt_ok m ∧ ∀ x, x ∈ m → cmp k x.1 = Lt.
Proof.
  unfold bt_ok. split.
  - intros [Hm Hall]%StronglySorted_inv. split; [done|]. by apply Forall_forall.
  - intros [Hm Hall]. constructor; [done|]. by apply Forall_forall.
Qed.

Lemma bt_get_elem m k v : bt_ok m → bt_get m k = Some v ↔ (k, v) ∈ m.
Proof.
  induction m as [|[k' v'] m IH]; intros Hm; simpl; [split; [done|by intros ?%elem_of_nil]|].
  apply bt_ok_cons in Hm as [Hm Hall]. rewrite elem_of_cons. specialize (IH Hm).
  destruct (cmp k k') eqn:E.
  - apply cmp_eq in E as ->. split; [intros [= ->]; by left|].
    intros [[= ->]|Hin]; [done|]. apply Hall in Hin. simpl in Hin. by rewrite cmp_refl in Hin.
  - rewrite IH. split; [by right|]. intros [[= -> ->]|]; [by rewrite cmp_refl in E|done].
  - rewrite IH. split; [by right|]. intros [[= -> ->]|]; [by rewrite cmp_refl in E|done].
Qed.

Lemma bt_insert_elem m k v x : x ∈ bt_insert m k v → x = (k, v) ∨ x ∈ m.
Proof.
  induction m as [|[k' v'] m IH]; simpl; [intros ?%list_elem_of_singleton; by left|].
  destruct (cmp k k'); rewrite !elem_of_cons; naive_solver.
Qed.

Lemma bt_get_key m k v : bt_get m k = Some v → k ∈ m.*1.
Proof.
  induction m as [|[k' v'] m IH]; simpl; [done|].
  destruct (cmp k k') eqn:E; [apply cmp_eq in E as ->; by left|intros ?; right; auto..].
Qed.

Lemma bt_insert_len m k v : len m ≤ len (bt_insert m k v).
Proof.
  induction m as [|[k' v'] m IH]; simpl; [unfold len; simpl; lia|].
  destruct (cmp k k'); rewrite ?len_cons in *; lia.
Qed.

Lemma bt_insert_ok m k v : bt_ok m → bt_ok (bt_insert m k v).
Proof.
  induction m as [|[k' v'] m IH]; intros Hm; simpl; [repeat constructor|].
  apply bt_ok_cons in Hm as [Hm Hall]. destruct (cmp k k') eqn:E; apply bt_ok_cons.
  - apply cmp_eq in E as ->. done.
  - split; [by apply bt_ok_cons|]. intros x [->|Hx]%elem_of_cons; [done|]. eapply cmp_trans; eauto.
  - split; [by apply IH|]. intros x [->|Hx]%bt_insert_elem; [by apply cmp_gt|auto].
Qed.

Lemma bt_get_insert m k v k' :
  bt_ok m → bt_get (bt_insert m k v) k' = match cmp k' k with Eq => Some v | _ => bt_get m k' end.
Proof.
  induction m as [|[k0 v0] m IH]; intros Hm; simpl; [done|].
  apply bt_ok_cons in Hm as [Hm Hall]. destruct (cmp k k0) eqn:E; simpl; [| |].
  - apply cmp_eq in E as ->. by destruct (cmp k' k0).
  - done.
  - rewrite IH by done. destruct (cmp k' k0) eqn:E0; [|done..]. apply cmp_eq in E0 as ->.
    rewrite (cmp_opp k k0), E. done.
Qed.

Lemma bt_elem_insert m k v k' v' :
  bt_ok m → (k', v') ∈ bt_insert m k v ↔ k' = k ∧ v' = v ∨ k' ≠ k ∧ (k', v') ∈ m.
Proof.
  intros Hm. rewrite <-!bt_get_elem by auto using bt_insert_ok. rewrite bt_get_insert by done.
  destruct (cmp k' k) eqn:E; [|pose proof (cmp_lt_ne _ _ E); naive_solver|].
  - apply cmp_eq in E. naive_solver.
  - apply cmp_gt in E. pose proof (cmp_lt_ne _ _ E). naive_solver.
Qed.

Lemma bt_filter_ok m (P : K * V → Prop) `{∀ x, Decision (P x)} : bt_ok m → bt_ok (filter P m).
Proof.
  induction m as [|[k v] m IH]; intros Hm; [done|]. apply bt_ok_cons in Hm as [Hm Hall].
  rewrite filter_cons. case_decide; [|by apply IH]. apply bt_ok_cons. split; [by apply IH|].
  intros x [_ Hx]%list_elem_of_filter. auto.
Qed.

Lemma bt_keys_nodup m : bt_ok m → NoDup m.*1.
Proof.
  induction m as [|[k v] m IH]; intros Hm; [constructor|]. apply bt_ok_cons in Hm as [Hm Hall].
  simpl. constructor; [|by apply IH]. intros ([k' v'] & -> & Hin)%list_elem_of_fmap.
  apply Hall in Hin. simpl in Hin. by rewrite cmp_refl in Hin.
Qed.

Lemma bt_remove_elem m k x : x ∈ bt_remove m k → x ∈ m.
Proof.
  induction m as [|[k' v'] m IH]; simpl; [done|].
  destruct (cmp k k'); rewrite ?elem_of_cons; naive_solver.
Qed.

Lemma bt_remove_ok m k : bt_ok m → bt_ok (bt_remove m k).
Proof.
  induction m as [|[k' v'] m IH]; intros Hm; simpl; [done|].
  apply bt_ok_cons in Hm as [Hm Hall].
  destruct (cmp k k'); [done|apply bt_ok_cons..]; split; eauto using bt_remove_elem.
Qed.

Lemma bt_get_none m k : bt_ok m → bt_get m k = None ↔ ∀ v, (k, v) ∉ m.
Proof.
  intros Hm. destruct (bt_get m k) as [v|] eqn:E.
  - apply bt_get_elem in E; [|done]. split; [done|]. intros Hn. by destruct (Hn v).
  - split; [|done]. intros _ v Hv. apply bt_get_elem in Hv; [|done]. congruence.
Qed.

Lemma bt_remove_none m k : bt_get m k = None → bt_remove m k = m.
Proof.
  induction m as [|[k' v'] m IH]; simpl; [done|].
  destruct (cmp k k'); [done|intros; by rewrite IH..].
Qed.

Lemma bt_get_remove m k k' :
  bt_ok m → bt_get (bt_remove m k) k' = match cmp k' k with Eq => None | _ => bt_get m k' end.
Proof.
  induction m as [|[k0 v0] m IH]; intros Hm; simpl; [by destruct (cmp k' k)|].
  apply bt_ok_cons in Hm as [Hm Hall]. destruct (cmp k k0) eqn:E; simpl.
  1: { apply cmp_eq in E as ->. destruct (cmp k' k0) eqn:E'; [|done..]. apply cmp_eq in E' as ->.
    apply bt_get_none; [done|]. intros v Hv%Hall. simpl in Hv. by rewrite cmp_refl in Hv. }
  all: rewrite IH by done; destruct (cmp k' k0) eqn:E'; [|done..]; apply cmp_eq in E' as ->;
    destruct (cmp k0 k) eqn:E''; try done; apply cmp_eq in E'' as ->; by rewrite cmp_refl in E.
Qed.

(** An ordered map is determined by its bindings. *)
Lemma bt_unique m1 m2 : bt_ok m1 → bt_ok m2 → (∀ k v, (k, v) ∈ m1 ↔ (k, v) ∈ m2) → m1 = m2.
Proof.
  intros H1 H2 Heq.
  assert (∀ m, bt_ok m → NoDup m) as Hnd.
  { induction m as [|[k v] m IH]; [constructor|]. intros [Hm Hall]%bt_ok_cons.
    apply list.NoDup_cons. split; [|auto]. intros Hin%Hall. simpl in Hin. by rewrite cmp_refl in Hin. }
  apply (Sorted_unique before); [by apply StronglySorted_Sorted..|].
  apply NoDup_Permutation; auto. intros [k v]. apply Heq.
Qed.

Lemma bt_ext m1 m2 : bt_ok m1 → bt_ok m2 → (∀ k, bt_get m1 k = bt_get m2 k) → m1 = m2.
Proof.
  intros H1 H2 Heq. apply bt_unique; [done..|]. intros k v. by rewrite <-!bt_get_elem, Heq.
Qed.

Lemma bt_collect_ok l : bt_ok (bt_collect l).
Proof.
  unfold bt_collect. assert (bt_ok (@nil (K * V))) as Hm by constructor. revert Hm.
  generalize (@nil (K * V)). induction l as [|[k v] l IH]; intros m Hm; [done|].
  simpl. by apply IH, bt_insert_ok.
Qed.

Lemma bt_collect_snoc l k v : bt_collect (l ++ [(k, v)]) = bt_insert (bt_collect l) k v.
Proof. unfold bt_collect. by rewrite foldl_app. Qed.
End Maps.
Arguments before {K V _}.
#[export] Hint Resolve bt_insert_ok bt_remove_ok bt_collect_ok : core.
