(* ===== verification/TrieHash.v ===== *)
(** The root of a trie computed at once: util/merkle/src/triehash.rs, and the skewed root of
    skewed.rs.  [trie_root] sorts the hashed keys and writes the nodes from the bottom up,
    without a database; it gives the root that inserting the pairs one after the other
    gives. *)
From stdpp Require Import base gmap list numbers sorting.
From Stdlib Require Import NArith Lia.
From S2P Require Import Prelude Types Crypto Rlp RlpImpls StateCache Nibble TrieNode HashDb Trie.
From S2P Require Import TrieTree TrieRefine TrieSpec BTree.

Local Open Scope N_scope.

(** * The code *)

Fixpoint shared_prefix_len (first second : bytes) : N :=
  match first, second with
  | x :: first, y :: second => if x =? y then 1 + shared_prefix_len first second else 0
  | _, _ => 0
  end.

Definition hex_prefix_encode (nibbles : bytes) : result Empty_set bytes :=
  hex_prefix (λ i, expect (nibbles !! N.to_nat i)) (len nibbles).

Fixpoint as_nibbles (bs : bytes) : bytes :=
  match bs with
  | [] => []
  | b :: bs => N.shiftr b 4 :: N.land b 0xf :: as_nibbles bs
  end.

(** [input.iter().take_while(|pair| pair.0[at] == i).count()] *)
Fixpoint count_nibble (at_ i : N) (input : list (bytes * bytes)) : result Empty_set nat :=
  match input with
  | [] => Ok O
  | (k, _) :: input =>
      n ← expect (k !! N.to_nat at_);
      if n =? i then c ← count_nibble at_ i input; Ok (S c) else Ok O
  end.

Section Code.
Context `{Crypto}.

(** [hash256aux], given what [hash256rlp] writes. *)
Definition hash256aux (below : strm ()) : strm () :=
  out ← lift_st (drain below);
  app H256_codec (blake256 out).

(** One slot per nibble; [below] writes the pairs that share it. *)
Fixpoint write_slots (below : list (bytes * bytes) → strm ()) (at_ : N) (nibbles : list N)
    (input : list (bytes * bytes)) : strm () :=
  match nibbles with
  | [] => mret tt
  | i :: nibbles =>
      len ← lift_st (count_nibble at_ i input);
      _ ← match len with
          | O => append_empty_data
          | _ => hash256aux (below (take len input))
          end;
      write_slots below at_ nibbles (drop len input)
  end.

Fixpoint hash256rlp (fuel : nat) (input : list (bytes * bytes)) (pre_len : N) : strm () :=
  match fuel with
  | O => lift_st Panic
  | S fuel =>
      match input with
      | [] => append_empty_data
      | [(key, value)] =>
          _ ← begin_list 2;
          suffix ← lift_st (Rlp.slice key pre_len (len key));
          path ← lift_st (hex_prefix_encode suffix);
          _ ← app bytes_codec path;
          app bytes_codec value
      | (key, value) :: rest =>
          let shared_prefix :=
            foldl (λ acc '(k, _), N.min (shared_prefix_len key k) acc) (len key) rest in
          _ ← begin_list 17;
          partial ← lift_st (Rlp.slice key pre_len shared_prefix);
          path ← lift_st (hex_prefix_encode partial);
          _ ← app bytes_codec path;
          write_slots (λ input, hash256rlp fuel input (shared_prefix + 1)) shared_prefix
            (N.of_nat <$> seq 0 16) input
      end
  end.

(** Each level consumes a nibble of the keys. *)
Definition keys_fuel (input : list (bytes * bytes)) : nat :=
  match input with (key, _) :: _ => S (length key) | [] => 1%nat end.

Definition gen_trie_root (input : list (bytes * bytes)) : result Empty_set H256 :=
  out ← drain (hash256rlp (keys_fuel input) input 0);
  Ok (blake256 out).

Definition trie_root (input : list (bytes * bytes)) : result Empty_set H256 :=
  let gen_input := (λ '(k, v), (blake256 k, v)) <$> input in
  gen_trie_root ((λ '(k, v), (as_nibbles k, v)) <$> bt_collect gen_input).

(** [skewed_merkle_root] at [Out = H256]. *)
Definition skewed_merkle_root (base : H256) (inputs : list bytes) : H256 :=
  foldl (λ acc input, blake256 (zip_with N.lxor acc (blake256 input))) base inputs.
End Code.

(** * The pairs of a tree, in order *)

Definition under (pre : bytes) (l : list (bytes * bytes)) : list (bytes * bytes) :=
  (λ '(k, v), (pre ++ k, v)) <$> l.

Fixpoint entries (t : tree) : list (bytes * bytes) :=
  match t with
  | TEmpty => []
  | TLeaf p v => [(p, v)]
  | TBranch p cs => under p (mjoin ((λ i, under [i] (entries (cs i))) <$> children_indices))
  end.

Lemma under_elem pre l k v : (k, v) ∈ under pre l ↔ ∃ k', k = pre ++ k' ∧ (k', v) ∈ l.
Proof.
  unfold under. rewrite list_elem_of_fmap. split.
  - intros ([k' v'] & [= -> ->] & Hin). eauto.
  - intros (k' & -> & Hin). by exists (k', v).
Qed.

Lemma under_under p q l : under p (under q l) = under (p ++ q) l.
Proof.
  unfold under. rewrite <-list_fmap_compose. apply list_fmap_ext. intros _ [k v] _. simpl.
  by rewrite app_assoc.
Qed.

Lemma under_nil l : under [] l = l.
Proof. unfold under. rewrite <-(list_fmap_id l) at 2. apply list_fmap_ext. by intros _ [k v] _. Qed.

Lemma under_ok p l : bt_ok l → bt_ok (under p l).
Proof.
  induction l as [|[k v] l IH]; intros Hl; [done|]. apply bt_ok_cons in Hl as [Hl Hall].
  simpl. apply bt_ok_cons. split; [by apply IH|]. intros [k' v'] (k0 & -> & Hin)%under_elem.
  apply Hall in Hin. simpl in *. unfold cmp, bytes_compare in *. by rewrite bytes_cmp_app.
Qed.

Lemma entries_lookup n t k v :
  t_wf n t → length k = n → nibbles_ok k → (k, v) ∈ entries t ↔ t_lookup t k = Some v.
Proof.
  revert n k. induction t as [|p w|p cs IH]; intros n k Hw Hk Hn; cbn [entries].
  - by rewrite elem_of_nil.
  - cbn [t_lookup]. rewrite list_elem_of_singleton. case_bool_decide; naive_solver.
  - destruct Hw as (Hp & Hpn & Hcs & _ & Ho).
    rewrite under_elem. setoid_rewrite list_elem_of_join. setoid_rewrite list_elem_of_fmap.
    split.
    + intros (k' & -> & l & Hin & i & -> & Hi). apply under_elem in Hin as (k0 & -> & Hin).
      change ([i] ++ k0) with (i :: k0) in *. rewrite lookup_below. rewrite length_app in Hk. simpl in Hk.
      apply nibble_app_inv in Hn as [_ Hn]. apply Forall_cons_1 in Hn as [_ Hn].
      eapply IH; [apply Hcs|lia|done|done].
    + intros Hl. destruct (lookup_prefix _ _ _ _ Hl) as [k' ->]. rewrite length_app in Hk.
      destruct k' as [|i k']; [simpl in Hk; lia|]. rewrite lookup_below in Hl. simpl in Hk.
      apply nibble_app_inv in Hn as [_ Hn]. apply Forall_cons_1 in Hn as [Hi Hn].
      exists (i :: k'). split; [done|]. exists (under [i] (entries (cs i))). split.
      * apply under_elem. exists k'. split; [done|]. eapply IH; [apply Hcs|lia|done|done].
      * exists i. split; [done|]. by apply children_indices_elem.
Qed.

(** Concatenation of ordered lists whose first nibbles increase. *)
Lemma slots_ok (f : N → list (bytes * bytes)) l :
  (∀ i, bt_ok (f i)) → StronglySorted N.lt l →
  bt_ok (mjoin ((λ i, under [i] (f i)) <$> l)).
Proof.
  intros Hf. induction 1 as [|i l Hl IH Hall]; [constructor|]. cbn.
  assert (∀ m1 m2 : list (bytes * bytes), bt_ok m1 → bt_ok m2 →
    (∀ x y, x ∈ m1 → y ∈ m2 → before x y) → bt_ok (m1 ++ m2)) as Happ.
  { induction m1 as [|[k v] m1 IH1]; intros m2 H1 H2 H12; [done|].
    apply bt_ok_cons in H1 as [H1 Hk]. simpl. apply bt_ok_cons. split.
    - apply IH1; [done..|]. intros x y Hx Hy. apply H12; [by right|done].
    - intros x [Hx|Hx]%elem_of_app; [auto|]. apply (H12 (k, v) x); [by left|done]. }
  apply Happ; [by apply under_ok|done|].
  intros [k v] [k' v'] (k0 & -> & _)%under_elem (m & Hm & Hin)%list_elem_of_join.
  apply list_elem_of_fmap in Hin as (j & -> & Hj). apply under_elem in Hm as (k1 & -> & _).
  rewrite Forall_forall in Hall. apply Hall in Hj. unfold before, cmp, bytes_compare. simpl.
  by rewrite (proj2 (N.compare_lt_iff i j)).
Qed.

Lemma children_indices_sorted : StronglySorted N.lt children_indices.
Proof. repeat constructor. Qed.

Lemma entries_ok t : bt_ok (entries t).
Proof.
  induction t as [|p v|p cs IH]; cbn [entries]; [constructor|repeat constructor|].
  apply under_ok, slots_ok; [done|]. apply children_indices_sorted.
Qed.

(** The ordered list that agrees with the tree is the list of its entries. *)
Lemma entries_unique n t l :
  t_wf n t → bt_ok l → (∀ k v, (k, v) ∈ l → length k = n ∧ nibbles_ok k) →
  (∀ k, length k = n → nibbles_ok k → bt_get l k = t_lookup t k) → l = entries t.
Proof.
  intros Hw Hl Hk Hg. apply bt_unique; [done|apply entries_ok|]. intros k v.
  assert (∀ t n, t_wf n t → (k, v) ∈ entries t → length k = n ∧ nibbles_ok k) as Hen.
  { clear. intros t. revert k. induction t as [|p w|p cs IH]; intros k n Hw Hin; cbn [entries] in Hin.
    - by apply elem_of_nil in Hin.
    - apply list_elem_of_singleton in Hin as [= -> ->]. done.
    - destruct Hw as (Hp & Hpn & Hcs & _). apply under_elem in Hin as (k' & -> & Hin).
      apply list_elem_of_join in Hin as (m & Hm & Hin).
      apply list_elem_of_fmap in Hin as (i & -> & Hi). apply under_elem in Hm as (k0 & -> & Hin).
      destruct (IH i k0 _ (Hcs i) Hin) as [Hl0 Hn0]. rewrite !length_app. simpl. split; [lia|].
      apply Forall_app. split; [done|]. constructor; [|done]. by apply children_indices_elem. }
  split.
  - intros Hin. destruct (Hk k v Hin) as [Hkl Hkn].
    apply (entries_lookup n); [done..|]. rewrite <-Hg by done. by apply bt_get_elem.
  - intros Hin. destruct (Hen t n Hw Hin) as [Hkl Hkn]. apply (entries_lookup n) in Hin; [|done..].
    apply bt_get_elem; [done|]. by rewrite Hg.
Qed.

(** * The nodes the code writes *)

Lemma shared_prefix_len_cpl a b : shared_prefix_len a b = N.of_nat (cpl a b).
Proof.
  revert b. induction a as [|x a IH]; intros [|y b]; simpl; [done..|].
  destruct (x =? y); [|done]. rewrite IH. lia.
Qed.

Lemma cpl_app q a b : cpl (q ++ a) (q ++ b) = (length q + cpl a b)%nat.
Proof. induction q as [|x q IH]; simpl; [done|]. by rewrite N.eqb_refl, IH. Qed.

Lemma shared_fold (key q : bytes) acc (rest : list (bytes * bytes)) :
  (∀ k v, (k, v) ∈ rest → len q ≤ shared_prefix_len key k) → len q ≤ acc →
  len q = acc ∨ (∃ k v, (k, v) ∈ rest ∧ shared_prefix_len key k = len q) →
  foldl (λ acc '(k, _), N.min (shared_prefix_len key k) acc) acc rest = len q.
Proof.
  revert acc. induction rest as [|[k v] rest IH]; intros acc Hall Hacc Hex; simpl.
  - destruct Hex as [->|(k & v & Hin & _)]; [done|]. by apply elem_of_nil in Hin.
  - pose proof (Hall k v (list_elem_of_here _ _)) as Hk. apply IH.
    + intros k' v' Hin. eapply Hall. by right.
    + lia.
    + destruct Hex as [Ha|(k' & v' & [[= -> ->]|Hin]%elem_of_cons & Heq)]; [left; lia| |right; eauto].
      left. rewrite Heq in *. lia.
Qed.

Lemma count_nibble_group at_ i l rest :
  (∀ k v, (k, v) ∈ l → k !! N.to_nat at_ = Some i) →
  match rest with [] => True | (k, _) :: _ => ∃ j, k !! N.to_nat at_ = Some j ∧ j ≠ i end →
  count_nibble at_ i (l ++ rest) = Ok (length l).
Proof.
  intros Hl Hr. induction l as [|[k v] l IH]; simpl.
  - destruct rest as [|[k v] rest]; [done|]. destruct Hr as (j & Hj & Hne). simpl. rewrite Hj.
    simpl. by rewrite (proj2 (N.eqb_neq _ _)).
  - rewrite (Hl k v (list_elem_of_here _ _)). simpl. rewrite N.eqb_refl, IH; [done|].
    intros k' v' Hin. eapply Hl. by right.
Qed.

Section Nodes.
Context `{CryptoLaws}.

Lemma hash256aux_run below out s :
  drain below = Ok out → hash256aux below s = append_child (Some (blake256 out)) s.
Proof. intros Hd. unfold hash256aux. by rewrite (bind_lift _ _ _ _ Hd). Qed.

Lemma bind_ext {A B} (m m' : strm A) (f f' : A → strm B) s :
  (∀ c, m c = m' c) → (∀ a c, f a c = f' a c) → (m ≫= f) s = (m' ≫= f') s.
Proof. intros Hm Hf. unfold mbind, stM_bind. rewrite Hm. by destruct (m' s) as [[]]. Qed.

(** The groups in the order of their nibble, each written as the slot [h i]. *)
Lemma write_slots_run below at_ (grp : N → list (bytes * bytes)) (h : N → option H256) l s :
  StronglySorted N.lt l →
  (∀ i k v, (k, v) ∈ grp i → k !! N.to_nat at_ = Some i) →
  (∀ i, match grp i with
        | [] => h i = None
        | g => ∃ out, drain (below g) = Ok out ∧ h i = Some (blake256 out)
        end) →
  write_slots below at_ l (mjoin (grp <$> l)) s = chain ((λ i, append_child (h i)) <$> l) s.
Proof.
  intros Hs Hg Hh. revert s. induction Hs as [|i l Hs IH Hall]; intros s; [done|].
  rewrite !fmap_cons. change (mjoin (grp i :: (grp <$> l))) with (grp i ++ mjoin (grp <$> l)).
  cbn [write_slots].
  assert (count_nibble at_ i (grp i ++ mjoin (grp <$> l)) = Ok (length (grp i))) as Hc.
  { apply count_nibble_group; [eauto|]. destruct (mjoin (grp <$> l)) as [|[k v] rest] eqn:E; [done|].
    assert ((k, v) ∈ mjoin (grp <$> l)) as Hin by (rewrite E; by left).
    apply list_elem_of_join in Hin as (m & Hm & Hj). apply list_elem_of_fmap in Hj as (j & -> & Hj).
    exists j. split; [by eapply Hg|]. rewrite Forall_forall in Hall. apply Hall in Hj. lia. }
  rewrite (bind_lift _ _ _ _ Hc), drop_app_length. specialize (Hh i).
  apply bind_ext; [|intros _; exact IH]. intros c. rewrite take_app_length. unfold id.
  destruct (grp i) as [|x g]; [by rewrite Hh|]. destruct Hh as (out & Hd & ->). by apply hash256aux_run.
Qed.

Lemma encodes_ext (f g : strm ()) i : (∀ s, f s = g s) → encodes g i → encodes f i.
Proof. intros Hfg. destruct i; simpl; intros Hg; intros; rewrite Hfg; by apply Hg. Qed.

Lemma hex_prefix_encode_hp p : nibbles_ok p → hex_prefix_encode p = Ok (hp p).
Proof.
  intros Hp. unfold hex_prefix_encode. apply hex_prefix_hp; [done|]. intros j x Hj. by rewrite Hj.
Qed.
Lemma under_join p ls : under p (mjoin ls) = mjoin (under p <$> ls).
Proof.
  induction ls as [|l ls IH]; [done|]. rewrite fmap_cons.
  change (under p (l ++ mjoin ls) = under p l ++ mjoin (under p <$> ls)).
  unfold under in *. by rewrite fmap_app, IH.
Qed.

(** The pairs below slot [i] of a branch at [q]. *)
Definition group (q : bytes) (cs : N → tree) (i : N) : list (bytes * bytes) :=
  under (q ++ [i]) (entries (cs i)).

Lemma branch_groups pre p cs :
  under pre (entries (TBranch p cs)) = mjoin (group (pre ++ p) cs <$> children_indices).
Proof.
  cbn [entries]. rewrite under_under, under_join, <-list_fmap_compose. f_equal.
  apply list_fmap_ext. intros _ i _. simpl. apply under_under.
Qed.

Lemma group_elem q cs k v :
  (k, v) ∈ mjoin (group q cs <$> children_indices) ↔
  ∃ i k', i < 16 ∧ k = q ++ i :: k' ∧ (k', v) ∈ entries (cs i).
Proof.
  rewrite list_elem_of_join. setoid_rewrite list_elem_of_fmap. unfold group. split.
  - intros (l & Hin & i & -> & Hi). apply under_elem in Hin as (k' & -> & Hin).
    exists i, k'. rewrite <-app_assoc. split_and!; [by apply children_indices_elem|done|done].
  - intros (i & k' & Hi & -> & Hin). exists (under (q ++ [i]) (entries (cs i))).
    split; [apply under_elem; exists k'; by rewrite <-app_assoc|].
    exists i. split; [done|]. by apply children_indices_elem.
Qed.

(** A branch has two pairs that part after [q]. *)
Lemma branch_input n p q cs :
  t_wf n (TBranch p cs) →
  ∃ i suffix v x rest,
    mjoin (group q cs <$> children_indices) = (q ++ i :: suffix, v) :: x :: rest ∧
    foldl (λ acc '(k, _), N.min (shared_prefix_len (q ++ i :: suffix) k) acc)
      (len (q ++ i :: suffix)) (x :: rest) = len q.
Proof.
  intros (_ & _ & Hcs & (i1 & i2 & Hne & H1 & H2) & Ho).
  assert (∀ i, cs i ≠ TEmpty → ∃ k v, (q ++ i :: k, v) ∈ mjoin (group q cs <$> children_indices)) as Hin.
  { intros i Hi. destruct (t_inhabited _ _ (Hcs i) Hi) as (k & v & Hk & Hn & Hl).
    exists k, v. apply group_elem. exists i, k. split_and!; [|done|].
    - destruct (N.lt_ge_cases i 16); [done|]. by destruct Hi; apply Ho.
    - by eapply entries_lookup. }
  pose proof (group_elem q cs) as Hel.
  destruct (mjoin (group q cs <$> children_indices)) as [|[key v] rest].
  { destruct (Hin i1 H1) as (? & ? & Hnil). by apply elem_of_nil in Hnil. }
  destruct (proj1 (Hel key v) (list_elem_of_here _ _)) as (i & suffix & _ & -> & _).
  assert (∃ j k w, j ≠ i ∧ (q ++ j :: k, w) ∈ rest) as (j & k & w & Hj & Hrest).
  { assert (∃ j, j ≠ i ∧ cs j ≠ TEmpty) as (j & Hj & Hcj).
    { destruct (decide (i1 = i)) as [<-|]; [exists i2|exists i1]; auto. }
    destruct (Hin j Hcj) as (k & w & [Heq|Hr]%elem_of_cons); [|by exists j, k, w].
    injection Heq as Heq _. apply app_inv_head in Heq. congruence. }
  assert (foldl (λ acc '(k, _), N.min (shared_prefix_len (q ++ i :: suffix) k) acc)
    (len (q ++ i :: suffix)) rest = len q) as Hf.
  { apply shared_fold.
    - intros k' v' Hk'. destruct (proj1 (Hel k' v') (list_elem_of_further _ _ _ Hk'))
        as (i' & s' & _ & -> & _). rewrite shared_prefix_len_cpl, cpl_app. unfold len. lia.
    - rewrite len_app. lia.
    - right. exists (q ++ j :: k), w. split; [done|].
      rewrite shared_prefix_len_cpl, cpl_app. simpl. rewrite (proj2 (N.eqb_neq i j)) by done.
      unfold len. lia. }
  destruct rest as [|x rest]; [by apply elem_of_nil in Hrest|]. by exists i, suffix, v, x, rest.
Qed.
Lemma chain_one m c : chain [m] c = m c.
Proof.
  unfold chain. cbn [for_each]. unfold id, mbind, stM_bind. by destruct (m c) as [[[]|[]|] ?].
Qed.

Lemma hash256rlp_leaf fuel pre p v :
  nibbles_ok p → encodes (hash256rlp (S fuel) [(pre ++ p, v)] (len pre)) (leaf_item p v).
Proof.
  intros Hp. eapply (encodes_ext _ (rlp_list 2 [app bytes_codec (hp p); app bytes_codec v])).
  - intros s. cbn [hash256rlp]. unfold rlp_list. apply bind_ext; [done|]. intros _ c.
    pose proof (slice_app (E:=Empty_set) pre p []) as Hs. rewrite app_nil_r, <-len_app in Hs.
    run_tac Hs. run_tac (hex_prefix_encode_hp p Hp). apply bind_ext; [done|]. intros _ c'.
    symmetry. apply chain_one.
  - apply rlp_list_encodes; [|done]. repeat constructor; apply append_appends, encode_value_encodes.
Qed.

Lemma hash256rlp_encodes fuel n t pre :
  t_wf n t → t ≠ TEmpty → (n < fuel)%nat → (∀ x, x ∈ items t → fits x) →
  encodes (hash256rlp fuel (under pre (entries t)) (len pre)) (node_item t).
Proof.
  revert fuel n pre. induction t as [|p v|p cs IH]; intros fuel n pre Hw Hne Hfuel Hfit; [done|..];
    (destruct fuel as [|fuel]; [lia|]).
  - destruct Hw as [_ Hp]. by apply hash256rlp_leaf.
  - set (q := pre ++ p). destruct (branch_input n p q cs Hw) as (i & suffix & v & x & rest & Hin & Hsh).
    destruct Hw as (Hp & Hpn & Hcs & _ & Ho).
    eapply (encodes_ext _ (rlp_list 17 (app bytes_codec (hp p) :: (append_child <$> child_hashes cs)))).
    + intros s. rewrite branch_groups. fold q. rewrite Hin. cbn [hash256rlp]. rewrite Hsh, <-Hin.
      unfold rlp_list. apply bind_ext; [done|]. intros _ c.
      pose proof (slice_app (E:=Empty_set) pre p (i :: suffix)) as Hs.
      rewrite app_assoc, <-len_app in Hs. fold q in Hs.
      run_tac Hs. run_tac (hex_prefix_encode_hp p Hpn). apply bind_ext; [done|]. intros _ c'.
      unfold child_hashes. rewrite <-list_fmap_compose. apply write_slots_run.
      * apply children_indices_sorted.
      * intros j k w (k' & -> & _)%under_elem. unfold len.
        rewrite <-app_assoc, lookup_app_r, Nat2N.id, Nat.sub_diag by lia. done.
      * intros j. destruct (is_empty_tree (cs j)) eqn:Ej.
        { apply is_empty_tree_spec in Ej. unfold group. rewrite Ej. done. }
        assert (cs j ≠ TEmpty) as Hj by (intros E; by rewrite E in Ej).
        assert (j < 16) as Hj16 by (destruct (N.lt_ge_cases j 16); [done|by destruct Hj; apply Ho]).
        destruct (group q cs j) as [|y g] eqn:Eg.
        { destruct (t_inhabited _ _ (Hcs j) Hj) as (k & w & Hk & Hn & Hl).
          eapply entries_lookup in Hl; [|apply Hcs|done|done]. unfold group, under in Eg.
          apply fmap_nil_inv in Eg. rewrite Eg in Hl. by apply elem_of_nil in Hl. }
        exists (enc (node_item (cs j))). split; [|by apply hash_of_node]. rewrite <-Eg.
        replace (len q + 1) with (len (q ++ [j])) by (by rewrite len_app).
        apply drain_encodes; [|by eapply Hfit, items_child, items_node].
        eapply IH; [apply Hcs|done|lia|]. intros z Hz. by eapply Hfit, items_child.
    + apply rlp_list_encodes; [|rewrite len_cons; done].
      constructor; [apply append_appends, encode_value_encodes|].
      apply Forall2_fmap_l, Forall2_fmap_r, Forall_Forall2_diag, Forall_forall.
      intros c _. apply append_child_appends.
Qed.
End Nodes.

(** * Sorting by bytes and by nibbles *)

Lemma as_nibbles_nibs bs : as_nibbles bs = nibs bs.
Proof. induction bs as [|b bs IH]; simpl; [done|]. by rewrite IH. Qed.

Lemma nibble_cmp x y :
  N.compare x y = match N.compare (x / 16) (y / 16) with
                  | Eq => N.compare (x mod 16) (y mod 16)
                  | c => c
                  end.
Proof.
  destruct (N.compare_spec (x / 16) (y / 16)) as [Hq|Hq|Hq];
    [|apply N.compare_lt_iff; lia_div|apply N.compare_gt_iff; lia_div].
  destruct (N.compare_spec (x mod 16) (y mod 16)) as [Hr|Hr|Hr];
    [apply N.compare_eq_iff; lia_div|apply N.compare_lt_iff; lia_div|apply N.compare_gt_iff; lia_div].
Qed.

Lemma nibs_cmp a b : cmp (nibs a) (nibs b) = cmp a b.
Proof.
  unfold cmp, bytes_compare. revert b.
  induction a as [|x a IH]; intros [|y b]; cbn [nibs bytes_cmp]; [done..|].
  rewrite !shiftr_4, !land_15, (nibble_cmp x y). destruct (N.compare (x / 16) (y / 16)); [|done..].
  destruct (N.compare (x mod 16) (y mod 16)); [apply IH|done..].
Qed.

Definition by_nibbles (m : list (bytes * bytes)) : list (bytes * bytes) :=
  (λ '(k, v), (as_nibbles k, v)) <$> m.

Lemma by_nibbles_ok m : bt_ok m → bt_ok (by_nibbles m).
Proof.
  induction m as [|[k v] m IH]; intros Hm; [done|]. apply bt_ok_cons in Hm as [Hm Hall].
  unfold by_nibbles. rewrite fmap_cons. apply bt_ok_cons. split; [by apply IH|].
  intros x ([k' v'] & -> & Hin)%list_elem_of_fmap. apply Hall in Hin. simpl in *.
  by rewrite !as_nibbles_nibs, nibs_cmp.
Qed.

Lemma by_nibbles_get m k : bt_get (by_nibbles m) (nibs k) = bt_get m k.
Proof.
  unfold by_nibbles. induction m as [|[k' v] m IH]; [done|]. rewrite fmap_cons. cbn [bt_get].
  rewrite (as_nibbles_nibs k'), nibs_cmp. by destruct (cmp k k').
Qed.

(** * The root at once is the root by insertion *)

Section Root.
Context `{CryptoLaws} {D : Type} `{HD : HashDB D} `{!HashDBLaws D}.

Definition insert_all (input : list (bytes * bytes)) : list trie_op :=
  (λ '(k, v), TInsert k v) <$> input.

Definition hash_keys (input : list (bytes * bytes)) : list (H256 * bytes) :=
  (λ '(k, v), (blake256 k, v)) <$> input.

Lemma insert_all_cons k v input m :
  (map_run (insert_all ((k, v) :: input)) m).2 =
  (map_run (insert_all input) (<[blake256 k := v]> m)).2.
Proof.
  unfold insert_all. rewrite fmap_cons. cbn [map_run map_exec]. by destruct (map_run _ _).
Qed.

Lemma insert_all_map input h :
  (map_run (insert_all input) ∅).2 !! h = bt_get (bt_collect (hash_keys input)) h.
Proof.
  assert (∀ m b, bt_ok b → (∀ h, m !! h = bt_get b h) →
    (map_run (insert_all input) m).2 !! h =
    bt_get (foldl (λ m '(k, v), bt_insert m k v) b (hash_keys input)) h) as Hgen.
  { induction input as [|[k v] input IH]; intros m b Hb Hm; [apply Hm|].
    rewrite insert_all_cons. cbn. apply IH; [by apply bt_insert_ok|]. intros h'. rewrite bt_get_insert by done.
    destruct (cmp h' (blake256 k)) eqn:Ec.
    - apply cmp_eq in Ec as ->. by rewrite lookup_insert_eq.
    - rewrite lookup_insert_ne; [done|]. intros <-. by rewrite cmp_refl in Ec.
    - rewrite lookup_insert_ne; [done|]. intros <-. by rewrite cmp_refl in Ec. }
  apply Hgen; [constructor|]. intros h'. by rewrite lookup_empty.
Qed.

Lemma collected_keys input k v :
  (k, v) ∈ by_nibbles (bt_collect (hash_keys input)) → length k = 64%nat ∧ nibbles_ok k.
Proof.
  intros ([h w] & [= -> ->] & Hin)%list_elem_of_fmap.
  assert (hashed (map_run (insert_all input) ∅).2) as Hh
    by (apply map_run_hashed; intros ? [? ?]; done).
  apply bt_get_elem in Hin; [|apply bt_collect_ok]. rewrite <-insert_all_map in Hin.
  destruct (Hh h) as [Hl Hb]; [by eexists|]. rewrite as_nibbles_nibs, nibs_length.
  split; [unfold len in Hl; lia|]. by apply nibs_ok.
Qed.

(** The ordered pairs are those of the tree that insertion builds. *)
Lemma collected_entries input t :
  t_wf 64 t → agrees t (map_run (insert_all input) ∅).2 →
  by_nibbles (bt_collect (hash_keys input)) = entries t.
Proof.
  intros Hw Ha. apply (entries_unique 64); [done|apply by_nibbles_ok, bt_collect_ok| |].
  - apply collected_keys.
  - intros k Hk Hn. assert (len (pack k) = 32) by (unfold len; by rewrite pack_length, Hk).
    rewrite <-(nibs_pack k Hn) by (by rewrite Hk).
    rewrite by_nibbles_get, <-insert_all_map, Ha; [done|done|by apply pack_ok].
Qed.

Lemma insert_all_some input m k :
  (∃ v, (k, v) ∈ input) ∨ is_Some (m !! blake256 k) →
  is_Some ((map_run (insert_all input) m).2 !! blake256 k).
Proof.
  revert m. induction input as [|[k' v'] input IH]; intros m Hor.
  { destruct Hor as [[v Hin]|]; [by apply elem_of_nil in Hin|done]. }
  rewrite insert_all_cons. apply IH.
  destruct Hor as [[v [[= -> ->]|Hin]%elem_of_cons]|Hs]; [right|left; eauto|right];
    rewrite lookup_insert_is_Some'; auto.
Qed.

Lemma collected_fuel input t :
  t_wf 64 t → agrees t (map_run (insert_all input) ∅).2 → t ≠ TEmpty →
  (64 < keys_fuel (entries t))%nat.
Proof.
  intros Hw Ha Hne. pose proof (collected_keys input) as Hk.
  rewrite (collected_entries input t Hw Ha) in Hk. destruct (entries t) as [|[k v] l] eqn:E.
  - destruct (t_inhabited 64 t Hw Hne) as (k & v & Hkl & Hkn & Hl).
    apply (entries_lookup 64) in Hl; [|done..]. rewrite E in Hl. by apply elem_of_nil in Hl.
  - destruct (Hk k v (list_elem_of_here _ _)) as [Hkl _]. simpl. lia.
Qed.

(** C14: The batch root of some pairs is the root of a new trie after inserting them one by one:
    as long as the nodes insertion writes fit and do not collide.  Of no pairs it is the
    digest of empty data. *)
Theorem trie_root_inserts (db : D) (input : list (bytes * bytes)) :
  db_ok db → no_collision db (written (insert_all input)) →
  trie_root input = Ok match input with
                       | [] => blake256 NULL_RLP
                       | _ => tm_root (trie_run (insert_all input) (TrieDBMut_new db)).2
                       end.
Proof.
  intros Hok Hnc. destruct input as [|[k0 v0] input0]; [done|]. set (input := (k0, v0) :: input0) in *.
  destruct (trie_run_holds (written (insert_all input)) (insert_all input) (TrieDBMut_new db) TEmpty ∅)
    as (self & t & Hr & (Hw & _ & _ & Hroot) & Ha & Hi); [by apply holds_new|apply agrees_empty|done|done|].
  rewrite Hr. cbn [snd]. rewrite Hroot.
  assert (t ≠ TEmpty) as Hne.
  { intros ->. destruct (key_ok k0) as (Hl & Hb & _). specialize (Ha _ Hl Hb).
    destruct (insert_all_some input ∅ k0) as [v Hv]; [left; by exists v0; left|].
    rewrite Hv in Ha. done. }
  assert (items t ⊆ written (insert_all input)) as Hit by (by destruct Hi as [->|]).
  unfold trie_root, gen_trie_root. change ((λ '(k, v), (blake256 k, v)) <$> input) with (hash_keys input).
  change ((λ '(k, v), (as_nibbles k, v)) <$> ?m) with (by_nibbles m).
  rewrite (collected_entries input t) by done.
  pose proof (collected_fuel input t Hw Ha Hne) as Hfuel.
  rewrite <-(under_nil (entries t)) at 2.
  pose proof (hash256rlp_encodes (keys_fuel (entries t)) 64 t [] Hw Hne Hfuel) as He.
  rewrite (drain_encodes _ (node_item t)).
  - unfold root_of. by rewrite hash_of_node.
  - apply He. intros x Hx. by apply Hnc, Hit.
  - by apply Hnc, Hit, items_node.
Qed.
End Root.

(** * Example *)

Module TrieHashWitness.
Definition input : list (bytes * bytes) := [([2], [20]); ([1], [10]); ([2], [21]); ([3], [30])].

Lemma trie_root_inserts_witness :
  let C := TrieWitness.crypto in
  trie_root (H := C) input =
    Ok (tm_root (trie_run (H := C) (insert_all input) (TrieDBMut_new (D := MemoryDB) mdb_new)).2).
Proof.
  apply (trie_root_inserts (H0 := TrieWitness.laws) (D := MemoryDB) mdb_new input).
  - apply TrieWitness.mdb_new_ok.
  - apply TrieWitness.no_collision_tested. vm_compute. reflexivity.
Defined.
End TrieHashWitness.
