(* ===== verification/StateCommit.v ===== *)
(** Committing a cache to a Merkle trie: the caches of StateCache.v over the trie of Trie.v,
    with items in their RLP form.  [sc_commit] is [ShardCache::commit] of
    state/src/cache/shard_cache.rs.  The main fact is that a commit always succeeds and that
    the trie alone then shows what the caches showed over the old one. *)
From stdpp Require Import base gmap list numbers.
From Stdlib Require Import NArith Lia.
From S2P Require Import Prelude Types Crypto Rlp RlpImpls StateCache StateItems ShardState.
From S2P Require Import Nibble TrieNode HashDb Trie TrieTree TrieRefine TrieSpec.

Local Open Scope N_scope.

(** * Items in the trie *)

Section Code.
Context `{Crypto} {D : Type} `{HD : HashDB D}.

(** [trie.insert(address.as_ref(), &item.rlp_bytes())?] *)
Definition item_insert {Item : Type} (c : Codec Item) (a : bytes) (x : Item)
  : stM (TrieDBMut D) TrieError.t () :=
  bs ← lift_st (unwrap (drain (rlp_append c x)));
  _ ← tm_insert a bs;
  mret tt.

(** [trie.remove(address.as_ref())?] *)
Definition item_remove (a : bytes) : stM (TrieDBMut D) TrieError.t () :=
  _ ← tm_remove a;
  mret tt.

(** [TrieFactory::readonly(db, root)?.get_with(a.as_ref(), ::rlp::decode::<Item>)] *)
Definition item_get {Item : Type} (c : Codec Item) (self : TrieDBMut D) (a : bytes)
  : trieR (option Item) :=
  _ ← try_new (tm_db self) (tm_root self);
  o ← get_with (tm_db self) (tm_root self) a (decode c);
  match o with
  | Some r => x ← unwrap r; Ok (Some x)
  | None => Ok None
  end.

(** A commit through a place inside a larger state. *)
Definition commit_at {S Item : Type} (get : S → WriteBack Item) (set : WriteBack Item → S → S)
    (c : Codec Item) (order : list bytes) : stM (S * TrieDBMut D) TrieError.t () := λ '(s, trie),
  let '(r, (wb, trie)) := wb_commit (item_insert c) item_remove order (get s, trie) in
  (r, (set wb s, trie)).

Definition sc_commit (schemes assets : list bytes) : stM (ShardCache * TrieDBMut D) TrieError.t () :=
  _ ← commit_at sc_asset_scheme (λ wb s, {| sc_asset_scheme := wb; sc_asset := sc_asset s |})
        AssetScheme_codec schemes;
  commit_at sc_asset (λ wb s, {| sc_asset_scheme := sc_asset_scheme s; sc_asset := wb |})
        OwnedAsset_codec assets.
End Code.

(** * Commits as sequences of calls on the trie *)

Section Commit.
Context `{CryptoLaws} {D : Type} `{HD : HashDB D} `{!HashDBLaws D}.

Definition commit_op {Item} (c : Codec Item) `{CodecOk Item c} (wb : WriteBack Item) (a : bytes)
  : list trie_op :=
  match wb_cache wb !! a with
  | Some {| e_item := Some x; e_is_dirty := true |} => [TInsert a (enc (item c x))]
  | Some {| e_item := None; e_is_dirty := true |} => [TRemove a]
  | _ => []
  end.

Definition commit_ops {Item} (c : Codec Item) `{CodecOk Item c} (wb : WriteBack Item)
    (order : list bytes) : list trie_op := mjoin (commit_op c wb <$> order).

(** The walk covers the cache, clean entries agree with the trie, and items can be encoded. *)
Record commitable {Item} (c : Codec Item) `{CodecOk Item c} (self : TrieDBMut D)
    (order : list bytes) (wb : WriteBack Item) : Prop := {
  co_nodup : NoDup order;
  co_covers a e : wb_cache wb !! a = Some e → a ∈ order;
  co_clean a e : wb_cache wb !! a = Some e → entry_ok (item_get c self) a e;
  co_items a e x : wb_cache wb !! a = Some e → e_item e = Some x → wf c x ∧ fits (item c x);
}.

(** ** Reading *)

Lemma get_aux_query {Item} (db : D) (q : bytes → Item) fuel path h :
  get_aux db q fuel path h =
  mbind (M:=result TrieError.t) (λ o, Ok (option_map q o)) (get_aux db id fuel path h).
Proof.
  revert path h. induction fuel as [|fuel IH]; intros path [h|]; [done..| |done]. cbn [get_aux].
  destruct (read_node db h) as [[[s v|s cs]|]| |]; [..|done|done]; rewrite !Ok_bind; [| |done].
  - destruct (ns_eq s path) as [[]| |]; done.
  - destruct (ns_starts_with path s) as [[]| |]; [|done..]. rewrite !Ok_bind.
    destruct (ns_at _ 0) as [i| |]; [|done..]. rewrite !Ok_bind.
    destruct (child_of cs i) as [child| |]; [|done..]. rewrite !Ok_bind. apply IH.
Qed.

Lemma item_get_run {Item} (c : Codec Item) self t m a :
  holds self t → agrees t m →
  item_get c self a = match m !! blake256 a with
                      | Some bs => x ← unwrap (decode c bs); Ok (Some x)
                      | None => Ok None
                      end.
Proof.
  intros Hh Ha. pose proof (tm_get_run self t a Hh) as Hg. unfold tm_get in Hg. unfold item_get.
  destruct (try_new _ _) as [[]| |]; [|done..]. rewrite Ok_bind in Hg. rewrite Ok_bind.
  unfold get_with in *. rewrite get_aux_query, Hg, Ok_bind.
  destruct (key_ok a) as (Hl & Hb & _). unfold key_path. rewrite (Ha _ Hl Hb). by destruct (m !! blake256 a).
Qed.

(** ** Writing *)

Definition clean_at {Item} (wb : WriteBack Item) (a : bytes) : WriteBack Item :=
  match wb_cache wb !! a with
  | Some e =>
      if e_is_dirty e then
        {| wb_cache := <[a := new_clean (e_item e)]> (wb_cache wb);
           wb_checkpoints := wb_checkpoints wb |}
      else wb
  | None => wb
  end.

Lemma commit_entry_run {Item} (c : Codec Item) `{CodecOk Item c} wb a self outs self' :
  (∀ e x, wb_cache wb !! a = Some e → e_item e = Some x → fits (item c x)) →
  trie_run (commit_op c wb a) self = (Ok outs, self') →
  wb_commit_entry (item_insert c) item_remove a (wb, self) = (Ok tt, (clean_at wb a, self')).
Proof.
  intros Hi Hr. unfold wb_commit_entry, commit_op, clean_at in *.
  destruct (wb_cache wb !! a) as [[[x|] [|]]|]; cbn [e_item e_is_dirty] in *;
    try (by cbn in Hr; unfold mret, stM_ret in Hr; simplify_eq).
  - cbn [trie_run trie_exec] in Hr. unfold item_insert.
    assert (unwrap (F:=TrieError.t) (drain (rlp_append c x)) = Ok (enc (item c x))) as Hd.
    { erewrite drain_encodes; [done|apply codec_encodes|]. by eapply Hi. }
    run_tac Hd. unfold mbind, stM_bind, mret, stM_ret in *.
    destruct (tm_insert a (enc (item c x)) self) as [[]]; by simplify_eq/=.
  - cbn [trie_run trie_exec] in Hr. unfold item_remove, mbind, stM_bind, mret, stM_ret in *.
    destruct (tm_remove a self) as [[]]; by simplify_eq/=.
Qed.

Lemma trie_run_app ops1 ops2 (s : TrieDBMut D) outs s'' :
  trie_run (ops1 ++ ops2) s = (Ok outs, s'') →
  ∃ o1 o2 s', trie_run ops1 s = (Ok o1, s') ∧ trie_run ops2 s' = (Ok o2, s'').
Proof.
  revert s outs. induction ops1 as [|o ops1 IH]; intros s outs Hr; [by exists [], outs, s|].
  rewrite <-app_comm_cons in Hr. cbn [trie_run] in *. unfold mbind, stM_bind, mret, stM_ret in *.
  destruct (trie_exec o s) as [[r| |] s1]; [|done..].
  destruct (trie_run (ops1 ++ ops2) s1) as [[rs| |] s2] eqn:E; simplify_eq/=.
  destruct (IH _ _ E) as (o1 & o2 & s' & H1 & H2). rewrite H1. by exists (r :: o1), o2, s'.
Qed.

Lemma commit_op_clean {Item} (c : Codec Item) `{CodecOk Item c} wb a b :
  a ≠ b → commit_op c (clean_at wb a) b = commit_op c wb b.
Proof.
  intros Hab. unfold commit_op, clean_at. destruct (wb_cache wb !! a) as [e|]; [|done].
  destruct (e_is_dirty e); [|done]. simpl. by rewrite lookup_insert_ne.
Qed.

Lemma commit_ops_clean {Item} (c : Codec Item) `{CodecOk Item c} wb a order :
  a ∉ order → commit_ops c (clean_at wb a) order = commit_ops c wb order.
Proof.
  intros Ha. unfold commit_ops. f_equal. apply list_fmap_ext. intros i b Hb.
  apply commit_op_clean. intros ->. by apply Ha, list_elem_of_lookup_2 with i.
Qed.

Lemma clean_at_item {Item} (wb : WriteBack Item) a b e :
  wb_cache (clean_at wb a) !! b = Some e → ∃ e', wb_cache wb !! b = Some e' ∧ e_item e' = e_item e.
Proof.
  unfold clean_at. destruct (wb_cache wb !! a) as [ea|] eqn:Ea; [|eauto].
  destruct (e_is_dirty ea); [|eauto]. simpl. intros [[<- <-]|[_ Hb]]%lookup_insert_Some; eauto.
Qed.

Lemma wb_commit_run {Item} (c : Codec Item) `{CodecOk Item c} order wb self outs self' :
  NoDup order →
  (∀ a e x, wb_cache wb !! a = Some e → e_item e = Some x → fits (item c x)) →
  trie_run (commit_ops c wb order) self = (Ok outs, self') →
  wb_commit (item_insert c) item_remove order (wb, self) = (Ok tt, (foldl clean_at wb order, self')).
Proof.
  intros Hnd. revert wb self outs. induction Hnd as [|a order Ha Hnd IH]; intros wb self outs Hi Hr.
  { cbn in *. unfold mret, stM_ret in *. by simplify_eq. }
  change (commit_ops c wb (a :: order)) with (commit_op c wb a ++ commit_ops c wb order) in Hr.
  apply trie_run_app in Hr as (o1 & o2 & s1 & Hr1 & Hr2).
  unfold wb_commit in *. cbn [for_each foldl].
  rewrite (bind_run _ _ _ _ _ (commit_entry_run c wb a self o1 s1 (Hi a) Hr1)).
  eapply IH; [|by rewrite commit_ops_clean].
  intros b e x (e' & Hb & Heq)%clean_at_item Hx. eapply Hi; [done|]. by rewrite Heq.
Qed.
Lemma clean_all_lookup {Item} order (wb : WriteBack Item) b e :
  wb_cache (foldl clean_at wb order) !! b = Some e →
  ∃ e', wb_cache wb !! b = Some e' ∧ e_item e' = e_item e ∧ (b ∈ order → e_is_dirty e = false).
Proof.
  revert wb. induction order as [|a order IH]; intros wb Hb; cbn [foldl] in Hb.
  { exists e. split_and!; [done..|]. by intros ?%elem_of_nil. }
  destruct (IH _ Hb) as (e' & He' & Hi & Hd).
  destruct (clean_at_item wb a b e' He') as (e0 & He0 & Hi0). exists e0.
  split_and!; [done|congruence|]. intros [->|Hin]%elem_of_cons; [|auto].
  destruct (decide (a ∈ order)) as [|Hna]; [auto|].
  assert (wb_cache (foldl clean_at (clean_at wb a) order) !! a = wb_cache (clean_at wb a) !! a) as Hs.
  { generalize (clean_at wb a). clear -Hna. induction order as [|x order IH]; intros w; [done|].
    apply not_elem_of_cons in Hna as [Hne Hna]. cbn [foldl]. rewrite IH by done.
    unfold clean_at. destruct (wb_cache w !! x) as [ex|]; [|done].
    destruct (e_is_dirty ex); [|done]. simpl. by rewrite lookup_insert_ne. }
  rewrite Hs in Hb. unfold clean_at in Hb. rewrite He0 in Hb.
  destruct (e_is_dirty e0) eqn:Ed; [simpl in Hb; rewrite lookup_insert_eq in Hb|]; by simplify_eq.
Qed.

(** ** The contents afterwards *)

Lemma map_run_app ops1 ops2 m : (map_run (ops1 ++ ops2) m).2 = (map_run ops2 (map_run ops1 m).2).2.
Proof.
  revert m. induction ops1 as [|o ops1 IH]; intros m; [done|]. rewrite <-app_comm_cons.
  cbn [map_run]. destruct (map_exec o m) as [r m1]. specialize (IH m1).
  destruct (map_run (ops1 ++ ops2) m1), (map_run ops1 m1). done.
Qed.

(** No other key of the walk has the digest of [b]. *)
Definition apart (b : bytes) (keys : list bytes) : Prop := ∀ a, a ∈ keys → blake256 a = blake256 b → a = b.

Lemma commit_op_other {Item} (c : Codec Item) `{CodecOk Item c} wb a m h :
  blake256 a ≠ h → (map_run (commit_op c wb a) m).2 !! h = m !! h.
Proof.
  intros Hne. unfold commit_op. destruct (wb_cache wb !! a) as [[[x|] [|]]|]; cbn; try done.
  - by rewrite lookup_insert_ne.
  - by rewrite lookup_delete_ne.
Qed.

Lemma commit_ops_other {Item} (c : Codec Item) `{CodecOk Item c} wb order m b :
  apart b order → b ∉ order → (map_run (commit_ops c wb order) m).2 !! blake256 b = m !! blake256 b.
Proof.
  revert m. induction order as [|a order IH]; intros m Hap Hb; [done|].
  apply not_elem_of_cons in Hb as [Hab Hb].
  change (commit_ops c wb (a :: order)) with (commit_op c wb a ++ commit_ops c wb order).
  rewrite map_run_app, IH; [|intros x Hx; apply Hap; by right|done].
  apply commit_op_other. intros Heq. apply Hab. symmetry. apply Hap; [by left|done].
Qed.

Lemma commit_ops_map {Item} (c : Codec Item) `{CodecOk Item c} wb order m b :
  NoDup order → apart b order → b ∈ order →
  (map_run (commit_ops c wb order) m).2 !! blake256 b =
  match wb_cache wb !! b with
  | Some e => if e_is_dirty e then (λ x, enc (item c x)) <$> e_item e else m !! blake256 b
  | None => m !! blake256 b
  end.
Proof.
  intros Hnd. revert m. induction Hnd as [|a order Ha Hnd IH]; intros m Hap Hb;
    [by apply elem_of_nil in Hb|].
  change (commit_ops c wb (a :: order)) with (commit_op c wb a ++ commit_ops c wb order).
  assert (apart b order) as Hap' by (intros x Hx; apply Hap; by right).
  rewrite map_run_app. apply elem_of_cons in Hb as [->|Hb].
  - rewrite commit_ops_other by done. unfold commit_op.
    destruct (wb_cache wb !! a) as [[[x|] [|]]|]; cbn; try done.
    + by rewrite lookup_insert_eq.
    + by rewrite lookup_delete_eq.
  - rewrite IH by done. rewrite commit_op_other; [done|].
    intros Heq. apply Ha. rewrite (Hap a); [done|by left|done].
Qed.

Lemma commit_ops_map_ext {Item} (c : Codec Item) `{CodecOk Item c} wb order m1 m2 b :
  NoDup order → apart b order → m1 !! blake256 b = m2 !! blake256 b →
  (map_run (commit_ops c wb order) m1).2 !! blake256 b =
  (map_run (commit_ops c wb order) m2).2 !! blake256 b.
Proof.
  intros Hnd Hap Hm. destruct (decide (b ∈ order)).
  - rewrite !commit_ops_map by done. by rewrite Hm.
  - by rewrite !commit_ops_other.
Qed.

(** What a cache over a trie shows. *)
Definition shown {Item} (c : Codec Item) (self : TrieDBMut D) (wb : WriteBack Item) (b : bytes)
  : trieR (option Item) :=
  match wb_cache wb !! b with Some e => Ok (e_item e) | None => item_get c self b end.

Lemma read_back {Item} (c : Codec Item) `{CodecOk Item c} order wb self t m self' t' m' b :
  holds self t → agrees t m → holds self' t' → agrees t' m' →
  commitable c self order wb → apart b order →
  m' !! blake256 b = (map_run (commit_ops c wb order) m).2 !! blake256 b →
  item_get c self' b = shown c self wb b.
Proof.
  intros Hh Ha Hh' Ha' [Hnd Hcov Hcl Hit] Hap Hm. unfold shown.
  rewrite (item_get_run c self' t' m') by done. rewrite Hm.
  destruct (wb_cache wb !! b) as [e|] eqn:Eb.
  - rewrite commit_ops_map by eauto. rewrite Eb. destruct (e_is_dirty e) eqn:Ed.
    + destruct e as [[x|] d]; simpl in *; [|done].
      destruct (Hit b _ x Eb eq_refl) as [Hw Hf]. by rewrite codec_decodes.
    + rewrite <-(item_get_run c self t m) by done. by apply (Hcl b e Eb).
  - rewrite (item_get_run c self t m) by done. f_equal.
    destruct (decide (b ∈ order)); [|by rewrite commit_ops_other].
    rewrite commit_ops_map by done. by rewrite Eb.
Qed.

Lemma commit_at_run {S Item} (c : Codec Item) `{CodecOk Item c} (get : S → WriteBack Item) set
    order s self outs self' :
  NoDup order →
  (∀ a e x, wb_cache (get s) !! a = Some e → e_item e = Some x → wf c x ∧ fits (item c x)) →
  trie_run (commit_ops c (get s) order) self = (Ok outs, self') →
  commit_at get set c order (s, self) = (Ok tt, (set (foldl clean_at (get s) order) s, self')).
Proof.
  intros Hnd Hit Hr. unfold commit_at. erewrite wb_commit_run; [done|done| |done].
  intros a e x He Hx. by eapply Hit.
Qed.

Lemma written_app ops1 ops2 : written ops1 ⊆ written (ops1 ++ ops2).
Proof.
  unfold written. generalize TEmpty. induction ops1 as [|o ops1 IH]; intros t; [apply list_subseteq_nil|].
  rewrite <-app_comm_cons. cbn [tree_states]. rewrite !fmap_cons. cbn. set_solver.
Qed.

(** C13: Committing the caches of a shard to its trie succeeds, whatever the order in which the
    caches are walked; afterwards no entry is dirty, and the trie alone shows at each address
    of an asset scheme and of an asset what the caches over the old trie showed: as long as
    the nodes that are written and the addresses do not collide. *)
Theorem shard_commit_persists (db : D) ops outs self (sc : ShardCache) (schemes assets : list bytes) :
  db_ok db →
  no_collision db (written (ops ++ commit_ops AssetScheme_codec (sc_asset_scheme sc) schemes ++
                            commit_ops OwnedAsset_codec (sc_asset sc) assets)) →
  trie_run ops (TrieDBMut_new db) = (Ok outs, self) →
  commitable AssetScheme_codec self schemes (sc_asset_scheme sc) →
  commitable OwnedAsset_codec self assets (sc_asset sc) →
  ∃ sc' self', sc_commit schemes assets (sc, self) = (Ok tt, (sc', self')) ∧
    (∀ a e, wb_cache (sc_asset_scheme sc') !! a = Some e → e_is_dirty e = false) ∧
    (∀ a e, wb_cache (sc_asset sc') !! a = Some e → e_is_dirty e = false) ∧
    (∀ b, apart b (schemes ++ assets) → b ∉ assets →
       item_get AssetScheme_codec self' b = shown AssetScheme_codec self (sc_asset_scheme sc) b) ∧
    (∀ b, apart b (schemes ++ assets) → b ∉ schemes →
       item_get OwnedAsset_codec self' b = shown OwnedAsset_codec self (sc_asset sc) b).
Proof.
  intros Hok Hnc Hr Hcs Hca. set (os := commit_ops _ _ schemes) in *. set (oa := commit_ops _ _ assets) in *.
  destruct (trie_run_holds _ ops (TrieDBMut_new db) TEmpty ∅ (holds_new db Hok) agrees_empty Hnc)
    as (self0 & t & Hr0 & Hh & Ha & _); [apply written_app|].
  rewrite Hr in Hr0. injection Hr0 as _ <-.
  destruct (trie_run_holds _ (ops ++ os ++ oa) (TrieDBMut_new db) TEmpty ∅ (holds_new db Hok)
    agrees_empty Hnc) as (self' & t' & Hr' & Hh' & Ha' & _); [done|].
  apply trie_run_app in Hr' as (o1 & o2 & self0 & Hr0 & Hr'). rewrite Hr in Hr0. injection Hr0 as _ <-.
  apply trie_run_app in Hr' as (o3 & o4 & self1 & Hr1 & Hr2). rewrite map_run_app in Ha'.
  assert (∀ b, apart b (schemes ++ assets) → apart b schemes ∧ apart b assets) as Hsplit.
  { intros b Hap. split; intros x Hx; apply Hap, elem_of_app; auto. }
  eexists _, self'. split_and!.
  - unfold sc_commit. destruct Hcs as [Hns _ _ Hfs], Hca as [Hna _ _ Hfa].
    rewrite (bind_run _ _ _ _ _ (commit_at_run _ _ _ _ _ _ _ _ Hns Hfs Hr1)).
    eapply (commit_at_run OwnedAsset_codec sc_asset
      (λ wb s, {| sc_asset_scheme := sc_asset_scheme s; sc_asset := wb |}));
      [exact Hna|exact Hfa|exact Hr2].
  - intros a e (e' & He' & _ & Hd)%clean_all_lookup. by eapply Hd, (co_covers _ _ _ _ Hcs).
  - intros a e (e' & He' & _ & Hd)%clean_all_lookup. by eapply Hd, (co_covers _ _ _ _ Hca).
  - intros b [Hs Hb]%Hsplit Hn. eapply read_back; [done..|].
    rewrite map_run_app. unfold oa. by rewrite commit_ops_other.
  - intros b [Hs Hb]%Hsplit Hn. eapply read_back; [done..|].
    rewrite map_run_app. apply commit_ops_map_ext; [by destruct Hca|done|]. unfold os.
    by rewrite commit_ops_other.
Qed.
End Commit.

(** * Example *)

Module CommitWitness.
#[local] Existing Instances TrieWitness.crypto TrieWitness.laws.

Definition sc : ShardCache := {|
  sc_asset_scheme := {| wb_cache := {[ [1] := new_dirty (Some AssetScheme_default) ]}; wb_checkpoints := [] |};
  sc_asset := {| wb_cache := {[ [2] := new_dirty (Some OwnedAsset_default) ]}; wb_checkpoints := [] |} |}.

Lemma sample_commitable {Item} (c : Codec Item) `{CodecOk Item c} (a : bytes) x (self : TrieDBMut MemoryDB) :
  wf c x → fits (item c x) →
  commitable c self [a] {| wb_cache := {[ a := new_dirty (Some x) ]}; wb_checkpoints := [] |}.
Proof.
  intros Hw Hf. split; simpl.
  - apply NoDup_singleton.
  - intros b e [<- _]%lookup_singleton_Some. by left.
  - intros b e [_ <-]%lookup_singleton_Some. done.
  - intros b e y [_ <-]%lookup_singleton_Some [= <-]. done.
Qed.

Lemma sample_apart b : b ∈ [[1]; [2]] → apart b [[1]; [2]].
Proof.
  intros Hb a Ha Heq.
  assert (blake256 [1] ≠ blake256 [2]) as Hne by (intros E; vm_compute in E; discriminate E).
  apply elem_of_cons in Ha as [->|Ha%list_elem_of_singleton]; [|subst a];
    (apply elem_of_cons in Hb as [->|Hb%list_elem_of_singleton]; [|subst b]); congruence.
Qed.

Lemma shard_commit_persists_witness :
  ∃ sc' self', sc_commit [[1]] [[2]] (sc, TrieDBMut_new (D := MemoryDB) mdb_new) = (Ok tt, (sc', self')) ∧
    item_get AssetScheme_codec self' [1] = Ok (Some AssetScheme_default) ∧
    item_get OwnedAsset_codec self' [2] = Ok (Some OwnedAsset_default).
Proof.
  destruct (shard_commit_persists (D := MemoryDB) mdb_new [] [] (TrieDBMut_new mdb_new) sc [[1]] [[2]])
    as (sc' & self' & Hr & _ & _ & Hs & Ha).
  - apply TrieWitness.mdb_new_ok.
  - apply TrieWitness.no_collision_tested. vm_compute. reflexivity.
  - reflexivity.
  - apply sample_commitable; [|reflexivity]. split_and!; first [done|constructor].
  - apply sample_commitable; [|reflexivity]. split_and!; first [done|constructor].
  - exists sc', self'. split; [exact Hr|].
    rewrite Hs, Ha; [|apply sample_apart; by right; left|by intros [=]%list_elem_of_singleton
                     |apply sample_apart; by left|by intros [=]%list_elem_of_singleton].
    assert (wb_cache (sc_asset_scheme sc) !! [1] = Some (new_dirty (Some AssetScheme_default))) as E1
      by (vm_compute; reflexivity).
    assert (wb_cache (sc_asset sc) !! [2] = Some (new_dirty (Some OwnedAsset_default))) as E2
      by (vm_compute; reflexivity).
    unfold shown. rewrite E1, E2. split; reflexivity.
Defined.
End CommitWitness.
