(* ===== verification/StakeData.v ===== *)
(** The data of the staking contract and how it is kept in the state:
    core/src/consensus/stake/action_data.rs, with the key builder of
    state/src/action_handler/mod.rs.  The contract reads and writes the state through the
    operations of [TopState] and [TopStateView] (state/src/traits.rs), which are a class here;
    Stake.v has the handlers and StakeLedger.v what they keep. *)
From stdpp Require Import base gmap list numbers strings sorting.
From Stdlib Require Import NArith Lia Ascii.
From S2P Require Import Prelude Types Crypto Rlp RlpImpls Params StateCache StateItems ShardState.
From S2P Require Import TrieNode BTree.

Local Open Scope N_scope.

(** * The state below the contract *)

(** The methods of [TopStateView] and [TopState] that the contract calls. *)
Class StakeState (S : Type) := {
  ss_action_data : H256 → stM S StateError.t (option bytes);
  ss_update_action_data : H256 → bytes → stM S StateError.t ();
  ss_remove_action_data : H256 → stM S StateError.t ();
  ss_add_balance : Address → N → stM S StateError.t ();
  ss_sub_balance : Address → N → stM S StateError.t ();
  ss_metadata : stM S StateError.t (option Metadata);
  ss_update_params : N → CommonParams → stM S StateError.t ();
  ss_increase_term_id : N → stM S StateError.t ();
}.

(** The bytes of a literal. *)
Fixpoint str (s : string) : bytes :=
  match s with
  | EmptyString => []
  | String.String c s => N_of_ascii c :: str s
  end.

(** * Keys *)

Definition CUSTOM_ACTION_HANDLER_ID : N := 2.

Section Keys.
Context `{Crypto}.

(** [ActionDataKeyBuilder::new(CUSTOM_ACTION_HANDLER_ID, n).append(..)...into_key()] *)
Definition action_data_key (fragments : list (strm ())) : H256 :=
  blake256 (rlp_bytes
    (rlp_list 3 [app bytes_codec (str "ActionData"); app u64_codec CUSTOM_ACTION_HANDLER_ID;
                 rlp_list (len fragments) fragments])).

Definition get_account_key (address : Address) : H256 :=
  action_data_key [app bytes_codec (str "Account"); app H160_codec address].
Definition STAKEHOLDER_ADDRESSES_KEY : H256 :=
  action_data_key [app bytes_codec (str "StakeholderAddresses")].
Definition CANDIDATES_KEY : H256 := action_data_key [app bytes_codec (str "Candidates")].
Definition JAIL_KEY : H256 := action_data_key [app bytes_codec (str "Jail")].
Definition BANNED_KEY : H256 := action_data_key [app bytes_codec (str "Banned")].
Definition VALIDATORS_KEY : H256 := action_data_key [app bytes_codec (str "Validators")].
Definition get_delegation_key (address : Address) : H256 :=
  action_data_key [app bytes_codec (str "Delegation"); app H160_codec address].
Definition get_intermediate_rewards_key : H256 :=
  action_data_key [app bytes_codec (str "IntermediateRewards")].
End Keys.

(** * Codecs *)

(** Ordered maps; a [BTreeSet] is a [BTreeMap] to unit. *)
Abbreviation amap V := (list (Address * V)).
Abbreviation aset := (list (Address * ())).

Definition entry_codec {K V : Type} (k : Codec K) (v : Codec V) : Codec (K * V) := {|
  rlp_append '(key, value) := rlp_list 2 [app k key; app v value];
  decode record :=
    key ← val_at (decode k) record 0;
    value ← val_at (decode v) record 1;
    n ← item_count record;
    if 2 =? n then Ok (key, value) else Err (RlpError.RlpIncorrectListLen 2 n) |}.

(** [encode_map_impl] and [decode_map_impl]; the caller unwinds on an error. *)
Definition map_codec {K V : Type} `{Compare K} (k : Codec K) (v : Codec V) : Codec (list (K * V)) := {|
  rlp_append m := rlp_list (len m) (rlp_append (entry_codec k v) <$> m);
  decode rlp := records ← as_list (decode (entry_codec k v)) rlp; Ok (bt_collect records) |}.

(** [encode_set] and [decode_set]. *)
Definition set_codec {K : Type} `{Compare K} (k : Codec K) : Codec (list (K * ())) := {|
  rlp_append m := rlp_list (len m) (app k <$> m.*1);
  decode rlp := records ← as_list (decode k) rlp; Ok (bt_collect ((λ x, (x, tt)) <$> records)) |}.

(** [encode_map_tuple] and [decode_map_tuple]. *)
Definition map_tuple_codec {K V : Type} `{Compare K} (k : Codec K) (v : Codec V)
  : Codec (list (K * V) * list (K * V)) := {|
  rlp_append '(map0, map1) :=
    rlp_list 2 [rlp_append (map_codec k v) map0; rlp_append (map_codec k v) map1];
  decode rlp :=
    n ← item_count rlp;
    if negb (2 =? n) then Err (RlpError.RlpIncorrectListLen 2 n)
    else
      map0 ← val_at (decode (map_codec k v)) rlp 0;
      map1 ← val_at (decode (map_codec k v)) rlp 1;
      Ok (map0, map1) |}.

(** [encode_iter], and [encode_list] with the same bytes; [decode_list]. *)
Definition iter_codec {T : Type} (c : Codec T) : Codec (list T) := {|
  rlp_append xs := rlp_list (len xs) (app c <$> xs);
  decode := as_list (decode c) |}.

Record Validator := {
  va_weight : N; va_delegation : N; va_deposit : N; va_pubkey : Public;
}.
Definition Validator_codec : Codec Validator := {|
  rlp_append self :=
    rlp_list 4 [app u64_codec (va_weight self); app u64_codec (va_delegation self);
                app u64_codec (va_deposit self); app H512_codec (va_pubkey self)];
  decode rlp :=
    weight ← val_at (decode u64_codec) rlp 0;
    delegation ← val_at (decode u64_codec) rlp 1;
    deposit ← val_at (decode u64_codec) rlp 2;
    pubkey ← val_at (decode H512_codec) rlp 3;
    Ok {| va_weight := weight; va_delegation := delegation; va_deposit := deposit;
          va_pubkey := pubkey |} |}.

Record Candidate := {
  ca_pubkey : Public; ca_deposit : N; ca_nomination_ends_at : N; ca_metadata : bytes;
}.
Definition Candidate_codec : Codec Candidate := {|
  rlp_append self :=
    rlp_list 4 [app H512_codec (ca_pubkey self); app u64_codec (ca_deposit self);
                app u64_codec (ca_nomination_ends_at self); app bytes_codec (ca_metadata self)];
  decode rlp :=
    pubkey ← val_at (decode H512_codec) rlp 0;
    deposit ← val_at (decode u64_codec) rlp 1;
    nomination_ends_at ← val_at (decode u64_codec) rlp 2;
    metadata ← val_at (decode bytes_codec) rlp 3;
    Ok {| ca_pubkey := pubkey; ca_deposit := deposit; ca_nomination_ends_at := nomination_ends_at;
          ca_metadata := metadata |} |}.

Record Prisoner := {
  pr_address : Address; pr_deposit : N; pr_custody_until : N; pr_released_at : N;
}.
Definition Prisoner_codec : Codec Prisoner := {|
  rlp_append self :=
    rlp_list 4 [app H160_codec (pr_address self); app u64_codec (pr_deposit self);
                app u64_codec (pr_custody_until self); app u64_codec (pr_released_at self)];
  decode rlp :=
    address ← val_at (decode H160_codec) rlp 0;
    deposit ← val_at (decode u64_codec) rlp 1;
    custody_until ← val_at (decode u64_codec) rlp 2;
    released_at ← val_at (decode u64_codec) rlp 3;
    Ok {| pr_address := address; pr_deposit := deposit; pr_custody_until := custody_until;
          pr_released_at := released_at |} |}.

(** * Loading and saving *)

Section Contract.
Context `{Crypto} {S : Type} `{StakeState S}.

Abbreviation stakeM := (stM S StateError.t).

Definition stake_throw {A : Type} (e : RuntimeError.t) : stakeM A := throw_st (StateError.Runtime e).

(** [state.action_data(&key)?], decoded; the default where there is nothing. *)
Definition load {T : Type} (c : Codec T) (default_ : T) (key : H256) : stakeM T :=
  action_data ← ss_action_data key;
  match action_data with
  | Some data => lift_st (unwrap (decode c data))
  | None => mret default_
  end.

(** [update_action_data] of the encoding, or [remove_action_data] for what is not kept. *)
Definition save {T : Type} (c : Codec T) (kept : bool) (key : H256) (x : T) : stakeM () :=
  if kept then
    bs ← lift_st (unwrap (drain (rlp_append c x)));
    ss_update_action_data key bs
  else ss_remove_action_data key.

Definition is_empty {A : Type} (l : list A) : bool := match l with [] => true | _ => false end.

(** ** [StakeAccount] *)

Record StakeAccount := { sa_address : Address; sa_balance : N }.

Definition StakeAccount_load (address : Address) : stakeM StakeAccount :=
  balance ← load u64_codec 0 (get_account_key address);
  mret {| sa_address := address; sa_balance := balance |}.
Definition StakeAccount_save (self : StakeAccount) : stakeM () :=
  save u64_codec (negb (sa_balance self =? 0)) (get_account_key (sa_address self)) (sa_balance self).

Definition subtract_balance (self : StakeAccount) (amount : N) : stakeM StakeAccount :=
  if sa_balance self <? amount then
    stake_throw (RuntimeError.InsufficientBalance (sa_address self) (sa_balance self) amount)
  else mret {| sa_address := sa_address self; sa_balance := sa_balance self - amount |}.
Definition sa_add_balance (self : StakeAccount) (amount : N) : StakeAccount :=
  {| sa_address := sa_address self; sa_balance := u64_add (sa_balance self) amount |}.

(** ** [Delegation] *)

Record Delegation := { de_delegator : Address; de_delegatees : amap N }.

Definition Delegation_load (delegator : Address) : stakeM Delegation :=
  delegatees ← load (map_codec H160_codec u64_codec) [] (get_delegation_key delegator);
  mret {| de_delegator := delegator; de_delegatees := delegatees |}.
Definition Delegation_save (self : Delegation) : stakeM () :=
  save (map_codec H160_codec u64_codec) (negb (is_empty (de_delegatees self)))
    (get_delegation_key (de_delegator self)) (de_delegatees self).

(** [*map.entry(key).or_insert(0) += quantity] *)
Definition entry_add (m : amap N) (key : Address) (quantity : N) : amap N :=
  bt_insert m key (u64_add (default 0 (bt_get m key)) quantity).

Definition de_add_quantity (self : Delegation) (delegatee : Address) (quantity : N) : Delegation :=
  if quantity =? 0 then self
  else {| de_delegator := de_delegator self;
          de_delegatees := entry_add (de_delegatees self) delegatee quantity |}.

Definition cannot_subtract : RuntimeError.t :=
  RuntimeError.FailedToHandleCustomAction (str "Cannot subtract more than that is delegated to").

Definition de_subtract_quantity (self : Delegation) (delegatee : Address) (quantity : N)
  : stakeM Delegation :=
  let with_delegatees m := {| de_delegator := de_delegator self; de_delegatees := m |} in
  if quantity =? 0 then mret self
  else
    match bt_get (de_delegatees self) delegatee with
    | Some x =>
        if quantity <? x then
          mret (with_delegatees (bt_insert (de_delegatees self) delegatee (x - quantity)))
        else if x =? quantity then
          mret (with_delegatees (bt_remove (de_delegatees self) delegatee))
        else stake_throw cannot_subtract
    | None => stake_throw cannot_subtract
    end.

Definition de_get_quantity (self : Delegation) (delegatee : Address) : N :=
  default 0 (bt_get (de_delegatees self) delegatee).

Definition de_sum (self : Delegation) : N :=
  foldl u64_add 0 (de_delegatees self).*2.

(** ** [Stakeholders] *)

Definition Stakeholders_load : stakeM aset := load (set_codec H160_codec) [] STAKEHOLDER_ADDRESSES_KEY.
Definition Stakeholders_save (self : aset) : stakeM () :=
  save (set_codec H160_codec) (negb (is_empty self)) STAKEHOLDER_ADDRESSES_KEY self.

Definition update_by_increased_balance (self : aset) (account : StakeAccount) : aset :=
  if 0 <? sa_balance account then bt_insert self (sa_address account) tt else self.

Definition update_by_decreased_balance (self : aset) (account : StakeAccount) (delegation : Delegation)
  : stakeM aset :=
  _ ← lift_st (assert (bool_decide (sa_address account = de_delegator delegation)));
  mret (if (sa_balance account =? 0) && (de_sum delegation =? 0)
        then bt_remove self (sa_address account) else self).

(** [for x in l { .. }] over an accumulator. *)
Fixpoint for_fold {A B : Type} (f : B → A → stakeM B) (b : B) (l : list A) : stakeM B :=
  match l with
  | [] => mret b
  | x :: l => b ← f b x; for_fold f b l
  end.

(** [Stakeholders::delegatees]: the stakes delegated to each account, by all. *)
Definition delegatees : stakeM (gmap Address N) :=
  stakeholders ← Stakeholders_load;
  for_fold (λ result stakeholder,
    delegation ← Delegation_load stakeholder;
    mret (foldl (λ (result : gmap Address N) '(delegatee, quantity),
                   <[delegatee := u64_add (default 0 (result !! delegatee)) quantity]> result)
            result (de_delegatees delegation))) ∅ stakeholders.*1.

(** ** [IntermediateRewards] *)

Record IntermediateRewards := { ir_previous : amap N; ir_current : amap N }.

Definition IntermediateRewards_load : stakeM IntermediateRewards :=
  '(previous, current) ← load (map_tuple_codec H160_codec u64_codec) ([], []) get_intermediate_rewards_key;
  mret {| ir_previous := previous; ir_current := current |}.
Definition IntermediateRewards_save (self : IntermediateRewards) : stakeM () :=
  save (map_tuple_codec H160_codec u64_codec)
    (negb (is_empty (ir_previous self) && is_empty (ir_current self)))
    get_intermediate_rewards_key (ir_previous self, ir_current self).

Definition ir_add_quantity (self : IntermediateRewards) (address : Address) (quantity : N)
  : IntermediateRewards :=
  if quantity =? 0 then self
  else {| ir_previous := ir_previous self; ir_current := entry_add (ir_current self) address quantity |}.
Definition drain_previous (self : IntermediateRewards) : amap N * IntermediateRewards :=
  (ir_previous self, {| ir_previous := []; ir_current := ir_current self |}).
Definition move_current_to_previous (self : IntermediateRewards) : stakeM IntermediateRewards :=
  _ ← lift_st (assert (is_empty (ir_previous self)));
  mret {| ir_previous := ir_current self; ir_current := [] |}.

(** ** [Banned] *)

Definition Banned_load : stakeM aset := load (set_codec H160_codec) [] BANNED_KEY.
Definition Banned_save (self : aset) : stakeM () :=
  save (set_codec H160_codec) (negb (is_empty self)) BANNED_KEY self.
Definition banned_add (self : aset) (address : Address) : aset := bt_insert self address tt.
Definition is_banned (self : aset) (address : Address) : bool :=
  match bt_get self address with Some _ => true | None => false end.

(** ** [Candidates] *)

Definition Candidates_load : stakeM (list Candidate) := load (iter_codec Candidate_codec) [] CANDIDATES_KEY.
Definition Candidates_save (self : list Candidate) : stakeM () :=
  save (iter_codec Candidate_codec) (negb (is_empty self)) CANDIDATES_KEY self.

Definition ca_address (c : Candidate) : Address := public_to_address (ca_pubkey c).

Definition get_candidate (self : list Candidate) (account : Address) : option Candidate :=
  head (filter (λ c, ca_address c = account) self).

(** The first element [iter().position(p)] finds, and the vector without it. *)
Fixpoint take_first {A : Type} (p : A → bool) (l : list A) : option (A * list A) :=
  match l with
  | [] => None
  | x :: l => if p x then Some (x, l) else '(y, l') ← take_first p l; Some (y, x :: l')
  end.

Definition candidates_remove (self : list Candidate) (address : Address)
  : option (Candidate * list Candidate) :=
  take_first (λ c, bool_decide (ca_address c = address)) self.

(** [reprioritize]: the targets move to the end, in the order they are given. *)
Definition reprioritize (self : list Candidate) (targets : list Address)
  : result StateError.t (list Candidate) :=
  '(rest, renewed) ← fold_res (λ '(rest, renewed) target,
      '(c, rest) ← expect (candidates_remove rest target);
      Ok (rest, renewed ++ [c])) (self, []) targets;
  Ok (rest ++ renewed).

Definition add_to_candidate (c : Candidate) (quantity nomination_ends_at : N) (metadata : bytes)
  : Candidate :=
  {| ca_pubkey := ca_pubkey c; ca_deposit := u64_add (ca_deposit c) quantity;
     ca_nomination_ends_at := (if ca_nomination_ends_at c <? nomination_ends_at then nomination_ends_at
                               else ca_nomination_ends_at c);
     ca_metadata := metadata |}.

(** The first candidate with the key is changed in place, or one is added. *)
Fixpoint deposit_to (self : list Candidate) (pubkey : Public) (quantity nomination_ends_at : N)
    (metadata : bytes) : list Candidate :=
  match self with
  | [] => [{| ca_pubkey := pubkey; ca_deposit := quantity;
              ca_nomination_ends_at := nomination_ends_at; ca_metadata := metadata |}]
  | c :: self =>
      if bool_decide (ca_pubkey c = pubkey)
      then add_to_candidate c quantity nomination_ends_at metadata :: self
      else c :: deposit_to self pubkey quantity nomination_ends_at metadata
  end.

Definition add_deposit (self : list Candidate) (pubkey : Public) (quantity nomination_ends_at : N)
    (metadata : bytes) : result StateError.t (list Candidate) :=
  reprioritize (deposit_to self pubkey quantity nomination_ends_at metadata)
    [public_to_address pubkey].

Definition renew_candidates (self : list Candidate) (validators : list Validator)
    (nomination_ends_at : N) (inactive_validators : list Address) (banned : aset)
  : result StateError.t (list Candidate) :=
  let to_renew := filter (λ pubkey, public_to_address pubkey ∉ inactive_validators)
                    (va_pubkey <$> validators) in
  self ← map_res (λ c,
    if bool_decide (ca_pubkey c ∈ to_renew) then
      _ ← assert (negb (is_banned banned (ca_address c)));
      Ok {| ca_pubkey := ca_pubkey c; ca_deposit := ca_deposit c;
            ca_nomination_ends_at := nomination_ends_at; ca_metadata := ca_metadata c |}
    else Ok c) self;
  reprioritize self (ca_address <$> filter (λ c, ca_pubkey c ∈ to_renew) self).

(** The expired candidates and the others. *)
Definition drain_expired_candidates (self : list Candidate) (term_index : N)
  : list Candidate * list Candidate :=
  (filter (λ c, ca_nomination_ends_at c ≤ term_index) self,
   filter (λ c, ¬ ca_nomination_ends_at c ≤ term_index) self).

(** ** [Jail] *)

Definition by_address (l : list Prisoner) : amap Prisoner := bt_collect ((λ c, (pr_address c, c)) <$> l).

Definition Jail_load : stakeM (amap Prisoner) :=
  prisoner ← load (iter_codec Prisoner_codec) [] JAIL_KEY;
  mret (by_address prisoner).
Definition Jail_save (self : amap Prisoner) : stakeM () :=
  save (iter_codec Prisoner_codec) (negb (is_empty self)) JAIL_KEY self.*2.

Definition get_prisoner (self : amap Prisoner) (address : Address) : option Prisoner :=
  bt_get self address.

Definition jail_add (self : amap Prisoner) (candidate : Candidate) (custody_until released_at : N)
  : result StateError.t (amap Prisoner) :=
  _ ← assert (custody_until <=? released_at);
  let address := ca_address candidate in
  Ok (bt_insert self address
        {| pr_address := address; pr_deposit := ca_deposit candidate;
           pr_custody_until := custody_until; pr_released_at := released_at |}).

Definition jail_remove (self : amap Prisoner) (address : Address)
  : option Prisoner * amap Prisoner := (bt_get self address, bt_remove self address).

Inductive ReleaseResult := NotExists | InCustody | Released (prisoner : Prisoner).

Definition try_release (self : amap Prisoner) (address : Address) (term_index : N)
  : ReleaseResult * amap Prisoner :=
  match bt_get self address with
  | Some prisoner =>
      if pr_custody_until prisoner <? term_index
      then (Released prisoner, bt_remove self address) else (InCustody, self)
  | None => (NotExists, self)
  end.

Definition drain_released_prisoners (self : amap Prisoner) (term_index : N)
  : list Prisoner * amap Prisoner :=
  (filter (λ c, pr_released_at c ≤ term_index) self.*2,
   by_address (filter (λ c, ¬ pr_released_at c ≤ term_index) self.*2)).

(** ** [Validators] *)

Definition Validator_new (delegation deposit : N) (pubkey : Public) : Validator :=
  {| va_weight := delegation; va_delegation := delegation; va_deposit := deposit; va_pubkey := pubkey |}.
Definition va_address (v : Validator) : Address := public_to_address (va_pubkey v).
Definition va_reset (v : Validator) : Validator :=
  {| va_weight := va_delegation v; va_delegation := va_delegation v; va_deposit := va_deposit v;
     va_pubkey := va_pubkey v |}.
Definition set_weight (v : Validator) (weight : N) : Validator :=
  {| va_weight := weight; va_delegation := va_delegation v; va_deposit := va_deposit v;
     va_pubkey := va_pubkey v |}.

Definition Validators_load : stakeM (list Validator) := load (vec_codec Validator_codec) [] VALIDATORS_KEY.
Definition Validators_save (self : list Validator) : stakeM () :=
  save (vec_codec Validator_codec) (negb (is_empty self)) VALIDATORS_KEY self.

(** A stable sort, as [sort_by_key]; where equal elements are the same it is also
    [sort_unstable]. *)
Fixpoint sort_insert {A : Type} (le : A → A → bool) (x : A) (l : list A) : list A :=
  match l with
  | [] => [x]
  | y :: l' => if le x y then x :: l else y :: sort_insert le x l'
  end.
Definition stable_sort {A : Type} (le : A → A → bool) (l : list A) : list A :=
  foldr (sort_insert le) [] l.

Definition pair_le (a b : N * N) : bool :=
  match N.compare a.1 b.1 with Lt => true | Gt => false | Eq => a.2 <=? b.2 end.

(** The derived order of [Validator]: weight, delegation, deposit, public key. *)
Definition validator_le (a b : Validator) : bool :=
  match N.compare (va_weight a) (va_weight b) with
  | Lt => true
  | Gt => false
  | Eq =>
      match N.compare (va_delegation a) (va_delegation b) with
      | Lt => true
      | Gt => false
      | Eq =>
          match N.compare (va_deposit a) (va_deposit b) with
          | Lt => true
          | Gt => false
          | Eq => match bytes_cmp (va_pubkey a) (va_pubkey b) with Gt => false | _ => true end
          end
      end
  end.

(** [Candidates::prepare_validators]. *)
Definition prepare_validators (min_deposit : N) (delegations : gmap Address N) : stakeM (list Validator) :=
  candidates ← Candidates_load;
  mret (stable_sort (λ a b, pair_le (va_delegation a, va_deposit a) (va_delegation b, va_deposit b))
    (omap (λ c, delegation ← delegations !! ca_address c;
                Some (Validator_new delegation (ca_deposit c) (ca_pubkey c)))
       (filter (λ c, min_deposit ≤ ca_deposit c) candidates))).

Definition elect : stakeM (list Validator) :=
  metadata ← ss_metadata;
  metadata ← lift_st (expect metadata);
  common_params ← lift_st (expect (md_params metadata));
  _ ← lift_st (assert (cp_min_num_of_validators common_params <=? cp_max_num_of_validators common_params));
  delegatees ← delegatees;
  validators ← prepare_validators (cp_min_deposit common_params) delegatees;
  let validators := reverse validators in
  banned ← Banned_load;
  _ ← for_each (λ v, lift_st (assert (negb (is_banned banned (va_address v))))) validators;
  let validators := take (N.to_nat (cp_max_num_of_validators common_params)) validators in
  let min := N.to_nat (cp_min_num_of_validators common_params) in
  let over_threshold := filter (λ v, cp_delegation_threshold common_params ≤ va_delegation v)
                          (drop min validators) in
  mret (reverse (take min validators ++ over_threshold)).

(** The fold of [min_delegation]. *)
Definition min_delegation (self : list Validator) : result StateError.t N :=
  match va_delegation <$> self with
  | [] => Panic
  | x :: l => Ok (foldl N.min x l)
  end.

(** The loop of [update_weight], from the last validator up to the block author. *)
Fixpoint reduce_weights (min_delegation : N) (block_author : Address) (rev_validators : list Validator)
  : list Validator :=
  match rev_validators with
  | [] => []
  | v :: rest =>
      if bool_decide (va_address v = block_author)
      then set_weight v (va_weight v - min_delegation) :: rest
      else set_weight v (va_weight v - (min_delegation * 2) mod u64_size)
             :: reduce_weights min_delegation block_author rest
  end.

Definition update_weight (self : list Validator) (block_author : Address)
  : result StateError.t (list Validator) :=
  min_delegation ← min_delegation self;
  let self := reverse (reduce_weights min_delegation block_author (reverse self)) in
  let self := if forallb (λ v, va_weight v =? 0) self then va_reset <$> self else self in
  Ok (stable_sort validator_le self).

Definition validators_remove (self : list Validator) (target : Address) : list Validator :=
  filter (λ v, va_address v ≠ target) self.

Definition validators_delegation (self : list Validator) (pubkey : Public) : option N :=
  va_delegation <$> head (filter (λ v, va_pubkey v = pubkey) self).
End Contract.

(** * The codecs keep their promises *)

(** The bindings of an ordered map, inserted in order, are the map. *)
Lemma bt_collect_sorted {K V} `{CompareOk K} (m : list (K * V)) : bt_ok m → bt_collect m = m.
Proof.
  induction m as [|[k v] m IH] using rev_ind; intros Hm; [done|].
  rewrite bt_collect_snoc. apply StronglySorted_app in Hm as (Hlt & Hm & _).
  rewrite IH by done. clear IH Hm.
  induction m as [|[k' v'] m IH]; [done|]. simpl.
  assert (cmp k' k = Lt) as Hk by (apply (Hlt (k', v') (k, v)); by left).
  rewrite (cmp_opp k' k), Hk. simpl. f_equal. apply IH. intros x y Hx Hy. apply Hlt; [by right|done].
Qed.

Ltac item_np :=
  repeat match goal with
    | |- (if ?b then _ else _) ≠ Panic => destruct b
    | |- _ ≫= _ ≠ Panic => apply bind_no_panic; [|intros ? _]
    | |- val_at (decode _) _ _ ≠ Panic => apply val_at_no_panic, codec_no_panic
    | |- as_list (decode _) _ ≠ Panic => apply as_list_no_panic, codec_no_panic
    | |- item_count _ ≠ Panic => apply item_count_no_panic
    | |- Ok _ ≠ Panic => discriminate
    | |- Err _ ≠ Panic => discriminate
    end.

#[global, refine] Instance entry_codec_ok {K V} (k : Codec K) (v : Codec V) `{!CodecOk k, !CodecOk v} :
  CodecOk (entry_codec k v) := {|
  item '(x, y) := List [item k x; item v y];
  wf '(x, y) := wf k x ∧ wf v y |}.
Proof.
  - intros [x y]. cbn [rlp_append entry_codec]. encodes_tac.
  - intros [x y] [Hx Hy] Hf. cbn [decode entry_codec]. decodes_tac.
  - intros bs. cbn [decode entry_codec]. item_np.
Defined.
#[global] Typeclasses Opaque entry_codec.

#[global, refine] Instance map_codec_ok {K V} `{CompareOk K} (k : Codec K) (v : Codec V)
    `{!CodecOk k, !CodecOk v} : CodecOk (map_codec k v) := {|
  item m := List (item (entry_codec k v) <$> m);
  wf m := bt_ok m ∧ Forall (wf (entry_codec k v)) m |}.
Proof.
  - intros m. cbn [rlp_append map_codec]. apply rlp_list_encodes; [|unfold len; by rewrite length_fmap].
    apply Forall2_fmap_l, Forall2_fmap_r, Forall_Forall2_diag, Forall_forall. intros x _.
    pose proof (codec_encodes (c := entry_codec k v) x) as He. destruct x. by apply list_appends.
  - intros m [Hm Hw] Hf. cbn [decode map_codec]. rewrite list_codec_decodes by done.
    rewrite Ok_bind. by rewrite bt_collect_sorted.
  - intros bs. cbn [decode map_codec]. item_np.
Defined.

#[global, refine] Instance set_codec_ok {K} `{CompareOk K} (k : Codec K) `{!CodecOk k} :
  CodecOk (set_codec k) := {|
  item m := List (item k <$> m.*1);
  wf m := bt_ok m ∧ Forall (wf k) m.*1 |}.
Proof.
  - intros m. cbn [rlp_append set_codec]. apply rlp_list_encodes; [|unfold len; by rewrite !length_fmap].
    apply Forall2_fmap_l, Forall2_fmap_r, Forall_Forall2_diag, Forall_forall. intros x _. apply app_appends.
  - intros m [Hm Hw] Hf. cbn [decode set_codec]. rewrite list_codec_decodes by done.
    rewrite Ok_bind, <-list_fmap_compose. f_equal.
    replace ((λ x, (x, tt)) ∘ fst <$> m) with m; [by apply bt_collect_sorted|].
    rewrite <-(list_fmap_id m) at 1. apply list_fmap_ext. by intros _ [x []] _.
  - intros bs. cbn [decode set_codec]. item_np.
Defined.
#[global] Typeclasses Opaque map_codec set_codec.

#[global, refine] Instance map_tuple_codec_ok {K V} `{CompareOk K} (k : Codec K) (v : Codec V)
    `{!CodecOk k, !CodecOk v} : CodecOk (map_tuple_codec k v) := {|
  item '(m0, m1) := List [item (map_codec k v) m0; item (map_codec k v) m1];
  wf '(m0, m1) := wf (map_codec k v) m0 ∧ wf (map_codec k v) m1 |}.
Proof.
  - intros [m0 m1]. cbn [rlp_append map_tuple_codec]. apply rlp_list_encodes; [|reflexivity].
    apply Forall2_cons; split; [|apply Forall2_cons; split; [|by apply Forall2_nil]];
      apply list_appends;
      first [exact (codec_encodes (c := map_codec k v) m0)|exact (codec_encodes (c := map_codec k v) m1)].
  - intros [m0 m1] [Hm0 Hm1] Hf. cbn [decode map_tuple_codec]. decodes_tac.
  - intros bs. cbn [decode map_tuple_codec]. item_np.
Defined.

#[global, refine] Instance iter_codec_ok {T} (c : Codec T) `{!CodecOk c} : CodecOk (iter_codec c) := {|
  item xs := List (item c <$> xs);
  wf := Forall (wf c) |}.
Proof.
  - intros xs. cbn [rlp_append iter_codec]. apply rlp_list_encodes; [|unfold len; by rewrite length_fmap].
    apply Forall2_fmap_l, Forall2_fmap_r, Forall_Forall2_diag, Forall_forall. intros x _. apply app_appends.
  - intros xs Hxs Hf. by apply list_codec_decodes.
  - intros bs. cbn [decode iter_codec]. item_np.
Defined.

#[global, refine] Instance Validator_codec_ok : CodecOk Validator_codec := {|
  item v := List [item u64_codec (va_weight v); item u64_codec (va_delegation v);
                  item u64_codec (va_deposit v); item H512_codec (va_pubkey v)];
  wf v := wf u64_codec (va_weight v) ∧ wf u64_codec (va_delegation v) ∧
          wf u64_codec (va_deposit v) ∧ wf H512_codec (va_pubkey v) |}.
Proof.
  - intros v. cbn [rlp_append Validator_codec]. encodes_tac.
  - intros [] (? & ? & ? & ?) Hf. cbn [decode Validator_codec]. decodes_tac.
  - intros bs. cbn [decode Validator_codec]. item_np.
Defined.

#[global, refine] Instance Candidate_codec_ok : CodecOk Candidate_codec := {|
  item c := List [item H512_codec (ca_pubkey c); item u64_codec (ca_deposit c);
                  item u64_codec (ca_nomination_ends_at c); item bytes_codec (ca_metadata c)];
  wf c := wf H512_codec (ca_pubkey c) ∧ wf u64_codec (ca_deposit c) ∧
          wf u64_codec (ca_nomination_ends_at c) ∧ wf bytes_codec (ca_metadata c) |}.
Proof.
  - intros v. cbn [rlp_append Candidate_codec]. encodes_tac.
  - intros [] (? & ? & ? & ?) Hf. cbn [decode Candidate_codec]. decodes_tac.
  - intros bs. cbn [decode Candidate_codec]. item_np.
Defined.

#[global, refine] Instance Prisoner_codec_ok : CodecOk Prisoner_codec := {|
  item p := List [item H160_codec (pr_address p); item u64_codec (pr_deposit p);
                  item u64_codec (pr_custody_until p); item u64_codec (pr_released_at p)];
  wf p := wf H160_codec (pr_address p) ∧ wf u64_codec (pr_deposit p) ∧
          wf u64_codec (pr_custody_until p) ∧ wf u64_codec (pr_released_at p) |}.
Proof.
  - intros v. cbn [rlp_append Prisoner_codec]. encodes_tac.
  - intros [] (? & ? & ? & ?) Hf. cbn [decode Prisoner_codec]. decodes_tac.
  - intros bs. cbn [decode Prisoner_codec]. item_np.
Defined.
#[global] Typeclasses Opaque map_tuple_codec iter_codec Validator_codec Candidate_codec Prisoner_codec.
