(* ===== verification/StakeAction.v ===== *)
(** The actions of the staking contract, their RLP form and the checks on them:
    core/src/consensus/stake/actions.rs, over the votes of the consensus engine (the trait
    [Message] of core/src/consensus/vote_collector.rs). *)
From stdpp Require Import base list numbers strings.
From Stdlib Require Import NArith Lia.
From S2P Require Import Prelude Types Crypto Rlp RlpImpls Params.

Local Open Scope N_scope.

(** * Votes *)

(** [trait Message]: what the contract uses of a vote. *)
Class Message (M : Type) := {
  msg_eq_dec :: EqDecision M;
  msg_codec : Codec M;
  msg_codec_ok :: CodecOk msg_codec;
  Round : Type;
  round_eq_dec :: EqDecision Round;
  msg_height : M → N;
  msg_round : M → Round;
  msg_signer_index : M → N;
  msg_verify : M → Public → result String bool;
}.

(** Votes of one round have one height. *)
Class MessageLaws (M : Type) `{Message M} := {
  msg_round_height m1 m2 : msg_round m1 = msg_round m2 → msg_height m1 = msg_height m2;
  msg_verify_no_panic m p : msg_verify m p ≠ Panic;
}.

(** * Actions *)

Definition ACTION_TAG_TRANSFER_CCS : N := 1.
Definition ACTION_TAG_DELEGATE_CCS : N := 2.
Definition ACTION_TAG_REVOKE : N := 3.
Definition ACTION_TAG_SELF_NOMINATE : N := 4.
Definition ACTION_TAG_REPORT_DOUBLE_VOTE : N := 5.
Definition ACTION_TAG_CHANGE_PARAMS : N := 0xff.

Inductive StakeAction (M : Type) :=
| TransferCCS (address : Address) (quantity : N)
| DelegateCCS (address : Address) (quantity : N)
| Revoke (address : Address) (quantity : N)
| SelfNominate (deposit : N) (metadata : bytes)
| ChangeParams (metadata_seq : N) (params : CommonParams) (signatures : list Signature)
| ReportDoubleVote (message1 message2 : M).
Arguments TransferCCS {M}.
Arguments DelegateCCS {M}.
Arguments Revoke {M}.
Arguments SelfNominate {M}.
Arguments ChangeParams {M}.
Arguments ReportDoubleVote {M}.

(** The messages of [SyntaxError::InvalidCustomAction]. *)
Inductive StakeActionError :=
| TooLongCandidateMetadata (limit : N)
| ChangesNetworkId (current transaction : NetworkId)
| InvalidParams (e : ParamsError)
| CannotDecodeSignature (e : String)
| MessagesDuplicated
| DifferentRounds
| DifferentSigners (signer_idx1 signer_idx2 : N)
| DoubleVoteOnGenesis
| NoHeader (height : N)
| SchnorrFails.

Section Actions.
Context `{Crypto} {M : Type} `{Message M}.

Definition StakeAction_append (self : StakeAction M) : strm () :=
  match self with
  | TransferCCS address quantity =>
      rlp_list 3 [app u8_codec ACTION_TAG_TRANSFER_CCS; app H160_codec address; app u64_codec quantity]
  | DelegateCCS address quantity =>
      rlp_list 3 [app u8_codec ACTION_TAG_DELEGATE_CCS; app H160_codec address; app u64_codec quantity]
  | Revoke address quantity =>
      rlp_list 3 [app u8_codec ACTION_TAG_REVOKE; app H160_codec address; app u64_codec quantity]
  | SelfNominate deposit metadata =>
      rlp_list 3 [app u8_codec ACTION_TAG_SELF_NOMINATE; app u64_codec deposit; app bytes_codec metadata]
  | ChangeParams metadata_seq params signatures =>
      rlp_list (3 + len signatures)
        ([app u8_codec ACTION_TAG_CHANGE_PARAMS; app u64_codec metadata_seq;
          append (CommonParams_append params)] ++ (app H520_codec <$> signatures))
  | ReportDoubleVote message1 message2 =>
      rlp_list 3 [app u8_codec ACTION_TAG_REPORT_DOUBLE_VOTE; app msg_codec message1;
                  app msg_codec message2]
  end.

(** The arms with three items. *)
Definition three_items (rlp : bytes) (err : N → RlpError.t) : rlpR () :=
  n ← item_count rlp;
  if negb (n =? 3) then Err (err n) else Ok tt.

Definition StakeAction_decode (rlp : bytes) : rlpR (StakeAction M) :=
  tag ← val_at (decode u8_codec) rlp 0;
  if tag =? ACTION_TAG_TRANSFER_CCS then
    _ ← three_items rlp (RlpError.RlpInvalidLength 3);
    address ← val_at (decode H160_codec) rlp 1;
    quantity ← val_at (decode u64_codec) rlp 2;
    Ok (TransferCCS address quantity)
  else if tag =? ACTION_TAG_DELEGATE_CCS then
    _ ← three_items rlp (RlpError.RlpInvalidLength 3);
    address ← val_at (decode H160_codec) rlp 1;
    quantity ← val_at (decode u64_codec) rlp 2;
    Ok (DelegateCCS address quantity)
  else if tag =? ACTION_TAG_REVOKE then
    _ ← three_items rlp (RlpError.RlpInvalidLength 3);
    address ← val_at (decode H160_codec) rlp 1;
    quantity ← val_at (decode u64_codec) rlp 2;
    Ok (Revoke address quantity)
  else if tag =? ACTION_TAG_SELF_NOMINATE then
    _ ← three_items rlp (RlpError.RlpInvalidLength 3);
    deposit ← val_at (decode u64_codec) rlp 1;
    metadata ← val_at (decode bytes_codec) rlp 2;
    Ok (SelfNominate deposit metadata)
  else if tag =? ACTION_TAG_CHANGE_PARAMS then
    item_count ← item_count rlp;
    if item_count <? 4 then Err (RlpError.RlpIncorrectListLen 4 item_count)
    else
      metadata_seq ← val_at (decode u64_codec) rlp 1;
      params ← val_at CommonParams_decode rlp 2;
      signatures ← map_res (λ i, val_at (decode H520_codec) rlp (N.of_nat i))
                     (seq 3 (N.to_nat item_count - 3));
      Ok (ChangeParams metadata_seq params signatures)
  else if tag =? ACTION_TAG_REPORT_DOUBLE_VOTE then
    _ ← three_items rlp (RlpError.RlpIncorrectListLen 3);
    message1 ← val_at (decode msg_codec) rlp 1;
    message2 ← val_at (decode msg_codec) rlp 2;
    Ok (ReportDoubleVote message1 message2)
  else Err (RlpError.Custom "Unexpected Tendermint Stake Action Type").

(** What the signers of new parameters sign: the action without signatures. *)
Definition change_params_digest (metadata_seq : N) (params : CommonParams) : H256 :=
  blake256 (rlp_bytes (StakeAction_append (ChangeParams metadata_seq params []))).

(** The client and the validator set of the engine: the hash of the block at a height, and
    the key of a validator by index after a block. *)
Context (block_hash : N → option H256) (validators_get : H256 → N → Public).

Definition StakeAction_verify (self : StakeAction M) (current_params : CommonParams)
  : result StakeActionError () :=
  match self with
  | TransferCCS _ _ | DelegateCCS _ _ | Revoke _ _ => Ok tt
  | SelfNominate _ metadata =>
      ensure (negb (cp_max_candidate_metadata_size current_params <? len metadata))
        (TooLongCandidateMetadata (cp_max_candidate_metadata_size current_params))
  | ChangeParams metadata_seq params signatures =>
      let current_network_id := cp_network_id current_params in
      let transaction_network_id := cp_network_id params in
      _ ← ensure (bool_decide (current_network_id = transaction_network_id))
            (ChangesNetworkId current_network_id transaction_network_id);
      _ ← map_err InvalidParams (CommonParams_verify params);
      let encoded_action := change_params_digest metadata_seq params in
      fold_res (λ _ signature,
        _ ← map_err CannotDecodeSignature (recover_ecdsa signature encoded_action); Ok tt) tt signatures
  | ReportDoubleVote message1 message2 =>
      _ ← ensure (negb (bool_decide (message1 = message2))) MessagesDuplicated;
      _ ← ensure (bool_decide (msg_round message1 = msg_round message2)) DifferentRounds;
      let signer_idx1 := msg_signer_index message1 in
      let signer_idx2 := msg_signer_index message2 in
      _ ← ensure (signer_idx1 =? signer_idx2) (DifferentSigners signer_idx1 signer_idx2);
      _ ← assert (msg_height message1 =? msg_height message2);
      let signed_block_height := msg_height message1 in
      _ ← ensure (negb (signed_block_height =? 0)) DoubleVoteOnGenesis;
      parent_hash ← ok_or (block_hash (signed_block_height - 1)) (NoHeader signed_block_height);
      let signer := validators_get parent_hash signer_idx1 in
      ensure (match msg_verify message1 signer, msg_verify message2 signer with
              | Ok true, Ok true => true
              | _, _ => false
              end) SchnorrFails
  end.
End Actions.
