(* ===== verification/Stake.v ===== *)
(** The handlers of the staking contract: core/src/consensus/stake/mod.rs.  [stake_execute] is
    the method [execute] that the top level calls for a custom action; the other entry points
    are called by the consensus engine when it closes a block. *)
From stdpp Require Import base gmap list numbers strings.
From Stdlib Require Import NArith Lia.
From S2P Require Import Prelude Types Crypto Rlp RlpImpls Params StateCache StateItems ShardState.
From S2P Require Import TrieNode BTree StakeData StakeAction.

Local Open Scope N_scope.

Definition stake_failure (text : string) : RuntimeError.t :=
  RuntimeError.FailedToHandleCustomAction (str text).

Section Handlers.
Context `{Crypto} {S : Type} `{StakeState S}.

Abbreviation stakeM := (stM S StateError.t).

(** [Stake::init], over the genesis stakes in the order the map is walked. *)
Definition stake_init (genesis_stakes : list (Address * N)) : stakeM () :=
  stakeholders ← Stakeholders_load;
  stakeholders ← for_fold (λ stakeholders '(address, amount),
    let account := {| sa_address := address; sa_balance := amount |} in
    _ ← StakeAccount_save account;
    mret (update_by_increased_balance stakeholders account)) stakeholders genesis_stakes;
  Stakeholders_save stakeholders.

Definition transfer_ccs (fee_payer receiver : Address) (quantity : N) : stakeM () :=
  stakeholders ← Stakeholders_load;
  sender_account ← StakeAccount_load fee_payer;
  receiver_account ← StakeAccount_load receiver;
  sender_delegations ← Delegation_load fee_payer;
  sender_account ← subtract_balance sender_account quantity;
  let receiver_account := sa_add_balance receiver_account quantity in
  stakeholders ← update_by_decreased_balance stakeholders sender_account sender_delegations;
  let stakeholders := update_by_increased_balance stakeholders receiver_account in
  _ ← Stakeholders_save stakeholders;
  _ ← StakeAccount_save sender_account;
  StakeAccount_save receiver_account.

Definition delegate_ccs (fee_payer delegatee : Address) (quantity : N) : stakeM () :=
  candidates ← Candidates_load;
  match get_candidate candidates delegatee with
  | None => stake_throw (stake_failure "Can delegate to who is a candidate")
  | Some _ =>
      banned ← Banned_load;
      jailed ← Jail_load;
      _ ← lift_st (assert (negb (is_banned banned delegatee)));
      _ ← lift_st (assert (match get_prisoner jailed delegatee with None => true | Some _ => false end));
      delegator ← StakeAccount_load fee_payer;
      delegation ← Delegation_load fee_payer;
      delegator ← subtract_balance delegator quantity;
      let delegation := de_add_quantity delegation delegatee quantity in
      _ ← Delegation_save delegation;
      StakeAccount_save delegator
  end.

Definition revoke (fee_payer delegatee : Address) (quantity : N) : stakeM () :=
  delegator ← StakeAccount_load fee_payer;
  delegation ← Delegation_load fee_payer;
  let delegator := sa_add_balance delegator quantity in
  delegation ← de_subtract_quantity delegation delegatee quantity;
  _ ← Delegation_save delegation;
  StakeAccount_save delegator.

Definition self_nominate (fee_payer : Address) (sender_public : Public)
    (deposit current_term nomination_ends_at : N) (metadata : bytes) : stakeM () :=
  if negb (bool_decide (public_to_address sender_public = fee_payer)) then
    stake_throw (stake_failure "Cannot Self-nominate with regular key")
  else
    blacklist ← Banned_load;
    if is_banned blacklist fee_payer then stake_throw (stake_failure "Account is blacklisted")
    else
      jail ← Jail_load;
      let '(released, jail) := try_release jail fee_payer current_term in
      total_deposit ← match released with
        | InCustody => stake_throw (stake_failure "Account is still in custody")
        | NotExists => mret deposit
        | Released prisoner =>
            _ ← lift_st (assert (bool_decide (pr_address prisoner = fee_payer)));
            mret (u64_add (pr_deposit prisoner) deposit)
        end;
      candidates ← Candidates_load;
      _ ← ss_sub_balance fee_payer deposit;
      candidates ← lift_st (add_deposit candidates sender_public total_deposit nomination_ends_at metadata);
      _ ← Jail_save jail;
      Candidates_save candidates.

(** The stakes of each holder: balance and what is delegated. *)
Definition get_stakes : stakeM (gmap Address N) :=
  stakeholders ← Stakeholders_load;
  for_fold (λ result stakeholder,
    account ← StakeAccount_load stakeholder;
    delegation ← Delegation_load stakeholder;
    mret (<[stakeholder := u64_add (sa_balance account) (de_sum delegation)]> (result : gmap Address N)))
    ∅ stakeholders.*1.

Definition add_intermediate_rewards (address : Address) (reward : N) : stakeM () :=
  rewards ← IntermediateRewards_load;
  IntermediateRewards_save (ir_add_quantity rewards address reward).

Definition drain_previous_rewards : stakeM (amap N) :=
  rewards ← IntermediateRewards_load;
  let '(drained, rewards) := drain_previous rewards in
  _ ← IntermediateRewards_save rewards;
  mret drained.

Definition move_current_to_previous_intermediate_rewards : stakeM () :=
  rewards ← IntermediateRewards_load;
  rewards ← move_current_to_previous rewards;
  IntermediateRewards_save rewards.

Definition update_validator_weights (block_author : Address) : stakeM () :=
  validators ← Validators_load;
  validators ← lift_st (update_weight validators block_author);
  Validators_save validators.

(** [stakes.values().sum()]: addition wraps around, so the order of the walk is no matter. *)
Definition total_stakes (stakes : gmap Address N) : N :=
  foldl u64_add 0 (map_to_list stakes).*2.

Definition change_params {M : Type} `{Message M} (metadata_seq : N) (params : CommonParams)
    (signatures : list Signature) : stakeM () :=
  _ ← ss_update_params metadata_seq params;
  let encoded_action := change_params_digest (M := M) metadata_seq params in
  stakes ← get_stakes;
  signed_stakes ← for_fold (λ sum signature,
    public ← lift_st (unwrap (recover_ecdsa signature encoded_action));
    let address := public_to_address public in
    match stakes !! address with
    | Some stake => mret (u64_add sum stake)
    | None => stake_throw (RuntimeError.SignatureOfInvalidAccount address)
    end) 0 signatures;
  let total_stakes := total_stakes stakes in
  if signed_stakes <=? total_stakes / 2 then
    stake_throw (RuntimeError.InsufficientStakes total_stakes signed_stakes)
  else mret tt.

(** The body of the loop over delegators in [revert_delegations]. *)
Definition revert_delegator (reverted_delegatees : list Address) (stakeholder : Address) : stakeM () :=
  delegator ← StakeAccount_load stakeholder;
  delegation ← Delegation_load stakeholder;
  '(delegator, delegation) ← for_fold (λ '(delegator, delegation) delegatee,
      let quantity := de_get_quantity delegation delegatee in
      if 0 <? quantity then
        delegation ← de_subtract_quantity delegation delegatee quantity;
        mret (sa_add_balance delegator quantity, delegation)
      else mret (delegator, delegation)) (delegator, delegation) reverted_delegatees;
  _ ← Delegation_save delegation;
  StakeAccount_save delegator.

Definition revert_delegations (reverted_delegatees : list Address) : stakeM () :=
  stakeholders ← Stakeholders_load;
  for_each (revert_delegator reverted_delegatees) stakeholders.*1.

Definition update_candidates (current_term nomination_expiration : N)
    (inactive_validators : list Address) : stakeM (list Address) :=
  banned ← Banned_load;
  candidates ← Candidates_load;
  let nomination_ends_at := u64_add current_term nomination_expiration in
  current_validators ← Validators_load;
  candidates ← lift_st (renew_candidates candidates current_validators nomination_ends_at
                          inactive_validators banned);
  let '(expired, candidates) := drain_expired_candidates candidates current_term in
  _ ← for_each (λ c, ss_add_balance (ca_address c) (ca_deposit c)) expired;
  _ ← Candidates_save candidates;
  mret (ca_address <$> expired).

Definition release_jailed_prisoners (current_term : N) : stakeM (list Address) :=
  jailed ← Jail_load;
  let '(released, jailed) := drain_released_prisoners jailed current_term in
  _ ← for_each (λ p, ss_add_balance (pr_address p) (pr_deposit p)) released;
  _ ← Jail_save jailed;
  mret (pr_address <$> released).

Definition jail (addresses : list Address) (custody_until kick_at : N) : stakeM () :=
  match addresses with
  | [] => mret tt
  | _ =>
      candidates ← Candidates_load;
      jail ← Jail_load;
      '(candidates, jail) ← for_fold (λ '(candidates, jail) address,
          '(candidate, candidates) ← lift_st (expect (candidates_remove candidates address));
          jail ← lift_st (jail_add jail candidate custody_until kick_at);
          mret (candidates, jail)) (candidates, jail) addresses;
      _ ← Jail_save jail;
      Candidates_save candidates
  end.

Definition ban (informant : Public) (criminal : Address) : stakeM () :=
  banned ← Banned_load;
  if is_banned banned criminal then stake_throw (stake_failure "Account is already banned")
  else
    candidates ← Candidates_load;
    jailed ← Jail_load;
    validators ← Validators_load;
    let candidate := candidates_remove candidates criminal in
    let candidates := match candidate with Some (_, rest) => rest | None => candidates end in
    let '(prisoner, jailed) := jail_remove jailed criminal in
    deposit ← lift_st match candidate, prisoner with
      | Some _, Some _ => Panic
      | Some (candidate, _), None => Ok (ca_deposit candidate)
      | None, Some prisoner => Ok (pr_deposit prisoner)
      | None, None => Ok 0
      end;
    _ ← ss_add_balance (public_to_address informant) deposit;
    let jailed := (jail_remove jailed criminal).2 in
    let banned := banned_add banned criminal in
    let validators := validators_remove validators criminal in
    _ ← Jail_save jailed;
    _ ← Banned_save banned;
    _ ← Candidates_save candidates;
    _ ← Validators_save validators;
    revert_delegations [criminal].

Definition on_term_close (last_term_finished_block_num : N) (inactive_validators : list Address)
  : stakeM () :=
  metadata ← ss_metadata;
  metadata ← lift_st (expect metadata);
  let current_term := md_current_term_id metadata in
  params ← lift_st (expect (md_params metadata));
  _ ← lift_st (assert (negb (cp_nomination_expiration params =? 0)));
  _ ← lift_st (assert (negb (cp_custody_period params =? 0)));
  _ ← lift_st (assert (negb (cp_release_period params =? 0)));
  let custody_until := u64_add current_term (cp_custody_period params) in
  let kick_at := u64_add current_term (cp_release_period params) in
  expired ← update_candidates current_term (cp_nomination_expiration params) inactive_validators;
  released ← release_jailed_prisoners current_term;
  _ ← revert_delegations (expired ++ released);
  _ ← jail inactive_validators custody_until kick_at;
  validators ← elect;
  _ ← Validators_save validators;
  ss_increase_term_id last_term_finished_block_num.

(** [Stake::execute]. *)
Definition DEFAULT_NOMINATION_EXPIRATION : N := 24.

Definition stake_execute {M : Type} `{Message M} (block_hash : N → option H256)
    (validators_get : H256 → N → Public) (bs : bytes) (fee_payer : Address) (sender_public : Public)
  : stakeM () :=
  action ← lift_st (unwrap (StakeAction_decode (M := M) bs));
  match action with
  | TransferCCS address quantity => transfer_ccs fee_payer address quantity
  | DelegateCCS address quantity => delegate_ccs fee_payer address quantity
  | Revoke address quantity => revoke fee_payer address quantity
  | SelfNominate deposit metadata =>
      md ← ss_metadata;
      md ← lift_st (expect md);
      let current_term := md_current_term_id md in
      let expiration := match md_params md with
                        | Some params => cp_nomination_expiration params
                        | None => DEFAULT_NOMINATION_EXPIRATION
                        end in
      self_nominate fee_payer sender_public deposit current_term (u64_add current_term expiration) metadata
  | ChangeParams metadata_seq params signatures => change_params (M := M) metadata_seq params signatures
  | ReportDoubleVote message1 _ =>
      parent_hash ← lift_st (expect (block_hash (u64_sub (msg_height message1) 1)));
      let malicious_user_public := validators_get parent_hash (msg_signer_index message1) in
      ban sender_public (public_to_address malicious_user_public)
  end.
End Handlers.
