(* ===== verification/StakeLedger.v ===== *)
(** What the data of the staking contract stands for.  A [ledger] has the stakes, delegations,
    candidates, prisoners and coins of the accounts in play; [st s L] says that the state [s]
    holds [L] in its action data.  [does m L r L'] evaluates a piece of the contract on
    ledgers: from every state that holds [L] it returns [r] and leaves a state that holds
    [L'].  StakeSpec.v evaluates the handlers. *)
From stdpp Require Import base gmap list numbers strings sorting.
From Stdlib Require Import NArith Lia.
From S2P Require Import Prelude Types Crypto Rlp RlpImpls Params StateCache StateItems ShardState.
From S2P Require Import TrieNode BTree StakeData StakeAction Stake.

Local Open Scope N_scope.

(** * What the contract relies on of the state *)

(** What a state shows: the action data, the balances and the metadata. *)
Record sview := {
  sv_data : H256 → option bytes;
  sv_coin : Address → N;
  sv_metadata : option Metadata;
}.

Definition with_data (v : sview) (k : H256) (o : option bytes) : sview :=
  {| sv_data := λ k', if decide (k' = k) then o else sv_data v k';
     sv_coin := sv_coin v; sv_metadata := sv_metadata v |}.
Definition with_coin (v : sview) (a : Address) (n : N) : sview :=
  {| sv_data := sv_data v; sv_coin := λ b, if decide (b = a) then n else sv_coin v b;
     sv_metadata := sv_metadata v |}.
Definition with_metadata (v : sview) (m : Metadata) : sview :=
  {| sv_data := sv_data v; sv_coin := sv_coin v; sv_metadata := Some m |}.

(** Each operation, in a state that shows [v]; reads may change the state, not what it shows. *)
Class StakeStateLaws (S : Type) `{StakeState S} := {
  ss_shows : S → sview → Prop;
  ss_action_data_law s v k : ss_shows s v →
    ∃ s', ss_action_data k s = (Ok (sv_data v k), s') ∧ ss_shows s' v;
  ss_update_action_data_law s v k bs : ss_shows s v →
    ∃ s', ss_update_action_data k bs s = (Ok tt, s') ∧ ss_shows s' (with_data v k (Some bs));
  ss_remove_action_data_law s v k : ss_shows s v →
    ∃ s', ss_remove_action_data k s = (Ok tt, s') ∧ ss_shows s' (with_data v k None);
  ss_add_balance_law s v a n : ss_shows s v → sv_coin v a + n < u64_size →
    ∃ s', ss_add_balance a n s = (Ok tt, s') ∧ ss_shows s' (with_coin v a (sv_coin v a + n));
  ss_sub_balance_law s v a n : ss_shows s v → sv_coin v a < u64_size → n ≤ sv_coin v a →
    ∃ s', ss_sub_balance a n s = (Ok tt, s') ∧ ss_shows s' (with_coin v a (sv_coin v a - n));
  ss_sub_balance_fails s v a n : ss_shows s v → sv_coin v a < n →
    ∃ s', ss_sub_balance a n s =
            (Err (StateError.Runtime (RuntimeError.InsufficientBalance a (sv_coin v a) n)), s') ∧
          ss_shows s' v;
  ss_metadata_law s v : ss_shows s v → ∃ s', ss_metadata s = (Ok (sv_metadata v), s') ∧ ss_shows s' v;
  ss_update_params_law s v m n params : ss_shows s v → sv_metadata v = Some m → md_seq m = n →
    ∃ s', ss_update_params n params s = (Ok tt, s') ∧
          ss_shows s' (with_metadata v (Metadata_increase_seq (set_params_metadata params m)));
  ss_update_params_fails s v m n params : ss_shows s v → sv_metadata v = Some m → md_seq m ≠ n →
    ∃ s', ss_update_params n params s =
            (Err (StateError.Runtime (RuntimeError.InvalidSeq (md_seq m) n)), s') ∧ ss_shows s' v;
  ss_increase_term_id_law s v m m' n : ss_shows s v → sv_metadata v = Some m →
    increase_term_id_metadata n m = Some m' →
    ∃ s', ss_increase_term_id n s = (Ok tt, s') ∧ ss_shows s' (with_metadata v m');
}.

(** * Ledgers *)

Record ledger := {
  lg_balance : Address → N;
  lg_delegation : Address → amap N;
  lg_holders : aset;
  lg_candidates : list Candidate;
  lg_jail : amap Prisoner;
  lg_banned : aset;
  lg_validators : list Validator;
  lg_rewards : IntermediateRewards;
  lg_coin : Address → N;
  lg_metadata : option Metadata;
}.

Definition put {A} (f : Address → A) (a : Address) (x : A) : Address → A :=
  λ b, if decide (b = a) then x else f b.

Lemma put_eq {A} (f : Address → A) a x : put f a x a = x.
Proof. unfold put. by rewrite decide_True. Qed.
Lemma put_ne {A} (f : Address → A) a b x : b ≠ a → put f a x b = f b.
Proof. intros. unfold put. by rewrite decide_False. Qed.

Definition set_balance (L : ledger) (a : Address) (n : N) : ledger :=
  {| lg_balance := put (lg_balance L) a n; lg_delegation := lg_delegation L; lg_holders := lg_holders L;
     lg_candidates := lg_candidates L; lg_jail := lg_jail L; lg_banned := lg_banned L;
     lg_validators := lg_validators L; lg_rewards := lg_rewards L; lg_coin := lg_coin L;
     lg_metadata := lg_metadata L |}.
Definition set_delegation (L : ledger) (a : Address) (m : amap N) : ledger :=
  {| lg_balance := lg_balance L; lg_delegation := put (lg_delegation L) a m; lg_holders := lg_holders L;
     lg_candidates := lg_candidates L; lg_jail := lg_jail L; lg_banned := lg_banned L;
     lg_validators := lg_validators L; lg_rewards := lg_rewards L; lg_coin := lg_coin L;
     lg_metadata := lg_metadata L |}.
Definition set_holders (L : ledger) (x : aset) : ledger :=
  {| lg_balance := lg_balance L; lg_delegation := lg_delegation L; lg_holders := x;
     lg_candidates := lg_candidates L; lg_jail := lg_jail L; lg_banned := lg_banned L;
     lg_validators := lg_validators L; lg_rewards := lg_rewards L; lg_coin := lg_coin L;
     lg_metadata := lg_metadata L |}.
Definition set_candidates (L : ledger) (x : list Candidate) : ledger :=
  {| lg_balance := lg_balance L; lg_delegation := lg_delegation L; lg_holders := lg_holders L;
     lg_candidates := x; lg_jail := lg_jail L; lg_banned := lg_banned L;
     lg_validators := lg_validators L; lg_rewards := lg_rewards L; lg_coin := lg_coin L;
     lg_metadata := lg_metadata L |}.
Definition set_jail (L : ledger) (x : amap Prisoner) : ledger :=
  {| lg_balance := lg_balance L; lg_delegation := lg_delegation L; lg_holders := lg_holders L;
     lg_candidates := lg_candidates L; lg_jail := x; lg_banned := lg_banned L;
     lg_validators := lg_validators L; lg_rewards := lg_rewards L; lg_coin := lg_coin L;
     lg_metadata := lg_metadata L |}.
Definition set_banned (L : ledger) (x : aset) : ledger :=
  {| lg_balance := lg_balance L; lg_delegation := lg_delegation L; lg_holders := lg_holders L;
     lg_candidates := lg_candidates L; lg_jail := lg_jail L; lg_banned := x;
     lg_validators := lg_validators L; lg_rewards := lg_rewards L; lg_coin := lg_coin L;
     lg_metadata := lg_metadata L |}.
Definition set_validators (L : ledger) (x : list Validator) : ledger :=
  {| lg_balance := lg_balance L; lg_delegation := lg_delegation L; lg_holders := lg_holders L;
     lg_candidates := lg_candidates L; lg_jail := lg_jail L; lg_banned := lg_banned L;
     lg_validators := x; lg_rewards := lg_rewards L; lg_coin := lg_coin L;
     lg_metadata := lg_metadata L |}.
Definition set_rewards (L : ledger) (x : IntermediateRewards) : ledger :=
  {| lg_balance := lg_balance L; lg_delegation := lg_delegation L; lg_holders := lg_holders L;
     lg_candidates := lg_candidates L; lg_jail := lg_jail L; lg_banned := lg_banned L;
     lg_validators := lg_validators L; lg_rewards := x; lg_coin := lg_coin L;
     lg_metadata := lg_metadata L |}.
Definition set_coin (L : ledger) (a : Address) (n : N) : ledger :=
  {| lg_balance := lg_balance L; lg_delegation := lg_delegation L; lg_holders := lg_holders L;
     lg_candidates := lg_candidates L; lg_jail := lg_jail L; lg_banned := lg_banned L;
     lg_validators := lg_validators L; lg_rewards := lg_rewards L; lg_coin := put (lg_coin L) a n;
     lg_metadata := lg_metadata L |}.
Definition set_meta (L : ledger) (m : Metadata) : ledger :=
  {| lg_balance := lg_balance L; lg_delegation := lg_delegation L; lg_holders := lg_holders L;
     lg_candidates := lg_candidates L; lg_jail := lg_jail L; lg_banned := lg_banned L;
     lg_validators := lg_validators L; lg_rewards := lg_rewards L; lg_coin := lg_coin L;
     lg_metadata := Some m |}.

(** * Where a ledger is kept *)

Inductive slot :=
| SBalance (a : Address) | SDelegation (a : Address)
| SHolders | SCandidates | SJail | SBanned | SValidators | SRewards.
#[global] Instance slot_eq_dec : EqDecision slot.
Proof. solve_decision. Defined.

(** The accounts a ledger is about, and how long the metadata of a candidate can be. *)
Class Accounts := { accounts : list Address; max_meta : N }.

Section Ledger.
Context `{CryptoLaws} {S : Type} `{StakeState S} `{!StakeStateLaws S} `{Accounts}.

Definition key_of (sl : slot) : H256 :=
  match sl with
  | SBalance a => get_account_key a
  | SDelegation a => get_delegation_key a
  | SHolders => STAKEHOLDER_ADDRESSES_KEY
  | SCandidates => CANDIDATES_KEY
  | SJail => JAIL_KEY
  | SBanned => BANNED_KEY
  | SValidators => VALIDATORS_KEY
  | SRewards => get_intermediate_rewards_key
  end.

Definition slots : list slot :=
  (SBalance <$> accounts) ++ (SDelegation <$> accounts) ++
  [SHolders; SCandidates; SJail; SBanned; SValidators; SRewards].

(** The accounts in play: their keys do not collide, and what is kept for them fits. *)
Class InPlay : Prop := {
  play_keys : NoDup (key_of <$> slots);
  play_addresses : Forall (λ a, len a = 20) accounts;
  play_fits : (len accounts + 1) * (max_meta + 400) < u32_size;
}.

Definition stored {T} (c : Codec T) `{!CodecOk c} (kept : bool) (x : T) : option bytes :=
  if kept then Some (enc (item c x)) else None.

Definition slot_data (L : ledger) (sl : slot) : option bytes :=
  match sl with
  | SBalance a => stored u64_codec (negb (lg_balance L a =? 0)) (lg_balance L a)
  | SDelegation a => stored (map_codec H160_codec u64_codec)
                       (negb (is_empty (lg_delegation L a))) (lg_delegation L a)
  | SHolders => stored (set_codec H160_codec) (negb (is_empty (lg_holders L))) (lg_holders L)
  | SCandidates => stored (iter_codec Candidate_codec) (negb (is_empty (lg_candidates L))) (lg_candidates L)
  | SJail => stored (iter_codec Prisoner_codec) (negb (is_empty (lg_jail L))) (lg_jail L).*2
  | SBanned => stored (set_codec H160_codec) (negb (is_empty (lg_banned L))) (lg_banned L)
  | SValidators => stored (vec_codec Validator_codec) (negb (is_empty (lg_validators L))) (lg_validators L)
  | SRewards =>
      stored (map_tuple_codec H160_codec u64_codec)
        (negb (is_empty (ir_previous (lg_rewards L)) && is_empty (ir_current (lg_rewards L))))
        (ir_previous (lg_rewards L), ir_current (lg_rewards L))
  end.

(** Ordered maps over the accounts in play, with values that can be written. *)
Definition amap_wf {V} (P : Address → V → Prop) (m : amap V) : Prop :=
  bt_ok m ∧ ∀ k x, (k, x) ∈ m → k ∈ accounts ∧ P k x.
Definition u64_wf (n : N) : Prop := n < u64_size.

Definition candidate_wf (c : Candidate) : Prop :=
  wf Candidate_codec c ∧ ca_address c ∈ accounts ∧ len (ca_metadata c) ≤ max_meta.
Definition validator_wf (v : Validator) : Prop := wf Validator_codec v ∧ va_address v ∈ accounts.
Definition prisoner_wf (k : Address) (p : Prisoner) : Prop := wf Prisoner_codec p ∧ pr_address p = k.

Record lg_wf (L : ledger) : Prop := {
  wf_balance a : a ∈ accounts → u64_wf (lg_balance L a);
  wf_delegation a : a ∈ accounts → amap_wf (λ _ x, 0 < x ∧ u64_wf x) (lg_delegation L a);
  wf_holders : amap_wf (λ _ _, True) (lg_holders L);
  wf_candidates : Forall candidate_wf (lg_candidates L) ∧ NoDup (ca_address <$> lg_candidates L);
  wf_jail : amap_wf prisoner_wf (lg_jail L);
  wf_banned : amap_wf (λ _ _, True) (lg_banned L);
  wf_validators : Forall validator_wf (lg_validators L) ∧ NoDup (va_address <$> lg_validators L);
  wf_rewards : amap_wf (λ _ x, u64_wf x) (ir_previous (lg_rewards L)) ∧
               amap_wf (λ _ x, u64_wf x) (ir_current (lg_rewards L));
  wf_coin a : u64_wf (lg_coin L a);
}.

(** The state holds the ledger. *)
Definition st (s : S) (L : ledger) : Prop :=
  lg_wf L ∧ ∃ v, ss_shows s v ∧ (∀ sl, sl ∈ slots → sv_data v (key_of sl) = slot_data L sl) ∧
    (∀ a, sv_coin v a = lg_coin L a) ∧ sv_metadata v = lg_metadata L.

Definition does {E A} (m : stM S E A) (L : ledger) (r : result E A) (L' : ledger)
  : Prop := ∀ s, st s L → (m s).1 = r ∧ st (m s).2 L'.

(** ** Evaluation *)

Lemma does_ret {E A} (x : A) L : does (E := E) (mret x) L (Ok x) L.
Proof. by intros s Hs. Qed.

Lemma does_lift {E A} (r : result E A) L : does (lift_st r) L r L.
Proof. by intros s Hs. Qed.

Lemma does_throw {A} e L : does (stake_throw (A := A) e) L (Err (StateError.Runtime e)) L.
Proof. by intros s Hs. Qed.

Lemma does_bind {E A B} (m : stM S E A) (f : A → stM S E B) L L1 L2 x r :
  does m L (Ok x) L1 → does (f x) L1 r L2 → does (m ≫= f) L r L2.
Proof.
  intros Hm Hf s Hs. destruct (Hm s Hs) as [Hr Hs1]. unfold mbind, stM_bind.
  destruct (m s) as [r1 s1]. simpl in *. subst r1. by apply Hf.
Qed.

Lemma does_bind_err {E A B} (m : stM S E A) (f : A → stM S E B) L L1 e :
  does m L (Err e) L1 → does (m ≫= f) L (Err e) L1.
Proof.
  intros Hm s Hs. destruct (Hm s Hs) as [Hr Hs1]. unfold mbind, stM_bind.
  destruct (m s) as [r1 s1]. simpl in *. by subst r1.
Qed.

Lemma does_bind_panic {E A B} (m : stM S E A) (f : A → stM S E B) L L1 :
  does m L Panic L1 → does (m ≫= f) L Panic L1.
Proof.
  intros Hm s Hs. destruct (Hm s Hs) as [Hr Hs1]. unfold mbind, stM_bind.
  destruct (m s) as [r1 s1]. simpl in *. by subst r1.
Qed.

(** ** Sizes *)

Lemma nodup_len_le {A} (l k : list A) : NoDup l → (∀ x, x ∈ l → x ∈ k) → len l ≤ len k.
Proof.
  intros Hl Hin. unfold len. apply NoDup_submseteq, submseteq_length in Hin; [lia|done].
Qed.

Lemma amap_len {V} P (m : amap V) : amap_wf P m → len m ≤ len accounts.
Proof.
  intros [Hm Hd]. replace (len m) with (len m.*1) by (unfold len; by rewrite length_fmap).
  apply nodup_len_le; [by apply bt_keys_nodup|]. intros k ([k' x] & -> & Hin)%list_elem_of_fmap.
  by apply Hd in Hin as [? _].
Qed.

Context `{Hplay : !InPlay}.

Lemma play_address a : a ∈ accounts → len a = 20.
Proof. intros Ha. destruct Hplay as [_ Hp _]. rewrite Forall_forall in Hp. by apply Hp. Qed.

(** A list of at most as many records as there are accounts fits. *)
Lemma list_fits l :
  len l ≤ len accounts → Forall (λ i, len (enc i) ≤ max_meta + 380) l → fits (List l).
Proof.
  intros Hl Hall. destruct Hplay as [_ _ Hp]. unfold fits.
  assert (u32_size < u64_size) by done.
  assert (len l * (max_meta + 380) ≤ len accounts * (max_meta + 380)) by (apply N.mul_le_mono_r; done).
  pose proof (enc_list_bound (max_meta + 380) l Hall ltac:(lia)). lia.
Qed.

Lemma H160_item_bound a : len a = 20 → len (enc (item H160_codec a)) ≤ 29.
Proof.
  intros Ha. change (len (enc (Data a)) ≤ 9 + 20). by apply data_item_bound; [rewrite Ha|].
Qed.

Lemma u64_fits n : fits (item u64_codec n).
Proof. unfold fits. pose proof (u64_item_bound n). assert (17 < u32_size) by done. lia. Qed.

Lemma amap_fits P (m : amap N) : amap_wf P m → fits (item (map_codec H160_codec u64_codec) m) ∧
  len (enc (item (map_codec H160_codec u64_codec) m)) ≤ 9 + len accounts * 60.
Proof.
  intros Hm. pose proof (amap_len _ _ Hm) as Hl. destruct Hm as [_ Hd].
  set (l := item (entry_codec H160_codec u64_codec) <$> m).
  assert (len l ≤ len accounts) as Hll by (unfold l, len in *; by rewrite length_fmap).
  assert (Forall (λ i, len (enc i) ≤ 60) l) as Hall.
  { apply Forall_forall. intros i ([k x] & -> & Hin)%list_elem_of_fmap.
    apply Hd in Hin as [Hk _]. pose proof (H160_item_bound k (play_address k Hk)).
    pose proof (u64_item_bound x). assert (60 < u64_size) by done.
    pose proof (enc_list_sum [item H160_codec k; item u64_codec x]) as Hs.
    rewrite !sum_with_cons, sum_with_nil in Hs.
    change (len (enc (List [item H160_codec k; item u64_codec x])) ≤ 60). lia. }
  destruct Hplay as [_ _ Hp]. assert (u32_size < u64_size) by done.
  assert (len l * 60 ≤ len accounts * 60) by (apply N.mul_le_mono_r; done).
  split; [|pose proof (enc_list_bound 60 l Hall ltac:(lia)); unfold l in *; cbn [item map_codec_ok]; lia].
  apply list_fits; [done|]. eapply Forall_impl; [exact Hall|]. simpl. lia.
Qed.

Lemma aset_fits P (m : aset) : amap_wf P m → fits (item (set_codec H160_codec) m).
Proof.
  intros Hm. pose proof (amap_len _ _ Hm) as Hl. destruct Hm as [_ Hd].
  apply list_fits; [unfold len in *; by rewrite !length_fmap|].
  apply Forall_forall. intros i (k & -> & ([k' x] & -> & Hin)%list_elem_of_fmap)%list_elem_of_fmap.
  apply Hd in Hin as [Hk _]. pose proof (H160_item_bound k' (play_address k' Hk)). cbn [fst]. lia.
Qed.

Lemma candidates_fit l :
  Forall candidate_wf l → NoDup (ca_address <$> l) → fits (item (iter_codec Candidate_codec) l).
Proof.
  intros Hl Hnd. rewrite Forall_forall in Hl. apply list_fits.
  - replace (len (item Candidate_codec <$> l)) with (len (ca_address <$> l))
      by (unfold len; by rewrite !length_fmap).
    apply nodup_len_le; [done|]. intros a (c & -> & Hc)%list_elem_of_fmap. by apply Hl.
  - apply Forall_forall. intros i (c & -> & Hc)%list_elem_of_fmap.
    destruct (Hl c Hc) as ((Hp & _) & _ & Hm). destruct Hplay as [_ _ Hf].
    assert (u32_size < u64_size) by done. assert (max_meta + 400 < u32_size) by nia.
    pose proof (u64_item_bound (ca_deposit c)). pose proof (u64_item_bound (ca_nomination_ends_at c)).
    assert (len (enc (item H512_codec (ca_pubkey c))) ≤ 9 + 64).
    { apply data_item_bound; [|done]. by rewrite Hp. }
    assert (len (enc (item bytes_codec (ca_metadata c))) ≤ 9 + max_meta).
    { apply data_item_bound; [done|lia]. }
    pose proof (enc_list_sum [item H512_codec (ca_pubkey c); item u64_codec (ca_deposit c);
      item u64_codec (ca_nomination_ends_at c); item bytes_codec (ca_metadata c)]) as Hs.
    rewrite !sum_with_cons, sum_with_nil in Hs.
    change (len (enc (List [item H512_codec (ca_pubkey c); item u64_codec (ca_deposit c);
      item u64_codec (ca_nomination_ends_at c); item bytes_codec (ca_metadata c)])) ≤ max_meta + 380). lia.
Qed.

Lemma validators_fit l :
  Forall validator_wf l → NoDup (va_address <$> l) → fits (item (vec_codec Validator_codec) l).
Proof.
  intros Hl Hnd. rewrite Forall_forall in Hl. apply list_fits.
  - replace (len (item Validator_codec <$> l)) with (len (va_address <$> l))
      by (unfold len; by rewrite !length_fmap).
    apply nodup_len_le; [done|]. intros a (c & -> & Hc)%list_elem_of_fmap. by apply Hl.
  - apply Forall_forall. intros i (c & -> & Hc)%list_elem_of_fmap.
    destruct (Hl c Hc) as ((_ & _ & _ & Hp) & _). assert (300 < u64_size) by done.
    pose proof (u64_item_bound (va_deposit c)). pose proof (u64_item_bound (va_weight c)).
    pose proof (u64_item_bound (va_delegation c)).
    assert (len (enc (item H512_codec (va_pubkey c))) ≤ 9 + 64).
    { apply data_item_bound; [|done]. by rewrite Hp. }
    pose proof (enc_list_sum [item u64_codec (va_weight c); item u64_codec (va_delegation c);
      item u64_codec (va_deposit c); item H512_codec (va_pubkey c)]) as Hs.
    rewrite !sum_with_cons, sum_with_nil in Hs.
    change (len (enc (List [item u64_codec (va_weight c); item u64_codec (va_delegation c);
      item u64_codec (va_deposit c); item H512_codec (va_pubkey c)])) ≤ max_meta + 380). lia.
Qed.

Lemma prisoners_fit (m : amap Prisoner) :
  amap_wf prisoner_wf m → fits (item (iter_codec Prisoner_codec) m.*2).
Proof.
  intros Hm. pose proof (amap_len _ _ Hm) as Hl. destruct Hm as [_ Hd]. apply list_fits.
  - unfold len in *. by rewrite !length_fmap.
  - apply Forall_forall. intros i (c & -> & ([k c'] & -> & Hc)%list_elem_of_fmap)%list_elem_of_fmap.
    destruct (Hd k c' Hc) as (_ & (Hp & _) & _). cbn [snd]. assert (300 < u64_size) by done.
    pose proof (u64_item_bound (pr_deposit c')). pose proof (u64_item_bound (pr_custody_until c')).
    pose proof (u64_item_bound (pr_released_at c')). pose proof (H160_item_bound (pr_address c') Hp).
    pose proof (enc_list_sum [item H160_codec (pr_address c'); item u64_codec (pr_deposit c');
      item u64_codec (pr_custody_until c'); item u64_codec (pr_released_at c')]) as Hs.
    rewrite !sum_with_cons, sum_with_nil in Hs.
    change (len (enc (List [item H160_codec (pr_address c'); item u64_codec (pr_deposit c');
      item u64_codec (pr_custody_until c'); item u64_codec (pr_released_at c')])) ≤ max_meta + 380). lia.
Qed.

Lemma rewards_fit P Q m0 m1 :
  amap_wf P m0 → amap_wf Q m1 → fits (item (map_tuple_codec H160_codec u64_codec) (m0, m1)).
Proof.
  intros [_ H0m]%amap_fits [_ H1m]%amap_fits. destruct Hplay as [_ _ Hf].
  assert (u32_size < u64_size) by done. unfold fits.
  pose proof (enc_list_sum [item (map_codec H160_codec u64_codec) m0;
    item (map_codec H160_codec u64_codec) m1]) as Hs.
  rewrite !sum_with_cons, sum_with_nil in Hs.
  change (len (enc (List [item (map_codec H160_codec u64_codec) m0;
    item (map_codec H160_codec u64_codec) m1])) < u32_size). nia.
Qed.

(** ** Loading and saving *)

Lemma key_of_inj sl sl' : sl ∈ slots → sl' ∈ slots → key_of sl = key_of sl' → sl = sl'.
Proof.
  intros Hsl Hsl' Heq. destruct Hplay as [Hnd _ _]. clear Hplay. revert Hnd Hsl Hsl'.
  induction slots as [|x l IH]; intros Hnd Hsl Hsl'; [by apply elem_of_nil in Hsl|].
  rewrite fmap_cons in Hnd. apply list.NoDup_cons in Hnd as [Hx Hnd].
  apply elem_of_cons in Hsl as [->|Hsl]; apply elem_of_cons in Hsl' as [->|Hsl']; [done|..|auto].
  - destruct Hx. rewrite Heq. by apply list_elem_of_fmap_2.
  - destruct Hx. rewrite <-Heq. by apply list_elem_of_fmap_2.
Qed.

Lemma does_load {T} (c : Codec T) `{!CodecOk c} d kept sl x L :
  sl ∈ slots → slot_data L sl = stored c kept x → (lg_wf L → wf c x ∧ fits (item c x)) →
  (kept = false → x = d) → does (load c d (key_of sl)) L (Ok x) L.
Proof.
  intros Hsl Hd Hok Hk s (Hwf & v & Hv & Hdata & Hcm). unfold load.
  destruct (ss_action_data_law s v (key_of sl) Hv) as (s' & Hr & Hv').
  rewrite Hdata, Hd in Hr by done. unfold mbind, stM_bind. rewrite Hr.
  assert (st s' L) as Hst by (split; [done|]; exists v; auto).
  unfold stored. destruct kept; simpl; [|by rewrite Hk].
  destruct (Hok Hwf) as [Hw Hf]. by rewrite codec_decodes.
Qed.

Lemma does_save {T} (c : Codec T) `{!CodecOk c} kept sl x L L' :
  sl ∈ slots → (lg_wf L → lg_wf L' ∧ fits (item c x)) → slot_data L' sl = stored c kept x →
  (∀ sl', sl' ≠ sl → slot_data L' sl' = slot_data L sl') →
  (∀ a, lg_coin L' a = lg_coin L a) → lg_metadata L' = lg_metadata L →
  does (save c kept (key_of sl) x) L (Ok tt) L'.
Proof.
  intros Hsl Hok Hd Hoth Hcoin Hmeta s (Hwf & v & Hv & Hdata & Hc & Hm). destruct (Hok Hwf) as [Hwf' Hf].
  assert (∀ s' o, ss_shows s' (with_data v (key_of sl) o) → stored c kept x = o → st s' L') as Hst.
  { intros s' o Hs' Ho. split; [done|]. exists (with_data v (key_of sl) o). split_and!; [done| | |].
    - intros sl' Hsl'. simpl. destruct (decide (key_of sl' = key_of sl)) as [Heq|Hne].
      + apply key_of_inj in Heq; [|done..]. subst sl'. by rewrite Hd.
      + rewrite Hdata by done. rewrite Hoth; [done|]. by intros ->.
    - intros a. simpl. by rewrite Hcoin.
    - simpl. by rewrite Hmeta. }
  unfold save, stored in *. destruct kept.
  - assert (unwrap (F:=StateError.t) (drain (rlp_append c x)) = Ok (enc (item c x))) as Hdr.
    { erewrite drain_encodes; [done|apply codec_encodes|done]. }
    rewrite Hdr. unfold mbind, stM_bind, lift_st.
    destruct (ss_update_action_data_law s v (key_of sl) (enc (item c x)) Hv) as (s' & -> & Hv').
    split; [done|]. by eapply Hst.
  - destruct (ss_remove_action_data_law s v (key_of sl) Hv) as (s' & -> & Hv').
    split; [done|]. by eapply Hst.
Qed.

Lemma slot_balance a : a ∈ accounts → SBalance a ∈ slots.
Proof. intros Ha. unfold slots. rewrite !elem_of_app. left. by apply list_elem_of_fmap_2. Qed.
Lemma slot_delegation a : a ∈ accounts → SDelegation a ∈ slots.
Proof. intros Ha. unfold slots. rewrite !elem_of_app. right. left. by apply list_elem_of_fmap_2. Qed.
Lemma slot_fixed sl : sl ∈ [SHolders; SCandidates; SJail; SBanned; SValidators; SRewards] → sl ∈ slots.
Proof. intros Hsl. unfold slots. rewrite !elem_of_app. auto. Qed.

Lemma is_empty_nil {A} (l : list A) : negb (is_empty l) = false → l = [].
Proof. by destruct l. Qed.

Lemma does_account_load a L :
  a ∈ accounts → does (StakeAccount_load a) L (Ok {| sa_address := a; sa_balance := lg_balance L a |}) L.
Proof.
  intros Ha. unfold StakeAccount_load. eapply does_bind; [|apply does_ret].
  apply (does_load u64_codec 0 (negb (lg_balance L a =? 0)) (SBalance a)); [by apply slot_balance|done| |].
  - intros Hwf. split; [|apply u64_fits]. by apply (wf_balance L Hwf).
  - intros Hb. apply negb_false_iff, N.eqb_eq in Hb. done.
Qed.

Lemma amap_codec_wf (P : Address → N → Prop) m :
  amap_wf P m → (∀ k x, P k x → u64_wf x) → wf (map_codec H160_codec u64_codec) m.
Proof.
  intros [Hm Hd] HP. split; [done|]. apply Forall_forall. intros [k x] Hin.
  destruct (Hd k x Hin) as [Hk Hx]. split; [by apply play_address|]. by eapply HP.
Qed.

Lemma does_delegation_load a L :
  a ∈ accounts →
  does (Delegation_load a) L (Ok {| de_delegator := a; de_delegatees := lg_delegation L a |}) L.
Proof.
  intros Ha. unfold Delegation_load. eapply does_bind; [|apply does_ret].
  apply (does_load (map_codec H160_codec u64_codec) [] (negb (is_empty (lg_delegation L a)))
    (SDelegation a)); [by apply slot_delegation|done| |apply is_empty_nil].
  intros Hwf. pose proof (wf_delegation L Hwf a Ha) as Hm.
  split; [|by eapply amap_fits]. eapply amap_codec_wf; [done|]. by intros k x [_ ?].
Qed.

Lemma aset_codec_wf P (m : aset) : amap_wf P m → wf (set_codec H160_codec) m.
Proof.
  intros [Hm Hd]. split; [done|]. apply Forall_forall. intros k ([k' x] & -> & Hin)%list_elem_of_fmap.
  destruct (Hd k' x Hin) as [Hk _]. by apply play_address.
Qed.

Lemma does_holders_load L : does Stakeholders_load L (Ok (lg_holders L)) L.
Proof.
  apply (does_load (set_codec H160_codec) [] (negb (is_empty (lg_holders L))) SHolders);
    [apply slot_fixed; set_solver|done| |apply is_empty_nil].
  intros Hwf. pose proof (wf_holders L Hwf). split; [by eapply aset_codec_wf|by eapply aset_fits].
Qed.

Lemma does_banned_load L : does Banned_load L (Ok (lg_banned L)) L.
Proof.
  apply (does_load (set_codec H160_codec) [] (negb (is_empty (lg_banned L))) SBanned);
    [apply slot_fixed; set_solver|done| |apply is_empty_nil].
  intros Hwf. pose proof (wf_banned L Hwf). split; [by eapply aset_codec_wf|by eapply aset_fits].
Qed.

Lemma does_candidates_load L : does Candidates_load L (Ok (lg_candidates L)) L.
Proof.
  apply (does_load (iter_codec Candidate_codec) [] (negb (is_empty (lg_candidates L))) SCandidates);
    [apply slot_fixed; set_solver|done| |apply is_empty_nil].
  intros Hwf. destruct (wf_candidates L Hwf) as [Hall Hnd]. split; [|by apply candidates_fit].
  eapply Forall_impl; [exact Hall|]. by intros c [? _].
Qed.

Lemma does_validators_load L : does Validators_load L (Ok (lg_validators L)) L.
Proof.
  apply (does_load (vec_codec Validator_codec) [] (negb (is_empty (lg_validators L))) SValidators);
    [apply slot_fixed; set_solver|done| |apply is_empty_nil].
  intros Hwf. destruct (wf_validators L Hwf) as [Hall Hnd]. split; [|by apply validators_fit].
  eapply Forall_impl; [exact Hall|]. by intros c [? _].
Qed.

(** The prisoners of the jail, collected by address, are the jail. *)
Lemma by_address_jail (m : amap Prisoner) : amap_wf prisoner_wf m → by_address m.*2 = m.
Proof.
  intros [Hm Hd]. unfold by_address. rewrite <-list_fmap_compose.
  rewrite (list_fmap_ext _ id); [rewrite list_fmap_id; by apply bt_collect_sorted|].
  intros i [k p] Hin. apply list_elem_of_lookup_2, Hd in Hin as (_ & _ & Hp). simpl. by rewrite Hp.
Qed.

Lemma jail_codec_wf (m : amap Prisoner) : amap_wf prisoner_wf m → wf (iter_codec Prisoner_codec) m.*2.
Proof.
  intros [_ Hd]. apply Forall_forall. intros p ([k p'] & -> & Hin)%list_elem_of_fmap.
  by apply Hd in Hin as (_ & ? & _).
Qed.

Lemma does_jail_load L : does Jail_load L (Ok (lg_jail L)) L.
Proof.
  intros s Hs. pose proof (wf_jail L (proj1 Hs)) as Hm. revert s Hs. unfold Jail_load.
  eapply does_bind with (x := (lg_jail L).*2); [|rewrite by_address_jail by done; apply does_ret].
  apply (does_load (iter_codec Prisoner_codec) [] (negb (is_empty (lg_jail L))) SJail);
    [apply slot_fixed; set_solver|done| |].
  - intros _. split; [by apply jail_codec_wf|by apply prisoners_fit].
  - intros He%is_empty_nil. by rewrite He.
Qed.

Lemma does_rewards_load L : does IntermediateRewards_load L (Ok (lg_rewards L)) L.
Proof.
  unfold IntermediateRewards_load.
  eapply does_bind with (x := (ir_previous (lg_rewards L), ir_current (lg_rewards L)));
    [|intros s Hs; by destruct (lg_rewards L)].
  apply (does_load (map_tuple_codec H160_codec u64_codec) ([], [])
    (negb (is_empty (ir_previous (lg_rewards L)) && is_empty (ir_current (lg_rewards L)))) SRewards);
    [apply slot_fixed; set_solver|done| |].
  - intros Hwf. destruct (wf_rewards L Hwf) as [Hp Hc].
    split; [split; eapply amap_codec_wf; by eauto|by eapply rewards_fit].
  - by destruct (ir_previous (lg_rewards L)), (ir_current (lg_rewards L)).
Qed.

(** Setting a part of a ledger to something well-formed. *)
Abbreviation delegation_wf := (amap_wf (λ _ x, 0 < x ∧ u64_wf x)).
Abbreviation reward_wf := (amap_wf (λ _ x, u64_wf x)).

Ltac set_wf := intros; repeat match goal with Hwf : lg_wf _ |- _ => destruct Hwf end;
  split; simpl; auto; intros; unfold put; case_decide; auto.

Lemma wf_set_balance L a n : lg_wf L → n < u64_size → lg_wf (set_balance L a n).
Proof. set_wf. Qed.
Lemma wf_set_delegation L a m : lg_wf L → delegation_wf m → lg_wf (set_delegation L a m).
Proof. set_wf. Qed.
Lemma wf_set_holders L m : lg_wf L → amap_wf (λ _ _, True) m → lg_wf (set_holders L m).
Proof. set_wf. Qed.
Lemma wf_set_banned L m : lg_wf L → amap_wf (λ _ _, True) m → lg_wf (set_banned L m).
Proof. set_wf. Qed.
Lemma wf_set_candidates L l :
  lg_wf L → Forall candidate_wf l → NoDup (ca_address <$> l) → lg_wf (set_candidates L l).
Proof. set_wf. Qed.
Lemma wf_set_jail L m : lg_wf L → amap_wf prisoner_wf m → lg_wf (set_jail L m).
Proof. set_wf. Qed.
Lemma wf_set_validators L l :
  lg_wf L → Forall validator_wf l → NoDup (va_address <$> l) → lg_wf (set_validators L l).
Proof. set_wf. Qed.
Lemma wf_set_rewards L r :
  lg_wf L → reward_wf (ir_previous r) → reward_wf (ir_current r) → lg_wf (set_rewards L r).
Proof. set_wf. Qed.
Lemma wf_set_coin L a n : lg_wf L → n < u64_size → lg_wf (set_coin L a n).
Proof. set_wf. Qed.
Lemma wf_set_meta L m : lg_wf L → lg_wf (set_meta L m).
Proof. set_wf. Qed.

(** Saving a slot changes the ledger there and nowhere else. *)
Ltac slot_saved :=
  repeat match goal with
  | |- ∀ _, _ => intro
  | sl : slot |- _ => destruct sl
  end; try done; cbn; rewrite ?put_eq, ?put_ne by congruence; try done.

Lemma does_account_save a n L :
  a ∈ accounts → n < u64_size →
  does (StakeAccount_save {| sa_address := a; sa_balance := n |}) L (Ok tt) (set_balance L a n).
Proof.
  intros Ha Hn. apply (does_save u64_codec (negb (n =? 0)) (SBalance a)); [by apply slot_balance| |..];
    [|by slot_saved..].
  intros Hwf. split; [by apply wf_set_balance|apply u64_fits].
Qed.

Lemma does_delegation_save a m L :
  a ∈ accounts → delegation_wf m →
  does (Delegation_save {| de_delegator := a; de_delegatees := m |}) L (Ok tt) (set_delegation L a m).
Proof.
  intros Ha Hm. apply (does_save (map_codec H160_codec u64_codec) (negb (is_empty m)) (SDelegation a));
    [by apply slot_delegation| |..]; [|by slot_saved..].
  intros Hwf. split; [by apply wf_set_delegation|by eapply amap_fits].
Qed.

Lemma does_holders_save m L :
  amap_wf (λ _ _, True) m → does (Stakeholders_save m) L (Ok tt) (set_holders L m).
Proof.
  intros Hm. apply (does_save (set_codec H160_codec) (negb (is_empty m)) SHolders);
    [apply slot_fixed; set_solver| |..]; [|by slot_saved..].
  intros Hwf. split; [by apply wf_set_holders|by eapply aset_fits].
Qed.

Lemma does_banned_save m L :
  amap_wf (λ _ _, True) m → does (Banned_save m) L (Ok tt) (set_banned L m).
Proof.
  intros Hm. apply (does_save (set_codec H160_codec) (negb (is_empty m)) SBanned);
    [apply slot_fixed; set_solver| |..]; [|by slot_saved..].
  intros Hwf. split; [by apply wf_set_banned|by eapply aset_fits].
Qed.

Lemma does_candidates_save l L :
  Forall candidate_wf l → NoDup (ca_address <$> l) →
  does (Candidates_save l) L (Ok tt) (set_candidates L l).
Proof.
  intros Hl Hnd. apply (does_save (iter_codec Candidate_codec) (negb (is_empty l)) SCandidates);
    [apply slot_fixed; set_solver| |..]; [|by slot_saved..].
  intros Hwf. split; [by apply wf_set_candidates|by apply candidates_fit].
Qed.

Lemma does_jail_save m L :
  amap_wf prisoner_wf m → does (Jail_save m) L (Ok tt) (set_jail L m).
Proof.
  intros Hm. apply (does_save (iter_codec Prisoner_codec) (negb (is_empty m)) SJail);
    [apply slot_fixed; set_solver| |..]; [|by slot_saved..].
  intros Hwf. split; [by apply wf_set_jail|by apply prisoners_fit].
Qed.

Lemma does_validators_save l L :
  Forall validator_wf l → NoDup (va_address <$> l) →
  does (Validators_save l) L (Ok tt) (set_validators L l).
Proof.
  intros Hl Hnd. apply (does_save (vec_codec Validator_codec) (negb (is_empty l)) SValidators);
    [apply slot_fixed; set_solver| |..]; [|by slot_saved..].
  intros Hwf. split; [by apply wf_set_validators|by apply validators_fit].
Qed.

Lemma does_rewards_save r L :
  reward_wf (ir_previous r) → reward_wf (ir_current r) →
  does (IntermediateRewards_save r) L (Ok tt) (set_rewards L r).
Proof.
  intros Hp Hc. apply (does_save (map_tuple_codec H160_codec u64_codec)
    (negb (is_empty (ir_previous r) && is_empty (ir_current r))) SRewards);
    [apply slot_fixed; set_solver| |..]; [|by slot_saved..].
  intros Hwf. split; [by apply wf_set_rewards|by eapply rewards_fit].
Qed.

(** ** Coins and metadata *)

Lemma does_add_coin a n L :
  lg_coin L a + n < u64_size →
  does (ss_add_balance a n) L (Ok tt) (set_coin L a (lg_coin L a + n)).
Proof.
  intros Hn s (Hwf & v & Hv & Hdata & Hc & Hm).
  destruct (ss_add_balance_law s v a n Hv) as (s' & -> & Hv'); [by rewrite Hc|].
  split; [done|]. split.
  - by apply wf_set_coin.
  - eexists. split; [exact Hv'|]. split_and!; [done| |done].
    intros b. simpl. unfold put. rewrite !Hc. by case_decide; subst.
Qed.

Lemma does_sub_coin a n L :
  n ≤ lg_coin L a → does (ss_sub_balance a n) L (Ok tt) (set_coin L a (lg_coin L a - n)).
Proof.
  intros Hn s (Hwf & v & Hv & Hdata & Hc & Hm). pose proof (wf_coin L Hwf a) as Ha. unfold u64_wf in Ha.
  destruct (ss_sub_balance_law s v a n Hv) as (s' & -> & Hv'); [by rewrite Hc..|].
  split; [done|]. split.
  - apply wf_set_coin; [done|lia].
  - eexists. split; [exact Hv'|]. split_and!; [done| |done].
    intros b. simpl. unfold put. rewrite !Hc. by case_decide; subst.
Qed.

Lemma does_sub_coin_fails a n L :
  lg_coin L a < n →
  does (ss_sub_balance a n) L
    (Err (StateError.Runtime (RuntimeError.InsufficientBalance a (lg_coin L a) n))) L.
Proof.
  intros Hn s (Hwf & v & Hv & Hdata & Hc & Hm).
  destruct (ss_sub_balance_fails s v a n Hv) as (s' & -> & Hv'); [by rewrite Hc|].
  split; [by rewrite Hc|]. split; [done|]. eauto.
Qed.

Lemma does_metadata L : does ss_metadata L (Ok (lg_metadata L)) L.
Proof.
  intros s (Hwf & v & Hv & Hdata & Hc & Hm). destruct (ss_metadata_law s v Hv) as (s' & -> & Hv').
  split; [by rewrite Hm|]. split; [done|]. eauto.
Qed.

Lemma does_update_params m n params L :
  lg_metadata L = Some m → md_seq m = n →
  does (ss_update_params n params) L (Ok tt)
    (set_meta L (Metadata_increase_seq (set_params_metadata params m))).
Proof.
  intros HL Hn s (Hwf & v & Hv & Hdata & Hc & Hm).
  destruct (ss_update_params_law s v m n params Hv) as (s' & -> & Hv'); [by rewrite Hm|done|].
  split; [done|]. split; [by destruct Hwf|]. eauto 10.
Qed.

Lemma does_update_params_fails m n params L :
  lg_metadata L = Some m → md_seq m ≠ n →
  does (ss_update_params n params) L (Err (StateError.Runtime (RuntimeError.InvalidSeq (md_seq m) n))) L.
Proof.
  intros HL Hn s (Hwf & v & Hv & Hdata & Hc & Hm).
  destruct (ss_update_params_fails s v m n params Hv) as (s' & -> & Hv'); [by rewrite Hm|done|].
  split; [done|]. split; [done|]. eauto 10.
Qed.

Lemma does_increase_term_id m m' n L :
  lg_metadata L = Some m → increase_term_id_metadata n m = Some m' →
  does (ss_increase_term_id n) L (Ok tt) (set_meta L m').
Proof.
  intros HL Hn s (Hwf & v & Hv & Hdata & Hc & Hm).
  destruct (ss_increase_term_id_law s v m m' n Hv) as (s' & -> & Hv'); [by rewrite Hm|done|].
  split; [done|]. split; [by destruct Hwf|]. eauto 10.
Qed.

(** ** Loops *)

(** An invariant over what the loop has been through. *)
Lemma does_for_each_inv {A} (f : A → stM S StateError.t ()) (I : list A → ledger → Prop) l L :
  I [] L →
  (∀ pre x post L, l = pre ++ x :: post → I pre L → ∃ L', does (f x) L (Ok tt) L' ∧ I (pre ++ [x]) L') →
  ∃ L', does (for_each f l) L (Ok tt) L' ∧ I l L'.
Proof.
  intros Hinit Hstep.
  enough (∀ rest pre L, pre ++ rest = l → I pre L → ∃ L', does (for_each f rest) L (Ok tt) L' ∧ I l L')
    as Haux by by apply (Haux l []).
  clear Hinit L. induction rest as [|x rest IH]; intros pre L Hl Hpre.
  - exists L. rewrite app_nil_r in Hl. subst. split; [apply does_ret|done].
  - destruct (Hstep pre x rest L (eq_sym Hl) Hpre) as (L1 & Hx & Hi1).
    destruct (IH (pre ++ [x]) L1) as (L2 & Hdo & Hi2); [by rewrite <-app_assoc|done|].
    exists L2. split; [by eapply does_bind|done].
Qed.

Lemma does_for_fold {A B} (f : B → A → stM S StateError.t B) (I : list A → B → Prop) l b L :
  I [] b →
  (∀ pre x post b, l = pre ++ x :: post → I pre b → ∃ b', does (f b x) L (Ok b') L ∧ I (pre ++ [x]) b') →
  ∃ b', does (for_fold f b l) L (Ok b') L ∧ I l b'.
Proof.
  intros Hinit Hstep.
  enough (∀ rest pre b, pre ++ rest = l → I pre b → ∃ b', does (for_fold f b rest) L (Ok b') L ∧ I l b')
    as Haux by by apply (Haux l []).
  clear Hinit b. induction rest as [|x rest IH]; intros pre b Hl Hpre.
  - exists b. rewrite app_nil_r in Hl. subst. split; [apply does_ret|done].
  - destruct (Hstep pre x rest b (eq_sym Hl) Hpre) as (b1 & Hx & Hi1).
    destruct (IH (pre ++ [x]) b1) as (b2 & Hdo & Hi2); [by rewrite <-app_assoc|done|].
    exists b2. split; [by eapply does_bind|done].
Qed.
End Ledger.
