(* ===== verification/StakeSpec.v ===== *)
(** The staking contract keeps its books.  The stakes and the coins of the accounts in play
    ([total_stake], [total_coin]) and the invariant [inv] that ties stakeholders, candidates,
    prisoners, banned accounts, delegations and validators together are kept by every handler,
    and no handler unwinds. *)
From stdpp Require Import base gmap list numbers strings sorting relations.
From Stdlib Require Import NArith Lia.
From S2P Require Import Prelude Types Crypto Rlp RlpImpls Params StateCache StateItems ShardState.
From S2P Require Import TrieNode BTree StakeData StakeAction Stake StakeLedger.

Local Open Scope N_scope.

(** * Sums *)

Definition amap_sum (m : amap N) : N := sum_with snd m.
Definition deposits (l : list Candidate) : N := sum_with ca_deposit l.
Definition jailed (m : amap Prisoner) : N := sum_with (λ x, pr_deposit x.2) m.

Lemma sum_with_put {A} (f : Address → A) (g : Address → A → N) l a x :
  NoDup l → a ∈ l →
  sum_with (λ b, g b (put f a x b)) l + g a (f a) = sum_with (λ b, g b (f b)) l + g a x.
Proof.
  induction l as [|b l IH]; intros Hnd Ha; [by apply elem_of_nil in Ha|].
  apply list.NoDup_cons in Hnd as [Hb Hnd]. rewrite !sum_with_cons.
  destruct (decide (b = a)) as [->|Hne].
  - rewrite put_eq. rewrite (sum_with_ext _ (λ b, g b (f b)) l); [lia|].
    intros c Hc. rewrite put_ne; [done|]. by intros ->.
  - rewrite put_ne by done. apply elem_of_cons in Ha as [->|Ha]; [done|]. specialize (IH Hnd Ha). lia.
Qed.

Lemma bt_sum_insert {V} (g : V → N) (m : amap V) k x :
  bt_ok m →
  sum_with (λ y, g y.2) (bt_insert m k x) + from_option g 0 (bt_get m k) = sum_with (λ y, g y.2) m + g x.
Proof.
  induction m as [|[k' x'] m IH]; intros Hm; [cbn; lia|]. cbn [bt_insert bt_get].
  destruct (cmp k k') eqn:E; rewrite !sum_with_cons.
  - cbn. lia.
  - assert (bt_get m k = None) as ->; [|cbn; lia]. apply bt_ok_cons in Hm as [Hm Hall].
    apply bt_get_none; [done|]. intros v Hin. apply Hall in Hin. simpl in Hin.
    pose proof (cmp_trans k k' k E Hin) as Hk. by rewrite cmp_refl in Hk.
  - apply bt_ok_cons in Hm as [Hm _]. specialize (IH Hm). cbn in *. lia.
Qed.

Lemma bt_sum_remove {V} (g : V → N) (m : amap V) k :
  sum_with (λ y, g y.2) (bt_remove m k) + from_option g 0 (bt_get m k) = sum_with (λ y, g y.2) m.
Proof.
  induction m as [|[k' x'] m IH]; [done|]. cbn [bt_remove bt_get].
  destruct (cmp k k'); rewrite !sum_with_cons; cbn in *; lia.
Qed.

Lemma amap_sum_insert m k x :
  bt_ok m → amap_sum (bt_insert m k x) + default 0 (bt_get m k) = amap_sum m + x.
Proof. apply (bt_sum_insert id). Qed.
Lemma amap_sum_remove m k : amap_sum (bt_remove m k) + default 0 (bt_get m k) = amap_sum m.
Proof. apply (bt_sum_remove id). Qed.
Lemma amap_sum_get m k : default 0 (bt_get m k) ≤ amap_sum m.
Proof. pose proof (amap_sum_remove m k). lia. Qed.

Lemma u64_add_small a b : a + b < u64_size → u64_add a b = a + b.
Proof. intros. unfold u64_add. by apply N.mod_small. Qed.

(** The sum of the code wraps; a sum that fits does not. *)
Lemma foldl_u64_add l x : x + sum_with id l < u64_size → foldl u64_add x l = x + sum_with id l.
Proof.
  revert x. induction l as [|y l IH]; intros x Hx; [unfold sum_with; simpl; lia|].
  rewrite sum_with_cons in *. unfold id at 1 in Hx. cbn [foldl]. rewrite u64_add_small by lia.
  rewrite IH by lia. unfold id at 2. lia.
Qed.

Lemma sum_with_fmap {A B} (f : B → N) (g : A → B) l : sum_with f (g <$> l) = sum_with (λ x, f (g x)) l.
Proof. induction l as [|x l IH]; [done|]. by rewrite fmap_cons, !sum_with_cons, IH. Qed.

Lemma de_sum_exact a m : amap_sum m < u64_size → de_sum {| de_delegator := a; de_delegatees := m |} = amap_sum m.
Proof.
  intros Hm. unfold de_sum, amap_sum in *. simpl. rewrite foldl_u64_add; rewrite sum_with_fmap; [done|done].
Qed.

(** * Keys *)

Lemma keys_get {V} (m : amap V) a : bt_ok m → a ∈ m.*1 ↔ is_Some (bt_get m a).
Proof.
  intros Hm. rewrite list_elem_of_fmap. split.
  - intros ([k x] & -> & Hin). apply bt_get_elem in Hin; [|done]. by eexists.
  - intros [x Hx]. apply bt_get_elem in Hx; [|done]. by exists (a, x).
Qed.

Lemma cmp_case (a b : Address) : match cmp a b with Eq => a = b | _ => a ≠ b end.
Proof.
  destruct (cmp a b) eqn:E; [by apply cmp_eq|by apply cmp_lt_ne|].
  apply cmp_gt, cmp_lt_ne in E. by apply not_eq_sym.
Qed.

Lemma keys_insert {V} (m : amap V) a x b : bt_ok m → b ∈ (bt_insert m a x).*1 ↔ b = a ∨ b ∈ m.*1.
Proof.
  intros Hm. rewrite !keys_get by (try apply bt_insert_ok; done). rewrite bt_get_insert by done.
  pose proof (cmp_case b a). destruct (cmp b a); naive_solver.
Qed.

Lemma keys_remove {V} (m : amap V) a b : bt_ok m → b ∈ (bt_remove m a).*1 ↔ b ≠ a ∧ b ∈ m.*1.
Proof.
  intros Hm. rewrite !keys_get by (try apply bt_remove_ok; done). rewrite bt_get_remove by done.
  pose proof (cmp_case b a). destruct (cmp b a); [|naive_solver..].
  split; [by intros [? ?]|naive_solver].
Qed.

(** * The invariant *)

Section Spec.
Context `{CryptoLaws} {S : Type} `{StakeState S} `{!StakeStateLaws S} `{Accounts} `{Hplay : !InPlay}.

Abbreviation stakeM := (stM S StateError.t).
Abbreviation delegation_wf := (amap_wf (λ _ x, 0 < x ∧ u64_wf x)).
Abbreviation reward_wf := (amap_wf (λ _ x, u64_wf x)).

Definition stake_of (L : ledger) (a : Address) : N := lg_balance L a + amap_sum (lg_delegation L a).
Definition total_stake (L : ledger) : N := sum_with (stake_of L) accounts.
Definition total_coin (L : ledger) : N :=
  sum_with (lg_coin L) accounts + deposits (lg_candidates L) + jailed (lg_jail L).

Record core (L : ledger) : Prop := {
  inv_wf : lg_wf L;
  inv_stake : total_stake L < u64_size;
  inv_coin : total_coin L < u64_size;
  inv_holders a : a ∈ accounts → a ∈ (lg_holders L).*1 ↔ 0 < stake_of L a;
  inv_candidates a : a ∈ ca_address <$> lg_candidates L →
    bt_get (lg_jail L) a = None ∧ bt_get (lg_banned L) a = None;
  inv_jail a p : bt_get (lg_jail L) a = Some p → bt_get (lg_banned L) a = None;
  inv_delegations a b q : a ∈ accounts → (b, q) ∈ lg_delegation L a →
    b ∈ ca_address <$> lg_candidates L ∨ b ∈ (lg_jail L).*1;
}.

(** Nobody is a candidate or a prisoner past the term it was to end in. *)
Definition punctual (L : ledger) : Prop :=
  ∀ md, lg_metadata L = Some md →
    (∀ c, c ∈ lg_candidates L → md_current_term_id md ≤ ca_nomination_ends_at c) ∧
    (∀ a p, (a, p) ∈ lg_jail L → md_current_term_id md ≤ pr_released_at p).

Record inv (L : ledger) : Prop := {
  inv_core :> core L;
  inv_punctual : punctual L;
  inv_validators v : v ∈ lg_validators L → va_pubkey v ∈ ca_pubkey <$> lg_candidates L;
}.

(** The books agree. *)
Definition keeps (L L' : ledger) : Prop :=
  inv L' ∧ total_stake L' = total_stake L ∧ total_coin L' = total_coin L.

Lemma accounts_nodup : NoDup accounts.
Proof.
  destruct Hplay as [Hk _ _]. unfold slots in Hk. rewrite fmap_app in Hk.
  apply NoDup_app in Hk as [Hk _]. apply NoDup_fmap_1 in Hk. by apply NoDup_fmap_1 in Hk.
Qed.

Lemma stake_le L a : a ∈ accounts → stake_of L a ≤ total_stake L.
Proof. apply sum_with_elem. Qed.

Lemma total_stake_balance L a n :
  a ∈ accounts → total_stake (set_balance L a n) + lg_balance L a = total_stake L + n.
Proof.
  intros Ha.
  pose proof (sum_with_put (lg_balance L) (λ b x, x + amap_sum (lg_delegation L b)) accounts a n
    accounts_nodup Ha) as Hs.
  cbn beta in Hs. change (sum_with _ accounts) with (total_stake (set_balance L a n)) in Hs at 1.
  change (sum_with _ accounts) with (total_stake L) in Hs. lia.
Qed.

Lemma total_stake_delegation L a m :
  a ∈ accounts →
  total_stake (set_delegation L a m) + amap_sum (lg_delegation L a) = total_stake L + amap_sum m.
Proof.
  intros Ha.
  pose proof (sum_with_put (lg_delegation L) (λ b x, lg_balance L b + amap_sum x) accounts a m
    accounts_nodup Ha) as Hs.
  cbn beta in Hs. change (sum_with _ accounts) with (total_stake (set_delegation L a m)) in Hs at 1.
  change (sum_with _ accounts) with (total_stake L) in Hs. lia.
Qed.

Lemma amap_wf_insert {V} P (m : amap V) a x :
  amap_wf P m → a ∈ accounts → P a x → amap_wf P (bt_insert m a x).
Proof.
  intros [Hm Hd] Ha Hx. split; [by apply bt_insert_ok|].
  intros k y [[= -> ->]|Hin]%bt_insert_elem; auto.
Qed.
Lemma amap_wf_remove {V} P (m : amap V) a : amap_wf P m → amap_wf P (bt_remove m a).
Proof. intros [Hm Hd]. split; [by apply bt_remove_ok|]. intros k y Hin%bt_remove_elem. auto. Qed.

(** A handler that moves stakes and leaves the rest alone keeps the books when the total and
    the holders are right. *)
Lemma keeps_stakes L L' :
  inv L → lg_wf L' → lg_candidates L' = lg_candidates L → lg_jail L' = lg_jail L →
  lg_banned L' = lg_banned L → lg_validators L' = lg_validators L →
  lg_coin L' = lg_coin L → lg_metadata L' = lg_metadata L → total_stake L' = total_stake L →
  (∀ a, a ∈ accounts → a ∈ (lg_holders L').*1 ↔ 0 < stake_of L' a) →
  (∀ a b q, a ∈ accounts → (b, q) ∈ lg_delegation L' a →
     (∃ q', (b, q') ∈ lg_delegation L a) ∨ b ∈ ca_address <$> lg_candidates L) →
  keeps L L'.
Proof.
  intros [[Hwf Hs Hc Hh Hca Hj Hd] Hpu Hv] Hwf' Ec Ej Eb Ev Eo Em Et Hh' Hd'.
  assert (total_coin L' = total_coin L) as Et' by (unfold total_coin; by rewrite Ec, Ej, Eo).
  split; [|done].
  split; [split| |]; unfold punctual; rewrite ?Em, ?Ec, ?Ej, ?Eb, ?Ev, ?Et, ?Et'; try done.
  intros a b q Ha Hin. destruct (Hd' a b q Ha Hin) as [[q' Hin']|]; eauto.
Qed.

(** ** Transfers *)

(** The stakeholders after [from] gave [q] to [to]. *)
Definition transfer_holders (L : ledger) (from to : Address) (q : N) : aset :=
  let m := if (lg_balance L from - q =? 0) && (amap_sum (lg_delegation L from) =? 0)
           then bt_remove (lg_holders L) from else lg_holders L in
  if 0 <? lg_balance L to + q then bt_insert m to tt else m.

Definition transferred (L : ledger) (from to : Address) (q : N) : ledger :=
  set_balance (set_balance (set_holders L (transfer_holders L from to q)) from (lg_balance L from - q))
    to (lg_balance L to + q).

Lemma transfer_holders_wf L from to q :
  lg_wf L → to ∈ accounts → amap_wf (λ _ _, True) (transfer_holders L from to q).
Proof.
  intros Hwf Hto. pose proof (wf_holders L Hwf). unfold transfer_holders.
  repeat case_match; auto using amap_wf_insert, amap_wf_remove.
Qed.

Lemma balances_le L a b :
  a ∈ accounts → b ∈ accounts → a ≠ b → stake_of L a + stake_of L b ≤ total_stake L.
Proof.
  intros Ha Hb Hab. pose proof (sum_with_put (stake_of L) (λ _ x, x) accounts a 0 accounts_nodup Ha) as Hs.
  pose proof (sum_with_elem (λ c, put (stake_of L) a 0 c) b accounts Hb) as Hle.
  cbn beta in *. rewrite put_ne in Hle by done. change (total_stake L) with (sum_with (λ b, stake_of L b) accounts). lia.
Qed.

Lemma does_subtract_balance a n q L :
  q ≤ n → does (subtract_balance {| sa_address := a; sa_balance := n |} q) L
            (Ok {| sa_address := a; sa_balance := n - q |}) L.
Proof.
  intros Hq. unfold subtract_balance. cbn [sa_balance sa_address].
  destruct (N.ltb_spec n q); [lia|apply does_ret].
Qed.

Lemma does_subtract_balance_fails a n q L :
  n < q → does (subtract_balance {| sa_address := a; sa_balance := n |} q) L
            (Err (StateError.Runtime (RuntimeError.InsufficientBalance a n q))) L.
Proof.
  intros Hq. unfold subtract_balance. cbn [sa_balance sa_address].
  destruct (N.ltb_spec n q); [apply does_throw|lia].
Qed.

Lemma does_transfer L from to q :
  inv L → from ∈ accounts → to ∈ accounts → q ≤ lg_balance L from → lg_balance L to + q < u64_size →
  does (transfer_ccs from to q) L (Ok tt) (transferred L from to q).
Proof.
  intros HL Hfrom Hto Hq Hfit. pose proof (inv_wf L HL) as Hwf. pose proof (wf_balance L Hwf from Hfrom) as Hb.
  unfold u64_wf in Hb. pose proof (stake_le L from Hfrom) as Hle. pose proof (inv_stake L HL).
  unfold stake_of in Hle.
  unfold transfer_ccs. eapply does_bind; [apply does_holders_load|].
  eapply does_bind; [by apply does_account_load|]. eapply does_bind; [by apply does_account_load|].
  eapply does_bind; [by apply does_delegation_load|].
  eapply does_bind; [by apply does_subtract_balance|]. cbv zeta. unfold sa_add_balance. cbn [sa_balance sa_address].
  rewrite u64_add_small by done. unfold update_by_decreased_balance. cbn [sa_address sa_balance de_delegator].
  rewrite bool_decide_eq_true_2 by done.
  rewrite de_sum_exact by lia.
  eapply does_bind; [eapply does_bind; [apply does_lift|apply does_ret]|].
  eapply does_bind; [by apply (does_holders_save (transfer_holders L from to q)), transfer_holders_wf|].
  eapply does_bind; [apply does_account_save; [done|lia]|]. by apply does_account_save.
Qed.

Lemma transfer_holders_keys L from to q :
  inv L → from ∈ accounts → to ∈ accounts → from ≠ to → q ≤ lg_balance L from →
  ∀ a, a ∈ accounts → a ∈ (transfer_holders L from to q).*1 ↔ 0 < stake_of (transferred L from to q) a.
Proof.
  intros HL Hfrom Hto Hne Hq a Ha. destruct (wf_holders L (inv_wf L HL)) as [Hm _].
  pose proof (inv_holders L HL a Ha) as Hh. unfold transfer_holders, stake_of in *. simpl. unfold put.
  set (m := if _ && _ then bt_remove (lg_holders L) from else lg_holders L).
  assert (bt_ok m) as Hm' by (unfold m; case_match; [by apply bt_remove_ok|done]).
  assert (a ∈ m.*1 ↔ a ∈ (lg_holders L).*1 ∧
          ¬ (a = from ∧ lg_balance L from - q = 0 ∧ amap_sum (lg_delegation L from) = 0)) as Hk.
  { unfold m. destruct (N.eqb_spec (lg_balance L from - q) 0), (N.eqb_spec (amap_sum (lg_delegation L from)) 0);
      simpl; rewrite ?keys_remove by done; naive_solver. }
  assert (a ∈ (if 0 <? lg_balance L to + q then bt_insert m to tt else m).*1 ↔
          a ∈ m.*1 ∨ (a = to ∧ 0 < lg_balance L to + q)) as ->.
  { destruct (N.ltb_spec 0 (lg_balance L to + q)); [rewrite keys_insert by done|]; intuition lia. }
  rewrite Hk, Hh.
  destruct (decide (a = to)) as [Hto'|Hne1], (decide (a = from)) as [Hfrom'|Hne2]; try subst a.
  - congruence.
  - destruct (decide (0 < lg_balance L to + q)); [|assert (to ≠ from) by congruence]; intuition lia.
  - destruct (decide (lg_balance L from - q + amap_sum (lg_delegation L from) = 0)); intuition lia.
  - intuition lia.
Qed.

Lemma transfer_keeps L from to q :
  inv L → from ∈ accounts → to ∈ accounts → from ≠ to → q ≤ lg_balance L from →
  keeps L (transferred L from to q).
Proof.
  intros HL Hfrom Hto Hne Hq. pose proof (inv_wf L HL) as Hwf. pose proof (inv_stake L HL).
  pose proof (balances_le L from to Hfrom Hto Hne) as Hle. unfold stake_of in Hle.
  pose proof (wf_balance L Hwf from Hfrom) as Hb. unfold u64_wf in Hb.
  apply keeps_stakes; try done.
  - apply wf_set_balance; [|lia]. apply wf_set_balance; [|lia].
    apply wf_set_holders; [done|by apply transfer_holders_wf].
  - unfold transferred.
    pose proof (total_stake_balance (set_balance (set_holders L (transfer_holders L from to q)) from
      (lg_balance L from - q)) to (lg_balance L to + q) Hto) as Ht1.
    pose proof (total_stake_balance (set_holders L (transfer_holders L from to q)) from
      (lg_balance L from - q) Hfrom) as Ht2.
    simpl in Ht1, Ht2. rewrite put_ne in Ht1 by done.
    change (total_stake (set_holders L _)) with (total_stake L) in Ht2. lia.
  - intros a Ha. by apply transfer_holders_keys.
  - intros a b q' Ha Hin. eauto.
Qed.

Lemma transfer_fits L from to q :
  inv L → from ∈ accounts → to ∈ accounts → from ≠ to → q ≤ lg_balance L from →
  lg_balance L to + q < u64_size.
Proof.
  intros HL Hfrom Hto Hne Hq. pose proof (inv_stake L HL).
  pose proof (balances_le L from to Hfrom Hto Hne) as Hle. unfold stake_of in Hle. lia.
Qed.

Lemma does_transfer_fails L from to q :
  from ∈ accounts → to ∈ accounts → lg_balance L from < q →
  does (transfer_ccs from to q) L
    (Err (StateError.Runtime (RuntimeError.InsufficientBalance from (lg_balance L from) q))) L.
Proof.
  intros Hfrom Hto Hq. unfold transfer_ccs. eapply does_bind; [apply does_holders_load|].
  eapply does_bind; [by apply does_account_load|]. eapply does_bind; [by apply does_account_load|].
  eapply does_bind; [by apply does_delegation_load|].
  eapply does_bind_err. by apply does_subtract_balance_fails.
Qed.

(** ** Delegating and revoking *)

(** The balance and the delegations of one account, with its stake as before. *)
Definition set_account (L : ledger) (a : Address) (m : amap N) (n : N) : ledger :=
  set_balance (set_delegation L a m) a n.

Lemma set_account_keeps L a m n :
  inv L → a ∈ accounts → delegation_wf m → n + amap_sum m = stake_of L a →
  (∀ b q, (b, q) ∈ m → (∃ q', (b, q') ∈ lg_delegation L a) ∨ b ∈ ca_address <$> lg_candidates L) →
  keeps L (set_account L a m n).
Proof.
  intros HL Ha Hm Hn Hsub. pose proof (inv_stake L HL). pose proof (stake_le L a Ha).
  assert (∀ b, stake_of (set_account L a m n) b = stake_of L b) as Hst.
  { intros b. unfold stake_of in *. simpl. unfold put. case_decide; subst; [lia|done]. }
  apply keeps_stakes; try done.
  - apply wf_set_balance; [|lia]. apply wf_set_delegation; [apply (inv_wf L HL)|done].
  - apply sum_with_ext. auto.
  - intros b Hb. rewrite Hst. by apply (inv_holders L HL).
  - intros b c q Hb. simpl. unfold put. case_decide; subst; eauto.
Qed.

Lemma does_set_account a m n L :
  a ∈ accounts → delegation_wf m → n < u64_size →
  does (_ ← Delegation_save {| de_delegator := a; de_delegatees := m |};
        StakeAccount_save {| sa_address := a; sa_balance := n |}) L (Ok tt) (set_account L a m n).
Proof.
  intros Ha Hm Hn. eapply does_bind; [by apply does_delegation_save|by apply does_account_save].
Qed.

Lemma get_candidate_some l a : is_Some (get_candidate l a) ↔ a ∈ ca_address <$> l.
Proof.
  unfold get_candidate. rewrite head_is_Some. split.
  - destruct (filter _ l) as [|c l'] eqn:E; [done|]. intros _.
    assert (c ∈ filter (λ c, ca_address c = a) l) as [<- Hc]%list_elem_of_filter by (rewrite E; left).
    by apply list_elem_of_fmap_2.
  - intros (c & -> & Hc)%list_elem_of_fmap E.
    assert (c ∈ filter (λ c', ca_address c' = ca_address c) l) as Hin by by apply list_elem_of_filter.
    rewrite E in Hin. by apply elem_of_nil in Hin.
Qed.

Lemma does_delegate_nobody L a b q :
  b ∉ ca_address <$> lg_candidates L →
  does (delegate_ccs a b q) L
    (Err (StateError.Runtime (stake_failure "Can delegate to who is a candidate"))) L.
Proof.
  intros Hb. unfold delegate_ccs. eapply does_bind; [apply does_candidates_load|].
  destruct (get_candidate _ b) eqn:E; [|apply does_throw].
  destruct Hb. apply get_candidate_some. by rewrite E.
Qed.

(** The checks of [delegate_ccs] pass for a candidate. *)
Lemma does_delegate_checked {L L'} a b q r :
  inv L → a ∈ accounts → b ∈ ca_address <$> lg_candidates L →
  does (delegator ← subtract_balance {| sa_address := a; sa_balance := lg_balance L a |} q;
        let delegation :=
          de_add_quantity {| de_delegator := a; de_delegatees := lg_delegation L a |} b q in
        _ ← Delegation_save delegation; StakeAccount_save delegator) L r L' →
  does (delegate_ccs a b q) L r L'.
Proof.
  intros HL Ha Hb Hrest. destruct (inv_candidates L HL b Hb) as [Hj Hn].
  unfold delegate_ccs. eapply does_bind; [apply does_candidates_load|].
  apply get_candidate_some in Hb as [c ->].
  eapply does_bind; [apply does_banned_load|]. eapply does_bind; [apply does_jail_load|].
  unfold is_banned, get_prisoner. rewrite Hj, Hn.
  eapply does_bind; [apply does_lift|]. eapply does_bind; [apply does_lift|].
  eapply does_bind; [by apply does_account_load|]. eapply does_bind; [by apply does_delegation_load|].
  done.
Qed.

Definition delegated (m : amap N) (b : Address) (q : N) : amap N :=
  if q =? 0 then m else bt_insert m b (default 0 (bt_get m b) + q).

Lemma delegated_wf m b q :
  delegation_wf m → b ∈ accounts → amap_sum m + q < u64_size → delegation_wf (delegated m b q).
Proof.
  intros Hm Hb Hs. unfold delegated. destruct (N.eqb_spec q 0); [done|].
  pose proof (amap_sum_get m b). apply amap_wf_insert; [done..|]. unfold u64_wf. lia.
Qed.

Lemma delegated_sum m b q : bt_ok m → amap_sum (delegated m b q) = amap_sum m + q.
Proof.
  intros Hm. unfold delegated. destruct (N.eqb_spec q 0); [lia|].
  pose proof (amap_sum_insert m b (default 0 (bt_get m b) + q) Hm). lia.
Qed.

Lemma delegate_ok L a b q :
  inv L → a ∈ accounts → b ∈ ca_address <$> lg_candidates L → q ≤ lg_balance L a →
  let L' := set_account L a (delegated (lg_delegation L a) b q) (lg_balance L a - q) in
  does (delegate_ccs a b q) L (Ok tt) L' ∧ keeps L L'.
Proof.
  intros HL Ha Hb Hq L'. pose proof (inv_wf L HL) as Hwf. pose proof (wf_delegation L Hwf a Ha) as Hm.
  pose proof (stake_le L a Ha) as Hle. pose proof (inv_stake L HL). unfold stake_of in Hle.
  assert (b ∈ accounts) as Hb'.
  { destruct (wf_candidates L Hwf) as [Hall _]. rewrite Forall_forall in Hall.
    apply list_elem_of_fmap in Hb as (c & -> & Hc). by apply Hall. }
  pose proof (delegated_wf _ b q Hm Hb' ltac:(lia)) as Hwf'.
  split.
  - apply does_delegate_checked; [done..|]. eapply does_bind; [by apply does_subtract_balance|]. cbv zeta.
    replace (de_add_quantity _ b q) with
      {| de_delegator := a; de_delegatees := delegated (lg_delegation L a) b q |};
      [apply does_set_account; [done..|lia]|].
    unfold de_add_quantity, delegated, entry_add. cbn [de_delegatees de_delegator]. case_match; [done|].
    pose proof (amap_sum_get (lg_delegation L a) b). by rewrite u64_add_small by lia.
  - apply set_account_keeps; [done..| |].
    + rewrite delegated_sum by apply Hm. unfold stake_of. lia.
    + intros c x. unfold delegated. case_match; [eauto|].
      intros [[= -> ->]|Hin]%bt_insert_elem; eauto.
Qed.

Lemma delegate_fails L a b q :
  inv L → a ∈ accounts → b ∈ ca_address <$> lg_candidates L → lg_balance L a < q →
  does (delegate_ccs a b q) L
    (Err (StateError.Runtime (RuntimeError.InsufficientBalance a (lg_balance L a) q))) L.
Proof.
  intros HL Ha Hb Hq. apply does_delegate_checked; [done..|].
  eapply does_bind_err. by apply does_subtract_balance_fails.
Qed.

Definition undelegated (m : amap N) (b : Address) (q : N) : amap N :=
  if q =? 0 then m
  else if q <? default 0 (bt_get m b) then bt_insert m b (default 0 (bt_get m b) - q) else bt_remove m b.

Lemma does_subtract_quantity L a m b q :
  q ≤ default 0 (bt_get m b) →
  does (de_subtract_quantity {| de_delegator := a; de_delegatees := m |} b q) L
    (Ok {| de_delegator := a; de_delegatees := undelegated m b q |}) L.
Proof.
  intros Hq. unfold de_subtract_quantity, undelegated. cbn [de_delegatees de_delegator].
  destruct (N.eqb_spec q 0); [apply does_ret|]. destruct (bt_get m b) as [x|]; simpl in *; [|lia].
  destruct (N.ltb_spec q x); [apply does_ret|]. destruct (N.eqb_spec x q); [apply does_ret|lia].
Qed.

Lemma does_subtract_quantity_fails L a m b q :
  default 0 (bt_get m b) < q →
  does (de_subtract_quantity {| de_delegator := a; de_delegatees := m |} b q) L
    (Err (StateError.Runtime cannot_subtract)) L.
Proof.
  intros Hq. unfold de_subtract_quantity. cbn [de_delegatees de_delegator].
  destruct (N.eqb_spec q 0); [lia|]. destruct (bt_get m b) as [x|]; simpl in *; [|apply does_throw].
  destruct (N.ltb_spec q x); [lia|]. destruct (N.eqb_spec x q); [lia|apply does_throw].
Qed.

Lemma undelegated_wf m b q :
  delegation_wf m → delegation_wf (undelegated m b q).
Proof.
  intros Hm. unfold undelegated. destruct (N.eqb_spec q 0); [done|].
  destruct (N.ltb_spec q (default 0 (bt_get m b))); [|by apply amap_wf_remove].
  destruct (bt_get m b) as [x|] eqn:E; simpl in *; [|lia]. apply bt_get_elem in E; [|apply Hm].
  apply (proj2 Hm) in E as (Hb & Hx & Hx'). apply amap_wf_insert; [done..|]. unfold u64_wf in *. lia.
Qed.

Lemma undelegated_sum m b q :
  bt_ok m → q ≤ default 0 (bt_get m b) → amap_sum (undelegated m b q) + q = amap_sum m.
Proof.
  intros Hm Hq. unfold undelegated. destruct (N.eqb_spec q 0); [lia|].
  pose proof (amap_sum_insert m b (default 0 (bt_get m b) - q) Hm). pose proof (amap_sum_remove m b).
  destruct (N.ltb_spec q (default 0 (bt_get m b))); lia.
Qed.

Lemma undelegated_elem m b q c x :
  bt_ok m → q ≤ default 0 (bt_get m b) → (c, x) ∈ undelegated m b q → ∃ x', (c, x') ∈ m.
Proof.
  intros Hm Hq. unfold undelegated. destruct (N.eqb_spec q 0); [by eauto|].
  case_match; [|intros Hin%bt_remove_elem; by eauto].
  intros [[= -> ->]|Hin]%bt_insert_elem; [|by eauto].
  destruct (bt_get m b) as [y|] eqn:E; simpl in *; [|lia]. apply bt_get_elem in E; eauto.
Qed.

Lemma revoke_ok L a b q :
  inv L → a ∈ accounts → q ≤ default 0 (bt_get (lg_delegation L a) b) →
  let L' := set_account L a (undelegated (lg_delegation L a) b q) (lg_balance L a + q) in
  does (revoke a b q) L (Ok tt) L' ∧ keeps L L'.
Proof.
  intros HL Ha Hq L'. pose proof (inv_wf L HL) as Hwf. pose proof (wf_delegation L Hwf a Ha) as Hm.
  pose proof (stake_le L a Ha) as Hle. pose proof (inv_stake L HL). unfold stake_of in Hle.
  pose proof (amap_sum_get (lg_delegation L a) b). pose proof (undelegated_wf _ b q Hm).
  split.
  - unfold revoke. eapply does_bind; [by apply does_account_load|].
    eapply does_bind; [by apply does_delegation_load|]. cbv zeta.
    eapply does_bind; [by apply does_subtract_quantity|].
    unfold sa_add_balance. cbn [sa_balance sa_address]. rewrite u64_add_small by lia.
    apply does_set_account; [done..|lia].
  - apply set_account_keeps; [done..| |].
    + pose proof (undelegated_sum _ b q (proj1 Hm) Hq). unfold stake_of. lia.
    + intros c x Hin%undelegated_elem; [eauto|apply Hm|done].
Qed.

Lemma revoke_fails L a b q :
  a ∈ accounts → default 0 (bt_get (lg_delegation L a) b) < q →
  does (revoke a b q) L (Err (StateError.Runtime cannot_subtract)) L.
Proof.
  intros Ha Hq. unfold revoke. eapply does_bind; [by apply does_account_load|].
  eapply does_bind; [by apply does_delegation_load|]. cbv zeta.
  eapply does_bind_err. by apply does_subtract_quantity_fails.
Qed.

(** ** Reverting delegations *)

(** All that [a] delegated to one of [R] is back in its balance. *)
Definition reverted_map (R : list Address) (m : amap N) : amap N := foldl bt_remove m R.

Lemma reverted_map_wf R m : delegation_wf m → delegation_wf (reverted_map R m).
Proof. revert m. induction R as [|b R IH]; intros m Hm; [done|]. apply IH. by apply amap_wf_remove. Qed.

Lemma reverted_map_sum R m : amap_sum (reverted_map R m) ≤ amap_sum m.
Proof.
  revert m. induction R as [|b R IH]; intros m; [done|]. etrans; [apply IH|].
  pose proof (amap_sum_remove m b). lia.
Qed.

Lemma reverted_map_elem R m c x :
  bt_ok m → (c, x) ∈ reverted_map R m → (c, x) ∈ m ∧ c ∉ R.
Proof.
  revert m. induction R as [|b R IH]; intros m Hm Hin; [split; [done|by intros ?%elem_of_nil]|].
  apply IH in Hin as [Hin HR]; [|by apply bt_remove_ok]. split; [by apply bt_remove_elem in Hin|].
  intros [->|?]%elem_of_cons; [|done].
  assert (b ∈ (bt_remove m b).*1) as Hb by (by apply (list_elem_of_fmap_2 fst) in Hin).
  by apply keys_remove in Hb as [? _].
Qed.

Definition reverted (R : list Address) (L : ledger) (a : Address) : ledger :=
  let m := reverted_map R (lg_delegation L a) in set_account L a m (stake_of L a - amap_sum m).

Lemma undelegated_all m b : amap_wf (λ _ x, 0 < x ∧ u64_wf x) m →
  undelegated m b (default 0 (bt_get m b)) = bt_remove m b.
Proof.
  intros [Hm Hd]. unfold undelegated. rewrite N.ltb_irrefl. destruct (N.eqb_spec (default 0 (bt_get m b)) 0); [|done].
  assert (bt_get m b = None) as Hb.
  { destruct (bt_get m b) as [x|] eqn:E; [|done]. apply bt_get_elem, Hd in E; [|done]. simpl in *. lia. }
  apply bt_ext; [done|by apply bt_remove_ok|]. intros k. rewrite bt_get_remove by done.
  pose proof (cmp_case k b). destruct (cmp k b); [by subst|done..].
Qed.

Lemma does_revert_loop L a R m n :
  delegation_wf m → n + amap_sum m < u64_size →
  does (for_fold (λ '(delegator, delegation) delegatee,
          let quantity := de_get_quantity delegation delegatee in
          if 0 <? quantity then
            delegation ← de_subtract_quantity delegation delegatee quantity;
            mret (sa_add_balance delegator quantity, delegation)
          else mret (delegator, delegation))
        ({| sa_address := a; sa_balance := n |}, {| de_delegator := a; de_delegatees := m |}) R) L
    (Ok ({| sa_address := a; sa_balance := n + amap_sum m - amap_sum (reverted_map R m) |},
         {| de_delegator := a; de_delegatees := reverted_map R m |})) L.
Proof.
  revert m n. induction R as [|b R IH]; intros m n Hm Hn; cbn [for_fold reverted_map foldl].
  - replace (n + amap_sum m - amap_sum m) with n by lia. apply does_ret.
  - pose proof (amap_sum_remove m b) as Hr. pose proof (undelegated_all m b Hm) as Hu.
    specialize (IH (bt_remove m b) (n + default 0 (bt_get m b)) (amap_wf_remove _ _ _ Hm) ltac:(lia)).
    replace (n + default 0 (bt_get m b) + amap_sum (bt_remove m b)) with (n + amap_sum m) in IH by lia.
    eapply does_bind; [|exact IH]. cbv zeta. unfold de_get_quantity. cbn [de_delegatees].
    destruct (N.ltb_spec 0 (default 0 (bt_get m b))).
    + eapply does_bind; [by apply does_subtract_quantity|]. rewrite Hu.
      unfold sa_add_balance. cbn [sa_balance sa_address]. rewrite u64_add_small by lia. apply does_ret.
    + replace (default 0 (bt_get m b)) with 0 in * by lia. rewrite N.add_0_r. rewrite <-Hu. apply does_ret.
Qed.

Lemma does_revert_delegator L R a :
  lg_wf L → a ∈ accounts → stake_of L a < u64_size →
  does (revert_delegator R a) L (Ok tt) (reverted R L a).
Proof.
  intros Hwf Ha Hs. pose proof (wf_delegation L Hwf a Ha) as Hm. unfold revert_delegator.
  eapply does_bind; [by apply does_account_load|]. eapply does_bind; [by apply does_delegation_load|].
  eapply does_bind; [by apply does_revert_loop|]. cbn beta iota.
  apply does_set_account; [done|by apply reverted_map_wf|]. unfold stake_of in *. lia.
Qed.

(** Two ledgers that differ at most in how stakes are split into balances and delegations. *)
Record resplit (L L' : ledger) : Prop := {
  rs_wf : lg_wf L → lg_wf L';
  rs_stake a : stake_of L' a = stake_of L a;
  rs_holders : lg_holders L' = lg_holders L;
  rs_candidates : lg_candidates L' = lg_candidates L;
  rs_jail : lg_jail L' = lg_jail L;
  rs_banned : lg_banned L' = lg_banned L;
  rs_validators : lg_validators L' = lg_validators L;
  rs_rewards : lg_rewards L' = lg_rewards L;
  rs_coin : lg_coin L' = lg_coin L;
  rs_metadata : lg_metadata L' = lg_metadata L;
  rs_delegation a b q : lg_wf L → a ∈ accounts → (b, q) ∈ lg_delegation L' a → (b, q) ∈ lg_delegation L a;
}.

Lemma reverted_resplit R L a :
  a ∈ accounts → stake_of L a < u64_size → resplit L (reverted R L a).
Proof.
  intros Ha Hs. split; try done.
  - intros Hwf. apply wf_set_balance; [|lia]. apply wf_set_delegation; [done|].
    apply reverted_map_wf. by apply (wf_delegation L Hwf).
  - intros b. unfold stake_of. simpl. unfold put. case_decide; subst; [|done].
    pose proof (reverted_map_sum R (lg_delegation L a)). unfold stake_of. lia.
  - intros b c q Hwf Hb. simpl. unfold put. case_decide; subst; [|done].
    intros Hin%reverted_map_elem; [by destruct Hin|]. apply (wf_delegation L Hwf a Ha).
Qed.

Lemma resplit_trans L L1 L2 : resplit L L1 → resplit L1 L2 → resplit L L2.
Proof. intros [] []. split; try (etrans; done); eauto. intros a. etrans; eauto. Qed.

Lemma does_revert_delegations L R :
  lg_wf L → total_stake L < u64_size →
  ∃ L', does (revert_delegations R) L (Ok tt) L' ∧ resplit L L' ∧
    ∀ a b q, a ∈ accounts → a ∈ (lg_holders L).*1 → (b, q) ∈ lg_delegation L' a → b ∉ R.
Proof.
  intros Hwf Hs. unfold revert_delegations.
  edestruct (does_for_each_inv (revert_delegator R) (λ pre L', resplit L L' ∧
    ∀ a b q, a ∈ accounts → a ∈ pre → (b, q) ∈ lg_delegation L' a → b ∉ R) (lg_holders L).*1 L)
    as (L' & Hdo & Hre & Hout).
  - split; [by split|]. by intros a b q _ ?%elem_of_nil.
  - intros pre x post L1 Hl [Hre Hout].
    assert (x ∈ (lg_holders L).*1) as ([k []] & -> & Hx)%list_elem_of_fmap by (rewrite Hl; set_solver).
    cbn [fst].
    apply (wf_holders L Hwf) in Hx as [Hx _]. pose proof (rs_wf _ _ Hre Hwf) as Hwf1.
    assert (stake_of L1 k < u64_size) as Hk.
    { rewrite (rs_stake _ _ Hre). pose proof (stake_le L k Hx). lia. }
    exists (reverted R L1 k). split; [by apply does_revert_delegator|].
    split; [by eapply resplit_trans, reverted_resplit|].
    intros a b q Ha [Hpre|Heq%list_elem_of_singleton]%elem_of_app.
    + intros Hin. eapply Hout; [done..|]. by eapply (rs_delegation _ _ (reverted_resplit R L1 k Hx Hk)).
    + subst a. simpl. rewrite put_eq. intros Hin%reverted_map_elem; [by destruct Hin|].
      apply (wf_delegation L1 Hwf1 k Hx).
  - exists L'. split; [|done]. eapply does_bind; [apply does_holders_load|done].
Qed.
End Spec.
