(* ===== verification/StakeTerm.v ===== *)
(** Nominations, bans and the end of a term keep the books of the staking contract
    (StakeSpec.v): what each does to the candidates, the jail and the deposits. *)
From stdpp Require Import base gmap list numbers strings sorting relations.
From Stdlib Require Import NArith Lia.
From S2P Require Import Prelude Types Crypto Rlp RlpImpls Params StateCache StateItems ShardState.
From S2P Require Import TrieNode BTree StakeData StakeAction Stake StakeLedger StakeSpec.

Local Open Scope N_scope.

(** * Candidates *)

Section Candidates.
Context `{Crypto} `{Accounts}.

Lemma take_first_some {A} (p : A → bool) l x rest :
  take_first p l = Some (x, rest) → l ≡ₚ x :: rest ∧ p x = true.
Proof.
  revert rest. induction l as [|y l IH]; intros rest; simpl; [done|]. destruct (p y) eqn:E; [by intros [= -> ->]|].
  destruct (take_first p l) as [[z l']|] eqn:El; simpl; [|done]. intros [= -> <-].
  destruct (IH l' eq_refl) as [Hp Hx]. split; [|done]. rewrite Hp. apply Permutation_swap.
Qed.

Lemma take_first_none {A} (p : A → bool) l x : take_first p l = None → x ∈ l → p x = false.
Proof.
  induction l as [|y l IH]; simpl; [by intros _ ?%elem_of_nil|]. destruct (p y) eqn:E; [done|].
  destruct (take_first p l) as [[z l']|]; [done|]. intros _ [->|Hin]%elem_of_cons; auto.
Qed.

Lemma candidates_remove_some l a :
  a ∈ ca_address <$> l →
  ∃ c rest, candidates_remove l a = Some (c, rest) ∧ ca_address c = a ∧ l ≡ₚ c :: rest.
Proof.
  intros (c & -> & Hc)%list_elem_of_fmap. unfold candidates_remove.
  destruct (take_first _ l) as [[d rest]|] eqn:E.
  - apply take_first_some in E as [Hp Hd]. apply bool_decide_eq_true in Hd. eauto 10.
  - apply (take_first_none _ _ c) in E; [|done]. by apply bool_decide_eq_false in E.
Qed.

Lemma candidates_remove_none l a : a ∉ ca_address <$> l → candidates_remove l a = None.
Proof.
  intros Ha. unfold candidates_remove. destruct (take_first _ l) as [[d rest]|] eqn:E; [|done].
  apply take_first_some in E as [Hp Hd]. apply bool_decide_eq_true in Hd. destruct Ha.
  rewrite Hp, fmap_cons, Hd. left.
Qed.

(** Moving candidates to the end only permutes them. *)
Lemma reprioritize_loop rest renewed targets :
  NoDup targets → (∀ a, a ∈ targets → a ∈ ca_address <$> rest) →
  ∃ rest' renewed',
    fold_res (λ '(rest, renewed) target,
      '(c, rest) ← expect (E := StateError.t) (candidates_remove rest target);
      Ok (rest, renewed ++ [c])) (rest, renewed) targets = Ok (rest', renewed') ∧
    rest' ++ renewed' ≡ₚ rest ++ renewed.
Proof.
  revert rest renewed. induction targets as [|a targets IH]; intros rest renewed Hnd Hin; [by eexists _, _|].
  apply list.NoDup_cons in Hnd as [Ha Hnd].
  destruct (candidates_remove_some rest a) as (c & rest1 & Hc & Hca & Hp); [apply Hin; left|].
  destruct (IH rest1 (renewed ++ [c])) as (rest' & renewed' & Hf & Hp'); [done| |].
  - intros b Hb. assert (b ∈ ca_address <$> rest) as Hb' by (apply Hin; by right).
    rewrite Hp, fmap_cons in Hb'. apply elem_of_cons in Hb' as [->|]; [|done]. by rewrite Hca in Hb.
  - exists rest', renewed'. split; [cbn [fold_res]; rewrite Hc; exact Hf|].
    rewrite Hp', Hp. rewrite (Permutation_app_comm renewed [c]). simpl. apply Permutation_sym, Permutation_middle.
Qed.

Lemma reprioritize_perm l targets :
  NoDup targets → (∀ a, a ∈ targets → a ∈ ca_address <$> l) →
  ∃ l', reprioritize l targets = Ok l' ∧ l' ≡ₚ l.
Proof.
  intros Hnd Hin. destruct (reprioritize_loop l [] targets Hnd Hin) as (r & n & Hf & Hp).
  exists (r ++ n). unfold reprioritize. rewrite Hf. split; [done|]. by rewrite Hp, app_nil_r.
Qed.

Lemma deposits_perm l k : l ≡ₚ k → deposits l = deposits k.
Proof. apply sum_with_perm. Qed.

Lemma deposit_to_keys l pub q e md k :
  k ∈ ca_pubkey <$> deposit_to l pub q e md ↔ k = pub ∨ k ∈ ca_pubkey <$> l.
Proof.
  induction l as [|c l IH]; cbn [deposit_to]; [set_solver|].
  case_bool_decide as E; rewrite !fmap_cons, !elem_of_cons; [subst; simpl; tauto|]. rewrite IH. tauto.
Qed.

Lemma deposit_to_sum l pub q e md :
  deposits l + q < u64_size → deposits (deposit_to l pub q e md) = deposits l + q.
Proof.
  unfold deposits. induction l as [|c l IH]; cbn [deposit_to].
  { rewrite sum_with_cons, !sum_with_nil. simpl. lia. }
  rewrite !sum_with_cons. intros Hs. case_bool_decide; rewrite sum_with_cons; [|rewrite IH; lia].
  cbn [ca_deposit add_to_candidate]. rewrite u64_add_small by lia. lia.
Qed.

Lemma deposit_to_wf l pub q e md :
  Forall candidate_wf l → deposits l + q < u64_size → len pub = 64 → e < u64_size →
  public_to_address pub ∈ accounts → len md ≤ max_meta → Forall candidate_wf (deposit_to l pub q e md).
Proof.
  intros Hl Hs Hp He Ha Hm. unfold deposits in Hs. induction Hl as [|c l Hc Hl IH]; simpl.
  - rewrite sum_with_nil in Hs. apply Forall_singleton. split_and!; [|done..].
    repeat split; [exact Hp|change (q < u64_size); lia|done].
  - rewrite sum_with_cons in Hs. case_bool_decide as E; constructor; [|done..|apply IH; lia].
    destruct Hc as ((Hw1 & Hw2 & Hw3 & _) & Hc2 & Hc3). split_and!; [|done..].
    repeat split; [done| |].
    + change (u64_add (ca_deposit c) q < u64_size). rewrite u64_add_small; lia.
    + simpl. case_match; done.
Qed.

Lemma addresses_of (l : list Candidate) : ca_address <$> l = public_to_address <$> (ca_pubkey <$> l).
Proof. by rewrite <-list_fmap_compose. Qed.

(** No other candidate has the address of the key. *)
Definition own_address (l : list Candidate) (pub : Public) : Prop :=
  ∀ c, c ∈ l → ca_address c = public_to_address pub → ca_pubkey c = pub.

Lemma deposit_to_nodup l pub q e md :
  NoDup (ca_address <$> l) → own_address l pub → NoDup (ca_address <$> deposit_to l pub q e md).
Proof.
  induction l as [|c l IH]; intros Hnd Hown; cbn [deposit_to]; [apply NoDup_singleton|].
  rewrite fmap_cons in Hnd. apply list.NoDup_cons in Hnd as [Hc Hnd].
  case_bool_decide as E; rewrite fmap_cons; apply list.NoDup_cons; [done|]. split.
  - rewrite addresses_of. intros (k & Hk & Hin)%list_elem_of_fmap.
    apply deposit_to_keys in Hin as [->|Hin]; [by destruct E; apply Hown; [left|]|].
    destruct Hc. rewrite addresses_of, Hk. by apply list_elem_of_fmap_2.
  - apply IH; [done|]. intros d Hd. apply Hown. by right.
Qed.

Lemma deposit_to_ends l pub q e md t :
  t ≤ e → (∀ c, c ∈ l → t ≤ ca_nomination_ends_at c) →
  ∀ c, c ∈ deposit_to l pub q e md → t ≤ ca_nomination_ends_at c.
Proof.
  intros Ht. induction l as [|d l IH]; intros Hall c; cbn [deposit_to].
  - by intros ->%list_elem_of_singleton.
  - case_bool_decide; intros [->|Hc]%elem_of_cons.
    + simpl. specialize (Hall d (list_elem_of_here _ _)). case_match; lia.
    + apply Hall. by right.
    + apply Hall. left.
    + apply IH; [|done]. intros c' Hc'. apply Hall. by right.
Qed.

Record nominated (l l' : list Candidate) (pub : Public) (q e : N) : Prop := {
  no_sum : deposits l' = deposits l + q;
  no_wf : Forall candidate_wf l';
  no_nodup : NoDup (ca_address <$> l');
  no_keys k : k ∈ ca_pubkey <$> l' ↔ k = pub ∨ k ∈ ca_pubkey <$> l;
  no_ends t : t ≤ e → (∀ c, c ∈ l → t ≤ ca_nomination_ends_at c) →
    ∀ c, c ∈ l' → t ≤ ca_nomination_ends_at c;
}.

Lemma add_deposit_ok l pub q e md :
  Forall candidate_wf l → NoDup (ca_address <$> l) → own_address l pub →
  deposits l + q < u64_size → len pub = 64 → e < u64_size →
  public_to_address pub ∈ accounts → len md ≤ max_meta →
  ∃ l', add_deposit l pub q e md = Ok l' ∧ nominated l l' pub q e.
Proof.
  intros Hl Hnd Hown Hs Hp He Ha Hm. unfold add_deposit.
  destruct (reprioritize_perm (deposit_to l pub q e md) [public_to_address pub]) as (l' & Hl' & Hperm).
  - apply NoDup_singleton.
  - intros a ->%list_elem_of_singleton. rewrite addresses_of. apply list_elem_of_fmap_2.
    apply deposit_to_keys. by left.
  - exists l'. split; [done|]. split.
    + by rewrite (deposits_perm _ _ Hperm), deposit_to_sum.
    + rewrite Hperm. by apply deposit_to_wf.
    + rewrite Hperm. by apply deposit_to_nodup.
    + intros k. rewrite Hperm. apply deposit_to_keys.
    + intros t Ht Hall c. rewrite Hperm. by apply deposit_to_ends.
Qed.
End Candidates.

(** * The handlers *)

Section Handlers.
Context `{CryptoLaws} {S : Type} `{StakeState S} `{!StakeStateLaws S} `{Accounts} `{Hplay : !InPlay}.

Definition term_of (L : ledger) : option N := md_current_term_id <$> lg_metadata L.

(** The handler returns, with the books kept, in the same term; where it reports an error
    nothing has changed. *)
Definition handled (m : stM S StateError.t ()) (L : ledger) : Prop :=
  ∃ r L', does m L r L' ∧ keeps L L' ∧ term_of L' = term_of L ∧ (r = Ok tt ∨ ∃ e, r = Err e ∧ L' = L).

Lemma keeps_refl L : inv L → keeps L L.
Proof. done. Qed.

Lemma handled_throw m e L : inv L → does m L (Err e) L → handled m L.
Proof. intros HL Hm. exists (Err e), L. split_and!; [done|by apply keeps_refl|done|]. eauto. Qed.

Lemma total_coin_set L a n :
  a ∈ accounts →
  sum_with (put (lg_coin L) a n) accounts + lg_coin L a = sum_with (lg_coin L) accounts + n.
Proof. intros Ha. apply (sum_with_put (lg_coin L) (λ _ x, x)); [apply accounts_nodup|done]. Qed.

Lemma coin_le L a : a ∈ accounts → lg_coin L a ≤ sum_with (lg_coin L) accounts.
Proof. apply sum_with_elem. Qed.

(** ** Self-nomination *)

(** What the jail gives back, and the jail after. *)
Definition released_deposit (L : ledger) (a : Address) : N := from_option pr_deposit 0 (bt_get (lg_jail L) a).

Definition nominate_ledger (L : ledger) (a : Address) (deposit : N) (l' : list Candidate) : ledger :=
  set_candidates (set_jail (set_coin L a (lg_coin L a - deposit)) (bt_remove (lg_jail L) a)) l'.

Lemma nominate_keeps L pub deposit e l' :
  let a := public_to_address pub in
  inv L → a ∈ accounts → deposit ≤ lg_coin L a → bt_get (lg_banned L) a = None →
  (∀ md, lg_metadata L = Some md → md_current_term_id md ≤ e) →
  nominated (lg_candidates L) l' pub (released_deposit L a + deposit) e →
  keeps L (nominate_ledger L a deposit l').
Proof.
  intros a HL Ha Hd Hb He [Hsum Hlwf Hlnd Hkeys Hends]. pose proof (inv_wf L HL) as Hwf.
  pose proof (wf_coin L Hwf a) as Hc. unfold u64_wf in Hc. pose proof (wf_jail L Hwf) as [Hj Hjd].
  assert (total_coin (nominate_ledger L a deposit l') = total_coin L) as Ht.
  { unfold total_coin. simpl. rewrite Hsum. pose proof (total_coin_set L a (lg_coin L a - deposit) Ha).
    pose proof (bt_sum_remove pr_deposit (lg_jail L) a) as Hr. unfold jailed, released_deposit in *. lia. }
  assert (∀ b, b ∈ ca_address <$> l' ↔ b = a ∨ b ∈ ca_address <$> lg_candidates L) as Haddr.
  { intros b. rewrite !addresses_of, !list_elem_of_fmap. setoid_rewrite Hkeys. unfold a. naive_solver. }
  split; [|done]. destruct HL as [[_ Hs Hco Hh Hca Hjb Hde] Hpu Hva].
  split; [split| |]; simpl; try done.
  - apply wf_set_candidates; [|done..]. apply wf_set_jail; [|by apply amap_wf_remove].
    apply wf_set_coin; [done|lia].
  - by rewrite Ht.
  - intros b Hin. apply Haddr in Hin. rewrite bt_get_remove by done. pose proof (cmp_case b a).
    destruct (cmp b a); destruct Hin as [->|Hin]; try done; by destruct (Hca b Hin).
  - intros b p. rewrite bt_get_remove by done. destruct (cmp b a); [done|eauto..].
  - intros b c q Hb' Hin. rewrite Haddr, keys_remove by done.
    destruct (decide (c = a)); [auto|]. destruct (Hde b c q Hb' Hin); auto.
  - intros md Hmd. simpl in *. destruct (Hpu md Hmd) as [Hp1 Hp2]. split; [by apply Hends; auto|].
    intros b p Hin%bt_remove_elem. eauto.
  - intros v Hv. apply Hkeys. auto.
Qed.

(** The checks before the deposit is taken: an error, or the jail lets the account go. *)
Lemma does_nominate_checked L L' r pub deposit term e md :
  let a := public_to_address pub in
  inv L → a ∈ accounts → bt_get (lg_banned L) a = None → deposit < u64_size →
  (∀ p, bt_get (lg_jail L) a = Some p → pr_custody_until p < term) →
  does (candidates ← Candidates_load;
        _ ← ss_sub_balance a deposit;
        candidates ← lift_st (add_deposit candidates pub (u64_add (released_deposit L a) deposit) e md);
        _ ← Jail_save (bt_remove (lg_jail L) a);
        Candidates_save candidates) L r L' →
  does (self_nominate a pub deposit term e md) L r L'.
Proof.
  intros a HL Ha Hb Hs Hfree Hrest. unfold self_nominate. rewrite bool_decide_eq_true_2 by done. cbn [negb].
  eapply does_bind; [apply does_banned_load|]. unfold is_banned. rewrite Hb.
  eapply does_bind; [apply does_jail_load|]. unfold try_release, released_deposit in *.
  destruct (bt_get (lg_jail L) a) as [p|] eqn:Hp; simpl in Hrest.
  - destruct (N.ltb_spec (pr_custody_until p) term) as [_|Hge]; [|specialize (Hfree p eq_refl); lia].
    assert (pr_address p = a) as Hpa.
    { destruct (wf_jail L (inv_wf L HL)) as [Hj Hjd]. apply bt_get_elem in Hp; [|done].
      by apply Hjd in Hp as (_ & _ & ?). }
    eapply does_bind; [|exact Hrest]. rewrite Hpa, bool_decide_eq_true_2 by done.
    eapply does_bind; [apply does_lift|apply does_ret].
  - eapply does_bind; [apply does_ret|]. rewrite (bt_remove_none _ _ Hp) in Hrest.
    rewrite u64_add_small in Hrest by done. exact Hrest.
Qed.

Record nomination_ok (L : ledger) (pub : Public) (ends_at : N) (md : bytes) : Prop := {
  nom_account : public_to_address pub ∈ accounts;
  nom_own : own_address (lg_candidates L) pub;
  nom_pubkey : len pub = 64;
  nom_ends : ends_at < u64_size;
  nom_term md' : lg_metadata L = Some md' → md_current_term_id md' ≤ ends_at;
  nom_meta : len md ≤ max_meta;
}.

Lemma nominate_coin L a deposit :
  inv L → a ∈ accounts → deposit ≤ lg_coin L a →
  deposits (lg_candidates L) + (released_deposit L a + deposit) < u64_size.
Proof.
  intros HL Ha Hd. pose proof (inv_coin L HL) as Hc. pose proof (coin_le L a Ha).
  pose proof (bt_sum_remove pr_deposit (lg_jail L) a) as Hr.
  unfold total_coin, jailed, released_deposit in *. lia.
Qed.

Lemma nominate_pays L pub deposit term e md :
  let a := public_to_address pub in
  inv L → nomination_ok L pub e md → deposit < u64_size → bt_get (lg_banned L) a = None →
  (∀ p, bt_get (lg_jail L) a = Some p → pr_custody_until p < term) →
  handled (self_nominate a pub deposit term e md) L.
Proof.
  intros a HL [Ha Hown Hp He Ht Hm] Hd Hb Hfree. destruct (N.le_gt_cases deposit (lg_coin L a)) as [Hle|Hgt].
  - pose proof (nominate_coin L a deposit HL Ha Hle). destruct (wf_candidates L (inv_wf L HL)) as [Hlwf Hlnd].
    destruct (add_deposit_ok (lg_candidates L) pub (released_deposit L a + deposit) e md)
      as (l' & Hadd & Hnom); [done..|].
    exists (Ok tt), (nominate_ledger L a deposit l'). split_and!; [|by eapply nominate_keeps|done|by left].
    apply does_nominate_checked; [done..|]. rewrite u64_add_small by (subst a; lia).
    eapply does_bind; [apply does_candidates_load|]. eapply does_bind; [by apply does_sub_coin|].
    fold a. rewrite Hadd. eapply does_bind; [apply does_lift|].
    destruct Hnom. eapply does_bind; [apply does_jail_save|by apply does_candidates_save].
    apply amap_wf_remove, (wf_jail L (inv_wf L HL)).
  - eapply handled_throw; [done|]. apply does_nominate_checked; [done..|].
    eapply does_bind; [apply does_candidates_load|]. by eapply does_bind_err, does_sub_coin_fails.
Qed.

Lemma nominate_handled L a pub deposit term e md :
  inv L → (public_to_address pub = a → nomination_ok L pub e md) → deposit < u64_size →
  handled (self_nominate a pub deposit term e md) L.
Proof.
  intros HL Hok Hd. destruct (decide (public_to_address pub = a)) as [<-|Hne].
  2:{ eapply handled_throw; [done|]. unfold self_nominate. rewrite bool_decide_eq_false_2 by done.
      apply does_throw. }
  specialize (Hok eq_refl). set (a := public_to_address pub) in *.
  destruct (bt_get (lg_banned L) a) eqn:Hb.
  { eapply handled_throw; [done|]. unfold self_nominate. rewrite bool_decide_eq_true_2 by done. cbn [negb].
    eapply does_bind; [apply does_banned_load|]. unfold is_banned. rewrite Hb. apply does_throw. }
  destruct (bt_get (lg_jail L) a) as [p|] eqn:Hj; [destruct (N.ltb_spec (pr_custody_until p) term)|].
  2:{ eapply handled_throw; [done|]. unfold self_nominate. rewrite bool_decide_eq_true_2 by done. cbn [negb].
      eapply does_bind; [apply does_banned_load|]. unfold is_banned. rewrite Hb.
      eapply does_bind; [apply does_jail_load|]. unfold try_release. rewrite Hj.
      destruct (N.ltb_spec (pr_custody_until p) term); [lia|]. eapply does_bind_err, does_throw. }
  all: apply nominate_pays; try done; fold a; intros p0 Hp0; rewrite Hj in Hp0; by simplify_eq.
Qed.

(** ** Reverting what was delegated to those who go *)

Lemma delegator_holds L a b q : core L → a ∈ accounts → (b, q) ∈ lg_delegation L a → a ∈ (lg_holders L).*1.
Proof.
  intros HL Ha Hin. apply (inv_holders L HL a Ha).
  destruct (proj2 (wf_delegation L (inv_wf L HL) a Ha) b q Hin) as (_ & Hq & _).
  pose proof (sum_with_elem snd (b, q) (lg_delegation L a) Hin). unfold stake_of, amap_sum. simpl in *. lia.
Qed.

(** The stakes of [L1] are those of [L]. *)
Record same_stakes (L L1 : ledger) : Prop := {
  ss_balance : lg_balance L1 = lg_balance L;
  ss_delegation : lg_delegation L1 = lg_delegation L;
  ss_holders : lg_holders L1 = lg_holders L;
}.

Lemma same_stakes_total L L1 : same_stakes L L1 → total_stake L1 = total_stake L.
Proof. intros [Hb Hd _]. unfold total_stake, stake_of. by rewrite Hb, Hd. Qed.

(** From [L] some accounts [R] are no longer candidates or prisoners, in [L1]; what was
    delegated to them is back, in [L2]. *)
Lemma resettled L L1 L2 (R : list Address) :
  core L → lg_wf L1 → same_stakes L L1 → total_coin L1 = total_coin L →
  (∀ a, a ∈ ca_address <$> lg_candidates L1 →
     bt_get (lg_jail L1) a = None ∧ bt_get (lg_banned L1) a = None) →
  (∀ a p, bt_get (lg_jail L1) a = Some p → bt_get (lg_banned L1) a = None) →
  (∀ b, b ∈ ca_address <$> lg_candidates L ∨ b ∈ (lg_jail L).*1 →
     b ∈ R ∨ b ∈ ca_address <$> lg_candidates L1 ∨ b ∈ (lg_jail L1).*1) →
  resplit L1 L2 →
  (∀ a b q, a ∈ accounts → a ∈ (lg_holders L1).*1 → (b, q) ∈ lg_delegation L2 a → b ∉ R) →
  core L2 ∧ total_stake L2 = total_stake L ∧ total_coin L2 = total_coin L.
Proof.
  intros HL Hwf1 Hsame Hcoin Hca Hjb Hgo Hre Hout.
  pose proof (same_stakes_total _ _ Hsame) as Hst. destruct Hsame as [Hb Hd Hh].
  pose proof (rs_wf _ _ Hre Hwf1) as Hwf2.
  pose proof (rs_delegation _ _ Hre) as Hdel. destruct Hre as [_ Hs2 Hh2 Hc2 Hj2 Hb2 _ _ Ho2 _ _].
  assert (total_stake L2 = total_stake L) as Hst2.
  { rewrite <-Hst. apply sum_with_ext. auto. }
  assert (total_coin L2 = total_coin L) as Hco2 by (rewrite <-Hcoin; unfold total_coin; by rewrite Hc2, Hj2, Ho2).
  split; [|done]. split; rewrite ?Hst2, ?Hco2, ?Hc2, ?Hj2, ?Hb2; try done; [by apply HL..| |].
  - intros a Ha. rewrite Hs2, Hh2, Hh. unfold stake_of. rewrite Hb, Hd. by apply (inv_holders L HL).
  - intros a b q Ha Hin. pose proof (Hdel a b q Hwf1 Ha Hin) as Hin1. rewrite Hd in Hin1.
    destruct (Hgo b (inv_delegations L HL a b q Ha Hin1)) as [HbR|]; [|done].
    destruct (Hout a b q Ha); [|done..]. rewrite Hh. by eapply delegator_holds.
Qed.

(** ** Bans *)

(** The deposit of the criminal. *)
Definition forfeit (L : ledger) (criminal : Address) : N :=
  match candidates_remove (lg_candidates L) criminal with
  | Some (c, _) => ca_deposit c
  | None => released_deposit L criminal
  end.
Definition other_candidates (L : ledger) (criminal : Address) : list Candidate :=
  match candidates_remove (lg_candidates L) criminal with
  | Some (_, rest) => rest
  | None => lg_candidates L
  end.

Definition ban_ledger (L : ledger) (informant criminal : Address) : ledger :=
  set_validators (set_candidates (set_banned (set_jail
    (set_coin L informant (lg_coin L informant + forfeit L criminal))
    (bt_remove (lg_jail L) criminal)) (bt_insert (lg_banned L) criminal tt))
    (other_candidates L criminal)) (validators_remove (lg_validators L) criminal).

(** The candidates are the criminal, if it is one, and the others. *)
Lemma other_candidates_perm L criminal :
  core L →
  (lg_candidates L ≡ₚ other_candidates L criminal ∧ criminal ∉ ca_address <$> lg_candidates L ∧
     forfeit L criminal = released_deposit L criminal) ∨
  (∃ c, lg_candidates L ≡ₚ c :: other_candidates L criminal ∧ ca_address c = criminal ∧
     forfeit L criminal = ca_deposit c ∧ bt_get (lg_jail L) criminal = None).
Proof.
  intros HL. unfold other_candidates, forfeit.
  destruct (decide (criminal ∈ ca_address <$> lg_candidates L)) as [Hin|Hout].
  - right. destruct (candidates_remove_some _ _ Hin) as (c & rest & -> & Hc & Hp).
    exists c. split_and!; [done..|]. by destruct (inv_candidates L HL criminal Hin).
  - left. by rewrite candidates_remove_none.
Qed.

Lemma other_candidates_address L criminal b :
  core L → b ∈ ca_address <$> lg_candidates L ↔
    b ∈ ca_address <$> other_candidates L criminal ∨
    (b = criminal ∧ criminal ∈ ca_address <$> lg_candidates L).
Proof.
  intros HL. destruct (other_candidates_perm L criminal HL) as [(Hp & Hout & _)|(c & Hp & Hc & _)].
  - rewrite <-Hp. tauto.
  - rewrite Hp, fmap_cons, elem_of_cons, elem_of_cons, Hc. tauto.
Qed.

Lemma other_candidates_out L criminal :
  core L → criminal ∉ ca_address <$> other_candidates L criminal.
Proof.
  intros HL. destruct (other_candidates_perm L criminal HL) as [(Hp & Hout & _)|(c & Hp & Hc & _)]; [by rewrite <-Hp|].
  destruct (wf_candidates L (inv_wf L HL)) as [_ Hnd]. rewrite Hp, fmap_cons, Hc in Hnd.
  by apply list.NoDup_cons in Hnd as [? _].
Qed.

Lemma ban_ledger_coin L informant criminal :
  core L → informant ∈ accounts →
  total_coin (ban_ledger L informant criminal) = total_coin L ∧
  lg_coin L informant + forfeit L criminal < u64_size.
Proof.
  intros HL Hi. pose proof (inv_coin L HL) as Hc.
  pose proof (total_coin_set L informant (lg_coin L informant + forfeit L criminal) Hi) as Hset.
  pose proof (bt_sum_remove pr_deposit (lg_jail L) criminal) as Hr. pose proof (coin_le L informant Hi).
  unfold total_coin in *. simpl. unfold jailed in *.
  destruct (other_candidates_perm L criminal HL) as [(Hp & _ & Hf)|(c & Hp & _ & Hf & Hj)].
  - unfold released_deposit in Hf. rewrite (deposits_perm _ _ Hp) in Hc |- *. lia.
  - rewrite Hj in Hr. rewrite (deposits_perm _ _ Hp) in Hc |- *. simpl in Hr.
    change (deposits (c :: other_candidates L criminal))
      with (sum_with ca_deposit (c :: other_candidates L criminal)) in *.
    rewrite sum_with_cons in *. change (sum_with ca_deposit) with deposits in *. lia.
Qed.

Lemma ban_ledger_wf L informant criminal :
  core L → informant ∈ accounts → criminal ∈ accounts → lg_wf (ban_ledger L informant criminal).
Proof.
  intros HL Hi Hcr. pose proof (inv_wf L HL) as Hwf. destruct (ban_ledger_coin L informant criminal HL Hi) as [_ Hco].
  destruct (wf_candidates L Hwf) as [Hall Hnd]. destruct (wf_validators L Hwf) as [Hv Hvnd].
  apply wf_set_validators; [apply wf_set_candidates; [apply wf_set_banned; [apply wf_set_jail|]|..]|..].
  - by apply wf_set_coin.
  - apply amap_wf_remove, (wf_jail L Hwf).
  - by apply amap_wf_insert; [apply (wf_banned L Hwf)|..].
  - destruct (other_candidates_perm L criminal HL) as [(Hp & _)|(c & Hp & _)]; rewrite Hp in Hall; [done|].
    by apply Forall_cons in Hall as [_ ?].
  - destruct (other_candidates_perm L criminal HL) as [(Hp & _)|(c & Hp & _)]; rewrite Hp in Hnd; [done|].
    rewrite fmap_cons in Hnd. by apply list.NoDup_cons in Hnd as [_ ?].
  - rewrite Forall_forall in *. intros v [_ ?]%list_elem_of_filter. auto.
  - unfold validators_remove. eapply sublist_NoDup; [exact Hvnd|]. apply fmap_sublist, sublist_filter.
Qed.

(** What [ban] does before it reverts the delegations. *)
Lemma does_ban_checked L L2 informant criminal :
  let i := public_to_address informant in
  core L → i ∈ accounts → criminal ∈ accounts → bt_get (lg_banned L) criminal = None →
  does (revert_delegations [criminal]) (ban_ledger L i criminal) (Ok tt) L2 →
  does (ban informant criminal) L (Ok tt) L2.
Proof.
  intros i HL Hi Hcr Hb Hrev. pose proof (inv_wf L HL) as Hwf.
  destruct (ban_ledger_coin L i criminal HL Hi) as [_ Hco].
  pose proof (ban_ledger_wf L i criminal HL Hi Hcr) as Hwf'.
  destruct (wf_candidates _ Hwf') as [Hall Hnd]. destruct (wf_validators _ Hwf') as [Hv Hvnd].
  unfold ban. eapply does_bind; [apply does_banned_load|]. unfold is_banned. rewrite Hb.
  eapply does_bind; [apply does_candidates_load|]. eapply does_bind; [apply does_jail_load|].
  eapply does_bind; [apply does_validators_load|]. cbv zeta. cbn [jail_remove fst snd].
  rewrite (bt_remove_none (bt_remove (lg_jail L) criminal)).
  2:{ rewrite bt_get_remove by apply (wf_jail L Hwf). by rewrite cmp_refl. }
  eapply does_bind with (x := forfeit L criminal) (L1 := L).
  { destruct (other_candidates_perm L criminal HL) as [(_ & Hout & Hf)|(c & Hp & Hc & Hf & Hj)].
    - rewrite candidates_remove_none, Hf by done. unfold released_deposit.
      destruct (bt_get (lg_jail L) criminal); apply does_lift.
    - rewrite Hj. unfold forfeit. destruct (candidates_remove_some (lg_candidates L) criminal)
        as (d & rest & -> & _); [|apply does_lift]. rewrite Hp, fmap_cons, Hc. left. }
  eapply does_bind; [by apply does_add_coin|]. eapply does_bind; [apply does_jail_save, (wf_jail _ Hwf')|].
  eapply does_bind; [apply does_banned_save, (wf_banned _ Hwf')|].
  eapply does_bind; [by apply (does_candidates_save (other_candidates L criminal))|].
  eapply does_bind; [by apply does_validators_save|exact Hrev].
Qed.

Lemma ban_handled L informant criminal :
  inv L → public_to_address informant ∈ accounts → criminal ∈ accounts →
  handled (ban informant criminal) L.
Proof.
  intros HL Hi Hcr. set (i := public_to_address informant) in *.
  destruct (bt_get (lg_banned L) criminal) eqn:Hb.
  { eapply handled_throw; [done|]. unfold ban. eapply does_bind; [apply does_banned_load|].
    unfold is_banned. rewrite Hb. apply does_throw. }
  pose proof (inv_wf L HL) as Hwf. pose proof (ban_ledger_wf L i criminal HL Hi Hcr) as Hwf1.
  destruct (ban_ledger_coin L i criminal HL Hi) as [Hcoin _].
  assert (same_stakes L (ban_ledger L i criminal)) as Hsame by done.
  pose proof (same_stakes_total _ _ Hsame) as Hst. pose proof (inv_stake L HL) as Hs.
  destruct (does_revert_delegations (ban_ledger L i criminal) [criminal] Hwf1) as (L2 & Hrev & Hre & Hout);
    [by rewrite Hst|].
  destruct (wf_jail L Hwf) as [Hj _]. destruct (wf_banned L Hwf) as [Hbn _].
  assert (∀ a, a ≠ criminal → bt_get (bt_remove (lg_jail L) criminal) a = bt_get (lg_jail L) a ∧
               bt_get (bt_insert (lg_banned L) criminal tt) a = bt_get (lg_banned L) a) as Hother.
  { intros a Ha. rewrite bt_get_remove, bt_get_insert by done. pose proof (cmp_case a criminal).
    by destruct (cmp a criminal). }
  destruct (resettled L (ban_ledger L i criminal) L2 [criminal]) as (Hcore & Hst2 & Hco2); [apply HL|done|done|done| | | |done|done|].
  - simpl. intros a Ha. assert (a ≠ criminal) as Hne.
    { intros ->. by destruct (other_candidates_out L criminal HL). }
    destruct (Hother a Hne) as [-> ->]. apply (inv_candidates L HL).
    apply (other_candidates_address L criminal); auto. apply HL.
  - simpl. intros a p Hp. rewrite bt_get_remove in Hp by done. pose proof (cmp_case a criminal).
    destruct (decide (a = criminal)) as [->|Hne]; [by rewrite cmp_refl in Hp|].
    destruct (Hother a Hne) as [_ ->]. eapply (inv_jail L HL a p). by destruct (cmp a criminal).
  - simpl. intros b Hin. destruct (decide (b = criminal)) as [->|Hne]; [left; left|right].
    rewrite keys_remove by done. rewrite (other_candidates_address L criminal b) in Hin by apply HL. tauto.
  - exists (Ok tt), L2. split_and!; [apply does_ban_checked; [apply HL|done..]| | |by left];
      [|unfold term_of; by rewrite (rs_metadata _ _ Hre)].
    assert (∀ c, c ∈ other_candidates L criminal → c ∈ lg_candidates L) as Hothers.
    { intros c Hc. destruct (other_candidates_perm L criminal HL) as [(Hp & _)|(d & Hp & _)]; rewrite Hp; [done|by right]. }
    split; [|done]. split; [done|intros md; rewrite (rs_metadata _ _ Hre), (rs_jail _ _ Hre)|];
      rewrite ?(rs_validators _ _ Hre), (rs_candidates _ _ Hre); simpl.
    { intros Hmd. destruct (inv_punctual L HL md Hmd) as [Hp1 Hp2]. split; [auto|].
      intros a p Hin%bt_remove_elem. eauto. }
    intros v [Hv Hin]%list_elem_of_filter. pose proof (inv_validators L HL v Hin) as Hk.
    destruct (other_candidates_perm L criminal HL) as [(Hp & _)|(c & Hp & Hc & _)]; rewrite Hp in Hk; [done|].
    rewrite fmap_cons in Hk. apply elem_of_cons in Hk as [Hk|]; [|done].
    destruct Hv. unfold va_address. by rewrite Hk.
Qed.
End Handlers.
