(* ===== verification/StakeClose.v ===== *)
(** The end of a term in the staking contract: nominations are renewed or expire, prisoners are
    released, inactive validators are jailed and the next validators are elected, and the books
    are kept (StakeSpec.v). *)
From stdpp Require Import base gmap list numbers strings sorting relations.
From Stdlib Require Import NArith Lia.
From S2P Require Import Prelude Types Crypto Rlp RlpImpls Params StateCache StateItems ShardState.
From S2P Require Import TrieNode BTree StakeData StakeAction Stake StakeLedger StakeSpec StakeTerm.

Local Open Scope N_scope.

Section Close.
Context `{CryptoLaws} {S : Type} `{StakeState S} `{!StakeStateLaws S} `{Accounts} `{Hplay : !InPlay}.

(** * Paying deposits back *)

Definition set_coins (L : ledger) (f : Address → N) : ledger :=
  {| lg_balance := lg_balance L; lg_delegation := lg_delegation L; lg_holders := lg_holders L;
     lg_candidates := lg_candidates L; lg_jail := lg_jail L; lg_banned := lg_banned L;
     lg_validators := lg_validators L; lg_rewards := lg_rewards L; lg_coin := f;
     lg_metadata := lg_metadata L |}.

Lemma does_pay_back {A} (addr : A → Address) (dep : A → N) l L :
  lg_wf L → (∀ x, x ∈ l → addr x ∈ accounts) →
  sum_with (lg_coin L) accounts + sum_with dep l < u64_size →
  ∃ f, does (for_each (λ x, ss_add_balance (addr x) (dep x)) l) L (Ok tt) (set_coins L f) ∧
    sum_with f accounts = sum_with (lg_coin L) accounts + sum_with dep l ∧ (∀ a, u64_wf (f a)).
Proof.
  intros Hwf Hl Hs.
  destruct (does_for_each_inv (λ x, ss_add_balance (addr x) (dep x)) (λ pre L', ∃ f,
    L' = set_coins L f ∧ sum_with f accounts = sum_with (lg_coin L) accounts + sum_with dep pre ∧
    ∀ a, u64_wf (f a)) l L) as (L' & Hdo & f & -> & Hf & Hfw).
  - exists (lg_coin L). rewrite sum_with_nil. split_and!; [by destruct L|lia|apply Hwf].
  - intros pre x post L1 Heq (f & -> & Hf & Hfw).
    assert (addr x ∈ accounts) as Hx by (apply Hl; rewrite Heq; set_solver).
    rewrite Heq, sum_with_app, sum_with_cons in Hs.
    pose proof (sum_with_elem f (addr x) accounts Hx).
    exists (set_coins L (put f (addr x) (f (addr x) + dep x))). split; [|eexists; split; [done|split]].
    + apply (does_add_coin (addr x) (dep x) (set_coins L f)). simpl. lia.
    + pose proof (sum_with_put f (λ _ y, y) accounts (addr x) (f (addr x) + dep x) accounts_nodup Hx) as Hp.
      cbn beta in Hp. rewrite sum_with_app, sum_with_cons, sum_with_nil.
      change (sum_with (λ b, put f (addr x) (f (addr x) + dep x) b) accounts)
        with (sum_with (put f (addr x) (f (addr x) + dep x)) accounts) in Hp.
      change (sum_with (λ b, f b) accounts) with (sum_with f accounts) in Hp. lia.
    + intros a. unfold put, u64_wf. case_decide; [lia|apply Hfw].
  - eauto.
Qed.

(** * Candidates *)

Definition renewed_with (to_renew : list Public) (ends_at : N) (c : Candidate) : Candidate :=
  if bool_decide (ca_pubkey c ∈ to_renew) then
    {| ca_pubkey := ca_pubkey c; ca_deposit := ca_deposit c;
       ca_nomination_ends_at := ends_at; ca_metadata := ca_metadata c |}
  else c.

Definition to_renew (validators : list Validator) (inactive : list Address) : list Public :=
  filter (λ pubkey, public_to_address pubkey ∉ inactive) (va_pubkey <$> validators).

Lemma renewed_pubkey ks e c : ca_pubkey (renewed_with ks e c) = ca_pubkey c.
Proof. unfold renewed_with. by case_bool_decide. Qed.
Lemma renewed_deposit ks e c : ca_deposit (renewed_with ks e c) = ca_deposit c.
Proof. unfold renewed_with. by case_bool_decide. Qed.
Lemma renewed_wf ks e c : candidate_wf c → e < u64_size → candidate_wf (renewed_with ks e c).
Proof.
  intros ((Hw1 & Hw2 & Hw3 & Hw4) & Hc2 & Hc3) He. unfold renewed_with. case_bool_decide; [|done].
  split_and!; [|done..]. by repeat split.
Qed.

Lemma renewed_pubkeys ks e (l : list Candidate) : ca_pubkey <$> (renewed_with ks e <$> l) = ca_pubkey <$> l.
Proof. rewrite <-list_fmap_compose. apply list_fmap_ext. intros. apply renewed_pubkey. Qed.
Lemma renewed_addresses ks e (l : list Candidate) : ca_address <$> (renewed_with ks e <$> l) = ca_address <$> l.
Proof. by rewrite !addresses_of, renewed_pubkeys. Qed.

Lemma renew_candidates_ok l validators e inactive banned :
  NoDup (ca_address <$> l) → (∀ a, a ∈ ca_address <$> l → bt_get banned a = None) →
  ∃ l', renew_candidates l validators e inactive banned = Ok l' ∧
    l' ≡ₚ renewed_with (to_renew validators inactive) e <$> l.
Proof.
  intros Hnd Hb. unfold renew_candidates. cbv zeta.
  change (filter _ (va_pubkey <$> validators)) with (to_renew validators inactive).
  set (ks := to_renew validators inactive).
  assert (map_res (λ c, if bool_decide (ca_pubkey c ∈ ks) then
      _ ← assert (negb (is_banned banned (ca_address c)));
      Ok {| ca_pubkey := ca_pubkey c; ca_deposit := ca_deposit c; ca_nomination_ends_at := e;
            ca_metadata := ca_metadata c |} else Ok c) l
    = Ok (E := StateError.t) (renewed_with ks e <$> l)) as ->.
  { apply map_res_Ok. clear Hnd. induction l as [|c l IH]; constructor.
    - unfold renewed_with, is_banned. rewrite Hb by (rewrite fmap_cons; left). by case_bool_decide.
    - apply IH. intros a Ha. apply Hb. rewrite fmap_cons. by right. }
  destruct (reprioritize_perm (renewed_with ks e <$> l)
    (ca_address <$> filter (λ c, ca_pubkey c ∈ ks) (renewed_with ks e <$> l))) as (l' & Hl' & Hp).
  - eapply sublist_NoDup; [|apply fmap_sublist, sublist_filter]. by rewrite renewed_addresses.
  - intros a (c & -> & [_ Hc]%list_elem_of_filter)%list_elem_of_fmap. by apply list_elem_of_fmap_2.
  - exists l'. split; [exact Hl'|done].
Qed.

Lemma deposits_app l k : deposits (l ++ k) = deposits l + deposits k.
Proof. apply sum_with_app. Qed.

Lemma renewed_deposits ks e l : deposits (renewed_with ks e <$> l) = deposits l.
Proof. unfold deposits. rewrite sum_with_fmap. apply sum_with_ext. intros. apply renewed_deposit. Qed.

(** What [update_candidates] leaves: the renewed candidates, less those whose nomination ended. *)
Record expiry (L : ledger) (t e : N) (inactive : list Address) (expired rest : list Candidate)
    (f : Address → N) : Prop := {
  ex_perm : expired ++ rest ≡ₚ renewed_with (to_renew (lg_validators L) inactive) e <$> lg_candidates L;
  ex_expired c : c ∈ expired → ca_nomination_ends_at c ≤ t;
  ex_rest c : c ∈ rest → t < ca_nomination_ends_at c;
  ex_coin : sum_with f accounts = sum_with (lg_coin L) accounts + deposits expired;
  ex_wf a : u64_wf (f a);
}.

Lemma renewal_candidates L ks e l :
  lg_wf L → e < u64_size → l ≡ₚ renewed_with ks e <$> lg_candidates L →
  Forall candidate_wf l ∧ NoDup (ca_address <$> l) ∧ deposits l = deposits (lg_candidates L).
Proof.
  intros Hwf He Hp. destruct (wf_candidates L Hwf) as [Hall Hnd]. split_and!.
  - rewrite Hp. apply Forall_fmap. eapply Forall_impl; [exact Hall|]. intros c Hc. by apply renewed_wf.
  - by rewrite Hp, renewed_addresses.
  - by rewrite (deposits_perm _ _ Hp), renewed_deposits.
Qed.

Lemma does_update_candidates L t expiration inactive :
  core L →
  ∃ expired rest f,
    does (update_candidates t expiration inactive) L (Ok (ca_address <$> expired))
      (set_candidates (set_coins L f) rest) ∧
    expiry L t (u64_add t expiration) inactive expired rest f.
Proof.
  intros HL. pose proof (inv_wf L HL) as Hwf. set (e := u64_add t expiration).
  assert (e < u64_size) as He by (by apply N.mod_lt).
  destruct (renew_candidates_ok (lg_candidates L) (lg_validators L) e inactive (lg_banned L))
    as (l' & Hrenew & Hp); [apply (wf_candidates L Hwf)|intros a Ha; by apply (inv_candidates L HL a)|].
  set (expired := filter (λ c, ca_nomination_ends_at c ≤ t) l').
  set (rest := filter (λ c, ¬ ca_nomination_ends_at c ≤ t) l').
  assert (expired ++ rest ≡ₚ renewed_with (to_renew (lg_validators L) inactive) e <$> lg_candidates L) as Hall.
  { rewrite <-Hp. apply filter_app_complement. }
  assert (∀ f, sum_with f accounts = sum_with (lg_coin L) accounts + deposits expired →
    (∀ a, u64_wf (f a)) → expiry L t e inactive expired rest f) as Hex.
  { intros f Hf Hfw. split; [done| | |done..].
    - intros c [? _]%list_elem_of_filter. done.
    - intros c [? _]%list_elem_of_filter. lia. }
  destruct (renewal_candidates L _ e _ Hwf He Hall) as ((Hcwe & Hcwr)%Forall_app & Hnd & Hdep).
  rewrite deposits_app in Hdep.
  destruct (does_pay_back ca_address ca_deposit expired L) as (f & Hpay & Hf & Hfw); [done| | |].
  { intros c Hc. rewrite Forall_forall in Hcwe. by apply Hcwe. }
  { change (sum_with ca_deposit expired) with (deposits expired).
    pose proof (inv_coin L HL) as Hc. unfold total_coin in Hc. lia. }
  exists expired, rest, f. split; [|by apply Hex].
  unfold update_candidates. eapply does_bind; [apply does_banned_load|].
  eapply does_bind; [apply does_candidates_load|]. eapply does_bind; [apply does_validators_load|].
  fold e. rewrite Hrenew. eapply does_bind; [apply does_lift|]. unfold drain_expired_candidates. cbn beta iota.
  eapply does_bind; [exact Hpay|]. eapply does_bind; [|apply does_ret].
  apply does_candidates_save; [done|]. rewrite fmap_app in Hnd. by apply NoDup_app in Hnd as (_ & _ & ?).
Qed.

(** * Prisoners *)

Definition leaving (L : ledger) (t : N) : amap Prisoner := filter (λ x, pr_released_at x.2 ≤ t) (lg_jail L).
Definition staying (L : ledger) (t : N) : amap Prisoner := filter (λ x, ¬ pr_released_at x.2 ≤ t) (lg_jail L).

Lemma bt_ok_sublist {V} (m m' : amap V) : m' `sublist_of` m → bt_ok m → bt_ok m'.
Proof.
  induction 1 as [|x m' m Hs IH|x m' m Hs IH]; [done|..]; destruct x as [k v]; intros [Hm Hall]%bt_ok_cons; [|auto].
  apply bt_ok_cons. split; [auto|]. intros y Hy. apply Hall. by eapply elem_of_sublist.
Qed.

Lemma amap_wf_filter {V} P (Q : Address * V → Prop) `{∀ x, Decision (Q x)} (m : amap V) :
  amap_wf P m → amap_wf P (filter Q m).
Proof.
  intros [Hm Hd]. split; [by eapply bt_ok_sublist; [apply sublist_filter|]|].
  intros k x [_ Hin]%list_elem_of_filter. auto.
Qed.

Lemma filter_snd {V} (Q : V → Prop) `{∀ x, Decision (Q x)} (m : amap V) :
  filter Q m.*2 = (filter (λ x, Q x.2) m).*2.
Proof.
  induction m as [|[k v] m IH]; [done|]. rewrite fmap_cons, !filter_cons. cbn [snd].
  case_decide; by rewrite ?fmap_cons, IH.
Qed.

Lemma prisoner_addresses (m : amap Prisoner) : amap_wf prisoner_wf m → pr_address <$> m.*2 = m.*1.
Proof.
  intros [_ Hd]. rewrite <-list_fmap_compose. apply list_fmap_ext.
  intros i [k p] Hin. apply list_elem_of_lookup_2, Hd in Hin as (_ & _ & ?). done.
Qed.

Lemma jailed_split L t : jailed (leaving L t) + jailed (staying L t) = jailed (lg_jail L).
Proof.
  unfold jailed. rewrite <-sum_with_app. apply sum_with_perm. apply filter_app_complement.
Qed.

Lemma does_release L t :
  lg_wf L → sum_with (lg_coin L) accounts + jailed (lg_jail L) < u64_size →
  ∃ f, does (release_jailed_prisoners t) L (Ok (leaving L t).*1) (set_jail (set_coins L f) (staying L t)) ∧
    sum_with f accounts = sum_with (lg_coin L) accounts + jailed (leaving L t) ∧ (∀ a, u64_wf (f a)).
Proof.
  intros Hwf Hs. pose proof (wf_jail L Hwf) as Hj. pose proof (jailed_split L t).
  pose proof (amap_wf_filter _ (λ x, pr_released_at x.2 ≤ t) _ Hj) as Hout.
  pose proof (amap_wf_filter _ (λ x, ¬ pr_released_at x.2 ≤ t) _ Hj) as Hin.
  destruct (does_pay_back pr_address pr_deposit (leaving L t).*2 L) as (f & Hpay & Hf & Hfw); [done|..].
  { intros p Hp. apply (list_elem_of_fmap_2 pr_address) in Hp. rewrite prisoner_addresses in Hp by done.
    apply list_elem_of_fmap in Hp as ([k q] & Hk & Hp). rewrite Hk. by apply (proj2 Hout) in Hp as [? _]. }
  { rewrite sum_with_fmap. change (sum_with _ (leaving L t)) with (jailed (leaving L t)). lia. }
  rewrite sum_with_fmap in Hf. exists f. split; [|done].
  unfold release_jailed_prisoners. eapply does_bind; [apply does_jail_load|].
  unfold drain_released_prisoners. cbn beta iota. rewrite !filter_snd, by_address_jail by done.
  eapply does_bind; [exact Hpay|]. eapply does_bind; [by apply does_jail_save|].
  change (filter (λ x, pr_released_at x.2 ≤ t) (lg_jail L)) with (leaving L t).
  rewrite prisoner_addresses by done. apply does_ret.
Qed.

(** * Jailing *)

(** The candidates and the jail after those of [pre] have been moved. *)
Record jailing (L : ledger) (custody kick : N) (pre : list Address) (l : list Candidate) (m : amap Prisoner)
  : Prop := {
  jl_candidates : Forall candidate_wf l ∧ NoDup (ca_address <$> l);
  jl_jail : amap_wf prisoner_wf m;
  jl_sum : deposits l + jailed m = deposits (lg_candidates L) + jailed (lg_jail L);
  jl_sub c : c ∈ l → c ∈ lg_candidates L;
  jl_left a : a ∈ ca_address <$> lg_candidates L → a ∉ pre → a ∈ ca_address <$> l;
  jl_apart a : a ∈ ca_address <$> l → bt_get m a = None;
  jl_all b : b ∈ ca_address <$> lg_candidates L ∨ b ∈ (lg_jail L).*1 ↔ b ∈ ca_address <$> l ∨ b ∈ m.*1;
  jl_in a : a ∈ pre → a ∈ m.*1;
  jl_new a p : (a, p) ∈ m →
    (a, p) ∈ lg_jail L ∨ (a ∈ pre ∧ pr_custody_until p = custody ∧ pr_released_at p = kick);
}.

Lemma jailing_start L custody kick : core L → jailing L custody kick [] (lg_candidates L) (lg_jail L).
Proof.
  intros HL. pose proof (inv_wf L HL) as Hwf. split; try done; [by apply Hwf..| | |].
  - intros a Ha. by apply (inv_candidates L HL a).
  - by intros a ?%elem_of_nil.
  - by left.
Qed.

Lemma jailing_step L pre l m a custody kick :
  jailing L custody kick pre l m → a ∈ ca_address <$> l → custody ≤ kick → kick < u64_size →
  ∃ c l' m', candidates_remove l a = Some (c, l') ∧
    jail_add m c custody kick = Ok m' ∧ jailing L custody kick (pre ++ [a]) l' m'.
Proof.
  intros [[Hcw Hnd] Hm Hsum Hsub Hleft Hapart Hall Hin' Hnew] Ha Hck Hk.
  destruct (candidates_remove_some l a Ha) as (c & l' & Hrem & Hc & Hp).
  assert (∀ b, b ∈ ca_address <$> l ↔ b = a ∨ b ∈ ca_address <$> l') as Hin.
  { intros b. by rewrite Hp, fmap_cons, elem_of_cons, Hc. }
  rewrite Hp in Hcw, Hnd. rewrite fmap_cons, Hc in Hnd. apply list.NoDup_cons in Hnd as [Hout Hnd].
  apply Forall_cons in Hcw as [((_ & Hdep & _) & Hacc & _) Hcw]. rewrite Hc in Hacc. destruct Hm as [Hm Hmd].
  set (p := {| pr_address := a; pr_deposit := ca_deposit c; pr_custody_until := custody; pr_released_at := kick |}).
  exists c, l', (bt_insert m a p). split_and!; [done| |].
  { unfold jail_add. apply N.leb_le in Hck. by rewrite Hck, Hc. }
  split.
  - done.
  - apply amap_wf_insert; [done..|]. split; [|done].
    repeat split; [by apply play_address|exact Hdep|change (custody < u64_size); lia|exact Hk].
  - rewrite <-Hsum, (deposits_perm _ _ Hp). pose proof (bt_sum_insert pr_deposit m a p Hm) as Hi.
    rewrite (Hapart a Ha) in Hi. unfold jailed, deposits in *. rewrite sum_with_cons. simpl in Hi. lia.
  - intros d Hd. apply Hsub. rewrite Hp. by right.
  - intros b Hb [Hpre Hba]%not_elem_of_app. specialize (Hleft b Hb Hpre). apply Hin in Hleft as [->|?]; [|done].
    by destruct Hba; left.
  - intros b Hb. rewrite bt_get_insert by done. pose proof (cmp_case b a).
    destruct (cmp b a); [by subst|apply Hapart, Hin; auto..].
  - intros b. rewrite Hall, Hin, keys_insert by done. tauto.
  - intros b. rewrite elem_of_app, list_elem_of_singleton, keys_insert by done. naive_solver.
  - intros b x [[= -> ->]|Hb]%bt_insert_elem.
    + right. split; [|done]. rewrite elem_of_app. right. left.
    + destruct (Hnew b x Hb) as [?|[? ?]]; [by left|right]. by rewrite elem_of_app; auto.
Qed.

Definition jail_ledger (L : ledger) (l : list Candidate) (m : amap Prisoner) : ledger :=
  set_candidates (set_jail L m) l.

Lemma does_jail L addresses custody kick :
  core L → NoDup addresses → (∀ a, a ∈ addresses → a ∈ ca_address <$> lg_candidates L) →
  custody ≤ kick → kick < u64_size →
  ∃ l m, does (jail addresses custody kick) L (Ok tt) (jail_ledger L l m) ∧ jailing L custody kick addresses l m.
Proof.
  intros HL Hnd Hin Hck Hk. destruct (decide (addresses = [])) as [->|Hne].
  { exists (lg_candidates L), (lg_jail L). split; [|by apply jailing_start].
    replace (jail_ledger L (lg_candidates L) (lg_jail L)) with L by (by destruct L). apply does_ret. }
  destruct (does_for_fold (λ '(candidates, jail) address,
      '(candidate, candidates) ← lift_st (expect (candidates_remove candidates address));
      jail ← lift_st (jail_add jail candidate custody kick);
      mret (candidates, jail)) (λ pre x, jailing L custody kick pre x.1 x.2) addresses (lg_candidates L, lg_jail L) L)
    as ([l m] & Hdo & Hj).
  - by apply jailing_start.
  - intros pre a post [l m] Heq Hj. simpl in Hj. rewrite Heq in Hnd. apply NoDup_app in Hnd as (_ & Hd & _).
    destruct (jailing_step L pre l m a custody kick Hj) as (c & l' & m' & Hr & Ha & Hj'); [|done..|].
    { apply (jl_left _ _ _ _ _ _ Hj); [apply Hin; rewrite Heq; set_solver|]. intros Hpre. apply (Hd a Hpre). left. }
    exists (l', m'). split; [|done]. rewrite Hr. eapply does_bind; [apply does_lift|]. cbn beta iota.
    rewrite Ha. eapply does_bind; [apply does_lift|apply does_ret].
  - exists l, m. split; [|done]. unfold jail. destruct addresses as [|a0 addresses]; [done|].
    eapply does_bind; [apply does_candidates_load|]. eapply does_bind; [apply does_jail_load|].
    eapply does_bind; [exact Hdo|]. cbn beta iota. destruct Hj as [[Hcw Hcn] Hm _ _ _ _ _ _ _].
    eapply does_bind; [by apply does_jail_save|by apply does_candidates_save].
Qed.

Lemma jail_core L custody kick addresses l m :
  core L → jailing L custody kick addresses l m →
  core (jail_ledger L l m) ∧ total_stake (jail_ledger L l m) = total_stake L ∧
  total_coin (jail_ledger L l m) = total_coin L.
Proof.
  intros HL [[Hcw Hcn] Hm Hsum Hsub Hleft Hapart Hall _ _]. destruct HL as [Hwf Hs Hc Hh Hca Hjb Hde].
  assert (total_coin (jail_ledger L l m) = total_coin L) as Hco by (unfold total_coin; simpl; lia).
  split; [|done]. assert (∀ b, b ∈ ca_address <$> l ∨ b ∈ m.*1 → bt_get (lg_banned L) b = None) as Hfree.
  { intros b Hb. apply Hall in Hb as [Hb|[p Hp]%keys_get]; [by apply Hca|by eapply Hjb|apply (wf_jail L Hwf)]. }
  split; rewrite ?Hco; simpl; try done.
  - apply wf_set_candidates; [by apply wf_set_jail|done..].
  - intros a Ha. auto.
  - intros a p Hp. apply Hfree. right. apply keys_get; [apply Hm|]. by rewrite Hp.
  - intros a b q Ha Hin. apply Hall. by eapply Hde.
Qed.

(** * Elections *)

Lemma stable_sort_perm {A} (le : A → A → bool) l : stable_sort le l ≡ₚ l.
Proof.
  assert (∀ x k, sort_insert le x k ≡ₚ x :: k) as Hins.
  { intros x k. induction k as [|y k IH]; simpl; [done|]. case_match; [done|]. rewrite IH. apply Permutation_swap. }
  unfold stable_sort. induction l as [|x l IH]; simpl; [done|]. by rewrite Hins, IH.
Qed.

Lemma does_delegatees L :
  lg_wf L → ∃ D, does delegatees L (Ok D) L ∧ ∀ a q, D !! a = Some q → q < u64_size.
Proof.
  intros Hwf. edestruct (does_for_fold (λ (result : gmap Address N) stakeholder,
    delegation ← Delegation_load stakeholder;
    mret (foldl (λ (result : gmap Address N) '(delegatee, quantity),
                   <[delegatee := u64_add (default 0 (result !! delegatee)) quantity]> result)
            result (de_delegatees delegation)))
    (λ _ D, ∀ a q, D !! a = Some q → q < u64_size) (lg_holders L).*1 ∅ L) as (D & Hdo & HD).
  - done.
  - intros pre x post D Hl HD.
    assert (x ∈ (lg_holders L).*1) as ([k []] & -> & Hx)%list_elem_of_fmap by (rewrite Hl; set_solver).
    apply (wf_holders L Hwf) in Hx as [Hx _]. eexists. split.
    { eapply does_bind; [by apply does_delegation_load|apply does_ret]. }
    cbn [de_delegatees fst]. clear -HD. revert D HD. induction (lg_delegation L k) as [|[b x] m IH]; intros D HD; [done|].
    apply IH. intros a q. rewrite lookup_insert_Some. intros [[_ <-]|[_ Ha]]; [apply N.mod_lt; done|eauto].
  - exists D. split; [|done]. unfold delegatees. eapply does_bind; [apply does_holders_load|exact Hdo].
Qed.

(** Validators picked among the candidates. *)
Record picked (l : list Candidate) (vs : list Validator) : Prop := {
  pk_wf : Forall validator_wf vs;
  pk_nodup : NoDup (va_address <$> vs);
  pk_from v : v ∈ vs → va_pubkey v ∈ ca_pubkey <$> l;
}.

Lemma picked_perm l vs vs' : vs' ≡ₚ vs → picked l vs → picked l vs'.
Proof. intros Hp [Hw Hn Hf]. split; [by rewrite Hp|by rewrite Hp|]. intros v. rewrite Hp. apply Hf. Qed.
Lemma picked_sublist l vs vs' : vs' `sublist_of` vs → picked l vs → picked l vs'.
Proof.
  intros Hs [Hw Hn Hf]. split.
  - rewrite Forall_forall in Hw. apply Forall_forall. intros v Hv. by eapply Hw, elem_of_sublist.
  - eapply sublist_NoDup; [exact Hn|]. by apply fmap_sublist.
  - intros v Hv. eapply Hf, elem_of_sublist; done.
Qed.

Definition to_validator (delegations : gmap Address N) (c : Candidate) : option Validator :=
  delegation ← delegations !! ca_address c;
  Some (Validator_new delegation (ca_deposit c) (ca_pubkey c)).

Lemma to_validator_pubkeys D l : va_pubkey <$> omap (to_validator D) l `sublist_of` ca_pubkey <$> l.
Proof.
  induction l as [|c l IH]; [done|]. rewrite (fmap_cons ca_pubkey). cbn [omap list_omap].
  unfold to_validator at 1. destruct (D !! ca_address c); simpl; [by apply sublist_skip|by apply sublist_cons].
Qed.

Lemma to_validator_picked D l :
  Forall candidate_wf l → NoDup (ca_address <$> l) → (∀ a q, D !! a = Some q → q < u64_size) →
  picked l (omap (to_validator D) l).
Proof.
  intros Hl Hnd HD. split.
  - rewrite Forall_forall in Hl. apply Forall_forall. intros v (c & Hc & Hv)%list_elem_of_omap. unfold to_validator in Hv.
    destruct (D !! ca_address c) as [q|] eqn:Eq; simpl in Hv; [|done]. injection Hv as <-.
    destruct (Hl c Hc) as ((Hw1 & Hw2 & _) & Hacc & _). apply HD in Eq. split; [|done]. by repeat split.
  - assert (∀ vs : list Validator, va_address <$> vs = public_to_address <$> (va_pubkey <$> vs)) as ->
      by (intros; by rewrite <-list_fmap_compose).
    rewrite addresses_of in Hnd. eapply sublist_NoDup; [exact Hnd|]. apply fmap_sublist, to_validator_pubkeys.
  - intros v Hv. eapply elem_of_sublist; [by apply list_elem_of_fmap_2|apply to_validator_pubkeys].
Qed.

Lemma does_elect L md p :
  core L → lg_metadata L = Some md → md_params md = Some p →
  cp_min_num_of_validators p ≤ cp_max_num_of_validators p →
  ∃ vs, does elect L (Ok vs) L ∧ picked (lg_candidates L) vs.
Proof.
  intros HL Hmd Hp Hmm. pose proof (inv_wf L HL) as Hwf. destruct (wf_candidates L Hwf) as [Hcw Hcn].
  destruct (does_delegatees L Hwf) as (D & HdoD & HD).
  set (l := filter (λ c, cp_min_deposit p ≤ ca_deposit c) (lg_candidates L)).
  set (vs0 := reverse (stable_sort (λ a b, pair_le (va_delegation a, va_deposit a) (va_delegation b, va_deposit b))
    (omap (to_validator D) l))).
  assert (picked (lg_candidates L) vs0) as Hvs0.
  { eapply picked_perm; [unfold vs0; by rewrite reverse_Permutation, stable_sort_perm|].
    assert (picked l (omap (to_validator D) l)) as [Hw Hn Hf].
    { apply to_validator_picked; [|eapply sublist_NoDup; [exact Hcn|apply fmap_sublist, sublist_filter]|done].
      apply Forall_forall. intros c [_ Hc]%list_elem_of_filter. rewrite Forall_forall in Hcw. auto. }
    split; [done..|]. intros v Hv. apply Hf in Hv. eapply elem_of_sublist; [exact Hv|].
    apply fmap_sublist, sublist_filter. }
  set (vs1 := take (N.to_nat (cp_max_num_of_validators p)) vs0).
  set (min := N.to_nat (cp_min_num_of_validators p)).
  set (over := filter (λ v, cp_delegation_threshold p ≤ va_delegation v) (drop min vs1)).
  exists (reverse (take min vs1 ++ over)). split.
  - unfold elect. eapply does_bind; [apply does_metadata|]. rewrite Hmd.
    eapply does_bind; [apply does_lift|]. rewrite Hp. eapply does_bind; [apply does_lift|].
    apply N.leb_le in Hmm. rewrite Hmm. eapply does_bind; [apply does_lift|].
    eapply does_bind; [exact HdoD|]. eapply does_bind; [unfold prepare_validators;
      eapply does_bind; [apply does_candidates_load|apply does_ret]|]. cbv zeta.
    change (reverse (stable_sort _ (omap _ _))) with vs0. eapply does_bind; [apply does_banned_load|].
    eapply does_bind; [|apply does_ret].
    edestruct (does_for_each_inv (λ v, lift_st (E := StateError.t) (assert (negb (is_banned (lg_banned L) (va_address v)))))
      (λ _ L', L' = L) vs0 L) as (L' & Hdo & HL'); [done| |by rewrite HL' in Hdo].
    intros pre v post L' Heq ->. exists L. split; [|done].
    assert (v ∈ vs0) as Hv by (rewrite Heq; set_solver). apply (pk_from _ _ Hvs0) in Hv.
    assert (bt_get (lg_banned L) (va_address v) = None) as Hb.
    { apply (inv_candidates L HL). rewrite addresses_of. by apply (list_elem_of_fmap_2 public_to_address). }
    unfold is_banned. rewrite Hb. apply does_lift.
  - eapply picked_perm; [by rewrite reverse_Permutation|]. eapply picked_sublist; [|exact Hvs0].
    trans vs1; [|apply sublist_take]. rewrite <-(take_drop min vs1) at 2.
    apply sublist_app; [done|apply sublist_filter].
Qed.

(** * Closing a term *)

(** What the engine knows when it closes a term. *)
Record term_over (L : ledger) (block : N) (inactive : list Address) (md : Metadata) (p : CommonParams)
  : Prop := {
  cl_metadata : lg_metadata L = Some md;
  cl_params : md_params md = Some p;
  cl_verified : CommonParams_verify p = Ok tt;
  cl_staking : cp_term_seconds p ≠ 0;
  cl_terms : md_current_term_id md + cp_release_period p < u64_size;
  cl_block : md_last_term_finished_block_num md < block;
  cl_inactive : NoDup inactive;
  cl_validators a : a ∈ inactive → a ∈ va_address <$> lg_validators L;
}.

(** What it does not check: the nomination of an inactive validator must not end in the term it
    was inactive, for [jail] would not find its candidate. *)
Record closing (L : ledger) (block : N) (inactive : list Address) (md : Metadata) (p : CommonParams)
  : Prop := {
  cl_over :> term_over L block inactive md p;
  cl_nominated c : c ∈ lg_candidates L → ca_address c ∈ inactive →
    md_current_term_id md < ca_nomination_ends_at c;
}.

(** Before delegations are reverted: candidates and prisoners have gone, deposits are back. *)
Definition closed_ledger (L : ledger) (rest : list Candidate) (f : Address → N) (t : N) : ledger :=
  set_jail (set_coins (set_candidates L rest) f) (staying L t).

Lemma does_expire_release L md p inactive :
  core L →
  let t := md_current_term_id md in
  ∃ expired rest f L1,
    does (update_candidates t (cp_nomination_expiration p) inactive) L (Ok (ca_address <$> expired)) L1 ∧
    does (release_jailed_prisoners t) L1 (Ok (leaving L t).*1) (closed_ledger L rest f t) ∧
    expired ++ rest ≡ₚ renewed_with (to_renew (lg_validators L) inactive)
      (u64_add t (cp_nomination_expiration p)) <$> lg_candidates L ∧
    (∀ c, c ∈ expired → ca_nomination_ends_at c ≤ t) ∧ (∀ c, c ∈ rest → t < ca_nomination_ends_at c) ∧
    lg_wf (closed_ledger L rest f t) ∧ total_coin (closed_ledger L rest f t) = total_coin L.
Proof.
  intros HL t. pose proof (inv_wf L HL) as Hwf. pose proof (inv_coin L HL) as Hcoin. unfold total_coin in Hcoin.
  destruct (does_update_candidates L t (cp_nomination_expiration p) inactive HL)
    as (expired & rest & f & Hdo1 & [Hp Hexp Hrest Hf Hfw]).
  assert (u64_add t (cp_nomination_expiration p) < u64_size) as He by (by apply N.mod_lt).
  destruct (renewal_candidates L _ _ _ Hwf He Hp) as ([_ Hcw]%Forall_app & Hnd & Hdep).
  rewrite deposits_app in Hdep. rewrite fmap_app in Hnd. apply NoDup_app in Hnd as (_ & _ & Hnd).
  set (L1 := set_candidates (set_coins L f) rest) in *.
  assert (lg_wf L1) as Hwf1.
  { apply wf_set_candidates; [|done..]. destruct Hwf. by split. }
  pose proof (jailed_split L t) as Hsplit.
  destruct (does_release L1 t Hwf1) as (g & Hdo2 & Hg & Hgw); [simpl; lia|].
  exists expired, rest, g, L1. split_and!; [done..| |].
  - apply wf_set_jail; [|apply amap_wf_filter, (wf_jail L Hwf)]. destruct Hwf1. by split.
  - unfold total_coin. simpl. change (lg_coin L1) with f in Hg. change (leaving L1 t) with (leaving L t) in Hg. lia.
Qed.

(** An inactive validator stays a candidate if its nomination does not end. *)
Lemma inactive_stays L t inactive expired rest e c :
  core L → expired ++ rest ≡ₚ renewed_with (to_renew (lg_validators L) inactive) e <$> lg_candidates L →
  (∀ c, c ∈ expired → ca_nomination_ends_at c ≤ t) → (∀ c, c ∈ rest → t < ca_nomination_ends_at c) →
  c ∈ lg_candidates L → ca_address c ∈ inactive →
  ca_address c ∈ ca_address <$> rest ↔ t < ca_nomination_ends_at c.
Proof.
  intros HL Hp Hexp Hrest Hc Hca.
  assert (renewed_with (to_renew (lg_validators L) inactive) e c = c) as Hsame.
  { unfold renewed_with. case_bool_decide as Hin; [|done]. by apply list_elem_of_filter in Hin as [[] _]. }
  assert (c ∈ expired ++ rest) as Hin by (rewrite Hp, <-Hsame; by apply list_elem_of_fmap_2).
  split.
  - intros (d & Hd & Hdr)%list_elem_of_fmap. apply elem_of_app in Hin as [Hin|Hin]; [|by apply Hrest].
    destruct (wf_candidates L (inv_wf L HL)) as [_ Hnd].
    rewrite <-(renewed_addresses (to_renew (lg_validators L) inactive) e), <-Hp, fmap_app in Hnd.
    apply NoDup_app in Hnd as (_ & Hnd & _). destruct (Hnd (ca_address c)); [by apply list_elem_of_fmap_2|].
    rewrite Hd. by apply list_elem_of_fmap_2.
  - intros Hlt. apply elem_of_app in Hin as [Hin|Hin]; [apply Hexp in Hin; lia|by apply list_elem_of_fmap_2].
Qed.

(** An inactive validator is a candidate before. *)
Lemma inactive_candidate L md p block inactive a :
  inv L → term_over L block inactive md p → a ∈ inactive → ∃ c, c ∈ lg_candidates L ∧ ca_address c = a.
Proof.
  intros HL Hcl Ha. destruct (list_elem_of_fmap_1 _ _ _ (cl_validators _ _ _ _ _ Hcl a Ha)) as (v & Hav & Hv).
  destruct (list_elem_of_fmap_1 _ _ _ (inv_validators L HL v Hv)) as (c & Hvc & Hc).
  exists c. split; [done|]. unfold ca_address. by rewrite <-Hvc.
Qed.

Lemma closed_core L rest f t expired ks e L2 :
  core L → expired ++ rest ≡ₚ renewed_with ks e <$> lg_candidates L →
  lg_wf (closed_ledger L rest f t) → total_coin (closed_ledger L rest f t) = total_coin L →
  resplit (closed_ledger L rest f t) L2 →
  (∀ a b q, a ∈ accounts → a ∈ (lg_holders L).*1 → (b, q) ∈ lg_delegation L2 a →
     b ∉ (ca_address <$> expired) ++ (leaving L t).*1) →
  core L2 ∧ total_stake L2 = total_stake L ∧ total_coin L2 = total_coin L.
Proof.
  intros HL Hp Hwf1 Hcoin Hre Hout. pose proof (inv_wf L HL) as Hwf.
  pose proof (wf_jail L Hwf) as Hj. pose proof (wf_jail _ Hwf1) as Hj1. simpl in Hj1.
  assert (∀ a, a ∈ ca_address <$> lg_candidates L ↔ a ∈ ca_address <$> expired ∨ a ∈ ca_address <$> rest) as Hc.
  { intros a. rewrite <-elem_of_app, <-fmap_app, Hp, renewed_addresses. done. }
  assert (∀ a x, bt_get (staying L t) a = Some x → bt_get (lg_jail L) a = Some x) as Hst.
  { intros a x Hx. apply bt_get_elem in Hx; [|apply Hj1]. apply list_elem_of_filter in Hx as [_ Hx].
    apply bt_get_elem; [apply Hj|done]. }
  eapply resettled; [done|exact Hwf1|done|done| | | |exact Hre|exact Hout]; simpl.
  - intros a Ha. destruct (inv_candidates L HL a) as [Hn1 Hn2]; [apply Hc; auto|]. split; [|done].
    destruct (bt_get (staying L t) a) as [x|] eqn:E; [|done]. apply Hst in E. congruence.
  - intros a x Hx. eapply (inv_jail L HL), Hst, Hx.
  - intros b [[Hb|Hb]%Hc|([k x] & -> & Hb)%list_elem_of_fmap]; [rewrite elem_of_app; auto..|].
    rewrite elem_of_app. destruct (decide (pr_released_at x ≤ t)).
    + left. right. apply list_elem_of_fmap_2. by apply list_elem_of_filter.
    + right. right. apply list_elem_of_fmap_2. by apply list_elem_of_filter.
Qed.

(** What is so when the term [t] has been closed. *)
Record closed (L L' : ledger) (t kick : N) (inactive : list Address) : Prop := {
  cd_keeps : keeps L L';
  cd_rewards : lg_rewards L' = lg_rewards L;
  cd_term : ∃ md', lg_metadata L' = Some md' ∧ md_current_term_id md' = t + 1;
  cd_candidates c : c ∈ lg_candidates L' → t < ca_nomination_ends_at c;
  cd_jail a p : (a, p) ∈ lg_jail L' → t < pr_released_at p;
  cd_released a p : (a, p) ∈ lg_jail L → pr_released_at p ≤ t → a ∉ (lg_jail L').*1;
  cd_jailed a : a ∈ inactive → ∃ p, (a, p) ∈ lg_jail L' ∧ pr_released_at p = kick;
}.

Lemma closing_params L block inactive md p :
  term_over L block inactive md p →
  cp_nomination_expiration p ≠ 0 ∧ cp_custody_period p ≠ 0 ∧ cp_release_period p ≠ 0 ∧
  cp_min_num_of_validators p ≤ cp_max_num_of_validators p ∧ cp_custody_period p < cp_release_period p.
Proof.
  intros Hcl. destruct (proj1 (CommonParams_verify_exact p) (cl_verified _ _ _ _ _ Hcl)) as [Hz|Hv].
  - by destruct (cl_staking _ _ _ _ _ Hcl).
  - tauto.
Qed.

(** The first half: delegations to expired candidates and released prisoners are reverted. *)
Lemma close_first_half L md p block inactive :
  inv L → term_over L block inactive md p →
  let t := md_current_term_id md in
  ∃ expired L1 L1' L2,
    does (update_candidates t (cp_nomination_expiration p) inactive) L (Ok expired) L1 ∧
    does (release_jailed_prisoners t) L1 (Ok (leaving L t).*1) L1' ∧
    does (revert_delegations (expired ++ (leaving L t).*1)) L1' (Ok tt) L2 ∧
    (core L2 ∧ total_stake L2 = total_stake L ∧ total_coin L2 = total_coin L) ∧
    lg_metadata L2 = Some md ∧ lg_jail L2 = staying L t ∧ lg_rewards L2 = lg_rewards L ∧
    (∀ c, c ∈ lg_candidates L2 → t < ca_nomination_ends_at c) ∧
    (∀ a, a ∈ ca_address <$> lg_candidates L2 → a ∈ ca_address <$> lg_candidates L) ∧
    (∀ c, c ∈ lg_candidates L → ca_address c ∈ inactive →
       ca_address c ∈ ca_address <$> lg_candidates L2 ↔ t < ca_nomination_ends_at c).
Proof.
  intros HL Hcl t. subst t. set (t := md_current_term_id md). destruct (does_expire_release L md p inactive HL)
    as (expired & rest & f & L1 & Hdo1 & Hdo2 & Hp & Hexp & Hrest & Hwf1 & Hco1).
  fold t in Hdo1, Hdo2, Hp, Hexp, Hrest, Hwf1, Hco1.
  destruct (does_revert_delegations (closed_ledger L rest f t) ((ca_address <$> expired) ++ (leaving L t).*1) Hwf1)
    as (L2 & Hdo3 & Hre & Hout).
  { rewrite (same_stakes_total L); [apply (inv_stake L HL)|done]. }
  destruct (closed_core L rest f t expired _ _ L2 HL Hp Hwf1 Hco1 Hre Hout) as (Hcore2 & Hst2 & Hco2).
  exists (ca_address <$> expired), L1, (closed_ledger L rest f t), L2.
  rewrite (rs_metadata _ _ Hre), (rs_jail _ _ Hre), (rs_candidates _ _ Hre), (rs_rewards _ _ Hre). simpl.
  split_and!; try done.
  - apply (cl_metadata _ _ _ _ _ Hcl).
  - intros a Ha. rewrite <-(renewed_addresses (to_renew (lg_validators L) inactive)
      (u64_add t (cp_nomination_expiration p))), <-Hp, fmap_app. set_solver.
  - intros c Hc Hca. eapply inactive_stays; [apply HL|done..].
Qed.

(** The second half: inactive validators are jailed and validators are elected. *)
Definition elected (L : ledger) (vs : list Validator) (md' : Metadata) : ledger :=
  set_meta (set_validators L vs) md'.

Lemma close_second_half L2 md p custody kick block inactive :
  core L2 → lg_metadata L2 = Some md → md_params md = Some p →
  cp_min_num_of_validators p ≤ cp_max_num_of_validators p →
  md_last_term_finished_block_num md < block → md_current_term_id md + 1 < u64_size →
  NoDup inactive → (∀ a, a ∈ inactive → a ∈ ca_address <$> lg_candidates L2) →
  custody ≤ kick → kick < u64_size →
  ∃ l m vs md',
    does (_ ← jail inactive custody kick; validators ← elect; _ ← Validators_save validators;
          ss_increase_term_id block) L2 (Ok tt) (elected (jail_ledger L2 l m) vs md') ∧
    jailing L2 custody kick inactive l m ∧ picked l vs ∧
    core (elected (jail_ledger L2 l m) vs md') ∧ md_current_term_id md' = md_current_term_id md + 1.
Proof.
  intros Hcore Hmd Hp Hmm Hblock Hterm Hnd Hin Hck Hk.
  destruct (does_jail L2 inactive custody kick) as (l & m & Hdo1 & Hj); [done..|].
  destruct (jail_core L2 custody kick inactive l m Hcore Hj) as (Hcore3 & _ & _).
  destruct (does_elect (jail_ledger L2 l m) md p) as (vs & Hdo2 & Hvs); [done..|].
  apply N.ltb_lt in Hblock. assert (∃ md', increase_term_id_metadata block md = Some md' ∧
    md_current_term_id md' = md_current_term_id md + 1) as (md' & Hmd' & Hterm').
  { unfold increase_term_id_metadata. rewrite Hblock. eexists. split; [done|]. simpl. by rewrite u64_add_small. }
  exists l, m, vs, md'. split_and!; [|done..| |done].
  - eapply does_bind; [exact Hdo1|]. eapply does_bind; [exact Hdo2|]. destruct Hvs as [Hvw Hvn _].
    eapply does_bind; [by apply does_validators_save|]. by eapply does_increase_term_id.
  - destruct Hvs as [Hvw Hvn _]. destruct Hcore3 as [Hwf Hs Hc Hh Hca Hjb Hde]. split; try done.
    apply wf_set_meta. by apply wf_set_validators.
Qed.

(** Who is in jail then. *)
Lemma closed_jail L L2 t custody kick inactive l m :
  core L → core L2 → lg_jail L2 = staying L t →
  (∀ a, a ∈ inactive → a ∈ ca_address <$> lg_candidates L2) →
  (∀ a, a ∈ ca_address <$> lg_candidates L2 → a ∈ ca_address <$> lg_candidates L) →
  t < kick → jailing L2 custody kick inactive l m →
  (∀ a x, (a, x) ∈ m → t < pr_released_at x) ∧
  (∀ a x, (a, x) ∈ lg_jail L → pr_released_at x ≤ t → a ∉ m.*1) ∧
  (∀ a, a ∈ inactive → ∃ x, (a, x) ∈ m ∧ pr_released_at x = kick).
Proof.
  intros HL HL2 Hj2 Hin Hsub Hkick Hj. destruct (wf_jail L (inv_wf L HL)) as [Hjo _].
  assert (∀ a x, (a, x) ∈ m → ((a, x) ∈ lg_jail L ∧ t < pr_released_at x) ∨
            (a ∈ inactive ∧ pr_released_at x = kick)) as Hm.
  { intros a x Hx. apply (jl_new _ _ _ _ _ _ Hj) in Hx as [Hx|(Ha & _ & ->)]; [left|by right].
    rewrite Hj2 in Hx. apply list_elem_of_filter in Hx as [Hx Hx']. simpl in Hx. split; [done|lia]. }
  assert (∀ a x, a ∈ inactive → (a, x) ∉ lg_jail L) as Hout.
  { intros a x Ha Hx. apply bt_get_elem in Hx; [|done].
    destruct (inv_candidates L HL a (Hsub a (Hin a Ha))) as [Hn _]. congruence. }
  split_and!.
  - intros a x Hx. destruct (Hm a x Hx) as [[_ ?]|[_ ->]]; done.
  - intros a x Hx Hle ([k y] & -> & Hy)%list_elem_of_fmap. simpl in Hx.
    destruct (Hm k y Hy) as [[Hy' Hlt]|[Ha _]]; [|by destruct (Hout k x Ha)].
    apply bt_get_elem in Hx, Hy'; [|done..]. rewrite Hx in Hy'. injection Hy' as ->. lia.
  - intros a Ha. destruct (list_elem_of_fmap_1 _ _ _ (jl_in _ _ _ _ _ _ Hj a Ha)) as ([k x] & -> & Hx).
    exists x. split; [done|]. destruct (Hm k x Hx) as [[Hx' _]|[_ ?]]; [by destruct (Hout k x Ha)|done].
Qed.

(** The parameters of the term are read and checked. *)
Lemma does_close_checked L md p block inactive r L' :
  term_over L block inactive md p →
  let t := md_current_term_id md in
  does (expired ← update_candidates t (cp_nomination_expiration p) inactive;
        released ← release_jailed_prisoners t;
        _ ← revert_delegations (expired ++ released);
        _ ← jail inactive (t + cp_custody_period p) (t + cp_release_period p);
        validators ← elect;
        _ ← Validators_save validators;
        ss_increase_term_id block) L r L' →
  does (on_term_close block inactive) L r L'.
Proof.
  intros Hcl t Hrest. destruct (closing_params _ _ _ _ _ Hcl) as (Hn0 & Hc0 & Hr0 & Hmm & Hcr).
  pose proof (cl_terms _ _ _ _ _ Hcl) as Hterms.
  unfold on_term_close. eapply does_bind; [apply does_metadata|]. rewrite (cl_metadata _ _ _ _ _ Hcl).
  eapply does_bind; [apply does_lift|]. rewrite (cl_params _ _ _ _ _ Hcl). eapply does_bind; [apply does_lift|].
  apply N.eqb_neq in Hn0 as ->, Hc0 as ->, Hr0 as ->.
  eapply does_bind; [apply does_lift|]. eapply does_bind; [apply does_lift|]. eapply does_bind; [apply does_lift|].
  rewrite !u64_add_small by lia. exact Hrest.
Qed.

Lemma term_close_ok L md p block inactive :
  inv L → closing L block inactive md p →
  let t := md_current_term_id md in let kick := t + cp_release_period p in
  ∃ L', does (on_term_close block inactive) L (Ok tt) L' ∧ closed L L' t kick inactive.
Proof.
  intros HL Hcl t kick. subst kick t. set (t := md_current_term_id md). set (kick := t + cp_release_period p).
  destruct (closing_params _ _ _ _ _ Hcl) as (_ & _ & Hr0 & Hmm & Hcr).
  pose proof (cl_terms _ _ _ _ _ Hcl) as Hterms. fold t in Hterms.
  destruct (close_first_half L md p block inactive HL Hcl)
    as (expired & L1 & L1' & L2 & Hdo1 & Hdo2 & Hdo3 & (Hcore2 & Hst2 & Hco2) & Hmd2 & Hj2 & Hrw2 & Hends & Hsub & Hin).
  fold t in Hdo1, Hdo2, Hdo3, Hj2, Hends, Hin.
  assert (∀ a, a ∈ inactive → a ∈ ca_address <$> lg_candidates L2) as Hstay.
  { intros a Ha. destruct (inactive_candidate L md p block inactive a HL Hcl Ha) as (c & Hc & <-).
    apply (Hin c Hc Ha). by apply (cl_nominated _ _ _ _ _ Hcl). }
  destruct (close_second_half L2 md p (t + cp_custody_period p) kick block inactive)
    as (l & m & vs & md' & Hdo4 & Hj & Hvs & Hcore & Hterm'); try done; try (apply Hcl); [lia..|].
  destruct (jail_core L2 _ _ _ l m Hcore2 Hj) as (_ & Hst3 & Hco3).
  exists (elected (jail_ledger L2 l m) vs md'). split.
  - eapply does_close_checked; [apply Hcl|]. eapply does_bind; [exact Hdo1|]. eapply does_bind; [exact Hdo2|].
    eapply does_bind; [exact Hdo3|]. exact Hdo4.
  - destruct (closed_jail L L2 t (t + cp_custody_period p) kick inactive l m HL Hcore2 Hj2 Hstay Hsub) as (Hm1 & Hm2 & Hm3);
      [unfold kick; lia|done|].
    split; [|done|by eauto|intros c Hc%(jl_sub _ _ _ _ _ _ Hj); auto|done..].
    split; [split; [done| |apply (pk_from _ _ Hvs)]|by rewrite <-Hst2, <-Hco2].
    intros md0 [= <-]. rewrite Hterm'. fold t. simpl. split.
    + intros c Hc%(jl_sub _ _ _ _ _ _ Hj). specialize (Hends c Hc). lia.
    + intros a x Hx. specialize (Hm1 a x Hx). lia.
Qed.

(** * The flaw *)

(** [jail] unwinds on an address without a candidate. *)
Lemma does_jail_panics L addresses custody kick a :
  custody ≤ kick → a ∈ addresses → a ∉ ca_address <$> lg_candidates L →
  does (jail addresses custody kick) L Panic L.
Proof.
  intros Hck Ha Hout. apply N.leb_le in Hck.
  assert (∀ addresses l m, a ∈ addresses → a ∉ ca_address <$> l →
    does (for_fold (λ '(candidates, jail) address,
      '(candidate, candidates) ← lift_st (expect (candidates_remove candidates address));
      jail ← lift_st (jail_add jail candidate custody kick);
      mret (candidates, jail)) (l, m) addresses) L Panic L) as Hloop.
  { clear -Hck. induction addresses as [|x addresses IH]; intros l m Ha Hout; [by apply elem_of_nil in Ha|].
    cbn [for_fold]. destruct (decide (x ∈ ca_address <$> l)) as [Hx|Hx].
    - destruct (candidates_remove_some l x Hx) as (c & l' & Hr & Hc & Hp). eapply does_bind.
      { rewrite Hr. eapply does_bind; [apply does_lift|]. cbn beta iota. unfold jail_add. rewrite Hck.
        eapply does_bind; [apply does_lift|apply does_ret]. }
      rewrite Hp, fmap_cons in Hout. apply not_elem_of_cons in Hout as [Hne Hout].
      apply IH; [|done]. apply elem_of_cons in Ha as [->|]; [congruence|done].
    - eapply does_bind_panic. rewrite candidates_remove_none by done. eapply does_bind_panic, does_lift. }
  unfold jail. destruct addresses as [|a0 addresses]; [by apply elem_of_nil in Ha|].
  eapply does_bind; [apply does_candidates_load|]. eapply does_bind; [apply does_jail_load|].
  eapply does_bind_panic, Hloop; done.
Qed.

Lemma does_term_close_panics L md p block inactive c :
  inv L → term_over L block inactive md p → c ∈ lg_candidates L → ca_address c ∈ inactive →
  ca_nomination_ends_at c ≤ md_current_term_id md →
  ∃ L', does (on_term_close block inactive) L Panic L'.
Proof.
  intros HL Hcl Hc Hca Hend. destruct (closing_params _ _ _ _ _ Hcl) as (_ & _ & _ & _ & Hcr).
  destruct (close_first_half L md p block inactive HL Hcl)
    as (expired & L1 & L1' & L2 & Hdo1 & Hdo2 & Hdo3 & _ & _ & _ & _ & _ & _ & Hin).
  exists L2. eapply does_close_checked; [done|]. eapply does_bind; [exact Hdo1|].
  eapply does_bind; [exact Hdo2|]. eapply does_bind; [exact Hdo3|]. eapply does_bind_panic.
  apply (does_jail_panics _ _ _ _ (ca_address c)); [lia|done|]. rewrite (Hin c Hc Hca). lia.
Qed.
End Close.
