(* ===== verification/StakeRun.v ===== *)
(** Runs of the staking contract.  An action that passed [StakeAction_verify] and the calls of
    the engine at the end of a block keep the books (StakeSpec.v), in any order and number. *)
From stdpp Require Import base gmap list numbers strings sorting relations.
From Stdlib Require Import NArith Lia.
From S2P Require Import Prelude Types Crypto Rlp RlpImpls Params StateCache StateItems ShardState.
From S2P Require Import TrieNode BTree StakeData StakeAction Stake StakeLedger StakeSpec StakeTerm StakeClose.

Local Open Scope N_scope.

Section Run.
Context `{CryptoLaws} {S : Type} `{StakeState S} `{!StakeStateLaws S} `{Accounts} `{Hplay : !InPlay}.
Context {M : Type} `{Message M}.

Abbreviation reward_wf := (amap_wf (λ _ x, u64_wf x)).

(** * Changing the parameters *)

(** The stakes the contract counts are those of the ledger. *)
Lemma does_get_stakes L :
  inv L →
  ∃ D, does get_stakes L (Ok D) L ∧
    ∀ a, D !! a = if decide (a ∈ (lg_holders L).*1) then Some (stake_of L a) else None.
Proof.
  intros HL. pose proof (inv_wf L HL) as Hwf.
  destruct (does_for_fold (λ (result : gmap Address N) stakeholder,
    account ← StakeAccount_load stakeholder;
    delegation ← Delegation_load stakeholder;
    mret (<[stakeholder := u64_add (sa_balance account) (de_sum delegation)]> (result : gmap Address N)))
    (λ pre D, ∀ a, D !! a = if decide (a ∈ pre) then Some (stake_of L a) else None) (lg_holders L).*1 ∅ L)
    as (D & Hdo & HD).
  - intros a. rewrite lookup_empty. case_decide as Ha; [by apply elem_of_nil in Ha|done].
  - intros pre x post D Hl HD.
    assert (x ∈ (lg_holders L).*1) as ([k []] & -> & Hx)%list_elem_of_fmap by (rewrite Hl; set_solver).
    cbn [fst]. apply (wf_holders L Hwf) in Hx as [Hx _]. pose proof (stake_le L k Hx) as Hle.
    pose proof (inv_stake L HL) as Hs. unfold stake_of in Hle. eexists. split.
    { eapply does_bind; [by apply does_account_load|]. eapply does_bind; [by apply does_delegation_load|].
      apply does_ret. }
    cbn [sa_balance]. intros a. rewrite de_sum_exact, u64_add_small by lia.
    destruct (decide (a = k)) as [->|Hne].
    + rewrite lookup_insert_eq. rewrite decide_True; [done|]. set_solver.
    + rewrite lookup_insert_ne, HD by done. apply decide_ext. set_solver.
  - exists D. split; [|done]. unfold get_stakes. eapply does_bind; [apply does_holders_load|exact Hdo].
Qed.

(** The sum of all of them is the total. *)
Lemma stakes_sum (L : ledger) (D : gmap Address N) :
  inv L → (∀ a, D !! a = if decide (a ∈ (lg_holders L).*1) then Some (stake_of L a) else None) →
  sum_with snd (map_to_list D) = total_stake L.
Proof.
  intros HL HD. pose proof (wf_holders L (inv_wf L HL)) as [Hm Hd].
  assert (map_to_list D ≡ₚ (λ a, (a, stake_of L a)) <$> filter (λ a, 0 < stake_of L a) accounts) as Hp.
  { apply NoDup_Permutation.
    - apply NoDup_map_to_list.
    - apply NoDup_fmap_2_strong; [naive_solver|]. apply NoDup_filter, accounts_nodup.
    - intros [a n]. split.
      + intros Hin%elem_of_map_to_list. rewrite HD in Hin. case_decide as Ha; [|done]. injection Hin as <-.
        apply list_elem_of_fmap. exists a. split; [done|].
        assert (a ∈ accounts) as Hacc.
        { apply list_elem_of_fmap in Ha as ([k x] & -> & Hin). by apply Hd in Hin as [? _]. }
        apply list_elem_of_filter. split; [|done]. by apply (inv_holders L HL).
      + intros (b & [= -> ->] & [Hb Hacc]%list_elem_of_filter)%list_elem_of_fmap.
        apply elem_of_map_to_list. rewrite HD, decide_True; [done|]. by apply (inv_holders L HL). }
  rewrite (sum_with_perm _ _ _ Hp), sum_with_fmap. unfold total_stake. clear.
  induction accounts as [|a l IH]; [done|]. rewrite filter_cons. case_decide; rewrite !sum_with_cons; [by rewrite IH|].
  rewrite IH. lia.
Qed.

Lemma total_stakes_exact (L : ledger) (D : gmap Address N) :
  inv L → (∀ a, D !! a = if decide (a ∈ (lg_holders L).*1) then Some (stake_of L a) else None) →
  total_stakes D = total_stake L.
Proof.
  intros HL HD. pose proof (stakes_sum L D HL HD) as Hs. unfold total_stakes.
  assert (sum_with id (map_to_list D).*2 = total_stake L) as Hs' by by rewrite sum_with_fmap.
  rewrite foldl_u64_add; rewrite Hs'; [lia|]. apply (inv_stake L HL).
Qed.

(** Who signed, and with what stakes: each signature counts. *)
Definition signer (digest : H256) (sig : Signature) : option Address :=
  match recover_ecdsa sig digest with Ok pub => Some (public_to_address pub) | _ => None end.
Definition signed_stake (L : ledger) (digest : H256) (sigs : list Signature) : N :=
  sum_with (λ sig, from_option (stake_of L) 0 (signer digest sig)) sigs.
Definition signed_by_holders (L : ledger) (digest : H256) (sigs : list Signature) : Prop :=
  ∀ sig a, sig ∈ sigs → signer digest sig = Some a → a ∈ (lg_holders L).*1.

Lemma does_count_signatures (L : ledger) (D : gmap Address N) digest sigs sum L1 :
  (∀ a, D !! a = if decide (a ∈ (lg_holders L).*1) then Some (stake_of L a) else None) →
  (∀ sig, sig ∈ sigs → is_Some (signer digest sig)) → sum + signed_stake L digest sigs < u64_size →
  let count := for_fold (λ sum signature,
    public ← lift_st (unwrap (recover_ecdsa signature digest));
    let address := public_to_address public in
    match D !! address with
    | Some stake => mret (u64_add sum stake)
    | None => stake_throw (RuntimeError.SignatureOfInvalidAccount address)
    end) sum sigs in
  (signed_by_holders L digest sigs ∧ does count L1 (Ok (sum + signed_stake L digest sigs)) L1) ∨
  (¬ signed_by_holders L digest sigs ∧ ∃ e, does count L1 (Err e) L1).
Proof.
  intros HD Hsigs. revert sum. induction sigs as [|sig sigs IH]; intros sum Hs; cbv zeta.
  { left. split; [by intros ? ? ?%elem_of_nil|]. unfold signed_stake. rewrite sum_with_nil, N.add_0_r. apply does_ret. }
  destruct (Hsigs sig (list_elem_of_here _ _)) as [a Ha]. unfold signer in Ha.
  destruct (recover_ecdsa sig digest) as [pub| |] eqn:Hrec; [|done..]. injection Ha as Ha.
  unfold signed_stake in Hs. rewrite sum_with_cons in Hs. fold (signed_stake L digest sigs) in Hs.
  assert (signer digest sig = Some a) as Hsigner by (unfold signer; by rewrite Hrec, Ha).
  rewrite Hsigner in Hs. simpl in Hs.
  cbn [for_fold]. rewrite Hrec. cbn [unwrap].
  destruct (decide (a ∈ (lg_holders L).*1)) as [Hin|Hout].
  - specialize (IH ltac:(intros; apply Hsigs; by right) (sum + stake_of L a) ltac:(lia)).
    assert (signed_by_holders L digest (sig :: sigs) ↔ signed_by_holders L digest sigs) as Hiff.
    { unfold signed_by_holders. setoid_rewrite elem_of_cons. split; [eauto|].
      intros Hall sg b [->|Hsg] Hb; [|eauto]. congruence. }
    rewrite Hiff. unfold signed_stake. rewrite sum_with_cons, Hsigner, N.add_assoc. simpl.
    fold (signed_stake L digest sigs).
    destruct IH as [[Hall Hdo]|[Hnot [e Hdo]]]; [left; split; [done|]|right; split; [done|]; exists e];
      (eapply does_bind; [eapply does_bind; [apply does_lift|]|exact Hdo]);
      cbv zeta; rewrite Ha, HD, decide_True, u64_add_small by (done || lia); apply does_ret.
  - right. split; [intros Hall; destruct Hout; apply (Hall sig a); [left|done]|]. eexists.
    eapply does_bind_err. eapply does_bind; [apply does_lift|]. cbv zeta. rewrite Ha, HD, decide_False by done.
    apply does_throw.
Qed.

Definition new_params (L : ledger) (md : Metadata) (params : CommonParams) : ledger :=
  set_meta L (Metadata_increase_seq (set_params_metadata params md)).

Lemma set_meta_keeps L md md' :
  inv L → lg_metadata L = Some md → md_current_term_id md' = md_current_term_id md → keeps L (set_meta L md').
Proof.
  intros [[Hwf Hs Hc Hh Hca Hj Hd] Hpu Hv] Hmd Ht. split; [|done]. split; [split| |]; try done.
  - by apply wf_set_meta.
  - intros md0 [= <-]. rewrite Ht. by apply Hpu.
Qed.

(** [change_params] succeeds when the metadata is as the signers saw it and the stakes of the
    signatures are more than half; otherwise it reports an error. *)
Lemma does_change_params L md n params sigs :
  let digest := change_params_digest (M := M) n params in
  inv L → lg_metadata L = Some md → (∀ sig, sig ∈ sigs → is_Some (signer digest sig)) →
  signed_stake L digest sigs < u64_size →
  (md_seq md = n ∧ signed_by_holders L digest sigs ∧ total_stake L / 2 < signed_stake L digest sigs ∧
     does (change_params (M := M) n params sigs) L (Ok tt) (new_params L md params)) ∨
  (¬ (md_seq md = n ∧ signed_by_holders L digest sigs ∧ total_stake L / 2 < signed_stake L digest sigs) ∧
     ∃ e L', does (change_params (M := M) n params sigs) L (Err e) L' ∧ (L' = L ∨ L' = new_params L md params)).
Proof.
  intros digest HL Hmd Hsigs Hfit. unfold change_params.
  destruct (decide (md_seq md = n)) as [Hn|Hn].
  2:{ right. split; [tauto|]. eexists _, L. split; [|by left]. by eapply does_bind_err, does_update_params_fails. }
  set (L1 := new_params L md params).
  assert (inv L1) as HL1 by (by apply (set_meta_keeps L md)).
  destruct (does_get_stakes L1 HL1) as (D & HdoD & HD).
  pose proof (total_stakes_exact L1 D HL1 HD) as Htotal. change (total_stake L1) with (total_stake L) in Htotal.
  destruct (does_count_signatures L D digest sigs 0 L1 HD Hsigs Hfit) as [[Hall Hdo]|[Hnot [e Hdo]]].
  2:{ right. split; [tauto|]. exists e, L1. split; [|by right].
      eapply does_bind; [by apply does_update_params|]. eapply does_bind; [exact HdoD|].
      eapply does_bind_err, Hdo. }
  rewrite N.add_0_l in Hdo. destruct (N.le_gt_cases (signed_stake L digest sigs) (total_stake L / 2)) as [Hle|Hgt].
  - right. split; [lia|]. eexists _, L1. split; [|by right].
    eapply does_bind; [by apply does_update_params|]. eapply does_bind; [exact HdoD|].
    eapply does_bind; [exact Hdo|]. cbv zeta. rewrite Htotal. apply N.leb_le in Hle as ->. apply does_throw.
  - left. split_and!; [done..|].
    eapply does_bind; [by apply does_update_params|]. eapply does_bind; [exact HdoD|].
    eapply does_bind; [exact Hdo|]. cbv zeta. rewrite Htotal. apply N.leb_gt in Hgt as ->. apply does_ret.
Qed.

(** * The calls of the engine *)

Lemma set_rewards_keeps L r :
  inv L → reward_wf (ir_previous r) → reward_wf (ir_current r) → keeps L (set_rewards L r).
Proof.
  intros [[Hwf Hs Hc Hh Hca Hj Hd] Hpu Hv] Hp Hcu. split; [|done]. split; [split| |]; try done.
  by apply wf_set_rewards.
Qed.

Lemma entry_add_wf m a n : reward_wf m → a ∈ accounts → reward_wf (entry_add m a n).
Proof. intros Hm Ha. apply amap_wf_insert; [done..|]. by apply N.mod_lt. Qed.

Lemma nil_wf : reward_wf ([] : amap N).
Proof. split; [constructor|]. by intros k x ?%elem_of_nil. Qed.

Lemma does_add_reward L a n :
  inv L → a ∈ accounts →
  let L' := set_rewards L (ir_add_quantity (lg_rewards L) a n) in
  does (add_intermediate_rewards a n) L (Ok tt) L' ∧ keeps L L'.
Proof.
  intros HL Ha L'. destruct (wf_rewards L (inv_wf L HL)) as [Hp Hc].
  assert (reward_wf (ir_previous (ir_add_quantity (lg_rewards L) a n)) ∧
          reward_wf (ir_current (ir_add_quantity (lg_rewards L) a n))) as [Hp' Hc'].
  { unfold ir_add_quantity. case_match; [done|]. split; [done|by apply entry_add_wf]. }
  split; [|by apply set_rewards_keeps].
  eapply does_bind; [apply does_rewards_load|by apply does_rewards_save].
Qed.

Lemma does_drain L :
  inv L →
  let L' := set_rewards L {| ir_previous := []; ir_current := ir_current (lg_rewards L) |} in
  does drain_previous_rewards L (Ok (ir_previous (lg_rewards L))) L' ∧ keeps L L'.
Proof.
  intros HL L'. destruct (wf_rewards L (inv_wf L HL)) as [Hp Hc]. split.
  - eapply does_bind; [apply does_rewards_load|].
    cbn [drain_previous]. eapply does_bind; [apply does_rewards_save; [apply nil_wf|exact Hc]|apply does_ret].
  - apply set_rewards_keeps; [done|apply nil_wf|done].
Qed.

Lemma does_move L :
  inv L → ir_previous (lg_rewards L) = [] →
  let L' := set_rewards L {| ir_previous := ir_current (lg_rewards L); ir_current := [] |} in
  does move_current_to_previous_intermediate_rewards L (Ok tt) L' ∧ keeps L L'.
Proof.
  intros HL Hnil L'. destruct (wf_rewards L (inv_wf L HL)) as [_ Hc]. split.
  - eapply does_bind; [apply does_rewards_load|]. unfold move_current_to_previous. rewrite Hnil.
    eapply does_bind; [eapply does_bind; [apply does_lift|apply does_ret]|].
    apply does_rewards_save; [exact Hc|apply nil_wf].
  - apply set_rewards_keeps; [done|done|apply nil_wf].
Qed.

(** What reports no error is handled. *)
Lemma handled_ok m L L' : does m L (Ok tt) L' → keeps L L' → term_of L' = term_of L → handled m L.
Proof. intros Hdo Hk Ht. exists (Ok tt), L'. split_and!; [done..|by left]. Qed.

Lemma add_reward_handled L a n : inv L → a ∈ accounts → handled (add_intermediate_rewards a n) L.
Proof. intros HL Ha. destruct (does_add_reward L a n HL Ha) as [Hdo Hk]. by eapply handled_ok. Qed.

Lemma drain_rewards_handled L : inv L → handled (_ ← drain_previous_rewards; mret tt) L.
Proof.
  intros HL. destruct (does_drain L HL) as [Hdo Hk].
  eapply handled_ok; [eapply does_bind; [exact Hdo|apply does_ret]|exact Hk|done].
Qed.

Lemma move_rewards_handled L :
  inv L → ir_previous (lg_rewards L) = [] → handled move_current_to_previous_intermediate_rewards L.
Proof. intros HL Hnil. destruct (does_move L HL Hnil) as [Hdo Hk]. by eapply handled_ok. Qed.

(** ** Weights *)

(** The same validators, with other weights, in another order. *)
Record reweighed (vs vs' : list Validator) : Prop := {
  rw_wf : Forall validator_wf vs → Forall validator_wf vs';
  rw_keys : va_pubkey <$> vs' ≡ₚ va_pubkey <$> vs;
}.

Lemma reweighed_trans vs vs1 vs2 : reweighed vs vs1 → reweighed vs1 vs2 → reweighed vs vs2.
Proof. intros [Hw1 Hk1] [Hw2 Hk2]. split; [auto|]. by rewrite Hk2. Qed.
Lemma reweighed_perm vs vs' : vs' ≡ₚ vs → reweighed vs vs'.
Proof. intros Hp. split; by rewrite Hp. Qed.

Lemma reweighed_map (f : Validator → Validator) vs :
  (∀ v, va_pubkey (f v) = va_pubkey v) → (∀ v, validator_wf v → validator_wf (f v)) → reweighed vs (f <$> vs).
Proof.
  intros Hk Hw. split.
  - intros Hvs. apply Forall_fmap. eapply Forall_impl; [exact Hvs|]. auto.
  - rewrite <-list_fmap_compose. erewrite list_fmap_ext; [done|]. intros. apply Hk.
Qed.

Lemma lighter_wf v w : validator_wf v → w ≤ va_weight v → validator_wf (set_weight v w).
Proof.
  intros [(Hw1 & Hw2 & Hw3 & Hw4) Ha] Hw. split; [|done]. repeat split; try done.
  change (va_weight v < u64_size) in Hw1. change (w < u64_size). lia.
Qed.

Lemma reduce_weights_reweighed m author vs : reweighed vs (reduce_weights m author vs).
Proof.
  induction vs as [|v vs [IHw IHk]]; [done|]. cbn [reduce_weights]. case_bool_decide; split; cbn [fmap list_fmap].
  - intros [Hv Hvs]%Forall_cons. constructor; [apply lighter_wf; [done|apply N.le_sub_l]|done].
  - done.
  - intros [Hv Hvs]%Forall_cons. constructor; [apply lighter_wf; [done|apply N.le_sub_l]|auto].
  - by constructor.
Qed.

Lemma update_weight_ok vs author :
  vs ≠ [] → ∃ vs', update_weight vs author = Ok vs' ∧ reweighed vs vs'.
Proof.
  intros Hne. unfold update_weight. assert (∃ m, min_delegation vs = Ok m) as [m ->].
  { unfold min_delegation. destruct vs; [done|]. rewrite fmap_cons. eauto. }
  eexists. split; [done|]. eapply reweighed_trans; [|apply reweighed_perm, stable_sort_perm].
  assert (reweighed vs (reverse (reduce_weights m author (reverse vs)))) as Hr.
  { eapply reweighed_trans; [|apply reweighed_perm, reverse_Permutation].
    eapply reweighed_trans; [apply reweighed_perm, reverse_Permutation|apply reduce_weights_reweighed]. }
  cbv zeta. case_match; [|done]. eapply reweighed_trans; [exact Hr|]. apply reweighed_map; [done|].
  intros v [(Hw1 & Hw2 & Hw3 & Hw4) Ha]. split; [|done]. by repeat split.
Qed.

Lemma does_weights L author :
  inv L → lg_validators L ≠ [] →
  ∃ vs', does (update_validator_weights author) L (Ok tt) (set_validators L vs') ∧
    keeps L (set_validators L vs') ∧ reweighed (lg_validators L) vs'.
Proof.
  intros HL Hne. destruct (update_weight_ok (lg_validators L) author Hne) as (vs' & Hup & Hw & Hk).
  destruct (wf_validators L (inv_wf L HL)) as [Hvw Hvn].
  assert (NoDup (va_address <$> vs')) as Hn.
  { assert (∀ vs : list Validator, va_address <$> vs = public_to_address <$> (va_pubkey <$> vs)) as Ha
      by (intros; by rewrite <-list_fmap_compose).
    rewrite Ha in Hvn |- *. by rewrite Hk. }
  exists vs'. split_and!; [| |done].
  - eapply does_bind; [apply does_validators_load|]. rewrite Hup. eapply does_bind; [apply does_lift|].
    by apply does_validators_save; auto.
  - destruct HL as [[Hwf Hs Hc Hh Hca Hj Hd] Hpu Hv]. split; [|done]. split; [split| |]; try done.
    + by apply wf_set_validators; auto.
    + simpl. intros v Hin. apply (list_elem_of_fmap_2 va_pubkey) in Hin. rewrite Hk in Hin.
      apply list_elem_of_fmap in Hin as (v' & -> & Hin). auto.
Qed.

Lemma weights_handled L author :
  inv L → lg_validators L ≠ [] → handled (update_validator_weights author) L.
Proof. intros HL Hne. destruct (does_weights L author HL Hne) as (vs' & Hdo & Hk & _). by eapply handled_ok. Qed.

(** * Actions *)

Context (block_hash : N → option H256) (validators_get : H256 → N → Public).

(** What [StakeAction_verify] does not see: who is in play. *)
Definition in_reach (L : ledger) (a : StakeAction M) (fee_payer : Address) (sender_public : Public) : Prop :=
  fee_payer ∈ accounts ∧
  match a with
  | TransferCCS to _ => to ∈ accounts ∧ fee_payer ≠ to
  | DelegateCCS _ _ | Revoke _ _ => True
  | SelfNominate deposit metadata =>
      deposit < u64_size ∧ len sender_public = 64 ∧ own_address (lg_candidates L) sender_public ∧
      ∃ md, lg_metadata L = Some md ∧
        md_current_term_id md + from_option cp_nomination_expiration DEFAULT_NOMINATION_EXPIRATION (md_params md)
          < u64_size
  | ChangeParams n params sigs =>
      (∃ md, lg_metadata L = Some md) ∧
      signed_stake L (change_params_digest (M := M) n params) sigs < u64_size
  | ReportDoubleVote m _ =>
      public_to_address sender_public ∈ accounts ∧ msg_height m < u64_size ∧
      ∀ h, block_hash (msg_height m - 1) = Some h →
        public_to_address (validators_get h (msg_signer_index m)) ∈ accounts
  end.

(** The handler returns and the books are kept, also where it reports an error. *)
Definition goes (m : stM S StateError.t ()) (L : ledger) : Prop :=
  ∃ r L', does m L r L' ∧ keeps L L' ∧ term_of L' = term_of L ∧ r ≠ Panic.

Lemma handled_goes m L : handled m L → goes m L.
Proof. intros (r & L' & Hdo & Hk & Ht & Hr). exists r, L'. split_and!; [done..|]. by destruct Hr as [->|(e & -> & _)]. Qed.

Lemma goes_ok m L L' : does m L (Ok tt) L' → keeps L L' → term_of L' = term_of L → goes m L.
Proof. intros Hdo Hk Ht. by exists (Ok tt), L'. Qed.

Lemma recovered digest sigs :
  fold_res (λ _ signature, _ ← map_err CannotDecodeSignature (recover_ecdsa signature digest); Ok tt) tt sigs
    = Ok tt → ∀ sig, sig ∈ sigs → is_Some (signer digest sig).
Proof.
  induction sigs as [|x sigs IH]; [by intros _ sig ?%elem_of_nil|]. cbn [fold_res]. unfold signer at 1.
  intros Hf sig [->|Hin]%elem_of_cons; destruct (recover_ecdsa x digest); try done. by apply IH.
Qed.

Lemma verified_signatures n params sigs current :
  StakeAction_verify block_hash validators_get (ChangeParams n params sigs) current = Ok tt →
  ∀ sig, sig ∈ sigs → is_Some (signer (change_params_digest (M := M) n params) sig).
Proof. intros Hv. cbn [StakeAction_verify] in Hv. inv_ok. by apply recovered. Qed.

Lemma verified_height m1 m2 current :
  StakeAction_verify block_hash validators_get (ReportDoubleVote m1 m2) current = Ok tt →
  msg_height m1 ≠ 0 ∧ is_Some (block_hash (msg_height m1 - 1)).
Proof.
  intros Hv. cbn [StakeAction_verify] in Hv. inv_ok.
  destruct (N.eqb_spec (msg_height m1) 0); [done|]. split; [done|].
  by destruct (block_hash (msg_height m1 - 1)).
Qed.

Lemma transfer_handled L from to q :
  inv L → from ∈ accounts → to ∈ accounts → from ≠ to → handled (transfer_ccs from to q) L.
Proof.
  intros HL Hf Ht Hne. destruct (N.le_gt_cases q (lg_balance L from)).
  - exists (Ok tt), (transferred L from to q). split_and!; [|by apply transfer_keeps|done|by left].
    apply does_transfer; [done..|]. by apply (transfer_fits L from to q).
  - eapply handled_throw; [done|by apply does_transfer_fails].
Qed.

Lemma delegate_handled L a b q : inv L → a ∈ accounts → handled (delegate_ccs a b q) L.
Proof.
  intros HL Ha. destruct (decide (b ∈ ca_address <$> lg_candidates L)).
  2:{ eapply handled_throw; [done|by apply does_delegate_nobody]. }
  destruct (N.le_gt_cases q (lg_balance L a)).
  - destruct (delegate_ok L a b q) as [Hdo Hk]; [done..|]. eexists _, _. split_and!; [exact Hdo|done|done|by left].
  - eapply handled_throw; [done|by apply delegate_fails].
Qed.

Lemma revoke_handled L a b q : inv L → a ∈ accounts → handled (revoke a b q) L.
Proof.
  intros HL Ha. destruct (N.le_gt_cases q (default 0 (bt_get (lg_delegation L a) b))).
  - destruct (revoke_ok L a b q) as [Hdo Hk]; [done..|]. eexists _, _. split_and!; [exact Hdo|done|done|by left].
  - eapply handled_throw; [done|by apply revoke_fails].
Qed.

Lemma change_params_goes L md n params sigs :
  let digest := change_params_digest (M := M) n params in
  inv L → lg_metadata L = Some md → (∀ sig, sig ∈ sigs → is_Some (signer digest sig)) →
  signed_stake L digest sigs < u64_size → goes (change_params (M := M) n params sigs) L.
Proof.
  intros digest HL Hmd Hsigs Hfit.
  assert (keeps L (new_params L md params)) as Hk by (by eapply set_meta_keeps).
  assert (term_of (new_params L md params) = term_of L) as Ht by (unfold term_of; by rewrite Hmd).
  destruct (does_change_params L md n params sigs HL Hmd Hsigs Hfit)
    as [(_ & _ & _ & Hdo)|(_ & e & L' & Hdo & [->| ->])]; [by eapply goes_ok|by exists (Err e), L|].
  by exists (Err e), (new_params L md params).
Qed.

Lemma does_lift_bind {A B} (x : A) (f : A → stM S StateError.t B) L r L' :
  does (f x) L r L' → does (lift_st (Ok x) ≫= f) L r L'.
Proof. intros Hf. eapply does_bind; [apply does_lift|done]. Qed.

Lemma goes_lift {A} (x : A) (f : A → stM S StateError.t ()) L :
  goes (f x) L → goes (lift_st (Ok x) ≫= f) L.
Proof. intros (r & L' & Hdo & Hrest). exists r, L'. split; [by apply does_lift_bind|done]. Qed.

Lemma nominate_goes L md fee_payer pub deposit metadata :
  let ends := u64_add (md_current_term_id md)
    match md_params md with Some p => cp_nomination_expiration p | None => DEFAULT_NOMINATION_EXPIRATION end in
  inv L → lg_metadata L = Some md → fee_payer ∈ accounts → deposit < u64_size → len pub = 64 →
  own_address (lg_candidates L) pub → len metadata ≤ max_meta →
  md_current_term_id md + from_option cp_nomination_expiration DEFAULT_NOMINATION_EXPIRATION (md_params md)
    < u64_size →
  goes (self_nominate fee_payer pub deposit (md_current_term_id md) ends metadata) L.
Proof.
  intros ends HL Hmd Hfp Hd Hp Hown Hm Hterm. apply handled_goes, nominate_handled; [done| |done].
  intros Ha. subst ends. replace (match md_params md with Some p => _ | None => _ end) with
    (from_option cp_nomination_expiration DEFAULT_NOMINATION_EXPIRATION (md_params md)) by by destruct (md_params md).
  rewrite u64_add_small by done. split; [by rewrite Ha|done..| |done].
  intros md' Hmd'. rewrite Hmd in Hmd'. injection Hmd' as <-. lia.
Qed.

(** An action that passed the check: the handler returns, and keeps the books. *)
Lemma execute_goes L current bs a fee_payer sender_public :
  inv L → StakeAction_decode (M := M) bs = Ok a →
  StakeAction_verify block_hash validators_get a current = Ok tt →
  cp_max_candidate_metadata_size current ≤ max_meta → in_reach L a fee_payer sender_public →
  goes (stake_execute (M := M) block_hash validators_get bs fee_payer sender_public) L.
Proof.
  intros HL Hdec Hv Hmm [Hfp Hreach]. unfold stake_execute. rewrite Hdec. cbn [unwrap]. apply goes_lift.
  destruct a as [to q|to q|to q|deposit metadata|n params sigs|m1 m2]; simpl in Hreach.
  - destruct Hreach. apply handled_goes. by apply transfer_handled.
  - apply handled_goes. by apply delegate_handled.
  - apply handled_goes. by apply revoke_handled.
  - destruct Hreach as (Hd & Hp & Hown & md & Hmd & Hterm).
    destruct (nominate_goes L md fee_payer sender_public deposit metadata) as (r & L' & Hdo & Hrest); try done.
    { cbn [StakeAction_verify] in Hv. inv_ok.
      match goal with Hn : negb _ = true |- _ => apply negb_true_iff, N.ltb_ge in Hn end. lia. }
    exists r, L'. split; [|done]. eapply does_bind; [apply does_metadata|]. rewrite Hmd. by apply does_lift_bind.
  - destruct Hreach as [[md Hmd] Hfit]. eapply change_params_goes; [done..| |done].
    by eapply verified_signatures.
  - destruct Hreach as (Hs & Hh & Hacc). destruct (verified_height _ _ _ Hv) as [Hnz [h Hbh]].
    assert (u64_sub (msg_height m1) 1 = msg_height m1 - 1) as ->.
    { unfold u64_sub. change (1 mod u64_size) with 1.
      replace (msg_height m1 + u64_size - 1) with (msg_height m1 - 1 + 1 * u64_size) by lia.
      rewrite N.Div0.mod_add. apply N.mod_small. lia. }
    rewrite Hbh. apply goes_lift. apply handled_goes, ban_handled; auto.
Qed.

(** * Runs *)

(** The calls that change the data of the contract. *)
Inductive stake_op :=
| Execute (bs : bytes) (fee_payer : Address) (sender_public : Public) (current : CommonParams)
| CloseTerm (block : N) (inactive : list Address)
| UpdateWeights (author : Address)
| AddReward (address : Address) (reward : N)
| DrainRewards
| MoveRewards.

Definition run_op (op : stake_op) : stM S StateError.t () :=
  match op with
  | Execute bs fee_payer sender_public _ =>
      stake_execute (M := M) block_hash validators_get bs fee_payer sender_public
  | CloseTerm block inactive => on_term_close block inactive
  | UpdateWeights author => update_validator_weights author
  | AddReward address reward => add_intermediate_rewards address reward
  | DrainRewards => _ ← drain_previous_rewards; mret tt
  | MoveRewards => move_current_to_previous_intermediate_rewards
  end.

(** When the engine makes the call: an action has passed the check with the current parameters,
    weights are updated when there are validators, and so on. *)
Definition op_ok (L : ledger) (op : stake_op) : Prop :=
  match op with
  | Execute bs fee_payer sender_public current =>
      cp_max_candidate_metadata_size current ≤ max_meta ∧
      ∃ a, StakeAction_decode (M := M) bs = Ok a ∧
        StakeAction_verify block_hash validators_get a current = Ok tt ∧
        in_reach L a fee_payer sender_public
  | CloseTerm block inactive => ∃ md p, closing L block inactive md p
  | UpdateWeights _ => lg_validators L ≠ []
  | AddReward address _ => address ∈ accounts
  | DrainRewards => True
  | MoveRewards => ir_previous (lg_rewards L) = []
  end.

Definition closes (op : stake_op) : N := match op with CloseTerm _ _ => 1 | _ => 0 end.

Fixpoint run_ops (ops : list stake_op) (s : S) : S :=
  match ops with
  | [] => s
  | op :: ops => run_ops ops (run_op op s).2
  end.

(** Each call is one the engine makes, in the state it is made in. *)
Fixpoint run_ok (ops : list stake_op) (s : S) : Prop :=
  match ops with
  | [] => True
  | op :: ops => (∀ L, st s L → op_ok L op) ∧ run_ok ops (run_op op s).2
  end.

Lemma op_goes L op :
  inv L → op_ok L op →
  ∃ r L', does (run_op op) L r L' ∧ keeps L L' ∧ r ≠ Panic ∧ term_of L' = N.add (closes op) <$> term_of L.
Proof.
  intros HL Hop.
  assert (goes (run_op op) L → closes op = 0 → ∃ r L', does (run_op op) L r L' ∧ keeps L L' ∧ r ≠ Panic ∧
    term_of L' = N.add (closes op) <$> term_of L) as Hgo.
  { intros (r & L' & Hdo & Hk & Ht & Hr) ->. exists r, L'. split_and!; [done..|]. rewrite Ht.
    by destruct (term_of L). }
  destruct op as [bs fee_payer sender_public current|block inactive|author|a n| |]; simpl in Hop.
  - destruct Hop as (Hmm & a & Hdec & Hv & Hreach). apply Hgo; [|done]. by eapply execute_goes.
  - destruct Hop as (md & p & Hcl). destruct (term_close_ok L md p block inactive HL Hcl) as (L' & Hdo & [Hk _ Ht _ _ _ _]).
    exists (Ok tt), L'. split_and!; [done..|]. destruct Ht as (md' & Hmd' & Ht). unfold term_of.
    rewrite Hmd', (cl_metadata _ _ _ _ _ Hcl). simpl. rewrite Ht. f_equal. lia.
  - apply Hgo; [|done]. by apply handled_goes, weights_handled.
  - apply Hgo; [|done]. by apply handled_goes, add_reward_handled.
  - apply Hgo; [|done]. by apply handled_goes, drain_rewards_handled.
  - apply Hgo; [|done]. by apply handled_goes, move_rewards_handled.
Qed.

Lemma run_keeps_books ops s L :
  st s L → inv L → run_ok ops s →
  ∃ L', st (run_ops ops s) L' ∧ keeps L L' ∧ term_of L' = N.add (sum_with closes ops) <$> term_of L.
Proof.
  revert s L. induction ops as [|op ops IH]; intros s L Hs HL Hok.
  - exists L. split_and!; [done|by apply keeps_refl|]. by destruct (term_of L).
  - destruct Hok as [Hop Hok]. destruct (op_goes L op HL (Hop L Hs)) as (r & L1 & Hdo & (HL1 & Hs1 & Hc1) & _ & Ht1).
    destruct (Hdo s Hs) as [_ Hst]. destruct (IH _ L1 Hst HL1 Hok) as (L' & Hst' & (HL' & Hs' & Hc') & Ht').
    exists L'. split_and!; [done|split; [done|by rewrite Hs', Hc']|]. rewrite Ht', Ht1, sum_with_cons.
    destruct (term_of L); simpl; [f_equal; lia|done].
Qed.
End Run.
