(* ===== verification/StakeTop.v ===== *)
(** The top-level state (TopState.v) keeps what the staking contract relies on
    ([StakeStateLaws] of StakeLedger.v), when the database answers. *)
From stdpp Require Import base gmap list numbers.
From Stdlib Require Import NArith Lia.
From S2P Require Import Prelude Types Crypto Vm Params StateCache StateItems ShardState TopState TopPay.
From S2P Require Import StakeData StakeLedger.

Local Open Scope N_scope.

Section StakeTop.
Context `{Crypto} `{Primitives} (env : TopEnv).

(** The calls of the contract, on the top-level state. *)
#[local] Instance top_stake : StakeState TopLevel := {|
  ss_action_data := action_data env;
  ss_update_action_data := update_action_data env;
  ss_remove_action_data := remove_action_data;
  ss_add_balance := add_balance env;
  ss_sub_balance := sub_balance env;
  ss_metadata := metadata env;
  ss_update_params := update_params env;
  ss_increase_term_id := increase_term_id env;
|}.

(** No entry of the state trie is missing. *)
Record db_answers : Prop := {
  da_account a : ∃ o, te_db_account env a = Ok o;
  da_metadata a : ∃ o, te_db_metadata env a = Ok o;
  da_action_data a : ∃ o, te_db_action_data env a = Ok o;
}.

Context (Hdb : db_answers).

Local Abbreviation tsnap s v ws := (top_snap env (tl_top_cache s) v ws).

Definition view_account (v : TopView) (f : bytes → option Account) : TopView :=
  {| tv_account := f; tv_regular_account := tv_regular_account v; tv_metadata := tv_metadata v;
     tv_shard := tv_shard v; tv_text := tv_text v; tv_action_data := tv_action_data v |}.
Definition view_metadata (v : TopView) (f : bytes → option Metadata) : TopView :=
  {| tv_account := tv_account v; tv_regular_account := tv_regular_account v; tv_metadata := f;
     tv_shard := tv_shard v; tv_text := tv_text v; tv_action_data := tv_action_data v |}.
Definition view_action_data (v : TopView) (f : bytes → option ActionData) : TopView :=
  {| tv_account := tv_account v; tv_regular_account := tv_regular_account v; tv_metadata := tv_metadata v;
     tv_shard := tv_shard v; tv_text := tv_text v; tv_action_data := f |}.

(** A read, and a change through a reference, of one cache over a database that answers. *)
Lemma get_answers {Item} (db : bytes → result TrieError.t (option Item)) a wb v saved :
  (∃ o, db a = Ok o) → snapshots db wb v saved →
  ∃ wb', with_trie_error (wb_get a db) wb = (Ok (v a), wb') ∧ snapshots db wb' v saved.
Proof.
  intros [o Ho] Hs. pose proof (snapshots_get db wb v saved a Hs) as Hg. unfold with_trie_error.
  destruct (wb_get a db wb) as [[x|e|] wb']; [|by destruct Hg; congruence..].
  destruct Hg as [-> Hs']. by exists wb'.
Qed.

Lemma mut_answers {Item B} (db : bytes → result TrieError.t (option Item)) d a (f : stM Item StateError.t B)
    wb v saved :
  (∃ o, db a = Ok o) → snapshots db wb v saved →
  let x := default d (v a) in
  ∃ wb', wb_with_mut StateError.Trie d a db f wb = ((f x).1, wb') ∧
    snapshots db wb' (set_view a (Some (f x).2) v) saved.
Proof.
  intros [o Ho] Hs x. destruct (snapshots_with_mut db StateError.Trie d a f wb v saved Hs)
    as [(e & He & _)|[[He _]|[Hr Hs']]]; [congruence..|].
  destruct (wb_with_mut StateError.Trie d a db f wb) as [r wb']. exists wb'. simpl in *. by rewrite Hr.
Qed.

Ltac on_cache Hg := unfold on_top;
  destruct Hg as (c & Hc & Hs'); rewrite Hc; eexists; (split; [reflexivity|]); by split_and!.

Lemma account_answers a s v ws :
  tsnap s v ws → ∃ s', account env a s = (Ok (tv_account v a), s') ∧ tsnap s' v ws.
Proof.
  intros (Hs1 & Hs2 & Hs3 & Hs4 & Hs5 & Hs6). unfold account.
  pose proof (get_answers (te_db_account env) a _ _ _ (da_account Hdb a) Hs1) as Hg. on_cache Hg.
Qed.

Lemma metadata_answers s v ws :
  tsnap s v ws → ∃ s', metadata env s = (Ok (tv_metadata v MetadataAddress_new), s') ∧ tsnap s' v ws.
Proof.
  intros (Hs1 & Hs2 & Hs3 & Hs4 & Hs5 & Hs6). unfold metadata.
  pose proof (get_answers (te_db_metadata env) MetadataAddress_new _ _ _ (da_metadata Hdb _) Hs3) as Hg. on_cache Hg.
Qed.

Lemma action_data_answers a s v ws :
  tsnap s v ws → ∃ s', action_data env a s = (Ok (tv_action_data v a), s') ∧ tsnap s' v ws.
Proof.
  intros (Hs1 & Hs2 & Hs3 & Hs4 & Hs5 & Hs6). unfold action_data.
  pose proof (get_answers (te_db_action_data env) a _ _ _ (da_action_data Hdb a) Hs6) as Hg. on_cache Hg.
Qed.

Lemma account_mut_answers {B} a (f : stM Account StateError.t B) s v ws :
  tsnap s v ws →
  let x := default Account_default (tv_account v a) in
  ∃ s', with_account_mut env a f s = ((f x).1, s') ∧
    tsnap s' (view_account v (set_view a (Some (f x).2) (tv_account v))) ws.
Proof.
  intros (Hs1 & Hs2 & Hs3 & Hs4 & Hs5 & Hs6). unfold with_account_mut.
  pose proof (mut_answers (te_db_account env) Account_default a f _ _ _ (da_account Hdb a) Hs1) as Hg.
  on_cache Hg.
Qed.

Lemma metadata_mut_answers {B} (f : stM Metadata StateError.t B) s v ws :
  tsnap s v ws →
  let x := default Metadata_default (tv_metadata v MetadataAddress_new) in
  ∃ s', with_metadata_mut env f s = ((f x).1, s') ∧
    tsnap s' (view_metadata v (set_view MetadataAddress_new (Some (f x).2) (tv_metadata v))) ws.
Proof.
  intros (Hs1 & Hs2 & Hs3 & Hs4 & Hs5 & Hs6). unfold with_metadata_mut.
  pose proof (mut_answers (te_db_metadata env) Metadata_default MetadataAddress_new f _ _ _
    (da_metadata Hdb _) Hs3) as Hg. on_cache Hg.
Qed.

Lemma action_data_mut_answers {B} a (f : stM ActionData StateError.t B) s v ws :
  tsnap s v ws →
  let x := default ActionData_default (tv_action_data v a) in
  ∃ s', with_action_data_mut env a f s = ((f x).1, s') ∧
    tsnap s' (view_action_data v (set_view a (Some (f x).2) (tv_action_data v))) ws.
Proof.
  intros (Hs1 & Hs2 & Hs3 & Hs4 & Hs5 & Hs6). unfold with_action_data_mut.
  pose proof (mut_answers (te_db_action_data env) ActionData_default a f _ _ _ (da_action_data Hdb a) Hs6) as Hg.
  on_cache Hg.
Qed.

(** What the state shows to the contract. *)
Definition top_shows (s : TopLevel) (v : sview) : Prop :=
  ∃ tv ws, tsnap s tv ws ∧ (∀ k, tv_action_data tv k = sv_data v k) ∧
    (∀ a, bal tv a = sv_coin v a) ∧ tv_metadata tv MetadataAddress_new = sv_metadata v.

Lemma top_action_data s v k :
  top_shows s v → ∃ s', action_data env k s = (Ok (sv_data v k), s') ∧ top_shows s' v.
Proof.
  intros (tv & ws & Hs & Hd & Hc & Hm). destruct (action_data_answers k s tv ws Hs) as (s' & -> & Hs').
  exists s'. rewrite Hd. split; [done|]. by exists tv, ws.
Qed.

Lemma top_update_action_data s v k bs :
  top_shows s v → ∃ s', update_action_data env k bs s = (Ok tt, s') ∧ top_shows s' (with_data v k (Some bs)).
Proof.
  intros (tv & ws & Hs & Hd & Hc & Hm). destruct (action_data_mut_answers k (put_st bs) s tv ws Hs) as (s' & Hr & Hs').
  exists s'. split; [exact Hr|]. eexists _, ws. split; [exact Hs'|]. split; [|done].
  intros k'. simpl. unfold set_view. by case_decide.
Qed.

Lemma top_remove_action_data s v k :
  top_shows s v → ∃ s', remove_action_data k s = (Ok tt, s') ∧ top_shows s' (with_data v k None).
Proof.
  intros (tv & ws & (Hs1 & Hs2 & Hs3 & Hs4 & Hs5 & Hs6) & Hd & Hc & Hm).
  eexists. split; [reflexivity|]. exists (view_action_data tv (set_view k None (tv_action_data tv))), ws.
  split; [by split_and!; try done; apply snapshots_remove|]. split; [|done].
  intros k'. simpl. unfold set_view. by case_decide.
Qed.

Lemma top_metadata s v : top_shows s v → ∃ s', metadata env s = (Ok (sv_metadata v), s') ∧ top_shows s' v.
Proof.
  intros (tv & ws & Hs & Hd & Hc & Hm). destruct (metadata_answers s tv ws Hs) as (s' & -> & Hs').
  exists s'. rewrite Hm. split; [done|]. by exists tv, ws.
Qed.

(** Changing the balance of an account. *)
Lemma top_set_balance s v tv ws a x n :
  tsnap s (view_account tv (set_view a (Some x) (tv_account tv))) ws →
  (∀ k, tv_action_data tv k = sv_data v k) → (∀ a, bal tv a = sv_coin v a) →
  tv_metadata tv MetadataAddress_new = sv_metadata v → acc_balance x = n → top_shows s (with_coin v a n).
Proof.
  intros Hs Hd Hc Hm Hx. eexists _, ws. split; [exact Hs|]. split_and!; [done| |done].
  intros b. unfold bal. simpl. unfold set_view. case_decide; [done|]. apply Hc.
Qed.

Lemma top_shows_same_coin s v a n : n = sv_coin v a → top_shows s v → top_shows s (with_coin v a n).
Proof.
  intros -> (tv & ws & Hs & Hd & Hc & Hm). exists tv, ws. split_and!; try done.
  intros b. simpl. rewrite Hc. by case_decide; subst.
Qed.

Lemma top_add_balance s v a n :
  top_shows s v → sv_coin v a + n < u64_size →
  ∃ s', add_balance env a n s = (Ok tt, s') ∧ top_shows s' (with_coin v a (sv_coin v a + n)).
Proof.
  intros Hv Hn. unfold add_balance. destruct (N.eqb_spec n 0) as [->|Hnz]; cbn [negb].
  { exists s. split; [done|]. apply top_shows_same_coin; [lia|done]. }
  destruct Hv as (tv & ws & Hs & Hd & Hc & Hm).
  destruct (account_mut_answers a (modify_st (add_balance_account n)) s tv ws Hs) as (s' & -> & Hs').
  exists s'. split; [done|]. eapply top_set_balance; [exact Hs'|done..|].
  simpl. rewrite default_bal, Hc. unfold u64_add. by apply N.mod_small.
Qed.

Lemma top_balance s v a :
  top_shows s v → ∃ s', balance env a s = (Ok (sv_coin v a), s') ∧ top_shows s' v.
Proof.
  intros (tv & ws & Hs & Hd & Hc & Hm). unfold balance, mbind, stM_bind.
  destruct (account_answers a s tv ws Hs) as (s' & -> & Hs'). exists s'.
  split; [|by exists tv, ws]. rewrite <-Hc. unfold bal. done.
Qed.

Lemma top_sub_balance s v a n :
  top_shows s v → sv_coin v a < u64_size → n ≤ sv_coin v a →
  ∃ s', sub_balance env a n s = (Ok tt, s') ∧ top_shows s' (with_coin v a (sv_coin v a - n)).
Proof.
  intros Hv Hlt Hn. unfold sub_balance. destruct (N.eqb_spec n 0) as [->|Hnz].
  { exists s. split; [done|]. apply top_shows_same_coin; [lia|done]. }
  unfold mbind at 1, stM_bind. destruct (top_balance s v a Hv) as (s1 & -> & tv & ws & Hs & Hd & Hc & Hm).
  destruct (N.ltb_spec (sv_coin v a) n); [lia|].
  destruct (account_mut_answers a (λ x, match sub_balance_account n x with
    | Some x' => (Ok tt, x') | None => (Panic, x) end) s1 tv ws Hs) as (s' & -> & Hs').
  unfold sub_balance_account in *. rewrite default_bal, Hc in *.
  rewrite (proj2 (N.leb_le _ _)) in * by done. cbn [negb fst snd] in *.
  exists s'. split; [done|]. eapply top_set_balance; [exact Hs'|done..|].
  cbn [acc_balance]. by apply u64_sub_le.
Qed.

Lemma top_sub_balance_fails s v a n :
  top_shows s v → sv_coin v a < n →
  ∃ s', sub_balance env a n s =
          (Err (StateError.Runtime (RuntimeError.InsufficientBalance a (sv_coin v a) n)), s') ∧ top_shows s' v.
Proof.
  intros Hv Hn. unfold sub_balance. destruct (N.eqb_spec n 0) as [->|Hnz]; [lia|].
  unfold mbind at 1, stM_bind. destruct (top_balance s v a Hv) as (s1 & -> & Hv1).
  destruct (N.ltb_spec (sv_coin v a) n); [|lia]. by exists s1.
Qed.

Lemma top_set_metadata {B} (f : stM Metadata StateError.t B) s v m :
  top_shows s v → sv_metadata v = Some m →
  ∃ s', with_metadata_mut env f s = ((f m).1, s') ∧ top_shows s' (with_metadata v (f m).2).
Proof.
  intros (tv & ws & Hs & Hd & Hc & Hm) Hv. destruct (metadata_mut_answers f s tv ws Hs) as (s' & -> & Hs').
  rewrite Hm, Hv in *. exists s'. split; [done|]. eexists _, ws. split; [exact Hs'|].
  split_and!; [done..|]. simpl. by rewrite set_view_eq.
Qed.

(** The body of [update_params]. *)
Definition params_body (n : N) (params : CommonParams) : stM Metadata StateError.t () :=
  m ← get_st;
  if negb (md_seq m =? n) then throw_st (StateError.Runtime (RuntimeError.InvalidSeq (md_seq m) n))
  else _ ← modify_st (set_params_metadata params); modify_st Metadata_increase_seq.

Lemma top_update_params s v m n params :
  top_shows s v → sv_metadata v = Some m → md_seq m = n →
  ∃ s', update_params env n params s = (Ok tt, s') ∧
        top_shows s' (with_metadata v (Metadata_increase_seq (set_params_metadata params m))).
Proof.
  intros Hv Hm Hn. destruct (top_set_metadata (params_body n params) s v m Hv Hm) as (s' & Hr & Hs').
  assert (params_body n params m = (Ok tt, Metadata_increase_seq (set_params_metadata params m))) as Hb.
  { unfold params_body, mbind, stM_bind, get_st. by rewrite Hn, N.eqb_refl. }
  rewrite Hb in Hr, Hs'. by exists s'.
Qed.

Lemma top_update_params_fails s v m n params :
  top_shows s v → sv_metadata v = Some m → md_seq m ≠ n →
  ∃ s', update_params env n params s =
          (Err (StateError.Runtime (RuntimeError.InvalidSeq (md_seq m) n)), s') ∧ top_shows s' v.
Proof.
  intros Hv Hm Hn. destruct (top_set_metadata (params_body n params) s v m Hv Hm) as (s' & Hr & Hs').
  assert (params_body n params m = (Err (StateError.Runtime (RuntimeError.InvalidSeq (md_seq m) n)), m)) as Hb.
  { unfold params_body, mbind, stM_bind, get_st. by rewrite (proj2 (N.eqb_neq _ _) Hn). }
  rewrite Hb in Hr, Hs'. exists s'. split; [exact Hr|].
  destruct Hs' as (tv & ws & Hs & Hd & Hc & Hm'). exists tv, ws. split_and!; try done. by rewrite Hm', Hm.
Qed.

Lemma top_increase_term_id s v m m' n :
  top_shows s v → sv_metadata v = Some m → increase_term_id_metadata n m = Some m' →
  ∃ s', increase_term_id env n s = (Ok tt, s') ∧ top_shows s' (with_metadata v m').
Proof.
  intros Hv Hm Hi. destruct (top_set_metadata (λ m, match increase_term_id_metadata n m with
    | Some m' => (Ok tt, m') | None => (Panic, m) end) s v m Hv Hm) as (s' & Hr & Hs').
  rewrite Hi in Hr, Hs'. by exists s'.
Qed.

(** The state keeps the contract's side of the interface. *)
#[local] Instance top_stake_laws : StakeStateLaws TopLevel := {|
  ss_shows := top_shows;
  ss_action_data_law := top_action_data;
  ss_update_action_data_law := top_update_action_data;
  ss_remove_action_data_law := top_remove_action_data;
  ss_add_balance_law := top_add_balance;
  ss_sub_balance_law := top_sub_balance;
  ss_sub_balance_fails := top_sub_balance_fails;
  ss_metadata_law := top_metadata;
  ss_update_params_law := top_update_params;
  ss_update_params_fails := top_update_params_fails;
  ss_increase_term_id_law := top_increase_term_id;
|}.
End StakeTop.

(** * A state that holds a ledger *)

Section Holding.
Context `{CryptoLaws} `{Primitives} `{Accounts} (L : ledger).

(** The action data of a ledger, by key. *)
Definition ledger_data (k : bytes) : option bytes :=
  sl ← head (filter (λ sl, key_of sl = k) slots); slot_data L sl.

Lemma ledger_data_slot `{!InPlay} sl : sl ∈ slots → ledger_data (key_of sl) = slot_data L sl.
Proof.
  intros Hsl. unfold ledger_data. destruct (filter _ slots) as [|sl' rest] eqn:E; simpl.
  - assert (sl ∈ filter (λ sl', key_of sl' = key_of sl) slots) as Hin by by apply list_elem_of_filter.
    rewrite E in Hin. by apply elem_of_nil in Hin.
  - assert (sl' ∈ filter (λ sl', key_of sl' = key_of sl) slots) as [Hk Hin]%list_elem_of_filter
      by (rewrite E; left).
    by rewrite (key_of_inj sl' sl Hin Hsl Hk).
Qed.

(** A database that holds the ledger, and nothing else. *)
Definition ledger_env : TopEnv := {|
  te_db_account a := Ok (Some {| acc_balance := lg_coin L a; acc_seq := 0; acc_regular_key := None |});
  te_db_regular_account _ := Ok None;
  te_db_metadata _ := Ok (lg_metadata L);
  te_db_shard _ := Ok None;
  te_db_text _ := Ok None;
  te_db_action_data k := Ok (ledger_data k);
  te_contains _ := true;
  te_shard_env _ id := {| se_db_asset_scheme _ := Ok None; se_db_asset _ := Ok None; se_shard_id := id |};
|}.

Definition top_new : TopLevel :=
  {| tl_top_cache := TopCache_default; tl_shard_caches := ∅; tl_id_of_checkpoints := [] |}.

Lemma ledger_env_answers : db_answers ledger_env.
Proof. split; simpl; eauto. Qed.

#[local] Instance ledger_state : StakeState TopLevel := top_stake ledger_env.
#[local] Instance ledger_laws : StakeStateLaws TopLevel := top_stake_laws ledger_env ledger_env_answers.

Lemma ledger_held `{!InPlay} : lg_wf L → st top_new L.
Proof.
  intros Hwf. split; [done|].
  exists {| sv_data := ledger_data; sv_coin := lg_coin L; sv_metadata := lg_metadata L |}.
  split_and!; [|intros sl Hsl; by apply ledger_data_slot|done|done].
  exists {| tv_account := db_view (te_db_account ledger_env);
            tv_regular_account := db_view (te_db_regular_account ledger_env);
            tv_metadata := db_view (te_db_metadata ledger_env);
            tv_shard := db_view (te_db_shard ledger_env);
            tv_text := db_view (te_db_text ledger_env);
            tv_action_data := db_view (te_db_action_data ledger_env) |}, [].
  split; [by split_and!; apply snapshots_new|]. done.
Qed.
End Holding.
