(* ===== verification/StakeProps.v ===== *)
(** What the staking contract promises, over every state that keeps the interface
    [StakeStateLaws]: the books of any run, the end of a term, the way out of jail, changes of
    parameters, and three things it does not mean to do.  The top-level state is the concrete
    state of the examples. *)
From stdpp Require Import base gmap list numbers strings sorting.
From Stdlib Require Import NArith Lia.
From S2P Require Import Prelude Types Crypto Rlp RlpImpls Params StateCache StateItems ShardState TopState TopPay.
From S2P Require Import TrieNode TrieSpec BTree StakeData StakeAction Stake StakeLedger StakeSpec StakeTerm.
From S2P Require Import StakeClose StakeRun StakeTop.

Local Open Scope N_scope.

Section Props.
Context `{CryptoLaws} {S : Type} `{StakeState S} `{!StakeStateLaws S} `{Accounts} `{Hplay : !InPlay}.
Context {M : Type} `{Message M} (block_hash : N → option H256) (validators_get : H256 → N → Public).



(** C12: Jail is temporary.  Whatever happens meanwhile, once the term a prisoner is to be
    released at has been closed the jail does not have it: who is in jail is to be released in
    the current term or later. *)
Theorem jail_is_temporary (ops : list stake_op) (s : S) (L : ledger) (md : Metadata) (a : Address)
    (p : Prisoner) (jailed : amap Prisoner) :
  st s L → inv L → run_ok (M := M) block_hash validators_get ops s → lg_metadata L = Some md →
  (Jail_load (run_ops (M := M) block_hash validators_get ops s)).1 = Ok jailed →
  pr_released_at p < md_current_term_id md + sum_with closes ops →
  get_prisoner jailed a ≠ Some p.
Proof.
  intros Hs HL Hok Hmd Hjail Hlt Hp. destruct (run_keeps_books (M := M) block_hash validators_get ops s L Hs HL Hok)
    as (L' & Hs' & (HL' & _ & _) & Ht).
  destruct (does_jail_load L' _ Hs') as [Hj _]. rewrite Hjail in Hj. injection Hj as ->.
  unfold term_of in Ht. rewrite Hmd in Ht. destruct (lg_metadata L') as [md'|] eqn:Hmd'; [|done].
  injection Ht as Ht. apply bt_get_elem in Hp; [|apply (wf_jail L' (inv_wf L' HL'))].
  apply (proj2 (inv_punctual L' HL' md' Hmd')) in Hp. lia.
Qed.

(** New parameters are accepted exactly when the metadata has the sequence number that was
    signed, every signature is that of a stakeholder, and the stakes of the signatures, each
    counted, are more than half of all stakes. *)
Theorem change_params_exact (s : S) (L : ledger) (md : Metadata) (n : N) (params : CommonParams)
    (sigs : list Signature) :
  let digest := change_params_digest (M := M) n params in
  st s L → inv L → lg_metadata L = Some md → (∀ sig, sig ∈ sigs → is_Some (signer digest sig)) →
  signed_stake L digest sigs < u64_size →
  (change_params (M := M) n params sigs s).1 = Ok tt ↔
  md_seq md = n ∧ signed_by_holders L digest sigs ∧ total_stake L / 2 < signed_stake L digest sigs.
Proof.
  intros digest Hs HL Hmd Hsigs Hfit.
  destruct (does_change_params (M := M) L md n params sigs HL Hmd Hsigs Hfit)
    as [(Hn & Hh & Hst & Hdo)|(Hnot & e & L' & Hdo & _)]; destruct (Hdo s Hs) as [-> _]; [done|].
  split; [done|]. by intros ?%Hnot.
Qed.

(** C40: A transfer of stakes to oneself creates them: the account ends with its balance and the
    quantity it sent. *)
Theorem self_transfer_creates_stakes (s : S) (L : ledger) (a : Address) (q : N) :
  st s L → inv L → a ∈ accounts → q ≤ lg_balance L a → lg_balance L a + q < u64_size →
  ∃ s' L', transfer_ccs a a q s = (Ok tt, s') ∧ st s' L' ∧ total_stake L' = total_stake L + q.
Proof.
  intros Hs HL Ha Hq Hfit. destruct (does_transfer L a a q HL Ha Ha Hq Hfit s Hs) as [Hr Hs'].
  exists (transfer_ccs a a q s).2, (transferred L a a q). split; [rewrite <-Hr; by destruct (transfer_ccs a a q s)|].
  split; [done|]. unfold transferred.
  set (L1 := set_balance (set_holders L (transfer_holders L a a q)) a (lg_balance L a - q)).
  pose proof (total_stake_balance L1 a (lg_balance L a + q) Ha) as Ht1.
  pose proof (total_stake_balance (set_holders L (transfer_holders L a a q)) a (lg_balance L a - q) Ha) as Ht2.
  change (total_stake (set_holders L _)) with (total_stake L) in Ht2. fold L1 in Ht2.
  assert (lg_balance L1 a = lg_balance L a - q) as Hb by (simpl; apply put_eq). simpl in Ht2. lia.
Qed.

(** A stakeholder with less than half of the stakes can change the parameters by repeating
    its signature. *)
Theorem repeated_signatures_count (s : S) (L : ledger) (md : Metadata) (params : CommonParams)
    (sig : Signature) (a : Address) (k : nat) :
  let digest := change_params_digest (M := M) (md_seq md) params in
  st s L → inv L → lg_metadata L = Some md → signer digest sig = Some a → a ∈ (lg_holders L).*1 →
  total_stake L / 2 < N.of_nat k * stake_of L a → N.of_nat k * stake_of L a < u64_size →
  (change_params (M := M) (md_seq md) params (replicate k sig) s).1 = Ok tt.
Proof.
  intros digest Hs HL Hmd Hsig Ha Hmore Hfit.
  assert (signed_stake L digest (replicate k sig) = N.of_nat k * stake_of L a) as Hst.
  { unfold signed_stake. clear Hmore Hfit. induction k as [|k IH]; [done|].
    cbn [replicate]. rewrite sum_with_cons, IH, Hsig. simpl from_option. lia. }
  destruct (does_change_params (M := M) L md (md_seq md) params (replicate k sig) HL Hmd)
    as [(_ & _ & _ & Hdo)|(Hnot & _)].
  - intros sg [-> _]%elem_of_replicate. fold digest. by rewrite Hsig.
  - fold digest. by rewrite Hst.
  - by destruct (Hdo s Hs).
  - destruct Hnot. fold digest. rewrite Hst. split_and!; [done| |done].
    intros sg b [-> _]%elem_of_replicate. rewrite Hsig. by intros [= <-].
Qed.

(** Closing a term unwinds when the nomination of a validator that was inactive in the term
    ends with it: the candidate has expired when it is to be jailed. *)
Theorem term_close_unwinds (s : S) (L : ledger) (md : Metadata) (p : CommonParams) (block : N)
    (inactive : list Address) (c : Candidate) :
  st s L → inv L → term_over L block inactive md p → c ∈ lg_candidates L → ca_address c ∈ inactive →
  ca_nomination_ends_at c = md_current_term_id md →
  (on_term_close block inactive s).1 = Panic.
Proof.
  intros Hs HL Hcl Hc Hca Hend.
  destruct (does_term_close_panics L md p block inactive c HL Hcl Hc Hca) as (L' & Hdo); [by rewrite Hend|].
  by destruct (Hdo s Hs).
Qed.
End Props.

(** * Examples *)

Module StakeWitness.
#[local] Existing Instance TrieWitness.crypto.
#[local] Existing Instance TrieWitness.laws.
#[local] Existing Instance sample_primitives.

(** Three accounts. *)
Definition pub1 : Public := replicate 32 1 ++ replicate 32 0.
Definition pub2 : Public := replicate 32 2 ++ replicate 32 0.
Definition pub3 : Public := replicate 32 3 ++ replicate 32 0.
Definition a1 : Address := Eval vm_compute in public_to_address pub1.
Definition a2 : Address := Eval vm_compute in public_to_address pub2.
Definition a3 : Address := Eval vm_compute in public_to_address pub3.

#[local] Instance three : Accounts := {| accounts := [a1; a2; a3]; max_meta := 100 |}.

Ltac by_compute := apply (bool_decide_unpack _); vm_compute; exact I.

#[local] Instance play : InPlay.
Proof. split; [by_compute|by_compute|done]. Qed.

Definition params : CommonParams := {|
  cp_size := 32; cp_max_extra_data_size := 0; cp_max_asset_scheme_metadata_size := 0;
  cp_max_transfer_metadata_size := 0; cp_max_text_content_size := 200; cp_network_id := [116; 99];
  cp_min_pay_transaction_cost := 0; cp_min_set_regular_key_transaction_cost := 0;
  cp_min_create_shard_transaction_cost := 0; cp_min_set_shard_owners_transaction_cost := 0;
  cp_min_set_shard_users_transaction_cost := 0; cp_min_wrap_ccc_transaction_cost := 0;
  cp_min_custom_transaction_cost := 0; cp_min_store_transaction_cost := 0;
  cp_min_remove_transaction_cost := 0; cp_min_asset_mint_cost := 0; cp_min_asset_transfer_cost := 0;
  cp_min_asset_scheme_change_cost := 0; cp_min_asset_supply_increase_cost := 0;
  cp_min_asset_compose_cost := 0; cp_min_asset_decompose_cost := 0; cp_min_asset_unwrap_ccc_cost := 0;
  cp_max_body_size := 0; cp_snapshot_period := 0; cp_term_seconds := 10;
  cp_nomination_expiration := 4; cp_custody_period := 2; cp_release_period := 5;
  cp_max_num_of_validators := 3; cp_min_num_of_validators := 1; cp_delegation_threshold := 1;
  cp_min_deposit := 10; cp_max_candidate_metadata_size := 100;
|}.

Definition md : Metadata :=
  {| md_number_of_shards := 1; md_number_of_initial_shards := 1; md_hashes := [];
     md_last_term_finished_block_num := 10; md_current_term_id := 3; md_seq := 0;
     md_params := Some params |}.

(** The first account has delegated to the second, a candidate and validator; the third is in
    jail. *)
Definition candidate (ends : N) : Candidate :=
  {| ca_pubkey := pub2; ca_deposit := 100; ca_nomination_ends_at := ends; ca_metadata := [] |}.
Definition prisoner : Prisoner :=
  {| pr_address := a3; pr_deposit := 7; pr_custody_until := 1; pr_released_at := 3 |}.
Definition books (ends : N) : ledger := {|
  lg_balance a := if decide (a = a1) then 60 else if decide (a = a2) then 50 else 0;
  lg_delegation a := if decide (a = a1) then [(a2, 40)] else [];
  lg_holders := bt_collect [(a1, tt); (a2, tt)];
  lg_candidates := [candidate ends];
  lg_jail := [(a3, prisoner)];
  lg_banned := [];
  lg_validators := [Validator_new 40 100 pub2];
  lg_rewards := {| ir_previous := []; ir_current := [] |};
  lg_coin a := if decide (a = a1) then 1000 else 0;
  lg_metadata := Some md;
|}.

Lemma candidate_address ends : ca_address (candidate ends) = a2.
Proof. vm_compute. reflexivity. Qed.

Lemma books_wf ends : ends < u64_size → lg_wf (books ends).
Proof.
  intros He. assert (a1 ∈ accounts ∧ a2 ∈ accounts ∧ a3 ∈ accounts) as (H1 & H2 & H3) by by_compute.
  assert (∀ n, n < 2000 → u64_wf n) as Hsmall.
  { intros n Hn. unfold u64_wf. assert (2000 < u64_size) by done. lia. }
  assert (bt_ok (V := ()) []) as Hnil by constructor.
  split; simpl.
  - intros a _. repeat case_decide; apply Hsmall; lia.
  - intros a _. case_decide; (split; [repeat constructor|]); [|by intros k x ?%elem_of_nil].
    intros k x [= -> ->]%list_elem_of_singleton. split; [done|]. split; [lia|]. apply Hsmall. lia.
  - split; [apply bt_collect_ok|]. intros k [] Hin. split; [|done].
    assert (Forall (λ x, x.1 ∈ accounts) (bt_collect [(a1, tt); (a2, tt)])) as Hall by by_compute.
    rewrite Forall_forall in Hall. by apply (Hall (k, tt)).
  - split; [|apply NoDup_singleton]. apply Forall_singleton. split_and!; [|by rewrite candidate_address|done].
    repeat split. exact He.
  - split; [repeat constructor|]. intros k x [= -> ->]%list_elem_of_singleton.
    split; [done|]. split; [by repeat split|done].
  - split; [constructor|]. by intros k x ?%elem_of_nil.
  - split; [|apply NoDup_singleton]. apply Forall_singleton.
    split; [by repeat split|]. change (ca_address (candidate 0) ∈ accounts). by rewrite candidate_address.
  - split; (split; [constructor|]); by intros k x ?%elem_of_nil.
  - intros a. case_decide; apply Hsmall; lia.
Qed.

Lemma books_inv ends : 3 ≤ ends → ends < u64_size → inv (books ends).
Proof.
  intros H3 He. pose proof (candidate_address ends) as H2.
  split; [split|intros md0 [= <-]; simpl; split|simpl].
  - by apply books_wf.
  - change (total_stake (books ends)) with (total_stake (books 0)). vm_compute. reflexivity.
  - change (total_coin (books ends)) with (total_coin (books 0)). vm_compute. reflexivity.
  - assert (Forall (λ a, a ∈ (lg_holders (books 0)).*1 ↔ 0 < stake_of (books 0) a) accounts) as Hall by by_compute.
    rewrite Forall_forall in Hall. exact Hall.
  - intros a Ha. change (a ∈ [ca_address (candidate ends)]) in Ha.
    apply list_elem_of_singleton in Ha as ->. rewrite H2. split; vm_compute; reflexivity.
  - done.
  - intros a b q _ Hin. left. cbn [lg_delegation books] in Hin.
    destruct (decide (a = a1)); [|apply elem_of_nil in Hin; destruct Hin].
    apply list_elem_of_singleton in Hin. injection Hin as -> _. change (a2 ∈ [ca_address (candidate ends)]). rewrite H2. left.
  - by intros c ->%list_elem_of_singleton.
  - by intros a p [= -> ->]%list_elem_of_singleton.
  - intros v ->%list_elem_of_singleton. left.
Qed.

Definition chain (n : N) : option H256 := Some [].
Definition seat (h : H256) (i : N) : Public := pub2.

(** A vote is a height. *)
#[local] Instance vote : Message N := {|
  msg_codec := u64_codec; Round := N; msg_height m := m; msg_round m := m; msg_signer_index _ := 0;
  msg_verify _ _ := Ok true |}.

#[local] Instance state : StakeState TopLevel := ledger_state (books 5).
#[local] Instance state_laws : StakeStateLaws TopLevel := ledger_laws (books 5).

Definition action_bytes (a : StakeAction N) : bytes := rlp_bytes (StakeAction_append a).

(** The first account gives 10 of its stakes to the third and the term ends. *)
Definition ops : list stake_op :=
  [Execute (action_bytes (TransferCCS a3 10)) a1 pub1 params; CloseTerm 20 []].

Lemma ops_ok : run_ok (M := N) chain seat ops top_new.
Proof.
  split; [|split; [|done]].
  - intros L _. split; [done|]. exists (TransferCCS a3 10). split_and!; [vm_compute; reflexivity|done|].
    by_compute.
  - intros L Hs. exists md, params. destruct (does_metadata L _ Hs) as [Hmd _].
    assert (lg_metadata L = Some md) as HL.
    { enough (Ok (E := StateError.t) (lg_metadata L) = Ok (Some md)) as [= ->] by done.
      rewrite <-Hmd. vm_compute. reflexivity. }
    clear Hs Hmd. split; [split|]; try done; try by intros ? ?%elem_of_nil.
    + constructor.
    + by intros c _ ?%elem_of_nil.
Qed.

Lemma books_held : st top_new (books 5).
Proof. apply (ledger_held (books 5)). by apply books_wf. Qed.

Lemma books_ok : inv (books 5).
Proof. by apply books_inv. Qed.


(** The validator is inactive. *)
Lemma over ends : term_over (books ends) 20 [a2] md params.
Proof.
  split; [done..|apply NoDup_singleton|]. intros a ->%list_elem_of_singleton.
  change (a2 ∈ [ca_address (candidate 0)]). rewrite candidate_address. left.
Qed.



Lemma jail_is_temporary_witness :
  get_prisoner [] a3 ≠ Some prisoner.
Proof.
  apply (jail_is_temporary (M := N) chain seat ops top_new (books 5) md a3 prisoner []
    books_held books_ok ops_ok); [reflexivity|vm_compute; reflexivity|vm_compute; reflexivity].
Defined.

(** What the recovery of the example takes for the signature of the first account. *)
Definition sig1 : Signature := replicate 32 1 ++ replicate 33 0.

Lemma change_params_exact_witness :
  (change_params (M := N) 0 params [sig1] top_new).1 = Ok tt.
Proof.
  assert (signer (change_params_digest (M := N) 0 params) sig1 = Some a1) as Hsig by (vm_compute; reflexivity).
  apply (change_params_exact (M := N) top_new (books 5) md 0 params [sig1] books_held books_ok).
  - reflexivity.
  - intros sig ->%list_elem_of_singleton. rewrite Hsig. by eexists.
  - unfold signed_stake. rewrite sum_with_cons, Hsig. vm_compute. reflexivity.
  - split_and!; [reflexivity| |].
    + intros sig a ->%list_elem_of_singleton. rewrite Hsig. intros [= <-]. by_compute.
    + unfold signed_stake. rewrite sum_with_cons, Hsig. vm_compute. reflexivity.
Defined.

Lemma self_transfer_creates_stakes_witness :
  ∃ s' L', transfer_ccs a1 a1 60 top_new = (Ok tt, s') ∧ st s' L' ∧ total_stake L' = total_stake (books 5) + 60.
Proof.
  apply (self_transfer_creates_stakes top_new (books 5) a1 60 books_held books_ok);
    [by_compute|by_compute|by_compute].
Defined.

(** The second account has a third of the stakes and signs twice. *)
Definition sig2 : Signature := replicate 32 2 ++ replicate 33 0.

Lemma repeated_signatures_count_witness :
  (change_params (M := N) 0 params [sig2; sig2] top_new).1 = Ok tt.
Proof.
  apply (repeated_signatures_count (M := N) top_new (books 5) md params sig2 a2 2 books_held books_ok);
    [reflexivity|vm_compute; reflexivity|by_compute|vm_compute; reflexivity|vm_compute; reflexivity].
Defined.

(** The nomination of the validator ends in the term. *)
Lemma term_close_unwinds_witness :
  (@on_term_close _ _ (ledger_state (books 3)) 20 [a2] top_new).1 = Panic.
Proof.
  apply (@term_close_unwinds _ _ _ _ (ledger_laws (books 3)) _ _ top_new (books 3) md params 20 [a2] (candidate 3)).
  - apply (ledger_held (books 3)). by apply books_wf.
  - by apply books_inv.
  - apply over.
  - left.
  - rewrite candidate_address. left.
  - reflexivity.
Defined.
End StakeWitness.
