(* ===== verification/Header.v ===== *)
(** Block headers and blocks: types/src/header.rs, the view over stored bytes that unwinds on
    malformed input (util/rlp/src/rlpin.rs, core/src/views/header.rs and block.rs,
    core/src/encoded.rs), and the RLP form of a block (core/src/block.rs). *)
From stdpp Require Import base list numbers strings.
From Stdlib Require Import NArith Lia.
From S2P Require Import Prelude Types Crypto Rlp RlpImpls RlpTyped TxHash.

Local Open Scope N_scope.

(** * Integers of 256 bits *)

Definition u256_size : N := 2 ^ 256.

(** [impl_encodable_for_uint!(U256, 32)] and [impl_decodable_for_uint!(U256, 32)] *)
Definition U256_codec : Codec N := {|
  rlp_append self :=
    let leading_empty_bytes := 32 - (N.size self + 7) / 8 in
    encode_value (drop (N.to_nat leading_empty_bytes) (to_be_bytes 32 self));
  decode := decode_value (λ bytes,
    if match bytes with 0 :: _ => true | _ => false end then Err RlpError.RlpInvalidIndirection
    else if len bytes <=? 32 then Ok (from_be_bytes bytes)
    else Err (RlpError.RlpIsTooBig 32 (len bytes))) |}.

(** * Headers *)

Inductive HeaderSeal := With | Without.

Record Header := {
  hd_parent_hash : H256;
  hd_timestamp : N;
  hd_number : BlockNumber;
  hd_author : Address;
  hd_extra_data : bytes;
  hd_transactions_root : H256;
  hd_state_root : H256;
  hd_score : N;
  hd_seal : list bytes;
  hd_hash_memo : option H256;
  hd_bare_hash_memo : option H256;
}.

Definition Header_default : Header := {|
  hd_parent_hash := replicate 32 0; hd_timestamp := 0; hd_number := 0; hd_author := replicate 20 0;
  hd_extra_data := []; hd_transactions_root := BLAKE_NULL_RLP; hd_state_root := BLAKE_NULL_RLP;
  hd_score := 0; hd_seal := []; hd_hash_memo := None; hd_bare_hash_memo := None |}.

Definition SIZE_WITHOUT_SEAL : N := 8.

(** [Header::note_dirty] *)
Definition note_dirty (h : Header) : Header := {|
  hd_parent_hash := hd_parent_hash h; hd_timestamp := hd_timestamp h; hd_number := hd_number h;
  hd_author := hd_author h; hd_extra_data := hd_extra_data h;
  hd_transactions_root := hd_transactions_root h; hd_state_root := hd_state_root h;
  hd_score := hd_score h; hd_seal := hd_seal h; hd_hash_memo := None; hd_bare_hash_memo := None |}.

Definition set_parent_hash (a : H256) (h : Header) : Header := note_dirty {|
  hd_parent_hash := a; hd_timestamp := hd_timestamp h; hd_number := hd_number h;
  hd_author := hd_author h; hd_extra_data := hd_extra_data h;
  hd_transactions_root := hd_transactions_root h; hd_state_root := hd_state_root h;
  hd_score := hd_score h; hd_seal := hd_seal h; hd_hash_memo := hd_hash_memo h;
  hd_bare_hash_memo := hd_bare_hash_memo h |}.

Definition set_timestamp (a : N) (h : Header) : Header := note_dirty {|
  hd_parent_hash := hd_parent_hash h; hd_timestamp := a; hd_number := hd_number h;
  hd_author := hd_author h; hd_extra_data := hd_extra_data h;
  hd_transactions_root := hd_transactions_root h; hd_state_root := hd_state_root h;
  hd_score := hd_score h; hd_seal := hd_seal h; hd_hash_memo := hd_hash_memo h;
  hd_bare_hash_memo := hd_bare_hash_memo h |}.

(** [set_timestamp_now] at the time [now]. *)
Definition set_timestamp_now (now but_later_than : N) (h : Header) : Header :=
  set_timestamp (N.max now but_later_than) h.

Definition set_number (a : BlockNumber) (h : Header) : Header := note_dirty {|
  hd_parent_hash := hd_parent_hash h; hd_timestamp := hd_timestamp h; hd_number := a;
  hd_author := hd_author h; hd_extra_data := hd_extra_data h;
  hd_transactions_root := hd_transactions_root h; hd_state_root := hd_state_root h;
  hd_score := hd_score h; hd_seal := hd_seal h; hd_hash_memo := hd_hash_memo h;
  hd_bare_hash_memo := hd_bare_hash_memo h |}.

Definition set_author (a : Address) (h : Header) : Header :=
  if bool_decide (a = hd_author h) then h
  else note_dirty {|
  hd_parent_hash := hd_parent_hash h; hd_timestamp := hd_timestamp h; hd_number := hd_number h;
  hd_author := a; hd_extra_data := hd_extra_data h;
  hd_transactions_root := hd_transactions_root h; hd_state_root := hd_state_root h;
  hd_score := hd_score h; hd_seal := hd_seal h; hd_hash_memo := hd_hash_memo h;
  hd_bare_hash_memo := hd_bare_hash_memo h |}.

Definition set_extra_data (a : bytes) (h : Header) : Header :=
  if bool_decide (a = hd_extra_data h) then h
  else note_dirty {|
  hd_parent_hash := hd_parent_hash h; hd_timestamp := hd_timestamp h; hd_number := hd_number h;
  hd_author := hd_author h; hd_extra_data := a;
  hd_transactions_root := hd_transactions_root h; hd_state_root := hd_state_root h;
  hd_score := hd_score h; hd_seal := hd_seal h; hd_hash_memo := hd_hash_memo h;
  hd_bare_hash_memo := hd_bare_hash_memo h |}.

Definition set_state_root (a : H256) (h : Header) : Header := note_dirty {|
  hd_parent_hash := hd_parent_hash h; hd_timestamp := hd_timestamp h; hd_number := hd_number h;
  hd_author := hd_author h; hd_extra_data := hd_extra_data h;
  hd_transactions_root := hd_transactions_root h; hd_state_root := a;
  hd_score := hd_score h; hd_seal := hd_seal h; hd_hash_memo := hd_hash_memo h;
  hd_bare_hash_memo := hd_bare_hash_memo h |}.

Definition set_transactions_root (a : H256) (h : Header) : Header := note_dirty {|
  hd_parent_hash := hd_parent_hash h; hd_timestamp := hd_timestamp h; hd_number := hd_number h;
  hd_author := hd_author h; hd_extra_data := hd_extra_data h;
  hd_transactions_root := a; hd_state_root := hd_state_root h;
  hd_score := hd_score h; hd_seal := hd_seal h; hd_hash_memo := hd_hash_memo h;
  hd_bare_hash_memo := hd_bare_hash_memo h |}.

Definition set_score (a : N) (h : Header) : Header := note_dirty {|
  hd_parent_hash := hd_parent_hash h; hd_timestamp := hd_timestamp h; hd_number := hd_number h;
  hd_author := hd_author h; hd_extra_data := hd_extra_data h;
  hd_transactions_root := hd_transactions_root h; hd_state_root := hd_state_root h;
  hd_score := a; hd_seal := hd_seal h; hd_hash_memo := hd_hash_memo h;
  hd_bare_hash_memo := hd_bare_hash_memo h |}.

Definition set_seal (a : list bytes) (h : Header) : Header := note_dirty {|
  hd_parent_hash := hd_parent_hash h; hd_timestamp := hd_timestamp h; hd_number := hd_number h;
  hd_author := hd_author h; hd_extra_data := hd_extra_data h;
  hd_transactions_root := hd_transactions_root h; hd_state_root := hd_state_root h;
  hd_score := hd_score h; hd_seal := a; hd_hash_memo := hd_hash_memo h;
  hd_bare_hash_memo := hd_bare_hash_memo h |}.

(** [Header::stream_rlp] *)
Definition stream_rlp (self : Header) (with_seal : HeaderSeal) : strm () :=
  rlp_list (SIZE_WITHOUT_SEAL + match with_seal with With => len (hd_seal self) | Without => 0 end)
    ([app H256_codec (hd_parent_hash self); app H160_codec (hd_author self);
      app H256_codec (hd_state_root self); app H256_codec (hd_transactions_root self);
      app U256_codec (hd_score self); app u64_codec (hd_number self);
      app u64_codec (hd_timestamp self); app bytes_codec (hd_extra_data self)] ++
     match with_seal with
     | With => (λ b, append_raw b 1) <$> hd_seal self
     | Without => []
     end).

Definition Header_rlp (self : Header) (with_seal : HeaderSeal) : bytes :=
  rlp_bytes (stream_rlp self with_seal).

Section Hashes.
Context `{Crypto}.

Definition rlp_blake (self : Header) (with_seal : HeaderSeal) : H256 :=
  blake256 (Header_rlp self with_seal).

(** [Header::hash] and [bare_hash]; what they memoise is what they return. *)
Definition Header_hash (self : Header) : H256 :=
  match hd_hash_memo self with Some h => h | None => rlp_blake self With end.
Definition Header_bare_hash (self : Header) : H256 :=
  match hd_bare_hash_memo self with Some h => h | None => rlp_blake self Without end.

Definition generate_child (now : N) (self : Header) : Header :=
  note_dirty (set_timestamp_now now (u64_add (hd_timestamp self) 1)
    (set_number (u64_add (hd_number self) 1)
      (set_parent_hash (Header_hash self) Header_default))).

(** [impl Decodable for Header] *)
Definition Header_decode (r : bytes) : rlpR Header :=
  parent_hash ← val_at (decode H256_codec) r 0;
  author ← val_at (decode H160_codec) r 1;
  state_root ← val_at (decode H256_codec) r 2;
  transactions_root ← val_at (decode H256_codec) r 3;
  score ← val_at (decode U256_codec) r 4;
  number ← val_at (decode u64_codec) r 5;
  timestamp ← val_at (decode U256_codec) r 6;
  extra_data ← val_at (decode bytes_codec) r 7;
  n ← item_count r;
  seal ← map_res (λ i, at_ r (N.of_nat i))
           (seq (N.to_nat SIZE_WITHOUT_SEAL) (N.to_nat (n - SIZE_WITHOUT_SEAL)));
  Ok {| hd_parent_hash := parent_hash; hd_timestamp := N.min timestamp (u64_size - 1);
        hd_number := number; hd_author := author; hd_extra_data := extra_data;
        hd_transactions_root := transactions_root; hd_state_root := state_root; hd_score := score;
        hd_seal := seal; hd_hash_memo := Some (blake256 r); hd_bare_hash_memo := None |}.
End Hashes.

(** * Views over stored bytes *)

(** [Rlp] unwraps every result of the view it wraps. *)
Definition trusted {E A : Type} (r : rlpR A) : result E A :=
  match r with Ok x => Ok x | _ => Panic end.

Section Trusting.
Context {E : Type}.

Definition Rlp_at (bs : bytes) (index : N) : result E bytes := trusted (at_ bs index).
Definition Rlp_data (bs : bytes) : result E bytes := trusted (rlp_data bs).
Definition Rlp_item_count (bs : bytes) : N := match item_count bs with Ok n => n | _ => 0 end.
Definition Rlp_as_val {T : Type} (decode : bytes → rlpR T) (bs : bytes) : result E T :=
  trusted (decode bs).
Definition Rlp_as_list {T : Type} (decode : bytes → rlpR T) (bs : bytes) : result E (list T) :=
  map_res (Rlp_as_val decode) (rlp_iter bs).
Definition Rlp_val_at {T : Type} (decode : bytes → rlpR T) (bs : bytes) (index : N) : result E T :=
  item ← Rlp_at bs index; Rlp_as_val decode item.
Definition Rlp_list_at {T : Type} (decode : bytes → rlpR T) (bs : bytes) (index : N)
  : result E (list T) :=
  item ← Rlp_at bs index; Rlp_as_list decode item.
End Trusting.

Section Views.
Context `{Crypto} {E : Type}.

(** [HeaderView], which [encoded::Header] goes through; the header is its bytes. *)
Definition hv_hash (rlp : bytes) : H256 := blake256 rlp.
Definition hv_parent_hash (rlp : bytes) : result E H256 := Rlp_val_at (decode H256_codec) rlp 0.
Definition hv_author (rlp : bytes) : result E Address := Rlp_val_at (decode H160_codec) rlp 1.
Definition hv_state_root (rlp : bytes) : result E H256 := Rlp_val_at (decode H256_codec) rlp 2.
Definition hv_transactions_root (rlp : bytes) : result E H256 := Rlp_val_at (decode H256_codec) rlp 3.
Definition hv_score (rlp : bytes) : result E N := Rlp_val_at (decode U256_codec) rlp 4.
Definition hv_number (rlp : bytes) : result E BlockNumber := Rlp_val_at (decode u64_codec) rlp 5.
Definition hv_timestamp (rlp : bytes) : result E N := Rlp_val_at (decode u64_codec) rlp 6.
Definition hv_extra_data (rlp : bytes) : result E bytes := Rlp_val_at (decode bytes_codec) rlp 7.
(** The capacity of the vector wraps around for a header without its fields, and is refused. *)
Definition hv_seal (rlp : bytes) : result E (list bytes) :=
  let item_count := Rlp_item_count rlp in
  _ ← assert (SIZE_WITHOUT_SEAL <=? item_count);
  map_res (λ i, Rlp_at rlp (N.of_nat i))
    (seq (N.to_nat SIZE_WITHOUT_SEAL) (N.to_nat (item_count - SIZE_WITHOUT_SEAL))).

(** [encoded::Header::decode] *)
Definition encoded_decode (rlp : bytes) : result E Header := Rlp_as_val Header_decode rlp.

(** [BlockView] and [encoded::Block], the block being its bytes. *)
Definition bv_header (rlp : bytes) : result E Header := Rlp_val_at Header_decode rlp 0.
Definition bv_header_rlp (rlp : bytes) : result E bytes := Rlp_at rlp 0.
Definition bv_transactions (rlp : bytes) : result E (list UnverifiedTransaction) :=
  Rlp_list_at UnverifiedTransaction_decode rlp 1.
Definition bv_transactions_count (rlp : bytes) : result E N :=
  item ← Rlp_at rlp 1; Ok (len (rlp_iter item)).
End Views.

(** * Blocks *)

Record ChainBlock := {
  cb_header : Header;
  cb_transactions : list UnverifiedTransaction;
}.

Section Blocks.
Context `{Crypto}.

(** [Block::rlp_bytes] *)
Definition Block_rlp_bytes (self : ChainBlock) (seal : HeaderSeal) : bytes :=
  rlp_bytes (rlp_list 2 [stream_rlp (cb_header self) seal;
    append_list ((λ t, rlp_append_sealed_transaction (utx_unsigned t) (utx_sig t)) <$> cb_transactions self)]).

(** [impl Decodable for Block] *)
Definition Block_decode (rlp : bytes) : rlpR ChainBlock :=
  let got := len rlp in
  info ← payload_info rlp;
  let expected := header_len info + value_len info in
  if expected <? got then Err (RlpError.RlpIsTooBig expected got)
  else if got <? expected then Err (RlpError.RlpIsTooShort expected got)
  else
    item_count ← item_count rlp;
    if negb (item_count =? 2) then Err (RlpError.RlpIncorrectListLen 2 item_count)
    else
      header ← val_at Header_decode rlp 0;
      transactions ← list_at UnverifiedTransaction_decode rlp 1;
      Ok {| cb_header := header; cb_transactions := transactions |}.
End Blocks.

(** * Round trips *)

Lemma u256_trim n : n < u256_size → 32 - (N.size n + 7) / 8 = leading_zeros (8 * N.of_nat 32) n / 8.
Proof.
  intros Hn. pose proof (size_le n 256 Hn). unfold leading_zeros.
  change (8 * N.of_nat 32) with 256. lia_div.
Qed.

#[global, refine] Instance U256_codec_ok : CodecOk U256_codec := {|
  item n := Data (drop (N.to_nat (32 - (N.size n + 7) / 8)) (to_be_bytes 32 n));
  wf n := n < u256_size |}.
Proof.
  - intros n. apply encode_value_encodes.
  - intros n Hn. rewrite u256_trim, trim_be by done. intros Hf. apply data_decodes; [done|].
    pose proof (min_be_len_bound n 32 Hn) as Hl. rewrite (proj2 (N.leb_le _ _)) by done.
    destruct (decide (n = 0)) as [->|Hz]; [done|].
    destruct (min_be_head n Hz) as (b & bs & Hm & Hb). pose proof (min_be_value n) as Hv.
    rewrite Hm in *. by destruct b; [|rewrite Hv].
  - intros bs. apply decode_value_no_panic. intros d. np_tac.
Defined.
#[global] Typeclasses Opaque U256_codec.

(** An encoded item is appended as it is. *)
Lemma append_raw_appends i : appends (append_raw (enc i) 1) i.
Proof.
  intros s s' Hf. unfold append_raw, mbind, stM_bind, modify_st, note_appended. simpl.
  destruct (note_lists _ _ _ false) as [s1| |] eqn:Hn; [|done..]. intros [= <-].
  destruct (note_lists_flag _ _ _ (finished_list s) _ Hn) as (b & -> & Hb). by exists b.
Qed.

(** The seal of [h] consists of the encodings of [seals], and the fields are of their types. *)
Definition header_ok (h : Header) (seals : list rlp_item) : Prop :=
  hd_seal h = enc <$> seals ∧ wf H256_codec (hd_parent_hash h) ∧ wf H160_codec (hd_author h) ∧
  wf H256_codec (hd_state_root h) ∧ wf H256_codec (hd_transactions_root h) ∧
  wf U256_codec (hd_score h) ∧ wf u64_codec (hd_number h) ∧ wf u64_codec (hd_timestamp h).

Definition header_items (h : Header) (seals : list rlp_item) : list rlp_item :=
  [item H256_codec (hd_parent_hash h); item H160_codec (hd_author h);
   item H256_codec (hd_state_root h); item H256_codec (hd_transactions_root h);
   item U256_codec (hd_score h); item u64_codec (hd_number h); item u64_codec (hd_timestamp h);
   item bytes_codec (hd_extra_data h)] ++ seals.

Lemma stream_rlp_encodes h seals :
  hd_seal h = enc <$> seals → encodes (stream_rlp h With) (List (header_items h seals)).
Proof.
  intros Hs. unfold stream_rlp, header_items. rewrite Hs. apply rlp_list_encodes.
  - apply Forall2_app.
    + repeat (apply Forall2_cons; split; [apply app_appends|]). by apply Forall2_nil.
    + rewrite <-list_fmap_compose. apply Forall2_fmap_l, Forall_Forall2_diag, Forall_forall.
      intros i _. apply append_raw_appends.
  - unfold len. rewrite length_app, !length_fmap. unfold SIZE_WITHOUT_SEAL. cbn [length]. lia.
Qed.

(** The timestamp is written with 64 bits and read with 256. *)
Lemma timestamp_item n : n < u64_size → item u64_codec n = item U256_codec n.
Proof.
  intros Hn. cbn [item U256_codec_ok u64_codec_ok uint_codec_ok]. unfold u64_codec_ok, item, uint_codec_ok.
  rewrite trim_be by done. rewrite u256_trim, trim_be; [done|..];
    (eapply N.lt_le_trans; [exact Hn|]); by vm_compute.
Qed.

Section RoundTrips.
Context `{Crypto}.

Lemma Header_rlp_bytes h seals :
  hd_seal h = enc <$> seals → fits (List (header_items h seals)) →
  Header_rlp h With = enc (List (header_items h seals)).
Proof.
  intros Hs Hf. unfold Header_rlp, rlp_bytes. by rewrite (drain_encodes _ _ (stream_rlp_encodes h seals Hs) Hf).
Qed.

(** What decoding a header leaves of it: the hash is remembered. *)
Definition remembered (h : Header) (seals : list rlp_item) : Header := {|
  hd_parent_hash := hd_parent_hash h; hd_timestamp := hd_timestamp h; hd_number := hd_number h;
  hd_author := hd_author h; hd_extra_data := hd_extra_data h;
  hd_transactions_root := hd_transactions_root h; hd_state_root := hd_state_root h;
  hd_score := hd_score h; hd_seal := hd_seal h;
  hd_hash_memo := Some (blake256 (enc (List (header_items h seals)))); hd_bare_hash_memo := None |}.

Lemma seal_fields_read l seals :
  fits (List (l ++ seals)) → len l = SIZE_WITHOUT_SEAL →
  map_res (λ i, at_ (enc (List (l ++ seals))) (N.of_nat i))
    (seq (N.to_nat SIZE_WITHOUT_SEAL) (N.to_nat (len (l ++ seals) - SIZE_WITHOUT_SEAL))) =
  Ok (enc <$> seals).
Proof.
  intros Hf Hl. apply map_res_Ok, Forall2_fmap_r, Forall2_same_length_lookup. unfold len in Hl. split.
  { rewrite length_seq, len_app. unfold len. lia. }
  intros k i x Hi Hx. apply lookup_seq in Hi as [-> Hk]. apply at_enc; [done|by apply fits_short|].
  replace (N.to_nat _) with (length l + k)%nat by lia. by rewrite lookup_app_r, Nat.add_sub' by lia.
Qed.

Lemma Header_decodes h seals :
  header_ok h seals → fits (List (header_items h seals)) →
  Header_decode (enc (List (header_items h seals))) = Ok (remembered h seals).
Proof.
  intros (Hs & ? & ? & ? & ? & ? & ? & Ht) Hf. unfold remembered. set (memo := Some _).
  assert (wf U256_codec (hd_timestamp h)) by (eapply N.lt_le_trans; [exact Ht|by vm_compute]).
  unfold Header_decode. fold memo. rewrite Hs. clearbody memo. unfold header_items in *.
  rewrite (timestamp_item (hd_timestamp h) Ht) in *. decodes_tac.
  rewrite seal_fields_read by done. rewrite Ok_bind. rewrite N.min_l; [done|].
  change (wf u64_codec (hd_timestamp h)) with (hd_timestamp h < u64_size) in Ht. lia.
Qed.

(** The memo holds the hash of the header. *)
Definition memo_ok (h : Header) : Prop :=
  match hd_hash_memo h with Some m => m = rlp_blake h With | None => True end.

Lemma Header_hash_memo h : memo_ok h → Header_hash h = rlp_blake h With.
Proof. unfold memo_ok, Header_hash. by destruct (hd_hash_memo h). Qed.

(** The fields of a block: its header and transactions of the types they are declared with. *)
Definition block_ok (b : ChainBlock) (seals : list rlp_item) : Prop :=
  header_ok (cb_header b) seals ∧
  Forall (λ t, Transaction_wf (utx_unsigned t) ∧ len (utx_sig t) = 65 ∧
               t = UnverifiedTransaction_new (utx_unsigned t) (utx_sig t)) (cb_transactions b).

Definition block_item (b : ChainBlock) (seals : list rlp_item) : rlp_item :=
  List [List (header_items (cb_header b) seals);
        List ((λ t, List (sealed_items (utx_unsigned t) (utx_sig t))) <$> cb_transactions b)].

Lemma Block_encodes b seals :
  hd_seal (cb_header b) = enc <$> seals → fits (block_item b seals) →
  Block_rlp_bytes b With = enc (block_item b seals).
Proof.
  intros Hs Hf. unfold Block_rlp_bytes, rlp_bytes. erewrite drain_encodes; [done| |exact Hf].
  apply rlp_list_encodes; [|done]. apply Forall2_cons; split; [|apply Forall2_cons; split; [|by apply Forall2_nil]].
  - by apply list_appends, stream_rlp_encodes.
  - apply list_appends, append_list_encodes, Forall2_fmap, Forall_Forall2_diag, Forall_forall.
    intros t _. apply sealed_encodes.
Qed.

(** A block is decoded from its own encoding with the same transactions, and its header
    remembers the hash that it had. *)
Theorem Block_roundtrip b seals :
  block_ok b seals → memo_ok (cb_header b) → fits (block_item b seals) →
  ∃ b', Block_decode (Block_rlp_bytes b With) = Ok b' ∧
    cb_transactions b' = cb_transactions b ∧
    Header_rlp (cb_header b') With = Header_rlp (cb_header b) With ∧
    hd_hash_memo (cb_header b') = Some (Header_hash (cb_header b)).
Proof.
  intros [Hh Ht] Hm Hf. pose proof (proj1 Hh) as Hs. rewrite (Block_encodes b seals) by done.
  assert (fits (List (header_items (cb_header b) seals))) as Hfh by (eapply fits_elem; [exact Hf|by left]).
  exists {| cb_header := remembered (cb_header b) seals; cb_transactions := cb_transactions b |}.
  split; [|split; [done|split]].
  - unfold Block_decode. cbv zeta. unfold block_item in *.
    set (l := [_; _]) in *. pose proof (payload_info_enc (List l) []) as Hp. rewrite app_nil_r in Hp.
    rewrite Hp by done. rewrite Ok_bind. cbn [header_len value_len].
    rewrite <-enc_len, !N.ltb_irrefl. rewrite item_count_enc, Ok_bind by done. simpl negb. cbv iota.
    rewrite (val_at_enc _ l 0 _ Hf eq_refl), Header_decodes, Ok_bind by done.
    rewrite (list_at_enc _ l 1 _ Hf eq_refl), (as_list_enc _ _ (cb_transactions b)); [done|..].
    + eapply fits_elem; [exact Hf|right; by left].
    + apply Forall2_fmap_l. apply Forall_Forall2_diag. rewrite Forall_forall in *. intros t Hin.
      destruct (Ht t Hin) as (? & ? & Heq). unfold compose. rewrite UnverifiedTransaction_decodes; [by rewrite <-Heq|done..|].
      eapply fits_elem; [eapply fits_elem; [exact Hf|right; by left]|].
      apply (list_elem_of_fmap_2 (λ t, List (sealed_items (utx_unsigned t) (utx_sig t)))). done.
  - cbn [cb_header]. rewrite (Header_rlp_bytes (cb_header b) seals) by done.
    by apply (Header_rlp_bytes (remembered (cb_header b) seals)).
  - simpl. rewrite Header_hash_memo by done. unfold rlp_blake. by rewrite (Header_rlp_bytes _ seals).
Qed.
End RoundTrips.
