(* ===== verification/BitSet.v ===== *)
(** The set of validator indices that votes are counted with: core/src/consensus/bit_set.rs,
    an array of [BITSET_SIZE] bytes, and the set of indices it stands for. *)
From stdpp Require Import base list numbers.
From Stdlib Require Import NArith Lia.
From S2P Require Import Prelude Rlp RlpImpls.

Local Open Scope N_scope.

Definition MAX_VALIDATOR_SIZE : N := 800.
Definition BITSET_SIZE : N := MAX_VALIDATOR_SIZE / 8.

(** [struct BitSet([u8; BITSET_SIZE])] *)
Abbreviation BitSet := bytes (only parsing).

Definition BitSet_new : BitSet := replicate (N.to_nat BITSET_SIZE) 0.

(** The bit of an index within the array. *)
Definition bit (self : BitSet) (index : N) : bool :=
  match self !! N.to_nat (index / 8) with
  | Some byte => negb (N.land byte (N.shiftl 1 (index mod 8)) =? 0)
  | None => false
  end.

Definition is_set {E : Type} (self : BitSet) (index : N) : result E bool :=
  let array_index := index / 8 in
  let bit_index := index mod 8 in
  byte ← expect (self !! N.to_nat array_index);
  Ok (negb (N.land byte (N.shiftl 1 bit_index) =? 0)).

Definition bs_set {E : Type} (self : BitSet) (index : N) : result E BitSet :=
  let array_index := index / 8 in
  let bit_index := index mod 8 in
  byte ← expect (self !! N.to_nat array_index);
  Ok (<[N.to_nat array_index := N.lor byte (N.shiftl 1 bit_index)]> self).

Definition bs_reset {E : Type} (self : BitSet) (index : N) : result E BitSet :=
  let array_index := index / 8 in
  let bit_index := index mod 8 in
  byte ← expect (self !! N.to_nat array_index);
  Ok (<[N.to_nat array_index := N.land byte (N.lxor 255 (N.shiftl 1 bit_index))]> self).

Definition new_with_indices {E : Type} (indices : list N) : result E BitSet :=
  fold_res bs_set BitSet_new indices.

Definition all_set : BitSet := replicate (N.to_nat BITSET_SIZE) 255.

Definition bs_is_empty (self : BitSet) : bool :=
  bool_decide (self = replicate (N.to_nat BITSET_SIZE) 0).

(** [u8::count_ones] *)
Definition count_ones (v : N) : N :=
  len (filter (λ i, N.testbit v i = true) (N.of_nat <$> seq 0 8)).

Definition bs_count (self : BitSet) : N := sum_with count_ones self.

(** [BitSetIndexIterator::next] from [index], with [MAX_VALIDATOR_SIZE - index] indices
    left to look at: the next index that is set. *)
Fixpoint iter_next (left_ : nat) (bitset : BitSet) (index : N) : option N :=
  match left_ with
  | O => None
  | S left_ => if bit bitset index then Some index else iter_next left_ bitset (index + 1)
  end.

(** The items of the iterator, each call going on after the index it returned. *)
Fixpoint iter_collect (fuel : nat) (bitset : BitSet) (index : N) : list N :=
  match fuel with
  | O => []
  | S fuel =>
      match iter_next (N.to_nat (MAX_VALIDATOR_SIZE - index)) bitset index with
      | None => []
      | Some i => i :: iter_collect fuel bitset (i + 1)
      end
  end.

Definition true_index_iter (self : BitSet) : list N :=
  iter_collect (S (N.to_nat MAX_VALIDATOR_SIZE)) self 0.

(** [impl Sub for &BitSet] *)
Definition bs_sub (self rhs : BitSet) : BitSet :=
  zip_with (λ a b, N.land a (N.lxor 255 b)) self rhs.

(** [impl Encodable for BitSet]: the bytes are appended, where other types only write them. *)
Definition BitSet_append (self : BitSet) : strm () := app bytes_codec self.

(** [impl Decodable for BitSet] *)
Definition BitSet_decode : bytes → rlpR BitSet := decode_value (λ bytes,
  let expected := BITSET_SIZE in
  let got := len bytes in
  if expected <? got then Err (RlpError.RlpIsTooBig expected got)
  else if got <? expected then Err (RlpError.RlpIsTooShort expected got)
  else Ok bytes).

(** * The set of indices *)

(** The array has its length and its elements are bytes. *)
Definition bs_ok (b : BitSet) : Prop := len b = BITSET_SIZE ∧ bytes_ok b.

Lemma land_pow2 a k : negb (N.land a (N.shiftl 1 k) =? 0) = N.testbit a k.
Proof.
  rewrite N.shiftl_1_l. destruct (N.testbit a k) eqn:Hb.
  - apply negb_true_iff, N.eqb_neq. intros Hz. assert (N.testbit (N.land a (2 ^ k)) k = false) as Hf
      by (by rewrite Hz, N.bits_0).
    by rewrite N.land_spec, Hb, N.pow2_bits_true in Hf.
  - apply negb_false_iff, N.eqb_eq, N.bits_inj_0. intros n. rewrite N.land_spec, N.pow2_bits_eqb.
    destruct (N.eqb_spec k n) as [->|]; [by rewrite Hb|by rewrite andb_false_r].
Qed.

Lemma bit_testbit b i :
  bit b i = match b !! N.to_nat (i / 8) with Some v => N.testbit v (i mod 8) | None => false end.
Proof. unfold bit. destruct (b !! _); [apply land_pow2|done]. Qed.

Lemma bs_lookup b i : bs_ok b → i < MAX_VALIDATOR_SIZE → ∃ v, b !! N.to_nat (i / 8) = Some v ∧ v < 256.
Proof.
  intros [Hl Hb] Hi. destruct (lookup_lt_is_Some_2 b (N.to_nat (i / 8))) as [v Hv].
  { unfold len, BITSET_SIZE, MAX_VALIDATOR_SIZE in *. lia_div. }
  exists v. split; [done|]. exact (Forall_lookup_1 _ _ _ _ Hb Hv).
Qed.

Lemma is_set_ok {E} b i : bs_ok b → i < MAX_VALIDATOR_SIZE → is_set (E:=E) b i = Ok (bit b i).
Proof.
  intros Hb Hi. destruct (bs_lookup b i Hb Hi) as (v & Hv & _). unfold is_set, bit. cbv zeta.
  by rewrite Hv.
Qed.

(** Outside of the array both calls unwind. *)
Lemma bs_out {E} b i : bs_ok b → MAX_VALIDATOR_SIZE ≤ i →
  is_set (E:=E) b i = Panic ∧ bs_set (E:=E) b i = Panic.
Proof.
  intros [Hl _] Hi. unfold is_set, bs_set. cbv zeta.
  rewrite (lookup_ge_None_2 b); [done|].
  unfold len, BITSET_SIZE, MAX_VALIDATOR_SIZE in *. lia_div.
Qed.

Lemma BitSet_new_ok : bs_ok BitSet_new.
Proof. split; [done|]. apply Forall_replicate. done. Qed.

Lemma bit_new i : bit BitSet_new i = false.
Proof.
  rewrite bit_testbit. unfold BitSet_new. destruct (_ !! _) as [v|] eqn:Hv; [|done].
  apply lookup_replicate in Hv as [-> _]. apply N.bits_0.
Qed.

Lemma bit_range b i : bs_ok b → bit b i = true → i < MAX_VALIDATOR_SIZE.
Proof.
  intros [Hl _]. unfold bit. destruct (b !! _) as [v|] eqn:Hv; [|done]. intros _.
  apply lookup_lt_Some in Hv. unfold len, BITSET_SIZE, MAX_VALIDATOR_SIZE in *. lia_div.
Qed.

Lemma byte_bits v : v < 256 ↔ ∀ k, 8 ≤ k → N.testbit v k = false.
Proof.
  split.
  - intros Hv k Hk. destruct (decide (v = 0)) as [->|]; [apply N.bits_0|].
    apply N.bits_above_log2. apply N.log2_lt_pow2; [lia|].
    eapply N.lt_le_trans; [exact Hv|]. change 256 with (2 ^ 8). apply N.pow_le_mono_r; lia.
  - intros Hk. destruct (decide (v = 0)) as [->|]; [done|]. change 256 with (2 ^ 8).
    apply N.log2_lt_pow2; [lia|]. destruct (N.lt_ge_cases (N.log2 v) 8) as [|Hge]; [done|].
    specialize (Hk _ Hge). by rewrite N.bit_log2 in Hk.
Qed.

Lemma bs_set_ok {E} b i : bs_ok b → i < MAX_VALIDATOR_SIZE →
  ∃ b', bs_set (E:=E) b i = Ok b' ∧ bs_ok b' ∧ ∀ j, bit b' j = bool_decide (j = i) || bit b j.
Proof.
  intros Hb Hi. destruct (bs_lookup b i Hb Hi) as (v & Hv & Hlt). unfold bs_set. cbv zeta. rewrite Hv.
  eexists. split; [reflexivity|]. destruct Hb as [Hl Hb]. split; [split|].
  - unfold len in *. by rewrite length_insert.
  - apply Forall_insert; [done|]. apply byte_bits. intros k Hk. rewrite N.lor_spec, N.shiftl_1_l.
    rewrite (proj1 (byte_bits v)), N.pow2_bits_false by (done || lia_div). done.
  - intros j. rewrite !bit_testbit. destruct (decide (i / 8 = j / 8)) as [He|He].
    + rewrite <-He, list_lookup_insert_eq, Hv by (by eapply lookup_lt_Some).
      rewrite N.lor_spec, N.shiftl_1_l, N.pow2_bits_eqb, orb_comm. f_equal.
      destruct (N.eqb_spec (i mod 8) (j mod 8)); symmetry.
      * apply bool_decide_eq_true. rewrite (N.div_mod i 8), (N.div_mod j 8); lia.
      * apply bool_decide_eq_false. congruence.
    + rewrite list_lookup_insert_ne by lia.
      rewrite (bool_decide_eq_false_2 (j = i)) by congruence. done.
Qed.

Lemma bs_set_inv {E} b i b' : bs_ok b → bs_set (E:=E) b i = Ok b' →
  i < MAX_VALIDATOR_SIZE ∧ bs_ok b' ∧ ∀ j, bit b' j = bool_decide (j = i) || bit b j.
Proof.
  intros Hb Hs. destruct (N.lt_ge_cases i MAX_VALIDATOR_SIZE) as [Hi|Hi].
  - destruct (bs_set_ok (E:=E) b i Hb Hi) as (b1 & Hs1 & ? & ?).
    rewrite Hs in Hs1. by injection Hs1 as ->.
  - destruct (bs_out (E:=E) b i Hb Hi) as (_ & Hs1). by rewrite Hs1 in Hs.
Qed.

(** The indices that are set, in order. *)
Definition indices (b : BitSet) : list N :=
  filter (λ i, bit b i = true) (N.of_nat <$> seq 0 (N.to_nat MAX_VALIDATOR_SIZE)).

Lemma elem_of_indices b i : bs_ok b → i ∈ indices b ↔ bit b i = true.
Proof.
  intros Hb. unfold indices. rewrite list_elem_of_filter, list_elem_of_fmap. split; [by intros []|].
  intros Hi. split; [done|]. pose proof (bit_range b i Hb Hi). exists (N.to_nat i).
  split; [lia|]. apply elem_of_seq. lia.
Qed.

Lemma NoDup_indices b : NoDup (indices b).
Proof. apply list.NoDup_filter, NoDup_fmap_2; [intros x y; lia|apply NoDup_seq]. Qed.

Lemma iter_next_filter n b i :
  iter_next n b i = head (filter (λ j, bit b j = true) ((λ k, i + N.of_nat k) <$> seq 0 n)).
Proof.
  revert i. induction n as [|n IH]; intros i; [done|]. simpl.
  rewrite N.add_0_r, filter_cons. destruct (decide (bit b i = true)) as [->|Hb]; [done|].
  apply not_true_iff_false in Hb. rewrite Hb, IH, <-fmap_S_seq, <-list_fmap_compose. f_equal. f_equal.
  apply list_fmap_ext. intros _ k _. simpl. lia.
Qed.

(** What is left to iterate from [i]. *)
Definition indices_from (b : BitSet) (i : N) : list N :=
  filter (λ j, bit b j = true) ((λ k, i + N.of_nat k) <$> seq 0 (N.to_nat (MAX_VALIDATOR_SIZE - i))).

Lemma indices_from_step b i :
  match head (indices_from b i) with
  | None => indices_from b i = []
  | Some j => indices_from b i = j :: indices_from b (j + 1) ∧ i ≤ j < MAX_VALIDATOR_SIZE
  end.
Proof.
  unfold indices_from. remember (N.to_nat (MAX_VALIDATOR_SIZE - i)) as n eqn:Hn.
  revert i Hn. induction n as [|n IH]; intros i Hn; [done|].
  assert ((λ k, i + N.of_nat k) <$> seq 1 n = (λ k, (i + 1) + N.of_nat k) <$> seq 0 n) as Hs.
  { rewrite <-fmap_S_seq, <-list_fmap_compose. apply list_fmap_ext. intros _ k _. simpl. lia. }
  cbn [seq]. rewrite fmap_cons, N.add_0_r, Hs, filter_cons.
  destruct (decide (bit b i = true)) as [Hb|Hb].
  - simpl head. cbv iota. replace (N.to_nat (MAX_VALIDATOR_SIZE - (i + 1))) with n by lia. split; [done|lia].
  - specialize (IH (i + 1) ltac:(lia)).
    destruct (head (filter _ _)) as [j|]; [|done]. destruct IH as [-> ?]. split; [done|lia].
Qed.

Lemma iter_collect_indices fuel b i :
  (N.to_nat (MAX_VALIDATOR_SIZE - i) < fuel)%nat → iter_collect fuel b i = indices_from b i.
Proof.
  revert i. induction fuel as [|fuel IH]; intros i Hf; [lia|]. simpl.
  rewrite iter_next_filter. pose proof (indices_from_step b i) as Hs. unfold indices_from in Hs at 1.
  destruct (head _) as [j|]; [|done]. destruct Hs as [-> Hj]. f_equal. apply IH. lia.
Qed.

Lemma true_index_iter_indices b : true_index_iter b = indices b.
Proof.
  unfold true_index_iter. rewrite iter_collect_indices by lia. unfold indices_from, indices.
  f_equal.
Qed.

Lemma filter_fmap_len {A B} (f : A → B) (P : B → Prop) `{∀ x, Decision (P x)} l :
  len (filter P (f <$> l)) = len (filter (λ x, P (f x)) l).
Proof.
  unfold len. induction l as [|x l IH]; [done|]. rewrite fmap_cons, !filter_cons.
  destruct (decide (P (f x))); simpl; lia.
Qed.

Lemma bs_count_blocks (b : BitSet) k : (k ≤ length b)%nat →
  len (filter (λ j, bit b j = true) (N.of_nat <$> seq 0 (8 * k))) = sum_with count_ones (take k b).
Proof.
  induction k as [|k IH]; intros Hk; [done|].
  destruct (lookup_lt_is_Some_2 b k) as [v Hv]; [lia|].
  rewrite (take_S_r _ _ _ Hv), sum_with_app, sum_with_cons, sum_with_nil, N.add_0_r.
  replace (8 * S k)%nat with (8 * k + 8)%nat by lia.
  rewrite seq_app, fmap_app, list.filter_app, len_app, IH by lia. f_equal.
  rewrite <-(Nat.add_0_r (0 + 8 * k)), <-(fmap_add_seq (0 + 8 * k) 0 8). unfold count_ones.
  rewrite !filter_fmap_len. unfold len. do 2 f_equal. apply filter_iff_in.
  intros x Hx%elem_of_seq. rewrite bit_testbit.
  replace (N.of_nat (0 + 8 * k + x) / 8) with (N.of_nat k) by lia_div.
  replace (N.of_nat (0 + 8 * k + x) mod 8) with (N.of_nat x) by lia_div.
  by rewrite Nat2N.id, Hv.
Qed.

Lemma bs_count_indices b : bs_ok b → bs_count b = len (indices b).
Proof.
  intros [Hl _]. unfold bs_count, indices.
  assert (length b = N.to_nat BITSET_SIZE) as Hlen by (unfold len in Hl; lia).
  rewrite <-(firstn_all b) at 1. rewrite <-bs_count_blocks by lia. rewrite Hlen. done.
Qed.

Lemma bs_sub_ok a b : bs_ok a → bs_ok b → bs_ok (bs_sub a b).
Proof.
  intros [Hla Ha] [Hlb Hb]. unfold bs_sub. split.
  - unfold len in *. rewrite length_zip_with. lia.
  - clear Hla Hlb. revert b Hb. induction Ha as [|x a Hx Ha IH]; intros b Hb; [by constructor|].
    destruct Hb as [|y b Hy Hb]; [by constructor|]. simpl. constructor; [|by apply IH].
    apply byte_bits. intros k Hk. rewrite N.land_spec, (proj1 (byte_bits x)) by done. done.
Qed.

Lemma bit_sub a b i : bs_ok a → bs_ok b → bit (bs_sub a b) i = bit a i && negb (bit b i).
Proof.
  intros [Hla Ha] [Hlb Hb]. rewrite !bit_testbit. unfold bs_sub. rewrite lookup_zip_with.
  destruct (a !! _) as [x|] eqn:Hx; [|done]. simpl.
  destruct (b !! _) as [y|] eqn:Hy.
  - simpl. rewrite N.land_spec, N.lxor_spec. f_equal. change 255 with (N.ones 8).
    rewrite N.ones_spec_low by lia_div. done.
  - apply lookup_lt_Some in Hx. apply lookup_ge_None_1 in Hy. unfold len in *. lia.
Qed.

Lemma BitSet_decode_no_panic bs : BitSet_decode bs ≠ Panic.
Proof. apply decode_value_no_panic. intros d. cbv zeta. np_tac. Qed.

Lemma BitSet_decodes b : len b = BITSET_SIZE → fits (Data b) → BitSet_decode (enc (Data b)) = Ok b.
Proof.
  intros Hb Hf. apply data_decodes; [done|]. cbv zeta. by rewrite Hb, !N.ltb_irrefl.
Qed.

(** A bit set that is the last item of a list is written as one item. *)
Lemma BitSet_appends_last b : appends_last (append (BitSet_append b)) (Data b).
Proof. apply append_twice_last, encode_value_encodes. Qed.

(** Anywhere else it is counted twice: a list of a bit set and an integer is closed before the
    integer, which ends up outside. *)
Lemma BitSet_counted_twice :
  drain (rlp_list 2 [append (BitSet_append BitSet_new); app u64_codec 7]) =
  Ok (enc (List [Data BitSet_new]) ++ enc (item u64_codec 7)).
Proof. vm_compute. reflexivity. Qed.
