(* ===== verification/TmMessage.v ===== *)
(** The messages of the Tendermint engine: steps and votes with their order and digests, and what
    the nodes send each other (core/src/consensus/tendermint/message.rs and the first half of
    types.rs), with their RLP forms. *)
From stdpp Require Import base list numbers strings.
From Stdlib Require Import NArith Lia.
From S2P Require Import Prelude Types Crypto Rlp RlpImpls RlpTyped BTree BitSet StakeAction.

Local Open Scope N_scope.

Abbreviation Height := N (only parsing).
Abbreviation View := N (only parsing).
Abbreviation BlockHash := bytes (only parsing).

(** * Steps *)

Inductive Step := Propose | Prevote | Precommit | Commit.
#[global] Instance Step_eq_dec : EqDecision Step.
Proof. solve_decision. Defined.

Definition is_pre (s : Step) : bool :=
  match s with Prevote | Precommit => true | _ => false end.

Definition step_number (s : Step) : N :=
  match s with Propose => 0 | Prevote => 1 | Precommit => 2 | Commit => 3 end.

Definition Step_codec : Codec Step := {|
  rlp_append self := rlp_append u8_codec (step_number self);
  decode rlp :=
    n ← decode u8_codec rlp;
    if n =? 0 then Ok Propose
    else if n =? 1 then Ok Prevote
    else if n =? 2 then Ok Precommit
    else if n =? 3 then Ok Commit
    else Err (RlpError.Custom "Invalid step.") |}.

Record VoteStep := { vs_height : N; vs_view : N; vs_step : Step }.
#[global] Instance VoteStep_eq_dec : EqDecision VoteStep.
Proof. solve_decision. Defined.

Definition VoteStep_new (height view : N) (step : Step) : VoteStep :=
  {| vs_height := height; vs_view := view; vs_step := step |}.

Definition vs_is_step (self : VoteStep) (height view : N) (step : Step) : bool :=
  (vs_height self =? height) && (vs_view self =? view) && bool_decide (vs_step self = step).

Definition VoteStep_default : VoteStep := VoteStep_new 0 0 Propose.

(** [impl Ord for VoteStep] *)
#[global] Instance VoteStep_cmp : Compare VoteStep := λ self m,
  if negb (vs_height self =? vs_height m) then N.compare (vs_height self) (vs_height m)
  else if negb (vs_view self =? vs_view m) then N.compare (vs_view self) (vs_view m)
  else N.compare (step_number (vs_step self)) (step_number (vs_step m)).

Definition vs_lt (a b : VoteStep) : bool := match cmp a b with Lt => true | _ => false end.
Definition vs_le (a b : VoteStep) : bool := match cmp a b with Gt => false | _ => true end.

(** The derived codecs of structures: a list of the fields, whose length is not checked. *)
Definition VoteStep_codec : Codec VoteStep := {|
  rlp_append self :=
    rlp_list 3 [app u64_codec (vs_height self); app u64_codec (vs_view self);
                app Step_codec (vs_step self)];
  decode rlp :=
    height ← val_at (decode u64_codec) rlp 0;
    view ← val_at (decode u64_codec) rlp 1;
    step ← val_at (decode Step_codec) rlp 2;
    Ok (VoteStep_new height view step) |}.

(** * Votes *)

Record VoteOn := { vo_step : VoteStep; vo_block_hash : option BlockHash }.
#[global] Instance VoteOn_eq_dec : EqDecision VoteOn.
Proof. solve_decision. Defined.

Definition VoteOn_codec : Codec VoteOn := {|
  rlp_append self :=
    rlp_list 2 [app VoteStep_codec (vo_step self); app (option_codec H256_codec) (vo_block_hash self)];
  decode rlp :=
    step ← val_at (decode VoteStep_codec) rlp 0;
    block_hash ← val_at (decode (option_codec H256_codec)) rlp 1;
    Ok {| vo_step := step; vo_block_hash := block_hash |} |}.

Record ConsensusMessage := {
  cm_on : VoteOn; cm_signature : SchnorrSignature; cm_signer_index : N;
}.
#[global] Instance ConsensusMessage_eq_dec : EqDecision ConsensusMessage.
Proof. solve_decision. Defined.

Definition ConsensusMessage_codec : Codec ConsensusMessage := {|
  rlp_append self :=
    rlp_list 3 [app VoteOn_codec (cm_on self); app H512_codec (cm_signature self);
                app usize_codec (cm_signer_index self)];
  decode rlp :=
    on ← val_at (decode VoteOn_codec) rlp 0;
    signature ← val_at (decode H512_codec) rlp 1;
    signer_index ← val_at (decode usize_codec) rlp 2;
    Ok {| cm_on := on; cm_signature := signature; cm_signer_index := signer_index |} |}.

Definition message_info_rlp (step : VoteStep) (block_hash : option BlockHash) : bytes :=
  let vote_on := {| vo_step := step; vo_block_hash := block_hash |} in
  rlp_bytes (rlp_append VoteOn_codec vote_on).

Section Digests.
Context `{Crypto}.

(** What is signed for a vote. *)
Definition vote_digest (on : VoteOn) : H256 :=
  blake256 (message_info_rlp (vo_step on) (vo_block_hash on)).

Definition message_hash (step : VoteStep) (block_hash : H256) : H256 :=
  let vote_on := {| vo_step := step; vo_block_hash := Some block_hash |} in
  blake256 (rlp_bytes (rlp_append VoteOn_codec vote_on)).

Context `{Schnorr}.

(** [ConsensusMessage::verify] *)
Definition cm_verify (self : ConsensusMessage) (signer_public : Public) : result String bool :=
  let vote_info := message_info_rlp (vo_step (cm_on self)) (vo_block_hash (cm_on self)) in
  verify_schnorr signer_public (cm_signature self) (blake256 vote_info).
End Digests.

Definition cm_round (self : ConsensusMessage) : VoteStep := vo_step (cm_on self).
Definition cm_block_hash (self : ConsensusMessage) : option H256 := vo_block_hash (cm_on self).
Definition cm_height (self : ConsensusMessage) : N := vs_height (vo_step (cm_on self)).
Definition is_broadcastable (self : ConsensusMessage) : bool := is_pre (vs_step (vo_step (cm_on self))).

(** * What nodes send each other *)

Definition MESSAGE_ID_CONSENSUS_MESSAGE : N := 0x01.
Definition MESSAGE_ID_PROPOSAL_BLOCK : N := 0x02.
Definition MESSAGE_ID_STEP_STATE : N := 0x03.
Definition MESSAGE_ID_REQUEST_MESSAGE : N := 0x04.
Definition MESSAGE_ID_REQUEST_PROPOSAL : N := 0x05.

Inductive TendermintMessage :=
| TmConsensusMessage (messages : list bytes)
| TmProposalBlock (signature : SchnorrSignature) (view : N) (message : bytes)
| TmStepState (vote_step : VoteStep) (proposal : option H256) (lock_view : option N)
    (known_votes : BitSet)
| TmRequestMessage (vote_step : VoteStep) (requested_votes : BitSet)
| TmRequestProposal (height view : N).

(** The compression of the crate [snap]. *)
Class Snappy := {
  compress_vec : bytes → bytes;
  decompress_vec : bytes → option bytes;
}.
Class SnappyLaws `{Snappy} := {
  decompress_compress b : decompress_vec (compress_vec b) = Some b;
}.

Section Messages.
Context `{Snappy}.

Definition TendermintMessage_append (self : TendermintMessage) : strm () :=
  match self with
  | TmConsensusMessage messages =>
      rlp_list 2 [app u8_codec MESSAGE_ID_CONSENSUS_MESSAGE; app_list bytes_codec messages]
  | TmProposalBlock signature view message =>
      rlp_list 4 [app u8_codec MESSAGE_ID_PROPOSAL_BLOCK; app H512_codec signature;
                  app u64_codec view; app bytes_codec (compress_vec message)]
  | TmStepState vote_step proposal lock_view known_votes =>
      rlp_list 5 [app u8_codec MESSAGE_ID_STEP_STATE; app VoteStep_codec vote_step;
                  app (option_codec H256_codec) proposal; app (option_codec u64_codec) lock_view;
                  append (BitSet_append known_votes)]
  | TmRequestMessage vote_step requested_votes =>
      rlp_list 3 [app u8_codec MESSAGE_ID_REQUEST_MESSAGE; app VoteStep_codec vote_step;
                  append (BitSet_append requested_votes)]
  | TmRequestProposal height view =>
      rlp_list 3 [app u8_codec MESSAGE_ID_REQUEST_PROPOSAL; app u64_codec height;
                  app u64_codec view]
  end.

(** The check of the number of items that each arm starts with. *)
Definition expect_items (rlp : bytes) (expected : N) : rlpR () :=
  n ← item_count rlp;
  if negb (n =? expected) then Err (RlpError.RlpIncorrectListLen expected n) else Ok tt.

Definition TendermintMessage_decode (rlp : bytes) : rlpR TendermintMessage :=
  id ← val_at (decode u8_codec) rlp 0;
  if id =? MESSAGE_ID_CONSENSUS_MESSAGE then
    _ ← expect_items rlp 2;
    messages ← list_at (decode bytes_codec) rlp 1;
    Ok (TmConsensusMessage messages)
  else if id =? MESSAGE_ID_PROPOSAL_BLOCK then
    _ ← expect_items rlp 4;
    signature ← at_ rlp 1;
    view ← at_ rlp 2;
    compressed_message ← val_at (decode bytes_codec) rlp 3;
    uncompressed_message ←
      ok_or (decompress_vec compressed_message) (RlpError.Custom "Invalid compression format");
    signature ← decode H512_codec signature;
    view ← decode u64_codec view;
    Ok (TmProposalBlock signature view uncompressed_message)
  else if id =? MESSAGE_ID_STEP_STATE then
    _ ← expect_items rlp 5;
    vote_step ← val_at (decode VoteStep_codec) rlp 1;
    proposal ← val_at (decode (option_codec H256_codec)) rlp 2;
    lock_view ← val_at (decode (option_codec u64_codec)) rlp 3;
    known_votes ← val_at BitSet_decode rlp 4;
    Ok (TmStepState vote_step proposal lock_view known_votes)
  else if id =? MESSAGE_ID_REQUEST_MESSAGE then
    _ ← expect_items rlp 3;
    vote_step ← val_at (decode VoteStep_codec) rlp 1;
    requested_votes ← val_at BitSet_decode rlp 2;
    Ok (TmRequestMessage vote_step requested_votes)
  else if id =? MESSAGE_ID_REQUEST_PROPOSAL then
    _ ← expect_items rlp 3;
    height ← val_at (decode u64_codec) rlp 1;
    view ← val_at (decode u64_codec) rlp 2;
    Ok (TmRequestProposal height view)
  else Err (RlpError.Custom "Unknown message id detected").
End Messages.

(** * The order of steps *)

Lemma step_number_inj a b : step_number a = step_number b → a = b.
Proof. by destruct a, b. Qed.

(** The position of a step in the lexicographic order. *)
Definition vs_before (a b : VoteStep) : Prop :=
  vs_height a < vs_height b ∨
  vs_height a = vs_height b ∧
    (vs_view a < vs_view b ∨
     vs_view a = vs_view b ∧ step_number (vs_step a) < step_number (vs_step b)).

Lemma VoteStep_ext a b :
  vs_height a = vs_height b → vs_view a = vs_view b → step_number (vs_step a) = step_number (vs_step b) →
  a = b.
Proof. destruct a, b. simpl. by intros -> -> ->%step_number_inj. Qed.

Lemma cmp_VoteStep a b :
  match cmp a b with Lt => vs_before a b | Eq => a = b | Gt => vs_before b a end.
Proof.
  unfold cmp, VoteStep_cmp, vs_before.
  destruct (N.eqb_spec (vs_height a) (vs_height b)) as [Hh|Hh]; simpl.
  - destruct (N.eqb_spec (vs_view a) (vs_view b)) as [Hv|Hv]; simpl.
    + destruct (N.compare_spec (step_number (vs_step a)) (step_number (vs_step b))); [|lia..].
      by apply VoteStep_ext.
    + destruct (N.compare_spec (vs_view a) (vs_view b)); lia.
  - destruct (N.compare_spec (vs_height a) (vs_height b)); lia.
Qed.

Lemma vs_before_irrefl a : ¬ vs_before a a.
Proof. unfold vs_before. lia. Qed.
Lemma vs_before_trans a b c : vs_before a b → vs_before b c → vs_before a c.
Proof. unfold vs_before. lia. Qed.

Lemma cmp_lt_before (a b : VoteStep) : cmp a b = Lt ↔ vs_before a b.
Proof.
  pose proof (cmp_VoteStep a b) as Hc. destruct (cmp a b); split; try done.
  - subst. by intros ?%vs_before_irrefl.
  - intros Hb. by destruct (vs_before_irrefl a (vs_before_trans _ _ _ Hb Hc)).
Qed.

#[global] Instance VoteStep_cmp_ok : CompareOk VoteStep.
Proof.
  split.
  - intros a b. split; [intros He; pose proof (cmp_VoteStep a b) as Hc; by rewrite He in Hc|].
    intros ->. pose proof (cmp_VoteStep b b) as Hc. destruct (cmp b b); [done|..];
      by destruct (vs_before_irrefl b).
  - intros a b. pose proof (cmp_VoteStep a b) as Hc. destruct (cmp a b) eqn:Hab; simpl.
    + subst. pose proof (cmp_VoteStep b b) as Hb. destruct (cmp b b); [done|..];
        by destruct (vs_before_irrefl b).
    + pose proof (cmp_VoteStep b a) as Hd. destruct (cmp b a); [|exfalso|done].
      * subst. by destruct (vs_before_irrefl a).
      * by apply (vs_before_irrefl a), (vs_before_trans _ b).
    + by apply cmp_lt_before.
  - intros a b c. rewrite !cmp_lt_before. apply vs_before_trans.
Qed.

Lemma vs_lt_before a b : vs_lt a b = true ↔ vs_before a b.
Proof. rewrite <-cmp_lt_before. unfold vs_lt. by destruct (cmp a b). Qed.

(** * The codecs keep their promises *)

#[global, refine] Instance Step_codec_ok : CodecOk Step_codec := {|
  item s := item u8_codec (step_number s);
  wf s := True |}.
Proof.
  - intros s. apply (codec_encodes (c := u8_codec)).
  - intros s _ Hf. cbn [decode Step_codec].
    rewrite (codec_decodes (c := u8_codec) (step_number s)); [by destruct s|by destruct s|done].
  - intros bs. cbn [decode Step_codec]. apply bind_no_panic; [apply codec_no_panic|]. intros n _. np_tac.
Defined.
#[global] Typeclasses Opaque Step_codec.
#[global] Instance Step_codec_typed : CodecTyped Step_codec.
Proof. done. Qed.

Ltac struct_np :=
  repeat match goal with
    | |- _ ≫= _ ≠ Panic => apply bind_no_panic; [|intros ? _]
    | |- val_at (decode _) _ _ ≠ Panic => apply val_at_no_panic, codec_no_panic
    | |- list_at (decode _) _ _ ≠ Panic => apply list_at_no_panic, codec_no_panic
    | |- Ok _ ≠ Panic => discriminate
    end.

#[global, refine] Instance VoteStep_codec_ok : CodecOk VoteStep_codec := {|
  item s := List [item u64_codec (vs_height s); item u64_codec (vs_view s); item Step_codec (vs_step s)];
  wf s := wf u64_codec (vs_height s) ∧ wf u64_codec (vs_view s) |}.
Proof.
  - intros s. cbn [rlp_append VoteStep_codec]. encodes_tac.
  - intros [] [? ?] Hf. cbn [decode VoteStep_codec]. decodes_tac.
  - intros bs. cbn [decode VoteStep_codec]. struct_np.
Defined.
#[global] Typeclasses Opaque VoteStep_codec.
#[global] Instance VoteStep_codec_typed : CodecTyped VoteStep_codec.
Proof. intros bs x Hb. cbn [decode VoteStep_codec]. intros Hd. inv_ok. simplify_eq. by typed_tac. Qed.

#[global, refine] Instance VoteOn_codec_ok : CodecOk VoteOn_codec := {|
  item s := List [item VoteStep_codec (vo_step s); item (option_codec H256_codec) (vo_block_hash s)];
  wf s := wf VoteStep_codec (vo_step s) ∧ wf (option_codec H256_codec) (vo_block_hash s) |}.
Proof.
  - intros s. cbn [rlp_append VoteOn_codec]. encodes_tac.
  - intros [] [? ?] Hf. cbn [decode VoteOn_codec]. decodes_tac.
  - intros bs. cbn [decode VoteOn_codec]. struct_np.
Defined.
#[global] Typeclasses Opaque VoteOn_codec.
#[global] Instance VoteOn_codec_typed : CodecTyped VoteOn_codec.
Proof. intros bs x Hb. cbn [decode VoteOn_codec]. intros Hd. inv_ok. simplify_eq. by typed_tac. Qed.

#[global, refine] Instance ConsensusMessage_codec_ok : CodecOk ConsensusMessage_codec := {|
  item s := List [item VoteOn_codec (cm_on s); item H512_codec (cm_signature s);
                  item usize_codec (cm_signer_index s)];
  wf s := wf VoteOn_codec (cm_on s) ∧ wf H512_codec (cm_signature s) ∧
          wf usize_codec (cm_signer_index s) |}.
Proof.
  - intros s. cbn [rlp_append ConsensusMessage_codec]. encodes_tac.
  - intros [] (? & ? & ?) Hf. cbn [decode ConsensusMessage_codec]. decodes_tac.
  - intros bs. cbn [decode ConsensusMessage_codec]. struct_np.
Defined.
#[global] Typeclasses Opaque ConsensusMessage_codec.
#[global] Instance ConsensusMessage_codec_typed : CodecTyped ConsensusMessage_codec.
Proof.
  intros bs x Hb. cbn [decode ConsensusMessage_codec]. intros Hd. inv_ok. simplify_eq. by typed_tac.
Qed.

(** The votes of the engine are votes of the staking contract. *)
#[global] Instance ConsensusMessage_message `{Crypto, Schnorr} : Message ConsensusMessage := {|
  msg_codec := ConsensusMessage_codec;
  Round := VoteStep;
  msg_height := cm_height;
  msg_round := cm_round;
  msg_signer_index := cm_signer_index;
  msg_verify := cm_verify;
|}.
#[global] Instance ConsensusMessage_laws `{Crypto} `{SchnorrLaws} : MessageLaws ConsensusMessage.
Proof.
  split.
  - intros [[]] [[]]. cbn. by intros ->.
  - intros m p. apply verify_schnorr_no_panic.
Qed.

(** * Messages between nodes *)

Section MessageForms.
Context `{Snappy}.

(** The item of a message, and the messages whose fields are of their types. *)
Definition tm_item (m : TendermintMessage) : rlp_item :=
  match m with
  | TmConsensusMessage messages =>
      List [item u8_codec MESSAGE_ID_CONSENSUS_MESSAGE; List (item bytes_codec <$> messages)]
  | TmProposalBlock signature view message =>
      List [item u8_codec MESSAGE_ID_PROPOSAL_BLOCK; item H512_codec signature; item u64_codec view;
            item bytes_codec (compress_vec message)]
  | TmStepState vote_step proposal lock_view known_votes =>
      List [item u8_codec MESSAGE_ID_STEP_STATE; item VoteStep_codec vote_step;
            item (option_codec H256_codec) proposal; item (option_codec u64_codec) lock_view;
            Data known_votes]
  | TmRequestMessage vote_step requested_votes =>
      List [item u8_codec MESSAGE_ID_REQUEST_MESSAGE; item VoteStep_codec vote_step;
            Data requested_votes]
  | TmRequestProposal height view =>
      List [item u8_codec MESSAGE_ID_REQUEST_PROPOSAL; item u64_codec height; item u64_codec view]
  end.

Definition tm_wf (m : TendermintMessage) : Prop :=
  match m with
  | TmConsensusMessage _ => True
  | TmProposalBlock signature view _ => wf H512_codec signature ∧ wf u64_codec view
  | TmStepState vote_step proposal lock_view known_votes =>
      wf VoteStep_codec vote_step ∧ wf (option_codec H256_codec) proposal ∧
      wf (option_codec u64_codec) lock_view ∧ len known_votes = BITSET_SIZE
  | TmRequestMessage vote_step requested_votes =>
      wf VoteStep_codec vote_step ∧ len requested_votes = BITSET_SIZE
  | TmRequestProposal height view => wf u64_codec height ∧ wf u64_codec view
  end.

(** A bit set goes last, where it is one item. *)
Ltac encodes_last_tac :=
  apply begin_list_encodes_last; [|reflexivity];
  repeat (apply appends_more; [apply app_appends|]);
  apply appends_one, BitSet_appends_last.

Lemma TendermintMessage_encodes m : encodes (TendermintMessage_append m) (tm_item m).
Proof.
  destruct m; cbn [TendermintMessage_append tm_item].
  - encodes_tac.
  - encodes_tac.
  - encodes_last_tac.
  - encodes_last_tac.
  - encodes_tac.
Qed.

Lemma expect_items_step {B} l n (f : () → rlpR B) r :
  fits (List l) → len l = n → f tt = r → expect_items (enc (List l)) n ≫= f = r.
Proof. intros Hf <- <-. unfold expect_items. rewrite item_count_enc, Ok_bind by done. by rewrite N.eqb_refl. Qed.

Lemma BitSet_step {B} l k b (f : BitSet → rlpR B) r :
  fits (List l) → l !! N.to_nat k = Some (Data b) → len b = BITSET_SIZE → f b = r →
  val_at BitSet_decode (enc (List l)) k ≫= f = r.
Proof.
  intros Hf Hk Hb <-. rewrite (val_at_enc _ l k _ Hf Hk), BitSet_decodes; [done|done|].
  eapply fits_elem; [done|]. by eapply list_elem_of_lookup_2.
Qed.

Lemma at_step {B} l k i (f : bytes → rlpR B) r :
  fits (List l) → l !! N.to_nat k = Some i → f (enc i) = r → at_ (enc (List l)) k ≫= f = r.
Proof.
  intros Hf Hk <-. pose proof (val_at_enc (T := bytes) Ok l k i Hf Hk) as Hv. unfold val_at in Hv.
  apply bind_Ok in Hv as (x & -> & [= ->]). done.
Qed.

Lemma decode_step {T B} (c : Codec T) `{!CodecOk c} x (f : T → rlpR B) r :
  wf c x → fits (item c x) → f x = r → decode c (enc (item c x)) ≫= f = r.
Proof. intros Hx Hf <-. by rewrite codec_decodes. Qed.

Ltac fields_tac :=
  repeat first
    [ eapply expect_items_step; [eassumption|reflexivity|]
    | eapply BitSet_step; [eassumption|reflexivity|eassumption|]
    | eapply at_step; [eassumption|reflexivity|]
    | progress decodes_tac ].

Lemma TendermintMessage_decodes `{!SnappyLaws} m :
  tm_wf m → fits (tm_item m) → TendermintMessage_decode (enc (tm_item m)) = Ok m.
Proof.
  destruct m as [messages|signature view message|vote_step proposal lock_view votes|vote_step votes|
    height view]; cbn [tm_wf tm_item]; intros Hw Hf; unfold TendermintMessage_decode;
    (eapply val_at_step; [exact Hf|reflexivity|reflexivity|]); cbn [N.eqb Pos.eqb
      MESSAGE_ID_CONSENSUS_MESSAGE MESSAGE_ID_PROPOSAL_BLOCK MESSAGE_ID_STEP_STATE
      MESSAGE_ID_REQUEST_MESSAGE MESSAGE_ID_REQUEST_PROPOSAL].
  - assert (Forall (wf bytes_codec) messages) by (by apply Forall_true). fields_tac.
  - destruct Hw as [Hs Hv]. fields_tac. rewrite decompress_compress. cbn [ok_or]. rewrite Ok_bind.
    assert (∀ i, i ∈ _ → fits i) as Hfe by (intros i; apply (fits_elem _ i Hf)).
    apply decode_step; [done|by apply Hfe, (list_elem_of_lookup_2 _ 1)|].
    apply decode_step; [done|by apply Hfe, (list_elem_of_lookup_2 _ 2)|done].
  - destruct Hw as (? & ? & ? & ?). fields_tac.
  - destruct Hw as [? ?]. fields_tac.
  - destruct Hw as [? ?]. fields_tac.
Qed.

(** Every message between nodes is encoded without unwinding and decoded back to itself. *)
Theorem TendermintMessage_roundtrip `{!SnappyLaws} m :
  tm_wf m → fits (tm_item m) →
  ∃ bs, drain (TendermintMessage_append m) = Ok bs ∧ TendermintMessage_decode bs = Ok m.
Proof.
  intros Hw Hf. exists (enc (tm_item m)). split; [|by apply TendermintMessage_decodes].
  by apply drain_encodes; [apply TendermintMessage_encodes|].
Qed.

Lemma expect_items_no_panic rlp n : expect_items rlp n ≠ Panic.
Proof. apply bind_no_panic; [apply item_count_no_panic|]. intros k _. np_tac. Qed.

Lemma BitSet_decode_typed bs b : bytes_ok bs → BitSet_decode bs = Ok b → bs_ok b.
Proof.
  apply decode_value_typed. intros d y Hd. cbv zeta.
  destruct (N.ltb_spec BITSET_SIZE (len d)); [done|]. destruct (N.ltb_spec (len d) BITSET_SIZE); [done|].
  intros [= <-]. split; [lia|done].
Qed.

(** C29: Whatever bytes a peer sends, decoding them does not unwind, and a message that is decoded
    has fields of their types: integers in range, arrays of their lengths. *)
Theorem TendermintMessage_typed bs :
  bytes_ok bs →
  TendermintMessage_decode bs ≠ Panic ∧ ∀ m, TendermintMessage_decode bs = Ok m → tm_wf m.
Proof.
  intros Hb. unfold TendermintMessage_decode. split.
  - apply bind_no_panic; [apply val_at_no_panic, codec_no_panic|]. intros id _.
    repeat match goal with |- (if ?b then _ else _) ≠ Panic => destruct b end; [..|done];
      (apply bind_no_panic; [apply expect_items_no_panic|intros _ _]); struct_np;
      try apply val_at_no_panic, BitSet_decode_no_panic; try apply at_no_panic; try apply codec_no_panic.
    by destruct (decompress_vec _).
  - intros m Hm. inv_ok.
    repeat match goal with Hm : (if ?b then _ else _) = Ok _ |- _ => destruct b end; inv_ok; simplify_eq;
      simpl; [done|..].
    all: repeat match goal with Hd : val_at BitSet_decode _ _ = Ok _ |- _ =>
           unfold val_at in Hd; apply bind_Ok in Hd as (? & Hat & Hd);
           apply BitSet_decode_typed in Hd as [? _]; [|by eapply at_bytes_ok] end.
    all: typed_tac; try done.
    repeat match goal with Ha : at_ bs _ = Ok ?i, Hd : decode ?c ?i = Ok _ |- _ =>
      pose proof (codec_typed (c := c) _ _ (at_bytes_ok _ _ _ Hb Ha) Hd); clear Hd end.
    done.
Qed.

End MessageForms.
