(* ===== verification/VoteCollector.v ===== *)
(** The votes a node has seen: core/src/consensus/vote_collector.rs at the votes of Tendermint.
    The collector keeps what each round was voted for, counts each validator once and reports a
    validator that votes twice. *)
From stdpp Require Import base gmap list numbers sorting.
From Stdlib Require Import NArith Lia.
From S2P Require Import Prelude Types Crypto BTree BitSet TmMessage.

Local Open Scope N_scope.

(** The order in which the maps of the standard library are walked depends on the seed of their
    hashes: some permutation. *)
Class HashOrder := { walk : ∀ {A : Type}, list A → list A }.
Class HashOrderLaws `{HashOrder} := { walk_perm {A : Type} (l : list A) : walk l ≡ₚ l }.

Record StepCollector := {
  sc_voted : gmap N ConsensusMessage;
  sc_block_votes : gmap (option H256) (list (N * SchnorrSignature));
  sc_messages : list ConsensusMessage;
}.

Definition StepCollector_default : StepCollector :=
  {| sc_voted := ∅; sc_block_votes := ∅; sc_messages := [] |}.

Record DoubleVote := {
  dv_author_index : N; dv_vote_one : ConsensusMessage; dv_vote_two : ConsensusMessage;
}.

(** [StepCollector::insert] *)
Definition sc_insert (self : StepCollector) (message : ConsensusMessage)
  : StepCollector * option DoubleVote :=
  if bool_decide (message ∈ sc_messages self) then (self, None)
  else
    let messages := sc_messages self ++ [message] in
    let index := cm_signer_index message in
    let voted := <[index := message]> (sc_voted self) in
    match sc_voted self !! index with
    | Some previous =>
        ({| sc_voted := voted; sc_block_votes := sc_block_votes self; sc_messages := messages |},
         Some {| dv_author_index := index; dv_vote_one := previous; dv_vote_two := message |})
    | None =>
        let votes := default [] (sc_block_votes self !! cm_block_hash message) in
        ({| sc_voted := voted;
            sc_block_votes := <[cm_block_hash message := bt_insert votes index (cm_signature message)]>
                                (sc_block_votes self);
            sc_messages := messages |}, None)
    end.

(** [StepCollector::count_block] *)
Definition count_block {E : Type} (self : StepCollector) (block_hash : option H256)
  : result E BitSet :=
  match sc_block_votes self !! block_hash with
  | Some votes => fold_res bs_set BitSet_new votes.*1
  | None => Ok BitSet_new
  end.

(** A collector as an ordered map from rounds. *)
Definition VoteCollector : Type := list (VoteStep * StepCollector).

Definition VoteCollector_default : VoteCollector := [(VoteStep_default, StepCollector_default)].

(** [VoteCollector::vote] *)
Definition vc_vote (self : VoteCollector) (message : ConsensusMessage)
  : VoteCollector * option DoubleVote :=
  let collector := default StepCollector_default (bt_get self (cm_round message)) in
  let '(collector, double) := sc_insert collector message in
  (bt_insert self (cm_round message) collector, double).

Definition is_old_or_known (self : VoteCollector) (message : ConsensusMessage) : bool :=
  let is_known :=
    match bt_get self (cm_round message) with
    | Some c => bool_decide (message ∈ sc_messages c)
    | None => false
    end in
  if is_known then true
  else
    match self with
    | (oldest, _) :: _ => vs_lt (cm_round message) oldest
    | [] => true
    end.

(** [VoteCollector::throw_out_old] *)
Definition throw_out_old {E : Type} (self : VoteCollector) (vote_round : VoteStep)
  : result E VoteCollector :=
  let new_collector := filter (λ x, vs_le vote_round x.1 = true) self in
  _ ← assert (match new_collector with [] => false | _ => true end);
  Ok new_collector.

Definition round_signatures_and_indices (self : VoteCollector) (round : VoteStep) (block_hash : H256)
  : list SchnorrSignature * list N :=
  match bt_get self round ≫= λ c, sc_block_votes c !! Some block_hash with
  | Some votes => (votes.*2, votes.*1)
  | None => ([], [])
  end.

Definition round_signature (self : VoteCollector) (round : VoteStep) (block_hash : H256)
  : option SchnorrSignature :=
  bt_get self round ≫= λ c, sc_block_votes c !! Some block_hash ≫= λ votes, head votes.*2.

Section Walks.
Context `{HashOrder}.

(** [StepCollector::count] *)
Definition sc_count {E : Type} (self : StepCollector) : result E BitSet :=
  fold_res (λ result '(_, votes),
    fold_res (λ result index,
      set ← is_set result index;
      _ ← assert (negb set);
      bs_set result index) result votes.*1)
    BitSet_new (walk (map_to_list (sc_block_votes self))).

(** [aligned_votes], [block_round_votes] and [round_votes] *)
Definition block_round_votes {E : Type} (self : VoteCollector) (round : VoteStep)
  (block_hash : option H256) : result E BitSet :=
  match bt_get self round with
  | Some votes => count_block votes block_hash
  | None => Ok BitSet_new
  end.
Definition aligned_votes {E : Type} (self : VoteCollector) (message : ConsensusMessage)
  : result E BitSet :=
  block_round_votes self (cm_round message) (cm_block_hash message).
Definition round_votes {E : Type} (self : VoteCollector) (vote_round : VoteStep) : result E BitSet :=
  match bt_get self vote_round with
  | Some votes => sc_count votes
  | None => Ok BitSet_new
  end.

Definition get_block_hashes (self : VoteCollector) (round : VoteStep) : list H256 :=
  match bt_get self round with
  | Some c => omap id (walk (map_to_list (sc_block_votes c)).*1)
  | None => []
  end.

Definition get_all (self : VoteCollector) : list ConsensusMessage :=
  self ≫= λ '(_, collector), walk (sc_messages collector).

Definition get_all_votes_in_round (self : VoteCollector) (round : VoteStep) : list ConsensusMessage :=
  match bt_get self round with Some c => walk (sc_messages c) | None => [] end.

Definition get_all_votes_and_indices_in_round (self : VoteCollector) (round : VoteStep)
  : list (N * ConsensusMessage) :=
  match bt_get self round with Some c => walk (map_to_list (sc_voted c)) | None => [] end.
End Walks.

(** * What is collected *)

(** The first vote of a validator. *)
Definition first_vote (l : list ConsensusMessage) (i : N) : option ConsensusMessage :=
  head (filter (λ m, cm_signer_index m = i) l).

Lemma first_vote_elem l i m : first_vote l i = Some m → m ∈ l ∧ cm_signer_index m = i.
Proof.
  unfold first_vote. intros Hm.
  assert (m ∈ filter (λ m, cm_signer_index m = i) l) as Hin.
  { destruct (filter _ l) as [|x k]; [done|]. injection Hm as ->. by left. }
  apply list_elem_of_filter in Hin. tauto.
Qed.

Lemma first_vote_some l m : m ∈ l → is_Some (first_vote l (cm_signer_index m)).
Proof.
  intros Hm. unfold first_vote.
  assert (m ∈ filter (λ m', cm_signer_index m' = cm_signer_index m) l) as Hin
    by (by apply list_elem_of_filter).
  by destruct (filter _ l); [apply not_elem_of_nil in Hin|].
Qed.

Lemma first_vote_snoc l m i :
  first_vote (l ++ [m]) i =
  match first_vote l i with
  | Some m' => Some m'
  | None => if bool_decide (cm_signer_index m = i) then Some m else None
  end.
Proof.
  unfold first_vote. rewrite list.filter_app, filter_cons, filter_nil.
  destruct (filter _ l) as [|x k]; [|done]. simpl. case_bool_decide; by case_decide.
Qed.

(** Each validator is counted once, for what it voted first; a map may have no entry or an empty one. *)
Record sc_ok (r : VoteStep) (c : StepCollector) : Prop := {
  sco_round m : m ∈ sc_messages c → cm_round m = r;
  sco_voted i : is_Some (sc_voted c !! i) ↔ is_Some (first_vote (sc_messages c) i);
  sco_votes b i sig : (i, sig) ∈ default [] (sc_block_votes c !! b) ↔
    ∃ m, first_vote (sc_messages c) i = Some m ∧ cm_block_hash m = b ∧ cm_signature m = sig;
  sco_sorted b : bt_ok (default [] (sc_block_votes c !! b));
}.

Definition vc_ok (c : VoteCollector) : Prop :=
  bt_ok c ∧ ∀ r sc, bt_get c r = Some sc → sc_ok r sc.

(** The votes of a round in the order of their arrival. *)
Definition messages_in (c : VoteCollector) (r : VoteStep) : list ConsensusMessage :=
  match bt_get c r with Some sc => sc_messages sc | None => [] end.

Lemma StepCollector_default_ok r : sc_ok r StepCollector_default.
Proof.
  split; simpl.
  - intros m Hm. by apply not_elem_of_nil in Hm.
  - intros i. rewrite lookup_empty. split; by intros [].
  - intros b i sig. rewrite lookup_empty. simpl. rewrite elem_of_nil. split; [done|by intros (? & ? & _)].
  - intros b. rewrite lookup_empty. constructor.
Qed.

Lemma sc_insert_ok r c m : sc_ok r c → cm_round m = r → sc_ok r (sc_insert c m).1.
Proof.
  intros Hc Hr. unfold sc_insert. case_bool_decide as Hin; [done|]. cbv zeta.
  destruct (sc_voted c !! cm_signer_index m) as [prev|] eqn:Hv.
  - assert (is_Some (first_vote (sc_messages c) (cm_signer_index m))) as Hf by (apply (sco_voted r); [done|by eexists]).
    assert (∀ i, first_vote (sc_messages c ++ [m]) i = first_vote (sc_messages c) i) as Hsame.
    { intros i. rewrite first_vote_snoc. destruct (first_vote (sc_messages c) i) eqn:Hi; [done|].
      case_bool_decide as He; [|done]. subst i. rewrite Hi in Hf. by destruct Hf. }
    split; cbn [fst sc_voted sc_block_votes sc_messages].
    + intros m'. rewrite elem_of_app, list_elem_of_singleton. intros [?| ->]; [by apply (sco_round r c)|done].
    + intros i. rewrite Hsame, <-(sco_voted r c) by done. rewrite lookup_insert_is_Some'.
      split; [intros [<-|?]; [by eexists|done]|by right].
    + intros b i sig. rewrite Hsame. by apply (sco_votes r c).
    + intros b. by apply (sco_sorted r).
  - assert (first_vote (sc_messages c) (cm_signer_index m) = None) as Hf.
    { apply eq_None_not_Some. rewrite <-(sco_voted r c), Hv by done. by intros []. }
    split; cbn [fst sc_voted sc_block_votes sc_messages].
    + intros m'. rewrite elem_of_app, list_elem_of_singleton. intros [?| ->]; [by apply (sco_round r c)|done].
    + intros i. rewrite lookup_insert_is_Some', first_vote_snoc, (sco_voted r c) by done.
      destruct (first_vote (sc_messages c) i) eqn:Hi; [split; [by eexists|by right; eexists]|].
      case_bool_decide as He; split; [by eexists|by left|intros [?|Hn]; [done|by destruct Hn]|by intros Hn; destruct Hn].
    + intros b i sig. rewrite first_vote_snoc. pose proof (sco_votes r c Hc b i sig) as Hold.
      destruct (decide (b = cm_block_hash m)) as [->|Hb].
      * rewrite lookup_insert_eq. simpl. rewrite bt_elem_insert by (by apply (sco_sorted r)). rewrite Hold.
        destruct (first_vote (sc_messages c) i) as [m'|] eqn:Hi.
        { split; [by intros [[-> ->]|[_ ?]]; [congruence|]|]. intros Hm'. right. split; [congruence|done]. }
        case_bool_decide as He; [|split; [by intros [[-> ->]|(_ & ? & ? & _)]|by intros (? & ? & _)]].
        split; [intros [[_ ->]|(_ & ? & ? & _)]; [by exists m|done]|].
        intros (m' & [= <-] & _ & <-). by left.
      * rewrite lookup_insert_ne, Hold by done.
        destruct (first_vote (sc_messages c) i) as [m'|] eqn:Hi; [done|].
        split; [by intros (? & ? & _)|]. case_bool_decide; [|by intros (? & ? & _)].
        intros (? & [= <-] & <- & _). done.
    + intros b. destruct (decide (b = cm_block_hash m)) as [->|Hb].
      * rewrite lookup_insert_eq. simpl. apply bt_insert_ok. by apply (sco_sorted r).
      * rewrite lookup_insert_ne by done. by apply (sco_sorted r).
Qed.

Lemma sc_insert_messages c m :
  sc_messages (sc_insert c m).1 =
  if bool_decide (m ∈ sc_messages c) then sc_messages c else sc_messages c ++ [m].
Proof. unfold sc_insert. case_bool_decide; [done|]. by destruct (sc_voted c !! _). Qed.

Lemma vc_vote_get c m r : bt_ok c →
  bt_get (vc_vote c m).1 r =
  if bool_decide (r = cm_round m)
  then Some (sc_insert (default StepCollector_default (bt_get c (cm_round m))) m).1
  else bt_get c r.
Proof.
  intros Hc. unfold vc_vote. cbv zeta. destruct (sc_insert _ m) as [sc d] eqn:Hi. simpl.
  rewrite bt_get_insert by done. case_bool_decide as Hr.
  - subst. by rewrite cmp_refl.
  - destruct (cmp r (cm_round m)) eqn:E; [by apply cmp_eq in E|done..].
Qed.

Lemma vc_vote_ok c m : vc_ok c → vc_ok (vc_vote c m).1.
Proof.
  intros [Hc Hall]. split.
  - unfold vc_vote. cbv zeta. destruct (sc_insert _ m). simpl. by apply bt_insert_ok.
  - intros r sc. rewrite vc_vote_get by done. case_bool_decide as Hr; [|apply Hall].
    intros [= <-]. subst r. apply sc_insert_ok; [|done].
    destruct (bt_get c (cm_round m)) eqn:Hg; [by apply Hall|apply StepCollector_default_ok].
Qed.

Lemma messages_in_vote c m r : bt_ok c →
  messages_in (vc_vote c m).1 r =
  if bool_decide (r = cm_round m ∧ m ∉ messages_in c r) then messages_in c r ++ [m] else messages_in c r.
Proof.
  intros Hc. unfold messages_in at 1. rewrite vc_vote_get by done.
  case_bool_decide as Hr.
  - subst r. rewrite sc_insert_messages.
    replace (sc_messages (default _ _)) with (messages_in c (cm_round m))
      by (unfold messages_in; by destruct (bt_get c (cm_round m))).
    destruct (decide (m ∈ messages_in c (cm_round m))) as [Hin|Hin].
    + rewrite bool_decide_eq_true_2, bool_decide_eq_false_2 by tauto. done.
    + rewrite bool_decide_eq_false_2, bool_decide_eq_true_2 by tauto. done.
  - rewrite bool_decide_eq_false_2; [done|]. tauto.
Qed.

(** A vote that is collected stays the first vote of its validator. *)
Lemma elem_of_messages_in_vote c m r m' : bt_ok c →
  m' ∈ messages_in (vc_vote c m).1 r ↔ m' ∈ messages_in c r ∨ m' = m ∧ r = cm_round m.
Proof.
  intros Hc. rewrite messages_in_vote by done. case_bool_decide as Hd.
  - destruct Hd as [-> _]. rewrite elem_of_app, list_elem_of_singleton. naive_solver.
  - split; [by left|]. intros [?|[-> ->]]; [done|]. destruct (decide (m ∈ messages_in c (cm_round m))); tauto.
Qed.

Lemma first_vote_vote c m r i m' : bt_ok c →
  first_vote (messages_in c r) i = Some m' → first_vote (messages_in (vc_vote c m).1 r) i = Some m'.
Proof.
  intros Hc Hf. rewrite messages_in_vote by done. case_bool_decide; [|done].
  by rewrite first_vote_snoc, Hf.
Qed.

Lemma VoteCollector_default_ok : vc_ok VoteCollector_default.
Proof.
  split; [repeat constructor|]. intros r sc. unfold VoteCollector_default. simpl.
  destruct (cmp r VoteStep_default) eqn:E; [|done..]. intros [= <-]. apply StepCollector_default_ok.
Qed.

(** The rounds from a round on. *)
Lemma filter_get (c : VoteCollector) (P : VoteStep * StepCollector → Prop) `{∀ x, Decision (P x)} r sc :
  bt_ok c → bt_ok (filter P c) ∧ (bt_get (filter P c) r = Some sc ↔ bt_get c r = Some sc ∧ P (r, sc)).
Proof.
  intros Hc. assert (bt_ok (filter P c)) as Hf by (by apply bt_filter_ok). split; [done|]. rewrite !bt_get_elem by done. rewrite list_elem_of_filter. tauto.
Qed.

Lemma throw_out_old_ok {E} c r c' :
  vc_ok c → throw_out_old (E:=E) c r = Ok c' →
  vc_ok c' ∧ ∀ r', messages_in c' r' = messages_in c r' ∨ messages_in c' r' = [].
Proof.
  intros [Hc Hall]. unfold throw_out_old. cbv zeta. intros Ht. inv_ok. split; [split|].
  - by eapply (filter_get c _ r StepCollector_default).
  - intros r' sc [Hg _]%(filter_get c); [by apply Hall|done].
  - intros r'. unfold messages_in. destruct (bt_get (filter _ c) r') as [sc|] eqn:Hg; [|by right].
    apply filter_get in Hg as [-> _]; [by left|done].
Qed.

(** * Counting *)

Lemma fold_set_ok {E} l b : bs_ok b → Forall (λ i, i < MAX_VALIDATOR_SIZE) l →
  ∃ b', fold_res (E:=E) bs_set b l = Ok b' ∧ bs_ok b' ∧ ∀ j, bit b' j = true ↔ j ∈ l ∨ bit b j = true.
Proof.
  intros Hb Hl. revert b Hb. induction Hl as [|i l Hi Hl IH]; intros b Hb; simpl.
  - exists b. split; [done|split; [done|]]. intros j. rewrite elem_of_nil. naive_solver.
  - destruct (bs_set_ok (E:=E) b i Hb Hi) as (b1 & -> & Hb1 & Hbit). rewrite Ok_bind.
    destruct (IH b1 Hb1) as (b' & -> & Hb' & Hj). exists b'. split; [done|split; [done|]].
    intros j. rewrite Hj, Hbit, orb_true_iff, bool_decide_eq_true, elem_of_cons. tauto.
Qed.

Lemma fold_set_inv {E} l b b' : bs_ok b → fold_res (E:=E) bs_set b l = Ok b' →
  bs_ok b' ∧ ∀ j, bit b' j = true ↔ j ∈ l ∨ bit b j = true.
Proof.
  revert b. induction l as [|i l IH]; intros b Hb; cbn [fold_res].
  - intros [= ->]. split; [done|]. intros j. rewrite elem_of_nil. naive_solver.
  - intros (b1 & Hs & Hf)%bind_Ok. apply bs_set_inv in Hs as (_ & Hb1 & Hbit); [|done].
    destruct (IH b1 Hb1 Hf) as [Hb' Hj]. split; [done|].
    intros j. rewrite Hj, Hbit, orb_true_iff, bool_decide_eq_true, elem_of_cons. tauto.
Qed.

Section Counts.
Context `{HashOrderLaws} {E : Type}.

(** All signers fit the bit set. *)
Definition signers_fit (c : VoteCollector) (r : VoteStep) : Prop :=
  ∀ m, m ∈ messages_in c r → cm_signer_index m < MAX_VALIDATOR_SIZE.

Lemma block_votes_signers c r sc b i :
  vc_ok c → bt_get c r = Some sc →
  i ∈ (default [] (sc_block_votes sc !! b)).*1 ↔
  ∃ m, first_vote (messages_in c r) i = Some m ∧ cm_block_hash m = b.
Proof.
  intros [_ Hall] Hg. pose proof (Hall r sc Hg) as Hs. unfold messages_in. rewrite Hg.
  rewrite list_elem_of_fmap. split.
  - intros ([i' sig] & -> & Hin). apply (sco_votes r sc Hs) in Hin as (m & ? & ? & _). eauto.
  - intros (m & Hf & Hb). exists (i, cm_signature m). split; [done|]. apply (sco_votes r sc Hs). eauto.
Qed.

Lemma block_votes_fit c r sc b :
  vc_ok c → signers_fit c r → bt_get c r = Some sc →
  Forall (λ i, i < MAX_VALIDATOR_SIZE) (default [] (sc_block_votes sc !! b)).*1.
Proof.
  intros Hc Hf Hg. apply Forall_forall. intros i Hi. apply (block_votes_signers c r) in Hi as (m & Hm & _); [|done..].
  apply first_vote_elem in Hm as [Hm <-]. by apply Hf.
Qed.

Lemma block_round_votes_ok c r b : vc_ok c → signers_fit c r →
  ∃ s, block_round_votes (E:=E) c r b = Ok s ∧ bs_ok s ∧
    ∀ i, bit s i = true ↔ ∃ m, first_vote (messages_in c r) i = Some m ∧ cm_block_hash m = b.
Proof.
  intros Hc Hf. unfold block_round_votes. destruct (bt_get c r) as [sc|] eqn:Hg.
  - pose proof (block_votes_signers c r sc b) as Hs. pose proof (block_votes_fit c r sc b Hc Hf Hg) as Hfit.
    unfold count_block. destruct (sc_block_votes sc !! b) as [votes|]; simpl in Hs, Hfit.
    + destruct (fold_set_ok (E:=E) votes.*1 BitSet_new BitSet_new_ok Hfit) as (s & -> & Hok & Hbit).
      exists s. split; [done|split; [done|]]. intros i. rewrite Hbit, bit_new, Hs by done. naive_solver.
    + exists BitSet_new. split; [done|split; [apply BitSet_new_ok|]]. intros i.
      rewrite bit_new, <-Hs, elem_of_nil by done. done.
  - exists BitSet_new. split; [done|split; [apply BitSet_new_ok|]]. intros i. rewrite bit_new.
    unfold messages_in. rewrite Hg. split; [done|by intros (? & ? & _)].
Qed.

(** What is counted for a block has been voted for it. *)
Lemma block_round_votes_inv c r b s : vc_ok c → block_round_votes (E:=E) c r b = Ok s →
  bs_ok s ∧ ∀ i, bit s i = true → ∃ m, m ∈ messages_in c r ∧ cm_signer_index m = i ∧ cm_block_hash m = b.
Proof.
  intros Hc. unfold block_round_votes, count_block. destruct (bt_get c r) as [sc|] eqn:Hg.
  - pose proof (block_votes_signers c r sc b) as Hs. destruct (sc_block_votes sc !! b) as [votes|].
    + intros (Hok & Hbit)%fold_set_inv; [|apply BitSet_new_ok]. split; [done|].
      intros i [Hi|Hi]%Hbit; [|by rewrite bit_new in Hi].
      apply Hs in Hi as (m & Hm & Hb); [|done..]. apply first_vote_elem in Hm as [Hm <-]. eauto.
    + intros [= <-]. split; [apply BitSet_new_ok|]. intros i. by rewrite bit_new.
  - intros [= <-]. split; [apply BitSet_new_ok|]. intros i. by rewrite bit_new.
Qed.

Lemma fold_once_ok l b : bs_ok b → Forall (λ i, i < MAX_VALIDATOR_SIZE) l → NoDup l →
  (∀ i, i ∈ l → bit b i = false) →
  ∃ b', fold_res (E:=E) (λ result index,
      set ← is_set result index; _ ← assert (negb set); bs_set result index) b l = Ok b' ∧
    bs_ok b' ∧ ∀ j, bit b' j = true ↔ j ∈ l ∨ bit b j = true.
Proof.
  intros Hb Hl. revert b Hb. induction Hl as [|i l Hi Hl IH]; intros b Hb Hnd Hout; simpl.
  - exists b. split; [done|split; [done|]]. intros j. rewrite elem_of_nil. naive_solver.
  - apply list.NoDup_cons in Hnd as [Hil Hnd].
    rewrite is_set_ok, (Hout i) by (done || by left). rewrite Ok_bind. simpl negb. cbn [assert]. rewrite Ok_bind.
    destruct (bs_set_ok (E:=E) b i Hb Hi) as (b1 & -> & Hb1 & Hbit). rewrite Ok_bind.
    destruct (IH b1 Hb1 Hnd) as (b' & -> & Hb' & Hj).
    { intros j Hj. rewrite Hbit, (Hout j) by (by right). rewrite bool_decide_eq_false_2; [done|]. by intros ->. }
    exists b'. split; [done|split; [done|]].
    intros j. rewrite Hj, Hbit, orb_true_iff, bool_decide_eq_true, elem_of_cons. tauto.
Qed.

Lemma fold_rounds_ok (ls : list (option H256 * list (N * SchnorrSignature))) b :
  bs_ok b → Forall (λ i, i < MAX_VALIDATOR_SIZE) (ls ≫= λ x, x.2.*1) → NoDup (ls ≫= λ x, x.2.*1) →
  (∀ i, i ∈ (ls ≫= λ x, x.2.*1) → bit b i = false) →
  ∃ b', fold_res (E:=E) (λ result '(_, votes), fold_res (λ result index,
      set ← is_set result index; _ ← assert (negb set); bs_set result index) result votes.*1) b ls = Ok b' ∧
    bs_ok b' ∧ ∀ j, bit b' j = true ↔ j ∈ (ls ≫= λ x, x.2.*1) ∨ bit b j = true.
Proof.
  revert b. induction ls as [|[h votes] ls IH]; intros b Hb Hl Hnd Hout; simpl.
  - exists b. split; [done|split; [done|]]. intros j. rewrite elem_of_nil. naive_solver.
  - rewrite bind_cons in *. apply Forall_app in Hl as [Hl1 Hl2].
    apply NoDup_app in Hnd as (Hnd1 & Hdis & Hnd2).
    destruct (fold_once_ok votes.*1 b Hb Hl1 Hnd1) as (b1 & -> & Hb1 & Hbit).
    { intros i Hi. apply Hout, elem_of_app. by left. }
    rewrite Ok_bind. destruct (IH b1 Hb1 Hl2 Hnd2) as (b' & -> & Hb' & Hj).
    { intros i Hi. apply not_true_iff_false. rewrite Hbit. intros [Hin|Hin]; [by apply (Hdis i)|].
      rewrite Hout in Hin; [done|]. apply elem_of_app. by right. }
    exists b'. split; [done|split; [done|]]. intros j. rewrite Hj, Hbit, elem_of_app. tauto.
Qed.

Lemma round_votes_ok c r : vc_ok c → signers_fit c r →
  ∃ s, round_votes (E:=E) c r = Ok s ∧ bs_ok s ∧
    ∀ i, bit s i = true ↔ is_Some (first_vote (messages_in c r) i).
Proof.
  intros Hc Hf. unfold round_votes. destruct (bt_get c r) as [sc|] eqn:Hg.
  - unfold sc_count. set (ls := walk (map_to_list (sc_block_votes sc))).
    assert (∀ x, x ∈ ls ↔ sc_block_votes sc !! x.1 = Some x.2) as Hls.
    { intros [b v]. unfold ls. rewrite walk_perm. apply elem_of_map_to_list. }
    assert (∀ b v i, (b, v) ∈ ls → i ∈ v.*1 ↔
      ∃ m, first_vote (messages_in c r) i = Some m ∧ cm_block_hash m = b) as Hsig.
    { intros b v i Hin%Hls. simpl in Hin. rewrite <-(block_votes_signers c r sc) by done. by rewrite Hin. }
    assert (∀ i, i ∈ (ls ≫= λ x, x.2.*1) ↔ is_Some (first_vote (messages_in c r) i)) as Hall.
    { intros i. rewrite list_elem_of_bind. split.
      - intros ([b v] & Hi & Hin). apply (Hsig b v) in Hi as (m & -> & _); [by eexists|done].
      - intros [m Hm]. assert (∃ m', first_vote (messages_in c r) i = Some m' ∧ cm_block_hash m' = cm_block_hash m)
          as Hb by eauto. rewrite <-(block_votes_signers c r sc) in Hb by done.
        destruct (sc_block_votes sc !! cm_block_hash m) as [v|] eqn:Hv; [|by apply elem_of_nil in Hb].
        exists (cm_block_hash m, v). split; [done|]. by apply Hls. }
    destruct (fold_rounds_ok ls BitSet_new BitSet_new_ok) as (s & -> & Hok & Hbit).
    + apply Forall_forall. intros i [m Hm]%Hall. apply first_vote_elem in Hm as [Hm <-]. by apply Hf.
    + apply NoDup_bind.
      * intros [b1 v1] [b2 v2] i H1 H2 Hi1 Hi2. apply (Hsig b1 v1 i H1) in Hi1 as (m1 & Hm1 & <-).
        apply (Hsig b2 v2 i H2) in Hi2 as (m2 & Hm2 & <-). simplify_eq.
        apply Hls in H1. apply Hls in H2. simpl in *. by simplify_eq.
      * intros [b v] Hin%Hls. simpl in *. apply bt_keys_nodup.
        pose proof (sco_sorted r sc (proj2 Hc r sc Hg) b) as Hso. by rewrite Hin in Hso.
      * unfold ls. rewrite walk_perm. apply NoDup_map_to_list.
    + intros i _. apply bit_new.
    + exists s. split; [done|split; [done|]]. intros i. rewrite Hbit, Hall, bit_new. naive_solver.
  - exists BitSet_new. split; [done|split; [apply BitSet_new_ok|]]. intros i. rewrite bit_new.
    unfold messages_in. rewrite Hg. split; [done|by intros []].
Qed.
End Counts.

(** * Histories *)

Section History.
Context `{HashOrderLaws} {E : Type}.

(** The collector after the votes [ms] have arrived in this order. *)
Definition collected (ms : list ConsensusMessage) : VoteCollector :=
  foldl (λ c m, (vc_vote c m).1) VoteCollector_default ms.

(** The first vote of a validator in a round. *)
Definition first_in_round (ms : list ConsensusMessage) (r : VoteStep) (i : N) : option ConsensusMessage :=
  first_vote (filter (λ m, cm_round m = r) ms) i.

Lemma collected_snoc ms m : collected (ms ++ [m]) = (vc_vote (collected ms) m).1.
Proof. unfold collected. by rewrite foldl_app. Qed.

Lemma collected_ok ms : vc_ok (collected ms).
Proof.
  induction ms as [|m ms IH] using rev_ind; [apply VoteCollector_default_ok|].
  rewrite collected_snoc. by apply vc_vote_ok.
Qed.

Lemma collected_elem ms r m : m ∈ messages_in (collected ms) r ↔ m ∈ ms ∧ cm_round m = r.
Proof.
  induction ms as [|m' ms IH] using rev_ind.
  - unfold collected, messages_in, VoteCollector_default. simpl. destruct (cmp r VoteStep_default);
      rewrite elem_of_nil; simpl; rewrite ?elem_of_nil; tauto.
  - rewrite collected_snoc, elem_of_messages_in_vote, IH, elem_of_app, list_elem_of_singleton by apply collected_ok.
    naive_solver.
Qed.

Lemma collected_first ms r i :
  first_vote (messages_in (collected ms) r) i = first_in_round ms r i.
Proof.
  induction ms as [|m ms IH] using rev_ind.
  - unfold collected, messages_in, VoteCollector_default. simpl. by destruct (cmp r VoteStep_default).
  - rewrite collected_snoc, messages_in_vote by apply collected_ok.
    unfold first_in_round in *. rewrite list.filter_app, filter_cons, filter_nil.
    destruct (decide (cm_round m = r)) as [<-|Hr].
    + rewrite first_vote_snoc, <-IH. case_bool_decide as Hd.
      * by rewrite first_vote_snoc.
      * destruct (decide (m ∈ messages_in (collected ms) (cm_round m))) as [Hin|]; [|tauto].
        destruct (first_vote (messages_in (collected ms) (cm_round m)) i) eqn:Hf; [done|].
        case_bool_decide as Hi; [|done]. subst i. apply first_vote_some in Hin. rewrite Hf in Hin. by destruct Hin.
    + rewrite app_nil_r, bool_decide_eq_false_2; [done|]. intros [-> _]. done.
Qed.

(** A double vote is a new vote of a validator that has voted in the round. *)
Lemma vote_reports c m : vc_ok c →
  is_Some (vc_vote c m).2 ↔
  m ∉ messages_in c (cm_round m) ∧
  ∃ m', m' ∈ messages_in c (cm_round m) ∧ cm_signer_index m' = cm_signer_index m.
Proof.
  intros [Hc Hall]. unfold vc_vote, messages_in. cbv zeta.
  set (sc := default StepCollector_default (bt_get c (cm_round m))).
  assert (sc_ok (cm_round m) sc) as Hs.
  { unfold sc. destruct (bt_get c (cm_round m)) eqn:Hg; [by apply Hall|apply StepCollector_default_ok]. }
  replace (match bt_get c (cm_round m) with Some sc => sc_messages sc | None => [] end) with (sc_messages sc)
    by (unfold sc; by destruct (bt_get c (cm_round m))).
  pose proof (sco_voted _ _ Hs (cm_signer_index m)) as Hv. unfold sc_insert.
  case_bool_decide as Hin; [split; [by intros Hn; destruct Hn|by intros []]|]. cbv zeta.
  assert (is_Some (first_vote (sc_messages sc) (cm_signer_index m)) ↔
    ∃ m', m' ∈ sc_messages sc ∧ cm_signer_index m' = cm_signer_index m) as Hf.
  { split; [intros [m' []%first_vote_elem]; eauto|]. intros (m' & Hm' & <-). by apply first_vote_some. }
  rewrite <-Hf, <-Hv. destruct (sc_voted sc !! _); simpl; split; try (by intros []); by intros [? []].
Qed.

(** C28: However votes arrive, the collector counts for a round exactly the validators that voted
    in it, each for what it voted first, without unwinding, and reports a vote exactly when
    its validator has voted otherwise in the round. *)
Theorem votes_counted_once (ms : list ConsensusMessage) (r : VoteStep) :
  (∀ m, m ∈ ms → cm_signer_index m < MAX_VALIDATOR_SIZE) →
  (∀ b, ∃ s, block_round_votes (E:=E) (collected ms) r b = Ok s ∧
     ∀ i, i ∈ true_index_iter s ↔ ∃ m, first_in_round ms r i = Some m ∧ cm_block_hash m = b) ∧
  (∃ s, round_votes (E:=E) (collected ms) r = Ok s ∧
     ∀ i, i ∈ true_index_iter s ↔ ∃ m, m ∈ ms ∧ cm_round m = r ∧ cm_signer_index m = i) ∧
  (∀ m, is_Some (vc_vote (collected ms) m).2 ↔
     m ∉ ms ∧ ∃ m', m' ∈ ms ∧ cm_round m' = cm_round m ∧ cm_signer_index m' = cm_signer_index m).
Proof.
  intros Hfit. pose proof (collected_ok ms) as Hok.
  assert (signers_fit (collected ms) r) as Hf by (intros m [Hm _]%collected_elem; by apply Hfit).
  split; [|split].
  - intros b. destruct (block_round_votes_ok (E:=E) (collected ms) r b Hok Hf) as (s & -> & Hs & Hbit).
    exists s. split; [done|]. intros i. rewrite true_index_iter_indices, elem_of_indices, Hbit by done.
    by setoid_rewrite collected_first.
  - destruct (round_votes_ok (E:=E) (collected ms) r Hok Hf) as (s & -> & Hs & Hbit).
    exists s. split; [done|]. intros i. rewrite true_index_iter_indices, elem_of_indices, Hbit by done. split.
    + intros [m Hm]. apply first_vote_elem in Hm as [Hm Hi]. apply collected_elem in Hm as [? ?]. eauto.
    + intros (m & Hm & Hr & <-). apply first_vote_some, collected_elem. done.
  - intros m. rewrite vote_reports by done.
    split; (intros [Hn (m' & Hm' & Hi)]; split; [|exists m']); rewrite collected_elem in *; naive_solver.
Qed.
End History.
