(* ===== verification/Validators.v ===== *)
(** Validator sets: core/src/consensus/validator_set/ (validator_list.rs and
    dynamic_validator.rs), over what the client answers about the chain, and the errors of
    engines (core/src/consensus/mod.rs), where a malformed message carries what the source
    formats as text. *)
From stdpp Require Import base gmap list numbers.
From Stdlib Require Import NArith ZArith Lia.
From S2P Require Import Prelude Types Crypto Rlp Header BitSet StakeData.

Local Open Scope N_scope.

Inductive EngineError :=
| BlockNotAuthorized (address : Address)
| MessageWithInvalidSignature (height signer_index : N) (address : Address)
| FutureMessage (future_height current_height : N)
| ValidatorNotExist (height index : N)
| PrevBlockNotExist (height : N)
| EngineDoubleVote (address : Address)
| NotProposer (expected found : Address)
| UnexpectedMessage
| BadSealFieldSize (min max : option N) (found : N)
| MalformedMessage (cause : RlpError.t + String)
| CannotOpenBlock.

(** * The client *)

Inductive BlockId := ByHash (h : H256) | ByNumber (n : BlockNumber) | Latest.

(** What the node answers while an event is handled: headers and blocks as stored, with numbers
    along the canonical chain; the term after a block, and the validators in the state after a
    block where that state is at hand; the clock, in nanoseconds since the epoch; and what a
    transaction of its own needs. *)
Record Client := {
  cl_block_header : BlockId → option bytes;
  cl_block : BlockId → option bytes;
  cl_current_term_id : H256 → option N;
  cl_state_validators : H256 → option (list Validator);
  cl_now : Z;
  cl_network_id : NetworkId;
  cl_latest_seq : Address → N;
}.

(** [iter.position(p)] *)
Fixpoint position {A : Type} (p : A → bool) (l : list A) : option N :=
  match l with
  | [] => None
  | x :: l => if p x then Some 0 else N.succ <$> position p l
  end.

Section Sets.
Context `{Crypto}.

Abbreviation res := (result EngineError).

(** * [RoundRobinValidator] *)

(** [struct RoundRobinValidator]; the set of addresses is computed from the keys. *)
Definition RoundRobinValidator : Type := list Public.

Definition rr_contains (self : RoundRobinValidator) (public : Public) : bool :=
  bool_decide (public ∈ self).
Definition rr_contains_address (self : RoundRobinValidator) (address : Address) : bool :=
  bool_decide (address ∈ public_to_address <$> self).
Definition rr_get (self : RoundRobinValidator) (index : N) : res Public :=
  let validator_n := len self in
  _ ← assert (negb (validator_n =? 0));
  expect (self !! N.to_nat (index mod validator_n)).
Definition rr_get_index (self : RoundRobinValidator) (public : Public) : option N :=
  position (λ v, bool_decide (v = public)) self.
Definition rr_get_index_by_address (self : RoundRobinValidator) (address : Address) : option N :=
  position (λ v, bool_decide (public_to_address v = address)) self.
Definition rr_count (self : RoundRobinValidator) : N := len self.

Definition rr_next_block_proposer (c : Client) (self : RoundRobinValidator) (parent : H256) (view : N)
  : res (option Address) :=
  match cl_block_header c (ByHash parent) with
  | None => Ok None
  | Some header =>
      proposer ← hv_author header;
      _ ← hv_parent_hash header;
      prev_proposer_idx ← expect (rr_get_index_by_address self proposer);
      let proposer_index := u64_add (u64_add prev_proposer_idx 1) view in
      public ← rr_get self proposer_index;
      Ok (Some (public_to_address public))
  end.

Definition u64_mul (a b : N) : N := (a * b) mod u64_size.

Definition rr_check_enough_votes (self : RoundRobinValidator) (votes : BitSet) : res () :=
  let validator_count := rr_count self in
  let voted := bs_count votes in
  if u64_mul validator_count 2 <? u64_mul voted 3 then Ok tt
  else
    let threshold := u64_mul validator_count 2 / 3 in
    Err (BadSealFieldSize (Some threshold) None voted).

Definition rr_addresses (self : RoundRobinValidator) : list Address := public_to_address <$> self.

(** * [DynamicValidator] *)

(** [struct DynamicValidator]: the initial list, used until the first term is over. *)
Definition DynamicValidator : Type := RoundRobinValidator.

Context (c : Client) (self : DynamicValidator).

(** The validators elected in the state after a block, of greatest weight first. *)
Definition validators (parent : H256) : res (option (list Validator)) :=
  term_id ← expect (cl_current_term_id c parent);
  if term_id =? 0 then Ok None
  else
    match cl_state_validators c parent with
    | None => Ok None
    | Some [] => Ok None
    | Some vs => Ok (Some (reverse vs))
    end.

Definition validators_pubkey (parent : H256) : res (option (list Public)) :=
  vs ← validators parent;
  Ok (match vs : option (list Validator) with Some vs => Some (va_pubkey <$> vs) | None => None end).

Definition proposer_index (parent : H256) (prev_proposer_index proposed_view : N) : res N :=
  vs ← validators parent;
  match vs with
  | Some vs => Ok (proposed_view mod len vs)
  | None =>
      let num_validators := rr_count self in
      _ ← assert (negb (num_validators =? 0));
      Ok (u64_add (u64_add prev_proposer_index proposed_view) 1 mod num_validators)
  end.

Definition dv_contains (parent : H256) (public : Public) : res bool :=
  vs ← validators_pubkey parent;
  match vs with
  | Some vs => Ok (existsb (λ pubkey, bool_decide (pubkey = public)) vs)
  | None => Ok (rr_contains self public)
  end.

Definition dv_contains_address (parent : H256) (address : Address) : res bool :=
  vs ← validators_pubkey parent;
  match vs with
  | Some vs => Ok (existsb (λ pubkey, bool_decide (public_to_address pubkey = address)) vs)
  | None => Ok (rr_contains_address self address)
  end.

Definition dv_get (parent : H256) (index : N) : res Public :=
  vs ← validators_pubkey parent;
  match vs with
  | Some vs => expect (vs !! N.to_nat (index mod len vs))
  | None => rr_get self index
  end.

Definition dv_get_index (parent : H256) (public : Public) : res (option N) :=
  vs ← validators_pubkey parent;
  match vs with
  | Some vs => Ok (position (λ pubkey, bool_decide (pubkey = public)) vs)
  | None => Ok (rr_get_index self public)
  end.

Definition dv_get_index_by_address (parent : H256) (address : Address) : res (option N) :=
  vs ← validators_pubkey parent;
  match vs with
  | Some vs => Ok (position (λ pubkey, bool_decide (public_to_address pubkey = address)) vs)
  | None => Ok (rr_get_index_by_address self address)
  end.

Definition dv_next_block_proposer (parent : H256) (view : N) : res (option Address) :=
  vs ← validators_pubkey parent;
  match vs with
  | Some vs =>
      let index := view mod len vs in
      public ← expect (vs !! N.to_nat index);
      Ok (Some (public_to_address public))
  | None => rr_next_block_proposer c self parent view
  end.

Definition dv_count (parent : H256) : res N :=
  vs ← validators parent;
  match vs with Some vs => Ok (len vs) | None => Ok (rr_count self) end.

Definition dv_check_enough_votes (parent : H256) (votes : BitSet) : res () :=
  vs ← validators parent;
  match vs with
  | Some vs =>
      let n_validators := len vs in
      voted_delegation ← fold_res (λ voted_delegation index,
        _ ← assert (index <? n_validators);
        validator ← ok_or (vs !! N.to_nat index) (ValidatorNotExist 0 index);
        Ok (u64_add voted_delegation (va_delegation validator))) 0 (true_index_iter votes);
      let total_delegation := foldl (λ total v, u64_add total (va_delegation v)) 0 vs in
      if u64_mul total_delegation 2 <? u64_mul voted_delegation 3 then Ok tt
      else
        let threshold := u64_mul total_delegation 2 / 3 in
        Err (BadSealFieldSize (Some threshold) (Some total_delegation) voted_delegation)
  | None => rr_check_enough_votes self votes
  end.

Definition dv_addresses (parent : H256) : res (list Address) :=
  vs ← validators_pubkey parent;
  match vs : option (list Public) with
  | Some vs => Ok (public_to_address <$> vs)
  | None => Ok (rr_addresses self)
  end.
End Sets.
