(* ===== verification/Quorum.v ===== *)
(** Quorums: what [check_enough_votes] of the validator sets (validator_set/dynamic_validator.rs and
    validator_list.rs) asks of the votes.  Voters that are enough weigh more than two thirds of all,
    and any two such sets share a voter outside of any set that weighs at most a third. *)
From stdpp Require Import base gmap list numbers.
From Stdlib Require Import NArith ZArith Lia.
From S2P Require Import Prelude Types Crypto Header BitSet StakeData Validators.

Local Open Scope N_scope.

(** * Weights *)

Section Weights.
Context (ws : list N).

Definition weight_of (i : N) : N := default 0 (ws !! N.to_nat i).
Definition total_weight : N := sum_with id ws.
Definition weight (s : list N) : N := sum_with weight_of s.
(** More than two thirds *)
Definition heavy (s : list N) : Prop := 2 * total_weight < 3 * weight s.

Definition everyone : list N := N.of_nat <$> seq 0 (length ws).
(** The weight of those that satisfy a predicate. *)
Definition weight_where (P : N → bool) : N := sum_with (λ i, if P i then weight_of i else 0) everyone.

Lemma weight_everyone : total_weight = weight everyone.
Proof.
  unfold total_weight, weight, everyone, weight_of. induction ws as [|x l IH] using rev_ind; [done|].
  rewrite length_app, seq_app, fmap_app, !sum_with_app, IH. cbn [length seq plus]. f_equal.
  - apply sum_with_ext. intros i Hi. apply list_elem_of_fmap in Hi as (k & -> & Hk%elem_of_seq).
    rewrite Nat2N.id, lookup_app_l by lia. done.
  - unfold sum_with. cbn. rewrite Nat2N.id, lookup_app_r, Nat.sub_diag by lia. cbn. lia.
Qed.

Lemma elem_of_everyone i : i ∈ everyone ↔ i < len ws.
Proof.
  unfold everyone, len. rewrite list_elem_of_fmap. split.
  - intros (k & -> & Hk%elem_of_seq). lia.
  - intros Hi. exists (N.to_nat i). split; [lia|]. apply elem_of_seq. lia.
Qed.

Lemma NoDup_everyone : NoDup everyone.
Proof. apply NoDup_fmap_2; [intros x y; lia|apply NoDup_seq]. Qed.

Lemma sum_with_filter {A} (f : A → N) (P : A → Prop) `{∀ x, Decision (P x)} l :
  sum_with f (filter P l) = sum_with (λ x, if bool_decide (P x) then f x else 0) l.
Proof.
  induction l as [|x l IH]; [done|]. rewrite filter_cons, sum_with_cons.
  destruct (decide (P x)) as [Hp|Hp].
  - rewrite bool_decide_eq_true_2, sum_with_cons by done. lia.
  - rewrite bool_decide_eq_false_2 by done. lia.
Qed.

(** The voters outside of the validators weigh nothing. *)
Lemma weight_nodup s : NoDup s → weight s = weight_where (λ i, bool_decide (i ∈ s)).
Proof.
  intros Hs. unfold weight_where. rewrite <- sum_with_filter. unfold weight.
  transitivity (sum_with weight_of (filter (λ i, i < len ws) s)).
  - rewrite sum_with_filter. apply sum_with_ext. intros i _. case_bool_decide as Hi; [done|].
    unfold weight_of. by rewrite lookup_ge_None_2 by (unfold len in Hi; lia).
  - apply sum_with_perm. apply NoDup_Permutation; [by apply list.NoDup_filter|apply list.NoDup_filter, NoDup_everyone|].
    intros i. rewrite !list_elem_of_filter, elem_of_everyone. tauto.
Qed.

Lemma weight_le s : NoDup s → weight s ≤ total_weight.
Proof.
  intros Hs. rewrite weight_nodup by done. rewrite weight_everyone. apply sum_with_le.
  intros i _. case_bool_decide; lia.
Qed.

Lemma weight_where_some (P Q : N → bool) :
  weight_where P < weight_where Q → ∃ i, i < len ws ∧ Q i = true ∧ P i = false.
Proof.
  unfold weight_where. assert (∀ i, i ∈ everyone → i < len ws) as Hin by (intros i; apply elem_of_everyone).
  induction everyone as [|i l IH]; [cbn; lia|]. rewrite !sum_with_cons. intros Hlt.
  destruct (P i) eqn:HP, (Q i) eqn:HQ; try (exists i; split; [apply Hin; by left|done]);
    apply IH; try (intros; apply Hin; by right); lia.
Qed.

(** Two quorums share a validator that is not among those of a third of the weight. *)
Lemma quorums_meet (faulty : N → bool) s t :
  NoDup s → NoDup t → heavy s → heavy t → 3 * weight_where faulty ≤ total_weight →
  ∃ i, i < len ws ∧ i ∈ s ∧ i ∈ t ∧ faulty i = false.
Proof.
  intros Hs Ht Hhs Hht Hf. unfold heavy in *. rewrite !weight_nodup in Hhs, Hht by done.
  destruct (weight_where_some faulty (λ i, bool_decide (i ∈ s) && bool_decide (i ∈ t))) as (i & Hi & Hb & Hfi).
  - assert (weight_where (λ i, bool_decide (i ∈ s)) + weight_where (λ i, bool_decide (i ∈ t)) ≤
      weight_where (λ i, bool_decide (i ∈ s) && bool_decide (i ∈ t)) + total_weight); [|lia].
    rewrite weight_everyone. unfold weight_where, weight. rewrite <- !sum_with_add.
    apply sum_with_le. intros i _. destruct (bool_decide (i ∈ s)), (bool_decide (i ∈ t)); cbn; lia.
  - apply andb_prop in Hb as [? ?]. exists i. rewrite <- (bool_decide_eq_true (i ∈ s)), <- (bool_decide_eq_true (i ∈ t)). done.
Qed.
End Weights.

(** * The validators of a height *)

Section Committee.
Context `{Crypto} (self : DynamicValidator) (elected : option (list Validator)).

(** The validators and their weights: those elected, by delegation, or the initial ones. *)
Definition committee : list Public :=
  match elected with Some vs => va_pubkey <$> vs | None => self end.
Definition committee_weights : list N :=
  match elected with Some vs => va_delegation <$> vs | None => replicate (length self) 1 end.

Lemma committee_len : len committee_weights = len committee.
Proof. unfold committee_weights, committee, len. destruct elected; by rewrite ?length_fmap, ?length_replicate. Qed.

(** A client whose state after the block [parent] has these validators. *)
Definition has_committee (c : Client) (parent : H256) : Prop := validators c parent = Ok elected.

Context (c : Client) (parent : H256) (Hc : has_committee c parent).

Lemma has_committee_pubkey :
  validators_pubkey c parent = Ok (match elected with Some vs => Some (va_pubkey <$> vs) | None => None end).
Proof. unfold validators_pubkey. rewrite Hc. done. Qed.

Lemma committee_count : dv_count c self parent = Ok (len committee).
Proof.
  unfold dv_count. rewrite Hc, Ok_bind. unfold committee. destruct elected; [|done].
  by unfold len; rewrite length_fmap.
Qed.

Lemma committee_get i : i < len committee → dv_get c self parent i = expect (committee !! N.to_nat i).
Proof.
  intros Hi. unfold dv_get, committee in *. rewrite has_committee_pubkey, Ok_bind.
  destruct elected as [vs|]; cbv match.
  - by rewrite N.mod_small.
  - unfold rr_get. cbv zeta. rewrite N.mod_small by done.
    destruct (N.eqb_spec (len self) 0); [lia|done].
Qed.

Lemma committee_index p :
  dv_get_index c self parent p = Ok (position (λ k, bool_decide (k = p)) committee).
Proof.
  unfold dv_get_index, committee. rewrite has_committee_pubkey, Ok_bind. by destruct elected.
Qed.

Lemma position_lookup {A} (f : A → bool) l i :
  position f l = Some i → ∃ x, l !! N.to_nat i = Some x ∧ f x = true.
Proof.
  revert i. induction l as [|x l IH]; intros i; cbn; [done|]. destruct (f x) eqn:Hx.
  - intros [= <-]. by exists x.
  - destruct (position f l) as [k|]; [|done]. cbn. intros [= <-].
    destruct (IH k eq_refl) as (y & Hy & ?). exists y. rewrite N2Nat.inj_succ. done.
Qed.

(** A total weight that the arithmetic of 64 bits can triple. *)
Definition weights_fit : Prop := 3 * total_weight committee_weights < u64_size.

Lemma fold_add_mod {A} (f : A → N) l acc :
  acc < u64_size → foldl (λ t x, u64_add t (f x)) acc l = (acc + sum_with f l) mod u64_size.
Proof.
  revert acc. induction l as [|x l IH]; intros acc Ha; cbn [foldl].
  - rewrite sum_with_nil, N.add_0_r, N.mod_small by done. done.
  - rewrite IH by (apply N.mod_lt; done). unfold u64_add.
    rewrite N.Div0.add_mod_idemp_l, sum_with_cons. f_equal. lia.
Qed.

Lemma voted_delegation_sum vs l acc r :
  acc < u64_size →
  fold_res (E:=EngineError) (λ voted_delegation index,
      _ ← assert (index <? len vs);
      validator ← ok_or (vs !! N.to_nat index) (ValidatorNotExist 0 index);
      Ok (u64_add voted_delegation (va_delegation validator))) acc l = Ok r →
  r = (acc + weight (va_delegation <$> vs) l) mod u64_size.
Proof.
  revert acc. induction l as [|i l IH]; intros acc Ha; cbn [fold_res].
  - intros [= <-]. unfold weight. rewrite sum_with_nil, N.add_0_r, N.mod_small by done. done.
  - intros (acc' & Hi & Hr)%bind_Ok. apply bind_Ok in Hi as (_ & _ & (v & Hv%ok_or_Ok & Hi)%bind_Ok).
    injection Hi as <-. apply IH in Hr; [|by apply N.mod_lt]. rewrite Hr. unfold u64_add.
    rewrite N.Div0.add_mod_idemp_l. unfold weight. rewrite sum_with_cons. f_equal.
    unfold weight_of at 2. rewrite list_lookup_fmap, Hv. cbn. lia.
Qed.

(** Votes of validators that are enough weigh more than two thirds. *)
Lemma enough_heavy votes u :
  weights_fit → bs_ok votes → (∀ i, bit votes i = true → i < len committee) →
  dv_check_enough_votes c self parent votes = Ok u → heavy committee_weights (indices votes).
Proof.
  intros Hfit Hok Hin. unfold dv_check_enough_votes. rewrite Hc, Ok_bind.
  pose proof (weight_le committee_weights (indices votes) (NoDup_indices votes)) as Hw.
  unfold heavy, weights_fit in *. revert Hfit Hw Hin. unfold committee_weights, committee.
  destruct elected as [vs|]; cbv match; intros Hfit Hw Hin He.
  - rewrite true_index_iter_indices in He. apply bind_Ok in He as (voted & Hv & He).
    apply voted_delegation_sum in Hv; [|done].
    rewrite (fold_add_mod va_delegation) in He by done.
    assert (sum_with va_delegation vs = total_weight (va_delegation <$> vs)) as Ht.
    { unfold total_weight. clear. induction vs as [|v vs IH]; [done|].
      by rewrite fmap_cons, !sum_with_cons, IH. }
    rewrite Ht in He. set (t := total_weight _) in *. set (s := weight _ _) in *.
    rewrite N.add_0_l in Hv, He. rewrite !N.mod_small in He, Hv by (unfold u64_size in *; lia).
    subst voted. unfold u64_mul in He. rewrite !N.mod_small in He by (unfold u64_size in *; lia).
    destruct (N.ltb_spec (t * 2) (s * 3)); [lia|done].
  - unfold rr_check_enough_votes, rr_count in He. rewrite bs_count_indices in He by done.
    assert (total_weight (replicate (length self) 1) = len self) as Ht.
    { unfold total_weight, len. clear. induction (length self) as [|k IH]; [done|]. cbn [replicate].
      rewrite sum_with_cons, IH. cbn. lia. }
    assert (weight (replicate (length self) 1) (indices votes) = len (indices votes)) as Hs.
    { unfold weight. assert (∀ i, i ∈ indices votes → i < len self) as Hi.
      { intros i Hi%elem_of_indices; auto. }
      clear -Hi. induction (indices votes) as [|i l IH]; [done|]. rewrite sum_with_cons, len_cons, IH.
      - unfold weight_of. rewrite lookup_replicate_2; [done|]. pose proof (Hi i ltac:(by left)). unfold len in *. lia.
      - intros j Hj. apply Hi. by right. }
    rewrite Ht, Hs in *. unfold u64_mul in He. rewrite !N.mod_small in He by (unfold u64_size in *; lia).
    destruct (N.ltb_spec (len self * 2) (len (indices votes) * 3)); [lia|done].
Qed.
End Committee.
