(* ===== verification/TmWorker.v ===== *)
(** The Tendermint worker: core/src/consensus/tendermint/worker.rs with the states of types.rs, the
    signer (core/src/consensus/signer.rs) and the backup (backup.rs).  The thread handles one event
    at a time; an event is handled against what the client answers at that moment. *)
From stdpp Require Import base gmap list numbers strings.
From Stdlib Require Import NArith ZArith Lia.
From S2P Require Import Prelude Types Crypto Rlp RlpImpls TxHash BTree StakeData StakeAction Header BitSet.
From S2P Require Import TmMessage VoteCollector Validators.

Local Open Scope N_scope.

(** * States *)

Abbreviation SealedBlock := ChainBlock (only parsing).

Inductive TendermintState :=
| TsPropose
| TsProposeWaitBlockGeneration (parent_hash : H256)
| TsProposeWaitImported (block : SealedBlock)
| TsProposeWaitEmptyBlockTimer (block : SealedBlock)
| TsPrevote
| TsPrecommit
| TsCommit
| TsCommitTimedout.

Definition to_step (self : TendermintState) : Step :=
  match self with
  | TsPropose | TsProposeWaitBlockGeneration _ | TsProposeWaitImported _
  | TsProposeWaitEmptyBlockTimer _ => Propose
  | TsPrevote => Prevote
  | TsPrecommit => Precommit
  | TsCommit | TsCommitTimedout => Commit
  end.

Definition is_commit (self : TendermintState) : bool :=
  match self with TsCommit | TsCommitTimedout => true | _ => false end.

Definition is_commit_timedout (self : TendermintState) : bool :=
  match self with TsCommitTimedout => true | _ => false end.

(** [impl From<Step> for TendermintState] *)
Definition from_step (s : Step) : TendermintState :=
  match s with Propose => TsPropose | Prevote => TsPrevote | Precommit => TsPrecommit | Commit => TsCommit end.

Inductive TwoThirdsMajority := Empty | Lock (view : N) (block_hash : H256) | Unlock (view : N).

Definition from_message (view : N) (block_hash : option H256) : TwoThirdsMajority :=
  match block_hash with Some block_hash => Lock view block_hash | None => Unlock view end.
Definition ttm_view (self : TwoThirdsMajority) : option N :=
  match self with Empty => None | Lock view _ => Some view | Unlock view => Some view end.
Definition ttm_block_hash (self : TwoThirdsMajority) : option H256 :=
  match self with Lock _ block_hash => Some block_hash | _ => None end.

Inductive Proposal :=
| ProposalReceived (hash : H256) (block : bytes) (signature : SchnorrSignature)
| ProposalImported (hash : H256)
| ProposalNone.

Definition pr_block_hash (self : Proposal) : option H256 :=
  match self with ProposalReceived hash _ _ => Some hash | ProposalImported hash => Some hash | ProposalNone => None end.
Definition imported_block_hash (self : Proposal) : option H256 :=
  match self with ProposalImported hash => Some hash | _ => None end.
Definition proposal_is_none (self : Proposal) : bool :=
  match self with ProposalNone => true | _ => false end.

(** [TendermintSealView]: the fields of a seal that has [SEAL_FIELDS] fields. *)
Definition SEAL_FIELDS : N := 4.

Section SealView.
Context {E : Type} (decoder_error : RlpError.t → E).

Definition seal_field (seal : list bytes) (i : nat) : result E bytes := expect (seal !! i).
Definition previous_block_view (seal : list bytes) : result E N :=
  view_rlp ← seal_field seal 0; map_err decoder_error (decode u64_codec view_rlp).
Definition consensus_view (seal : list bytes) : result E N :=
  view_rlp ← seal_field seal 1; map_err decoder_error (decode u64_codec view_rlp).
Definition seal_bitset (seal : list bytes) : result E BitSet :=
  view_rlp ← seal_field seal 3; map_err decoder_error (BitSet_decode view_rlp).
Definition precommits (seal : list bytes) : result E bytes := seal_field seal 2.

Definition seal_signatures (seal : list bytes) : result E (list (N * SchnorrSignature)) :=
  precommits ← precommits seal;
  bitset ← seal_bitset seal;
  map_res (λ '(index, rlp), signature ← map_err decoder_error (decode H512_codec rlp); Ok (index, signature))
    (zip (true_index_iter bitset) (rlp_iter precommits)).
End SealView.

(** [Seal::Tendermint] and [Seal::None], and [seal_fields] *)
Inductive Seal :=
| SealTendermint (prev_view cur_view : N) (precommits : list SchnorrSignature) (precommit_bitset : BitSet)
| SealNone.

Definition seal_fields (self : Seal) : option (list bytes) :=
  match self with
  | SealNone => None
  | SealTendermint prev_view cur_view precommits precommit_bitset =>
      Some [rlp_bytes (rlp_append u64_codec prev_view); rlp_bytes (rlp_append u64_codec cur_view);
            rlp_bytes (app_list H512_codec precommits); rlp_bytes (BitSet_append precommit_bitset)]
  end.

(** * Effects *)

(** [network::Event], what the worker asks of the network extension. *)
Inductive NetEvent :=
| BroadcastMessage (message : bytes)
| BroadcastState (vote_step : VoteStep) (proposal : option H256) (lock_view : option N) (votes : BitSet)
| RequestMessagesToAll (vote_step : VoteStep) (requested_votes : BitSet)
| RequestProposalToAny (height view : N)
| SetTimerStep (step : Step) (view expired_token_nonce : N)
| SetTimerEmptyProposal (view : N)
| BroadcastProposalBlock (signature : SchnorrSignature) (view : N) (message : bytes).

(** What the worker does to its surroundings, in order: events for the extension, votes it has
    signed, and calls of the client. *)
Inductive Out :=
| Net (e : NetEvent)
| SignVote (on : VoteOn)
| UpdateSealing (parent_block_hash : H256)
| UpdateBestAsCommitted (block_hash : H256)
| WriteBackup (value : bytes)
| QueueOwnTransaction (tx : SignedTransaction).

(** [EngineSigner]: the address and the public key of the account that signs. *)
Definition EngineSigner : Type := option (Address * Public).

(** Durations in nanoseconds. *)
Record TimeGapParams := { tg_allowed_past_gap : Z; tg_allowed_future_gap : Z }.

(** [struct Worker]; the channel to the extension and the client are the trace of what was sent
    to them, and the entry of the database that holds the backup. *)
Record Worker := {
  w_height : N;
  w_view : N;
  w_step : TendermintState;
  w_votes_received : BitSet;
  w_votes_received_changed : bool;
  w_votes : VoteCollector;
  w_signer : EngineSigner;
  w_last_two_thirds_majority : TwoThirdsMajority;
  w_proposal : Proposal;
  w_last_confirmed_view : N;
  w_validators : DynamicValidator;
  w_time_gap_params : TimeGapParams;
  w_timeout_token_nonce : N;
  w_kvdb : option bytes;
  w_trace : list Out;
}.

Definition set_height (x : N) (w : Worker) : Worker := {|
  w_height := x; w_view := w_view w; w_step := w_step w; w_votes_received := w_votes_received w;
  w_votes_received_changed := w_votes_received_changed w; w_votes := w_votes w;
  w_signer := w_signer w; w_last_two_thirds_majority := w_last_two_thirds_majority w;
  w_proposal := w_proposal w; w_last_confirmed_view := w_last_confirmed_view w;
  w_validators := w_validators w; w_time_gap_params := w_time_gap_params w;
  w_timeout_token_nonce := w_timeout_token_nonce w; w_kvdb := w_kvdb w; w_trace := w_trace w |}.

Definition set_view (x : N) (w : Worker) : Worker := {|
  w_height := w_height w; w_view := x; w_step := w_step w;
  w_votes_received := w_votes_received w; w_votes_received_changed := w_votes_received_changed w;
  w_votes := w_votes w; w_signer := w_signer w;
  w_last_two_thirds_majority := w_last_two_thirds_majority w; w_proposal := w_proposal w;
  w_last_confirmed_view := w_last_confirmed_view w; w_validators := w_validators w;
  w_time_gap_params := w_time_gap_params w; w_timeout_token_nonce := w_timeout_token_nonce w;
  w_kvdb := w_kvdb w; w_trace := w_trace w |}.

Definition set_step (x : TendermintState) (w : Worker) : Worker := {|
  w_height := w_height w; w_view := w_view w; w_step := x;
  w_votes_received := w_votes_received w; w_votes_received_changed := w_votes_received_changed w;
  w_votes := w_votes w; w_signer := w_signer w;
  w_last_two_thirds_majority := w_last_two_thirds_majority w; w_proposal := w_proposal w;
  w_last_confirmed_view := w_last_confirmed_view w; w_validators := w_validators w;
  w_time_gap_params := w_time_gap_params w; w_timeout_token_nonce := w_timeout_token_nonce w;
  w_kvdb := w_kvdb w; w_trace := w_trace w |}.

Definition set_votes_received (x : BitSet) (w : Worker) : Worker := {|
  w_height := w_height w; w_view := w_view w; w_step := w_step w; w_votes_received := x;
  w_votes_received_changed := w_votes_received_changed w; w_votes := w_votes w;
  w_signer := w_signer w; w_last_two_thirds_majority := w_last_two_thirds_majority w;
  w_proposal := w_proposal w; w_last_confirmed_view := w_last_confirmed_view w;
  w_validators := w_validators w; w_time_gap_params := w_time_gap_params w;
  w_timeout_token_nonce := w_timeout_token_nonce w; w_kvdb := w_kvdb w; w_trace := w_trace w |}.

Definition set_votes_received_changed (x : bool) (w : Worker) : Worker := {|
  w_height := w_height w; w_view := w_view w; w_step := w_step w;
  w_votes_received := w_votes_received w; w_votes_received_changed := x; w_votes := w_votes w;
  w_signer := w_signer w; w_last_two_thirds_majority := w_last_two_thirds_majority w;
  w_proposal := w_proposal w; w_last_confirmed_view := w_last_confirmed_view w;
  w_validators := w_validators w; w_time_gap_params := w_time_gap_params w;
  w_timeout_token_nonce := w_timeout_token_nonce w; w_kvdb := w_kvdb w; w_trace := w_trace w |}.

Definition set_votes (x : VoteCollector) (w : Worker) : Worker := {|
  w_height := w_height w; w_view := w_view w; w_step := w_step w;
  w_votes_received := w_votes_received w; w_votes_received_changed := w_votes_received_changed w;
  w_votes := x; w_signer := w_signer w;
  w_last_two_thirds_majority := w_last_two_thirds_majority w; w_proposal := w_proposal w;
  w_last_confirmed_view := w_last_confirmed_view w; w_validators := w_validators w;
  w_time_gap_params := w_time_gap_params w; w_timeout_token_nonce := w_timeout_token_nonce w;
  w_kvdb := w_kvdb w; w_trace := w_trace w |}.

Definition set_signer (x : EngineSigner) (w : Worker) : Worker := {|
  w_height := w_height w; w_view := w_view w; w_step := w_step w;
  w_votes_received := w_votes_received w; w_votes_received_changed := w_votes_received_changed w;
  w_votes := w_votes w; w_signer := x;
  w_last_two_thirds_majority := w_last_two_thirds_majority w; w_proposal := w_proposal w;
  w_last_confirmed_view := w_last_confirmed_view w; w_validators := w_validators w;
  w_time_gap_params := w_time_gap_params w; w_timeout_token_nonce := w_timeout_token_nonce w;
  w_kvdb := w_kvdb w; w_trace := w_trace w |}.

Definition set_last_two_thirds_majority (x : TwoThirdsMajority) (w : Worker) : Worker := {|
  w_height := w_height w; w_view := w_view w; w_step := w_step w;
  w_votes_received := w_votes_received w; w_votes_received_changed := w_votes_received_changed w;
  w_votes := w_votes w; w_signer := w_signer w; w_last_two_thirds_majority := x;
  w_proposal := w_proposal w; w_last_confirmed_view := w_last_confirmed_view w;
  w_validators := w_validators w; w_time_gap_params := w_time_gap_params w;
  w_timeout_token_nonce := w_timeout_token_nonce w; w_kvdb := w_kvdb w; w_trace := w_trace w |}.

Definition set_proposal (x : Proposal) (w : Worker) : Worker := {|
  w_height := w_height w; w_view := w_view w; w_step := w_step w;
  w_votes_received := w_votes_received w; w_votes_received_changed := w_votes_received_changed w;
  w_votes := w_votes w; w_signer := w_signer w;
  w_last_two_thirds_majority := w_last_two_thirds_majority w; w_proposal := x;
  w_last_confirmed_view := w_last_confirmed_view w; w_validators := w_validators w;
  w_time_gap_params := w_time_gap_params w; w_timeout_token_nonce := w_timeout_token_nonce w;
  w_kvdb := w_kvdb w; w_trace := w_trace w |}.

Definition set_last_confirmed_view (x : N) (w : Worker) : Worker := {|
  w_height := w_height w; w_view := w_view w; w_step := w_step w;
  w_votes_received := w_votes_received w; w_votes_received_changed := w_votes_received_changed w;
  w_votes := w_votes w; w_signer := w_signer w;
  w_last_two_thirds_majority := w_last_two_thirds_majority w; w_proposal := w_proposal w;
  w_last_confirmed_view := x; w_validators := w_validators w;
  w_time_gap_params := w_time_gap_params w; w_timeout_token_nonce := w_timeout_token_nonce w;
  w_kvdb := w_kvdb w; w_trace := w_trace w |}.

Definition set_timeout_token_nonce (x : N) (w : Worker) : Worker := {|
  w_height := w_height w; w_view := w_view w; w_step := w_step w;
  w_votes_received := w_votes_received w; w_votes_received_changed := w_votes_received_changed w;
  w_votes := w_votes w; w_signer := w_signer w;
  w_last_two_thirds_majority := w_last_two_thirds_majority w; w_proposal := w_proposal w;
  w_last_confirmed_view := w_last_confirmed_view w; w_validators := w_validators w;
  w_time_gap_params := w_time_gap_params w; w_timeout_token_nonce := x; w_kvdb := w_kvdb w;
  w_trace := w_trace w |}.

Definition set_kvdb (x : option bytes) (w : Worker) : Worker := {|
  w_height := w_height w; w_view := w_view w; w_step := w_step w;
  w_votes_received := w_votes_received w; w_votes_received_changed := w_votes_received_changed w;
  w_votes := w_votes w; w_signer := w_signer w;
  w_last_two_thirds_majority := w_last_two_thirds_majority w; w_proposal := w_proposal w;
  w_last_confirmed_view := w_last_confirmed_view w; w_validators := w_validators w;
  w_time_gap_params := w_time_gap_params w; w_timeout_token_nonce := w_timeout_token_nonce w;
  w_kvdb := x; w_trace := w_trace w |}.

Definition set_trace (x : list Out) (w : Worker) : Worker := {|
  w_height := w_height w; w_view := w_view w; w_step := w_step w;
  w_votes_received := w_votes_received w; w_votes_received_changed := w_votes_received_changed w;
  w_votes := w_votes w; w_signer := w_signer w;
  w_last_two_thirds_majority := w_last_two_thirds_majority w; w_proposal := w_proposal w;
  w_last_confirmed_view := w_last_confirmed_view w; w_validators := w_validators w;
  w_time_gap_params := w_time_gap_params w; w_timeout_token_nonce := w_timeout_token_nonce w;
  w_kvdb := w_kvdb w; w_trace := x |}.

(** Errors of the handlers; [OutOfFuel] is not one of the program's. *)
Inductive TmError :=
| TmEngine (e : EngineError)
| InvalidSealArity (expected found : N)
| InvalidScore (expected found : N)
| InvalidSeal
| TmDecoder (e : RlpError.t)
| TmKey (e : String)
| OutOfFuel.

Definition ENGINE_TIMEOUT_TOKEN_NONCE_BASE : N := 23.
Definition ENGINE_TIMEOUT_EMPTY_PROPOSAL : N := 22.
Definition ENGINE_TIMEOUT_BROADCAST_STEP_STATE : N := 21.

(** [Worker::new] *)
Definition Worker_new (validators : DynamicValidator) (time_gap_params : TimeGapParams)
  (kvdb : option bytes) : Worker := {|
  w_height := 1; w_view := 0; w_step := TsPropose; w_votes_received := BitSet_new;
  w_votes_received_changed := false; w_votes := VoteCollector_default; w_signer := None;
  w_last_two_thirds_majority := Empty; w_proposal := ProposalNone; w_last_confirmed_view := 0;
  w_validators := validators; w_time_gap_params := time_gap_params;
  w_timeout_token_nonce := ENGINE_TIMEOUT_TOKEN_NONCE_BASE; w_kvdb := kvdb; w_trace := [] |}.

Abbreviation wM := (stM Worker TmError).

Definition emit (o : Out) : wM () := modify_st (λ w, set_trace (w_trace w ++ [o]) w).
Definition lift_engine {A : Type} (r : result EngineError A) : wM A := lift_st (map_err TmEngine r).

(** [r.is_ok()] *)
Definition is_ok {A : Type} (r : result EngineError A) : result TmError bool :=
  match r with Ok _ => Ok true | Err _ => Ok false | Panic => Panic end.

(** [fn calculate_score]; the subtraction of [U256] unwinds on underflow. *)
Definition calculate_score (height view : N) : result TmError N :=
  let score := (u128_size - 1) * height in
  _ ← assert (view <=? score);
  Ok (score - view).

(** Instants that [SystemTime] can hold: seconds in 64 bits. *)
Definition time_ok (t : Z) : bool :=
  ((- 2 ^ 63 * 10 ^ 9 <=? t) && (t <? 2 ^ 63 * 10 ^ 9))%Z.

Definition expect_time (t : Z) : result TmError Z := if time_ok t then Ok t else Panic.

(** What is in the database: [backup] and [restore] of backup.rs. *)
Record BackupData := {
  bk_height : N; bk_view : N; bk_step : Step; bk_votes : list ConsensusMessage;
  bk_proposal : option H256; bk_last_confirmed_view : N;
}.

Definition backup_append (height view : N) (step : Step) (votes : list ConsensusMessage)
  (last_confirmed_view : N) : strm () :=
  rlp_list 5 [app u64_codec height; app u64_codec view; app Step_codec step;
              app_list ConsensusMessage_codec votes; app u64_codec last_confirmed_view].

Definition find_proposal (votes : list ConsensusMessage) (height view : N) : option H256 :=
  match find (λ vote, bool_decide (vs_step (cm_round vote) = Propose) && (vs_view (cm_round vote) =? view) &&
                      (vs_height (cm_round vote) =? height)) (reverse votes) with
  | Some vote => cm_block_hash vote
  | None => None
  end.

Definition restore_backup (value : option bytes) : result TmError (option BackupData) :=
  match value with
  | None => Ok None
  | Some bytes =>
      height ← Rlp_val_at (decode u64_codec) bytes 0;
      view ← Rlp_val_at (decode u64_codec) bytes 1;
      step ← Rlp_val_at (decode Step_codec) bytes 2;
      votes ← Rlp_list_at (decode ConsensusMessage_codec) bytes 3;
      last_confirmed_view ← Rlp_val_at (decode u64_codec) bytes 4;
      Ok (Some {| bk_height := height; bk_view := view; bk_step := step; bk_votes := votes;
                  bk_proposal := find_proposal votes height view;
                  bk_last_confirmed_view := last_confirmed_view |})
  end.

Section Queries.
Context `{Crypto, Schnorr, HashOrder} (c : Client).

(** * Questions about the chain and the votes *)

Definition prev_block_header_of_height (height : N) : option bytes :=
  let prev_height := u64_sub height 1 in
  cl_block_header c (ByNumber prev_height).

Definition prev_block_hash : wM H256 :=
  w ← get_st;
  header ← lift_st (expect (prev_block_header_of_height (w_height w)));
  mret (hv_hash header).

Definition block_proposer_idx (block_hash : H256) : wM (option N) :=
  match cl_block_header c (ByHash block_hash) with
  | None => mret None
  | Some header =>
      w ← get_st;
      proposer ← lift_st (hv_author header);
      number ← lift_st (hv_number header);
      parent ← lift_st (if number =? 0 then Ok block_hash else hv_parent_hash header);
      index ← lift_engine (dv_get_index_by_address c (w_validators w) parent proposer);
      index ← lift_st (expect index);
      mret (Some index)
  end.

Definition check_current_block_exists (w : Worker) : bool :=
  match cl_block c (ByNumber (w_height w)) with Some _ => true | None => false end.

Definition vote_step (w : Worker) : VoteStep :=
  VoteStep_new (w_height w) (w_view w) (to_step (w_step w)).

Definition need_proposal (w : Worker) : bool := proposal_is_none (w_proposal w).

Definition has_all_votes (vote_step : VoteStep) : wM bool :=
  w ← get_st;
  step_votes ← lift_st (round_votes (w_votes w) vote_step);
  parent ← prev_block_hash;
  count ← lift_engine (dv_count c (w_validators w) parent);
  mret (count =? bs_count step_votes).

Definition can_move_from_commit_to_propose : wM bool :=
  w ← get_st;
  let vote_step := VoteStep_new (w_height w) (w_last_confirmed_view w) Precommit in
  if is_commit_timedout (w_step w) && check_current_block_exists w then mret true
  else if is_commit (w_step w) then
    all ← has_all_votes vote_step;
    mret (all && check_current_block_exists w)
  else mret false.

Definition view_proposer (prev_block_hash : H256) (view : N) : wM (option Address) :=
  w ← get_st;
  lift_engine (dv_next_block_proposer c (w_validators w) prev_block_hash view).

Definition proposal_at (height view : N) : wM (option (SchnorrSignature * N * bytes)) :=
  w ← get_st;
  let vote_step := VoteStep_new height view Propose in
  let all_votes := get_all_votes_in_round (w_votes w) vote_step in
  match all_votes with
  | [] => mret None
  | proposal :: _ =>
      block_hash ← lift_st (expect (cm_block_hash proposal));
      mret (match cl_block c (ByHash block_hash) with
            | Some bytes => Some (cm_signature proposal, cm_signer_index proposal, bytes)
            | None => None
            end)
  end.

Definition get_all_votes_and_authors (vote_step : VoteStep) (requested : BitSet)
  : wM (list ConsensusMessage) :=
  w ← get_st;
  lift_st (fold_res (λ acc '(index, vote),
      wanted ← is_set requested index;
      Ok (if wanted : bool then acc ++ [vote] else acc)) []
    (get_all_votes_and_indices_in_round (w_votes w) vote_step)).

Definition check_view_proposer (parent : H256) (height view : N) (address : Address) : wM () :=
  proposer ← view_proposer parent view;
  match proposer with
  | None => throw_st (TmEngine (PrevBlockNotExist height))
  | Some proposer =>
      if bool_decide (proposer = address) then mret tt
      else throw_st (TmEngine (NotProposer proposer address))
  end.

(** [EngineSigner::is_address] *)
Definition is_address (self : EngineSigner) (a : Address) : bool :=
  match self with Some (address, _) => bool_decide (a = address) | None => false end.

Definition is_signer_proposer (bh : H256) : wM bool :=
  w ← get_st;
  proposer ← view_proposer bh (w_view w);
  mret (match proposer with Some proposer => is_address (w_signer w) proposer | None => false end).

Definition is_step (w : Worker) (message : ConsensusMessage) : bool :=
  vs_is_step (cm_round message) (w_height w) (w_view w) (to_step (w_step w)).

Definition is_authority (prev_hash : H256) (address : Address) : wM bool :=
  w ← get_st;
  lift_engine (dv_contains_address c (w_validators w) prev_hash address).

Definition has_enough_any_votes : wM bool :=
  w ← get_st;
  step_votes ← lift_st (round_votes (w_votes w) (vote_step w));
  parent ← prev_block_hash;
  lift_st (is_ok (dv_check_enough_votes c (w_validators w) parent step_votes)).

Definition has_enough_aligned_votes (message : ConsensusMessage) : wM bool :=
  w ← get_st;
  header ← lift_st (expect (cl_block_header c (ByNumber (u64_sub (cm_height message) 1))));
  let parent_hash := hv_hash header in
  aligned_votes ← lift_st (aligned_votes (w_votes w) message);
  lift_st (is_ok (dv_check_enough_votes c (w_validators w) parent_hash aligned_votes)).

Definition has_enough_precommit_votes (block_hash : H256) : wM bool :=
  w ← get_st;
  let vote_step := VoteStep_new (w_height w) (w_view w) Precommit in
  votes ← lift_st (block_round_votes (w_votes w) vote_step (Some block_hash));
  parent ← prev_block_hash;
  lift_st (is_ok (dv_check_enough_votes c (w_validators w) parent votes)).

(** [signer_index] *)
Definition signer_index : wM (option N) :=
  parent ← prev_block_hash;
  w ← get_st;
  match w_signer w with
  | None => mret None
  | Some (_, public) => lift_engine (dv_get_index c (w_validators w) parent public)
  end.

Definition already_generated_message : wM bool :=
  index ← signer_index;
  w ← get_st;
  match index with
  | Some signer_index => lift_st (is_set (w_votes_received w) signer_index)
  | None => mret false
  end.

Definition is_generation_time_relevant (gap : TimeGapParams) (block_header : Header) : result TmError bool :=
  let now := cl_now c in
  allowed_min ← expect_time (now - tg_allowed_past_gap gap);
  allowed_max ← expect_time (now + tg_allowed_future_gap gap);
  let generation_time := (Z.of_N (hd_timestamp block_header) * 10 ^ 9)%Z in
  if time_ok generation_time then
    Ok ((generation_time <=? allowed_max)%Z && (allowed_min <=? generation_time)%Z)
  else Ok false.
End Queries.

Section Actions.
Context `{Crypto, Schnorr, HashOrder} (c : Client).

(** * Messages to the extension and the client *)

Definition broadcast_message (message : bytes) : wM () := emit (Net (BroadcastMessage message)).
Definition broadcast_state (vote_step : VoteStep) (proposal : option H256) (lock_view : option N)
  (votes : BitSet) : wM () := emit (Net (BroadcastState vote_step proposal lock_view votes)).
Definition request_messages_to_all (vote_step : VoteStep) (requested_votes : BitSet) : wM () :=
  emit (Net (RequestMessagesToAll vote_step requested_votes)).
Definition request_proposal_to_any (height view : N) : wM () := emit (Net (RequestProposalToAny height view)).
Definition update_sealing (parent_block_hash : H256) : wM () := emit (UpdateSealing parent_block_hash).

Definition backup : wM () :=
  w ← get_st;
  let value := rlp_bytes (backup_append (w_height w) (w_view w) (to_step (w_step w)) (get_all (w_votes w))
                            (w_last_confirmed_view w)) in
  _ ← modify_st (set_kvdb (Some value));
  emit (WriteBackup value).

(** [r.ok()] and [r.expect(..)] of a call that changes the state *)
Definition ok_st {A : Type} (m : wM A) : wM (option A) := λ w,
  match m w with
  | (Ok a, w) => (Ok (Some a), w)
  | (Err _, w) => (Ok None, w)
  | (Panic, w) => (Panic, w)
  end.
Definition expect_st {A : Type} (m : wM A) : wM A := λ w,
  match m w with (Err _, w) => (Panic, w) | r => r end.

(** [Worker::sign] for the digest of a vote: the account of the signer signs it. *)
Definition sign_vote (on : VoteOn) : wM SchnorrSignature :=
  w ← get_st;
  match w_signer w with
  | None => throw_st (TmKey [])
  | Some (_, public) =>
      signature ← lift_st (map_err TmKey (sign_schnorr public (vote_digest on)));
      _ ← emit (SignVote on);
      mret signature
  end.

(** * Moving on *)

Definition save_last_confirmed_view (view : N) : wM () := modify_st (set_last_confirmed_view view).

Definition increment_view (n : N) : wM () := modify_st (λ w,
  set_votes_received BitSet_new (set_proposal ProposalNone (set_view (u64_add (w_view w) n) w))).

Definition move_to_height (height : N) : wM () :=
  w ← get_st;
  _ ← lift_st (assert (w_height w <? height));
  modify_st (λ w, set_votes_received BitSet_new (set_proposal ProposalNone (set_view 0
    (set_height height (set_last_two_thirds_majority Empty w))))).

(** A vote of the collector, without its report. *)
Definition record_vote (message : ConsensusMessage) : wM (option DoubleVote) :=
  w ← get_st;
  let '(votes, double) := vc_vote (w_votes w) message in
  _ ← modify_st (set_votes votes);
  mret double.

Definition mark_received (index : N) : wM () :=
  w ← get_st;
  votes_received ← lift_st (bs_set (w_votes_received w) index);
  modify_st (set_votes_received votes_received).

Definition locked_proposal_block (locked_view : N) : wM (option bytes) :=
  w ← get_st;
  let vote_step := VoteStep_new (w_height w) locked_view Propose in
  match get_block_hashes (w_votes w) vote_step with
  | [] => _ ← request_proposal_to_any (w_height w) locked_view; mret None
  | locked_proposal_hash :: _ => mret (cl_block c (ByHash locked_proposal_hash))
  end.

(** [ConsensusMessage::new_proposal] *)
Definition new_proposal (signature : SchnorrSignature) (proposal_header : Header)
  (proposed_view prev_proposer_idx : N) : wM ConsensusMessage :=
  w ← get_st;
  let height := hd_number proposal_header in
  signer_index ← lift_engine (proposer_index c (w_validators w) (hd_parent_hash proposal_header)
                                prev_proposer_idx proposed_view);
  mret {| cm_signature := signature; cm_signer_index := signer_index;
          cm_on := {| vo_step := VoteStep_new height proposed_view Propose;
                      vo_block_hash := Some (Header_hash proposal_header) |} |}.

Definition broadcast_proposal_block (view : N) (block : bytes) : wM () :=
  header ← lift_st (bv_header block);
  let hash := Header_hash header in
  let parent_hash := hd_parent_hash header in
  let vote_step := VoteStep_new (hd_number header) view Propose in
  proposer ← is_signer_proposer c parent_hash;
  _ ← lift_st (assert proposer);
  w ← get_st;
  signature ← lift_st (expect (round_signature (w_votes w) vote_step hash));
  emit (Net (BroadcastProposalBlock signature view block)).

(** The vote of the proposer: [proposal_generated] and [repropose_block] share it. *)
Definition propose_vote (header : Header) : wM () :=
  w ← get_st;
  let hash := Header_hash header in
  prev_proposer_idx ← block_proposer_idx c (hd_parent_hash header);
  prev_proposer_idx ← lift_st (expect prev_proposer_idx);
  let vote_step := VoteStep_new (hd_number header) (w_view w) Propose in
  signature ← expect_st (sign_vote {| vo_step := vote_step; vo_block_hash := Some hash |});
  message ← new_proposal signature header (w_view w) prev_proposer_idx;
  _ ← record_vote message;
  mret tt.

Definition repropose_block (block : bytes) : wM () :=
  header ← lift_st (bv_header block);
  _ ← propose_vote header;
  _ ← modify_st (set_proposal (ProposalImported (Header_hash header)));
  w ← get_st;
  broadcast_proposal_block (w_view w) block.

(** The block a node prevotes for: what it is locked on or the proposal, unless that was
    generated at the wrong time. *)
Definition prevote_candidate : wM (option H256) :=
  w ← get_st;
  let block_hash_candidate :=
    match w_last_two_thirds_majority w with
    | Empty => imported_block_hash (w_proposal w)
    | Unlock _ => imported_block_hash (w_proposal w)
    | Lock _ block_hash => Some block_hash
    end in
  match block_hash_candidate with
  | None => mret None
  | Some hash =>
      match cl_block c (ByHash hash) with
      | None => mret (Some hash)
      | Some block =>
          header ← lift_st (bv_header block);
          relevant ← lift_st (is_generation_time_relevant c (w_time_gap_params w) header);
          mret (if relevant : bool then Some hash else None)
      end
  end.

(** The block a node precommits to: what it was locked on in this view. *)
Definition precommit_candidate (w : Worker) : option H256 :=
  match w_last_two_thirds_majority w with
  | Empty => None
  | Unlock _ => None
  | Lock locked_view block_hash => if locked_view =? w_view w then Some block_hash else None
  end.

(** [handle_valid_message] is called back by [move_to_step] through [generate_message]; it takes
    the [move_to_step] to call. *)
Section Knot.
Context (move_to_step : Step → bool → wM ()).

Definition handle_valid_message_with (message : ConsensusMessage) (is_restoring : bool) : wM () :=
  w ← get_st;
  let vote_step := cm_round message in
  let is_newer_than_lock :=
    match ttm_view (w_last_two_thirds_majority w) with
    | Some last_lock => last_lock <? vs_view vote_step
    | None => true
    end in
  has_enough_aligned_votes ← has_enough_aligned_votes c message;
  let lock_change := is_newer_than_lock && (vs_height vote_step =? w_height w) &&
                     bool_decide (vs_step vote_step = Prevote) && has_enough_aligned_votes in
  _ ← (if lock_change then
         modify_st (set_last_two_thirds_majority (from_message (vs_view vote_step) (cm_block_hash message)))
       else mret tt);
  if is_step w message then
    next_step ←
      match w_step w with
      | TsPrecommit =>
          if has_enough_aligned_votes : bool then
            match cm_block_hash message with
            | None => _ ← increment_view 1; mret (Some Propose)
            | Some bh =>
                match cl_block c (ByHash bh) with
                | Some _ =>
                    _ ← save_last_confirmed_view (vs_view vote_step);
                    _ ← emit (UpdateBestAsCommitted bh);
                    mret (Some Commit)
                | None => _ ← increment_view 1; mret (Some Propose)
                end
            end
          else mret None
      | TsPrevote =>
          if lock_change then mret (Some Precommit)
          else if has_enough_aligned_votes then mret (Some Precommit)
          else mret None
      | _ => mret None
      end;
    match next_step with
    | Some step => move_to_step step is_restoring
    | None => modify_st (set_votes_received_changed true)
    end
  else
    moves ← (if bool_decide (vs_step vote_step = Precommit) && (w_height w =? vs_height vote_step)
             then can_move_from_commit_to_propose c else mret false);
    if moves : bool then
      let height := w_height w in
      _ ← move_to_height (u64_add height 1);
      move_to_step Propose is_restoring
    else modify_st (set_votes_received_changed true).

Definition generate_message_with (block_hash : option H256) (is_restoring : bool) : wM (option bytes) :=
  w ← get_st;
  let on := {| vo_step := vote_step w; vo_block_hash := block_hash |} in
  index ← signer_index c;
  match index with
  | None => mret None
  | Some signer_index =>
      signature ← ok_st (sign_vote on);
      match signature with
      | None => mret None
      | Some signature =>
          let message := {| cm_signature := signature; cm_signer_index := signer_index; cm_on := on |} in
          _ ← mark_received signer_index;
          _ ← record_vote message;
          _ ← handle_valid_message_with message is_restoring;
          mret (Some (rlp_bytes (rlp_append ConsensusMessage_codec message)))
      end
  end.

Definition generate_and_broadcast_message_with (block_hash : option H256) (is_restoring : bool) : wM () :=
  message ← generate_message_with block_hash is_restoring;
  match message with
  | Some message =>
      _ ← (if is_restoring then mret tt else backup);
      broadcast_message message
  | None => mret tt
  end.

(** The arm of each step in [move_to_step]. *)
Definition enter_propose (is_restoring : bool) : wM () :=
  w ← get_st;
  let vote_step := VoteStep_new (w_height w) (w_view w) Propose in
  match get_block_hashes (w_votes w) vote_step with
  | hash :: _ =>
      match cl_block c (ByHash hash) with
      | Some _ =>
          _ ← modify_st (set_proposal (ProposalImported hash));
          move_to_step Prevote is_restoring
      | None => mret tt
      end
  | [] =>
      parent_block_hash ← prev_block_hash c;
      proposer ← is_signer_proposer c parent_block_hash;
      if proposer : bool then
        match w_last_two_thirds_majority w with
        | Lock lock_view _ =>
            block ← locked_proposal_block lock_view;
            match block with Some block => repropose_block block | None => mret tt end
        | _ =>
            _ ← update_sealing parent_block_hash;
            modify_st (set_step (TsProposeWaitBlockGeneration parent_block_hash))
        end
      else request_proposal_to_any (w_height w) (w_view w)
  end.

Definition enter_prevote (is_restoring : bool) : wM () :=
  w ← get_st;
  _ ← request_messages_to_all (VoteStep_new (w_height w) (w_view w) Prevote)
        (bs_sub all_set (w_votes_received w));
  generated ← already_generated_message c;
  if generated : bool then mret tt
  else
    block_hash ← prevote_candidate;
    generate_and_broadcast_message_with block_hash is_restoring.

Definition enter_precommit (is_restoring : bool) : wM () :=
  w ← get_st;
  _ ← request_messages_to_all (VoteStep_new (w_height w) (w_view w) Precommit)
        (bs_sub all_set (w_votes_received w));
  generated ← already_generated_message c;
  if generated : bool then mret tt
  else generate_and_broadcast_message_with (precommit_candidate w) is_restoring.

Definition move_to_step_with (step : Step) (is_restoring : bool) : wM () :=
  w ← get_st;
  let prev_step := w_step w in
  _ ← modify_st (set_step (from_step step));
  _ ← (if is_restoring then mret tt else backup);
  let expired_token_nonce := w_timeout_token_nonce w in
  _ ← modify_st (set_timeout_token_nonce (u64_add expired_token_nonce 1));
  _ ← emit (Net (SetTimerStep step (w_view w) expired_token_nonce));
  let vote_step := VoteStep_new (w_height w) (w_view w) step in
  _ ← (if negb (bool_decide (to_step prev_step = step)) && negb (bool_decide (step = Commit))
       then modify_st (set_votes_received BitSet_new) else mret tt);
  w ← get_st;
  _ ← broadcast_state vote_step (pr_block_hash (w_proposal w)) (ttm_view (w_last_two_thirds_majority w))
        (w_votes_received w);
  match step with
  | Propose => enter_propose is_restoring
  | Prevote => enter_prevote is_restoring
  | Precommit => enter_precommit is_restoring
  | Commit => mret tt
  end.
End Knot.

(** [move_to_step] unrolled: it calls itself at most [fuel] times. *)
Fixpoint move_to_step_fuel (fuel : nat) (step : Step) (is_restoring : bool) : wM () :=
  match fuel with
  | O => throw_st OutOfFuel
  | S fuel => move_to_step_with (move_to_step_fuel fuel) step is_restoring
  end.

(** Within a height a call goes on to the next step, and to the next view only where a proposal
    for it is known: three steps for each round that was voted in, and three more. *)
Definition move_fuel (w : Worker) : nat := 3 * length (w_votes w) + 4.

Definition move_to_step (step : Step) (is_restoring : bool) : wM () := λ w,
  move_to_step_fuel (move_fuel w) step is_restoring w.

Definition handle_valid_message : ConsensusMessage → bool → wM () := handle_valid_message_with move_to_step.
Definition generate_and_broadcast_message : option H256 → bool → wM () :=
  generate_and_broadcast_message_with move_to_step.

(** * Blocks that were imported *)

Definition submit_proposal_block (sealed_block : SealedBlock) : wM () :=
  _ ← move_to_step Prevote false;
  w ← get_st;
  broadcast_proposal_block (w_view w) (Block_rlp_bytes sealed_block With).

(** The precommits that the seal of an imported block has for its parent. *)
Definition collect_seal (on : VoteOn) (signatures : list (N * SchnorrSignature)) : wM () :=
  for_each (λ '(index, signature),
    let message := {| cm_signature := signature; cm_signer_index := index; cm_on := on |} in
    w ← get_st;
    if is_old_or_known (w_votes w) message then mret tt
    else _ ← record_vote message; mret tt) signatures.

(** The proposal of the current round is imported. *)
Definition take_proposal : wM () :=
  w ← get_st;
  match w_step w with
  | TsPropose => move_to_step Prevote false
  | TsProposeWaitImported block =>
      match cb_transactions block with
      | _ :: _ => submit_proposal_block block
      | [] =>
          _ ← modify_st (set_step (TsProposeWaitEmptyBlockTimer block));
          emit (Net (SetTimerEmptyProposal (w_view w)))
      end
  | TsProposeWaitEmptyBlockTimer _ => lift_st Panic
  | _ => mret tt
  end.

(** A proposal of a later height is imported. *)
Definition skip_to_proposal (proposal : Header) : wM () :=
  let height := hd_number proposal in
  _ ← move_to_height height;
  prev_block_view ← lift_st (trusted (previous_block_view id (hd_seal proposal)));
  _ ← save_last_confirmed_view prev_block_view;
  w ← get_st;
  let proposal_at_view_0 := head (get_block_hashes (w_votes w) (VoteStep_new height 0 Propose)) in
  _ ← (if bool_decide (proposal_at_view_0 = Some (Header_hash proposal))
       then modify_st (set_proposal (ProposalImported (Header_hash proposal))) else mret tt);
  move_to_step Prevote false.

Definition on_imported_proposal (proposal : Header) : wM () :=
  if hd_number proposal <? 1 then mret tt
  else
    let height := hd_number proposal in
    prev_block_view ← lift_st (trusted (previous_block_view id (hd_seal proposal)));
    let on := {| vo_step := VoteStep_new (u64_sub height 1) prev_block_view Precommit;
                 vo_block_hash := Some (hd_parent_hash proposal) |} in
    signatures ← lift_st (trusted (seal_signatures id (hd_seal proposal)));
    _ ← collect_seal on signatures;
    w ← get_st;
    votes ← lift_st (throw_out_old (w_votes w) (VoteStep_new (u64_sub (hd_number proposal) 1) 0 Propose));
    _ ← modify_st (set_votes votes);
    w ← get_st;
    let current_height := w_height w in
    let proposal_at_current_view := head (get_block_hashes (w_votes w) (vote_step w)) in
    if bool_decide (proposal_at_current_view = Some (Header_hash proposal)) then
      _ ← modify_st (set_proposal (ProposalImported (Header_hash proposal)));
      take_proposal
    else if current_height <? height then skip_to_proposal proposal
    else mret tt.

Definition is_proposal (block_number : BlockNumber) (block_hash : H256) : wM bool :=
  w ← get_st;
  if block_number <? w_height w then mret false
  else
    next ← lift_st (match cl_block_header c (ByNumber (u64_add block_number 1)) with
                    | Some next => parent_hash ← hv_parent_hash next; Ok (bool_decide (parent_hash = block_hash))
                    | None => Ok false
                    end);
    if next : bool then mret false
    else
      enough ← has_enough_precommit_votes c block_hash;
      mret (negb enough).

(** One imported block; whether the height was changed. *)
Definition new_block (hash : H256) : wM bool :=
  header ← lift_st (expect (cl_block_header c (ByHash hash)));
  full_header ← lift_st (encoded_decode header);
  proposal ← is_proposal (hd_number full_header) (Header_hash full_header);
  if proposal : bool then _ ← on_imported_proposal full_header; mret false
  else
    w ← get_st;
    number ← lift_st (hv_number header);
    if w_height w <? number then
      prev_block_view ← lift_st (trusted (previous_block_view id (hd_seal full_header)));
      _ ← move_to_height number;
      _ ← save_last_confirmed_view prev_block_view;
      mret true
    else mret false.

Fixpoint import_blocks (imported : list H256) (height_changed : bool) : wM bool :=
  match imported with
  | [] => mret height_changed
  | hash :: imported =>
      changed ← new_block hash;
      import_blocks imported (height_changed || changed)
  end.

Definition new_blocks (imported enacted : list H256) : wM () :=
  height_changed ← import_blocks imported false;
  if height_changed : bool then move_to_step Propose false
  else
    moves ← match enacted with [] => mret false | _ => can_move_from_commit_to_propose c end;
    if moves : bool then
      w ← get_st;
      let new_height := u64_add (w_height w) 1 in
      _ ← move_to_height new_height;
      move_to_step Propose false
    else mret tt.

(** * Proposals of the node *)

Definition generate_seal (height : N) (parent_hash : H256) : wM Seal :=
  w ← get_st;
  if height <? w_height w then mret SealNone
  else
    proposer ← is_signer_proposer c parent_hash;
    _ ← lift_st (assert proposer);
    _ ← lift_st (assert (proposal_is_none (w_proposal w)));
    _ ← lift_st (assert (height =? w_height w));
    let view := w_view w in
    let last_block_view := w_last_confirmed_view w in
    prev ← prev_block_hash c;
    _ ← lift_st (assert (bool_decide (prev = parent_hash)));
    let '(precommits, precommit_indices) :=
      round_signatures_and_indices (w_votes w)
        (VoteStep_new (u64_sub height 1) last_block_view Precommit) parent_hash in
    precommit_bitset ← lift_st (new_with_indices precommit_indices);
    mret (SealTendermint last_block_view view precommits precommit_bitset).

Definition proposal_generated (sealed_block : SealedBlock) : wM () :=
  let header := cb_header sealed_block in
  w ← get_st;
  _ ← lift_st (match w_step w with
               | TsProposeWaitBlockGeneration expected_parent_hash =>
                   assert (bool_decide (hd_parent_hash header = expected_parent_hash))
               | _ => Panic
               end);
  _ ← propose_vote header;
  modify_st (set_step (TsProposeWaitImported sealed_block)).

(** * Headers *)

Definition verify_header_basic (header : Header) : wM () :=
  let seal_length := len (hd_seal header) in
  let expected_seal_fields := SEAL_FIELDS in
  if negb (seal_length =? expected_seal_fields) then
    throw_st (InvalidSealArity expected_seal_fields seal_length)
  else
    let height := hd_number header in
    view ← lift_st (trusted (consensus_view id (hd_seal header)));
    score ← lift_st (calculate_score height view);
    if negb (hd_score header =? score) then throw_st (InvalidScore score (hd_score header))
    else mret tt.

(** One signature of a seal, against the validators that have voted so far. *)
Definition verify_precommit (validators : DynamicValidator) (grand_parent_hash precommit_hash : H256)
  (voted_validators : BitSet) (vote : N * SchnorrSignature) : result TmError BitSet :=
  let '(bitset_index, signature) := vote in
  public ← map_err TmEngine (dv_get c validators grand_parent_hash bitset_index);
  verified ← map_err TmKey (verify_schnorr public signature precommit_hash);
  if negb verified then Err (TmEngine (BlockNotAuthorized (public_to_address public)))
  else
    known ← is_set voted_validators bitset_index;
    _ ← assert (negb known);
    bs_set voted_validators bitset_index.

Definition verify_block_external (header : Header) : wM () :=
  view ← lift_st (consensus_view TmDecoder (hd_seal header));
  let proposer := hd_author header in
  authority ← is_authority c (hd_parent_hash header) proposer;
  if negb authority then throw_st (TmEngine (BlockNotAuthorized proposer))
  else
    _ ← check_view_proposer c (hd_parent_hash header) (hd_number header) view proposer;
    bitset ← lift_st (seal_bitset TmDecoder (hd_seal header));
    let bitset_count := bs_count bitset in
    precommits ← lift_st (precommits (hd_seal header));
    precommits_count ← lift_st (map_err TmDecoder (item_count precommits));
    if bitset_count <? precommits_count then throw_st InvalidSeal
    else if precommits_count <? bitset_count then throw_st InvalidSeal
    else
      previous_block_view ← lift_st (previous_block_view TmDecoder (hd_seal header));
      let step := VoteStep_new (u64_sub (hd_number header) 1) previous_block_view Precommit in
      let precommit_hash := message_hash step (hd_parent_hash header) in
      parent ← lift_st (expect (cl_block_header c (ByHash (hd_parent_hash header))));
      grand_parent_hash ← lift_st (hv_parent_hash parent);
      signatures ← lift_st (seal_signatures TmDecoder (hd_seal header));
      w ← get_st;
      voted_validators ← lift_st (fold_res
        (verify_precommit (w_validators w) grand_parent_hash precommit_hash) BitSet_new signatures);
      if hd_number header =? 1 then mret tt
      else lift_engine (dv_check_enough_votes c (w_validators w) grand_parent_hash voted_validators).
End Actions.

Section Messages.
Context `{Crypto, Schnorr, EcdsaSigner, HashOrder, Snappy} (c : Client).

(** * Votes of other nodes *)

(** [DoubleVote::to_action] *)
Definition to_action (self : DoubleVote) : StakeAction ConsensusMessage :=
  ReportDoubleVote (dv_vote_one self) (dv_vote_two self).

Definition report_double_vote (double : DoubleVote) : wM () :=
  let network_id := cl_network_id c in
  w ← get_st;
  match w_signer w with
  | None => mret tt
  | Some (address, public) =>
      let seq := cl_latest_seq c address in
      let tx := {| tx_seq := seq; tx_fee := 0; tx_network_id := network_id;
                   tx_action := Action.Custom CUSTOM_ACTION_HANDLER_ID
                                  (rlp_bytes (StakeAction_append (to_action double))) |} in
      match sign_ecdsa public (Transaction_hash tx) with
      | Err _ => mret tt
      | Panic => lift_st Panic
      | Ok signature =>
          let unverified := UnverifiedTransaction_new tx signature in
          match recover_public unverified with
          | Ok key => emit (QueueOwnTransaction {| stx_tx := unverified; stx_signer_public := key |})
          | _ => lift_st Panic
          end
      end
  end.

(** The round whose votes are gathered: in the commit step, that of the last precommits. *)
Definition current_vote_step (w : Worker) : VoteStep :=
  if is_commit (w_step w) then VoteStep_new (w_height w) (w_last_confirmed_view w) Precommit
  else vote_step w.

Definition handle_message (rlp : bytes) (is_restoring : bool) : wM () :=
  message ← lift_st (map_err (λ x, TmEngine (MalformedMessage (inl x))) (decode ConsensusMessage_codec rlp));
  w ← get_st;
  if is_old_or_known (w_votes w) message then mret tt
  else
    let signer_index := cm_signer_index message in
    let prev_height := u64_sub (cm_height message) 1 in
    if w_height w <? cm_height message then
      throw_st (TmEngine (FutureMessage (cm_height message) (w_height w)))
    else
      header ← lift_st (expect (cl_block_header c (ByNumber prev_height)));
      let prev_block_hash := hv_hash header in
      count ← lift_engine (dv_count c (w_validators w) prev_block_hash);
      if count <=? signer_index then throw_st (TmEngine (ValidatorNotExist prev_height signer_index))
      else
        sender_public ← lift_engine (dv_get c (w_validators w) prev_block_hash signer_index);
        verified ← lift_st (map_err (λ x, TmEngine (MalformedMessage (inr x)))
                              (cm_verify message sender_public));
        if negb verified then
          throw_st (TmEngine (MessageWithInvalidSignature prev_height signer_index
                                (public_to_address sender_public)))
        else
          let sender := public_to_address sender_public in
          if vs_lt (vote_step w) (cm_round message) then mret tt
          else
            _ ← (if bool_decide (cm_round message = current_vote_step w) then
                   vote_index ← lift_engine (dv_get_index c (w_validators w) prev_block_hash sender_public);
                   vote_index ← lift_st (expect vote_index);
                   mark_received vote_index
                 else mret tt);
            double ← record_vote message;
            match double with
            | Some double =>
                _ ← report_double_vote double;
                throw_st (TmEngine (EngineDoubleVote sender))
            | None => handle_valid_message c message is_restoring
            end.

(** A call whose error is the reply. *)
Definition reply {A : Type} (m : wM A) : wM (result TmError A) := λ w,
  match m w with
  | (Ok a, w) => (Ok (Ok a), w)
  | (Err OutOfFuel, w) => (Err OutOfFuel, w)
  | (Err e, w) => (Ok (Err e), w)
  | (Panic, w) => (Panic, w)
  end.

Definition restore : wM () :=
  w ← get_st;
  backup ← lift_st (restore_backup (w_kvdb w));
  match backup with
  | None => mret tt
  | Some backup =>
      let backup_step := if bool_decide (bk_step backup = Commit) then Precommit else bk_step backup in
      _ ← modify_st (λ w, set_last_confirmed_view (bk_last_confirmed_view backup)
            (set_view (bk_view backup) (set_height (bk_height backup) (set_step (from_step backup_step) w))));
      _ ← match bk_proposal backup with
          | Some proposal =>
              match cl_block c (ByHash proposal) with
              | Some _ => modify_st (set_proposal (ProposalImported proposal))
              | None => mret tt
              end
          | None => mret tt
          end;
      for_each (λ vote,
        let bytes := rlp_bytes (rlp_append ConsensusMessage_codec vote) in
        _ ← reply (handle_message bytes true);
        mret tt) (bk_votes backup)
  end.

(** * Timers *)

Definition is_expired_timeout_token (w : Worker) (nonce : N) : bool := nonce <? w_timeout_token_nonce w.

(** The step that the timer of a step leads to, if any. *)
Definition step_timeout : wM (option Step) :=
  w ← get_st;
  match w_step w with
  | TsPropose =>
      _ ← (if proposal_is_none (w_proposal w) then
             parent ← prev_block_hash c;
             current_proposer ← view_proposer c parent (w_view w);
             _ ← lift_st (expect current_proposer);
             mret tt
           else mret tt);
      mret (Some Prevote)
  | TsProposeWaitBlockGeneration _ => mret None
  | TsProposeWaitImported _ => mret None
  | TsProposeWaitEmptyBlockTimer _ => mret None
  | TsPrevote =>
      enough ← has_enough_any_votes c;
      mret (Some (if enough : bool then Precommit else Prevote))
  | TsPrecommit =>
      enough ← has_enough_any_votes c;
      if enough : bool then _ ← increment_view 1; mret (Some Propose) else mret (Some Precommit)
  | TsCommit =>
      if negb (check_current_block_exists c w) then
        _ ← modify_st (set_step TsCommitTimedout); mret None
      else
        let height := w_height w in
        _ ← move_to_height (u64_add height 1);
        mret (Some Propose)
  | TsCommitTimedout => lift_st Panic
  end.

Definition on_timeout (token : N) : wM () :=
  w ← get_st;
  if token =? ENGINE_TIMEOUT_EMPTY_PROPOSAL then
    _ ← modify_st (set_step TsPropose);
    match w_step w with
    | TsProposeWaitEmptyBlockTimer block => submit_proposal_block c block
    | _ => mret tt
    end
  else if token =? ENGINE_TIMEOUT_BROADCAST_STEP_STATE then
    if w_votes_received_changed w then
      _ ← modify_st (set_votes_received_changed false);
      broadcast_state (vote_step w) (pr_block_hash (w_proposal w))
        (ttm_view (w_last_two_thirds_majority w)) (w_votes_received w)
    else mret tt
  else if is_expired_timeout_token w token then mret tt
  else
    next_step ← step_timeout;
    match next_step with
    | Some next_step => move_to_step c next_step false
    | None => mret tt
    end.

(** * Messages of the extension *)

(** The answers to a peer: what is sent on the channel of the request. *)
Definition send_proposal_block (signature : SchnorrSignature) (view : N) (message : bytes) : bytes :=
  rlp_bytes (TendermintMessage_append (TmProposalBlock signature view message)).
Definition send_request_messages (vote_step : VoteStep) (requested_votes : BitSet) : bytes :=
  rlp_bytes (TendermintMessage_append (TmRequestMessage vote_step requested_votes)).
Definition send_request_proposal (height view : N) : bytes :=
  rlp_bytes (TendermintMessage_append (TmRequestProposal height view)).

(** Whether the client should import the block. *)
Definition on_proposal_message (signature : SchnorrSignature) (proposed_view : N) (bytes : bytes) : wM bool :=
  header_view ← lift_st (bv_header bytes);
  let number := hd_number header_view in
  let parent_hash := hd_parent_hash header_view in
  match cl_block c (ByHash parent_hash) with
  | None => mret false
  | Some _ =>
      prev_proposer_idx ← block_proposer_idx c parent_hash;
      match prev_proposer_idx with
      | None => mret false
      | Some prev_proposer_idx =>
          message ← new_proposal c signature header_view proposed_view prev_proposer_idx;
          w ← get_st;
          if u64_add (w_height w) 1 <? number then mret false
          else if (number =? w_height w) && (w_view w <? proposed_view) then mret false
          else
            signer_public ← lift_engine (dv_get c (w_validators w) parent_hash (cm_signer_index message));
            match cm_verify message signer_public with
            | Panic => lift_st Panic
            | Ok false => mret false
            | Err _ => mret false
            | Ok true =>
                if is_old_or_known (w_votes w) message then mret false
                else
                  _ ← (if (number =? w_height w) && (proposed_view =? w_view w) then
                         _ ← match cl_block c (ByHash (Header_hash header_view)) with
                             | Some _ =>
                                 _ ← lift_st (trusted (consensus_view id (hd_seal header_view)));
                                 modify_st (set_proposal (ProposalImported (Header_hash header_view)))
                             | None =>
                                 modify_st (set_proposal
                                   (ProposalReceived (Header_hash header_view) bytes signature))
                             end;
                         w ← get_st;
                         broadcast_state (vote_step w) (pr_block_hash (w_proposal w))
                           (ttm_view (w_last_two_thirds_majority w)) (w_votes_received w)
                       else mret tt);
                  _ ← record_vote message;
                  mret true
            end
      end
  end.

(** The votes a peer is asked for in the current round. *)
Definition request_current_votes (w : Worker) (peer_vote_step : VoteStep) (peer_known_votes : BitSet)
  : list bytes :=
  let current_vote_step := current_vote_step w in
  if bool_decide (vs_step current_vote_step = Prevote) || bool_decide (vs_step current_vote_step = Precommit) then
    let peer_known_votes :=
      if bool_decide (current_vote_step = peer_vote_step) then peer_known_votes
      else if vs_lt current_vote_step peer_vote_step then all_set
      else BitSet_new in
    let difference := bs_sub peer_known_votes (w_votes_received w) in
    if bs_is_empty difference then [] else [send_request_messages current_vote_step difference]
  else [].

(** The votes a peer is asked for when it knows of a later majority. *)
Definition request_lock_votes (w : Worker) (peer_vote_step : VoteStep) (peer_lock_view : option N) : list bytes :=
  let request peer_lock_view :=
    [send_request_messages (VoteStep_new (w_height w) peer_lock_view Prevote) all_set] in
  if vs_height peer_vote_step =? w_height w then
    match ttm_view (w_last_two_thirds_majority w), peer_lock_view with
    | None, Some peer_lock_view => if peer_lock_view <? w_view w then request peer_lock_view else []
    | Some my_lock_view, Some peer_lock_view =>
        if (my_lock_view <? peer_lock_view) && (peer_lock_view <? w_view w) then request peer_lock_view else []
    | _, _ => []
    end
  else [].

Definition on_step_state_message (w : Worker) (peer_vote_step : VoteStep) (peer_proposal : option H256)
  (peer_lock_view : option N) (peer_known_votes : BitSet) : list bytes :=
  if vs_height peer_vote_step <? w_height w then []
  else if u64_add (w_height w) 2 <? vs_height peer_vote_step then []
  else
    let peer_has_proposal :=
      ((w_view w =? vs_view peer_vote_step) && bool_decide (is_Some peer_proposal))
      || (w_view w <? vs_view peer_vote_step) || (w_height w <? vs_height peer_vote_step) in
    (if need_proposal w && peer_has_proposal then [send_request_proposal (w_height w) (w_view w)] else [])
    ++ request_current_votes w peer_vote_step peer_known_votes
    ++ request_lock_votes w peer_vote_step peer_lock_view.

Definition on_request_proposal_message (request_height request_view : N) : wM (list bytes) :=
  w ← get_st;
  if w_height w <? request_height then mret []
  else if (request_height =? w_height w) && (w_view w <? request_view) then mret []
  else
    proposal ← proposal_at c request_height request_view;
    match proposal with
    | Some (signature, _, block) => mret [send_proposal_block signature request_view block]
    | None =>
        mret (if (request_height =? w_height w) && (request_view =? w_view w) then
                match w_proposal w with
                | ProposalReceived _ block signature => [send_proposal_block signature request_view block]
                | _ => []
                end
              else [])
    end.

(** * The thread *)

(** [worker::Event]; an account that signs is given by its address and its public key. *)
Inductive Event :=
| NewBlocks (imported enacted : list H256)
| GenerateSeal (block_number : N) (parent_hash : H256)
| ProposalGenerated (sealed : SealedBlock)
| VerifyHeaderBasic (header : Header)
| VerifyBlockExternal (header : Header)
| CalculateScore (block_number : N)
| OnTimeout (token : N)
| HandleMessages (messages : list bytes)
| IsProposal (block_number : BlockNumber) (block_hash : H256)
| SetSigner (address : Address) (public : Public)
| AllowedHeight
| Restore
| ProposalBlock (signature : SchnorrSignature) (view : N) (message : bytes)
| StepState (vote_step : VoteStep) (proposal : option H256) (lock_view : option N) (known_votes : BitSet)
| RequestProposal (height view : N)
| GetAllVotesAndAuthors (vote_step : VoteStep) (requested : BitSet).

(** What is sent on the channel of an event. *)
Inductive Reply :=
| ReSeal (seal : Seal)
| ReResult (r : result TmError ())
| ReScore (score : N)
| ReBool (b : bool)
| ReHeight (height : N)
| ReUnit
| ReBytes (bytes : bytes)
| ReMessage (vote : ConsensusMessage).

Definition with_reply {A : Type} (f : A → list Reply) (m : wM A) : wM (list Reply) :=
  a ← m; mret (f a).

Fixpoint handle_messages (messages : list bytes) : wM (list Reply) :=
  match messages with
  | [] => mret []
  | message :: messages =>
      r ← reply (handle_message message false);
      rs ← handle_messages messages;
      mret (ReResult r :: rs)
  end.

(** The body of the loop of [Worker::spawn]. *)
Definition handle (event : Event) : wM (list Reply) :=
  match event with
  | NewBlocks imported enacted => with_reply (λ _, []) (new_blocks c imported enacted)
  | GenerateSeal block_number parent_hash =>
      with_reply (λ seal, [ReSeal seal]) (generate_seal c block_number parent_hash)
  | ProposalGenerated sealed => with_reply (λ _, []) (proposal_generated c sealed)
  | VerifyHeaderBasic header => with_reply (λ r, [ReResult r]) (reply (verify_header_basic header))
  | VerifyBlockExternal header => with_reply (λ r, [ReResult r]) (reply (verify_block_external c header))
  | CalculateScore block_number =>
      w ← get_st;
      with_reply (λ score, [ReScore score]) (lift_st (calculate_score block_number (w_view w)))
  | OnTimeout token => with_reply (λ _, []) (on_timeout token)
  | HandleMessages messages => handle_messages messages
  | IsProposal block_number block_hash => with_reply (λ b, [ReBool b]) (is_proposal c block_number block_hash)
  | SetSigner address public => with_reply (λ _, []) (modify_st (set_signer (Some (address, public))))
  | AllowedHeight =>
      w ← get_st;
      mret [ReHeight (if is_commit (w_step w) then u64_add (w_height w) 1 else w_height w)]
  | Restore => with_reply (λ _, [ReUnit]) restore
  | ProposalBlock signature view message =>
      with_reply (λ b, [ReBool b]) (on_proposal_message signature view message)
  | StepState vote_step proposal lock_view known_votes =>
      w ← get_st;
      mret (ReBytes <$> on_step_state_message w vote_step proposal lock_view known_votes)
  | RequestProposal height view =>
      with_reply (λ bs : list bytes, ReBytes <$> bs) (on_request_proposal_message height view)
  | GetAllVotesAndAuthors vote_step requested =>
      with_reply (λ ms : list ConsensusMessage, ReMessage <$> ms) (get_all_votes_and_authors vote_step requested)
  end.
End Messages.

(** The loop of [Worker::spawn]: the events that the thread receives, each with what the client answers
    while it is handled, until the thread unwinds. *)
Fixpoint exec `{Crypto, Schnorr, EcdsaSigner, HashOrder, Snappy} (events : list (Client * Event)) (w : Worker)
  : Worker :=
  match events with
  | [] => w
  | (c, event) :: events =>
      match handle c event w with
      | (Ok _, w') => exec events w'
      | (_, w') => w'
      end
  end.
