(* ===== verification/TmRun.v ===== *)
(** How the worker of Tendermint runs: a logic for its handlers, the calls that only look, and the
    errors that a handler can end with.  [move_to_step] calls itself as long as it finds proposals
    of further views, and the fuel of the model is enough for that. *)
From stdpp Require Import base gmap list numbers.
From Stdlib Require Import NArith ZArith Lia.
From S2P Require Import Prelude Types Crypto Rlp RlpImpls TxHash BTree StakeData StakeAction Header BitSet.
From S2P Require Import TmMessage VoteCollector Validators TmWorker.

Local Open Scope N_scope.

(** * Weakest preconditions *)

(** [wp m Q X w]: [m] started in [w] returns a value and a state in [Q], or else ends in [X], with
    its error or, where the thread unwinds, with none. *)
Definition wp {A : Type} (m : wM A) (Q : A → Worker → Prop) (X : option TmError → Worker → Prop)
  (w : Worker) : Prop :=
  match m w with
  | (Ok a, w') => Q a w'
  | (Err e, w') => X (Some e) w'
  | (Panic, w') => X None w'
  end.

Section Rules.
Context {A B : Type} (X : option TmError → Worker → Prop).
Implicit Types (m : wM A) (w : Worker).

Lemma wp_bind m (f : A → wM B) Q w : wp m (λ a, wp (f a) Q X) X w → wp (m ≫= f) Q X w.
Proof. unfold wp, mbind, stM_bind. destruct (m w) as [[a| |] w']; done. Qed.

Lemma wp_ret (a : A) Q w : Q a w → wp (mret a) Q X w.
Proof. done. Qed.

Lemma wp_lift (r : result TmError A) Q w :
  (∀ a, r = Ok a → Q a w) → (∀ e, r = Err e → X (Some e) w) → (r = Panic → X None w) →
  wp (lift_st r) Q X w.
Proof. unfold wp, lift_st. destruct r; auto. Qed.

Lemma wp_mono m (Q Q' : A → Worker → Prop) (X' : option TmError → Worker → Prop) w :
  wp m Q X w → (∀ a w', Q a w' → Q' a w') → (∀ o w', X o w' → X' o w') → wp m Q' X' w.
Proof. unfold wp. destruct (m w) as [[a| |] w']; auto. Qed.
End Rules.

Lemma wp_get X Q w : Q w w → wp get_st Q X w.
Proof. done. Qed.
Lemma wp_modify X f Q w : Q tt (f w) → wp (modify_st f) Q X w.
Proof. done. Qed.

Lemma wp_throw {A} X e (Q : A → Worker → Prop) w : X (Some e) w → wp (throw_st e) Q X w.
Proof. done. Qed.

(** * Calls that only look *)

(** A pure call that has no error to return. *)
Definition calm {E A : Type} (r : result E A) : Prop := ∀ e, r ≠ Err e.

(** A call that leaves the worker as it is and has no error to return. *)
Definition looks {A : Type} (m : wM A) : Prop := ∀ w, (m w).2 = w ∧ calm (m w).1.

Lemma calm_ok {E A} (a : A) : calm (Ok (E:=E) a).
Proof. done. Qed.
Lemma calm_panic {E A} : calm (Panic : result E A).
Proof. done. Qed.
Lemma calm_expect {E A} (o : option A) : calm (expect (E:=E) o).
Proof. by destruct o. Qed.
Lemma calm_assert {E} b : calm (assert (E:=E) b).
Proof. by destruct b. Qed.
Lemma calm_trusted {E A} (r : rlpR A) : calm (trusted (E:=E) r).
Proof. by destruct r. Qed.
Lemma calm_bind {E A B} (m : result E A) (f : A → result E B) :
  calm m → (∀ a, calm (f a)) → calm (m ≫= f).
Proof. intros Hm Hf e. destruct m as [a| |]; cbn; [apply Hf| |done]. by destruct (Hm e0). Qed.
Lemma calm_map_err {E F A} (f : E → F) (m : result E A) : calm m → calm (map_err f m).
Proof. intros Hm e. destruct m; cbn; [done| |done]. by destruct (Hm e0). Qed.
Lemma calm_fold {E A B} (f : B → A → result E B) b l : (∀ b a, calm (f b a)) → calm (fold_res f b l).
Proof. intros Hf. revert b. induction l as [|a l IH]; intros b; cbn; [done|]. by apply calm_bind. Qed.
Lemma calm_map_res {E A B} (f : A → result E B) l : (∀ a, calm (f a)) → calm (map_res f l).
Proof.
  intros Hf. induction l as [|a l IH]; cbn; [done|].
  apply calm_bind; [done|]. intros b. by apply calm_bind.
Qed.
Lemma calm_is_ok {A} (r : result EngineError A) : calm (is_ok r).
Proof. by destruct r. Qed.

Create HintDb calm_db.
#[export] Hint Resolve calm_ok calm_panic calm_expect calm_assert calm_trusted calm_map_err calm_fold
  calm_is_ok : calm_db.

(** Goes through a pure call, or one that only looks, branch by branch. *)
Ltac calm_tac :=
  repeat first
    [ solve [auto with calm_db]
    | apply calm_bind; [|intros]
    | match goal with
      | |- calm (if ?b then _ else _) => destruct b
      | |- calm (match ?x with _ => _ end) => destruct x
      | |- calm (map_err _ _) => apply calm_map_err
      | |- calm (fold_res _ _ _) => apply calm_fold; intros
      end ].

Lemma looks_ret {A} (a : A) : looks (mret a).
Proof. by intros w. Qed.
Lemma looks_get : looks get_st.
Proof. by intros w. Qed.
Lemma looks_lift {A} (r : result TmError A) : calm r → looks (lift_st r).
Proof. by intros Hr w. Qed.
Lemma looks_engine {A} (r : result EngineError A) : calm r → looks (lift_engine r).
Proof. intros Hr. by apply looks_lift, calm_map_err. Qed.
Lemma looks_bind {A B} (m : wM A) (f : A → wM B) : looks m → (∀ a, looks (f a)) → looks (m ≫= f).
Proof.
  intros Hm Hf w. destruct (Hm w) as [Hs Hc]. unfold mbind, stM_bind.
  destruct (m w) as [[a|e|] w'] eqn:E; cbn in *; subst; [apply Hf| |done]. by destruct (Hc e).
Qed.

Lemma wp_looks {A} (m : wM A) Q X w :
  looks m → (∀ a, m w = (Ok a, w) → Q a w) → X None w → wp m Q X w.
Proof.
  intros Hm HQ HX. destruct (Hm w) as [Hs Hc]. unfold wp.
  destruct (m w) as [[a|e|] w'] eqn:E; cbn in *; subst; [by apply HQ| |done]. by destruct (Hc e).
Qed.

Lemma wp_calm {A} (r : result TmError A) Q X w :
  calm r → (∀ a, r = Ok a → Q a w) → (r = Panic → X None w) → wp (lift_st r) Q X w.
Proof. intros Hr ? ?. apply wp_lift; [done| |done]. by intros e ?%Hr. Qed.

Ltac looks_tac :=
  repeat first
    [ solve [auto with calm_db]
    | apply looks_bind; [|intros]
    | match goal with
      | |- looks (if ?b then _ else _) => destruct b
      | |- looks (match ?x with _ => _ end) => destruct x
      | |- looks (lift_st _) => apply looks_lift; calm_tac
      | |- looks (lift_engine _) => apply looks_engine; calm_tac
      end ].
#[export] Hint Resolve looks_ret looks_get : calm_db.

(** A call that leaves the worker as it is. *)
Definition idle {A : Type} (m : wM A) : Prop := ∀ w, (m w).2 = w.

Lemma idle_looks {A} (m : wM A) : looks m → idle m.
Proof. intros Hm w. apply Hm. Qed.
Lemma idle_lift {A} (r : result TmError A) : idle (lift_st r).
Proof. by intros w. Qed.
Lemma idle_throw {A} e : idle (throw_st e : wM A).
Proof. by intros w. Qed.
Lemma idle_bind {A B} (m : wM A) (f : A → wM B) : idle m → (∀ a, idle (f a)) → idle (m ≫= f).
Proof.
  intros Hm Hf w. specialize (Hm w). unfold mbind, stM_bind.
  destruct (m w) as [[a|e|] w']; cbn in Hm; subst; [apply Hf|done|done].
Qed.
Lemma idle_reply {A} (m : wM A) : idle m → idle (reply m).
Proof. intros Hm w. specialize (Hm w). unfold reply. destruct (m w) as [[a|e|] w']; [done| |done]. by destruct e. Qed.

Ltac idle_tac :=
  repeat first
    [ solve [apply idle_lift] | solve [apply idle_throw]
    | solve [apply idle_looks; auto with calm_db]
    | apply idle_bind; [|intros]
    | apply idle_reply
    | match goal with
      | |- idle (if ?b then _ else _) => destruct b
      | |- idle (match ?x with _ => _ end) => destruct x
      end ].

Section Looks.
Context `{Crypto, Schnorr, HashOrder} (c : Client).
Implicit Types (self : DynamicValidator).

(** ** The header views and the validator sets *)

Lemma calm_Rlp_val_at {E T} (d : bytes → rlpR T) bs i : calm (Rlp_val_at (E:=E) d bs i).
Proof. unfold Rlp_val_at, Rlp_at, Rlp_as_val. calm_tac. Qed.
Lemma calm_hv_author {E} rlp : calm (hv_author (E:=E) rlp).
Proof. apply calm_Rlp_val_at. Qed.
Lemma calm_hv_number {E} rlp : calm (hv_number (E:=E) rlp).
Proof. apply calm_Rlp_val_at. Qed.
Lemma calm_hv_parent_hash {E} rlp : calm (hv_parent_hash (E:=E) rlp).
Proof. apply calm_Rlp_val_at. Qed.
Lemma calm_bv_header {E} rlp : calm (bv_header (E:=E) rlp).
Proof. apply calm_Rlp_val_at. Qed.
Lemma calm_encoded_decode {E} rlp : calm (encoded_decode (E:=E) rlp).
Proof. unfold encoded_decode, Rlp_as_val. calm_tac. Qed.
#[local] Hint Resolve calm_hv_author calm_hv_number calm_hv_parent_hash : calm_db.

Lemma calm_validators parent : calm (validators c parent).
Proof. unfold validators. calm_tac. Qed.
#[local] Hint Resolve calm_validators : calm_db.
Lemma calm_validators_pubkey parent : calm (validators_pubkey c parent).
Proof. unfold validators_pubkey. calm_tac. Qed.
#[local] Hint Resolve calm_validators_pubkey : calm_db.
Lemma calm_rr_get self index : calm (rr_get self index).
Proof. unfold rr_get. calm_tac. Qed.
#[local] Hint Resolve calm_rr_get : calm_db.
Lemma calm_proposer_index self parent i view : calm (proposer_index c self parent i view).
Proof. unfold proposer_index. calm_tac. Qed.
Lemma calm_dv_get self parent i : calm (dv_get c self parent i).
Proof. unfold dv_get. calm_tac. Qed.
Lemma calm_dv_get_index self parent p : calm (dv_get_index c self parent p).
Proof. unfold dv_get_index. calm_tac. Qed.
Lemma calm_dv_get_index_by_address self parent a : calm (dv_get_index_by_address c self parent a).
Proof. unfold dv_get_index_by_address. calm_tac. Qed.
Lemma calm_dv_contains_address self parent a : calm (dv_contains_address c self parent a).
Proof. unfold dv_contains_address. calm_tac. Qed.
Lemma calm_dv_count self parent : calm (dv_count c self parent).
Proof. unfold dv_count. calm_tac. Qed.
Lemma calm_dv_next_block_proposer self parent view : calm (dv_next_block_proposer c self parent view).
Proof. unfold dv_next_block_proposer, rr_next_block_proposer. calm_tac. Qed.
#[local] Hint Resolve calm_proposer_index calm_dv_get calm_dv_get_index calm_dv_get_index_by_address
  calm_dv_contains_address calm_dv_count calm_dv_next_block_proposer calm_bv_header : calm_db.

(** ** The vote collector *)

Lemma calm_is_set {E} b i : calm (is_set (E:=E) b i).
Proof. unfold is_set. calm_tac. Qed.
Lemma calm_bs_set {E} b i : calm (bs_set (E:=E) b i).
Proof. unfold bs_set. calm_tac. Qed.
#[local] Hint Resolve calm_is_set calm_bs_set : calm_db.
Lemma calm_block_round_votes {E} v r b : calm (block_round_votes (E:=E) v r b).
Proof. unfold block_round_votes, count_block. calm_tac. Qed.
Lemma calm_round_votes {E} v r : calm (round_votes (E:=E) v r).
Proof. unfold round_votes, sc_count. calm_tac. Qed.
Lemma calm_throw_out_old {E} v r : calm (throw_out_old (E:=E) v r).
Proof. unfold throw_out_old. calm_tac. Qed.
#[local] Hint Resolve calm_block_round_votes calm_round_votes calm_throw_out_old : calm_db.

(** ** The questions of the worker *)

Lemma looks_prev_block_hash : looks (prev_block_hash c).
Proof. unfold prev_block_hash. looks_tac. Qed.
#[local] Hint Resolve looks_prev_block_hash : calm_db.
Lemma looks_block_proposer_idx h : looks (block_proposer_idx c h).
Proof. unfold block_proposer_idx. looks_tac. Qed.
Lemma looks_has_all_votes r : looks (has_all_votes c r).
Proof. unfold has_all_votes. looks_tac. Qed.
#[local] Hint Resolve looks_has_all_votes : calm_db.
Lemma looks_can_move : looks (can_move_from_commit_to_propose c).
Proof. unfold can_move_from_commit_to_propose. looks_tac. Qed.
Lemma looks_view_proposer p v : looks (view_proposer c p v).
Proof. unfold view_proposer. looks_tac. Qed.
#[local] Hint Resolve looks_view_proposer : calm_db.
Lemma looks_is_signer_proposer p : looks (is_signer_proposer c p).
Proof. unfold is_signer_proposer. looks_tac. Qed.
Lemma looks_proposal_at h v : looks (proposal_at c h v).
Proof. unfold proposal_at. looks_tac. Qed.
Lemma looks_get_all_votes_and_authors r b : looks (get_all_votes_and_authors r b).
Proof. unfold get_all_votes_and_authors. looks_tac. Qed.
Lemma looks_has_enough_any_votes : looks (has_enough_any_votes c).
Proof. unfold has_enough_any_votes. looks_tac. Qed.
Lemma looks_has_enough_aligned_votes m : looks (has_enough_aligned_votes c m).
Proof. unfold has_enough_aligned_votes, aligned_votes. looks_tac. Qed.
Lemma looks_has_enough_precommit_votes b : looks (has_enough_precommit_votes c b).
Proof. unfold has_enough_precommit_votes. looks_tac. Qed.
Lemma looks_signer_index : looks (signer_index c).
Proof. unfold signer_index. looks_tac. Qed.
#[local] Hint Resolve looks_signer_index : calm_db.
Lemma looks_already_generated_message : looks (already_generated_message c).
Proof. unfold already_generated_message. looks_tac. Qed.
Lemma calm_time gap h : calm (is_generation_time_relevant c gap h).
Proof. unfold is_generation_time_relevant, expect_time. calm_tac. Qed.
#[local] Hint Resolve calm_time : calm_db.
Lemma looks_prevote_candidate : looks (prevote_candidate c).
Proof. unfold prevote_candidate. looks_tac. Qed.
Lemma looks_new_proposal s h v i : looks (new_proposal c s h v i).
Proof. unfold new_proposal. looks_tac. Qed.
#[local] Hint Resolve looks_has_enough_precommit_votes : calm_db.
Lemma looks_is_proposal n b : looks (is_proposal c n b).
Proof. unfold is_proposal. looks_tac. Qed.
End Looks.

#[export] Hint Resolve calm_hv_author calm_hv_number calm_hv_parent_hash calm_bv_header calm_encoded_decode
  calm_proposer_index calm_dv_get calm_dv_get_index calm_dv_get_index_by_address calm_dv_contains_address
  calm_dv_count calm_dv_next_block_proposer calm_is_set calm_bs_set calm_block_round_votes
  calm_round_votes calm_throw_out_old calm_time : calm_db.
#[export] Hint Resolve looks_prev_block_hash looks_block_proposer_idx looks_can_move looks_view_proposer
  looks_is_signer_proposer looks_proposal_at looks_get_all_votes_and_authors looks_has_enough_any_votes
  looks_has_enough_aligned_votes looks_has_enough_precommit_votes looks_signer_index
  looks_already_generated_message looks_prevote_candidate looks_new_proposal looks_is_proposal : calm_db.

(** One step of a handler. *)
Ltac wp_step :=
  match goal with
  | |- wp (_ ≫= _) _ _ _ => apply wp_bind
  | |- wp (mret _) _ _ _ => apply wp_ret
  | |- wp get_st _ _ _ => apply wp_get
  | |- wp (modify_st _) _ _ _ => apply wp_modify
  | |- wp (emit _) _ _ _ => apply wp_modify
  | |- wp (broadcast_message _) _ _ _ => apply wp_modify
  | |- wp (broadcast_state _ _ _ _) _ _ _ => apply wp_modify
  | |- wp (request_messages_to_all _ _) _ _ _ => apply wp_modify
  | |- wp (request_proposal_to_any _ _) _ _ _ => apply wp_modify
  | |- wp (update_sealing _) _ _ _ => apply wp_modify
  | |- wp (save_last_confirmed_view _) _ _ _ => apply wp_modify
  | |- wp (increment_view _) _ _ _ => apply wp_modify
  | |- wp (lift_st _) _ _ _ =>
      first [apply wp_calm; [solve [calm_tac]|intros ? ?|intros ?]
            |apply wp_lift; [intros ? ?|intros ? ?|intros ?]]
  | |- wp (if ?b then _ else _) _ _ _ => destruct b eqn:?
  | |- wp (match ?x with _ => _ end) _ _ _ => destruct x eqn:?
  end.

(** * What the handlers call *)

Section Conditions.
Context `{Crypto, Schnorr, HashOrder} (c : Client).
Context (X : option TmError → Worker → Prop).
Implicit Types (w : Worker) (Q : () → Worker → Prop).

(** ** The states in between *)

Definition backed_up (is_restoring : bool) w : Worker := if is_restoring then w else (backup w).2.

(** The worker when [move_to_step] has announced the step. *)
Definition entered (step : Step) (is_restoring : bool) w : Worker :=
  let w1 := backed_up is_restoring (set_step (from_step step) w) in
  let w2 := set_timeout_token_nonce (u64_add (w_timeout_token_nonce w) 1) w1 in
  let w3 := set_trace (w_trace w2 ++ [Net (SetTimerStep step (w_view w) (w_timeout_token_nonce w))]) w2 in
  let w4 := if negb (bool_decide (to_step (w_step w) = step)) && negb (bool_decide (step = Commit))
            then set_votes_received BitSet_new w3 else w3 in
  set_trace (w_trace w4 ++ [Net (BroadcastState (VoteStep_new (w_height w) (w_view w) step)
    (pr_block_hash (w_proposal w4)) (ttm_view (w_last_two_thirds_majority w4)) (w_votes_received w4))]) w4.

Definition arm (move : Step → bool → wM ()) (step : Step) (is_restoring : bool) : wM () :=
  match step with
  | Propose => enter_propose c move is_restoring
  | Prevote => enter_prevote c move is_restoring
  | Precommit => enter_precommit c move is_restoring
  | Commit => mret tt
  end.

Lemma move_to_step_with_entered move step r w :
  move_to_step_with c move step r w = arm move step r (entered step r w).
Proof.
  unfold move_to_step_with, entered, backed_up, arm.
  unfold mbind at 1. unfold stM_bind at 1. cbn [get_st].
  destruct r, step, (bool_decide (to_step (w_step w) = _)); reflexivity.
Qed.

Definition relock (enough : bool) (message : ConsensusMessage) w : Worker :=
  let r := cm_round message in
  let newer := match ttm_view (w_last_two_thirds_majority w) with
               | Some last_lock => last_lock <? vs_view r
               | None => true
               end in
  if newer && (vs_height r =? w_height w) && bool_decide (vs_step r = Prevote) && enough
  then set_last_two_thirds_majority (from_message (vs_view r) (cm_block_hash message)) w else w.

Definition next_view w : Worker :=
  set_votes_received BitSet_new (set_proposal ProposalNone (set_view (u64_add (w_view w) 1) w)).

Definition at_height (height : N) w : Worker :=
  set_votes_received BitSet_new (set_proposal ProposalNone (set_view 0
    (set_height height (set_last_two_thirds_majority Empty w)))).

Definition committed (view : N) (hash : H256) w : Worker :=
  let w1 := set_last_confirmed_view view w in set_trace (w_trace w1 ++ [UpdateBestAsCommitted hash]) w1.

Definition announced (on : VoteOn) w : Worker := set_trace (w_trace w ++ [SignVote on]) w.

(** The worker when it has collected its own vote. *)
Definition voted (received : BitSet) (message : ConsensusMessage) w : Worker :=
  let w1 := set_votes_received received (announced (cm_on message) w) in
  set_votes (vc_vote (w_votes w1) message).1 w1.

(** The worker when it has broadcast its vote. *)
Definition sent (is_restoring : bool) (message : ConsensusMessage) w : Worker :=
  let w1 := backed_up is_restoring w in
  set_trace (w_trace w1 ++
    [Net (BroadcastMessage (rlp_bytes (rlp_append ConsensusMessage_codec message)))]) w1.

(** ** The conditions *)

Lemma can_move_commit w w' :
  can_move_from_commit_to_propose c w = (Ok true, w') → is_commit (w_step w) = true.
Proof.
  unfold can_move_from_commit_to_propose, mbind, stM_bind. cbn [get_st].
  destruct (w_step w); cbn; done.
Qed.

(** What [handle_valid_message] comes to. *)
Lemma wp_handle_valid_message move message r Q w :
  X None w →
  (∀ enough, has_enough_aligned_votes c message w = (Ok enough, w) →
    let w1 := relock enough message w in
    if is_step w message then
      match w_step w, enough with
      | TsPrecommit, true =>
          match cm_block_hash message with
          | Some bh =>
              match cl_block c (ByHash bh) with
              | Some _ => wp (move Commit r) Q X (committed (vs_view (cm_round message)) bh w1)
              | None => wp (move Propose r) Q X (next_view w1)
              end
          | None => wp (move Propose r) Q X (next_view w1)
          end
      | TsPrevote, true => wp (move Precommit r) Q X w1
      | _, _ => Q tt (set_votes_received_changed true w1)
      end
    else
      X None w1 ∧ Q tt (set_votes_received_changed true w1) ∧
      (is_commit (w_step w) = true → w_height w = vs_height (cm_round message) →
       w_height w < u64_add (w_height w) 1 →
       wp (move Propose r) Q X (at_height (u64_add (w_height w) 1) w1))) →
  wp (handle_valid_message_with c move message r) Q X w.
Proof.
  intros HX HQ. unfold handle_valid_message_with.
  wp_step. wp_step. wp_step. apply wp_looks; [auto with calm_db| |done]. intros enough He.
  specialize (HQ enough He). cbv zeta in HQ. unfold relock in HQ. cbv zeta in HQ.
  wp_step. set (lock := _ && enough) in HQ |- *.
  assert (Hl : lock = true → enough = true) by (subst lock; intros [_ ?]%andb_prop; done).
  set (w1 := if lock then _ else w) in HQ.
  assert (Hw : wp (if lock then modify_st (set_last_two_thirds_majority
                 (from_message (vs_view (cm_round message)) (cm_block_hash message))) else mret tt)
               (λ _ w', w' = w1) X w) by (subst w1; destruct lock; done).
  eapply wp_mono; [exact Hw| |done]. intros _ ? ->. assert (w_step w1 = w_step w ∧ w_height w1 = w_height w) as [Es Eh] by (subst w1; by destruct lock).
  clearbody lock w1. clear Hw He.
  destruct (is_step w message).
  - wp_step. destruct (w_step w), enough, lock; try by destruct Hl; repeat wp_step.
    all: try (specialize (Hl eq_refl); discriminate).
    all: repeat wp_step; done.
  - destruct HQ as (HX1 & HQ1 & HQ2). wp_step.
    destruct (bool_decide _ && _) eqn:Hp; [|by wp_step; wp_step].
    apply andb_prop in Hp as [_ Hp%N.eqb_eq].
    apply wp_looks; [auto with calm_db| |done]. intros [] Hc; [|done].
    apply can_move_commit in Hc. rewrite Es in Hc.
    wp_step. unfold move_to_height. do 4 wp_step; [wp_step|done].
    apply HQ2; [done|done|]. apply assert_Ok, N.ltb_lt in H2. by rewrite <- Eh at 1.
Qed.

Lemma wp_record_vote message (Q : option DoubleVote → Worker → Prop) w :
  Q (vc_vote (w_votes w) message).2 (set_votes (vc_vote (w_votes w) message).1 w) →
  wp (record_vote message) Q X w.
Proof.
  unfold wp, record_vote, mbind, stM_bind. cbn [get_st]. by destruct (vc_vote (w_votes w) message).
Qed.

Lemma wp_sign_vote on (Q : option SchnorrSignature → Worker → Prop) w :
  X None w → Q None w →
  (∀ address public signature, w_signer w = Some (address, public) →
     sign_schnorr public (vote_digest on) = Ok signature → Q (Some signature) (announced on w)) →
  wp (ok_st (sign_vote on)) Q X w.
Proof.
  intros HX HN HS. unfold wp, ok_st, sign_vote, mbind, stM_bind. cbn [get_st].
  destruct (w_signer w) as [[address public]|] eqn:Hs; [|done].
  unfold lift_st, map_err. destruct (sign_schnorr _ _) as [signature| |] eqn:Hg; [|done|done].
  by apply (HS address public).
Qed.

(** What [generate_and_broadcast_message] comes to. *)
Lemma wp_generate_and_broadcast move b r Q w :
  X None w → Q tt w →
  (∀ i address public signature received,
     let on := {| vo_step := vote_step w; vo_block_hash := b |} in
     let message := {| cm_signature := signature; cm_signer_index := i; cm_on := on |} in
     w_signer w = Some (address, public) → signer_index c w = (Ok (Some i), w) →
     sign_schnorr public (vote_digest on) = Ok signature →
     X None (announced on w) ∧
     (bs_set (E:=TmError) (w_votes_received w) i = Ok received →
      wp (handle_valid_message_with c move message r) (λ _ w', Q tt (sent r message w')) X
        (voted received message w))) →
  wp (generate_and_broadcast_message_with c move b r) Q X w.
Proof.
  intros HX HQ Hv. unfold generate_and_broadcast_message_with, generate_message_with.
  do 4 wp_step. apply wp_looks; [auto with calm_db| |done]. intros [i|] Hi; [|done].
  wp_step. apply wp_sign_vote; [done|done|]. intros address public signature Hs Hg.
  destruct (Hv i address public signature [] Hs Hi Hg) as [HX1 _].
  wp_step. unfold mark_received. do 3 wp_step.
  wp_step; [|done]. do 2 wp_step. apply wp_record_vote. wp_step.
  destruct (Hv i address public signature a Hs Hi Hg) as [_ Hv1].
  eapply wp_mono; [apply Hv1; done| |done].
  intros [] w'. cbn. unfold sent, backed_up. by destruct r.
Qed.

(** ** Side steps *)

(** What the worker may emit without binding itself: all but its prevotes and precommits. *)
Definition unbinding (o : Out) : Prop :=
  match o with SignVote on => vs_step (vo_step on) = Propose | _ => True end.

(** [aside w w']: from [w] to [w'] the worker has neither moved on nor voted; it may have collected
    votes that are not prevotes. *)
Record aside w w' : Prop := {
  as_height : w_height w' = w_height w;
  as_view : w_view w' = w_view w;
  as_lock : w_last_two_thirds_majority w' = w_last_two_thirds_majority w;
  as_signer : w_signer w' = w_signer w;
  as_validators : w_validators w' = w_validators w;
  as_gap : w_time_gap_params w' = w_time_gap_params w;
  as_trace : ∃ l, w_trace w' = w_trace w ++ l ∧ Forall unbinding l;
  as_collector : vc_ok (w_votes w) → vc_ok (w_votes w');
  as_prevotes : vc_ok (w_votes w) → ∀ r m, vs_step r = Prevote →
    m ∈ messages_in (w_votes w') r → m ∈ messages_in (w_votes w) r;
}.

#[export] Instance aside_refl : Reflexive aside.
Proof. intros w. split; try done. exists []. by rewrite app_nil_r. Qed.

#[export] Instance aside_trans : Transitive aside.
Proof.
  intros w1 w2 w3 [] []. split; try congruence; try by eauto.
  destruct as_trace0 as (l & El & Hl), as_trace1 as (k & Ek & Hk).
  exists (l ++ k). rewrite Ek, El, app_assoc. split; [done|by apply Forall_app].
Qed.

(** Changes of the fields that [aside] does not look at. *)
Definition blurred w w' : Prop :=
  w_height w' = w_height w ∧ w_view w' = w_view w ∧ w_votes w' = w_votes w ∧ w_signer w' = w_signer w ∧
  w_last_two_thirds_majority w' = w_last_two_thirds_majority w ∧ w_validators w' = w_validators w ∧
  w_time_gap_params w' = w_time_gap_params w ∧ ∃ l, w_trace w' = w_trace w ++ l ∧ Forall unbinding l.

Lemma blurred_aside w w' : blurred w w' → aside w w'.
Proof. intros (? & ? & Hv & ? & ? & ? & ? & ?). split; try done; rewrite Hv; auto. Qed.

Lemma aside_emit o w : unbinding o → aside w (set_trace (w_trace w ++ [o]) w).
Proof. intros Ho. apply blurred_aside. repeat split. exists [o]. split; [done|by constructor]. Qed.

Lemma aside_record message w :
  vs_step (cm_round message) ≠ Prevote → aside w (set_votes (vc_vote (w_votes w) message).1 w).
Proof.
  intros Hs. split; try done; cbn; [by exists []; rewrite app_nil_r|apply vc_vote_ok|].
  intros [Hc _] r m Hr. rewrite elem_of_messages_in_vote by done.
  intros [?|[_ ->]]; done.
Qed.

Lemma aside_step step w : aside w (set_step step w).
Proof. apply blurred_aside. repeat split. exists []. by rewrite app_nil_r. Qed.

Lemma aside_backed_up r w : aside w (backed_up r w).
Proof.
  unfold backed_up. destruct r; [done|]. apply blurred_aside. repeat split.
  eexists [_]. split; [reflexivity|by constructor].
Qed.

Lemma aside_sent r message w : aside w (sent r message w).
Proof. unfold sent. etrans; [apply aside_backed_up|]. by apply aside_emit. Qed.

Lemma aside_entered step r w : aside w (entered step r w).
Proof.
  unfold entered. cbv zeta. etrans; [|by apply aside_emit].
  etrans; [|apply (blurred_aside (set_trace (w_trace (backed_up r (set_step (from_step step) w)) ++
    [Net (SetTimerStep step (w_view w) (w_timeout_token_nonce w))]) (backed_up r (set_step (from_step step) w))));
    destruct (_ && _); repeat split; exists []; by rewrite app_nil_r].
  etrans; [|by apply aside_emit]. etrans; [|apply aside_backed_up].
  apply blurred_aside; repeat split. exists []. by rewrite app_nil_r.
Qed.

(** A side step that keeps the step and what was received in it. *)
Definition beside w w' : Prop :=
  aside w w' ∧ w_step w' = w_step w ∧ w_votes_received w' = w_votes_received w.

Lemma beside_refl w : beside w w.
Proof. done. Qed.
Lemma beside_trans w1 w2 w3 : beside w1 w2 → beside w2 w3 → beside w1 w3.
Proof. intros (? & ? & ?) (? & ? & ?). split; [by etrans|]. split; congruence. Qed.
Lemma beside_emit o w : unbinding o → beside w (set_trace (w_trace w ++ [o]) w).
Proof. intros Ho. split; [by apply aside_emit|done]. Qed.
Lemma beside_record message w :
  vs_step (cm_round message) ≠ Prevote → beside w (set_votes (vc_vote (w_votes w) message).1 w).
Proof. intros Hs. split; [by apply aside_record|done]. Qed.
Lemma beside_proposal p w : beside w (set_proposal p w).
Proof. split; [|done]. apply blurred_aside. repeat split. exists []. by rewrite app_nil_r. Qed.

Lemma wp_expect_sign_vote on (Q : SchnorrSignature → Worker → Prop) w :
  X None w → (∀ signature, Q signature (announced on w)) → wp (expect_st (sign_vote on)) Q X w.
Proof.
  intros HX HS. unfold wp, expect_st, sign_vote, mbind, stM_bind. cbn [get_st].
  destruct (w_signer w) as [[address public]|]; [|done].
  unfold lift_st, map_err. destruct (sign_schnorr _ _) as [signature| |]; [|done|done]. apply HS.
Qed.

Lemma new_proposal_round signature header view idx w message w' :
  new_proposal c signature header view idx w = (Ok message, w') →
  cm_round message = VoteStep_new (hd_number header) view Propose.
Proof.
  unfold new_proposal, mbind, stM_bind. cbn [get_st]. unfold lift_engine, lift_st.
  destruct (map_err _ _); [|done|done]. by intros [= <-].
Qed.

Lemma wp_propose_vote header Q w :
  (∀ w', beside w w' → Q tt w') → (∀ w', beside w w' → X None w') → wp (propose_vote c header) Q X w.
Proof.
  intros HQ HX. unfold propose_vote. do 3 wp_step.
  apply wp_looks; [auto with calm_db| |by apply HX, beside_refl]. intros idx _.
  wp_step. wp_step; [|by apply HX, beside_refl]. wp_step.
  assert (∀ on, vs_step (vo_step on) = Propose → beside w (announced on w)) as Ha
    by (intros; by apply beside_emit).
  apply wp_expect_sign_vote; [by apply HX, beside_refl|]. intros signature. wp_step.
  apply wp_looks; [auto with calm_db| |by apply HX, Ha].
  intros message Hm. wp_step. apply wp_record_vote. wp_step. apply HQ.
  eapply beside_trans; [|apply beside_record]; [by apply Ha|].
  by rewrite (new_proposal_round _ _ _ _ _ _ _ Hm).
Qed.

Lemma wp_broadcast_proposal_block view block Q w :
  (∀ w', beside w w' → Q tt w') → X None w → wp (broadcast_proposal_block c view block) Q X w.
Proof.
  intros HQ HX. unfold broadcast_proposal_block. wp_step. wp_step; [|done]. wp_step.
  apply wp_looks; [auto with calm_db| |done]. intros proposer _. wp_step. wp_step; [|done].
  do 3 wp_step. wp_step; [|done]. wp_step. apply HQ. by apply beside_emit.
Qed.

Lemma wp_repropose_block block Q w :
  (∀ w', beside w w' → Q tt w') → (∀ w', beside w w' → X None w') → wp (repropose_block c block) Q X w.
Proof.
  intros HQ HX. unfold repropose_block. wp_step. wp_step; [|by apply HX, beside_refl]. wp_step.
  apply wp_propose_vote; [|done]. intros w1 Hw1. do 4 wp_step.
  assert (beside w (set_proposal (ProposalImported (Header_hash a)) w1)) as Hw2
    by (eapply beside_trans; [done|apply beside_proposal]).
  apply wp_broadcast_proposal_block; [|by apply HX]. intros w2 ?. apply HQ. by eapply beside_trans.
Qed.

(** What entering the propose step comes to. *)
Lemma wp_enter_propose move r Q w :
  to_step (w_step w) = Propose →
  (∀ w', aside w w' → to_step (w_step w') = Propose → w_votes_received w' = w_votes_received w → Q tt w') →
  (∀ w', beside w w' → X None w') →
  (∀ hash, hash ∈ get_block_hashes (w_votes w) (VoteStep_new (w_height w) (w_view w) Propose) →
     wp (move Prevote r) Q X (set_proposal (ProposalImported hash) w)) →
  wp (enter_propose c move r) Q X w.
Proof.
  intros Hs HQ HX Hm. assert (∀ w', beside w w' → Q tt w') as HQ1.
  { intros w' (? & He & ?). apply HQ; [done|by rewrite He|done]. }
  unfold enter_propose. do 3 wp_step.
  - wp_step. apply wp_looks; [auto with calm_db| |by apply HX, beside_refl]. intros parent _.
    wp_step. apply wp_looks; [auto with calm_db| |by apply HX, beside_refl]. intros [] _.
    + destruct (w_last_two_thirds_majority w) as [|lock_view hash|]; [|wp_step|].
      * wp_step. wp_step. wp_step. apply HQ; [|done|done]. etrans; [|apply aside_step]. by apply aside_emit.
      * unfold locked_proposal_block. do 3 wp_step.
        -- do 3 wp_step. apply HQ1. by apply beside_emit.
        -- wp_step. destruct (cl_block c _); [by apply wp_repropose_block|].
           apply wp_ret. by apply HQ1, beside_refl.
      * wp_step. wp_step. wp_step. apply HQ; [|done|done]. etrans; [|apply aside_step]. by apply aside_emit.
    + apply HQ1. by apply beside_emit.
  - destruct (cl_block c _); [|by apply wp_ret, HQ1, beside_refl].
    do 2 wp_step. apply Hm. by left.
Qed.
End Conditions.

(** * Fuel *)

Section Fuel.
Context `{Crypto, Schnorr, HashOrder} (c : Client).

(** There is a round of proposals of this view. *)
Definition proposed (w : Worker) (view : N) : Prop :=
  VoteStep_new (w_height w) view Propose ∈ (w_votes w).*1.

(** The view after [n] increments. *)
Definition later (view : N) (n : nat) : N :=
  match n with O => view | S _ => (view + N.of_nat n) mod u64_size end.

Lemma later_next view n : later (u64_add view 1) n = later view (S n).
Proof.
  unfold u64_add. destruct n as [|n]; [done|]. cbn [later].
  rewrite N.Div0.add_mod_idemp_l. f_equal. lia.
Qed.

(** The next [k] views, from [d] on, all have proposals. *)
Definition walk_on (w : Worker) (d k : nat) : Prop :=
  ∀ j, (j < k)%nat → proposed w (later (w_view w) (d + j)).

(** The views that a call with this fuel has gone through when it runs out of it. *)
Definition ran_out (fuel : nat) (step : Step) (w : Worker) : Prop :=
  match step with
  | Propose => ∀ k, (3 * k ≤ fuel + 2)%nat → walk_on w 0 k
  | Prevote => ∀ k, (3 * k ≤ fuel)%nat → walk_on w 1 k
  | Precommit => ∀ k, (3 * k ≤ fuel + 1)%nat → walk_on w 1 k
  | Commit => fuel = O
  end.

(** How a call ends without a value: the votes only grow. *)
Definition exhausted (fuel : nat) (step : Step) (w : Worker) (o : option TmError) (w' : Worker) : Prop :=
  ∀ e, o = Some e → e = OutOfFuel ∧ len (w_votes w) ≤ len (w_votes w') ∧ ran_out fuel step w.

Lemma get_block_hashes_key votes r hash : hash ∈ get_block_hashes votes r → r ∈ votes.*1.
Proof.
  unfold get_block_hashes. destruct (bt_get votes r) eqn:Hg; [|by intros ?%not_elem_of_nil].
  intros _. by eapply bt_get_key.
Qed.

Lemma vc_vote_keys votes message r : r ∈ (vc_vote votes message).1.*1 → r = cm_round message ∨ r ∈ votes.*1.
Proof.
  unfold vc_vote. cbv zeta. destruct (sc_insert _ _) as [sc d]. cbn. rewrite !list_elem_of_fmap.
  intros ([k x] & -> & [[= -> ->]|Hx]%bt_insert_elem); [by left|]. right. by exists (k, x).
Qed.

Lemma vc_vote_len votes message : len votes ≤ len (vc_vote votes message).1.
Proof. unfold vc_vote. cbv zeta. destruct (sc_insert _ _). cbn. apply bt_insert_len. Qed.

(** No proposals are collected from [w] to [w']. *)
Definition no_proposals (w w' : Worker) : Prop :=
  w_height w' = w_height w ∧ len (w_votes w) ≤ len (w_votes w') ∧
  ∀ view, proposed w' view → proposed w view.

Lemma walk_on_same w w' d k : no_proposals w w' → w_view w' = w_view w → walk_on w' d k → walk_on w d k.
Proof. intros (_ & _ & Hp) Hv Hw j Hj. specialize (Hw j Hj). rewrite Hv in Hw. auto. Qed.

Lemma walk_on_next w w' k :
  no_proposals w w' → w_view w' = u64_add (w_view w) 1 → walk_on w' 0 k → walk_on w 1 k.
Proof.
  intros (_ & _ & Hp) Hv Hw j Hj. specialize (Hw j Hj). rewrite Hv in Hw. apply Hp.
  by rewrite later_next in Hw.
Qed.

Lemma no_proposals_voted received message w enough :
  vs_step (cm_round message) ≠ Propose → no_proposals w (relock enough message (voted received message w)).
Proof.
  intros Hs. assert (no_proposals w (voted received message w)) as Hn.
  { split; [done|]. split; [apply vc_vote_len|]. intros view [Hr|Hr]%vc_vote_keys; [|done].
    by rewrite <- Hr in Hs. }
  unfold relock. cbv zeta. destruct (_ && enough); done.
Qed.

Lemma own_vote_fuel move fuel step b r w :
  (∀ s r w, wp (move s r) (λ _ _, True) (exhausted fuel s w) w) →
  w_step w = from_step step → step = Prevote ∨ step = Precommit →
  wp (generate_and_broadcast_message_with c move b r) (λ _ _, True) (exhausted (S fuel) step w) w.
Proof.
  intros Hm Hf Hp. apply wp_generate_and_broadcast; [done|done|].
  intros i address public signature received on message _ _ _. split; [done|]. intros _.
  apply wp_handle_valid_message; [done|]. intros enough _. cbv zeta.
  assert (is_step (voted received message w) message = true) as ->.
  { unfold is_step, vs_is_step. cbn. rewrite !N.eqb_refl. by rewrite bool_decide_eq_true_2. }
  assert (vs_step (cm_round message) = step) as Hr by (cbn; rewrite Hf; by destruct Hp as [-> | ->]).
  pose proof (no_proposals_voted received message w enough) as Hn.
  rewrite Hr in Hn. specialize (Hn ltac:(by destruct Hp as [-> | ->])).
  set (w1 := relock enough message (voted received message w)) in *.
  assert (w_view w1 = w_view w) as Hv by (subst w1; unfold relock; cbv zeta; by destruct (_ && enough)).
  assert (∀ s w2, no_proposals w w2 → (ran_out fuel s w2 → ran_out (S fuel) step w) →
    wp (move s r) (λ _ _, True) (exhausted (S fuel) step w) w2) as Hcall.
  { intros s w2 (_ & Hl & _) Hran. eapply wp_mono; [apply Hm|done|].
    intros o w' Hx e He. destruct (Hx e He) as (-> & Hl2 & ?). split; [done|]. split; [lia|auto]. }
  cbn [w_step voted set_votes set_votes_received announced set_trace]. rewrite Hf.
  destruct Hp as [-> | ->]; cbn [from_step]; destruct enough; try done.
  - eapply wp_mono; [apply Hcall; [done|]|done|done]. intros Hran k Hk.
    eapply walk_on_same; [done|done|]. apply Hran. lia.
  - assert (wp (move Propose r) (λ _ _, True) (exhausted (S fuel) Precommit w) (next_view w1)) as Hnext.
    { apply Hcall; [done|]. intros Hran k Hk. apply (walk_on_next w (next_view w1)); [done|cbn; by rewrite Hv|]. apply Hran. lia. }
    destruct (cm_block_hash message); [|done]. destruct (cl_block c _); [|done].
    apply Hcall; [done|]. cbn. intros -> k Hk j Hj. lia.
Qed.

Lemma move_to_step_fuel_ran_out fuel step r w :
  wp (move_to_step_fuel c fuel step r) (λ _ _, True) (exhausted fuel step w) w.
Proof.
  revert step r w. induction fuel as [|fuel IH]; intros step r w.
  { intros e [= <-]. split; [done|]. split; [done|]. destruct step; cbn; try done; intros k Hk j Hj; lia. }
  unfold wp. cbn [move_to_step_fuel]. rewrite move_to_step_with_entered.
  pose proof (aside_entered step r w) as Ha.
  assert (w_votes (entered step r w) = w_votes w ∧ w_step (entered step r w) = from_step step) as [Hv Hs].
  { unfold entered, backed_up. cbv zeta. destruct r, (_ && _); done. }
  assert (no_proposals w (entered step r w)) as Hn.
  { split; [apply Ha|]. unfold proposed. rewrite Hv, (as_height _ _ Ha). split; [done|auto]. }
  set (w1 := entered step r w) in *. fold (wp (arm c (move_to_step_fuel c fuel) step r)
    (λ _ _, True) (exhausted (S fuel) step w) w1).
  assert (∀ w2, no_proposals w w2 → w_view w2 = w_view w → ∀ o w3,
    exhausted (S fuel) step w2 o w3 → exhausted (S fuel) step w o w3) as Hback.
  { intros w2 Hn2 Hv2 o w3 Hx e He. destruct (Hx e He) as (-> & Hl & Hran). split; [done|].
    split; [destruct Hn2 as (_ & ? & _); lia|].
    destruct step; cbn in *; [..|done]; intros k Hk; eapply walk_on_same; eauto. }
  assert (w_view w1 = w_view w) as Hview by apply Ha.
  clearbody w1. destruct step; cbn [arm].
  - apply wp_enter_propose; [by rewrite Hs|done|done|]. intros hash Hh%get_block_hashes_key.
    eapply wp_mono; [apply IH|done|]. intros o w' Hx e He. destruct (Hx e He) as (-> & Hl & Hran).
    split; [done|]. split; [by rewrite <- Hv|]. intros k Hk j Hj.
    destruct j as [|j].
    + cbn. unfold proposed. by rewrite <- Hv, <- Hview, <- (as_height _ _ Ha).
    + pose proof (Hran (k - 1)%nat ltac:(lia) j ltac:(lia)) as Hp.
      cbn in Hp. rewrite Hview in Hp. by apply Hn.
  - unfold enter_prevote. do 5 wp_step. apply wp_looks; [auto with calm_db| |done]. intros [] _; [done|].
    wp_step. apply wp_looks; [auto with calm_db| |done]. intros b _.
    eapply wp_mono; [apply own_vote_fuel; [exact IH|done|by left]|done|]. by apply Hback.
  - unfold enter_precommit. do 5 wp_step. apply wp_looks; [auto with calm_db| |done]. intros [] _; [done|].
    eapply wp_mono; [apply own_vote_fuel; [exact IH|done|by right]|done|]. by apply Hback.
  - done.
Qed.

(** * Events are answered *)

(** A handler that runs out of fuel only with as many rounds of votes as there are views. *)
Definition fueled {A : Type} (m : wM A) : Prop :=
  ∀ w, wp m (λ _ _, True) (λ o w', o = Some OutOfFuel → u64_size ≤ len (w_votes w')) w.

(** A handler that moreover has no error to return. *)
Definition settles {A : Type} (m : wM A) : Prop :=
  ∀ w, wp m (λ _ _, True) (λ o w', ∀ e, o = Some e → e = OutOfFuel ∧ u64_size ≤ len (w_votes w')) w.

Lemma settles_bind {A B} (m : wM A) (f : A → wM B) : settles m → (∀ a, settles (f a)) → settles (m ≫= f).
Proof. intros Hm Hf w. apply wp_bind. eapply wp_mono; [apply Hm| |done]. intros a w' _. apply Hf. Qed.
Lemma settles_looks {A} (m : wM A) : looks m → settles m.
Proof. intros Hm w. by apply wp_looks. Qed.
Lemma settles_modify f : settles (modify_st f).
Proof. by intros w. Qed.
Lemma settles_record_vote message : settles (record_vote message).
Proof. intros w. by apply wp_record_vote. Qed.

Lemma settles_fueled {A} (m : wM A) : settles m → fueled m.
Proof.
  intros Hm w. eapply wp_mono; [apply Hm|done|]. intros o w' Hx ->. by destruct (Hx OutOfFuel).
Qed.
Lemma fueled_bind {A B} (m : wM A) (f : A → wM B) : fueled m → (∀ a, fueled (f a)) → fueled (m ≫= f).
Proof. intros Hm Hf w. apply wp_bind. eapply wp_mono; [apply Hm| |done]. intros a w' _. apply Hf. Qed.
Lemma fueled_throw {A} e : e ≠ OutOfFuel → fueled (throw_st e : wM A).
Proof. by intros He w [= ?]. Qed.
Definition no_fuel {A : Type} (r : result TmError A) : Prop := r ≠ Err OutOfFuel.
Lemma no_fuel_map_err {E A} (f : E → TmError) (r : result E A) :
  (∀ e, f e ≠ OutOfFuel) → no_fuel (map_err f r).
Proof. intros Hf. destruct r as [| e|]; [done| |done]. by intros [= ?%Hf]. Qed.
Lemma no_fuel_calm {A} (r : result TmError A) : calm r → no_fuel r.
Proof. intros Hr. apply Hr. Qed.
Lemma no_fuel_bind {A B} (m : result TmError A) (f : A → result TmError B) :
  no_fuel m → (∀ a, no_fuel (f a)) → no_fuel (m ≫= f).
Proof. intros Hm Hf. destruct m as [a|e|]; cbn; [apply Hf| |done]. intros [= ->]. by apply Hm. Qed.
Lemma no_fuel_fold {A B} (f : B → A → result TmError B) b l :
  (∀ b a, no_fuel (f b a)) → no_fuel (fold_res f b l).
Proof. intros Hf. revert b. induction l as [|a l IH]; intros b; cbn; [done|]. by apply no_fuel_bind. Qed.
Lemma no_fuel_map {A B} (f : A → result TmError B) l : (∀ a, no_fuel (f a)) → no_fuel (map_res f l).
Proof.
  intros Hf. induction l as [|a l IH]; cbn; [done|].
  apply no_fuel_bind; [done|]. intros b. by apply no_fuel_bind.
Qed.

Lemma fueled_lift {A} (r : result TmError A) : no_fuel r → fueled (lift_st r).
Proof. intros Hr w. apply wp_lift; [done| |done]. by intros e -> [= ->]. Qed.
Lemma fueled_engine {A} (r : result EngineError A) : fueled (lift_engine r).
Proof. apply fueled_lift. by destruct r. Qed.
Lemma settles_reply {A} (m : wM A) : fueled m → settles (reply m).
Proof.
  intros Hm w. specialize (Hm w). unfold wp, reply in *.
  destruct (m w) as [[a|e|] w']; [done| |done]. destruct e; try done. intros e [= <-]. auto.
Qed.
Lemma settles_for_each {A} (f : A → wM ()) l : (∀ x, settles (f x)) → settles (for_each f l).
Proof. intros Hf. induction l as [|x l IH]; cbn; [by intros w|]. by apply settles_bind. Qed.

(** The views that [move_to_step] has gone through are as many rounds of proposals. *)
Lemma later_distinct v k : N.of_nat k ≤ u64_size → NoDup (later v <$> seq 1 k).
Proof.
  intros Hk. apply NoDup_fmap_2_strong; [|apply NoDup_seq]. intros x y Hx%elem_of_seq Hy%elem_of_seq.
  destruct x as [|x], y as [|y]; [lia..|]. cbn [later]. intros He.
  apply Nat2N.inj. assert (N.of_nat (S x) ≤ u64_size ∧ N.of_nat (S y) ≤ u64_size) as [? ?] by lia.
  assert (1 ≤ N.of_nat (S x) ∧ 1 ≤ N.of_nat (S y)) as [? ?] by lia.
  revert He. generalize dependent (N.of_nat (S x)). generalize dependent (N.of_nat (S y)).
  change u64_size with 18446744073709551616. intros a ? ? b ? ? ?. lia_div.
Qed.

Lemma move_to_step_settles step r : settles (move_to_step c step r).
Proof.
  intros w. unfold move_to_step, wp. fold (wp (move_to_step_fuel c (move_fuel w) step r) (λ _ _, True)
    (λ o w', ∀ e, o = Some e → e = OutOfFuel ∧ u64_size ≤ len (w_votes w')) w).
  eapply wp_mono; [apply move_to_step_fuel_ran_out|done|]. intros o w' Hx e He.
  destruct (Hx e He) as (-> & Hl & Hran). split; [done|]. etrans; [|exact Hl].
  set (k := S (length (w_votes w))).
  assert (∀ n, (n < k)%nat → proposed w (later (w_view w) (S n))) as Hp.
  { intros n Hn. unfold move_fuel in Hran. destruct step; cbn in Hran; [|apply (Hran k); lia..|lia].
    apply (Hran (S k)); lia. }
  destruct (decide (N.of_nat k ≤ u64_size)) as [Hk|Hk]; [exfalso|unfold len; lia].
  pose proof (later_distinct (w_view w) k Hk) as Hd.
  assert (NoDup ((λ v, VoteStep_new (w_height w) v Propose) <$> (later (w_view w) <$> seq 1 k))) as Hd2.
  { apply NoDup_fmap_2; [by intros ?? [= ->]|done]. }
  assert (((λ v, VoteStep_new (w_height w) v Propose) <$> (later (w_view w) <$> seq 1 k)) ⊆+ (w_votes w).*1) as Hs.
  { apply NoDup_submseteq; [done|]. intros r0. rewrite !list_elem_of_fmap.
    intros (v & -> & (n & -> & Hn%elem_of_seq)%list_elem_of_fmap).
    destruct n as [|n]; [lia|]. apply list_elem_of_fmap, (Hp n). lia. }
  apply submseteq_length in Hs. rewrite !length_fmap, length_seq in Hs. lia.
Qed.
End Fuel.

Create HintDb settle_db.
#[export] Hint Resolve settles_modify settles_record_vote move_to_step_settles settles_fueled
  fueled_engine : settle_db.
#[export] Hint Extern 1 (settles (emit _)) => apply settles_modify : settle_db.
#[export] Hint Extern 2 (settles _) => apply settles_looks; solve [looks_tac] : settle_db.
#[export] Hint Extern 1 (fueled (throw_st _)) => apply fueled_throw; discriminate : settle_db.

#[export] Hint Resolve no_fuel_calm calm_ok calm_panic : settle_db.
Ltac no_fuel_tac :=
  repeat first
    [ solve [auto with calm_db settle_db]
    | apply no_fuel_map_err; discriminate
    | apply no_fuel_bind; [|intros]
    | apply no_fuel_fold; intros
    | apply no_fuel_map; intros
    | match goal with
      | |- no_fuel (Err _) => discriminate
      | |- no_fuel (if ?b then _ else _) => destruct b
      | |- no_fuel (match ?x with _ => _ end) => destruct x
      end ].

(** Goes through a handler branch by branch. *)
Ltac settle_tac :=
  repeat first
    [ solve [eauto 3 with settle_db]
    | apply settles_bind; [|intros]
    | apply fueled_bind; [|intros]
    | apply settles_for_each; intros
    | apply settles_reply
    | apply fueled_lift; solve [no_fuel_tac]
    | match goal with
      | |- settles (if ?b then _ else _) => destruct b
      | |- settles (match ?x with _ => _ end) => destruct x
      | |- fueled (if ?b then _ else _) => destruct b
      | |- fueled (match ?x with _ => _ end) => destruct x
      end ].

Section Answers.
Context `{Crypto, Schnorr, EcdsaSigner, HashOrder, Snappy} (c : Client).

Lemma settles_move_to_height h : settles (move_to_height h).
Proof. unfold move_to_height. settle_tac. Qed.
Lemma settles_increment_view n : settles (increment_view n).
Proof. apply settles_modify. Qed.
Lemma settles_save_last_confirmed_view n : settles (save_last_confirmed_view n).
Proof. apply settles_modify. Qed.
Lemma settles_broadcast_state r p l v : settles (broadcast_state r p l v).
Proof. apply settles_modify. Qed.
#[local] Hint Resolve settles_move_to_height settles_increment_view settles_save_last_confirmed_view
  settles_broadcast_state : settle_db.

Lemma settles_handle_valid_message message r : settles (handle_valid_message c message r).
Proof. unfold handle_valid_message, handle_valid_message_with. settle_tac. Qed.
Lemma settles_broadcast_proposal_block view block : settles (broadcast_proposal_block c view block).
Proof. intros w. by apply wp_broadcast_proposal_block. Qed.
Lemma settles_propose_vote header : settles (propose_vote c header).
Proof. intros w. by apply wp_propose_vote. Qed.
#[local] Hint Resolve settles_handle_valid_message settles_broadcast_proposal_block settles_propose_vote
  : settle_db.
Lemma settles_submit_proposal_block block : settles (submit_proposal_block c block).
Proof. unfold submit_proposal_block. settle_tac. Qed.
#[local] Hint Resolve settles_submit_proposal_block : settle_db.
Lemma settles_on_imported_proposal header : settles (on_imported_proposal c header).
Proof. unfold on_imported_proposal, collect_seal, take_proposal, skip_to_proposal. settle_tac. Qed.
#[local] Hint Resolve settles_on_imported_proposal : settle_db.
Lemma settles_new_blocks imported enacted : settles (new_blocks c imported enacted).
Proof.
  unfold new_blocks. apply settles_bind; [|intros; settle_tac].
  generalize false. induction imported as [|hash imported IH]; intros b; cbn [import_blocks]; [settle_tac|].
  apply settles_bind; [|auto]. unfold new_block. settle_tac.
Qed.
Lemma settles_generate_seal height parent : settles (generate_seal c height parent).
Proof. unfold generate_seal, new_with_indices. settle_tac. Qed.
Lemma settles_proposal_generated block : settles (proposal_generated c block).
Proof. unfold proposal_generated. settle_tac. Qed.
Lemma settles_on_timeout token : settles (on_timeout c token).
Proof. unfold on_timeout, step_timeout. settle_tac. Qed.
Lemma settles_report_double_vote double : settles (report_double_vote c double).
Proof. unfold report_double_vote. settle_tac. Qed.
Lemma settles_mark_received i : settles (mark_received i).
Proof. unfold mark_received. settle_tac. Qed.
#[local] Hint Resolve settles_report_double_vote settles_mark_received : settle_db.
Lemma fueled_handle_message rlp r : fueled (handle_message c rlp r).
Proof.
  unfold handle_message. settle_tac.
Qed.
#[local] Hint Resolve fueled_handle_message : settle_db.
Lemma calm_restore_backup value : calm (restore_backup value).
Proof.
  unfold restore_backup. destruct value; [|done].
  do 3 (apply calm_bind; [apply calm_Rlp_val_at|intros]). apply calm_bind; [|intros].
  - unfold Rlp_list_at, Rlp_at, Rlp_as_list, Rlp_as_val. apply calm_bind; [calm_tac|]. intros.
    apply calm_map_res. intros. calm_tac.
  - apply calm_bind; [apply calm_Rlp_val_at|done].
Qed.
#[local] Hint Resolve calm_restore_backup : calm_db.
Lemma settles_restore : settles (restore c).
Proof. unfold restore. settle_tac. Qed.
Lemma settles_on_proposal_message signature view block : settles (on_proposal_message c signature view block).
Proof. unfold on_proposal_message. settle_tac. Qed.
Lemma settles_on_request_proposal_message h v : settles (on_request_proposal_message c h v).
Proof. unfold on_request_proposal_message. settle_tac. Qed.
Lemma fueled_verify_header_basic header : fueled (verify_header_basic header).
Proof. unfold verify_header_basic, calculate_score. settle_tac. Qed.
Lemma fueled_verify_block_external header : fueled (verify_block_external c header).
Proof.
  unfold verify_block_external, verify_precommit, is_authority, check_view_proposer, consensus_view,
    previous_block_view, seal_signatures, seal_bitset, precommits, seal_field.
  settle_tac.
Qed.
#[local] Hint Resolve settles_new_blocks settles_generate_seal settles_proposal_generated
  settles_on_timeout settles_restore settles_on_proposal_message settles_on_request_proposal_message
  fueled_verify_header_basic fueled_verify_block_external : settle_db.

Lemma handle_settles event : settles (handle c event).
Proof.
  destruct event; cbn [handle]; unfold with_reply; try settle_tac.
  induction messages as [|message messages IH]; cbn [handle_messages]; settle_tac.
Qed.

(** C27: every event is handled in full.  Handling an event never ends in an error: [move_to_step],
    which calls itself through the vote that the node casts, comes to an end within the fuel of the
    model, whatever the votes and the chain are, as long as there are fewer rounds of votes than
    views; and the errors of a handler are what the event is answered with.  An event is answered,
    or else the thread unwinds. *)
Theorem event_handled event (w : Worker) :
  len (w_votes (handle c event w).2) < u64_size →
  (∃ replies w', handle c event w = (Ok replies, w')) ∨ (handle c event w).1 = Panic.
Proof.
  intros Hl. pose proof (handle_settles event w) as Hs. unfold wp in Hs.
  destruct (handle c event w) as [[replies|e|] w']; [by left; eauto| |by right].
  cbn in *. destruct (Hs e eq_refl). lia.
Qed.
End Answers.
