(* ===== verification/TmTrace.v ===== *)
(** The record of what the worker of Tendermint has done: no handler takes anything back. *)
From stdpp Require Import base gmap list numbers.
From Stdlib Require Import NArith ZArith Lia.
From S2P Require Import Prelude Types Crypto Rlp RlpImpls TxHash BTree StakeData StakeAction Header BitSet.
From S2P Require Import TmMessage VoteCollector Validators TmWorker TmRun.

Local Open Scope N_scope.

Definition grows {A : Type} (m : wM A) : Prop := ∀ w, w_trace w ⊆ w_trace (m w).2.

Lemma grows_looks {A} (m : wM A) : looks m → grows m.
Proof. intros Hm w. destruct (Hm w) as [-> _]. done. Qed.
Lemma grows_lift {A} (r : result TmError A) : grows (lift_st r).
Proof. by intros w. Qed.
Lemma grows_ret {A} (a : A) : grows (mret a).
Proof. by intros w. Qed.
Lemma grows_get : grows get_st.
Proof. by intros w. Qed.
Lemma grows_throw {A} e : grows (throw_st e : wM A).
Proof. by intros w. Qed.
Lemma grows_bind {A B} (m : wM A) (f : A → wM B) : grows m → (∀ a, grows (f a)) → grows (m ≫= f).
Proof.
  intros Hm Hf w. unfold mbind, stM_bind. specialize (Hm w).
  destruct (m w) as [[a| |] w']; [|done|done]. etrans; [done|apply Hf].
Qed.
Lemma grows_emit o : grows (emit o).
Proof. intros w x Hx. cbn. apply elem_of_app. by left. Qed.
Lemma grows_modify f : (∀ w, w_trace (f w) = w_trace w) → grows (modify_st f).
Proof. intros Hf w. cbn. by rewrite Hf. Qed.
Lemma grows_record_vote message : grows (record_vote message).
Proof.
  unfold record_vote. apply grows_bind; [apply grows_get|]. intros w. destruct (vc_vote _ _).
  apply grows_bind; [by apply grows_modify|]. intros. apply grows_ret.
Qed.
Lemma grows_reply {A} (m : wM A) : grows m → grows (reply m).
Proof.
  intros Hm w. specialize (Hm w). unfold reply. destruct (m w) as [[a|e|] w']; [done| |done].
  by destruct e.
Qed.
Lemma grows_ok_st {A} (m : wM A) : grows m → grows (ok_st m).
Proof. intros Hm w. specialize (Hm w). unfold ok_st. by destruct (m w) as [[a|e|] w']. Qed.
Lemma grows_expect_st {A} (m : wM A) : grows m → grows (expect_st m).
Proof. intros Hm w. specialize (Hm w). unfold expect_st. by destruct (m w) as [[a|e|] w']. Qed.
Lemma grows_for_each {A} (f : A → wM ()) l : (∀ x, grows (f x)) → grows (for_each f l).
Proof. intros Hf. induction l as [|x l IH]; cbn; [by intros w|]. by apply grows_bind. Qed.

Create HintDb grow_db.
#[export] Hint Resolve grows_lift grows_ret grows_get grows_throw grows_emit grows_record_vote : grow_db.
#[export] Hint Extern 1 (grows (modify_st _)) => apply grows_modify; reflexivity : grow_db.
#[export] Hint Extern 2 (grows _) => apply grows_looks; solve [auto with calm_db] : grow_db.

Ltac grow_tac :=
  repeat first
    [ solve [auto with grow_db]
    | apply grows_bind; [|intros]
    | apply grows_for_each; intros
    | apply grows_reply
    | apply grows_ok_st
    | apply grows_expect_st
    | match goal with
      | |- grows (if ?b then _ else _) => destruct b
      | |- grows (match ?x with _ => _ end) => destruct x
      end ].

Section Grows.
Context `{Crypto, Schnorr, EcdsaSigner, HashOrder, Snappy} (c : Client).

Lemma grows_backup : grows backup.
Proof. unfold backup. grow_tac. Qed.
Lemma grows_broadcast_message m : grows (broadcast_message m).
Proof. apply grows_emit. Qed.
Lemma grows_broadcast_state r p l v : grows (broadcast_state r p l v).
Proof. apply grows_emit. Qed.
Lemma grows_request_messages_to_all r v : grows (request_messages_to_all r v).
Proof. apply grows_emit. Qed.
Lemma grows_request_proposal_to_any h v : grows (request_proposal_to_any h v).
Proof. apply grows_emit. Qed.
Lemma grows_update_sealing p : grows (update_sealing p).
Proof. apply grows_emit. Qed.
Lemma grows_sign_vote on : grows (sign_vote on).
Proof. unfold sign_vote. grow_tac. Qed.
Lemma grows_increment_view n : grows (increment_view n).
Proof. by apply grows_modify. Qed.
Lemma grows_save_last_confirmed_view n : grows (save_last_confirmed_view n).
Proof. by apply grows_modify. Qed.
Lemma grows_move_to_height h : grows (move_to_height h).
Proof. unfold move_to_height. grow_tac. Qed.
Lemma grows_mark_received i : grows (mark_received i).
Proof. unfold mark_received. grow_tac. Qed.
#[local] Hint Resolve grows_backup grows_broadcast_message grows_broadcast_state grows_request_messages_to_all
  grows_request_proposal_to_any grows_update_sealing grows_sign_vote grows_increment_view
  grows_save_last_confirmed_view grows_move_to_height grows_mark_received : grow_db.
Lemma grows_locked_proposal_block v : grows (locked_proposal_block c v).
Proof. unfold locked_proposal_block. grow_tac. Qed.
Lemma grows_broadcast_proposal_block view block : grows (broadcast_proposal_block c view block).
Proof. unfold broadcast_proposal_block. grow_tac. Qed.
Lemma grows_propose_vote header : grows (propose_vote c header).
Proof. unfold propose_vote. grow_tac. Qed.
#[local] Hint Resolve grows_locked_proposal_block grows_broadcast_proposal_block grows_propose_vote : grow_db.
Lemma grows_repropose_block block : grows (repropose_block c block).
Proof. unfold repropose_block. grow_tac. Qed.
#[local] Hint Resolve grows_repropose_block : grow_db.

Section Knot.
Context (move : Step → bool → wM ()) (Hmove : ∀ s r, grows (move s r)).
#[local] Hint Resolve Hmove : grow_db.

Lemma grows_handle_valid_message_with message r : grows (handle_valid_message_with c move message r).
Proof. unfold handle_valid_message_with. grow_tac. Qed.
#[local] Hint Resolve grows_handle_valid_message_with : grow_db.
Lemma grows_generate_with b r : grows (generate_and_broadcast_message_with c move b r).
Proof. unfold generate_and_broadcast_message_with, generate_message_with. grow_tac. Qed.
#[local] Hint Resolve grows_generate_with : grow_db.
Lemma grows_move_to_step_with step r : grows (move_to_step_with c move step r).
Proof.
  unfold move_to_step_with, enter_propose, enter_prevote, enter_precommit. grow_tac.
Qed.
End Knot.

Lemma grows_move_to_step_fuel fuel step r : grows (move_to_step_fuel c fuel step r).
Proof.
  revert step r. induction fuel as [|fuel IH]; intros step r; [by intros w|]. by apply grows_move_to_step_with.
Qed.
Lemma grows_move_to_step step r : grows (move_to_step c step r).
Proof. intros w. apply grows_move_to_step_fuel. Qed.
Lemma grows_handle_valid_message message r : grows (handle_valid_message c message r).
Proof. apply grows_handle_valid_message_with, grows_move_to_step. Qed.
#[local] Hint Resolve grows_move_to_step grows_handle_valid_message : grow_db.

Lemma grows_submit_proposal_block block : grows (submit_proposal_block c block).
Proof. unfold submit_proposal_block. grow_tac. Qed.
#[local] Hint Resolve grows_submit_proposal_block : grow_db.
Lemma grows_on_imported_proposal header : grows (on_imported_proposal c header).
Proof. unfold on_imported_proposal, collect_seal, take_proposal, skip_to_proposal. grow_tac. Qed.
#[local] Hint Resolve grows_on_imported_proposal : grow_db.
Lemma grows_import_blocks imported b : grows (import_blocks c imported b).
Proof.
  revert b. induction imported as [|hash imported IH]; intros b; cbn [import_blocks]; [grow_tac|].
  apply grows_bind; [unfold new_block; grow_tac|auto].
Qed.
#[local] Hint Resolve grows_import_blocks : grow_db.
Lemma grows_handle_message rlp r : grows (handle_message c rlp r).
Proof. unfold handle_message, report_double_vote. grow_tac. Qed.
#[local] Hint Resolve grows_handle_message : grow_db.
Lemma grows_handle_messages messages : grows (handle_messages c messages).
Proof. induction messages; cbn [handle_messages]; grow_tac. Qed.
#[local] Hint Resolve grows_handle_messages : grow_db.

Lemma grows_handle event : grows (handle c event).
Proof.
  destruct event; cbn [handle]; unfold with_reply; try grow_tac.
  all: unfold new_blocks, generate_seal, proposal_generated, verify_header_basic, verify_block_external,
    is_authority, check_view_proposer, on_timeout, step_timeout, restore, on_proposal_message,
    on_request_proposal_message, lift_engine; grow_tac.
Qed.
End Grows.

#[export] Hint Resolve grows_backup grows_broadcast_message grows_broadcast_state
  grows_request_messages_to_all grows_request_proposal_to_any grows_update_sealing grows_increment_view
  grows_save_last_confirmed_view grows_move_to_height grows_mark_received grows_broadcast_proposal_block
  grows_propose_vote grows_repropose_block grows_move_to_step grows_handle_valid_message
  grows_submit_proposal_block grows_on_imported_proposal grows_import_blocks grows_handle_message
  grows_handle_messages grows_handle : grow_db.

Lemma exec_grows `{Crypto, Schnorr, EcdsaSigner, HashOrder, Snappy} events w :
  w_trace w ⊆ w_trace (exec events w).
Proof.
  revert w. induction events as [|[c event] events IH]; intros w; cbn [exec]; [done|].
  pose proof (grows_handle c event w) as Hg. destruct (handle c event w) as [[r|e|] w']; [|done|done].
  etrans; [done|apply IH].
Qed.
