(* ===== verification/TmSafety.v ===== *)
(** What a node of Tendermint binds itself to, at a fixed height: it votes once in a round, it
    precommits only to what the prevotes of more than two thirds have locked it on, and from then on
    it prevotes for nothing else until later prevotes of more than two thirds release it. *)
From stdpp Require Import base gmap list numbers.
From Stdlib Require Import NArith ZArith Lia.
From S2P Require Import Prelude Types Crypto Rlp RlpImpls TxHash BTree StakeData StakeAction Header BitSet.
From S2P Require Import TmMessage VoteCollector Validators Quorum TmWorker TmRun TmTrace.

Local Open Scope N_scope.

Definition bind_step (s : Step) : Prop := s = Prevote ∨ s = Precommit.

(** The order of the steps of a height. *)
Definition sooner (v : N) (s : Step) (v' : N) (s' : Step) : Prop :=
  v < v' ∨ v = v' ∧ step_number s < step_number s'.

Section Node.
Context `{Crypto, Schnorr, EcdsaSigner, HashOrder, Snappy}.
(** The height, its parent block and its validators; the node with its time window, its key and all
    that it does; and who has cast which vote. *)
Context (h : N) (parent : H256) (self : DynamicValidator) (elected : option (list Validator)).
Context (gap : TimeGapParams) (me : Public) (done_ : list Out) (backed : N → VoteOn → Prop).
(** Whether blocks are known to stay within the time window. *)
Context (windowed : Prop).

Definition members : list Public := committee self elected.
Definition my_index : option N := position (λ k, bool_decide (k = me)) members.

Definition vote_at (v : N) (s : Step) (x : option H256) : VoteOn :=
  {| vo_step := VoteStep_new h v s; vo_block_hash := x |}.

(** Prevotes of more than two thirds. *)
Definition polka (v : N) (x : option H256) : Prop :=
  ∃ s, NoDup s ∧ heavy (committee_weights self elected) s ∧
    ∀ i, i ∈ s → i < len members ∧ backed i (vote_at v Prevote x).

(** A later majority for something else. *)
Definition released (v : N) (b : H256) (v' : N) : Prop :=
  ∃ v'' y, v < v'' ∧ v'' < v' ∧ y ≠ Some b ∧ polka v'' y.

Definition signed (w : Worker) (on : VoteOn) : Prop := SignVote on ∈ w_trace w.

Definition past (w : Worker) (v : N) (s : Step) : Prop :=
  ∀ v' s' x, bind_step s' → signed w (vote_at v' s' x) → sooner v' s' v s.

Record core (w : Worker) : Prop := {
  co_collector : vc_ok (w_votes w);
  co_received : bs_ok (w_votes_received w);
  co_signer a q : w_signer w = Some (a, q) → q = me;
  co_validators : w_validators w = self;
  co_gap : w_time_gap_params w = gap;
  co_prevotes v m : m ∈ messages_in (w_votes w) (VoteStep_new h v Prevote) →
    cm_signer_index m < len members ∧ backed (cm_signer_index m) (cm_on m);
  co_height v s x : bind_step s → signed w (vote_at v s x) → h ≤ w_height w;
  co_once v s x y : bind_step s → signed w (vote_at v s x) → signed w (vote_at v s y) → x = y;
  co_precommit v b : signed w (vote_at v Precommit (Some b)) → polka v (Some b);
  co_prevote v b v' x : windowed → signed w (vote_at v Precommit (Some b)) → signed w (vote_at v' Prevote x) →
    v < v' → x = Some b ∨ released v b v';
  co_lock : w_height w = h →
    match w_last_two_thirds_majority w with
    | Empty => True
    | Lock v b => polka v (Some b)
    | Unlock v => polka v None
    end;
  co_locked v b : w_height w = h → signed w (vote_at v Precommit (Some b)) →
    (∃ vl, w_last_two_thirds_majority w = Lock vl b ∧ v ≤ vl) ∨
    (∃ vl, ttm_view (w_last_two_thirds_majority w) = Some vl ∧ released v b (vl + 1));
}.

(** The votes of the current step are known as received. *)
Definition seated (w : Worker) : Prop :=
  ∀ v s x, bind_step s → signed w (vote_at v s x) →
    sooner v s (w_view w) (to_step (w_step w)) ∨
    v = w_view w ∧ s = to_step (w_step w) ∧ ∀ i, my_index = Some i → bit (w_votes_received w) i = true.

(** The majority is of this view at most, and of an earlier one up to the prevotes of this view. *)
Definition lock_low (s : Step) (w : Worker) : Prop :=
  ∀ vl, ttm_view (w_last_two_thirds_majority w) = Some vl →
    vl ≤ w_view w ∧ (s = Propose ∨ s = Prevote → vl < w_view w).

(** A view that was reached was announced to the timer. *)
Definition timed (w : Worker) : Prop :=
  w_view w = 0 ∨ ∃ s nonce, Net (SetTimerStep s (w_view w) nonce) ∈ w_trace w.

Record inv (w : Worker) : Prop := {
  in_core : core w;
  in_seated : w_height w = h → seated w;
  in_lock : w_height w = h → lock_low (to_step (w_step w)) w;
  in_timed : timed w;
}.

(** What [move_to_step] relies on. *)
Record ready (s : Step) (w : Worker) : Prop := {
  re_core : core w;
  re_past : w_height w = h → past w (w_view w) s ∨ to_step (w_step w) = s ∧ seated w;
  re_lock : w_height w = h → lock_low s w;
}.

(** All that was done so far is part of what the node does. *)
Definition good (w : Worker) : Prop := w_trace w ⊆ done_.

(** What a client has to answer at this height: the same parent block, the same validators, and
    where the window is relied on, that blocks with prevotes of more than two thirds are in it. *)
Record client_ok (c : Client) : Prop := {
  cl_parent header : cl_block_header c (ByNumber (h - 1)) = Some header → hv_hash header = parent;
  cl_committee : has_committee elected c parent;
  cl_fresh v b block header : windowed → polka v (Some b) → cl_block c (ByHash b) = Some block →
    bv_header (E:=TmError) block = Ok header → is_generation_time_relevant c gap header = Ok true;
}.

Hypothesis Hheight : 1 ≤ h ∧ h < u64_size.
Hypothesis Hweights : weights_fit self elected.
(** The node does not run out of views. *)
Hypothesis Hviews : ∀ s v nonce, Net (SetTimerStep s v nonce) ∈ done_ → v + 1 < u64_size.
(** Its own votes are backed. *)
Hypothesis Hown : ∀ i on, members !! N.to_nat i = Some me → SignVote on ∈ done_ → backed i on.

(** * Changes that keep the invariant *)

Lemma signed_aside w w' v s x :
  aside w w' → bind_step s → signed w' (vote_at v s x) → signed w (vote_at v s x).
Proof.
  intros Ha Hs. unfold signed. destruct (as_trace _ _ Ha) as (l & -> & Hl).
  rewrite elem_of_app. intros [?|Hin]; [done|]. rewrite list.Forall_forall in Hl. apply Hl in Hin.
  cbn in Hin. by destruct Hs as [-> | ->].
Qed.

Lemma aside_signed w w' on : aside w w' → signed w on → signed w' on.
Proof.
  intros Ha. unfold signed. destruct (as_trace _ _ Ha) as (l & -> & _). rewrite elem_of_app. by left.
Qed.

Lemma aside_core w w' : aside w w' → bs_ok (w_votes_received w') → core w → core w'.
Proof.
  intros Ha Hr [].
  assert (∀ v s x, bind_step s → signed w' (vote_at v s x) → signed w (vote_at v s x)) as Hsig
    by (intros; by eapply signed_aside).
  assert (bind_step Prevote ∧ bind_step Precommit) as [Hpv Hpc] by (split; [by left|by right]).
  destruct Ha as [Eh Ev El Es Ed Eg _ Hk Hm].
  split; rewrite ?Eh, ?El, ?Es, ?Ed, ?Eg; eauto.
Qed.

Lemma aside_inv w w' :
  aside w w' → to_step (w_step w') = to_step (w_step w) → w_votes_received w' = w_votes_received w →
  inv w → inv w'.
Proof.
  intros Ha Hs Hr [Hc Hse Hl Ht]. split.
  - eapply aside_core; [done| |done]. rewrite Hr. apply Hc.
  - rewrite (as_height _ _ Ha). intros Hh v s x Hb Hx. unfold seated. rewrite Hs, Hr, (as_view _ _ Ha).
    eapply Hse; [done|done|]. by eapply signed_aside.
  - unfold lock_low. rewrite (as_height _ _ Ha), (as_view _ _ Ha), (as_lock _ _ Ha), Hs. done.
  - unfold timed in *. rewrite (as_view _ _ Ha). destruct Ht as [?|(s & nonce & Ht)]; [by left|right].
    exists s, nonce. destruct (as_trace _ _ Ha) as (l & -> & _). apply elem_of_app. by left.
Qed.

Lemma beside_inv w w' : beside w w' → inv w → inv w'.
Proof. intros (? & Hs & ?). apply aside_inv; [done|by rewrite Hs|done]. Qed.

Lemma beside_core w w' : beside w w' → core w → core w'.
Proof. intros (? & _ & Hr) Hc. eapply aside_core; [done| |done]. rewrite Hr. apply Hc. Qed.

(** Entering a step. *)
Lemma entered_inv s r w : ready s w → inv (entered s r w).
Proof.
  intros [Hc Hp Hl]. pose proof (aside_entered s r w) as Ha.
  assert (w_step (entered s r w) = from_step s) as Hs.
  { unfold entered, backed_up. cbv zeta. destruct r, (_ && _); done. }
  assert (to_step (from_step s) = s) as Hts by by destruct s.
  assert (w_votes_received (entered s r w) = BitSet_new ∨
          w_votes_received (entered s r w) = w_votes_received w) as Hr.
  { unfold entered, backed_up. cbv zeta. destruct r, (_ && _); by auto. }
  assert (to_step (w_step w) = s → w_votes_received (entered s r w) = w_votes_received w) as Hsame.
  { intros He. unfold entered, backed_up. cbv zeta. rewrite bool_decide_eq_true_2 by done. by destruct r. }
  split.
  - eapply aside_core; [done| |done]. destruct Hr as [-> | ->]; [apply BitSet_new_ok|apply Hc].
  - rewrite (as_height _ _ Ha). intros Hh v s' x Hb Hx%(signed_aside w); [|done..].
    rewrite Hs, Hts, (as_view _ _ Ha). destruct (Hp Hh) as [Hpast|[He Hse]]; [left; by eapply Hpast|].
    rewrite (Hsame He). rewrite <- He at 1 2. by eapply Hse.
  - unfold lock_low. rewrite (as_height _ _ Ha), (as_view _ _ Ha), (as_lock _ _ Ha), Hs, Hts. done.
  - right. exists s, (w_timeout_token_nonce w). rewrite (as_view _ _ Ha). unfold entered. cbv zeta.
    destruct (_ && _); cbn; rewrite !elem_of_app, !list_elem_of_singleton; auto.
Qed.

(** * What the client answers *)

Section Answers.
Context (c : Client) (Hc : client_ok c).

Lemma prev_height : u64_sub h 1 = h - 1.
Proof. apply u64_sub_le; lia. Qed.

Lemma prev_block_hash_parent w p w' :
  w_height w = h → prev_block_hash c w = (Ok p, w') → p = parent.
Proof.
  intros Hh. unfold prev_block_hash, prev_block_header_of_height, mbind, stM_bind. cbn [get_st].
  rewrite Hh, prev_height. unfold lift_st.
  destruct (cl_block_header c _) eqn:Hb; cbn; [|done]. intros [= <- _]. by apply (cl_parent c Hc).
Qed.

Lemma signer_index_mine w i w' :
  core w → w_height w = h → signer_index c w = (Ok (Some i), w') → my_index = Some i.
Proof.
  intros Hw Hh. unfold signer_index, mbind, stM_bind.
  destruct (looks_prev_block_hash c w) as [Hs _].
  destruct (prev_block_hash c w) as [[p| |] w1] eqn:Hp; [|done|done]. cbn in Hs. subst w1.
  apply prev_block_hash_parent in Hp as ->; [|done]. cbn [get_st].
  destruct (w_signer w) as [[a q]|] eqn:Hq; [|done].
  rewrite (co_validators _ Hw), (co_signer _ Hw a q Hq). unfold lift_engine, lift_st.
  rewrite (committee_index self elected c parent (cl_committee c Hc)). cbn. by intros [= ?].
Qed.

Lemma my_index_member i : my_index = Some i → i < len members ∧ members !! N.to_nat i = Some me.
Proof.
  intros (x & Hx & He)%position_lookup. apply bool_decide_eq_true in He as ->.
  split; [|done]. apply lookup_lt_Some in Hx. unfold len. lia.
Qed.

(** A majority of collected prevotes. *)
Lemma enough_polka w m w' :
  core w → vs_height (cm_round m) = h → vs_step (cm_round m) = Prevote →
  has_enough_aligned_votes c m w = (Ok true, w') → polka (vs_view (cm_round m)) (cm_block_hash m).
Proof.
  intros Hw Hh Hs. unfold has_enough_aligned_votes, mbind, stM_bind. cbn [get_st].
  unfold cm_height. unfold cm_round in Hh. rewrite Hh, prev_height. unfold lift_st.
  destruct (cl_block_header c _) as [header|] eqn:Hb; cbn [expect]; [|done].
  rewrite (cl_parent c Hc header Hb). unfold aligned_votes.
  destruct (block_round_votes _ _ _) as [votes| |] eqn:Hv; [|done|done].
  apply block_round_votes_inv in Hv as [Hok Hbits]; [|apply Hw].
  rewrite (co_validators _ Hw).
  destruct (dv_check_enough_votes c self parent votes) as [u| |] eqn:He; [|done|done]. intros _.
  assert (cm_round m = VoteStep_new h (vs_view (cm_round m)) Prevote) as Hr.
  { unfold cm_round in *. destruct (vo_step (cm_on m)). cbn in *. by subst. }
  assert (∀ i, bit votes i = true → i < len members ∧
    backed i (vote_at (vs_view (cm_round m)) Prevote (cm_block_hash m))) as Hin.
  { intros i (m' & Hm' & <- & Hx)%Hbits. rewrite Hr in Hm'. 
    pose proof (co_prevotes _ Hw _ _ Hm') as [? Hback]. split; [done|].
    assert (cm_round m' = VoteStep_new h (vs_view (cm_round m)) Prevote) as Hr'.
    { unfold messages_in in Hm'. destruct (bt_get (w_votes w) _) as [sc|] eqn:Hg; [|by apply not_elem_of_nil in Hm'].
      eapply sco_round; [|done]. by apply (co_collector _ Hw). }
    unfold vote_at. unfold cm_round, cm_block_hash in *. rewrite <- Hr', <- Hx. by destruct (cm_on m'). }
  exists (indices votes). split; [apply NoDup_indices|]. split.
  - eapply (enough_heavy self elected c parent); [apply Hc|done|done| |done]. intros i Hi. by apply Hin.
  - intros i Hi. apply Hin. by apply elem_of_indices.
Qed.

(** ** The lock *)

Lemma relock_cases enough m w :
  relock enough m w = w ∨
  enough = true ∧ vs_height (cm_round m) = w_height w ∧ vs_step (cm_round m) = Prevote ∧
  (∀ vl, ttm_view (w_last_two_thirds_majority w) = Some vl → vl < vs_view (cm_round m)) ∧
  relock enough m w =
    set_last_two_thirds_majority (from_message (vs_view (cm_round m)) (cm_block_hash m)) w.
Proof.
  unfold relock. cbv zeta.
  destruct (_ && enough) eqn:Hl; [right|by left].
  apply andb_prop in Hl as [[[Hn Hh%N.eqb_eq]%andb_prop Hs%bool_decide_eq_true]%andb_prop ->].
  repeat split; [done|done|]. intros vl Hvl. rewrite Hvl in Hn. by apply N.ltb_lt.
Qed.

Lemma from_message_view v x : ttm_view (from_message v x) = Some v.
Proof. by destruct x. Qed.

Lemma relock_core w m enough w' :
  core w → has_enough_aligned_votes c m w = (Ok enough, w') → core (relock enough m w).
Proof.
  intros Hw He. destruct (relock_cases enough m w) as [-> |(-> & Hh & Hs & Hn & ->)]; [done|].
  pose proof (enough_polka w m w' Hw) as Hp. set (v := vs_view (cm_round m)) in *.
  destruct Hw. split; try done; cbn.
  - intros Eh. specialize (Hp ltac:(congruence) Hs He). by destruct (cm_block_hash m).
  - intros v0 b Eh Hv0. specialize (Hp ltac:(congruence) Hs He). rewrite from_message_view.
    destruct (decide (cm_block_hash m = Some b)) as [->|Hx]; [left; exists v; split; [done|]|right; exists v; split; [done|]].
    all: destruct (co_locked0 v0 b Eh Hv0) as [(vl & Hl & Hle)|(vl & Hl & (v2 & y & ? & ? & ? & ?))].
    + rewrite Hl in Hn. specialize (Hn vl eq_refl). lia.
    + specialize (Hn vl Hl). lia.
    + rewrite Hl in Hn. specialize (Hn vl eq_refl). exists v, (cm_block_hash m). repeat split; [lia|lia|done|done].
    + specialize (Hn vl Hl). exists v2, y. repeat split; [lia|lia|done|done].
Qed.

(** The vote is not of a later round. *)
Definition not_later (w : Worker) (r : VoteStep) : Prop := ¬ vs_before (vote_step w) r.

Lemma relock_low w m enough s :
  w_height w = h → lock_low s w → not_later w (cm_round m) →
  (s = Propose ∨ s = Prevote → enough = true → vs_step (cm_round m) = Prevote →
   vs_height (cm_round m) = h → vs_view (cm_round m) ≠ w_view w) →
  lock_low s (relock enough m w).
Proof.
  intros Hh Hl Hr Hne. destruct (relock_cases enough m w) as [-> |(-> & Hh' & Hs & Hn & ->)]; [done|].
  intros vl. cbn. rewrite from_message_view. intros [= <-].
  unfold not_later, vs_before, vote_step in Hr. cbn in Hr.
  assert (vs_view (cm_round m) ≤ w_view w) as Hv by lia. split; [done|].
  intros Hps. specialize (Hne Hps eq_refl Hs ltac:(congruence)). lia.
Qed.

Lemma relock_same enough m w :
  w_height (relock enough m w) = w_height w ∧ w_view (relock enough m w) = w_view w ∧
  w_step (relock enough m w) = w_step w ∧ w_trace (relock enough m w) = w_trace w ∧
  w_votes_received (relock enough m w) = w_votes_received w.
Proof. unfold relock. cbv zeta. by destruct (_ && enough). Qed.

(** * Handlers *)

(** A handler that leaves the invariant behind, and where it does not return, the facts about what
    was signed. *)
Definition keeps_inv {A : Type} (m : wM A) (w : Worker) : Prop :=
  wp m (λ _ w', good w' → inv w') (λ _ w', good w' → core w') w.

Lemma wp_grown {A} (m : wM A) (Q : A → Worker → Prop) (X : option TmError → Worker → Prop) w :
  grows m →
  (good w → wp m (λ a w', good w' → Q a w') (λ o w', good w' → X o w') w) →
  wp m (λ a w', good w' → Q a w') (λ o w', good w' → X o w') w.
Proof.
  intros Hg Hm. specialize (Hg w). unfold wp in *.
  destruct (m w) as [[a|e|] w']; cbn in Hg; intros Hd; (apply Hm; [|done]);
    intros o Ho; by apply Hd, Hg.
Qed.

Lemma view_small w : timed w → good w → u64_add (w_view w) 1 = w_view w + 1.
Proof.
  intros Ht Hg. unfold u64_add. apply N.mod_small. destruct Ht as [-> |(s & nonce & Hin)]; [done|].
  eapply Hviews, Hg, Hin.
Qed.

Lemma seated_past w v s :
  seated w → sooner (w_view w) (to_step (w_step w)) v s → past w v s.
Proof.
  intros Hs Hlt v' s' x Hb Hx. destruct (Hs v' s' x Hb Hx) as [?|(-> & -> & _)]; [|done].
  unfold sooner in *. lia.
Qed.

(** At a new height nothing was signed. *)
Lemma new_height_past w h' v s : core w → w_height w < h' → h' = h → past w v s.
Proof. intros Hw Hlt -> v' s' x Hb Hx. pose proof (co_height _ Hw _ _ _ Hb Hx). lia. Qed.

Lemma at_height_inv h' w : core w → w_height w < h' → inv (at_height h' w).
Proof.
  intros Hw Hlt. assert (∀ v s x, bind_step s → signed w (vote_at v s x) → h' ≠ h) as Hno.
  { intros v s x Hb Hx ->. pose proof (co_height _ Hw _ _ _ Hb Hx). lia. }
  pose proof Hw as []. split; [split|..]; try done; cbn.
  - apply BitSet_new_ok.
  - intros v s x Hb Hx. pose proof (co_height0 _ _ _ Hb Hx). lia.
  - intros v b -> Hx. destruct (Hno v Precommit (Some b)); [by right|done|done].
  - intros -> v s x Hb Hx. destruct (Hno v s x); done.
  - by left.
Qed.

Lemma inv_ready s w : inv w → to_step (w_step w) = s → ready s w.
Proof. intros Hw <-. split; [apply Hw|right; split; [done|]|]; by apply Hw. Qed.

Lemma at_height_ready s h' w : core w → w_height w < h' → ready s (at_height h' w).
Proof.
  intros Hw Hlt. pose proof (at_height_inv h' w Hw Hlt) as Hi. split; [apply Hi|left|done].
  eapply (new_height_past w h'); done.
Qed.

Lemma next_view_ready w :
  inv w → good w → w_step w = TsPrecommit → ready Propose (next_view w).
Proof.
  intros [Hw Hse Hl Ht] Hg Hs. pose proof (view_small w Ht Hg) as Hv. split.
  - pose proof Hw as []. split; try done. apply BitSet_new_ok.
  - intros Hh. left. cbn. rewrite Hv. apply (seated_past w _ _ (Hse Hh)). left. lia.
  - intros Hh vl Hvl. cbn in *. rewrite Hv. destruct (Hl Hh vl Hvl). lia.
Qed.

Lemma committed_aside v b w : aside w (committed v b w).
Proof.
  apply blurred_aside. repeat split. exists [UpdateBestAsCommitted b]. split; [done|by constructor].
Qed.

(** ** Casting a vote *)

(** What a node may vote for in its step. *)
Record may_cast (x : option H256) (w : Worker) : Prop := {
  mc_step : bind_step (to_step (w_step w));
  mc_past : past w (w_view w) (to_step (w_step w));
  mc_prevote : windowed → to_step (w_step w) = Prevote →
    ∀ vl b, w_last_two_thirds_majority w = Lock vl b → x = Some b;
  mc_precommit : to_step (w_step w) = Precommit → x = precommit_candidate w;
}.

Definition ballot (x : option H256) (w : Worker) : VoteOn := {| vo_step := vote_step w; vo_block_hash := x |}.

Lemma signed_announced on w v s x :
  signed (announced on w) (vote_at v s x) ↔ signed w (vote_at v s x) ∨ vote_at v s x = on.
Proof.
  unfold signed, announced. cbn. rewrite elem_of_app, list_elem_of_singleton.
  split; (intros [?|Heq]; [by left|right]); by injection Heq as ? || by rewrite Heq.
Qed.

Lemma ballot_at v s x y w :
  vote_at v s x = ballot y w → h = w_height w ∧ v = w_view w ∧ s = to_step (w_step w) ∧ x = y.
Proof. by intros [= -> -> -> ->]. Qed.

Lemma announced_elsewhere on w : core w → vs_height (vo_step on) = w_height w → w_height w ≠ h → core (announced on w).
Proof.
  intros Hw Hon Hh. assert (∀ v s x, signed (announced on w) (vote_at v s x) → signed w (vote_at v s x)) as Hs.
  { intros v s x [?|<-]%signed_announced; [done|]. by destruct Hh. }
  destruct Hw. split; cbn; eauto.
Qed.

Lemma announced_core x w : inv w → may_cast x w → w_height w = h → core (announced (ballot x w) w).
Proof.
  intros [Hw _ Hl _] [Hb Hp Hpv Hpc] Hh. specialize (Hl Hh). pose proof Hw as [].
  assert (∀ v b, Some b = x → v = w_view w → Precommit = to_step (w_step w) →
    w_last_two_thirds_majority w = Lock v b) as Hlock.
  { intros v b Hx -> Hs. rewrite Hpc in Hx by done. unfold precommit_candidate in Hx.
    destruct (w_last_two_thirds_majority w) as [|vl b'|]; try done.
    destruct (N.eqb_spec vl (w_view w)); [|done]. by simplify_eq. }
  split; try done; cbn.
  - intros v s y Hs [Hy|(-> & _)%ballot_at]%signed_announced; [by eapply co_height0|done].
  - intros v s y z Hs [Hy|Hy]%signed_announced [Hz|Hz]%signed_announced; [by eapply co_once0|..].
    + apply ballot_at in Hz as (_ & -> & -> & ->). apply Hp in Hy; [|done]. unfold sooner in Hy. lia.
    + apply ballot_at in Hy as (_ & -> & -> & ->). apply Hp in Hz; [|done]. unfold sooner in Hz. lia.
    + apply ballot_at in Hy as (_ & _ & _ & ->). by apply ballot_at in Hz as (_ & _ & _ & ->).
  - intros v b [Hy|(_ & Hv & Hs & Hx)%ballot_at]%signed_announced; [by apply co_precommit0|].
    specialize (co_lock0 Hh). by rewrite (Hlock v b) in co_lock0.
  - intros v b v' y Hwin [Hy|Hy]%signed_announced [Hz|Hz]%signed_announced Hlt; [by eapply co_prevote0|..].
    + apply ballot_at in Hz as (_ & -> & Hs & ->).
      destruct (co_locked0 v b Hh Hy) as [(vl & Hvl & _)|(vl & Hvl & (v2 & z & ? & ? & ? & ?))].
      * left. by eapply Hpv.
      * right. destruct (Hl vl Hvl) as [_ Hst]. specialize (Hst ltac:(by right)).
        exists v2, z. repeat split; [done|lia|done|done].
    + apply ballot_at in Hy as (_ & -> & Hs & _). apply Hp in Hz; [|by left].
      rewrite <- Hs in Hz. unfold sooner in Hz. lia.
    + apply ballot_at in Hy as (_ & _ & Hy & _). apply ballot_at in Hz as (_ & _ & Hz & _). congruence.
  - intros v b _ [Hy|(_ & Hv & Hs & Hx)%ballot_at]%signed_announced; [by apply co_locked0|].
    left. exists v. split; [by apply Hlock|done].
Qed.

Lemma cast_core x w : inv w → (w_height w = h → may_cast x w) → core (announced (ballot x w) w).
Proof.
  intros Hw Hm. destruct (decide (w_height w = h)) as [Hh|Hh]; [by apply announced_core; auto|].
  by apply announced_elsewhere; [apply Hw|..].
Qed.

Lemma cast_inv x w signature i received :
  let m := {| cm_signature := signature; cm_signer_index := i; cm_on := ballot x w |} in
  inv w → (w_height w = h → may_cast x w) → signer_index c w = (Ok (Some i), w) →
  bs_set (E:=TmError) (w_votes_received w) i = Ok received → good (voted received m w) →
  inv (voted received m w).
Proof.
  intros m Hw Hm Hi Hr Hg. pose proof (cast_core x w Hw Hm) as Hcore.
  assert (w_height w = h → my_index = Some i) as Hmine.
  { intros Hh. eapply signer_index_mine; [apply Hw|done|done]. }
  apply bs_set_inv in Hr as (_ & Hrok & Hbit); [|apply Hw].
  split; [destruct Hcore; split; try done|..]; cbn.
  - by apply vc_vote_ok.
  - intros v m'. rewrite elem_of_messages_in_vote by apply co_collector0.
    intros [?|[-> Hround]]; [by eapply co_prevotes0|]. cbn in Hround. injection Hround as Hh _ _.
    destruct (my_index_member i) as [? Hmem]; [by apply Hmine|]. split; [done|].
    apply Hown; [done|]. apply Hg. cbn. apply elem_of_app. right. by left.
  - intros Hh v s y Hb [Hy|(_ & -> & -> & _)%ballot_at]%signed_announced; [left|right].
    + by eapply (mc_past x w (Hm Hh)).
    + split; [done|split; [done|]]. intros j Hj. cbn. rewrite Hmine in Hj by done. injection Hj as <-.
      rewrite Hbit. by rewrite bool_decide_eq_true_2.
  - intros Hh. by apply (in_lock _ Hw).
  - destruct (in_timed _ Hw) as [?|(s & nonce & Ht)]; [by left|right]. exists s, nonce. cbn.
    apply elem_of_app. by left.
Qed.

Section Knot.
Context (move : Step → bool → wM ()).
Context (Hgrows : ∀ s r, grows (move s r)) (Hmove : ∀ s r w, ready s w → keeps_inv (move s r) w).

Lemma handle_valid_message_inv m r w :
  inv w → not_later w (cm_round m) → keeps_inv (handle_valid_message_with c move m r) w.
Proof.
  intros Hw Hr. apply wp_grown; [by apply grows_handle_valid_message_with|]. intros Hg.
  apply wp_handle_valid_message; [intros _; apply Hw|]. intros enough He. cbv zeta.
  pose proof (relock_core w m enough w (in_core _ Hw) He) as Hcore.
  destruct (relock_same enough m w) as (Eh & Ev & Es & Et & Er). set (w1 := relock enough m w) in *.
  assert (w_height w = h → seated w1) as Hse.
  { intros Hh v s x Hb Hx. unfold signed in Hx. rewrite Et in Hx. rewrite Ev, Es, Er. by apply (in_seated _ Hw Hh v s x). }
  assert (timed w1) as Ht by (unfold timed; rewrite Ev, Et; apply Hw).
  assert (∀ s, s = Precommit ∨ s = Commit → w_height w = h → lock_low s w1) as Hlow.
  { intros s Hs Hh. apply relock_low; [done| |done|destruct Hs as [-> | ->]; by intros [|]].
    intros vl Hvl. destruct (in_lock _ Hw Hh vl Hvl). split; [done|]. destruct Hs as [-> | ->]; by intros [|]. }
  assert ((enough = true → is_step w m = true → w_step w ≠ TsPrevote) → inv w1) as Hinv.
  { intros Hne. split; rewrite ?Eh, ?Es; [done|done| |done]. intros Hh.
    apply relock_low; [done|by apply (in_lock _ Hw)|done|]. intros Hps Hen Hs Hmh Hmv.
    unfold not_later, vs_before, vote_step in Hr. cbn in Hr. rewrite Hs in Hr.
    assert (to_step (w_step w) = Prevote) as Hp by (destruct Hps as [Hp|Hp]; [|done]; rewrite Hp in Hr; cbn in Hr; lia).
    destruct (Hne Hen); [|by destruct (w_step w)]. unfold is_step, vs_is_step.
    rewrite Hmh, Hmv, Hs, Hp, Hh, !N.eqb_refl. by rewrite bool_decide_eq_true_2. }
  assert (inv w1 → inv (set_votes_received_changed true w1)) as Hch.
  { apply beside_inv. split; [|done]. apply blurred_aside. repeat split. exists []. by rewrite app_nil_r. }
  destruct (is_step w m) eqn:Hst.
  - destruct (w_step w) eqn:Hws; try (intros _; apply Hch, Hinv; done).
    + destruct enough; [|intros _; by apply Hch, Hinv].
      apply Hmove. split; [done| |by rewrite Eh; auto]. rewrite Eh. intros Hh. left.
      apply (seated_past w1 _ _ (Hse Hh)). rewrite Es, ?Hws. right. done.
    + destruct enough; [|intros _; by apply Hch, Hinv].
      assert (inv w1) as Hi by (apply Hinv; done).
      assert (keeps_inv (move Propose r) (next_view w1)) as Hnext.
      { apply Hmove, next_view_ready; [done| |by rewrite Es]. unfold good. by rewrite Et. }
      destruct (cm_block_hash m) as [bh|]; [|done]. destruct (cl_block c _); [|done].
      apply Hmove. pose proof (committed_aside (vs_view (cm_round m)) bh w1) as Ha.
      eapply (aside_inv w1) in Hi as Hi2; [|done..]. split; [apply Hi2| |].
      * intros Hh. left. apply (seated_past _ _ _ (in_seated _ Hi2 Hh)). cbn. rewrite Es. right. done.
      * cbn. rewrite Eh. intros Hh. by apply (Hlow Commit); [right|].
  - assert (inv w1) as Hi by (apply Hinv; done).
    split; [intros _; apply Hi|]. split; [intros _; by apply Hch|]. intros _ _ Hlt.
    apply Hmove, at_height_ready; [done|]. by rewrite Eh.
Qed.

Lemma generate_inv x r w :
  inv w → (∀ i, signer_index c w = (Ok (Some i), w) → w_height w = h → may_cast x w) →
  keeps_inv (generate_and_broadcast_message_with c move x r) w.
Proof.
  intros Hw Hm. apply wp_generate_and_broadcast; [intros _; apply Hw|done|].
  intros i address public signature received on message _ Hi _.
  split; [intros _; by apply cast_core; eauto|]. intros Hr.
  assert (keeps_inv (handle_valid_message_with c move message r) (voted received message w)) as Hk.
  { apply wp_grown; [by apply grows_handle_valid_message_with|]. intros Hg.
    apply handle_valid_message_inv; [by apply cast_inv; eauto|]. apply vs_before_irrefl. }
  eapply wp_mono; [exact Hk| |done]. intros [] w' Hinv Hg.
  pose proof (aside_sent r message w') as Ha. eapply aside_inv; [done|by destruct r|by destruct r|].
  apply Hinv. intros o Ho. apply Hg. destruct (as_trace _ _ Ha) as (l & -> & _). apply elem_of_app. by left.
Qed.

(** A vote that is not known as received was not cast. *)
Lemma not_generated_past w i :
  inv w → w_height w = h → already_generated_message c w = (Ok false, w) →
  signer_index c w = (Ok (Some i), w) → past w (w_view w) (to_step (w_step w)).
Proof.
  intros Hw Hh Hg Hi v s x Hb Hx. destruct (in_seated _ Hw Hh v s x Hb Hx) as [?|(-> & -> & Hbit)]; [done|].
  apply signer_index_mine in Hi as Hmine; [|apply Hw|done]. specialize (Hbit i Hmine).
  unfold already_generated_message, mbind, stM_bind in Hg. rewrite Hi in Hg. cbn [get_st] in Hg.
  unfold lift_st in Hg. rewrite is_set_ok in Hg; [congruence|apply Hw|].
  eapply bit_range; [apply Hw|done].
Qed.

(** A locked node prevotes for the block it is locked on. *)
Lemma prevote_locked w x w' vl b :
  windowed → core w → w_height w = h → prevote_candidate c w = (Ok x, w') →
  w_last_two_thirds_majority w = Lock vl b → x = Some b.
Proof.
  intros Hwin Hw Hh Hp Hl. pose proof (co_lock _ Hw Hh) as Hpolka. rewrite Hl in Hpolka.
  unfold prevote_candidate, mbind, stM_bind in Hp. cbn [get_st] in Hp. rewrite Hl in Hp.
  destruct (cl_block c (ByHash b)) as [block|] eqn:Hb; [|by injection Hp].
  unfold lift_st in Hp. destruct (bv_header block) as [header| |] eqn:Hd; [|done|done].
  rewrite (co_gap _ Hw), (cl_fresh c Hc vl b block header Hwin Hpolka Hb Hd) in Hp. by injection Hp.
Qed.

Lemma arm_inv s r w : inv w → w_step w = from_step s → keeps_inv (arm c move s r) w.
Proof.
  intros Hw Hs. assert (to_step (w_step w) = s) as Hts by (rewrite Hs; by destruct s).
  destruct s; cbn [arm].
  - apply wp_enter_propose; [done|..].
    + intros w' Ha Hp Hr _. eapply aside_inv; [done|by rewrite Hp|done|done].
    + intros w' Hb _. eapply beside_core; [done|apply Hw].
    + intros hash _. pose proof (beside_inv _ _ (beside_proposal (ProposalImported hash) w) Hw) as Hw1.
      apply Hmove. split; [apply Hw1| |].
      * intros Hh. left. apply (seated_past _ _ _ (in_seated _ Hw1 Hh)). cbn. rewrite Hs. right. done.
      * intros Hh vl Hvl. pose proof (in_lock _ Hw1 Hh vl Hvl) as [? Hlt]. cbn in Hlt. rewrite Hs in Hlt.
        specialize (Hlt ltac:(by left)). done.
  - unfold keeps_inv, enter_prevote. do 4 wp_step. set (w1 := set_trace _ w).
    assert (inv w1) as Hw1 by (eapply beside_inv; [by apply beside_emit|done]).
    wp_step. apply wp_looks; [auto with calm_db| |intros _; apply Hw1]. intros [] Hg; [by apply wp_ret|].
    wp_step. apply wp_looks; [auto with calm_db| |intros _; apply Hw1]. intros x Hx.
    apply generate_inv; [done|]. intros i Hi Hh. split; cbn; rewrite ?Hts; [by left| | |done].
    + rewrite <- Hts. by eapply (not_generated_past w1).
    + intros Hwin _ vl b Hl. eapply prevote_locked; [done|apply Hw1|done|done|done].
  - unfold keeps_inv, enter_precommit. do 4 wp_step. set (w1 := set_trace _ w).
    assert (inv w1) as Hw1 by (eapply beside_inv; [by apply beside_emit|done]).
    wp_step. apply wp_looks; [auto with calm_db| |intros _; apply Hw1]. intros [] Hg; [by apply wp_ret|].
    apply generate_inv; [done|]. intros i Hi Hh. split; cbn; rewrite ?Hts; [by right| |done|done].
    rewrite <- Hts. by eapply (not_generated_past w1).
  - by apply wp_ret.
Qed.
End Knot.

Lemma move_to_step_inv s r w : ready s w → keeps_inv (move_to_step c s r) w.
Proof.
  unfold keeps_inv, wp, move_to_step. generalize (move_fuel w) as fuel. intros fuel. revert s r w.
  induction fuel as [|fuel IH]; intros s r w Hw; [intros _; apply Hw|].
  cbn [move_to_step_fuel]. rewrite move_to_step_with_entered.
  apply (arm_inv (move_to_step_fuel c fuel)); [apply grows_move_to_step_fuel|exact IH|by apply entered_inv|].
  unfold entered, backed_up. cbv zeta. by destruct r, (_ && _).
Qed.

(** ** Imported blocks *)

#[local] Opaque move_to_step.

Lemma record_inv m w :
  inv w →
  (∀ v, cm_round m = VoteStep_new h v Prevote →
     cm_signer_index m < len members ∧ backed (cm_signer_index m) (cm_on m)) →
  inv (set_votes (vc_vote (w_votes w) m).1 w).
Proof.
  intros [Hw Hse Hl Ht] Hm. split; [|done..]. destruct Hw. split; try done; cbn; [by apply vc_vote_ok|].
  intros v m'. rewrite elem_of_messages_in_vote by apply co_collector0.
  intros [?|[-> Hr]]; [by eapply co_prevotes0|]. by apply (Hm v).
Qed.

Lemma wp_mark_received i (X : option TmError → Worker → Prop) w :
  inv w → X None w → wp (mark_received i) (λ _ w', inv w' ∧ vote_step w' = vote_step w) X w.
Proof.
  intros Hw HX. unfold mark_received. do 3 wp_step. apply wp_calm; [calm_tac|intros received Hr|done].
  wp_step. split; [|done]. apply bs_set_inv in Hr as (_ & Hok & Hbit); [|apply Hw].
  destruct Hw as [Hw Hse Hl Ht]. split; [|intros Hh|done|done].
  - destruct Hw. by split.
  - intros v s x Hb Hx. destruct (Hse Hh v s x Hb Hx) as [?|(? & ? & Hm)]; [by left|right].
    split; [done|split; [done|]]. intros j Hj. cbn. by rewrite Hbit, (Hm j Hj), orb_true_r.
Qed.

Lemma wp_collect_seal on signatures (Q : () → Worker → Prop) X w :
  vs_step (vo_step on) = Precommit → (∀ w', beside w w' → Q tt w') → wp (collect_seal on signatures) Q X w.
Proof.
  intros Hs. unfold collect_seal. revert w. induction signatures as [|[i sig] l IH]; intros w HQ; cbn [for_each].
  { by apply wp_ret, HQ, beside_refl. }
  wp_step. wp_step. wp_step. wp_step.
  - wp_step. by apply IH.
  - wp_step. apply wp_record_vote. wp_step. apply IH. intros w' Hb. apply HQ.
    eapply beside_trans; [|done]. apply beside_record. change (vs_step (vo_step on) ≠ Prevote). by rewrite Hs.
Qed.

Lemma beside_throw_out_old w r votes :
  vc_ok (w_votes w) → throw_out_old (E:=TmError) (w_votes w) r = Ok votes → beside w (set_votes votes w).
Proof.
  intros Hw (Hok & Hm)%throw_out_old_ok; [|done]. split; [|done].
  split; try done; cbn; [by exists []; rewrite app_nil_r|].
  intros _ r' m _ Hin. destruct (Hm r') as [<- |He]; [done|]. rewrite He in Hin. by apply not_elem_of_nil in Hin.
Qed.

Lemma propose_ready w : inv w → to_step (w_step w) = Propose → ready Prevote w.
Proof.
  intros Hw Hs. split; [apply Hw| |].
  - intros Hh. left. apply (seated_past _ _ _ (in_seated _ Hw Hh)). rewrite Hs. right. done.
  - intros Hh vl Hvl. destruct (in_lock _ Hw Hh vl Hvl) as [? Hlt]. rewrite Hs in Hlt.
    specialize (Hlt ltac:(by left)). done.
Qed.

Lemma submit_proposal_block_inv block w :
  inv w → to_step (w_step w) = Propose → keeps_inv (submit_proposal_block c block) w.
Proof.
  intros Hw Hs. unfold keeps_inv, submit_proposal_block. wp_step.
  eapply wp_mono; [by apply move_to_step_inv, propose_ready| |done].
  intros [] w1 Hw1. apply wp_grown; [grow_tac|]. intros Hg. specialize (Hw1 Hg).
  do 2 wp_step. apply wp_broadcast_proposal_block; [|intros _; apply Hw1].
  intros w2 Hb _. by eapply beside_inv.
Qed.

Lemma beside_ready s w w' : beside w w' → ready s w → ready s w'.
Proof.
  intros Hb [Hw Hp Hl]. pose proof Hb as (Ha & Hs & Hr). split; [by eapply beside_core|..].
  - rewrite (as_height _ _ Ha), (as_view _ _ Ha), Hs. intros Hh. destruct (Hp Hh) as [Hpast|[? Hse]]; [left|right].
    + intros v s' x Hbs Hx. eapply Hpast; [done|]. by eapply signed_aside.
    + split; [done|]. intros v s' x Hbs Hx. unfold seated in Hse. rewrite Hs, Hr, (as_view _ _ Ha).
      eapply Hse; [done|]. by eapply signed_aside.
  - unfold lock_low. rewrite (as_height _ _ Ha), (as_view _ _ Ha), (as_lock _ _ Ha). done.
Qed.

Lemma beside_confirmed v w : beside w (set_last_confirmed_view v w).
Proof. split; [|done]. apply blurred_aside. repeat split. exists []. by rewrite app_nil_r. Qed.

Lemma wp_move_to_height h' (Q : () → Worker → Prop) (X : option TmError → Worker → Prop) w :
  X None w → (w_height w < h' → Q tt (at_height h' w)) → wp (move_to_height h') Q X w.
Proof.
  intros HX HQ. unfold move_to_height. do 3 wp_step.
  apply wp_calm; [calm_tac|intros [] Ha%assert_Ok|done]. wp_step. by apply HQ, N.ltb_lt.
Qed.

Lemma take_proposal_inv w : inv w → keeps_inv (take_proposal c) w.
Proof.
  intros Hw. unfold keeps_inv, take_proposal. do 2 wp_step.
  destruct (w_step w) eqn:Hs; try (by apply wp_ret).
  - apply move_to_step_inv, propose_ready; [done|by rewrite Hs].
  - destruct (cb_transactions block).
    + do 3 wp_step. intros _. eapply (aside_inv w); [|by rewrite Hs|done|done].
      etrans; [apply aside_step|by apply aside_emit].
    + apply submit_proposal_block_inv; [done|by rewrite Hs].
  - intros _. apply Hw.
Qed.

Lemma skip_to_proposal_inv header w : inv w → keeps_inv (skip_to_proposal c header) w.
Proof.
  intros Hw. unfold keeps_inv, skip_to_proposal. wp_step.
  apply wp_move_to_height; [intros _; apply Hw|]. intros Hlt.
  pose proof (at_height_inv _ w (in_core _ Hw) Hlt) as Hw1.
  pose proof (at_height_ready Prevote _ w (in_core _ Hw) Hlt) as Hr1.
  wp_step. wp_step; [|intros _; apply Hw1]. do 5 wp_step.
  eapply beside_ready in Hr1; [|apply (beside_confirmed a)].
  wp_step; wp_step; [|by apply move_to_step_inv].
  apply move_to_step_inv. eapply beside_ready; [apply beside_proposal|done].
Qed.

Lemma on_imported_proposal_inv header w : inv w → keeps_inv (on_imported_proposal c header) w.
Proof.
  intros Hw. unfold keeps_inv, on_imported_proposal. wp_step; [by apply wp_ret|].
  wp_step. wp_step; [|intros _; apply Hw]. wp_step. wp_step; [|intros _; apply Hw]. wp_step.
  apply wp_collect_seal; [done|]. intros w1 Hw1%beside_inv; [|done].
  do 3 wp_step. apply wp_calm; [calm_tac|intros votes Hv|intros _ _; apply Hw1]. do 4 wp_step.
  apply beside_throw_out_old in Hv; [|apply Hw1]. apply beside_inv in Hv as Hw2; [|done].
  wp_step; [|wp_step; [by apply skip_to_proposal_inv|by apply wp_ret]].
  do 2 wp_step. apply take_proposal_inv. eapply beside_inv; [apply beside_proposal|done].
Qed.

(** The height was just reached. *)
Definition newly (w : Worker) : Prop :=
  w_height w = h → w_last_two_thirds_majority w = Empty ∧ ∀ v s, past w v s.

Lemma new_block_inv hash w :
  inv w →
  wp (new_block c hash) (λ b w', good w' → inv w' ∧ (b = true → newly w')) (λ _ w', good w' → core w') w.
Proof.
  intros Hw. unfold new_block. wp_step. wp_step; [|intros _; apply Hw]. wp_step.
  wp_step; [|intros _; apply Hw]. wp_step.
  apply wp_looks; [auto with calm_db| |intros _; apply Hw]. intros [] _.
  - wp_step. eapply wp_mono; [by apply on_imported_proposal_inv| |done].
    intros [] w1 Hw1. wp_step. intros Hg. by split; [apply Hw1|].
  - do 3 wp_step. wp_step; [|intros _; apply Hw]. wp_step; [|by wp_step].
    wp_step. wp_step; [|intros _; apply Hw]. wp_step.
    apply wp_move_to_height; [intros _; apply Hw|]. intros Hlt. do 3 wp_step. intros _.
    pose proof (at_height_inv _ w (in_core _ Hw) Hlt) as Hw1. split.
    + eapply beside_inv; [apply beside_confirmed|done].
    + intros _ Hh. split; [done|]. intros v s. by eapply (new_height_past w _ v s (in_core _ Hw) Hlt).
Qed.

Lemma import_blocks_inv imported b w :
  inv w →
  wp (import_blocks c imported b)
    (λ b' w', good w' → inv w' ∧ (b = false → length imported ≤ 1 → b' = true → newly w')%nat)
    (λ _ w', good w' → core w') w.
Proof.
  revert b w. induction imported as [|hash imported IH]; intros b w Hw; cbn [import_blocks].
  { wp_step. intros _. split; [done|]. by intros ->. }
  wp_step. eapply wp_mono; [by apply new_block_inv| |done]. intros changed w1 Hw1.
  apply wp_grown; [auto with grow_db|]. intros Hg. destruct (Hw1 Hg) as [Hi Hu].
  destruct imported as [|hash2 imported].
  - cbn [import_blocks]. wp_step. intros _. split; [done|]. intros -> _ Hch. by apply Hu.
  - eapply wp_mono; [by apply IH| |done]. intros b' w' Hp Hg'. destruct (Hp Hg'). split; [done|]. cbn. lia.
Qed.

Lemma new_blocks_inv imported enacted w :
  inv w →
  (∀ w', import_blocks c imported false w = (Ok true, w') → w_height w' = h → length imported ≤ 1)%nat →
  keeps_inv (new_blocks c imported enacted) w.
Proof.
  intros Hw Hone. unfold keeps_inv, new_blocks. wp_step.
  pose proof (import_blocks_inv imported false w Hw) as Hi. unfold wp in Hi. unfold wp at 1.
  destruct (import_blocks c imported false w) as [[b| |] w1]; [|done|done].
  apply wp_grown; [grow_tac|]. intros Hg. destruct (Hi Hg) as [Hw1 Hu].
  wp_step.
  - assert (w_height w1 = h → newly w1) as Hn by (intros Hh; by apply Hu; [|by eapply Hone|]).
    apply move_to_step_inv. split; [apply Hw1| |].
    + intros Hh. left. by apply Hn.
    + intros Hh vl. destruct (Hn Hh Hh) as [-> _]. done.
  - wp_step. apply (wp_mono (λ _ w', w' = w1)
      _ (λ _ w', w' = w1) _ (λ _ w', good w' → core w')).
    { wp_step; [by wp_step|]. by apply wp_looks; [auto with calm_db| |]. }
    2: { intros _ w2 -> _. apply Hw1. }
    intros moves w2 ->. wp_step; [|by wp_step]. do 3 wp_step.
    apply wp_move_to_height; [intros _; apply Hw1|]. intros Hlt.
    by apply move_to_step_inv, at_height_ready; [apply Hw1|].
Qed.

(** ** Proposals and timers *)

Lemma proposal_generated_inv block w : inv w → keeps_inv (proposal_generated c block) w.
Proof.
  intros Hw. unfold keeps_inv, proposal_generated. do 3 wp_step.
  apply wp_calm; [calm_tac|intros [] Hs|intros _ _; apply Hw]. wp_step.
  apply wp_propose_vote; [|intros w1 Hb _; eapply beside_core; [done|apply Hw]].
  intros w1 Hb. pose proof (beside_inv _ _ Hb Hw) as Hw1. wp_step. intros _.
  eapply aside_inv; [apply aside_step| |done|done]. cbn. destruct Hb as (_ & -> & _).
  by destruct (w_step w).
Qed.

Lemma set_step_elsewhere step w : inv w → w_height w ≠ h → inv (set_step step w).
Proof.
  intros [Hw _ _ Ht] Hh. split; try done. eapply aside_core; [apply aside_step|apply Hw|done].
Qed.

Lemma later_ready s w :
  inv w → sooner 0 (to_step (w_step w)) 0 s → s ≠ Propose → s ≠ Prevote → ready s w.
Proof.
  intros Hw Hs Hn1 Hn2. split; [apply Hw| |].
  - intros Hh. left. apply (seated_past _ _ _ (in_seated _ Hw Hh)). unfold sooner in *. lia.
  - intros Hh vl Hvl. destruct (in_lock _ Hw Hh vl Hvl). split; [done|]. by intros [|].
Qed.

(** The step that a timer leads to is entered. *)
Lemma step_timeout_inv w :
  inv w →
  keeps_inv (next_step ← step_timeout c;
             match next_step with Some next_step => move_to_step c next_step false | None => mret tt end) w.
Proof.
  intros Hw. apply wp_grown; [unfold step_timeout; grow_tac|]. intros Hg.
  unfold step_timeout. do 3 wp_step. destruct (w_step w) eqn:Hs; try (by wp_step; wp_step).
  - wp_step. apply (wp_mono (λ _ w', good w' → core w') _ (λ _ w', w' = w)).
    + wp_step; [|by wp_step]. wp_step.
      apply wp_looks; [auto with calm_db| |intros _; apply Hw]. intros p _. wp_step.
      apply wp_looks; [auto with calm_db| |intros _; apply Hw]. intros q _. wp_step.
      wp_step; [by wp_step|intros _; apply Hw].
    + intros [] w1 ->. wp_step. apply move_to_step_inv, propose_ready; [done|by rewrite Hs].
    + done.
  - wp_step. apply wp_looks; [auto with calm_db| |intros _; apply Hw]. intros [] _; wp_step.
    + apply move_to_step_inv, later_ready; [done| |done|done]. rewrite Hs. by right.
    + apply move_to_step_inv, inv_ready; [done|by rewrite Hs].
  - wp_step. apply wp_looks; [auto with calm_db| |intros _; apply Hw]. intros [] _.
    + do 3 wp_step. by apply move_to_step_inv, next_view_ready.
    + wp_step. apply move_to_step_inv, inv_ready; [done|by rewrite Hs].
  - wp_step.
    + do 4 wp_step. intros _. eapply aside_inv; [apply aside_step| |done|done]. by rewrite Hs.
    + wp_step. apply wp_move_to_height; [intros _; apply Hw|]. intros Hlt. wp_step.
      by apply move_to_step_inv, at_height_ready; [apply Hw|].
  - intros _. apply Hw.
Qed.

Lemma on_timeout_inv token w :
  inv w →
  (token = ENGINE_TIMEOUT_EMPTY_PROPOSAL → w_height w = h →
   ∃ block, w_step w = TsProposeWaitEmptyBlockTimer block) →
  keeps_inv (on_timeout c token) w.
Proof.
  intros Hw Ht. unfold keeps_inv, on_timeout. do 3 wp_step; [|wp_step; [wp_step|wp_step; [by wp_step|]]].
  - apply N.eqb_eq in Heqb. do 2 wp_step.
    assert (inv (set_step TsPropose w)) as Hw1.
    { destruct (decide (w_height w = h)) as [Hh|Hh]; [|by apply set_step_elsewhere].
      destruct (Ht Heqb Hh) as [block Hs]. eapply aside_inv; [apply aside_step| |done|done]. by rewrite Hs. }
    destruct (w_step w); try (by wp_step). by apply submit_proposal_block_inv.
  - do 3 wp_step. intros _. eapply beside_inv; [|exact Hw].
    eapply beside_trans; [|by apply beside_emit]. split; [|done].
    apply blurred_aside. repeat split. exists []. by rewrite app_nil_r.
  - by wp_step.
  - by apply step_timeout_inv.
Qed.

(** ** Messages *)

Lemma on_proposal_message_inv signature view block w :
  inv w → keeps_inv (on_proposal_message c signature view block) w.
Proof.
  intros Hw. unfold keeps_inv, on_proposal_message. wp_step. wp_step; [|intros _; apply Hw].
  wp_step; [|by wp_step]. wp_step.
  apply wp_looks; [auto with calm_db| |intros _; apply Hw]. intros [idx|] _; [|by wp_step]. wp_step.
  apply wp_looks; [auto with calm_db| |intros _; apply Hw].
  intros message Hm%new_proposal_round. do 3 wp_step; [by wp_step|]. wp_step; [by wp_step|]. wp_step.
  apply wp_looks; [apply looks_engine; auto with calm_db| |intros _; apply Hw]. intros public _.
  destruct (cm_verify message public) as [[]| |]; [|by wp_step|by wp_step|intros _; apply Hw].
  wp_step; [by wp_step|]. wp_step.
  apply (wp_mono (λ _ w', good w' → core w') _ (λ _ w', beside w w')); [| |done].
  - wp_step; [|by apply wp_ret, beside_refl]. wp_step.
    apply (wp_mono (λ _ w', good w' → core w') _ (λ _ w', beside w w')); [| |done].
    + wp_step; [|wp_step; apply beside_proposal]. wp_step.
      wp_step; [wp_step; apply beside_proposal|intros _; apply Hw].
    + intros [] w1 Hb. do 3 wp_step. eapply beside_trans; [done|]. by apply beside_emit.
  - intros [] w1 Hb. wp_step. apply wp_record_vote. wp_step. intros _.
    eapply beside_inv; [|exact Hw]. eapply beside_trans; [done|]. apply beside_record. by rewrite Hm.
Qed.

(** A message that is a vote of its signer, if it is a prevote of the height. *)
Definition message_ok (bs : bytes) : Prop :=
  ∀ m q, decode ConsensusMessage_codec bs = Ok m →
    vs_height (cm_round m) = h → vs_step (cm_round m) = Prevote →
    members !! N.to_nat (cm_signer_index m) = Some q → cm_verify m q = Ok true →
    backed (cm_signer_index m) (cm_on m).

Lemma report_double_vote_inv double w : inv w → keeps_inv (report_double_vote c double) w.
Proof.
  intros Hw. unfold keeps_inv, report_double_vote. do 2 wp_step. wp_step; [|by wp_step].
  destruct p as [address public].
  destruct (sign_ecdsa _ _); [|by wp_step|intros _; apply Hw].
  destruct (recover_public _); [|intros _; apply Hw..]. wp_step. intros _.
  eapply beside_inv; [by apply beside_emit|done].
Qed.

(** Where a handler returns an error it has kept the invariant. *)
Definition core_or_inv (o : option TmError) (w : Worker) : Prop :=
  good w → core w ∧ ∀ e, o = Some e → e ≠ OutOfFuel → inv w.
Definition keeps_inv_err {A : Type} (m : wM A) (w : Worker) : Prop :=
  wp m (λ _ w', good w' → inv w') core_or_inv w.

Lemma keeps_inv_settles {A} (m : wM A) w : settles m → keeps_inv m w → keeps_inv_err m w.
Proof.
  intros Hs Hm. specialize (Hs w). unfold keeps_inv_err, keeps_inv, core_or_inv, wp in *.
  destruct (m w) as [[a|e|] w']; [done| |]; intros Hg; (split; [by apply Hm|]); [|done].
  intros e' [= <-] Hne. by destruct (Hs e eq_refl).
Qed.

Lemma keeps_inv_reply {A} (m : wM A) w : keeps_inv_err m w → keeps_inv (reply m) w.
Proof.
  unfold keeps_inv_err, keeps_inv, core_or_inv, wp, reply. destruct (m w) as [[a|e|] w']; [done| |]; intros Hm.
  - destruct e; intros Hg; by destruct (Hm Hg) as [? Hi]; try (eapply Hi; done).
  - intros Hg. by destruct (Hm Hg).
Qed.

Lemma inv_err w o : inv w → core_or_inv o w.
Proof. intros Hw _. split; [apply Hw|done]. Qed.

Lemma message_backed bs m header count public w :
  message_ok bs → decode ConsensusMessage_codec bs = Ok m → w_validators w = self →
  cl_block_header c (ByNumber (u64_sub (cm_height m) 1)) = Some header →
  lift_engine (dv_count c (w_validators w) (hv_hash header)) w = (Ok count, w) →
  (count <=? cm_signer_index m) = false →
  lift_engine (dv_get c (w_validators w) (hv_hash header) (cm_signer_index m)) w = (Ok public, w) →
  cm_verify m public = Ok true →
  ∀ v, cm_round m = VoteStep_new h v Prevote →
  cm_signer_index m < len members ∧ backed (cm_signer_index m) (cm_on m).
Proof.
  intros Hok Hm -> Hhd Hcount Hlt%N.leb_gt Hpub Hver v Hr.
  assert (cm_height m = h) as Hh by (unfold cm_height; unfold cm_round in Hr; by rewrite Hr).
  rewrite Hh, prev_height in Hhd. rewrite (cl_parent c Hc header Hhd) in *.
  unfold lift_engine, lift_st in *.
  rewrite (committee_count self elected c parent (cl_committee c Hc)) in Hcount. injection Hcount as <-.
  rewrite (committee_get self elected c parent (cl_committee c Hc)) in Hpub by done.
  fold members in *. destruct (members !! _) as [q|] eqn:Hq; [|done]. injection Hpub as ->.
  split; [done|]. apply (Hok m public); [done|by rewrite Hr|by rewrite Hr|done|done].
Qed.

Lemma not_later_lt w m : vs_lt (vote_step w) (cm_round m) = false → not_later w (cm_round m).
Proof. unfold not_later. rewrite <- vs_lt_before. by intros ->. Qed.

Lemma handle_message_inv bs r w : message_ok bs → inv w → keeps_inv_err (handle_message c bs r) w.
Proof.
  intros Hok Hw. unfold keeps_inv_err, handle_message. wp_step.
  apply wp_lift; [intros m Hm%map_err_Ok|by intros; apply inv_err|by intros; apply inv_err].
  do 3 wp_step; [by wp_step|]. wp_step; [by apply wp_throw, inv_err|]. wp_step.
  apply wp_calm; [calm_tac|intros header Hhd%expect_Ok|by intros; apply inv_err]. wp_step.
  apply wp_looks; [apply looks_engine; auto with calm_db|intros count Hcount|by apply inv_err].
  wp_step; [by apply wp_throw, inv_err|]. wp_step.
  apply wp_looks; [apply looks_engine; auto with calm_db|intros public Hpub|by apply inv_err]. wp_step.
  apply wp_lift; [intros verified Hver%map_err_Ok|by intros; apply inv_err|by intros; apply inv_err].
  destruct verified; cbn [negb]; [|by apply wp_throw, inv_err].
  destruct (vs_lt _ _) eqn:Hlater; [by wp_step|]. wp_step.
  pose proof (message_backed bs m header count public w Hok Hm (co_validators _ (in_core _ Hw)) Hhd Hcount
    Heqb1 Hpub Hver) as Hback.
  apply (wp_mono core_or_inv _ (λ _ w', inv w' ∧ vote_step w' = vote_step w)); [| |done].
  - wp_step; [|by apply wp_ret]. wp_step.
    apply wp_looks; [apply looks_engine; auto with calm_db|intros index _|by apply inv_err]. wp_step.
    apply wp_calm; [calm_tac|intros vote_index _|by intros; apply inv_err].
    apply wp_mark_received; [done|by apply inv_err].
  - intros [] w1 [Hw1 Hv1]. wp_step. apply wp_record_vote. apply (record_inv m) in Hw1; [|done].
    destruct (vc_vote _ _).2 as [double|].
    + wp_step. eapply wp_mono; [| |done].
      { apply keeps_inv_settles; [apply settles_report_double_vote|by apply (report_double_vote_inv double)]. }
      intros [] w2 Hw2. apply wp_throw. intros Hg. by apply inv_err; [apply Hw2|].
    + apply keeps_inv_settles; [apply settles_handle_valid_message|].
      apply handle_valid_message_inv; [apply grows_move_to_step|intros; by apply move_to_step_inv|done|].
      apply not_later_lt in Hlater. unfold not_later in *. by rewrite <- Hv1 in Hlater.
Qed.

(** ** Events *)

(** What the surroundings of a worker promise for an event: a block of a batch that brings the worker
    to the height comes alone; the timer for an empty proposal fires while it is waited for; messages
    are votes of their signers; the node keeps its key, and starts without a backup. *)
Definition event_ok (event : Event) (w : Worker) : Prop :=
  match event with
  | NewBlocks imported _ =>
      ∀ w', import_blocks c imported false w = (Ok true, w') → w_height w' = h → (length imported ≤ 1)%nat
  | OnTimeout token =>
      token = ENGINE_TIMEOUT_EMPTY_PROPOSAL → w_height w = h →
      ∃ block, w_step w = TsProposeWaitEmptyBlockTimer block
  | HandleMessages messages => ∀ bs, bs ∈ messages → message_ok bs
  | SetSigner _ public => public = me
  | Restore => w_kvdb w = None
  | _ => True
  end.

Lemma keeps_inv_with_reply {A} (f : A → list Reply) (m : wM A) w :
  keeps_inv m w → keeps_inv (with_reply f m) w.
Proof.
  intros Hm. unfold keeps_inv, with_reply. wp_step. eapply wp_mono; [exact Hm| |done].
  intros a w' Hw'. by wp_step.
Qed.

Lemma keeps_inv_idle {A} (m : wM A) w : idle m → inv w → keeps_inv m w.
Proof.
  intros Hm Hw. specialize (Hm w). unfold keeps_inv, wp.
  destruct (m w) as [[a|e|] w']; cbn in Hm; subst w'; intros _; (done || apply Hw).
Qed.

Lemma keeps_inv_messages messages w :
  (∀ bs, bs ∈ messages → message_ok bs) → inv w → keeps_inv (handle_messages c messages) w.
Proof.
  revert w. induction messages as [|bs messages IH]; intros w Hok Hw; unfold keeps_inv; cbn [handle_messages].
  { by wp_step. }
  wp_step. eapply wp_mono.
  { apply keeps_inv_reply, handle_message_inv; [apply Hok; by left|done]. }
  2: done.
  intros r w1 Hw1. apply wp_grown; [grow_tac|]. intros Hg. wp_step.
  eapply wp_mono; [apply IH; [intros; apply Hok; by right|by apply Hw1]| |done].
  intros rs w2 Hw2. by wp_step.
Qed.

Lemma set_signer_inv address w : inv w → inv (set_signer (Some (address, me)) w).
Proof.
  intros [Hw Hse Hl Ht]. split; [|done..]. destruct Hw. split; try done. cbn. by intros a q [= _ <-].
Qed.

Lemma handle_inv event w : event_ok event w → inv w → keeps_inv (handle c event) w.
Proof.
  intros Hok Hw. assert (∀ A (m : wM A) f, idle m → keeps_inv (with_reply f m) w) as Hidle.
  { intros A m f Hm. by apply keeps_inv_with_reply, keeps_inv_idle. }
  destruct event; cbn [handle event_ok] in *.
  - by apply keeps_inv_with_reply, new_blocks_inv.
  - apply Hidle. unfold generate_seal. idle_tac.
  - by apply keeps_inv_with_reply, proposal_generated_inv.
  - apply Hidle. unfold verify_header_basic. idle_tac.
  - apply Hidle. unfold verify_block_external, is_authority, check_view_proposer. idle_tac.
  - apply keeps_inv_idle; [|done]. unfold with_reply. idle_tac.
  - by apply keeps_inv_with_reply, on_timeout_inv.
  - by apply keeps_inv_messages.
  - apply Hidle. idle_tac.
  - subst public. apply keeps_inv_with_reply. intros _. by apply set_signer_inv.
  - apply keeps_inv_idle; [|done]. idle_tac.
  - apply keeps_inv_with_reply. unfold keeps_inv, restore. do 2 wp_step. rewrite Hok. by intros _.
  - by apply keeps_inv_with_reply, on_proposal_message_inv.
  - apply keeps_inv_idle; [|done]. idle_tac.
  - apply Hidle. unfold on_request_proposal_message. idle_tac.
  - apply Hidle. idle_tac.
Qed.
End Answers.

(** * Runs *)

Fixpoint run_ok (events : list (Client * Event)) (w : Worker) : Prop :=
  match events with
  | [] => True
  | (c, event) :: events =>
      client_ok c ∧ event_ok c event w ∧
      match handle c event w with (Ok _, w') => run_ok events w' | _ => True end
  end.

Lemma exec_core events w : inv w → run_ok events w → good (exec events w) → core (exec events w).
Proof.
  revert w. induction events as [|[c event] events IH]; intros w Hw Hok; cbn [exec run_ok] in *.
  { intros _. apply Hw. }
  destruct Hok as (Hc & He & Hok). pose proof (handle_inv c Hc event w He Hw) as Hk.
  unfold keeps_inv, wp in Hk. destruct (handle c event w) as [[r|e|] w']; [|done|done].
  intros Hg. apply IH; [|done|done]. apply Hk. intros o Ho. by apply Hg, exec_grows.
Qed.

Lemma new_inv kvdb : inv (Worker_new self gap kvdb).
Proof.
  assert (∀ v, messages_in VoteCollector_default (VoteStep_new h v Prevote) = []) as Hm.
  { intros v. unfold messages_in, VoteCollector_default. cbn [bt_get].
    by destruct (cmp _ _). }
  assert (∀ on, ¬ signed (Worker_new self gap kvdb) on) as Hno by (intros on; apply not_elem_of_nil).
  split; [split|..]; cbn; try done; try (by intros; exfalso; eapply Hno).
  - apply VoteCollector_default_ok.
  - apply BitSet_new_ok.
  - intros v m. rewrite Hm. by intros ?%not_elem_of_nil.
  - intros _ v s x _ Hx. by destruct (Hno (vote_at v s x)).
  - by left.
Qed.
End Node.
