(* ===== verification/TmAgreement.v ===== *)
(** Agreement: at a height, the precommits of more than two thirds are for one block only, and the
    headers that [verify_block_external] accepts on top of it do not fork, as long as the faulty
    validators weigh at most a third. *)
From stdpp Require Import base gmap list numbers.
From Stdlib Require Import NArith ZArith Lia.
From S2P Require Import Prelude Types Crypto Rlp RlpImpls TxHash BTree StakeData StakeAction Header BitSet.
From S2P Require Import TmMessage VoteCollector Validators Quorum TmWorker TmRun TmTrace TmSafety.

Local Open Scope N_scope.

(** * One node *)

(** What a run of one node needs for the node not to vote twice: the node has the same parent block and
    the same validators at the height whenever it asks, and the events are those of [event_ok]. *)
Definition steady_run `{Crypto, Schnorr, EcdsaSigner, HashOrder, Snappy} (h : N) (parent : H256)
  (self : DynamicValidator) (elected : option (list Validator)) (gap : TimeGapParams) (me : Public)
  (events : list (Client * Event)) : Prop :=
  1 ≤ h < u64_size ∧ weights_fit self elected ∧
  run_ok h parent self elected gap me (λ _ _, True) False events (Worker_new self gap None) ∧
  ∀ s v nonce, Net (SetTimerStep s v nonce) ∈ w_trace (exec events (Worker_new self gap None)) →
    v + 1 < u64_size.

(** C2: a node does not vote twice.  Take a node that starts without a backup, keeps its key, and sees
    one parent block and one list of validators at the height.  Then, whatever messages, proposals, blocks
    and timeouts it handles and in whatever order, the prevotes that it signs in a view of the height are
    for the same block, and so are the precommits.  Two kinds of events are left out, in which the code
    does vote twice: the timer for an empty proposal that fires when it is no longer waited for, and
    a batch of several imported blocks that takes the node to the height. *)
Theorem votes_once `{Crypto, Schnorr, EcdsaSigner, HashOrder, Snappy} h parent self elected gap me events
  (v : N) (s : Step) (x y : option H256) :
  steady_run h parent self elected gap me events → bind_step s →
  let w := exec events (Worker_new self gap None) in
  SignVote (vote_at h v s x) ∈ w_trace w → SignVote (vote_at h v s y) ∈ w_trace w → x = y.
Proof.
  intros (Hh & Hw & Hrun & Hviews) Hs w Hx Hy.
  eapply (co_once h self elected gap me (λ _ _, True) False w); [|done..].
  eapply (exec_core h parent self elected gap me (w_trace w)); [done|done|done|done|apply new_inv|done|].
  by intros o.
Qed.

(** * The network *)

(** A node that follows the protocol: its key, its time window and what happens to it. *)
Record Node := { nd_public : Public; nd_gap : TimeGapParams; nd_events : list (Client * Event) }.

Section Network.
Context `{Crypto, Schnorr, EcdsaSigner, HashOrder, Snappy}.
Context (h : N) (parent : H256) (self : DynamicValidator) (elected : option (list Validator)).
Context (nodes : list Node).

Definition final (n : Node) : Worker := exec (nd_events n) (Worker_new self (nd_gap n) None).

(** The vote of a validator is backed if it has signed it, where it is one of the nodes. *)
Definition cast (i : N) (on : VoteOn) : Prop :=
  ∀ n, n ∈ nodes → members self elected !! N.to_nat i = Some (nd_public n) → SignVote on ∈ w_trace (final n).

(** The validators that are none of the nodes. *)
Definition faulty (i : N) : bool :=
  negb (existsb (λ n, bool_decide (members self elected !! N.to_nat i = Some (nd_public n))) nodes).

(** The nodes share the height, each has a key of its own, and they weigh enough. *)
Record network : Prop := {
  nw_height : 1 ≤ h < u64_size;
  nw_weights : weights_fit self elected;
  nw_keys : NoDup (nd_public <$> nodes);
  nw_run n : n ∈ nodes →
    run_ok h parent self elected (nd_gap n) (nd_public n) cast True (nd_events n)
      (Worker_new self (nd_gap n) None);
  nw_views n : n ∈ nodes → ∀ s v nonce, Net (SetTimerStep s v nonce) ∈ w_trace (final n) → v + 1 < u64_size;
  nw_faulty : 3 * weight_where (committee_weights self elected) faulty
              ≤ total_weight (committee_weights self elected);
}.

(** Precommits of more than two thirds. *)
Definition certificate (v : N) (b : H256) : Prop :=
  ∃ s, NoDup s ∧ heavy (committee_weights self elected) s ∧
    ∀ i, i ∈ s → i < len (members self elected) ∧ cast i (vote_at h v Precommit (Some b)).

Context (Hnet : network).

Lemma node_core n : n ∈ nodes →
  core h self elected (nd_gap n) (nd_public n) cast True (final n).
Proof.
  intros Hn. destruct Hnet. apply (exec_core h parent self elected (nd_gap n) (nd_public n) (w_trace (final n))).
  - done.
  - done.
  - by apply nw_views0.
  - intros i on Hi Hon n' Hn' Hi'. rewrite Hi in Hi'. injection Hi' as He.
    assert (n = n') as <-; [|done].
    apply list_elem_of_lookup in Hn as [j Hj]. apply list_elem_of_lookup in Hn' as [j' Hj'].
    assert (j = j') as <-; [|congruence].
    eapply NoDup_lookup; [done|rewrite list_lookup_fmap, Hj; done|rewrite list_lookup_fmap, Hj'; by rewrite He].
  - apply new_inv.
  - by apply nw_run0.
  - by intros o.
Qed.

(** Two quorums have a node in common. *)
Lemma quorums_share_node s t :
  NoDup s → NoDup t → heavy (committee_weights self elected) s → heavy (committee_weights self elected) t →
  ∃ i n, i ∈ s ∧ i ∈ t ∧ n ∈ nodes ∧ members self elected !! N.to_nat i = Some (nd_public n).
Proof.
  intros Hs Ht Hhs Hht. destruct (quorums_meet _ faulty s t Hs Ht Hhs Hht (nw_faulty Hnet)) as (i & _ & His & Hit & Hf).
  unfold faulty in Hf. apply negb_false_iff, existsb_exists in Hf as (n & Hn & Hi%bool_decide_eq_true).
  exists i, n. repeat split; try done. by apply list_elem_of_In.
Qed.

Lemma later_polka v b :
  certificate v b → ∀ v' x, v < v' → polka h self elected cast v' x → x = Some b.
Proof.
  intros (s & Hs & Hhs & Hcs) v'. induction (N.lt_wf_0 v') as [v' _ IH]. intros x Hlt (t & Ht & Hht & Hct).
  destruct (quorums_share_node s t) as (i & n & His & Hit & Hn & Hi); [done..|].
  destruct (Hcs i His) as [_ Hpc]. destruct (Hct i Hit) as [_ Hpv].
  destruct (co_prevote _ _ _ _ _ _ _ _ (node_core n Hn) v b v' x) as [?|(v2 & y & ? & ? & Hy & Hp)].
  - done.
  - by apply Hpc.
  - by apply Hpv.
  - done.
  - done.
  - by destruct Hy; eapply IH.
Qed.

Lemma certificate_polka v b : certificate v b → polka h self elected cast v (Some b).
Proof.
  intros (s & Hs & Hhs & Hcs). destruct (quorums_share_node s s) as (i & n & His & _ & Hn & Hi); [done..|].
  eapply (co_precommit _ _ _ _ _ _ _ _ (node_core n Hn)). by apply (Hcs i His).
Qed.

Lemma certificates_agree v1 b1 v2 b2 : certificate v1 b1 → certificate v2 b2 → b1 = b2.
Proof.
  intros H5 H6. destruct (N.lt_trichotomy v1 v2) as [Hlt|[->|Hlt]].
  - pose proof (later_polka v1 b1 H5 v2 (Some b2) Hlt (certificate_polka v2 b2 H6)). congruence.
  - destruct H5 as (s & Hs & Hhs & Hcs), H6 as (t & Ht & Hht & Hct).
    destruct (quorums_share_node s t) as (i & n & His & Hit & Hn & Hi); [done..|].
    assert (Some b1 = Some b2); [|congruence].
    eapply (co_once _ _ _ _ _ _ _ _ (node_core n Hn) v2 Precommit); [by right|..];
      [by apply (Hcs i His)|by apply (Hct i Hit)].
  - pose proof (later_polka v2 b2 H6 v1 (Some b1) Hlt (certificate_polka v1 b1 H5)). congruence.
Qed.
End Network.

(** * Accepted headers *)

Section Accepted.
Context `{Crypto, Schnorr, HashOrder} (c : Client).

(** The precommits that the seal of a header has for its parent. *)
Record sealed_by (w : Worker) (header : Header) (prev_view : N) (grand_parent : H256)
  (signatures : list (N * SchnorrSignature)) (voted : BitSet) : Prop := {
  sb_view : previous_block_view TmDecoder (hd_seal header) = Ok prev_view;
  sb_parent : ∃ rlp, cl_block_header c (ByHash (hd_parent_hash header)) = Some rlp ∧
    hv_parent_hash (E:=TmError) rlp = Ok grand_parent;
  sb_signatures : seal_signatures TmDecoder (hd_seal header) = Ok signatures;
  sb_voted : fold_res (verify_precommit c (w_validators w) grand_parent
    (message_hash (VoteStep_new (u64_sub (hd_number header) 1) prev_view Precommit) (hd_parent_hash header)))
    BitSet_new signatures = Ok voted;
  sb_enough : hd_number header ≠ 1 →
    dv_check_enough_votes c (w_validators w) grand_parent voted = Ok tt;
}.

Lemma verify_block_external_sealed header w :
  (verify_block_external c header w).1 = Ok tt →
  ∃ prev_view grand_parent signatures voted, sealed_by w header prev_view grand_parent signatures voted.
Proof.
  assert (wp (verify_block_external c header)
    (λ _ _, ∃ prev_view grand_parent signatures voted, sealed_by w header prev_view grand_parent signatures voted)
    (λ _ _, True) w) as Hwp.
  { unfold verify_block_external. wp_step. apply wp_lift; [intros view _|done|done]. wp_step.
    apply wp_looks; [unfold is_authority; looks_tac|intros authority _|done]. wp_step; [done|]. wp_step.
    apply (wp_mono (λ _ _, True) _ (λ _ w', w' = w)); [| |done].
    { assert (idle (check_view_proposer c (hd_parent_hash header) (hd_number header) view (hd_author header))) as Hi
        by (unfold check_view_proposer; idle_tac).
      specialize (Hi w). unfold wp. by destruct (check_view_proposer _ _ _ _ _ w) as [[]?]. }
    intros [] w1 ->. wp_step. apply wp_lift; [intros bitset _|done|done]. wp_step.
    apply wp_lift; [intros precommits _|done|done]. wp_step. apply wp_lift; [intros count _|done|done].
    wp_step; [done|]. wp_step; [done|]. wp_step. apply wp_lift; [intros prev_view Hv|done|done]. wp_step.
    apply wp_lift; [intros rlp Hp%expect_Ok|done|done]. wp_step. apply wp_lift; [intros grand_parent Hg|done|done].
    wp_step. apply wp_lift; [intros signatures Hs|done|done]. do 3 wp_step.
    apply wp_lift; [intros voted Hvo|done|done].
    destruct (N.eqb_spec (hd_number header) 1) as [Hn|Hn]; [wp_step|apply wp_lift; [intros [] He%map_err_Ok|done|done]].
    all: exists prev_view, grand_parent, signatures, voted; split; eauto; done. }
  unfold wp in Hwp. destruct (verify_block_external c header w) as [[[]| |] w']; [done|done|done].
Qed.

Lemma verify_precommits_inv vs g hash sigs b voted :
  bs_ok b → fold_res (verify_precommit c vs g hash) b sigs = Ok voted →
  bs_ok voted ∧ (∀ i, bit voted i = true ↔ i ∈ sigs.*1 ∨ bit b i = true) ∧
  ∀ i sig, (i, sig) ∈ sigs → ∃ public, dv_get c vs g i = Ok public ∧ verify_schnorr public sig hash = Ok true.
Proof.
  revert b. induction sigs as [|[i sig] sigs IH]; intros b Hb; cbn [fold_res].
  - intros [= ->]. split; [done|]. split; [intros i; rewrite elem_of_nil; naive_solver|].
    by intros i sig ?%not_elem_of_nil.
  - intros (b1 & Hv & Hf)%bind_Ok. unfold verify_precommit in Hv.
    apply bind_Ok in Hv as (public & Hg%map_err_Ok & (verified & Hs%map_err_Ok & Hv)%bind_Ok).
    destruct verified; [|done]. cbn [negb] in Hv. apply bind_Ok in Hv as (known & _ & (u & _ & Hv)%bind_Ok).
    apply bs_set_inv in Hv as (_ & Hb1 & Hbit); [|done]. destruct (IH b1 Hb1 Hf) as (Hok & Hin & Hall).
    split; [done|]. split.
    + intros j. rewrite Hin, Hbit, orb_true_iff, bool_decide_eq_true, fmap_cons, elem_of_cons. naive_solver.
    + intros j s [[= -> ->]|Hj]%elem_of_cons; [by exists public|by apply Hall].
Qed.
End Accepted.

(** What a seal has to be for its votes to count: its indices are those of validators, and the
    signatures of the nodes are theirs. *)
Record honest_seal `{Crypto, Schnorr, EcdsaSigner, HashOrder, Snappy} (h : N) (self : DynamicValidator)
  (elected : option (list Validator)) (nodes : list Node) (header : Header) : Prop := {
  hs_indices signatures i sig : seal_signatures TmDecoder (hd_seal header) = Ok signatures →
    (i, sig) ∈ signatures → i < len (members self elected);
  hs_signed signatures prev_view i sig n :
    seal_signatures TmDecoder (hd_seal header) = Ok signatures → (i, sig) ∈ signatures →
    previous_block_view TmDecoder (hd_seal header) = Ok prev_view → n ∈ nodes →
    members self elected !! N.to_nat i = Some (nd_public n) →
    let on := vote_at h prev_view Precommit (Some (hd_parent_hash header)) in
    verify_schnorr (nd_public n) sig (vote_digest on) = Ok true → SignVote on ∈ w_trace (final self n);
}.

Section Fork.
Context `{Crypto, Schnorr, EcdsaSigner, HashOrder, Snappy}.
Context (h : N) (parent : H256) (self : DynamicValidator) (elected : option (list Validator)).
Context (nodes : list Node) (Hnet : network h parent self elected nodes).

(** A verifier at the next height, whose state has the validators of the height. *)
Record verifier (c : Client) (w : Worker) (header : Header) : Prop := {
  vr_number : hd_number header = h + 1;
  vr_validators : w_validators w = self;
  vr_committee : has_committee elected c parent;
  vr_parent rlp : cl_block_header c (ByHash (hd_parent_hash header)) = Some rlp →
    hv_parent_hash (E:=TmError) rlp = Ok parent;
}.

Lemma accepted_certificate c w header :
  verifier c w header → honest_seal h self elected nodes header →
  (verify_block_external c header w).1 = Ok tt → ∃ v, certificate h self elected nodes v (hd_parent_hash header).
Proof.
  intros [Hn Hv Hc Hp] [Hind Hsig] (pv & gp & sigs & voted & [Hpv (rlp & Hrlp & Hgp) Hs Hvo He])%verify_block_external_sealed.
  rewrite (Hp rlp Hrlp) in Hgp. injection Hgp as <-. rewrite Hv in *.
  pose proof (nw_height _ _ _ _ _ Hnet) as Hh. rewrite Hn in He, Hvo. specialize (He ltac:(lia)).
  assert (u64_sub (h + 1) 1 = h) as Hsub by (destruct (decide (h + 1 < u64_size)) as [Hlt|Hge];
    [rewrite u64_sub_le; lia|assert (h + 1 = u64_size) as -> by lia; replace h with (u64_size - 1) by lia; reflexivity]).
  rewrite Hsub in Hvo. apply verify_precommits_inv in Hvo as (Hok & Hbits & Hall); [|apply BitSet_new_ok].
  assert (∀ i, bit voted i = true → ∃ sig, (i, sig) ∈ sigs) as Hbit.
  { intros i [Hi|Hi]%Hbits; [|by rewrite bit_new in Hi]. apply list_elem_of_fmap in Hi as ([j sig] & -> & ?). eauto. }
  exists pv, (indices voted). split; [apply NoDup_indices|]. split.
  - eapply (enough_heavy self elected c parent); [done|apply Hnet|done| |done].
    intros i (sig & Hi)%Hbit. by eapply Hind.
  - intros i Hi%elem_of_indices; [|done]. destruct (Hbit i Hi) as [sig Hin].
    pose proof (Hind sigs i sig Hs Hin) as Hlt. split; [done|]. intros n Hnode Hmem.
    eapply Hsig; [done|done|done|done|done|]. destruct (Hall i sig Hin) as (public & Hget & Hver).
    rewrite (committee_get self elected c parent) in Hget by done.
    unfold members in Hmem. rewrite Hmem in Hget. injection Hget as <-. exact Hver.
Qed.
End Fork.

(** C1: agreement.  Take the validators of a height, weighted by delegation or, in the first term,
    equally, of which those that follow the protocol weigh at least two thirds.  Each of them handles
    events in any order, under the conditions of [event_ok]: votes of the others are not forged, the timer
    for an empty proposal is not stale, a batch that takes the node to the height has one block.  The
    blocks that have the prevotes of more than two thirds stay in its time window, and the views do not
    run out.  Then two headers of the next height that verifiers accept, whose seals name validators by
    their own indices, have the same parent: the chain does not fork at the height. *)
Theorem accepted_headers_agree `{Crypto, Schnorr, EcdsaSigner, HashOrder, Snappy} h parent self elected nodes
  (c1 c2 : Client) (w1 w2 : Worker) (header1 header2 : Header) :
  network h parent self elected nodes →
  verifier h parent self elected c1 w1 header1 → verifier h parent self elected c2 w2 header2 →
  honest_seal h self elected nodes header1 → honest_seal h self elected nodes header2 →
  (verify_block_external c1 header1 w1).1 = Ok tt → (verify_block_external c2 header2 w2).1 = Ok tt →
  hd_parent_hash header1 = hd_parent_hash header2.
Proof.
  intros Hnet Hv1 Hv2 Hs1 Hs2 He1 He2.
  destruct (accepted_certificate h parent self elected nodes Hnet c1 w1 header1 Hv1 Hs1 He1) as [v1 Hc1].
  destruct (accepted_certificate h parent self elected nodes Hnet c2 w2 header2 Hv2 Hs2 He2) as [v2 Hc2].
  by eapply certificates_agree.
Qed.
