(* ===== verification/TmScenario.v ===== *)
(** A small network to run the worker of Tendermint on: four validators of the initial list, one of
    which proposes a block that the others vote for. *)
From stdpp Require Import base gmap list numbers.
From Stdlib Require Import NArith ZArith Lia.
From S2P Require Import Prelude Types Crypto Rlp RlpImpls TxHash BTree StakeData StakeAction Header BitSet.
From S2P Require Import TmMessage VoteCollector Validators Quorum TmWorker TmRun TmTrace TmSafety TmAgreement.

Local Open Scope N_scope.

Module Scenario.

(** A digest that spreads its input over 31 bits. *)
Definition mix (input : bytes) : N := foldl (λ acc b, (acc * 257 + b + 1) mod 2147483647) 7 input.

#[export] Instance crypto : Crypto := {|
  blake2b n key input := to_be_bytes (N.to_nat n) (mix input);
  ripemd160 := @ripemd160 Sample.crypto; sha256 := @sha256 Sample.crypto;
  keccak256 := @keccak256 Sample.crypto; verify_ecdsa := @verify_ecdsa Sample.crypto;
  recover_ecdsa := @recover_ecdsa Sample.crypto |}.
#[export] Instance schnorr : Schnorr := {|
  verify_schnorr public signature message :=
    Ok (bool_decide (signature = Sample.fit 32 public ++ Sample.fit 32 message));
  sign_schnorr public message := Ok (Sample.fit 32 public ++ Sample.fit 32 message);
|}.
#[export] Instance ecdsa : EcdsaSigner := {| sign_ecdsa public message := Ok (Sample.sign public message) |}.
#[export] Instance order : HashOrder := {| walk A l := l |}.
#[export] Instance snappy : Snappy := {| compress_vec b := b; decompress_vec b := Some b |}.

Definition key (i : N) : Public := replicate 64 (i + 1).
Definition keys : DynamicValidator := key <$> [0; 1; 2; 3].
Definition gap : TimeGapParams := {| tg_allowed_past_gap := 10 ^ 11; tg_allowed_future_gap := 10 ^ 11 |}.

Definition sig_of (i : N) (on : VoteOn) : SchnorrSignature :=
  Sample.fit 32 (key i) ++ Sample.fit 32 (vote_digest on).
Definition vote_of (i : N) (on : VoteOn) : ConsensusMessage :=
  {| cm_on := on; cm_signature := sig_of i on; cm_signer_index := i |}.
Definition vote_bytes (i : N) (on : VoteOn) : bytes := rlp_bytes (rlp_append ConsensusMessage_codec (vote_of i on)).

Definition no_hash : H256 := replicate 32 0.

(** A header without a memo. *)
Definition header (parent : H256) (number timestamp : N) (author : N) (seal : list bytes) : Header := {|
  hd_parent_hash := parent; hd_timestamp := timestamp; hd_number := number;
  hd_author := public_to_address (key author); hd_extra_data := []; hd_transactions_root := no_hash;
  hd_state_root := no_hash; hd_score := 0; hd_seal := seal; hd_hash_memo := None; hd_bare_hash_memo := None |}.

Definition seal (prev_view view : N) (precommits : list (N * SchnorrSignature)) : list bytes :=
  match new_with_indices (E:=()) precommits.*1 with
  | Ok bitset => default [] (seal_fields (SealTendermint prev_view view precommits.*2 bitset))
  | _ => []
  end.

Definition block_of (h : Header) : ChainBlock := {| cb_header := h; cb_transactions := [] |}.
Definition stored (h : Header) : bytes := Block_rlp_bytes (block_of h) With.

(** A block as a client stores it. *)
Record Stored := { st_hash : H256; st_number : N; st_header : bytes; st_block : bytes }.
Definition store (h : Header) : Stored := {|
  st_hash := Header_hash h; st_number := hd_number h; st_header := Header_rlp h With; st_block := stored h |}.

(** A client that has these blocks, of which those in [chain] are on the canonical chain. *)
Definition client (term : N) (now : Z) (known chain : list Stored) : Client := {|
  cl_block_header id :=
    match id with
    | ByHash h => st_header <$> List.find (λ x, bool_decide (st_hash x = h)) known
    | ByNumber n => st_header <$> List.find (λ x, st_number x =? n) chain
    | Latest => None
    end;
  cl_block id :=
    match id with
    | ByHash h => st_block <$> List.find (λ x, bool_decide (st_hash x = h)) known
    | ByNumber n => st_block <$> List.find (λ x, st_number x =? n) chain
    | Latest => None
    end;
  cl_current_term_id _ := Some term;
  cl_state_validators _ := None;
  cl_now := now * 10 ^ 9;
  cl_network_id := [116; 99];
  cl_latest_seq _ := 0;
|}.

Definition genesis : Header := header no_hash 0 90 3 [].
Definition hash0 : H256 := Eval vm_compute in Header_hash genesis.
Definition stored0 : Stored := Eval vm_compute in store genesis.
Definition block1 : Header := Eval vm_compute in header hash0 1 100 0 (seal 0 0 []).
Definition hash1 : H256 := Eval vm_compute in Header_hash block1.
Definition stored1 : Stored := Eval vm_compute in store block1.

Definition before_import : Client := client 0 100 [stored0] [stored0].
Definition after_import : Client := client 0 100 [stored0; stored1] [stored0].

Definition prevote (x : option H256) : VoteOn := vote_at 1 0 Prevote x.
Definition precommit (x : option H256) : VoteOn := vote_at 1 0 Precommit x.

(** What happens at validator [i]: the proposal of validator 0 arrives and is imported, then the votes
    of the other two. *)
Definition events (i : N) : list (Client * Event) :=
  let others := filter (λ j, j ≠ i) [1; 2; 3] in
  [(before_import, SetSigner (public_to_address (key i)) (key i));
   (before_import, ProposalBlock (sig_of 0 (vote_at 1 0 Propose (Some hash1))) 0 (st_block stored1));
   (after_import, NewBlocks [hash1] []);
   (after_import, HandleMessages ((λ j, vote_bytes j (prevote (Some hash1))) <$> others));
   (after_import, HandleMessages ((λ j, vote_bytes j (precommit (Some hash1))) <$> others))].
Definition node (i : N) : Node := {| nd_public := key i; nd_gap := gap; nd_events := events i |}.
End Scenario.
