(* ===== verification/TmWitness.v ===== *)
(** The theorems on Tendermint at concrete runs: three of four validators commit the block that the
    fourth has proposed. *)
From stdpp Require Import base gmap list numbers.
From Stdlib Require Import NArith ZArith Lia.
From S2P Require Import Prelude Types Crypto Rlp RlpImpls TxHash BTree StakeData StakeAction Header BitSet.
From S2P Require Import TmMessage VoteCollector Validators Quorum TmWorker TmRun TmTrace TmSafety TmAgreement.
From S2P Require Import TmScenario.

Local Open Scope N_scope.

Import Scenario.

Definition nodes : list Node := node <$> [1; 2; 3].

(** * Runs *)

(** Events that are fine whenever they come. *)
Lemma run_ok_any h parent self elected gap me backed windowed events w :
  Forall (λ e, client_ok h parent self elected gap backed windowed e.1 ∧
               ∀ w, event_ok h self elected me backed e.1 e.2 w) events →
  run_ok h parent self elected gap me backed windowed events w.
Proof.
  intros He. revert w. induction He as [|[c event] events [Hc Hev] He IH]; intros w; cbn [run_ok]; [done|].
  split; [done|]. split; [apply Hev|]. destruct (handle c event w) as [[]?]; [apply IH|done|done].
Qed.

(** What is found in the trace of a node. *)
Definition signs (on : VoteOn) (t : list Out) : bool :=
  existsb (λ o, match o with SignVote on' => bool_decide (on = on') | _ => false end) t.
Definition views_ok (t : list Out) : bool :=
  forallb (λ o, match o with Net (SetTimerStep _ v _) => v + 1 <? u64_size | _ => true end) t.

Lemma signs_in on t : signs on t = true → SignVote on ∈ t.
Proof.
  intros (o & Ho & He)%existsb_exists. destruct o; try done. apply bool_decide_eq_true in He as ->.
  by apply list_elem_of_In.
Qed.

Lemma views_ok_in t : views_ok t = true → ∀ s v nonce, Net (SetTimerStep s v nonce) ∈ t → v + 1 < u64_size.
Proof.
  intros Ht s v nonce Hin%list_elem_of_In. apply (proj1 (forallb_forall _ _) Ht) in Hin. by apply N.ltb_lt.
Qed.

Definition run_test (i : N) : bool :=
  let t := w_trace (final keys (node i)) in
  views_ok t && signs (prevote (Some hash1)) t && signs (precommit (Some hash1)) t.

Lemma runs_tested : forallb run_test [1; 2; 3] = true.
Proof. vm_compute. reflexivity. Qed.

Lemma run_tested i : i ∈ [1; 2; 3] → run_test i = true.
Proof. intros Hi%list_elem_of_In. exact (proj1 (forallb_forall _ _) runs_tested i Hi). Qed.

#[local] Opaque exec.

Lemma elem_of_nodes n : n ∈ nodes ↔ ∃ i, i ∈ [1; 2; 3] ∧ n = node i.
Proof. unfold nodes. rewrite list_elem_of_fmap. split; intros (i & ? & ?); eauto. Qed.

Lemma key_inj i j : key i = key j → i = j.
Proof. intros He. apply (f_equal head) in He. cbn in He. injection He as ?. lia. Qed.

Lemma keys_lookup j q : keys !! N.to_nat j = Some q → q = key j.
Proof.
  destruct (N.to_nat j) as [|[|[|[|]]]] eqn:Hj; intros Hk; [injection Hk as <-..|done];
    unfold key; do 2 f_equal; lia.
Qed.

Lemma members_node j n : keys !! N.to_nat j = Some (nd_public n) → n ∈ nodes → n = node j ∧ j ∈ [1; 2; 3].
Proof.
  intros Hk%keys_lookup (i & Hi & ->)%elem_of_nodes. cbn in Hk. by apply key_inj in Hk as ->.
Qed.

(** The nodes have cast the votes that are delivered. *)
Lemma votes_cast j on : on = prevote (Some hash1) ∨ on = precommit (Some hash1) → cast keys None nodes j on.
Proof.
  intros Hon n Hn Hj. destruct (members_node j n Hj Hn) as [-> Hj3]. pose proof (run_tested j Hj3) as Ht. unfold run_test in Ht. cbv zeta in Ht.
  apply andb_prop in Ht as [[_ Hpv]%andb_prop Hpc]. destruct Hon as [-> | ->]; apply signs_in; [exact Hpv|exact Hpc].
Qed.

Lemma after_import_ok windowed backed : client_ok 1 hash0 keys None gap backed windowed after_import.
Proof.
  split.
  - intros rlp Hr. assert (rlp = st_header stored0) as -> by (revert Hr; vm_compute; congruence).
    vm_compute. reflexivity.
  - vm_compute. reflexivity.
  - intros v b block header _ _ Hb Hd.
    assert (block = st_block stored0 ∨ block = st_block stored1) as Hblock.
    { cbn in Hb. unfold List.find in Hb. repeat case_bool_decide; cbn in Hb; try done; injection Hb as <-; auto. }
    destruct Hblock as [-> | ->]; (vm_compute in Hd; injection Hd as <-; vm_compute; reflexivity).
Qed.

Lemma before_import_ok windowed backed : client_ok 1 hash0 keys None gap backed windowed before_import.
Proof.
  destruct (after_import_ok windowed backed) as [Hp Hc Hf]. split; [exact Hp|exact Hc|].
  intros v b block header Hw Hv Hb. apply (Hf v b block header Hw Hv). cbn in *.
  unfold List.find in *. by repeat case_bool_decide.
Qed.

Lemma vote_decodes j on :
  decode ConsensusMessage_codec (vote_bytes j on) = Ok (vote_of j on) →
  on = prevote (Some hash1) ∨ on = precommit (Some hash1) →
  message_ok 1 keys None (cast keys None nodes) (vote_bytes j on).
Proof.
  intros Hd Hon m q Hm _ _ _ _. rewrite Hd in Hm. injection Hm as <-. by apply votes_cast.
Qed.

Lemma votes_decode :
  forallb (λ j, forallb (λ on, bool_decide
      (decode ConsensusMessage_codec (vote_bytes j on) = Ok (vote_of j on)))
    [prevote (Some hash1); precommit (Some hash1)]) [1; 2; 3] = true.
Proof. vm_compute. reflexivity. Qed.

Lemma delivered_ok i on bs :
  on = prevote (Some hash1) ∨ on = precommit (Some hash1) →
  bs ∈ (λ j, vote_bytes j on) <$> filter (λ j, j ≠ i) [1; 2; 3] →
  message_ok 1 keys None (cast keys None nodes) bs.
Proof.
  intros Hon (j & -> & [_ Hj%list_elem_of_In]%list_elem_of_filter)%list_elem_of_fmap.
  apply vote_decodes; [|done]. pose proof (proj1 (forallb_forall _ _) votes_decode j Hj) as Hd. cbv beta in Hd.
  pose proof (proj1 (forallb_forall _ _) Hd on) as Ho. apply bool_decide_eq_true in Ho; [exact Ho|].
  destruct Hon as [-> | ->]; [by left|by right; left].
Qed.

(** The events of a run, given what the messages have to be. *)
Lemma events_ok i windowed backed :
  (∀ bs on, on = prevote (Some hash1) ∨ on = precommit (Some hash1) →
     bs ∈ (λ j, vote_bytes j on) <$> filter (λ j, j ≠ i) [1; 2; 3] → message_ok 1 keys None backed bs) →
  Forall (λ e, client_ok 1 hash0 keys None gap backed windowed e.1 ∧
               ∀ w, event_ok 1 keys None (key i) backed e.1 e.2 w) (events i).
Proof.
  intros Hm. unfold events. cbv zeta. repeat apply Forall_cons_2; [..|constructor]; cbn [fst snd].
  - split; [apply before_import_ok|done].
  - split; [apply before_import_ok|done].
  - split; [apply after_import_ok|]. intros w w' _ _. cbn. lia.
  - split; [apply after_import_ok|]. intros w bs Hbs. by eapply Hm; [left|].
  - split; [apply after_import_ok|]. intros w bs Hbs. by eapply Hm; [right|].
Qed.

Lemma network_ok : network 1 hash0 keys None nodes.
Proof.
  split.
  - done.
  - vm_compute. reflexivity.
  - change (NoDup (key <$> [1; 2; 3])). apply NoDup_fmap_2; [exact key_inj|].
    apply (bool_decide_unpack (NoDup [1; 2; 3])). vm_compute. exact I.
  - intros n (i & Hi & ->)%elem_of_nodes. apply run_ok_any, events_ok.
    intros bs on Hon Hbs. exact (delivered_ok i on bs Hon Hbs).
  - intros n (i & Hi & ->)%elem_of_nodes. apply views_ok_in. pose proof (run_tested i Hi) as Ht.
    unfold run_test in Ht. cbv zeta in Ht. apply andb_prop in Ht as [[Ht _]%andb_prop _]. exact Ht.
  - vm_compute. discriminate.
Qed.

(** * Headers on top of the block *)

Definition certified : list (N * SchnorrSignature) := (λ i, (i, sig_of i (precommit (Some hash1)))) <$> [1; 2; 3].
Definition header2 (timestamp : N) : Header := header hash1 2 timestamp 1 (seal 0 0 certified).
Definition verifying : Client := client 0 100 [stored0; stored1] [stored0; stored1].

Lemma header2_verifier timestamp :
  verifier 1 hash0 keys None verifying (Worker_new keys gap None) (header2 timestamp).
Proof.
  split; [done|done|vm_compute; reflexivity|]. intros rlp Hr.
  assert (rlp = st_header stored1) as -> by (revert Hr; vm_compute; congruence). vm_compute. reflexivity.
Qed.

Lemma header2_seal timestamp :
  seal_signatures TmDecoder (hd_seal (header2 timestamp)) = Ok certified ∧
  previous_block_view TmDecoder (hd_seal (header2 timestamp)) = Ok 0.
Proof. vm_compute. done. Qed.

Lemma header2_honest timestamp : honest_seal 1 keys None nodes (header2 timestamp).
Proof.
  destruct (header2_seal timestamp) as [Hs Hv]. split.
  - intros sigs i sig Hsigs. rewrite Hs in Hsigs. injection Hsigs as <-.
    intros (j & [= -> _] & Hj)%list_elem_of_fmap. rewrite !elem_of_cons, elem_of_nil in Hj.
    by destruct Hj as [->|[->|[->|[]]]].
  - intros sigs pv i sig n _ _ Hpv Hn Hi on _. rewrite Hv in Hpv. injection Hpv as <-.
    apply (votes_cast i); [by right|done|exact Hi].
Qed.

Lemma header2_accepted :
  (verify_block_external verifying (header2 110) (Worker_new keys gap None)).1 = Ok tt ∧
  (verify_block_external verifying (header2 111) (Worker_new keys gap None)).1 = Ok tt.
Proof. vm_compute. done. Qed.

Lemma accepted_headers_agree_witness : hd_parent_hash (header2 110) = hd_parent_hash (header2 111).
Proof.
  apply (accepted_headers_agree 1 hash0 keys None nodes verifying verifying (Worker_new keys gap None)
    (Worker_new keys gap None)).
  - apply network_ok.
  - apply header2_verifier.
  - apply header2_verifier.
  - apply header2_honest.
  - apply header2_honest.
  - apply header2_accepted.
  - apply header2_accepted.
Defined.

(** * One node *)

Lemma steady : steady_run 1 hash0 keys None gap (key 1) (events 1).
Proof.
  split; [done|]. split; [vm_compute; reflexivity|]. split.
  - apply run_ok_any, events_ok. by intros bs on _ _ m q.
  - apply views_ok_in. pose proof (run_tested 1 ltac:(by left)) as Ht.
    unfold run_test in Ht. cbv zeta in Ht. apply andb_prop in Ht as [[Ht _]%andb_prop _]. exact Ht.
Qed.

Lemma signed_prevote : SignVote (prevote (Some hash1)) ∈ w_trace (exec (events 1) (Worker_new keys gap None)).
Proof.
  apply signs_in. pose proof (run_tested 1 ltac:(by left)) as Ht.
  unfold run_test in Ht. cbv zeta in Ht. apply andb_prop in Ht as [[_ Ht]%andb_prop _]. exact Ht.
Qed.

Lemma votes_once_witness : Some hash1 = Some hash1.
Proof.
  apply (votes_once 1 hash0 keys None gap (key 1) (events 1) 0 Prevote);
    [exact steady|by left|exact signed_prevote|exact signed_prevote].
Defined.

(** * Events, messages and votes *)

Lemma event_handled_witness :
  (∃ replies w', handle after_import (NewBlocks [hash1] []) (Worker_new keys gap None) = (Ok replies, w')) ∨
  (handle after_import (NewBlocks [hash1] []) (Worker_new keys gap None)).1 = Panic.
Proof. apply event_handled. vm_compute. reflexivity. Defined.

#[local] Instance snappy_laws : SnappyLaws.
Proof. by constructor. Qed.
#[local] Instance order_laws : HashOrderLaws.
Proof. by constructor. Qed.

Definition message : TendermintMessage :=
  TmStepState (vo_step (prevote (Some hash1))) (Some hash1) None (replicate 100 5).

Lemma TendermintMessage_roundtrip_witness :
  ∃ bs, drain (TendermintMessage_append message) = Ok bs ∧ TendermintMessage_decode bs = Ok message.
Proof.
  apply TendermintMessage_roundtrip; [|vm_compute; reflexivity].
  repeat split; vm_compute; reflexivity.
Defined.

Lemma TendermintMessage_typed_witness : TendermintMessage_decode [193; 3] ≠ Panic.
Proof.
  apply (TendermintMessage_typed [193; 3]). repeat constructor.
Defined.

Lemma votes_counted_once_witness :
  is_Some (vc_vote (collected [vote_of 1 (prevote None); vote_of 2 (prevote None)])
    (vote_of 1 (prevote (Some hash1)))).2.
Proof.
  apply (votes_counted_once (E:=()) _ (vo_step (prevote None))).
  - intros m Hm. rewrite !elem_of_cons, elem_of_nil in Hm. by destruct Hm as [->|[->|[]]].
  - split; [rewrite !elem_of_cons, elem_of_nil; intros [He|[He|[]]]; discriminate He|].
    exists (vote_of 1 (prevote None)). split; [by left|done].
Defined.

(** A block with an empty seal and one payment. *)
Definition seal_items : list rlp_item := [Data []; Data []; List []; Data (replicate 100 0)].
Definition paid : UnverifiedTransaction := UnverifiedTransaction_new HashWitness.payment (replicate 65 1).
Definition payment_block : ChainBlock := {| cb_header := block1; cb_transactions := [paid] |}.

Lemma Block_roundtrip_witness :
  ∃ b, Block_decode (Block_rlp_bytes payment_block With) = Ok b ∧
    cb_transactions b = [paid] ∧ Header_rlp (cb_header b) With = Header_rlp block1 With ∧
    hd_hash_memo (cb_header b) = Some (Header_hash block1).
Proof.
  apply (Block_roundtrip payment_block seal_items).
  - split; [repeat split; vm_compute; reflexivity|].
    repeat constructor; try discriminate; vm_compute; reflexivity.
  - exact I.
  - vm_compute. reflexivity.
Defined.
