(* ===== verification/TmFindings.v ===== *)
(** What the conditions of the theorems on Tendermint are for: runs of the worker, on the network of
    [TmScenario], in which one of them does not hold. *)
From stdpp Require Import base gmap list numbers.
From Stdlib Require Import NArith ZArith Lia.
From S2P Require Import Prelude Types Crypto Rlp RlpImpls TxHash BTree StakeData StakeAction Header BitSet.
From S2P Require Import TmMessage VoteCollector Validators Quorum TmWorker TmRun TmTrace TmSafety TmAgreement.
From S2P Require Import TmScenario.

Local Open Scope N_scope.

Import Scenario.



(** * A lock that the clock breaks *)

Module Clock.

(** The time has passed at which block 1 may still be voted for, and validator 2 proposes another. *)
Definition rival : Header := Eval vm_compute in header hash0 1 240 2 (seal 0 2 []).
Definition stored_rival : Stored := Eval vm_compute in store rival.


Definition verifying : Client := client 0 250 [stored0; stored1; stored_rival] [stored0].
End Clock.

(** * Votes that are signed twice *)

Module Twice.


End Twice.

(** * Seals and messages *)

Module Seals.

(** The initial validators, and a client that knows the blocks. *)
Definition verifying : Client := client 0 110 [stored0; stored1] [stored0; stored1].



End Seals.




