(* ===== verification/MemPoolTypes.v ===== *)
(** What the memory pool is built from: origins, timelocks, the order of transactions, items with their
    encoding, the two queues, tables and the backup (core/src/miner/mem_pool_types.rs and backup.rs,
    util/table/src/lib.rs). *)
From stdpp Require Import base gmap list numbers strings.
From Stdlib Require Import NArith Lia.
From S2P Require Import Prelude Types Crypto Rlp RlpImpls TxHash BTree Header.

Local Open Scope N_scope.

(** * Origins and timelocks *)

Inductive TxOrigin := Local | External | RetractedBlock.
#[export] Instance TxOrigin_eq_dec : EqDecision TxOrigin.
Proof. solve_decision. Defined.

(** [impl Ord for TxOrigin] *)
#[export] Instance TxOrigin_compare : Compare TxOrigin := λ self other,
  if bool_decide (other = self) then Eq
  else
    match self, other with
    | RetractedBlock, _ => Lt
    | _, RetractedBlock => Gt
    | Local, _ => Lt
    | _, _ => Gt
    end.

Definition is_local (self : TxOrigin) : bool := bool_decide (self = Local).
Definition is_local_or_retracted (self : TxOrigin) : bool :=
  bool_decide (self = Local) || bool_decide (self = RetractedBlock).
Definition is_external (self : TxOrigin) : bool := bool_decide (self = External).

(** [impl Encodable for TxOrigin], [impl Decodable for TxOrigin] *)
Definition origin_id (self : TxOrigin) : N :=
  match self with Local => 1 | External => 2 | RetractedBlock => 3 end.
Definition TxOrigin_append (self : TxOrigin) : strm () := rlp_append u8_codec (origin_id self).
Definition TxOrigin_decode (d : bytes) : rlpR TxOrigin :=
  match decode u8_codec d with
  | Ok 1 => Ok Local
  | Ok 2 => Ok External
  | Ok 3 => Ok RetractedBlock
  | Ok _ => Err (RlpError.Custom "Unexpected Txorigin type")
  | _ => Panic
  end.

Record TxTimelock := { tl_block : option BlockNumber; tl_timestamp : option N }.
#[export] Instance TxTimelock_eq_dec : EqDecision TxTimelock.
Proof. solve_decision. Defined.

Definition TxTimelock_append (self : TxTimelock) : strm () :=
  rlp_list 2 [app (option_codec u64_codec) (tl_block self); app (option_codec u64_codec) (tl_timestamp self)].
Definition TxTimelock_decode (rlp : bytes) : rlpR TxTimelock :=
  block ← val_at (decode (option_codec u64_codec)) rlp 0;
  timestamp ← val_at (decode (option_codec u64_codec)) rlp 1;
  Ok {| tl_block := block; tl_timestamp := timestamp |}.

(** * Orders of comparison *)

(** Lexicographic comparison of pairs, [None] before [Some], and the comparison turned around. *)
#[export] Instance pair_compare {A B : Type} `{Compare A, Compare B} : Compare (A * B) := λ a b,
  match cmp a.1 b.1 with Eq => cmp a.2 b.2 | c => c end.
#[export] Instance option_compare {A : Type} `{Compare A} : Compare (option A) := λ a b,
  match a, b with
  | None, None => Eq
  | None, Some _ => Lt
  | Some _, None => Gt
  | Some a, Some b => cmp a b
  end.
Record Rev := mkRev { unrev : N }.
#[export] Instance Rev_compare : Compare Rev := λ a b, cmp (unrev b) (unrev a).

Lemma cmp_pair {A B : Type} `{Compare A, Compare B} (a1 b1 : A) (a2 b2 : B) :
  cmp (a1, a2) (b1, b2) = match cmp a1 b1 with Eq => cmp a2 b2 | c => c end.
Proof. done. Qed.

#[export] Instance pair_compare_ok {A B : Type} `{CompareOk A, CompareOk B} : CompareOk (A * B).
Proof.
  split.
  - intros [a1 a2] [b1 b2]. rewrite cmp_pair. destruct (cmp a1 b1) eqn:E.
    + apply cmp_eq in E as ->. rewrite cmp_eq. split; congruence.
    + split; [done|]. intros [= -> ->]. by rewrite cmp_refl in E.
    + split; [done|]. intros [= -> ->]. by rewrite cmp_refl in E.
  - intros [a1 a2] [b1 b2]. rewrite !cmp_pair, (cmp_opp a1 b1).
    destruct (cmp a1 b1); simpl; [apply cmp_opp|done..].
  - intros [a1 a2] [b1 b2] [c1 c2]. rewrite !cmp_pair.
    destruct (cmp a1 b1) eqn:E1; [|destruct (cmp b1 c1) eqn:E2|done]; [|..|done].
    + apply cmp_eq in E1 as ->. destruct (cmp b1 c1); [apply cmp_trans|done..].
    + apply cmp_eq in E2 as ->. by rewrite E1.
    + by rewrite (cmp_trans _ _ _ E1 E2).
Qed.

#[export] Instance option_compare_ok {A : Type} `{CompareOk A} : CompareOk (option A).
Proof.
  assert (∀ a b : A, cmp (Some a) (Some b) = cmp a b) as Hs by done. split.
  - intros [a|] [b|]; try done. rewrite Hs, cmp_eq. split; congruence.
  - intros [a|] [b|]; try done. rewrite !Hs. apply cmp_opp.
  - intros [a|] [b|] [c|]; try done. rewrite !Hs. apply cmp_trans.
Qed.

#[export] Instance Rev_compare_ok : CompareOk Rev.
Proof.
  assert (∀ a b : N, cmp (mkRev a) (mkRev b) = cmp b a) as Hs by done. split.
  - intros [a] [b]. rewrite Hs, cmp_eq. split; congruence.
  - intros [a] [b]. rewrite !Hs. apply cmp_opp.
  - intros [a] [b] [c]. rewrite !Hs. intros H1 H2. by eapply cmp_trans.
Qed.

#[export] Instance TxOrigin_compare_ok : CompareOk TxOrigin.
Proof. split; [intros [] []..|intros [] [] []]; done. Qed.

(** * Items *)

Record MemPoolItem := {
  mi_tx : SignedTransaction;
  mi_origin : TxOrigin;
  mi_inserted_block_number : BlockNumber;
  mi_inserted_timestamp : N;
  mi_insertion_id : N;
  mi_timelock : TxTimelock;
}.

Definition stx_unsigned (tx : SignedTransaction) : Transaction := utx_unsigned (stx_tx tx).
Definition stx_hash (tx : SignedTransaction) : H256 := utx_hash (stx_tx tx).
(** [impl Encodable for SignedTransaction] *)
Definition SignedTransaction_append (tx : SignedTransaction) : strm () :=
  rlp_append_sealed_transaction (stx_unsigned tx) (utx_sig (stx_tx tx)).

Definition mi_hash (self : MemPoolItem) : H256 := stx_hash (mi_tx self).
Definition mi_seq (self : MemPoolItem) : N := tx_seq (stx_unsigned (mi_tx self)).
Definition mi_signer_public (self : MemPoolItem) : Public := stx_signer_public (mi_tx self).
Definition mi_fee (self : MemPoolItem) : N := tx_fee (stx_unsigned (mi_tx self)).

Definition mi_cost (self : MemPoolItem) : N :=
  match tx_action (stx_unsigned (mi_tx self)) with
  | Action.Pay _ quantity => u64_add (mi_fee self) quantity
  | Action.WrapCCC _ _ _ quantity _ => u64_add (mi_fee self) quantity
  | _ => mi_fee self
  end.

Definition mi_expiration (self : MemPoolItem) : option N :=
  match tx_action (stx_unsigned (mi_tx self)) with
  | Action.TransferAsset _ _ _ _ _ _ _ expiration => expiration
  | _ => None
  end.

Definition MemPoolItem_append (self : MemPoolItem) : strm () :=
  rlp_list 6
    [append (SignedTransaction_append (mi_tx self)); append (TxOrigin_append (mi_origin self));
     app u64_codec (mi_inserted_block_number self); app u64_codec (mi_inserted_timestamp self);
     app u64_codec (mi_insertion_id self); append (TxTimelock_append (mi_timelock self))].

Definition MemPoolItem_decode `{Crypto} (rlp : bytes) : rlpR MemPoolItem :=
  tx ← val_at SignedTransaction_decode rlp 0;
  origin ← val_at TxOrigin_decode rlp 1;
  inserted_block_number ← val_at (decode u64_codec) rlp 2;
  inserted_timestamp ← val_at (decode u64_codec) rlp 3;
  insertion_id ← val_at (decode u64_codec) rlp 4;
  timelock ← val_at TxTimelock_decode rlp 5;
  Ok {| mi_tx := tx; mi_origin := origin; mi_inserted_block_number := inserted_block_number;
        mi_inserted_timestamp := inserted_timestamp; mi_insertion_id := insertion_id;
        mi_timelock := timelock |}.

(** [backup]: the column of the pool in the database, and a transaction on it. *)
Abbreviation Db := (gmap bytes bytes).
Abbreviation Batch := (list (bytes * option bytes)).

Definition PREFIX_ITEM : bytes := [105; 116; 101; 109; 95].
Definition db_key (hash : H256) : bytes := PREFIX_ITEM ++ hash.
Definition backup_item (batch : Batch) (key : H256) (item : MemPoolItem) : Batch :=
  batch ++ [(db_key key, Some (rlp_bytes (MemPoolItem_append item)))].
Definition remove_item (batch : Batch) (key : H256) : Batch := batch ++ [(db_key key, None)].
Definition db_write (db : Db) (batch : Batch) : Db :=
  foldl (λ db '(key, value), match value with Some value => <[key := value]> db | None => delete key db end)
    db batch.

(** [recover_to_data], over the column as it is walked. *)
Definition recover_to_data `{Crypto} {E : Type} (db : list (bytes * bytes)) : result E (gmap H256 MemPoolItem) :=
  fold_res (λ by_hash '(key, value),
    item ← Rlp_as_val MemPoolItem_decode value;
    Ok (<[drop 5 key := item]> by_hash)) ∅ db.

(** * The order of transactions *)

Record TransactionOrder := {
  to_seq_height : N;
  to_fee : N;
  to_fee_per_byte : N;
  to_mem_usage : N;
  to_hash : H256;
  to_insertion_id : N;
  to_origin : TxOrigin;
  to_timelock : TxTimelock;
}.

Definition for_transaction (item : MemPoolItem) (seq_seq : N) : TransactionOrder :=
  let rlp_bytes_len := len (rlp_bytes (SignedTransaction_append (mi_tx item))) in
  let fee := mi_fee item in
  {| to_seq_height := u64_sub (mi_seq item) seq_seq; to_fee := fee; to_mem_usage := rlp_bytes_len;
     to_fee_per_byte := fee / rlp_bytes_len; to_hash := mi_hash item;
     to_insertion_id := mi_insertion_id item; to_origin := mi_origin item;
     to_timelock := mi_timelock item |}.

Definition update_height (self : TransactionOrder) (seq base_seq : N) : TransactionOrder := {|
  to_seq_height := u64_sub seq base_seq; to_fee := to_fee self; to_fee_per_byte := to_fee_per_byte self;
  to_mem_usage := to_mem_usage self; to_hash := to_hash self; to_insertion_id := to_insertion_id self;
  to_origin := to_origin self; to_timelock := to_timelock self |}.

Definition change_origin (self : TransactionOrder) (origin : TxOrigin) : TransactionOrder := {|
  to_seq_height := to_seq_height self; to_fee := to_fee self; to_fee_per_byte := to_fee_per_byte self;
  to_mem_usage := to_mem_usage self; to_hash := to_hash self; to_insertion_id := to_insertion_id self;
  to_origin := origin; to_timelock := to_timelock self |}.

(** What [impl Ord for TransactionOrder] compares, in its order: the fee is compared the other way
    around.  The hash and the memory usage do not take part. *)
Abbreviation OrderKey := (TxOrigin * (N * (N * (Rev * ((option BlockNumber * option N) * N)))))%type.
Definition order_key (self : TransactionOrder) : OrderKey :=
  (to_origin self,
   (to_seq_height self,
    (to_fee_per_byte self,
     (mkRev (to_fee self),
      ((tl_block (to_timelock self), tl_timestamp (to_timelock self)),
       to_insertion_id self))))).

(** [BTreeSet<TransactionOrder>]: an element that compares equal to one of the set is not inserted. *)
Abbreviation OrderSet := (list (OrderKey * TransactionOrder)).
Definition set_insert (self : OrderSet) (order : TransactionOrder) : OrderSet :=
  match bt_get self (order_key order) with
  | Some _ => self
  | None => bt_insert self (order_key order) order
  end.

Inductive QueueTag := Current | Future | New.
#[export] Instance QueueTag_eq_dec : EqDecision QueueTag.
Proof. solve_decision. Defined.

Record TransactionOrderWithTag := { ot_order : TransactionOrder; ot_tag : QueueTag }.

(** * Queues *)

Record CurrentQueue := {
  cq_queue : OrderSet;
  cq_fee_counter : list (N * N);
  cq_mem_usage : N;
  cq_count : N;
}.

Definition CurrentQueue_new : CurrentQueue :=
  {| cq_queue := []; cq_fee_counter := []; cq_mem_usage := 0; cq_count := 0 |}.

Definition cq_insert (self : CurrentQueue) (order : TransactionOrder) : CurrentQueue :=
  let external := negb (is_local_or_retracted (to_origin order)) in
  {| cq_queue := set_insert (cq_queue self) order;
     cq_mem_usage := if external then u64_add (cq_mem_usage self) (to_mem_usage order) else cq_mem_usage self;
     cq_count := if external then u64_add (cq_count self) 1 else cq_count self;
     cq_fee_counter := bt_insert (cq_fee_counter self) (to_fee order)
                         (u64_add (default 0 (bt_get (cq_fee_counter self) (to_fee order))) 1) |}.

Definition cq_remove {E : Type} (self : CurrentQueue) (order : TransactionOrder) : result E CurrentQueue :=
  _ ← assert (bool_decide (is_Some (bt_get (cq_queue self) (order_key order))));
  let external := negb (is_local_or_retracted (to_origin order)) in
  counter ← expect (bt_get (cq_fee_counter self) (to_fee order));
  let counter := u64_sub counter 1 in
  Ok {| cq_queue := bt_remove (cq_queue self) (order_key order);
        cq_mem_usage := if external then u64_sub (cq_mem_usage self) (to_mem_usage order) else cq_mem_usage self;
        cq_count := if external then u64_sub (cq_count self) 1 else cq_count self;
        cq_fee_counter := if negb (counter =? 0) then bt_insert (cq_fee_counter self) (to_fee order) counter
                          else bt_remove (cq_fee_counter self) (to_fee order) |}.

Definition cq_minimum_fee (self : CurrentQueue) : N :=
  match cq_fee_counter self with [] => 0 | (k, _) :: _ => u64_add k 1 end.

Record FutureQueue := {
  fq_queue : OrderSet;
  fq_mem_usage : N;
  fq_count : N;
}.

Definition FutureQueue_new : FutureQueue := {| fq_queue := []; fq_mem_usage := 0; fq_count := 0 |}.

Definition fq_insert (self : FutureQueue) (order : TransactionOrder) : FutureQueue :=
  let external := negb (is_local_or_retracted (to_origin order)) in
  {| fq_queue := set_insert (fq_queue self) order;
     fq_mem_usage := if external then u64_add (fq_mem_usage self) (to_mem_usage order) else fq_mem_usage self;
     fq_count := if external then u64_add (fq_count self) 1 else fq_count self |}.

Definition fq_remove {E : Type} (self : FutureQueue) (order : TransactionOrder) : result E FutureQueue :=
  _ ← assert (bool_decide (is_Some (bt_get (fq_queue self) (order_key order))));
  let external := negb (is_local_or_retracted (to_origin order)) in
  Ok {| fq_queue := bt_remove (fq_queue self) (order_key order);
        fq_mem_usage := if external then u64_sub (fq_mem_usage self) (to_mem_usage order) else fq_mem_usage self;
        fq_count := if external then u64_sub (fq_count self) 1 else fq_count self |}.

(** * Tables *)

Abbreviation Table Row Col Val := (gmap Row (gmap Col Val)).

Section Tables.
Context {Row Col Val : Type} `{Countable Row, Countable Col}.
Implicit Type self : Table Row Col Val.

(** The rows of a table, in the order of [walk]. *)
Definition tb_len self : N := sum_with (λ '(_, row), N.of_nat (size row)) (map_to_list self).
Definition tb_get self (row : Row) (col : Col) : option Val := self !! row ≫= (.!! col).

Definition tb_remove self (row : Row) (col : Col) : option Val * Table Row Col Val :=
  match self !! row with
  | None => (None, self)
  | Some row_map =>
      let rest := delete col row_map in
      (row_map !! col, if bool_decide (rest = ∅) then delete row self else <[row := rest]> self)
  end.

Definition tb_clear_if_empty self (row : Row) : bool * Table Row Col Val :=
  let is_empty := match self !! row with Some r => bool_decide (r = ∅) | None => false end in
  (is_empty, if is_empty then delete row self else self).

Definition tb_insert self (row : Row) (col : Col) (val : Val) : option Val * Table Row Col Val :=
  let row_map := default ∅ (self !! row) in
  (row_map !! col, <[row := <[col := val]> row_map]> self).
End Tables.
