(* ===== verification/MemPool.v ===== *)
(** The memory pool: transactions that wait for a block, in two queues, indexed by hash and by signer and
    sequence number (core/src/miner/mem_pool.rs). *)
From stdpp Require Import base gmap list numbers strings.
From Stdlib Require Import NArith Lia.
From S2P Require Import Prelude Types Crypto Rlp RlpImpls TxHash BTree Header VoteCollector MemPoolTypes.

Local Open Scope N_scope.

(** [mem_pool::Error], with the errors that it can be. *)
Inductive PoolError :=
| TransactionAlreadyImported
| Old
| TooCheapToReplace
| LimitReached
| InsufficientFee (minimal got : N)
| InsufficientBalance (address : Address) (cost balance : N).

Inductive TransactionImportResult := ImportCurrent | ImportFuture.

Record AccountDetails := { ad_seq : N; ad_balance : N }.
Record MemPoolInput := { in_transaction : SignedTransaction; in_origin : TxOrigin; in_timelock : TxTimelock }.

Definition DEFAULT_POOLING_PERIOD : BlockNumber := 128.

Record MemPool := {
  mp_minimal_fee : N;
  mp_fee_bump_shift : N;
  mp_max_block_number_period_in_pool : BlockNumber;
  mp_current : CurrentQueue;
  mp_future : FutureQueue;
  mp_by_signer_public : Table Public N TransactionOrderWithTag;
  mp_queue_count_limit : N;
  mp_queue_memory_limit : N;
  mp_by_hash : gmap H256 MemPoolItem;
  mp_first_seqs : gmap Public N;
  mp_next_seqs : gmap Public N;
  mp_is_local_account : gset Public;
  mp_last_block_number : BlockNumber;
  mp_last_timestamp : N;
  mp_next_transaction_id : N;
  mp_db : Db;
}.

Definition with_limits (limit memory_limit fee_bump_shift : N) (db : Db) : MemPool := {|
  mp_minimal_fee := 0; mp_fee_bump_shift := fee_bump_shift;
  mp_max_block_number_period_in_pool := DEFAULT_POOLING_PERIOD; mp_current := CurrentQueue_new;
  mp_future := FutureQueue_new; mp_by_signer_public := ∅; mp_queue_count_limit := limit;
  mp_queue_memory_limit := memory_limit; mp_by_hash := ∅; mp_first_seqs := ∅; mp_next_seqs := ∅;
  mp_is_local_account := ∅; mp_last_block_number := 0; mp_last_timestamp := 0;
  mp_next_transaction_id := 0; mp_db := db |}.

(** The pool with other indices: the queues, the table and the items. *)
Definition set_indices (current : CurrentQueue) (future : FutureQueue)
  (by_signer_public : Table Public N TransactionOrderWithTag) (by_hash : gmap H256 MemPoolItem)
  (p : MemPool) : MemPool := {|
  mp_minimal_fee := mp_minimal_fee p; mp_fee_bump_shift := mp_fee_bump_shift p;
  mp_max_block_number_period_in_pool := mp_max_block_number_period_in_pool p; mp_current := current;
  mp_future := future; mp_by_signer_public := by_signer_public;
  mp_queue_count_limit := mp_queue_count_limit p; mp_queue_memory_limit := mp_queue_memory_limit p;
  mp_by_hash := by_hash; mp_first_seqs := mp_first_seqs p; mp_next_seqs := mp_next_seqs p;
  mp_is_local_account := mp_is_local_account p; mp_last_block_number := mp_last_block_number p;
  mp_last_timestamp := mp_last_timestamp p; mp_next_transaction_id := mp_next_transaction_id p;
  mp_db := mp_db p |}.
(** The pool with other sequence numbers and other local accounts. *)
Definition set_accounts (first_seqs next_seqs : gmap Public N) (is_local_account : gset Public)
  (p : MemPool) : MemPool := {|
  mp_minimal_fee := mp_minimal_fee p; mp_fee_bump_shift := mp_fee_bump_shift p;
  mp_max_block_number_period_in_pool := mp_max_block_number_period_in_pool p; mp_current := mp_current p;
  mp_future := mp_future p; mp_by_signer_public := mp_by_signer_public p;
  mp_queue_count_limit := mp_queue_count_limit p; mp_queue_memory_limit := mp_queue_memory_limit p;
  mp_by_hash := mp_by_hash p; mp_first_seqs := first_seqs; mp_next_seqs := next_seqs;
  mp_is_local_account := is_local_account; mp_last_block_number := mp_last_block_number p;
  mp_last_timestamp := mp_last_timestamp p; mp_next_transaction_id := mp_next_transaction_id p;
  mp_db := mp_db p |}.
(** The pool with another clock, another next id and another database. *)
Definition set_clock (last_block_number : BlockNumber) (last_timestamp next_transaction_id : N) (db : Db)
  (p : MemPool) : MemPool := {|
  mp_minimal_fee := mp_minimal_fee p; mp_fee_bump_shift := mp_fee_bump_shift p;
  mp_max_block_number_period_in_pool := mp_max_block_number_period_in_pool p; mp_current := mp_current p;
  mp_future := mp_future p; mp_by_signer_public := mp_by_signer_public p;
  mp_queue_count_limit := mp_queue_count_limit p; mp_queue_memory_limit := mp_queue_memory_limit p;
  mp_by_hash := mp_by_hash p; mp_first_seqs := mp_first_seqs p; mp_next_seqs := mp_next_seqs p;
  mp_is_local_account := mp_is_local_account p; mp_last_block_number := last_block_number;
  mp_last_timestamp := last_timestamp; mp_next_transaction_id := next_transaction_id; mp_db := db |}.
(** The pool with other limits. *)
Definition set_limits (minimal_fee queue_count_limit : N) (p : MemPool) : MemPool := {|
  mp_minimal_fee := minimal_fee; mp_fee_bump_shift := mp_fee_bump_shift p;
  mp_max_block_number_period_in_pool := mp_max_block_number_period_in_pool p; mp_current := mp_current p;
  mp_future := mp_future p; mp_by_signer_public := mp_by_signer_public p;
  mp_queue_count_limit := queue_count_limit; mp_queue_memory_limit := mp_queue_memory_limit p;
  mp_by_hash := mp_by_hash p; mp_first_seqs := mp_first_seqs p; mp_next_seqs := mp_next_seqs p;
  mp_is_local_account := mp_is_local_account p; mp_last_block_number := mp_last_block_number p;
  mp_last_timestamp := mp_last_timestamp p; mp_next_transaction_id := mp_next_transaction_id p;
  mp_db := mp_db p |}.

Definition set_limit (limit : N) (p : MemPool) : MemPool := set_limits (mp_minimal_fee p) limit p.
Definition set_minimal_fee (min_fee : N) (p : MemPool) : MemPool := set_limits min_fee (mp_queue_count_limit p) p.

(** A cell of the table that is known to be there is written through its row. *)
Definition write_cell (public : Public) (seq : N) (cell : TransactionOrderWithTag)
  (t : Table Public N TransactionOrderWithTag) : Table Public N TransactionOrderWithTag :=
  (tb_insert t public seq cell).2.
Definition erase_cell (public : Public) (seq : N) (t : Table Public N TransactionOrderWithTag)
  : Table Public N TransactionOrderWithTag :=
  <[public := delete seq (default ∅ (t !! public))]> t.

(** * Timelocks *)

Definition should_wait_timelock (timelock : TxTimelock) (best_block_number best_block_timestamp : N) : bool :=
  match tl_block timelock with
  | Some block_number => best_block_number <? block_number
  | None => false
  end ||
  match tl_timestamp timelock with
  | Some timestamp => best_block_timestamp <? timestamp
  | None => false
  end.

Abbreviation poolR := (result PoolError).
Abbreviation Row := (gmap N TransactionOrderWithTag).

(** The loop of [check_transactions]: as many rounds as the row has cells are enough. *)
Fixpoint check_loop (fuel : nat) (row : Row) (start_seq current_block_number current_timestamp : N) : N :=
  match fuel with
  | O => start_seq
  | S fuel =>
      match row !! start_seq with
      | Some order_with_tag =>
          if should_wait_timelock (to_timelock (ot_order order_with_tag)) current_block_number current_timestamp
          then start_seq
          else check_loop fuel row (u64_add start_seq 1) current_block_number current_timestamp
      | None => start_seq
      end
  end.

Definition check_transactions (p : MemPool) (public : Public)
  (start_seq current_block_number current_timestamp : N) : poolR N :=
  row ← expect (mp_by_signer_public p !! public);
  Ok (check_loop (S (size row)) row start_seq current_block_number current_timestamp).

Definition check_new_transactions (p : MemPool) (public : Public) (seqs : list N)
  (next_seq current_block_number current_timestamp : N) : poolR (option N) :=
  row ← expect (mp_by_signer_public p !! public);
  fold_res (λ result seq,
    if next_seq <=? seq then Ok result
    else
      order_with_tag ← expect ((row : Row) !! seq);
      Ok (if should_wait_timelock (to_timelock (ot_order order_with_tag)) current_block_number current_timestamp
             && match result with None => true | Some r => seq <? r end
          then Some seq else result)) None seqs.

(** * Queues *)

Definition move_one (public : Public) (to : QueueTag) (p : MemPool) (seq : N) : poolR MemPool :=
  match tb_get (mp_by_signer_public p) public seq with
  | None => Ok p
  | Some {| ot_order := order; ot_tag := tag |} =>
      match tag, to with
      | Current, Future =>
          current ← cq_remove (mp_current p) order;
          Ok (set_indices current (fq_insert (mp_future p) order)
                (write_cell public seq {| ot_order := order; ot_tag := Future |} (mp_by_signer_public p))
                (mp_by_hash p) p)
      | Future, Current =>
          future ← fq_remove (mp_future p) order;
          Ok (set_indices (cq_insert (mp_current p) order) future
                (write_cell public seq {| ot_order := order; ot_tag := Current |} (mp_by_signer_public p))
                (mp_by_hash p) p)
      | _, _ => Ok p
      end
  end.

(** [start..end] *)
Definition range (start_seq end_seq : N) : list N :=
  (λ i, start_seq + N.of_nat i) <$> seq 0 (N.to_nat (end_seq - start_seq)).

Definition move_queue (p : MemPool) (public : Public) (start_seq end_seq : N) (to : QueueTag) : poolR MemPool :=
  _ ← expect (mp_by_signer_public p !! public);
  fold_res (move_one public to) p (range start_seq end_seq).

Definition add_new_order (public : Public) (new_next_seq : N) (p : MemPool) (seq : N) : poolR MemPool :=
  order_with_tag ← expect (tb_get (mp_by_signer_public p) public seq);
  let order := ot_order order_with_tag in
  match ot_tag order_with_tag with
  | New =>
      Ok (if seq <? new_next_seq then
            set_indices (cq_insert (mp_current p) order) (mp_future p)
              (write_cell public seq {| ot_order := order; ot_tag := Current |} (mp_by_signer_public p))
              (mp_by_hash p) p
          else
            set_indices (mp_current p) (fq_insert (mp_future p) order)
              (write_cell public seq {| ot_order := order; ot_tag := Future |} (mp_by_signer_public p))
              (mp_by_hash p) p)
  | _ => Panic
  end.

Definition add_new_orders_to_queue (p : MemPool) (public : Public) (seq_list : list N) (new_next_seq : N)
  : poolR MemPool :=
  _ ← expect (mp_by_signer_public p !! public);
  fold_res (add_new_order public new_next_seq) p seq_list.

(** An order taken out of the queue that its tag says. *)
Definition unqueue (p : MemPool) (tag : QueueTag) (order : TransactionOrder)
  : poolR (option (CurrentQueue * FutureQueue)) :=
  match tag with
  | Current => current ← cq_remove (mp_current p) order; Ok (Some (current, mp_future p))
  | Future => future ← fq_remove (mp_future p) order; Ok (Some (mp_current p, future))
  | New => Ok None
  end.

Definition update_order (public : Public) (current_seq new_next_seq : N) (to_local : bool)
  (st : MemPool * Batch) (seq : N) : poolR (MemPool * Batch) :=
  let '(p, batch) := st in
  order_with_tag ← expect (tb_get (mp_by_signer_public p) public seq);
  let old_order := ot_order order_with_tag in
  queues ← unqueue p (ot_tag order_with_tag) old_order;
  match queues with
  | None => Ok (p, batch)
  | Some (current, future) =>
      let by_signer_public := erase_cell public seq (mp_by_signer_public p) in
      if seq <? current_seq then
        Ok (set_indices current future by_signer_public (delete (to_hash old_order) (mp_by_hash p)) p,
            remove_item batch (to_hash old_order))
      else
        let new_order := update_height old_order seq current_seq in
        let new_order := if to_local then change_origin new_order Local else new_order in
        Ok (if seq <? new_next_seq then
              set_indices (cq_insert current new_order) future
                (write_cell public seq {| ot_order := new_order; ot_tag := Current |} by_signer_public)
                (mp_by_hash p) p
            else
              set_indices current (fq_insert future new_order)
                (write_cell public seq {| ot_order := new_order; ot_tag := Future |} by_signer_public)
                (mp_by_hash p) p,
            batch)
  end.

Section Ops.
Context `{Crypto, HashOrder}.

Definition update_orders (p : MemPool) (public : Public) (current_seq new_next_seq : N) (to_local : bool)
  (batch : Batch) : poolR (MemPool * Batch) :=
  row ← expect (mp_by_signer_public p !! public);
  fold_res (update_order public current_seq new_next_seq to_local) (p, batch)
    (walk (map_to_list (row : Row)).*1).

(** * Limits *)

Definition effective_minimum_fee (p : MemPool) : N :=
  if mp_queue_count_limit p <=? len (cq_queue (mp_current p)) then cq_minimum_fee (mp_current p) else 0.

Definition orders_to_drop_step (limit memory_limit : N) (acc : N * N * list TransactionOrder)
  (order : TransactionOrder) : N * N * list TransactionOrder :=
  let '(count, mem_usage, dropped) := acc in
  let count := u64_add count 1 in
  let mem_usage := u64_add mem_usage (to_mem_usage order) in
  (count, mem_usage,
   if negb (is_local_or_retracted (to_origin order)) && ((memory_limit <? mem_usage) || (limit <? count))
   then dropped ++ [order] else dropped).
Definition get_orders_to_drop (set : OrderSet) (limit memory_limit : N) : list TransactionOrder :=
  (foldl (orders_to_drop_step limit memory_limit) (0, 0, []) set.*2).2.

Definition drop_order (is_current : bool) (st : MemPool * Batch) (order : TransactionOrder)
  : poolR (MemPool * Batch) :=
  let '(p, batch) := st in
  let hash := to_hash order in
  item ← expect (mp_by_hash p !! hash);
  let batch := remove_item batch hash in
  let signer_public := mi_signer_public item in
  let '(removed, by_signer_public) := tb_remove (mp_by_signer_public p) signer_public (mi_seq item) in
  _ ← expect removed;
  let '(cleared, by_signer_public) := tb_clear_if_empty by_signer_public signer_public in
  let is_local_account :=
    if cleared : bool then mp_is_local_account p ∖ {[signer_public]} else mp_is_local_account p in
  queues ← unqueue p (if is_current then Current else Future) order;
  '(current, future) ← expect queues;
  Ok (set_accounts (mp_first_seqs p) (mp_next_seqs p) is_local_account
        (set_indices current future by_signer_public (delete hash (mp_by_hash p)) p), batch).

Definition enforce_limit (p : MemPool) (batch : Batch) : poolR (MemPool * Batch) :=
  let limit := mp_queue_count_limit p in
  let memory_limit := mp_queue_memory_limit p in
  let to_drop_current :=
    if (memory_limit <? cq_mem_usage (mp_current p)) || (limit <? cq_count (mp_current p))
    then get_orders_to_drop (cq_queue (mp_current p)) limit memory_limit else [] in
  let to_drop_future :=
    if (memory_limit <? fq_mem_usage (mp_future p)) || (limit <? fq_count (mp_future p))
    then get_orders_to_drop (fq_queue (mp_future p)) limit memory_limit else [] in
  st ← fold_res (drop_order true) (p, batch) to_drop_current;
  fold_res (drop_order false) st to_drop_future.

(** * Adding *)

Definition verify_transaction (p : MemPool) (tx : SignedTransaction) (origin : TxOrigin)
  (client_account : AccountDetails) : poolR () :=
  let fee := tx_fee (stx_unsigned tx) in
  let seq := tx_seq (stx_unsigned tx) in
  let full_pools_lowest := effective_minimum_fee p in
  if negb (is_local origin) && (fee <? mp_minimal_fee p) then Err (InsufficientFee (mp_minimal_fee p) fee)
  else if negb (is_local origin) && (fee <? full_pools_lowest) then Err (InsufficientFee full_pools_lowest fee)
  else if ad_balance client_account <? fee then
    Err (InsufficientBalance (public_to_address (stx_signer_public tx)) fee (ad_balance client_account))
  else if bool_decide (is_Some (mp_by_hash p !! stx_hash tx)) then Err TransactionAlreadyImported
  else if seq <? ad_seq client_account then Err Old
  else if negb (is_local origin) then
    match tb_get (mp_by_signer_public p) (stx_signer_public tx) seq with
    | Some order_with_tag =>
        let old_fee := to_fee (ot_order order_with_tag) in
        let min_required_fee := u64_add old_fee (N.shiftr old_fee (mp_fee_bump_shift p mod 64)) in
        if fee <? min_required_fee then Err TooCheapToReplace else Ok tt
    | None => Ok tt
    end
  else Ok tt.

(** What the first loop of [add] has done. *)
Record Adding := {
  ag_pool : MemPool;
  ag_batch : Batch;
  ag_to_insert : gmap Public (list N);
  ag_new_local_accounts : gset Public;
  ag_insert_results : list (result PoolError (Public * N));
}.

(** The origin that a transaction is taken to have, and whether its signer becomes local by it. *)
Definition input_origin (p : MemPool) (signer_public : Public) (origin : TxOrigin) : TxOrigin * bool :=
  if is_local origin && negb (bool_decide (signer_public ∈ mp_is_local_account p)) then (Local, true)
  else if is_external origin && bool_decide (signer_public ∈ mp_is_local_account p) then (Local, false)
  else (origin, false).

(** A verified transaction enters the indices; the one that it replaces leaves them. *)
Definition insert_item (p : MemPool) (batch : Batch) (item : MemPoolItem) (order : TransactionOrder)
  : poolR (MemPool * Batch) :=
  let hash := mi_hash item in
  let batch := backup_item batch hash item in
  let by_hash := <[hash := item]> (mp_by_hash p) in
  let '(old, by_signer_public) :=
    tb_insert (mp_by_signer_public p) (mi_signer_public item) (mi_seq item)
      {| ot_order := order; ot_tag := New |} in
  match old with
  | None => Ok (set_indices (mp_current p) (mp_future p) by_signer_public by_hash p, batch)
  | Some old_order_with_tag =>
      let old_order := ot_order old_order_with_tag in
      queues ← unqueue p (ot_tag old_order_with_tag) old_order;
      '(current, future) ← expect queues;
      Ok (set_indices current future by_signer_public (delete (to_hash old_order) by_hash) p,
          remove_item batch (to_hash old_order))
  end.

Section Add.
Context (inserted_block_number inserted_timestamp : N) (fetch_account : Public → AccountDetails).

Definition add_input (a : Adding) (input : MemPoolInput) : poolR Adding :=
  let p := ag_pool a in
  let tx := in_transaction input in
  let signer_public := stx_signer_public tx in
  let seq := tx_seq (stx_unsigned tx) in
  let '(origin, new_local) := input_origin p signer_public (in_origin input) in
  let p := if new_local : bool then
             set_accounts (mp_first_seqs p) (mp_next_seqs p) ({[signer_public]} ∪ mp_is_local_account p) p
           else p in
  let new_local_accounts :=
    if new_local then {[signer_public]} ∪ ag_new_local_accounts a else ag_new_local_accounts a in
  let client_account := fetch_account signer_public in
  match verify_transaction p tx origin client_account with
  | Panic => Panic
  | Err e =>
      Ok {| ag_pool := p; ag_batch := ag_batch a; ag_to_insert := ag_to_insert a;
            ag_new_local_accounts := new_local_accounts;
            ag_insert_results := ag_insert_results a ++ [Err e] |}
  | Ok _ =>
      let id := mp_next_transaction_id p in
      let p := set_clock (mp_last_block_number p) (mp_last_timestamp p) (u64_add id 1) (mp_db p) p in
      let item := {| mi_tx := tx; mi_origin := origin; mi_inserted_block_number := inserted_block_number;
                     mi_inserted_timestamp := inserted_timestamp; mi_insertion_id := id;
                     mi_timelock := in_timelock input |} in
      '(p, batch) ← insert_item p (ag_batch a) item (for_transaction item (ad_seq client_account));
      Ok {| ag_pool := p; ag_batch := batch;
            ag_to_insert := <[signer_public := default [] (ag_to_insert a !! signer_public) ++ [seq]]>
                              (ag_to_insert a);
            ag_new_local_accounts := new_local_accounts;
            ag_insert_results := ag_insert_results a ++ [Ok (signer_public, seq)] |}
  end.

(** What [add] and [remove] do to an account once they know its next sequence number. *)
Definition update_account (p : MemPool) (batch : Batch) (public : Public) (current_seq next_seq new_next_seq : N)
  (to_local : bool) : poolR (MemPool * Batch) :=
  let first_seq := default 0 (mp_first_seqs p !! public) in
  '(p, batch, first_seq) ←
    if negb (current_seq =? first_seq) || to_local then
      '(p, batch) ← update_orders p public current_seq new_next_seq to_local batch;
      Ok (set_accounts (<[public := current_seq]> (mp_first_seqs p)) (mp_next_seqs p) (mp_is_local_account p) p,
          batch, current_seq)
    else if new_next_seq <? next_seq then
      p ← move_queue p public new_next_seq next_seq Future; Ok (p, batch, first_seq)
    else if next_seq <? new_next_seq then
      p ← move_queue p public next_seq new_next_seq Current; Ok (p, batch, first_seq)
    else Ok (p, batch, first_seq);
  let next_seqs :=
    if new_next_seq <=? first_seq then delete public (mp_next_seqs p)
    else <[public := new_next_seq]> (mp_next_seqs p) in
  Ok (set_accounts (mp_first_seqs p) next_seqs (mp_is_local_account p) p, batch).

(** [if self.by_signer_public.clear_if_empty(&public) { self.is_local_account.remove(&public); }] *)
Definition clear_account (public : Public) (p : MemPool) : MemPool :=
  let '(cleared, by_signer_public) := tb_clear_if_empty (mp_by_signer_public p) public in
  let p := set_indices (mp_current p) (mp_future p) by_signer_public (mp_by_hash p) p in
  if cleared : bool then
    set_accounts (mp_first_seqs p) (mp_next_seqs p) (mp_is_local_account p ∖ {[public]}) p
  else p.

(** Whether the queues of an account have to be looked through from its first transaction. *)
Definition starts_over (p : MemPool) (public : Public) (current_seq next_seq block_number timestamp : N) : bool :=
  (current_seq <? default 0 (mp_first_seqs p !! public)) || (block_number <? mp_last_block_number p)
  || (timestamp <? mp_last_timestamp p) || (next_seq <? current_seq).

Definition add_account (to_insert : gmap Public (list N)) (new_local_accounts : gset Public)
  (st : MemPool * Batch) (public : Public) : poolR (MemPool * Batch) :=
  let '(p, batch) := st in
  let current_seq := ad_seq (fetch_account public) in
  let next_seq := default current_seq (mp_next_seqs p !! public) in
  new_next_seq ←
    if starts_over p public current_seq next_seq inserted_block_number inserted_timestamp then
      check_transactions p public current_seq inserted_block_number inserted_timestamp
    else
      smallest ← match to_insert !! public with
                 | Some v =>
                     check_new_transactions p public v next_seq inserted_block_number inserted_timestamp
                 | None => Ok None
                 end;
      match smallest with
      | Some seq => Ok seq
      | None => check_transactions p public next_seq inserted_block_number inserted_timestamp
      end;
  let is_this_account_local := bool_decide (public ∈ new_local_accounts) in
  '(p, batch) ← update_account p batch public current_seq next_seq new_next_seq is_this_account_local;
  p ← match to_insert !! public with
      | Some seq_list => add_new_orders_to_queue p public seq_list new_next_seq
      | None => Ok p
      end;
  Ok (clear_account public p, batch).

(** The assertions at the end of [add] and [remove]. *)
Definition assert_synced (p : MemPool) : poolR () :=
  _ ← assert (len (cq_queue (mp_current p)) + len (fq_queue (mp_future p)) =? N.of_nat (size (mp_by_hash p)));
  _ ← assert (sum_with snd (cq_fee_counter (mp_current p)) =? len (cq_queue (mp_current p)));
  assert (tb_len (mp_by_signer_public p) =? N.of_nat (size (mp_by_hash p))).

(** What [add] answers for an input. *)
Definition import_result (p : MemPool) (v : result PoolError (Public * N))
  : poolR (result PoolError TransactionImportResult) :=
  match v with
  | Ok (signer_public, seq) =>
      match tb_get (mp_by_signer_public p) signer_public seq with
      | Some order_with_tag =>
          match ot_tag order_with_tag with
          | Current => Ok (Ok ImportCurrent)
          | Future => Ok (Ok ImportFuture)
          | New => Panic
          end
      | None => Ok (Err LimitReached)
      end
  | Err e => Ok (Err e)
  | Panic => Panic
  end.

Definition add (p : MemPool) (inputs : list MemPoolInput)
  : poolR (list (result PoolError TransactionImportResult) * MemPool) :=
  a ← fold_res add_input {| ag_pool := p; ag_batch := []; ag_to_insert := ∅; ag_new_local_accounts := ∅;
                            ag_insert_results := [] |} inputs;
  let keys := walk (map_to_list (mp_by_signer_public (ag_pool a))).*1 in
  '(p, batch) ← fold_res (add_account (ag_to_insert a) (ag_new_local_accounts a)) (ag_pool a, ag_batch a) keys;
  '(p, batch) ← enforce_limit p batch;
  let p := set_clock inserted_block_number inserted_timestamp (mp_next_transaction_id p) (mp_db p) p in
  _ ← assert_synced p;
  let p := set_clock (mp_last_block_number p) (mp_last_timestamp p) (mp_next_transaction_id p)
             (db_write (mp_db p) batch) p in
  results ← map_res (import_result p) (ag_insert_results a);
  Ok (results, p).
End Add.

(** * Removing *)

Section Remove.
Context (fetch_seq : Public → poolR N) (current_block_number current_timestamp : N).

(** One hash of the list: its transaction leaves the indices, and the smallest sequence number that its
    signer loses is noted. *)
Definition remove_hash (st : MemPool * Batch * gmap Public N) (hash : H256)
  : poolR (MemPool * Batch * gmap Public N) :=
  let '(p, batch, removed) := st in
  match mp_by_hash p !! hash with
  | None => Ok st
  | Some item =>
      let signer_public := mi_signer_public item in
      let seq := mi_seq item in
      current_seq ← fetch_seq signer_public;
      order_with_tag ← expect (tb_get (mp_by_signer_public p) signer_public seq);
      queues ← unqueue p (ot_tag order_with_tag) (ot_order order_with_tag);
      '(current, future) ← expect queues;
      let p := set_indices current future (tb_remove (mp_by_signer_public p) signer_public seq).2
                 (delete hash (mp_by_hash p)) p in
      let removed :=
        if current_seq <=? seq then
          match removed !! signer_public with
          | Some old_seq => if old_seq <=? seq then removed else <[signer_public := seq]> removed
          | None => <[signer_public := seq]> removed
          end
        else removed in
      Ok (p, remove_item batch hash, removed)
  end.

Definition remove_account (removed : gmap Public N) (st : MemPool * Batch) (public : Public)
  : poolR (MemPool * Batch) :=
  let '(p, batch) := st in
  current_seq ← fetch_seq public;
  let next_seq := default current_seq (mp_next_seqs p !! public) in
  new_next_seq ←
    if starts_over p public current_seq next_seq current_block_number current_timestamp then
      check_transactions p public current_seq current_block_number current_timestamp
    else
      match removed !! public with
      | Some seq => Ok seq
      | None => check_transactions p public next_seq current_block_number current_timestamp
      end;
  '(p, batch) ← update_account p batch public current_seq next_seq new_next_seq false;
  Ok (clear_account public p, batch).

Definition remove (p : MemPool) (transaction_hashes : list H256) : poolR MemPool :=
  '(p, batch, removed) ← fold_res remove_hash (p, [], ∅) transaction_hashes;
  let keys := walk (map_to_list (mp_by_signer_public p)).*1 in
  '(p, batch) ← fold_res (remove_account removed) (p, batch) keys;
  let p := set_clock current_block_number current_timestamp (mp_next_transaction_id p) (mp_db p) p in
  _ ← assert_synced p;
  Ok (set_clock (mp_last_block_number p) (mp_last_timestamp p) (mp_next_transaction_id p)
        (db_write (mp_db p) batch) p).
End Remove.

(** The filter of [remove_old]: too long in the pool, expired, or without the balance. *)
Definition is_invalid (p : MemPool) (signers : gmap Public AccountDetails)
  (current_block_number current_timestamp : N) (item : MemPoolItem) : bool :=
  let max_block_number := mp_max_block_number_period_in_pool p in
  let balance_check := N.shiftr max_block_number 3 in
  let time_diff := current_block_number - mi_inserted_block_number item in
  negb (is_local (mi_origin item)) &&
  (match mi_expiration item with Some expiration => expiration <? current_timestamp | None => false end
   || (max_block_number <? time_diff)
   || ((balance_check <? time_diff) &&
       match signers !! mi_signer_public item with
       | Some details => ad_balance details <? mi_cost item
       | None => false
       end)).

Definition remove_old (p : MemPool) (fetch_account : Public → AccountDetails)
  (current_block_number current_timestamp : N) : poolR MemPool :=
  let signers := map_imap (λ sender _, Some (fetch_account sender)) (mp_by_signer_public p) in
  let invalid :=
    (filter (λ x : H256 * MemPoolItem, is_invalid p signers current_block_number current_timestamp x.2)
      (walk (map_to_list (mp_by_hash p)))).*1 in
  let fetch_seq a := details ← expect (signers !! a); Ok (ad_seq details) in
  remove fetch_seq current_block_number current_timestamp p invalid.

(** * Recovery *)

(** What the pool asks of the client. *)
Record PoolClient := {
  pc_latest_regular_key_owner : Address → option Address;
  pc_latest_seq : Address → N;
  pc_latest_balance : Address → N;
  pc_best_block_number : BlockNumber;
  pc_best_block_timestamp : N;
}.

Definition pc_fetch_account (client : PoolClient) (p : Public) : AccountDetails :=
  let address := public_to_address p in
  let a := default address (pc_latest_regular_key_owner client address) in
  {| ad_seq := pc_latest_seq client a; ad_balance := pc_latest_balance client a |}.

Definition recover_item (client : PoolClient) (st : MemPool * N * gmap Public (list N))
  (x : H256 * MemPoolItem) : MemPool * N * gmap Public (list N) :=
  let '(p, max_insertion_id, to_insert) := st in
  let '(hash, item) := x in
  let signer_public := mi_signer_public item in
  let seq := mi_seq item in
  let max_insertion_id := if max_insertion_id <? mi_insertion_id item then mi_insertion_id item
                          else max_insertion_id in
  let order := for_transaction item (ad_seq (pc_fetch_account client signer_public)) in
  let p := set_indices (mp_current p) (mp_future p)
             (write_cell signer_public seq {| ot_order := order; ot_tag := New |} (mp_by_signer_public p))
             (<[hash := item]> (mp_by_hash p)) p in
  let p := if bool_decide (mi_origin item = Local) then
             set_accounts (mp_first_seqs p) (mp_next_seqs p) ({[signer_public]} ∪ mp_is_local_account p) p
           else p in
  (p, max_insertion_id, <[signer_public := default [] (to_insert !! signer_public) ++ [seq]]> to_insert).

Definition recover_account (client : PoolClient) (to_insert : gmap Public (list N)) (p : MemPool)
  (public : Public) : poolR MemPool :=
  let current_seq := ad_seq (pc_fetch_account client public) in
  let number := pc_best_block_number client in
  let timestamp := pc_best_block_timestamp client in
  smallest ← match to_insert !! public with
             | Some v => check_new_transactions p public v current_seq number timestamp
             | None => Ok None
             end;
  next_seq ← match smallest with
             | Some seq => Ok seq
             | None => check_transactions p public current_seq number timestamp
             end;
  let next_seqs := if current_seq <? next_seq then <[public := next_seq]> (mp_next_seqs p)
                   else mp_next_seqs p in
  let p := set_accounts (<[public := current_seq]> (mp_first_seqs p)) next_seqs (mp_is_local_account p) p in
  p ← match to_insert !! public with
      | Some seq_list => add_new_orders_to_queue p public seq_list next_seq
      | None => Ok p
      end;
  Ok (clear_account public p).

Definition recover_from_db (p : MemPool) (client : PoolClient) : poolR MemPool :=
  by_hash ← recover_to_data (walk (map_to_list (mp_db p)));
  let '(p, max_insertion_id, to_insert) :=
    foldl (recover_item client) (p, 0, ∅) (walk (map_to_list (by_hash : gmap H256 MemPoolItem))) in
  p ← fold_res (recover_account client to_insert) p (walk (map_to_list (mp_by_signer_public p)).*1);
  Ok (set_clock (pc_best_block_number client) (pc_best_block_timestamp client)
        (u64_add max_insertion_id 1) (mp_db p) p).

(** * Reading *)

(** [clear] *)
Definition clear (p : MemPool) : MemPool :=
  set_accounts ∅ ∅ (mp_is_local_account p) (set_indices CurrentQueue_new FutureQueue_new ∅ ∅ p).

(** [Range::contains] *)
Definition contains (range : N * N) (x : N) : bool := (range.1 <=? x) && (x <? range.2).

(** The items of a queue; the source looks them up one by one as it walks the queue. *)
Definition queue_items (p : MemPool) (set : OrderSet) : poolR (list MemPoolItem) :=
  map_res (λ t, expect (mp_by_hash p !! to_hash t)) set.*2.

Fixpoint take_while_size (size_limit current_size : N) (items : list MemPoolItem) : list MemPoolItem :=
  match items with
  | [] => []
  | t :: items =>
      let current_size := u64_add current_size (len (rlp_bytes (SignedTransaction_append (mi_tx t)))) in
      if current_size <? size_limit then t :: take_while_size size_limit current_size items else []
  end.

Definition top_transactions (p : MemPool) (size_limit : N) (current_timestamp : option N) (range : N * N)
  : poolR (list SignedTransaction * option N) :=
  items ← queue_items p (cq_queue (mp_current p));
  let unexpired t :=
    match mi_expiration t, current_timestamp with
    | Some expiration, Some timestamp => timestamp <=? expiration
    | _, _ => true
    end in
  let pending_items :=
    take_while_size size_limit 0
      (filter (λ t, contains range (mi_inserted_timestamp t)) (filter (λ t, unexpired t) items)) in
  Ok (mi_tx <$> pending_items,
      foldl (λ last t, Some (N.max (default 0 last) (mi_inserted_timestamp t))) None pending_items).

Definition count_pending_transactions (p : MemPool) (range : N * N) : poolR N :=
  items ← queue_items p (cq_queue (mp_current p));
  Ok (len (filter (λ t, contains range (mi_inserted_timestamp t)) items)).

Definition future_transactions (p : MemPool) : poolR (list SignedTransaction) :=
  items ← queue_items p (fq_queue (mp_future p));
  Ok (mi_tx <$> (items : list MemPoolItem)).

Definition has_local_pending_transactions (p : MemPool) : bool :=
  existsb (λ x, is_local (to_origin x.2)) (cq_queue (mp_current p)).
End Ops.
