(* ===== verification/MemPoolInv.v ===== *)
(** The indices of the memory pool stay in step: what the queues hold is what the table says, the table
    and the items know each other, and the database has the items.  With that no assertion of the pool
    fails. *)
From stdpp Require Import base gmap list numbers strings.
From Stdlib Require Import NArith Lia.
From S2P Require Import Prelude Types Crypto Rlp RlpImpls TxHash BTree Header VoteCollector MemPoolTypes MemPool.

Local Open Scope N_scope.

(** * Ordered maps as bags of bindings *)

Section Bags.
Context {K V : Type} `{CompareOk K}.
Implicit Type m : list (K * V).

Lemma bt_insert_fresh m k v : bt_get m k = None → bt_insert m k v ≡ₚ (k, v) :: m.
Proof.
  induction m as [|[k' v'] m IH]; simpl; [done|]. destruct (cmp k k'); [done|done|].
  intros Hg. rewrite IH by done. apply perm_swap.
Qed.

Lemma bt_remove_bound m k v : bt_get m k = Some v → m ≡ₚ (k, v) :: bt_remove m k.
Proof.
  induction m as [|[k' v'] m IH]; simpl; [done|]. destruct (cmp k k') eqn:E.
  - apply cmp_eq in E as ->. intros [= ->]. done.
  - intros Hg. rewrite (IH Hg) at 1. apply perm_swap.
  - intros Hg. rewrite (IH Hg) at 1. apply perm_swap.
Qed.

Lemma bt_insert_bound m k v v' : bt_ok m → bt_get m k = Some v → bt_insert m k v' ≡ₚ (k, v') :: bt_remove m k.
Proof.
  induction m as [|[k0 v0] m IH]; simpl; [done|]. intros [Hm Hall]%bt_ok_cons Hg.
  destruct (cmp k k0) eqn:E; [done| |].
  - apply bt_get_elem in Hg; [|done]. apply Hall in Hg. simpl in Hg. rewrite (cmp_opp k k0), E in Hg. done.
  - rewrite IH by done. apply perm_swap.
Qed.
End Bags.

(** Different numbers below a bound are no more than the bound. *)
Lemma NoDup_bounded (l : list N) n : NoDup l → (∀ x, x ∈ l → x < n) → len l ≤ n.
Proof.
  intros Hl Hb. assert (length l ≤ length (N.of_nat <$> seq 0 (N.to_nat n)))%nat as Hle.
  { apply submseteq_length, NoDup_submseteq; [done|]. intros x Hx%Hb. apply list_elem_of_fmap.
    exists (N.to_nat x). rewrite N2Nat.id. split; [done|]. apply elem_of_seq. lia. }
  rewrite length_fmap, length_seq in Hle. unfold len. lia.
Qed.

(** * Queues *)

Lemma order_key_id o o' : order_key o = order_key o' → to_insertion_id o = to_insertion_id o'.
Proof. unfold order_key. congruence. Qed.
#[local] Opaque order_key.

Definition set_ok (q : OrderSet) : Prop := bt_ok q ∧ ∀ k o, (k, o) ∈ q → k = order_key o.
Definition queued (q : OrderSet) (o : TransactionOrder) : Prop := bt_get q (order_key o) = Some o.

Definition fee_count (q : OrderSet) (fee : N) : N := sum_with (λ x, if to_fee x.2 =? fee then 1 else 0) q.
Definition external (x : OrderKey * TransactionOrder) : bool := negb (is_local_or_retracted (to_origin x.2)).
Definition external_mem (q : OrderSet) : N := sum_with (λ x, if external x then to_mem_usage x.2 else 0) q.
Definition external_count (q : OrderSet) : N := sum_with (λ x, if external x then 1 else 0) q.

Record cq_ok (q : CurrentQueue) : Prop := {
  cq_set : set_ok (cq_queue q);
  cq_fees : bt_ok (cq_fee_counter q);
  cq_fee fee : default 0 (bt_get (cq_fee_counter q) fee) = fee_count (cq_queue q) fee;
  cq_sum : sum_with snd (cq_fee_counter q) = len (cq_queue q);
  cq_mem : cq_mem_usage q = external_mem (cq_queue q) mod u64_size;
  cq_cnt : cq_count q = external_count (cq_queue q) mod u64_size;
}.

Record fq_ok (q : FutureQueue) : Prop := {
  fq_set : set_ok (fq_queue q);
  fq_mem : fq_mem_usage q = external_mem (fq_queue q) mod u64_size;
  fq_cnt : fq_count q = external_count (fq_queue q) mod u64_size;
}.

Lemma queued_elem q o : set_ok q → queued q o ↔ (order_key o, o) ∈ q.
Proof. intros [Hq _]. by apply bt_get_elem. Qed.

Lemma set_insert_fresh q o :
  set_ok q → bt_get q (order_key o) = None →
  set_ok (set_insert q o) ∧ set_insert q o ≡ₚ (order_key o, o) :: q ∧
  ∀ o', queued (set_insert q o) o' ↔ o' = o ∨ queued q o'.
Proof.
  intros [Hq Hk] Hf. unfold set_insert. rewrite Hf.
  assert (set_ok (bt_insert q (order_key o) o)) as Hok.
  { split; [by apply bt_insert_ok|]. intros k o' [[= -> ->]|Hin]%bt_insert_elem; [done|by apply Hk]. }
  pose proof (bt_insert_fresh q (order_key o) o Hf) as Hp. split; [done|split; [done|]].
  intros o'. rewrite !queued_elem, Hp, elem_of_cons by done. split; [|intros [->|?]; [by left|by right]].
  intros [He%(f_equal snd)|?]; [by left|by right].
Qed.

Lemma set_remove_queued q o :
  set_ok q → queued q o →
  set_ok (bt_remove q (order_key o)) ∧ q ≡ₚ (order_key o, o) :: bt_remove q (order_key o) ∧
  ∀ o', queued (bt_remove q (order_key o)) o' ↔ order_key o' ≠ order_key o ∧ queued q o'.
Proof.
  intros [Hq Hk] Ho. assert (set_ok (bt_remove q (order_key o))) as Hok.
  { split; [by apply bt_remove_ok|]. intros k o' Hin%bt_remove_elem. by apply Hk. }
  pose proof (bt_remove_bound q _ _ Ho) as Hp. split; [done|split; [done|]].
  intros o'. unfold queued. rewrite bt_get_remove by done. destruct (cmp (order_key o') (order_key o)) eqn:E.
  1: { apply cmp_eq in E. rewrite E. split; [done|]. by intros []. }
  all: assert (order_key o' ≠ order_key o) by (intros He; rewrite He, cmp_refl in E; done); tauto.
Qed.

Lemma fee_count_len q fee : fee_count q fee ≤ len q.
Proof.
  induction q as [|x q IH]; [done|]. unfold fee_count in *. rewrite sum_with_cons, len_cons.
  destruct (to_fee x.2 =? fee); lia.
Qed.

Lemma u64_add_wrapped a b : u64_add (a mod u64_size) b = (a + b) mod u64_size.
Proof. unfold u64_add. by rewrite N.Div0.add_mod_idemp_l. Qed.
Lemma u64_sub_wrapped a b : u64_sub ((b + a) mod u64_size) b = a mod u64_size.
Proof.
  unfold u64_sub. assert (b mod u64_size < u64_size) by by apply N.mod_lt.
  rewrite (N.add_comm b a), <-N.add_sub_assoc by lia.
  rewrite N.Div0.add_mod_idemp_l, (N.div_mod' b u64_size) at 1. set (d := b / u64_size). set (r := b mod u64_size) in *.
  replace (a + (u64_size * d + r) + (u64_size - r)) with (a + (d + 1) * u64_size) by lia.
  by rewrite N.Div0.mod_add.
Qed.

Lemma sum_insert (m : list (N * N)) k v :
  bt_ok m → sum_with snd (bt_insert m k v) + default 0 (bt_get m k) = sum_with snd m + v.
Proof.
  intros Hm. destruct (bt_get m k) as [v0|] eqn:E.
  - rewrite (sum_with_perm _ _ _ (bt_insert_bound m k v0 v Hm E)),
      (sum_with_perm _ _ _ (bt_remove_bound m k v0 E)), !sum_with_cons. simpl. lia.
  - rewrite (sum_with_perm _ _ _ (bt_insert_fresh m k v E)), sum_with_cons. simpl. lia.
Qed.

Lemma sum_remove (m : list (N * N)) k :
  bt_ok m → sum_with snd (bt_remove m k) + default 0 (bt_get m k) = sum_with snd m.
Proof.
  intros Hm. destruct (bt_get m k) as [v0|] eqn:E.
  - rewrite (sum_with_perm _ _ _ (bt_remove_bound m k v0 E)), sum_with_cons. simpl. lia.
  - rewrite bt_remove_none by done. simpl. lia.
Qed.

Lemma len_perm {A : Type} (l k : list A) : l ≡ₚ k → len l = len k.
Proof. intros Hp. unfold len. by rewrite Hp. Qed.

(** The quantities of a queue, with one more order. *)
Lemma quantities_cons q o q' :
  q ≡ₚ (order_key o, o) :: q' →
  (∀ fee, fee_count q fee = (if to_fee o =? fee then 1 else 0) + fee_count q' fee) ∧
  external_mem q = (if negb (is_local_or_retracted (to_origin o)) then to_mem_usage o else 0) + external_mem q' ∧
  external_count q = (if negb (is_local_or_retracted (to_origin o)) then 1 else 0) + external_count q' ∧
  len q = len q' + 1.
Proof.
  intros Hp. unfold fee_count, external_mem, external_count. split; [intros fee|].
  - by rewrite (sum_with_perm _ _ _ Hp), sum_with_cons.
  - rewrite !(sum_with_perm _ _ _ Hp), !sum_with_cons, (len_perm _ _ Hp), len_cons. repeat split. lia.
Qed.

Ltac queue_tac :=
  repeat match goal with
  | |- context [negb (is_local_or_retracted ?o)] => destruct (negb (is_local_or_retracted o))
  | H : context [negb (is_local_or_retracted ?o)] |- _ => destruct (negb (is_local_or_retracted o))
  end; rewrite ?u64_add_wrapped, ?u64_sub_wrapped; first [lia | f_equal; lia].

Lemma cq_insert_ok q o :
  cq_ok q → bt_get (cq_queue q) (order_key o) = None → len (cq_queue q) + 1 < u64_size →
  cq_ok (cq_insert q o) ∧ cq_queue (cq_insert q o) = set_insert (cq_queue q) o.
Proof.
  intros [Hs Hf Hfee Hsum Hm Hc] Hn Hl. split; [|done].
  destruct (set_insert_fresh _ _ Hs Hn) as (Hs' & Hp & _).
  destruct (quantities_cons _ _ _ Hp) as (Hqf & Hqm & Hqc & Hql).
  pose proof (fee_count_len (cq_queue q) (to_fee o)) as Hle.
  split; cbn [cq_insert cq_queue cq_fee_counter cq_mem_usage cq_count]; [done|by apply bt_insert_ok|..].
  - intros fee. rewrite Hqf, bt_get_insert, Hfee by done. unfold u64_add. rewrite N.mod_small by lia.
    destruct (N.eqb_spec (to_fee o) fee) as [<-|Hne]; [rewrite cmp_refl; cbv [from_option id]; lia|].
    destruct (cmp fee (to_fee o)) eqn:E; [by apply cmp_eq in E|..]; rewrite Hfee; lia.
  - pose proof (sum_insert (cq_fee_counter q) (to_fee o)
      (u64_add (default 0 (bt_get (cq_fee_counter q) (to_fee o))) 1) Hf) as Hi. rewrite Hql, <-Hsum.
    unfold u64_add in *. rewrite N.mod_small in * by (rewrite Hfee; lia). lia.
  - rewrite Hqm, Hm. queue_tac.
  - rewrite Hqc, Hc. queue_tac.
Qed.

Lemma cq_remove_ok {E : Type} q o :
  cq_ok q → queued (cq_queue q) o → len (cq_queue q) < u64_size →
  ∃ q', cq_remove (E:=E) q o = Ok q' ∧ cq_ok q' ∧ cq_queue q' = bt_remove (cq_queue q) (order_key o).
Proof.
  intros [Hs Hf Hfee Hsum Hm Hc] Ho Hl. destruct (set_remove_queued _ _ Hs Ho) as (Hs' & Hp & _).
  destruct (quantities_cons _ _ _ Hp) as (Hqf & Hqm & Hqc & Hql).
  pose proof (fee_count_len (cq_queue q) (to_fee o)) as Hle.
  pose proof (Hqf (to_fee o)) as H1. rewrite N.eqb_refl in H1.
  unfold cq_remove. rewrite bool_decide_eq_true_2 by (by rewrite Ho). cbn [assert]. rewrite Ok_bind.
  pose proof (Hfee (to_fee o)) as H2. destruct (bt_get (cq_fee_counter q) (to_fee o)) as [n|] eqn:Hn; cbv [from_option id] in H2; [|lia].
  cbn [expect]. rewrite Ok_bind. rewrite u64_sub_le by lia.
  eexists. split; [done|]. split; [|done]. split; cbn [cq_queue cq_fee_counter cq_mem_usage cq_count]; [done|..].
  - destruct (n - 1 =? 0); cbn [negb]; [by apply bt_remove_ok|by apply bt_insert_ok].
  - intros fee. specialize (Hqf fee). specialize (Hfee fee). revert Hqf.
    destruct (N.eqb_spec (n - 1) 0) as [E0|E0]; cbn [negb]; rewrite ?bt_get_remove, ?bt_get_insert by done;
      (destruct (N.eqb_spec (to_fee o) fee) as [<-|Hne]; [rewrite cmp_refl; cbv [from_option id]; lia|]);
      (destruct (cmp fee (to_fee o)) eqn:Ec; [by apply cmp_eq in Ec|..]; rewrite Hfee; lia).
  - pose proof (sum_insert (cq_fee_counter q) (to_fee o) (n - 1) Hf) as Hi.
    pose proof (sum_remove (cq_fee_counter q) (to_fee o) Hf) as Hr. rewrite Hn in Hi, Hr. simpl in Hi, Hr.
    destruct (N.eqb_spec (n - 1) 0); simpl; lia.
  - rewrite Hm, Hqm. queue_tac.
  - rewrite Hc, Hqc. queue_tac.
Qed.

Lemma fq_insert_ok q o :
  fq_ok q → bt_get (fq_queue q) (order_key o) = None →
  fq_ok (fq_insert q o) ∧ fq_queue (fq_insert q o) = set_insert (fq_queue q) o.
Proof.
  intros [Hs Hm Hc] Hn. split; [|done]. destruct (set_insert_fresh _ _ Hs Hn) as (Hs' & Hp & _).
  destruct (quantities_cons _ _ _ Hp) as (_ & Hqm & Hqc & _).
  split; cbn [fq_insert fq_queue fq_mem_usage fq_count]; [done|..].
  - rewrite Hqm, Hm. queue_tac.
  - rewrite Hqc, Hc. queue_tac.
Qed.

Lemma fq_remove_ok {E : Type} q o :
  fq_ok q → queued (fq_queue q) o →
  ∃ q', fq_remove (E:=E) q o = Ok q' ∧ fq_ok q' ∧ fq_queue q' = bt_remove (fq_queue q) (order_key o).
Proof.
  intros [Hs Hm Hc] Ho. destruct (set_remove_queued _ _ Hs Ho) as (Hs' & Hp & _).
  destruct (quantities_cons _ _ _ Hp) as (_ & Hqm & Hqc & _).
  unfold fq_remove. rewrite bool_decide_eq_true_2 by (by rewrite Ho). cbn [assert]. rewrite Ok_bind.
  eexists. split; [done|]. split; [|done]. split; cbn [fq_queue fq_mem_usage fq_count]; [done|..].
  - rewrite Hm, Hqm. queue_tac.
  - rewrite Hc, Hqc. queue_tac.
Qed.

(** * The table *)

Abbreviation Cells := (gmap (Public * N) TransactionOrderWithTag).
Definition flat (t : Table Public N TransactionOrderWithTag) : Cells :=
  map_uncurry (M1:=gmap Public) (M2:=gmap N) (M12:=gmap (Public * N)) t.

Lemma flat_lookup t public seq : flat t !! (public, seq) = tb_get t public seq.
Proof. exact (lookup_map_uncurry (M1:=gmap Public) (M2:=gmap N) (MC:=gmap (Public * N)) t public seq). Qed.

(** A table with another row. *)
Lemma flat_row (t : Table Public N TransactionOrderWithTag) public (row : Row) public' seq' :
  flat (<[public := row]> t) !! (public', seq') =
  if decide (public' = public) then row !! seq' else flat t !! (public', seq').
Proof.
  rewrite !flat_lookup. unfold tb_get. case_decide as Hd.
  - subst. by rewrite lookup_insert_eq.
  - by rewrite lookup_insert_ne.
Qed.

Lemma flat_default (t : Table Public N TransactionOrderWithTag) public seq :
  default ∅ (t !! public) !! seq = flat t !! (public, seq).
Proof. rewrite flat_lookup. unfold tb_get. by destruct (t !! public). Qed.

Lemma flat_write t public seq x : flat (write_cell public seq x t) = <[(public, seq) := x]> (flat t).
Proof.
  apply map_eq. intros [public' seq']. unfold write_cell, tb_insert. simpl. rewrite flat_row. case_decide as Hd.
  - subst public'. destruct (decide (seq' = seq)) as [->|]; [by rewrite !lookup_insert_eq|].
    rewrite !lookup_insert_ne by congruence. apply flat_default.
  - by rewrite lookup_insert_ne by congruence.
Qed.

Lemma flat_erase t public seq : flat (erase_cell public seq t) = delete (public, seq) (flat t).
Proof.
  apply map_eq. intros [public' seq']. unfold erase_cell. rewrite flat_row. case_decide as Hd.
  - subst public'. destruct (decide (seq' = seq)) as [->|]; [by rewrite !lookup_delete_eq|].
    rewrite !lookup_delete_ne by congruence. apply flat_default.
  - by rewrite lookup_delete_ne by congruence.
Qed.

Lemma flat_remove t public seq : flat (tb_remove t public seq).2 = delete (public, seq) (flat t).
Proof.
  unfold tb_remove. destruct (t !! public) as [row|] eqn:Hr; simpl.
  - rewrite <-flat_erase. unfold erase_cell. rewrite Hr. simpl. case_bool_decide as He; [|done].
    rewrite He. apply map_eq. intros [public' seq']. rewrite flat_row, flat_lookup. unfold tb_get.
    case_decide as Hd; [subst; by rewrite lookup_delete_eq|]. by rewrite lookup_delete_ne, flat_lookup.
  - symmetry. apply delete_id. rewrite flat_lookup. unfold tb_get. by rewrite Hr.
Qed.

Lemma flat_clear t public : flat (tb_clear_if_empty t public).2 = flat t.
Proof.
  unfold tb_clear_if_empty. destruct (t !! public) as [row|] eqn:Hr; simpl; [|done].
  case_bool_decide as He; [|done]. subst row. apply map_eq. intros [public' seq']. rewrite !flat_lookup. unfold tb_get.
  destruct (decide (public' = public)) as [->|]; [by rewrite lookup_delete_eq, Hr|by rewrite lookup_delete_ne].
Qed.

Lemma flat_insert t public seq x :
  (tb_insert t public seq x).1 = flat t !! (public, seq) ∧
  flat (tb_insert t public seq x).2 = <[(public, seq) := x]> (flat t).
Proof. split; [apply flat_default|apply flat_write]. Qed.

(** The number of its cells. *)
Lemma flat_fresh t public (row : Row) :
  t !! public = None →
  flat (<[public := row]> t) = kmap (pair public) row ∪ flat t ∧ kmap (pair public) row ##ₘ flat t.
Proof.
  intros Hn. assert (∀ seq, flat t !! (public, seq) = None) as Hf
    by (intros seq; rewrite flat_lookup; unfold tb_get; by rewrite Hn).
  split.
  - apply map_eq. intros [public' seq']. rewrite flat_row, lookup_union. case_decide as Hd.
    + subst. rewrite (lookup_kmap (M1:=gmap N) (M2:=gmap (Public * N))), Hf by apply _. by destruct (row !! seq').
    + assert (kmap (M2:=gmap (Public * N)) (pair public) row !! (public', seq') = None) as ->;
        [|by destruct (flat t !! _)].
      apply (lookup_kmap_None (M1:=gmap N) (M2:=gmap (Public * N)) (pair public)). by intros seq [= ??].
  - apply map_disjoint_spec. intros a x y Hx Hy.
    apply (lookup_kmap_Some (M1:=gmap N) (M2:=gmap (Public * N))) in Hx as (seq & -> & _); [|apply _]. by rewrite Hf in Hy.
Qed.

Lemma flat_size t : tb_len t = N.of_nat (size (flat t)).
Proof.
  induction t as [|public row t Hn IH] using map_ind; [done|].
  destruct (flat_fresh t public row Hn) as [-> Hd]. rewrite map_size_disj_union by done.
  unfold tb_len in *. rewrite (sum_with_perm _ _ _ (map_to_list_insert _ _ _ Hn)), sum_with_cons, IH.
  rewrite <-(length_map_to_list (kmap _ row)).
  rewrite (map_to_list_kmap (M1:=gmap N) (M2:=gmap (Public * N))) by apply _.
  rewrite length_fmap, length_map_to_list. lia.
Qed.

(** * Queues and cells *)

Abbreviation order_id x := (to_insertion_id (ot_order x)).

(** The queues hold the orders that the cells tag, each with an id of its own. *)
Record reps (n : N) (cur : CurrentQueue) (fut : FutureQueue) (c : Cells) : Prop := {
  rp_current : cq_ok cur;
  rp_future : fq_ok fut;
  rp_in_current o : queued (cq_queue cur) o ↔ ∃ a, c !! a = Some {| ot_order := o; ot_tag := Current |};
  rp_in_future o : queued (fq_queue fut) o ↔ ∃ a, c !! a = Some {| ot_order := o; ot_tag := Future |};
  rp_ids a b x y : c !! a = Some x → c !! b = Some y → order_id x = order_id y → a = b;
  rp_below a x : c !! a = Some x → order_id x < n;
  rp_bound : n + 1 < u64_size;
}.

(** Orders with ids of their own are no more than the ids. *)
Lemma queue_bounded (q : OrderSet) n (inside : TransactionOrder → Prop) :
  set_ok q → (∀ o, queued q o → inside o ∧ to_insertion_id o < n) →
  (∀ o o', inside o → inside o' → to_insertion_id o = to_insertion_id o' → o = o') → len q ≤ n.
Proof.
  intros Hq Hin Hinj. assert (len q = len ((λ x, to_insertion_id x.2) <$> q)) as -> by (unfold len; by rewrite length_fmap).
  assert (∀ x, x ∈ q → x.1 = order_key x.2 ∧ queued q x.2) as Hx.
  { intros [k o] Hko. pose proof (proj2 Hq k o Hko) as ->. split; [done|]. by apply queued_elem. }
  apply NoDup_bounded.
  - apply NoDup_fmap_2_strong.
    + intros x y Hex Hey He. destruct (Hx x Hex) as [Hkx Hqx], (Hx y Hey) as [Hky Hqy].
      assert (x.2 = y.2) as Hxy by (apply Hinj; [apply Hin; done..|done]).
      destruct x, y. simpl in *. subst. done.
    + eapply NoDup_fmap_1. by apply bt_keys_nodup, Hq.
  - intros i (x & -> & Hex)%list_elem_of_fmap. apply Hin, Hx, Hex.
Qed.

Lemma reps_len n cur fut c : reps n cur fut c → len (cq_queue cur) + 1 < u64_size.
Proof.
  intros [Hc _ Hic _ Hid Hb Hn].
  enough (len (cq_queue cur) ≤ n) by lia.
  apply (queue_bounded _ n (λ o, ∃ a, c !! a = Some {| ot_order := o; ot_tag := Current |})).
  - apply Hc.
  - intros o (a & Ha)%Hic. split; [by exists a|]. by apply Hb in Ha.
  - intros o o' (a & Ha) (b & Hb') He. assert (a = b) as <- by (by eapply Hid). congruence.
Qed.

(** An id that no cell has. *)
Definition fresh_id (c : Cells) (o : TransactionOrder) : Prop :=
  ∀ a x, c !! a = Some x → order_id x ≠ to_insertion_id o.

Lemma set_fresh (q : OrderSet) o :
  set_ok q → (∀ o', queued q o' → to_insertion_id o' ≠ to_insertion_id o) → bt_get q (order_key o) = None.
Proof.
  intros Hq Ho. destruct (bt_get q (order_key o)) as [o'|] eqn:Hg; [|done]. exfalso.
  pose proof Hg as Hin. apply bt_get_elem in Hin; [|apply Hq]. pose proof (proj2 Hq _ _ Hin) as Hk.
  apply (Ho o'); [by unfold queued; rewrite <-Hk|]. by apply order_key_id.
Qed.

Lemma reps_fresh n cur fut c o : reps n cur fut c → fresh_id c o →
  bt_get (cq_queue cur) (order_key o) = None ∧ bt_get (fq_queue fut) (order_key o) = None.
Proof.
  intros Hr Hf. split; apply set_fresh; [apply Hr| |apply Hr|].
  - intros o' (a & Ha)%(rp_in_current _ _ _ _ Hr). exact (Hf a _ Ha).
  - intros o' (a & Ha)%(rp_in_future _ _ _ _ Hr). exact (Hf a _ Ha).
Qed.

(** The cells with one more or one less, as far as they tag orders for a queue. *)
Lemma tagged_insert (c : Cells) a o tag tag' o' :
  c !! a = None →
  (∃ b, <[a := {| ot_order := o; ot_tag := tag |}]> c !! b = Some {| ot_order := o'; ot_tag := tag' |}) ↔
  (tag = tag' ∧ o' = o) ∨ ∃ b, c !! b = Some {| ot_order := o'; ot_tag := tag' |}.
Proof.
  intros Hn. split.
  - intros (b & [[-> He]|[? ?]]%lookup_insert_Some); [left; by simplify_eq|right; eauto].
  - intros [[-> ->]|(b & Hb)]; [exists a; by rewrite lookup_insert_eq|].
    exists b. rewrite lookup_insert_ne; [done|]. intros ->. by rewrite Hn in Hb.
Qed.

Lemma tagged_delete (c : Cells) a x tag' o' :
  c !! a = Some x → (∀ b y, c !! b = Some y → order_id x = order_id y → a = b) →
  (∃ b, delete a c !! b = Some {| ot_order := o'; ot_tag := tag' |}) ↔
  to_insertion_id o' ≠ order_id x ∧ ∃ b, c !! b = Some {| ot_order := o'; ot_tag := tag' |}.
Proof.
  intros Ha Hinj. split.
  - intros (b & [Hne Hb]%lookup_delete_Some). split; [|by exists b]. intros He. apply Hne.
    by apply (Hinj b _ Hb).
  - intros [Hne (b & Hb)]. exists b. rewrite lookup_delete_ne; [done|]. intros <-. rewrite Ha in Hb. by simplify_eq.
Qed.

Lemma reps_put n cur fut c a o tag :
  reps n cur fut c → c !! a = None → to_insertion_id o < n → fresh_id c o →
  reps n (if decide (tag = Current) then cq_insert cur o else cur)
    (if decide (tag = Future) then fq_insert fut o else fut)
    (<[a := {| ot_order := o; ot_tag := tag |}]> c).
Proof.
  intros Hr Ha Hb Hf. pose proof (reps_fresh _ _ _ _ _ Hr Hf) as [Hfc Hff]. pose proof (reps_len _ _ _ _ Hr) as Hl.
  destruct Hr as [Hc Hfu Hic Hif Hid Hbe Hn].
  destruct (cq_insert_ok cur o Hc Hfc Hl) as [Hc' Eqc]. destruct (fq_insert_ok fut o Hfu Hff) as [Hf' Eqf].
  destruct (set_insert_fresh _ o (cq_set _ Hc) Hfc) as (_ & _ & Hqc).
  destruct (set_insert_fresh _ o (fq_set _ Hfu) Hff) as (_ & _ & Hqf).
  split; [by case_decide|by case_decide|..|done].
  - intros o'. rewrite tagged_insert, <-Hic by done. case_decide as Ht; [rewrite Eqc, Hqc|]; tauto.
  - intros o'. rewrite tagged_insert, <-Hif by done. case_decide as Ht; [rewrite Eqf, Hqf|]; tauto.
  - intros b b' x y [[<- <-]|[Hne Hx]]%lookup_insert_Some [[<- <-]|[Hne' Hy]]%lookup_insert_Some He; [done|..].
    + by destruct (Hf _ _ Hy).
    + by destruct (Hf _ _ Hx).
    + by eapply Hid.
  - intros b x [[<- <-]|[Hne Hx]]%lookup_insert_Some; [done|by eapply Hbe].
Qed.

(** The queues without an order that is tagged for one of them. *)
Lemma queued_remove (q : OrderSet) o :
  set_ok q → queued q o → (∀ o', queued q o' → to_insertion_id o' = to_insertion_id o → o' = o) →
  ∀ o', queued (bt_remove q (order_key o)) o' ↔ to_insertion_id o' ≠ to_insertion_id o ∧ queued q o'.
Proof.
  intros Hq Ho Hinj o'. destruct (set_remove_queued q o Hq Ho) as (_ & _ & Hr). rewrite Hr.
  split; (intros [Hne Hq']; split; [|done]).
  - intros He. apply Hne. by rewrite (Hinj o' Hq' He).
  - intros He%order_key_id. done.
Qed.

Lemma reps_without n cur fut c a x cur' fut' :
  reps n cur fut c → c !! a = Some x → cq_ok cur' → fq_ok fut' →
  (∀ o', queued (cq_queue cur') o' ↔ to_insertion_id o' ≠ order_id x ∧ queued (cq_queue cur) o') →
  (∀ o', queued (fq_queue fut') o' ↔ to_insertion_id o' ≠ order_id x ∧ queued (fq_queue fut) o') →
  reps n cur' fut' (delete a c).
Proof.
  intros [Hc Hf Hic Hif Hid Hbe Hn] Ha Hcur Hfut Hqc Hqf.
  assert (∀ b y, c !! b = Some y → order_id x = order_id y → a = b) as Hinj
    by (intros b y Hb He; by apply (Hid a b _ _ Ha Hb)).
  split; [done|done|..|done].
  - intros o'. rewrite Hqc, Hic. by rewrite (tagged_delete c a _ Current o' Ha).
  - intros o'. rewrite Hqf, Hif. by rewrite (tagged_delete c a _ Future o' Ha).
  - intros b b' y z [_ Hy]%lookup_delete_Some [_ Hz]%lookup_delete_Some. by apply Hid.
  - intros b y [_ Hy]%lookup_delete_Some. by eapply Hbe.
Qed.

(** Cells tell orders apart by their ids. *)
Lemma reps_same n cur fut c a b x y :
  reps n cur fut c → c !! a = Some x → c !! b = Some y → order_id x = order_id y → x = y.
Proof. intros Hr Ha Hb He. assert (a = b) as <- by (by eapply (rp_ids _ _ _ _ Hr)). congruence. Qed.

Lemma reps_take n p c a o tag :
  reps n (mp_current p) (mp_future p) c → c !! a = Some {| ot_order := o; ot_tag := tag |} → tag ≠ New →
  ∃ cur fut, unqueue p tag o = Ok (Some (cur, fut)) ∧ reps n cur fut (delete a c).
Proof.
  intros Hr Ha Ht. pose proof (reps_len _ _ _ _ Hr) as Hl.
  assert (∀ o' tag', (∃ b, c !! b = Some {| ot_order := o'; ot_tag := tag' |}) →
    to_insertion_id o' = to_insertion_id o → o' = o ∧ tag' = tag) as Hsame.
  { intros o' tag' (b & Hb) He. pose proof (reps_same _ _ _ _ _ _ _ _ Hr Hb Ha He). naive_solver. }
  destruct tag; [| |done].
  - assert (queued (cq_queue (mp_current p)) o) as Ho by (apply (rp_in_current _ _ _ _ Hr); eauto).
    destruct (cq_remove_ok (E:=PoolError) _ o (rp_current _ _ _ _ Hr) Ho) as (cur & E & Hcur & Eq); [lia|].
    exists cur, (mp_future p). cbn [unqueue]. rewrite E. split; [done|].
    eapply reps_without; [done|done|done|apply Hr|..].
    + rewrite Eq. apply queued_remove; [apply Hr|done|]. intros o' Hq%(rp_in_current _ _ _ _ Hr) He. by eapply Hsame.
    + intros o'. split; [|by intros []]. intros Hq. split; [|done]. intros He.
      apply (rp_in_future _ _ _ _ Hr) in Hq. by destruct (Hsame o' _ Hq He).
  - assert (queued (fq_queue (mp_future p)) o) as Ho by (apply (rp_in_future _ _ _ _ Hr); eauto).
    destruct (fq_remove_ok (E:=PoolError) _ o (rp_future _ _ _ _ Hr) Ho) as (fut & E & Hfut & Eq).
    exists (mp_current p), fut. cbn [unqueue]. rewrite E. split; [done|].
    eapply reps_without; [done|done|apply Hr|done|..].
    + intros o'. split; [|by intros []]. intros Hq. split; [|done]. intros He.
      apply (rp_in_current _ _ _ _ Hr) in Hq. by destruct (Hsame o' _ Hq He).
    + rewrite Eq. apply queued_remove; [apply Hr|done|]. intros o' Hq%(rp_in_future _ _ _ _ Hr) He. by eapply Hsame.
Qed.

(** A new cell is in no queue. *)
Lemma reps_forget n cur fut c a o :
  reps n cur fut c → c !! a = Some {| ot_order := o; ot_tag := New |} → reps n cur fut (delete a c).
Proof.
  intros Hr Ha. eapply reps_without; [done|done|apply Hr|apply Hr|..]; intros o'; (split; [|by intros []]);
    intros Hq; (split; [|done]); intros He.
  - apply (rp_in_current _ _ _ _ Hr) in Hq as (b & Hb). by pose proof (reps_same _ _ _ _ _ _ _ _ Hr Hb Ha He).
  - apply (rp_in_future _ _ _ _ Hr) in Hq as (b & Hb). by pose proof (reps_same _ _ _ _ _ _ _ _ Hr Hb Ha He).
Qed.

Lemma new_queues_ok : cq_ok CurrentQueue_new ∧ fq_ok FutureQueue_new.
Proof.
  assert (set_ok []) as Hs by (split; [constructor|by intros ? ? ?%elem_of_nil]).
  split; (split; [done|..]); try done. constructor.
Qed.

Lemma reps_empty n : n + 1 < u64_size → reps n CurrentQueue_new FutureQueue_new ∅.
Proof.
  intros Hn. destruct new_queues_ok as [Hq1 Hq2]. split; [done|done|..|done].
  - intros o. split; [done|by intros (a & ?)].
  - intros o. split; [done|by intros (a & ?)].
  - by intros a b x y Ha.
  - by intros a x Ha.
Qed.

(** * Cells and items *)

Definition item_at (i : MemPoolItem) : Public * N := (mi_signer_public i, mi_seq i).

(** An order and the item that it stands for; the height and the origin change while it waits. *)
Record describes (o : TransactionOrder) (i : MemPoolItem) : Prop := {
  ds_id : to_insertion_id o = mi_insertion_id i;
  ds_fee : to_fee o = mi_fee i;
  ds_timelock : to_timelock o = mi_timelock i;
  ds_mem_usage : to_mem_usage o = len (rlp_bytes (SignedTransaction_append (mi_tx i)));
}.

(** Two orders of one transaction. *)
Definition same_tx (o o' : TransactionOrder) : Prop :=
  to_hash o = to_hash o' ∧ to_insertion_id o = to_insertion_id o' ∧ to_fee o = to_fee o' ∧
  to_timelock o = to_timelock o' ∧ to_mem_usage o = to_mem_usage o'.

Lemma same_tx_describes o o' i : same_tx o o' → describes o' i → describes o i.
Proof. intros (_ & Hi & Hf & Ht & Hm) [? ? ? ?]. split; congruence. Qed.

Record linked (c : Cells) (m : gmap H256 MemPoolItem) : Prop := {
  lk_cell a x : c !! a = Some x →
    ∃ i, m !! to_hash (ot_order x) = Some i ∧ item_at i = a ∧ describes (ot_order x) i;
  lk_item h i : m !! h = Some i →
    mi_hash i = h ∧ ∃ x, c !! item_at i = Some x ∧ to_hash (ot_order x) = h;
}.

(** Cells with the same hash are the same. *)
Lemma linked_hash c m a b x y :
  linked c m → c !! a = Some x → c !! b = Some y → to_hash (ot_order x) = to_hash (ot_order y) → a = b.
Proof.
  intros [Hc _] (i & Hi & <- & _)%Hc (j & Hj & <- & _)%Hc He. rewrite He in Hi. congruence.
Qed.

Lemma linked_retag c m a x x' :
  linked c m → c !! a = Some x → same_tx (ot_order x') (ot_order x) → linked (<[a := x']> c) m.
Proof.
  intros [Hc Hm] Ha Hst. pose proof (proj1 Hst) as Hh. split.
  - intros b y [[<- <-]|[Hne Hy]]%lookup_insert_Some; [|by apply Hc]. rewrite Hh.
    destruct (Hc _ _ Ha) as (i & Hi & Hat & Hdi). exists i. split; [done|split; [done|]]. by eapply same_tx_describes.
  - intros h i Hhi. destruct (Hm h i Hhi) as (He & y & Hy & Hhy). split; [done|].
    destruct (decide (item_at i = a)) as [Heq|Hne].
    + exists x'. rewrite Heq in *. rewrite lookup_insert_eq, Hh. split; [done|]. rewrite Ha in Hy. by simplify_eq.
    + exists y. by rewrite lookup_insert_ne.
Qed.

Lemma linked_delete c m a x :
  linked c m → c !! a = Some x → linked (delete a c) (delete (to_hash (ot_order x)) m).
Proof.
  intros Hl Ha. split.
  - intros b y [Hne Hy]%lookup_delete_Some. destruct (lk_cell _ _ Hl _ _ Hy) as (i & Hi & Hat & Hid). exists i.
    split; [|done]. rewrite lookup_delete_ne; [done|]. intros He. apply Hne. by eapply linked_hash.
  - intros h i [Hne Hi]%lookup_delete_Some. destruct (lk_item _ _ Hl _ _ Hi) as (He & y & Hy & Hh). split; [done|].
    exists y. split; [|done]. rewrite lookup_delete_ne; [done|]. intros Hat. rewrite <-Hat, Ha in Hy. simplify_eq.
Qed.

Lemma linked_insert c m i o tag :
  linked c m → c !! item_at i = None → m !! mi_hash i = None → to_hash o = mi_hash i → describes o i →
  linked (<[item_at i := {| ot_order := o; ot_tag := tag |}]> c) (<[mi_hash i := i]> m).
Proof.
  intros Hl Ha Hi Hh Hid. split.
  - intros b y [[<- <-]|[Hne Hy]]%lookup_insert_Some.
    + exists i. simpl. by rewrite Hh, lookup_insert_eq.
    + destruct (lk_cell _ _ Hl _ _ Hy) as (j & Hj & Hat & Hjd). exists j. split; [|done].
      rewrite lookup_insert_ne; [done|]. intros He. by rewrite <-He, Hi in Hj.
  - intros h j [[<- <-]|[Hne Hj]]%lookup_insert_Some.
    + split; [done|]. eexists. by rewrite lookup_insert_eq.
    + destruct (lk_item _ _ Hl _ _ Hj) as (He & y & Hy & Hhy). split; [done|]. exists y. split; [|done].
      rewrite lookup_insert_ne; [done|]. intros He'. by rewrite <-He', Ha in Hy.
Qed.

(** An item enters a place that is free, as a new cell. *)
Lemma enter_new n cur fut c m i o :
  reps n cur fut c → linked c m → c !! item_at i = None → m !! mi_hash i = None → to_hash o = mi_hash i →
  describes o i → mi_insertion_id i < n → fresh_id c o →
  let x := {| ot_order := o; ot_tag := New |} in
  reps n cur fut (<[item_at i := x]> c) ∧ linked (<[item_at i := x]> c) (<[mi_hash i := i]> m).
Proof.
  intros Hr Hl Hc Hm Hh Hd Hid Hf. split; [|by apply linked_insert].
  apply (reps_put _ cur fut c (item_at i) o New Hr Hc); [|done]. by rewrite (ds_id _ _ Hd).
Qed.

(** * The database *)

#[export] Instance db_key_inj : Inj (=) (=) db_key.
Proof. intros h h' He. by apply app_inv_head in He. Qed.

Definition item_bytes (i : MemPoolItem) : bytes := rlp_bytes (MemPoolItem_append i).
Definition image (m : gmap H256 MemPoolItem) : Db := kmap (M2:=gmap bytes) db_key (item_bytes <$> m).

Lemma db_write_snoc db batch x :
  db_write db (batch ++ [x]) =
  match x.2 with Some v => <[x.1 := v]> (db_write db batch) | None => delete x.1 (db_write db batch) end.
Proof. unfold db_write. rewrite foldl_app. by destruct x. Qed.

Lemma image_insert m h i : image (<[h := i]> m) = <[db_key h := item_bytes i]> (image m).
Proof. unfold image. by rewrite fmap_insert, (kmap_insert (M1:=gmap H256) (M2:=gmap bytes) db_key). Qed.
Lemma image_delete m h : image (delete h m) = delete (db_key h) (image m).
Proof. unfold image. by rewrite fmap_delete, (kmap_delete (M1:=gmap H256) (M2:=gmap bytes) db_key). Qed.

(** * The pool *)

Abbreviation cells p := (flat (mp_by_signer_public p)).

(** The indices of the pool are in step, and so will the database [db] be once the transaction is written; all
    items are such as [P] says, and their ids are below [n]. *)
Record held (P : MemPoolItem → Prop) (n : N) (db : Db) (p : MemPool) (batch : Batch) : Prop := {
  hd_reps : reps n (mp_current p) (mp_future p) (cells p);
  hd_linked : linked (cells p) (mp_by_hash p);
  hd_db : db_write db batch = image (mp_by_hash p);
  hd_items h i : mp_by_hash p !! h = Some i → P i;
}.

Definition is_new (p : MemPool) (a : Public * N) : Prop :=
  ∃ o, cells p !! a = Some {| ot_order := o; ot_tag := New |}.

(** Between two calls nothing is new. *)
Definition pool_ok (P : MemPoolItem → Prop) (p : MemPool) : Prop :=
  held P (mp_next_transaction_id p) (mp_db p) p [] ∧ ∀ a, ¬ is_new p a.

(** What a step leaves alone: the rows of the table, the limits, and the cells outside [own]. *)
Record keeps_rest (own : Public * N → Prop) (p p' : MemPool) : Prop := {
  kr_rows q : is_Some (mp_by_signer_public p !! q) → is_Some (mp_by_signer_public p' !! q);
  kr_cells a : ¬ own a → cells p' !! a = cells p !! a;
  kr_count : mp_queue_count_limit p' = mp_queue_count_limit p;
  kr_memory : mp_queue_memory_limit p' = mp_queue_memory_limit p;
  kr_next : mp_next_transaction_id p' = mp_next_transaction_id p;
  kr_db : mp_db p' = mp_db p;
}.

Lemma keeps_rest_refl own p : keeps_rest own p p.
Proof. by split. Qed.
Lemma keeps_rest_trans own p1 p2 p3 : keeps_rest own p1 p2 → keeps_rest own p2 p3 → keeps_rest own p1 p3.
Proof.
  intros [Hr Hc Hn Hm Hx Hd] [Hr' Hc' Hn' Hm' Hx' Hd']. split; [auto|..|congruence|congruence|congruence|congruence].
  intros a Ha. by rewrite Hc', Hc.
Qed.
Lemma keeps_rest_weaken own own' p p' : (∀ a, own a → own' a) → keeps_rest own p p' → keeps_rest own' p p'.
Proof. intros Ho [Hr Hc Hn Hm Hx Hd]. split; auto. Qed.
