(* ===== verification/MemPoolSteps.v ===== *)
(** The calls of the memory pool: each keeps the indices in step and none of their assertions fails. *)
From stdpp Require Import base gmap list numbers strings.
From Stdlib Require Import NArith Lia.
From S2P Require Import Prelude Types Crypto Rlp RlpImpls TxHash BTree Header VoteCollector MemPoolTypes MemPool.
From S2P Require Import MemPoolInv.

Local Open Scope N_scope.

(** A loop whose body succeeds under an invariant of what is left to do. *)
Lemma fold_res_inv {E A B : Type} (f : B → A → result E B) (I : list A → B → Prop) l b :
  (∀ x l b, I (x :: l) b → ∃ b', f b x = Ok b' ∧ I l b') → I l b → ∃ b', fold_res f b l = Ok b' ∧ I [] b'.
Proof.
  intros Hf. revert b. induction l as [|x l IH]; intros b Hb; simpl; [by exists b|].
  destruct (Hf x l b Hb) as (b' & -> & Hb'). rewrite Ok_bind. by apply IH.
Qed.

Section Steps.
Context (P : MemPoolItem → Prop) (bound : N) (db : Db).
Abbreviation held := (held P bound db).

(** * One cell *)

Definition enqueue_current (tag : QueueTag) (q : CurrentQueue) (o : TransactionOrder) : CurrentQueue :=
  if decide (tag = Current) then cq_insert q o else q.
Definition enqueue_future (tag : QueueTag) (q : FutureQueue) (o : TransactionOrder) : FutureQueue :=
  if decide (tag = Future) then fq_insert q o else q.

(** A cell is put back with an order of the same transaction, once the old one has left its queue. *)
Lemma held_put p batch cur fut a x o tag t :
  held p batch → cells p !! a = Some x → reps bound cur fut (delete a (cells p)) →
  same_tx o (ot_order x) →
  flat t = <[a := {| ot_order := o; ot_tag := tag |}]> (cells p) →
  held (set_indices (enqueue_current tag cur o) (enqueue_future tag fut o) t (mp_by_hash p) p) batch.
Proof.
  intros [Hr Hl Hd Hit] Ha Hcf Hst Ht. pose proof (proj1 (proj2 Hst)) as Hi. split; [..|exact Hd|exact Hit]; cbn [set_indices mp_next_transaction_id mp_current
    mp_future mp_by_signer_public mp_by_hash]; rewrite Ht.
  - rewrite <-insert_delete_eq. apply reps_put; [done|by rewrite lookup_delete_eq|..].
    + rewrite Hi. exact (rp_below _ _ _ _ Hr _ _ Ha).
    + intros b y [Hne Hy]%lookup_delete_Some He. apply Hne. eapply (rp_ids _ _ _ _ Hr); [done|done|]. congruence.
  - by eapply linked_retag.
Qed.

Lemma held_requeue p batch a x :
  held p batch → cells p !! a = Some x → ot_tag x ≠ New →
  ∃ cur fut, unqueue p (ot_tag x) (ot_order x) = Ok (Some (cur, fut)) ∧
    reps bound cur fut (delete a (cells p)).
Proof. intros Hh Ha Ht. destruct x as [o tag]. by eapply reps_take; [apply Hh|..]. Qed.

(** A cell is removed, with its item. *)
Lemma held_drop p batch cur fut a x t :
  held p batch → cells p !! a = Some x → reps bound cur fut (delete a (cells p)) →
  flat t = delete a (cells p) →
  held (set_indices cur fut t (delete (to_hash (ot_order x)) (mp_by_hash p)) p)
    (remove_item batch (to_hash (ot_order x))).
Proof.
  intros [Hr Hl Hd Hit] Ha Hcf Ht. split; cbn [set_indices mp_next_transaction_id mp_current mp_future
    mp_by_signer_public mp_by_hash mp_db].
  - by rewrite Ht.
  - rewrite Ht. by apply linked_delete.
  - unfold remove_item. rewrite db_write_snoc, image_delete. simpl. by rewrite Hd.
  - intros h i [_ Hi]%lookup_delete_Some. by eapply Hit.
Qed.

(** What a step does to the indices, away from the accounts. *)
Lemma keeps_rest_indices (own : Public * N → Prop) p cur fut t m :
  (∀ q, is_Some (mp_by_signer_public p !! q) → is_Some (t !! q)) →
  (∀ a, ¬ own a → flat t !! a = cells p !! a) → keeps_rest own p (set_indices cur fut t m p).
Proof. intros Hr Hc. by split. Qed.

Lemma write_cell_rows t public seq x q : is_Some (t !! q) → is_Some (write_cell public seq x t !! q).
Proof.
  intros Hq. unfold write_cell, tb_insert. simpl. destruct (decide (q = public)) as [->|].
  - by rewrite lookup_insert_eq.
  - by rewrite lookup_insert_ne.
Qed.
Lemma erase_cell_rows t public seq q : is_Some (t !! q) → is_Some (erase_cell public seq t !! q).
Proof.
  intros Hq. unfold erase_cell. destruct (decide (q = public)) as [->|].
  - by rewrite lookup_insert_eq.
  - by rewrite lookup_insert_ne.
Qed.

(** * The queues of an account *)

(** A step on the cells of one account that makes nothing new. *)
Record account_step (public : Public) (p p' : MemPool) : Prop := {
  as_rest : keeps_rest (λ a, a.1 = public) p p';
  as_new seq : is_new p' (public, seq) ↔ is_new p (public, seq);
}.

Lemma account_step_refl public p : account_step public p p.
Proof. split; [apply keeps_rest_refl|done]. Qed.
Lemma account_step_trans public p1 p2 p3 :
  account_step public p1 p2 → account_step public p2 p3 → account_step public p1 p3.
Proof. intros [H1 N1] [H2 N2]. split; [by eapply keeps_rest_trans|]. intros seq. by rewrite N2. Qed.

(** Writing a cell that was not new and does not become new. *)
Lemma account_step_cell public seq x p cur fut t m :
  (∀ q, is_Some (mp_by_signer_public p !! q) → is_Some (t !! q)) →
  (∀ a, a ≠ (public, seq) → flat t !! a = cells p !! a) →
  cells p !! (public, seq) = Some x → ot_tag x ≠ New →
  (∀ o, flat t !! (public, seq) ≠ Some {| ot_order := o; ot_tag := New |}) →
  account_step public p (set_indices cur fut t m p).
Proof.
  intros Hr Hc Hx Hn Hn'. split.
  - apply keeps_rest_indices; [done|]. intros a Ha. apply Hc. by intros ->.
  - intros seq'. unfold is_new. cbn [set_indices mp_by_signer_public].
    destruct (decide (seq' = seq)) as [->|Hne].
    + split; [intros (o & Ho); by destruct (Hn' o)|]. intros (o & Ho). rewrite Hx in Ho. by simplify_eq.
    + by rewrite Hc by congruence.
Qed.

(** A cell that is written over, in whatever queues. *)
Lemma account_step_write public seq x o tag p cur fut m :
  cells p !! (public, seq) = Some x → ot_tag x ≠ New → tag ≠ New →
  account_step public p (set_indices cur fut
    (write_cell public seq {| ot_order := o; ot_tag := tag |} (mp_by_signer_public p)) m p).
Proof.
  intros Hx Hn Ht. eapply account_step_cell; [by intros; apply write_cell_rows| |done|done|].
  - intros a Hne. rewrite flat_write. by rewrite lookup_insert_ne.
  - intros o' Ho'. rewrite flat_write, lookup_insert_eq in Ho'. by simplify_eq.
Qed.

Lemma move_one_ok public to p batch seq :
  held p batch → ∃ p', move_one public to p seq = Ok p' ∧ held p' batch ∧ account_step public p p'.
Proof.
  intros Hh. unfold move_one. rewrite <-flat_lookup.
  destruct (cells p !! (public, seq)) as [[o tag]|] eqn:Ha;
    [|exists p; split; [done|split; [done|apply account_step_refl]]].
  assert (∃ p', Ok (E:=PoolError) p = Ok p' ∧ held p' batch ∧ account_step public p p') as Hstay
    by (exists p; split; [done|split; [done|apply account_step_refl]]).
  destruct tag, to; try exact Hstay.
  - destruct (held_requeue _ _ _ _ Hh Ha) as (cur & fut & Hu & Hr); [done|]. cbn in Hu.
    apply bind_Ok in Hu as (cur' & -> & [= -> <-]). rewrite Ok_bind. eexists. split; [done|]. split.
    + eapply (held_put p batch cur (mp_future p) (public, seq) _ o Future); [done|exact Ha|done|done|apply flat_write].
    + by eapply account_step_write.
  - destruct (held_requeue _ _ _ _ Hh Ha) as (cur & fut & Hu & Hr); [done|]. cbn in Hu.
    apply bind_Ok in Hu as (fut' & -> & [= <- ->]). rewrite Ok_bind. eexists. split; [done|]. split.
    + eapply (held_put p batch (mp_current p) fut (public, seq) _ o Current); [done|exact Ha|done|done|apply flat_write].
    + by eapply account_step_write.
Qed.

Lemma move_queue_ok public to p batch start end_ :
  held p batch → is_Some (mp_by_signer_public p !! public) →
  ∃ p', move_queue p public start end_ to = Ok p' ∧ held p' batch ∧ account_step public p p'.
Proof.
  intros Hh [row Hrow]. unfold move_queue. rewrite Hrow. cbn [expect]. rewrite Ok_bind.
  apply (fold_res_inv (move_one public to) (λ _ p', held p' batch ∧ account_step public p p')).
  - intros seq l p' [Hh' Hs]. destruct (move_one_ok public to p' batch seq Hh') as (p'' & E & Hh'' & Hs').
    exists p''. split; [done|]. split; [done|by eapply account_step_trans].
  - split; [done|apply account_step_refl].
Qed.

(** A new cell enters a queue. *)
Lemma add_new_order_ok public new_next_seq p batch seq :
  held p batch → is_new p (public, seq) →
  ∃ p', add_new_order public new_next_seq p seq = Ok p' ∧ held p' batch ∧
    keeps_rest (λ a, a = (public, seq)) p p' ∧ ¬ is_new p' (public, seq).
Proof.
  intros Hh (o & Ha). unfold add_new_order. rewrite <-flat_lookup, Ha. cbn [expect]. rewrite Ok_bind. cbn [ot_tag ot_order].
  pose proof (reps_forget _ _ _ _ _ _ (hd_reps _ _ _ _ _ Hh) Ha) as Hr.
  assert (∀ tag cur fut, tag ≠ New →
    let p' := set_indices cur fut (write_cell public seq {| ot_order := o; ot_tag := tag |} (mp_by_signer_public p))
                (mp_by_hash p) p in
    keeps_rest (λ a, a = (public, seq)) p p' ∧ ¬ is_new p' (public, seq)) as Hs.
  { intros tag cur fut Ht. split.
    - apply keeps_rest_indices; [by intros; apply write_cell_rows|]. intros a Hne. rewrite flat_write.
      by rewrite lookup_insert_ne.
    - intros (o' & Ho'). cbn [set_indices mp_by_signer_public] in Ho'. rewrite flat_write, lookup_insert_eq in Ho'. by simplify_eq. }
  eexists. split; [done|]. destruct (seq <? new_next_seq).
  - split; [|by apply Hs].
    eapply (held_put p batch (mp_current p) (mp_future p) (public, seq) _ o Current); [done|exact Ha|done|done|apply flat_write].
  - split; [|by apply Hs].
    eapply (held_put p batch (mp_current p) (mp_future p) (public, seq) _ o Future); [done|exact Ha|done|done|apply flat_write].
Qed.

(** The new cells of an account enter its queues. *)
Lemma add_new_orders_ok public new_next_seq seqs p batch :
  held p batch → is_Some (mp_by_signer_public p !! public) → NoDup seqs →
  (∀ seq, is_new p (public, seq) ↔ seq ∈ seqs) →
  ∃ p', add_new_orders_to_queue p public seqs new_next_seq = Ok p' ∧ held p' batch ∧
    keeps_rest (λ a, a.1 = public) p p' ∧ ∀ seq, ¬ is_new p' (public, seq).
Proof.
  intros Hh [row Hrow] Hnd Hnew. unfold add_new_orders_to_queue. rewrite Hrow. cbn [expect]. rewrite Ok_bind.
  destruct (fold_res_inv (add_new_order public new_next_seq) (λ l p', held p' batch ∧ NoDup l ∧
    (∀ seq, is_new p' (public, seq) ↔ seq ∈ l) ∧ keeps_rest (λ a, a.1 = public) p p') seqs p)
    as (p' & E & Hh' & _ & Hn & Hk).
  - intros seq l p' (Hh' & [Hni Hl]%NoDup_cons & Hn & Hk).
    destruct (add_new_order_ok public new_next_seq p' batch seq Hh') as (p'' & E & Hh'' & Hk' & Hn'); [apply Hn; by left|].
    exists p''. split; [done|]. split; [done|]. split; [done|]. split.
    + intros seq'. destruct (decide (seq' = seq)) as [->|Hne]; [done|]. specialize (Hn seq'). rewrite elem_of_cons in Hn.
      unfold is_new in *. rewrite (kr_cells _ _ _ Hk') by congruence. tauto.
    + eapply keeps_rest_trans; [done|]. eapply keeps_rest_weaken; [|done]. by intros a ->.
  - split; [done|]. split; [done|]. split; [done|apply keeps_rest_refl].
  - exists p'. split; [done|]. split; [done|]. split; [done|]. intros seq Hs%Hn. by apply elem_of_nil in Hs.
Qed.

(** An order is updated: it leaves the pool if it is old, and is queued anew otherwise. *)
Lemma update_order_ok public current_seq new_next_seq to_local p batch seq x :
  held p batch → cells p !! (public, seq) = Some x →
  ∃ p' batch', update_order public current_seq new_next_seq to_local (p, batch) seq = Ok (p', batch') ∧
    held p' batch' ∧ account_step public p p' ∧
    ∀ seq', seq' ≠ seq → cells p' !! (public, seq') = cells p !! (public, seq').
Proof.
  intros Hh Ha. unfold update_order. rewrite <-flat_lookup, Ha. cbn [expect]. rewrite Ok_bind.
  destruct (decide (ot_tag x = New)) as [Hn|Hn].
  { rewrite Hn. cbn [unqueue]. rewrite Ok_bind. exists p, batch. split; [done|]. split; [done|].
    split; [apply account_step_refl|done]. }
  destruct (held_requeue _ _ _ _ Hh Ha Hn) as (cur & fut & -> & Hr). rewrite Ok_bind.
  assert (flat (erase_cell public seq (mp_by_signer_public p)) = delete (public, seq) (cells p)) as He by apply flat_erase.
  destruct (seq <? current_seq).
  - do 2 eexists. split; [done|]. split; [by eapply held_drop|]. split.
    + eapply account_step_cell; [by intros; apply erase_cell_rows| |done|done|].
      * intros a Hne. rewrite He. by rewrite lookup_delete_ne.
      * intros o. rewrite He. by rewrite lookup_delete_eq.
    + intros seq' Hne. cbn [set_indices mp_by_signer_public]. rewrite He. by rewrite lookup_delete_ne by congruence.
  - set (o := if to_local then _ else _).
    assert (same_tx o (ot_order x)) as Hst by (by subst o; destruct to_local).
    clearbody o.
    assert (∀ tag, flat (write_cell public seq {| ot_order := o; ot_tag := tag |}
      (erase_cell public seq (mp_by_signer_public p))) = <[(public, seq) := {| ot_order := o; ot_tag := tag |}]> (cells p))
      as Hw by (intros tag; by rewrite flat_write, He, insert_delete_eq).
    assert (∀ tag cur' fut', tag ≠ New →
      let p' := set_indices cur' fut' (write_cell public seq {| ot_order := o; ot_tag := tag |}
                  (erase_cell public seq (mp_by_signer_public p))) (mp_by_hash p) p in
      account_step public p p' ∧ ∀ seq', seq' ≠ seq → cells p' !! (public, seq') = cells p !! (public, seq')) as Hs.
    { intros tag cur' fut' Ht. split.
      - eapply account_step_cell; [by intros; apply write_cell_rows, erase_cell_rows| |done|done|].
        + intros a Hne. rewrite Hw. by rewrite lookup_insert_ne.
        + intros o' Ho'. rewrite Hw, lookup_insert_eq in Ho'. by simplify_eq.
      - intros seq' Hne. cbn [set_indices mp_by_signer_public]. rewrite Hw. by rewrite lookup_insert_ne by congruence. }
    do 2 eexists. split; [done|]. destruct (seq <? new_next_seq).
    + split; [|by apply Hs]. by eapply (held_put p batch cur fut (public, seq) _ o Current).
    + split; [|by apply Hs]. by eapply (held_put p batch cur fut (public, seq) _ o Future).
Qed.

Context `{Crypto, HashOrderLaws}.

Lemma update_orders_ok p public current_seq new_next_seq to_local batch :
  held p batch → is_Some (mp_by_signer_public p !! public) →
  ∃ p' batch', update_orders p public current_seq new_next_seq to_local batch = Ok (p', batch') ∧
    held p' batch' ∧ account_step public p p'.
Proof.
  intros Hh [row Hrow]. unfold update_orders. rewrite Hrow. cbn [expect]. rewrite Ok_bind.
  destruct (fold_res_inv (update_order public current_seq new_next_seq to_local)
    (λ l st, held st.1 st.2 ∧ account_step public p st.1 ∧ NoDup l ∧
      ∀ seq, seq ∈ l → is_Some (cells st.1 !! (public, seq))) (walk (map_to_list row).*1) (p, batch))
    as ([p' batch'] & E & Hh' & Hs & _).
  - intros seq l [p' batch'] (Hh' & Hs & [Hni Hl]%NoDup_cons & Hall). cbn [fst snd] in *.
    destruct (Hall seq) as [x Hx]; [by left|].
    destruct (update_order_ok public current_seq new_next_seq to_local p' batch' seq x Hh' Hx)
      as (p'' & batch'' & E & Hh'' & Hs' & Hc).
    exists (p'', batch''). split; [done|]. split; [done|]. split; [by eapply account_step_trans|]. split; [done|].
    intros seq' Hin. cbn. rewrite Hc; [apply Hall; by right|]. by intros ->.
  - cbn. split; [done|]. split; [apply account_step_refl|]. split.
    + rewrite walk_perm. apply NoDup_fst_map_to_list.
    + intros seq Hin. rewrite walk_perm in Hin. apply list_elem_of_fmap in Hin as ([s x] & -> & Hx%elem_of_map_to_list).
      rewrite flat_lookup. unfold tb_get. rewrite Hrow. simpl. by rewrite Hx.
  - exists p', batch'. done.
Qed.

(** * One account *)

Lemma held_accounts p batch fs ns ls : held p batch → held (set_accounts fs ns ls p) batch.
Proof. by intros [Hr Hl Hd Hit]. Qed.
Lemma account_step_accounts public p p' fs ns ls :
  account_step public p p' → account_step public p (set_accounts fs ns ls p').
Proof. intros [[Hr Hc Hn Hm Hx Hd] Hnew]. by repeat split; try apply Hnew. Qed.

Lemma update_account_ok p batch public current_seq next_seq new_next_seq to_local :
  held p batch → is_Some (mp_by_signer_public p !! public) →
  ∃ p' batch', update_account p batch public current_seq next_seq new_next_seq to_local = Ok (p', batch') ∧
    held p' batch' ∧ account_step public p p'.
Proof.
  intros Hh Hrow. unfold update_account.
  assert (∃ p' batch' first_seq,
    (if negb (current_seq =? default 0 (mp_first_seqs p !! public)) || to_local then
       '(p, batch) ← update_orders p public current_seq new_next_seq to_local batch;
       Ok (set_accounts (<[public := current_seq]> (mp_first_seqs p)) (mp_next_seqs p) (mp_is_local_account p) p,
           batch, current_seq)
     else if new_next_seq <? next_seq then
       p' ← move_queue p public new_next_seq next_seq Future; Ok (p', batch, default 0 (mp_first_seqs p !! public))
     else if next_seq <? new_next_seq then
       p' ← move_queue p public next_seq new_next_seq Current; Ok (p', batch, default 0 (mp_first_seqs p !! public))
     else Ok (p, batch, default 0 (mp_first_seqs p !! public))) = Ok (p', batch', first_seq) ∧
    held p' batch' ∧ account_step public p p') as (p' & batch' & first_seq & -> & Hh' & Hs).
  { destruct (negb _ || _); [|destruct (new_next_seq <? next_seq); [|destruct (next_seq <? new_next_seq)]].
    - destruct (update_orders_ok p public current_seq new_next_seq to_local batch Hh Hrow) as (p' & batch' & -> & Hh' & Hs).
      rewrite Ok_bind. do 3 eexists. split; [done|]. split; [by apply held_accounts|by apply account_step_accounts].
    - destruct (move_queue_ok public Future p batch new_next_seq next_seq Hh Hrow) as (p' & -> & Hh' & Hs).
      rewrite Ok_bind. by do 3 eexists.
    - destruct (move_queue_ok public Current p batch next_seq new_next_seq Hh Hrow) as (p' & -> & Hh' & Hs).
      rewrite Ok_bind. by do 3 eexists.
    - do 3 eexists. split; [done|]. split; [done|apply account_step_refl]. }
  rewrite Ok_bind. do 2 eexists. split; [done|]. split; [by apply held_accounts|by apply account_step_accounts].
Qed.

(** What is left alone when an account is done: the other accounts. *)
Record keeps_others (public : Public) (p p' : MemPool) : Prop := {
  ko_rows q : q ≠ public → is_Some (mp_by_signer_public p !! q) → is_Some (mp_by_signer_public p' !! q);
  ko_cells a : a.1 ≠ public → cells p' !! a = cells p !! a;
  ko_count : mp_queue_count_limit p' = mp_queue_count_limit p;
  ko_memory : mp_queue_memory_limit p' = mp_queue_memory_limit p;
  ko_next : mp_next_transaction_id p' = mp_next_transaction_id p;
  ko_db : mp_db p' = mp_db p;
}.

Lemma clear_account_ok public p batch :
  held p batch →
  held (clear_account public p) batch ∧ keeps_others public p (clear_account public p) ∧
  ∀ a, is_new (clear_account public p) a ↔ is_new p a.
Proof.
  intros [Hr Hl Hd Hit]. unfold clear_account. pose proof (flat_clear (mp_by_signer_public p) public) as Hf.
  assert (∀ q, q ≠ public → (tb_clear_if_empty (mp_by_signer_public p) public).2 !! q = mp_by_signer_public p !! q) as Hq.
  { intros q Hne. unfold tb_clear_if_empty. destruct (mp_by_signer_public p !! public); simpl; [|done].
    case_bool_decide; [by rewrite lookup_delete_ne|done]. }
  destruct (tb_clear_if_empty (mp_by_signer_public p) public) as [cleared t]. cbn [snd] in *.
  assert (∀ p', p' = set_indices (mp_current p) (mp_future p) t (mp_by_hash p) p →
    held p' batch ∧ keeps_others public p p' ∧ ∀ a, is_new p' a ↔ is_new p a) as Hall.
  { intros p' ->. split; [|split].
    - split; cbn [set_indices mp_by_signer_public mp_by_hash mp_current mp_future mp_next_transaction_id mp_db];
        rewrite ?Hf; done.
    - split; cbn [set_indices mp_by_signer_public mp_queue_count_limit mp_queue_memory_limit]; [|by rewrite Hf|done..].
      intros q Hne. by rewrite Hq.
    - intros a. unfold is_new. cbn [set_indices mp_by_signer_public]. by rewrite Hf. }
  destruct cleared; [|by apply Hall]. destruct (Hall _ eq_refl) as (Hh' & [Hk1 Hk2 Hk3 Hk4 Hk5 Hk6] & Hn).
  split; [by apply held_accounts|]. split; [by split|done].
Qed.

Lemma check_transactions_ok p public start n t :
  is_Some (mp_by_signer_public p !! public) → ∃ r, check_transactions p public start n t = Ok r.
Proof. intros [row Hrow]. unfold check_transactions. rewrite Hrow. cbn [expect]. rewrite Ok_bind. by eexists. Qed.

Lemma check_new_transactions_ok p public seqs next n t :
  is_Some (mp_by_signer_public p !! public) → (∀ seq, seq ∈ seqs → is_Some (cells p !! (public, seq))) →
  ∃ r, check_new_transactions p public seqs next n t = Ok r.
Proof.
  intros [row Hrow] Hall. unfold check_new_transactions. rewrite Hrow. cbn [expect]. rewrite Ok_bind.
  destruct (fold_res_inv (E:=PoolError) (λ result seq,
    if next <=? seq then Ok result
    else
      order_with_tag ← expect ((row : Row) !! seq);
      Ok (if should_wait_timelock (to_timelock (ot_order order_with_tag)) n t
             && match result with None => true | Some r => seq <? r end
          then Some seq else result)) (λ l _, ∀ seq, seq ∈ l → is_Some (row !! seq)) seqs None) as (r & E & _).
  - intros seq l r Hl. assert (∀ seq', seq' ∈ l → is_Some (row !! seq')) as Hl' by (intros; apply Hl; by right).
    destruct (next <=? seq); [by eexists|]. destruct (Hl seq) as [x ->]; [by left|]. cbn [expect]. rewrite Ok_bind. by eexists.
  - intros seq Hin. destruct (Hall seq Hin) as [x Hx]. rewrite flat_lookup in Hx. unfold tb_get in Hx.
    rewrite Hrow in Hx. simpl in Hx. by rewrite Hx.
  - exists r. exact E.
Qed.

Lemma account_step_others public p p' : account_step public p p' → keeps_others public p p'.
Proof. intros [[Hr Hc Hn Hm Hx Hd] _]. split; [by intros q _; apply Hr|done..]. Qed.
Lemma keeps_others_trans public p1 p2 p3 :
  keeps_others public p1 p2 → keeps_others public p2 p3 → keeps_others public p1 p3.
Proof.
  intros [Hr Hc Hn Hm Hx Hd] [Hr' Hc' Hn' Hm' Hx' Hd']. split; [auto|..|congruence|congruence|congruence|congruence].
  intros a Ha. by rewrite Hc', Hc.
Qed.

(** An account of [add]: its new cells are the ones that were inserted, and enter the queues. *)
Lemma add_account_ok n t fetch_account to_insert new_local p batch public :
  held p batch → is_Some (mp_by_signer_public p !! public) → NoDup (default [] (to_insert !! public)) →
  (∀ seq, is_new p (public, seq) ↔ seq ∈ default [] (to_insert !! public)) →
  ∃ p' batch', add_account n t fetch_account to_insert new_local (p, batch) public = Ok (p', batch') ∧
    held p' batch' ∧ keeps_others public p p' ∧ ∀ seq, ¬ is_new p' (public, seq).
Proof.
  intros Hh Hrow Hnd Hnew. unfold add_account. set (cs := ad_seq _). set (ns := default cs _).
  assert (∃ nns, (if starts_over p public cs ns n t then check_transactions p public cs n t
    else smallest ← match to_insert !! public with
                    | Some v => check_new_transactions p public v ns n t
                    | None => Ok None
                    end;
         match smallest with
         | Some seq => Ok seq
         | None => check_transactions p public ns n t
         end) = Ok nns) as [nns ->].
  { destruct (starts_over _ _ _ _ _ _); [by apply check_transactions_ok|].
    assert (∃ r, match to_insert !! public with
                 | Some v => check_new_transactions p public v ns n t | None => Ok None end = Ok r) as [[r|] ->].
    - destruct (to_insert !! public) as [v|] eqn:Hv; [|by eexists]. apply check_new_transactions_ok; [done|].
      intros seq Hin. destruct (proj2 (Hnew seq) Hin) as (o & Ho). by rewrite Ho.
    - by eexists.
    - by apply check_transactions_ok. }
  rewrite Ok_bind. set (loc := bool_decide _).
  destruct (update_account_ok p batch public cs ns nns loc Hh Hrow) as (p1 & batch1 & -> & Hh1 & Hs1). rewrite Ok_bind.
  assert (∃ p2, match to_insert !! public with
                | Some seqs => add_new_orders_to_queue p1 public seqs nns | None => Ok p1 end = Ok p2 ∧
    held p2 batch1 ∧ keeps_others public p1 p2 ∧ ∀ seq, ¬ is_new p2 (public, seq)) as (p2 & -> & Hh2 & Hk2 & Hn2).
  { assert (∀ seq, is_new p1 (public, seq) ↔ seq ∈ default [] (to_insert !! public)) as Hn1
      by (intros seq; rewrite (as_new _ _ _ Hs1); apply Hnew).
    destruct (to_insert !! public) as [seqs|].
    - destruct (add_new_orders_ok public nns seqs p1 batch1 Hh1) as (p2 & -> & Hh2 & [Hr2 Hc2 Hl2 Hm2 Hx2 Hd2] & Hn2); [|done|done|].
      + by apply (kr_rows _ _ _ (as_rest _ _ _ Hs1)).
      + exists p2. split; [done|]. split; [done|]. split; [|done]. split; [by intros q _; apply Hr2|done..].
    - exists p1. split; [done|]. split; [done|]. split; [apply account_step_others, account_step_refl|].
      intros seq Hs%Hn1. by apply elem_of_nil in Hs. }
  rewrite Ok_bind. destruct (clear_account_ok public p2 batch1 Hh2) as (Hh3 & Hk3 & Hn3).
  do 2 eexists. split; [done|]. split; [done|]. split.
  - eapply keeps_others_trans; [by apply account_step_others|]. by eapply keeps_others_trans.
  - intros seq. rewrite Hn3. apply Hn2.
Qed.

Lemma remove_account_ok n t fetch_seq removed p batch public cs :
  held p batch → is_Some (mp_by_signer_public p !! public) → fetch_seq public = Ok cs →
  (∀ seq, ¬ is_new p (public, seq)) →
  ∃ p' batch', remove_account fetch_seq n t removed (p, batch) public = Ok (p', batch') ∧
    held p' batch' ∧ keeps_others public p p' ∧ ∀ seq, ¬ is_new p' (public, seq).
Proof.
  intros Hh Hrow Hf Hnew. unfold remove_account. rewrite Hf, Ok_bind. set (ns := default cs _).
  assert (∃ nns, (if starts_over p public cs ns n t then check_transactions p public cs n t
    else match removed !! public with
         | Some seq => Ok seq
         | None => check_transactions p public ns n t
         end) = Ok nns) as [nns ->].
  { destruct (starts_over _ _ _ _ _ _); [by apply check_transactions_ok|].
    destruct (removed !! public); [by eexists|by apply check_transactions_ok]. }
  rewrite Ok_bind.
  destruct (update_account_ok p batch public cs ns nns false Hh Hrow) as (p1 & batch1 & -> & Hh1 & Hs1). rewrite Ok_bind.
  destruct (clear_account_ok public p1 batch1 Hh1) as (Hh2 & Hk2 & Hn2).
  do 2 eexists. split; [done|]. split; [done|]. split.
  - eapply keeps_others_trans; [by apply account_step_others|done].
  - intros seq. rewrite Hn2, (as_new _ _ _ Hs1). apply Hnew.
Qed.

(** * All accounts *)

(** What the accounts and the limits are not about. *)
Definition same_limits (p p' : MemPool) : Prop :=
  mp_queue_count_limit p' = mp_queue_count_limit p ∧ mp_queue_memory_limit p' = mp_queue_memory_limit p ∧
  mp_next_transaction_id p' = mp_next_transaction_id p ∧ mp_db p' = mp_db p.
Definition same_bounds (p p' : MemPool) : Prop :=
  mp_queue_count_limit p' = mp_queue_count_limit p ∧ mp_queue_memory_limit p' = mp_queue_memory_limit p ∧
  mp_next_transaction_id p' = mp_next_transaction_id p.
Lemma same_limits_trans p1 p2 p3 : same_limits p1 p2 → same_limits p2 p3 → same_limits p1 p3.
Proof. intros (? & ? & ? & ?) (? & ? & ? & ?). repeat split; congruence. Qed.

(** The accounts are walked one by one, by a step that settles each. *)
Lemma accounts_ok (step : MemPool * Batch → Public → poolR (MemPool * Batch)) (ready : MemPool → Public → Prop) p batch :
  (∀ p p' q q', keeps_others q' p p' → q ≠ q' → ready p q → ready p' q) →
  (∀ p batch q, held p batch → is_Some (mp_by_signer_public p !! q) → ready p q →
    ∃ p' batch', step (p, batch) q = Ok (p', batch') ∧ held p' batch' ∧ keeps_others q p p' ∧
      ∀ seq, ¬ is_new p' (q, seq)) →
  held p batch → (∀ q, is_Some (mp_by_signer_public p !! q) → ready p q) →
  ∃ p' batch', fold_res step (p, batch) (walk (map_to_list (mp_by_signer_public p)).*1) = Ok (p', batch') ∧
    held p' batch' ∧ (∀ a, ¬ is_new p' a) ∧ same_limits p p'.
Proof.
  intros Hready Hstep Hh Hall.
  destruct (fold_res_inv step (λ l st, held st.1 st.2 ∧ NoDup l ∧
    (∀ q, q ∈ l → is_Some (mp_by_signer_public st.1 !! q) ∧ ready st.1 q) ∧ (∀ a, is_new st.1 a → a.1 ∈ l) ∧
    same_limits p st.1)
    (walk (map_to_list (mp_by_signer_public p)).*1) (p, batch)) as ([p' batch'] & E & Hh' & _ & _ & Hn & Hl).
  - intros q l [p1 batch1] (Hh1 & [Hni Hnd]%NoDup_cons & Hq & Hn & Hl). cbn [fst snd] in *.
    destruct (Hq q) as [Hrow Hr]; [by left|].
    destruct (Hstep p1 batch1 q Hh1 Hrow Hr) as (p2 & batch2 & E & Hh2 & Hk & Hn2).
    exists (p2, batch2). split; [done|]. cbn [fst snd]. split; [done|]. split; [done|]. split; [|split].
    + intros q' Hin. assert (q' ≠ q) by (by intros ->). destruct (Hq q') as [Hrow' Hr']; [by right|].
      split; [by apply (ko_rows _ _ _ Hk)|by eapply Hready].
    + intros [q' seq] Hs. cbn. destruct (decide (q' = q)) as [->|Hne]; [by destruct (Hn2 seq)|].
      unfold is_new in Hs. rewrite (ko_cells _ _ _ Hk) in Hs by done. apply Hn in Hs as [?|?]%elem_of_cons; done.
    + eapply same_limits_trans; [done|]. by destruct Hk.
  - cbn [fst snd]. split; [done|]. split; [rewrite walk_perm; apply NoDup_fst_map_to_list|]. split; [|split; [|done]].
    + intros q Hin. rewrite walk_perm in Hin. apply list_elem_of_fmap in Hin as ([q' row] & -> & Hx%elem_of_map_to_list).
      cbn. assert (is_Some (mp_by_signer_public p !! q')) by (by rewrite Hx). auto.
    + intros [q seq] (o & Ho). rewrite flat_lookup in Ho. unfold tb_get in Ho. cbn. rewrite walk_perm.
      destruct (mp_by_signer_public p !! q) as [row|] eqn:Hrow; [|done]. apply list_elem_of_fmap.
      exists (q, row). split; [done|]. by apply elem_of_map_to_list.
  - exists p', batch'. split; [done|]. split; [done|]. split; [|done]. intros a Ha%Hn. by apply elem_of_nil in Ha.
Qed.

(** * Limits *)

(** What [get_orders_to_drop] drops and what it keeps. *)
Definition is_over (limit memory_limit count mem_usage : N) (o : TransactionOrder) : bool :=
  negb (is_local_or_retracted (to_origin o)) && ((memory_limit <? mem_usage) || (limit <? count)).
Fixpoint split_over (limit memory_limit count mem_usage : N) (l : list TransactionOrder)
  : list TransactionOrder * list TransactionOrder :=
  match l with
  | [] => ([], [])
  | o :: l =>
      let count := u64_add count 1 in
      let mem_usage := u64_add mem_usage (to_mem_usage o) in
      let '(over, kept) := split_over limit memory_limit count mem_usage l in
      if is_over limit memory_limit count mem_usage o then (o :: over, kept) else (over, o :: kept)
  end.

Lemma to_drop_over limit memory_limit count mem_usage dropped l :
  (foldl (orders_to_drop_step limit memory_limit) (count, mem_usage, dropped) l).2 =
  dropped ++ (split_over limit memory_limit count mem_usage l).1.
Proof.
  revert count mem_usage dropped. induction l as [|o l IH]; intros; simpl; [by rewrite app_nil_r|].
  rewrite IH. destruct (split_over _ _ _ _ l) as [over kept]. unfold is_over. simpl.
  destruct (_ && _); simpl; [by rewrite <-app_assoc|done].
Qed.

Lemma split_over_perm limit memory_limit count mem_usage l :
  let '(over, kept) := split_over limit memory_limit count mem_usage l in l ≡ₚ over ++ kept.
Proof.
  revert count mem_usage. induction l as [|o l IH]; intros; simpl; [done|].
  specialize (IH (u64_add count 1) (u64_add mem_usage (to_mem_usage o))).
  destruct (split_over _ _ _ _ l) as [over kept]. destruct (is_over _ _ _ _ o); simpl; rewrite IH; [done|].
  apply Permutation_middle.
Qed.

Definition ext_count (l : list TransactionOrder) : N :=
  sum_with (λ o, if negb (is_local_or_retracted (to_origin o)) then 1 else 0) l.
Definition ext_mem (l : list TransactionOrder) : N :=
  sum_with (λ o, if negb (is_local_or_retracted (to_origin o)) then to_mem_usage o else 0) l.

Lemma kept_within limit memory_limit count mem_usage l :
  count + len l < u64_size → mem_usage + sum_with to_mem_usage l < u64_size →
  let kept := (split_over limit memory_limit count mem_usage l).2 in
  (ext_count kept = 0 ∨ count + ext_count kept ≤ limit) ∧
  (ext_mem kept = 0 ∨ mem_usage + ext_mem kept ≤ memory_limit).
Proof.
  revert count mem_usage. induction l as [|o l IH]; intros count mem_usage Hc Hm; [by split; left|].
  rewrite len_cons in Hc. rewrite sum_with_cons in Hm. cbn [split_over].
  unfold u64_add. rewrite !N.mod_small by lia. specialize (IH (count + 1) (mem_usage + to_mem_usage o)).
  destruct (split_over _ _ _ _ l) as [over kept]. cbn [snd] in IH.
  destruct IH as [IH1 IH2]; [lia|lia|]. unfold is_over, ext_count, ext_mem in *.
  destruct (negb _) eqn:He; cbn [andb].
  - destruct (N.ltb_spec memory_limit (mem_usage + to_mem_usage o)); [cbn [orb snd]; lia|].
    destruct (N.ltb_spec limit (count + 1)); cbn [orb snd]; [lia|]. rewrite !sum_with_cons, !He. lia.
  - cbn [snd]. rewrite !sum_with_cons, !He. lia.
Qed.

Definition queue_tag (is_current : bool) : QueueTag := if is_current then Current else Future.

Lemma drop_order_ok is_current p batch o a :
  held p batch → cells p !! a = Some {| ot_order := o; ot_tag := queue_tag is_current |} →
  ∃ p' batch', drop_order is_current (p, batch) o = Ok (p', batch') ∧ held p' batch' ∧
    cells p' = delete a (cells p) ∧ same_limits p p'.
Proof.
  intros Hh Ha. unfold drop_order. destruct (lk_cell _ _ (hd_linked _ _ _ _ _ Hh) _ _ Ha) as (i & Hi & Hat & _).
  cbn [ot_order] in Hi. rewrite Hi. cbn [expect]. rewrite Ok_bind.
  pose proof (flat_remove (mp_by_signer_public p) (mi_signer_public i) (mi_seq i)) as Hf.
  assert ((tb_remove (mp_by_signer_public p) (mi_signer_public i) (mi_seq i)).1 = cells p !! a) as Hg.
  { rewrite <-Hat. unfold item_at. rewrite flat_lookup. unfold tb_remove, tb_get. by destruct (mp_by_signer_public p !! _). }
  destruct (tb_remove _ _ _) as [removed t]. cbn [fst snd] in Hf, Hg. subst removed. rewrite Ha. cbn [expect]. rewrite Ok_bind.
  pose proof (flat_clear t (mi_signer_public i)) as Hc. destruct (tb_clear_if_empty t _) as [cleared t']. cbn [snd] in Hc.
  change (mi_signer_public i, mi_seq i) with (item_at i) in Hf. rewrite Hat in Hf.
  destruct (held_requeue _ _ _ _ Hh Ha) as (cur & fut & Hu & Hr); [by destruct is_current|].
  cbn [ot_tag ot_order] in Hu. unfold queue_tag in Hu. rewrite Hu, Ok_bind. cbn [expect]. rewrite Ok_bind.
  do 2 eexists. split; [done|]. split; [|split; [cbn; congruence|done]].
  apply held_accounts. eapply (held_drop p batch cur fut a {| ot_order := o; ot_tag := _ |}); [done|exact Ha|done|congruence].
Qed.

Definition dropped_from (tag : QueueTag) (dropped : list TransactionOrder) (p p' : MemPool) : Prop :=
  (∀ a x, cells p' !! a = Some x ↔ cells p !! a = Some x ∧ (ot_tag x = tag → ot_order x ∉ dropped)) ∧
  same_limits p p'.

Lemma drop_orders_ok is_current orders p batch :
  held p batch → NoDup orders →
  (∀ o, o ∈ orders → ∃ a, cells p !! a = Some {| ot_order := o; ot_tag := queue_tag is_current |}) →
  ∃ p' batch', fold_res (drop_order is_current) (p, batch) orders = Ok (p', batch') ∧ held p' batch' ∧
    dropped_from (queue_tag is_current) orders p p'.
Proof.
  intros Hh Hnd Hin.
  destruct (fold_res_inv (drop_order is_current) (λ l st, held st.1 st.2 ∧ ∃ done_, orders = done_ ++ l ∧
    dropped_from (queue_tag is_current) done_ p st.1) orders (p, batch)) as ([p' batch'] & E & Hh' & done_ & Ho & Hd).
  - intros o l [p1 batch1] (Hh1 & done_ & -> & Hc & Hl). cbn [fst snd] in *.
    apply NoDup_app in Hnd as (_ & Hdis & [Hni Hndl]%NoDup_cons).
    destruct (Hin o) as (a & Ha); [apply elem_of_app; right; by left|].
    assert (o ∉ done_) as Hod by (intros Ho; apply (Hdis o Ho); by left).
    assert (cells p1 !! a = Some {| ot_order := o; ot_tag := queue_tag is_current |}) as Ha1 by (by apply Hc).
    destruct (drop_order_ok is_current p1 batch1 o a Hh1 Ha1) as (p2 & batch2 & E & Hh2 & Hc2 & Hl2).
    exists (p2, batch2). split; [done|]. split; [done|]. exists (done_ ++ [o]). split; [by rewrite <-app_assoc|].
    split; [|by eapply same_limits_trans]. intros b x. cbn. rewrite Hc2, lookup_delete_Some, Hc. split.
    + intros [Hne [Hx Hxd]]. split; [done|]. intros Ht [?|Heq%list_elem_of_singleton]%elem_of_app; [by apply Hxd|].
      apply Hne. eapply (rp_ids _ _ _ _ (hd_reps _ _ _ _ _ Hh)); [exact Ha|exact Hx|by rewrite Heq].
    + intros [Hx Hxd]. split.
      * intros <-. rewrite Ha in Hx. simplify_eq. apply Hxd; [done|]. apply elem_of_app. right. by left.
      * split; [done|]. intros Ht Hd. apply Hxd; [done|]. apply elem_of_app. by left.
  - split; [done|]. exists []. split; [done|]. split; [|done]. intros a x. split; [|by intros []].
    intros Hx. split; [done|]. intros _. by apply not_elem_of_nil.
  - rewrite app_nil_r in Ho. subst done_. by exists p', batch'.
Qed.

(** The limits of a queue. *)
Definition within (limit memory_limit : N) (q : OrderSet) : Prop :=
  external_count q ≤ limit ∧ external_mem q ≤ memory_limit.

Lemma queue_orders (q : OrderSet) : set_ok q → NoDup q.*2 ∧ ∀ o, o ∈ q.*2 ↔ queued q o.
Proof.
  intros [Hq Hk]. split.
  - apply NoDup_fmap_2_strong; [|eapply NoDup_fmap_1; by apply bt_keys_nodup].
    intros [k o] [k' o'] Hx Hy He. simpl in He. subst o'. by rewrite (Hk _ _ Hx), (Hk _ _ Hy).
  - intros o. rewrite queued_elem by done. split.
    + intros ([k o'] & -> & Hin)%list_elem_of_fmap. simpl. by rewrite <-(Hk _ _ Hin).
    + intros Hin. apply list_elem_of_fmap. by exists (order_key o, o).
Qed.

Lemma external_orders (q : OrderSet) : external_count q = ext_count q.*2 ∧ external_mem q = ext_mem q.*2.
Proof.
  unfold external_count, external_mem, ext_count, ext_mem. induction q as [|x q [IH1 IH2]]; [done|].
  rewrite fmap_cons, !sum_with_cons, IH1, IH2. done.
Qed.

(** A queue that has lost what is over its limits. *)
Lemma limited q q' limit memory_limit :
  set_ok q → set_ok q' → len q < u64_size → sum_with to_mem_usage q.*2 < u64_size →
  (∀ o, queued q' o ↔ queued q o ∧ o ∉ get_orders_to_drop q limit memory_limit) → within limit memory_limit q'.
Proof.
  intros Hq Hq' Hl Hm Hin. unfold get_orders_to_drop in Hin. rewrite to_drop_over in Hin. cbn [app] in Hin.
  pose proof (split_over_perm limit memory_limit 0 0 q.*2) as Hp.
  pose proof (kept_within limit memory_limit 0 0 q.*2) as Hk.
  destruct (split_over limit memory_limit 0 0 q.*2) as [over kept]. cbn [fst snd] in *.
  destruct (queue_orders q Hq) as [Hnd Hqo], (queue_orders q' Hq') as [Hnd' Hqo'].
  assert (q'.*2 ≡ₚ kept) as Hp'.
  { pose proof Hnd as Hsplit. rewrite Hp in Hsplit. apply NoDup_app in Hsplit as (_ & Hdis & Hndk).
    apply NoDup_Permutation; [done|done|]. intros o. rewrite Hqo', Hin, <-Hqo, Hp, elem_of_app. split; [tauto|].
    intros Ho. split; [by right|]. intros Hov. by apply (Hdis o). }
  destruct Hk as [Hk1 Hk2]; [unfold len in *; rewrite length_fmap; lia|lia|].
  destruct (external_orders q') as [E1 E2]. unfold within. rewrite E1, E2. unfold ext_count, ext_mem in *.
  rewrite !(sum_with_perm _ _ _ Hp'). lia.
Qed.

(** The transactions are short and not too many for their sizes to add up. *)
Definition small_items : Prop := ∀ i, P i → len (rlp_bytes (SignedTransaction_append (mi_tx i))) < u32_size.

Lemma sum_bounded {A : Type} (f : A → N) l b : (∀ x, x ∈ l → f x ≤ b) → sum_with f l ≤ len l * b.
Proof.
  induction l as [|x l IH]; intros Hb; [done|]. rewrite sum_with_cons, len_cons.
  specialize (IH (λ y Hy, Hb y (list_elem_of_further _ _ _ Hy))). specialize (Hb x (list_elem_of_here _ _)). lia.
Qed.

Lemma memory_small p batch (q : OrderSet) tag :
  held p batch → small_items → bound ≤ u32_size → set_ok q →
  (∀ o, queued q o ↔ ∃ a, cells p !! a = Some {| ot_order := o; ot_tag := tag |}) →
  len q ≤ bound ∧ sum_with to_mem_usage q.*2 < u64_size.
Proof.
  intros Hh Hs Hn Hq Hin. assert (len q ≤ bound) as Hl.
  { apply (queue_bounded q _ (λ o, ∃ a, cells p !! a = Some {| ot_order := o; ot_tag := tag |})); [done|..].
    - intros o (a & Ha)%Hin. split; [by exists a|]. exact (rp_below _ _ _ _ (hd_reps _ _ _ _ _ Hh) _ _ Ha).
    - intros o o' (a & Ha) (b & Hb) He. pose proof (reps_same _ _ _ _ _ _ _ _ (hd_reps _ _ _ _ _ Hh) Ha Hb He). congruence. }
  split; [done|]. pose proof (sum_bounded to_mem_usage q.*2 (u32_size - 1)) as Hsum.
  assert (len q.*2 = len q) as Hlen by (unfold len; by rewrite length_fmap). rewrite Hlen in Hsum.
  assert (sum_with to_mem_usage q.*2 ≤ len q * (u32_size - 1)) as Hle; [apply Hsum|unfold u32_size, u64_size in *; nia].
  intros o Ho. apply (queue_orders q Hq), Hin in Ho as (a & Ha).
  destruct (lk_cell _ _ (hd_linked _ _ _ _ _ Hh) _ _ Ha) as (i & Hi & _ & Hd). cbn [ot_order] in *.
  rewrite (ds_mem_usage _ _ Hd). pose proof (Hs i (hd_items _ _ _ _ _ Hh _ _ Hi)). lia.
Qed.

(** A queue is within its limits once what is to be dropped has been. *)
Lemma enforced p batch (q q' : OrderSet) tag count mem :
  held p batch → small_items → bound ≤ u32_size → set_ok q → set_ok q' →
  (∀ o, queued q o ↔ ∃ a, cells p !! a = Some {| ot_order := o; ot_tag := tag |}) →
  count = external_count q mod u64_size → mem = external_mem q mod u64_size →
  (∀ o, queued q' o ↔ queued q o ∧
    o ∉ if (mp_queue_memory_limit p <? mem) || (mp_queue_count_limit p <? count)
        then get_orders_to_drop q (mp_queue_count_limit p) (mp_queue_memory_limit p) else []) →
  within (mp_queue_count_limit p) (mp_queue_memory_limit p) q'.
Proof.
  intros Hh Hs Hn Hq Hq' Hin Hc Hm Hq2. destruct (memory_small p batch q tag Hh Hs Hn Hq Hin) as [Hl Hsum].
  assert (len q < u64_size) as Hl' by (unfold u32_size, u64_size in *; lia).
  revert Hq2. destruct (_ || _) eqn:Ho; intros Hq2; [exact (limited q q' _ _ Hq Hq' Hl' Hsum Hq2)|].
  apply orb_false_iff in Ho as [Ho1%N.ltb_ge Ho2%N.ltb_ge].
  assert (q' = q) as ->.
  { apply bt_unique; [apply Hq'|apply Hq|]. intros k o.
    pose proof (proj2 Hq k o) as Hk. pose proof (proj2 Hq' k o) as Hk'. specialize (Hq2 o).
    rewrite !queued_elem in Hq2 by done. pose proof (not_elem_of_nil o). split; intros Hko.
    - pose proof (Hk' Hko) as ->. tauto.
    - pose proof (Hk Hko) as ->. tauto. }
  assert (external_count q ≤ len q) as Hec.
  { pose proof (sum_bounded (λ x, if external x then 1 else 0) q 1) as Hb. unfold external_count.
    rewrite N.mul_1_r in Hb. apply Hb. intros x _. by destruct (external x). }
  assert (external_mem q ≤ sum_with to_mem_usage q.*2) as Hem.
  { destruct (external_orders q) as [_ ->]. unfold ext_mem. clear. induction q.*2 as [|o l IH]; [done|].
    rewrite !sum_with_cons. destruct (negb _); lia. }
  rewrite N.mod_small in Hc by lia. rewrite N.mod_small in Hm by lia. split; lia.
Qed.

Lemma to_drop_ok (q : OrderSet) (b : bool) limit memory_limit :
  set_ok q →
  let l := if b then get_orders_to_drop q limit memory_limit else [] in NoDup l ∧ ∀ o, o ∈ l → queued q o.
Proof.
  intros Hq. destruct b; [|split; [constructor|by intros o ?%elem_of_nil]].
  unfold get_orders_to_drop. rewrite to_drop_over. cbn [app].
  pose proof (split_over_perm limit memory_limit 0 0 q.*2) as Hp.
  destruct (split_over _ _ _ _ _) as [over kept]. destruct (queue_orders q Hq) as [Hnd Hqo]. cbn. split.
  - rewrite Hp in Hnd. by apply NoDup_app in Hnd as (? & _).
  - intros o Ho. apply Hqo. rewrite Hp. apply elem_of_app. by left.
Qed.

Lemma enforce_limit_ok p batch :
  held p batch → (∀ a, ¬ is_new p a) →
  ∃ p' batch', enforce_limit p batch = Ok (p', batch') ∧ held p' batch' ∧ (∀ a, ¬ is_new p' a) ∧ same_limits p p' ∧
    (small_items → bound ≤ u32_size →
     within (mp_queue_count_limit p) (mp_queue_memory_limit p) (cq_queue (mp_current p')) ∧
     within (mp_queue_count_limit p) (mp_queue_memory_limit p) (fq_queue (mp_future p'))).
Proof.
  intros Hh Hn. unfold enforce_limit. set (dc := if _ || _ then get_orders_to_drop (cq_queue _) _ _ else []).
  set (df := if _ || _ then get_orders_to_drop (fq_queue _) _ _ else []).
  pose proof (hd_reps _ _ _ _ _ Hh) as Hr.
  assert (NoDup dc ∧ ∀ o, o ∈ dc → queued (cq_queue (mp_current p)) o) as [Hndc Hinc] by (apply to_drop_ok, Hr).
  assert (NoDup df ∧ ∀ o, o ∈ df → queued (fq_queue (mp_future p)) o) as [Hndf Hinf] by (apply to_drop_ok, Hr).
  destruct (drop_orders_ok true dc p batch Hh Hndc) as (p1 & b1 & -> & Hh1 & Hc1 & Hl1).
  { intros o Ho. by apply (rp_in_current _ _ _ _ Hr), Hinc. }
  rewrite Ok_bind. destruct (drop_orders_ok false df p1 b1 Hh1 Hndf) as (p2 & b2 & -> & Hh2 & Hc2 & Hl2).
  { intros o Ho. apply Hinf, (rp_in_future _ _ _ _ Hr) in Ho as (a & Ha). exists a. by apply Hc1. }
  exists p2, b2. split; [done|]. split; [done|]. split.
  { intros a (o & Ho). apply Hc2 in Ho as [[Ho _]%Hc1 _]. apply (Hn a). by exists o. }
  split; [by eapply same_limits_trans|]. intros Hs Hid. pose proof (hd_reps _ _ _ _ _ Hh2) as Hr2. split.
  - eapply (enforced p batch (cq_queue (mp_current p)) _ Current); [done|done|done|apply Hr|apply Hr2|apply Hr|apply Hr|apply Hr|].
    intros o. rewrite (rp_in_current _ _ _ _ Hr2), (rp_in_current _ _ _ _ Hr). split.
    + intros (a & Ha). apply Hc2 in Ha as [[Ha Hd]%Hc1 _]. split; [eauto|by apply Hd].
    + intros [(a & Ha) Hd]. exists a. by apply Hc2; split; [apply Hc1|].
  - eapply (enforced p batch (fq_queue (mp_future p)) _ Future); [done|done|done|apply Hr|apply Hr2|apply Hr|apply Hr|apply Hr|].
    intros o. rewrite (rp_in_future _ _ _ _ Hr2), (rp_in_future _ _ _ _ Hr). split.
    + intros (a & Ha). apply Hc2 in Ha as [[Ha _]%Hc1 Hd]. split; [eauto|by apply Hd].
    + intros [(a & Ha) Hd]. exists a. by apply Hc2; split; [apply Hc1|].
Qed.

(** * The assertions *)

Lemma cells_items p batch : held p batch → size (cells p) = size (mp_by_hash p).
Proof.
  intros Hh. pose proof (hd_linked _ _ _ _ _ Hh) as Hl. rewrite <-!length_map_to_list.
  rewrite <-(length_fmap (λ x, to_hash (ot_order x.2)) (map_to_list (cells p))), <-(length_fmap fst (map_to_list (mp_by_hash p))).
  apply Permutation_length, NoDup_Permutation.
  - apply NoDup_fmap_2_strong; [|apply NoDup_map_to_list].
    intros [a x] [b y] Hx%elem_of_map_to_list Hy%elem_of_map_to_list He. simpl in *.
    assert (a = b) as <- by (by eapply linked_hash). congruence.
  - apply NoDup_fst_map_to_list.
  - intros h. rewrite !list_elem_of_fmap. split.
    + intros ([a x] & -> & Hx%elem_of_map_to_list). destruct (lk_cell _ _ Hl _ _ Hx) as (i & Hi & _).
      exists (to_hash (ot_order x), i). split; [done|]. by apply elem_of_map_to_list.
    + intros ([h' i] & -> & Hi%elem_of_map_to_list). destruct (lk_item _ _ Hl _ _ Hi) as (_ & x & Hx & Hhx).
      exists (item_at i, x). split; [done|]. by apply elem_of_map_to_list.
Qed.

Lemma queues_cells p batch : held p batch → (∀ a, ¬ is_new p a) →
  (length (cq_queue (mp_current p)) + length (fq_queue (mp_future p)))%nat = size (cells p).
Proof.
  intros Hh Hn. pose proof (hd_reps _ _ _ _ _ Hh) as Hr. rewrite <-length_map_to_list.
  destruct (queue_orders _ (cq_set _ (rp_current _ _ _ _ Hr))) as [Hndc Hqc].
  destruct (queue_orders _ (fq_set _ (rp_future _ _ _ _ Hr))) as [Hndf Hqf].
  rewrite <-(length_fmap snd (cq_queue _)), <-(length_fmap snd (fq_queue _)), <-length_app.
  rewrite <-(length_fmap (λ x, ot_order x.2) (map_to_list (cells p))).
  apply Permutation_length, NoDup_Permutation.
  - apply NoDup_app. split; [done|]. split; [|done]. intros o Hc%Hqc Hf%Hqf.
    apply (rp_in_current _ _ _ _ Hr) in Hc as (a & Ha). apply (rp_in_future _ _ _ _ Hr) in Hf as (b & Hb).
    by pose proof (reps_same _ _ _ _ _ _ _ _ Hr Ha Hb eq_refl).
  - apply NoDup_fmap_2_strong; [|apply NoDup_map_to_list].
    intros [a x] [b y] Hx%elem_of_map_to_list Hy%elem_of_map_to_list He. simpl in *.
    assert (a = b) as <- by (eapply (rp_ids _ _ _ _ Hr); [done|done|by rewrite He]). congruence.
  - intros o. rewrite elem_of_app, Hqc, Hqf, (rp_in_current _ _ _ _ Hr), (rp_in_future _ _ _ _ Hr), list_elem_of_fmap. split.
    + intros [(a & Ha)|(a & Ha)]; (eexists (a, _); split; [|by apply elem_of_map_to_list]; done).
    + intros ([a [o' tag]] & -> & Ha%elem_of_map_to_list). destruct tag; [left; by exists a|right; by exists a|].
      destruct (Hn a). by exists o'.
Qed.

Lemma assert_synced_ok p batch : held p batch → (∀ a, ¬ is_new p a) → assert_synced p = Ok tt.
Proof.
  intros Hh Hn. pose proof (cells_items p batch Hh) as Hi. pose proof (queues_cells p batch Hh Hn) as Hq.
  assert (len (cq_queue (mp_current p)) + len (fq_queue (mp_future p)) = N.of_nat (size (mp_by_hash p))) as Hlen
    by (rewrite <-Hi, <-Hq; unfold len; lia).
  unfold assert_synced. rewrite Hlen, N.eqb_refl. cbn [assert]. rewrite Ok_bind. rewrite (cq_sum _ (rp_current _ _ _ _ (hd_reps _ _ _ _ _ Hh))), N.eqb_refl.
  cbn [assert]. rewrite Ok_bind. rewrite flat_size, Hi, N.eqb_refl. done.
Qed.
End Steps.

Section Calls.
Context (P : MemPoolItem → Prop) `{Crypto, HashOrderLaws}.
Abbreviation held p := (MemPoolInv.held P (mp_next_transaction_id p) (mp_db p) p).

(** * Transactions that enter and leave *)

Lemma held_clock p batch n t : held p batch → held (set_clock n t (mp_next_transaction_id p) (mp_db p) p) batch.
Proof. by intros [Hr Hl Hd Hit]. Qed.

(** The next id is taken. *)
Lemma held_next p batch :
  held p batch → mp_next_transaction_id p + 2 < u64_size →
  held (set_clock (mp_last_block_number p) (mp_last_timestamp p) (u64_add (mp_next_transaction_id p) 1) (mp_db p) p) batch.
Proof.
  intros [Hr Hl Hd Hit] Hn. unfold u64_add. rewrite N.mod_small by lia. split; [|done..].
  destruct Hr as [? ? ? ? ? Hb ?]. split; try done; cbn; [|lia]. intros a x Ha%Hb. lia.
Qed.

Lemma image_remove db batch m h : db_write db batch = image m → db_write db (remove_item batch h) = image (delete h m).
Proof. intros Hd. unfold remove_item. rewrite db_write_snoc, image_delete. simpl. by rewrite Hd. Qed.
Lemma image_backup db batch m i :
  db_write db batch = image m → db_write db (backup_item batch (mi_hash i) i) = image (<[mi_hash i := i]> m).
Proof. intros Hd. unfold backup_item. rewrite db_write_snoc, image_insert. simpl. by rewrite Hd. Qed.

Lemma insert_item_ok p batch i o :
  held p batch → P i → mp_by_hash p !! mi_hash i = None → ¬ is_new p (item_at i) →
  to_hash o = mi_hash i → describes o i → mi_insertion_id i < mp_next_transaction_id p → fresh_id (cells p) o →
  ∃ p' batch', insert_item p batch i o = Ok (p', batch') ∧ held p' batch' ∧
    mp_next_transaction_id p' = mp_next_transaction_id p ∧ mp_queue_count_limit p' = mp_queue_count_limit p ∧
    mp_queue_memory_limit p' = mp_queue_memory_limit p ∧
    cells p' = <[item_at i := {| ot_order := o; ot_tag := New |}]> (cells p).
Proof.
  intros Hh HP Hi Hn Ho Hd Hid Hf. unfold insert_item. set (x := {| ot_order := o; ot_tag := New |}).
  pose proof (flat_insert (mp_by_signer_public p) (mi_signer_public i) (mi_seq i) x) as [E1 E2].
  destruct (tb_insert _ _ _ _) as [old t]. cbn [fst snd] in *. change (mi_signer_public i, mi_seq i) with (item_at i) in *.
  subst old. pose proof Hh as [Hr Hl Hdb Hit].
  destruct (cells p !! item_at i) as [y|] eqn:Ha.
  - assert (ot_tag y ≠ New) as Hy by (intros Ht; apply Hn; exists (ot_order y); by destruct y; simpl in *; subst).
    destruct (held_requeue _ _ _ _ _ _ _ Hh Ha Hy) as (cur & fut & -> & Hcr). rewrite Ok_bind. cbn [expect]. rewrite Ok_bind.
    assert (to_hash (ot_order y) ≠ mi_hash i) as Hne.
    { intros He. destruct (lk_cell _ _ Hl _ _ Ha) as (j & Hj & _). by rewrite He, Hi in Hj. }
    destruct (enter_new _ cur fut (delete (item_at i) (cells p)) (delete (to_hash (ot_order y)) (mp_by_hash p)) i o Hcr)
      as [Hr' Hl']; [by apply linked_delete|by rewrite lookup_delete_eq|by rewrite lookup_delete_ne|done..|
      by intros b z [_ Hz]%lookup_delete_Some; apply (Hf b)|].
    rewrite insert_delete_eq in Hr', Hl'. rewrite <-delete_insert_ne in Hl' by done.
    do 2 eexists. split; [done|]. split; [|done].
    split; cbn [set_indices mp_next_transaction_id mp_current mp_future mp_by_signer_public mp_by_hash mp_db]; [by rewrite E2|by rewrite E2|..].
    + by apply image_remove, image_backup.
    + intros h j [_ Hj]%lookup_delete_Some. apply lookup_insert_Some in Hj as [[<- <-]|[_ Hj]]; [done|by eapply Hit].
  - destruct (enter_new _ _ _ _ _ i o Hr Hl Ha Hi Ho Hd Hid Hf) as [Hr' Hl'].
    do 2 eexists. split; [done|]. split; [|done].
    split; cbn [set_indices mp_next_transaction_id mp_current mp_future mp_by_signer_public mp_by_hash mp_db]; [by rewrite E2|by rewrite E2|..].
    + by apply image_backup.
    + intros h j [[<- <-]|[_ Hj]]%lookup_insert_Some; [done|by eapply Hit].
Qed.

Lemma verify_transaction_cases p tx origin account :
  (∃ e, verify_transaction p tx origin account = Err e) ∨
  verify_transaction p tx origin account = Ok tt ∧ mp_by_hash p !! stx_hash tx = None.
Proof.
  unfold verify_transaction. case_bool_decide as Hh; [|apply eq_None_not_Some in Hh].
  all: repeat match goal with |- context [if ?b then _ else _] => destruct b; [by left; eexists|] end.
  all: repeat match goal with
    | |- context [if ?b then _ else _] => destruct b
    | |- context [match ?b with Some _ => _ | None => _ end] => destruct b
    end; solve [by left; eexists | by right].
Qed.

Definition input_at (input : MemPoolInput) : Public * N :=
  (stx_signer_public (in_transaction input), tx_seq (stx_unsigned (in_transaction input))).
Definition inserted (to_insert : gmap Public (list N)) (public : Public) : list N := default [] (to_insert !! public).

(** A new cell and the list of them. *)
Lemma new_inserted p p' to_insert public seq o :
  cells p' = <[(public, seq) := {| ot_order := o; ot_tag := New |}]> (cells p) → ¬ is_new p (public, seq) →
  (∀ q s, is_new p (q, s) ↔ s ∈ inserted to_insert q) → (∀ q, NoDup (inserted to_insert q)) →
  let to_insert' := <[public := inserted to_insert public ++ [seq]]> to_insert in
  (∀ b, is_new p' b ↔ b = (public, seq) ∨ is_new p b) ∧
  (∀ q s, is_new p' (q, s) ↔ s ∈ inserted to_insert' q) ∧ ∀ q, NoDup (inserted to_insert' q).
Proof.
  intros Ec Hnew Hn Hnd to_insert'.
  assert (∀ q, inserted to_insert' q =
    if decide (q = public) then inserted to_insert public ++ [seq] else inserted to_insert q) as Hins.
  { intros q. unfold inserted at 1. subst to_insert'. case_decide as Hd; [subst; by rewrite lookup_insert_eq|by rewrite lookup_insert_ne]. }
  assert (∀ b, is_new p' b ↔ b = (public, seq) ∨ is_new p b) as Hpn.
  { intros b. unfold is_new. rewrite Ec. destruct (decide (b = (public, seq))) as [->|Hne].
    - rewrite lookup_insert_eq. split; [by left|]. intros _. by eexists.
    - rewrite lookup_insert_ne by done. split; [by right|]. by intros [?|?]. }
  split; [done|]. split.
  - intros q s. rewrite Hpn, Hins, Hn. case_decide as Hd.
    + subst q. rewrite elem_of_app, list_elem_of_singleton. split; [intros [[= ->]|?]|intros [?| ->]]; tauto.
    + split; [intros [[= ? ?]|?]; done|by right].
  - intros q. rewrite Hins. case_decide; [|done]. apply NoDup_app. split; [done|]. split; [|apply NoDup_singleton].
    intros s Hs Hs'%list_elem_of_singleton. subst s. by apply Hnew, Hn.
Qed.

(** The item that [add] makes of an input at a block and a time. *)
Definition made (n t : N) (input : MemPoolInput) (i : MemPoolItem) : Prop :=
  mi_tx i = in_transaction input ∧ mi_timelock i = in_timelock input ∧ mi_inserted_block_number i = n ∧
  mi_inserted_timestamp i = t ∧ mi_insertion_id i < u64_size.

(** What the first loop of [add] keeps, with the inputs that are still to come. *)
Record adding (n t : N) (p0 : MemPool) (nmax : N) (inputs : list MemPoolInput) (a : Adding) : Prop := {
  dg_held : held (ag_pool a) (ag_batch a);
  dg_inputs : NoDup (input_at <$> inputs);
  dg_items input i : input ∈ inputs → made n t input i → P i;
  dg_new public seq : is_new (ag_pool a) (public, seq) ↔ seq ∈ inserted (ag_to_insert a) public;
  dg_nodup public : NoDup (inserted (ag_to_insert a) public);
  dg_todo input : input ∈ inputs → ¬ is_new (ag_pool a) (input_at input);
  dg_next : mp_next_transaction_id (ag_pool a) + len inputs ≤ nmax;
  dg_results r : r ∈ ag_insert_results a → r ≠ Panic;
  dg_count : mp_queue_count_limit (ag_pool a) = mp_queue_count_limit p0;
  dg_memory : mp_queue_memory_limit (ag_pool a) = mp_queue_memory_limit p0;
}.

Lemma adding_skip n t p0 nmax input inputs a e pool new_local :
  adding n t p0 nmax (input :: inputs) a → held pool (ag_batch a) → cells pool = cells (ag_pool a) →
  mp_next_transaction_id pool = mp_next_transaction_id (ag_pool a) →
  mp_queue_count_limit pool = mp_queue_count_limit (ag_pool a) →
  mp_queue_memory_limit pool = mp_queue_memory_limit (ag_pool a) →
  adding n t p0 nmax inputs {| ag_pool := pool; ag_batch := ag_batch a; ag_to_insert := ag_to_insert a;
    ag_new_local_accounts := new_local; ag_insert_results := ag_insert_results a ++ [Err e] |}.
Proof.
  intros [Hh Hi HP Hn Hnd Ht Hx Hr Hc Hm] Hp Ec En El Em. rewrite fmap_cons, NoDup_cons in Hi. destruct Hi as [Hni Hi].
  rewrite len_cons in Hx. split; [exact Hp|..]; cbn [ag_pool ag_batch ag_to_insert ag_insert_results]; unfold is_new in *; rewrite ?Ec, ?En, ?El, ?Em;
    try done; try lia.
  - intros input' j Hin. apply HP. by right.
  - intros input' Hin. apply Ht. by right.
  - intros r [Hin|Hin%list_elem_of_singleton]%elem_of_app; [by apply Hr|by subst r].
Qed.

Lemma adding_insert n t p0 nmax input inputs a pool batch o new_local :
  adding n t p0 nmax (input :: inputs) a → held pool batch →
  cells pool = <[input_at input := {| ot_order := o; ot_tag := New |}]> (cells (ag_pool a)) →
  mp_next_transaction_id pool = mp_next_transaction_id (ag_pool a) + 1 →
  mp_queue_count_limit pool = mp_queue_count_limit (ag_pool a) →
  mp_queue_memory_limit pool = mp_queue_memory_limit (ag_pool a) →
  adding n t p0 nmax inputs {| ag_pool := pool; ag_batch := batch;
    ag_to_insert := <[(input_at input).1 := inserted (ag_to_insert a) (input_at input).1 ++ [(input_at input).2]]> (ag_to_insert a);
    ag_new_local_accounts := new_local; ag_insert_results := ag_insert_results a ++ [Ok (input_at input)] |}.
Proof.
  intros [Hh Hi HP Hn Hnd Ht Hx Hr Hc Hm] Hp Ec En El Em. rewrite fmap_cons, NoDup_cons in Hi. destruct Hi as [Hni Hi].
  rewrite len_cons in Hx. pose proof (Ht input (list_elem_of_here _ _)) as Hnew.
  destruct (input_at input) as [public seq] eqn:Hat. cbn [fst snd].
  destruct (new_inserted (ag_pool a) pool (ag_to_insert a) public seq o Ec Hnew Hn Hnd) as (Hpn & Hn' & Hnd').
  split; [exact Hp|..]; cbn [ag_pool ag_batch ag_to_insert ag_insert_results]; rewrite ?En, ?El, ?Em; try done; try lia.
  - intros input' j Hin. apply HP. by right.
  - intros input' Hin. rewrite Hpn. intros [He|Hb]; [|by apply (Ht input'); [right|]].
    apply Hni. rewrite <-He. apply list_elem_of_fmap. by exists input'.
  - intros r [Hin|Hin%list_elem_of_singleton]%elem_of_app; [by apply Hr|by subst r].
Qed.

Lemma add_input_ok n t fetch_account p0 nmax input inputs a :
  adding n t p0 nmax (input :: inputs) a → nmax + 1 < u64_size →
  ∃ a', add_input n t fetch_account a input = Ok a' ∧ adding n t p0 nmax inputs a'.
Proof.
  intros Ha Hmax. unfold add_input. destruct (input_origin _ _ _) as [origin new_local].
  set (p1 := if new_local then _ else _). set (nl := if new_local then _ else _). set (tx := in_transaction input).
  assert (held p1 (ag_batch a) ∧ cells p1 = cells (ag_pool a) ∧ mp_by_hash p1 = mp_by_hash (ag_pool a) ∧
    mp_next_transaction_id p1 = mp_next_transaction_id (ag_pool a) ∧
    mp_queue_count_limit p1 = mp_queue_count_limit (ag_pool a) ∧
    mp_queue_memory_limit p1 = mp_queue_memory_limit (ag_pool a)) as (Hh1 & Ec & Eh & En & El & Em).
  { pose proof (dg_held _ _ _ _ _ _ Ha). subst p1. destruct new_local; [|done]. split; [by apply held_accounts|done]. }
  clearbody p1 nl. destruct (verify_transaction_cases p1 tx origin (fetch_account (stx_signer_public tx))) as [(e & ->)|[-> Hnone]].
  { eexists. split; [done|]. by eapply adding_skip. }
  set (item := Build_MemPoolItem _ _ _ _ _ _). set (p2 := set_clock _ _ _ _ p1).
  pose proof (dg_next _ _ _ _ _ _ Ha) as Hx. rewrite len_cons in Hx.
  assert (mp_next_transaction_id p2 = mp_next_transaction_id p1 + 1) as E2
    by (cbn; unfold u64_add; rewrite N.mod_small; lia).
  destruct (insert_item_ok p2 (ag_batch a) item (for_transaction item (ad_seq (fetch_account (stx_signer_public tx)))))
    as (p3 & batch3 & E & Hh3 & En3 & El3 & Em3 & Ec3).
  - apply held_next; [done|lia].
  - apply (dg_items _ _ _ _ _ _ Ha input); [by left|]. repeat split; try done. cbn. lia.
  - exact Hnone.
  - intros Hin. apply (dg_todo _ _ _ _ _ _ Ha input); [by left|]. unfold is_new in *. rewrite <-Ec. exact Hin.
  - done.
  - done.
  - rewrite E2. cbn. lia.
  - intros b x Hb. change (cells p1 !! b = Some x) in Hb.
    pose proof (rp_below _ _ _ _ (hd_reps _ _ _ _ _ Hh1) _ _ Hb). cbn. lia.
  - rewrite E, Ok_bind. eexists. split; [done|].
    apply (adding_insert n t p0 nmax input inputs a p3 batch3 (for_transaction item (ad_seq (fetch_account (stx_signer_public tx)))));
      [done|done|..|by rewrite En3, E2, En|by etrans; [exact El3|]|by etrans; [exact Em3|]].
    rewrite Ec3. by rewrite <-Ec.
Qed.

(** * The calls *)

Lemma import_results_ok p rs :
  (∀ a, ¬ is_new p a) → (∀ r, r ∈ rs → r ≠ Panic) →
  ∃ ys, map_res (import_result p) rs = Ok ys ∧ length ys = length rs.
Proof.
  intros Hn. induction rs as [|r rs IH]; intros Hr; [by exists []|].
  destruct IH as (ys & Hys & Hlen); [intros; apply Hr; by right|]. cbn [map_res].
  assert (∃ y, import_result p r = Ok y) as [y ->].
  { specialize (Hr r (list_elem_of_here _ _)). unfold import_result. destruct r as [[public seq]|e|]; [|by eexists|done].
    rewrite <-flat_lookup. destruct (cells p !! (public, seq)) as [[o tag]|] eqn:Ha; [|by eexists].
    destruct tag; [by eexists..|]. destruct (Hn (public, seq)). by exists o. }
  rewrite Ok_bind, Hys, Ok_bind. eexists. split; [done|]. simpl. by rewrite Hlen.
Qed.

Lemma pool_written p batch n t :
  held p batch → (∀ a, ¬ is_new p a) →
  pool_ok P (set_clock n t (mp_next_transaction_id p) (db_write (mp_db p) batch) p).
Proof. intros [Hr Hl Hd Hit] Hn. by split. Qed.

Lemma add_ok n t fetch_account p inputs :
  pool_ok P p → NoDup (input_at <$> inputs) →
  (∀ input i, input ∈ inputs → made n t input i → P i) →
  mp_next_transaction_id p + len inputs + 1 < u64_size →
  ∃ rs p', add n t fetch_account p inputs = Ok (rs, p') ∧ pool_ok P p' ∧
    mp_next_transaction_id p' ≤ mp_next_transaction_id p + len inputs ∧
    mp_queue_count_limit p' = mp_queue_count_limit p ∧ mp_queue_memory_limit p' = mp_queue_memory_limit p ∧
    (small_items P → mp_next_transaction_id p + len inputs ≤ u32_size →
     within (mp_queue_count_limit p) (mp_queue_memory_limit p) (cq_queue (mp_current p')) ∧
     within (mp_queue_count_limit p) (mp_queue_memory_limit p) (fq_queue (mp_future p'))).
Proof.
  intros [Hh Hn] Hnd HP Hmax. unfold add. set (nmax := mp_next_transaction_id p + len inputs) in *.
  destruct (fold_res_inv (add_input n t fetch_account) (adding n t p nmax) inputs
    {| ag_pool := p; ag_batch := []; ag_to_insert := ∅; ag_new_local_accounts := ∅; ag_insert_results := [] |})
    as (a & -> & Ha).
  { intros input l a Ha. by apply add_input_ok. }
  { split; cbn [ag_pool ag_batch ag_to_insert ag_insert_results]; try done.
    - intros public seq. unfold inserted. rewrite lookup_empty. cbn. rewrite elem_of_nil. split; [intros Hi; by apply (Hn (public, seq))|done].
    - intros public. unfold inserted. rewrite lookup_empty. constructor.
    - by intros r ?%elem_of_nil. }
  rewrite Ok_bind.
  destruct (accounts_ok P (mp_next_transaction_id (ag_pool a)) (mp_db (ag_pool a)) (add_account n t fetch_account (ag_to_insert a) (ag_new_local_accounts a))
    (λ p' q, NoDup (inserted (ag_to_insert a) q) ∧ ∀ seq, is_new p' (q, seq) ↔ seq ∈ inserted (ag_to_insert a) q)
    (ag_pool a) (ag_batch a)) as (p1 & b1 & -> & Hh1 & Hn1 & Hl1 & Hm1 & Hx1 & Hd1).
  - intros p1 p2 q q' Hk Hne [Hq1 Hq2]. split; [done|]. intros seq. unfold is_new. rewrite (ko_cells _ _ _ Hk) by done.
    apply Hq2.
  - intros p1 b1 q Hh1 Hrow [Hq1 Hq2]. by apply add_account_ok.
  - apply Ha.
  - intros q _. split; apply Ha.
  - rewrite Ok_bind.
    destruct (enforce_limit_ok P _ _ p1 b1 Hh1 Hn1) as (p2 & b2 & -> & Hh2 & Hn2 & (Hl2 & Hm2 & Hx2 & Hd2) & Hw).
    rewrite <-Hx1, <-Hx2, <-Hd1, <-Hd2 in Hh2. rewrite Ok_bind.
    erewrite assert_synced_ok; [|by apply held_clock|exact Hn2]. rewrite Ok_bind.
    set (p3 := set_clock _ _ _ (db_write _ _) _).
    destruct (import_results_ok p3 (ag_insert_results a)) as (ys & -> & Hys); [done|apply Ha|]. rewrite Ok_bind.
    pose proof (dg_next _ _ _ _ _ _ Ha) as Hnx. change (len []) with 0 in Hnx.
    pose proof (dg_count _ _ _ _ _ _ Ha). pose proof (dg_memory _ _ _ _ _ _ Ha).
    exists ys, p3. split; [done|]. split; [by apply (pool_written p2)|]. split; [cbn; lia|]. split; [cbn; congruence|].
    split; [cbn; congruence|]. intros Hs Hu. destruct Hw as [Hw1 Hw2]; [done|lia|]. rewrite Hl1, Hm1 in Hw1, Hw2.
    cbn. split; congruence.
Qed.

Lemma tb_remove_rows (t : Table Public N TransactionOrderWithTag) public seq q :
  is_Some ((tb_remove t public seq).2 !! q) → is_Some (t !! q).
Proof.
  unfold tb_remove. destruct (t !! public) as [row|] eqn:Hr; cbn; [|done]. case_bool_decide.
  - by intros (x & [_ ?]%lookup_delete_Some).
  - destruct (decide (q = public)) as [->|]; [by rewrite Hr|by rewrite lookup_insert_ne].
Qed.

(** A hash leaves the pool, if it is there. *)
Lemma remove_hash_ok fetch_seq p batch removed hash :
  held p batch → (∀ a, ¬ is_new p a) → (∀ q, is_Some (mp_by_signer_public p !! q) → ∃ m, fetch_seq q = Ok m) →
  ∃ p' batch' removed', remove_hash fetch_seq (p, batch, removed) hash = Ok (p', batch', removed') ∧
    held p' batch' ∧ (∀ a, ¬ is_new p' a) ∧ same_limits p p' ∧
    ∀ q, is_Some (mp_by_signer_public p' !! q) → is_Some (mp_by_signer_public p !! q).
Proof.
  intros Hh Hn Hf. unfold remove_hash.
  destruct (mp_by_hash p !! hash) as [i|] eqn:Hi; [|by exists p, batch, removed].
  destruct (lk_item _ _ (hd_linked _ _ _ _ _ Hh) _ _ Hi) as (_ & x & Hx & Hhx). pose proof Hx as Hg.
  unfold item_at in Hg. rewrite flat_lookup in Hg.
  destruct (Hf (mi_signer_public i)) as [m ->].
  { unfold tb_get in Hg. by destruct (mp_by_signer_public p !! mi_signer_public i). }
  rewrite Ok_bind, Hg. cbn [expect]. rewrite Ok_bind.
  destruct (held_requeue _ _ _ _ _ _ _ Hh Hx) as (cur & fut & -> & Hr).
  { intros Ht. apply (Hn (item_at i)). exists (ot_order x). rewrite Hx. by destruct x; simpl in *; subst. }
  rewrite Ok_bind. cbn [expect]. rewrite Ok_bind. do 3 eexists. split; [done|].
  pose proof (flat_remove (mp_by_signer_public p) (mi_signer_public i) (mi_seq i)) as Hfl.
  split; [rewrite <-Hhx; by eapply held_drop|]. split; [|split; [done|intros q; apply tb_remove_rows]].
  intros a (o & Ho). cbn [set_indices mp_by_signer_public] in Ho. rewrite Hfl in Ho.
  apply lookup_delete_Some in Ho as [_ Ho]. apply (Hn a). by exists o.
Qed.

Lemma remove_ok n t fetch_seq p hashes :
  pool_ok P p → (∀ q, is_Some (mp_by_signer_public p !! q) → ∃ m, fetch_seq q = Ok m) →
  ∃ p', remove fetch_seq n t p hashes = Ok p' ∧ pool_ok P p' ∧ same_bounds p p'.
Proof.
  intros [Hh Hn] Hf. unfold remove.
  destruct (fold_res_inv (remove_hash fetch_seq) (λ _ st, held st.1.1 st.1.2 ∧ (∀ a, ¬ is_new st.1.1 a) ∧
    same_limits p st.1.1 ∧ ∀ q, is_Some (mp_by_signer_public st.1.1 !! q) → is_Some (mp_by_signer_public p !! q))
    hashes (p, [], ∅)) as ([[p1 b1] removed] & -> & Hh1 & Hn1 & Hl1 & Hq1).
  - intros hash l [[p1 b1] r1] (Hh1 & Hn1 & Hl1 & Hq1). cbn [fst snd] in *.
    destruct (remove_hash_ok fetch_seq p1 b1 r1 hash Hh1 Hn1) as (p2 & b2 & r2 & E & Hh2 & Hn2 & Hl2 & Hq2); [auto|].
    exists (p2, b2, r2). split; [done|]. cbn. split; [done|]. split; [done|]. split; [by eapply same_limits_trans|auto].
  - done.
  - cbn [fst snd] in *. rewrite Ok_bind.
    destruct (accounts_ok P (mp_next_transaction_id p1) (mp_db p1) (remove_account fetch_seq n t removed)
      (λ p' q, (∃ m, fetch_seq q = Ok m) ∧ ∀ seq, ¬ is_new p' (q, seq)) p1 b1) as (p2 & b2 & -> & Hh2 & Hn2 & Hl2).
    + intros p2 p3 q q' Hk Hne [Hm Hq]. split; [done|]. intros seq. unfold is_new.
      rewrite (ko_cells _ _ _ Hk) by done. apply Hq.
    + intros p2 b2 q Hh2 Hrow [(m & Hm) Hq]. by eapply remove_account_ok.
    + done.
    + intros q Hq. split; [auto|]. intros seq. apply Hn1.
    + pose proof Hl2 as (Hq2 & Hm2 & Hx2 & Hd2). rewrite <-Hx2, <-Hd2 in Hh2.
      rewrite Ok_bind. erewrite assert_synced_ok; [|by apply held_clock|exact Hn2]. rewrite Ok_bind.
      eexists. split; [done|]. split; [by apply (pool_written p2)|].
      destruct Hl1 as (Hq3 & Hm3 & Hx3 & Hd3). unfold same_bounds. cbn. repeat split; congruence.
Qed.

Lemma remove_old_ok fetch_account n t p :
  pool_ok P p → ∃ p', remove_old p fetch_account n t = Ok p' ∧ pool_ok P p' ∧ same_bounds p p'.
Proof.
  intros Hp. unfold remove_old. apply remove_ok; [done|]. intros q [row Hrow].
  rewrite map_lookup_imap, Hrow. cbn. by eexists.
Qed.

Lemma with_limits_ok limit memory_limit fee_bump_shift : pool_ok P (with_limits limit memory_limit fee_bump_shift ∅).
Proof.
  assert (cells (with_limits limit memory_limit fee_bump_shift ∅) = ∅) as Hc by done. split.
  - split; rewrite ?Hc; cbn [with_limits mp_by_hash mp_db mp_current mp_future mp_next_transaction_id];
      [by apply reps_empty|by split|done|done].
  - intros a (o & Ho). by rewrite Hc in Ho.
Qed.
End Calls.
