(* ===== verification/MemPoolRecover.v ===== *)
(** A node that starts again takes its memory pool back from the database: an item is read back from its
    encoding, the column gives the items that the pool held, and the queues are built anew over them. *)
From stdpp Require Import base gmap list numbers strings.
From Stdlib Require Import NArith Lia.
From S2P Require Import Prelude Types Crypto Rlp RlpImpls TxRlp TxHash BTree Header VoteCollector.
From S2P Require Import MemPoolTypes MemPool MemPoolInv MemPoolSteps.

Local Open Scope N_scope.

(** * Items *)

Definition timelock_items (t : TxTimelock) : list rlp_item :=
  [item (option_codec u64_codec) (tl_block t); item (option_codec u64_codec) (tl_timestamp t)].
Definition pool_items (i : MemPoolItem) : list rlp_item :=
  [List (sealed_items (stx_unsigned (mi_tx i)) (utx_sig (stx_tx (mi_tx i))));
   item u8_codec (origin_id (mi_origin i)); item u64_codec (mi_inserted_block_number i);
   item u64_codec (mi_inserted_timestamp i); item u64_codec (mi_insertion_id i);
   List (timelock_items (mi_timelock i))].

(** An item is not much longer than its transaction. *)
Lemma pool_items_fit i :
  len (enc (List (sealed_items (stx_unsigned (mi_tx i)) (utx_sig (stx_tx (mi_tx i)))))) + 256 < u32_size →
  fits (List (pool_items i)).
Proof.
  intros Hl. assert (u32_size < u64_size) by done. unfold fits.
  assert (∀ o, len (enc (item (option_codec u64_codec) o)) ≤ 26) as Ho.
  { intros o. change (item (option_codec u64_codec) o) with (List (match o with Some x => [item u64_codec x] | None => [] end)).
    etrans; [apply (enc_list_bound 17); destruct o; [apply Forall_singleton, u64_item_bound|constructor|done|done]|by destruct o]. }
  assert (len (enc (item u8_codec (origin_id (mi_origin i)))) = 1) by (by destruct (mi_origin i)).
  assert (len (enc (List (timelock_items (mi_timelock i)))) ≤ 61).
  { etrans; [apply (enc_list_bound 26); [repeat constructor; apply Ho|done]|done]. }
  pose proof (u64_item_bound (mi_inserted_block_number i)). pose proof (u64_item_bound (mi_inserted_timestamp i)).
  pose proof (u64_item_bound (mi_insertion_id i)).
  assert (sum_with (λ x, len (enc x)) (pool_items i) + 9 < u32_size) as Hs
    by (unfold pool_items; rewrite !sum_with_cons, sum_with_nil; lia).
  pose proof (enc_list_sum (pool_items i)). lia.
Qed.

Section Recover.
Context `{Crypto}.

(** An item as [add] makes it: a signed transaction whose signer was recovered, and numbers of the width
    that they are declared with. *)
Record recoverable (i : MemPoolItem) : Prop := {
  rc_tx : Transaction_wf (stx_unsigned (mi_tx i));
  rc_sig : len (utx_sig (stx_tx (mi_tx i))) = 65;
  rc_hash : stx_tx (mi_tx i) = UnverifiedTransaction_new (stx_unsigned (mi_tx i)) (utx_sig (stx_tx (mi_tx i)));
  rc_signer : recover_public (stx_tx (mi_tx i)) = Ok (stx_signer_public (mi_tx i));
  rc_number : mi_inserted_block_number i < u64_size;
  rc_timestamp : mi_inserted_timestamp i < u64_size;
  rc_block_lock : wf (option_codec u64_codec) (tl_block (mi_timelock i));
  rc_time_lock : wf (option_codec u64_codec) (tl_timestamp (mi_timelock i));
  rc_fits : fits (List (pool_items i));
}.

Lemma MemPoolItem_encodes i : encodes (MemPoolItem_append i) (List (pool_items i)).
Proof.
  unfold MemPoolItem_append, pool_items, SignedTransaction_append, TxOrigin_append, TxTimelock_append.
  apply rlp_list_encodes; [|done].
  apply Forall2_cons; split; [exact (append_appends _ _ (sealed_encodes _ _))|].
  apply Forall2_cons; split; [apply (app_appends u8_codec (origin_id (mi_origin i)))|].
  do 3 (apply Forall2_cons; split; [apply (app_appends u64_codec)|]).
  apply Forall2_cons; split; [apply append_appends; encodes_tac|by apply Forall2_nil].
Qed.

Lemma TxTimelock_decodes t :
  wf (option_codec u64_codec) (tl_block t) → wf (option_codec u64_codec) (tl_timestamp t) →
  fits (List (timelock_items t)) → TxTimelock_decode (enc (List (timelock_items t))) = Ok t.
Proof. intros ? ? Hf. unfold TxTimelock_decode, timelock_items in *. destruct t. decodes_tac. Qed.

Lemma MemPoolItem_decodes i : mi_insertion_id i < u64_size → recoverable i → MemPoolItem_decode (item_bytes i) = Ok i.
Proof.
  intros Hid [Ht Hsig Hhash Hsigner Hn Hts Hl1 Hl2 Hf]. unfold item_bytes, rlp_bytes.
  rewrite (drain_encodes _ _ (MemPoolItem_encodes i) Hf). unfold MemPoolItem_decode.
  assert (∀ x, x ∈ pool_items i → fits x) as Hfx by (intros x Hx; by eapply fits_elem).
  rewrite (val_at_enc _ _ 0 _ Hf eq_refl). unfold SignedTransaction_decode.
  rewrite UnverifiedTransaction_decodes by (try done; apply Hfx; by left). rewrite Ok_bind, <-Hhash, Hsigner, Ok_bind.
  rewrite (val_at_enc _ _ 1 _ Hf eq_refl).
  assert (TxOrigin_decode (enc (item u8_codec (origin_id (mi_origin i)))) = Ok (mi_origin i)) as ->
    by (by destruct (mi_origin i)).
  rewrite Ok_bind, (val_at_field u64_codec _ 2 _ Hf eq_refl Hn), Ok_bind.
  rewrite (val_at_field u64_codec _ 3 _ Hf eq_refl Hts), Ok_bind, (val_at_field u64_codec _ 4 _ Hf eq_refl Hid), Ok_bind.
  rewrite (val_at_enc _ _ 5 _ Hf eq_refl), TxTimelock_decodes by (try done; apply Hfx; set_solver).
  rewrite Ok_bind. destruct i as [[] ? ? ? ? ?]. done.
Qed.

(** * The column *)

Lemma recover_entries {E : Type} (m acc : gmap H256 MemPoolItem) (l : list (bytes * bytes)) :
  (∀ h i, m !! h = Some i → mi_insertion_id i < u64_size ∧ recoverable i) →
  (∀ k v, (k, v) ∈ l → ∃ h i, m !! h = Some i ∧ k = db_key h ∧ v = item_bytes i) →
  ∃ m', fold_res (E:=E) (λ by_hash '(key, value),
      item ← Rlp_as_val MemPoolItem_decode value; Ok (<[drop 5 key := item]> by_hash)) acc l = Ok m' ∧
    ∀ h, m' !! h = if decide (db_key h ∈ l.*1) then m !! h else acc !! h.
Proof.
  intros Hm. revert acc. induction l as [|[k v] l IH]; intros acc Hl; cbn [fold_res].
  { exists acc. split; [done|]. intros h. rewrite decide_False; [done|]. by intros ?%elem_of_nil. }
  destruct (Hl k v) as (h & i & Hi & -> & ->); [by left|]. destruct (Hm h i Hi) as [Hid Hr].
  assert (Rlp_as_val (E:=E) MemPoolItem_decode (item_bytes i) = Ok i) as Hv
    by (unfold Rlp_as_val; by rewrite MemPoolItem_decodes).
  rewrite Hv, !Ok_bind.
  change (drop 5 (db_key h)) with h.
  destruct (IH (<[h := i]> acc)) as (m' & -> & Hm'); [by intros; apply Hl; right|]. exists m'. split; [done|].
  intros h'. rewrite Hm'. cbn [fmap list_fmap fst]. destruct (decide (h' = h)) as [->|Hne].
  - rewrite (decide_True (P:=_ ∈ _ :: _)) by (by left). rewrite lookup_insert_eq. by case_decide.
  - rewrite lookup_insert_ne by done. apply decide_ext. rewrite elem_of_cons. split; [by right|].
    by intros [?%(inj db_key)|?].
Qed.

Context `{!HashOrder, !HashOrderLaws}.

Lemma recover_to_data_ok {E : Type} (m : gmap H256 MemPoolItem) :
  (∀ h i, m !! h = Some i → mi_insertion_id i < u64_size ∧ recoverable i) →
  recover_to_data (E:=E) (walk (map_to_list (image m))) = Ok m.
Proof.
  intros Hm. unfold recover_to_data. destruct (recover_entries (E:=E) m ∅ (walk (map_to_list (image m)))) as (m' & -> & Hm').
  - done.
  - intros k v Hkv. rewrite walk_perm in Hkv. apply elem_of_map_to_list in Hkv.
    apply lookup_kmap_Some in Hkv as (h & -> & Hv); [|apply _]. apply lookup_fmap_Some in Hv as (i & <- & Hi). by exists h, i.
  - f_equal. apply map_eq. intros h. rewrite Hm'. case_decide as Hin; [done|]. rewrite lookup_empty.
    destruct (m !! h) as [i|] eqn:Hi; [|done]. destruct Hin. rewrite walk_perm. apply list_elem_of_fmap.
    exists (db_key h, item_bytes i). split; [done|]. apply elem_of_map_to_list. unfold image.
    rewrite (lookup_kmap (M1:=gmap H256) (M2:=gmap bytes) db_key), lookup_fmap. by rewrite Hi.
Qed.

(** * The items *)

(** The items of a pool stand in places of their own and have ids of their own. *)
Record well_placed (n : N) (m : gmap H256 MemPoolItem) : Prop := {
  wp_hash h i : m !! h = Some i → mi_hash i = h ∧ mi_insertion_id i < n;
  wp_place h h' i j : m !! h = Some i → m !! h' = Some j → item_at i = item_at j → h = h';
  wp_id h h' i j : m !! h = Some i → m !! h' = Some j → mi_insertion_id i = mi_insertion_id j → h = h';
}.

Lemma held_placed P n db p batch : held P n db p batch → well_placed n (mp_by_hash p).
Proof.
  intros [Hr Hl _ _].
  assert (∀ h i, mp_by_hash p !! h = Some i → mi_hash i = h ∧ ∃ x, cells p !! item_at i = Some x ∧
    to_hash (ot_order x) = h ∧ order_id x = mi_insertion_id i) as Hi.
  { intros h i Hi. destruct (lk_item _ _ Hl _ _ Hi) as (He & x & Hx & Hh). split; [done|]. exists x. split; [done|].
    split; [done|]. destruct (lk_cell _ _ Hl _ _ Hx) as (j & Hj & _ & Hd). rewrite Hh, Hi in Hj. injection Hj as <-. apply Hd. }
  split.
  - intros h i (He & x & Hx & _ & Hid)%Hi. split; [done|]. rewrite <-Hid. by eapply rp_below.
  - intros h h' i j (_ & x & Hx & <- & _)%Hi (_ & y & Hy & <- & _)%Hi Hat. rewrite Hat, Hy in Hx. by injection Hx as ->.
  - intros h h' i j (_ & x & Hx & <- & Ei)%Hi (_ & y & Hy & <- & Ej)%Hi Hij.
    assert (item_at i = item_at j) as Hat by (eapply rp_ids; [done..|congruence]). rewrite Hat, Hy in Hx. by injection Hx as ->.
Qed.

(** What the first loop of [recover_from_db] keeps, with the entries that are still to come. *)
Record recovering (n : N) (m : gmap H256 MemPoolItem) (p0 : MemPool) (l : list (H256 * MemPoolItem))
  (p : MemPool) (max_id : N) (to_insert : gmap Public (list N)) : Prop := {
  rv_held : held recoverable n (image (mp_by_hash p)) p [];
  rv_new q s : is_new p (q, s) ↔ s ∈ inserted to_insert q;
  rv_nodup q : NoDup (inserted to_insert q);
  rv_items h : mp_by_hash p !! h = if decide (h ∈ l.*1) then None else m !! h;
  rv_max h i : mp_by_hash p !! h = Some i → mi_insertion_id i ≤ max_id;
  rv_below : max_id = 0 ∨ max_id < n;
  rv_limits : same_limits p0 p;
}.

Lemma recover_item_ok client n m p0 h i l p max_id to_insert :
  well_placed n m → m !! h = Some i → recoverable i → h ∉ l.*1 → recovering n m p0 ((h, i) :: l) p max_id to_insert →
  ∃ p' max_id' to_insert', recover_item client (p, max_id, to_insert) (h, i) = (p', max_id', to_insert') ∧
    recovering n m p0 l p' max_id' to_insert'.
Proof.
  intros Hw Hi Hrc Hni [[Hr Hl _ Hit] Hn Hnd Hitems Hmax Hb Hlim].
  assert (mp_by_hash p !! h = None) as Hh by (by rewrite Hitems, decide_True by (by left)).
  destruct (wp_hash _ _ Hw _ _ Hi) as [He Hid]. rewrite <-He in Hh.
  assert (∀ h' j, mp_by_hash p !! h' = Some j → h' ≠ h ∧ m !! h' = Some j) as Hin.
  { intros h' j Hj. rewrite Hitems in Hj. case_decide as Hd; [done|]. split; [|done]. intros ->. apply Hd. by left. }
  assert (cells p !! item_at i = None) as Ha.
  { destruct (cells p !! item_at i) as [x|] eqn:Hx; [|done]. destruct (lk_cell _ _ Hl _ _ Hx) as (j & Hj & Hat & _).
    apply Hin in Hj as [Hne Hj]. destruct Hne. by eapply (wp_place _ _ Hw). }
  set (o := for_transaction i (ad_seq (pc_fetch_account client (mi_signer_public i)))).
  assert (fresh_id (cells p) o) as Hf.
  { intros a x Hx Hxi. destruct (lk_cell _ _ Hl _ _ Hx) as (j & Hj & _ & Hd). apply Hin in Hj as [Hne Hj]. destruct Hne.
    eapply (wp_id _ _ Hw); [done..|]. rewrite <-(ds_id _ _ Hd). exact Hxi. }
  destruct (enter_new n _ _ _ _ i o Hr Hl Ha Hh) as [Hr' Hl']; [done|done|done|done|].
  unfold recover_item. fold o. set (p1 := set_indices _ _ _ _ p). set (p2 := if bool_decide _ then _ else p1).
  assert (cells p2 = <[item_at i := {| ot_order := o; ot_tag := New |}]> (cells p) ∧
    mp_by_hash p2 = <[mi_hash i := i]> (mp_by_hash p) ∧ mp_current p2 = mp_current p ∧ mp_future p2 = mp_future p ∧
    same_limits p p2) as (Ec & Eh & E1 & E2 & El).
  { assert (cells p1 = <[item_at i := {| ot_order := o; ot_tag := New |}]> (cells p)) as Ec by apply flat_write.
    subst p2. rewrite He. by destruct (bool_decide _). }
  do 3 eexists. split; [done|].
  destruct (new_inserted p p2 to_insert (mi_signer_public i) (mi_seq i) o Ec) as (_ & Hn' & Hnd'); [|done|done|].
  { intros (o' & Ho'). change (mi_signer_public i, mi_seq i) with (item_at i) in Ho'. by rewrite Ha in Ho'. }
  split; [split; rewrite ?Ec, ?Eh, ?E1, ?E2; try done| done | done | | | |by eapply same_limits_trans].
  - intros h' j [[<- <-]|[_ Hj]]%lookup_insert_Some; [done|by eapply Hit].
  - intros h'. rewrite Eh, He. destruct (decide (h' = h)) as [->|Hne].
    + by rewrite lookup_insert_eq, decide_False.
    + rewrite lookup_insert_ne by done. rewrite Hitems. apply decide_ext. cbn. rewrite elem_of_cons. split; [by intros [?|?]|by right].
  - intros h' j. rewrite Eh. intros [[<- <-]|[_ Hj]]%lookup_insert_Some; [|apply Hmax in Hj]; destruct (N.ltb_spec max_id (mi_insertion_id i)); lia.
  - destruct (N.ltb_spec max_id (mi_insertion_id i)); [by right|done].
Qed.

Lemma recover_items_ok client n m p0 l p max_id to_insert :
  well_placed n m → NoDup l.*1 → (∀ h i, (h, i) ∈ l → m !! h = Some i ∧ recoverable i) →
  recovering n m p0 l p max_id to_insert →
  ∃ p' max_id' to_insert', foldl (recover_item client) (p, max_id, to_insert) l = (p', max_id', to_insert') ∧
    recovering n m p0 [] p' max_id' to_insert'.
Proof.
  intros Hw. revert p max_id to_insert. induction l as [|[h i] l IH]; intros p max_id to_insert Hnd Hl Hr.
  { by do 3 eexists. }
  apply NoDup_cons in Hnd as [Hni Hnd]. destruct (Hl h i) as [Hi Hrc]; [by left|].
  destruct (recover_item_ok client n m p0 h i l p max_id to_insert) as (p1 & m1 & t1 & E & Hr1); [done..|].
  cbn [foldl]. rewrite E. apply IH; [done| |done]. intros h' i' Hin. apply Hl. by right.
Qed.


(** * The accounts *)

Lemma recover_account_ok client n db to_insert p batch public :
  held recoverable n db p batch → is_Some (mp_by_signer_public p !! public) → NoDup (inserted to_insert public) →
  (∀ seq, is_new p (public, seq) ↔ seq ∈ inserted to_insert public) →
  ∃ p', recover_account client to_insert p public = Ok p' ∧ held recoverable n db p' batch ∧ keeps_others public p p' ∧
    ∀ seq, ¬ is_new p' (public, seq).
Proof.
  intros Hh Hrow Hnd Hnew. unfold recover_account, inserted in *. set (cs := ad_seq _).
  set (number := pc_best_block_number client). set (timestamp := pc_best_block_timestamp client).
  assert (∃ r, match to_insert !! public with
               | Some v => check_new_transactions p public v cs number timestamp | None => Ok None end = Ok r) as [r ->].
  { destruct (to_insert !! public) as [v|]; [|by eexists]. apply check_new_transactions_ok; [done|].
    intros seq Hin. destruct (proj2 (Hnew seq) Hin) as (o & Ho). by rewrite Ho. }
  rewrite Ok_bind.
  assert (∃ nns, match r with Some seq => Ok seq | None => check_transactions p public cs number timestamp end = Ok nns)
    as [nns ->] by (destruct r; [by eexists|by apply check_transactions_ok]).
  rewrite Ok_bind. set (ns := if cs <? nns then _ else _). set (p1 := set_accounts _ _ _ p).
  assert (held recoverable n db p1 batch) as Hh1 by (by apply held_accounts).
  destruct (to_insert !! public) as [seqs|]; cbn [default] in *.
  - destruct (add_new_orders_ok _ _ _ public nns seqs p1 batch Hh1) as (p2 & -> & Hh2 & [Hr2 Hc2 Hl2 Hm2 Hx2 Hd2] & Hn2); [done..|].
    rewrite Ok_bind. destruct (clear_account_ok _ _ _ public p2 batch Hh2) as (Hh3 & [Hr3 Hc3 Hl3 Hm3 Hx3 Hd3] & Hn3).
    eexists. split; [done|]. split; [done|]. split; [|intros seq; rewrite Hn3; apply Hn2].
    split; [by intros q ? ?; apply Hr3, Hr2| |etrans; eassumption..]. intros a Ha. by rewrite Hc3, Hc2.
  - rewrite Ok_bind. destruct (clear_account_ok _ _ _ public p1 batch Hh1) as (Hh3 & [] & Hn3).
    eexists. split; [done|]. split; [done|]. split; [by split|]. intros seq. rewrite Hn3. intros Hs.
    by apply (Hnew seq), elem_of_nil in Hs.
Qed.

(** A step that does not write to the database, among steps that do. *)
Lemma fold_res_beside {E A B C : Type} (f : B → A → result E B) l b (c : C) b' c' :
  fold_res (λ bc a, b ← f bc.1 a; Ok (b, bc.2)) (b, c) l = Ok (b', c') → fold_res f b l = Ok b' ∧ c' = c.
Proof.
  revert b. induction l as [|a l IH]; intros b; cbn [fold_res]; [by intros [= <- <-]|].
  change (f (b, c).1 a) with (f b a). destruct (f b a) as [b1|e|]; [|done..]. rewrite !Ok_bind. apply IH.
Qed.

Lemma reps_rebound n n' cur fut c :
  reps n cur fut c → (∀ a x, c !! a = Some x → order_id x < n') → n' + 1 < u64_size → reps n' cur fut c.
Proof. by intros [] ? ?. Qed.

(** The column tells the items that it was written from. *)
Lemma image_recoverable (m m' : gmap H256 MemPoolItem) :
  (∀ h i, m !! h = Some i → mi_insertion_id i < u64_size ∧ recoverable i) →
  (∀ h i, m' !! h = Some i → mi_insertion_id i < u64_size ∧ recoverable i) → image m = image m' → m = m'.
Proof.
  intros Hm%(recover_to_data_ok (E:=())) Hm'%(recover_to_data_ok (E:=())) He. rewrite He, Hm' in Hm. by injection Hm.
Qed.

Lemma held_recoverable n db p batch :
  held recoverable n db p batch →
  ∀ h i, mp_by_hash p !! h = Some i → mi_insertion_id i < u64_size ∧ recoverable i.
Proof.
  intros Hh h i Hi. destruct (wp_hash _ _ (held_placed _ _ _ _ _ Hh) _ _ Hi).
  pose proof (rp_bound _ _ _ _ (hd_reps _ _ _ _ _ Hh)). split; [lia|by eapply hd_items].
Qed.

Lemma recovering_empty n m p l :
  n + 1 < u64_size → (∀ h, is_Some (m !! h) → h ∈ l.*1) → mp_by_hash p = ∅ → mp_by_signer_public p = ∅ →
  mp_current p = CurrentQueue_new → mp_future p = FutureQueue_new → recovering n m p l p 0 ∅.
Proof.
  intros Hn Hl Em Et E1 E2. assert (cells p = ∅) as Ec by (by rewrite Et). split.
  - split; rewrite ?Ec, ?Em, ?E1, ?E2; [by apply reps_empty|by split|done|done].
  - intros q s. unfold is_new, inserted. rewrite Ec, !lookup_empty. cbn. rewrite elem_of_nil. by split; [intros (o & ?)|].
  - intros q. unfold inserted. rewrite lookup_empty. constructor.
  - intros h. rewrite Em, lookup_empty. case_decide as Hd; [done|]. destruct (m !! h) eqn:Hh; [|done].
    destruct Hd. by apply Hl; rewrite Hh.
  - intros h i. by rewrite Em.
  - by left.
  - done.
Qed.

Lemma recover_accounts_ok client n m p0 p max_id to_insert :
  recovering n m p0 [] p max_id to_insert →
  ∃ p', fold_res (recover_account client to_insert) p (walk (map_to_list (mp_by_signer_public p)).*1) = Ok p' ∧
    held recoverable n (image m) p' [] ∧ (∀ a, ¬ is_new p' a) ∧ same_limits p0 p' ∧ mp_by_hash p = m ∧ mp_by_hash p' = m.
Proof.
  intros [Hh Hn Hnd Hi Hmax Hb Hlim]. assert (mp_by_hash p = m) as Em by (apply map_eq; intros h; by rewrite Hi).
  destruct (accounts_ok recoverable n (image (mp_by_hash p)) (λ st q, p ← recover_account client to_insert st.1 q; Ok (p, st.2))
    (λ p' q, NoDup (inserted to_insert q) ∧ ∀ seq, is_new p' (q, seq) ↔ seq ∈ inserted to_insert q) p [])
    as (p2 & b2 & [E ->]%fold_res_beside & Hh2 & Hnew2 & Hlim2).
  - intros p2 p3 q q' Hk Hne [Hq1 Hq2]. split; [done|]. intros seq. unfold is_new. rewrite (ko_cells _ _ _ Hk) by done.
    apply Hq2.
  - intros p2 b2 q Hh2 Hrow [Hq1 Hq2].
    destruct (recover_account_ok client n (image (mp_by_hash p)) to_insert p2 b2 q) as (p3 & E & ?); [done..|].
    exists p3, b2. cbn [fst snd]. by rewrite E.
  - done.
  - done.
  - exists p2. rewrite Em in Hh2. split; [done|]. split; [done|]. split; [done|]. split; [by eapply same_limits_trans|].
    split; [done|]. apply image_recoverable; [by eapply held_recoverable|rewrite <-Em; by eapply held_recoverable|].
    symmetry. apply (hd_db _ _ _ _ _ Hh2).
Qed.

(** The pool of a node that starts again holds what the pool of the column held. *)
Lemma recover_ok client p p0 :
  pool_ok recoverable p → mp_db p0 = mp_db p → mp_by_hash p0 = ∅ → mp_by_signer_public p0 = ∅ →
  mp_current p0 = CurrentQueue_new → mp_future p0 = FutureQueue_new →
  ∃ p', recover_from_db p0 client = Ok p' ∧ pool_ok recoverable p' ∧ mp_by_hash p' = mp_by_hash p ∧
    mp_db p' = mp_db p ∧ mp_queue_count_limit p' = mp_queue_count_limit p0 ∧
    mp_queue_memory_limit p' = mp_queue_memory_limit p0 ∧
    (mp_next_transaction_id p' = 1 ∨ mp_next_transaction_id p' ≤ mp_next_transaction_id p).
Proof.
  intros [Hh Hnew] Edb Em Et E1 E2. set (n := mp_next_transaction_id p) in *. set (m := mp_by_hash p).
  pose proof (held_placed _ _ _ _ _ Hh) as Hw. pose proof (rp_bound _ _ _ _ (hd_reps _ _ _ _ _ Hh)) as Hn.
  pose proof (held_recoverable _ _ _ _ Hh) as Hok. assert (mp_db p = image m) as Himg by apply Hh.
  unfold recover_from_db. rewrite Edb, Himg, recover_to_data_ok, Ok_bind by done.
  destruct (recover_items_ok client n m p0 (walk (map_to_list m)) p0 0 ∅) as (p1 & max_id & to_insert & -> & Hr1).
  - done.
  - rewrite walk_perm. apply NoDup_fst_map_to_list.
  - intros h i Hin. rewrite walk_perm in Hin. apply elem_of_map_to_list in Hin. split; [done|by eapply Hok].
  - apply recovering_empty; [done| |done..]. intros h [i Hi]. rewrite walk_perm. apply list_elem_of_fmap.
    exists (h, i). split; [done|]. by apply elem_of_map_to_list.
  - destruct (recover_accounts_ok client n m p0 p1 max_id to_insert Hr1) as (p2 & -> & Hh2 & Hnew2 & (El & Eq & _ & Ed) & Em1 & Em2).
    destruct Hr1 as [_ _ _ _ Hmax Hb _]. rewrite Ok_bind. assert (u64_add max_id 1 = max_id + 1) as Ex
      by (unfold u64_add; rewrite N.mod_small; lia).
    rewrite Ed, Edb, Ex. eexists. split; [done|]. cbn [set_clock mp_by_hash mp_db mp_queue_count_limit mp_queue_memory_limit mp_next_transaction_id].
    split; [|split; [done|split; [done|split; [done|split; [done|lia]]]]]. split; [|done].
    destruct Hh2 as [Hr2 Hl2 Hd2 Hit2]. split; [|done|by cbn; rewrite Himg|done].
    eapply reps_rebound; [exact Hr2| |assert (2 < u64_size) by done; cbn; lia]. intros a x Hx. destruct (lk_cell _ _ Hl2 _ _ Hx) as (i & Hi & _ & Hd).
    rewrite (ds_id _ _ Hd). rewrite Em2, <-Em1 in Hi. apply Hmax in Hi. cbn. lia.
Qed.
End Recover.
