(* ===== verification/MemPoolProps.v ===== *)
(** What the memory pool promises to the miner: the calls that the miner makes never unwind and keep the
    indices, the queues and the database in step, the queues stay within their limits, and a node that starts
    again has the transactions that it had.  Then the runs that go wrong. *)
From stdpp Require Import base gmap list numbers strings.
From Stdlib Require Import NArith Lia.
From S2P Require Import Prelude Types Crypto Rlp RlpImpls TxRlp TxHash BTree Header VoteCollector.
From S2P Require Import MemPoolTypes MemPool MemPoolInv MemPoolSteps MemPoolRecover TmScenario.

Local Open Scope N_scope.

(** * Calls *)

(** The calls of the miner that change the pool, and a restart of the node over the same database. *)
Inductive PoolCall :=
| CallAdd (number timestamp : N) (fetch_account : Public → AccountDetails) (inputs : list MemPoolInput)
| CallRemove (number timestamp : N) (fetch_seq : Public → N) (hashes : list H256)
| CallRemoveOld (number timestamp : N) (fetch_account : Public → AccountDetails)
| CallSetLimit (limit : N)
| CallSetMinimalFee (fee : N)
| CallRestart (limit memory_limit fee_bump_shift : N) (client : PoolClient).

Section Runs.
Context `{Crypto, HashOrderLaws}.

Definition pool_call (p : MemPool) (call : PoolCall) : poolR MemPool :=
  match call with
  | CallAdd number timestamp fetch_account inputs =>
      '(_, p) ← add number timestamp fetch_account p inputs; Ok p
  | CallRemove number timestamp fetch_seq hashes => remove (λ q, Ok (fetch_seq q)) number timestamp p hashes
  | CallRemoveOld number timestamp fetch_account => remove_old p fetch_account number timestamp
  | CallSetLimit limit => Ok (set_limit limit p)
  | CallSetMinimalFee fee => Ok (set_minimal_fee fee p)
  | CallRestart limit memory_limit fee_bump_shift client =>
      recover_from_db (with_limits limit memory_limit fee_bump_shift (mp_db p)) client
  end.
Definition pool_run : MemPool → list PoolCall → poolR MemPool := fold_res pool_call.

(** A signed transaction as the miner hands it over: of the types it is declared with, with the hash of its
    bytes and the signer that its signature gives, and of a size that the encoder takes. *)
Record input_ok (number timestamp : N) (input : MemPoolInput) : Prop := {
  ip_tx : Transaction_wf (stx_unsigned (in_transaction input));
  ip_sig : len (utx_sig (stx_tx (in_transaction input))) = 65;
  ip_hash : stx_tx (in_transaction input) =
    UnverifiedTransaction_new (stx_unsigned (in_transaction input)) (utx_sig (stx_tx (in_transaction input)));
  ip_signer : recover_public (stx_tx (in_transaction input)) = Ok (stx_signer_public (in_transaction input));
  ip_number : number < u64_size;
  ip_timestamp : timestamp < u64_size;
  ip_block_lock : wf (option_codec u64_codec) (tl_block (in_timelock input));
  ip_time_lock : wf (option_codec u64_codec) (tl_timestamp (in_timelock input));
  ip_size : len (enc (List (sealed_items (stx_unsigned (in_transaction input))
                              (utx_sig (stx_tx (in_transaction input)))))) + 256 < u32_size;
}.

(** No two inputs of one call take the same place. *)
Definition call_ok (call : PoolCall) : Prop :=
  match call with
  | CallAdd number timestamp _ inputs => NoDup (input_at <$> inputs) ∧ Forall (input_ok number timestamp) inputs
  | _ => True
  end.
Definition call_inputs (call : PoolCall) : N :=
  match call with CallAdd _ _ _ inputs => len inputs | _ => 0 end.

Lemma made_recoverable n t input i : input_ok n t input → made n t input i → recoverable i.
Proof.
  intros [Ht Hs Hh Hr Hn Hti Hl1 Hl2 Hsz] (Etx & Elock & En & Et & Hid).
  split; rewrite ?Etx, ?Elock, ?En, ?Et; try done. apply pool_items_fit. by rewrite Etx.
Qed.

Lemma recoverable_small : small_items recoverable.
Proof.
  intros i Hi. assert (fits (List (sealed_items (stx_unsigned (mi_tx i)) (utx_sig (stx_tx (mi_tx i)))))) as Hf
    by (eapply fits_elem; [exact (rc_fits _ Hi)|by left]).
  unfold SignedTransaction_append. by rewrite sealed_bytes.
Qed.

Lemma pool_call_ok p k call :
  pool_ok recoverable p → mp_next_transaction_id p ≤ k + 1 → call_ok call → k + call_inputs call + 2 < u64_size →
  ∃ p', pool_call p call = Ok p' ∧ pool_ok recoverable p' ∧ mp_next_transaction_id p' ≤ k + call_inputs call + 1.
Proof.
  intros Hp Hk Hc Hb. destruct call as [n t fetch inputs|n t fetch hashes|n t fetch|limit|fee|limit memory_limit shift client];
    cbn [pool_call call_inputs] in *.
  - destruct Hc as [Hnd Hi]. rewrite Forall_forall in Hi.
    destruct (add_ok recoverable n t fetch p inputs Hp Hnd) as (rs & p' & -> & Hp' & Hn' & _);
      [intros input i Hin; by apply made_recoverable, Hi|lia|]. rewrite Ok_bind. exists p'. split; [done|]. split; [done|lia].
  - destruct (remove_ok recoverable n t (λ q, Ok (fetch q)) p hashes Hp) as (p' & -> & Hp' & _ & _ & E); [by intros q _; eexists|].
    exists p'. split; [done|]. split; [done|lia].
  - destruct (remove_old_ok recoverable fetch n t p Hp) as (p' & -> & Hp' & _ & _ & E). exists p'. split; [done|]. split; [done|lia].
  - eexists. split; [done|]. split; [|cbn; lia]. by destruct Hp as [[] ?].
  - eexists. split; [done|]. split; [|cbn; lia]. by destruct Hp as [[] ?].
  - destruct (recover_ok client p (with_limits limit memory_limit shift (mp_db p)) Hp)
      as (p' & -> & Hp' & _ & _ & _ & _ & Hn'); [done..|]. exists p'. split; [done|]. split; [done|lia].
Qed.

Lemma pool_run_keeps calls p k :
  pool_ok recoverable p → mp_next_transaction_id p ≤ k + 1 → Forall call_ok calls →
  k + sum_with call_inputs calls + 2 < u64_size →
  ∃ p', pool_run p calls = Ok p' ∧ pool_ok recoverable p' ∧
    mp_next_transaction_id p' ≤ k + sum_with call_inputs calls + 1.
Proof.
  revert p k. induction calls as [|call calls IH]; intros p k Hp Hk Hc Hb.
  { exists p. split; [done|]. split; [done|]. rewrite sum_with_nil. lia. }
  apply Forall_cons in Hc as [Hc Hcs]. rewrite sum_with_cons in *.
  destruct (pool_call_ok p k call Hp Hk Hc) as (p1 & E & Hp1 & Hk1); [lia|].
  destruct (IH p1 (k + call_inputs call) Hp1) as (p2 & E2 & Hp2 & Hk2); [lia|done|lia|].
  exists p2. unfold pool_run in *. cbn [fold_res]. rewrite E, Ok_bind. split; [done|]. split; [done|lia].
Qed.

(** C23: Whatever the miner does to an empty pool - adding transactions, removing those of a block, removing old
    ones, setting limits, starting again over the same database - no call unwinds as long as no call adds two
    transactions of one signer and one sequence number and ids do not run out.  In the pool that results the
    queues hold exactly the orders that the table tags, their counters are right, every cell belongs to
    an item of its place and every item has its cell, and the database holds the items, neither more nor less. *)
Theorem pool_run_ok calls limit memory_limit fee_bump_shift :
  Forall call_ok calls → sum_with call_inputs calls + 2 < u64_size →
  ∃ p, pool_run (with_limits limit memory_limit fee_bump_shift ∅) calls = Ok p ∧
    reps (mp_next_transaction_id p) (mp_current p) (mp_future p) (cells p) ∧ linked (cells p) (mp_by_hash p) ∧
    (∀ a, ¬ is_new p a) ∧ mp_db p = image (mp_by_hash p).
Proof.
  intros Hc Hb. destruct (pool_run_keeps calls (with_limits limit memory_limit fee_bump_shift ∅) 0)
    as (p & E & [[Hr Hl Hd Hi] Hn] & _); [apply with_limits_ok|done|done|lia|]. by exists p.
Qed.

(** C24: After every call that adds transactions both queues are within the limits that hold at that time: the
    transactions that are neither local nor from a retracted block are no more than the count limit and take no
    more bytes than the memory limit. *)
Theorem pool_within_limits calls number timestamp fetch_account inputs limit memory_limit fee_bump_shift :
  let call := CallAdd number timestamp fetch_account inputs in
  Forall call_ok (calls ++ [call]) → sum_with call_inputs (calls ++ [call]) + 1 ≤ u32_size →
  ∃ p p', pool_run (with_limits limit memory_limit fee_bump_shift ∅) calls = Ok p ∧ pool_call p call = Ok p' ∧
    mp_queue_count_limit p' = mp_queue_count_limit p ∧ mp_queue_memory_limit p' = mp_queue_memory_limit p ∧
    within (mp_queue_count_limit p) (mp_queue_memory_limit p) (cq_queue (mp_current p')) ∧
    within (mp_queue_count_limit p) (mp_queue_memory_limit p) (fq_queue (mp_future p')).
Proof.
  intros call [Hc Hcall]%Forall_app Hb. rewrite sum_with_app, sum_with_cons, sum_with_nil in Hb.
  assert (2 * u32_size < u64_size) by done.
  destruct (pool_run_keeps calls (with_limits limit memory_limit fee_bump_shift ∅) 0)
    as (p & E & Hp & Hk); [apply with_limits_ok|done|done|lia|]. apply Forall_singleton in Hcall as [Hnd Hi].
  rewrite Forall_forall in Hi. cbn [call call_inputs] in Hb.
  destruct (add_ok recoverable number timestamp fetch_account p inputs Hp Hnd) as (rs & p' & E' & _ & _ & El & Em & Hw);
    [intros input i Hin; by apply made_recoverable, Hi|lia|].
  destruct Hw as [Hw1 Hw2]; [apply recoverable_small|lia|].
  exists p, p'. split; [done|]. split; [|done]. cbn [pool_call call]. by rewrite E'.
Qed.

(** C25: A node that stops and starts again takes every transaction of its pool back from the database, with its
    origin, its timelock and the time it came, and nothing else; the pool is in step again. *)
Theorem pool_restart_restores calls limit memory_limit fee_bump_shift limit' memory_limit' fee_bump_shift' client :
  Forall call_ok calls → sum_with call_inputs calls + 2 < u64_size →
  ∃ p p', pool_run (with_limits limit memory_limit fee_bump_shift ∅) calls = Ok p ∧
    recover_from_db (with_limits limit' memory_limit' fee_bump_shift' (mp_db p)) client = Ok p' ∧
    mp_by_hash p' = mp_by_hash p ∧ mp_db p' = mp_db p ∧ pool_ok recoverable p'.
Proof.
  intros Hc Hb. destruct (pool_run_keeps calls (with_limits limit memory_limit fee_bump_shift ∅) 0)
    as (p & E & Hp & _); [apply with_limits_ok|done|done|lia|].
  destruct (recover_ok client p (with_limits limit' memory_limit' fee_bump_shift' (mp_db p)) Hp)
    as (p' & E' & Hp' & Eh & Ed & _); [done..|]. by exists p, p'.
Qed.

(** * The next sequence number *)

Lemma check_loop_exact (row : Row) n t fuel start :
  start + N.of_nat fuel < u64_size →
  let r := check_loop fuel row start n t in
  start ≤ r ∧ r ≤ start + N.of_nat fuel ∧
  (∀ s, start ≤ s → s < r → ∃ x, row !! s = Some x ∧ should_wait_timelock (to_timelock (ot_order x)) n t = false) ∧
  (r < start + N.of_nat fuel →
   match row !! r with Some x => should_wait_timelock (to_timelock (ot_order x)) n t = true | None => True end).
Proof.
  revert start. induction fuel as [|fuel IH]; intros start Hb; cbn [check_loop].
  { split; [lia|]. split; [lia|]. split; [intros; lia|lia]. }
  destruct (row !! start) as [x|] eqn:Hx; [|rewrite Hx; repeat split; intros; lia].
  destruct (should_wait_timelock _ _ _) eqn:Hw; [rewrite Hx; repeat split; intros; [lia|lia|lia|done]|].
  assert (u64_add start 1 = start + 1) as -> by (unfold u64_add; rewrite N.mod_small; lia).
  destruct (IH (start + 1)) as (Hr1 & Hr2 & Hr3 & Hr4); [lia|]. split; [lia|]. split; [lia|]. split; [|intros; apply Hr4; lia].
  intros s Hs Hr. destruct (decide (s = start)) as [->|]; [by exists x|]. apply Hr3; lia.
Qed.

(** The search for the next sequence number of an account ends, and where it ends is right: every number
    from the first on up to it has a transaction that need not wait, and it has none or one that has to. *)
Theorem check_transactions_exact p public (row : Row) start n t :
  mp_by_signer_public p !! public = Some row → start + N.of_nat (size row) + 1 < u64_size →
  ∃ r, check_transactions p public start n t = Ok r ∧ start ≤ r ∧
    (∀ s, start ≤ s → s < r → ∃ x, row !! s = Some x ∧ should_wait_timelock (to_timelock (ot_order x)) n t = false) ∧
    match row !! r with Some x => should_wait_timelock (to_timelock (ot_order x)) n t = true | None => True end.
Proof.
  intros Hrow Hb. unfold check_transactions. rewrite Hrow. cbn [expect]. rewrite Ok_bind. eexists. split; [done|].
  destruct (check_loop_exact row n t (S (size row)) start) as (Hr1 & Hr2 & Hr3 & Hr4); [lia|].
  set (r := check_loop _ _ _ _ _) in *. split; [done|]. split; [done|]. apply Hr4.
  enough (r - start ≤ N.of_nat (size row)) by lia.
  assert (list_to_set (range start r) ⊆@{gset N} dom row) as Hsub%subseteq_size.
  { intros s (i & -> & Hi)%elem_of_list_to_set%list_elem_of_fmap. apply elem_of_seq in Hi.
    destruct (Hr3 (start + N.of_nat i)) as (x & Hx & _); [lia|lia|]. apply elem_of_dom. by exists x. }
  rewrite size_dom, size_list_to_set in Hsub.
  - unfold range in Hsub. rewrite length_fmap, length_seq in Hsub. lia.
  - unfold range. apply NoDup_fmap_2; [intros i j; lia|apply NoDup_seq].
Qed.

(** * Serving *)

Lemma queue_items_ok p (q : OrderSet) tag :
  pool_ok recoverable p → set_ok q → (∀ o, queued q o ↔ ∃ a, cells p !! a = Some {| ot_order := o; ot_tag := tag |}) →
  ∃ items, queue_items p q = Ok items ∧
    Forall2 (λ o i, mp_by_hash p !! to_hash o = Some i ∧ describes o i) q.*2 items.
Proof.
  intros [Hh _] Hq Hin. unfold queue_items.
  assert (∀ o, o ∈ q.*2 → ∃ i, mp_by_hash p !! to_hash o = Some i ∧ describes o i) as Ho.
  { intros o Ho. apply (queue_orders q Hq), Hin in Ho as (a & Ha).
    destruct (lk_cell _ _ (hd_linked _ _ _ _ _ Hh) _ _ Ha) as (i & Hi & _ & Hd). by exists i. }
  clear Hq Hin. induction q.*2 as [|o l IH]; [by exists []|].
  destruct (Ho o) as (i & Hi & Hd); [by left|]. destruct IH as (items & E & Hl); [by intros o' ?; apply Ho; right|].
  exists (i :: items). cbn [map_res]. rewrite Hi. cbn [expect]. rewrite Ok_bind, E, Ok_bind. split; [done|by constructor].
Qed.

Lemma Forall2_sublist_r {A B : Type} (R : A → B → Prop) l k k' :
  Forall2 R l k → k' `sublist_of` k → ∃ l', l' `sublist_of` l ∧ Forall2 R l' k'.
Proof.
  intros Hl Hs. revert l Hl. induction Hs as [|x k' k Hs IH|x k' k Hs IH]; intros l Hl.
  - exists []. split; [apply sublist_nil_l|constructor].
  - apply Forall2_cons_inv_r in Hl as (y & l1 & Hy & (l' & Hl' & Hf)%IH & ->). exists (y :: l').
    split; [by apply sublist_skip|by constructor].
  - apply Forall2_cons_inv_r in Hl as (y & l1 & Hy & (l' & Hl' & Hf)%IH & ->). exists l'. split; [by apply sublist_cons|done].
Qed.

Definition tx_size (tx : SignedTransaction) : N := len (rlp_bytes (SignedTransaction_append tx)).

(** The items that are taken: the first ones, as long as they are shorter than the limit together. *)
Lemma take_while_size_ok size_limit current items :
  current + sum_with (λ i, tx_size (mi_tx i)) items < u64_size →
  let taken := take_while_size size_limit current items in
  taken `sublist_of` items ∧ (taken = [] ∨ current + sum_with (λ i, tx_size (mi_tx i)) taken < size_limit).
Proof.
  revert current. induction items as [|i items IH]; intros current Hb; cbn [take_while_size]; [by split; [|left]|].
  rewrite sum_with_cons in Hb. fold (tx_size (mi_tx i)).
  assert (u64_add current (tx_size (mi_tx i)) = current + tx_size (mi_tx i)) as ->
    by (unfold u64_add; rewrite N.mod_small; lia).
  destruct (N.ltb_spec (current + tx_size (mi_tx i)) size_limit); [|split; [apply sublist_nil_l|by left]].
  destruct (IH (current + tx_size (mi_tx i))) as [Hs Hl]; [lia|]. split; [by apply sublist_skip|]. right.
  rewrite sum_with_cons. destruct Hl as [->|Hl]; [rewrite sum_with_nil|]; lia.
Qed.

Lemma sum_sublist {A : Type} (f : A → N) l k : l `sublist_of` k → sum_with f l ≤ sum_with f k.
Proof. induction 1; rewrite ?sum_with_cons; lia. Qed.

(** C26: What the miner takes for a block comes from the current queue in the order of the queue, each transaction
    unexpired and of the time asked for, and all of them together shorter than the limit of a block body. *)
Theorem top_transactions_exact calls limit memory_limit fee_bump_shift size_limit now range :
  Forall call_ok calls → sum_with call_inputs calls + 1 ≤ u32_size →
  ∃ p txs last, pool_run (with_limits limit memory_limit fee_bump_shift ∅) calls = Ok p ∧
    top_transactions p size_limit now range = Ok (txs, last) ∧
    (txs = [] ∨ sum_with tx_size txs < size_limit) ∧
    ∃ orders, orders `sublist_of` (cq_queue (mp_current p)).*2 ∧
      Forall2 (λ o tx, ∃ i, mp_by_hash p !! to_hash o = Some i ∧ mi_tx i = tx ∧
        contains range (mi_inserted_timestamp i) = true ∧
        match mi_expiration i, now with Some e, Some t => t ≤ e | _, _ => True end) orders txs.
Proof.
  intros Hc Hb. assert (2 * u32_size < u64_size) by done.
  destruct (pool_run_keeps calls (with_limits limit memory_limit fee_bump_shift ∅) 0)
    as (p & E & Hp & Hk); [apply with_limits_ok|done|done|lia|].
  pose proof (hd_reps _ _ _ _ _ (proj1 Hp)) as Hr. pose proof (cq_set _ (rp_current _ _ _ _ Hr)) as Hq.
  destruct (queue_items_ok p _ Current Hp Hq (rp_in_current _ _ _ _ Hr)) as (items & Ei & Hf).
  destruct (memory_small recoverable _ _ p [] _ Current (proj1 Hp) recoverable_small ltac:(lia) Hq (rp_in_current _ _ _ _ Hr)) as [_ Hm].
  assert (sum_with (λ i, tx_size (mi_tx i)) items = sum_with to_mem_usage (cq_queue (mp_current p)).*2) as Hsum.
  { clear -Hf. induction Hf as [|o i os k (_ & Hd) _ IH]; [done|]. by rewrite !sum_with_cons, IH, (ds_mem_usage _ _ Hd). }
  exists p. unfold top_transactions. rewrite Ei, Ok_bind. 
  set (unexpired := λ t, match mi_expiration t, now with Some e, Some t => t <=? e | _, _ => true end).
  set (kept := filter (λ t, contains range (mi_inserted_timestamp t)) (filter (λ t, unexpired t) items)).
  assert (kept `sublist_of` items) as Hkept by (subst kept; etrans; apply sublist_filter).
  pose proof (sum_sublist (λ i, tx_size (mi_tx i)) _ _ Hkept).
  destruct (take_while_size_ok size_limit 0 kept) as [Hs Hl]; [lia|]. set (taken := take_while_size _ _ _) in *.
  do 2 eexists. split; [done|]. split; [done|]. split.
  - destruct Hl as [->|Hl]; [by left|right]. clearbody taken. clear -Hl.
    enough (sum_with tx_size (mi_tx <$> taken) = sum_with (λ i, tx_size (mi_tx i)) taken) by lia.
    clear. induction taken as [|i k IH]; [done|]. by rewrite fmap_cons, !sum_with_cons, IH.
  - destruct (Forall2_sublist_r _ _ _ taken Hf) as (orders & Ho & Hfo); [by etrans|]. exists orders. split; [done|].
    assert (Forall (λ i, contains range (mi_inserted_timestamp i) = true ∧ unexpired i = true) taken) as Hall.
    { apply Forall_forall. intros i Hi. pose proof (elem_of_sublist _ _ _ Hi Hs) as Hin. subst kept.
      rewrite !list_elem_of_filter in Hin. destruct Hin as (? & ? & _). split; [by apply Is_true_true|by apply Is_true_true]. }
    apply Forall2_fmap_r. clear -Hfo Hall. induction Hfo as [|o i os k (Hi & _) _ IH]; [constructor|].
    apply Forall_cons in Hall as [[Hc Hu] Hall]. constructor; [|by apply IH]. exists i. split; [done|]. split; [done|].
    split; [done|]. unfold unexpired in Hu. destruct (mi_expiration i), now; try done. by apply N.leb_le.
Qed.

End Runs.

(** * Concrete pools *)

Module PoolScenario.
Import Scenario.

#[local] Instance walk_laws : HashOrderLaws.
Proof. split. done. Qed.

Definition signer (i : N) : Public := replicate 32 (i + 1) ++ replicate 32 0.
Definition tx (i seq fee : N) : SignedTransaction :=
  let t := {| tx_seq := seq; tx_fee := fee; tx_network_id := [116; 99]; tx_action := Action.Pay (replicate 20 7) 5 |} in
  {| stx_tx := UnverifiedTransaction_new t (Sample.sign (signer i) (Transaction_hash t)); stx_signer_public := signer i |}.
Definition no_lock : TxTimelock := {| tl_block := None; tl_timestamp := None |}.
Definition inp (i seq fee : N) : MemPoolInput :=
  {| in_transaction := tx i seq fee; in_origin := External; in_timelock := no_lock |}.
Definition fetch (_ : Public) : AccountDetails := {| ad_seq := 0; ad_balance := 1000 |}.
Definition node : PoolClient := {|
  pc_latest_regular_key_owner _ := None; pc_latest_seq _ := 0; pc_latest_balance _ := 1000;
  pc_best_block_number := 2; pc_best_block_timestamp := 200 |}.

Definition empty_pool (limit : N) : MemPool := with_limits limit 100000 3 ∅.
(** The answers of a pool to transactions that come one by one. *)
Definition add_each (p : MemPool) (inputs : list MemPoolInput)
  : poolR (list (result PoolError TransactionImportResult) * MemPool) :=
  fold_res (λ '(rs, p) input, '(r, p) ← add 1 100 fetch p [input]; Ok (rs ++ r, p)) ([], p) inputs.
(** The sequence numbers of a signer in the current queue. *)
Definition current_seqs (p : MemPool) (i : N) : list N :=
  (filter (λ x : N * TransactionOrderWithTag, ot_tag x.2 = Current)
     (map_to_list (default ∅ (mp_by_signer_public p !! signer i)))).*1.

(** Two signers; the node starts again between two blocks. *)
Definition calls : list PoolCall :=
  [CallAdd 1 100 fetch [inp 0 0 200; inp 0 1 300; inp 1 0 250; inp 1 2 400];
   CallRemove 2 200 (λ _, 0) [stx_hash (tx 0 0 200)];
   CallRestart 3 100000 3 node].
Definition last_inputs : list MemPoolInput := [inp 1 1 500].

Definition limits_after (calls : list PoolCall) : poolR (N * N) :=
  p ← pool_run (with_limits 3 100000 3 ∅) calls; Ok (mp_queue_count_limit p, mp_queue_memory_limit p).
Definition made_of (input : MemPoolInput) : MemPoolItem := {|
  mi_tx := in_transaction input; mi_origin := in_origin input; mi_inserted_block_number := 1;
  mi_inserted_timestamp := 100; mi_insertion_id := 0; mi_timelock := in_timelock input |}.

Ltac input_tac := split; repeat split; vm_compute; repeat constructor; done.
Ltac inputs_tac :=
  split; [refine (bool_decide_unpack _ _); vm_compute; exact I|repeat (apply Forall_cons_2; [input_tac|]); apply Forall_nil_2].

Lemma calls_fine : Forall call_ok calls.
Proof. unfold calls. repeat (apply Forall_cons_2; [first [exact I|inputs_tac]|]). apply Forall_nil_2. Qed.

Lemma pool_run_ok_witness :
  ∃ p, pool_run (with_limits 3 100000 3 ∅) calls = Ok p ∧ mp_db p = image (mp_by_hash p).
Proof.
  destruct (pool_run_ok calls 3 100000 3) as (p & E & _ & _ & _ & Hd); [exact calls_fine|vm_compute; done|].
  exists p. exact (conj E Hd).
Defined.

Lemma pool_within_limits_witness :
  ∃ p p', pool_run (with_limits 3 100000 3 ∅) calls = Ok p ∧
    pool_call p (CallAdd 3 300 fetch last_inputs) = Ok p' ∧ within 3 100000 (cq_queue (mp_current p')).
Proof.
  destruct (pool_within_limits calls 3 300 fetch last_inputs 3 100000 3) as (p & p' & E & E' & _ & _ & Hw & _).
  - apply Forall_app. split; [exact calls_fine|]. apply Forall_cons_2; [inputs_tac|apply Forall_nil_2].
  - vm_compute. done.
  - assert (limits_after calls = Ok (3, 100000)) as Hl by (vm_compute; reflexivity). unfold limits_after in Hl.
    rewrite E in Hl. injection Hl as E1 E2. rewrite E1, E2 in Hw.
    exists p, p'. exact (conj E (conj E' Hw)).
Defined.

Lemma pool_restart_restores_witness :
  ∃ p p', pool_run (with_limits 3 100000 3 ∅) calls = Ok p ∧
    recover_from_db (with_limits 8 100000 3 (mp_db p)) node = Ok p' ∧ mp_by_hash p' = mp_by_hash p.
Proof.
  destruct (pool_restart_restores calls 3 100000 3 8 100000 3 node) as (p & p' & E & E' & Hh & _);
    [exact calls_fine|vm_compute; done|]. exists p, p'. exact (conj E (conj E' Hh)).
Defined.

Lemma top_transactions_exact_witness :
  ∃ p txs last, pool_run (with_limits 3 100000 3 ∅) calls = Ok p ∧
    top_transactions p 1000 (Some 100) (0, 500) = Ok (txs, last) ∧ (txs = [] ∨ sum_with tx_size txs < 1000).
Proof.
  destruct (top_transactions_exact calls 3 100000 3 1000 (Some 100) (0, 500)) as (p & txs & last & E & E' & Hs & _);
    [exact calls_fine|vm_compute; done|]. exists p, txs, last. exact (conj E (conj E' Hs)).
Defined.

Definition pool_row : Row := {[ 0 := {| ot_order := for_transaction (made_of (inp 0 0 200)) 0; ot_tag := Current |} ]}.
Lemma check_transactions_exact_witness :
  ∃ r, check_transactions (set_indices CurrentQueue_new FutureQueue_new {[ signer 0 := pool_row ]} ∅ (empty_pool 3))
         (signer 0) 0 1 100 = Ok r ∧ match pool_row !! r with Some _ => False | None => True end.
Proof.
  destruct (check_transactions_exact (set_indices CurrentQueue_new FutureQueue_new {[ signer 0 := pool_row ]} ∅ (empty_pool 3))
    (signer 0) pool_row 0 1 100) as (r & E & _ & Hs & Hr); [vm_compute; reflexivity|vm_compute; done|].
  exists r. split; [exact E|]. injection (eq_trans (eq_sym E) (eq_refl : _ = Ok 1)) as ->. exact I.
Defined.

(** * Runs that go wrong *)

(** A call that adds two transactions of one signer with one sequence number unwinds with the pool locked:
    the second replaces the first before that was put in a queue.  A peer chooses what it sends in one message. *)
Theorem pool_unwinds_on_same_seq : add 1 100 fetch (empty_pool 3) [inp 0 0 200; inp 0 0 300] = Panic.
Proof. vm_compute. reflexivity. Qed.

(** The current queue is meant to hold transactions without a gap behind the sequence number of their
    account, and does not.  Taking a future transaction out of the pool makes its number the next one, so that
    the numbers before it become current: here 2 is current although 0 and 1 are missing.  Dropping a current
    transaction because the pool is full leaves the next number as it was, so that 3 becomes current although 2
    is missing. *)
Theorem pool_current_has_gaps :
  (∃ p p', add_each (empty_pool 3) [inp 0 2 200; inp 0 5 300] = Ok ([Ok ImportFuture; Ok ImportFuture], p) ∧
    remove (λ _, Ok 0) 1 100 p [stx_hash (tx 0 5 300)] = Ok p' ∧ current_seqs p' 0 = [2]) ∧
  ∃ p p' p'', add_each (empty_pool 3) [inp 0 0 200; inp 0 1 200; inp 0 2 200; inp 1 0 300] =
      Ok (replicate 4 (Ok ImportCurrent), p) ∧
    remove (λ _, Ok 0) 1 100 p [stx_hash (tx 1 0 300)] = Ok p' ∧
    add_each p' [inp 0 3 300] = Ok ([Ok ImportCurrent], p'') ∧ current_seqs p'' 0 = [3; 1; 0].
Proof.
  split.
  - do 2 eexists. split; [vm_compute; reflexivity|]. split; vm_compute; reflexivity.
  - do 3 eexists. split; [vm_compute; reflexivity|]. split; [vm_compute; reflexivity|].
    split; vm_compute; reflexivity.
Qed.

(** A full pool keeps the transaction that pays less: fees per byte are compared in ascending order, so the
    dearer of two transactions is the last of the queue and is dropped. *)
Theorem pool_drops_dearer :
  ∃ p, add_each (empty_pool 1) [inp 0 0 200; inp 1 0 900] = Ok ([Ok ImportCurrent; Err LimitReached], p) ∧
    current_seqs p 0 = [0] ∧ current_seqs p 1 = [].
Proof. eexists. split; [vm_compute; reflexivity|]. split; vm_compute; reflexivity. Qed.
End PoolScenario.
