(* ===== verification/Reward.v ===== *)
(** What a block pays: the fees of stakeholders (core/src/consensus/stake/distribute.rs), and the rewards of
    the authors of a term, lowered by the signatures they did not give and raised for the signatures they
    collected (core/src/consensus/tendermint/engine.rs). *)
From stdpp Require Import base gmap list numbers.
From Stdlib Require Import NArith ZArith Lia.
From S2P Require Import Prelude Types Crypto Rlp RlpImpls BTree ShardState StakeData Stake Header.
From S2P Require Import BitSet TmMessage VoteCollector Validators TmWorker.

Local Open Scope N_scope.

(** The errors of closing a block: of the state, of the engine, of a decoder. *)
Inductive CloseError :=
| CloseState (e : StateError.t)
| CloseEngine (e : EngineError)
| CloseDecoder (e : RlpError.t).
Abbreviation closeR := (result CloseError).

(** * Fees *)

Record FeeDistributeIter := {
  fd_total_stakes : N;
  fd_total_min_fee : N;
  fd_remaining_fee : N;
  fd_stake_holdings : list (Address * N);
}.

Definition fee_distribute `{HashOrder} (total_min_fee : N) (stakes : gmap Address N) : FeeDistributeIter := {|
  fd_total_stakes := total_stakes stakes; fd_total_min_fee := total_min_fee; fd_remaining_fee := total_min_fee;
  fd_stake_holdings := walk (map_to_list stakes) |}.

(** [u64::try_from(n).unwrap()] *)
Definition unwrap_u64 {E : Type} (n : Z) : result E N :=
  if ((0 <=? n) && (n <? Z.of_N u64_size))%Z then Ok (Z.to_N n) else Panic.

(** A division by zero unwinds. *)
Definition share {E : Type} (total_stakes stake total_min_fee : N) : result E N :=
  _ ← assert (stake <=? total_stakes);
  _ ← assert (negb (total_stakes =? 0));
  unwrap_u64 (Z.of_N (total_min_fee * stake / total_stakes)).

Definition fd_next {E : Type} (self : FeeDistributeIter)
  : result E (option (Address * N) * FeeDistributeIter) :=
  match fd_stake_holdings self with
  | [] => Ok (None, self)
  | (stakeholder, stake) :: rest =>
      share ← share (fd_total_stakes self) stake (fd_total_min_fee self);
      remaining_fee ← expect (if share <=? fd_remaining_fee self then Some (fd_remaining_fee self - share) else None);
      Ok (Some (stakeholder, share),
          {| fd_total_stakes := fd_total_stakes self; fd_total_min_fee := fd_total_min_fee self;
             fd_remaining_fee := remaining_fee; fd_stake_holdings := rest |})
  end.

(** * Signatures *)

(** Arithmetic of [i128]. *)
Definition i128 (z : Z) : Z := ((z + 2 ^ 127) mod 2 ^ 128 - 2 ^ 127)%Z.

Definition final_rewards {E : Type} (intermediate_reward number_of_signatures number_of_blocks_in_term : N)
  : result E N :=
  '(a, b) ←
    if u64_mul number_of_blocks_in_term 2 <=? u64_mul number_of_signatures 3 then Ok (3, 7)%Z
    else if number_of_blocks_in_term <=? u64_mul number_of_signatures 2 then Ok (48, -23)%Z
    else if number_of_blocks_in_term <=? u64_mul number_of_signatures 3 then Ok (6, -2)%Z
    else
      _ ← assert (u64_mul 3 number_of_signatures <? number_of_blocks_in_term);
      Ok (0, 0)%Z;
  let numerator := i128 (Z.of_N intermediate_reward *
    i128 (i128 (a * Z.of_N number_of_signatures) + i128 (b * Z.of_N number_of_blocks_in_term))) in
  _ ← assert (0 <=? numerator)%Z;
  let denominator := (10 * Z.of_N number_of_blocks_in_term)%Z in
  _ ← assert (negb (denominator =? 0)%Z);
  unwrap_u64 (numerator ÷ denominator).

(** [num_rational::Ratio<usize>], as a numerator and a denominator: how two are compared. *)
Class RatioOrder := { ratio_cmp : N * N → N * N → comparison }.

Section Rewards.
Context `{Crypto, HashOrder, RatioOrder}.

(** [map.entry(ratio).or_default().push(address)] of the [BTreeMap]. *)
Fixpoint push_ratio (map : list (N * N * list Address)) (ratio : N * N) (address : Address)
  : list (N * N * list Address) :=
  match map with
  | [] => [(ratio, [address])]
  | (key, addresses) :: rest =>
      match ratio_cmp ratio key with
      | Lt => (ratio, [address]) :: map
      | Eq => (key, addresses ++ [address]) :: rest
      | Gt => (key, addresses) :: push_ratio rest ratio address
      end
  end.

(** [Ratio::new] unwinds at a denominator of zero. *)
Definition sorted_validators {E : Type} (missed_signatures : gmap Address (N * N))
  : result E (list (N * N * list Address)) :=
  fold_res (λ map '(address, (proposed, missed)),
    _ ← assert (negb (proposed =? 0));
    Ok (push_ratio map (missed, proposed) address)) [] (walk (map_to_list missed_signatures)).

(** One validator of a group. *)
Definition give_reward (reward : N) (acc : N * gmap Address N) (validator : Address) : N * gmap Address N :=
  let '(reduced_rewards, pending_rewards) := acc in
  (u64_sub reduced_rewards reward,
   <[validator := u64_add (default 0 (pending_rewards !! validator)) reward]> pending_rewards).

(** The loop over the groups, with the closure that adds to the pending rewards. *)
Fixpoint additional_rewards (reduced_rewards : N) (groups : list (list Address)) (pending_rewards : gmap Address N)
  : gmap Address N :=
  match groups with
  | [] => pending_rewards
  | validators :: groups =>
      let reward := reduced_rewards / (len validators + 1) in
      if reward =? 0 then pending_rewards
      else
        let '(reduced_rewards, pending_rewards) := foldl (give_reward reward) (reduced_rewards, pending_rewards) validators in
        additional_rewards reduced_rewards groups pending_rewards
  end.

Definition give_additional_rewards {E : Type} (reduced_rewards : N) (missed_signatures : gmap Address (N * N))
  (pending_rewards : gmap Address N) : result E (gmap Address N) :=
  sorted ← sorted_validators missed_signatures;
  Ok (additional_rewards reduced_rewards sorted.*2 pending_rewards).

(** One author with the reward it has collected. *)
Definition penalize {E : Type} (banned : aset) (signed_blocks : gmap Address N) (number_of_blocks_in_term : N)
  (acc : N * gmap Address N) (x : Address * N) : result E (N * gmap Address N) :=
  let '(reduced_rewards, pending_rewards) := acc in
  let '(address, intermediate_reward) := x in
  if is_banned banned address then Ok (u64_add reduced_rewards intermediate_reward, pending_rewards)
  else
    number_of_signatures ← expect (signed_blocks !! address);
    final_block_rewards ← final_rewards intermediate_reward number_of_signatures number_of_blocks_in_term;
    Ok (u64_add reduced_rewards (u64_sub intermediate_reward final_block_rewards),
        <[address := final_block_rewards]> pending_rewards).

(** ** The blocks of a term *)

(** What the engine asks of the client to close a block. *)
Record CloseClient := {
  cc_client : Client;
  cc_last_term_finished_block_num : BlockNumber → option BlockNumber;
}.
Context (client : CloseClient) (validators : DynamicValidator).

Definition header_of (hash : H256) : closeR bytes := expect (cl_block_header (cc_client client) (ByHash hash)).
Definition addresses_of (hash : H256) : closeR (list Address) :=
  map_err CloseEngine (dv_addresses (cc_client client) validators hash).

(** The validators of the parent of a block. *)
Definition validators_of_parent (header : bytes) : closeR (list Address) :=
  parent_hash ← hv_parent_hash header;
  grand_parent_header ← header_of parent_hash;
  hash ← hv_parent_hash grand_parent_header;
  addresses_of hash.

Record Tally := {
  ty_signed_blocks : gmap Address N;
  ty_missed_signatures : gmap Address (N * N);
}.

Definition count_signers (parent_validators : list Address) (header : bytes) (signed_blocks : gmap Address N)
  : closeR (gmap Address N) :=
  seal ← hv_seal header;
  bitset ← seal_bitset CloseDecoder seal;
  fold_res (λ signed index,
    signer ← expect (parent_validators !! N.to_nat index);
    Ok (<[signer := u64_add (default 0 (signed !! signer)) 1]> signed)) signed_blocks (true_index_iter bitset).

(** The loop over the headers from the first of this term back to the first of the previous one. *)
Fixpoint tally (fuel : nat) (start_of_the_previous_term : N) (header : bytes) (parent_validators : list Address)
  (t : Tally) : closeR Tally :=
  number ← hv_number header;
  if start_of_the_previous_term =? number then Ok t
  else
    match fuel with
    | O => Panic
    | S fuel =>
        signed_blocks ← count_signers parent_validators header (ty_signed_blocks t);
        parent_hash ← hv_parent_hash header;
        header ← header_of parent_hash;
        parent_validators ← validators_of_parent header;
        author ← hv_author header;
        seal ← hv_seal header;
        bitset ← seal_bitset CloseDecoder seal;
        let '(proposed, missed) := default (0, 0) (ty_missed_signatures t !! author) in
        let missed := u64_add missed (u64_sub (len parent_validators) (bs_count bitset)) in
        tally fuel start_of_the_previous_term header parent_validators
          {| ty_signed_blocks := signed_blocks;
             ty_missed_signatures := <[author := (u64_add proposed 1, missed)]> (ty_missed_signatures t) |}
    end.

Definition calculate_pending_rewards_of_the_previous_term (rewards : amap N) (start_of_the_current_term : N)
  (start_of_the_current_term_header : bytes) (start_of_the_previous_term : N) (banned : aset)
  : closeR (gmap Address N) :=
  let header := start_of_the_current_term_header in
  parent_validators ← validators_of_parent header;
  t ← tally (N.to_nat start_of_the_current_term) start_of_the_previous_term header parent_validators
        {| ty_signed_blocks := ∅; ty_missed_signatures := ∅ |};
  let number_of_blocks_in_term := u64_sub start_of_the_current_term start_of_the_previous_term in
  '(reduced_rewards, pending_rewards) ←
    fold_res (penalize banned (ty_signed_blocks t) number_of_blocks_in_term) (0, ∅) rewards;
  give_additional_rewards reduced_rewards (ty_missed_signatures t) pending_rewards.

(** The loop of [inactive_validators]. *)
Fixpoint active_authors (fuel : nat) (start_of_the_current_term : N) (header : bytes) (validators : gset Address)
  : closeR (gset Address) :=
  number ← hv_number header;
  if start_of_the_current_term <=? number then
    match fuel with
    | O => Panic
    | S fuel =>
        author ← hv_author header;
        parent_hash ← hv_parent_hash header;
        header ← header_of parent_hash;
        active_authors fuel start_of_the_current_term header (validators ∖ {[author]})
    end
  else Ok validators.

Definition inactive_validators (start_of_the_current_term : N) (current_block : Header) (validators : gset Address)
  : closeR (list Address) :=
  let validators := validators ∖ {[hd_author current_block]} in
  header ← header_of (hd_parent_hash current_block);
  validators ← active_authors (N.to_nat (hd_number current_block)) start_of_the_current_term header validators;
  Ok (walk (elements (validators : gset Address))).
End Rewards.
