(* ===== verification/RewardFacts.v ===== *)
(** What the rewards of a block add up to: the shares of the fees, the part of a reward that is left after the
    signatures an author did not give, the counts of signatures and proposals of a term, and the conservation
    of the rewards of a term. *)
From Stdlib Require Import NArith ZArith Lia.
From stdpp Require Import base gmap list numbers.
From S2P Require Import Prelude Types Crypto Rlp RlpImpls BTree ShardState StakeData Stake Header.
From S2P Require Import BitSet TmMessage VoteCollector Validators TmWorker StakeSpec Reward.

Local Open Scope N_scope.

Lemma unwrap_u64_small {E : Type} n : n < u64_size → unwrap_u64 (E := E) (Z.of_N n) = Ok n.
Proof.
  intros Hn. unfold unwrap_u64. rewrite N2Z.id.
  replace ((0 <=? Z.of_N n) && (Z.of_N n <? Z.of_N u64_size))%Z with true; [done|].
  symmetry. apply andb_true_iff. lia.
Qed.

Lemma i128_small z : (- 2 ^ 127 <= z < 2 ^ 127)%Z → i128 z = z.
Proof. intros Hz. unfold i128. rewrite Z.mod_small; lia. Qed.

(** The share of a signature count, in tenths of a block. *)
Definition tenths (sigs blocks : Z) : Z :=
  (if 2 * blocks <=? 3 * sigs then 3 * sigs + 7 * blocks
   else if blocks <=? 2 * sigs then 48 * sigs - 23 * blocks
   else if blocks <=? 3 * sigs then 6 * sigs - 2 * blocks
   else 0)%Z.

Lemma tenths_range s n : (0 <= s <= n → 0 <= tenths s n <= 10 * n)%Z.
Proof. intros Hs. unfold tenths. repeat case_match; lia. Qed.

Lemma tenths_mono s s' n : (0 <= s <= s' → 0 <= n → tenths s n <= tenths s' n)%Z.
Proof. intros Hs Hn. unfold tenths. repeat case_match; lia. Qed.

Lemma tenths_le r s n :
  s ≤ n → 0 < n → Z.to_N (Z.of_N r * tenths (Z.of_N s) (Z.of_N n) / (10 * Z.of_N n)) ≤ r.
Proof.
  intros Hs Hn. pose proof (tenths_range (Z.of_N s) (Z.of_N n) ltac:(lia)).
  enough (Z.of_N r * tenths (Z.of_N s) (Z.of_N n) / (10 * Z.of_N n) <= Z.of_N r)%Z by lia.
  apply Z.div_le_upper_bound; nia.
Qed.

Lemma final_rewards_exact {E : Type} r s n :
  r < u64_size → s ≤ n → 0 < n < 2 ^ 59 →
  final_rewards (E := E) r s n = Ok (Z.to_N (Z.of_N r * tenths (Z.of_N s) (Z.of_N n) / (10 * Z.of_N n))).
Proof.
  intros Hr Hs Hn. change u64_size with (2 ^ 64) in *.
  pose proof (tenths_range (Z.of_N s) (Z.of_N n) ltac:(lia)) as Ht.
  assert (Z.of_N r * tenths (Z.of_N s) (Z.of_N n) < 2 ^ 127)%Z as Hp by nia.
  assert (∀ a k, a ≤ n → k ≤ 3 → u64_mul a k = a * k ∧ u64_mul k a = k * a) as Hm.
  { intros a k Ha Hk. unfold u64_mul. change u64_size with (2 ^ 64). rewrite !N.mod_small by nia. done. }
  destruct (Hm s 3 Hs ltac:(lia)) as [Hm1 Hm2], (Hm s 2 Hs ltac:(lia)) as [Hm3 _], (Hm n 2 ltac:(lia) ltac:(lia)) as [Hm4 _].
  unfold final_rewards. rewrite Hm1, Hm2, Hm3, Hm4.
  set (coefficients := if n * 2 <=? s * 3 then _ else _).
  assert (∃ a b, coefficients = Ok (a, b) ∧ (0 <= a <= 48)%Z ∧ (-23 <= b <= 7)%Z ∧
    (a * Z.of_N s + b * Z.of_N n)%Z = tenths (Z.of_N s) (Z.of_N n)) as (a & b & -> & Ha & Hb & Hab).
  { subst coefficients. unfold tenths.
    destruct (N.leb_spec (n * 2) (s * 3)), (N.leb_spec n (s * 2)), (N.leb_spec n (s * 3)),
      (Z.leb_spec (2 * Z.of_N n) (3 * Z.of_N s)), (Z.leb_spec (Z.of_N n) (2 * Z.of_N s)),
      (Z.leb_spec (Z.of_N n) (3 * Z.of_N s)); try lia; try (eexists _, _; split_and!; [done|lia..]).
    destruct (N.ltb_spec (3 * s) n); [|lia]. eexists _, _. split_and!; [done|lia..]. }
  rewrite Ok_bind. rewrite (i128_small (a * Z.of_N s)), (i128_small (b * Z.of_N n)), Hab by nia.
  rewrite (i128_small (tenths _ _)), i128_small by nia. cbv zeta.
  destruct (Z.leb_spec 0 (Z.of_N r * tenths (Z.of_N s) (Z.of_N n))); [|nia].
  destruct (Z.eqb_spec (10 * Z.of_N n) 0); [lia|]. cbn [assert negb].
  rewrite !Ok_bind, Z.quot_div_nonneg by lia.
  rewrite <-(Z2N.id (_ / _)) at 1 by (apply Z.div_pos; lia). apply unwrap_u64_small.
  pose proof (tenths_le r s n). change u64_size with (2 ^ 64). lia.
Qed.

(** C17: The reward of an author that signed [s] of the [n] blocks of a term is never more than what it collected, and does
    not overflow: the whole for every block signed, nothing for less than a third of them, and never
    less for more signatures. *)
Theorem final_rewards_fair (r s n : N) :
  r < u64_size → s ≤ n → 0 < n < 2 ^ 59 →
  ∃ f, final_rewards (E := CloseError) r s n = Ok f ∧ f ≤ r ∧ (s = n → f = r) ∧ (3 * s < n → f = 0) ∧
    ∀ s' f', s' ≤ s → final_rewards (E := CloseError) r s' n = Ok f' → f' ≤ f.
Proof.
  intros Hr Hs Hn. rewrite final_rewards_exact by done. eexists. split_and!; [done|apply tenths_le; lia| | |].
  - intros ->. unfold tenths. destruct (Z.leb_spec (2 * Z.of_N n) (3 * Z.of_N n)); [|lia].
    replace (Z.of_N r * _)%Z with (Z.of_N r * (10 * Z.of_N n))%Z by lia. rewrite Z.div_mul by lia. lia.
  - intros Hlow. enough (tenths (Z.of_N s) (Z.of_N n) = 0%Z) as -> by by rewrite Z.mul_0_r.
    unfold tenths. repeat case_match; lia.
  - intros s' f' Hs'. rewrite final_rewards_exact by (done || lia). intros [= <-].
    pose proof (tenths_mono (Z.of_N s') (Z.of_N s) (Z.of_N n) ltac:(lia) ltac:(lia)).
    pose proof (tenths_range (Z.of_N s') (Z.of_N n) ltac:(lia)).
    apply Z2N.inj_le; [apply Z.div_pos; nia..|]. apply Z.div_le_mono; nia.
Qed.

(** Of 1000, with 55 of 100 signatures. *)
Lemma final_rewards_fair_witness : ∃ f, final_rewards (E := CloseError) 1000 55 100 = Ok f ∧ f ≤ 1000.
Proof.
  destruct (final_rewards_fair 1000 55 100) as (f & Hf & Hle & _); [reflexivity|lia|lia|].
  exists f. split; [exact Hf|exact Hle].
Defined.

(** * Sums over maps *)

Definition map_sum (m : gmap Address N) : N := sum_with snd (map_to_list m).

Lemma map_sum_empty : map_sum ∅ = 0.
Proof. unfold map_sum. by rewrite map_to_list_empty. Qed.

Lemma map_sum_insert m a n : map_sum (<[a := n]> m) + default 0 (m !! a) = map_sum m + n.
Proof.
  unfold map_sum. destruct (m !! a) as [x|] eqn:Ha; simpl.
  - rewrite <-(insert_delete_id m a x Ha) at 2. rewrite <-insert_delete_eq.
    rewrite !(sum_with_perm _ _ _ (map_to_list_insert (delete a m) _ _ (lookup_delete_eq m a))). simpl. lia.
  - rewrite (sum_with_perm _ _ _ (map_to_list_insert m _ _ Ha)). simpl. lia.
Qed.

Lemma map_sum_le m a : default 0 (m !! a) ≤ map_sum m.
Proof.
  destruct (m !! a) as [x|] eqn:Ha; simpl; [|lia]. apply elem_of_map_to_list in Ha.
  exact (sum_with_elem snd (a, x) _ Ha).
Qed.

(** * Fees *)

Lemma share_exact {E : Type} total stake fee :
  0 < stake ≤ total → fee < u64_size → share (E := E) total stake fee = Ok (fee * stake / total).
Proof.
  intros Hs Hf. unfold share. destruct (N.leb_spec stake total); [|lia]. destruct (N.eqb_spec total 0); [lia|].
  cbn [assert negb]. rewrite !Ok_bind. apply unwrap_u64_small.
  apply N.Div0.div_lt_upper_bound. nia.
Qed.

(** Rounding down, the shares do not exceed the fees. *)
Lemma shares_fit total fee (l : list (Address * N)) :
  0 < total → sum_with (λ x, fee * x.2 / total) l * total ≤ fee * sum_with snd l.
Proof.
  intros Ht. induction l as [|[a s] l IH]; [simpl; lia|]. rewrite !sum_with_cons. cbn [snd].
  pose proof (N.Div0.mul_div_le (fee * s) total). nia.
Qed.

(** * Additional rewards *)

Lemma give_reward_group reward vs reduced pending :
  len vs * reward ≤ reduced → reduced + map_sum pending < u64_size →
  ∃ pending', foldl (give_reward reward) (reduced, pending) vs = (reduced - len vs * reward, pending') ∧
    map_sum pending' = map_sum pending + len vs * reward.
Proof.
  revert reduced pending. induction vs as [|v vs IH]; intros reduced pending Hle Hfit; simpl.
  { exists pending. rewrite N.mul_0_l, N.sub_0_r. split; [done|lia]. }
  rewrite len_cons in *. pose proof (map_sum_le pending v) as Hv.
  pose proof (map_sum_insert pending v (default 0 (pending !! v) + reward)) as Hins.
  rewrite u64_sub_le, u64_add_small by lia.
  destruct (IH (reduced - reward) (<[v := default 0 (pending !! v) + reward]> pending)) as (pending' & -> & Hs); [lia..|].
  exists pending'. split; [f_equal; lia|]. lia.
Qed.

Lemma additional_rewards_sum groups reduced pending :
  reduced + map_sum pending < u64_size →
  ∃ left, map_sum (additional_rewards reduced groups pending) + left = map_sum pending + reduced.
Proof.
  revert reduced pending. induction groups as [|vs groups IH]; intros reduced pending Hfit; simpl; [by exists reduced|].
  case_match; [by exists reduced|]. pose proof (N.Div0.mul_div_le reduced (len vs + 1)) as Hle.
  destruct (give_reward_group (reduced / (len vs + 1)) vs reduced pending) as (pending' & -> & Hs); [nia|done|].
  assert (len vs * (reduced / (len vs + 1)) ≤ reduced) by nia.
  destruct (IH (reduced - len vs * (reduced / (len vs + 1))) pending') as [left Hl]; [lia|]. exists left. lia.
Qed.

(** Who gets something. *)
Lemma give_reward_dom reward vs reduced pending b :
  is_Some ((foldl (give_reward reward) (reduced, pending) vs).2 !! b) → is_Some (pending !! b) ∨ b ∈ vs.
Proof.
  revert reduced pending. induction vs as [|v vs IH]; intros reduced pending; simpl; [by left|].
  intros [Hb|Hb]%IH; [|right; by right]. destruct (decide (v = b)) as [->|Hne]; [right; left|].
  rewrite lookup_insert_ne in Hb by done. by left.
Qed.
Lemma additional_rewards_dom groups reduced pending b :
  is_Some (additional_rewards reduced groups pending !! b) → is_Some (pending !! b) ∨ b ∈ concat groups.
Proof.
  revert reduced pending. induction groups as [|vs groups IH]; intros reduced pending; simpl; [by left|].
  case_match; [by left|]. pose proof (give_reward_dom (reduced / (len vs + 1)) vs reduced pending b) as Hg.
  destruct (foldl _ _ _) as [reduced' pending']. intros [Hb|Hb]%IH.
  - destruct (Hg Hb); [by left|]. right. apply elem_of_app. by left.
  - right. apply elem_of_app. by right.
Qed.

Section Facts.
Context `{Crypto, HashOrder, !HashOrderLaws, RatioOrder}.

Lemma push_ratio_members map ratio a : concat (push_ratio map ratio a).*2 ≡ₚ a :: concat map.*2.
Proof.
  induction map as [|[key addresses] map IH]; [done|]. cbn [push_ratio]. destruct (ratio_cmp ratio key); cbn.
  - rewrite <-app_assoc. symmetry. apply Permutation_middle.
  - done.
  - by rewrite IH, <-Permutation_middle.
Qed.

Lemma sorted_validators_ok {E : Type} missed :
  map_Forall (λ _ x, 0 < x.1) missed →
  ∃ sorted, sorted_validators (E := E) missed = Ok sorted ∧ ∀ b, b ∈ concat sorted.*2 → is_Some (missed !! b).
Proof.
  intros Hm. unfold sorted_validators.
  assert (∀ l map, Forall (λ x : Address * (N * N), 0 < x.2.1) l → ∃ sorted,
    fold_res (E := E) (λ map '(address, (proposed, missed)),
      _ ← assert (negb (proposed =? 0)); Ok (push_ratio map (missed, proposed) address)) map l = Ok sorted ∧
    ∀ b, b ∈ concat sorted.*2 → b ∈ l.*1 ∨ b ∈ concat map.*2) as Hl.
  { induction l as [|[a [p m]] l IH]; intros map Hl; [by exists map; eauto|].
    apply list.Forall_cons in Hl as [Hp Hl]. cbn [fold_res]. simpl in Hp. destruct (N.eqb_spec p 0); [lia|].
    cbn [assert negb]. rewrite !Ok_bind. destruct (IH (push_ratio map (m, p) a) Hl) as (sorted & Hf & Hin).
    exists sorted. split; [exact Hf|]. intros b [Hb|Hb]%Hin; [left; by right|].
    rewrite push_ratio_members in Hb. apply elem_of_cons in Hb as [->|Hb]; [left; left|by right]. }
  destruct (Hl (walk (map_to_list missed)) []) as (sorted & Hf & Hin).
  - rewrite walk_perm. apply list.Forall_forall. intros [a x] Hx. apply elem_of_map_to_list in Hx. exact (Hm a x Hx).
  - exists sorted. split; [exact Hf|]. intros b [Hb|Hb]%Hin; [|by apply elem_of_nil in Hb].
    rewrite walk_perm in Hb. apply list_elem_of_fmap in Hb as ([k x] & -> & Hx). apply elem_of_map_to_list in Hx. by exists x.
Qed.

(** Who is to be paid signed, not more often than there are blocks. *)
Definition signed_enough (banned : aset) (signed : gmap Address N) (blocks : N) (a : Address) : Prop :=
  is_banned banned a = true ∨ ∃ s, signed !! a = Some s ∧ s ≤ blocks.

(** One author: what it loses is what is reduced. *)
Lemma penalize_one {E : Type} banned signed blocks reduced pending a r :
  0 < blocks < 2 ^ 59 → pending !! a = None → signed_enough banned signed blocks a →
  reduced + map_sum pending + r < u64_size →
  ∃ reduced' pending',
    penalize (E := E) banned signed blocks (reduced, pending) (a, r) = Ok (reduced', pending') ∧
    reduced' + map_sum pending' = reduced + map_sum pending + r ∧
    ∀ b, b ≠ a → pending' !! b = pending !! b.
Proof.
  intros Hb Hp Hs Hfit. unfold penalize. destruct (is_banned banned a) eqn:Hban.
  { rewrite u64_add_small by lia. eexists _, _. split_and!; [done|lia|done]. }
  destruct Hs as [?|(s & Hsig & Hle)]; [congruence|]. rewrite Hsig. cbn [expect]. rewrite Ok_bind.
  rewrite final_rewards_exact by (done || lia). rewrite Ok_bind.
  set (f := Z.to_N _). assert (f ≤ r) as Hf by (apply tenths_le; lia).
  rewrite u64_sub_le, u64_add_small by lia. pose proof (map_sum_insert pending a f) as Hins.
  rewrite Hp in Hins. simpl in Hins. eexists _, _. split_and!; [done|lia|].
  intros b Hne. by rewrite lookup_insert_ne.
Qed.

Lemma penalize_sum {E : Type} banned signed blocks rewards reduced pending :
  0 < blocks < 2 ^ 59 → NoDup rewards.*1 → (∀ a, a ∈ rewards.*1 → pending !! a = None) →
  Forall (signed_enough banned signed blocks) rewards.*1 →
  reduced + map_sum pending + amap_sum rewards < u64_size →
  ∃ reduced' pending',
    fold_res (penalize (E := E) banned signed blocks) (reduced, pending) rewards = Ok (reduced', pending') ∧
    reduced' + map_sum pending' = reduced + map_sum pending + amap_sum rewards ∧
    ∀ b, is_Some (pending' !! b) → is_Some (pending !! b) ∨ b ∈ rewards.*1.
Proof.
  intros Hb. unfold amap_sum. revert reduced pending.
  induction rewards as [|[a r] rewards IH]; intros reduced pending Hnd Hp Hs Hfit; cbn [fold_res].
  { eexists _, _. split_and!; [done| |by left]. rewrite sum_with_nil. lia. }
  rewrite fmap_cons in *. cbn [fst] in *. rewrite sum_with_cons in Hfit |- *. cbn [snd] in *.
  apply list.NoDup_cons in Hnd as [Ha Hnd]. apply list.Forall_cons in Hs as [Hsa Hs].
  destruct (penalize_one (E := E) banned signed blocks reduced pending a r) as (red & pend & -> & Heq & Hsame);
    [done|apply Hp; left|done|lia|].
  rewrite Ok_bind. destruct (IH red pend) as (red' & pend' & Hf & Heq' & Hdom); [done| |done|lia|].
  { intros b Hin. rewrite Hsame by (by intros ->). apply Hp. by right. }
  exists red', pend'. split_and!; [exact Hf|lia|]. intros b [Hin|Hin]%Hdom; [|right; by right].
  destruct (decide (b = a)) as [->|Hne]; [right; left|]. rewrite Hsame in Hin by done. by left.
Qed.

(** * The signatures of a term *)

Definition times (a : Address) (l : list Address) : N := len (filter (a =.) l).

Lemma times_app a l k : times a (l ++ k) = times a l + times a k.
Proof. unfold times. by rewrite list.filter_app, len_app. Qed.
Lemma times_one a b : times a [b] = if decide (a = b) then 1 else 0.
Proof. unfold times. rewrite filter_cons. by case_decide. Qed.
Lemma times_len a l : times a l ≤ len l.
Proof. unfold times, len. pose proof (length_filter (a =.) l). lia. Qed.
Lemma times_elem a l : times a l ≠ 0 → a ∈ l.
Proof.
  unfold times. destruct (filter (a =.) l) as [|y k] eqn:Hf; [done|]. intros _.
  assert (y ∈ filter (a =.) l) as [-> Hy]%list_elem_of_filter by (rewrite Hf; left). done.
Qed.
Lemma times_nodup a l : NoDup l → times a l ≤ 1.
Proof.
  unfold times. induction 1 as [|x l Hx Hl IH]; [done|]. rewrite filter_cons. case_decide as Ha; [|done].
  subst x. rewrite len_cons. destruct (filter (a =.) l) as [|y k] eqn:Hf; [done|].
  assert (y ∈ filter (a =.) l) as [<- Hy]%list_elem_of_filter by (rewrite Hf; left). done.
Qed.

(** The map counts how often each address occurs. *)
Definition counted (m : gmap Address N) (l : list Address) : Prop :=
  ∀ a, m !! a = if times a l =? 0 then None else Some (times a l).

Lemma counted_empty : counted ∅ [].
Proof. intros a. by rewrite lookup_empty. Qed.

Lemma counted_snoc m l a :
  counted m l → len l + 1 < u64_size → counted (<[a := u64_add (default 0 (m !! a)) 1]> m) (l ++ [a]).
Proof.
  intros Hm Hl b. pose proof (times_len a l). rewrite times_app. destruct (decide (a = b)) as [<-|Hne].
  - assert (default 0 (m !! a) = times a l) as -> by (rewrite Hm; destruct (N.eqb_spec (times a l) 0); simpl; lia).
    rewrite lookup_insert_eq, times_one, decide_True by done.
    rewrite u64_add_small by lia. destruct (N.eqb_spec (times a l + 1) 0); [lia|done].
  - by rewrite lookup_insert_ne, times_one, decide_False, N.add_0_r by done.
Qed.

(** Who has signed a block. *)
Definition signers_of (vs : list Address) (bits : BitSet) : list Address :=
  omap (λ i, vs !! N.to_nat i) (true_index_iter bits).

Lemma index_signers (vs : list Address) (is_ : list N) m l :
  Forall (λ i, i < len vs) is_ → counted m l → len l + len is_ < u64_size →
  ∃ m', fold_res (E := CloseError) (λ signed index,
          signer ← expect (vs !! N.to_nat index);
          Ok (<[signer := u64_add (default 0 (signed !! signer)) 1]> signed)) m is_ = Ok m' ∧
    counted m' (l ++ omap (λ i, vs !! N.to_nat i) is_).
Proof.
  revert m l. induction is_ as [|i is_ IH]; intros m l Hi Hm Hl; cbn [fold_res].
  { exists m. split; [done|]. cbn. by rewrite app_nil_r. }
  apply list.Forall_cons in Hi as [Hi His]. rewrite len_cons in Hl.
  destruct (lookup_lt_is_Some_2 vs (N.to_nat i)) as [a Ha]; [unfold len in Hi; lia|].
  cbn [omap list_omap]. rewrite Ha. cbn [expect]. rewrite !Ok_bind.
  destruct (IH _ (l ++ [a]) His (counted_snoc m l a Hm ltac:(lia))) as (m' & Hf & Hm'); [rewrite len_app, len_cons, len_nil; lia|].
  exists m'. split; [exact Hf|]. by rewrite <-app_assoc in Hm'.
Qed.

Lemma signers_nodup vs bits : NoDup vs → NoDup (signers_of vs bits).
Proof.
  intros Hv. unfold signers_of. rewrite true_index_iter_indices. pose proof (NoDup_indices bits) as Hi.
  induction Hi as [|i is_ Hi His IH]; [constructor|]. cbn. case_match eqn:E; [|done]. constructor; [|done].
  intros (j & Hj & E')%list_elem_of_omap. pose proof (NoDup_lookup _ _ _ _ Hv E E'). replace i with j in Hi by lia. done.
Qed.

(** * The blocks of a term *)

(** The proposals: an author, and how many signatures its block did not have. *)
Definition missed_of (l : list (Address * N)) (a : Address) : N :=
  sum_with snd (filter (λ x, a = x.1) l).
Definition proposals_counted (m : gmap Address (N * N)) (l : list (Address * N)) : Prop :=
  ∀ a, m !! a = if times a l.*1 =? 0 then None else Some (times a l.*1, missed_of l a mod u64_size).

Lemma proposals_snoc m l a x :
  proposals_counted m l → len l + 1 < u64_size →
  let '(proposed, missed) := default (0, 0) (m !! a) in
  proposals_counted (<[a := (u64_add proposed 1, u64_add missed x)]> m) (l ++ [(a, x)]).
Proof.
  intros Hm Hl. pose proof (times_len a l.*1) as Ht. unfold len in Ht. rewrite length_fmap in Ht. fold (len l) in Ht.
  assert (default (0, 0) (m !! a) = (times a l.*1, missed_of l a mod u64_size)) as ->.
  { rewrite Hm. destruct (N.eqb_spec (times a l.*1) 0) as [Hz|]; [|done]. rewrite Hz. f_equal.
    unfold missed_of. enough (filter (λ x, a = x.1) l = []) as -> by done.
    destruct (filter _ l) as [|y k] eqn:Hf; [done|].
    assert (y ∈ filter (λ x, a = x.1) l) as [-> Hy]%list_elem_of_filter by (rewrite Hf; left).
    unfold times in Hz. assert (y.1 ∈ filter (y.1 =.) l.*1) as Hin.
    { apply list_elem_of_filter. split; [done|]. by apply list_elem_of_fmap_2. }
    destruct (filter (y.1 =.) l.*1); [by apply elem_of_nil in Hin|]. rewrite len_cons in Hz. lia. }
  intros b. rewrite fmap_app, times_app. unfold missed_of. rewrite list.filter_app, sum_with_app.
  fold (missed_of l b). cbn [fmap list_fmap fst]. destruct (decide (a = b)) as [<-|Hne].
  - rewrite lookup_insert_eq, times_one, decide_True, filter_cons_True by done. rewrite filter_nil.
    rewrite sum_with_cons, sum_with_nil, u64_add_small by lia. cbn [snd].
    destruct (N.eqb_spec (times a l.*1 + 1) 0); [lia|].
    f_equal. f_equal. unfold u64_add. by rewrite N.Div0.add_mod_idemp_l, N.add_0_r.
  - rewrite lookup_insert_ne, times_one, decide_False, filter_cons_False by done. rewrite filter_nil.
    rewrite sum_with_nil, !N.add_0_r. apply Hm.
Qed.

Section Term.
Context (client : CloseClient) (validators : DynamicValidator).
Context (first : N) (block : N → bytes) (vals : N → list Address) (bits : N → BitSet) (author : N → Address).

(** The headers the client has of the blocks from [first] to [last]. *)
Record term_chain (last : N) : Prop := {
  tc_number k : first ≤ k ≤ last → hv_number (E := CloseError) (block k) = Ok k;
  tc_author k : first ≤ k < last → hv_author (E := CloseError) (block k) = Ok (author k);
  tc_seal k : first ≤ k ≤ last →
    ∃ seal, hv_seal (E := CloseError) (block k) = Ok seal ∧ seal_bitset CloseDecoder seal = Ok (bits k);
  tc_parent k : first < k ≤ last → ∃ hash,
    hv_parent_hash (E := CloseError) (block k) = Ok hash ∧ header_of client hash = Ok (block (k - 1));
  tc_validators k : first ≤ k ≤ last → validators_of_parent client validators (block k) = Ok (vals k);
  tc_signers k : first ≤ k ≤ last → Forall (λ i, i < len (vals k)) (true_index_iter (bits k));
  tc_distinct k : first ≤ k ≤ last → NoDup (vals k);
}.

(** Latest first: the signatures in the blocks after the first, and the proposals before the last. *)
Fixpoint signatures (n : nat) : list Address :=
  match n with
  | O => []
  | S n => let k := first + N.of_nat (S n) in signers_of (vals k) (bits k) ++ signatures n
  end.
Fixpoint proposals (n : nat) : list (Address * N) :=
  match n with
  | O => []
  | S n => let k := first + N.of_nat n in (author k, u64_sub (len (vals k)) (bs_count (bits k))) :: proposals n
  end.

Lemma indices_len bs : len (indices bs) ≤ MAX_VALIDATOR_SIZE.
Proof.
  unfold len, indices. pose proof (length_filter (λ i, bit bs i = true) (N.of_nat <$> seq 0 (N.to_nat MAX_VALIDATOR_SIZE))) as Hl.
  rewrite length_fmap, length_seq in Hl. lia.
Qed.
Lemma signers_len vs bs : len (signers_of vs bs) ≤ MAX_VALIDATOR_SIZE.
Proof.
  etrans; [|apply (indices_len bs)]. unfold signers_of. rewrite true_index_iter_indices. unfold len.
  generalize (indices bs) as l. induction l as [|x l IH]; cbn; [done|]. case_match; cbn; lia.
Qed.

Lemma signatures_bound last a n :
  term_chain last → first + N.of_nat n ≤ last → times a (signatures n) ≤ N.of_nat n.
Proof.
  intros Hc. induction n as [|n IH]; intros Hn; [done|]. cbn [signatures]. cbv zeta. rewrite times_app.
  set (k := first + N.of_nat (S n)) in *. assert (NoDup (vals k)) as Hd by (apply (tc_distinct last Hc); lia).
  pose proof (times_nodup a _ (signers_nodup (vals k) (bits k) Hd)). lia.
Qed.

Lemma proposals_len n : len (proposals n) = N.of_nat n.
Proof. induction n as [|n IH]; [done|]. cbn [proposals]. rewrite len_cons, IH. lia. Qed.

(** From [n] blocks after the first down to it. *)
Lemma tally_exact last n fuel t ss ps :
  term_chain last → first + N.of_nat n ≤ last → (n ≤ fuel)%nat →
  counted (ty_signed_blocks t) ss → proposals_counted (ty_missed_signatures t) ps →
  len ss + N.of_nat n * MAX_VALIDATOR_SIZE < u64_size → len ps + N.of_nat n < u64_size →
  ∃ t', tally client validators fuel first (block (first + N.of_nat n)) (vals (first + N.of_nat n)) t = Ok t' ∧
    counted (ty_signed_blocks t') (ss ++ signatures n) ∧
    proposals_counted (ty_missed_signatures t') (ps ++ proposals n).
Proof.
  intros Hc. revert fuel t ss ps. induction n as [|n IH]; intros fuel t ss ps Hn Hf Hs Hp Hls Hlp.
  { exists t. rewrite !app_nil_r. split_and!; [|done..]. destruct fuel; cbn [tally];
      rewrite (tc_number _ Hc), Ok_bind by lia; by rewrite N.add_0_r, N.eqb_refl. }
  destruct fuel as [|fuel]; [lia|]. cbn [tally]. set (k := first + N.of_nat (S n)) in *.
  assert (k - 1 = first + N.of_nat n) as Hk by lia.
  rewrite (tc_number _ Hc), Ok_bind by lia. destruct (N.eqb_spec first k) as [?|_]; [lia|].
  destruct (tc_seal _ Hc k) as (seal & Hseal & Hbits); [lia|]. unfold count_signers. rewrite Hseal, Ok_bind, Hbits, Ok_bind.
  pose proof (signers_len (vals k) (bits k)) as Hsl.
  destruct (index_signers (vals k) (true_index_iter (bits k)) (ty_signed_blocks t) ss) as (m' & -> & Hm').
  { apply (tc_signers _ Hc). lia. }
  { done. }
  { rewrite true_index_iter_indices. pose proof (indices_len (bits k)). nia. }
  rewrite Ok_bind. destruct (tc_parent _ Hc k) as (hash & -> & Hpar); [lia|]. rewrite Ok_bind, Hpar, Ok_bind, Hk.
  rewrite (tc_validators _ Hc), Ok_bind, (tc_author _ Hc), Ok_bind by lia.
  destruct (tc_seal _ Hc (first + N.of_nat n)) as (seal' & Hseal' & Hbits'); [lia|].
  rewrite Hseal', Ok_bind, Hbits', Ok_bind.
  pose proof (proposals_snoc _ ps (author (first + N.of_nat n))
    (u64_sub (len (vals (first + N.of_nat n))) (bs_count (bits (first + N.of_nat n)))) Hp ltac:(lia)) as Hp'.
  destruct (default (0, 0) _) as [proposed missed]. fold (signers_of (vals k) (bits k)) in Hm'.
  destruct (IH fuel {| ty_signed_blocks := m'; ty_missed_signatures := <[author (first + N.of_nat n) := (u64_add proposed 1,
      u64_add missed (u64_sub (len (vals (first + N.of_nat n))) (bs_count (bits (first + N.of_nat n)))))]> (ty_missed_signatures t) |}
    _ _ ltac:(lia) ltac:(lia) Hm' Hp') as (t' & Ht & Hs2 & Hp2); [rewrite len_app; nia|rewrite len_app, len_cons, len_nil; lia|].
  exists t'. split; [exact Ht|]. rewrite <-!app_assoc in Hs2, Hp2. done.
Qed.

(** The loop over the whole term, from the first header of the next one. *)
Lemma tally_term last :
  term_chain last → first < last → last - first < 2 ^ 50 →
  ∃ t, tally client validators (N.to_nat last) first (block last) (vals last)
         {| ty_signed_blocks := ∅; ty_missed_signatures := ∅ |} = Ok t ∧
    counted (ty_signed_blocks t) (signatures (N.to_nat (last - first))) ∧
    proposals_counted (ty_missed_signatures t) (proposals (N.to_nat (last - first))).
Proof.
  intros Hc Hlt Hb.
  destruct (tally_exact last (N.to_nat (last - first)) (N.to_nat last)
    {| ty_signed_blocks := ∅; ty_missed_signatures := ∅ |} [] []) as (t & Ht & Hs & Hp);
    [done|lia|lia|apply counted_empty|by intros a; simpl; rewrite lookup_empty|..].
  - change u64_size with (2 ^ 64). rewrite len_nil. unfold MAX_VALIDATOR_SIZE. lia.
  - change u64_size with (2 ^ 64). rewrite len_nil. lia.
  - replace (first + N.of_nat (N.to_nat (last - first))) with last in Ht by lia. by exists t.
Qed.

(** The authors of the previous term, each with a signature, or banned. *)
Definition all_signed (rewards : amap N) (banned : aset) (last : N) : Prop :=
  Forall (λ a, is_banned banned a = true ∨ times a (signatures (N.to_nat (last - first))) ≠ 0) rewards.*1.

Lemma pending_rewards_ok rewards banned last :
  term_chain last → first < last → last - first < 2 ^ 50 → last < u64_size →
  NoDup rewards.*1 → amap_sum rewards < u64_size → all_signed rewards banned last →
  ∃ pending left,
    calculate_pending_rewards_of_the_previous_term client validators rewards last (block last) first banned = Ok pending ∧
    map_sum pending + left = amap_sum rewards ∧
    ∀ a, is_Some (pending !! a) → a ∈ rewards.*1 ∨ a ∈ (proposals (N.to_nat (last - first))).*1.
Proof.
  intros Hc Hlt Hb Hlast Hnd Hr Hall. destruct (tally_term last Hc Hlt Hb) as (t & Ht & Hs & Hp).
  unfold calculate_pending_rewards_of_the_previous_term. rewrite (tc_validators _ Hc), Ok_bind, Ht, Ok_bind by lia.
  rewrite u64_sub_le by lia. destruct (penalize_sum (E := CloseError) banned (ty_signed_blocks t) (last - first) rewards 0 ∅)
    as (reduced & pending & -> & Heq & Hdom); [lia|done|done| |rewrite map_sum_empty; lia|].
  { eapply list.Forall_impl; [exact Hall|]. intros a [Ha|Ha]; [by left|]. right.
    pose proof (signatures_bound last a (N.to_nat (last - first)) Hc ltac:(lia)).
    eexists. rewrite (Hs a). destruct (N.eqb_spec (times a (signatures (N.to_nat (last - first)))) 0); [done|].
    split; [done|lia]. }
  rewrite Ok_bind. unfold give_additional_rewards.
  destruct (sorted_validators_ok (E := CloseError) (ty_missed_signatures t)) as (sorted & -> & Hsorted).
  { intros a x Hx. rewrite Hp in Hx. destruct (N.eqb_spec (times a (proposals (N.to_nat (last - first))).*1) 0); [done|].
    injection Hx as <-. simpl. lia. }
  rewrite Ok_bind. rewrite map_sum_empty in Heq.
  destruct (additional_rewards_sum sorted.*2 reduced pending) as [left Hl]; [lia|].
  eexists _, left. split_and!; [done|lia|]. intros a [Ha|Ha]%additional_rewards_dom.
  - destruct (Hdom a Ha) as [[x Hx]|?]; [by rewrite lookup_empty in Hx|by left].
  - right. apply Hsorted in Ha as [x Hx]. rewrite Hp in Hx. apply times_elem.
    intros Hz. by rewrite Hz in Hx.
Qed.

(** What only unwinds. *)
Lemma bind_no_err {E A B : Type} (m : result E A) (f : A → result E B) :
  (∀ e, m ≠ Err e) → (∀ a e, f a ≠ Err e) → ∀ e, m ≫= f ≠ Err e.
Proof. intros Hm Hf e. destruct m as [a|e'|]; [apply Hf|by destruct (Hm e')|done]. Qed.
Lemma assert_no_err {E : Type} b (e : E) : assert b ≠ Err e.
Proof. by destruct b. Qed.

Lemma penalize_no_err {E : Type} banned signed blocks acc x (e : E) : penalize banned signed blocks acc x ≠ Err e.
Proof.
  destruct acc as [reduced pending], x as [a r]. unfold penalize. case_match; [done|]. revert e.
  apply bind_no_err; [by destruct (signed !! a)|]. intros s. apply bind_no_err; [|done].
  unfold final_rewards. apply bind_no_err.
  { intros e. repeat (case_match; [done|]). revert e. apply bind_no_err; [apply assert_no_err|done]. }
  intros [a' b]. cbv zeta. repeat (apply bind_no_err; [apply assert_no_err|intros _]).
  intros e. unfold unwrap_u64. by case_match.
Qed.

Lemma penalize_unsigned {E : Type} banned signed blocks rewards acc a r :
  (a, r) ∈ rewards → is_banned banned a = false → signed !! a = None →
  fold_res (penalize (E := E) banned signed blocks) acc rewards = Panic.
Proof.
  intros Hin Hban Hsig. revert acc. induction rewards as [|x rewards IH]; intros acc; [by apply elem_of_nil in Hin|].
  cbn [fold_res]. apply elem_of_cons in Hin as [<-|Hin].
  - assert (penalize (E := E) banned signed blocks acc (a, r) = Panic) as ->; [|done].
    destruct acc. unfold penalize. by rewrite Hban, Hsig.
  - destruct (penalize banned signed blocks acc x) as [acc'|e|] eqn:Hx; [by apply IH| |done].
    by apply penalize_no_err in Hx.
Qed.

Lemma pending_rewards_panics rewards banned last a r :
  term_chain last → first < last → last - first < 2 ^ 50 →
  (a, r) ∈ rewards → is_banned banned a = false → a ∉ signatures (N.to_nat (last - first)) →
  calculate_pending_rewards_of_the_previous_term client validators rewards last (block last) first banned = Panic.
Proof.
  intros Hc Hlt Hb Hin Hban Ha. destruct (tally_term last Hc Hlt Hb) as (t & Ht & Hs & Hp).
  unfold calculate_pending_rewards_of_the_previous_term. rewrite (tc_validators _ Hc), Ok_bind, Ht, Ok_bind by lia.
  rewrite (penalize_unsigned _ _ _ _ _ a r); [done..|]. rewrite (Hs a).
  enough (times a (signatures (N.to_nat (last - first))) = 0) as -> by done.
  unfold times. destruct (filter _ _) as [|y k] eqn:Hf; [done|].
  assert (y ∈ filter (a =.) (signatures (N.to_nat (last - first)))) as [<- Hy]%list_elem_of_filter by (rewrite Hf; left).
  done.
Qed.
End Term.

(** * Who authored a block of the term *)

Section Authors.
Context (client : CloseClient) (start : N) (block : N → bytes) (author : N → Address).

(** The headers of the term up to the parent of the block [current]. *)
Record current_chain (current : Header) : Prop := {
  cu_start : 0 < start ≤ hd_number current;
  cu_parent : header_of client (hd_parent_hash current) = Ok (block (hd_number current - 1));
  cu_number k : start ≤ k + 1 → k < hd_number current → hv_number (E := CloseError) (block k) = Ok k;
  cu_author k : start ≤ k < hd_number current → hv_author (E := CloseError) (block k) = Ok (author k);
  cu_header k : start ≤ k < hd_number current →
    ∃ hash, hv_parent_hash (E := CloseError) (block k) = Ok hash ∧ header_of client hash = Ok (block (k - 1));
}.

(** The validator authored a block of the term, the current one included. *)
Definition authored (current : Header) (a : Address) : Prop :=
  a = hd_author current ∨ ∃ k, start ≤ k < hd_number current ∧ a = author k.

Lemma active_authors_exact current n fuel vs :
  current_chain current → start + N.of_nat n ≤ hd_number current → (n ≤ fuel)%nat →
  ∃ vs', active_authors client fuel start (block (start + N.of_nat n - 1)) vs = Ok vs' ∧
    ∀ a, a ∈ vs' ↔ a ∈ vs ∧ ∀ k, start ≤ k < start + N.of_nat n → a ≠ author k.
Proof.
  intros Hc. pose proof (cu_start _ Hc) as Hst. revert fuel vs. induction n as [|n IH]; intros fuel vs Hn Hf.
  { exists vs. split; [|intros a; split; [|tauto]; intros; split; [done|lia]].
    destruct fuel; cbn [active_authors]; rewrite (cu_number _ Hc), Ok_bind by lia;
      (destruct (N.leb_spec start (start + N.of_nat 0 - 1)); [lia|done]). }
  destruct fuel as [|fuel]; [lia|]. cbn [active_authors]. set (k := start + N.of_nat (S n) - 1).
  assert (k = start + N.of_nat n) as Hk by lia. rewrite (cu_number _ Hc), Ok_bind by lia.
  destruct (N.leb_spec start k); [|lia]. rewrite (cu_author _ Hc), Ok_bind by lia.
  destruct (cu_header _ Hc k) as (hash & -> & Hh); [lia|]. rewrite Ok_bind, Hh, Ok_bind.
  replace (k - 1) with (start + N.of_nat n - 1) by lia.
  destruct (IH fuel (vs ∖ {[author k]})) as (vs' & Hact & Hvs); [lia..|].
  exists vs'. split; [exact Hact|]. intros a. rewrite Hvs, elem_of_difference, not_elem_of_singleton. split.
  - intros [[Ha Hne] Hall]. split; [done|]. intros j Hj. destruct (decide (j = k)) as [->|]; [done|]. apply Hall. lia.
  - intros [Ha Hall]. split; [split; [done|]|]; [apply Hall; lia|intros; apply Hall; lia].
Qed.

Lemma inactive_exact current vs :
  current_chain current →
  ∃ inactive, inactive_validators client start current vs = Ok inactive ∧ NoDup inactive ∧
    ∀ a, a ∈ inactive ↔ a ∈ vs ∧ ¬ authored current a.
Proof.
  intros Hc. pose proof (cu_start _ Hc) as Hst. unfold inactive_validators. rewrite (cu_parent _ Hc), Ok_bind.
  destruct (active_authors_exact current (N.to_nat (hd_number current - start)) (N.to_nat (hd_number current))
    (vs ∖ {[hd_author current]}) Hc ltac:(lia) ltac:(lia)) as (vs' & Hact & Hvs).
  replace (start + N.of_nat (N.to_nat (hd_number current - start))) with (hd_number current) in Hact, Hvs by lia.
  rewrite Hact, Ok_bind. eexists. split_and!; [done|rewrite walk_perm; apply NoDup_elements|].
  intros a. rewrite walk_perm, elem_of_elements, Hvs, elem_of_difference, not_elem_of_singleton. unfold authored. split.
  - intros [[Ha Hne] Hall]. split; [done|]. intros [->|(k & Hk & ->)]; [done|]. by apply (Hall k).
  - intros [Ha Hno]. split; [split; [done|]|]; [intros ->|intros k Hk ->]; apply Hno; [by left|right; eauto].
Qed.
End Authors.
End Facts.
