(* ===== verification/CloseBlock.v ===== *)
(** How the Tendermint engine closes a block ([on_close_block] of core/src/consensus/tendermint/engine.rs, [min_cost]
    of core/src/codechain_machine.rs): it pays the fees and the reward of the block, and at the end of a term the
    rewards of the previous one; what it pays is what was collected. *)
From Stdlib Require Import NArith ZArith Lia.
From stdpp Require Import base gmap list numbers.
From S2P Require Import Prelude Types Crypto Rlp RlpImpls TxHash Params StateCache StateItems ShardState TrieNode.
From S2P Require Import BTree StakeData Stake Header BitSet TmMessage VoteCollector Validators TmWorker Reward.
From S2P Require Import StakeLedger StakeSpec StakeTerm StakeClose StakeRun RewardFacts.

Local Open Scope N_scope.

(** [CodeChainMachine::min_cost] *)
Definition min_cost (params : CommonParams) (action : Action.t) : N :=
  match action with
  | Action.MintAsset _ _ _ _ _ _ _ _ => cp_min_asset_mint_cost params
  | Action.TransferAsset _ _ _ _ _ _ _ _ => cp_min_asset_transfer_cost params
  | Action.ChangeAssetScheme _ _ _ _ _ _ _ _ _ => cp_min_asset_scheme_change_cost params
  | Action.IncreaseAssetSupply _ _ _ _ _ _ => cp_min_asset_supply_increase_cost params
  | Action.ComposeAsset _ _ _ _ _ _ _ _ _ => cp_min_asset_compose_cost params
  | Action.DecomposeAsset _ _ _ _ => cp_min_asset_decompose_cost params
  | Action.UnwrapCCC _ _ _ => cp_min_asset_unwrap_ccc_cost params
  | Action.Pay _ _ => cp_min_pay_transaction_cost params
  | Action.SetRegularKey _ => cp_min_set_regular_key_transaction_cost params
  | Action.CreateShard _ => cp_min_create_shard_transaction_cost params
  | Action.SetShardOwners _ _ => cp_min_set_shard_owners_transaction_cost params
  | Action.SetShardUsers _ _ => cp_min_set_shard_users_transaction_cost params
  | Action.WrapCCC _ _ _ _ _ => cp_min_wrap_ccc_transaction_cost params
  | Action.Custom _ _ => cp_min_custom_transaction_cost params
  | Action.Store _ _ _ => cp_min_store_transaction_cost params
  | Action.Remove _ _ => cp_min_remove_transaction_cost params
  end.

(** The header and the transactions of an [ExecutedBlock]; its state is threaded. *)
Record ExecutedBlock := {
  eb_header : Header;
  eb_transactions : list Transaction;
}.

Definition block_number_if_term_changed (header parent_header : Header) (common_params : CommonParams)
  : option BlockNumber :=
  let term_seconds := cp_term_seconds common_params in
  if term_seconds =? 0 then None
  else
    let current_term_period := hd_timestamp header / term_seconds in
    let parent_term_period := hd_timestamp parent_header / term_seconds in
    if current_term_period =? parent_term_period then None else Some (hd_number header).

(** What the engine holds: the client is a weak reference that may be gone. *)
Record TendermintEngine := {
  te_block_reward : N;
  te_validators : DynamicValidator;
  te_client : option CloseClient;
}.

Section Close.
Context `{Crypto, HashOrder, RatioOrder} {St : Type} `{StakeState St}.
Abbreviation closeM := (stM St CloseError).

Definition from_state {A : Type} (m : stM St StateError.t A) : closeM A := λ s,
  let (r, s') := m s in (map_err CloseState r, s').

Definition sum_fees (transactions : list Transaction) : N := foldl u64_add 0 (tx_fee <$> transactions).
Definition sum_min_costs (params : CommonParams) (transactions : list Transaction) : N :=
  foldl u64_add 0 ((λ tx, min_cost params (tx_action tx)) <$> transactions).

(** The loop over the shares of the stakeholders: it ends when they do. *)
Fixpoint distribute (fuel : nat) (distributor : FeeDistributeIter) : closeM FeeDistributeIter :=
  '(next, distributor) ← lift_st (fd_next distributor);
  match next with
  | None => mret distributor
  | Some (address, share) =>
      match fuel with
      | O => lift_st Panic
      | S fuel =>
          _ ← from_state (ss_add_balance address share);
          distribute fuel distributor
      end
  end.

(** What the author gets: the rewards and fees that are not the stakeholders'. *)
Definition pay_stakeholders (block_reward : N) (transactions : list Transaction) (parent_common_params : CommonParams)
  : closeM N :=
  let total_reward := u64_add block_reward (sum_fees transactions) in
  let total_min_fee := sum_min_costs parent_common_params transactions in
  _ ← lift_st (assert (total_min_fee <=? total_reward));
  stakes ← (λ s, let (r, s') := get_stakes s in (unwrap r, s'));
  distributor ← distribute (size stakes) (fee_distribute total_min_fee stakes);
  mret (u64_add (u64_sub total_reward total_min_fee) (fd_remaining_fee distributor)).

(** The addresses of the validators of the term, as a set. *)
Definition load_validators : closeM (gset Address) :=
  validators ← from_state Validators_load;
  mret (list_to_set ((λ val, public_to_address (va_pubkey val)) <$> validators)).

(** The rewards of the previous term, and who of this term authored nothing. *)
Definition pay_previous_term (self : TendermintEngine) (client : CloseClient) (header : Header) (metadata : Metadata)
  (rewards : amap N) : closeM (list Address) :=
  let start_of_the_current_term := u64_add (md_last_term_finished_block_num metadata) 1 in
  if md_current_term_id metadata =? 1 then
    _ ← lift_st (assert (is_empty rewards));
    validators ← load_validators;
    lift_st (inactive_validators client start_of_the_current_term header validators)
  else
    end_of_the_two_level_previous_term ← lift_st (expect
      (cc_last_term_finished_block_num client (u64_sub (md_last_term_finished_block_num metadata) 1)));
    let start_of_the_previous_term := u64_add end_of_the_two_level_previous_term 1 in
    banned ← from_state Banned_load;
    start_of_the_current_term_header ← lift_st
      (if hd_number header =? start_of_the_current_term then Ok (Header_rlp header With)
       else expect (cl_block_header (cc_client client) (ByNumber start_of_the_current_term)));
    pending_rewards ← lift_st (calculate_pending_rewards_of_the_previous_term client (te_validators self) rewards
      start_of_the_current_term start_of_the_current_term_header start_of_the_previous_term banned);
    _ ← for_each (λ '(address, reward), from_state (ss_add_balance address reward))
          (walk (map_to_list pending_rewards));
    validators ← load_validators;
    lift_st (inactive_validators client start_of_the_current_term header validators).

Definition on_close_block (self : TendermintEngine) (block : ExecutedBlock) (parent_header : Header)
  (parent_common_params : CommonParams) (term_common_params : option CommonParams) : closeM () :=
  let header := eb_header block in
  let author := hd_author header in
  block_author_reward ← pay_stakeholders (te_block_reward self) (eb_transactions block) parent_common_params;
  metadata ← from_state ss_metadata;
  metadata ← lift_st (expect metadata);
  if md_current_term_id metadata =? 0 then
    _ ← from_state (ss_add_balance author block_author_reward);
    match block_number_if_term_changed header parent_header parent_common_params with
    | Some block_number => from_state (on_term_close block_number [])
    | None => mret tt
    end
  else
    _ ← from_state (update_validator_weights author);
    _ ← from_state (add_intermediate_rewards author block_author_reward);
    term_common_params ← lift_st (expect term_common_params);
    match block_number_if_term_changed header parent_header term_common_params with
    | None => mret tt
    | Some last_term_finished_block_num =>
        rewards ← from_state drain_previous_rewards;
        client ← lift_st (ok_or (te_client self) (CloseEngine CannotOpenBlock));
        inactive_validators ← pay_previous_term self client header metadata rewards;
        _ ← from_state move_current_to_previous_intermediate_rewards;
        from_state (on_term_close last_term_finished_block_num inactive_validators)
    end.
End Close.
