(* ===== verification/CloseProps.v ===== *)
(** What closing a block does to the books: coins and rewards together grow by the reward and the fees of the
    block, less what is left over when the rewards of a term are paid. *)
From Stdlib Require Import NArith ZArith Lia.
From stdpp Require Import base gmap list numbers.
From S2P Require Import Prelude Types Crypto Rlp RlpImpls TxHash Params StateCache StateItems ShardState TrieNode.
From S2P Require Import BTree StakeData Stake Header BitSet TmMessage VoteCollector Validators TmWorker Reward.
From S2P Require Import StakeLedger StakeSpec StakeTerm StakeClose StakeRun RewardFacts CloseBlock.

Local Open Scope N_scope.

Section Closing.
Context `{CryptoLaws, HashOrder, !HashOrderLaws, RatioOrder} {St : Type} `{StakeState St} `{!StakeStateLaws St}.
Context `{Accounts} `{Hplay : !InPlay}.

Lemma does_from_state {A} (m : stM St StateError.t A) L r L' :
  does m L r L' → does (from_state m) L (map_err CloseState r) L'.
Proof.
  intros Hm s Hs. destruct (Hm s Hs) as [Hr Hs']. unfold from_state. destruct (m s) as [r' s']. simpl in *.
  by subst r'.
Qed.
Lemma does_from_ok {A} (m : stM St StateError.t A) L x L' : does m L (Ok x) L' → does (from_state m) L (Ok x) L'.
Proof. exact (does_from_state m L (Ok x) L'). Qed.

(** * Payments *)

(** Only coins change, by [n] in all. *)
Definition paid (L L' : ledger) (n : N) : Prop :=
  inv L' ∧ total_coin L' = total_coin L + n ∧ ∃ f, L' = set_coins L f.

Lemma paid_refl L : inv L → paid L L 0.
Proof. intros HL. split_and!; [done|lia|]. exists (lg_coin L). by destruct L. Qed.
Lemma paid_trans L L1 L2 n m : paid L L1 n → paid L1 L2 m → paid L L2 (n + m).
Proof. intros (H1' & Hc1 & f & ->) (H2' & Hc2 & g & ->). split_and!; [done|rewrite Hc2, Hc1; lia|by exists g]. Qed.

Lemma does_pay L a n :
  inv L → a ∈ accounts → total_coin L + n < u64_size →
  ∃ L', does (from_state (ss_add_balance a n)) L (Ok tt) L' ∧ paid L L' n.
Proof.
  intros HL Ha Hn. pose proof (coin_le L a Ha) as Hle. pose proof (total_coin_set L a (lg_coin L a + n) Ha) as Hset.
  unfold total_coin in Hn. exists (set_coin L a (lg_coin L a + n)). split.
  { apply does_from_ok, does_add_coin. lia. }
  assert (total_coin (set_coin L a (lg_coin L a + n)) = total_coin L + n) as Ht by (unfold total_coin; simpl; lia).
  split_and!; [|done|by eexists]. destruct HL as [[Hwf Hs Hc Hh Hca Hj Hd] Hpu Hv].
  split; [split| |]; try done; [apply wf_set_coin; [done|lia]|]. rewrite Ht. unfold total_coin. lia.
Qed.


(** * Fees *)

(** The holders get their shares, the rest remains. *)
Lemma does_distribute (l : list (Address * N)) d fuel L :
  inv L → fd_stake_holdings d = l → (length l ≤ fuel)%nat →
  Forall (λ x, x.1 ∈ accounts ∧ 0 < x.2 ≤ fd_total_stakes d) l → fd_total_min_fee d < u64_size →
  sum_with (λ x, fd_total_min_fee d * x.2 / fd_total_stakes d) l ≤ fd_remaining_fee d →
  total_coin L + fd_remaining_fee d < u64_size →
  ∃ d' L', does (distribute fuel d) L (Ok d') L' ∧ fd_remaining_fee d' ≤ fd_remaining_fee d ∧
    paid L L' (fd_remaining_fee d - fd_remaining_fee d').
Proof.
  revert d fuel L. induction l as [|[a s] l IH]; intros d fuel L HL Hd Hfuel Hl Hfee Hsum Hfit.
  { exists d, L. rewrite N.sub_diag. split_and!; [|done|by apply paid_refl].
    destruct fuel; cbn [distribute]; unfold fd_next; rewrite Hd; (eapply does_bind; [apply does_lift|apply does_ret]). }
  apply list.Forall_cons in Hl as [[Ha Hs] Hl]. rewrite sum_with_cons in Hsum. simpl in Hfuel, Ha, Hs, Hsum.
  destruct fuel as [|fuel]; [lia|]. cbn [distribute]. set (share := fd_total_min_fee d * s / fd_total_stakes d) in *.
  set (d1 := {| fd_total_stakes := fd_total_stakes d; fd_total_min_fee := fd_total_min_fee d;
                fd_remaining_fee := fd_remaining_fee d - share; fd_stake_holdings := l |}).
  assert (fd_next (E := CloseError) d = Ok (Some (a, share), d1)) as ->.
  { unfold fd_next. rewrite Hd, share_exact by done. fold share. rewrite Ok_bind.
    destruct (N.leb_spec share (fd_remaining_fee d)); [done|lia]. }
  destruct (does_pay L a share) as (L1 & Hdo1 & Hp1); [done..|lia|]. pose proof Hp1 as (HL1 & Hc1 & _).
  destruct (IH d1 fuel L1) as (d' & L' & Hdo & Hle & Hp); [done|done|lia|done|done|simpl; lia|simpl; lia|].
  simpl in Hle, Hp. exists d', L'. split_and!; [|lia|].
  - eapply does_bind; [apply does_lift|]. eapply does_bind; [exact Hdo1|exact Hdo].
  - replace (fd_remaining_fee d - fd_remaining_fee d') with (share + (fd_remaining_fee d - share - fd_remaining_fee d')) by lia.
    by eapply paid_trans.
Qed.

Definition fees (txs : list Transaction) : N := sum_with tx_fee txs.
(** Each transaction paid at least what it costs. *)
Definition fees_cover (params : CommonParams) (txs : list Transaction) : Prop :=
  Forall (λ tx, min_cost params (tx_action tx) ≤ tx_fee tx) txs.

Lemma sum_fees_exact txs : fees txs < u64_size → sum_fees txs = fees txs.
Proof.
  intros Hf. unfold sum_fees, fees in *. rewrite foldl_u64_add; rewrite sum_with_fmap; [done|exact Hf].
Qed.

Lemma sum_min_costs_le params txs :
  fees_cover params txs → fees txs < u64_size → sum_min_costs params txs ≤ fees txs.
Proof.
  intros Hc Hf. unfold sum_min_costs. assert (sum_with (λ tx, min_cost params (tx_action tx)) txs ≤ fees txs) as Hle.
  { apply sum_with_le. intros tx Htx. exact (proj1 (list.Forall_forall _ _) Hc tx Htx). }
  assert (sum_with id ((λ tx, min_cost params (tx_action tx)) <$> txs) ≤ fees txs) by by rewrite sum_with_fmap.
  rewrite foldl_u64_add; lia.
Qed.

(** The stakes of the ledger, as the distributor walks them. *)
Lemma stakes_of_ledger L D :
  inv L → (∀ a, D !! a = if decide (a ∈ (lg_holders L).*1) then Some (stake_of L a) else None) →
  Forall (λ x, x.1 ∈ accounts ∧ 0 < x.2 ≤ total_stake L) (walk (map_to_list D)) ∧
  sum_with snd (walk (map_to_list D)) = total_stake L.
Proof.
  intros HL HD. split.
  - rewrite walk_perm. apply list.Forall_forall. intros [a n] Hin. apply elem_of_map_to_list in Hin.
    rewrite HD in Hin. case_decide as Ha; [|done]. injection Hin as <-. simpl.
    assert (a ∈ accounts) as Hacc.
    { apply list_elem_of_fmap in Ha as ([k x] & -> & Hin). by apply (wf_holders L (inv_wf L HL)) in Hin as [? _]. }
    split; [done|]. split; [by apply (inv_holders L HL)|by apply stake_le].
  - rewrite (sum_with_perm _ _ _ (walk_perm _)). by apply stakes_sum.
Qed.

Lemma does_pay_stakeholders L reward txs params :
  inv L → fees_cover params txs → total_coin L + reward + fees txs < u64_size →
  ∃ r L', does (pay_stakeholders reward txs params) L (Ok r) L' ∧ r ≤ reward + fees txs ∧
    paid L L' (reward + fees txs - r).
Proof.
  intros HL Hcover Hfit. pose proof (sum_min_costs_le params txs Hcover ltac:(lia)) as Hmin.
  destruct (does_get_stakes L HL) as (D & HdoD & HD). destruct (stakes_of_ledger L D HL HD) as [HDl HDs].
  pose proof (total_stakes_exact L D HL HD) as Htot. unfold pay_stakeholders.
  rewrite sum_fees_exact, u64_add_small by lia. set (cost := sum_min_costs params txs) in *. cbv zeta.
  destruct (N.leb_spec cost (reward + fees txs)); [|lia].
  destruct (does_distribute (walk (map_to_list D)) (fee_distribute cost D) (size D) L) as (d & L' & Hdo & Hle & Hp).
  - done.
  - done.
  - rewrite walk_perm, length_map_to_list. done.
  - simpl. by rewrite Htot.
  - simpl. lia.
  - simpl. rewrite Htot. destruct (decide (total_stake L = 0)) as [Hz|Hne].
    + destruct (walk (map_to_list D)) as [|x l]; [simpl; lia|]. apply list.Forall_cons in HDl as [[_ ?] _]. lia.
    + pose proof (shares_fit (total_stake L) cost (walk (map_to_list D)) ltac:(lia)) as Hs. rewrite HDs in Hs. nia.
  - simpl. lia.
  - simpl in Hle, Hp. exists (reward + fees txs - cost + fd_remaining_fee d), L'. split_and!; [|lia|].
    + eapply does_bind; [apply does_lift|]. eapply does_bind.
      { intros s Hs. destruct (HdoD s Hs) as [Hr Hs']. destruct (get_stakes s) as [r s']. simpl in *. by subst r. }
      eapply does_bind; [exact Hdo|]. rewrite u64_sub_le, u64_add_small by lia. apply does_ret.
    + by replace (reward + fees txs - _) with (cost - fd_remaining_fee d) by lia.
Qed.

(** * Rewards *)

Definition rewards_total (L : ledger) : N :=
  amap_sum (ir_previous (lg_rewards L)) + amap_sum (ir_current (lg_rewards L)).
(** Coins, and what authors are to get. *)
Definition worth (L : ledger) : N := total_coin L + rewards_total L.

Lemma add_reward_total L a n :
  inv L → rewards_total L + n < u64_size →
  amap_sum (ir_previous (ir_add_quantity (lg_rewards L) a n)) = amap_sum (ir_previous (lg_rewards L)) ∧
  amap_sum (ir_current (ir_add_quantity (lg_rewards L) a n)) = amap_sum (ir_current (lg_rewards L)) + n.
Proof.
  intros HL Hn. destruct (wf_rewards L (inv_wf L HL)) as [_ [Hc _]]. unfold rewards_total, ir_add_quantity in *.
  destruct (N.eqb_spec n 0); [split; [done|lia]|]. split; [done|]. simpl. unfold entry_add.
  pose proof (amap_sum_get (ir_current (lg_rewards L)) a). rewrite u64_add_small by lia.
  pose proof (amap_sum_insert (ir_current (lg_rewards L)) a (default 0 (bt_get (ir_current (lg_rewards L)) a) + n) Hc). lia.
Qed.

(** * The end of a term *)

Section Block.
Context (self : TendermintEngine) (header : Header).





Context (txs : list Transaction) (parent_header : Header) (parent_params : CommonParams).




Context (term_params : option CommonParams).

(** Whether the block ends its term: the engine looks at other parameters in the first one. *)
Definition ends_term (md : Metadata) : option BlockNumber :=
  if md_current_term_id md =? 0 then block_number_if_term_changed header parent_header parent_params
  else p ← term_params; block_number_if_term_changed header parent_header p.


(** What the engine relies on when it pays for the block. *)
Record payable (L : ledger) (md : Metadata) : Prop := {
  cb_metadata : lg_metadata L = Some md;
  cb_author : hd_author header ∈ accounts;
  cb_fees : fees_cover parent_params txs;
  cb_fits : worth L + te_block_reward self + fees txs < u64_size;
  cb_last : md_last_term_finished_block_num md + 1 < u64_size;
  cb_later : md_current_term_id md ≠ 0 → lg_validators L ≠ [] ∧ is_Some term_params;
}.


Definition the_block : ExecutedBlock := {| eb_header := header; eb_transactions := txs |}.


(** What is left to do in a later term once the author has its reward to come. *)
Definition close_rest (md : Metadata) (tp : CommonParams) : stM St CloseError () :=
  match block_number_if_term_changed header parent_header tp with
  | None => mret tt
  | Some last_term_finished_block_num =>
      rewards ← from_state drain_previous_rewards;
      client ← lift_st (ok_or (te_client self) (CloseEngine CannotOpenBlock));
      inactive_validators ← pay_previous_term self client header md rewards;
      _ ← from_state move_current_to_previous_intermediate_rewards;
      from_state (on_term_close last_term_finished_block_num inactive_validators)
  end.

(** The ledger with the stakeholders paid, the weights updated and the reward of the author noted. *)
Record noted (L L' : ledger) : Prop := {
  nt_inv : inv L';
  nt_stake : total_stake L' = total_stake L;
  nt_worth : worth L' = worth L + te_block_reward self + fees txs;
  nt_metadata : lg_metadata L' = lg_metadata L;
  nt_candidates : lg_candidates L' = lg_candidates L;
  nt_banned : lg_banned L' = lg_banned L;
  nt_validators : reweighed (lg_validators L) (lg_validators L');
  nt_previous : ir_previous (lg_rewards L') = ir_previous (lg_rewards L);
}.



Lemma close_noted L md tp :
  inv L → payable L md → md_current_term_id md ≠ 0 → term_params = Some tp →
  ∃ L3, noted L L3 ∧ ∀ r L', does (close_rest md tp) L3 r L' →
    does (on_close_block self the_block parent_header parent_params term_params) L r L'.
Proof.
  intros HL Hok Ht Htp. pose proof (cb_fits _ _ Hok) as Hfit. unfold worth in Hfit.
  destruct (cb_later _ _ Hok Ht) as [Hvs _].
  destruct (does_pay_stakeholders L (te_block_reward self) txs parent_params HL (cb_fees _ _ Hok))
    as (r & L1 & Hdo1 & Hr & (HL1 & Hco1 & f & ->)); [lia|].
  destruct (does_weights (set_coins L f) (hd_author header) HL1 Hvs) as (vs & Hdo2 & (HL2 & Hst2 & Hco2) & Hrew).
  set (L2 := set_validators (set_coins L f) vs) in *.
  destruct (does_add_reward L2 (hd_author header) r HL2 (cb_author _ _ Hok)) as [Hdo3 (HL3 & Hst3 & Hco3)].
  destruct (add_reward_total L2 (hd_author header) r HL2) as [Hpr Hcu]; [unfold rewards_total in *; simpl; lia|].
  exists (set_rewards L2 (ir_add_quantity (lg_rewards L2) (hd_author header) r)). split.
  - split; try done.
    + unfold worth, rewards_total in *. rewrite Hco3, Hco2, Hco1. simpl in *. lia.
    + unfold ir_add_quantity. by case_match.
  - intros r' L' Hm. unfold on_close_block. eapply does_bind; [exact Hdo1|].
    eapply does_bind; [apply does_from_ok, does_metadata|]. simpl. rewrite (cb_metadata _ _ Hok).
    eapply does_bind; [apply does_lift|]. apply N.eqb_neq in Ht as ->.
    eapply does_bind; [apply does_from_ok, Hdo2|]. eapply does_bind; [apply does_from_ok, Hdo3|].
    rewrite Htp. eapply does_bind; [apply does_lift|]. exact Hm.
Qed.



(** C34: The block that ends a term unwinds every node that closes it when an author of the previous term is to be
    paid, is not banned, and none of its signatures is in the seals of that term: the engine looks up the
    number of its signatures and unwraps it. *)
Theorem unsigned_author_unwinds (s : St) (L : ledger) (md : Metadata) (n : BlockNumber) (client : CloseClient)
    (e : N) (block : N → bytes) (vals : N → list Address) (bits : N → BitSet) (author : N → Address)
    (a : Address) (r : N) :
  let start := md_last_term_finished_block_num md + 1 in
  st s L → inv L → payable L md → 1 < md_current_term_id md → ends_term md = Some n →
  te_client self = Some client →
  cc_last_term_finished_block_num client (u64_sub (md_last_term_finished_block_num md) 1) = Some e →
  (if hd_number header =? start then Some (Header_rlp header With)
   else cl_block_header (cc_client client) (ByNumber start)) = Some (block start) →
  term_chain client (te_validators self) (e + 1) block vals bits author start →
  e + 1 < start → start - (e + 1) < 2 ^ 50 →
  (a, r) ∈ ir_previous (lg_rewards L) → is_banned (lg_banned L) a = false →
  a ∉ signatures (e + 1) vals bits (N.to_nat (start - (e + 1))) →
  (on_close_block self the_block parent_header parent_params term_params s).1 = Panic.
Proof.
  intros start Hs HL Hok Ht Hends Hcl He Hhd Hch Hlt Hb Hin Hban Hsig. destruct (cb_later _ _ Hok) as [_ [tp Htp]]; [lia|].
  destruct (close_noted L md tp HL Hok) as (L3 & HN & Hdo); [lia|done|].
  destruct (does_drain L3 (nt_inv _ _ HN)) as [Hdrain _]. rewrite (nt_previous _ _ HN) in Hdrain.
  eapply (Hdo Panic _); [|exact Hs]. unfold close_rest, ends_term in *. destruct (N.eqb_spec (md_current_term_id md) 0); [lia|].
  rewrite Htp in Hends. cbn in Hends. rewrite Hends. eapply does_bind; [apply does_from_ok, Hdrain|].
  rewrite Hcl. eapply does_bind; [apply does_lift|]. eapply does_bind_panic. unfold pay_previous_term.
  destruct (N.eqb_spec (md_current_term_id md) 1); [lia|]. pose proof (cb_last _ _ Hok).
  rewrite He, (u64_add_small _ 1) by lia. eapply does_bind; [apply does_lift|]. rewrite (u64_add_small e 1) by lia.
  eapply does_bind; [apply does_from_ok, does_banned_load|]. eapply does_bind with (x := block start).
  { fold start. destruct (hd_number header =? start); [injection Hhd as <-; apply does_lift|rewrite Hhd; apply does_lift]. }
  fold start. simpl. rewrite (nt_banned _ _ HN).
  rewrite (pending_rewards_panics client _ (e + 1) block vals bits author _ _ _ a r) by done.
  eapply does_bind_panic, does_lift.
Qed.
End Block.
End Closing.
