(* ===== verification/CloseScenario.v ===== *)
(** A term of two blocks, whose authors are paid when the next one ends: the blocks 9 and 10 of the previous term, and the
    block 11, which is a term of its own. *)
From Stdlib Require Import NArith ZArith Lia.
From stdpp Require Import base gmap list numbers strings.
From S2P Require Import Prelude Types Crypto Rlp RlpImpls TxHash Params StateCache StateItems ShardState TopState TopPay.
From S2P Require Import TrieNode TrieSpec BTree StakeData Stake StakeLedger StakeSpec StakeTerm StakeClose StakeRun.
From S2P Require Import StakeTop StakeProps Header BitSet TmMessage VoteCollector Validators TmWorker.
From S2P Require Import Reward RewardFacts CloseBlock CloseProps.

Local Open Scope N_scope.

Module CloseWitness.
Import StakeWitness.
#[local] Existing Instance TrieWitness.crypto.
#[local] Existing Instance TrieWitness.laws.
#[local] Existing Instance sample_primitives.
#[local] Existing Instance three.
#[local] Existing Instance play.
#[local] Instance order : HashOrder := {| walk A l := l |}.
#[local] Instance order_laws : HashOrderLaws.
Proof. by split. Qed.
#[local] Instance ratios : RatioOrder := {| ratio_cmp x y := (x.1 * y.2 ?= y.1 * x.2) |}.

(** The second account has authored all blocks and signed them. *)
Definition bits : BitSet := 1 :: replicate 99 0.
Definition seal : list bytes :=
  [rlp_bytes (app u64_codec 0); rlp_bytes (app u64_codec 0); rlp_bytes (app_list H512_codec []);
   rlp_bytes (BitSet_append bits)].
Definition hash (k : N) : H256 := replicate 32 k.
Definition header (k : N) : Header := {|
  hd_parent_hash := hash (k - 1); hd_timestamp := 10 * k; hd_number := k; hd_author := a2;
  hd_extra_data := []; hd_transactions_root := hash 0; hd_state_root := hash 0; hd_score := 1; hd_seal := seal;
  hd_hash_memo := None; hd_bare_hash_memo := None |}.
Definition block (k : N) : bytes := Header_rlp (header k) With.
Definition client : CloseClient := {|
  cc_client := {|
    cl_block_header id :=
      match id with
      | ByHash h => if bool_decide (h ∈ [hash 8; hash 9; hash 10]) then Some (block (default 0 (head h))) else None
      | _ => None
      end;
    cl_block _ := None; cl_current_term_id _ := Some 0; cl_state_validators _ := None; cl_now := 0;
    cl_network_id := [116; 99]; cl_latest_seq _ := 0 |};
  cc_last_term_finished_block_num k := if k =? 9 then Some 8 else None |}.
Definition engine : TendermintEngine :=
  {| te_block_reward := 50; te_validators := [pub2]; te_client := Some client |}.
Definition txs : list Transaction :=
  [{| tx_seq := 0; tx_fee := 7; tx_network_id := [116; 99]; tx_action := Action.Pay a1 5 |}].

(** The rewards of the previous term. *)
Definition owing (rewards : amap N) : ledger :=
  set_rewards (books 5) {| ir_previous := rewards; ir_current := [] |}.

Lemma owing_wf rewards : amap_wf (λ _ x, u64_wf x) rewards → lg_wf (owing rewards).
Proof. intros Hr. apply wf_set_rewards; [by apply books_wf|done|]. split; [constructor|]. by intros k x ?%elem_of_nil. Qed.
Lemma owing_inv rewards : amap_wf (λ _ x, u64_wf x) rewards → inv (owing rewards).
Proof.
  intros Hr. apply (set_rewards_keeps (books 5)); [apply books_ok|done|].
  split; [constructor|]. by intros k x ?%elem_of_nil.
Qed.
Lemma one_reward a : a ∈ accounts → amap_wf (λ _ x, u64_wf x) [(a, 90)].
Proof. intros Ha. split; [repeat constructor|]. by intros k x [= -> ->]%list_elem_of_singleton. Qed.

Lemma in_play : a1 ∈ accounts ∧ a2 ∈ accounts.
Proof. by_compute. Qed.

Lemma between (P : N → Prop) k : P 9 → P 10 → P 11 → 9 ≤ k ≤ 11 → P k.
Proof. intros H9 H10 H11 Hk. assert (k = 9 ∨ k = 10 ∨ k = 11) as [->|[->| ->]] by lia; done. Qed.

Lemma previous_term : term_chain client [pub2] 9 block (λ _, [a2]) (λ _, bits) (λ _, a2) 11.
Proof.
  split; intros k.
  - intros Hk. pattern k. apply between; [vm_compute; reflexivity..|lia].
  - intros Hk. pattern k. apply between; [vm_compute; reflexivity..|lia].
  - intros Hk. exists seal. pattern k. apply between; [split; vm_compute; reflexivity..|lia].
  - intros Hk. exists (hash (k - 1)). assert (k = 10 ∨ k = 11) as [->| ->] by lia; split; vm_compute; reflexivity.
  - intros Hk. pattern k. apply between; [vm_compute; reflexivity..|lia].
  - intros _. assert (true_index_iter bits = [0]) as -> by (vm_compute; reflexivity). by apply list.Forall_singleton.
  - intros _. apply NoDup_singleton.
Qed.


Lemma can_pay rewards : amap_sum rewards < 1000 → payable engine (header 11) txs params (Some params) (owing rewards) md.
Proof.
  intros Hr. split; try done.
  - apply in_play.
  - by apply list.Forall_singleton.
  - assert (worth (owing rewards) = 1107 + (amap_sum rewards + 0)) as -> by reflexivity.
    change (1107 + (amap_sum rewards + 0) + 50 + 7 < u64_size). assert (2 ^ 20 < u64_size) by done. lia.
Qed.


(** The second account is owed. *)
Module Owed.
#[local] Instance state : StakeState TopLevel := ledger_state (owing [(a2, 90)]).
#[local] Instance state_laws : StakeStateLaws TopLevel := ledger_laws (owing [(a2, 90)]).


End Owed.

(** The first account is owed, and has signed nothing. *)
Module Unsigned.
#[local] Instance state : StakeState TopLevel := ledger_state (owing [(a1, 90)]).
#[local] Instance state_laws : StakeStateLaws TopLevel := ledger_laws (owing [(a1, 90)]).

Lemma unsigned_author_unwinds_witness :
  (on_close_block engine (the_block (header 11) txs) (header 10) params (Some params) top_new).1 = Panic.
Proof.
  apply (unsigned_author_unwinds engine (header 11) txs (header 10) params (Some params) top_new (owing [(a1, 90)]) md 11
    client 8 block (λ _, [a2]) (λ _, bits) (λ _, a2) a1 90); try reflexivity.
  - apply (ledger_held (owing [(a1, 90)])). apply owing_wf, one_reward, in_play.
  - apply owing_inv, one_reward, in_play.
  - by apply can_pay.
  - exact previous_term.
  - left.
  - by_compute.
Defined.
End Unsigned.
End CloseWitness.
