(* ===== verification/RlpCompress.v ===== *)
(** Compression of RLP (util/rlp_compress/src/lib.rs, common.rs): common data items are swapped for two-byte strings that are no
    encoding of anything.  What was compressed is decompressed to what it was. *)
From stdpp Require Import base gmap list numbers.
From Stdlib Require Import NArith Lia.
From S2P Require Import Prelude Rlp RlpImpls.

Local Open Scope N_scope.

(** * The swapper *)

Record Swapper := {
  compressed_to_rlp : gmap bytes bytes;
  rlp_to_compressed : gmap bytes bytes;
}.

Definition Swapper_new (rlps_to_swap compressed : list bytes) : result Empty_set Swapper :=
  if 0x7e <? len rlps_to_swap then Panic
  else Ok (foldl (λ self '(rlp, compressed),
    {| compressed_to_rlp := <[compressed := rlp]> (compressed_to_rlp self);
       rlp_to_compressed := <[rlp := compressed]> (rlp_to_compressed self) |})
    {| compressed_to_rlp := ∅; rlp_to_compressed := ∅ |} (zip rlps_to_swap compressed)).

Definition decompressed (self : Swapper) (compressed : bytes) : option bytes := compressed_to_rlp self !! compressed.
Definition compressed (self : Swapper) (rlp : bytes) : option bytes := rlp_to_compressed self !! rlp.

(** * Mapping over the data items *)

(** [map_rlp]: a view that is no list has no items. *)
Definition map_rlp (rlp : bytes) (f : bytes → result Empty_set bytes) : result Empty_set bytes :=
  items ← map_res f (rlp_iter rlp);
  drain (rlp_list (match item_count rlp with Ok n => n | _ => 0 end) ((λ b, append_raw b 1) <$> items)).

(** An item of a list is shorter than the list, so as many calls as there are bytes are enough. *)
Fixpoint swap (fuel : nat) (look : bytes → option bytes) (c : bytes) : result Empty_set bytes :=
  if is_data c then Ok (default c (look c))
  else
    match fuel with
    | O => Panic
    | S fuel => map_rlp c (swap fuel look)
    end.

Definition compress (c : bytes) (swapper : Swapper) : result Empty_set bytes :=
  swap (S (length c)) (compressed swapper) c.
Definition decompress (c : bytes) (swapper : Swapper) : result Empty_set bytes :=
  swap (S (length c)) (decompressed swapper) c.

(** * The tables *)

Definition COMMON_RLPS : list bytes := [
  (* RLP of KECCAK_NULL_RLP *)
  [160; 86; 232; 31; 23; 27; 204; 85; 166; 255; 131; 69; 230; 146; 192; 248; 110; 91; 72; 224; 27; 153; 108; 173;
   192; 1; 98; 47; 181; 227; 99; 180; 33];
  (* RLP of KECCAK_EMPTY *)
  [160; 197; 210; 70; 1; 134; 247; 35; 60; 146; 126; 125; 178; 220; 199; 3; 192; 229; 0; 182; 83; 202; 130; 39;
   59; 123; 250; 216; 4; 93; 133; 164; 112];
  [160; 29; 204; 77; 232; 222; 199; 93; 122; 171; 133; 181; 103; 182; 204; 212; 26; 211; 18; 69; 27; 148; 138;
   116; 19; 240; 161; 66; 253; 64; 212; 147; 71];
  [148; 50; 190; 52; 59; 148; 248; 96; 18; 77; 196; 254; 226; 120; 253; 203; 211; 140; 16; 45; 136];
  [148; 82; 188; 68; 213; 55; 131; 9; 238; 42; 191; 21; 57; 191; 113; 222; 27; 125; 123; 227; 181];
  replicate 256 0
].

(** [0x81] and each number below [0x7f]. *)
Definition INVALID_RLPS : list bytes := (λ k, [0x81; N.of_nat k]) <$> seq 0 127.

Definition BLOCKS_SWAPPER : result Empty_set Swapper := Swapper_new COMMON_RLPS INVALID_RLPS.
Definition blocks_swapper : Swapper :=
  match BLOCKS_SWAPPER with Ok s => s | _ => {| compressed_to_rlp := ∅; rlp_to_compressed := ∅ |} end.

(** * Chunks *)

(** Bytes that a view takes for one item. *)
Definition chunk (c : bytes) : Prop :=
  1 ≤ len c ∧ ∀ rest, ∃ pi, payload_info (c ++ rest) = Ok pi ∧ header_len pi + value_len pi = len c.

Lemma enc_chunk i : fits i → chunk (enc i).
Proof.
  intros Hf. split; [apply enc_nonempty|]. intros rest. eexists. split; [by apply payload_info_enc|].
  simpl. by rewrite enc_len.
Qed.
Lemma marker_chunk k : chunk [0x81; k].
Proof.
  split; [done|]. intros rest. exists {| header_len := 1; value_len := 1 |}. split; [|done].
  unfold payload_info. change (PayloadInfo_from _) with (Ok (E := RlpError.t) {| header_len := 1; value_len := 1 |}).
  rewrite Ok_bind. cbn [header_len value_len]. rewrite (proj2 (N.leb_le (1 + 1) _)); [done|].
  rewrite len_app. change (len [0x81; k]) with 2. lia.
Qed.

(** A list of chunks. *)
Definition listed (cs : list bytes) : bytes := header 0xc0 (len (concat cs)) ++ concat cs.

Lemma payload_info_listed cs rest :
  len (listed cs) < u32_size →
  payload_info (listed cs ++ rest) =
    Ok {| header_len := len (header 0xc0 (len (concat cs))); value_len := len (concat cs) |}.
Proof.
  unfold listed. rewrite len_app. intros Hf. unfold payload_info.
  rewrite <-app_assoc, PayloadInfo_from_header by (lia || by right). simpl.
  rewrite (proj2 (N.ltb_lt _ _)); [|etrans; [exact Hf|done]]. rewrite (proj2 (N.leb_le _ _)); [done|].
  rewrite !len_app. lia.
Qed.

Lemma payload_info_list cs :
  len (listed cs) < u32_size →
  payload_info (listed cs) = Ok {| header_len := len (header 0xc0 (len (concat cs))); value_len := len (concat cs) |}.
Proof. intros Hf. rewrite <-(app_nil_r (listed cs)) at 1. by apply payload_info_listed. Qed.

Lemma listed_chunk cs : len (listed cs) < u32_size → chunk (listed cs).
Proof.
  intros Hf. pose proof (header_len_pos 0xc0 (len (concat cs))). split; [unfold listed; rewrite len_app; lia|].
  intros rest. eexists. split; [by apply payload_info_listed|]. unfold listed. by rewrite len_app.
Qed.

Lemma header_length_pos offset n : (1 ≤ length (header offset n))%nat.
Proof. pose proof (header_len_pos offset n) as Hh. unfold len in Hh. lia. Qed.

Lemma consume_chunks cs rest : Forall chunk cs → consume_items (concat cs ++ rest) (length cs) = Ok rest.
Proof.
  induction 1 as [|c cs [_ Hc] Hcs IH]; [done|]. simpl. rewrite <-app_assoc.
  destruct (Hc (concat cs ++ rest)) as (pi & -> & Hpi). simpl. by rewrite Hpi, consume_app.
Qed.

Lemma chunks_len cs : Forall chunk cs → len cs ≤ len (concat cs).
Proof. induction 1 as [|c cs [Hc _] Hcs IH]; [done|]. simpl. rewrite len_cons, len_app. lia. Qed.

Lemma is_list_listed cs : is_list (listed cs) = true.
Proof. unfold listed, header. destruct (_ <=? 55); simpl; apply N.leb_le; lia. Qed.

Lemma walk_listed cs k :
  len (listed cs) < u32_size → Forall chunk cs → (k ≤ length cs)%nat →
  walk (listed cs) (N.of_nat k) = Ok (concat (drop k cs)).
Proof.
  intros Hf Hcs Hk. unfold walk, consume_list_payload.
  rewrite payload_info_list by done. simpl. unfold listed.
  rewrite consume_app. simpl. rewrite Nat2N.id, <-(take_drop k cs) at 1. rewrite concat_app.
  rewrite <-(length_take_le cs k) at 3 by done. apply consume_chunks. by apply Forall_take.
Qed.

Lemma at_listed cs k c :
  len (listed cs) < u32_size → Forall chunk cs → cs !! k = Some c → at_ (listed cs) (N.of_nat k) = Ok c.
Proof.
  intros Hf Hcs Hk. pose proof (lookup_lt_Some _ _ _ Hk) as Hlt. pose proof (chunks_len cs Hcs) as Hlen.
  assert (len cs < u32_size) as Hl by (unfold listed in Hf; rewrite len_app in Hf; lia). unfold len in Hl.
  assert (u32_size < u64_size - 1) by done. rewrite at_eq by lia. unfold at_pure. rewrite is_list_listed. cbn [negb].
  rewrite walk_listed by (done || lia). rewrite payload_info_list by done.
  rewrite !Ok_bind. cbv zeta. cbn [header_len value_len]. rewrite (drop_S _ _ _ Hk). simpl.
  pose proof (proj1 (list.Forall_lookup _ _) Hcs k c Hk) as [Hc1 Hc]. unfold listed. rewrite !len_app.
  rewrite (proj2 (N.ltb_ge _ _)) by lia.
  destruct (Hc (concat (drop (S k) cs))) as (pi & -> & Hpi). simpl. rewrite Hpi. apply slice_prefix.
Qed.

Lemma at_listed_end cs :
  len (listed cs) < u32_size → Forall chunk cs → ∃ e, at_ (listed cs) (len cs) = Err e.
Proof.
  intros Hf Hcs. pose proof (chunks_len cs Hcs) as Hlen.
  assert (len cs < u32_size) as Hl by (unfold listed in Hf; rewrite len_app in Hf; lia).
  assert (u32_size < u64_size - 1) by done. rewrite at_eq by lia. change (len cs) with (N.of_nat (length cs)).
  unfold at_pure. rewrite is_list_listed. cbn [negb]. rewrite walk_listed by (done || lia). rewrite payload_info_list by done. rewrite !Ok_bind, drop_ge by lia. cbv zeta. simpl.
  unfold listed. rewrite !len_app. pose proof (header_len_pos 0xc0 (len (concat cs))).
  rewrite (proj2 (N.ltb_lt _ _)); [by eexists|]. change (len []) with 0. lia.
Qed.

Lemma iter_listed cs :
  len (listed cs) < u32_size → Forall chunk cs → rlp_iter (listed cs) = cs.
Proof.
  intros Hf Hcs. unfold rlp_iter. pose proof (chunks_len cs Hcs) as Hlen.
  assert (∀ fuel k, (k ≤ length cs)%nat → (length cs - k < fuel)%nat →
    iter_from fuel (listed cs) (N.of_nat k) = drop k cs) as Hi.
  { induction fuel as [|fuel IH]; intros k Hk Hfuel; [lia|]. cbn [iter_from].
    destruct (cs !! k) as [c|] eqn:Hc.
    - rewrite (at_listed cs k c) by done. apply lookup_lt_Some in Hc as Hlt. rewrite (drop_S _ _ _ Hc). f_equal.
      rewrite <-IH by lia. f_equal. lia.
    - apply lookup_ge_None in Hc. assert (k = length cs) as -> by lia.
      destruct (at_listed_end cs Hf Hcs) as [e He]. unfold len in He. rewrite He. by rewrite drop_ge. }
  rewrite (Hi _ 0%nat); [done|lia|]. unfold listed. rewrite length_app. unfold len in Hlen.
  pose proof (header_length_pos 0xc0 (len (concat cs))). lia.
Qed.

(** Raw chunks are written as they are. *)
Lemma append_chunk c p k n b :
  k + 1 < n →
  append_raw c 1 (open_list [] p k n [] b) = (Ok tt, open_list [] (p ++ c) (k + 1) n [] false).
Proof.
  intros Hk. unfold append_raw, mbind, stM_bind, modify_st, note_appended. simpl.
  rewrite (proj2 (N.ltb_ge _ _)) by lia. rewrite (proj2 (N.eqb_neq _ _)) by lia. simpl.
  done.
Qed.
Lemma append_chunk_last c p k b :
  len (p ++ c) < u32_size →
  append_raw c 1 (open_list [] p k (k + 1) [] b) =
    (Ok tt, {| unfinished_lists := []; buffer := header 0xc0 (len (p ++ c)) ++ p ++ c; finished_list := true |}).
Proof.
  intros Hp. unfold append_raw, mbind, stM_bind, modify_st, note_appended. simpl.
  rewrite (proj2 (N.ltb_ge _ _)) by lia. rewrite N.eqb_refl. simpl.
  pose proof (insert_list_payload_spec [] (p ++ c) Hp) as Hi. simpl in Hi. rewrite <-Hi.
  replace (len (0 :: p ++ c) - len [0]) with (len (p ++ c)) by (rewrite len_cons; change (len [0]) with 1; lia). done.
Qed.

Lemma chain_chunks cs p k n b :
  cs ≠ [] → k + len cs = n → len (p ++ concat cs) < u32_size →
  chain ((λ c, append_raw c 1) <$> cs) (open_list [] p k n [] b) =
    (Ok tt, {| unfinished_lists := []; finished_list := true;
               buffer := header 0xc0 (len (p ++ concat cs)) ++ p ++ concat cs |}).
Proof.
  revert p k b. induction cs as [|c cs IH]; intros p k b Hne Hn Hp; [done|]. rewrite len_cons in Hn.
  rewrite fmap_cons. unfold chain. cbn [for_each]. unfold mbind, stM_bind. change (id (append_raw c 1)) with (append_raw c 1).
  destruct cs as [|c' cs].
  - change (len []) with 0 in Hn. assert (n = k + 1) as -> by lia. cbn [concat] in *. rewrite app_nil_r in *.
    rewrite append_chunk_last by done. done.
  - rewrite len_cons in *. rewrite append_chunk by lia.
    specialize (IH (p ++ c) (k + 1) false ltac:(done)). rewrite <-app_assoc in IH. apply IH; [lia|done].
Qed.

Lemma drain_listed cs :
  len (listed cs) < u32_size → drain (rlp_list (len cs) ((λ c, append_raw c 1) <$> cs)) = Ok (listed cs).
Proof.
  intros Hf. destruct cs as [|c cs]; [done|]. unfold drain, rlp_list, begin_list.
  rewrite (proj2 (N.eqb_neq _ _)) by (rewrite len_cons; lia). unfold mbind, stM_bind, modify_st. simpl.
  pose proof (chain_chunks (c :: cs) [] 0 (len (c :: cs)) false ltac:(done) ltac:(lia)) as Hc.
  unfold open_list in Hc. simpl in Hc. unfold listed in *. rewrite len_app in Hf. rewrite Hc by (simpl in Hf; lia). done.
Qed.

(** * Swapping forth and back *)

(** What a table of swaps needs: originals are not shorter than the strings they are swapped for, which are told apart from
    encodings, and each string stands for one original. *)
Record swapper_ok (self : Swapper) : Prop := {
  sw_short rlp c : compressed self rlp = Some c → ∃ k, k < 0x80 ∧ c = [0x81; k] ∧ 2 ≤ len rlp;
  sw_back rlp c : compressed self rlp = Some c → decompressed self c = Some rlp;
  sw_marks c rlp : decompressed self c = Some rlp → ∃ k, k < 0x80 ∧ c = [0x81; k];
}.

Lemma enc_no_marker i k : k < 0x80 → enc i ≠ [0x81; k].
Proof.
  intros Hk. destruct i as [[|b [|b' d]]|l]; [done| | |].
  - simpl. destruct (N.ltb_spec b 0x80); [done|]. intros [= ->]. lia.
  - change (enc (Data (b :: b' :: d))) with (header 0x80 (len (b :: b' :: d)) ++ b :: b' :: d). intros He.
    apply (f_equal len) in He. rewrite len_app in He. change (len [0x81; k]) with 2 in He.
    pose proof (header_len_pos 0x80 (len (b :: b' :: d))). assert (2 ≤ len (b :: b' :: d)) by (rewrite !len_cons; lia). lia.
  - intros He. pose proof (is_list_enc l []) as Hl. rewrite He in Hl. done.
Qed.

Lemma is_data_enc d : len d < u32_size → is_data (enc (Data d)) = true.
Proof.
  intros Hd. destruct d as [|b [|b' d]]; [done| |].
  - simpl. destruct (N.ltb_spec b 0x80); simpl; [apply N.ltb_lt; lia|done].
  - change (enc (Data (b :: b' :: d))) with (header 0x80 (len (b :: b' :: d)) ++ b :: b' :: d).
    set (n := len (b :: b' :: d)) in *. pose proof (min_be_len_bound n 4 Hd). unfold header.
    destruct (N.leb_spec n 55); simpl; apply N.ltb_lt; lia.
Qed.

Lemma is_data_listed cs : is_data (listed cs) = false.
Proof.
  pose proof (is_list_listed cs) as Hl. unfold is_list, is_data in *. destruct (listed cs) as [|b bs]; [done|].
  apply N.leb_le in Hl. apply N.ltb_ge. lia.
Qed.

Lemma enc_listed l : enc (List l) = listed (enc <$> l).
Proof. done. Qed.

(** One turn over a list of chunks. *)
Lemma swap_listed fuel look cs cs' :
  len (listed cs) < u32_size → len (listed cs') < u32_size → Forall chunk cs →
  Forall2 (λ c c', swap fuel look c = Ok c') cs cs' → swap (S fuel) look (listed cs) = Ok (listed cs').
Proof.
  intros Hf Hf' Hcs Hall. cbn [swap]. rewrite is_data_listed. unfold map_rlp, item_count.
  rewrite iter_listed, is_list_listed by done. cbn [negb]. rewrite (proj2 (map_res_Ok _ cs cs') Hall), Ok_bind.
  apply Forall2_length in Hall as Hlen. unfold len at 1. rewrite Hlen. by apply drain_listed.
Qed.

(** What is known of the compressed form [c] of the item [i]. *)
Definition swapped (sw : Swapper) (fuel : nat) (i : rlp_item) (c : bytes) : Prop :=
  swap fuel (compressed sw) (enc i) = Ok c ∧ chunk c ∧ len c ≤ len (enc i) ∧
  ∀ fuel', (length c < fuel')%nat → swap fuel' (decompressed sw) c = Ok (enc i).

Lemma swapped_data sw fuel d : swapper_ok sw → fits (Data d) → ∃ c, swapped sw fuel (Data d) c.
Proof.
  intros Hsw Hf. assert (len d < u32_size) as Hd.
  { unfold fits in Hf. rewrite enc_len in Hf. simpl in Hf. lia. }
  assert (∀ fuel look, swap fuel look (enc (Data d)) = Ok (default (enc (Data d)) (look (enc (Data d))))) as Hswap.
  { intros [|f] look; cbn [swap]; by rewrite is_data_enc. }
  unfold swapped. rewrite Hswap. destruct (compressed sw (enc (Data d))) as [c|] eqn:Hc.
  - destruct (sw_short _ Hsw _ _ Hc) as (k & Hk & -> & Hlen). exists [0x81; k].
    split_and!; [done|apply marker_chunk|done|]. intros fuel' _.
    assert (swap fuel' (decompressed sw) [0x81; k] = Ok (default [0x81; k] (decompressed sw [0x81; k]))) as -> by by destruct fuel'.
    by rewrite (sw_back _ Hsw _ _ Hc).
  - exists (enc (Data d)). split_and!; [done|by apply enc_chunk|done|]. intros fuel' _. rewrite Hswap.
    destruct (decompressed sw (enc (Data d))) as [r|] eqn:Hr; [|done].
    destruct (sw_marks _ Hsw _ _ Hr) as (k & Hk & He). by apply enc_no_marker in He.
Qed.

Lemma concat_le (l : list rlp_item) (cs : list bytes) :
  Forall2 (λ i c, len c ≤ len (enc i)) l cs → len (concat cs) ≤ len (encs l).
Proof. induction 1 as [|i c l cs Hi Hl IH]; [done|]. rewrite encs_cons. simpl. rewrite !len_app. lia. Qed.

Lemma Forall2_choice {A B : Type} (P : A → B → Prop) l : Forall (λ x, ∃ y, P x y) l → ∃ k, Forall2 P l k.
Proof. induction 1 as [|x l [y Hy] _ [k Hk]]; [by exists []|]. exists (y :: k). by constructor. Qed.
Lemma Forall2_elem_r {A B : Type} (P : A → B → Prop) l k : Forall2 P l k → Forall2 (λ x y, P x y ∧ y ∈ k) l k.
Proof.
  intros Hk. assert (∀ k', k ⊆ k' → Forall2 (λ x y, P x y ∧ y ∈ k') l k) as Hs; [|by apply Hs].
  induction Hk as [|x y l k Hp Hk IH]; intros k' Hsub; [constructor|].
  constructor; [split; [done|apply Hsub; left]|]. apply IH. set_solver.
Qed.
Lemma concat_elem (c : bytes) cs : c ∈ cs → (length c ≤ length (concat cs))%nat.
Proof. induction 1; simpl; rewrite length_app; lia. Qed.

Lemma header_mono n m : n ≤ m → len (header 0xc0 n) ≤ len (header 0xc0 m).
Proof.
  intros Hnm. pose proof (header_len_pos 0xc0 m). unfold header in *.
  destruct (N.leb_spec n 55); [done|]. destruct (N.leb_spec m 55); [lia|]. rewrite !len_cons, !min_be_len.
  assert (N.size n ≤ N.size m) by (apply size_le; pose proof (N.size_gt m); lia).
  assert ((N.size n + 7) / 8 ≤ (N.size m + 7) / 8) by (apply N.Div0.div_le_mono; lia). lia.
Qed.

Lemma listed_le (l : list rlp_item) (cs : list bytes) :
  Forall2 (λ i c, len c ≤ len (enc i)) l cs → len (listed cs) ≤ len (enc (List l)).
Proof.
  intros Hl%concat_le. pose proof (header_mono _ _ Hl). rewrite enc_len. simpl. unfold listed. rewrite len_app. lia.
Qed.

Lemma item_shorter l j : j ∈ l → (length (enc j) < length (enc (List l)))%nat.
Proof.
  intros (l1 & l2 & ->)%list_elem_of_split. rewrite (enc_split (List _)). cbn [item_header item_payload].
  rewrite encs_app, encs_cons, !length_app. pose proof (header_length_pos 0xc0 (len (encs l1 ++ enc j ++ encs l2))). lia.
Qed.

(** Compressing an item leaves a chunk that is not longer, and that is decompressed to the item. *)
Lemma swap_item sw fuel i :
  swapper_ok sw → fits i → (length (enc i) < fuel)%nat → ∃ c, swapped sw fuel i c.
Proof.
  intros Hsw. revert i. induction fuel as [|fuel IH]; intros i Hf Hlen; [lia|].
  destruct i as [d|l]; [by apply swapped_data|].
  assert (∃ cs, Forall2 (swapped sw fuel) l cs) as [cs Hcs].
  { apply Forall2_choice. apply list.Forall_forall. intros j Hj. pose proof (item_shorter l j Hj).
    apply IH; [by eapply fits_elem|lia]. }
  assert (Forall2 (λ i (c : bytes), len c ≤ len (enc i)) l cs) as Hle by (eapply list.Forall2_impl; [exact Hcs|]; by intros i c (_ & _ & ? & _)).
  apply listed_le in Hle. unfold fits in Hf. exists (listed cs). split_and!.
  - rewrite enc_listed. apply swap_listed; [done|lia| |].
    + apply Forall_fmap, list.Forall_forall. intros j Hj. apply enc_chunk. by eapply fits_elem.
    + apply Forall2_fmap_l. eapply list.Forall2_impl; [exact Hcs|]. by intros i c (? & _).
  - apply listed_chunk. lia.
  - done.
  - intros [|fuel'] Hfuel; [lia|]. rewrite enc_listed. apply swap_listed; [lia|done| |].
    + eapply Forall2_Forall_r; [exact Hcs|]. apply list.Forall_forall. by intros j _ c (_ & ? & _).
    + apply Forall2_fmap_r, Forall2_flip. eapply list.Forall2_impl; [exact (Forall2_elem_r _ _ _ Hcs)|].
      intros i c [(_ & _ & _ & Hc) Hin]. apply Hc. apply concat_elem in Hin.
      pose proof (header_length_pos 0xc0 (len (concat cs))). unfold listed in Hfuel. rewrite length_app in Hfuel. lia.
Qed.

(** An encoding that was not compressed is left alone. *)
Lemma swap_nothing sw fuel i :
  swapper_ok sw → fits i → (length (enc i) < fuel)%nat → swap fuel (decompressed sw) (enc i) = Ok (enc i).
Proof.
  intros Hsw. revert i. induction fuel as [|fuel IH]; intros i Hf Hlen; [lia|]. destruct i as [d|l].
  - cbn [swap]. assert (len d < u32_size) as Hd by (unfold fits in Hf; rewrite enc_len in Hf; simpl in Hf; lia).
    rewrite is_data_enc by done. destruct (decompressed sw (enc (Data d))) as [r|] eqn:Hr; [|done].
    destruct (sw_marks _ Hsw _ _ Hr) as (k & Hk & He). by apply enc_no_marker in He.
  - rewrite enc_listed. apply swap_listed; [done|done| |].
    + apply Forall_fmap, list.Forall_forall. intros j Hj. apply enc_chunk. by eapply fits_elem.
    + apply Forall2_fmap, Forall_Forall2_diag, list.Forall_forall. intros j Hj. apply IH; [by eapply fits_elem|].
      pose proof (item_shorter l j Hj). lia.
Qed.

(** * The swapper of blocks *)

Definition is_marker (c : bytes) : bool := match c with [b; k] => (b =? 0x81) && (k <? 0x80) | _ => false end.
Lemma is_marker_true c : is_marker c = true → ∃ k, k < 0x80 ∧ c = [0x81; k].
Proof.
  destruct c as [|b [|k [|x c]]]; try done. simpl. intros [->%N.eqb_eq Hk%N.ltb_lt]%andb_true_iff. by exists k.
Qed.

(** The table is small enough to be looked through. *)
Definition swapper_check (self : Swapper) : bool :=
  forallb (λ '(rlp, c), is_marker c && (2 <=? len rlp) && bool_decide (decompressed self c = Some rlp))
    (map_to_list (rlp_to_compressed self)) &&
  forallb (λ '(c, _), is_marker c) (map_to_list (compressed_to_rlp self)).

Lemma swapper_check_ok self : swapper_check self = true → swapper_ok self.
Proof.
  unfold swapper_check. rewrite andb_true_iff, !forallb_forall. setoid_rewrite <-list_elem_of_In.
  intros [Hto Hback].
  assert (∀ rlp c, compressed self rlp = Some c →
    is_marker c = true ∧ 2 ≤ len rlp ∧ decompressed self c = Some rlp) as Hc.
  { intros rlp c Hc. unfold compressed in Hc. apply elem_of_map_to_list in Hc. specialize (Hto _ Hc). simpl in Hto.
    apply andb_true_iff in Hto as [[Hm Hl%N.leb_le]%andb_true_iff Hd%bool_decide_eq_true]. done. }
  split.
  - intros rlp c (Hm & Hl & _)%Hc. apply is_marker_true in Hm as (k & Hk & ->). by exists k.
  - by intros rlp c (_ & _ & ?)%Hc.
  - intros c rlp Hd. unfold decompressed in Hd. apply elem_of_map_to_list in Hd. apply is_marker_true. exact (Hback _ Hd).
Qed.

Lemma blocks_swapper_ok : swapper_ok blocks_swapper.
Proof. apply swapper_check_ok. vm_compute. reflexivity. Qed.

Lemma plain_reads_back i : fits i → decompress (enc i) blocks_swapper = Ok (enc i).
Proof. intros Hf. apply swap_nothing; [apply blocks_swapper_ok|done|lia]. Qed.

Lemma compressed_reads_back i :
  fits i → ∃ c, compress (enc i) blocks_swapper = Ok c ∧ len c ≤ len (enc i) ∧ decompress c blocks_swapper = Ok (enc i).
Proof.
  intros Hf. destruct (swap_item blocks_swapper (S (length (enc i))) i blocks_swapper_ok Hf) as (c & Hc & _ & Hl & Hback); [lia|].
  exists c. split_and!; [exact Hc|done|]. apply Hback. lia.
Qed.

(** C22: What is stored compressed is read back as it was: any encoded item is decompressed to the bytes that were compressed, with
    the table of swaps for blocks; the bytes that were never compressed, as those of the genesis block, are left alone; and the compressed
    form is not longer. *)
Theorem compress_roundtrip (i : rlp_item) :
  fits i →
  decompress (enc i) blocks_swapper = Ok (enc i) ∧
  ∃ c, compress (enc i) blocks_swapper = Ok c ∧ len c ≤ len (enc i) ∧ decompress c blocks_swapper = Ok (enc i).
Proof. intros Hf. split; [by apply plain_reads_back|by apply compressed_reads_back]. Qed.

(** Two hashes of the table in a list, and another item. *)
Lemma compress_roundtrip_witness :
  let i := List [Data (tail (nth 0 COMMON_RLPS [])); List [Data [1; 2; 3]]; Data (tail (nth 3 COMMON_RLPS []))] in
  ∃ c, compress (enc i) blocks_swapper = Ok c ∧ decompress c blocks_swapper = Ok (enc i).
Proof.
  intros i. destruct (compress_roundtrip i) as (_ & c & Hc & _ & Hd); [vm_compute; reflexivity|].
  exists c. split; [exact Hc|exact Hd].
Defined.
