(* ===== verification/HeaderChain.v ===== *)
(** The header chain (core/src/blockchain/ headerchain.rs, route.rs, block_info.rs, extras.rs, and the caching of core/src/db.rs):
    headers with their details by hash, the hashes of the canonical chain by number, and the best header.  What is read goes through
    caches, what is written is collected in a batch and held back until it is committed. *)
From Stdlib Require Import NArith Lia.
From stdpp Require Import base gmap list numbers.
From S2P Require Import Prelude Types Crypto Rlp RlpImpls RlpCompress Header.

Local Open Scope N_scope.

(** * The database *)

Record BlockDetails := {
  bd_number : BlockNumber;
  bd_total_score : N;
  bd_parent : H256;
}.

(** [BlockNumberKey]: the four low bytes of the number. *)
Definition number_key (n : BlockNumber) : N := n mod u32_size.

(** The columns for headers and extras; the keys of the extras differ in their first byte, so each kind is a map. *)
Record ChainDB := {
  db_headers : gmap H256 bytes;
  db_details : gmap H256 BlockDetails;
  db_hashes : gmap N H256;
  db_best_header : option H256;
  db_best_proposal_header : option H256;
}.

Inductive DbOp :=
| PutHeader (hash : H256) (compressed_header : bytes)
| WriteDetails (hash : H256) (details : BlockDetails)
| WriteHash (number : BlockNumber) (hash : H256)
| PutBestHeader (hash : H256)
| PutBestProposalHeader (hash : H256).
Definition DBTransaction : Type := list DbOp.

Definition apply_op (db : ChainDB) (op : DbOp) : ChainDB :=
  match op with
  | PutHeader hash b =>
      {| db_headers := <[hash := b]> (db_headers db); db_details := db_details db; db_hashes := db_hashes db;
         db_best_header := db_best_header db; db_best_proposal_header := db_best_proposal_header db |}
  | WriteDetails hash d =>
      {| db_headers := db_headers db; db_details := <[hash := d]> (db_details db); db_hashes := db_hashes db;
         db_best_header := db_best_header db; db_best_proposal_header := db_best_proposal_header db |}
  | WriteHash n hash =>
      {| db_headers := db_headers db; db_details := db_details db; db_hashes := <[number_key n := hash]> (db_hashes db);
         db_best_header := db_best_header db; db_best_proposal_header := db_best_proposal_header db |}
  | PutBestHeader hash =>
      {| db_headers := db_headers db; db_details := db_details db; db_hashes := db_hashes db;
         db_best_header := Some hash; db_best_proposal_header := db_best_proposal_header db |}
  | PutBestProposalHeader hash =>
      {| db_headers := db_headers db; db_details := db_details db; db_hashes := db_hashes db;
         db_best_header := db_best_header db; db_best_proposal_header := Some hash |}
  end.
Definition db_write (batch : DBTransaction) (db : ChainDB) : ChainDB := foldl apply_op db batch.

(** [read_with_cache] *)
Definition read_with_cache `{Countable K} {V : Type} (found : option V) (cache : gmap K V) (key : K)
  : option V * gmap K V :=
  match cache !! key with
  | Some v => (Some v, cache)
  | None => match found with Some v => (Some v, <[key := v]> cache) | None => (None, cache) end
  end.

(** * The chain *)

Record HeaderChain := {
  hc_best_header_hash : H256;
  hc_best_proposal_header_hash : H256;
  hc_header_cache : gmap H256 bytes;
  hc_detail_cache : gmap H256 BlockDetails;
  hc_hash_cache : gmap BlockNumber H256;
  hc_db : ChainDB;
  hc_pending_best_header_hash : option H256;
  hc_pending_best_proposal_block_hash : option H256;
  hc_pending_hashes : gmap BlockNumber H256;
  hc_pending_details : gmap H256 BlockDetails;
}.

Definition set_caches (headers : gmap H256 bytes) (details : gmap H256 BlockDetails) (hashes : gmap BlockNumber H256)
  (s : HeaderChain) : HeaderChain := {|
  hc_best_header_hash := hc_best_header_hash s; hc_best_proposal_header_hash := hc_best_proposal_header_hash s;
  hc_header_cache := headers; hc_detail_cache := details; hc_hash_cache := hashes; hc_db := hc_db s;
  hc_pending_best_header_hash := hc_pending_best_header_hash s;
  hc_pending_best_proposal_block_hash := hc_pending_best_proposal_block_hash s;
  hc_pending_hashes := hc_pending_hashes s; hc_pending_details := hc_pending_details s |}.
Definition set_pending (best proposal : option H256) (hashes : gmap BlockNumber H256) (details : gmap H256 BlockDetails)
  (s : HeaderChain) : HeaderChain := {|
  hc_best_header_hash := hc_best_header_hash s; hc_best_proposal_header_hash := hc_best_proposal_header_hash s;
  hc_header_cache := hc_header_cache s; hc_detail_cache := hc_detail_cache s; hc_hash_cache := hc_hash_cache s; hc_db := hc_db s;
  hc_pending_best_header_hash := best; hc_pending_best_proposal_block_hash := proposal;
  hc_pending_hashes := hashes; hc_pending_details := details |}.
Definition set_db (db : ChainDB) (s : HeaderChain) : HeaderChain := {|
  hc_best_header_hash := hc_best_header_hash s; hc_best_proposal_header_hash := hc_best_proposal_header_hash s;
  hc_header_cache := hc_header_cache s; hc_detail_cache := hc_detail_cache s; hc_hash_cache := hc_hash_cache s; hc_db := db;
  hc_pending_best_header_hash := hc_pending_best_header_hash s;
  hc_pending_best_proposal_block_hash := hc_pending_best_proposal_block_hash s;
  hc_pending_hashes := hc_pending_hashes s; hc_pending_details := hc_pending_details s |}.

(** A call reports no error; it returns or unwinds. *)
Abbreviation hcM := (stM HeaderChain Empty_set).

Record TreeRoute := {
  tr_ancestor : H256;
  tr_enacted : list H256;
  tr_retracted : list H256;
}.

Inductive BestHeaderChanged :=
| CanonChainAppended (best_header : bytes)
| NoneChanged
| BranchBecomingCanonChain (best_header : bytes) (tree_route : TreeRoute).

(** What the chain asks of the consensus engine. *)
Record ChainEngine := {
  ce_can_change_canon_chain : bytes → result Empty_set bool;
  ce_best_from_proposal : bytes → result Empty_set H256;
}.

(** The sum of scores unwinds when it overflows. *)
Definition u256_add {E : Type} (a b : N) : result E N := if a + b <? u256_size then Ok (a + b) else Panic.

Section Chain.
Context `{Crypto}.

(** The answers of an engine that has none of its own, and those of Tendermint: what changes the chain is at the allowed height or
    above it, and the best block is the parent of the best proposal. *)
Definition default_engine : ChainEngine := {|
  ce_can_change_canon_chain := λ _, Ok true;
  ce_best_from_proposal := λ header, Ok (hv_hash header);
|}.
Definition tendermint_engine (allowed_height : BlockNumber) : ChainEngine := {|
  ce_can_change_canon_chain := λ header, number ← hv_number header; Ok (allowed_height <=? number);
  ce_best_from_proposal := λ header, hv_parent_hash header;
|}.

(** ** Reading *)

Definition is_known_header (hash : H256) : hcM bool := λ s,
  match hc_detail_cache s !! hash with
  | Some _ => (Ok true, s)
  | None => (Ok (match db_details (hc_db s) !! hash with Some _ => true | None => false end), s)
  end.

Definition block_details (hash : H256) : hcM (option BlockDetails) := λ s,
  let (r, cache) := read_with_cache (db_details (hc_db s) !! hash) (hc_detail_cache s) hash in
  (Ok r, set_caches (hc_header_cache s) cache (hc_hash_cache s) s).

Definition block_header_data (hash : H256) : hcM (option bytes) := λ s,
  match hc_header_cache s !! hash with
  | Some v => (Ok (Some v), s)
  | None =>
      match db_headers (hc_db s) !! hash with
      | None => (Ok None, s)
      | Some b =>
          match decompress b blocks_swapper with
          | Ok bytes =>
              (Ok (Some bytes), set_caches (<[hash := bytes]> (hc_header_cache s)) (hc_detail_cache s) (hc_hash_cache s) s)
          | _ => (Panic, s)
          end
      end
  end.

Definition best_header : hcM bytes :=
  s ← get_st;
  header ← block_header_data (hc_best_header_hash s);
  lift_st (expect header).

Definition best_proposal_header_detail : hcM BlockDetails :=
  s ← get_st;
  details ← block_details (hc_best_proposal_header_hash s);
  lift_st (expect details).

Definition read_hash (index : BlockNumber) : hcM (option H256) := λ s,
  let (r, cache) := read_with_cache (db_hashes (hc_db s) !! number_key index) (hc_hash_cache s) index in
  (Ok r, set_caches (hc_header_cache s) (hc_detail_cache s) cache s).

(** Above the best header no number is looked up. *)
Definition block_hash (index : BlockNumber) : hcM (option H256) :=
  header ← best_header;
  number ← lift_st (hv_number header);
  if number <? index then mret None else read_hash index.

Definition block_number (hash : H256) : hcM (option BlockNumber) :=
  details ← block_details hash;
  mret (bd_number <$> details).

Definition block_header (hash : H256) : hcM (option Header) :=
  header ← block_header_data hash;
  match header with
  | Some rlp => header ← lift_st (encoded_decode rlp); mret (Some header)
  | None => mret None
  end.

(** ** Routes *)

Record Route := {
  ro_cur_retract : bytes;
  ro_cur_enact : bytes;
  ro_retracted : list H256;
  ro_enacted : list H256;
}.

(** [*header = db.block_header_data(&header.parent_hash())?] *)
Definition parent_of (header : bytes) : hcM (option bytes) :=
  parent_hash ← lift_st (hv_parent_hash header);
  block_header_data parent_hash.

(** The loop that brings the higher header down to the number of the other one. *)
Fixpoint route_level (fuel : nat) (r : Route) : hcM (option Route) :=
  retract ← lift_st (hv_number (ro_cur_retract r));
  enact ← lift_st (hv_number (ro_cur_enact r));
  if retract =? enact then mret (Some r)
  else
    match fuel with
    | O => lift_st Panic
    | S fuel =>
        if enact <? retract then
          header ← parent_of (ro_cur_retract r);
          match header with
          | None => mret None
          | Some header => route_level fuel
              {| ro_cur_retract := header; ro_cur_enact := ro_cur_enact r;
                 ro_retracted := ro_retracted r ++ [hv_hash (ro_cur_retract r)]; ro_enacted := ro_enacted r |}
          end
        else
          header ← parent_of (ro_cur_enact r);
          match header with
          | None => mret None
          | Some header => route_level fuel
              {| ro_cur_retract := ro_cur_retract r; ro_cur_enact := header;
                 ro_retracted := ro_retracted r; ro_enacted := ro_enacted r ++ [hv_hash (ro_cur_enact r)] |}
          end
    end.

(** The loop that brings both down to the common ancestor. *)
Fixpoint route_meet (fuel : nat) (r : Route) : hcM (option Route) :=
  if bool_decide (hv_hash (ro_cur_retract r) = hv_hash (ro_cur_enact r)) then mret (Some r)
  else
    match fuel with
    | O => lift_st Panic
    | S fuel =>
        retract ← parent_of (ro_cur_retract r);
        match retract with
        | None => mret None
        | Some retract =>
            enact ← parent_of (ro_cur_enact r);
            match enact with
            | None => mret None
            | Some enact => route_meet fuel
                {| ro_cur_retract := retract; ro_cur_enact := enact;
                   ro_retracted := ro_retracted r ++ [hv_hash (ro_cur_retract r)];
                   ro_enacted := ro_enacted r ++ [hv_hash (ro_cur_enact r)] |}
            end
        end
    end.

(** As many turns as the headers have numbers are enough. *)
Definition tree_route (from to : H256) : hcM (option TreeRoute) :=
  cur_retract ← block_header_data from;
  match cur_retract with
  | None => mret None
  | Some cur_retract =>
      cur_enact ← block_header_data to;
      match cur_enact with
      | None => mret None
      | Some cur_enact =>
          retract ← lift_st (hv_number cur_retract);
          enact ← lift_st (hv_number cur_enact);
          r ← route_level (N.to_nat (retract + enact))
                {| ro_cur_retract := cur_retract; ro_cur_enact := cur_enact; ro_retracted := []; ro_enacted := [] |};
          match r with
          | None => mret None
          | Some r =>
              r ← route_meet (N.to_nat (retract + enact)) r;
              match r with
              | None => mret None
              | Some r => mret (Some {| tr_ancestor := hv_hash (ro_cur_retract r); tr_enacted := reverse (ro_enacted r);
                                        tr_retracted := ro_retracted r |})
              end
          end
      end
  end.

(** ** Inserting *)

Definition new_best_hash (changed : BestHeaderChanged) : option H256 :=
  match changed with
  | CanonChainAppended best_header | BranchBecomingCanonChain best_header _ => Some (hv_hash best_header)
  | NoneChanged => None
  end.

(** The hashes of the enacted blocks, numbered from [number] on. *)
Fixpoint enacted_entries (number : BlockNumber) (enacted : list H256) (hashes : gmap BlockNumber H256)
  : gmap BlockNumber H256 :=
  match enacted with
  | [] => hashes
  | hash :: enacted => enacted_entries (u64_add number 1) enacted (<[number := hash]> hashes)
  end.

Definition new_hash_entries (changed : BestHeaderChanged) : hcM (gmap BlockNumber H256) :=
  match changed with
  | NoneChanged => mret ∅
  | CanonChainAppended best_header =>
      number ← lift_st (hv_number best_header);
      mret {[number := hv_hash best_header]}
  | BranchBecomingCanonChain best_header tree_route =>
      ancestor_number ← block_number (tr_ancestor tree_route);
      ancestor_number ← lift_st (expect ancestor_number);
      number ← lift_st (hv_number best_header);
      mret (<[number := hv_hash best_header]>
        (enacted_entries (u64_add ancestor_number 1) (tr_enacted tree_route) ∅))
  end.

Definition new_detail_entries (header : bytes) : hcM (gmap H256 BlockDetails) :=
  parent_hash ← lift_st (hv_parent_hash header);
  parent_details ← block_details parent_hash;
  parent_details ← lift_st (expect parent_details);
  number ← lift_st (hv_number header);
  score ← lift_st (hv_score header);
  total_score ← lift_st (u256_add (bd_total_score parent_details) score);
  mret {[hv_hash header := {| bd_number := number; bd_total_score := total_score; bd_parent := parent_hash |}]}.

Definition best_header_changed (new_header : bytes) (engine : ChainEngine) : hcM BestHeaderChanged :=
  parent_hash_of_new_header ← lift_st (hv_parent_hash new_header);
  parent_details ← block_details parent_hash_of_new_header;
  parent_details ← lift_st (expect parent_details);
  score ← lift_st (hv_score new_header);
  total_score ← lift_st (u256_add (bd_total_score parent_details) score);
  best_proposal ← best_proposal_header_detail;
  is_new_best ← if bd_total_score best_proposal <? total_score then lift_st (ce_can_change_canon_chain engine new_header)
                else mret false;
  if is_new_best : bool then
    s ← get_st;
    route ← tree_route (hc_best_header_hash s) parent_hash_of_new_header;
    route ← lift_st (expect route);
    new_best_block_hash ← lift_st (ce_best_from_proposal engine new_header);
    new_best_header ←
      if bool_decide (new_best_block_hash = hv_hash new_header) then mret new_header
      else
        header ← block_header new_best_block_hash;
        header ← lift_st (expect header);
        mret (Header_rlp header With);
    mret (match tr_retracted route with
          | [] => CanonChainAppended new_best_header
          | _ => BranchBecomingCanonChain new_best_header route
          end)
  else mret NoneChanged.

(** [extend_with_cache] with [CacheUpdatePolicy::Overwrite]; the keys are different, so the order of the walk is no matter. *)
Definition write_details (details : gmap H256 BlockDetails) : DBTransaction :=
  (λ '(hash, d), WriteDetails hash d) <$> map_to_list details.
Definition write_hashes (hashes : gmap BlockNumber H256) : DBTransaction :=
  (λ '(number, hash), WriteHash number hash) <$> map_to_list hashes.

(** How the best header changes, unless the header is known, and what to write. *)
Definition insert_header (header : bytes) (engine : ChainEngine) : hcM (option BestHeaderChanged * DBTransaction) :=
  let hash := hv_hash header in
  known ← is_known_header hash;
  if known : bool then mret (None, [])
  else
    s ← get_st;
    _ ← lift_st (assert (bool_decide (hc_pending_best_header_hash s = None)));
    _ ← lift_st (assert (bool_decide (hc_pending_best_proposal_block_hash s = None)));
    compressed_header ← lift_st (compress header blocks_swapper);
    changed ← best_header_changed header engine;
    new_hashes ← new_hash_entries changed;
    new_details ← new_detail_entries header;
    let best := new_best_hash changed in
    _ ← modify_st (λ s, set_pending
          (match best with Some best => Some best | None => hc_pending_best_header_hash s end)
          (match best with Some _ => Some hash | None => hc_pending_best_proposal_block_hash s end)
          (new_hashes ∪ hc_pending_hashes s) (new_details ∪ hc_pending_details s) s);
    mret (Some changed,
      [PutHeader hash compressed_header] ++
      match best with Some best => [PutBestHeader best; PutBestProposalHeader hash] | None => [] end ++
      write_details new_details ++ write_hashes new_hashes).

Definition commit : hcM () :=
  modify_st (λ s, {|
    hc_best_header_hash := default (hc_best_header_hash s) (hc_pending_best_header_hash s);
    hc_best_proposal_header_hash := default (hc_best_proposal_header_hash s) (hc_pending_best_proposal_block_hash s);
    hc_header_cache := hc_header_cache s;
    hc_detail_cache := hc_pending_details s ∪ hc_detail_cache s;
    hc_hash_cache := hc_pending_hashes s ∪ hc_hash_cache s;
    hc_db := hc_db s;
    hc_pending_best_header_hash := None; hc_pending_best_proposal_block_hash := None;
    hc_pending_hashes := ∅; hc_pending_details := ∅ |}).

Definition update_best_as_committed (block_hash : H256) : hcM DBTransaction :=
  s ← get_st;
  _ ← lift_st (assert (bool_decide (hc_pending_best_header_hash s = None)));
  prev_best_header ← best_header;
  prev_best_header_number ← lift_st (hv_number prev_best_header);
  committed_header ← block_header_data block_hash;
  committed_header ← lift_st (expect committed_header);
  committed_header_number ← lift_st (hv_number committed_header);
  if committed_header_number <? prev_best_header_number then mret []
  else
    block_detail ← block_details block_hash;
    block_detail ← lift_st (expect block_detail);
    let new_hashes := {[bd_number block_detail := block_hash]} in
    _ ← modify_st (λ s, set_pending (Some block_hash) (Some block_hash)
          (new_hashes ∪ hc_pending_hashes s) (hc_pending_details s) s);
    mret ([PutBestHeader block_hash; PutBestProposalHeader block_hash] ++ write_hashes new_hashes).

(** A chain that holds the genesis header: what [new] finds when the database has no best header. *)
Definition HeaderChain_new (genesis : bytes) (db : ChainDB) : result Empty_set HeaderChain :=
  '(best_header_hash, db) ←
    match db_best_header db with
    | Some hash => Ok (hash, db)
    | None =>
        let hash := hv_hash genesis in
        number ← hv_number genesis;
        score ← hv_score genesis;
        parent ← hv_parent_hash genesis;
        let details := {| bd_number := number; bd_total_score := score; bd_parent := parent |} in
        Ok (hash, db_write [PutHeader hash genesis; WriteDetails hash details; WriteHash number hash;
                            PutBestHeader hash; PutBestProposalHeader hash] db)
    end;
  best_proposal_header_hash ← expect (db_best_proposal_header db);
  Ok {| hc_best_header_hash := best_header_hash; hc_best_proposal_header_hash := best_proposal_header_hash;
        hc_header_cache := ∅; hc_detail_cache := ∅; hc_hash_cache := ∅; hc_db := db;
        hc_pending_best_header_hash := None; hc_pending_best_proposal_block_hash := None;
        hc_pending_hashes := ∅; hc_pending_details := ∅ |}.

(** ** The calls of the client *)

(** The batch is written before it is committed. *)
Definition write_batch (batch : DBTransaction) : hcM () := modify_st (λ s, set_db (db_write batch (hc_db s)) s).

(** [Importer::commit_header] *)
Definition commit_header (header : Header) (engine : ChainEngine) : hcM (option BestHeaderChanged) :=
  '(route, batch) ← insert_header (Header_rlp header With) engine;
  _ ← write_batch batch;
  _ ← commit;
  mret route.

(** [Client::update_best_as_committed], as far as headers go. *)
Definition commit_best (block_hash : H256) : hcM () :=
  batch ← update_best_as_committed block_hash;
  _ ← write_batch batch;
  commit.
End Chain.
