(* ===== verification/HeaderChainFacts.v ===== *)
(** The header chain as a view: maps of details, headers and hashes, and the best header, without caches and pending updates.  Reads
    leave the view alone, routes are paths of the tree of headers, and inserting a header changes the view as it should. *)
From Stdlib Require Import NArith Lia.
From stdpp Require Import base gmap list numbers.
From S2P Require Import Prelude Types Crypto Rlp RlpImpls RlpCompress StakeSpec Header HeaderChain.

Local Open Scope N_scope.

(** * Views of a state *)

(** A call that leaves alone what the state shows, with its outcome, and one that ends with a change of the state. *)
Section Peeks.
Context {St V : Type} {R : St → V → Prop}.

Definition peeks_of {A} (m : stM St Empty_set A) (v : V) (r : result Empty_set A) : Prop :=
  ∀ s, R s v → ∃ s', m s = (r, s') ∧ R s' v.
Definition acts_of {A} (m : stM St Empty_set A) (v : V) (r : result Empty_set A) (f : St → St) : Prop :=
  ∀ s, R s v → ∃ s', m s = (r, f s') ∧ R s' v.

Lemma peeks_ret {A} (x : A) v : peeks_of (mret x) v (Ok x).
Proof. intros s Hs. by exists s. Qed.
Lemma peeks_lift {A} (r : result Empty_set A) v : peeks_of (lift_st r) v r.
Proof. intros s Hs. by exists s. Qed.
Lemma peeks_bind {A B} (m : stM St Empty_set A) (f : A → stM St Empty_set B) v x r :
  peeks_of m v (Ok x) → peeks_of (f x) v r → peeks_of (m ≫= f) v r.
Proof.
  intros Hm Hf s Hs. destruct (Hm s Hs) as (s1 & E1 & Hs1). destruct (Hf s1 Hs1) as (s2 & E2 & Hs2).
  exists s2. split; [|done]. unfold mbind, stM_bind. by rewrite E1.
Qed.
Lemma peeks_lift_bind {A B} (x : A) (f : A → stM St Empty_set B) v r :
  peeks_of (f x) v r → peeks_of (lift_st (Ok x) ≫= f) v r.
Proof. apply peeks_bind, peeks_lift. Qed.
Lemma peeks_get {A} (k : St → stM St Empty_set A) v r :
  (∀ s, R s v → peeks_of (k s) v r) → peeks_of (get_st ≫= k) v r.
Proof. intros Hk s Hs. by apply (Hk s). Qed.

Lemma acts_peeks {A} (m : stM St Empty_set A) v r : peeks_of m v r → acts_of m v r id.
Proof. done. Qed.
Lemma acts_bind {A B} (m : stM St Empty_set A) (k : A → stM St Empty_set B) v x r f :
  peeks_of m v (Ok x) → acts_of (k x) v r f → acts_of (m ≫= k) v r f.
Proof.
  intros Hm Hk s Hs. destruct (Hm s Hs) as (s1 & E1 & Hs1). unfold mbind, stM_bind. rewrite E1. by apply Hk.
Qed.
Lemma acts_get {A} (k : St → stM St Empty_set A) v r f :
  (∀ s, R s v → acts_of (k s) v r f) → acts_of (get_st ≫= k) v r f.
Proof. intros Hk s Hs. by apply (Hk s). Qed.
Lemma acts_modify {A} (g : St → St) (x : A) v f :
  (∀ s, R s v → g s = f s) → acts_of (_ ← modify_st g; mret x) v (Ok x) f.
Proof. intros Hg s Hs. exists s. split; [|done]. by rewrite <-Hg. Qed.
End Peeks.
Arguments peeks_of {St V} R {A} m v r.
Arguments acts_of {St V} R {A} m v r f.

Section Facts.
Context `{CryptoLaws}.

(** * Headers in bytes *)

(** The bytes of a header with its seal. *)
Definition header_bytes (h : Header) (seals : list rlp_item) : bytes := enc (List (header_items h seals)).
Definition good_header (h : Header) (seals : list rlp_item) : Prop :=
  header_ok h seals ∧ fits (List (header_items h seals)).

Lemma trusted_val_at {T} (c : Codec T) `{!CodecOk c} l k x :
  fits (List l) → l !! N.to_nat k = Some (item c x) → wf c x →
  Rlp_val_at (E := Empty_set) (decode c) (enc (List l)) k = Ok x.
Proof.
  intros Hf Hk Hw. unfold Rlp_val_at, Rlp_at. rewrite (at_enc l k (item c x)); [|done|by apply fits_short|done].
  cbn [trusted]. rewrite Ok_bind. unfold Rlp_as_val. rewrite codec_decodes; [done|done|].
  eapply fits_elem; [done|]. by eapply list_elem_of_lookup_2.
Qed.

Lemma header_views h seals :
  good_header h seals → let b := header_bytes h seals in
  hv_number (E := Empty_set) b = Ok (hd_number h) ∧ hv_parent_hash (E := Empty_set) b = Ok (hd_parent_hash h) ∧
  hv_score (E := Empty_set) b = Ok (hd_score h) ∧ Header_rlp h With = b.
Proof.
  intros [(Hs & Hp & _ & _ & _ & Hsc & Hn & _) Hf] b. split_and!.
  - by apply (trusted_val_at u64_codec).
  - by apply (trusted_val_at H256_codec).
  - by apply (trusted_val_at U256_codec).
  - by apply Header_rlp_bytes.
Qed.

(** What is decoded is encoded to the same bytes. *)
Lemma header_again h seals :
  good_header h seals →
  ∃ h', encoded_decode (E := Empty_set) (header_bytes h seals) = Ok h' ∧ Header_rlp h' With = header_bytes h seals.
Proof.
  intros [Hok Hf]. exists (remembered h seals). split.
  - unfold encoded_decode, Rlp_as_val, header_bytes. by rewrite Header_decodes.
  - apply (Header_rlp_bytes (remembered h seals) seals); [apply Hok|exact Hf].
Qed.

(** * The view *)

Record view := {
  vw_details : gmap H256 BlockDetails;
  vw_headers : gmap H256 bytes;
  vw_hashes : gmap N H256;
  vw_best : H256;
  vw_proposal : H256;
}.

(** The chain shows the view: the database holds it, the caches agree with the database and nothing is pending. *)
Record shows (s : HeaderChain) (v : view) : Prop := {
  sh_details : db_details (hc_db s) = vw_details v;
  sh_headers hash : match vw_headers v !! hash with
    | Some b => ∃ c, db_headers (hc_db s) !! hash = Some c ∧ decompress c blocks_swapper = Ok b
    | None => db_headers (hc_db s) !! hash = None
    end;
  sh_hashes : db_hashes (hc_db s) = vw_hashes v;
  sh_best : hc_best_header_hash s = vw_best v;
  sh_proposal : hc_best_proposal_header_hash s = vw_proposal v;
  sh_db_best : db_best_header (hc_db s) = Some (vw_best v);
  sh_db_proposal : db_best_proposal_header (hc_db s) = Some (vw_proposal v);
  sh_header_cache : hc_header_cache s ⊆ vw_headers v;
  sh_detail_cache : hc_detail_cache s ⊆ vw_details v;
  sh_hash_cache : hc_hash_cache s ⊆ vw_hashes v;
  sh_no_best : hc_pending_best_header_hash s = None;
  sh_no_proposal : hc_pending_best_proposal_block_hash s = None;
  sh_no_hashes : hc_pending_hashes s = ∅;
  sh_no_details : hc_pending_details s = ∅;
}.

Local Abbreviation peeks := (peeks_of shows).

(** Caches that agree with the view can be put in the place of the old ones. *)
Lemma shows_caches s v headers details hashes :
  shows s v → headers ⊆ vw_headers v → details ⊆ vw_details v → hashes ⊆ vw_hashes v →
  shows (set_caches headers details hashes s) v.
Proof. intros [] ? ? ?. by split. Qed.

Lemma read_with_cache_agrees `{Countable K} {V} (m cache : gmap K V) (k : K) :
  cache ⊆ m → ∃ cache', read_with_cache (m !! k) cache k = (m !! k, cache') ∧ cache' ⊆ m.
Proof.
  intros Hsub. unfold read_with_cache. destruct (cache !! k) as [x|] eqn:Hc.
  - exists cache. split; [|done]. by rewrite (lookup_weaken _ _ _ _ Hc Hsub).
  - destruct (m !! k) as [x|] eqn:Hm; [|by exists cache]. exists (<[k := x]> cache). split; [done|].
    by apply insert_subseteq_l.
Qed.

Lemma peeks_details hash v : peeks (block_details hash) v (Ok (vw_details v !! hash)).
Proof.
  intros s Hs. unfold block_details. rewrite (sh_details _ _ Hs).
  destruct (read_with_cache_agrees _ _ hash (sh_detail_cache _ _ Hs)) as (cache & -> & Hc). eexists. split; [done|].
  apply shows_caches; [done|apply Hs|done|apply Hs].
Qed.

Lemma peeks_known hash v : peeks (is_known_header hash) v (Ok (bool_decide (is_Some (vw_details v !! hash)))).
Proof.
  intros s Hs. exists s. split; [|done]. unfold is_known_header. rewrite (sh_details _ _ Hs).
  destruct (hc_detail_cache s !! hash) as [d|] eqn:Hd.
  - rewrite (lookup_weaken _ _ _ _ Hd (sh_detail_cache _ _ Hs)), bool_decide_eq_true_2; [done|by eexists].
  - destruct (vw_details v !! hash); [by rewrite bool_decide_eq_true_2|by rewrite bool_decide_eq_false_2 by by intros []].
Qed.

Lemma peeks_header hash v : peeks (block_header_data hash) v (Ok (vw_headers v !! hash)).
Proof.
  intros s Hs. unfold block_header_data. destruct (hc_header_cache s !! hash) as [b|] eqn:Hc.
  - exists s. split; [|done]. by rewrite (lookup_weaken _ _ _ _ Hc (sh_header_cache _ _ Hs)).
  - pose proof (sh_headers _ _ Hs hash) as Hh. destruct (vw_headers v !! hash) as [b|] eqn:Hb.
    + destruct Hh as (c & -> & ->). eexists. split; [done|].
      apply shows_caches; [done|by apply insert_subseteq_l, Hs|apply Hs|apply Hs].
    + rewrite Hh. by exists s.
Qed.

Lemma peeks_best v b : vw_headers v !! vw_best v = Some b → peeks best_header v (Ok b).
Proof.
  intros Hb. unfold best_header. apply peeks_get. intros s Hs. rewrite (sh_best _ _ Hs).
  eapply peeks_bind; [apply peeks_header|]. rewrite Hb. apply peeks_lift.
Qed.

Lemma peeks_proposal v d : vw_details v !! vw_proposal v = Some d → peeks best_proposal_header_detail v (Ok d).
Proof.
  intros Hd. unfold best_proposal_header_detail. apply peeks_get. intros s Hs. rewrite (sh_proposal _ _ Hs).
  eapply peeks_bind; [apply peeks_details|]. rewrite Hd. apply peeks_lift.
Qed.

Lemma number_key_small n : n < u32_size → number_key n = n.
Proof. apply N.mod_small. Qed.

Lemma peeks_hash n v : n < u32_size → peeks (read_hash n) v (Ok (vw_hashes v !! n)).
Proof.
  intros Hn s Hs. unfold read_hash. rewrite (sh_hashes _ _ Hs), number_key_small by done.
  destruct (read_with_cache_agrees _ _ n (sh_hash_cache _ _ Hs)) as (cache & -> & Hc). eexists. split; [done|].
  apply shows_caches; [done|apply Hs|apply Hs|done].
Qed.

(** * The tree of headers *)

Section Tree.
Context (D : gmap H256 BlockDetails) (genesis : H256).

(** The ancestor [k] steps up, and the headers on the way to it. *)
Fixpoint anc (k : nat) (h : H256) : option H256 :=
  match k with
  | O => Some h
  | S k => d ← D !! h; anc k (bd_parent d)
  end.
Fixpoint trail (k : nat) (h : H256) : list H256 :=
  match k with
  | O => []
  | S k => h :: match D !! h with Some d => trail k (bd_parent d) | None => [] end
  end.

(** Every header but the genesis has its parent, one number below. *)
Record tree : Prop := {
  tree_root : ∃ d, D !! genesis = Some d ∧ bd_number d = 0;
  tree_parent h d : D !! h = Some d →
    (h = genesis ∧ bd_number d = 0) ∨
    (∃ d', D !! bd_parent d = Some d' ∧ bd_number d = bd_number d' + 1);
}.

Lemma anc_add k n h h' : anc k h = Some h' → anc (k + n) h = anc n h'.
Proof.
  revert h. induction k as [|k IH]; intros h; simpl; [by intros [= ->]|].
  destruct (D !! h) as [d|]; simpl; [apply IH|done].
Qed.

Lemma trail_snoc k h h' : anc k h = Some h' → trail (k + 1) h = trail k h ++ [h'].
Proof.
  revert h. induction k as [|k IH]; intros h; simpl; [intros [= ->]; by destruct (D !! h')|].
  destruct (D !! h) as [d|]; simpl; [|done]. intros Ha. by rewrite IH.
Qed.

Context (Htree : tree).

Lemma parent_known h d : D !! h = Some d → 0 < bd_number d →
  ∃ d', D !! bd_parent d = Some d' ∧ bd_number d = bd_number d' + 1.
Proof. intros Hd Hn. destruct (tree_parent Htree h d Hd) as [[_ ?]|?]; [lia|done]. Qed.

Lemma only_genesis h d : D !! h = Some d → bd_number d = 0 → h = genesis.
Proof. intros Hd Hn. destruct (tree_parent Htree h d Hd) as [[? _]|(d' & _ & ?)]; [done|lia]. Qed.

Lemma anc_known k h d : D !! h = Some d → N.of_nat k ≤ bd_number d →
  ∃ h' d', anc k h = Some h' ∧ D !! h' = Some d' ∧ bd_number d' + N.of_nat k = bd_number d.
Proof.
  revert h d. induction k as [|k IH]; intros h d Hd Hk; simpl; [exists h, d; split_and!; [done|done|lia]|].
  destruct (parent_known h d Hd) as (d' & Hd' & Hn); [lia|]. rewrite Hd. simpl.
  destruct (IH _ _ Hd') as (h2 & d2 & Ha & Hd2 & Hn2); [lia|]. exists h2, d2. split_and!; [done|done|lia].
Qed.

Lemma trail_lookup k h d i : D !! h = Some d → N.of_nat k ≤ bd_number d → (i < k)%nat → trail k h !! i = anc i h.
Proof.
  revert h d i. induction k as [|k IH]; intros h d i Hd Hk Hi; [lia|].
  destruct (parent_known h d Hd) as (d' & Hd' & Hn); [lia|]. destruct i as [|i]; [done|]. simpl. rewrite Hd. simpl.
  apply (IH _ d'); [done|lia|lia].
Qed.
Lemma trail_length k h d : D !! h = Some d → N.of_nat k ≤ bd_number d → length (trail k h) = k.
Proof.
  revert h d. induction k as [|k IH]; intros h d Hd Hk; [done|].
  destruct (parent_known h d Hd) as (d' & Hd' & Hn); [lia|]. simpl. rewrite Hd. f_equal. apply (IH _ d'); [done|lia].
Qed.

(** * The index of the canonical chain *)

(** Up to the number of [best], the index has the ancestors of [best]. *)
Definition canonical (I : gmap N H256) (best : H256) : Prop :=
  ∀ d n, D !! best = Some d → n ≤ bd_number d → I !! n = anc (N.to_nat (bd_number d - n)) best.

(** A header on top of the one whose chain the index has. *)
Lemma canonical_push I p dp h d :
  canonical I p → D !! p = Some dp → D !! h = Some d → bd_parent d = p → bd_number d = bd_number dp + 1 →
  canonical (<[bd_number d := h]> I) h.
Proof.
  intros HI Hp Hh <- Hn d0 n Hd0 Hle. rewrite Hh in Hd0. injection Hd0 as <-. destruct (decide (n = bd_number d)) as [->|Hne].
  - rewrite lookup_insert_eq. by replace (N.to_nat _) with 0%nat by lia.
  - rewrite lookup_insert_ne by done. rewrite (HI dp n) by (done || lia).
    replace (N.to_nat (bd_number d - n)) with (S (N.to_nat (bd_number dp - n))) by lia. simpl. by rewrite Hh.
Qed.
Lemma canonical_again I p dp : canonical I p → D !! p = Some dp → canonical (<[bd_number dp := p]> I) p.
Proof.
  intros HI Hp d n Hd Hle. rewrite Hp in Hd. injection Hd as <-. destruct (decide (n = bd_number dp)) as [->|Hne].
  - rewrite lookup_insert_eq. by replace (N.to_nat _) with 0%nat by lia.
  - rewrite lookup_insert_ne by done. by apply HI.
Qed.

(** Another header on the parent of the one whose chain the index has. *)
Lemma canonical_sibling I p dp h d :
  canonical I p → D !! p = Some dp → D !! h = Some d → 0 < bd_number d → bd_parent d = bd_parent dp → bd_number d = bd_number dp →
  canonical (<[bd_number d := h]> I) h.
Proof.
  intros HI Hp Hh Hpos Hpar Hn. destruct (parent_known h d Hh Hpos) as (d' & Hd' & Hn').
  apply (canonical_push _ (bd_parent d) d'); [|done..]. intros d0 n Hd0 Hle. rewrite Hd' in Hd0. injection Hd0 as <-.
  rewrite (HI dp n) by (done || lia). replace (N.to_nat (bd_number dp - n)) with (S (N.to_nat (bd_number d' - n))) by lia.
  simpl. by rewrite Hp, Hpar.
Qed.

Lemma enacted_lookup l start I n :
  start + N.of_nat (length l) < u64_size →
  enacted_entries start l I !! n =
    if decide (start ≤ n < start + N.of_nat (length l)) then l !! N.to_nat (n - start) else I !! n.
Proof.
  revert start I. induction l as [|h l IH]; intros start I Hs; simpl in *; [by rewrite decide_False by lia|].
  assert (u64_add start 1 = start + 1) as -> by (unfold u64_add; apply N.mod_small; lia).
  rewrite IH by lia. repeat case_decide; try lia; try done.
  - by replace (N.to_nat (n - start)) with (S (N.to_nat (n - (start + 1)))) by lia.
  - replace n with start by lia. rewrite lookup_insert_eq. by replace (N.to_nat _) with 0%nat by lia.
  - by rewrite lookup_insert_ne by lia.
Qed.

(** The index that had the chain of [b] has the chain of [p] when what is enacted on the way from their common ancestor is entered. *)
Lemma canonical_route I b p db dp i j a da :
  canonical I b → D !! b = Some db → D !! p = Some dp → D !! a = Some da → anc i b = Some a → anc j p = Some a →
  bd_number da + N.of_nat i = bd_number db → bd_number da + N.of_nat j = bd_number dp → bd_number dp < u32_size →
  canonical (enacted_entries (bd_number da + 1) (reverse (trail j p)) ∅ ∪ I) p.
Proof.
  intros HI Hb Hp Ha Hai Haj Hni Hnj Hs d n Hd Hle. rewrite Hp in Hd. injection Hd as <-.
  pose proof (trail_length j p dp Hp ltac:(lia)) as Hlen. assert (u32_size < u64_size) by done.
  destruct (decide (bd_number da < n)) as [Hlt|Hge].
  - destruct (anc_known (N.to_nat (bd_number dp - n)) p dp Hp) as (h' & d' & Hh' & _); [lia|]. rewrite Hh'.
    apply lookup_union_Some_l. rewrite enacted_lookup, length_reverse, Hlen, decide_True by (rewrite ?length_reverse; lia).
    rewrite reverse_lookup by lia. rewrite Hlen. rewrite (trail_lookup j p dp) by (done || lia).
    by replace (j - S (N.to_nat (n - (bd_number da + 1))))%nat with (N.to_nat (bd_number dp - n)) by lia.
  - rewrite lookup_union_r.
    2: { rewrite enacted_lookup, decide_False by (rewrite ?length_reverse; lia). done. }
    rewrite (HI db n) by (done || lia).
    replace (N.to_nat (bd_number db - n)) with (i + N.to_nat (bd_number da - n))%nat by lia.
    replace (N.to_nat (bd_number dp - n)) with (j + N.to_nat (bd_number da - n))%nat by lia.
    by rewrite (anc_add _ _ _ _ Hai), (anc_add _ _ _ _ Haj).
Qed.
End Tree.

Lemma anc_weaken D D' k h a : D ⊆ D' → anc D k h = Some a → anc D' k h = Some a.
Proof.
  intros Hsub. revert h. induction k as [|k IH]; intros h; [done|]. simpl.
  destruct (D !! h) as [d|] eqn:Hd; [|done]. rewrite (lookup_weaken _ _ _ _ Hd Hsub). apply IH.
Qed.
Lemma canonical_weaken D D' genesis I p dp :
  tree D genesis → D ⊆ D' → D !! p = Some dp → canonical D I p → canonical D' I p.
Proof.
  intros Ht Hsub Hp HI d n Hd Hle. rewrite (lookup_weaken _ _ _ _ Hp Hsub) in Hd. simplify_eq.
  destruct (anc_known D genesis Ht (N.to_nat (bd_number d - n)) p d Hp) as (a & da & Ha & _); [lia|].
  rewrite (HI d n) by done. by rewrite Ha, (anc_weaken _ _ _ _ _ Hsub Ha).
Qed.

(** * Routes *)

(** The bytes held for a header tell what its details tell, and a header that is decoded from them is encoded to them. *)
Record stored (v : view) (h : H256) (d : BlockDetails) (b : bytes) : Prop := {
  st_details : vw_details v !! h = Some d;
  st_header : vw_headers v !! h = Some b;
  st_hash : hv_hash b = h;
  st_number : hv_number (E := Empty_set) b = Ok (bd_number d);
  st_parent : hv_parent_hash (E := Empty_set) b = Ok (bd_parent d);
  st_again : ∃ h', encoded_decode (E := Empty_set) b = Ok h' ∧ Header_rlp h' With = b;
}.

Section Routes.
Context (v : view) (genesis : H256).
Context (Htree : tree (vw_details v) genesis).
Context (Hstored : ∀ h d, vw_details v !! h = Some d → ∃ b, stored v h d b).

(** [b] is the header [i] steps up from [f], and [l] the hashes on the way. *)
Record climbed (f : H256) (i : nat) (l : list H256) (h : H256) (d : BlockDetails) (b : bytes) : Prop := {
  cb_anc : anc (vw_details v) i f = Some h;
  cb_stored : stored v h d b;
  cb_trail : l = trail (vw_details v) i f;
  cb_number df : vw_details v !! f = Some df → bd_number d + N.of_nat i = bd_number df;
}.

Lemma climb_up f i l h d b :
  climbed f i l h d b → 0 < bd_number d →
  ∃ h' d' b', peeks (parent_of b) v (Ok (Some b')) ∧ climbed f (i + 1) (l ++ [hv_hash b]) h' d' b' ∧
    bd_number d = bd_number d' + 1.
Proof.
  intros [Ha Hs -> Hf] Hn. destruct (parent_known _ _ Htree h d (st_details _ _ _ _ Hs) Hn) as (d' & Hd' & Hnum).
  destruct (Hstored _ _ Hd') as (b' & Hs'). exists (bd_parent d), d', b'. split_and!; [| |done].
  - unfold parent_of. rewrite (st_parent _ _ _ _ Hs). apply peeks_lift_bind. rewrite <-(st_header _ _ _ _ Hs').
    apply peeks_header.
  - split; [|done| |].
    + rewrite (anc_add _ _ _ _ _ Ha). simpl. by rewrite (st_details _ _ _ _ Hs).
    + by rewrite (st_hash _ _ _ _ Hs), (trail_snoc _ _ _ _ Ha).
    + intros df Hdf. specialize (Hf df Hdf). lia.
Qed.

(** Where the two loops stand. *)
Record standing (from to : H256) (r : Route) (i j : nat) (hr he : H256) (dr de : BlockDetails) : Prop := {
  sd_retract : climbed from i (ro_retracted r) hr dr (ro_cur_retract r);
  sd_enact : climbed to j (ro_enacted r) he de (ro_cur_enact r);
}.

Lemma level_ok from to fuel r i j hr he dr de :
  standing from to r i j hr he dr de →
  (bd_number dr - bd_number de) + (bd_number de - bd_number dr) ≤ N.of_nat fuel →
  ∃ r' i' j' hr' he' dr' de', peeks (route_level fuel r) v (Ok (Some r')) ∧ standing from to r' i' j' hr' he' dr' de' ∧
    bd_number dr' = bd_number de' ∧ bd_number dr' = bd_number dr `min` bd_number de.
Proof.
  revert r i j hr he dr de. induction fuel as [|fuel IH]; intros r i j hr he dr de Hst Hf; destruct Hst as [Hr He];
    pose proof (st_number _ _ _ _ (cb_stored _ _ _ _ _ _ Hr)) as Hnr; pose proof (st_number _ _ _ _ (cb_stored _ _ _ _ _ _ He)) as Hne.
  - exists r, i, j, hr, he, dr, de. split_and!; [|by split|lia|lia]. simpl. rewrite Hnr, Hne. do 2 apply peeks_lift_bind.
    rewrite (proj2 (N.eqb_eq _ _)) by lia. apply peeks_ret.
  - destruct (N.lt_trichotomy (bd_number dr) (bd_number de)) as [Hlt|[Heq|Hlt]].
    + destruct (climb_up _ _ _ _ _ _ He) as (h' & d' & b' & Hp & He' & Hn); [lia|].
      edestruct (IH {| ro_cur_retract := ro_cur_retract r; ro_cur_enact := b'; ro_retracted := ro_retracted r;
                       ro_enacted := ro_enacted r ++ [hv_hash (ro_cur_enact r)] |})
        as (r' & i' & j' & hr' & he' & dr' & de' & Hrun & Hst & Heq & Hle); [split; [exact Hr|exact He']|lia|].
      exists r', i', j', hr', he', dr', de'. split_and!; [|done|done|lia]. simpl. rewrite Hnr, Hne. do 2 apply peeks_lift_bind.
      rewrite (proj2 (N.eqb_neq _ _)), (proj2 (N.ltb_ge _ _)) by lia. by eapply peeks_bind.
    + exists r, i, j, hr, he, dr, de. split_and!; [|by split|lia|lia]. simpl. rewrite Hnr, Hne. do 2 apply peeks_lift_bind.
      rewrite (proj2 (N.eqb_eq _ _)) by lia. apply peeks_ret.
    + destruct (climb_up _ _ _ _ _ _ Hr) as (h' & d' & b' & Hp & Hr' & Hn); [lia|].
      edestruct (IH {| ro_cur_retract := b'; ro_cur_enact := ro_cur_enact r;
                       ro_retracted := ro_retracted r ++ [hv_hash (ro_cur_retract r)]; ro_enacted := ro_enacted r |})
        as (r' & i' & j' & hr' & he' & dr' & de' & Hrun & Hst & Heq & Hle); [split; [exact Hr'|exact He]|lia|].
      exists r', i', j', hr', he', dr', de'. split_and!; [|done|done|lia]. simpl. rewrite Hnr, Hne. do 2 apply peeks_lift_bind.
      rewrite (proj2 (N.eqb_neq _ _)), (proj2 (N.ltb_lt _ _)) by lia. by eapply peeks_bind.
Qed.

Lemma meet_ok from to fuel r i j hr he dr de :
  standing from to r i j hr he dr de → bd_number dr = bd_number de → bd_number dr ≤ N.of_nat fuel →
  ∃ r' k h d, peeks (route_meet fuel r) v (Ok (Some r')) ∧ standing from to r' (i + k) (j + k) h h d d ∧
    ∀ l, (l < k)%nat → anc (vw_details v) (i + l) from ≠ anc (vw_details v) (j + l) to.
Proof.
  revert r i j hr he dr de. induction fuel as [|fuel IH]; intros r i j hr he dr de Hst Heq Hf; destruct Hst as [Hr He];
    pose proof (cb_stored _ _ _ _ _ _ Hr) as Hsr; pose proof (cb_stored _ _ _ _ _ _ He) as Hse;
    destruct (decide (hr = he)) as [<-|Hne].
  1,3: assert (de = dr) as -> by (pose proof (st_details _ _ _ _ Hsr); pose proof (st_details _ _ _ _ Hse); congruence);
    exists r, O, hr, dr; rewrite !Nat.add_0_r; split_and!; [|by split|lia]; simpl; rewrite (st_hash _ _ _ _ Hsr), (st_hash _ _ _ _ Hse);
    rewrite bool_decide_eq_true_2 by done; apply peeks_ret.
  - destruct Hne. rewrite (only_genesis _ _ Htree hr dr), (only_genesis _ _ Htree he de); [done|apply Hse|lia|apply Hsr|lia].
  - assert (0 < bd_number dr) as Hpos.
    { destruct (decide (bd_number dr = 0)) as [Hz|]; [|lia]. destruct Hne.
      rewrite (only_genesis _ _ Htree hr dr), (only_genesis _ _ Htree he de); [done|apply Hse|lia|apply Hsr|lia]. }
    destruct (climb_up _ _ _ _ _ _ Hr Hpos) as (hr' & dr' & br' & Hpr & Hr' & Hnr).
    destruct (climb_up _ _ _ _ _ _ He) as (he' & de' & be' & Hpe & He' & Hn'); [lia|].
    edestruct (IH {| ro_cur_retract := br'; ro_cur_enact := be';
                     ro_retracted := ro_retracted r ++ [hv_hash (ro_cur_retract r)];
                     ro_enacted := ro_enacted r ++ [hv_hash (ro_cur_enact r)] |})
      as (r' & k & h & d & Hrun & Hst & Hdiff); [split; [exact Hr'|exact He']|lia|lia|].
    exists r', (S k), h, d. rewrite <-!Nat.add_assoc in Hst. split_and!; [|done|].
    2: { intros [|l] Hl; [rewrite !Nat.add_0_r, (cb_anc _ _ _ _ _ _ Hr), (cb_anc _ _ _ _ _ _ He); congruence|].
         specialize (Hdiff l). rewrite <-!Nat.add_assoc in Hdiff. apply Hdiff. lia. }
    simpl. rewrite (st_hash _ _ _ _ Hsr), (st_hash _ _ _ _ Hse).
    rewrite bool_decide_eq_false_2 by done. eapply peeks_bind; [done|]. simpl. eapply peeks_bind; [done|]. simpl.
    by rewrite <-(st_hash _ _ _ _ Hsr), <-(st_hash _ _ _ _ Hse).
Qed.

(** The route between two known headers: what is retracted and what is enacted are the ways up to a common ancestor. *)
Lemma tree_route_ok from to df dt :
  vw_details v !! from = Some df → vw_details v !! to = Some dt →
  ∃ i j a da, peeks (tree_route from to) v (Ok (Some {| tr_ancestor := a; tr_retracted := trail (vw_details v) i from;
                                                       tr_enacted := reverse (trail (vw_details v) j to) |})) ∧
    anc (vw_details v) i from = Some a ∧ anc (vw_details v) j to = Some a ∧ vw_details v !! a = Some da ∧
    bd_number da + N.of_nat i = bd_number df ∧ bd_number da + N.of_nat j = bd_number dt ∧
    ∀ n, bd_number da < n → n ≤ bd_number df → n ≤ bd_number dt →
      anc (vw_details v) (N.to_nat (bd_number df - n)) from ≠ anc (vw_details v) (N.to_nat (bd_number dt - n)) to.
Proof.
  intros Hdf Hdt. destruct (Hstored _ _ Hdf) as (bf & Hbf). destruct (Hstored _ _ Hdt) as (bt & Hbt).
  set (fuel := N.to_nat (bd_number df + bd_number dt)).
  edestruct (level_ok from to fuel {| ro_cur_retract := bf; ro_cur_enact := bt; ro_retracted := []; ro_enacted := [] |} 0 0)
    as (r1 & i1 & j1 & hr1 & he1 & dr1 & de1 & Hrun1 & Hst1 & Heq1 & Hle1); [split; (split; [done|done|done|]); intros; simplify_eq; lia|simpl; lia|].
  edestruct (meet_ok from to fuel r1) as (r2 & k & a & da & Hrun2 & Hst2 & Hdiff); [done|done|lia|].
  pose proof (cb_number _ _ _ _ _ _ (sd_retract _ _ _ _ _ _ _ _ _ Hst1) df Hdf) as Hi1.
  pose proof (cb_number _ _ _ _ _ _ (sd_enact _ _ _ _ _ _ _ _ _ Hst1) dt Hdt) as Hj1.
  destruct Hst2 as [[Hai Hsa Hti Hni] [Haj _ Htj Hnj]]. specialize (Hni df Hdf). specialize (Hnj dt Hdt).
  exists (i1 + k)%nat, (j1 + k)%nat, a, da. split_and!; [|done|done|apply Hsa|done|done|].
  2: { intros n Hlt Hf Ht. specialize (Hdiff (N.to_nat (bd_number dr1 - n)) ltac:(lia)).
       replace (N.to_nat (bd_number df - n)) with (i1 + N.to_nat (bd_number dr1 - n))%nat by lia.
       by replace (N.to_nat (bd_number dt - n)) with (j1 + N.to_nat (bd_number dr1 - n))%nat by lia. }
  unfold tree_route. eapply peeks_bind; [apply peeks_header|]. rewrite (st_header _ _ _ _ Hbf).
  eapply peeks_bind; [apply peeks_header|]. rewrite (st_header _ _ _ _ Hbt), (st_number _ _ _ _ Hbf), (st_number _ _ _ _ Hbt).
  do 2 apply peeks_lift_bind. eapply peeks_bind; [exact Hrun1|]. simpl. eapply peeks_bind; [exact Hrun2|]. simpl.
  rewrite (st_hash _ _ _ _ Hsa), Hti, Htj. apply peeks_ret.
Qed.
End Routes.
End Facts.
