(* ===== verification/HeaderChainStep.v ===== *)
(** The calls that change the header chain, on its view: what is inserted or committed is written to the database and taken over from
    the pending updates, so that the chain shows the new view. *)
From Stdlib Require Import NArith Lia.
From stdpp Require Import base gmap list numbers.
From S2P Require Import Prelude Types Crypto Rlp RlpImpls RlpCompress StakeSpec Header HeaderChain HeaderChainFacts.

Local Open Scope N_scope.

(** * What is written *)

Definition small_keys (E : gmap N H256) : Prop := ∀ n hash, E !! n = Some hash → n < u32_size.

Definition with_hashes (E : gmap N H256) (db : ChainDB) : ChainDB := {|
  db_headers := db_headers db; db_details := db_details db; db_hashes := E ∪ db_hashes db;
  db_best_header := db_best_header db; db_best_proposal_header := db_best_proposal_header db |}.

Lemma db_write_hashes E db : small_keys E → db_write (write_hashes E) db = with_hashes E db.
Proof.
  intros HE. unfold write_hashes, db_write. assert (∀ p, p ∈ map_to_list E → p.1 < u32_size) as Hl.
  { intros [n hash] Hp%elem_of_map_to_list. by eapply HE. }
  rewrite <-(list_to_map_to_list E) at 2. pose proof (NoDup_fst_map_to_list E) as Hnd. revert db Hl Hnd.
  generalize (map_to_list E). intros l. induction l as [|[n hash] l IH]; intros db Hl Hnd.
  - destruct db. unfold with_hashes. simpl. by rewrite (left_id_L ∅ (∪)).
  - simpl in *. apply list.NoDup_cons in Hnd as [Hn Hnd]. rewrite IH; [|intros p Hp; apply Hl; by right|done].
    unfold with_hashes. simpl. rewrite number_key_small by (apply (Hl (n, hash)); left). f_equal.
    rewrite <-insert_union_l, insert_union_r; [done|]. by apply not_elem_of_list_to_map_1.
Qed.

Section Steps.
Context `{CryptoLaws}.
Local Abbreviation peeks := (peeks_of shows).
Local Abbreviation acts := (acts_of shows).

(** The view with one more header, when the best header becomes [best], if it changes, and the index gets [E]. *)
Definition put_view (v : view) (hash : H256) (b : bytes) (d : BlockDetails) (E : gmap N H256) (best : option H256) : view := {|
  vw_details := <[hash := d]> (vw_details v); vw_headers := <[hash := b]> (vw_headers v); vw_hashes := E ∪ vw_hashes v;
  vw_best := default (vw_best v) best; vw_proposal := match best with Some _ => hash | None => vw_proposal v end |}.

Definition put_batch (hash : H256) (c : bytes) (d : BlockDetails) (E : gmap N H256) (best : option H256) : DBTransaction :=
  [PutHeader hash c] ++ match best with Some best => [PutBestHeader best; PutBestProposalHeader hash] | None => [] end ++
  [WriteDetails hash d] ++ write_hashes E.

Lemma db_write_app l k db : db_write (l ++ k) db = db_write k (db_write l db).
Proof. apply foldl_app. Qed.

(** The pending updates and the batch, taken together, are the new view. *)
Lemma put_shows s v hash b c d E best :
  shows s v → vw_details v !! hash = None → vw_headers v !! hash = None → decompress c blocks_swapper = Ok b → small_keys E →
  ∃ s', (_ ← write_batch (put_batch hash c d E best); commit)
      (set_pending best (match best with Some _ => Some hash | None => None end) E {[hash := d]} s) = (Ok (), s') ∧
    shows s' (put_view v hash b d E best).
Proof.
  intros Hs Hd Hh Hc HE. eexists. split; [done|]. unfold put_batch. rewrite !db_write_app, db_write_hashes by done.
  assert (∀ h, match <[hash := b]> (vw_headers v) !! h with
    | Some b => ∃ c', <[hash := c]> (db_headers (hc_db s)) !! h = Some c' ∧ decompress c' blocks_swapper = Ok b
    | None => <[hash := c]> (db_headers (hc_db s)) !! h = None end) as Hheaders.
  { intros h. destruct (decide (hash = h)) as [<-|Hne]; [rewrite !lookup_insert_eq; by exists c|].
    rewrite !lookup_insert_ne by done. apply Hs. }
  destruct Hs. split; destruct best; simpl in *; try done; try congruence;
    try (by apply map_union_mono_l); try (by apply (transitivity (y := vw_headers v)), insert_subseteq).
  all: rewrite <-insert_union_singleton_l; by apply insert_mono.
Qed.

(** The batch is written and the pending updates are taken over. *)
Definition leaves (f : HeaderChain → HeaderChain) (batch : DBTransaction) (v v' : view) : Prop :=
  ∀ s, shows s v → ∃ s', (_ ← write_batch batch; commit) (f s) = (Ok (), s') ∧ shows s' v'.

Lemma commit_header_leaves s v v' h engine x batch f :
  acts (insert_header (Header_rlp h With) engine) v (Ok (x, batch)) f → leaves f batch v v' → shows s v →
  ∃ s', commit_header h engine s = (Ok x, s') ∧ shows s' v'.
Proof.
  intros Hm Hw Hs. destruct (Hm s Hs) as (s1 & E1 & Hs1). destruct (Hw s1 Hs1) as (s' & E2 & Hs'). exists s'. split; [|done].
  unfold commit_header, mbind, stM_bind in *. rewrite E1. destruct (write_batch batch (f s1)) as [[[]| |] s2]; try done.
  by rewrite E2.
Qed.
Lemma commit_best_leaves s v v' hash batch f :
  acts (update_best_as_committed hash) v (Ok batch) f → leaves f batch v v' → shows s v →
  ∃ s', commit_best hash s = (Ok (), s') ∧ shows s' v'.
Proof.
  intros Hm Hw Hs. destruct (Hm s Hs) as (s1 & E1 & Hs1). destruct (Hw s1 Hs1) as (s' & E2 & Hs'). exists s'. split; [|done].
  unfold commit_best, mbind at 1, stM_bind at 1. by rewrite E1.
Qed.

(** Nothing to write, nothing pending. *)
Lemma leaves_nothing v : leaves id [] v v.
Proof.
  intros s Hs. eexists. split; [done|]. destruct Hs. split; simpl in *;
    rewrite ?sh_no_best, ?sh_no_proposal, ?sh_no_details, ?sh_no_hashes, ?(left_id_L ∅ (∪)); done.
Qed.

(** A known header changes nothing. *)
Lemma insert_header_known v b engine :
  is_Some (vw_details v !! hv_hash b) → acts (insert_header b engine) v (Ok (None, [])) id.
Proof.
  intros Hk. unfold insert_header. eapply acts_bind; [apply peeks_known|]. rewrite bool_decide_eq_true_2 by done.
  apply acts_peeks, peeks_ret.
Qed.

(** Another one is put where the chain finds its place. *)
Lemma insert_header_puts v h seals engine changed E d :
  let b := header_bytes h seals in let hash := hv_hash b in
  good_header h seals → vw_details v !! hash = None → vw_headers v !! hash = None →
  peeks (best_header_changed b engine) v (Ok changed) → peeks (new_hash_entries changed) v (Ok E) →
  peeks (new_detail_entries b) v (Ok {[hash := d]}) → small_keys E →
  ∃ batch f, acts (insert_header b engine) v (Ok (Some changed, batch)) f ∧
    leaves f batch v (put_view v hash b d E (new_best_hash changed)).
Proof.
  intros b hash Hg Hd Hh Hch HE Hdet Hsmall.
  destruct (compressed_reads_back (List (header_items h seals))) as (c & Hc & _ & Hback); [apply Hg|].
  change (enc (List (header_items h seals))) with b in Hc, Hback.
  exists (put_batch hash c d E (new_best_hash changed)), (set_pending (new_best_hash changed)
    (match new_best_hash changed with Some _ => Some hash | None => None end) E {[hash := d]}).
  split; [|by intros s Hs; apply put_shows].
  unfold insert_header. fold hash. eapply acts_bind; [apply peeks_known|]. rewrite bool_decide_eq_false_2 by (rewrite Hd; by intros []).
  apply acts_get. intros s0 Hs0. rewrite (sh_no_best _ _ Hs0), (sh_no_proposal _ _ Hs0).
  do 2 (eapply acts_bind; [apply (peeks_lift (Ok ()))|]). rewrite Hc. eapply acts_bind; [apply peeks_lift|].
  eapply acts_bind; [exact Hch|]. eapply acts_bind; [exact HE|]. eapply acts_bind; [exact Hdet|].
  unfold put_batch. assert (write_details {[hash := d]} = [WriteDetails hash d]) as ->.
  { unfold write_details. by rewrite map_to_list_singleton. }
  apply acts_modify. intros s1 Hs1. destruct Hs1.
  by rewrite sh_no_best, sh_no_proposal, sh_no_hashes, sh_no_details, !(right_id_L ∅ (∪)); destruct (new_best_hash changed).
Qed.

(** A committed header becomes the best one, and the best proposal. *)
Definition commit_view (v : view) (hash : H256) (d : BlockDetails) : view := {|
  vw_details := vw_details v; vw_headers := vw_headers v; vw_hashes := <[bd_number d := hash]> (vw_hashes v);
  vw_best := hash; vw_proposal := hash |}.

Definition commit_batch (hash : H256) (d : BlockDetails) : DBTransaction :=
  [PutBestHeader hash; PutBestProposalHeader hash] ++ write_hashes {[bd_number d := hash]}.

Lemma commit_shows s v hash d :
  shows s v → bd_number d < u32_size →
  ∃ s', (_ ← write_batch (commit_batch hash d); commit)
      (set_pending (Some hash) (Some hash) {[bd_number d := hash]} ∅ s) = (Ok (), s') ∧ shows s' (commit_view v hash d).
Proof.
  intros Hs Hn. eexists. split; [done|]. unfold commit_batch. rewrite db_write_app, db_write_hashes.
  2: { intros n h. rewrite lookup_singleton_Some. by intros [<- _]. }
  destruct Hs. split; simpl in *; rewrite ?(left_id_L ∅ (∪)), <-?insert_union_singleton_l; try done; try congruence.
  by apply insert_mono.
Qed.

Lemma update_best_ok v hash d b dbest bbest :
  stored v hash d b → stored v (vw_best v) dbest bbest → bd_number d < u32_size →
  ∃ batch f, acts (update_best_as_committed hash) v (Ok batch) f ∧
    leaves f batch v (if bd_number d <? bd_number dbest then v else commit_view v hash d).
Proof.
  intros Hst Hbest Hn.
  exists (if bd_number d <? bd_number dbest then [] else commit_batch hash d),
    (if bd_number d <? bd_number dbest then id else set_pending (Some hash) (Some hash) {[bd_number d := hash]} ∅). split.
  - unfold update_best_as_committed. apply acts_get. intros s0 Hs0. rewrite (sh_no_best _ _ Hs0).
    eapply acts_bind; [apply (peeks_lift (Ok ()))|]. eapply acts_bind; [apply peeks_best, Hbest|].
    rewrite (st_number _ _ _ _ Hbest). eapply acts_bind; [apply peeks_lift|].
    eapply acts_bind; [apply peeks_header|]. rewrite (st_header _ _ _ _ Hst). eapply acts_bind; [apply peeks_lift|].
    rewrite (st_number _ _ _ _ Hst). eapply acts_bind; [apply peeks_lift|]. destruct (N.ltb_spec (bd_number d) (bd_number dbest)).
    + apply acts_peeks, peeks_ret.
    + eapply acts_bind; [apply peeks_details|]. rewrite (st_details _ _ _ _ Hst). eapply acts_bind; [apply peeks_lift|].
      apply acts_modify. intros s1 Hs1. by rewrite (sh_no_hashes _ _ Hs1), (sh_no_details _ _ Hs1), (right_id_L ∅ (∪)).
  - destruct (bd_number d <? bd_number dbest); [apply leaves_nothing|intros s Hs; by apply commit_shows].
Qed.

(** * Where a header finds its place *)

(** A view that is a tree of headers with the index of the canonical chain. *)
Record sound (genesis : H256) (v : view) : Prop := {
  so_tree : tree (vw_details v) genesis;
  so_stored h d : vw_details v !! h = Some d → ∃ b, stored v h d b;
  so_headers h b : vw_headers v !! h = Some b → is_Some (vw_details v !! h);
  so_small h d : vw_details v !! h = Some d → bd_number d < u32_size;
  so_total h d b : vw_details v !! h = Some d → vw_headers v !! h = Some b → 0 < bd_number d →
    ∃ dp score, vw_details v !! bd_parent d = Some dp ∧ hv_score (E := Empty_set) b = Ok score ∧
      bd_total_score d = bd_total_score dp + score;
  so_best : is_Some (vw_details v !! vw_best v);
  so_proposal : is_Some (vw_details v !! vw_proposal v);
  so_index : canonical (vw_details v) (vw_hashes v) (vw_best v);
}.

Section Place.
Context (genesis : H256) (v : view) (Hsound : sound genesis v).
Context (h : Header) (seals : list rlp_item) (dp : BlockDetails).
Context (Hgood : good_header h seals) (Hparent : vw_details v !! hd_parent_hash h = Some dp).
Context (Hnumber : hd_number h = bd_number dp + 1) (Hsmall : hd_number h < u32_size).
Context (Hfits : bd_total_score dp + hd_score h < u256_size).
Local Abbreviation b := (header_bytes h seals).

Definition details_on : BlockDetails := {|
  bd_number := hd_number h; bd_total_score := bd_total_score dp + hd_score h; bd_parent := hd_parent_hash h |}.

Lemma u256_add_small : u256_add (E := Empty_set) (bd_total_score dp) (hd_score h) = Ok (bd_total_score dp + hd_score h).
Proof. unfold u256_add. by rewrite (proj2 (N.ltb_lt _ _)). Qed.

Lemma peeks_new_details : peeks (new_detail_entries b) v (Ok {[hv_hash b := details_on]}).
Proof.
  destruct (header_views h seals Hgood) as (Hn & Hp & Hs & _). unfold new_detail_entries. rewrite Hp. apply peeks_lift_bind.
  eapply peeks_bind; [apply peeks_details|]. rewrite Hparent. apply peeks_lift_bind. rewrite Hn. apply peeks_lift_bind.
  rewrite Hs. apply peeks_lift_bind. rewrite u256_add_small. apply peeks_lift_bind, peeks_ret.
Qed.

Lemma peeks_not_changed engine dprop :
  vw_details v !! vw_proposal v = Some dprop →
  bd_total_score details_on ≤ bd_total_score dprop ∨ ce_can_change_canon_chain engine b = Ok false →
  peeks (best_header_changed b engine) v (Ok NoneChanged).
Proof.
  intros Hprop Hno. destruct (header_views h seals Hgood) as (Hn & Hp & Hs & _). unfold best_header_changed. rewrite Hp.
  apply peeks_lift_bind. eapply peeks_bind; [apply peeks_details|]. rewrite Hparent. apply peeks_lift_bind.
  rewrite Hs. apply peeks_lift_bind. rewrite u256_add_small. apply peeks_lift_bind.
  eapply peeks_bind; [by apply peeks_proposal|]. simpl in Hno.
  destruct (N.ltb_spec (bd_total_score dprop) (bd_total_score dp + hd_score h)).
  - destruct Hno as [Hno| ->]; [lia|]. eapply peeks_bind; [apply peeks_lift|]. apply peeks_ret.
  - eapply peeks_bind; [apply peeks_ret|]. apply peeks_ret.
Qed.

(** The header that becomes the best one: the new one, or one that the tree has. *)
Definition new_best (hash : H256) (d : BlockDetails) (bytes : bytes) : Prop :=
  (hash = hv_hash b ∧ d = details_on ∧ bytes = b) ∨ (hash ≠ hv_hash b ∧ stored v hash d bytes).

Lemma new_best_reads hash d bytes :
  new_best hash d bytes → hv_hash bytes = hash ∧ hv_number (E := Empty_set) bytes = Ok (bd_number d).
Proof.
  intros [(-> & -> & ->)|(_ & Hs)]; [|split; apply Hs]. destruct (header_views h seals Hgood) as (Hn & _). by split.
Qed.

(** What a route enters in the index, besides the best header. *)
Definition route_entries (i j : nat) (da : BlockDetails) : gmap N H256 :=
  match i with
  | O => ∅
  | S _ => enacted_entries (bd_number da + 1) (reverse (trail (vw_details v) j (hd_parent_hash h))) ∅
  end.

Lemma peeks_changed engine dbest dprop hash d bytes :
  vw_details v !! vw_best v = Some dbest → vw_details v !! vw_proposal v = Some dprop →
  bd_total_score dprop < bd_total_score details_on → ce_can_change_canon_chain engine b = Ok true →
  ce_best_from_proposal engine b = Ok hash → new_best hash d bytes →
  ∃ changed i j a da,
    peeks (best_header_changed b engine) v (Ok changed) ∧
    new_best_hash changed = Some hash ∧
    peeks (new_hash_entries changed) v (Ok (<[bd_number d := hash]> (route_entries i j da))) ∧
    anc (vw_details v) i (vw_best v) = Some a ∧ anc (vw_details v) j (hd_parent_hash h) = Some a ∧ vw_details v !! a = Some da ∧
    bd_number da + N.of_nat i = bd_number dbest ∧ bd_number da + N.of_nat j = bd_number dp.
Proof.
  intros Hbest Hprop Hmore Hcan Hfrom Hnew. destruct (header_views h seals Hgood) as (Hn & Hp & Hs & _).
  destruct (new_best_reads _ _ _ Hnew) as [Hhash Hnum].
  destruct (tree_route_ok v genesis (so_tree _ _ Hsound) (so_stored _ _ Hsound) _ _ _ _ Hbest Hparent)
    as (i & j & a & da & Hroute & Hai & Haj & Ha & Hi & Hj & _).
  set (route := {| tr_ancestor := a; tr_retracted := _; tr_enacted := _ |}) in Hroute.
  exists (match tr_retracted route with [] => CanonChainAppended bytes | _ => BranchBecomingCanonChain bytes route end), i, j, a, da.
  assert (tr_retracted route = [] ↔ i = O) as Hnil.
  { subst route. simpl. by destruct i. }
  split_and!; [| | |done..].
  - unfold best_header_changed. rewrite Hp. apply peeks_lift_bind. eapply peeks_bind; [apply peeks_details|]. rewrite Hparent.
    apply peeks_lift_bind. rewrite Hs. apply peeks_lift_bind. rewrite u256_add_small. apply peeks_lift_bind.
    eapply peeks_bind; [by apply peeks_proposal|]. rewrite (proj2 (N.ltb_lt _ _)) by exact Hmore. rewrite Hcan.
    apply peeks_lift_bind, peeks_get. intros s0 Hs0. rewrite (sh_best _ _ Hs0). eapply peeks_bind; [exact Hroute|]. apply peeks_lift_bind. rewrite Hfrom. apply peeks_lift_bind.
    eapply peeks_bind; [|apply peeks_ret]. destruct Hnew as [(-> & _ & ->)|(Hne & Hst)].
    + rewrite bool_decide_eq_true_2 by done. apply peeks_ret.
    + rewrite bool_decide_eq_false_2 by done. destruct (st_again _ _ _ _ Hst) as (h' & Hdec & Henc).
      unfold block_header. eapply peeks_bind.
      { eapply peeks_bind; [apply peeks_header|]. rewrite (st_header _ _ _ _ Hst), Hdec. apply peeks_lift_bind, peeks_ret. }
      apply peeks_lift_bind. rewrite Henc. apply peeks_ret.
  - rewrite <-Hhash. by destruct (tr_retracted route).
  - unfold route_entries. destruct (tr_retracted route) as [|x l] eqn:Hl, i as [|i]; try (by destruct Hnil as [Hx Hy]; specialize (Hx eq_refl) || specialize (Hy eq_refl)).
    + simpl. rewrite Hnum. apply peeks_lift_bind. rewrite Hhash. apply peeks_ret.
    + simpl. unfold block_number. eapply peeks_bind; [eapply peeks_bind; [apply peeks_details|apply peeks_ret]|].
      rewrite Ha. simpl. apply peeks_lift_bind. rewrite Hnum. apply peeks_lift_bind. rewrite Hhash.
      replace (u64_add (bd_number da) 1) with (bd_number da + 1); [apply peeks_ret|].
      symmetry. apply N.mod_small. pose proof (so_small _ _ Hsound _ _ Ha). assert (u32_size < u64_size) by done. lia.
Qed.

(** ** The view with the header *)

Context (Hnew : vw_details v !! hv_hash b = None).
Local Abbreviation D' := (<[hv_hash b := details_on]> (vw_details v)).

Lemma details_grow : vw_details v ⊆ D'.
Proof. by apply insert_subseteq. Qed.

Lemma stored_grow E best x d bytes : stored v x d bytes → stored (put_view v (hv_hash b) b details_on E best) x d bytes.
Proof.
  intros [Hd Hh ? ? ? ?]. assert (x ≠ hv_hash b) by congruence. split; simpl; rewrite ?lookup_insert_ne; done.
Qed.

Lemma put_sound E best :
  is_Some (D' !! default (vw_best v) best) → canonical D' (E ∪ vw_hashes v) (default (vw_best v) best) →
  sound genesis (put_view v (hv_hash b) b details_on E best).
Proof.
  intros Hbest HI. destruct (header_views h seals Hgood) as (Hn & Hp & Hsc & Hb). destruct (header_again h seals Hgood) as (h' & Hh').
  pose proof Hsound as [Ht Hst Hhd Hsm Htot Hb' [dprop Hpr] _].
  assert (vw_details v !! hd_parent_hash h ≠ None) as Hne by by rewrite Hparent.
  split; simpl; [split| | | | | | |done].
  - destruct (tree_root _ _ Ht) as (d & Hd & ?). exists d. split; [|done]. by apply (lookup_weaken _ _ _ _ Hd), details_grow.
  - intros x d. destruct (decide (x = hv_hash b)) as [->|Hx].
    + rewrite lookup_insert_eq. intros [= <-]. right. exists dp. simpl. rewrite lookup_insert_ne by congruence. done.
    + rewrite lookup_insert_ne by done. intros Hd. destruct (tree_parent _ _ Ht x d Hd) as [|(d' & Hd' & ?)]; [by left|].
      right. exists d'. split; [|done]. by apply (lookup_weaken _ _ _ _ Hd'), details_grow.
  - intros x d. destruct (decide (x = hv_hash b)) as [->|Hx].
    + rewrite lookup_insert_eq. intros [= <-]. exists b. split; simpl; rewrite ?lookup_insert_eq; eauto.
    + rewrite lookup_insert_ne by done. intros Hd. destruct (Hst x d Hd) as (bx & Hbx). exists bx. by apply stored_grow.
  - intros x bx. destruct (decide (x = hv_hash b)) as [->|Hx]; [by rewrite !lookup_insert_eq|].
    rewrite !lookup_insert_ne by done. apply Hhd.
  - intros x d. destruct (decide (x = hv_hash b)) as [->|Hx]; [rewrite lookup_insert_eq; by intros [= <-]|].
    rewrite lookup_insert_ne by done. apply Hsm.
  - intros x d bx. destruct (decide (x = hv_hash b)) as [->|Hx].
    + rewrite !lookup_insert_eq. intros [= <-] [= <-] _. exists dp, (hd_score h). simpl. by rewrite lookup_insert_ne by congruence.
    + rewrite !lookup_insert_ne by done. intros Hd Hbx Hpos. destruct (Htot x d bx Hd Hbx Hpos) as (d' & score & Hd' & ?).
      exists d', score. split; [|done]. by apply (lookup_weaken _ _ _ _ Hd'), details_grow.
  - done.
  - destruct best; [by rewrite lookup_insert_eq|]. eexists. by apply (lookup_weaken _ _ _ _ Hpr), details_grow.
Qed.

(** The route brings the index to the parent, unless it only goes up from the best header and the parent is not the best one. *)
Lemma parent_index i j a da dbest :
  vw_details v !! vw_best v = Some dbest →
  anc (vw_details v) i (vw_best v) = Some a → anc (vw_details v) j (hd_parent_hash h) = Some a → vw_details v !! a = Some da →
  bd_number da + N.of_nat i = bd_number dbest → bd_number da + N.of_nat j = bd_number dp →
  (i = O → j = O) → canonical (vw_details v) (route_entries i j da ∪ vw_hashes v) (hd_parent_hash h).
Proof.
  intros Hbest Hi Hj Ha Hni Hnj Hgap. unfold route_entries. destruct i as [|i].
  - rewrite (left_id_L ∅ (∪)). rewrite Hgap in Hj by done. injection Hi as <-. injection Hj as ->. apply Hsound.
  - apply (canonical_route _ genesis (so_tree _ _ Hsound) _ (vw_best v) _ dbest dp (S i) j a); try done; [apply Hsound|lia].
Qed.

(** The new header is the best one. *)
Lemma own_index E : canonical (vw_details v) (E ∪ vw_hashes v) (hd_parent_hash h) →
  canonical D' (<[hd_number h := hv_hash b]> E ∪ vw_hashes v) (hv_hash b).
Proof.
  intros HI. rewrite <-insert_union_l. apply (canonical_push _ _ (hd_parent_hash h) dp _ details_on).
  - eapply canonical_weaken; [apply Hsound|apply details_grow|done|done].
  - by apply (lookup_weaken _ _ _ _ Hparent), details_grow.
  - by rewrite lookup_insert_eq.
  - done.
  - done.
Qed.

(** Its parent is. *)
Lemma its_parent_index i j a da dbest :
  vw_details v !! vw_best v = Some dbest →
  anc (vw_details v) i (vw_best v) = Some a → anc (vw_details v) j (hd_parent_hash h) = Some a → vw_details v !! a = Some da →
  bd_number da + N.of_nat i = bd_number dbest → bd_number da + N.of_nat j = bd_number dp →
  (i = O → j ≤ 1)%nat → canonical D' (<[bd_number dp := hd_parent_hash h]> (route_entries i j da) ∪ vw_hashes v) (hd_parent_hash h).
Proof.
  intros Hbest Hi Hj Ha Hni Hnj Hgap. eapply canonical_weaken; [apply Hsound|apply details_grow|done|]. rewrite <-insert_union_l.
  destruct (decide (i = O ∧ j = 1%nat)) as [[-> ->]|Hno].
  - simpl in *. rewrite Hparent in Hj. injection Hi as <-. injection Hj as Hj. rewrite (left_id_L ∅ (∪)).
    apply (canonical_push _ _ (vw_best v) dbest); [apply Hsound|done|done|done|lia].
  - apply canonical_again; [|done]. apply (parent_index i j a da dbest); try done. lia.
Qed.

Lemma route_entries_small i j da : bd_number da + N.of_nat j = bd_number dp → small_keys (route_entries i j da).
Proof.
  intros Hj n x. unfold route_entries. destruct i as [|i]; [done|].
  rewrite enacted_lookup, length_reverse, (trail_length _ genesis (so_tree _ _ Hsound) j _ dp) by
    (rewrite ?length_reverse, ?(trail_length _ genesis (so_tree _ _ Hsound) j _ dp); try done; assert (u32_size < u64_size) by done; lia).
  case_decide; [lia|done].
Qed.
End Place.
End Steps.
