(* ===== verification/HeaderChainProps.v ===== *)
(** The header chain against what it promises: a tree of headers with a best one, and by number the ancestors of the best one.  The
    chain keeps the promise for every sequence of headers and commits under the default rule of the best block, where the scores are
    positive, and under the rule of Tendermint, where the scores are those of Tendermint. *)
From Stdlib Require Import NArith Lia.
From stdpp Require Import base gmap list numbers.
From S2P Require Import TmWorker.
From S2P Require Import Prelude Types Crypto Rlp RlpImpls RlpCompress StakeSpec Header HeaderChain HeaderChainFacts HeaderChainStep.

Local Open Scope N_scope.

(** * The tree that the chain keeps *)

Record HeaderTree := {
  ht_details : gmap H256 BlockDetails;
  ht_best : H256;
  ht_proposal : H256;
}.

(** The engine: the best proposal is the best header, or its parent is, as in Tendermint. *)
Inductive BestRule := ProposalIsBest | ParentIsBest.

(** A header arrives, with the height that the engine allows then, or a block is committed. *)
Inductive ChainCall :=
| HeaderArrived (header : Header) (allowed_height : BlockNumber)
| BlockCommitted (block_hash : H256).

Section Props.
Context `{CryptoLaws}.

Definition engine_of (rule : BestRule) (allowed_height : BlockNumber) : ChainEngine :=
  match rule with ProposalIsBest => default_engine | ParentIsBest => tendermint_engine allowed_height end.

Definition chain_call (rule : BestRule) (c : ChainCall) : hcM () :=
  match c with
  | HeaderArrived header allowed_height => _ ← commit_header header (engine_of rule allowed_height); mret ()
  | BlockCommitted block_hash => commit_best block_hash
  end.

(** A header is put on its parent, and becomes the best proposal when its branch has the most score and it is high enough. *)
Definition tree_insert (rule : BestRule) (h : Header) (allowed_height : BlockNumber) (t : HeaderTree) : HeaderTree :=
  let hash := hv_hash (Header_rlp h With) in
  match ht_details t !! hash, ht_details t !! hd_parent_hash h, ht_details t !! ht_proposal t with
  | None, Some dp, Some dprop =>
      let d := details_on h dp in
      let allowed := match rule with ProposalIsBest => true | ParentIsBest => allowed_height <=? hd_number h end in
      if (bd_total_score dprop <? bd_total_score d) && allowed then
        {| ht_details := <[hash := d]> (ht_details t);
           ht_best := match rule with ProposalIsBest => hash | ParentIsBest => hd_parent_hash h end; ht_proposal := hash |}
      else {| ht_details := <[hash := d]> (ht_details t); ht_best := ht_best t; ht_proposal := ht_proposal t |}
  | _, _, _ => t
  end.

(** What is committed becomes the best header, unless it is below it. *)
Definition tree_commit (hash : H256) (t : HeaderTree) : HeaderTree :=
  match ht_details t !! hash, ht_details t !! ht_best t with
  | Some d, Some dbest =>
      if bd_number d <? bd_number dbest then t
      else {| ht_details := ht_details t; ht_best := hash; ht_proposal := hash |}
  | _, _ => t
  end.

Definition tree_call (rule : BestRule) (t : HeaderTree) (c : ChainCall) : HeaderTree :=
  match c with
  | HeaderArrived h allowed_height => tree_insert rule h allowed_height t
  | BlockCommitted hash => tree_commit hash t
  end.

(** By number: the ancestors of the best header, and nothing above it. *)
Definition tree_hash (t : HeaderTree) (n : BlockNumber) : option H256 :=
  d ← ht_details t !! ht_best t;
  if n <=? bd_number d then anc (ht_details t) (N.to_nat (bd_number d - n)) (ht_best t) else None.

(** The calls that the node makes: a header comes after its parent, with a positive score, or with the score of its height and view;
    in Tendermint one that is not allowed to change the chain is not above it, and what is committed is the best header, a child of it
    or its sibling, and not below the best proposal. *)
Definition admissible (rule : BestRule) (t : HeaderTree) (c : ChainCall) : Prop :=
  match c with
  | HeaderArrived h allowed_height =>
      is_Some (ht_details t !! hv_hash (Header_rlp h With)) ∨
      ∃ seals dp, good_header h seals ∧ ht_details t !! hd_parent_hash h = Some dp ∧ hd_number h = bd_number dp + 1 ∧
        hd_number h < u32_size ∧ bd_total_score dp + hd_score h < u256_size ∧
        match rule with
        | ProposalIsBest => 0 < hd_score h
        | ParentIsBest =>
            (∃ w, w < u64_size ∧ calculate_score (hd_number h) w = Ok (hd_score h)) ∧
            (∀ dprop, ht_details t !! ht_proposal t = Some dprop → allowed_height ≤ hd_number h ∨ hd_number h ≤ bd_number dprop)
        end
  | BlockCommitted hash =>
      rule = ParentIsBest ∧
      ∃ d dbest dprop, ht_details t !! hash = Some d ∧ ht_details t !! ht_best t = Some dbest ∧
        ht_details t !! ht_proposal t = Some dprop ∧
        (bd_number d < bd_number dbest ∨
         bd_number dprop ≤ bd_number d ∧
         (hash = ht_best t ∨ 0 < bd_number d ∧
          (bd_parent d = ht_best t ∨ bd_parent d = bd_parent dbest ∧ bd_number d = bd_number dbest)))
  end.

Fixpoint all_admissible (rule : BestRule) (t : HeaderTree) (calls : list ChainCall) : Prop :=
  match calls with
  | [] => True
  | c :: calls => admissible rule t c ∧ all_admissible rule (tree_call rule t c) calls
  end.

(** * Why the best header does not run away from the index *)

(** Twice the score of a Tendermint chain whose views are all zero. *)
Definition top_score (n : N) : N := (u128_size - 1) * (n * (n + 1)).

(** Under the default rule scores rise along the branches; in Tendermint they are within the views from those of the heights. *)
Definition scored (rule : BestRule) (genesis_score : N) (D : gmap H256 BlockDetails) : Prop :=
  match rule with
  | ProposalIsBest =>
      ∀ x d d', D !! x = Some d → 0 < bd_number d → D !! bd_parent d = Some d' → bd_total_score d' < bd_total_score d
  | ParentIsBest =>
      ∀ x d, D !! x = Some d →
        2 * bd_total_score d ≤ 2 * genesis_score + top_score (bd_number d) ≤ 2 * bd_total_score d + 2 * bd_number d * u64_size
  end.

(** Under the default rule the best header has the most score.  In Tendermint no header is above the best proposal, which is at most
    one above the best header. *)
Definition leads (rule : BestRule) (t : HeaderTree) : Prop :=
  ∀ dbest dprop, ht_details t !! ht_best t = Some dbest → ht_details t !! ht_proposal t = Some dprop →
  match rule with
  | ProposalIsBest => ht_best t = ht_proposal t ∧ ∀ x d, ht_details t !! x = Some d → bd_total_score d ≤ bd_total_score dprop
  | ParentIsBest => bd_number dprop ≤ bd_number dbest + 1 ∧ ∀ x d, ht_details t !! x = Some d → bd_number d ≤ bd_number dprop
  end.

Lemma top_score_S n : top_score (n + 1) = top_score n + 2 * ((u128_size - 1) * (n + 1)).
Proof. unfold top_score. lia. Qed.

(** In Tendermint a higher header has more score. *)
Lemma tendermint_ranked g n1 s1 n2 s2 :
  2 * s1 ≤ 2 * g + top_score n1 → 2 * g + top_score n2 ≤ 2 * s2 + 2 * n2 * u64_size → n1 < n2 → s1 < s2.
Proof.
  intros H1 H2 Hlt. unfold top_score in *. assert (n1 * (n1 + 1) + 2 * n2 ≤ n2 * (n2 + 1)) by nia.
  unfold u128_size, u64_size in *. simpl in *. lia.
Qed.

(** Where scores rise along the branches, a header has more score than its ancestors. *)
Lemma rising_anc D genesis g j p dp a da :
  tree D genesis → scored ProposalIsBest g D →
  D !! p = Some dp → anc D j p = Some a → D !! a = Some da → bd_number da + N.of_nat j = bd_number dp →
  bd_total_score da + N.of_nat j ≤ bd_total_score dp.
Proof.
  intros Ht Hrise. revert p dp. induction j as [|j IH]; intros p dp Hp Ha Hda Hn; simpl in Ha.
  - simplify_eq. lia.
  - rewrite Hp in Ha. simpl in Ha. destruct (parent_known D genesis Ht p dp Hp) as (d' & Hd' & Hn'); [lia|].
    pose proof (IH _ _ Hd' Ha Hda ltac:(lia)). pose proof (Hrise p dp d' Hp ltac:(lia) Hd'). lia.
Qed.

Definition tree_of (v : view) : HeaderTree :=
  {| ht_details := vw_details v; ht_best := vw_best v; ht_proposal := vw_proposal v |}.

(** A header that is not known arrives at a tree that keeps to the rule. *)
Record arrival (rule : BestRule) (g : N) (genesis : H256) (t : HeaderTree) (h : Header) (hash : H256) (dp dbest dprop : BlockDetails)
  (allowed_height : BlockNumber) : Prop := {
  ar_tree : tree (ht_details t) genesis;
  ar_scored : scored rule g (ht_details t);
  ar_leads : leads rule t;
  ar_parent : ht_details t !! hd_parent_hash h = Some dp;
  ar_number : hd_number h = bd_number dp + 1;
  ar_best : ht_details t !! ht_best t = Some dbest;
  ar_proposal : ht_details t !! ht_proposal t = Some dprop;
  ar_new : ht_details t !! hash = None;
  ar_rule : match rule with
    | ProposalIsBest => 0 < hd_score h
    | ParentIsBest => (∃ w, w < u64_size ∧ calculate_score (hd_number h) w = Ok (hd_score h)) ∧
                      (allowed_height ≤ hd_number h ∨ hd_number h ≤ bd_number dprop)
    end;
}.

Section Ahead.
Context (rule : BestRule) (g : N) (genesis : H256) (t : HeaderTree) (h : Header) (hash : H256) (dp dbest dprop : BlockDetails).
Context (allowed_height : BlockNumber) (A : arrival rule g genesis t h hash dp dbest dprop allowed_height).
Local Abbreviation D := (ht_details t).
Local Abbreviation D' := (<[hash := details_on h dp]> (ht_details t)).

(** The best header is not far below the parent of the new one. *)
Lemma no_gap i j a da :
  anc D i (ht_best t) = Some a → anc D j (hd_parent_hash h) = Some a → D !! a = Some da →
  bd_number da + N.of_nat j = bd_number dp → i = O → (j ≤ match rule with ProposalIsBest => 0 | ParentIsBest => 1 end)%nat.
Proof.
  destruct A as [Ht Hsc Hl Hp _ Hb Hpr _ _]. intros Hi Hj Ha Hnj ->. injection Hi as <-. rewrite Hb in Ha. injection Ha as <-.
  specialize (Hl dbest dprop Hb Hpr). destruct rule; destruct Hl as [H1 H2]; pose proof (H2 _ _ Hp).
  - pose proof (rising_anc _ genesis g j _ _ _ _ Ht Hsc Hp Hj Hb Hnj). assert (dbest = dprop) as -> by congruence. lia.
  - lia.
Qed.

Lemma tree_more : tree D' genesis.
Proof.
  destruct A as [Ht _ _ Hp Hn _ _ Hnew _]. assert (D ⊆ D') as Hsub by by apply insert_subseteq. split.
  - destruct (tree_root _ _ Ht) as (d & Hd & ?). exists d. split; [by eapply lookup_weaken|done].
  - intros x d. destruct (decide (x = hash)) as [->|Hx].
    + rewrite lookup_insert_eq. intros [= <-]. right. exists dp. split; [by apply (lookup_weaken _ _ _ _ Hp)|done].
    + rewrite lookup_insert_ne by done. intros Hd. destruct (tree_parent _ _ Ht x d Hd) as [|(d' & Hd' & ?)]; [by left|].
      right. exists d'. split; [by eapply lookup_weaken|done].
Qed.

Lemma scored_more : scored rule g D'.
Proof.
  destruct A as [Ht Hsc _ Hp Hn _ _ Hnew Hr]. destruct rule; intros x d.
  - intros d'. destruct (decide (x = hash)) as [->|Hx].
    + rewrite lookup_insert_eq. intros [= <-] _. simpl. rewrite lookup_insert_ne by congruence. rewrite Hp. intros [= <-]. lia.
    + rewrite lookup_insert_ne by done. intros Hd Hpos Hd'. destruct (parent_known _ _ Ht x d Hd Hpos) as (d2 & Hd2 & _).
      rewrite lookup_insert_ne in Hd' by congruence. by apply (Hsc x d d').
  - destruct (decide (x = hash)) as [->|Hx]; [|rewrite lookup_insert_ne by done; apply Hsc].
    rewrite lookup_insert_eq. intros [= <-]. destruct Hr as [(w & Hw & Hs) _]. pose proof (Hsc _ _ Hp) as Hd.
    unfold calculate_score, assert in Hs. simpl. rewrite Hn in *.
    destruct (N.leb_spec w ((u128_size - 1) * (bd_number dp + 1))) as [Hle|]; [|done]. injection Hs as <-. rewrite top_score_S. lia.
Qed.

Lemma score_of_new : rule = ParentIsBest →
  (hd_number h < bd_number dprop → bd_total_score (details_on h dp) < bd_total_score dprop) ∧
  (bd_number dprop < hd_number h → bd_total_score dprop < bd_total_score (details_on h dp)).
Proof.
  intros Hr. pose proof scored_more as Hmore. destruct A as [_ Hsc _ _ _ _ Hpr _ _]. rewrite Hr in Hmore, Hsc.
  destruct (Hmore hash (details_on h dp)) as [Hn1 Hn2]; [by rewrite lookup_insert_eq|].
  destruct (Hsc _ _ Hpr) as [Hp1 Hp2]. split; intros; by eapply tendermint_ranked.
Qed.

(** The header that the rule makes the best one. *)
Definition rule_best : H256 := match rule with ProposalIsBest => hash | ParentIsBest => hd_parent_hash h end.
Definition rule_details : BlockDetails := match rule with ProposalIsBest => details_on h dp | ParentIsBest => dp end.

Lemma rule_best_known : D' !! rule_best = Some rule_details.
Proof.
  destruct A. unfold rule_best, rule_details. destruct rule; [by rewrite lookup_insert_eq|]. by rewrite lookup_insert_ne by congruence.
Qed.

(** The new header is the best proposal, and the new best header is at most one below. *)
Lemma leads_changed :
  bd_total_score dprop < bd_total_score (details_on h dp) →
  leads rule {| ht_details := D'; ht_best := rule_best; ht_proposal := hash |}.
Proof.
  intros Hmore db dpr. pose proof score_of_new as Hscore. pose proof rule_best_known as Hk.
  destruct A as [_ _ Hl Hp Hn Hb Hpr Hnew _]. specialize (Hl dbest dprop Hb Hpr). cbn [ht_details ht_best ht_proposal].
  rewrite Hk, lookup_insert_eq. intros [= <-] [= <-]. unfold rule_best, rule_details. destruct rule; destruct Hl as [H1 H2].
  - split; [done|]. intros x d. destruct (decide (x = hash)) as [->|Hx]; [rewrite lookup_insert_eq; by intros [= <-]|].
    rewrite lookup_insert_ne by done. intros Hd%H2. simpl in *. lia.
  - split; [simpl; lia|]. destruct Hscore as [Hs _]; [done|]. intros x d.
    destruct (decide (x = hash)) as [->|Hx]; [rewrite lookup_insert_eq; by intros [= <-]|].
    rewrite lookup_insert_ne by done. intros Hd%H2. simpl in *. lia.
Qed.

Lemma leads_same :
  bd_total_score (details_on h dp) ≤ bd_total_score dprop ∨ rule = ParentIsBest ∧ hd_number h < allowed_height →
  leads rule {| ht_details := D'; ht_best := ht_best t; ht_proposal := ht_proposal t |}.
Proof.
  intros Hno db dpr. pose proof score_of_new as Hscore. destruct A as [_ _ Hl Hp Hn Hb Hpr Hnew Hr].
  specialize (Hl dbest dprop Hb Hpr). cbn [ht_details ht_best ht_proposal]. rewrite !lookup_insert_ne by congruence.
  intros Hdb Hdpr. simplify_eq. destruct rule; destruct Hl as [H1 H2].
  - split; [done|]. intros x d. destruct (decide (x = hash)) as [->|Hx]; [|rewrite lookup_insert_ne by done; apply H2].
    rewrite lookup_insert_eq. intros [= <-]. destruct Hno as [?|[? _]]; [simpl in *; lia|done].
  - split; [done|]. intros x d. destruct (decide (x = hash)) as [->|Hx]; [|rewrite lookup_insert_ne by done; apply H2].
    rewrite lookup_insert_eq. intros [= <-]. destruct Hscore as [_ Hs]; [done|]. simpl in *. lia.
Qed.

(** Whether the header takes the lead, and the tree with it. *)
Definition takes_lead : bool :=
  (bd_total_score dprop <? bd_total_score (details_on h dp)) &&
  match rule with ProposalIsBest => true | ParentIsBest => allowed_height <=? hd_number h end.
Definition tree_with : HeaderTree :=
  if takes_lead then {| ht_details := D'; ht_best := rule_best; ht_proposal := hash |}
  else {| ht_details := D'; ht_best := ht_best t; ht_proposal := ht_proposal t |}.

Lemma tree_with_insert : hash = hv_hash (Header_rlp h With) → tree_insert rule h allowed_height t = tree_with.
Proof.
  intros Hh. destruct A as [_ _ _ Hp _ Hb Hpr Hnew _]. unfold tree_insert, tree_with, takes_lead. rewrite <-Hh, Hnew, Hp, Hpr.
  reflexivity.
Qed.
Lemma tree_with_details : ht_details tree_with = D'.
Proof. unfold tree_with. by destruct takes_lead. Qed.
Lemma tree_with_leads : leads rule tree_with.
Proof.
  unfold tree_with. destruct takes_lead eqn:Ht; unfold takes_lead in Ht.
  - apply andb_true_iff in Ht as [Hm%N.ltb_lt _]. by apply leads_changed.
  - apply leads_same. apply andb_false_iff in Ht as [Hm%N.ltb_ge|Hm]; [by left|]. destruct rule; [done|]. right. split; [done|].
    by apply N.leb_gt.
Qed.
End Ahead.

Lemma admissible_arrival rule g genesis t h allowed_height :
  tree (ht_details t) genesis → scored rule g (ht_details t) → leads rule t →
  is_Some (ht_details t !! ht_best t) → is_Some (ht_details t !! ht_proposal t) →
  admissible rule t (HeaderArrived h allowed_height) → ht_details t !! hv_hash (Header_rlp h With) = None →
  ∃ seals dp dbest dprop, good_header h seals ∧ hd_number h < u32_size ∧ bd_total_score dp + hd_score h < u256_size ∧
    arrival rule g genesis t h (hv_hash (header_bytes h seals)) dp dbest dprop allowed_height.
Proof.
  intros Ht Hsc Hl [dbest Hb] [dprop Hpr] [[d Hd]|(seals & dp & Hg & Hp & Hn & Hsm & Hf & Hr)] Hnew; [congruence|].
  destruct (header_views h seals Hg) as (_ & _ & _ & Henc). rewrite Henc in Hnew. exists seals, dp, dbest, dprop. split_and!; [done..|].
  split; try done. destruct rule; [done|]. destruct Hr as [Hw Ha]. split; [done|by apply Ha].
Qed.

(** The answers of the engine to a header. *)
Lemma engine_can_change rule h seals allowed_height : good_header h seals →
  ce_can_change_canon_chain (engine_of rule allowed_height) (header_bytes h seals) =
  Ok (match rule with ProposalIsBest => true | ParentIsBest => allowed_height <=? hd_number h end).
Proof. intros Hg. destruct (header_views h seals Hg) as (Hnum & _). destruct rule; [done|]. simpl. by rewrite Hnum. Qed.
Lemma engine_best rule h seals allowed_height : good_header h seals →
  ce_best_from_proposal (engine_of rule allowed_height) (header_bytes h seals) = Ok (rule_best rule h (hv_hash (header_bytes h seals))).
Proof. intros Hg. destruct (header_views h seals Hg) as (_ & Hp & _). by destruct rule. Qed.

Section Arrive.
#[local] Set Default Proof Using "All".
Context (rule : BestRule) (g : N) (genesis : H256) (v : view) (Hsound : sound genesis v).
Context (h : Header) (seals : list rlp_item) (dp dbest dprop : BlockDetails) (allowed_height : BlockNumber).
Local Abbreviation b := (header_bytes h seals).
Context (Hgood : good_header h seals) (Hsmall : hd_number h < u32_size) (Hfits : bd_total_score dp + hd_score h < u256_size).
Context (A : arrival rule g genesis (tree_of v) h (hv_hash b) dp dbest dprop allowed_height).
Let Hparent := ar_parent _ _ _ _ _ _ _ _ _ _ A.
Let Hnumber := ar_number _ _ _ _ _ _ _ _ _ _ A.
Let Hbest := ar_best _ _ _ _ _ _ _ _ _ _ A.
Let Hprop := ar_proposal _ _ _ _ _ _ _ _ _ _ A.
Let Hnew := ar_new _ _ _ _ _ _ _ _ _ _ A.
Local Abbreviation rbest := (rule_best rule h (hv_hash b)).
Local Abbreviation rdetails := (rule_details rule h dp).

Lemma rule_new_best : ∃ bytes,
  ce_best_from_proposal (engine_of rule allowed_height) b = Ok rbest ∧ new_best v h seals dp rbest rdetails bytes.
Proof.
  pose proof (engine_best rule h seals allowed_height Hgood) as Hb. unfold rule_details. destruct rule.
  - exists b. split; [done|]. by left.
  - destruct (so_stored _ _ Hsound _ _ Hparent) as (bp & Hbp). exists bp. split; [exact Hb|]. right. split; [|done].
    intros Heq. simpl in *. congruence.
Qed.

Lemma rule_index i j a da :
  anc (vw_details v) i (vw_best v) = Some a → anc (vw_details v) j (hd_parent_hash h) = Some a → vw_details v !! a = Some da →
  bd_number da + N.of_nat i = bd_number dbest → bd_number da + N.of_nat j = bd_number dp →
  canonical (<[hv_hash b := details_on h dp]> (vw_details v))
    (<[bd_number rdetails := rbest]> (route_entries v h i j da) ∪ vw_hashes v) rbest.
Proof.
  intros Hi Hj Ha Hni Hnj. pose proof (no_gap _ _ _ _ _ _ _ _ _ _ A i j a da Hi Hj Ha Hnj) as Hgap. unfold rule_best, rule_details.
  destruct rule.
  - apply (own_index genesis v Hsound h seals dp Hparent Hnumber Hnew).
    apply (parent_index genesis v Hsound h dp Hparent Hnumber Hsmall Hfits i j a da dbest); try done. lia.
  - by apply (its_parent_index genesis v Hsound h seals dp Hparent Hnumber Hsmall Hfits Hnew i j a da dbest).
Qed.

Lemma unknown_header : vw_headers v !! hv_hash b = None.
Proof.
  destruct (vw_headers v !! hv_hash b) eqn:Hx; [|done]. apply (so_headers _ _ Hsound) in Hx as [? ?].
  pose proof Hnew as Hn. simpl in Hn. congruence.
Qed.

(** The header is put into the chain. *)
Definition inserts (v' : view) : Prop :=
  ∃ r batch f, acts_of shows (insert_header b (engine_of rule allowed_height)) v (Ok (r, batch)) f ∧ leaves f batch v v'.
Definition header_put (v' : view) : Prop := vw_headers v' = <[hv_hash b := b]> (vw_headers v).

Lemma arrives_best :
  bd_total_score dprop < bd_total_score (details_on h dp) → ce_can_change_canon_chain (engine_of rule allowed_height) b = Ok true →
  ∃ v', inserts v' ∧ sound genesis v' ∧ header_put v' ∧
    tree_of v' = {| ht_details := <[hv_hash b := details_on h dp]> (vw_details v); ht_best := rbest; ht_proposal := hv_hash b |}.
Proof.
  intros Hmore Hcan. destruct rule_new_best as (bytes & Hfrom & Hnb).
  destruct (peeks_changed genesis v Hsound h seals dp Hgood Hparent Hnumber Hsmall Hfits _ _ _ _ _ _ Hbest Hprop Hmore Hcan Hfrom Hnb)
    as (changed & i & j & a & da & Hch & Hbh & HE & Hi & Hj & Ha & Hni & Hnj).
  destruct (insert_header_puts v h seals _ changed _ (details_on h dp) Hgood Hnew unknown_header Hch HE) as (batch & f & Hact & Hl).
  { by apply peeks_new_details. }
  { intros n x. rewrite lookup_insert_Some. intros [[<- _]|[_ Hx]].
    - unfold rule_details. destruct rule; simpl; lia.
    - revert Hx. by apply (route_entries_small genesis v Hsound h dp Hparent Hnumber Hsmall). }
  eexists. split; [by exists (Some changed), batch, f|]. split; [|split; [done|by rewrite Hbh]]. rewrite Hbh.
  apply (put_sound genesis v Hsound h seals dp Hgood Hparent Hnumber Hsmall Hnew); simpl; [|by apply rule_index with a].
  eexists. exact (rule_best_known _ _ _ _ _ _ _ _ _ _ A).
Qed.

Lemma arrives_aside :
  bd_total_score (details_on h dp) ≤ bd_total_score dprop ∨ ce_can_change_canon_chain (engine_of rule allowed_height) b = Ok false →
  ∃ v', inserts v' ∧ sound genesis v' ∧ header_put v' ∧
    tree_of v' = {| ht_details := <[hv_hash b := details_on h dp]> (vw_details v);
                    ht_best := vw_best v; ht_proposal := vw_proposal v |}.
Proof.
  intros Hno. destruct (insert_header_puts v h seals (engine_of rule allowed_height) NoneChanged ∅ (details_on h dp) Hgood Hnew unknown_header)
    as (batch & f & Hact & Hl).
  { by apply (peeks_not_changed v h seals dp Hgood Hparent Hnumber Hsmall Hfits _ dprop). }
  { apply peeks_ret. }
  { by apply peeks_new_details. }
  { done. }
  eexists. split; [by exists (Some NoneChanged), batch, f|]. split; [|done].
  apply (put_sound genesis v Hsound h seals dp Hgood Hparent Hnumber Hsmall Hnew); simpl.
  - destruct (so_best _ _ Hsound) as [d Hd]. eexists. by apply (lookup_weaken _ _ _ _ Hd), details_grow.
  - rewrite (left_id_L ∅ (∪)).
    eapply canonical_weaken; [apply Hsound|by apply details_grow|exact Hbest|apply Hsound].
Qed.

Lemma arrives : ∃ v', inserts v' ∧ sound genesis v' ∧ header_put v' ∧ tree_of v' = tree_with rule (tree_of v) h (hv_hash b) dp dprop allowed_height.
Proof.
  unfold tree_with. pose proof (engine_can_change rule h seals allowed_height Hgood) as Hcan. destruct (takes_lead _ _ _ _ _) eqn:Ht; unfold takes_lead in Ht.
  - apply andb_true_iff in Ht as [Hm%N.ltb_lt Hal]. rewrite Hal in Hcan. by apply arrives_best.
  - apply arrives_aside. apply andb_false_iff in Ht as [Hm%N.ltb_ge|Hal]; [by left|]. right. by rewrite Hal in Hcan.
Qed.
End Arrive.

(** * Every call keeps to the tree *)

Definition upholds (rule : BestRule) (g : N) (genesis : H256) (v : view) : Prop :=
  sound genesis v ∧ scored rule g (vw_details v) ∧ leads rule (tree_of v).

(** The bytes of the headers that were put into the tree. *)
Definition seen_insert (t : HeaderTree) (h : Header) (seen : gmap H256 bytes) : gmap H256 bytes :=
  let b := Header_rlp h With in match ht_details t !! hv_hash b with Some _ => seen | None => <[hv_hash b := b]> seen end.

Lemma header_inserted rule g genesis v h allowed_height :
  upholds rule g genesis v → admissible rule (tree_of v) (HeaderArrived h allowed_height) →
  ∃ v' r batch f, acts_of shows (insert_header (Header_rlp h With) (engine_of rule allowed_height)) v (Ok (r, batch)) f ∧
    leaves f batch v v' ∧ upholds rule g genesis v' ∧ tree_of v' = tree_insert rule h allowed_height (tree_of v) ∧
    vw_headers v' = seen_insert (tree_of v) h (vw_headers v).
Proof.
  intros (Hsound & Hsc & Hl) Hadm. unfold seen_insert.
  destruct (ht_details (tree_of v) !! hv_hash (Header_rlp h With)) as [d|] eqn:Hk.
  { exists v, None, [], id. split; [apply insert_header_known; by eexists|]. split; [apply leaves_nothing|]. split; [done|].
    split; [|done]. unfold tree_insert. by rewrite Hk. }
  destruct (admissible_arrival rule g genesis (tree_of v) h allowed_height (so_tree _ _ Hsound) Hsc Hl (so_best _ _ Hsound)
    (so_proposal _ _ Hsound) Hadm Hk) as (seals & dp & dbest & dprop & Hg & Hsm & Hf & A).
  destruct (arrives rule g genesis v Hsound h seals dp dbest dprop allowed_height Hg Hsm Hf A)
    as (v' & (r & batch & f & Hact & Hlv) & Hsound' & Hput & Hv').
  destruct (header_views h seals Hg) as (_ & _ & _ & Henc). rewrite Henc. exists v', r, batch, f. split_and!; [done|done| | |done].
  - split; [done|]. change (vw_details v') with (ht_details (tree_of v')). rewrite Hv', tree_with_details.
    split; [by eapply scored_more|by eapply tree_with_leads].
  - rewrite Hv'. symmetry. eapply tree_with_insert; [exact A|]. by rewrite Henc.
Qed.

(** What is committed. *)
Lemma block_committed rule g genesis v hash :
  upholds rule g genesis v → admissible rule (tree_of v) (BlockCommitted hash) →
  ∃ v' batch f, acts_of shows (update_best_as_committed hash) v (Ok batch) f ∧ leaves f batch v v' ∧ upholds rule g genesis v' ∧
    tree_of v' = tree_commit hash (tree_of v) ∧ vw_headers v' = vw_headers v.
Proof.
  intros (Hsound & Hsc & Hl) (-> & d & dbest & dprop & Hd & Hb & Hpr & Hcase). simpl in *.
  destruct (so_stored _ _ Hsound _ _ Hd) as (b & Hst). destruct (so_stored _ _ Hsound _ _ Hb) as (bb & Hstb).
  destruct (update_best_ok v hash d b dbest bb Hst Hstb (so_small _ _ Hsound _ _ Hd)) as (batch & f & Hact & Hlv).
  eexists _, batch, f. split; [exact Hact|]. split; [exact Hlv|]. unfold tree_commit. simpl. rewrite Hd, Hb.
  destruct (N.ltb_spec (bd_number d) (bd_number dbest)) as [Hlt|Hge]; [done|].
  destruct Hcase as [?|[Hle Hplace]]; [lia|]. split; [|done]. split; [|split; [done|]].
  - destruct Hsound as [Ht Hsto Hhd Hsm Htot Hbe Hpro HI]. split; simpl; [done| |done|done|done|by eexists|by eexists|].
    + intros x dx Hx. destruct (Hsto x dx Hx) as (bx & []). exists bx. by split.
    + destruct Hplace as [->|[Hpos [Hpar|[Hpar Hnum]]]].
      * by apply canonical_again.
      * destruct (parent_known _ _ Ht hash d Hd Hpos) as (d' & Hd' & Hn').
        by apply (canonical_push _ _ (vw_best v) dbest); [done|done|done|done|congruence].
      * apply (canonical_sibling _ genesis Ht _ (vw_best v) dbest); done.
  - destruct (Hl dbest dprop Hb Hpr) as [_ Htop]. intros db dpr. simpl. intros ? ?. simplify_eq. split; [lia|].
    intros x dx Hx%Htop. lia.
Qed.

Definition models (rule : BestRule) (g : N) (genesis : H256) (s : HeaderChain) (t : HeaderTree) : Prop :=
  ∃ v, shows s v ∧ upholds rule g genesis v ∧ t = tree_of v.

Lemma models_call rule g genesis s t c :
  models rule g genesis s t → admissible rule t c →
  ∃ s', chain_call rule c s = (Ok (), s') ∧ models rule g genesis s' (tree_call rule t c).
Proof.
  intros (v & Hs & Hu & ->) Hadm. destruct c as [h a|hash].
  - destruct (header_inserted _ _ _ _ _ _ Hu Hadm) as (v' & r & batch & f & Hact & Hl & Hu' & Ht & _).
    destruct (commit_header_leaves s v v' h _ r batch f Hact Hl Hs) as (s' & E & Hs'). exists s'. split.
    + simpl. unfold mbind, stM_bind. by rewrite E.
    + by exists v'.
  - destruct (block_committed _ _ _ _ _ Hu Hadm) as (v' & batch & f & Hact & Hl & Hu' & Ht & _).
    destruct (commit_best_leaves s v v' hash batch f Hact Hl Hs) as (s' & E & Hs'). exists s'. split; [done|]. by exists v'.
Qed.

Lemma models_calls rule g genesis calls s t :
  models rule g genesis s t → all_admissible rule t calls →
  ∃ s', for_each (chain_call rule) calls s = (Ok (), s') ∧ models rule g genesis s' (foldl (tree_call rule) t calls).
Proof.
  revert s t. induction calls as [|c calls IH]; intros s t Hm Hadm; [by exists s|]. destruct Hadm as [Hc Hadm].
  destruct (models_call _ _ _ _ _ _ Hm Hc) as (s1 & E1 & Hm1).
  destruct (IH _ _ Hm1 Hadm) as (s' & E' & Hm'). exists s'. split; [|done]. simpl. unfold mbind, stM_bind. by rewrite E1.
Qed.

(** * From the genesis on *)

Definition empty_db : ChainDB := {| db_headers := ∅; db_details := ∅; db_hashes := ∅; db_best_header := None; db_best_proposal_header := None |}.

Definition tree_genesis (hash : H256) (g : Header) : HeaderTree := {|
  ht_details := {[hash := {| bd_number := hd_number g; bd_total_score := hd_score g; bd_parent := hd_parent_hash g |}]};
  ht_best := hash; ht_proposal := hash |}.

Lemma new_shows rule g seals :
  good_header g seals → hd_number g = 0 → let b := header_bytes g seals in
  ∃ s v, HeaderChain_new b empty_db = Ok s ∧ shows s v ∧ upholds rule (hd_score g) (hv_hash b) v ∧
    tree_of v = tree_genesis (hv_hash b) g ∧ vw_headers v = {[hv_hash b := b]}.
Proof.
  intros Hg Hz b. destruct (header_views g seals Hg) as (Hn & Hp & Hs & _). destruct (header_again g seals Hg) as (h' & Hh').
  fold b in Hn, Hp, Hs, Hh'. pose proof (plain_reads_back (List (header_items g seals)) (proj2 Hg)) as Hplain.
  change (enc (List (header_items g seals))) with b in Hplain.
  unfold HeaderChain_new. simpl. rewrite Hn, Hs, Hp. simpl.
  set (d := {| bd_number := hd_number g; bd_total_score := hd_score g; bd_parent := hd_parent_hash g |}). eexists.
  exists {| vw_details := {[hv_hash b := d]}; vw_headers := {[hv_hash b := b]}; vw_hashes := {[0 := hv_hash b]};
            vw_best := hv_hash b; vw_proposal := hv_hash b |}. split; [done|]. split; [|split; [split; [|split]|done]].
  - split; simpl; try done; try apply map_empty_subseteq.
    + intros hash. destruct (decide (hash = hv_hash b)) as [->|Hne].
      * rewrite lookup_singleton_eq, lookup_insert_eq. by exists b.
      * rewrite lookup_singleton_ne by done. by rewrite lookup_insert_ne by done.
    + by rewrite Hz.
  - split; simpl.
    + split; [exists d; by rewrite lookup_singleton_eq|]. intros h x [<- <-]%lookup_singleton_Some. by left.
    + intros h x [<- <-]%lookup_singleton_Some. exists b. split; simpl; rewrite ?lookup_singleton_eq; eauto.
    + intros h x [<- <-]%lookup_singleton_Some. by rewrite lookup_singleton_eq.
    + intros h x [<- <-]%lookup_singleton_Some. simpl. by rewrite Hz.
    + intros h x bx [<- <-]%lookup_singleton_Some. simpl. rewrite Hz. lia.
    + by rewrite lookup_singleton_eq.
    + by rewrite lookup_singleton_eq.
    + intros x n [_ <-]%lookup_singleton_Some Hle. simpl in *. rewrite Hz in *. replace n with 0 by lia. done.
  - destruct rule; simpl.
    + intros x dx d' [<- <-]%lookup_singleton_Some. simpl. lia.
    + intros x dx [<- <-]%lookup_singleton_Some. simpl. rewrite Hz. unfold top_score. lia.
  - intros db dpr. simpl. rewrite lookup_singleton_eq. intros [= <-] [= <-].
    destruct rule; (split; [simpl; done || lia|]); intros x dx [<- <-]%lookup_singleton_Some; done.
Qed.

Lemma new_models rule g seals :
  good_header g seals → hd_number g = 0 → let b := header_bytes g seals in
  ∃ s, HeaderChain_new b empty_db = Ok s ∧ models rule (hd_score g) (hv_hash b) s (tree_genesis (hv_hash b) g).
Proof. intros Hg Hz b. destruct (new_shows rule g seals Hg Hz) as (s & v & E & Hs & Hu & Ht & _). exists s. split; [done|]. by exists v. Qed.

(** A node that starts again with the database. *)
Lemma restart_shows s v b : shows s v → ∃ s1, HeaderChain_new b (hc_db s) = Ok s1 ∧ shows s1 v.
Proof.
  intros Hs. unfold HeaderChain_new. rewrite (sh_db_best _ _ Hs). simpl. rewrite (sh_db_proposal _ _ Hs). simpl.
  eexists. split; [done|]. destruct Hs. split; simpl; try done; apply map_empty_subseteq.
Qed.
Lemma restart_models rule g genesis s t b : models rule g genesis s t →
  ∃ s1, HeaderChain_new b (hc_db s) = Ok s1 ∧ models rule g genesis s1 t.
Proof. intros (v & Hs & Hrest). destruct (restart_shows s v b Hs) as (s1 & E & Hs1). exists s1. split; [done|]. by exists v. Qed.

(** What the chain answers. *)
Definition answers (s : HeaderChain) (t : HeaderTree) : Prop :=
  hc_best_header_hash s = ht_best t ∧ hc_best_proposal_header_hash s = ht_proposal t ∧
  (∀ hash, ∃ s', block_details hash s = (Ok (ht_details t !! hash), s')) ∧
  (∀ n, ∃ s', block_hash n s = (Ok (tree_hash t n), s')).

Lemma models_answers rule g genesis s t : models rule g genesis s t → answers s t.
Proof.
  intros (v & Hs & (Hsound & _) & ->). split_and!; [apply Hs|apply Hs| |].
  - intros hash. destruct (peeks_details hash v s Hs) as (s' & E & _). by exists s'.
  - intros n. destruct (so_best _ _ Hsound) as [d Hd]. destruct (so_stored _ _ Hsound _ _ Hd) as (b & Hst).
    assert (peeks_of shows (block_hash n) v (Ok (tree_hash (tree_of v) n))) as Hp.
    { unfold block_hash, tree_hash. eapply peeks_bind; [apply peeks_best, Hst|]. rewrite (st_number _ _ _ _ Hst).
      apply peeks_lift_bind. simpl. rewrite Hd. simpl.
      destruct (N.ltb_spec (bd_number d) n), (N.leb_spec n (bd_number d)); try lia; [apply peeks_ret|].
      rewrite <-(so_index _ _ Hsound d n Hd) by done. apply peeks_hash. pose proof (so_small _ _ Hsound _ _ Hd). lia. }
    destruct (Hp s Hs) as (s' & E & _). by exists s'.
Qed.

(** C19: After any calls that the node makes, under the default rule of the best block and under that of Tendermint, the header chain with
    its caches, pending updates and batches answers as the tree of the headers does: no call unwinds, the best header is the one that
    the rule picks, and by number it has the ancestors of the best header and nothing above it.  So does the chain of a node that is
    started again with the same database. *)
Theorem header_chain_canonical (rule : BestRule) (g : Header) (seals : list rlp_item) (calls : list ChainCall) :
  let b := header_bytes g seals in
  good_header g seals → hd_number g = 0 → all_admissible rule (tree_genesis (hv_hash b) g) calls →
  ∃ s0 s s1, HeaderChain_new b empty_db = Ok s0 ∧ for_each (chain_call rule) calls s0 = (Ok (), s) ∧
    HeaderChain_new b (hc_db s) = Ok s1 ∧
    let t := foldl (tree_call rule) (tree_genesis (hv_hash b) g) calls in answers s t ∧ answers s1 t.
Proof.
  intros b Hg Hz Hadm. destruct (new_models rule g seals Hg Hz) as (s0 & E0 & Hm0).
  destruct (models_calls _ _ _ _ _ _ Hm0 Hadm) as (s & E & Hm). destruct (restart_models _ _ _ _ _ b Hm) as (s1 & E1 & Hm1).
  exists s0, s, s1. do 3 (split; [done|]). split; by eapply models_answers.
Qed.

(** C20: Between two headers that the chain has there is a route, and the walk for it ends: what it retracts are the headers from the
    first one up to an ancestor of both, what it enacts those from there to the second one in the order of their numbers, and no
    ancestor of both is above it. *)
Theorem tree_route_exact (rule : BestRule) (g : Header) (seals : list rlp_item) (calls : list ChainCall) from to df dt :
  let b := header_bytes g seals in
  let t := foldl (tree_call rule) (tree_genesis (hv_hash b) g) calls in
  good_header g seals → hd_number g = 0 → all_admissible rule (tree_genesis (hv_hash b) g) calls →
  ht_details t !! from = Some df → ht_details t !! to = Some dt →
  ∃ s0 s s' i j a da, HeaderChain_new b empty_db = Ok s0 ∧ for_each (chain_call rule) calls s0 = (Ok (), s) ∧
    tree_route from to s = (Ok (Some {| tr_ancestor := a; tr_retracted := trail (ht_details t) i from;
                                        tr_enacted := reverse (trail (ht_details t) j to) |}), s') ∧
    anc (ht_details t) i from = Some a ∧ anc (ht_details t) j to = Some a ∧ ht_details t !! a = Some da ∧
    bd_number da + N.of_nat i = bd_number df ∧ bd_number da + N.of_nat j = bd_number dt ∧
    ∀ n, bd_number da < n → n ≤ bd_number df → n ≤ bd_number dt →
      anc (ht_details t) (N.to_nat (bd_number df - n)) from ≠ anc (ht_details t) (N.to_nat (bd_number dt - n)) to.
Proof.
  intros b t Hg Hz Hadm Hf Ht. destruct (new_models rule g seals Hg Hz) as (s0 & E0 & Hm0).
  destruct (models_calls _ _ _ _ _ _ Hm0 Hadm) as (s & E & (v & Hs & (Hsound & _) & Ht')). fold b t in Ht'. rewrite Ht' in *.
  destruct (tree_route_ok v _ (so_tree _ _ Hsound) (so_stored _ _ Hsound) _ _ _ _ Hf Ht) as (i & j & a & da & Hroute & Hrest).
  destruct (Hroute s Hs) as (s' & E' & _). exists s0, s, s', i, j, a, da. split; [done|]. split; [done|]. split; [exact E'|exact Hrest].
Qed.
End Props.
