(* ===== verification/HeaderChainScenario.v ===== *)
(** Runs of the header chain: branches that overtake each other, with Tendermint and with the default rule of the best block. *)
From Stdlib Require Import NArith Lia.
From stdpp Require Import base gmap list numbers.
From S2P Require Import TmWorker.
From S2P Require Import Prelude Types Crypto Rlp RlpImpls RlpCompress StakeSpec Header HeaderChain HeaderChainFacts HeaderChainStep HeaderChainProps.

Local Open Scope N_scope.

Module HeaderChainWitness.

(** A digest that is quick to evaluate. *)
Definition mix (input : bytes) : N := foldl (λ acc b, (acc * 257 + b + 1) mod (2 ^ 31 - 1)) 7 input.

#[local] Instance crypto : Crypto := {|
  blake2b n key input := to_be_bytes (N.to_nat n) (mix input);
  ripemd160 := @ripemd160 Sample.crypto; sha256 := @sha256 Sample.crypto;
  keccak256 := @keccak256 Sample.crypto; verify_ecdsa := @verify_ecdsa Sample.crypto;
  recover_ecdsa := @recover_ecdsa Sample.crypto |}.

#[local] Instance laws : CryptoLaws.
Proof.
  split.
  - intros. simpl. unfold len. rewrite to_be_bytes_length. lia.
  - intros. apply to_be_bytes_ok.
  - exact (@recover_len Sample.crypto Sample.laws).
  - exact (@recover_no_panic Sample.crypto Sample.laws).
Qed.

(** * A test of the calls *)

Definition header_test (h : Header) : bool :=
  bool_decide (hd_seal h = []) && (len (hd_parent_hash h) =? 32) && (len (hd_author h) =? 20) &&
  (len (hd_state_root h) =? 32) && (len (hd_transactions_root h) =? 32) &&
  (hd_score h <? 256 ^ 32) && (hd_number h <? 256 ^ 8) && (hd_timestamp h <? 256 ^ 8) &&
  (len (enc (List (header_items h []))) <? u32_size).

Lemma header_test_ok h : header_test h = true → good_header h [].
Proof.
  unfold header_test. rewrite !andb_true_iff, bool_decide_eq_true, !N.eqb_eq, !N.ltb_lt. intros H. by repeat split; try apply H.
Qed.

Definition rule_test (rule : BestRule) (h : Header) (allowed_height : BlockNumber) : bool :=
  match rule with
  | ProposalIsBest => 0 <? hd_score h
  | ParentIsBest =>
      let w := (u128_size - 1) * hd_number h - hd_score h in
      (w <? u64_size) && (hd_score h <=? (u128_size - 1) * hd_number h) && (allowed_height <=? hd_number h)
  end.

Definition arrival_test (rule : BestRule) (t : HeaderTree) (h : Header) (allowed_height : BlockNumber) : bool :=
  match ht_details t !! hd_parent_hash h with
  | Some dp =>
      header_test h && (hd_number h =? bd_number dp + 1) && (hd_number h <? u32_size) &&
      (bd_total_score dp + hd_score h <? u256_size) && rule_test rule h allowed_height
  | None => false
  end.

Lemma arrival_test_ok rule t h allowed_height :
  arrival_test rule t h allowed_height = true → admissible rule t (HeaderArrived h allowed_height).
Proof.
  unfold arrival_test. destruct (ht_details t !! hd_parent_hash h) as [dp|] eqn:Hp; [|done].
  rewrite !andb_true_iff, N.eqb_eq, !N.ltb_lt. intros [[[[Hh Hn] Hs] Hf] Hr]. right. exists [], dp.
  split_and!; [by apply header_test_ok|done|done|done|done|]. unfold rule_test in Hr. destruct rule; [by apply N.ltb_lt|].
  rewrite !andb_true_iff, N.ltb_lt, !N.leb_le in Hr. destruct Hr as [[Hw Hle] Ha]. split; [|intros; by left].
  exists ((u128_size - 1) * hd_number h - hd_score h). split; [done|]. unfold calculate_score, assert.
  rewrite (proj2 (N.leb_le _ _)) by lia. simpl. f_equal. lia.
Qed.

(** A block that is committed on the best header, at the height of the best proposal. *)
Definition child_test (t : HeaderTree) (hash : H256) : bool :=
  match ht_details t !! hash, ht_details t !! ht_best t, ht_details t !! ht_proposal t with
  | Some d, Some _, Some dprop => (0 <? bd_number d) && (bd_number dprop <=? bd_number d) && bool_decide (bd_parent d = ht_best t)
  | _, _, _ => false
  end.

Lemma child_test_ok t hash : child_test t hash = true → admissible ParentIsBest t (BlockCommitted hash).
Proof.
  unfold child_test. destruct (ht_details t !! hash) as [d|] eqn:Hd; [|done].
  destruct (ht_details t !! ht_best t) as [dbest|] eqn:Hb; [|done]. destruct (ht_details t !! ht_proposal t) as [dprop|] eqn:Hp; [|done].
  rewrite !andb_true_iff, N.ltb_lt, N.leb_le, bool_decide_eq_true. intros [[Hpos Hle] Hpar]. split; [done|].
  exists d, dbest, dprop. split_and!; [done..|]. right. split; [done|]. right. split; [done|]. by left.
Qed.

Definition call_test (rule : BestRule) (t : HeaderTree) (c : ChainCall) : bool :=
  match c, rule with
  | HeaderArrived h a, _ => arrival_test rule t h a
  | BlockCommitted hash, ParentIsBest => child_test t hash
  | BlockCommitted _, ProposalIsBest => false
  end.
Fixpoint calls_test (rule : BestRule) (t : HeaderTree) (calls : list ChainCall) : bool :=
  match calls with
  | [] => true
  | c :: calls => call_test rule t c && calls_test rule (tree_call rule t c) calls
  end.

Lemma calls_test_ok rule calls t : calls_test rule t calls = true → all_admissible rule t calls.
Proof.
  revert t. induction calls as [|c calls IH]; intros t; [done|]. simpl. rewrite andb_true_iff. intros [Hc Hcs].
  split; [|by apply IH]. destruct c; [by apply arrival_test_ok|]. destruct rule; [done|by apply child_test_ok].
Qed.

(** * Headers *)

Definition on (parent : H256) (number score extra : N) : Header := {|
  hd_parent_hash := parent; hd_timestamp := 5 + number; hd_number := number; hd_author := replicate 20 1;
  hd_extra_data := [extra]; hd_transactions_root := BLAKE_NULL_RLP; hd_state_root := BLAKE_NULL_RLP;
  hd_score := score; hd_seal := []; hd_hash_memo := None; hd_bare_hash_memo := None |}.
Definition hash_of (h : Header) : H256 := hv_hash (header_bytes h []).

Definition genesis : Header := on (replicate 32 0) 0 100 0.
Definition genesis_hash : H256 := Eval vm_compute in hash_of genesis.
Definition root : HeaderTree := tree_genesis (hash_of genesis) genesis.

(** Tendermint: of two blocks of height 2 the one of view 1 is committed, and then the chain goes on from the one of view 0. *)
Definition view_score (height w : N) : N := (u128_size - 1) * height - w.
Definition a1 : Header := on genesis_hash 1 (view_score 1 0) 1.
Definition a1_hash : H256 := Eval vm_compute in hash_of a1.
Definition a2 : Header := on a1_hash 2 (view_score 2 1) 2.
Definition b2 : Header := on a1_hash 2 (view_score 2 0) 3.
Definition b2_hash : H256 := Eval vm_compute in hash_of b2.
Definition b3 : Header := on b2_hash 3 (view_score 3 0) 4.
Definition bft_calls : list ChainCall :=
  [HeaderArrived a1 0; HeaderArrived a2 1; HeaderArrived b2 2; HeaderArrived b2 2; BlockCommitted (hash_of a2); HeaderArrived b3 3].

Lemma header_chain_canonical_witness :
  ∃ s0 s s1, HeaderChain_new (header_bytes genesis []) empty_db = Ok s0 ∧
    for_each (chain_call ParentIsBest) bft_calls s0 = (Ok (), s) ∧ HeaderChain_new (header_bytes genesis []) (hc_db s) = Ok s1 ∧
    let t := foldl (tree_call ParentIsBest) root bft_calls in
    tree_hash t <$> [0; 1; 2; 3] = [Some (hash_of genesis); Some (hash_of a1); Some (hash_of b2); None] ∧
    answers s t ∧ answers s1 t.
Proof.
  destruct (header_chain_canonical ParentIsBest genesis [] bft_calls) as (s0 & s & s1 & E0 & E & E1 & Ha).
  - apply header_test_ok. vm_compute. reflexivity.
  - reflexivity.
  - apply calls_test_ok. vm_compute. reflexivity.
  - exists s0, s, s1. do 3 (split; [assumption|]). split; [vm_compute; reflexivity|exact Ha].
Defined.

(** The default rule: a branch of two headers is overtaken by a heavier one of one header. *)
Definition d1 : Header := on genesis_hash 1 10 1.
Definition d1_hash : H256 := Eval vm_compute in hash_of d1.
Definition d2 : Header := on d1_hash 2 10 2.
Definition e1 : Header := on genesis_hash 1 30 3.
Definition e1_hash : H256 := Eval vm_compute in hash_of e1.
Definition e2 : Header := on e1_hash 2 5 4.
Definition pow_calls : list ChainCall := [HeaderArrived d1 0; HeaderArrived d2 0; HeaderArrived e1 0; HeaderArrived e2 0].

Lemma tree_route_exact_witness :
  let t := foldl (tree_call ProposalIsBest) root pow_calls in
  ht_best t = hash_of e2 ∧
  ∃ s0 s s' i j a, HeaderChain_new (header_bytes genesis []) empty_db = Ok s0 ∧
    for_each (chain_call ProposalIsBest) pow_calls s0 = (Ok (), s) ∧
    tree_route (hash_of d2) (hash_of e1) s = (Ok (Some {| tr_ancestor := a; tr_retracted := trail (ht_details t) i (hash_of d2);
      tr_enacted := reverse (trail (ht_details t) j (hash_of e1)) |}), s').
Proof.
  cbv zeta. split; [vm_compute; reflexivity|].
  destruct (tree_route_exact ProposalIsBest genesis [] pow_calls (hash_of d2) (hash_of e1)
      {| bd_number := 2; bd_total_score := 120; bd_parent := d1_hash |}
      {| bd_number := 1; bd_total_score := 130; bd_parent := genesis_hash |})
    as (s0 & s & s' & i & j & a & da & E0 & E & Hroute & _).
  - apply header_test_ok. vm_compute. reflexivity.
  - reflexivity.
  - apply calls_test_ok. vm_compute. reflexivity.
  - vm_compute. reflexivity.
  - vm_compute. reflexivity.
  - exists s0, s, s', i, j, a. split; [exact E0|]. split; [exact E|exact Hroute].
Defined.
End HeaderChainWitness.
