(* ===== verification/BlockChain.v ===== *)
(** The chain of blocks (core/src/blockchain/ blockchain.rs, body_db.rs and invoice_db.rs, the rest of extras.rs, route.rs and
    block_info.rs, and the calls of core/src/client/importer.rs): on top of the header chain it keeps the bodies, the best block, where
    the transactions of the canonical chain are, by their hashes and by their trackers, and the error hints of failed ones. *)
From Stdlib Require Import NArith Lia.
From stdpp Require Import base gmap list numbers.
From S2P Require Import Prelude Types Crypto Rlp RlpImpls RlpCompress TxHash Header HeaderChain.

Local Open Scope N_scope.

(** * Addresses of transactions *)

Record TransactionAddress := {
  ta_block_hash : H256;
  ta_index : N;
}.
#[global] Instance TransactionAddress_eq_dec : EqDecision TransactionAddress.
Proof. solve_decision. Defined.

(** The addresses of the transactions with one tracker, and [+=] and [-=] on them. *)
Abbreviation TransactionAddresses := (list TransactionAddress).
Definition addresses_add (self rhs : TransactionAddresses) : TransactionAddresses := self ++ filter (λ a, a ∉ self) rhs.
Definition addresses_sub (self rhs : TransactionAddresses) : TransactionAddresses := filter (λ a, a ∉ rhs) self.

Inductive BestBlockChanged :=
| BlockAppended (best_block : bytes)
| NoBlockChanged
| BranchBecoming (best_block : bytes) (tree_route : TreeRoute).

Record ImportRoute := {
  ir_retracted : list H256;
  ir_enacted : list H256;
  ir_omitted : list H256;
}.

Record Invoice := {
  inv_tracker : option H256;
  inv_hash : H256;
  inv_error : option String;
}.

Record LocalizedTransaction := {
  lt_signed : UnverifiedTransaction;
  lt_block_number : BlockNumber;
  lt_block_hash : H256;
  lt_transaction_index : N;
}.

(** * The database *)

(** What is written, besides the header chain's; [None] deletes. *)
Inductive ChainOp :=
| HeaderOp (op : DbOp)
| PutBody (hash : H256) (compressed_body : bytes)
| WriteParcel (hash : H256) (address : option TransactionAddress)
| WriteTracker (tracker : H256) (addresses : option TransactionAddresses)
| WriteInvoices (tracker : H256) (hints : list (H256 * option String))
| WriteHint (hash : H256) (hint : option String)
| PutBestBlock (hash : H256)
| PutBestProposalBlock (hash : H256).
Definition ChainBatch : Type := list ChainOp.

Record BodyDB := {
  bo_body_cache : gmap H256 bytes;
  bo_parcel_address_cache : gmap H256 TransactionAddress;
  bo_pending_parcel_addresses : gmap H256 (option TransactionAddress);
  bo_transaction_address_cache : gmap H256 TransactionAddresses;
  bo_pending_transaction_addresses : gmap H256 (option TransactionAddresses);
  bo_db_bodies : gmap H256 bytes;
  bo_db_parcels : gmap H256 TransactionAddress;
  bo_db_trackers : gmap H256 TransactionAddresses;
}.

Record InvoiceDB := {
  iv_tracker_cache : gmap H256 (list (H256 * option String));
  iv_hash_cache : gmap H256 (option String);
  iv_db_trackers : gmap H256 (list (H256 * option String));
  iv_db_hints : gmap H256 (option String);
}.

Record BlockChain := {
  bc_best_block_hash : H256;
  bc_best_proposal_block_hash : H256;
  bc_headerchain : HeaderChain;
  bc_body_db : BodyDB;
  bc_invoice_db : InvoiceDB;
  bc_pending_best_block_hash : option H256;
  bc_pending_best_proposal_block_hash : option H256;
  bc_db_best_block : option H256;
  bc_db_best_proposal_block : option H256;
}.

Abbreviation boM := (stM BodyDB Empty_set).
Abbreviation ivM := (stM InvoiceDB Empty_set).
Abbreviation bcM := (stM BlockChain Empty_set).

Definition bo_caches (bodies : gmap H256 bytes) (parcels : gmap H256 TransactionAddress) (trackers : gmap H256 TransactionAddresses)
  (s : BodyDB) : BodyDB := {|
  bo_body_cache := bodies; bo_parcel_address_cache := parcels; bo_pending_parcel_addresses := bo_pending_parcel_addresses s;
  bo_transaction_address_cache := trackers; bo_pending_transaction_addresses := bo_pending_transaction_addresses s;
  bo_db_bodies := bo_db_bodies s; bo_db_parcels := bo_db_parcels s; bo_db_trackers := bo_db_trackers s |}.
Definition bo_pending (parcels : gmap H256 (option TransactionAddress)) (trackers : gmap H256 (option TransactionAddresses))
  (s : BodyDB) : BodyDB := {|
  bo_body_cache := bo_body_cache s; bo_parcel_address_cache := bo_parcel_address_cache s; bo_pending_parcel_addresses := parcels;
  bo_transaction_address_cache := bo_transaction_address_cache s; bo_pending_transaction_addresses := trackers;
  bo_db_bodies := bo_db_bodies s; bo_db_parcels := bo_db_parcels s; bo_db_trackers := bo_db_trackers s |}.
Definition bo_store (bodies : gmap H256 bytes) (parcels : gmap H256 TransactionAddress) (trackers : gmap H256 TransactionAddresses)
  (s : BodyDB) : BodyDB := {|
  bo_body_cache := bo_body_cache s; bo_parcel_address_cache := bo_parcel_address_cache s;
  bo_pending_parcel_addresses := bo_pending_parcel_addresses s; bo_transaction_address_cache := bo_transaction_address_cache s;
  bo_pending_transaction_addresses := bo_pending_transaction_addresses s;
  bo_db_bodies := bodies; bo_db_parcels := parcels; bo_db_trackers := trackers |}.
Definition iv_caches (trackers : gmap H256 (list (H256 * option String))) (hints : gmap H256 (option String)) (s : InvoiceDB) : InvoiceDB :=
  {| iv_tracker_cache := trackers; iv_hash_cache := hints; iv_db_trackers := iv_db_trackers s; iv_db_hints := iv_db_hints s |}.
Definition iv_store (trackers : gmap H256 (list (H256 * option String))) (hints : gmap H256 (option String)) (s : InvoiceDB) : InvoiceDB :=
  {| iv_tracker_cache := iv_tracker_cache s; iv_hash_cache := iv_hash_cache s; iv_db_trackers := trackers; iv_db_hints := hints |}.

Definition bc_parts (h : HeaderChain) (b : BodyDB) (i : InvoiceDB) (s : BlockChain) : BlockChain := {|
  bc_best_block_hash := bc_best_block_hash s; bc_best_proposal_block_hash := bc_best_proposal_block_hash s;
  bc_headerchain := h; bc_body_db := b; bc_invoice_db := i;
  bc_pending_best_block_hash := bc_pending_best_block_hash s;
  bc_pending_best_proposal_block_hash := bc_pending_best_proposal_block_hash s;
  bc_db_best_block := bc_db_best_block s; bc_db_best_proposal_block := bc_db_best_proposal_block s |}.
Definition bc_pending (best proposal : option H256) (s : BlockChain) : BlockChain := {|
  bc_best_block_hash := bc_best_block_hash s; bc_best_proposal_block_hash := bc_best_proposal_block_hash s;
  bc_headerchain := bc_headerchain s; bc_body_db := bc_body_db s; bc_invoice_db := bc_invoice_db s;
  bc_pending_best_block_hash := best; bc_pending_best_proposal_block_hash := proposal;
  bc_db_best_block := bc_db_best_block s; bc_db_best_proposal_block := bc_db_best_proposal_block s |}.
Definition bc_db_best (best proposal : option H256) (s : BlockChain) : BlockChain := {|
  bc_best_block_hash := bc_best_block_hash s; bc_best_proposal_block_hash := bc_best_proposal_block_hash s;
  bc_headerchain := bc_headerchain s; bc_body_db := bc_body_db s; bc_invoice_db := bc_invoice_db s;
  bc_pending_best_block_hash := bc_pending_best_block_hash s;
  bc_pending_best_proposal_block_hash := bc_pending_best_proposal_block_hash s;
  bc_db_best_block := best; bc_db_best_proposal_block := proposal |}.

Definition on_headers {A : Type} (m : stM HeaderChain Empty_set A) : bcM A := λ s,
  let (r, h) := m (bc_headerchain s) in (r, bc_parts h (bc_body_db s) (bc_invoice_db s) s).
Definition on_bodies {A : Type} (m : boM A) : bcM A := λ s,
  let (r, b) := m (bc_body_db s) in (r, bc_parts (bc_headerchain s) b (bc_invoice_db s) s).
Definition on_invoices {A : Type} (m : ivM A) : bcM A := λ s,
  let (r, i) := m (bc_invoice_db s) in (r, bc_parts (bc_headerchain s) (bc_body_db s) i s).

Fixpoint map_st {S E A B : Type} (f : A → stM S E B) (l : list A) : stM S E (list B) :=
  match l with
  | [] => mret []
  | x :: l => y ← f x; ys ← map_st f l; mret (y :: ys)
  end.

(** One entry after the other into a map: the last one under a key stays. *)
Definition collect {V : Type} (l : list (H256 * V)) : gmap H256 V := foldl (λ m '(k, v), <[k := v]> m) ∅ l.

Definition set_or_delete {V : Type} (key : H256) (v : option V) (m : gmap H256 V) : gmap H256 V := partial_alter (λ _, v) key m.

Definition apply_chain_op (s : BlockChain) (op : ChainOp) : BlockChain :=
  let h := bc_headerchain s in let b := bc_body_db s in let i := bc_invoice_db s in
  match op with
  | HeaderOp op => bc_parts (set_db (apply_op (hc_db h) op) h) b i s
  | PutBody hash body => bc_parts h (bo_store (<[hash := body]> (bo_db_bodies b)) (bo_db_parcels b) (bo_db_trackers b) b) i s
  | WriteParcel hash v => bc_parts h (bo_store (bo_db_bodies b) (set_or_delete hash v (bo_db_parcels b)) (bo_db_trackers b) b) i s
  | WriteTracker tracker v =>
      bc_parts h (bo_store (bo_db_bodies b) (bo_db_parcels b) (set_or_delete tracker v (bo_db_trackers b)) b) i s
  | WriteInvoices tracker hints => bc_parts h b (iv_store (<[tracker := hints]> (iv_db_trackers i)) (iv_db_hints i) i) s
  | WriteHint hash hint => bc_parts h b (iv_store (iv_db_trackers i) (<[hash := hint]> (iv_db_hints i)) i) s
  | PutBestBlock hash => bc_db_best (Some hash) (bc_db_best_proposal_block s) s
  | PutBestProposalBlock hash => bc_db_best (bc_db_best_block s) (Some hash) s
  end.
Definition write_chain (batch : ChainBatch) : bcM () := modify_st (λ s, foldl apply_chain_op s batch).

Section Chain.
Context `{Crypto}.

(** * Views of blocks and bodies *)

Definition bv_hash {E : Type} (rlp : bytes) : result E H256 := header ← bv_header_rlp rlp; Ok (hv_hash header).
Definition bv_transaction_hashes {E : Type} (rlp : bytes) : result E (list H256) :=
  transactions ← Rlp_at rlp 1; Ok (blake256 <$> rlp_iter transactions).
Definition body_transactions {E : Type} (rlp : bytes) : result E (list UnverifiedTransaction) :=
  Rlp_list_at UnverifiedTransaction_decode rlp 0.
Definition body_transaction_hashes {E : Type} (rlp : bytes) : result E (list H256) :=
  transactions ← Rlp_at rlp 0; Ok (blake256 <$> rlp_iter transactions).
Definition body_transaction_at {E : Type} (rlp : bytes) (index : N) : result E (option UnverifiedTransaction) :=
  transactions ← Rlp_at rlp 0;
  match rlp_iter transactions !! N.to_nat index with
  | Some rlp => tx ← Rlp_as_val UnverifiedTransaction_decode rlp; Ok (Some tx)
  | None => Ok None
  end.

(** [BlockView::new(best_block)] and its hash. *)
Definition changed_block (changed : BestBlockChanged) : option bytes :=
  match changed with
  | BlockAppended best_block | BranchBecoming best_block _ => Some best_block
  | NoBlockChanged => None
  end.
Definition changed_hash {E : Type} (changed : BestBlockChanged) : result E (option H256) :=
  match changed_block changed with
  | Some block => hash ← bv_hash block; Ok (Some hash)
  | None => Ok None
  end.

(** * Routes of imports *)

Definition ImportRoute_none : ImportRoute := {| ir_retracted := []; ir_enacted := []; ir_omitted := [] |}.
Definition ImportRoute_is_none (self : ImportRoute) : bool :=
  match self with {| ir_retracted := []; ir_enacted := []; ir_omitted := [] |} => true | _ => false end.

Definition omitted_unless (best : option H256) (hash : H256) : list H256 := if bool_decide (best = Some hash) then [] else [hash].

Definition ImportRoute_new (new_block_hash : H256) (changed : BestBlockChanged) : result Empty_set ImportRoute :=
  best ← changed_hash changed;
  let omitted := omitted_unless best new_block_hash in
  match changed with
  | BlockAppended _ =>
      best ← expect best;
      Ok {| ir_retracted := []; ir_enacted := [best]; ir_omitted := omitted |}
  | NoBlockChanged => Ok {| ir_retracted := []; ir_enacted := []; ir_omitted := omitted |}
  | BranchBecoming _ route =>
      best ← expect best;
      Ok {| ir_retracted := tr_retracted route; ir_enacted := tr_enacted route ++ [best]; ir_omitted := omitted |}
  end.

Definition ImportRoute_from_header (new_block_hash : H256) (changed : BestHeaderChanged) : ImportRoute :=
  let best := new_best_hash changed in
  let omitted := omitted_unless best new_block_hash in
  match changed with
  | CanonChainAppended best_header => {| ir_retracted := []; ir_enacted := [hv_hash best_header]; ir_omitted := omitted |}
  | NoneChanged => {| ir_retracted := []; ir_enacted := []; ir_omitted := omitted |}
  | BranchBecomingCanonChain best_header route =>
      {| ir_retracted := tr_retracted route; ir_enacted := tr_enacted route ++ [hv_hash best_header]; ir_omitted := omitted |}
  end.

(** * Bodies *)

Definition block_body (hash : H256) : boM (option bytes) := λ s,
  match bo_body_cache s !! hash with
  | Some v => (Ok (Some v), s)
  | None =>
      match bo_db_bodies s !! hash with
      | None => (Ok None, s)
      | Some b =>
          match decompress b blocks_swapper with
          | Ok raw_body =>
              (Ok (Some raw_body), bo_caches (<[hash := raw_body]> (bo_body_cache s)) (bo_parcel_address_cache s)
                                     (bo_transaction_address_cache s) s)
          | _ => (Panic, s)
          end
      end
  end.
Definition is_known_body (hash : H256) : boM bool :=
  body ← block_body hash; mret (match body with Some _ => true | None => false end).

(** The list of the transactions, in a list of its own. *)
Definition block_to_body (block : bytes) : result Empty_set bytes :=
  transactions ← Rlp_at block 1;
  drain (rlp_list 1 [append_raw transactions 1]).

Definition insert_body (block : bytes) : boM ChainBatch :=
  hash ← lift_st (bv_hash block);
  known ← is_known_body hash;
  if known : bool then mret []
  else
    body ← lift_st (block_to_body block);
    compressed_body ← lift_st (compress body blocks_swapper);
    mret [PutBody hash compressed_body].

(** ** Addresses by hash *)

Definition parcel_address_entries (block_hash : H256) (parcel_hashes : list H256) : list (H256 * option TransactionAddress) :=
  imap (λ index parcel_hash, (parcel_hash, Some {| ta_block_hash := block_hash; ta_index := N.of_nat index |})) parcel_hashes.

Definition body_hashes (hash : H256) : boM (list H256) :=
  body ← block_body hash;
  body ← lift_st (expect body);
  lift_st (body_transaction_hashes body).

Definition new_parcel_address_entries (changed : BestBlockChanged) : boM (gmap H256 (option TransactionAddress)) :=
  match changed_block changed with
  | None => mret ∅
  | Some block =>
      block_hash ← lift_st (bv_hash block);
      parcel_hashes ← lift_st (bv_transaction_hashes block);
      match changed with
      | BlockAppended _ => mret (collect (parcel_address_entries block_hash parcel_hashes))
      | BranchBecoming _ route =>
          retracted ← map_st body_hashes (tr_retracted route);
          enacted ← map_st (λ hash, hashes ← body_hashes hash; mret (parcel_address_entries hash hashes)) (tr_enacted route);
          mret (collect (((λ hash, (hash, None)) <$> concat retracted) ++ concat enacted ++
                         parcel_address_entries block_hash parcel_hashes))
      | NoBlockChanged => mret ∅
      end
  end.

(** ** Addresses by tracker *)

Definition transaction_address_entries (block_hash : H256) (parcels : list UnverifiedTransaction)
  : list (H256 * TransactionAddresses) :=
  omap id (imap (λ parcel_index parcel,
    (λ tracker, (tracker, [{| ta_block_hash := block_hash; ta_index := N.of_nat parcel_index |}])) <$>
      Transaction_tracker (utx_unsigned parcel)) parcels).

Definition body_entries (hash : H256) : boM (list (H256 * TransactionAddresses)) :=
  body ← block_body hash;
  body ← lift_st (expect body);
  parcels ← lift_st (body_transactions body);
  mret (transaction_address_entries hash parcels).

(** [*map.entry(hash).or_default() += address], one after the other. *)
Definition gather (l : list (H256 * TransactionAddresses)) : gmap H256 TransactionAddresses :=
  foldl (λ m '(hash, address), <[hash := addresses_add (default [] (m !! hash)) address]> m) ∅ l.

(** What is stored without what is removed and with what is added, for every hash of either; the loops over the maps take each hash
    once. *)
Definition updated_address (stored added removed : gmap H256 TransactionAddresses) (hash : H256) : TransactionAddresses :=
  let address := default [] (stored !! hash) in
  let address := match removed !! hash with Some removed_address => addresses_sub address removed_address | None => address end in
  match added !! hash with Some added_address => addresses_add address added_address | None => address end.
Definition updated_addresses (stored added removed : gmap H256 TransactionAddresses) : gmap H256 (option TransactionAddresses) :=
  set_to_map (λ hash, (hash, match updated_address stored added removed hash with [] => None | address => Some address end))
    (dom added ∪ dom removed).

Definition new_transaction_address_entries (changed : BestBlockChanged) : boM (gmap H256 (option TransactionAddresses)) :=
  match changed_block changed with
  | None => mret ∅
  | Some block =>
      block_hash ← lift_st (bv_hash block);
      parcels ← lift_st (bv_transactions block);
      let current := transaction_address_entries block_hash parcels in
      '(removed, added) ←
        match changed with
        | BlockAppended _ => mret ([], current)
        | BranchBecoming _ route =>
            enacted ← map_st body_entries (tr_enacted route);
            retracted ← map_st body_entries (tr_retracted route);
            mret (concat retracted, concat enacted ++ current)
        | NoBlockChanged => mret ([], [])
        end;
      s ← get_st;
      mret (updated_addresses (bo_db_trackers s) (gather added) (gather removed))
  end.

(** [extend_with_option_cache] with [CacheUpdatePolicy::Overwrite]. *)
Definition update_best_block (changed : BestBlockChanged) : boM ChainBatch :=
  parcels ← new_parcel_address_entries changed;
  _ ← modify_st (λ s, bo_pending (parcels ∪ bo_pending_parcel_addresses s) (bo_pending_transaction_addresses s) s);
  trackers ← new_transaction_address_entries changed;
  _ ← modify_st (λ s, bo_pending (bo_pending_parcel_addresses s) (trackers ∪ bo_pending_transaction_addresses s) s);
  mret (((λ '(hash, v), WriteParcel hash v) <$> map_to_list parcels) ++
        ((λ '(tracker, v), WriteTracker tracker v) <$> map_to_list trackers)).

(** The pending values are put into the cache, and what they delete is removed from it. *)
Definition take_pending {V : Type} (pending : gmap H256 (option V)) (cache : gmap H256 V) : gmap H256 V :=
  merge (λ p c, match p with Some v => v | None => c end) pending cache.

Definition body_commit : boM () :=
  modify_st (λ s, bo_pending ∅ ∅ (bo_caches (bo_body_cache s)
    (take_pending (bo_pending_parcel_addresses s) (bo_parcel_address_cache s))
    (take_pending (bo_pending_transaction_addresses s) (bo_transaction_address_cache s)) s)).

Definition transaction_address (hash : H256) : boM (option TransactionAddress) := λ s,
  let (r, cache) := read_with_cache (bo_db_parcels s !! hash) (bo_parcel_address_cache s) hash in
  (Ok r, bo_caches (bo_body_cache s) cache (bo_transaction_address_cache s) s).

Definition transaction_address_by_tracker (tracker : H256) : boM (option TransactionAddress) := λ s,
  let (r, cache) := read_with_cache (bo_db_trackers s !! tracker) (bo_transaction_address_cache s) tracker in
  (Ok (addresses ← r; head addresses), bo_caches (bo_body_cache s) (bo_parcel_address_cache s) cache s).

(** [BodyDB::new]: the body of the genesis block is stored as it is. *)
Definition BodyDB_new (genesis : bytes) (bodies : gmap H256 bytes) (parcels : gmap H256 TransactionAddress)
  (trackers : gmap H256 TransactionAddresses) : result Empty_set BodyDB :=
  let bdb := {| bo_body_cache := ∅; bo_parcel_address_cache := ∅; bo_pending_parcel_addresses := ∅;
                bo_transaction_address_cache := ∅; bo_pending_transaction_addresses := ∅;
                bo_db_bodies := bodies; bo_db_parcels := parcels; bo_db_trackers := trackers |} in
  genesis_hash ← bv_hash genesis;
  let (body, bdb) := block_body genesis_hash bdb in
  body ← body;
  match body with
  | Some _ => Ok bdb
  | None =>
      body ← block_to_body genesis;
      Ok (bo_store (<[genesis_hash := body]> (bo_db_bodies bdb)) (bo_db_parcels bdb) (bo_db_trackers bdb) bdb)
  end.

(** * Invoices *)

Definition is_known_error_hint (hash : H256) : ivM bool := λ s,
  (Ok (match iv_hash_cache s !! hash with
       | Some _ => true
       | None => match iv_db_hints s !! hash with Some _ => true | None => false end
       end), s).

(** The cache drops what is written, [CacheUpdatePolicy::Remove]. *)
Definition insert_invoice (hash : H256) (tracker : option H256) (error_hint : option String) : ivM ChainBatch :=
  known ← is_known_error_hint hash;
  if known : bool then mret []
  else
    of_tracker ←
      match tracker with
      | Some tracker =>
          s ← get_st;
          let (hashes, cache) := read_with_cache (iv_db_trackers s !! tracker) (iv_tracker_cache s) tracker in
          _ ← modify_st (iv_caches (delete tracker cache) (iv_hash_cache s));
          mret [WriteInvoices tracker (default [] hashes ++ [(hash, error_hint)])]
      | None => mret []
      end;
    _ ← modify_st (λ s, iv_caches (iv_tracker_cache s) (delete hash (iv_hash_cache s)) s);
    mret (of_tracker ++ [WriteHint hash error_hint]).

Definition error_hints_by_tracker (tracker : H256) : ivM (list (H256 * option String)) := λ s,
  let (r, cache) := read_with_cache (iv_db_trackers s !! tracker) (iv_tracker_cache s) tracker in
  (Ok (default [] r), iv_caches cache (iv_hash_cache s) s).

Definition error_hint (hash : H256) : ivM (option String) := λ s,
  let (r, cache) := read_with_cache (iv_db_hints s !! hash) (iv_hash_cache s) hash in
  (Ok (mjoin r), iv_caches (iv_tracker_cache s) cache s).

(** * The chain *)

Definition is_known (hash : H256) : bcM bool :=
  known_header ← on_headers (is_known_header hash);
  if known_header : bool then on_bodies (is_known_body hash) else mret false.

(** [BlockProvider::block]: the header and the list of the transactions. *)
Definition chain_block (hash : H256) : bcM (option bytes) :=
  header ← on_headers (block_header_data hash);
  match header with
  | None => mret None
  | Some header =>
      body ← on_bodies (block_body hash);
      match body with
      | None => mret None
      | Some body =>
          transactions ← lift_st (Rlp_at body 0);
          block ← lift_st (drain (rlp_list 2 [append_raw header 1; append_raw transactions 1]));
          mret (Some block)
      end
  end.

Definition best_block_detail : bcM BlockDetails :=
  s ← get_st;
  details ← on_headers (block_details (bc_best_block_hash s));
  lift_st (expect details).
Definition best_proposal_block_detail : bcM BlockDetails :=
  s ← get_st;
  details ← on_headers (block_details (bc_best_proposal_block_hash s));
  lift_st (expect details).

Definition best_block_changed (new_block : bytes) (engine : ChainEngine) : bcM BestBlockChanged :=
  new_header ← lift_st (bv_header_rlp new_block);
  parent_hash_of_new_block ← lift_st (hv_parent_hash new_header);
  parent_details ← on_headers (block_details parent_hash_of_new_block);
  parent_details ← lift_st (expect parent_details);
  score ← lift_st (hv_score new_header);
  total_score ← lift_st (u256_add (bd_total_score parent_details) score);
  best_proposal ← best_proposal_block_detail;
  is_new_best ← if bd_total_score best_proposal <? total_score then lift_st (ce_can_change_canon_chain engine new_header)
                else mret false;
  if is_new_best : bool then
    s ← get_st;
    route ← on_headers (tree_route (bc_best_block_hash s) parent_hash_of_new_block);
    route ← lift_st (expect route);
    new_best_block_hash ← lift_st (ce_best_from_proposal engine new_header);
    new_best_block ←
      if bool_decide (new_best_block_hash = hv_hash new_header) then mret new_block
      else
        block ← chain_block new_best_block_hash;
        lift_st (expect block);
    mret (match tr_retracted route with
          | [] => BlockAppended new_best_block
          | _ => BranchBecoming new_best_block route
          end)
  else mret NoBlockChanged.

Definition chain_insert_header (header : bytes) (engine : ChainEngine) : bcM (ImportRoute * ChainBatch) :=
  '(changed, batch) ← on_headers (insert_header header engine);
  mret (match changed with Some c => ImportRoute_from_header (hv_hash header) c | None => ImportRoute_none end, HeaderOp <$> batch).

Definition insert_block (new_block : bytes) (invoices : list Invoice) (engine : ChainEngine) : bcM (ImportRoute * ChainBatch) :=
  new_header ← lift_st (bv_header_rlp new_block);
  let new_block_hash := hv_hash new_header in
  known ← is_known new_block_hash;
  if known : bool then mret (ImportRoute_none, [])
  else
    s ← get_st;
    _ ← lift_st (assert (bool_decide (bc_pending_best_block_hash s = None)));
    _ ← lift_st (assert (bool_decide (bc_pending_best_proposal_block_hash s = None)));
    changed ← best_block_changed new_block engine;
    '(_, header_batch) ← on_headers (insert_header new_header engine);
    body_batch ← on_bodies (insert_body new_block);
    best_batch ← on_bodies (update_best_block changed);
    invoice_batches ← map_st (λ i, on_invoices (insert_invoice (inv_hash i) (inv_tracker i) (inv_error i))) invoices;
    best ← lift_st (changed_hash changed);
    _ ← modify_st (λ s, match best with Some best => bc_pending (Some best) (Some new_block_hash) s | None => s end);
    route ← lift_st (ImportRoute_new new_block_hash changed);
    mret (route,
      (HeaderOp <$> header_batch) ++ body_batch ++ best_batch ++ concat invoice_batches ++
      match best with Some best => [PutBestBlock best; PutBestProposalBlock new_block_hash] | None => [] end).

Definition chain_commit : bcM () :=
  _ ← on_headers commit;
  _ ← on_bodies body_commit;
  modify_st (λ s, {|
    bc_best_block_hash := default (bc_best_block_hash s) (bc_pending_best_block_hash s);
    bc_best_proposal_block_hash := default (bc_best_proposal_block_hash s) (bc_pending_best_proposal_block_hash s);
    bc_headerchain := bc_headerchain s; bc_body_db := bc_body_db s; bc_invoice_db := bc_invoice_db s;
    bc_pending_best_block_hash := None; bc_pending_best_proposal_block_hash := None;
    bc_db_best_block := bc_db_best_block s; bc_db_best_proposal_block := bc_db_best_proposal_block s |}).

Definition chain_update_best_as_committed (block_hash : H256) : bcM (ImportRoute * ChainBatch) :=
  s ← get_st;
  _ ← lift_st (assert (bool_decide (bc_pending_best_block_hash s = None)));
  block_detail ← on_headers (block_details block_hash);
  block_detail ← lift_st (expect block_detail);
  prev_best_block_detail ← best_block_detail;
  if negb (bool_decide (bd_parent block_detail = bc_best_block_hash s)) then
    _ ← lift_st (assert (bd_number block_detail <=? bd_number prev_best_block_detail));
    mret (ImportRoute_none, [])
  else
    _ ← lift_st (assert (bd_number block_detail =? u64_add (bd_number prev_best_block_detail) 1));
    best_block ← chain_block block_hash;
    best_block ← lift_st (expect best_block);
    let changed := BlockAppended best_block in
    header_batch ← on_headers (update_best_as_committed block_hash);
    best_batch ← on_bodies (update_best_block changed);
    _ ← modify_st (bc_pending (Some block_hash) (Some block_hash));
    route ← lift_st (ImportRoute_new block_hash changed);
    mret (route, (HeaderOp <$> header_batch) ++ best_batch ++ [PutBestBlock block_hash; PutBestProposalBlock block_hash]).

(** [BlockProvider::transaction]: the transaction at an address, with its place. *)
Definition chain_transaction (address : TransactionAddress) : bcM (option LocalizedTransaction) :=
  body ← on_bodies (block_body (ta_block_hash address));
  match body with
  | None => mret None
  | Some body =>
      number ← on_headers (block_number (ta_block_hash address));
      match number with
      | None => mret None
      | Some number =>
          tx ← lift_st (body_transaction_at body (ta_index address));
          mret ((λ tx, {| lt_signed := tx; lt_block_number := number; lt_block_hash := ta_block_hash address;
                          lt_transaction_index := ta_index address |}) <$> tx)
      end
  end.

(** [BlockChain::new]: the best block and the best proposal are the genesis block when the database has none. *)
Definition BlockChain_new (genesis : bytes) (headers : ChainDB) (bodies : gmap H256 bytes) (parcels : gmap H256 TransactionAddress)
  (trackers : gmap H256 TransactionAddresses) (invoices : gmap H256 (list (H256 * option String)))
  (hints : gmap H256 (option String)) (best proposal : option H256) : result Empty_set BlockChain :=
  genesis_hash ← bv_hash genesis;
  genesis_header ← bv_header_rlp genesis;
  let best_block_hash := default genesis_hash best in
  let best_proposal_block_hash := default genesis_hash proposal in
  headerchain ← HeaderChain_new genesis_header headers;
  body_db ← BodyDB_new genesis bodies parcels trackers;
  Ok {| bc_best_block_hash := best_block_hash; bc_best_proposal_block_hash := best_proposal_block_hash;
        bc_headerchain := headerchain; bc_body_db := body_db;
        bc_invoice_db := {| iv_tracker_cache := ∅; iv_hash_cache := ∅; iv_db_trackers := invoices; iv_db_hints := hints |};
        bc_pending_best_block_hash := None; bc_pending_best_proposal_block_hash := None;
        bc_db_best_block := Some best_block_hash; bc_db_best_proposal_block := Some best_proposal_block_hash |}.

(** ** The calls of the client *)

(** [Importer::commit_header] *)
Definition import_header (header : Header) (engine : ChainEngine) : bcM ImportRoute :=
  '(route, batch) ← chain_insert_header (Header_rlp header With) engine;
  _ ← write_chain batch;
  _ ← chain_commit;
  mret route.

(** [Importer::commit_block], without the state that is written with the block. *)
Definition commit_block (header : Header) (block_data : bytes) (invoices : list Invoice) (engine : ChainEngine) : bcM ImportRoute :=
  view_hash ← lift_st (bv_hash block_data);
  _ ← lift_st (assert (bool_decide (Header_hash header = view_hash)));
  '(route, batch) ← insert_block block_data invoices engine;
  _ ← write_chain batch;
  _ ← chain_commit;
  mret route.

(** [Client::update_best_as_committed], up to the notifications. *)
Definition commit_best_block (block_hash : H256) : bcM ImportRoute :=
  '(route, batch) ← chain_update_best_as_committed block_hash;
  _ ← write_chain batch;
  _ ← chain_commit;
  mret route.

(** [Importer::calculate_enacted_retracted]: the last word of the routes on each block. *)
Definition enacted_retracted (import_results : list ImportRoute) : gmap H256 bool :=
  foldl (λ m route, foldl (λ m hash, <[hash := false]> m) (foldl (λ m hash, <[hash := true]> m) m (ir_enacted route)) (ir_retracted route))
    ∅ import_results.
End Chain.
