(* ===== verification/BlockChainFacts.v ===== *)
(** The chain of blocks as a view: the blocks by hash and where their transactions are.  Reads leave the view alone, and the entries
    that go with a change of the best block make the addresses those of the new canonical chain. *)
From Stdlib Require Import NArith Lia.
From stdpp Require Import base gmap list numbers.
From S2P Require Import Prelude Types Crypto Rlp RlpImpls RlpCompress TxHash StakeSpec Header HeaderChain HeaderChainFacts BlockChain.

Local Open Scope N_scope.

Section Facts.
Context `{CryptoLaws}.

(** * Blocks and bodies in bytes *)

Definition tx_item (t : UnverifiedTransaction) : rlp_item := List (sealed_items (utx_unsigned t) (utx_sig t)).
Definition txs_item (txs : list UnverifiedTransaction) : rlp_item := List (tx_item <$> txs).
Definition body_bytes (txs : list UnverifiedTransaction) : bytes := enc (List [txs_item txs]).

Record Block := {
  bk_header : Header;
  bk_seals : list rlp_item;
  bk_transactions : list UnverifiedTransaction;
}.
Definition bk_item (b : Block) : rlp_item := List [List (header_items (bk_header b) (bk_seals b)); txs_item (bk_transactions b)].
Definition block_bytes (b : Block) : bytes := enc (bk_item b).
Definition bk_header_bytes (b : Block) : bytes := header_bytes (bk_header b) (bk_seals b).
Definition bk_hash (b : Block) : H256 := hv_hash (bk_header_bytes b).

Definition good_tx (t : UnverifiedTransaction) : Prop :=
  Transaction_wf (utx_unsigned t) ∧ len (utx_sig t) = 65 ∧ t = UnverifiedTransaction_new (utx_unsigned t) (utx_sig t).
Definition good_block (b : Block) : Prop :=
  header_ok (bk_header b) (bk_seals b) ∧ Forall good_tx (bk_transactions b) ∧ fits (bk_item b).

Lemma good_block_header b : good_block b → good_header (bk_header b) (bk_seals b).
Proof. intros (Hh & _ & Hf). split; [done|]. eapply fits_elem; [exact Hf|by left]. Qed.
Lemma good_block_txs b : good_block b → fits (txs_item (bk_transactions b)).
Proof. intros (_ & _ & Hf). eapply fits_elem; [exact Hf|right; by left]. Qed.

Lemma good_block_body b : good_block b → fits (List [txs_item (bk_transactions b)]).
Proof.
  intros (_ & _ & Hf). unfold fits, bk_item in *. eapply N.le_lt_trans; [|exact Hf]. rewrite !enc_len. simpl.
  assert (∀ i : rlp_item, len (encs [i]) = len (enc i)) as Hone by (intros; unfold encs; simpl; by rewrite app_nil_r).
  rewrite Hone, encs_cons, len_app, Hone.
  pose proof (header_mono (len (enc (txs_item (bk_transactions b)))) (len (enc (List (header_items (bk_header b) (bk_seals b)))) + len (enc (txs_item (bk_transactions b))))).
  lia.
Qed.

Lemma good_tx_hash t : good_tx t → fits (tx_item t) → blake256 (enc (tx_item t)) = utx_hash t.
Proof. intros (_ & _ & ->) Hf. simpl. by rewrite sealed_bytes. Qed.

Lemma tx_hashes txs : Forall good_tx txs → fits (txs_item txs) →
  blake256 <$> rlp_iter (enc (txs_item txs)) = utx_hash <$> txs.
Proof.
  intros Hg Hf. unfold txs_item in *. rewrite rlp_iter_enc by done. rewrite <-!list_fmap_compose. apply list_fmap_ext.
  intros i t Hi. simpl. apply good_tx_hash; [by eapply Forall_lookup_1|]. eapply fits_elem; [exact Hf|].
  apply list_elem_of_fmap_2. by eapply list_elem_of_lookup_2.
Qed.

Lemma txs_decode txs : Forall good_tx txs → fits (txs_item txs) →
  Rlp_as_list (E := Empty_set) UnverifiedTransaction_decode (enc (txs_item txs)) = Ok txs.
Proof.
  intros Hg Hf. unfold Rlp_as_list, txs_item. rewrite rlp_iter_enc by done. apply map_res_Ok.
  apply Forall2_fmap_l, Forall2_fmap_l, Forall_Forall2_diag. rewrite list.Forall_forall in *. intros t Ht.
  destruct (Hg t Ht) as (? & ? & Heq). unfold compose, tx_item, Rlp_as_val.
  rewrite UnverifiedTransaction_decodes; [by rewrite <-Heq|done..|].
  eapply fits_elem; [exact Hf|]. by apply (list_elem_of_fmap_2 tx_item).
Qed.

Lemma Rlp_at_enc l k i : fits (List l) → l !! N.to_nat k = Some i → Rlp_at (E := Empty_set) (enc (List l)) k = Ok (enc i).
Proof. intros Hf Hk. unfold Rlp_at. by rewrite (at_enc l k i); [|done|apply fits_short|]. Qed.

Lemma block_views b : good_block b →
  bv_header_rlp (E := Empty_set) (block_bytes b) = Ok (bk_header_bytes b) ∧
  bv_hash (E := Empty_set) (block_bytes b) = Ok (bk_hash b) ∧
  bv_transaction_hashes (E := Empty_set) (block_bytes b) = Ok (utx_hash <$> bk_transactions b) ∧
  bv_transactions (E := Empty_set) (block_bytes b) = Ok (bk_transactions b) ∧
  block_to_body (block_bytes b) = Ok (body_bytes (bk_transactions b)).
Proof.
  intros Hb. pose proof (good_block_txs b Hb) as Hft. pose proof (good_block_body b Hb) as Hfb. destruct Hb as (Hh & Ht & Hf).
  pose proof (Rlp_at_enc _ 0 _ Hf eq_refl) as H0'. pose proof (Rlp_at_enc _ 1 _ Hf eq_refl) as H1'.
  fold (bk_item b) in H0', H1'. change (enc (bk_item b)) with (block_bytes b) in H0', H1'.
  assert (bv_header_rlp (E := Empty_set) (block_bytes b) = Ok (bk_header_bytes b)) as Hhd by exact H0'.
  split_and!; [done| | | |].
  - unfold bv_hash. by rewrite Hhd.
  - unfold bv_transaction_hashes. rewrite H1', Ok_bind. by rewrite tx_hashes.
  - unfold bv_transactions, Rlp_list_at. rewrite H1', Ok_bind. by apply txs_decode.
  - unfold block_to_body. rewrite H1', Ok_bind. apply drain_encodes; [|done]. apply rlp_list_encodes; [|done].
    repeat constructor. apply append_raw_appends.
Qed.

Lemma body_views b : good_block b → let body := body_bytes (bk_transactions b) in
  body_transactions (E := Empty_set) body = Ok (bk_transactions b) ∧
  body_transaction_hashes (E := Empty_set) body = Ok (utx_hash <$> bk_transactions b) ∧
  Rlp_at (E := Empty_set) body 0 = Ok (enc (txs_item (bk_transactions b))) ∧
  (∀ i, body_transaction_at (E := Empty_set) body i = Ok (bk_transactions b !! N.to_nat i)).
Proof.
  intros Hb. pose proof (good_block_txs b Hb) as Hft. pose proof (good_block_body b Hb) as Hfb. destruct Hb as (Hh & Ht & Hf).
  pose proof (Rlp_at_enc _ 0 _ Hfb eq_refl) as H0'. cbv zeta. split_and!; [| |done|].
  - unfold body_transactions, Rlp_list_at. unfold body_bytes. rewrite H0', Ok_bind. by apply txs_decode.
  - unfold body_transaction_hashes, body_bytes. rewrite H0', Ok_bind. by rewrite tx_hashes.
  - intros i. unfold body_transaction_at, body_bytes. rewrite H0', Ok_bind. unfold txs_item in *. rewrite rlp_iter_enc by done.
    rewrite !list_lookup_fmap. destruct (bk_transactions b !! N.to_nat i) as [t|] eqn:Hi; [|done]. cbn [fmap option_fmap option_map].
    rewrite list.Forall_forall in Ht. destruct (Ht t) as (? & ? & Heq); [by eapply list_elem_of_lookup_2|].
    unfold Rlp_as_val, tx_item. rewrite UnverifiedTransaction_decodes; [by rewrite <-Heq|done..|].
    eapply fits_elem; [exact Hft|]. apply (list_elem_of_fmap_2 tx_item). by eapply list_elem_of_lookup_2.
Qed.

(** A block is put together again from its header and its body. *)
Lemma block_again b : good_block b →
  drain (rlp_list 2 [append_raw (bk_header_bytes b) 1; append_raw (enc (txs_item (bk_transactions b))) 1]) = Ok (block_bytes b).
Proof.
  intros (_ & _ & Hf). apply drain_encodes; [|done]. apply rlp_list_encodes; [|done].
  repeat constructor; apply append_raw_appends.
Qed.

(** * The view of the bodies *)

Record body_view := {
  bw_blocks : gmap H256 Block;
  bw_parcels : gmap H256 TransactionAddress;
  bw_trackers : gmap H256 TransactionAddresses;
}.

(** The database holds the view, the caches agree with it, and [P] and [T] are pending. *)
Record holds (P : gmap H256 (option TransactionAddress)) (T : gmap H256 (option TransactionAddresses)) (s : BodyDB) (w : body_view)
  : Prop := {
  ho_bodies hash : match bw_blocks w !! hash with
    | Some b => ∃ c, bo_db_bodies s !! hash = Some c ∧ decompress c blocks_swapper = Ok (body_bytes (bk_transactions b))
    | None => bo_db_bodies s !! hash = None
    end;
  ho_body_cache : bo_body_cache s ⊆ (λ b, body_bytes (bk_transactions b)) <$> bw_blocks w;
  ho_parcels : bo_db_parcels s = bw_parcels w;
  ho_parcel_cache : bo_parcel_address_cache s ⊆ bw_parcels w;
  ho_trackers : bo_db_trackers s = bw_trackers w;
  ho_tracker_cache : bo_transaction_address_cache s ⊆ bw_trackers w;
  ho_pending_parcels : bo_pending_parcel_addresses s = P;
  ho_pending_trackers : bo_pending_transaction_addresses s = T;
}.

Section Reads.
Context (P : gmap H256 (option TransactionAddress)) (T : gmap H256 (option TransactionAddresses)) (w : body_view).
Context (Hgood : ∀ hash b, bw_blocks w !! hash = Some b → good_block b).
Local Abbreviation peeks := (peeks_of (holds P T)).

Lemma holds_caches s bodies parcels trackers :
  holds P T s w → bodies ⊆ (λ b, body_bytes (bk_transactions b)) <$> bw_blocks w → parcels ⊆ bw_parcels w → trackers ⊆ bw_trackers w →
  holds P T (bo_caches bodies parcels trackers s) w.
Proof. intros [] ? ? ?. by split. Qed.

Lemma peeks_body hash :
  peeks (block_body hash) w (Ok ((λ b, body_bytes (bk_transactions b)) <$> bw_blocks w !! hash)).
Proof.
  intros s Hs. unfold block_body. destruct (bo_body_cache s !! hash) as [v|] eqn:Hc.
  - exists s. split; [|done]. pose proof (lookup_weaken _ _ _ _ Hc (ho_body_cache _ _ _ _ Hs)) as Hv.
    rewrite lookup_fmap in Hv. by rewrite Hv.
  - pose proof (ho_bodies _ _ _ _ Hs hash) as Hb. destruct (bw_blocks w !! hash) as [b|] eqn:Hw.
    + destruct Hb as (c & -> & ->). eexists. split; [done|]. apply holds_caches; [done| |apply Hs|apply Hs].
      apply insert_subseteq_l; [by rewrite lookup_fmap, Hw|apply Hs].
    + rewrite Hb. by exists s.
Qed.

Lemma peeks_known_body hash : peeks (is_known_body hash) w (Ok (bool_decide (is_Some (bw_blocks w !! hash)))).
Proof.
  unfold is_known_body. eapply peeks_bind; [apply peeks_body|]. destruct (bw_blocks w !! hash); apply peeks_ret.
Qed.

Lemma peeks_insert_body b :
  good_block b → bw_blocks w !! bk_hash b = None →
  ∃ c, decompress c blocks_swapper = Ok (body_bytes (bk_transactions b)) ∧
    peeks (insert_body (block_bytes b)) w (Ok [PutBody (bk_hash b) c]).
Proof.
  intros Hb Hn. destruct (compressed_reads_back (List [txs_item (bk_transactions b)])) as (c & Hc & _ & Hd); [by apply good_block_body|].
  exists c. split; [done|]. destruct (block_views b Hb) as (_ & Hh & _ & _ & Hbody). unfold insert_body. rewrite Hh.
  apply peeks_lift_bind. eapply peeks_bind; [apply peeks_known_body|]. rewrite Hn, bool_decide_eq_false_2 by by intros [].
  rewrite Hbody. apply peeks_lift_bind. unfold body_bytes. rewrite Hc. apply peeks_lift_bind, peeks_ret.
Qed.

Lemma peeks_address hash : peeks (transaction_address hash) w (Ok (bw_parcels w !! hash)).
Proof.
  intros s Hs. unfold transaction_address. rewrite (ho_parcels _ _ _ _ Hs).
  destruct (read_with_cache_agrees _ _ hash (ho_parcel_cache _ _ _ _ Hs)) as (cache & -> & Hc). eexists. split; [done|].
  apply holds_caches; [done|apply Hs|done|apply Hs].
Qed.
Lemma peeks_address_by_tracker tracker :
  peeks (transaction_address_by_tracker tracker) w (Ok (addresses ← bw_trackers w !! tracker; head addresses)).
Proof.
  intros s Hs. unfold transaction_address_by_tracker. rewrite (ho_trackers _ _ _ _ Hs).
  destruct (read_with_cache_agrees _ _ tracker (ho_tracker_cache _ _ _ _ Hs)) as (cache & -> & Hc). eexists. split; [done|].
  apply holds_caches; [done|apply Hs|apply Hs|done].
Qed.

Lemma peeks_map {A B} (f : A → stM BodyDB Empty_set B) (g : A → B) l :
  (∀ x, x ∈ l → peeks (f x) w (Ok (g x))) → peeks (map_st f l) w (Ok (g <$> l)).
Proof.
  induction l as [|x l IH]; intros Hf; [apply peeks_ret|]. simpl. eapply peeks_bind; [apply Hf; left|].
  eapply peeks_bind; [apply IH; intros; apply Hf; by right|]. apply peeks_ret.
Qed.

(** ** The entries that go with a new best block *)

Definition txs_of (hash : H256) : list UnverifiedTransaction := default [] (bk_transactions <$> bw_blocks w !! hash).

Definition parcel_moves (retracted enacted : list H256) (best : Block) : list (H256 * option TransactionAddress) :=
  ((λ hash, (hash, None)) <$> concat ((λ hash, utx_hash <$> txs_of hash) <$> retracted)) ++
  concat ((λ hash, parcel_address_entries hash (utx_hash <$> txs_of hash)) <$> enacted) ++
  parcel_address_entries (bk_hash best) (utx_hash <$> bk_transactions best).
Definition tracker_moves (hashes : list H256) : list (H256 * TransactionAddresses) :=
  concat ((λ hash, transaction_address_entries hash (txs_of hash)) <$> hashes).

(** What a change retracts and enacts besides the best block. *)
Definition moved_by (changed : BestBlockChanged) : list H256 * list H256 :=
  match changed with BranchBecoming _ route => (tr_retracted route, tr_enacted route) | _ => ([], []) end.
Definition known_blocks (l : list H256) : Prop := ∀ hash, hash ∈ l → is_Some (bw_blocks w !! hash).

Lemma peeks_body_hashes hash : is_Some (bw_blocks w !! hash) → peeks (body_hashes hash) w (Ok (utx_hash <$> txs_of hash)).
Proof.
  intros [b Hb]. unfold body_hashes, txs_of. eapply peeks_bind; [apply peeks_body|]. rewrite Hb. apply peeks_lift_bind. simpl.
  destruct (body_views b (Hgood _ _ Hb)) as (_ & Hh & _). rewrite Hh. apply peeks_lift.
Qed.
Lemma peeks_body_entries hash :
  is_Some (bw_blocks w !! hash) → peeks (body_entries hash) w (Ok (transaction_address_entries hash (txs_of hash))).
Proof.
  intros [b Hb]. unfold body_entries, txs_of. eapply peeks_bind; [apply peeks_body|]. rewrite Hb. apply peeks_lift_bind. simpl.
  destruct (body_views b (Hgood _ _ Hb)) as (Hh & _). rewrite Hh. apply peeks_lift_bind, peeks_ret.
Qed.

Section Best.
Context (changed : BestBlockChanged) (best : Block) (retracted enacted : list H256).
Context (Hbest : good_block best) (Hblock : changed_block changed = Some (block_bytes best)).
Context (Hmoved : moved_by changed = (retracted, enacted)) (HR : known_blocks retracted) (HE : known_blocks enacted).

Lemma peeks_parcel_entries : peeks (new_parcel_address_entries changed) w (Ok (collect (parcel_moves retracted enacted best))).
Proof.
  destruct (block_views best Hbest) as (_ & Hh & Hths & _). unfold new_parcel_address_entries. rewrite Hblock, Hh.
  apply peeks_lift_bind. rewrite Hths. apply peeks_lift_bind. unfold parcel_moves.
  destruct changed as [b| |b route]; [| |]; injection Hmoved as <- <-; [apply peeks_ret|done|].
  eapply peeks_bind; [apply peeks_map; intros; by apply peeks_body_hashes, HR|].
  eapply peeks_bind; [|apply peeks_ret]. apply (peeks_map _ (λ hash, parcel_address_entries hash (utx_hash <$> txs_of hash))).
  intros hash Hin. eapply peeks_bind; [by apply peeks_body_hashes, HE|]. apply peeks_ret.
Qed.

Lemma peeks_tracker_entries :
  peeks (new_transaction_address_entries changed) w (Ok (updated_addresses (bw_trackers w)
    (gather (tracker_moves enacted ++ transaction_address_entries (bk_hash best) (bk_transactions best))) (gather (tracker_moves retracted)))).
Proof.
  destruct (block_views best Hbest) as (_ & Hh & _ & Htx & _). unfold new_transaction_address_entries. rewrite Hblock, Hh.
  apply peeks_lift_bind. rewrite Htx. apply peeks_lift_bind. unfold tracker_moves.
  destruct changed as [b| |b route]; [|done|]; injection Hmoved as <- <-.
  - eapply peeks_bind; [apply peeks_ret|]. simpl. apply peeks_get. intros s Hs. rewrite (ho_trackers _ _ _ _ Hs). apply peeks_ret.
  - eapply peeks_bind.
    { eapply peeks_bind; [apply peeks_map; intros; by apply peeks_body_entries, HE|].
      eapply peeks_bind; [apply peeks_map; intros; by apply peeks_body_entries, HR|]. apply peeks_ret. }
    simpl. apply peeks_get. intros s Hs. rewrite (ho_trackers _ _ _ _ Hs). apply peeks_ret.
Qed.
End Best.
End Reads.

(** * What is written *)

Lemma take_pending_lookup {V} (pending : gmap H256 (option V)) (m : gmap H256 V) k :
  take_pending pending m !! k = match pending !! k with Some v => v | None => m !! k end.
Proof. unfold take_pending. rewrite lookup_merge. by destruct (pending !! k), (m !! k). Qed.

Lemma take_pending_mono {V} (pending : gmap H256 (option V)) (m m' : gmap H256 V) :
  m ⊆ m' → take_pending pending m ⊆ take_pending pending m'.
Proof.
  intros Hsub. apply map_subseteq_spec. intros k v. rewrite !take_pending_lookup. destruct (pending !! k); [done|].
  intros Hk. by eapply lookup_weaken.
Qed.

Lemma write_pending {V} (pending : gmap H256 (option V)) (m : gmap H256 V) :
  foldl (λ m '(k, v), set_or_delete k v m) m (map_to_list pending) = take_pending pending m.
Proof.
  rewrite <-(list_to_map_to_list pending) at 2. pose proof (NoDup_fst_map_to_list pending) as Hnd. revert m Hnd.
  generalize (map_to_list pending). intros l. induction l as [|[k v] l IH]; intros m Hnd.
  - apply map_eq. intros k. rewrite take_pending_lookup. simpl. by rewrite lookup_empty.
  - simpl in *. apply list.NoDup_cons in Hnd as [Hk Hnd]. rewrite IH by done. apply map_eq. intros j.
    rewrite !take_pending_lookup. unfold set_or_delete. destruct (decide (j = k)) as [->|Hne].
    + rewrite lookup_insert_eq, (not_elem_of_list_to_map_1 _ _ Hk). by rewrite lookup_partial_alter_eq.
    + rewrite lookup_insert_ne, lookup_partial_alter_ne by done. done.
Qed.

Definition write_bodies (bodies : gmap H256 bytes) (P : gmap H256 (option TransactionAddress)) (T : gmap H256 (option TransactionAddresses))
  (b : BodyDB) : BodyDB :=
  bo_store (bodies ∪ bo_db_bodies b) (take_pending P (bo_db_parcels b)) (take_pending T (bo_db_trackers b)) b.

Definition move_ops (P : gmap H256 (option TransactionAddress)) (T : gmap H256 (option TransactionAddresses)) : ChainBatch :=
  ((λ '(hash, v), WriteParcel hash v) <$> map_to_list P) ++ ((λ '(tracker, v), WriteTracker tracker v) <$> map_to_list T).

Lemma write_moves s P T :
  foldl apply_chain_op s (move_ops P T) = bc_parts (bc_headerchain s) (write_bodies ∅ P T (bc_body_db s)) (bc_invoice_db s) s.
Proof.
  unfold move_ops, write_bodies. rewrite foldl_app, <-!write_pending, (left_id_L ∅ (∪)). generalize (map_to_list P) (map_to_list T).
  intros lp lt. assert (∀ s, foldl apply_chain_op s ((λ '(hash, v), WriteParcel hash v) <$> lp) =
    bc_parts (bc_headerchain s) (bo_store (bo_db_bodies (bc_body_db s)) (foldl (λ m '(k, v), set_or_delete k v m) (bo_db_parcels (bc_body_db s)) lp)
      (bo_db_trackers (bc_body_db s)) (bc_body_db s)) (bc_invoice_db s) s) as Hp.
  { induction lp as [|[k v] lp IH]; intros s0; simpl; [by destruct s0 as [? ? ? [] ? ? ? ? ?]|]. by rewrite IH. }
  rewrite Hp. set (s1 := bc_parts _ _ _ s).
  assert (∀ s, foldl apply_chain_op s ((λ '(tracker, v), WriteTracker tracker v) <$> lt) =
    bc_parts (bc_headerchain s) (bo_store (bo_db_bodies (bc_body_db s)) (bo_db_parcels (bc_body_db s))
      (foldl (λ m '(k, v), set_or_delete k v m) (bo_db_trackers (bc_body_db s)) lt) (bc_body_db s)) (bc_invoice_db s) s) as Ht.
  { induction lt as [|[k v] lt IH]; intros s0; simpl; [by destruct s0 as [? ? ? [] ? ? ? ? ?]|]. by rewrite IH. }
  by rewrite Ht.
Qed.

Lemma write_headers s batch :
  foldl apply_chain_op s (HeaderOp <$> batch) =
  bc_parts (set_db (db_write batch (hc_db (bc_headerchain s))) (bc_headerchain s)) (bc_body_db s) (bc_invoice_db s) s.
Proof.
  revert s. induction batch as [|op batch IH]; intros s; simpl; [by destruct s as [? ? [] ? ? ? ? ? ?]|]. by rewrite IH.
Qed.

(** The best block moves: the entries are pending, and written. *)
Lemma update_best_block_ok changed s w parcels trackers :
  holds ∅ ∅ s w →
  (∀ P T, peeks_of (holds P T) (new_parcel_address_entries changed) w (Ok parcels)) →
  (∀ P T, peeks_of (holds P T) (new_transaction_address_entries changed) w (Ok trackers)) →
  ∃ s', update_best_block changed s = (Ok (move_ops parcels trackers), s') ∧ holds parcels trackers s' w.
Proof.
  intros Hs Hp Ht. destruct (Hp ∅ ∅ s Hs) as (s1 & E1 & Hs1).
  assert (holds parcels ∅ (bo_pending (parcels ∪ bo_pending_parcel_addresses s1) (bo_pending_transaction_addresses s1) s1) w) as Hs2.
  { destruct Hs1. split; simpl; try done. by rewrite ho_pending_parcels0, (right_id_L ∅ (∪)). }
  destruct (Ht _ _ _ Hs2) as (s3 & E3 & Hs3). eexists. split.
  - unfold update_best_block, mbind, stM_bind, modify_st. rewrite E1. cbv beta iota. rewrite E3. reflexivity.
  - destruct Hs3. split; simpl; try done. by rewrite ho_pending_trackers0, (right_id_L ∅ (∪)).
Qed.

(** They are committed. *)
Lemma committed_holds s w P T bodies blocks :
  holds P T s w → (∀ hash, match blocks !! hash with
    | Some b => ∃ c, bodies !! hash = Some c ∧ decompress c blocks_swapper = Ok (body_bytes (bk_transactions b))
    | None => bodies !! hash = None end) → blocks ##ₘ bw_blocks w →
  ∃ s', body_commit (write_bodies bodies P T s) = (Ok (), s') ∧
    holds ∅ ∅ s' {| bw_blocks := blocks ∪ bw_blocks w; bw_parcels := take_pending P (bw_parcels w);
                    bw_trackers := take_pending T (bw_trackers w) |}.
Proof.
  intros Hs Hb Hdisj. eexists. split; [done|]. destruct Hs. split; simpl; try congruence.
  - intros hash. specialize (Hb hash). specialize (ho_bodies0 hash). rewrite lookup_union. destruct (blocks !! hash) as [b|] eqn:E.
    + assert (bw_blocks w !! hash = None) as -> by by eapply map_disjoint_Some_l. simpl.
      destruct Hb as (c & Hc & Hd). exists c. split; [|done]. by apply lookup_union_Some_l.
    + rewrite (left_id_L None (∪)). rewrite lookup_union_r by done. done.
  - rewrite map_fmap_union. etrans; [exact ho_body_cache0|]. apply map_union_subseteq_r. by apply map_disjoint_fmap.
  - rewrite ho_pending_parcels0. by apply take_pending_mono.
  - rewrite ho_pending_trackers0. by apply take_pending_mono.
Qed.
End Facts.
