(* ===== verification/BlockIndex.v ===== *)
(** The index of transactions moves with the canonical chain: when what is retracted is taken out of it and what is enacted is put in,
    the addresses by hash and by tracker are those of the transactions on the new chain. *)
From Stdlib Require Import NArith Lia.
From stdpp Require Import base gmap list numbers.
From S2P Require Import Prelude Types Crypto Rlp RlpImpls RlpCompress TxHash StakeSpec Header HeaderChain HeaderChainFacts BlockChain BlockChainFacts.

Local Open Scope N_scope.

(** * Collecting entries *)

Lemma collect_snoc {V} (l : list (H256 * V)) k v : collect (l ++ [(k, v)]) = <[k := v]> (collect l).
Proof. unfold collect. by rewrite foldl_app. Qed.

Lemma collect_elem {V} (l : list (H256 * V)) x v : collect l !! x = Some v → (x, v) ∈ l.
Proof.
  induction l as [|[k u] l IH] using rev_ind; [done|]. rewrite collect_snoc, elem_of_app, list_elem_of_singleton.
  rewrite lookup_insert_Some. intros [[-> ->]|[_ Hx]]; [by right|left; by apply IH].
Qed.
Lemma collect_is_Some {V} (l : list (H256 * V)) x v : (x, v) ∈ l → is_Some (collect l !! x).
Proof.
  induction l as [|[k u] l IH] using rev_ind; [by intros ?%not_elem_of_nil|].
  rewrite collect_snoc, elem_of_app, list_elem_of_singleton, lookup_insert_is_Some'.
  intros [Hx|[= -> ->]]; [right; by apply IH|by left].
Qed.
Lemma collect_app {V} (l k : list (H256 * V)) x :
  collect (l ++ k) !! x = match collect k !! x with Some v => Some v | None => collect l !! x end.
Proof.
  induction k as [|[y v] k IH] using rev_ind; [by rewrite app_nil_r|]. rewrite (assoc_L (++)), !collect_snoc.
  destruct (decide (y = x)) as [->|Hne]; [by rewrite !lookup_insert_eq|]. by rewrite !lookup_insert_ne.
Qed.

Lemma addresses_add_elem a s r : a ∈ addresses_add s r ↔ a ∈ s ∨ a ∈ r.
Proof. unfold addresses_add. rewrite elem_of_app, list_elem_of_filter. destruct (decide (a ∈ s)); tauto. Qed.
Lemma addresses_sub_elem a s r : a ∈ addresses_sub s r ↔ a ∈ s ∧ a ∉ r.
Proof. unfold addresses_sub. rewrite list_elem_of_filter. tauto. Qed.

Lemma gather_snoc l k v : gather (l ++ [(k, v)]) = <[k := addresses_add (default [] (gather l !! k)) v]> (gather l).
Proof. unfold gather. by rewrite foldl_app. Qed.
Lemma gather_elem l x a : a ∈ default [] (gather l !! x) ↔ ∃ v, (x, v) ∈ l ∧ a ∈ v.
Proof.
  induction l as [|[k u] l IH] using rev_ind.
  { simpl. split; [by intros ?%not_elem_of_nil|]. by intros (v & ?%not_elem_of_nil & _). }
  rewrite gather_snoc. setoid_rewrite elem_of_app. setoid_rewrite list_elem_of_singleton.
  destruct (decide (k = x)) as [->|Hne].
  - rewrite lookup_insert_eq. simpl. rewrite addresses_add_elem, IH. split.
    + intros [(v & ? & ?)|?]; [exists v; auto|exists u; auto].
    + intros (v & [?|[= ->]] & ?); [left; eauto|by right].
  - rewrite lookup_insert_ne by done. rewrite IH. split.
    + intros (v & ? & ?). exists v. auto.
    + intros (v & [?|[= <- <-]] & ?); [eauto|done].
Qed.

Lemma elem_of_concat {A} (x : A) ls : x ∈ concat ls ↔ ∃ l, x ∈ l ∧ l ∈ ls.
Proof. rewrite <-list_elem_of_join. by replace (mjoin ls) with (concat ls) by (induction ls; simpl; congruence). Qed.

Section Index.
Context `{CryptoLaws}.

(** * Where transactions are *)

(** On a block of [C] there is a transaction with the key [x]. *)
Definition located (key : UnverifiedTransaction → option H256) (B : gmap H256 Block) (C : H256 → Prop) (x : H256) (a : TransactionAddress)
  : Prop :=
  C (ta_block_hash a) ∧
  ∃ b t, B !! ta_block_hash a = Some b ∧ bk_transactions b !! N.to_nat (ta_index a) = Some t ∧ key t = Some x.

Definition by_hash (t : UnverifiedTransaction) : option H256 := Some (utx_hash t).
Definition by_tracker (t : UnverifiedTransaction) : option H256 := Transaction_tracker (utx_unsigned t).

Definition exact_parcels (B : gmap H256 Block) (C : H256 → Prop) (P : gmap H256 TransactionAddress) : Prop :=
  ∀ x a, P !! x = Some a ↔ located by_hash B C x a.
Definition exact_trackers (B : gmap H256 Block) (C : H256 → Prop) (T : gmap H256 TransactionAddresses) : Prop :=
  ∀ x, T !! x ≠ Some [] ∧ ∀ a, a ∈ default [] (T !! x) ↔ located by_tracker B C x a.
(** No transaction is on [C] twice. *)
Definition once (B : gmap H256 Block) (C : H256 → Prop) : Prop :=
  ∀ x a a', located by_hash B C x a → located by_hash B C x a' → a = a'.

Lemma parcel_entries_elem h txs x v :
  (x, v) ∈ parcel_address_entries h (utx_hash <$> txs) ↔
  ∃ a, v = Some a ∧ ta_block_hash a = h ∧ ∃ t, txs !! N.to_nat (ta_index a) = Some t ∧ by_hash t = Some x.
Proof.
  unfold parcel_address_entries. rewrite list_elem_of_lookup. setoid_rewrite list_lookup_imap. setoid_rewrite list_lookup_fmap. split.
  - intros [i Hi]. destruct (txs !! i) as [t|] eqn:Ht; [|done]. simpl in Hi. injection Hi as <- <-.
    eexists. split; [done|]. simpl. split; [done|]. exists t. by rewrite Nat2N.id.
  - intros (a & -> & <- & t & Ht & [= <-]). exists (N.to_nat (ta_index a)). rewrite Ht. simpl. rewrite N2Nat.id. by destruct a.
Qed.

Lemma tracker_entries_elem h txs x v :
  (x, v) ∈ transaction_address_entries h txs ↔
  ∃ a, v = [a] ∧ ta_block_hash a = h ∧ ∃ t, txs !! N.to_nat (ta_index a) = Some t ∧ by_tracker t = Some x.
Proof.
  unfold transaction_address_entries, by_tracker. rewrite list_elem_of_omap. setoid_rewrite list_elem_of_lookup. setoid_rewrite list_lookup_imap. split.
  - intros (o & [i Hi] & Ho). simpl in Ho. subst o. destruct (txs !! i) as [t|] eqn:Ht; [|done]. simpl in Hi. injection Hi as Hi.
    destruct (Transaction_tracker (utx_unsigned t)) as [y|] eqn:Hy; [|done]. simpl in Hi. injection Hi as <- <-.
    eexists. split; [done|]. simpl. split; [done|]. exists t. by rewrite Nat2N.id.
  - intros (a & -> & <- & t & Ht & Hx). exists (Some (x, [a])). split; [|done]. exists (N.to_nat (ta_index a)). rewrite Ht. simpl.
    rewrite Hx, N2Nat.id. by destruct a.
Qed.

(** With more blocks, the same chain has the same transactions. *)
Section Grow.
Context (B B' : gmap H256 Block) (C C' : H256 → Prop) (Hgrow : B ⊆ B') (HC : ∀ h, C h → is_Some (B !! h)) (Hsame : ∀ h, C' h ↔ C h).

Lemma located_same key x a : located key B' C' x a ↔ located key B C x a.
Proof.
  unfold located. rewrite (Hsame (ta_block_hash a)). split; intros (Ha & b & t & Hb & Ht); (split; [done|]); exists b, t; (split; [|done]).
  - destruct (HC _ Ha) as [b' Hb']. pose proof (lookup_weaken _ _ _ _ Hb' Hgrow). congruence.
  - by eapply lookup_weaken.
Qed.
Lemma exact_parcels_same P : exact_parcels B C P → exact_parcels B' C' P.
Proof. intros HP x a. by rewrite located_same. Qed.
Lemma exact_trackers_same T : exact_trackers B C T → exact_trackers B' C' T.
Proof. intros HT x. destruct (HT x) as [Hne Hx]. split; [done|]. intros a. by rewrite located_same. Qed.
Lemma once_same : once B C → once B' C'.
Proof. intros Ho x a a'. rewrite !located_same. apply Ho. Qed.
End Grow.

(** * The chain moves *)

Section Moves.
Context (w : body_view) (B' : gmap H256 Block) (C C' : H256 → Prop) (R E : list H256) (best : Block).
Context (Hgrow : bw_blocks w ⊆ B') (Hbest : B' !! bk_hash best = Some best).
Context (HR : known_blocks w R) (HE : known_blocks w E).
Context (HC : ∀ h, C h → is_Some (bw_blocks w !! h)) (HRC : ∀ h, h ∈ R → C h).
Context (Hmove : ∀ h, C' h ↔ (C h ∧ h ∉ R) ∨ h ∈ E ∨ h = bk_hash best).

Lemma located_grow key x a : located key (bw_blocks w) C x a ↔ located key B' C x a.
Proof. symmetry. by apply located_same. Qed.

(** A key at an address of a known block. *)
Lemma located_txs key (D : H256 → Prop) a t x :
  D (ta_block_hash a) → is_Some (bw_blocks w !! ta_block_hash a) → txs_of w (ta_block_hash a) !! N.to_nat (ta_index a) = Some t →
  key t = Some x → located key B' D x a.
Proof.
  intros Ha [b Hb] Ht Hk. split; [done|]. exists b, t. unfold txs_of in Ht. rewrite Hb in Ht. simpl in Ht.
  split; [by eapply lookup_weaken|done].
Qed.
Lemma txs_located key (D : H256 → Prop) a x :
  located key B' D x a → is_Some (bw_blocks w !! ta_block_hash a) →
  ∃ t, txs_of w (ta_block_hash a) !! N.to_nat (ta_index a) = Some t ∧ key t = Some x.
Proof.
  intros (_ & b & t & Hb & Ht) [b' Hb']. exists t. unfold txs_of. rewrite Hb'. simpl.
  rewrite (lookup_weaken _ _ _ _ Hb' Hgrow) in Hb. by injection Hb as <-.
Qed.

(** What is entered is where the transactions of the enacted blocks are. *)
Definition entering (h : H256) : Prop := h ∈ E ∨ h = bk_hash best.

Lemma entered_parcels x v :
  (x, v) ∈ concat ((λ hash, parcel_address_entries hash (utx_hash <$> txs_of w hash)) <$> E) ++
    parcel_address_entries (bk_hash best) (utx_hash <$> bk_transactions best) ↔
  ∃ a, v = Some a ∧ located by_hash B' entering x a.
Proof.
  rewrite elem_of_app, elem_of_concat, parcel_entries_elem. split.
  - intros [(l & Hin & (h & -> & Hh)%list_elem_of_fmap)|(a & -> & Ha & t & Ht & Hx)].
    + apply parcel_entries_elem in Hin as (a & -> & <- & t & Ht & Hx). exists a. split; [done|].
      eapply located_txs; [by left|by apply HE|done|done].
    + exists a. split; [done|]. split; [by right|]. exists best, t. by rewrite Ha.
  - intros (a & -> & Hl). destruct (proj1 Hl) as [Ha|Ha].
    + left. exists (parcel_address_entries (ta_block_hash a) (utx_hash <$> txs_of w (ta_block_hash a))). split.
      * apply parcel_entries_elem. exists a. split; [done|]. split; [done|]. eapply txs_located; [done|by apply HE].
      * by apply (list_elem_of_fmap_2 (λ hash, parcel_address_entries hash (utx_hash <$> txs_of w hash))).
    + right. exists a. split; [done|]. split; [done|]. destruct Hl as (_ & b & t & Hb & Ht & Hx). rewrite Ha, Hbest in Hb.
      injection Hb as <-. by exists t.
Qed.

Lemma removed_parcels x v :
  (x, v) ∈ (λ hash, (hash, @None TransactionAddress)) <$> concat ((λ hash, utx_hash <$> txs_of w hash) <$> R) ↔
  v = None ∧ ∃ a, located by_hash B' (λ h, h ∈ R) x a.
Proof.
  rewrite list_elem_of_fmap. split.
  - intros (y & [= -> ->] & (l & Hy & (h & -> & Hh)%list_elem_of_fmap)%elem_of_concat). split; [done|].
    apply list_elem_of_fmap in Hy as (t & -> & [i Hi]%list_elem_of_lookup).
    exists {| ta_block_hash := h; ta_index := N.of_nat i |}. eapply (located_txs _ _ _ t); simpl; [done|by apply HR|by rewrite Nat2N.id|done].
  - intros (-> & a & Hl). exists x. split; [done|]. apply elem_of_concat. pose proof (proj1 Hl) as Ha.
    destruct (txs_located _ _ _ _ Hl (HR _ Ha)) as (t & Ht & [= <-]). eexists. split; [|by apply (list_elem_of_fmap_2 (λ hash, utx_hash <$> txs_of w hash))].
    apply list_elem_of_fmap_2. by eapply list_elem_of_lookup_2.
Qed.

Lemma parcels_moved P :
  once B' C → once B' C' → exact_parcels (bw_blocks w) C P →
  exact_parcels B' C' (take_pending (collect (parcel_moves w R E best)) P).
Proof.
  intros Ho Ho' HP x a. rewrite take_pending_lookup. unfold parcel_moves. rewrite collect_app.
  set (new := concat _ ++ parcel_address_entries _ _). set (out := _ <$> concat _).
  assert (∀ a, located by_hash B' entering x a → located by_hash B' C' x a) as Hin.
  { intros a0 [Ha ?]. split; [|done]. apply Hmove. by right. }
  destruct (collect new !! x) as [v|] eqn:Hnew.
  { pose proof (collect_elem _ _ _ Hnew) as (a' & -> & Hl)%entered_parcels. split; [intros [= <-]; by apply Hin|].
    intros Hl'. f_equal. eapply Ho'; [by apply Hin|done]. }
  assert (∀ a, ¬ located by_hash B' entering x a) as Hno.
  { intros a0 Hl. destruct (collect_is_Some new x (Some a0)) as [? ?]; [|congruence]. apply entered_parcels. eauto. }
  destruct (collect out !! x) as [v|] eqn:Hout.
  - pose proof (collect_elem _ _ _ Hout) as (-> & a' & Hl)%removed_parcels. split; [done|]. intros Hx.
    destruct (proj1 (Hmove _) (proj1 Hx)) as [[Hc Hr]|He]; [|by destruct (Hno a); split; [|apply Hx]].
    assert (a = a') as ->; [|by destruct Hr; apply (proj1 Hl)]. eapply Ho; (split; [|by apply Hx || apply Hl]); [done|]. by apply HRC, (proj1 Hl).
  - rewrite (HP x a), located_grow. split; intros Hx.
    + split; [|apply Hx]. apply Hmove. left. split; [apply Hx|]. intros Hr.
      destruct (collect_is_Some out x None) as [? ?]; [|congruence]. apply removed_parcels. split; [done|]. exists a. split; [done|apply Hx].
    + split; [|apply Hx]. destruct (proj1 (Hmove _) (proj1 Hx)) as [[Hc _]|He]; [done|]. destruct (Hno a). split; [done|apply Hx].
Qed.

Lemma moved_trackers l x a : known_blocks w l →
  a ∈ default [] (gather (tracker_moves w l) !! x) ↔ located by_tracker B' (λ h, h ∈ l) x a.
Proof.
  intros Hl. rewrite gather_elem. unfold tracker_moves. setoid_rewrite elem_of_concat. split.
  - intros (v & (es & Hin & (h & -> & Hh)%list_elem_of_fmap) & Ha).
    apply tracker_entries_elem in Hin as (a' & -> & <- & t & Ht & Hx). apply list_elem_of_singleton in Ha as ->.
    by eapply located_txs; [done|apply Hl|done|done].
  - intros Hx. exists [a]. split; [|by apply list_elem_of_singleton]. pose proof (proj1 Hx) as Ha.
    exists (transaction_address_entries (ta_block_hash a) (txs_of w (ta_block_hash a))). split.
    + apply tracker_entries_elem. exists a. split; [done|]. split; [done|]. eapply txs_located; [done|by apply Hl].
    + by apply (list_elem_of_fmap_2 (λ hash, transaction_address_entries hash (txs_of w hash))).
Qed.

Lemma entered_trackers x a :
  a ∈ default [] (gather (tracker_moves w E ++ transaction_address_entries (bk_hash best) (bk_transactions best)) !! x) ↔
  located by_tracker B' entering x a.
Proof.
  rewrite gather_elem. setoid_rewrite elem_of_app. split.
  - intros (v & [Hin|Hin] & Ha).
    + destruct (proj1 (moved_trackers E x a HE)) as [? ?]; [apply gather_elem; eauto|]. by split; [left|].
    + apply tracker_entries_elem in Hin as (a' & -> & Hb & t & Ht & Hx). apply list_elem_of_singleton in Ha as ->.
      split; [by right|]. exists best, t. by rewrite Hb.
  - intros Hx. destruct (proj1 Hx) as [Ha|Ha].
    + destruct (proj1 (gather_elem (tracker_moves w E) x a)) as (v & ? & ?); [|by exists v; auto].
      apply moved_trackers; [done|]. by split; [|apply Hx].
    + exists [a]. split; [right|by apply list_elem_of_singleton]. apply tracker_entries_elem. exists a. split; [done|]. split; [done|].
      destruct Hx as (_ & b & t & Hb & Ht & Hk). rewrite Ha, Hbest in Hb. injection Hb as <-. by exists t.
Qed.

(** What an update leaves under a tracker. *)
Lemma updated_entry stored added removed x v :
  updated_addresses stored added removed !! x = Some v →
  v = match updated_address stored added removed x with [] => None | address => Some address end.
Proof.
  unfold updated_addresses. intros (y & _ & Hy)%lookup_set_to_map; [|by intros ? ? ? ? [= ->]]. by injection Hy as -> ->.
Qed.

Lemma updated_nonempty stored added removed x :
  stored !! x ≠ Some [] → take_pending (updated_addresses stored added removed) stored !! x ≠ Some [].
Proof.
  intros Hne. rewrite take_pending_lookup. destruct (updated_addresses stored added removed !! x) as [v|] eqn:Hv; [|done].
  apply updated_entry in Hv as ->. by destruct (updated_address stored added removed x).
Qed.

Lemma updated_address_elem stored added removed x a :
  a ∈ updated_address stored added removed x ↔
  (a ∈ default [] (stored !! x) ∧ a ∉ default [] (removed !! x)) ∨ a ∈ default [] (added !! x).
Proof.
  pose proof (not_elem_of_nil a). unfold updated_address. destruct (added !! x) as [ad|], (removed !! x) as [re|]; simpl;
    rewrite ?addresses_add_elem, ?addresses_sub_elem; tauto.
Qed.

Lemma updated_elem stored added removed x a :
  a ∈ default [] (take_pending (updated_addresses stored added removed) stored !! x) ↔
  (a ∈ default [] (stored !! x) ∧ a ∉ default [] (removed !! x)) ∨ a ∈ default [] (added !! x).
Proof.
  rewrite take_pending_lookup. destruct (updated_addresses stored added removed !! x) as [v|] eqn:Hv.
  - apply updated_entry in Hv as ->. rewrite <-updated_address_elem. by destruct (updated_address stored added removed x).
  - assert (x ∉ dom added ∪ dom removed) as [Ha Hr]%not_elem_of_union.
    { intros Hx. apply (eq_None_not_Some (updated_addresses stored added removed !! x)); [done|].
      eexists. apply lookup_set_to_map; [by intros ? ? ? ? [= ->]|]. by exists x. }
    apply not_elem_of_dom in Ha as ->. apply not_elem_of_dom in Hr as ->. simpl. pose proof (not_elem_of_nil a). tauto.
Qed.

Lemma trackers_moved T :
  exact_trackers (bw_blocks w) C T →
  exact_trackers B' C' (take_pending (updated_addresses T
    (gather (tracker_moves w E ++ transaction_address_entries (bk_hash best) (bk_transactions best))) (gather (tracker_moves w R))) T).
Proof.
  intros HT x. destruct (HT x) as [Hne HTx]. split; [by apply updated_nonempty|].
  intros a. rewrite updated_elem, entered_trackers, (moved_trackers R) by done. rewrite HTx, located_grow. unfold located, entering.
  rewrite (Hmove (ta_block_hash a)). tauto.
Qed.
End Moves.
End Index.
