(* ===== verification/BlockChainStep.v ===== *)
(** The calls that change the chain of blocks, on its view: headers, bodies, the addresses of transactions and the best block move
    together.  Which chain is the best one moves as the tree of the blocks does. *)
From Stdlib Require Import NArith Lia.
From stdpp Require Import base gmap list numbers.
From S2P Require Import TmWorker.
From S2P Require Import Prelude Types Crypto Rlp RlpImpls RlpCompress TxHash StakeSpec Header HeaderChain HeaderChainFacts HeaderChainStep.
From S2P Require Import HeaderChainProps BlockChain BlockChainFacts BlockIndex.

Local Open Scope N_scope.

(** * The chain of a header *)

Section Chains.
Context (D : gmap H256 BlockDetails) (genesis : H256).

Definition on_chain (h x : H256) : Prop := ∃ d k, D !! h = Some d ∧ N.of_nat k ≤ bd_number d ∧ anc D k h = Some x.

Lemma on_chain_self h d : D !! h = Some d → on_chain h h.
Proof. intros Hd. exists d, O. split_and!; [done|lia|done]. Qed.

Lemma on_chain_push p dp h d x :
  D !! p = Some dp → D !! h = Some d → bd_parent d = p → bd_number d = bd_number dp + 1 →
  on_chain h x ↔ on_chain p x ∨ x = h.
Proof.
  intros Hp Hh <- Hn. split.
  - intros (d0 & k & Hd0 & Hk & Ha). simplify_eq. destruct k as [|k]; [injection Ha as <-; by right|]. left.
    exists dp, k. split_and!; [done|lia|]. simpl in Ha. by rewrite Hh in Ha.
  - intros [(d0 & k & Hd0 & Hk & Ha)| ->]; [|by eapply on_chain_self]. simplify_eq. exists d, (S k).
    split_and!; [done|lia|]. simpl. by rewrite Hh.
Qed.

Context (Htree : tree D genesis).

Lemma on_chain_known h x : on_chain h x → is_Some (D !! x).
Proof. intros (d & k & Hd & Hk & Ha). destruct (anc_known _ _ Htree k h d Hd Hk) as (x' & d' & Ha' & Hd' & _). by simplify_eq. Qed.

(** What is on a trail. *)
Lemma trail_elem k h d y : D !! h = Some d → N.of_nat k ≤ bd_number d → y ∈ trail D k h →
  ∃ l dy, (l < k)%nat ∧ anc D l h = Some y ∧ D !! y = Some dy ∧ bd_number dy + N.of_nat l = bd_number d.
Proof.
  intros Hd Hk [l Hl]%list_elem_of_lookup. pose proof (lookup_lt_Some _ _ _ Hl) as Hlt.
  rewrite (trail_length _ _ Htree k h d) in Hlt by done. rewrite (trail_lookup _ _ Htree k h d) in Hl by done.
  destruct (anc_known _ _ Htree l h d Hd) as (y' & dy & Hy & Hdy & Hn); [lia|]. simplify_eq. by exists l, dy.
Qed.

(** From the chain of [b] to that of [p] by way of their common ancestor. *)
Lemma on_chain_route b p db dp i j a da x :
  D !! b = Some db → D !! p = Some dp → D !! a = Some da → anc D i b = Some a → anc D j p = Some a →
  bd_number da + N.of_nat i = bd_number db → bd_number da + N.of_nat j = bd_number dp →
  on_chain p x ↔ (on_chain b x ∧ x ∉ trail D i b) ∨ x ∈ trail D j p.
Proof.
  intros Hb Hp Ha Hi Hj Hni Hnj.
  split.
  - intros (d0 & k & Hd0 & Hk & Hx). rewrite Hp in Hd0. injection Hd0 as <-. destruct (decide (k < j)%nat) as [Hlt|Hge].
    + right. apply list_elem_of_lookup. exists k. by rewrite (trail_lookup _ _ Htree j p dp) by (done || lia).
    + left. replace k with (j + (k - j))%nat in Hx by lia. rewrite (anc_add _ _ _ _ _ Hj) in Hx.
      destruct (anc_known _ _ Htree (k - j) a da Ha) as (x' & dx & Hx' & Hdx & Hnx); [lia|]. simplify_eq. split.
      * exists db, (i + (k - j))%nat. split_and!; [done|lia|]. by rewrite (anc_add _ _ _ _ _ Hi).
      * intros (l & dy & Hl & _ & Hdy & Hny)%(trail_elem _ _ db); [|done|lia]. simplify_eq. lia.
  - intros [[(d0 & k & Hd0 & Hk & Hx) Hno]|(l & dy & Hl & Hy & _ & _)%(trail_elem _ _ dp)]; [|exists dp, l; split_and!; [done|lia|done]|done|lia].
    rewrite Hb in Hd0. injection Hd0 as <-. destruct (decide (k < i)%nat) as [Hlt|Hge].
    + destruct Hno. apply list_elem_of_lookup. exists k. by rewrite (trail_lookup _ _ Htree i b db) by (done || lia).
    + replace k with (i + (k - i))%nat in Hx by lia. rewrite (anc_add _ _ _ _ _ Hi) in Hx.
      exists dp, (j + (k - i))%nat. split_and!; [done|lia|]. by rewrite (anc_add _ _ _ _ _ Hj).
Qed.

Lemma trail_on_chain k h d x : D !! h = Some d → N.of_nat k ≤ bd_number d → x ∈ trail D k h → on_chain h x.
Proof. intros Hd Hk (l & dx & Hl & Hx & _)%(trail_elem _ _ d); [|done|done]. exists d, l. split_and!; [done|lia|done]. Qed.

(** In a larger tree the chains are the same. *)
Lemma on_chain_grow D' h x : D ⊆ D' → is_Some (D !! h) →
  (∃ d k, D' !! h = Some d ∧ N.of_nat k ≤ bd_number d ∧ anc D' k h = Some x) ↔ on_chain h x.
Proof.
  intros Hsub [d Hd]. pose proof (lookup_weaken _ _ _ _ Hd Hsub) as Hd'. split; intros (d0 & k & Hd0 & Hk & Hx).
  - rewrite Hd' in Hd0. injection Hd0 as <-. exists d, k. split_and!; [done|done|].
    destruct (anc_known _ _ Htree k h d Hd Hk) as (x' & _ & Hx' & _). rewrite (anc_weaken _ _ _ _ _ Hsub Hx') in Hx. congruence.
  - rewrite Hd in Hd0. injection Hd0 as <-. exists d, k. split_and!; [done|done|]. by eapply anc_weaken.
Qed.

Lemma trail_grow D' k h d : D ⊆ D' → D !! h = Some d → N.of_nat k ≤ bd_number d → trail D' k h = trail D k h.
Proof.
  intros Hsub. revert h d. induction k as [|k IH]; intros h d Hd Hk; [done|]. simpl. rewrite Hd, (lookup_weaken _ _ _ _ Hd Hsub). f_equal.
  destruct (parent_known _ _ Htree h d Hd) as (d' & Hd' & Hn); [lia|]. apply (IH _ d'); [done|lia].
Qed.
End Chains.

Section Steps.
Context `{CryptoLaws}.

(** * The view of the chain *)

Record chain_view := {
  cv_headers : view;
  cv_bodies : body_view;
  cv_best : H256;
  cv_proposal : H256;
}.

Record shows_chain (s : BlockChain) (c : chain_view) : Prop := {
  sc_headers : shows (bc_headerchain s) (cv_headers c);
  sc_bodies : holds ∅ ∅ (bc_body_db s) (cv_bodies c);
  sc_best : bc_best_block_hash s = cv_best c;
  sc_proposal : bc_best_proposal_block_hash s = cv_proposal c;
  sc_db_best : bc_db_best_block s = Some (cv_best c);
  sc_db_proposal : bc_db_best_proposal_block s = Some (cv_proposal c);
  sc_no_best : bc_pending_best_block_hash s = None;
  sc_no_proposal : bc_pending_best_proposal_block_hash s = None;
}.
Local Abbreviation peeks := (peeks_of shows_chain).

Lemma peeks_headers {A} (m : stM HeaderChain Empty_set A) c r : peeks_of shows m (cv_headers c) r → peeks (on_headers m) c r.
Proof.
  intros Hm s Hs. destruct (Hm _ (sc_headers _ _ Hs)) as (h & E & Hh). unfold on_headers. rewrite E. eexists. split; [done|].
  destruct Hs. by split.
Qed.
Lemma peeks_bodies {A} (m : stM BodyDB Empty_set A) c r : peeks_of (holds ∅ ∅) m (cv_bodies c) r → peeks (on_bodies m) c r.
Proof.
  intros Hm s Hs. destruct (Hm _ (sc_bodies _ _ Hs)) as (b & E & Hb). unfold on_bodies. rewrite E. eexists. split; [done|].
  destruct Hs. by split.
Qed.

(** A block that the chain has, with its header. *)
Record has_block (c : chain_view) (hash : H256) (b : Block) : Prop := {
  hb_block : bw_blocks (cv_bodies c) !! hash = Some b;
  hb_header : vw_headers (cv_headers c) !! hash = Some (bk_header_bytes b);
  hb_good : good_block b;
  hb_hash : bk_hash b = hash;
}.

Lemma peeks_block c hash b : has_block c hash b → peeks (chain_block hash) c (Ok (Some (block_bytes b))).
Proof.
  intros Hb. unfold chain_block. eapply peeks_bind; [apply peeks_headers, peeks_header|]. rewrite (hb_header _ _ _ Hb).
  eapply peeks_bind; [apply peeks_bodies, peeks_body|]. rewrite (hb_block _ _ _ Hb). simpl.
  destruct (body_views b (hb_good _ _ _ Hb)) as (_ & _ & Hat & _). rewrite Hat. apply peeks_lift_bind.
  rewrite (block_again b (hb_good _ _ _ Hb)). apply peeks_lift_bind, peeks_ret.
Qed.

Lemma peeks_is_known c hash :
  peeks (is_known hash) c (Ok (bool_decide (is_Some (vw_details (cv_headers c) !! hash)) && bool_decide (is_Some (bw_blocks (cv_bodies c) !! hash)))).
Proof.
  unfold is_known. eapply peeks_bind; [apply peeks_headers, peeks_known|].
  destruct (bool_decide (is_Some (vw_details (cv_headers c) !! hash))); [apply peeks_bodies, peeks_known_body|apply peeks_ret].
Qed.

Lemma peeks_best_detail c d : vw_details (cv_headers c) !! cv_best c = Some d → peeks best_block_detail c (Ok d).
Proof.
  intros Hd. apply peeks_get. intros s Hs. rewrite (sc_best _ _ Hs). eapply peeks_bind; [apply peeks_headers, peeks_details|].
  rewrite Hd. apply peeks_lift.
Qed.
Lemma peeks_proposal_detail c d : vw_details (cv_headers c) !! cv_proposal c = Some d → peeks best_proposal_block_detail c (Ok d).
Proof.
  intros Hd. apply peeks_get. intros s Hs. rewrite (sc_proposal _ _ Hs). eapply peeks_bind; [apply peeks_headers, peeks_details|].
  rewrite Hd. apply peeks_lift.
Qed.

(** * What the chain keeps to *)

Definition block_tree (D : gmap H256 BlockDetails) (c : chain_view) : HeaderTree :=
  {| ht_details := D; ht_best := cv_best c; ht_proposal := cv_proposal c |}.

(** [D] are the details of the headers whose blocks are known. *)
Record chain_ok (rule : BestRule) (g : N) (genesis : H256) (c : chain_view) (D : gmap H256 BlockDetails) : Prop := {
  ok_headers : upholds rule g genesis (cv_headers c);
  ok_link h d : D !! h = Some d ↔ vw_details (cv_headers c) !! h = Some d ∧ is_Some (bw_blocks (cv_bodies c) !! h);
  ok_block h b : bw_blocks (cv_bodies c) !! h = Some b → has_block c h b;
  ok_tree : tree D genesis;
  ok_leads : leads rule (block_tree D c);
  ok_best : is_Some (D !! cv_best c);
  ok_proposal : is_Some (D !! cv_proposal c);
  ok_once h : is_Some (D !! h) → once (bw_blocks (cv_bodies c)) (on_chain D h);
  ok_parcels : exact_parcels (bw_blocks (cv_bodies c)) (on_chain D (cv_best c)) (bw_parcels (cv_bodies c));
  ok_trackers : exact_trackers (bw_blocks (cv_bodies c)) (on_chain D (cv_best c)) (bw_trackers (cv_bodies c));
}.

Section Ok.
Context (rule : BestRule) (g : N) (genesis : H256) (c : chain_view) (D : gmap H256 BlockDetails).
Context (Hok : chain_ok rule g genesis c D).

Lemma ok_sub : D ⊆ vw_details (cv_headers c).
Proof. apply map_subseteq_spec. intros h d Hd. by apply (ok_link _ _ _ _ _ Hok). Qed.
Lemma ok_known h b : bw_blocks (cv_bodies c) !! h = Some b → is_Some (D !! h).
Proof.
  intros Hb. pose proof (hb_header _ _ _ (ok_block _ _ _ _ _ Hok h b Hb)) as Hh.
  destruct (so_headers _ _ (proj1 (ok_headers _ _ _ _ _ Hok)) _ _ Hh) as [d Hd]. exists d. apply (ok_link _ _ _ _ _ Hok). by split; [|eexists].
Qed.
Lemma ok_has h d : D !! h = Some d → ∃ b, has_block c h b.
Proof. intros Hd. apply (ok_link _ _ _ _ _ Hok) in Hd as [_ [b Hb]]. exists b. by apply (ok_block _ _ _ _ _ Hok). Qed.
Lemma ok_chain_known h x : on_chain D h x → is_Some (bw_blocks (cv_bodies c) !! x).
Proof.
  intros Hx. destruct (on_chain_known _ _ (ok_tree _ _ _ _ _ Hok) _ _ Hx) as [d Hd]. by apply (ok_link _ _ _ _ _ Hok) in Hd as [_ ?].
Qed.
Lemma ok_scored : scored rule g D.
Proof.
  destruct (ok_headers _ _ _ _ _ Hok) as (_ & Hsc & _). pose proof ok_sub as Hsub. destruct rule.
  - intros x d d' Hx Hn Hp. eapply Hsc; [by eapply lookup_weaken|done|by eapply lookup_weaken].
  - intros x d Hx. by eapply Hsc, lookup_weaken.
Qed.
Lemma ok_good h b : bw_blocks (cv_bodies c) !! h = Some b → good_block b.
Proof. intros Hb. by apply (ok_block _ _ _ _ _ Hok) in Hb as []. Qed.
End Ok.

(** * A block arrives *)

(** The change moves the canonical chain from the one of [old] to the one of [best]. *)
Record moves (c : chain_view) (C C' : H256 → Prop) (changed : BestBlockChanged) (best : Block) (R E : list H256) : Prop := {
  mv_good : good_block best;
  mv_block : changed_block changed = Some (block_bytes best);
  mv_moved : moved_by changed = (R, E);
  mv_retracted : known_blocks (cv_bodies c) R;
  mv_enacted : known_blocks (cv_bodies c) E;
  mv_from h : h ∈ R → C h;
  mv_chain h : C' h ↔ (C h ∧ h ∉ R) ∨ h ∈ E ∨ h = bk_hash best;
  mv_gone h : h ∈ R → h ∉ E ∧ h ≠ bk_hash best;
}.

Section BlockArrives.
#[local] Set Default Proof Using "All".
Context (rule : BestRule) (g : N) (genesis : H256) (c : chain_view) (D : gmap H256 BlockDetails).
Context (Hok : chain_ok rule g genesis c D).
Context (b : Block) (Hgood : good_block b) (dp dbest dprop : BlockDetails) (allowed_height : BlockNumber).
Local Abbreviation h := (bk_header b).
Context (Hfits : bd_total_score dp + hd_score h < u256_size).
Context (A : arrival rule g genesis (block_tree D c) h (bk_hash b) dp dbest dprop allowed_height).
Let Hparent : D !! hd_parent_hash h = Some dp := ar_parent _ _ _ _ _ _ _ _ _ _ A.
Let Hbest : D !! cv_best c = Some dbest := ar_best _ _ _ _ _ _ _ _ _ _ A.
Let Hprop : D !! cv_proposal c = Some dprop := ar_proposal _ _ _ _ _ _ _ _ _ _ A.
Let Hnew : D !! bk_hash b = None := ar_new _ _ _ _ _ _ _ _ _ _ A.
Local Abbreviation D' := (<[bk_hash b := details_on h dp]> D).
Local Abbreviation rbest := (rule_best rule h (bk_hash b)).

(** How the chain moves along a route. *)
Lemma chain_moves i j a da x :
  anc D i (cv_best c) = Some a → anc D j (hd_parent_hash h) = Some a → D !! a = Some da →
  bd_number da + N.of_nat i = bd_number dbest → bd_number da + N.of_nat j = bd_number dp →
  on_chain D' rbest x ↔
  (on_chain D (cv_best c) x ∧ x ∉ match i with O => [] | S _ => trail D i (cv_best c) end) ∨
  x ∈ match i with O => [] | S _ => reverse (trail D j (hd_parent_hash h)) end ∨ x = rbest.
Proof.
  intros Hi Hj Ha Hni Hnj. pose proof (no_gap _ _ _ _ _ _ _ _ _ _ A i j a da Hi Hj Ha Hnj) as Hgap.
  assert (D ⊆ D') as Hsub by by apply insert_subseteq. pose proof (ok_tree _ _ _ _ _ Hok) as Ht.
  assert (∀ x, on_chain D' (hd_parent_hash h) x ↔ on_chain D (hd_parent_hash h) x) as Hgrow.
  { intros y. apply (on_chain_grow D genesis Ht D' (hd_parent_hash h) y Hsub). by rewrite Hparent. }
  pose proof (on_chain_route D genesis Ht _ _ _ _ i j a da x Hbest Hparent Ha Hi Hj Hni Hnj) as Hroute.
  assert (on_chain D (hd_parent_hash h) (hd_parent_hash h)) as Hself by by eapply on_chain_self.
  pose proof (on_chain_route D genesis Ht _ _ _ _ i j a da (hd_parent_hash h) Hbest Hparent Ha Hi Hj Hni Hnj) as Hroute'.
  assert (x ∈ reverse (trail D j (hd_parent_hash h)) ↔ x ∈ trail D j (hd_parent_hash h)) as Hrev by apply elem_of_reverse.
  pose proof (not_elem_of_nil x) as Hnil. unfold rule_best. destruct rule.
  - rewrite (on_chain_push D' (hd_parent_hash h) dp (bk_hash b) (details_on h dp) x);
      [|by apply (lookup_weaken _ _ _ _ Hparent)|by rewrite lookup_insert_eq|done|apply A].
    rewrite Hgrow, Hroute. destruct i as [|i]; [|tauto]. assert (j = O) as -> by lia. simpl. tauto.
  - rewrite Hgrow, Hroute. destruct i as [|i].
    + assert (j = O ∨ j = 1%nat) as [-> | ->] by lia; simpl in *.
      * split; [tauto|]. intros [?|[?| ->]]; [tauto|tauto|]. apply Hroute' in Hself. tauto.
      * rewrite Hparent. rewrite list_elem_of_singleton. tauto.
    + split; [tauto|]. intros [?|[?| ->]]; [tauto|tauto|]. by apply Hroute' in Hself.
Qed.

(** The route of the headers is a route of the blocks. *)
Lemma block_route : ∃ i j a da,
  peeks (on_headers (tree_route (cv_best c) (hd_parent_hash h))) c
    (Ok (Some {| tr_ancestor := a; tr_retracted := trail D i (cv_best c); tr_enacted := reverse (trail D j (hd_parent_hash h)) |})) ∧
  anc D i (cv_best c) = Some a ∧ anc D j (hd_parent_hash h) = Some a ∧ D !! a = Some da ∧
  bd_number da + N.of_nat i = bd_number dbest ∧ bd_number da + N.of_nat j = bd_number dp ∧
  ∀ k l x dx, anc D k (cv_best c) = Some x → anc D l (hd_parent_hash h) = Some x → D !! x = Some dx →
    bd_number dx + N.of_nat k = bd_number dbest → bd_number dx + N.of_nat l = bd_number dp → bd_number dx ≤ bd_number da.
Proof.
  pose proof (ok_sub _ _ _ _ _ Hok) as Hsub. pose proof (ok_tree _ _ _ _ _ Hok) as Ht. destruct (ok_headers _ _ _ _ _ Hok) as (Hs & _).
  destruct (tree_route_ok (cv_headers c) genesis (so_tree _ _ Hs) (so_stored _ _ Hs) _ _ _ _ (lookup_weaken _ _ _ _ Hbest Hsub)
    (lookup_weaken _ _ _ _ Hparent Hsub)) as (i & j & a & da & Hroute & Hi & Hj & Ha & Hni & Hnj & Htop).
  destruct (anc_known D genesis Ht i (cv_best c) dbest Hbest) as (a1 & d1 & Ha1 & Hd1 & _); [lia|].
  destruct (anc_known D genesis Ht j (hd_parent_hash h) dp Hparent) as (a2 & d2 & Ha2 & Hd2 & _); [lia|].
  rewrite (anc_weaken _ _ _ _ _ Hsub Ha1) in Hi. injection Hi as ->. rewrite (anc_weaken _ _ _ _ _ Hsub Ha2) in Hj. injection Hj as ->.
  rewrite (lookup_weaken _ _ _ _ Hd1 Hsub) in Ha. injection Ha as ->. exists i, j, a, da. split_and!; try done; cycle 1.
  { intros k l x dx Hk Hl _ Hnk Hnl. destruct (N.le_gt_cases (bd_number dx) (bd_number da)) as [|Hlt]; [done|].
    destruct (Htop (bd_number dx)); [lia..|]. replace (N.to_nat (bd_number dbest - bd_number dx)) with k by lia.
    replace (N.to_nat (bd_number dp - bd_number dx)) with l by lia.
    by rewrite (anc_weaken _ _ _ _ _ Hsub Hk), (anc_weaken _ _ _ _ _ Hsub Hl). }
  rewrite <-(trail_grow D genesis Ht _ i _ _ Hsub Hbest), <-(trail_grow D genesis Ht _ j _ _ Hsub Hparent) by lia.
  by apply peeks_headers.
Qed.

(** The block that the rule makes the best one. *)
Lemma new_best_block :
  ∃ best, good_block best ∧ bk_hash best = rbest ∧
    peeks (if bool_decide (rbest = bk_hash b) then mret (block_bytes b)
           else block ← chain_block rbest; lift_st (expect block)) c (Ok (block_bytes best)) ∧
    (best = b ∨ has_block c rbest best).
Proof.
  unfold rule_best. destruct rule.
  - exists b. split_and!; [done|done| |by left]. rewrite bool_decide_eq_true_2 by done. apply peeks_ret.
  - destruct (ok_has _ _ _ _ _ Hok _ _ Hparent) as (bp & Hbp). exists bp. split_and!; [apply Hbp|apply Hbp| |by right].
    rewrite bool_decide_eq_false_2 by (intros Heq; rewrite Heq in Hparent; congruence).
    eapply peeks_bind; [by apply peeks_block|]. apply peeks_lift.
Qed.

(** The reads that come before the comparison of the scores. *)
Ltac before_scores :=
  let Hn := fresh in let Hp := fresh in let Hs := fresh in
  destruct (header_views h (bk_seals b) (good_block_header b Hgood)) as (Hn & Hp & Hs & _);
  pose proof (ok_sub _ _ _ _ _ Hok) as Hsub; destruct (block_views b Hgood) as (Hhd & _);
  unfold best_block_changed; rewrite Hhd; apply peeks_lift_bind; unfold bk_header_bytes; rewrite Hp; apply peeks_lift_bind;
  eapply peeks_bind; [apply peeks_headers, peeks_details|]; rewrite (lookup_weaken _ _ _ _ Hparent Hsub); apply peeks_lift_bind;
  rewrite Hs; apply peeks_lift_bind; unfold u256_add; rewrite (proj2 (N.ltb_lt _ _) Hfits); apply peeks_lift_bind;
  eapply peeks_bind; [eapply peeks_proposal_detail, lookup_weaken; [exact Hprop|exact Hsub]|].

Lemma peeks_block_aside :
  takes_lead rule h dp dprop allowed_height = false →
  peeks (best_block_changed (block_bytes b) (engine_of rule allowed_height)) c (Ok NoBlockChanged).
Proof.
  intros Hno. before_scores. change (bd_total_score dp + hd_score h) with (bd_total_score (details_on h dp)).
  unfold takes_lead in Hno. destruct (bd_total_score dprop <? bd_total_score (details_on h dp)).
  - simpl in Hno. rewrite (engine_can_change rule h _ allowed_height (good_block_header b Hgood)), Hno. apply peeks_lift_bind, peeks_ret.
  - eapply peeks_bind; [apply peeks_ret|]. apply peeks_ret.
Qed.

Lemma peeks_block_best :
  takes_lead rule h dp dprop allowed_height = true →
  ∃ changed best R E, peeks (best_block_changed (block_bytes b) (engine_of rule allowed_height)) c (Ok changed) ∧
    moves c (on_chain D (cv_best c)) (on_chain D' rbest) changed best R E ∧ bk_hash best = rbest ∧ (best = b ∨ has_block c rbest best).
Proof.
  intros Hyes. destruct block_route as (i & j & a & da & Hroute & Hi & Hj & Ha & Hni & Hnj & Htop).
  destruct new_best_block as (best & Hbg & Hbh & Hbb & Hbk). pose proof (ok_tree _ _ _ _ _ Hok) as Ht.
  set (route := {| tr_ancestor := a; tr_retracted := _; tr_enacted := _ |}) in Hroute.
  exists (match tr_retracted route with [] => BlockAppended (block_bytes best) | _ => BranchBecoming (block_bytes best) route end), best,
    (match i with O => [] | S _ => trail D i (cv_best c) end), (match i with O => [] | S _ => reverse (trail D j (hd_parent_hash h)) end).
  split; [|split; [|done]].
  - unfold takes_lead in Hyes. apply andb_true_iff in Hyes as [Hm Hal]. before_scores.
    change (bd_total_score dp + hd_score h) with (bd_total_score (details_on h dp)). rewrite Hm.
    rewrite (engine_can_change rule h _ allowed_height (good_block_header b Hgood)), Hal. apply peeks_lift_bind, peeks_get.
    intros s Hs. rewrite (sc_best _ _ Hs). eapply peeks_bind; [exact Hroute|]. apply peeks_lift_bind.
    rewrite (engine_best rule h _ allowed_height (good_block_header b Hgood)). apply peeks_lift_bind.
    eapply peeks_bind; [exact Hbb|]. apply peeks_ret.
  - assert (known_blocks (cv_bodies c) (trail D i (cv_best c)) ∧ known_blocks (cv_bodies c) (trail D j (hd_parent_hash h))) as [HkR HkE].
    { split; intros x Hx; eapply (ok_chain_known _ _ _ _ _ Hok).
      - apply (trail_on_chain D genesis Ht i (cv_best c) dbest); [done|lia|done].
      - apply (trail_on_chain D genesis Ht j (hd_parent_hash h) dp); [done|lia|done]. }
    split; [done|by destruct (tr_retracted route)|..].
    + subst route. by destruct i; simpl.
    + by destruct i.
    + destruct i; [done|]. intros x Hx. rewrite elem_of_reverse in Hx. exact (HkE x Hx).
    + intros x Hx. destruct i; [by apply not_elem_of_nil in Hx|]. eapply (trail_on_chain D genesis Ht); [done| |exact Hx]. lia.
    + intros x. rewrite Hbh. by apply (chain_moves i j a da).
    + intros x Hx. rewrite Hbh. destruct i as [|i]; [by apply not_elem_of_nil in Hx|].
      destruct (trail_elem D genesis Ht (S i) _ dbest x Hbest ltac:(lia) Hx) as (k & dx & Hk & Hkx & Hdx & Hnx).
      assert (∀ l, anc D l (hd_parent_hash h) = Some x → bd_number dx + N.of_nat l ≠ bd_number dp) as Hoff.
      { intros l Hl Hn. pose proof (Htop k l x dx Hkx Hl Hdx Hnx Hn). lia. }
      split.
      * rewrite elem_of_reverse. intros (l & dx' & _ & Hl & Hdx' & Hn)%(trail_elem D genesis Ht _ _ dp); [|done|lia].
        rewrite Hdx in Hdx'. injection Hdx' as <-. by apply (Hoff l).
      * unfold rule_best. destruct rule; intros ->; [congruence|]. rewrite Hparent in Hdx. injection Hdx as <-. apply (Hoff O); [done|lia].
Qed.
End BlockArrives.

(** * The calls *)

(** ** Invoices, which touch nothing else *)

Definition invoice_op (op : ChainOp) : Prop := match op with WriteInvoices _ _ | WriteHint _ _ => True | _ => False end.

Lemma insert_invoice_runs hash tracker hint i :
  ∃ l i', insert_invoice hash tracker hint i = (Ok l, i') ∧ Forall invoice_op l.
Proof.
  unfold insert_invoice, is_known_error_hint, mbind, stM_bind. destruct (match iv_hash_cache i !! hash with Some _ => _ | None => _ end).
  { by exists [], i. }
  destruct tracker as [t|]; simpl; [|eexists _, _; split; [done|by repeat constructor]].
  destruct (read_with_cache _ _ _) as [hs cache]. simpl. eexists _, _. split; [done|]. by repeat constructor.
Qed.

Lemma insert_invoices_run invoices s :
  ∃ l i', map_st (λ i, on_invoices (insert_invoice (inv_hash i) (inv_tracker i) (inv_error i))) invoices s =
      (Ok l, bc_parts (bc_headerchain s) (bc_body_db s) i' s) ∧ Forall invoice_op (concat l).
Proof.
  revert s. induction invoices as [|inv invoices IH]; intros s.
  { exists [], (bc_invoice_db s). split; [by destruct s|done]. }
  destruct (insert_invoice_runs (inv_hash inv) (inv_tracker inv) (inv_error inv) (bc_invoice_db s)) as (l & i1 & E1 & Hl).
  destruct (IH (bc_parts (bc_headerchain s) (bc_body_db s) i1 s)) as (ls & i2 & E2 & Hls). exists (l :: ls), i2. split.
  - simpl. unfold mbind, stM_bind, on_invoices at 1. rewrite E1. cbv beta iota. by rewrite E2.
  - simpl. by apply Forall_app.
Qed.

Lemma write_invoices l s : Forall invoice_op l →
  ∃ i', foldl apply_chain_op s l = bc_parts (bc_headerchain s) (bc_body_db s) i' s.
Proof.
  revert s. induction l as [|op l IH]; intros s Hl; [exists (bc_invoice_db s); by destruct s|].
  apply list.Forall_cons in Hl as [Hop Hl]. destruct (IH (apply_chain_op s op) Hl) as (i' & Hi'). exists i'. simpl. rewrite Hi'.
  by destruct op.
Qed.

(** ** Writing and committing *)

(** The state before the batch is written: [f] has changed the headers, [P] and [T] are pending for the bodies and [best] for the best
    block, with the proposal [proposal]. *)
Record awaits (f : HeaderChain → HeaderChain) (P : gmap H256 (option TransactionAddress)) (T : gmap H256 (option TransactionAddresses))
  (best : option H256) (proposal : H256) (s : BlockChain) (c : chain_view) : Prop := {
  aw_headers : ∃ h, shows h (cv_headers c) ∧ bc_headerchain s = f h;
  aw_bodies : holds P T (bc_body_db s) (cv_bodies c);
  aw_best : bc_best_block_hash s = cv_best c;
  aw_proposal : bc_best_proposal_block_hash s = cv_proposal c;
  aw_db_best : bc_db_best_block s = Some (cv_best c);
  aw_db_proposal : bc_db_best_proposal_block s = Some (cv_proposal c);
  aw_pending : bc_pending_best_block_hash s = best;
  aw_pending_proposal : bc_pending_best_proposal_block_hash s = (λ _, proposal) <$> best;
}.

Definition best_ops (best : option H256) (proposal : H256) : ChainBatch :=
  match best with Some best => [PutBestBlock best; PutBestProposalBlock proposal] | None => [] end.

Definition next_view (c : chain_view) (v : view) (blocks : gmap H256 Block) (P : gmap H256 (option TransactionAddress))
  (T : gmap H256 (option TransactionAddresses)) (best : option H256) (proposal : H256) : chain_view := {|
  cv_headers := v;
  cv_bodies := {| bw_blocks := blocks ∪ bw_blocks (cv_bodies c); bw_parcels := take_pending P (bw_parcels (cv_bodies c));
                  bw_trackers := take_pending T (bw_trackers (cv_bodies c)) |};
  cv_best := default (cv_best c) best; cv_proposal := default (cv_proposal c) ((λ _, proposal) <$> best) |}.

(** The body that is put, if any. *)
Definition put_ops (put : option (H256 * bytes)) : ChainBatch :=
  match put with Some (hash, body) => [PutBody hash body] | None => [] end.
Definition put_bodies (put : option (H256 * bytes)) : gmap H256 bytes :=
  match put with Some (hash, body) => {[hash := body]} | None => ∅ end.

Lemma write_all (hb : DBTransaction) put P T inv best proposal s :
  Forall invoice_op inv →
  ∃ i', foldl apply_chain_op s ((HeaderOp <$> hb) ++ put_ops put ++ move_ops P T ++ inv ++ best_ops best proposal) =
    bc_db_best (match best with Some best => Some best | None => bc_db_best_block s end)
      (match best with Some _ => Some proposal | None => bc_db_best_proposal_block s end)
      (bc_parts (set_db (db_write hb (hc_db (bc_headerchain s))) (bc_headerchain s)) (write_bodies (put_bodies put) P T (bc_body_db s)) i' s).
Proof.
  intros Hinv. rewrite !foldl_app, write_headers, write_moves.
  match goal with |- context [foldl apply_chain_op (foldl apply_chain_op ?s2 inv) _] => set (s3 := s2) end.
  destruct (write_invoices inv s3 Hinv) as (i' & ->). exists i'. subst s3. unfold best_ops, put_ops, put_bodies, write_bodies.
  destruct put as [[hash body]|], best; simpl; rewrite ?(left_id_L ∅ (∪)), <-?insert_union_singleton_l; try done; by destruct s.
Qed.

Lemma finish f P T best proposal s c v' hb put blocks inv route :
  awaits f P T best proposal s c → leaves f hb (cv_headers c) v' → Forall invoice_op inv →
  (∀ hash, match blocks !! hash with
    | Some b => ∃ c, put_bodies put !! hash = Some c ∧ decompress c blocks_swapper = Ok (body_bytes (bk_transactions b))
    | None => put_bodies put !! hash = None end) → blocks ##ₘ bw_blocks (cv_bodies c) →
  ∃ s', (_ ← write_chain ((HeaderOp <$> hb) ++ put_ops put ++ move_ops P T ++ inv ++ best_ops best proposal);
         _ ← chain_commit; mret (M := stM BlockChain Empty_set) (A := ImportRoute) route) s = (Ok route, s') ∧
    shows_chain s' (next_view c v' blocks P T best proposal).
Proof.
  intros [(h & Hh & Ef) Hbo Hbest Hprop Hdbb Hdbp Hpend Hpendp] Hl Hinv Hput Hdisj.
  destruct (write_all hb put P T inv best proposal s Hinv) as (i' & Hw). destruct (Hl h Hh) as (h' & Eh & Hh').
  destruct (committed_holds _ _ P T (put_bodies put) blocks Hbo Hput Hdisj) as (b' & Eb & Hb').
  unfold write_chain, chain_commit, mbind, stM_bind, modify_st, on_headers, on_bodies. rewrite Hw. eexists. split; [done|].
  rewrite <-Ef in Eh. injection Eh as <-. injection Eb as <-. split; simpl; try done.
  - by rewrite Hpend, Hbest.
  - by rewrite Hpendp, Hprop.
  - by destruct best.
  - by destruct best.
Qed.

Lemma run_peeks {A B} (Q : result Empty_set B * BlockChain → Prop) (m : stM BlockChain Empty_set A) k c x s :
  peeks m c (Ok x) → shows_chain s c → (∀ s', shows_chain s' c → Q (k x s')) → Q ((m ≫= k) s).
Proof. intros Hm Hs Hk. destruct (Hm s Hs) as (s1 & E1 & Hs1). unfold mbind, stM_bind. rewrite E1. by apply Hk. Qed.

Lemma import_route_runs hash changed best :
  changed_hash (E := Empty_set) changed = Ok best → ∃ route, ImportRoute_new hash changed = Ok route.
Proof.
  intros Hc. unfold ImportRoute_new. rewrite Hc, Ok_bind. unfold changed_hash in Hc. destruct changed; simpl in *.
  - destruct (bv_hash best_block); try done. injection Hc as <-. by eexists.
  - by eexists.
  - destruct (bv_hash best_block); try done. injection Hc as <-. by eexists.
Qed.

(** What the route of a change retracts and enacts. *)
Lemma import_route_of hash changed best route :
  changed_hash (E := Empty_set) changed = Ok best → ImportRoute_new hash changed = Ok route →
  ir_retracted route = fst (moved_by changed) ∧ ir_enacted route = snd (moved_by changed) ++ option_list best.
Proof.
  intros Hc. unfold ImportRoute_new. rewrite Hc, Ok_bind. unfold changed_hash in Hc. destruct changed; simpl in *.
  - destruct (bv_hash best_block); try done. injection Hc as <-. simpl. by intros [= <-].
  - injection Hc as <-. by intros [= <-].
  - destruct (bv_hash best_block); try done. injection Hc as <-. simpl. by intros [= <-].
Qed.

(** The route leads from the chain [C] to the chain [C']. *)
Definition follows (C C' : H256 → Prop) (route : ImportRoute) : Prop :=
  (∀ h, h ∈ ir_retracted route → C h ∧ ¬ C' h) ∧ ∀ h, C' h ↔ (C h ∧ h ∉ ir_retracted route) ∨ h ∈ ir_enacted route.

Lemma follows_none C C' : (∀ h, C' h ↔ C h) → follows C C' ImportRoute_none.
Proof. intros Hs. split; intros h; simpl; pose proof (not_elem_of_nil h); specialize (Hs h); tauto. Qed.

Lemma follows_moved hash changed best C C' R E route :
  changed_hash (E := Empty_set) changed = Ok (Some best) → ImportRoute_new hash changed = Ok route → moved_by changed = (R, E) →
  (∀ h, h ∈ R → C h) → (∀ h, C' h ↔ (C h ∧ h ∉ R) ∨ h ∈ E ∨ h = best) → (∀ h, h ∈ R → h ∉ E ∧ h ≠ best) → follows C C' route.
Proof.
  intros Hc Hr Hmv HR Hmove Hgone. destruct (import_route_of _ _ _ _ Hc Hr) as [Er Ee]. rewrite Hmv in *. simpl in Er, Ee.
  split; intros h; rewrite Er.
  - intros Hh. split; [by apply HR|]. rewrite Hmove. destruct (Hgone h Hh). tauto.
  - rewrite Ee, elem_of_app, list_elem_of_singleton. apply Hmove.
Qed.

(** What inserting a block leaves to write. *)
Definition inserted (b : Block) (c : chain_view) (changed : BestBlockChanged) (f : HeaderChain → HeaderChain) (hb : DBTransaction)
  (P : gmap H256 (option TransactionAddress)) (T : gmap H256 (option TransactionAddresses)) (best : option H256)
  (res : result Empty_set (ImportRoute * ChainBatch) * BlockChain) : Prop :=
  ∃ route cb inv s1, res = (Ok (route, (HeaderOp <$> hb) ++ put_ops (Some (bk_hash b, cb)) ++ move_ops P T ++ inv ++ best_ops best (bk_hash b)), s1) ∧
    decompress cb blocks_swapper = Ok (body_bytes (bk_transactions b)) ∧ Forall invoice_op inv ∧ awaits f P T best (bk_hash b) s1 c ∧
    ImportRoute_new (bk_hash b) changed = Ok route.

Lemma insert_block_runs s c b engine invoices changed r hb f P T best :
  shows_chain s c → good_block b → bw_blocks (cv_bodies c) !! bk_hash b = None →
  peeks (best_block_changed (block_bytes b) engine) c (Ok changed) →
  acts_of shows (insert_header (bk_header_bytes b) engine) (cv_headers c) (Ok (r, hb)) f →
  (∀ P0 T0, peeks_of (holds P0 T0) (new_parcel_address_entries changed) (cv_bodies c) (Ok P)) →
  (∀ P0 T0, peeks_of (holds P0 T0) (new_transaction_address_entries changed) (cv_bodies c) (Ok T)) →
  changed_hash (E := Empty_set) changed = Ok best →
  inserted b c changed f hb P T best (insert_block (block_bytes b) invoices engine s).
Proof.
  intros Hs Hg Hnew Hch Hact HP HT Hbest. destruct (block_views b Hg) as (Hhd & _). unfold insert_block. rewrite Hhd.
  eapply run_peeks; [apply peeks_lift|done|]. clear s Hs. intros s Hs. fold (bk_hash b).
  eapply run_peeks; [apply peeks_is_known|done|]. clear s Hs. intros s Hs.
  rewrite Hnew, (bool_decide_eq_false_2 (is_Some None)), andb_false_r by by intros [].
  unfold mbind at 1, stM_bind at 1, get_st. rewrite (sc_no_best _ _ Hs), (sc_no_proposal _ _ Hs).
  do 2 (eapply run_peeks; [apply (peeks_lift (Ok ()))|done|]; clear s Hs; intros s Hs).
  eapply run_peeks; [exact Hch|done|]. clear s Hs. intros s Hs.
  destruct (Hact _ (sc_headers _ _ Hs)) as (h0 & Eh & Hh0).
  destruct (peeks_insert_body ∅ ∅ (cv_bodies c) b Hg Hnew) as (cb & Hcb & Hib).
  destruct (Hib _ (sc_bodies _ _ Hs)) as (b1 & Eb1 & Hb1).
  destruct (update_best_block_ok changed b1 (cv_bodies c) P T Hb1 HP HT) as (b2 & Eb2 & Hb2).
  destruct (import_route_runs (bk_hash b) changed best Hbest) as (route & Hroute).
  unfold mbind, stM_bind, on_headers, on_bodies. rewrite Eh. cbv beta iota. cbn [bc_body_db bc_parts]. rewrite Eb1. cbv beta iota.
  cbn [bc_body_db bc_parts]. rewrite Eb2. cbv beta iota.
  match goal with |- context [map_st _ invoices ?s3] => destruct (insert_invoices_run invoices s3) as (inv & i' & -> & Hinv) end.
  cbv beta iota. rewrite Hbest. cbn [lift_st]. rewrite Hroute. cbv beta iota. exists route, cb, (concat inv).
  eexists. split; [reflexivity|]. split; [done|]. split; [done|]. split; [|done]. destruct Hs. destruct best; split; simpl; eauto.
Qed.
End Steps.
