(* ===== verification/BlockChainProps.v ===== *)
(** The chain of blocks against what it promises: a tree of blocks with a best one, and for each transaction of the chain of the best
    block the place where it is.  The index of the transactions follows the best block through every sequence of headers, blocks and
    commits. *)
From Stdlib Require Import NArith Lia.
From stdpp Require Import base gmap list numbers.
From S2P Require Import TmWorker.
From S2P Require Import Prelude Types Crypto Rlp RlpImpls RlpCompress TxHash StakeSpec Header HeaderChain HeaderChainFacts HeaderChainStep.
From S2P Require Import HeaderChainProps BlockChain BlockChainFacts BlockIndex BlockChainStep.

Local Open Scope N_scope.

Section Props.
Context `{CryptoLaws}.

(** * The tree that the chain keeps *)

(** The tree of the headers with their bytes, and within it that of the blocks. *)
Record ChainTree := {
  ct_headers : HeaderTree;
  ct_seen : gmap H256 bytes;
  ct_tree : HeaderTree;
  ct_blocks : gmap H256 Block;
}.

(** A header arrives, a block arrives with the invoices of its transactions, or a block is committed. *)
Inductive BlockCall :=
| HeaderComes (header : Header) (allowed_height : BlockNumber)
| BlockComes (block : Block) (invoices : list Invoice) (allowed_height : BlockNumber)
| BlockFinal (block_hash : H256).

Definition block_call (rule : BestRule) (call : BlockCall) : stM BlockChain Empty_set ImportRoute :=
  match call with
  | HeaderComes header allowed_height => import_header header (engine_of rule allowed_height)
  | BlockComes block invoices allowed_height => commit_block (bk_header block) (block_bytes block) invoices (engine_of rule allowed_height)
  | BlockFinal block_hash => commit_best_block block_hash
  end.

Definition chain_tree_header (rule : BestRule) (h : Header) (allowed_height : BlockNumber) (t : ChainTree) : ChainTree := {|
  ct_headers := tree_insert rule h allowed_height (ct_headers t); ct_seen := seen_insert (ct_headers t) h (ct_seen t);
  ct_tree := ct_tree t; ct_blocks := ct_blocks t |}.

(** A block is put into both trees.  What is committed becomes the best block when it is a child of it. *)
Definition chain_tree_call (rule : BestRule) (t : ChainTree) (call : BlockCall) : ChainTree :=
  match call with
  | HeaderComes h allowed_height => chain_tree_header rule h allowed_height t
  | BlockComes b _ allowed_height =>
      match ct_blocks t !! bk_hash b with
      | Some _ => t
      | None => {|
          ct_headers := tree_insert rule (bk_header b) allowed_height (ct_headers t);
          ct_seen := seen_insert (ct_headers t) (bk_header b) (ct_seen t);
          ct_tree := tree_insert rule (bk_header b) allowed_height (ct_tree t); ct_blocks := <[bk_hash b := b]> (ct_blocks t) |}
      end
  | BlockFinal hash =>
      match ht_details (ct_tree t) !! hash with
      | Some d =>
          if bool_decide (bd_parent d = ht_best (ct_tree t)) then {|
            ct_headers := tree_commit hash (ct_headers t); ct_seen := ct_seen t;
            ct_tree := {| ht_details := ht_details (ct_tree t); ht_best := hash; ht_proposal := hash |}; ct_blocks := ct_blocks t |}
          else t
      | None => t
      end
  end.

(** The calls that the node makes.  A block comes after its parent with a header as [admissible] has it, not with other bytes than the
    header that came before it, and no transaction is twice on its chain.  What is committed is a child of the best block, which the
    chain of the headers can take, or not above the best block. *)
Definition block_admissible (rule : BestRule) (t : ChainTree) (call : BlockCall) : Prop :=
  match call with
  | HeaderComes h allowed_height => admissible rule (ct_headers t) (HeaderArrived h allowed_height)
  | BlockComes b _ allowed_height =>
      good_block b ∧ memo_ok (bk_header b) ∧
      (is_Some (ct_blocks t !! bk_hash b) ∨
       admissible rule (ct_headers t) (HeaderArrived (bk_header b) allowed_height) ∧
       admissible rule (ct_tree t) (HeaderArrived (bk_header b) allowed_height) ∧
       (∀ bytes, ct_seen t !! bk_hash b = Some bytes → bytes = bk_header_bytes b) ∧
       once (<[bk_hash b := b]> (ct_blocks t))
         (on_chain (ht_details (tree_insert rule (bk_header b) allowed_height (ct_tree t))) (bk_hash b)))
  | BlockFinal hash =>
      rule = ParentIsBest ∧
      ∃ d dbest dprop, ht_details (ct_tree t) !! hash = Some d ∧ ht_details (ct_tree t) !! ht_best (ct_tree t) = Some dbest ∧
        ht_details (ct_tree t) !! ht_proposal (ct_tree t) = Some dprop ∧
        (bd_parent d = ht_best (ct_tree t) ∧ 0 < bd_number d ∧ bd_number dprop ≤ bd_number d ∧
           admissible rule (ct_headers t) (BlockCommitted hash) ∨
         bd_parent d ≠ ht_best (ct_tree t) ∧ bd_number d ≤ bd_number dbest)
  end.

Fixpoint all_block_admissible (rule : BestRule) (t : ChainTree) (calls : list BlockCall) : Prop :=
  match calls with
  | [] => True
  | call :: calls => block_admissible rule t call ∧ all_block_admissible rule (chain_tree_call rule t call) calls
  end.

(** * What the calls leave *)

Lemma tree_insert_grows rule h allowed_height t : ht_details t ⊆ ht_details (tree_insert rule h allowed_height t).
Proof.
  unfold tree_insert. destruct (ht_details t !! hv_hash (Header_rlp h With)) eqn:Hnew; [done|].
  destruct (ht_details t !! hd_parent_hash h); [|done]. destruct (ht_details t !! ht_proposal t); [|done].
  destruct (_ && _); by apply insert_subseteq.
Qed.
Lemma tree_commit_details hash t : ht_details (tree_commit hash t) = ht_details t.
Proof. unfold tree_commit. repeat case_match; done. Qed.
Lemma seen_insert_grows genesis v h : sound genesis v → vw_headers v ⊆ seen_insert (tree_of v) h (vw_headers v).
Proof.
  intros Hs. unfold seen_insert. destruct (ht_details (tree_of v) !! hv_hash (Header_rlp h With)) eqn:Hk; [done|].
  apply insert_subseteq. destruct (vw_headers v !! hv_hash (Header_rlp h With)) eqn:Hx; [|done].
  apply (so_headers _ _ Hs) in Hx as [d Hd]. simpl in Hk. congruence.
Qed.

(** The view with other headers. *)
Definition with_headers (c : chain_view) (v : view) : chain_view :=
  {| cv_headers := v; cv_bodies := cv_bodies c; cv_best := cv_best c; cv_proposal := cv_proposal c |}.

Lemma more_headers rule g genesis c D v :
  chain_ok rule g genesis c D → upholds rule g genesis v → vw_details (cv_headers c) ⊆ vw_details v →
  vw_headers (cv_headers c) ⊆ vw_headers v → chain_ok rule g genesis (with_headers c v) D.
Proof.
  intros Hok Hu Hd Hh. pose proof (ok_known _ _ _ _ _ Hok) as Hknown. pose proof (ok_sub _ _ _ _ _ Hok) as Hsub. destruct Hok.
  split; try done.
  - intros x d. split.
    + intros Hx. split; [|by apply ok_link in Hx as []]. by eapply lookup_weaken, Hd; eapply lookup_weaken.
    + intros [Hx [b Hb]]. destruct (Hknown _ _ Hb) as [d' Hd']. simpl in *.
      rewrite (lookup_weaken _ _ _ _ (lookup_weaken _ _ _ _ Hd' Hsub) Hd) in Hx. congruence.
  - intros x b Hb. destruct (ok_block x b Hb). split; try done. by eapply lookup_weaken.
Qed.

(** The details of a header that is known when its block comes. *)
Lemma header_of_block rule g genesis v v' b dp allowed_height :
  upholds rule g genesis v → good_block b → (∀ bytes, vw_headers v !! bk_hash b = Some bytes → bytes = bk_header_bytes b) →
  vw_details v !! hd_parent_hash (bk_header b) = Some dp → hd_number (bk_header b) = bd_number dp + 1 →
  tree_of v' = tree_insert rule (bk_header b) allowed_height (tree_of v) →
  vw_headers v' = seen_insert (tree_of v) (bk_header b) (vw_headers v) →
  vw_details v' !! bk_hash b = Some (details_on (bk_header b) dp) ∧ vw_headers v' !! bk_hash b = Some (bk_header_bytes b).
Proof.
  intros (Hs & _) Hg Hseen Hp Hn Ht Hh. destruct (header_views _ _ (good_block_header b Hg)) as (Hnum & Hpar & Hsc & Henc).
  change (vw_details v') with (ht_details (tree_of v')). rewrite Ht, Hh. unfold tree_insert, seen_insert. rewrite Henc.
  fold (bk_header_bytes b) (bk_hash b). simpl. destruct (vw_details v !! bk_hash b) as [d|] eqn:Hd.
  - destruct (so_stored _ _ Hs _ _ Hd) as (bytes & [_ Hb _ Hbn Hbp _]). pose proof (Hseen _ Hb) as ->. simpl. rewrite Hd. split; [|done].
    unfold bk_header_bytes in *. rewrite Hnum in Hbn. rewrite Hpar in Hbp. injection Hbn as Hbn. injection Hbp as Hbp.
    destruct (so_total _ _ Hs _ _ _ Hd Hb) as (dp' & score & Hp' & Hscore & Htot); [lia|]. rewrite Hsc in Hscore. injection Hscore as <-.
    rewrite <-Hbp, Hp in Hp'. injection Hp' as <-. unfold details_on. destruct d. simpl in *. congruence.
  - rewrite Hp. destruct (so_proposal _ _ Hs) as [dpr Hpr]. rewrite Hpr.
    split; [|by rewrite lookup_insert_eq]. destruct (_ && _); simpl; by rewrite lookup_insert_eq.
Qed.

Lemma take_nothing {V} (m : gmap H256 V) : take_pending ∅ m = m.
Proof. apply map_eq. intros k. by rewrite take_pending_lookup, lookup_empty. Qed.

(** The hash of the header is the one in the data of the block. *)
Lemma commit_block_inserts b invoices engine s : good_block b → memo_ok (bk_header b) →
  commit_block (bk_header b) (block_bytes b) invoices engine s =
  ('(route, batch) ← insert_block (block_bytes b) invoices engine; _ ← write_chain batch; _ ← chain_commit; mret route) s.
Proof.
  intros Hg Hmemo. destruct (block_views b Hg) as (_ & Hh & _). destruct (header_views _ _ (good_block_header b Hg)) as (_ & _ & _ & Henc).
  assert (Header_hash (bk_header b) = bk_hash b) as Heq by (rewrite Header_hash_memo by done; unfold rlp_blake; by rewrite Henc).
  unfold commit_block. rewrite Hh. unfold mbind at 1, stM_bind at 1. cbn [lift_st].
  by rewrite (bool_decide_eq_true_2 _ Heq).
Qed.

(** The block is put, and the best block and the index move to [c']. *)
Section Put.
#[local] Set Default Proof Using "All".
Context (rule : BestRule) (g : N) (genesis : H256) (c : chain_view) (D : gmap H256 BlockDetails) (Hok : chain_ok rule g genesis c D).
Context (b : Block) (Hgood : good_block b) (dp dbest dprop : BlockDetails) (allowed_height : BlockNumber).
Context (A : arrival rule g genesis (block_tree D c) (bk_header b) (bk_hash b) dp dbest dprop allowed_height).
Context (v' : view) (Hup : upholds rule g genesis v') (Hdetails : vw_details (cv_headers c) ⊆ vw_details v').
Context (Hheaders : vw_headers (cv_headers c) ⊆ vw_headers v') (Hown : vw_details v' !! bk_hash b = Some (details_on (bk_header b) dp)).
Context (Hheader : vw_headers v' !! bk_hash b = Some (bk_header_bytes b)).
Local Abbreviation D' := (<[bk_hash b := details_on (bk_header b) dp]> D).
Local Abbreviation B' := (<[bk_hash b := b]> (bw_blocks (cv_bodies c))).
Context (Honce : once B' (on_chain D' (bk_hash b))).

Lemma block_unknown : bw_blocks (cv_bodies c) !! bk_hash b = None.
Proof.
  destruct (bw_blocks (cv_bodies c) !! bk_hash b) eqn:Hb; [|done]. apply (ok_known _ _ _ _ _ Hok) in Hb as [d Hd].
  pose proof (ar_new _ _ _ _ _ _ _ _ _ _ A) as Hnew. simpl in Hnew. congruence.
Qed.
Lemma more_blocks : bw_blocks (cv_bodies c) ⊆ B'.
Proof. apply insert_subseteq, block_unknown. Qed.
Lemma more_details : D ⊆ D'.
Proof. apply insert_subseteq. exact (ar_new _ _ _ _ _ _ _ _ _ _ A). Qed.
Lemma same_chain x y : is_Some (D !! x) → on_chain D' x y ↔ on_chain D x y.
Proof. intros Hx. apply (on_chain_grow D genesis (ok_tree _ _ _ _ _ Hok) D' x y more_details Hx). Qed.

Lemma once_more x : is_Some (D' !! x) → once B' (on_chain D' x).
Proof.
  intros Hx. destruct (decide (x = bk_hash b)) as [->|Hne]; [exact Honce|]. rewrite lookup_insert_ne in Hx by done.
  apply (once_same _ _ (on_chain D x) _ more_blocks).
  - intros y. apply (ok_chain_known _ _ _ _ _ Hok).
  - intros y. by apply same_chain.
  - by apply (ok_once _ _ _ _ _ Hok).
Qed.

Lemma block_put c' :
  cv_headers c' = v' → bw_blocks (cv_bodies c') = B' →
  block_tree D' c' = tree_with rule (block_tree D c) (bk_header b) (bk_hash b) dp dprop allowed_height →
  exact_parcels B' (on_chain D' (cv_best c')) (bw_parcels (cv_bodies c')) →
  exact_trackers B' (on_chain D' (cv_best c')) (bw_trackers (cv_bodies c')) → chain_ok rule g genesis c' D'.
Proof.
  intros Eh Eb Et HP HT. pose proof (more_headers _ _ _ _ _ _ Hok Hup Hdetails Hheaders) as Hok'.
  pose proof (rule_best_known _ _ _ _ _ _ _ _ _ _ A) as Hrb.
  assert (is_Some (D' !! cv_best c') ∧ is_Some (D' !! cv_proposal c')) as [Hb Hp].
  { change (cv_best c') with (ht_best (block_tree D' c')). change (cv_proposal c') with (ht_proposal (block_tree D' c')). rewrite Et.
    unfold tree_with. destruct (takes_lead _ _ _ _ _); simpl; (split; [|try (by rewrite lookup_insert_eq)]).
    - by eexists.
    - destruct (ok_best _ _ _ _ _ Hok) as [d Hd]. exists d. by apply (lookup_weaken _ _ _ _ Hd), more_details.
    - destruct (ok_proposal _ _ _ _ _ Hok) as [d Hd]. exists d. by apply (lookup_weaken _ _ _ _ Hd), more_details. }
  split; rewrite ?Eh, ?Eb; try done.
  - intros x d. destruct (decide (x = bk_hash b)) as [->|Hne].
    + rewrite !lookup_insert_eq, Hown. split; [intros [= <-]; by split|by intros [[= <-] _]].
    + rewrite !lookup_insert_ne by done. apply (ok_link _ _ _ _ _ Hok').
  - intros x bx Hx. destruct (decide (x = bk_hash b)) as [->|Hne].
    + rewrite lookup_insert_eq in Hx. injection Hx as <-. split; rewrite ?Eb, ?Eh; [by rewrite lookup_insert_eq|done..].
    + rewrite lookup_insert_ne in Hx by done. destruct (ok_block _ _ _ _ _ Hok' x bx Hx). split; rewrite ?Eb, ?Eh; try done.
      by rewrite lookup_insert_ne.
  - exact (tree_more _ _ _ _ _ _ _ _ _ _ A).
  - rewrite Et. by eapply tree_with_leads.
  - exact once_more.
Qed.

(** How the best block moves, and the index with it. *)
Context (Hfits : bd_total_score dp + hd_score (bk_header b) < u256_size).

Definition moves_index (changed : BestBlockChanged) (P : gmap H256 (option TransactionAddress))
  (T : gmap H256 (option TransactionAddresses)) (best : option H256) : Prop :=
  peeks_of shows_chain (best_block_changed (block_bytes b) (engine_of rule allowed_height)) c (Ok changed) ∧
  (∀ P0 T0, peeks_of (holds P0 T0) (new_parcel_address_entries changed) (cv_bodies c) (Ok P)) ∧
  (∀ P0 T0, peeks_of (holds P0 T0) (new_transaction_address_entries changed) (cv_bodies c) (Ok T)) ∧
  changed_hash (E := Empty_set) changed = Ok best ∧
  let c' := next_view c v' {[bk_hash b := b]} P T best (bk_hash b) in
  block_tree D' c' = tree_with rule (block_tree D c) (bk_header b) (bk_hash b) dp dprop allowed_height ∧
  exact_parcels B' (on_chain D' (cv_best c')) (bw_parcels (cv_bodies c')) ∧
  exact_trackers B' (on_chain D' (cv_best c')) (bw_trackers (cv_bodies c')) ∧
  ∀ route, ImportRoute_new (bk_hash b) changed = Ok route → follows (on_chain D (cv_best c)) (on_chain D' (cv_best c')) route.

Lemma index_stays : takes_lead rule (bk_header b) dp dprop allowed_height = false → moves_index NoBlockChanged ∅ ∅ None.
Proof.
  intros Hno. split; [by eapply peeks_block_aside|]. split; [intros; apply peeks_ret|]. split; [intros; apply peeks_ret|]. split; [done|].
  unfold tree_with. rewrite Hno. split; [done|]. cbn [next_view cv_best cv_bodies bw_parcels bw_trackers default]. rewrite !take_nothing.
  assert (∀ h, on_chain D (cv_best c) h → is_Some (bw_blocks (cv_bodies c) !! h)) as Hk by (intros; by eapply ok_chain_known).
  assert (∀ h, on_chain D' (cv_best c) h ↔ on_chain D (cv_best c) h) as Hsame by (intros h; exact (same_chain (cv_best c) h (ok_best _ _ _ _ _ Hok))).
  split; [apply (exact_parcels_same _ _ _ _ more_blocks Hk Hsame), Hok|].
  split; [apply (exact_trackers_same _ _ _ _ more_blocks Hk Hsame), Hok|]. intros route Hr.
  destruct (import_route_of _ NoBlockChanged None route eq_refl Hr) as [Er Ee]. destruct (follows_none _ _ Hsame) as [F1 F2].
  split; intros h; rewrite Er, ?Ee; [apply F1|apply F2].
Qed.

Lemma index_moves : takes_lead rule (bk_header b) dp dprop allowed_height = true → ∃ changed P T best, moves_index changed P T best.
Proof.
  intros Hyes. destruct (peeks_block_best _ _ _ _ _ Hok b Hgood dp dbest dprop allowed_height Hfits A Hyes)
    as (changed & best & R & E & Hch & [Hbg Hbb Hmv HR HE HRC Hmove Hgone] & Hbh & Hb).
  pose proof (ok_good _ _ _ _ _ Hok) as Hg. destruct (block_views best Hbg) as (_ & Hvh & _).
  assert (B' !! bk_hash best = Some best) as HB'.
  { destruct Hb as [->|Hb]; [by rewrite lookup_insert_eq|]. rewrite Hbh. eapply lookup_weaken; [apply Hb|apply more_blocks]. }
  exists changed, (collect (parcel_moves (cv_bodies c) R E best)), (updated_addresses (bw_trackers (cv_bodies c))
    (gather (tracker_moves (cv_bodies c) E ++ transaction_address_entries (bk_hash best) (bk_transactions best)))
    (gather (tracker_moves (cv_bodies c) R))), (Some (bk_hash best)).
  split; [done|]. split; [intros; by eapply peeks_parcel_entries|]. split; [intros; by eapply peeks_tracker_entries|].
  assert (changed_hash (E := Empty_set) changed = Ok (Some (bk_hash best))) as Hcb by (unfold changed_hash; by rewrite Hbb, Hvh).
  split; [done|]. unfold tree_with. rewrite Hyes, <-Hbh. split; [done|].
  cbn [next_view cv_best cv_bodies bw_parcels bw_trackers default]. rewrite <-Hbh in Hmove.
  assert (∀ h, on_chain D (cv_best c) h → is_Some (bw_blocks (cv_bodies c) !! h)) as Hk by (intros; by eapply ok_chain_known).
  split; [|split].
  - apply (parcels_moved _ _ _ _ _ _ _ more_blocks HB' HR HE Hk HRC Hmove); [| |apply Hok].
    + intros x a a'. rewrite !(located_same _ _ (on_chain D (cv_best c)) _ more_blocks Hk) by done. apply (ok_once _ _ _ _ _ Hok), (ok_best _ _ _ _ _ Hok).
    + apply once_more. rewrite Hbh. eexists. exact (rule_best_known _ _ _ _ _ _ _ _ _ _ A).
  - apply (trackers_moved _ _ _ _ _ _ _ more_blocks HB' HR HE Hk Hmove), Hok.
  - intros route Hr. by eapply follows_moved.
Qed.

Lemma block_runs s invoices r hb f :
  shows_chain s c → acts_of shows (insert_header (bk_header_bytes b) (engine_of rule allowed_height)) (cv_headers c) (Ok (r, hb)) f →
  leaves f hb (cv_headers c) v' → memo_ok (bk_header b) →
  ∃ route s' c', commit_block (bk_header b) (block_bytes b) invoices (engine_of rule allowed_height) s = (Ok route, s') ∧ shows_chain s' c' ∧
    chain_ok rule g genesis c' D' ∧ cv_headers c' = v' ∧ bw_blocks (cv_bodies c') = B' ∧
    block_tree D' c' = tree_with rule (block_tree D c) (bk_header b) (bk_hash b) dp dprop allowed_height ∧
    follows (on_chain D (cv_best c)) (on_chain D' (cv_best c')) route.
Proof.
  intros Hs Hact Hl Hmemo. assert (∃ changed P T best, moves_index changed P T best) as (changed & P & T & best & Hch & HP & HT & Hbest & Htr & HiP & HiT & Hfol).
  { destruct (takes_lead rule (bk_header b) dp dprop allowed_height) eqn:Hlead; [by apply index_moves|].
    exists NoBlockChanged, ∅, ∅, None. by apply index_stays. }
  destruct (insert_block_runs s c b _ invoices changed r hb f P T best Hs Hgood block_unknown Hch Hact HP HT Hbest)
    as (route & cb & inv & s1 & E1 & Hcb & Hinv & Haw & Hr).
  assert (({[bk_hash b := b]} : gmap H256 Block) ∪ bw_blocks (cv_bodies c) = B') as Heq by by rewrite <-insert_union_singleton_l.
  destruct (finish f P T best (bk_hash b) s1 c v' hb (Some (bk_hash b, cb)) {[bk_hash b := b]} inv route Haw Hl Hinv) as (s' & E & Hs').
  { intros x. simpl. destruct (decide (x = bk_hash b)) as [->|Hne]; [rewrite !lookup_singleton_eq; by exists cb|by rewrite !lookup_singleton_ne]. }
  { apply map_disjoint_singleton_l_2, block_unknown. }
  exists route, s'. eexists. split; [|split; [exact Hs'|split; [|split; [done|split; [done|split; [done|by apply Hfol]]]]]].
  - rewrite commit_block_inserts by done. unfold mbind at 1, stM_bind at 1. by rewrite E1.
  - apply block_put; [done|exact Heq|done..].
Qed.
End Put.

(** * Every call keeps to the tree *)

(** The chain keeps the view of the tree. *)
Record models_chain (rule : BestRule) (g : N) (genesis : H256) (s : BlockChain) (t : ChainTree) (c : chain_view) : Prop := {
  mc_shows : shows_chain s c;
  mc_ok : chain_ok rule g genesis c (ht_details (ct_tree t));
  mc_headers : tree_of (cv_headers c) = ct_headers t;
  mc_seen : vw_headers (cv_headers c) = ct_seen t;
  mc_tree : block_tree (ht_details (ct_tree t)) c = ct_tree t;
  mc_blocks : bw_blocks (cv_bodies c) = ct_blocks t;
}.

Definition best_chain (t : ChainTree) : H256 → Prop := on_chain (ht_details (ct_tree t)) (ht_best (ct_tree t)).
(** The routes of the blocks, not those of the headers, are routes of the chain of the best block. *)
Definition of_block (call : BlockCall) : Prop := match call with HeaderComes _ _ => False | _ => True end.

Definition step_ok (rule : BestRule) (g : N) (genesis : H256) (s : BlockChain) (t : ChainTree) (call : BlockCall) : Prop :=
  let t' := chain_tree_call rule t call in
  ∃ route s' c', block_call rule call s = (Ok route, s') ∧ models_chain rule g genesis s' t' c' ∧
    (of_block call → follows (best_chain t) (best_chain t') route).

Section Step.
Context (rule : BestRule) (g : N) (genesis : H256) (s : BlockChain) (t : ChainTree) (c : chain_view).
Context (Hm : models_chain rule g genesis s t c).
Local Abbreviation D := (ht_details (ct_tree t)).

Lemma chain_best : cv_best c = ht_best (ct_tree t).
Proof. by rewrite <-(mc_tree _ _ _ _ _ _ Hm). Qed.
Lemma chain_proposal : cv_proposal c = ht_proposal (ct_tree t).
Proof. by rewrite <-(mc_tree _ _ _ _ _ _ Hm). Qed.

Lemma nothing_moves v' : upholds rule g genesis v' → vw_details (cv_headers c) ⊆ vw_details v' → vw_headers (cv_headers c) ⊆ vw_headers v' →
  chain_ok rule g genesis (next_view c v' ∅ ∅ ∅ None []) D ∧ bw_blocks (cv_bodies (next_view c v' ∅ ∅ ∅ None [])) = ct_blocks t.
Proof.
  intros Hu Hd Hh. pose proof (more_headers _ _ _ _ _ _ (mc_ok _ _ _ _ _ _ Hm) Hu Hd Hh) as Hok.
  assert (next_view c v' ∅ ∅ ∅ None [] = with_headers c v') as ->; [|by split; [|apply Hm]].
  unfold next_view, with_headers. rewrite (left_id_L ∅ (∪)), !take_nothing. by destruct (cv_bodies c).
Qed.

Lemma header_step h allowed_height :
  block_admissible rule t (HeaderComes h allowed_height) → step_ok rule g genesis s t (HeaderComes h allowed_height).
Proof.
  intros Hadm. simpl in Hadm. destruct Hm as [Hs Hok Hh Hse Ht Hb]. rewrite <-Hh in Hadm.
  destruct (header_inserted _ _ _ _ _ _ (ok_headers _ _ _ _ _ Hok) Hadm) as (v' & r & hb & f & Hact & Hl & Hu & Ht' & Hse').
  destruct (Hact _ (sc_headers _ _ Hs)) as (h0 & Eh & Hh0).
  set (s1 := bc_parts (f h0) (bc_body_db s) (bc_invoice_db s) s).
  set (route := match r with Some changed => ImportRoute_from_header (hv_hash (Header_rlp h With)) changed | None => ImportRoute_none end).
  destruct (finish f ∅ ∅ None [] s1 c v' hb None ∅ [] route) as (s' & E & Hs'); [|done|done|done|apply map_disjoint_empty_l|].
  { destruct Hs. split; simpl; eauto. }
  exists route, s', (next_view c v' ∅ ∅ ∅ None []). split.
  - simpl. unfold import_header, chain_insert_header, mbind at 1, stM_bind at 1, mbind at 1, stM_bind at 1, on_headers at 1. rewrite Eh.
    cbv beta iota. unfold move_ops in E. rewrite !map_to_list_empty, !app_nil_r in E. exact E.
  - split; [|done]. destruct (nothing_moves v' Hu) as [Hok' Hb'].
    + change (vw_details v') with (ht_details (tree_of v')). rewrite Ht'.
      exact (tree_insert_grows rule h allowed_height (tree_of (cv_headers c))).
    + rewrite Hse'. eapply seen_insert_grows, Hok.
    + split; simpl; [done|done|by rewrite Ht', Hh|by rewrite Hse', Hh, Hse|done|done].
Qed.

(** A call that has nothing to write. *)
Lemma idle_runs s1 route : shows_chain s1 c →
  ∃ s' c', (_ ← write_chain []; _ ← chain_commit; mret (M := stM BlockChain Empty_set) (A := ImportRoute) route) s1 = (Ok route, s') ∧
    models_chain rule g genesis s' t c'.
Proof.
  intros Hs1. destruct (finish id ∅ ∅ None [] s1 c (cv_headers c) [] None ∅ [] route) as (s' & E & Hs');
    [|apply leaves_nothing|done|done|apply map_disjoint_empty_l|].
  { destruct Hs1. split; simpl; eauto. }
  exists s', (next_view c (cv_headers c) ∅ ∅ ∅ None []). split.
  - unfold move_ops in E. rewrite !map_to_list_empty, !app_nil_r in E. exact E.
  - destruct (nothing_moves (cv_headers c)) as [Hok' Hb']; [apply Hm|done|done|]. destruct Hm as [_ _ Hh Hse Ht _]. by split.
Qed.

Lemma known_block_step b invoices allowed_height :
  good_block b → memo_ok (bk_header b) → is_Some (ct_blocks t !! bk_hash b) → step_ok rule g genesis s t (BlockComes b invoices allowed_height).
Proof.
  intros Hg Hmemo [b' Hb]. destruct (block_views b Hg) as (Hhd & _).
  assert (peeks_of shows_chain (insert_block (block_bytes b) invoices (engine_of rule allowed_height)) c (Ok (ImportRoute_none, []))) as Hpk.
  { unfold insert_block. rewrite Hhd. apply peeks_lift_bind. eapply peeks_bind; [apply peeks_is_known|].
    rewrite <-(mc_blocks _ _ _ _ _ _ Hm) in Hb. pose proof (mc_ok _ _ _ _ _ _ Hm) as Hok. destruct (ok_known _ _ _ _ _ Hok _ _ Hb) as [d Hd].
    fold (bk_hash b). rewrite Hb, (lookup_weaken _ _ _ _ Hd (ok_sub _ _ _ _ _ Hok)), !bool_decide_eq_true_2 by done. apply peeks_ret. }
  destruct (Hpk _ (mc_shows _ _ _ _ _ _ Hm)) as (s1 & E1 & Hs1). destruct (idle_runs s1 ImportRoute_none Hs1) as (s' & c' & E & Hm').
  exists ImportRoute_none, s', c'. simpl. rewrite Hb. split; [|split; [done|intros _; by apply follows_none]].
  rewrite commit_block_inserts by done. unfold mbind at 1, stM_bind at 1. by rewrite E1.
Qed.

Lemma new_block_step b invoices allowed_height :
  ct_blocks t !! bk_hash b = None → block_admissible rule t (BlockComes b invoices allowed_height) →
  step_ok rule g genesis s t (BlockComes b invoices allowed_height).
Proof.
  intros Hnew (Hg & Hmemo & [[? ?]|(Hadm & Hadmb & Hseen & Honce)]); [congruence|]. destruct Hm as [Hs Hok Hh Hse Ht Hb].
  pose proof (good_block_header b Hg) as Hgh. destruct (header_views _ _ Hgh) as (_ & _ & _ & Henc).
  assert (bk_hash b = hv_hash (Header_rlp (bk_header b) With)) as Hhash by by rewrite Henc.
  assert (D !! bk_hash b = None) as HnewD.
  { destruct (D !! bk_hash b) eqn:Hd; [|done]. apply (ok_link _ _ _ _ _ Hok) in Hd as [_ [? ?]]. congruence. }
  rewrite <-Ht in Hadmb. destruct (admissible_arrival rule g genesis (block_tree D c) (bk_header b) allowed_height (ok_tree _ _ _ _ _ Hok)
    (ok_scored _ _ _ _ _ Hok) (ok_leads _ _ _ _ _ Hok) (ok_best _ _ _ _ _ Hok) (ok_proposal _ _ _ _ _ Hok) Hadmb)
    as (seals & dp & dbest & dprop & Hgs & _ & Hf & A); [by rewrite <-Hhash|].
  destruct (header_views _ _ Hgs) as (_ & _ & _ & Henc'). rewrite <-Henc', <-Hhash in A. clear seals Hgs Henc'.
  rewrite <-Hh in Hadm. rewrite <-Hse in Hseen.
  destruct (header_inserted _ _ _ _ _ _ (ok_headers _ _ _ _ _ Hok) Hadm) as (v' & r & hb & f & Hact & Hl & Hu & Ht' & Hse').
  rewrite Henc in Hact.
  destruct (header_of_block rule g genesis (cv_headers c) v' b dp allowed_height (ok_headers _ _ _ _ _ Hok) Hg Hseen) as [Hown Hhead];
    [exact (lookup_weaken _ _ _ _ (ar_parent _ _ _ _ _ _ _ _ _ _ A) (ok_sub _ _ _ _ _ Hok))|apply A|done|done|].
  assert (vw_details (cv_headers c) ⊆ vw_details v') as Hgd.
  { change (vw_details v') with (ht_details (tree_of v')). rewrite Ht'. exact (tree_insert_grows _ _ _ (tree_of (cv_headers c))). }
  assert (vw_headers (cv_headers c) ⊆ vw_headers v') as Hgh' by (rewrite Hse'; eapply seen_insert_grows, Hok).
  pose proof (tree_with_insert _ _ _ _ _ _ _ _ _ _ A Hhash) as Hwith.
  rewrite <-Ht, Hwith, tree_with_details, <-Hb in Honce.
  destruct (block_runs rule g genesis c D Hok b Hg dp dbest dprop allowed_height A v' Hu Hgd Hgh' Hown Hhead Honce Hf s invoices r hb f Hs Hact Hl Hmemo)
    as (route & s' & c' & E & Hs' & Hok' & Ehd & Ebl & Etr & Hfol).
  exists route, s', c'. split; [exact E|]. unfold best_chain. cbn [chain_tree_call]. rewrite Hnew.
  assert (ht_details (tree_insert rule (bk_header b) allowed_height (ct_tree t)) = <[bk_hash b := details_on (bk_header b) dp]> D) as Edet.
  { by rewrite <-Ht, Hwith, tree_with_details. }
  assert (block_tree (<[bk_hash b := details_on (bk_header b) dp]> D) c' = tree_insert rule (bk_header b) allowed_height (ct_tree t)) as Etr'.
  { by rewrite Etr, <-Hwith, Ht. }
  split; [split; cbn [ct_headers ct_seen ct_tree ct_blocks]; rewrite ?Edet|];
    [done|done|by rewrite Ehd, Ht', Hh|by rewrite Ehd, Hse', Hh, Hse|done|congruence|].
  intros _. cbn [ct_tree]. rewrite Edet, <-Etr', <-chain_best. exact Hfol.
Qed.

(** ** A block is committed *)

Section Commit.
#[local] Set Default Proof Using "All".
Context (hash : H256) (d dbest dprop : BlockDetails) (b : Block).
Context (Hd : D !! hash = Some d) (Hbest : D !! cv_best c = Some dbest) (Hprop : D !! cv_proposal c = Some dprop) (Hb : has_block c hash b).
Context (Hparent : bd_parent d = cv_best c) (Hpos : 0 < bd_number d) (Htop : bd_number dprop ≤ bd_number d) (Hrule : rule = ParentIsBest).

Definition committed_parcels := collect (parcel_moves (cv_bodies c) [] [] b).
Definition committed_trackers := updated_addresses (bw_trackers (cv_bodies c))
  (gather (tracker_moves (cv_bodies c) [] ++ transaction_address_entries (bk_hash b) (bk_transactions b))) (gather (tracker_moves (cv_bodies c) [])).
Definition committed_view (v' : view) : chain_view := next_view c v' ∅ committed_parcels committed_trackers (Some hash) hash.

Lemma committed_number : bd_number d = bd_number dbest + 1.
Proof.
  destruct (parent_known _ _ (ok_tree _ _ _ _ _ (mc_ok _ _ _ _ _ _ Hm)) hash d Hd Hpos) as (d' & Hd' & Hn).
  rewrite Hparent, Hbest in Hd'. by injection Hd' as <-.
Qed.

Lemma committed_chain h : on_chain D hash h ↔ (on_chain D (cv_best c) h ∧ h ∉ []) ∨ h ∈ [] ∨ h = bk_hash b.
Proof.
  rewrite (on_chain_push D (cv_best c) dbest hash d h Hbest Hd Hparent committed_number), (hb_hash _ _ _ Hb).
  pose proof (not_elem_of_nil h). tauto.
Qed.

Lemma committed_ok v' : upholds rule g genesis v' → vw_details v' = vw_details (cv_headers c) → vw_headers v' = vw_headers (cv_headers c) →
  chain_ok rule g genesis (committed_view v') D.
Proof.
  intros Hu Ed Eh. pose proof (mc_ok _ _ _ _ _ _ Hm) as Hok.
  assert (∀ h, on_chain D (cv_best c) h → is_Some (bw_blocks (cv_bodies c) !! h)) as Hk by (intros; by eapply ok_chain_known).
  pose proof committed_chain as Hmove.
  assert (bw_blocks (cv_bodies c) !! bk_hash b = Some b) as HB by (rewrite (hb_hash _ _ _ Hb); apply Hb).
  assert (known_blocks (cv_bodies c) []) as Hnil by by intros h ?%not_elem_of_nil.
  destruct (more_headers _ _ _ _ _ v' Hok Hu) as [_ Hlink Hblock Htree Hlead _ _ Honce _ _]; [by rewrite Ed|by rewrite Eh|].
  split; simpl; rewrite ?(left_id_L ∅ (∪)); try done.
  - intros x bx Hx. destruct (Hblock x bx Hx). split; simpl; rewrite ?(left_id_L ∅ (∪)); done.
  - intros db dpr. simpl. rewrite Hd. intros [= <-] [= <-]. specialize (Hlead _ _ Hbest Hprop). rewrite Hrule in *.
    split; [lia|]. intros x dx Hx%(proj2 Hlead). simpl in Hx. lia.
  - apply (parcels_moved (cv_bodies c) _ (on_chain D (cv_best c)) _ [] [] b (reflexivity _) HB Hnil Hnil Hk); [|done| | |apply Hok].
    + by intros h ?%not_elem_of_nil.
    + apply (ok_once _ _ _ _ _ Hok), (ok_best _ _ _ _ _ Hok).
    + apply (ok_once _ _ _ _ _ Hok). by eexists.
  - by apply (trackers_moved (cv_bodies c) _ (on_chain D (cv_best c)) _ [] [] b (reflexivity _) HB Hnil Hnil Hk Hmove), Hok.
Qed.

Lemma committed_next : bd_number d =? u64_add (bd_number dbest) 1 = true.
Proof.
  pose proof (mc_ok _ _ _ _ _ _ Hm) as Hok. apply N.eqb_eq. rewrite committed_number.
  pose proof (so_small _ _ (proj1 (ok_headers _ _ _ _ _ Hok)) _ _ (lookup_weaken _ _ _ _ Hbest (ok_sub _ _ _ _ _ Hok))).
  unfold u64_add, u64_size, u32_size in *. rewrite N.mod_small; lia.
Qed.

Lemma update_runs hb f :
  acts_of shows (update_best_as_committed hash) (cv_headers c) (Ok hb) f →
  ∃ route s1, ImportRoute_new hash (BlockAppended (block_bytes b)) = Ok route ∧ chain_update_best_as_committed hash s = (Ok (route, (HeaderOp <$> hb) ++ put_ops None ++
    move_ops committed_parcels committed_trackers ++ [] ++ best_ops (Some hash) hash), s1) ∧
    awaits f committed_parcels committed_trackers (Some hash) hash s1 c.
Proof.
  intros Hact. pose proof (mc_ok _ _ _ _ _ _ Hm) as Hok. pose proof (ok_sub _ _ _ _ _ Hok) as Hsub.
  pose proof (mc_shows _ _ _ _ _ _ Hm) as Hs. pose proof (hb_good _ _ _ Hb) as Hg. destruct (block_views b Hg) as (_ & Hvh & _).
  destruct (import_route_runs hash (BlockAppended (block_bytes b)) (Some hash)) as (route & Hroute).
  { unfold changed_hash. simpl. by rewrite Hvh, (hb_hash _ _ _ Hb). }
  unfold chain_update_best_as_committed, mbind at 1, stM_bind at 1, get_st. rewrite (sc_no_best _ _ Hs), (sc_best _ _ Hs).
  eapply run_peeks; [apply (peeks_lift (Ok ()))|done|]. clear Hs. intros s0 Hs.
  eapply run_peeks; [apply peeks_headers, peeks_details|done|]. clear s0 Hs. intros s0 Hs. rewrite (lookup_weaken _ _ _ _ Hd Hsub).
  eapply run_peeks; [apply (peeks_lift (Ok d))|done|]. clear s0 Hs. intros s0 Hs.
  eapply run_peeks; [eapply peeks_best_detail, lookup_weaken; [exact Hbest|done]|done|]. clear s0 Hs. intros s0 Hs.
  rewrite bool_decide_eq_true_2 by done. cbn [negb]. rewrite committed_next.
  eapply run_peeks; [apply (peeks_lift (Ok ()))|done|]. clear s0 Hs. intros s0 Hs.
  eapply run_peeks; [by apply peeks_block|done|]. clear s0 Hs. intros s0 Hs.
  eapply run_peeks; [apply (peeks_lift (Ok (block_bytes b)))|done|]. clear s0 Hs. intros s0 Hs.
  destruct (Hact _ (sc_headers _ _ Hs)) as (h0 & Eh & Hh0).
  assert (known_blocks (cv_bodies c) []) as Hnil by by intros h ?%not_elem_of_nil.
  destruct (update_best_block_ok (BlockAppended (block_bytes b)) (bc_body_db s0) (cv_bodies c) committed_parcels committed_trackers
    (sc_bodies _ _ Hs)) as (b2 & Eb2 & Hb2).
  { intros P T. apply peeks_parcel_entries; try done. exact (ok_good _ _ _ _ _ Hok). }
  { intros P T. apply peeks_tracker_entries; try done. exact (ok_good _ _ _ _ _ Hok). }
  unfold mbind, stM_bind, on_headers, on_bodies. rewrite Eh. cbv beta iota. cbn [bc_body_db bc_parts]. rewrite Eb2. cbv beta iota.
  cbn [lift_st modify_st]. rewrite Hroute. cbv beta iota. eexists _, _. split; [done|]. split; [reflexivity|]. destruct Hs. split; simpl; eauto.
Qed.

Lemma commit_runs v' hb f :
  acts_of shows (update_best_as_committed hash) (cv_headers c) (Ok hb) f → leaves f hb (cv_headers c) v' →
  ∃ route s', commit_best_block hash s = (Ok route, s') ∧ shows_chain s' (committed_view v') ∧
    follows (on_chain D (cv_best c)) (on_chain D hash) route.
Proof.
  intros Hact Hl. destruct (update_runs hb f Hact) as (route & s1 & Hr & E1 & Haw).
  destruct (finish f _ _ (Some hash) hash s1 c v' hb None ∅ [] route Haw Hl) as (s' & E & Hs'); [done|done|apply map_disjoint_empty_l|].
  exists route, s'. split; [unfold commit_best_block, mbind at 1, stM_bind at 1; by rewrite E1|]. split; [done|].
  destruct (block_views b (hb_good _ _ _ Hb)) as (_ & Hvh & _).
  eapply (follows_moved hash (BlockAppended (block_bytes b)) (bk_hash b) _ _ [] []); [unfold changed_hash; simpl; by rewrite Hvh|exact Hr|done|..]; intros h.
  - by intros ?%not_elem_of_nil.
  - exact (committed_chain h).
  - by intros ?%not_elem_of_nil.
Qed.
End Commit.

Lemma final_step hash : block_admissible rule t (BlockFinal hash) → step_ok rule g genesis s t (BlockFinal hash).
Proof.
  intros (Hrule & d & dbest & dprop & Hd & Hbest & Hprop & Hcase). pose proof (mc_ok _ _ _ _ _ _ Hm) as Hok.
  pose proof (ok_sub _ _ _ _ _ Hok) as Hsub. pose proof (mc_headers _ _ _ _ _ _ Hm) as Hh.
  rewrite <-chain_best in *. rewrite <-chain_proposal in *. unfold step_ok. cbn [chain_tree_call block_call]. rewrite Hd, <-chain_best.
  destruct Hcase as [(Hp & Hpos & Htop & Hadm)|[Hp Hle]].
  - rewrite bool_decide_eq_true_2 by done. rewrite <-Hh in Hadm.
    destruct (block_committed _ _ _ _ _ (ok_headers _ _ _ _ _ Hok) Hadm) as (v' & hb & f & Hact & Hl & Hu & Ht' & Hse').
    destruct (ok_has _ _ _ _ _ Hok hash d Hd) as (b & Hb).
    destruct (commit_runs hash d dbest dprop b Hd Hbest Hprop Hb Hp Hpos Htop Hrule v' hb f Hact Hl) as (route & s' & E & Hs' & Hfol).
    exists route, s', (committed_view hash b v'). split; [done|]. unfold best_chain. rewrite <-chain_best. split; [|done]. destruct Hm as [_ _ _ Hse Ht Hbl].
    split; cbn [ct_headers ct_seen ct_tree ct_blocks ht_details]; try done; [|by rewrite <-Hh| |].
    + apply (committed_ok hash d dbest dprop b); try done. change (vw_details v') with (ht_details (tree_of v')). rewrite Ht'.
      exact (tree_commit_details hash (tree_of (cv_headers c))).
    + simpl. congruence.
    + simpl. by rewrite (left_id_L ∅ (∪)).
  - rewrite bool_decide_eq_false_2 by done.
    assert (peeks_of shows_chain (chain_update_best_as_committed hash) c (Ok (ImportRoute_none, []))) as Hpk.
    { apply peeks_get. intros s0 Hs. rewrite (sc_no_best _ _ Hs), (sc_best _ _ Hs). apply (peeks_lift_bind ()).
      eapply peeks_bind; [apply peeks_headers, peeks_details|]. rewrite (lookup_weaken _ _ _ _ Hd Hsub). apply (peeks_lift_bind d).
      eapply peeks_bind; [eapply peeks_best_detail, lookup_weaken; [exact Hbest|done]|]. rewrite bool_decide_eq_false_2 by done. cbn [negb].
      rewrite (proj2 (N.leb_le _ _) Hle). apply peeks_lift_bind, peeks_ret. }
    destruct (Hpk _ (mc_shows _ _ _ _ _ _ Hm)) as (s1 & E1 & Hs1). destruct (idle_runs s1 ImportRoute_none Hs1) as (s' & c' & E & Hm').
    exists ImportRoute_none, s', c'. split; [|split; [done|intros _; by apply follows_none]]. unfold commit_best_block, mbind at 1, stM_bind at 1. by rewrite E1.
Qed.

Lemma chain_step call : block_admissible rule t call → step_ok rule g genesis s t call.
Proof.
  destruct call as [h a|b inv a|hash]; intros Hadm; [by apply header_step| |by apply final_step].
  destruct (ct_blocks t !! bk_hash b) eqn:Hb; [|by apply new_block_step]. apply known_block_step; [apply Hadm|apply Hadm|by eexists].
Qed.
End Step.
End Props.
