(* ===== verification/BlockChainRuns.v ===== *)
(** Runs of the chain of blocks from its genesis on: what it answers after any calls, what it answers when it is started again with the
    same database, and what the routes of the calls say of the chain of the best block. *)
From Stdlib Require Import NArith Lia.
From stdpp Require Import base gmap list numbers.
From S2P Require Import TmWorker.
From S2P Require Import Prelude Types Crypto Rlp RlpImpls RlpCompress TxHash StakeSpec Header HeaderChain HeaderChainFacts HeaderChainStep.
From S2P Require Import HeaderChainProps BlockChain BlockChainFacts BlockIndex BlockChainStep BlockChainProps.

Local Open Scope N_scope.

Section Runs.
Context `{CryptoLaws}.

(** * From the genesis on *)

Definition genesis_tree (b : Block) : ChainTree :=
  let t := tree_genesis (bk_hash b) (bk_header b) in
  {| ct_headers := t; ct_seen := {[bk_hash b := bk_header_bytes b]}; ct_tree := t; ct_blocks := {[bk_hash b := b]} |}.

Definition genesis_chain (b : Block) : result Empty_set BlockChain := BlockChain_new (block_bytes b) empty_db ∅ ∅ ∅ ∅ ∅ None None.
(** The chain of a node that is started again. *)
Definition restarted_chain (b : Block) (s : BlockChain) : result Empty_set BlockChain :=
  BlockChain_new (block_bytes b) (hc_db (bc_headerchain s)) (bo_db_bodies (bc_body_db s)) (bo_db_parcels (bc_body_db s))
    (bo_db_trackers (bc_body_db s)) (iv_db_trackers (bc_invoice_db s)) (iv_db_hints (bc_invoice_db s))
    (bc_db_best_block s) (bc_db_best_proposal_block s).

Definition genesis_block (b : Block) : Prop := good_block b ∧ hd_number (bk_header b) = 0 ∧ bk_transactions b = [].

(** Without transactions there is nothing to find. *)
Lemma located_none key b C x a : bk_transactions b = [] → ¬ located key {[bk_hash b := b]} C x a.
Proof. intros Ht (_ & b' & t & [_ <-]%lookup_singleton_Some & Hb & _). by rewrite Ht in Hb. Qed.

Lemma new_bodies b : good_block b →
  ∃ s, BodyDB_new (block_bytes b) ∅ ∅ ∅ = Ok s ∧ holds ∅ ∅ s {| bw_blocks := {[bk_hash b := b]}; bw_parcels := ∅; bw_trackers := ∅ |}.
Proof.
  intros Hg. destruct (block_views b Hg) as (_ & Hh & _ & _ & Hbody). unfold BodyDB_new, block_body. rewrite Hh, Ok_bind. simpl.
  rewrite Hbody. eexists. split; [done|]. split; simpl; try done; try apply map_empty_subseteq.
  intros hash. destruct (decide (hash = bk_hash b)) as [->|Hne].
  - rewrite lookup_singleton_eq, lookup_insert_eq. eexists. split; [done|]. apply plain_reads_back. by apply good_block_body.
  - rewrite lookup_singleton_ne by done. by rewrite lookup_insert_ne.
Qed.

Lemma new_chain rule b : genesis_block b →
  ∃ s c, genesis_chain b = Ok s ∧ models_chain rule (hd_score (bk_header b)) (bk_hash b) s (genesis_tree b) c.
Proof.
  intros (Hg & Hz & Htx). destruct (block_views b Hg) as (Hhd & Hh & _). destruct (new_bodies b Hg) as (bo & Ebo & Hbo).
  destruct (new_shows rule _ _ (good_block_header b Hg) Hz) as (h & v & Eh & Hs & Hu & Ht & Hv).
  fold (bk_header_bytes b) in Eh, Hu, Ht, Hv. fold (bk_hash b) in Hu, Ht, Hv. pose proof Hu as (Hsound & _ & Hlead).
  assert (vw_details v = ht_details (tree_genesis (bk_hash b) (bk_header b))) as Ed by by rewrite <-Ht.
  assert (is_Some (vw_details v !! bk_hash b)) as Hroot by by rewrite Ed; simpl; rewrite lookup_singleton_eq.
  unfold genesis_chain, BlockChain_new. rewrite Hh, Ok_bind, Hhd, Ok_bind, Eh, Ok_bind, Ebo, Ok_bind. eexists.
  exists {| cv_headers := v; cv_bodies := {| bw_blocks := {[bk_hash b := b]}; bw_parcels := ∅; bw_trackers := ∅ |};
            cv_best := bk_hash b; cv_proposal := bk_hash b |}.
  split; [done|]. split; try done. unfold genesis_tree. cbn [ct_tree]. rewrite <-Ed. split; simpl; try done.
  - intros x d. rewrite Ed. simpl. split; [|tauto]. intros [<- <-]%lookup_singleton_Some. by rewrite !lookup_singleton_eq.
  - intros x bx [<- <-]%lookup_singleton_Some. split; simpl; rewrite ?Hv, ?lookup_singleton_eq; done.
  - apply Hsound.
  - rewrite Ht in Hlead. unfold block_tree. rewrite Ed. exact Hlead.
  - intros x _ y a a' Ha. by apply located_none in Ha.
  - intros x a. split; [done|]. intros Ha. by apply located_none in Ha.
  - intros x. split; [done|]. intros a. simpl. split; [by intros ?%not_elem_of_nil|]. intros Ha. by apply located_none in Ha.
Qed.

Lemma restarted rule g s t c b : good_block b →
  models_chain rule g (bk_hash b) s t c → ∃ s1, restarted_chain b s = Ok s1 ∧ models_chain rule g (bk_hash b) s1 t c.
Proof.
  intros Hg [Hs Hok Hh Hse Ht Hbl]. destruct (tree_root _ _ (ok_tree _ _ _ _ _ Hok)) as (d & Hd & _). destruct (block_views b Hg) as (Hhd & Hbh & _).
  destruct (restart_shows _ _ (bk_header_bytes b) (sc_headers _ _ Hs)) as (h1 & Eh1 & Hh1).
  destruct (ok_has _ _ _ _ _ Hok _ _ Hd) as (b' & Hb').
  unfold restarted_chain, BlockChain_new. rewrite Hbh, Ok_bind, Hhd, Ok_bind, Eh1, Ok_bind. unfold BodyDB_new. rewrite Hbh, Ok_bind.
  match goal with |- context [block_body (bk_hash b) ?x] => set (bo := x) end.
  assert (holds ∅ ∅ bo (cv_bodies c)) as Hbo.
  { destruct (sc_bodies _ _ Hs). split; simpl; try done; apply map_empty_subseteq. }
  destruct (peeks_body ∅ ∅ (cv_bodies c) (bk_hash b) bo Hbo) as (bo' & -> & Hbo').
  rewrite (hb_block _ _ _ Hb'). simpl. eexists. split; [done|]. split; try done. destruct Hs. split; simpl; try done.
  - by rewrite sc_db_best.
  - by rewrite sc_db_proposal.
  - by rewrite sc_db_best.
  - by rewrite sc_db_proposal.
Qed.

(** * Runs *)

(** What the routes of the blocks add up to. *)
Definition add_route (m : gmap H256 bool) (route : ImportRoute) : gmap H256 bool :=
  foldl (λ m hash, <[hash := false]> m) (foldl (λ m hash, <[hash := true]> m) m (ir_enacted route)) (ir_retracted route).

Definition tells (C0 C : H256 → Prop) (m : gmap H256 bool) : Prop :=
  ∀ h, match m !! h with Some true => C h | Some false => ¬ C h | None => C h ↔ C0 h end.

Lemma mark_lookup (v : bool) (l : list H256) (m : gmap H256 bool) (h : H256) :
  foldl (λ m hash, <[hash := v]> m) m l !! h = if bool_decide (h ∈ l) then Some v else m !! h.
Proof.
  revert m. induction l as [|x l IH]; intros m; cbn [foldl]; [by rewrite (bool_decide_eq_false_2 _ (not_elem_of_nil h))|].
  rewrite IH. destruct (bool_decide_reflect (h ∈ l)) as [Hl|Hl].
  - by rewrite bool_decide_eq_true_2 by by right.
  - destruct (decide (h = x)) as [->|Hne].
    + rewrite lookup_insert_eq. by rewrite bool_decide_eq_true_2 by by left.
    + rewrite lookup_insert_ne by done. rewrite bool_decide_eq_false_2; [done|]. by intros [->|?]%list.elem_of_cons.
Qed.

Lemma tells_route C0 C C' m route : tells C0 C m → follows C C' route → tells C0 C' (add_route m route).
Proof.
  intros Ht [Hr Hf] h. specialize (Ht h). specialize (Hf h). unfold add_route. rewrite !mark_lookup.
  destruct (bool_decide_reflect (h ∈ ir_retracted route)) as [Hin|Hin]; [by apply Hr|].
  destruct (bool_decide_reflect (h ∈ ir_enacted route)) as [He|He]; [tauto|]. destruct (m !! h) as [[]|]; tauto.
Qed.

Lemma chain_runs rule g genesis calls s t c C0 m :
  models_chain rule g genesis s t c → all_block_admissible rule t calls →
  ∃ routes s' c', map_st (block_call rule) calls s = (Ok routes, s') ∧
    models_chain rule g genesis s' (foldl (chain_tree_call rule) t calls) c' ∧
    (Forall of_block calls → tells C0 (best_chain t) m →
     tells C0 (best_chain (foldl (chain_tree_call rule) t calls)) (foldl add_route m routes)).
Proof.
  revert s t c m. induction calls as [|call calls IH]; intros s t c m Hm Hadm; [by exists [], s, c|]. destruct Hadm as [Hc Hadm].
  destruct (chain_step _ _ _ _ _ _ Hm call Hc) as (route & s1 & c1 & E1 & Hm1 & Hfol).
  destruct (IH _ _ _ (add_route m route) Hm1 Hadm) as (routes & s' & c' & E' & Hm' & Htell). exists (route :: routes), s', c'. split_and!.
  - simpl. unfold mbind, stM_bind. rewrite E1. by rewrite E'.
  - done.
  - intros [Hb Hbs]%list.Forall_cons Ht. simpl. apply Htell; [done|]. eapply tells_route; [done|by apply Hfol].
Qed.

(** * What the chain answers *)

Definition answers_chain (s : BlockChain) (t : ChainTree) : Prop :=
  bc_best_block_hash s = ht_best (ct_tree t) ∧ bc_best_proposal_block_hash s = ht_proposal (ct_tree t) ∧
  answers (bc_headerchain s) (ct_headers t) ∧
  (∀ hash, ∃ s', chain_block hash s = (Ok (block_bytes <$> ct_blocks t !! hash), s')) ∧
  (∀ hash, ∃ address s', on_bodies (transaction_address hash) s = (Ok address, s') ∧
     ∀ a, address = Some a ↔ located by_hash (ct_blocks t) (best_chain t) hash a) ∧
  (∀ tracker, ∃ address s', on_bodies (transaction_address_by_tracker tracker) s = (Ok address, s') ∧
     match address with
     | Some a => located by_tracker (ct_blocks t) (best_chain t) tracker a
     | None => ∀ a, ¬ located by_tracker (ct_blocks t) (best_chain t) tracker a
     end) ∧
  (∀ b a tx, ct_blocks t !! ta_block_hash a = Some b → bk_transactions b !! N.to_nat (ta_index a) = Some tx →
     ∃ s', chain_transaction a s =
       (Ok (Some {| lt_signed := tx; lt_block_number := hd_number (bk_header b); lt_block_hash := ta_block_hash a;
                    lt_transaction_index := ta_index a |}), s')).

Section Answers.
Context (rule : BestRule) (g : N) (genesis : H256) (s : BlockChain) (t : ChainTree) (c : chain_view).
Context (Hm : models_chain rule g genesis s t c).
Let Hok := mc_ok _ _ _ _ _ _ Hm.

Lemma peeks_chain_block hash : peeks_of shows_chain (chain_block hash) c (Ok (block_bytes <$> bw_blocks (cv_bodies c) !! hash)).
Proof.
  destruct (bw_blocks (cv_bodies c) !! hash) as [b|] eqn:Hb; [by apply peeks_block, (ok_block _ _ _ _ _ Hok)|].
  unfold chain_block. eapply peeks_bind; [apply peeks_headers, peeks_header|].
  destruct (vw_headers (cv_headers c) !! hash); [|apply peeks_ret].
  eapply peeks_bind; [apply peeks_bodies, peeks_body|]. rewrite Hb. apply peeks_ret.
Qed.

Lemma known_number hash b : has_block c hash b → ∃ d, vw_details (cv_headers c) !! hash = Some d ∧ bd_number d = hd_number (bk_header b).
Proof.
  intros [Hb Hh Hg _]. destruct (ok_headers _ _ _ _ _ Hok) as (Hs & _). destruct (so_headers _ _ Hs _ _ Hh) as [d Hd]. exists d. split; [done|].
  destruct (so_stored _ _ Hs _ _ Hd) as (bytes & [_ Hb' _ Hn _ _]). rewrite Hh in Hb'. injection Hb' as <-.
  destruct (header_views _ _ (good_block_header b Hg)) as (Hn' & _). unfold bk_header_bytes in Hn. rewrite Hn' in Hn. by injection Hn.
Qed.

Lemma peeks_transaction a b tx : bw_blocks (cv_bodies c) !! ta_block_hash a = Some b → bk_transactions b !! N.to_nat (ta_index a) = Some tx →
  peeks_of shows_chain (chain_transaction a) c
    (Ok (Some {| lt_signed := tx; lt_block_number := hd_number (bk_header b); lt_block_hash := ta_block_hash a;
                 lt_transaction_index := ta_index a |})).
Proof.
  intros Hb Htx. pose proof (ok_block _ _ _ _ _ Hok _ _ Hb) as Hhas. destruct (known_number _ _ Hhas) as (d & Hd & Hn).
  destruct (body_views b (hb_good _ _ _ Hhas)) as (_ & _ & _ & Hat).
  unfold chain_transaction. eapply peeks_bind; [apply peeks_bodies, peeks_body|]. rewrite Hb. cbn [fmap option_fmap option_map].
  eapply peeks_bind; [apply peeks_headers; unfold block_number; eapply peeks_bind; [apply peeks_details|apply peeks_ret]|].
  rewrite Hd. cbn [fmap option_fmap option_map]. rewrite Hat, Htx, Hn. apply peeks_lift_bind, peeks_ret.
Qed.

Lemma chain_answers : answers_chain s t.
Proof.
  pose proof (mc_shows _ _ _ _ _ _ Hm) as Hs. unfold answers_chain, best_chain.
  rewrite <-(chain_best _ _ _ _ _ _ Hm), <-(chain_proposal _ _ _ _ _ _ Hm), <-(mc_blocks _ _ _ _ _ _ Hm).
  split; [apply Hs|]. split; [apply Hs|]. split.
  { eapply models_answers. exists (cv_headers c). split; [apply Hs|]. split; [apply Hok|]. symmetry. apply Hm. }
  split; [|split; [|split]].
  - intros hash. destruct (peeks_chain_block hash s Hs) as (s' & E & _). by exists s'.
  - intros hash. destruct (peeks_bodies _ _ _ (peeks_address ∅ ∅ (cv_bodies c) hash) s Hs) as (s' & E & _). eexists _, s'. split; [exact E|].
    intros a. apply (ok_parcels _ _ _ _ _ Hok).
  - intros tracker. destruct (peeks_bodies _ _ _ (peeks_address_by_tracker ∅ ∅ (cv_bodies c) tracker) s Hs) as (s' & E & _).
    eexists _, s'. split; [exact E|]. destruct (ok_trackers _ _ _ _ _ Hok tracker) as [Hne Hx].
    destruct (bw_trackers (cv_bodies c) !! tracker) as [[|a l]|]; simpl in *; [done|apply Hx; by left|].
    intros a Ha%Hx. by apply not_elem_of_nil in Ha.
  - intros b a tx Hb Htx. destruct (peeks_transaction a b tx Hb Htx s Hs) as (s' & E & _). by exists s'.
Qed.
End Answers.

(** C18: After any headers, blocks and commits that the node hands to it, under the default rule of the best block and under that of
    Tendermint, the chain of blocks, with its three databases, their caches, the pending updates and the batches, answers as the tree of
    the blocks does.  No call unwinds, the best block is the one that the rule picks, every block comes back as it was put in, and the
    index of the transactions is that of the chain of the best block: a transaction has an address exactly when it is on that chain,
    and the address is its place; a tracker has the address of a transaction with that tracker when there is one on that chain.  So does
    the chain of a node that is started again with the same database. *)
Theorem block_chain_indexed (rule : BestRule) (b : Block) (calls : list BlockCall) :
  genesis_block b → all_block_admissible rule (genesis_tree b) calls →
  ∃ s0 routes s s1, genesis_chain b = Ok s0 ∧ map_st (block_call rule) calls s0 = (Ok routes, s) ∧ restarted_chain b s = Ok s1 ∧
    let t := foldl (chain_tree_call rule) (genesis_tree b) calls in answers_chain s t ∧ answers_chain s1 t.
Proof.
  intros Hb Hadm. destruct (new_chain rule b Hb) as (s0 & c0 & E0 & Hm0).
  destruct (chain_runs _ _ _ calls _ _ _ (λ _, True) ∅ Hm0 Hadm) as (routes & s & c & E & Hm & _).
  destruct (restarted _ _ _ _ _ b (proj1 Hb) Hm) as (s1 & E1 & Hm1). exists s0, routes, s, s1. do 3 (split; [done|]).
  split; by eapply chain_answers.
Qed.

(** C21: What the client takes from the routes of several blocks is what they did to the chain of the best block together: a block that
    it reports as enacted is on the chain in the end, one that it reports as retracted is not, and all others are on it as before. *)
Theorem enacted_retracted_exact (rule : BestRule) (b : Block) (calls0 calls : list BlockCall) :
  let t0 := foldl (chain_tree_call rule) (genesis_tree b) calls0 in
  let t := foldl (chain_tree_call rule) t0 calls in
  genesis_block b → all_block_admissible rule (genesis_tree b) calls0 → all_block_admissible rule t0 calls → Forall of_block calls →
  ∃ s0 routes0 s routes s', genesis_chain b = Ok s0 ∧ map_st (block_call rule) calls0 s0 = (Ok routes0, s) ∧
    map_st (block_call rule) calls s = (Ok routes, s') ∧
    ∀ hash, match enacted_retracted routes !! hash with
      | Some true => best_chain t hash
      | Some false => ¬ best_chain t hash
      | None => best_chain t hash ↔ best_chain t0 hash
      end.
Proof.
  intros t0 t Hb Hadm0 Hadm Hof. destruct (new_chain rule b Hb) as (s0 & c0 & E0 & Hm0).
  destruct (chain_runs _ _ _ calls0 _ _ _ (λ _, True) ∅ Hm0 Hadm0) as (routes0 & s & c & E & Hm & _).
  destruct (chain_runs _ _ _ calls _ _ _ (best_chain t0) ∅ Hm Hadm) as (routes & s' & c' & E' & _ & Htell).
  exists s0, routes0, s, routes, s'. do 3 (split; [done|]). apply Htell; [done|]. intros h. by rewrite lookup_empty.
Qed.

(** * Invoices *)

(** A new invoice leaves empty caches empty. *)
Lemma insert_new_invoice i hash tracker hint :
  iv_hash_cache i = ∅ → iv_tracker_cache i = ∅ → iv_db_hints i !! hash = None →
  insert_invoice hash (Some tracker) hint i =
    (Ok [WriteInvoices tracker (default [] (iv_db_trackers i !! tracker) ++ [(hash, hint)]); WriteHint hash hint], i).
Proof.
  destruct i as [tc hc dt dh]. simpl. intros -> -> Hh.
  unfold insert_invoice, is_known_error_hint, read_with_cache, mbind, stM_bind. simpl. rewrite !lookup_empty, Hh. simpl.
  destruct (dt !! tracker); simpl; unfold iv_caches, mret, stM_ret; rewrite !lookup_empty;
    simpl; rewrite ?delete_insert_eq, !delete_empty; done.
Qed.

(** Two transactions of one block with the same tracker: the list of the tracker is read from the database, which does not have the
    first one yet, so the write for the second one overwrites that for the first.  By its hash the first one is still found. *)
Theorem invoice_hint_lost (s : BlockChain) (tracker h1 h2 : H256) (e1 e2 : option String) :
  let i := bc_invoice_db s in
  h1 ≠ h2 → iv_db_hints i !! h1 = None → iv_db_hints i !! h2 = None → iv_hash_cache i = ∅ → iv_tracker_cache i = ∅ →
  ∃ l s1, map_st (λ i, on_invoices (insert_invoice (inv_hash i) (inv_tracker i) (inv_error i)))
      [{| inv_tracker := Some tracker; inv_hash := h1; inv_error := e1 |};
       {| inv_tracker := Some tracker; inv_hash := h2; inv_error := e2 |}] s = (Ok l, s1) ∧
    let s2 := foldl apply_chain_op s1 (concat l) in
    fst (error_hints_by_tracker tracker (bc_invoice_db s2)) = Ok (default [] (iv_db_trackers i !! tracker) ++ [(h2, e2)]) ∧
    fst (error_hint h1 (bc_invoice_db s2)) = Ok e1.
Proof.
  intros i Hne Hh1 Hh2 Hc Ht. eexists _, s. split.
  - cbn [map_st]. unfold mbind, stM_bind, on_invoices. cbn [inv_hash inv_tracker inv_error]. rewrite insert_new_invoice by done.
    cbv beta iota. cbn [bc_invoice_db bc_parts]. rewrite insert_new_invoice by done. cbv beta iota. by destruct s.
  - subst i. split; unfold error_hints_by_tracker, error_hint, read_with_cache; simpl.
    + rewrite Ht, lookup_empty, lookup_insert_eq. done.
    + rewrite Hc, lookup_empty, lookup_insert_ne, lookup_insert_eq by done. done.
Qed.
End Runs.
