(* ===== verification/BlockChainScenario.v ===== *)
(** Runs of the chain of blocks: a branch whose transactions are found under other addresses once a heavier one overtakes it, and two
    invoices with one tracker in one block. *)
From Stdlib Require Import NArith Lia.
From stdpp Require Import base gmap list numbers.
From S2P Require Import TmWorker.
From S2P Require Import Prelude Types Crypto Rlp RlpImpls RlpCompress TxRlp TxHash StakeSpec Header HeaderChain HeaderChainFacts.
From S2P Require Import HeaderChainStep.
From S2P Require Import HeaderChainProps HeaderChainScenario BlockChain BlockChainFacts BlockIndex BlockChainStep BlockChainProps BlockChainRuns.

Local Open Scope N_scope.

Module BlockChainWitness.
Import HeaderChainWitness.
#[local] Existing Instances crypto laws.

(** * A test of the calls *)

(** The hashes on the chain of a block. *)
Definition chain_list (D : gmap H256 BlockDetails) (h : H256) : list H256 :=
  match D !! h with Some d => omap (λ k, anc D k h) (seq 0 (S (N.to_nat (bd_number d)))) | None => [] end.

Lemma on_chain_list D h x : on_chain D h x → x ∈ chain_list D h.
Proof.
  intros (d & k & Hd & Hk & Hx). unfold chain_list. rewrite Hd. apply list_elem_of_omap. exists k. split; [|done]. apply elem_of_seq. lia.
Qed.

(** The transactions of the blocks, with their places. *)
Definition placed (B : gmap H256 Block) (l : list H256) : list (H256 * TransactionAddress) :=
  concat ((λ h, match B !! h with
    | Some b => imap (λ i t, (utx_hash t, {| ta_block_hash := h; ta_index := N.of_nat i |})) (bk_transactions b)
    | None => [] end) <$> l).
Definition once_test (B : gmap H256 Block) (l : list H256) : bool :=
  let all := placed B l in
  forallb (λ p, forallb (λ q, bool_decide (p.1 = q.1 → p.2 = q.2)) all) all.

Lemma located_placed B C l x a : (∀ h, C h → h ∈ l) → located by_hash B C x a → (x, a) ∈ placed B l.
Proof.
  intros Hl (Ha & b & t & Hb & Ht & [= <-]). apply elem_of_concat. eexists. split; [|apply list_elem_of_fmap; exists (ta_block_hash a); split; [done|by apply Hl]].
  rewrite Hb. apply list_elem_of_lookup. exists (N.to_nat (ta_index a)). rewrite list_lookup_imap, Ht. simpl. rewrite N2Nat.id. by destruct a.
Qed.

Lemma once_test_ok B C l : (∀ h, C h → h ∈ l) → once_test B l = true → once B C.
Proof.
  intros Hl Ht x a a' Ha Ha'. unfold once_test in Ht. rewrite forallb_forall in Ht.
  specialize (Ht (x, a)). rewrite forallb_forall in Ht. specialize (Ht ltac:(by apply list_elem_of_In, (located_placed B C))).
  specialize (Ht (x, a') ltac:(by apply list_elem_of_In, (located_placed B C))). apply bool_decide_eq_true in Ht. by apply Ht.
Qed.

Definition block_test (rule : BestRule) (t : ChainTree) (b : Block) (allowed_height : BlockNumber) : bool :=
  let D := ht_details (tree_insert rule (bk_header b) allowed_height (ct_tree t)) in
  arrival_test rule (ct_headers t) (bk_header b) allowed_height && arrival_test rule (ct_tree t) (bk_header b) allowed_height &&
  match ct_seen t !! bk_hash b with Some bytes => bool_decide (bytes = bk_header_bytes b) | None => true end &&
  once_test (<[bk_hash b := b]> (ct_blocks t)) (chain_list D (bk_hash b)).

(** A block that is committed on the best block and on the best header. *)
Definition final_test (t : ChainTree) (hash : H256) : bool := child_test (ct_tree t) hash && child_test (ct_headers t) hash.

Definition block_call_test (rule : BestRule) (t : ChainTree) (call : BlockCall) : bool :=
  match call, rule with
  | HeaderComes h a, _ => arrival_test rule (ct_headers t) h a
  | BlockComes b _ a, _ => block_test rule t b a
  | BlockFinal hash, ParentIsBest => final_test t hash
  | BlockFinal _, ProposalIsBest => false
  end.
Fixpoint block_calls_test (rule : BestRule) (t : ChainTree) (calls : list BlockCall) : bool :=
  match calls with
  | [] => true
  | call :: calls => block_call_test rule t call && block_calls_test rule (chain_tree_call rule t call) calls
  end.
Definition good_call (call : BlockCall) : Prop :=
  match call with BlockComes b _ _ => good_block b ∧ memo_ok (bk_header b) | _ => True end.

Lemma final_test_ok t hash : final_test t hash = true → block_admissible ParentIsBest t (BlockFinal hash).
Proof.
  unfold final_test. rewrite andb_true_iff. intros [Hc Hh]. split; [done|]. apply child_test_ok in Hh. unfold child_test in Hc.
  destruct (ht_details (ct_tree t) !! hash) as [d|] eqn:Hd; [|done].
  destruct (ht_details (ct_tree t) !! ht_best (ct_tree t)) as [dbest|] eqn:Hb; [|done].
  destruct (ht_details (ct_tree t) !! ht_proposal (ct_tree t)) as [dprop|] eqn:Hp; [|done].
  rewrite !andb_true_iff, N.ltb_lt, N.leb_le, bool_decide_eq_true in Hc. destruct Hc as [[Hpos Hle] Hpar].
  exists d, dbest, dprop. split_and!; [done..|]. by left.
Qed.

Lemma block_call_test_ok rule t call : good_call call → block_call_test rule t call = true → block_admissible rule t call.
Proof.
  destruct call as [h a|b inv a|hash]; intros Hg Ht; simpl in Ht.
  - by apply arrival_test_ok.
  - destruct Hg as [Hg Hmemo]. split; [done|]. split; [done|]. right. unfold block_test in Ht. rewrite !andb_true_iff in Ht. destruct Ht as [[[H1 H2] H3] H4].
    split; [by apply arrival_test_ok|]. split; [by apply arrival_test_ok|]. split.
    + intros bytes Hb. rewrite Hb in H3. by apply bool_decide_eq_true in H3.
    + eapply once_test_ok; [|exact H4]. apply on_chain_list.
  - destruct rule; [done|by apply final_test_ok].
Qed.

Lemma block_calls_test_ok rule calls t : Forall good_call calls → block_calls_test rule t calls = true → all_block_admissible rule t calls.
Proof.
  revert t. induction calls as [|call calls IH]; intros t Hg; [done|]. apply list.Forall_cons in Hg as [Hc Hcs]. simpl. rewrite andb_true_iff.
  intros [H1 H2]. split; [by apply block_call_test_ok|by apply IH].
Qed.

(** * Blocks *)

Definition signed (seq : N) (action : Action.t) : UnverifiedTransaction :=
  UnverifiedTransaction_new {| tx_seq := seq; tx_fee := 10; tx_network_id := [116; 99]; tx_action := action |} (replicate 65 3).
Definition pay (seq : N) : UnverifiedTransaction := signed seq (Action.Pay (replicate 20 7) 5).
(** A transaction with a tracker. *)
Definition wrap : UnverifiedTransaction := signed 9 (Action.WrapCCC 0 (replicate 20 4) [] 6 (replicate 20 8)).

Definition block (h : Header) (txs : list UnverifiedTransaction) : Block := {| bk_header := h; bk_seals := []; bk_transactions := txs |}.

Lemma good_signed seq action : seq < u64_size → wf Action_codec action → good_tx (signed seq action).
Proof. intros Hs Ha. split; [|done]. split_and!; [done|done| |done]. repeat constructor; done. Qed.

Lemma good_block_of h txs : header_test h = true → Forall good_tx txs → (len (block_bytes (block h txs)) <? u32_size) = true →
  good_block (block h txs).
Proof. intros Hh%header_test_ok Ht Hf%N.ltb_lt. split; [apply Hh|done]. Qed.

Ltac good_txs := repeat (apply list.Forall_cons; split; [apply good_signed; [done|by vm_compute]|]); by apply list.Forall_nil.
Ltac good_calls :=
  repeat (apply list.Forall_cons; split;
    [first [exact I|split; [apply good_block_of; [vm_compute; reflexivity|good_txs|vm_compute; reflexivity]|exact I]]|]);
  by apply list.Forall_nil.

Definition root_block : Block := block genesis [].
Lemma root_genesis : genesis_block root_block.
Proof. split; [|done]. apply good_block_of; [vm_compute; reflexivity|good_txs|vm_compute; reflexivity]. Qed.

(** Tendermint, as with the headers: of two blocks of height 2 the first is committed, and the chain goes on from the second, which has
    the transaction [wrap] as well, at another place. *)
Definition A1 : Block := block a1 [pay 0].
Definition A2 : Block := block a2 [wrap].
Definition B2 : Block := block b2 [pay 1; wrap].
Definition B3 : Block := block b3 [pay 2].
Definition bft_blocks : list BlockCall :=
  [HeaderComes a1 0; BlockComes A1 [] 0; BlockComes A2 [] 1; BlockComes B2 [] 2; BlockFinal (bk_hash A2); BlockComes B3 [] 3].

Lemma bft_blocks_good : Forall good_call bft_blocks.
Proof. good_calls. Qed.

Lemma block_chain_indexed_witness :
  ∃ s0 routes s s1, genesis_chain root_block = Ok s0 ∧ map_st (block_call ParentIsBest) bft_blocks s0 = (Ok routes, s) ∧
    restarted_chain root_block s = Ok s1 ∧
    let t := foldl (chain_tree_call ParentIsBest) (genesis_tree root_block) bft_blocks in
    chain_list (ht_details (ct_tree t)) (ht_best (ct_tree t)) = [bk_hash B2; bk_hash A1; bk_hash root_block] ∧
    answers_chain s t ∧ answers_chain s1 t.
Proof.
  destruct (block_chain_indexed ParentIsBest root_block bft_blocks) as (s0 & routes & s & s1 & E0 & E & E1 & Ha).
  - apply root_genesis.
  - apply block_calls_test_ok; [apply bft_blocks_good|vm_compute; reflexivity].
  - exists s0, routes, s, s1. do 3 (split; [assumption|]). split; [vm_compute; reflexivity|exact Ha].
Defined.

(** The default rule: a branch of two blocks is overtaken by a heavier one, block by block. *)
Definition D1 : Block := block d1 [pay 0; wrap].
Definition D2 : Block := block d2 [pay 1].
Definition E1 : Block := block e1 [wrap].
Definition E2 : Block := block e2 [pay 1; pay 0].
Definition first_blocks : list BlockCall := [BlockComes D1 [] 0; BlockComes D2 [] 0].
Definition heavier_blocks : list BlockCall := [BlockComes E1 [] 0; BlockComes E2 [] 0].

Lemma first_blocks_good : Forall good_call first_blocks.
Proof. good_calls. Qed.
Lemma heavier_blocks_good : Forall good_call heavier_blocks.
Proof. good_calls. Qed.

Lemma enacted_retracted_exact_witness :
  let t0 := foldl (chain_tree_call ProposalIsBest) (genesis_tree root_block) first_blocks in
  let t := foldl (chain_tree_call ProposalIsBest) t0 heavier_blocks in
  chain_list (ht_details (ct_tree t0)) (ht_best (ct_tree t0)) = [bk_hash D2; bk_hash D1; bk_hash root_block] ∧
  chain_list (ht_details (ct_tree t)) (ht_best (ct_tree t)) = [bk_hash E2; bk_hash E1; bk_hash root_block] ∧
  ∃ s0 routes0 s routes s', genesis_chain root_block = Ok s0 ∧ map_st (block_call ProposalIsBest) first_blocks s0 = (Ok routes0, s) ∧
    map_st (block_call ProposalIsBest) heavier_blocks s = (Ok routes, s') ∧
    ∀ hash, match enacted_retracted routes !! hash with
      | Some true => best_chain t hash
      | Some false => ¬ best_chain t hash
      | None => best_chain t hash ↔ best_chain t0 hash
      end.
Proof.
  cbv zeta. split; [vm_compute; reflexivity|]. split; [vm_compute; reflexivity|].
  apply (enacted_retracted_exact ProposalIsBest root_block first_blocks heavier_blocks).
  - apply root_genesis.
  - apply block_calls_test_ok; [apply first_blocks_good|vm_compute; reflexivity].
  - apply block_calls_test_ok; [apply heavier_blocks_good|vm_compute; reflexivity].
  - repeat constructor.
Defined.
End BlockChainWitness.
